(* ===== verification/_CoqProject ===== *)
-Q . S2P
Prelude.v
ProtoUtils.v
ProtoDecoder.v
ProtoWriter.v
ProtoRingBuffer.v
FilterBytecode.v
MessageFilter.v
TraceBuffer.v
TraceBufferRead.v
TraceBufferSession.v
SharedMemoryAbi.v
SharedMemoryArbiter.v
ArbiterPatches.v
IdAllocator.v
ArbiterBinding.v
ArbiterBindingState.v
ArbiterBindingSession.v
ArbiterChunks.v
TraceWriter.v
TraceWriterInvariant.v
TraceWriterPacket.v
TraceWriterSession.v
StdAlgorithms.v
CircularQueue.v
TraceSorterQueue.v
TraceSorter.v
TraceSorterExtract.v
FlatHashMap.v
FlatHashMapRefinement.v
StringPool.v
StringPoolCorrect.v
ClockTracker.v
ClockTrackerGraph.v
ClockTrackerCorrect.v
ClockTrackerConvert.v
ClockTrackerCache.v
BitVector.v
BitVectorWords.v
BitVectorSelect.v
BitVectorBlocks.v
BitVectorCorrect.v
BitVectorResize.v
BitVectorUpdate.v
BitVectorSession.v
BitVectorIterators.v
BitVectorIteration.v
RowMap.v
RowMapCorrect.v
RowMapSelect.v
RowMapSession.v
SharedRingBuffer.v
WireProtocol.v
SharedRingBufferLogic.v
SharedRingBufferBounds.v
SharedRingBufferProtocol.v
SharedRingBufferSession.v
MapSums.v
CallstackTrie.v
HeapTracker.v
HeapTrackerSums.v
HeapTrackerOrder.v
HeapTrackerRecord.v
HeapTrackerDump.v
HeapTrackerSession.v
HeapTrackerMax.v
HeapTrackerExhibits.v
