(* ===== verification/Prelude.v ===== *)
(** * A verification development for the tracing data path of Perfetto

    Perfetto records traces of many processes.  A producer process writes trace packets
    (protobuf messages) into chunks of a buffer it shares with the tracing service; the
    service copies the chunks into its trace buffers, reads packets out of them and passes
    them through a filter; the trace processor decodes the packets, sorts the events by time
    and stores them in tables.  The heap profiler has a path of its own: the profiled process
    writes records into a ring it shares with heapprofd, a worker of heapprofd reads them, and
    heapprofd adds them up by callstack.
    This development models the code that moves and transforms the data along these paths,
    and proves what each part promises to the next one.  Source
    paths below are relative to the directory src of the repository and to its
    include/perfetto; a definition has the name of the function or type it models, with the
    name of the class in front (or a suffix) where two would clash.

    ** The parts and the files

    Writing protobuf (namespace protozero).
    - ProtoUtils: protozero/proto_utils.h.  Tags, varints, zig-zag, the redundant four-byte
      varints with which lengths are filled in later.
    - ProtoWriter: scattered_stream_writer, scattered_heap_buffer, message, message_arena,
      packed_repeated_fields (.h and .cc).  A message is written append-only over slices; the
      length of a nested message is reserved and written when the message ends.
    - ProtoDecoder: proto_decoder, field (.h and .cc).  Untyped and typed decoding, repeated
      and packed fields.
    - ProtoRingBuffer: src/protozero/proto_ring_buffer.  Messages out of a byte stream.
    Filtering (src/protozero/filtering).
    - FilterBytecode: filter_bytecode_generator, _parser, _common and the hash of
      ext/base/hash.h.
    - MessageFilter: message_tokenizer, message_filter.  The filter of ProtoUtils' encoding, a
      byte at a time, driven by the tables of FilterBytecode.

    From the producer to the service (src/tracing/core and ext/tracing/core).
    - SharedMemoryAbi: shared_memory_abi.  Pages, chunks and the atomic page word, as steps of
      threads of the producer and of the service.
    - SharedMemoryArbiter: shared_memory_arbiter_impl, patch_list.  Commit requests, patches
      and direct patching of an arbiter that is bound.  ArbiterPatches: chunks
      stay flagged while patches for them are left.
    - IdAllocator, ArbiterBinding: id_allocator and the whole state of
      shared_memory_arbiter_impl: startup reservations, binding, writer ids, flush callbacks,
      shutdown.  ArbiterBindingState has the invariant under the lock, ArbiterBindingSession
      threads and posted tasks; a bound arbiter acts as in SharedMemoryArbiter
      ([bound_arbiter_is_data_path]).
    - ArbiterChunks: GetNewChunk of the arbiter, on the pages of SharedMemoryAbi.
    - TraceWriter: trace_writer_impl.  Packets over chunks, with the message API of
      ProtoWriter and patches for SharedMemoryArbiter.  TraceWriterInvariant,
      TraceWriterPacket and TraceWriterSession lead to the theorem about whole sessions.

    From a profiled process to heapprofd (src/profiling/memory).
    - SharedRingBuffer: shared_ring_buffer, scoped_spinlock.  The ring, its metadata page and
      its spinlock, as programs of single accesses to the shared memory.
    - WireProtocol: wire_protocol, and of unwinding the reading of the ring: the batches of a
      data source, the jobs that drain the ring of a client that is gone, the handover of
      the ring through its file descriptor.
    - SharedRingBufferLogic: a program logic for such programs, and what holds against a peer
      that writes anything.  SharedRingBufferBounds: against such a peer, programs end.
    - SharedRingBufferProtocol: the phases of a sender and of the reader.
      SharedRingBufferSession: sending threads and the worker around one ring.
    - CallstackTrie: src/profiling/common/callstack_trie.  The trie of the callstacks of all
      processes, with reference counts; a node is the list of its frames.
    - HeapTracker: bookkeeping.  The allocations of a heap, the sums of its callstacks, the
      operations that wait for earlier ones, the snapshot at the maximum, and dumps.
      MapSums: sums over finite maps.  HeapTrackerSums: what operations do to the sums.
      HeapTrackerOrder, HeapTrackerRecord, HeapTrackerDump: the invariant, through commits,
      records and dumps.  HeapTrackerSession: any calls on the heaps that share a trie, and
      the replay of the records in order that they are compared with.  HeapTrackerMax: the
      snapshot.  HeapTrackerExhibits: what happens outside the conditions.

    In the service (src/tracing/core/trace_buffer).
    - TraceBuffer: the ring of chunk records: copies, eviction, padding, patches.
    - TraceBufferRead: sequence iterators, lookahead, ReadNextTracePacket.
    - TraceBufferSession: copies, patches and reads in any order.

    In the trace processor (src/trace_processor and ext/base).
    - StdAlgorithms: what std::lower_bound, std::upper_bound and std::sort promise.
    - CircularQueue: ext/base/circular_queue.h.  TraceSorterQueue: trace_sorter_queue.h,
      timestamped_trace_piece.h.  TraceSorter, TraceSorterExtract: trace_sorter.  The sorter
      keeps its queues in a CircularQueue and its payloads in a VariadicQueue.
    - FlatHashMap, FlatHashMapRefinement: ext/base/flat_hash_map.h.  StringPool,
      StringPoolCorrect: containers/string_pool, with a FlatHashMap as its index.
    - ClockTracker, ClockTrackerGraph, ClockTrackerCorrect, ClockTrackerConvert,
      ClockTrackerCache: importers/common/clock_tracker.
    - BitVector and BitVectorWords, -Select, -Blocks, -Correct, -Resize, -Update, -Session:
      containers/bit_vector.  BitVectorIterators, BitVectorIteration: bit_vector_iterators.
    - RowMap, RowMapCorrect, RowMapSelect, RowMapSession: containers/row_map and
      row_map_algorithms.h, on top of the bit vector and its iterators.

    ** How the code is modelled

    Integers are [Z] with the conversions of C++ written out (below); bytes are [Z] from 0 to
    255, memory is a list of bytes and a pointer an offset into it.  A class is a record of
    its fields, a method a function on it.  PERFETTO_CHECK, PERFETTO_FATAL, and an access out
    of the bounds of a buffer or of a container give the [outcome] Crash, so that a theorem
    that ends in Ok excludes both.  PERFETTO_DCHECK and PERFETTO_DFATAL are compiled out of
    release builds and have no counterpart.  Concurrency is a step relation (SharedMemoryAbi,
    sequentially consistent memory), interleaved critical sections (ArbiterBindingSession) or
    the interleaving of programs, which are trees of single accesses to a sequentially
    consistent memory (SharedRingBuffer); memory shared with a process that is not trusted is
    a peer that answers each load with any value of its type (SharedRingBufferLogic).

    Loops without a structural measure run on fuel, and running out of it is a Crash, which
    the theorems exclude: the chunks of the index plus one for the loops of a read
    (TraceBufferRead), the number of staged events plus one for an extraction (TraceSorter),
    the sum of the possible paths of length up to four (ClockTracker, [path_budget]), 64
    doublings for an insertion (FlatHashMap), 64 rounds for the software PDEP and the size of
    the vector for a batch of set bits (BitVector), 200 searches, after which the code aborts
    (ArbiterChunks), 32 bits of a mask, and the 5 accesses of an undisturbed acquisition.
    The retry loops of SharedMemoryAbi are not fuelled: they are left within 131 steps.  Nor
    are the loops of SharedRingBuffer: a program runs as long as it takes, and
    SharedRingBufferBounds proves that it ends, after 1,024,000 attempts at the lock when
    the peer keeps it and 1,000 records a batch; a ring of [n] bytes is drained by at most
    [n / 8 + 1] jobs ([drain_runs]).

    Parameters of the model: the hash, the probe and the sizes of the types (FlatHashMap,
    TraceSorterQueue), the answers of GetNewChunk (TraceWriter), what others do to the memory
    during a wait (ArbiterChunks), predicates and comparators (RowMap), and the result of
    std::sort up to the order of equivalent elements (StdAlgorithms).  Bounds in the theorems
    are the limits of the code: bit vectors below 2^32 bits less a block, iterators and row
    maps below 2^31 rows, 1.7 GiB of interned strings, 2 GiB of staged payloads; records of
    heapprofd below 4 GiB, rings up to 2^50 bytes, positions in a ring below 2^64 and a
    size_t of 64 bits; fewer than 2^64 - 1 calls, frames, and (for the maximum) sampled bytes
    of the heap profiler's bookkeeping.

    ** What the theorems show

    - Producer side.  Serialized messages are the reference encoding and are decoded to what
      was written ([HeapBuffered_serializes], [HeapBuffered_decodes],
      [TypedProtoDecoder_refines]). What the service can read of a writer after a flush is a
      prefix of the packets that were not lost, in order, and all of them unless the writer is
      dropping packets ([trace_writer_delivers]); patching in the producer or in the service
      makes no difference ([commits_are_transparent]). Startup tracing, late binding and
      interleaved flushes lose, duplicate and reorder nothing ([startup_commits_in_order],
      [everything_is_sent], [endpoint_calls_typed]).
    - Shared memory.  No interleaving gives a chunk two owners, chunks go through their states
      in order, and operations are wait-free ([chunks_have_one_owner], [chunk_lifecycle],
      [operations_are_wait_free]); [GetNewChunk_finds_first_free].
    - Heap profiler.  Every message whose sending succeeded is handled by the worker exactly
      once, unchanged and in order, whatever the interleaving
      ([heapprofd_handles_in_order]).  A peer that writes anything into the shared memory
      makes no thread access memory outside the ring when it sends a message or reads a
      record ([hostile_peer_contained]), nor keeps one busy ([SendWireMessage_returns],
      [disconnect_finishes]); taking a record apart is another matter (below).  Records of
      a heap may arrive in any order, among dumps and other heaps: when all have arrived, the
      bookkeeping is that of replaying them in order ([heap_tracker_replays]).  The trie has
      the nodes and reference counts it needs ([trie_counts_callstacks]).  The first dump of
      a heap at its maximum is the heap at its first maximum ([dump_at_max_in_order]).
    - Service side.  The trace buffer keeps its records and index consistent, evicts the
      oldest chunks first, reads terminate and return what was copied
      ([trace_buffer_invariant], [copy_chunk_fifo], [read_next_packet_correct],
      [read_all_correct], [session_correct], [copy_then_read],
      [discard_mode_keeps_unread]).  The streaming filter is equivalent to a recursive one
      and projects messages to the allowed fields ([streaming_filter_refines],
      [filter_projects_fields], [filter_bytecode_roundtrip], [filter_load_safe]).
    - Trace processor.  The containers refine lists and finite maps
      ([circular_queue_refines_list], [flat_hash_map_refines_map], [bit_vector_refines_list],
      [row_map_refines_list], [string_pool_roundtrip]), with the algorithms that are not
      obvious proved on their own ([probes_visit_every_slot], [broadword_select_correct],
      [clearing_while_iterating]); the sorter delivers each event once and in order
      ([sorter_exactly_once], [full_sort_correct], [sorter_in_order]); clocks are converted
      along shortest paths of snapshots ([Convert_along_shortest_path],
      [convert_cache_transparent]).  Known defects are conditions of two of these theorems:
      [known_defect] of [bit_vector_refines_list], [duplicates] of [row_map_refines_list].
    - Exhibited defects and surprises: [double_fetch_follows_stale_pointer], [empty_write_blocks_reader],
      [late_chunk_truncates_packet], [recommit_can_abort],
      [colliding_strings_are_merged], [resize_true_loses_the_count],
      [range_inside_a_block], [skip_to_the_end_moves_the_block], [UpdateSetBits_empty],
      [insert_of_a_present_index], [replaced_allocation_reported],
      [late_malloc_not_counted], [stale_record_blocks], [maximum_dropped],
      [incremental_deltas_apply_twice], [refused_chunk_withholds_packet],
      [recommit_after_discard], [large_field_id_wraps].

    ** Not modelled

    The sessions, configuration and IPC of the service and of the client library (generated
    protobuf classes, sockets, timers); the probes (ftrace, procfs, CPU profiling, and
    of the heap profiler the hooks of malloc, the sampling, the unwinding itself and the
    writing of dumps), which depend on the kernel and on generated tables; the importers,
    tables, SQL and metrics of the trace processor, which are generated or wrap SQLite; the base library where it
    wraps the operating system; command line tools.  Of the modelled classes: capacities that
    only affect memory use (ShrinkToFit), debug-only counters and handles, float and double
    accessors, logging and metatracing, weak pointers, which never expire here, and the
    reference counts of interned strings, which stand for their values. *)

From stdpp Require Export prelude gmap list numbers sorting.
From Stdlib Require Export ZArith Lia.

#[export] Set Default Goal Selector "!".
#[global] Open Scope Z_scope.

(** ** Machine words.  A C++ unsigned integer of [n] bits is a [Z] in
    [0, 2^n); [uN] is the conversion to it (reduction modulo [2^N]) and [sN]
    the conversion to the signed type of the same width. *)

Definition uw (n x : Z) : Z := x `mod` 2 ^ n.
Definition u8 (x : Z) : Z := uw 8 x.
Definition u16 (x : Z) : Z := uw 16 x.
Definition u32 (x : Z) : Z := uw 32 x.
Definition u64 (x : Z) : Z := uw 64 x.
Definition sw (n x : Z) : Z := let y := uw n x in if y <? 2 ^ (n - 1) then y else y - 2 ^ n.
Definition s32 (x : Z) : Z := sw 32 x.
Definition s64 (x : Z) : Z := sw 64 x.
Definition word_ok (n x : Z) : Prop := 0 <= x < 2 ^ n.
Definition byte_ok (x : Z) : Prop := 0 <= x < 256.
Definition bytes_ok (l : list Z) : Prop := Forall byte_ok l.

Declare Scope cpp_scope.
Delimit Scope cpp_scope with cpp.
Notation "a .& b" := (Z.land a b) (at level 40, left associativity) : cpp_scope.
Notation "a .| b" := (Z.lor a b) (at level 50, left associativity) : cpp_scope.
Notation "a .^ b" := (Z.lxor a b) (at level 50, left associativity) : cpp_scope.
Notation "a .<< b" := (Z.shiftl a b) (at level 36, left associativity) : cpp_scope.
Notation "a .>> b" := (Z.shiftr a b) (at level 36, left associativity) : cpp_scope.
#[global] Open Scope cpp_scope.

(** ** Fatal checks.  PERFETTO_CHECK aborts the process in every build; a
    function that contains one returns an [outcome].  PERFETTO_DCHECK is compiled
    out of release builds and has no counterpart in the definitions. *)

Inductive outcome (A : Type) : Type :=
| Ok (a : A)
| Crash.
Arguments Ok {A} a.
Arguments Crash {A}.

Definition obind {A B} (x : outcome A) (k : A -> outcome B) : outcome B :=
  match x with Ok a => k a | Crash => Crash end.
Definition perfetto_check (b : bool) : outcome unit := if b then Ok tt else Crash.
Notation "'let!' x := e 'in' k" := (obind e (fun x => k))
  (at level 10, x pattern, e at level 100, k at level 200) : cpp_scope.
Notation "'check!' b 'in' k" := (obind (perfetto_check b) (fun _ => k))
  (at level 10, b at level 100, k at level 200) : cpp_scope.

(** ** Memory.  A contiguous C++ buffer is a list of bytes; offsets and sizes
    are [Z], as the pointer differences of the code. *)

Definition zlen {A} (l : list A) : Z := Z.of_nat (length l).
Definition ztake {A} (n : Z) (l : list A) : list A := take (Z.to_nat n) l.
Definition zdrop {A} (n : Z) (l : list A) : list A := drop (Z.to_nat n) l.
Definition zread {A} (off n : Z) (l : list A) : list A := ztake n (zdrop off l).
Definition zwrite {A} (off : Z) (src l : list A) : list A :=
  ztake off l ++ src ++ zdrop (off + zlen src) l.
Definition znth (l : list Z) (i : Z) : Z := default 0 (l !! Z.to_nat i).
Definition zeros (n : Z) : list Z := replicate (Z.to_nat n) 0.

(** Little-endian integers, as memcpy() of an integer on the supported hosts. *)
Fixpoint le_bytes (n : nat) (v : Z) : list Z :=
  match n with
  | O => []
  | S k => (v .& 255) :: le_bytes k (v .>> 8)
  end.
Fixpoint le_value (l : list Z) : Z :=
  match l with
  | [] => 0
  | b :: r => b .| (le_value r .<< 8)
  end.

(** base::AlignUp<alignment>(size). *)
Definition AlignUp (alignment size : Z) : Z := Z.land (size + alignment - 1) (Z.lnot (alignment - 1)).

(** ** Hint databases of the development. *)
Create HintDb words.
Create HintDb bytes.
Create Rewrite HintDb zmem.

(** ** Words *)

Lemma pow2_pos n : 0 <= n -> 0 < 2 ^ n.
Proof. intros. apply Z.pow_pos_nonneg; lia. Qed.

Lemma uw_range n x : 0 <= n -> 0 <= uw n x < 2 ^ n.
Proof. intros. apply Z.mod_pos_bound, pow2_pos; lia. Qed.

Lemma uw_small n x : 0 <= x < 2 ^ n -> uw n x = x.
Proof. apply Z.mod_small. Qed.

(** Truncating to fewer bits after truncating to more. *)
Lemma uw_uw n m x : 0 <= n <= m -> uw n (uw m x) = uw n x.
Proof.
  intros. unfold uw. replace m with (n + (m - n)) by lia. rewrite Z.pow_add_r by lia.
  assert (0 < 2 ^ n) by (apply pow2_pos; lia). assert (0 < 2 ^ (m - n)) by (apply pow2_pos; lia).
  rewrite Z.rem_mul_r by lia. rewrite (Z.mul_comm (2 ^ n)), Z.mod_add by lia. apply Z.mod_mod. lia.
Qed.

Lemma u8_range x : 0 <= u8 x < 256. Proof. apply (uw_range 8); lia. Qed.
Lemma u16_range x : 0 <= u16 x < 65536. Proof. apply (uw_range 16); lia. Qed.
Lemma u32_range x : 0 <= u32 x < 4294967296. Proof. apply (uw_range 32); lia. Qed.
Lemma u64_range x : 0 <= u64 x < 18446744073709551616. Proof. apply (uw_range 64); lia. Qed.
Lemma u8_small x : 0 <= x < 256 -> u8 x = x. Proof. apply (uw_small 8). Qed.
Lemma u16_small x : 0 <= x < 65536 -> u16 x = x. Proof. apply (uw_small 16). Qed.
Lemma u32_small x : 0 <= x < 4294967296 -> u32 x = x. Proof. apply (uw_small 32). Qed.
Lemma u64_small x : 0 <= x < 18446744073709551616 -> u64 x = x. Proof. apply (uw_small 64). Qed.

#[export] Hint Resolve u8_range u16_range u32_range u64_range : words.

Lemma land_ones_mod x n : 0 <= n -> x .& (2 ^ n - 1) = x `mod` 2 ^ n.
Proof. intros. rewrite <- Z.land_ones by lia. f_equal. rewrite Z.ones_equiv. lia. Qed.

Lemma land_127 x : x .& 127 = x `mod` 128. Proof. apply (land_ones_mod x 7); lia. Qed.
Lemma land_255 x : x .& 255 = x `mod` 256. Proof. apply (land_ones_mod x 8); lia. Qed.
Lemma land_1 x : x .& 1 = x `mod` 2. Proof. apply (land_ones_mod x 1); lia. Qed.
Lemma land_7 x : x .& 7 = x `mod` 8. Proof. apply (land_ones_mod x 3); lia. Qed.

Lemma land_pow2_bit x n : 0 <= n -> x .& 2 ^ n = if Z.testbit x n then 2 ^ n else 0.
Proof.
  intros. apply Z.bits_inj'. intros i Hi. rewrite Z.land_spec.
  destruct (Z.eqb_spec i n) as [->|Hne].
  - rewrite Z.pow2_bits_true by lia.
    destruct (Z.testbit x n) eqn:E; [by rewrite Z.pow2_bits_true by lia|by rewrite Z.testbit_0_l].
  - rewrite Z.pow2_bits_false by lia. rewrite andb_false_r.
    destruct (Z.testbit x n); [by rewrite Z.pow2_bits_false by lia|by rewrite Z.testbit_0_l].
Qed.

(** The continuation bit of a byte. *)
Lemma land_128_byte b : byte_ok b -> (b .& 128 =? 0) = (b <? 128).
Proof.
  unfold byte_ok. intros Hb. change 128 with (2 ^ 7) at 1. rewrite land_pow2_bit by lia.
  destruct (Z.ltb_spec b 128) as [H|H].
  - rewrite (Z.bits_above_log2 b 7); [done|lia|].
    destruct (Z.eq_dec b 0) as [->|]; [done|]. apply Z.log2_lt_pow2; lia.
  - destruct (Z.testbit b 7) eqn:E; [done|]. exfalso.
    apply Z.testbit_false in E; [|lia].
    change (2 ^ 7) with 128 in E. assert (b `div` 128 = 1) by (symmetry; apply (Z.div_unique b 128 1 (b - 128)); lia).
    rewrite H0 in E. done.
Qed.

Lemma testbit_small n x i : 0 <= x < 2 ^ n -> n <= i -> 0 <= n -> Z.testbit x i = false.
Proof.
  intros [Hx1 Hx2] Hi Hn. destruct (Z.eq_dec x 0) as [->|]; [apply Z.testbit_0_l|].
  apply Z.bits_above_log2; [lia|].
  assert (Z.log2 x < n) by (apply Z.log2_lt_pow2; lia). lia.
Qed.

(** Disjoint bit fields add up. *)
Lemma lor_shiftl_add a b n : 0 <= n -> 0 <= a < 2 ^ n -> a .| (b .<< n) = a + b * 2 ^ n.
Proof.
  intros Hn Ha.
  assert (Hd : a .& (b .<< n) = 0).
  { apply Z.bits_inj'. intros i Hi. rewrite Z.land_spec, Z.testbit_0_l.
    destruct (Z.lt_ge_cases i n).
    - rewrite Z.shiftl_spec_low by lia. apply andb_false_r.
    - rewrite (testbit_small n) by lia. done. }
  rewrite <- Z.lxor_lor by done. rewrite <- Z.add_nocarry_lxor by done.
  by rewrite Z.shiftl_mul_pow2 by lia.
Qed.

Lemma lor_128_small b : 0 <= b < 128 -> b .| 128 = b + 128.
Proof. intros. change (b .| (1 .<< 7) = b + 128). rewrite lor_shiftl_add by lia. lia. Qed.

Lemma shiftr_div x n : 0 <= n -> x .>> n = x `div` 2 ^ n.
Proof. intros. by rewrite Z.shiftr_div_pow2 by lia. Qed.

Lemma AlignUp_spec k size : 0 <= k -> AlignUp (2 ^ k) size = (size + 2 ^ k - 1) `div` 2 ^ k * 2 ^ k.
Proof.
  intros. unfold AlignUp. rewrite <- Z.ldiff_land. replace (2 ^ k - 1) with (Z.ones k).
  2: { rewrite Z.ones_equiv. lia. }
  rewrite Z.ldiff_ones_r by lia. rewrite Z.shiftl_mul_pow2, Z.shiftr_div_pow2 by lia. done.
Qed.

Lemma AlignUp_16 size : AlignUp 16 size = (size + 15) `div` 16 * 16.
Proof. change 16 with (2 ^ 4) at 1. rewrite AlignUp_spec by lia. f_equal. f_equal. lia. Qed.

(** ** Buffers *)

Lemma zlen_nonneg {A} (l : list A) : 0 <= zlen l.
Proof. unfold zlen. lia. Qed.
Lemma zlen_nil {A} : zlen (@nil A) = 0. Proof. done. Qed.
Lemma zlen_cons {A} (x : A) l : zlen (x :: l) = 1 + zlen l.
Proof. unfold zlen. simpl length. lia. Qed.
Lemma zlen_app {A} (l k : list A) : zlen (l ++ k) = zlen l + zlen k.
Proof. unfold zlen. rewrite length_app. lia. Qed.
Lemma zlen_ztake {A} n (l : list A) : 0 <= n <= zlen l -> zlen (ztake n l) = n.
Proof. unfold zlen, ztake. intros. rewrite length_take. lia. Qed.
Lemma zlen_zdrop {A} n (l : list A) : 0 <= n <= zlen l -> zlen (zdrop n l) = zlen l - n.
Proof. unfold zlen, zdrop. intros. rewrite length_drop. lia. Qed.
Lemma zlen_zeros n : 0 <= n -> zlen (zeros n) = n.
Proof. unfold zlen, zeros. rewrite length_replicate. lia. Qed.
Lemma zlen_zread {A} off n (l : list A) : 0 <= off -> 0 <= n -> off + n <= zlen l -> zlen (zread off n l) = n.
Proof.
  intros. unfold zread. rewrite zlen_ztake; [done|]. rewrite zlen_zdrop; lia.
Qed.
Lemma zlen_zwrite {A} off (src l : list A) :
  0 <= off -> off + zlen src <= zlen l -> zlen (zwrite off src l) = zlen l.
Proof.
  intros. unfold zwrite. pose proof (zlen_nonneg src).
  rewrite !zlen_app, zlen_ztake, zlen_zdrop by lia. lia.
Qed.
Lemma zdrop_0 {A} (l : list A) : zdrop 0 l = l. Proof. done. Qed.
Lemma ztake_zlen {A} (l : list A) : ztake (zlen l) l = l.
Proof. unfold ztake, zlen. rewrite Nat2Z.id. apply take_ge. done. Qed.
Lemma zdrop_zlen_app {A} (l k : list A) : zdrop (zlen l) (l ++ k) = k.
Proof. unfold zdrop, zlen. rewrite Nat2Z.id. apply drop_app_length. Qed.
Lemma ztake_zlen_app {A} (l k : list A) : ztake (zlen l) (l ++ k) = l.
Proof. unfold ztake, zlen. rewrite Nat2Z.id. apply take_app_length. Qed.
Lemma zdrop_add {A} (a b : Z) (l : list A) : 0 <= a -> 0 <= b -> zdrop b (zdrop a l) = zdrop (a + b) l.
Proof. intros. unfold zdrop. rewrite drop_drop. f_equal. lia. Qed.
Lemma ztake_zdrop {A} n (l : list A) : ztake n l ++ zdrop n l = l.
Proof. apply take_drop. Qed.
Lemma zread_app_exact {A} (a b c : list A) : zread (zlen a) (zlen b) (a ++ b ++ c) = b.
Proof. unfold zread. by rewrite zdrop_zlen_app, ztake_zlen_app. Qed.

(** Reading back what was written, and reading what a write leaves alone. *)
Lemma zread_zwrite_eq {A} off (src l : list A) n :
  0 <= off -> off + zlen src <= zlen l -> n = zlen src -> zread off n (zwrite off src l) = src.
Proof.
  intros H1 H2 ->. unfold zwrite. pose proof (zlen_nonneg src).
  rewrite <- (zlen_ztake off l) at 1 by lia. apply zread_app_exact.
Qed.
Lemma zread_lookup {A} off n (l : list A) (i : nat) :
  0 <= off -> 0 <= n -> zread off n l !! i = if decide (Z.of_nat i < n) then l !! (Z.to_nat off + i)%nat else None.
Proof.
  intros. unfold zread, ztake, zdrop. case_decide.
  - rewrite lookup_take_lt by lia. by rewrite lookup_drop.
  - rewrite lookup_take_ge; [done|lia].
Qed.
Lemma zwrite_lookup_ne {A} off (src l : list A) (i : nat) :
  0 <= off -> off + zlen src <= zlen l -> Z.of_nat i < off \/ off + zlen src <= Z.of_nat i ->
  zwrite off src l !! i = l !! i.
Proof.
  intros H0 H1 H2. unfold zwrite, zlen in *.
  destruct H2.
  - rewrite lookup_app_l.
    + unfold ztake. rewrite lookup_take_lt by lia. done.
    + unfold ztake. rewrite length_take. lia.
  - rewrite app_assoc, lookup_app_r.
    + unfold zdrop, ztake. rewrite lookup_drop, length_app, length_take. f_equal. lia.
    + unfold ztake. rewrite length_app, length_take. lia.
Qed.
Lemma zread_zwrite_ne {A} off (src l : list A) o n :
  0 <= off -> off + zlen src <= zlen l -> 0 <= o -> 0 <= n ->
  o + n <= off \/ off + zlen src <= o -> zread o n (zwrite off src l) = zread o n l.
Proof.
  intros. apply list_eq. intros i. rewrite !zread_lookup by lia.
  case_decide; [|done]. apply zwrite_lookup_ne; lia.
Qed.
Lemma zread_zread {A} o n o' n' (l : list A) :
  0 <= o -> 0 <= n -> 0 <= o' -> 0 <= n' -> o' + n' <= n -> zread o' n' (zread o n l) = zread (o + o') n' l.
Proof.
  intros. apply list_eq. intros i. rewrite !zread_lookup by lia.
  case_decide; [|done]. rewrite decide_True by lia. f_equal. lia.
Qed.
Lemma zread_nil_len {A} o (l : list A) : zread o 0 l = [].
Proof. done. Qed.
Lemma zread_all {A} (l : list A) n : n = zlen l -> zread 0 n l = l.
Proof. intros ->. unfold zread. by rewrite zdrop_0, ztake_zlen. Qed.
Lemma zread_split {A} o a b (l : list A) :
  0 <= o -> 0 <= a -> 0 <= b -> zread o (a + b) l = zread o a l ++ zread (o + a) b l.
Proof.
  intros. unfold zread. rewrite <- zdrop_add by lia. unfold ztake.
  rewrite Z2Nat.inj_add by lia. rewrite <- (take_drop (Z.to_nat a) (take _ (zdrop o l))).
  rewrite take_take, Nat.min_l by lia. f_equal. unfold zdrop. rewrite skipn_firstn_comm. f_equal. lia.
Qed.

(** Reading inside a concatenation. *)
Lemma ztake_app_le {A} n (l k : list A) : n <= zlen l -> ztake n (l ++ k) = ztake n l.
Proof. unfold zlen, ztake. intros. by rewrite take_app_le by lia. Qed.
Lemma zdrop_app_le {A} n (l k : list A) : 0 <= n <= zlen l -> zdrop n (l ++ k) = zdrop n l ++ k.
Proof. unfold zlen, zdrop. intros. by rewrite drop_app_le by lia. Qed.

Lemma zread_app_le {A} o n (l k : list A) : 0 <= o -> 0 <= n -> o + n <= zlen l -> zread o n (l ++ k) = zread o n l.
Proof.
  intros. unfold zread. rewrite zdrop_app_le by lia. apply ztake_app_le. rewrite zlen_zdrop; lia.
Qed.

(** Writing inside a concatenation. *)
Lemma zwrite_app_l {A} off (src l k : list A) : 0 <= off -> off + zlen src <= zlen l ->
  zwrite off src (l ++ k) = zwrite off src l ++ k.
Proof.
  intros. pose proof (zlen_nonneg src). unfold zwrite, ztake, zdrop, zlen in *.
  rewrite take_app_le, drop_app_le by lia. by rewrite <- !app_assoc.
Qed.
Lemma zwrite_app_r {A} off (src l k : list A) : zlen l <= off -> zwrite off src (l ++ k) = l ++ zwrite (off - zlen l) src k.
Proof.
  intros. pose proof (zlen_nonneg src). unfold zwrite, ztake, zdrop, zlen in *.
  rewrite take_app_ge, drop_app_ge by lia. rewrite <- !app_assoc.
  repeat f_equal; lia.
Qed.
Lemma zwrite_exact {A} (src l : list A) : zlen src = zlen l -> zwrite 0 src l = src.
Proof.
  intros H. unfold zwrite, ztake, zdrop. unfold zlen in *. rewrite Z.add_0_l, Nat2Z.id.
  rewrite drop_ge by lia. by rewrite app_nil_r.
Qed.
Lemma ztake_zwrite {A} n off (src l : list A) : 0 <= off -> off + zlen src <= n -> n <= zlen l ->
  ztake n (zwrite off src l) = zwrite off src (ztake n l).
Proof.
  intros. pose proof (zlen_nonneg src). rewrite <- (ztake_zdrop n l) at 1.
  assert (zlen (ztake n l) = n) by (apply zlen_ztake; lia).
  rewrite zwrite_app_l by lia. rewrite ztake_app_le by (rewrite zlen_zwrite; lia).
  rewrite <- (zlen_zwrite off src (ztake n l)) in H3 by lia. rewrite <- H3 at 1. apply ztake_zlen.
Qed.
Lemma ztake_zwrite_end {A} off (src l : list A) : 0 <= off -> off + zlen src <= zlen l ->
  ztake (off + zlen src) (zwrite off src l) = ztake off l ++ src.
Proof.
  intros. pose proof (zlen_nonneg src). unfold zwrite. rewrite app_assoc.
  rewrite ztake_app_le by (rewrite zlen_app, zlen_ztake by lia; lia).
  assert (Hl : zlen (ztake off l ++ src) = off + zlen src) by (rewrite zlen_app, zlen_ztake by lia; lia).
  rewrite <- Hl. apply ztake_zlen.
Qed.

Lemma bytes_ok_app l k : bytes_ok (l ++ k) <-> bytes_ok l /\ bytes_ok k.
Proof. apply Forall_app. Qed.
Lemma bytes_ok_zread off n l : bytes_ok l -> bytes_ok (zread off n l).
Proof. intros. unfold zread, ztake, zdrop. by apply Forall_take, Forall_drop. Qed.
Lemma bytes_ok_zdrop n l : bytes_ok l -> bytes_ok (zdrop n l).
Proof. intros. by apply Forall_drop. Qed.
Lemma bytes_ok_ztake n l : bytes_ok l -> bytes_ok (ztake n l).
Proof. intros. by apply Forall_take. Qed.
Lemma bytes_ok_zeros n : bytes_ok (zeros n).
Proof. apply Forall_replicate. unfold byte_ok. lia. Qed.
Lemma bytes_ok_zwrite off src l : bytes_ok src -> bytes_ok l -> bytes_ok (zwrite off src l).
Proof. intros. unfold zwrite. rewrite !bytes_ok_app. eauto using bytes_ok_ztake, bytes_ok_zdrop. Qed.
#[export] Hint Resolve bytes_ok_zread bytes_ok_zdrop bytes_ok_ztake bytes_ok_zeros bytes_ok_zwrite zlen_nonneg : bytes.
#[export] Hint Rewrite @zlen_nil @zlen_cons @zlen_app @zdrop_0 @ztake_zlen @zdrop_zlen_app @ztake_zlen_app : zmem.

(** ** Little-endian integers *)

Lemma length_le_bytes n v : length (le_bytes n v) = n.
Proof. revert v. induction n; intros; simpl; auto. Qed.
Lemma zlen_le_bytes n v : zlen (le_bytes n v) = Z.of_nat n.
Proof. unfold zlen. by rewrite length_le_bytes. Qed.
Lemma bytes_ok_le_bytes n v : bytes_ok (le_bytes n v).
Proof.
  revert v. induction n; intros; simpl; constructor; [|apply IHn].
  unfold byte_ok. rewrite land_255. apply Z.mod_pos_bound. lia.
Qed.
Lemma le_value_bytes n v : le_value (le_bytes n v) = v `mod` 2 ^ (8 * Z.of_nat n).
Proof.
  revert v. induction n as [|n IH]; intros v; [by rewrite Z.mod_1_r|].
  cbn [le_bytes le_value]. rewrite IH, land_255, lor_shiftl_add by (try apply (Z.mod_pos_bound v 256); lia).
  rewrite shiftr_div by lia. replace (8 * Z.of_nat (S n)) with (8 + 8 * Z.of_nat n) by lia.
  rewrite Z.pow_add_r by lia. change (2 ^ 8) with 256.
  rewrite (Z.rem_mul_r v 256) by (try apply pow2_pos; lia). lia.
Qed.
Lemma le_value_bytes_small n v : 0 <= v < 2 ^ (8 * Z.of_nat n) -> le_value (le_bytes n v) = v.
Proof. intros. rewrite le_value_bytes. by apply Z.mod_small. Qed.
Lemma le_value_range l : bytes_ok l -> 0 <= le_value l < 2 ^ (8 * zlen l).
Proof.
  induction 1 as [|b l Hb Hl IH]; [done|]. cbn [le_value]. unfold byte_ok in Hb.
  rewrite lor_shiftl_add by lia. rewrite zlen_cons.
  replace (8 * (1 + zlen l)) with (8 + 8 * zlen l) by lia.
  rewrite Z.pow_add_r by (pose proof (zlen_nonneg l); lia). change (2 ^ 8) with 256. nia.
Qed.
#[export] Hint Resolve bytes_ok_le_bytes : bytes.

(** ** Tactics *)

(** Case analysis on the boolean tests of the code, with the fact they decide. *)
Ltac cases_if :=
  repeat match goal with
  | |- context [if ?b then _ else _] => let E := fresh "E" in destruct b eqn:E
  | H : context [if ?b then _ else _] |- _ => let E := fresh "E" in destruct b eqn:E
  end.
Ltac bool_facts :=
  repeat match goal with
  | H : (_ <? _) = true |- _ => apply Z.ltb_lt in H
  | H : (_ <? _) = false |- _ => apply Z.ltb_ge in H
  | H : (_ <=? _) = true |- _ => apply Z.leb_le in H
  | H : (_ <=? _) = false |- _ => apply Z.leb_gt in H
  | H : (_ =? _) = true |- _ => apply Z.eqb_eq in H
  | H : (_ =? _) = false |- _ => apply Z.eqb_neq in H
  | H : (_ && _)%bool = true |- _ => apply andb_true_iff in H; destruct H
  | H : (_ || _)%bool = false |- _ => apply orb_false_iff in H; destruct H
  | H : negb _ = true |- _ => apply negb_true_iff in H
  | H : negb _ = false |- _ => apply negb_false_iff in H
  | H : bool_decide _ = true |- _ => apply bool_decide_eq_true in H
  | H : bool_decide _ = false |- _ => apply bool_decide_eq_false in H
  end.
(** Opens an [outcome] computation that succeeded. *)
Ltac ok_inv :=
  repeat match goal with
  | H : obind ?e _ = Ok _ |- _ =>
      let E := fresh "E" in destruct e eqn:E; simpl in H; [|discriminate]
  | H : Ok _ = Ok _ |- _ => injection H as H; try subst
  end.
