(* ===== verification/ProtoUtils.v ===== *)
(** * Wire-level encoding of protozero
    (include/perfetto/protozero/proto_utils.h)

    Tags, zig-zag, variable-length integers and the fixed-size redundant
    variable-length integers used to backfill lengths.  A pointer range
    [start, end) is the list of the bytes in it; a returned pointer is the number
    of bytes between [start] and it, so 0 is the failure value [start]. *)

From stdpp Require Import strings.
From S2P Require Import Prelude.

(** ** Types and constants *)

Inductive ProtoWireType : Type := kVarInt | kFixed64 | kLengthDelimited | kFixed32.
#[export] Instance ProtoWireType_eq_dec : EqDecision ProtoWireType.
Proof. solve_decision. Defined.

Definition wire_type_value (t : ProtoWireType) : Z :=
  match t with kVarInt => 0 | kFixed64 => 1 | kLengthDelimited => 2 | kFixed32 => 5 end.

Inductive ProtoSchemaType : Type :=
| kSchemaUnknown | kSchemaDouble | kSchemaFloat | kSchemaInt64 | kSchemaUint64 | kSchemaInt32
| kSchemaFixed64 | kSchemaFixed32 | kSchemaBool | kSchemaString | kSchemaGroup | kSchemaMessage
| kSchemaBytes | kSchemaUint32 | kSchemaEnum | kSchemaSfixed32 | kSchemaSfixed64
| kSchemaSint32 | kSchemaSint64.

Definition ProtoSchemaToString (v : ProtoSchemaType) : string :=
  match v with
  | kSchemaUnknown => "unknown" | kSchemaDouble => "double" | kSchemaFloat => "float"
  | kSchemaInt64 => "int64" | kSchemaUint64 => "uint64" | kSchemaInt32 => "int32"
  | kSchemaFixed64 => "fixed64" | kSchemaFixed32 => "fixed32" | kSchemaBool => "bool"
  | kSchemaString => "string" | kSchemaGroup => "group" | kSchemaMessage => "message"
  | kSchemaBytes => "bytes" | kSchemaUint32 => "uint32" | kSchemaEnum => "enum"
  | kSchemaSfixed32 => "sfixed32" | kSchemaSfixed64 => "sfixed64" | kSchemaSint32 => "sint32"
  | kSchemaSint64 => "sint64"
  end.

Definition kMessageLengthFieldSize : Z := 4.
Definition kMaxMessageLength : Z := (1 .<< (kMessageLengthFieldSize * 7)) - 1.
Definition kMaxTagEncodedSize : Z := 5.
Definition kMaxSimpleFieldEncodedSize : Z := kMaxTagEncodedSize + 10.

(** A C++ integer type: its width in bits and its signedness. *)
Record int_type := IntType { int_bits : Z; int_signed : bool }.
Definition uint8_t := IntType 8 false.
Definition uint32_t := IntType 32 false.
Definition uint64_t := IntType 64 false.
Definition int32_t := IntType 32 true.
Definition int64_t := IntType 64 true.
Definition int_type_ok (t : int_type) : Prop := 8 <= int_bits t <= 64.
Definition in_type (t : int_type) (v : Z) : Prop :=
  if int_signed t then - 2 ^ (int_bits t - 1) <= v < 2 ^ (int_bits t - 1)
  else 0 <= v < 2 ^ int_bits t.

(** ** Tags *)

Definition MakeTagVarInt (field_id : Z) : Z := u32 (field_id .<< 3) .| wire_type_value kVarInt.
Definition MakeTagFixed (sizeof_T : Z) (field_id : Z) : Z :=
  u32 (field_id .<< 3) .| wire_type_value (if sizeof_T =? 8 then kFixed64 else kFixed32).
Definition MakeTagLengthDelimited (field_id : Z) : Z :=
  u32 (field_id .<< 3) .| wire_type_value kLengthDelimited.

(** ** Zig-zag, for a signed type of [bits] bits *)

Definition ZigZagEncode (bits value : Z) : Z :=
  uw bits (uw bits value .<< 1) .^ uw bits (value .>> (bits - 1)).

Definition ZigZagDecode (bits value : Z) : Z :=
  let u_value := uw bits value in
  let mask := uw bits (- (u_value .& 1)) in
  sw bits ((u_value .>> 1) .^ mask).

(** ** Variable-length integers *)

(** The conversion of the argument to [UnsignedType]: signed types are first
    sign-extended to int64_t. *)
Definition MaybeExtend (T : int_type) (value : Z) : Z :=
  if int_signed T then u64 value else uw (int_bits T) value.

(** The while loop; an unsigned value of at most 64 bits has at most ten
    groups of seven bits, so ten rounds are enough (WriteVarInt_loop_done). *)
Fixpoint WriteVarInt_loop (fuel : nat) (unsigned_value : Z) : list Z :=
  match fuel with
  | O => []
  | S fuel' =>
      if 128 <=? unsigned_value
      then (u8 unsigned_value .| 128) :: WriteVarInt_loop fuel' (unsigned_value .>> 7)
      else [u8 unsigned_value]
  end.
Definition WriteVarInt (T : int_type) (value : Z) : list Z :=
  WriteVarInt_loop 10 (MaybeExtend T value).

Fixpoint WriteRedundantVarInt_loop (n : nat) (size i value : Z) : list Z :=
  match n with
  | O => []
  | S n' =>
      let msb := if i <? size - 1 then 128 else 0 in
      (u8 value .| msb) :: WriteRedundantVarInt_loop n' size (i + 1) (value .>> 7)
  end.
(** The [size] bytes stored at [buf]. *)
Definition WriteRedundantVarInt (value size : Z) : list Z :=
  WriteRedundantVarInt_loop (Z.to_nat size) size 0 (u32 value).

Fixpoint ParseVarInt_loop (buf : list Z) (shift pos value : Z) : Z * Z :=
  match buf with
  | [] => (0, 0)
  | cur_byte :: rest =>
      if shift <? 64 then
        let value := value .| u64 ((cur_byte .& 127) .<< shift) in
        if cur_byte .& 128 =? 0 then (pos + 1, value)
        else ParseVarInt_loop rest (shift + 7) (pos + 1) value
      else (0, 0)
  end.
(** (bytes consumed, 0 on failure; *out_value). *)
Definition ParseVarInt (buf : list Z) : Z * Z := ParseVarInt_loop buf 0 0 0.

Inductive RepetitionType : Type := kNotRepeated | kRepeatedPacked | kRepeatedNotPacked.

(** ** Specification: base-128 numerals *)

(** [l] is one complete numeral: continuation bytes, then a byte < 128. *)
Fixpoint varint_shape (l : list Z) : bool :=
  match l with
  | [] => false
  | b :: r => if b <? 128 then bool_decide (r = []) else varint_shape r
  end.
Fixpoint varint_value (l : list Z) : Z :=
  match l with
  | [] => 0
  | b :: r => b `mod` 128 + 128 * varint_value r
  end.

(** ** Lemmas *)

Lemma varint_shape_nonempty l : varint_shape l = true -> 1 <= zlen l.
Proof. destruct l; simpl; [done|]. rewrite zlen_cons. pose proof (zlen_nonneg l). lia. Qed.

Lemma varint_value_nonneg l : 0 <= varint_value l.
Proof. induction l as [|b l IH]; simpl; [lia|]. pose proof (Z.mod_pos_bound b 128). lia. Qed.

Lemma varint_value_bound l : varint_value l < 2 ^ (7 * zlen l).
Proof.
  induction l as [|b l IH]; [done|]. cbn [varint_value]. rewrite zlen_cons.
  replace (7 * (1 + zlen l)) with (7 + 7 * zlen l) by lia.
  rewrite Z.pow_add_r by (pose proof (zlen_nonneg l); lia). change (2 ^ 7) with 128.
  pose proof (Z.mod_pos_bound b 128). nia.
Qed.

(** One round of the parser on a group that does not overflow. *)
Lemma lor_group value b k : 0 <= k <= 8 -> 0 <= value < 2 ^ (7 * k) ->
  value .| u64 ((b .& 127) .<< (7 * k)) = value + (b `mod` 128) * 2 ^ (7 * k)
  /\ value + (b `mod` 128) * 2 ^ (7 * k) < 2 ^ (7 * (k + 1)).
Proof.
  intros Hk Hv. rewrite land_127. pose proof (Z.mod_pos_bound b 128 ltac:(lia)) as Hb.
  assert (Hpow : 2 ^ (7 * (k + 1)) = 128 * 2 ^ (7 * k)).
  { replace (7 * (k + 1)) with (7 + 7 * k) by lia. rewrite Z.pow_add_r by lia. done. }
  assert (Hp : 0 < 2 ^ (7 * k)) by (apply pow2_pos; lia).
  assert (2 ^ (7 * (k + 1)) <= 2 ^ 63) by (apply Z.pow_le_mono_r; lia).
  rewrite u64_small.
  - rewrite lor_shiftl_add by lia. split; [done|]. rewrite Hpow. nia.
  - rewrite Z.shiftl_mul_pow2 by lia. split; [nia|].
    assert (b `mod` 128 * 2 ^ (7 * k) < 2 ^ 63) by nia.
    change (2 ^ 63) with 9223372036854775808 in *. lia.
Qed.

(** The tenth group keeps one bit. *)
Lemma lor_last_group value b : 0 <= value < 2 ^ 63 ->
  value .| u64 ((b .& 127) .<< 63) = u64 (value + (b `mod` 128) * 2 ^ 63).
Proof.
  intros Hv. rewrite land_127. set (c := b `mod` 128). unfold u64, uw.
  rewrite Z.shiftl_mul_pow2 by lia.
  change (2 ^ 64) with (2 * 2 ^ 63).
  rewrite Zmult_mod_distr_r. rewrite <- (Z.shiftl_mul_pow2 (c `mod` 2)) by lia.
  rewrite lor_shiftl_add by lia.
  assert (Hc : value + c * 2 ^ 63 = value + c `mod` 2 * 2 ^ 63 + (c `div` 2) * (2 * 2 ^ 63))
    by (pose proof (Z.div_mod c 2); lia).
  rewrite Hc. rewrite Z.mod_add by lia. symmetry. apply Z.mod_small.
  pose proof (Z.mod_pos_bound c 2 ltac:(lia)). lia.
Qed.

Lemma ParseVarInt_loop_shape l rest k pos value :
  bytes_ok l -> varint_shape l = true -> 0 <= k -> k + zlen l <= 10 -> 0 <= value < 2 ^ (7 * k) ->
  ParseVarInt_loop (l ++ rest) (7 * k) pos value = (pos + zlen l, u64 (value + varint_value l * 2 ^ (7 * k))).
Proof.
  intros Hb. revert k pos value. induction Hb as [|b l Hb Hl IH]; intros k pos value Hs Hk Hlen Hv; [done|].
  rewrite zlen_cons in Hlen. pose proof (zlen_nonneg l).
  cbn [app ParseVarInt_loop varint_shape varint_value] in *.
  destruct (Z.ltb_spec (7 * k) 64); [|lia]. rewrite land_128_byte by done.
  rewrite zlen_cons. destruct (Z.eq_dec k 9) as [->|].
  - assert (l = []) as -> by (destruct l; [done|rewrite zlen_cons in *; pose proof (zlen_nonneg l); lia]).
    destruct (b <? 128); [|done]. rewrite lor_last_group by done.
    rewrite zlen_nil. apply (f_equal2 pair); [lia|]. f_equal. simpl varint_value. lia.
  - destruct (lor_group value b k) as [-> Hnext]; [lia|done|].
    destruct (b <? 128) eqn:E.
    + apply bool_decide_eq_true in Hs. subst l. rewrite zlen_nil. apply (f_equal2 pair); [lia|].
      rewrite u64_small; [simpl varint_value; lia|]. simpl varint_value.
      assert (2 ^ (7 * (k + 1)) <= 2 ^ 63) by (apply Z.pow_le_mono_r; lia).
      change (2 ^ 63) with 9223372036854775808 in *. pose proof (Z.mod_pos_bound b 128). nia.
    + replace (7 * k + 7) with (7 * (k + 1)) by lia.
      rewrite IH; [|done|lia|lia|].
      * apply (f_equal2 pair); [lia|]. f_equal. replace (7 * (k + 1)) with (7 + 7 * k) by lia.
        rewrite Z.pow_add_r by lia. lia.
      * pose proof (Z.mod_pos_bound b 128). nia.
Qed.

Lemma ParseVarInt_shape l rest : bytes_ok l -> varint_shape l = true -> zlen l <= 10 ->
  ParseVarInt (l ++ rest) = (zlen l, u64 (varint_value l)).
Proof.
  intros. unfold ParseVarInt. change 0 with (7 * 0) at 1. rewrite ParseVarInt_loop_shape by (done || lia).
  f_equal. f_equal. lia.
Qed.

(** Every outcome of the parser is one of the two: a complete numeral of at
    most ten bytes, or failure. *)
Lemma ParseVarInt_loop_inv buf k pos value :
  bytes_ok buf -> 0 <= k ->
  ParseVarInt_loop buf (7 * k) pos value = (0, 0) \/
  exists l rest, buf = l ++ rest /\ varint_shape l = true /\ k + zlen l <= 10.
Proof.
  intros Hb. revert k pos value. induction Hb as [|b buf Hb Hl IH]; intros k pos value Hk; [by left|].
  cbn [ParseVarInt_loop]. destruct (Z.ltb_spec (7 * k) 64); [|by left].
  rewrite land_128_byte by done. destruct (b <? 128) eqn:E.
  - right. exists [b], buf. simpl. rewrite E. split; [done|]. split; [done|].
    rewrite zlen_cons, zlen_nil. lia.
  - replace (7 * k + 7) with (7 * (k + 1)) by lia.
    edestruct (IH (k + 1)) as [Hf|(l & rest & -> & Hs & Hlen)]; [lia|left; exact Hf|].
    right. exists (b :: l), rest. simpl. rewrite E, zlen_cons. repeat split; [done|lia].
Qed.

Lemma ParseVarInt_inv buf : bytes_ok buf ->
  ParseVarInt buf = (0, 0) \/
  exists l rest, buf = l ++ rest /\ varint_shape l = true /\ zlen l <= 10
    /\ ParseVarInt buf = (zlen l, u64 (varint_value l)).
Proof.
  intros Hb. destruct (ParseVarInt_loop_inv buf 0 0 0 Hb) as [|(l & rest & -> & Hs & Hl)]; [lia|by left|].
  right. exists l, rest. apply bytes_ok_app in Hb as [? ?].
  repeat split; [done|lia|]. apply ParseVarInt_shape; [done|done|lia].
Qed.

Lemma ParseVarInt_ext buf t : bytes_ok buf -> bytes_ok t -> (ParseVarInt buf).1 <> 0 -> ParseVarInt (buf ++ t) = ParseVarInt buf.
Proof.
  intros Hb Ht Hne. destruct (ParseVarInt_inv buf Hb) as [E|(l & rest & -> & Hs & Hl & E)]; rewrite E in *; [done|].
  apply bytes_ok_app in Hb as [Hb1 Hb2]. rewrite <- app_assoc. by apply ParseVarInt_shape.
Qed.

Lemma ParseVarInt_bound buf : bytes_ok buf -> 0 <= (ParseVarInt buf).1 <= zlen buf.
Proof.
  intros Hb. destruct (ParseVarInt_inv buf Hb) as [->|(l & rest & -> & Hs & Hl & ->)]; cbn [fst].
  - pose proof (zlen_nonneg buf). lia.
  - rewrite zlen_app. pose proof (zlen_nonneg l). pose proof (zlen_nonneg rest). lia.
Qed.

Lemma ParseVarInt_word buf : bytes_ok buf -> word_ok 64 (ParseVarInt buf).2.
Proof.
  intros Hb. destruct (ParseVarInt_inv buf Hb) as [->|(l & rest & _ & _ & _ & ->)]; [split; done|].
  apply (uw_range 64). lia.
Qed.

(** *** Writers produce numerals *)

Lemma u8_low v : u8 v .| 128 = v `mod` 128 + 128.
Proof.
  unfold u8, uw. change (2 ^ 8) with (128 * 2).
  rewrite Z.rem_mul_r by lia. pose proof (Z.mod_pos_bound v 128 ltac:(lia)).
  assert (Hd : (v `div` 128) `mod` 2 = 0 \/ (v `div` 128) `mod` 2 = 1)
    by (pose proof (Z.mod_pos_bound (v `div` 128) 2 ltac:(lia)); lia).
  destruct Hd as [->| ->].
  - rewrite Z.mul_0_r, Z.add_0_r. apply lor_128_small. lia.
  - rewrite Z.mul_1_r. apply Z.bits_inj'. intros i Hi.
    rewrite <- lor_128_small by lia. rewrite !Z.lor_spec. by destruct (Z.testbit 128 i), (Z.testbit (v `mod` 128) i).
Qed.

Lemma u8_low_plain v : 0 <= v < 128 -> u8 v = v.
Proof. intros. apply u8_small. lia. Qed.

Lemma WriteVarInt_loop_spec n v : 0 <= v < 2 ^ (7 * Z.of_nat n) -> (1 <= n)%nat ->
  bytes_ok (WriteVarInt_loop n v) /\ varint_shape (WriteVarInt_loop n v) = true
  /\ varint_value (WriteVarInt_loop n v) = v /\ 1 <= zlen (WriteVarInt_loop n v) <= Z.of_nat n.
Proof.
  revert v. induction n as [|n IH]; intros v Hv Hn; [lia|].
  cbn [WriteVarInt_loop]. destruct (Z.leb_spec 128 v) as [Hge|Hlt].
  - destruct n as [|n'].
    { change (2 ^ (7 * Z.of_nat 1)) with 128 in Hv. lia. }
    rewrite shiftr_div by lia. change (2 ^ 7) with 128.
    assert (Hdiv : 0 <= v `div` 128 < 2 ^ (7 * Z.of_nat (S n'))).
    { split; [apply Z.div_pos; lia|]. apply Z.div_lt_upper_bound; [lia|].
      replace (7 * Z.of_nat (S (S n'))) with (7 + 7 * Z.of_nat (S n')) in Hv by lia.
      rewrite Z.pow_add_r in Hv by lia. change (2 ^ 7) with 128 in Hv. lia. }
    destruct (IH (v `div` 128)) as (Hb & Hs & Hval & Hlen); [done|lia|].
    rewrite u8_low. pose proof (Z.mod_pos_bound v 128 ltac:(lia)).
    split; [constructor; [unfold byte_ok; lia|done]|].
    cbn [varint_shape varint_value]. rewrite zlen_cons.
    destruct (Z.ltb_spec (v `mod` 128 + 128) 128); [lia|]. split; [done|]. split; [|lia].
    rewrite Hval. rewrite <- Z.add_mod_idemp_r, Z.mod_same, Z.add_0_r, Z.mod_mod by lia.
    rewrite (Z.div_mod v 128) at 3 by lia. lia.
  - rewrite u8_small by lia. cbn [varint_shape varint_value].
    destruct (Z.ltb_spec v 128); [|lia]. rewrite bool_decide_true by done.
    split; [constructor; [unfold byte_ok; lia|constructor]|].
    split; [done|]. rewrite Z.mod_small by lia. unfold zlen; simpl length. lia.
Qed.

Lemma MaybeExtend_range T v : int_type_ok T -> 0 <= MaybeExtend T v < 2 ^ 64.
Proof.
  unfold int_type_ok, MaybeExtend. intros. destruct (int_signed T); [apply u64_range|].
  pose proof (uw_range (int_bits T) v). assert (2 ^ int_bits T <= 2 ^ 64) by (apply Z.pow_le_mono_r; lia). lia.
Qed.

Lemma WriteVarInt_spec T v : int_type_ok T ->
  bytes_ok (WriteVarInt T v) /\ varint_shape (WriteVarInt T v) = true
  /\ varint_value (WriteVarInt T v) = MaybeExtend T v /\ 1 <= zlen (WriteVarInt T v) <= 10.
Proof.
  intros HT. unfold WriteVarInt. apply WriteVarInt_loop_spec; [|lia].
  pose proof (MaybeExtend_range T v HT).
  assert (2 ^ 64 <= 2 ^ (7 * Z.of_nat 10)) by (apply Z.pow_le_mono_r; lia). lia.
Qed.

(** More fuel does not change the output: ten rounds are enough. *)
Lemma WriteVarInt_loop_done n m v : 0 <= v < 2 ^ (7 * Z.of_nat n) -> (1 <= n <= m)%nat ->
  WriteVarInt_loop m v = WriteVarInt_loop n v.
Proof.
  revert m v. induction n as [|n IH]; intros m v Hv Hn; [lia|].
  destruct m as [|m]; [lia|]. cbn [WriteVarInt_loop].
  destruct (Z.leb_spec 128 v) as [Hge|]; [|done]. f_equal.
  destruct n as [|n']; [change (2 ^ (7 * Z.of_nat 1)) with 128 in Hv; lia|].
  apply IH; [|lia]. rewrite shiftr_div by lia. change (2 ^ 7) with 128.
  split; [apply Z.div_pos; lia|]. apply Z.div_lt_upper_bound; [lia|].
  replace (7 * Z.of_nat (S (S n'))) with (7 + 7 * Z.of_nat (S n')) in Hv by lia.
  rewrite Z.pow_add_r in Hv by lia. change (2 ^ 7) with 128 in Hv. lia.
Qed.

(** The size of the encoding of a value below [2^(7n)]. *)
Lemma WriteVarInt_size T v n : int_type_ok T -> 0 <= MaybeExtend T v < 2 ^ (7 * Z.of_nat n) -> (1 <= n <= 10)%nat ->
  zlen (WriteVarInt T v) <= Z.of_nat n.
Proof.
  intros HT Hv Hn. unfold WriteVarInt. rewrite (WriteVarInt_loop_done n) by (done || lia).
  apply WriteVarInt_loop_spec; [done|lia].
Qed.

Lemma WriteRedundantVarInt_loop_spec n size i v :
  0 <= v -> i + Z.of_nat n = size -> (1 <= n)%nat ->
  bytes_ok (WriteRedundantVarInt_loop n size i v) /\
  zlen (WriteRedundantVarInt_loop n size i v) = Z.of_nat n /\
  (v < 2 ^ (7 * Z.of_nat n) ->
    varint_shape (WriteRedundantVarInt_loop n size i v) = true /\
    varint_value (WriteRedundantVarInt_loop n size i v) = v).
Proof.
  revert i v. induction n as [|n IH]; intros i v Hv Hi Hn; [lia|].
  cbn [WriteRedundantVarInt_loop]. destruct n as [|n'].
  - destruct (Z.ltb_spec i (size - 1)); [lia|]. rewrite Z.lor_0_r. cbn [WriteRedundantVarInt_loop].
    pose proof (u8_range v). split; [repeat constructor; unfold byte_ok; lia|]. split; [done|].
    change (2 ^ (7 * Z.of_nat 1)) with 128. intros Hlt. rewrite u8_small by lia.
    cbn [varint_shape varint_value]. destruct (Z.ltb_spec v 128); [|lia]. split; [done|].
    rewrite Z.mod_small by lia. lia.
  - destruct (Z.ltb_spec i (size - 1)); [|lia].
    destruct (IH (i + 1) (v .>> 7)) as (Hb & Hlen & Hval); [|lia|lia|].
    { rewrite shiftr_div by lia. apply Z.div_pos; lia. }
    rewrite u8_low. pose proof (Z.mod_pos_bound v 128 ltac:(lia)).
    split; [constructor; [unfold byte_ok; lia|done]|]. rewrite zlen_cons. split; [lia|].
    intros Hlt. rewrite shiftr_div in * by lia. change (2 ^ 7) with 128 in *.
    destruct Hval as [Hs Hval].
    { apply Z.div_lt_upper_bound; [lia|].
      replace (7 * Z.of_nat (S (S n'))) with (7 + 7 * Z.of_nat (S n')) in Hlt by lia.
      rewrite Z.pow_add_r in Hlt by lia. change (2 ^ 7) with 128 in Hlt. lia. }
    cbn [varint_shape varint_value]. destruct (Z.ltb_spec (v `mod` 128 + 128) 128); [lia|].
    split; [exact Hs|]. rewrite Hval. rewrite <- Z.add_mod_idemp_r, Z.mod_same, Z.add_0_r, Z.mod_mod by lia.
    rewrite (Z.div_mod v 128) at 3 by lia. lia.
Qed.

Lemma WriteRedundantVarInt_spec v size : word_ok 32 v -> 1 <= size ->
  bytes_ok (WriteRedundantVarInt v size) /\ zlen (WriteRedundantVarInt v size) = size /\
  (v < 2 ^ (7 * size) -> varint_shape (WriteRedundantVarInt v size) = true /\
     varint_value (WriteRedundantVarInt v size) = v).
Proof.
  unfold word_ok. intros Hv Hs. unfold WriteRedundantVarInt. rewrite u32_small by (change (2 ^ 32) with 4294967296 in Hv; lia).
  destruct (WriteRedundantVarInt_loop_spec (Z.to_nat size) size 0 v) as (? & ? & ?); [lia|lia|lia|].
  rewrite !Z2Nat.id in * by lia. done.
Qed.

(** *** Zig-zag *)

Lemma lxor_ones_compl b x : 0 <= b -> 0 <= x < 2 ^ b -> x .^ (2 ^ b - 1) = 2 ^ b - 1 - x.
Proof.
  intros Hb Hx. replace (2 ^ b - 1) with (Z.ones b) by (rewrite Z.ones_equiv; lia).
  apply Z.bits_inj'. intros i Hi. rewrite Z.lxor_spec.
  replace (Z.ones b - x) with (Z.ldiff (Z.ones b) x).
  2: { rewrite Z.ldiff_land. symmetry. rewrite Z.sub_nocarry_ldiff; [by rewrite Z.ldiff_land|].
       apply Z.bits_inj'. intros j Hj. rewrite Z.ldiff_spec, Z.testbit_0_l.
       destruct (Z.lt_ge_cases j b); [rewrite Z.ones_spec_low by lia; apply andb_false_r|].
       by rewrite (testbit_small b x j) by lia. }
  rewrite Z.ldiff_spec. destruct (Z.lt_ge_cases i b).
  - rewrite Z.ones_spec_low by lia. by destruct (Z.testbit x i).
  - rewrite Z.ones_spec_high, (testbit_small b) by lia. done.
Qed.

Definition signed_range (b v : Z) : Prop := - 2 ^ (b - 1) <= v < 2 ^ (b - 1).

Lemma pow2_half b : 1 <= b -> 2 ^ b = 2 * 2 ^ (b - 1).
Proof. intros. rewrite <- Z.pow_succ_r by lia. f_equal. lia. Qed.

Lemma uw_signed b v : 1 <= b -> signed_range b v -> uw b v = if v <? 0 then v + 2 ^ b else v.
Proof.
  unfold signed_range, uw. intros Hb Hv. pose proof (pow2_half b Hb). destruct (Z.ltb_spec v 0).
  - rewrite <- (Z.mod_add v 1) by (pose proof (pow2_pos b); lia). rewrite Z.mul_1_l.
    apply Z.mod_small. lia.
  - apply Z.mod_small. lia.
Qed.

Lemma sw_uw b v : 1 <= b -> signed_range b v -> sw b (uw b v) = v.
Proof.
  intros Hb Hv. unfold sw. rewrite (uw_small b (uw b v)) by (apply uw_range; lia).
  rewrite uw_signed by done. unfold signed_range in Hv. pose proof (pow2_half b Hb).
  cbv zeta. destruct (Z.ltb_spec v 0).
  - destruct (Z.ltb_spec (v + 2 ^ b) (2 ^ (b - 1))); lia.
  - destruct (Z.ltb_spec v (2 ^ (b - 1))); lia.
Qed.

Lemma ZigZagEncode_value b v : 2 <= b -> signed_range b v ->
  ZigZagEncode b v = if v <? 0 then - 2 * v - 1 else 2 * v.
Proof.
  intros Hb Hv. unfold ZigZagEncode. rewrite (uw_signed b v) by (done || lia).
  unfold signed_range in Hv. pose proof (pow2_half b ltac:(lia)).
  rewrite Z.shiftl_mul_pow2, Z.shiftr_div_pow2 by lia. change (2 ^ 1) with 2.
  destruct (Z.ltb_spec v 0) as [Hneg|Hpos].
  - replace (v `div` 2 ^ (b - 1)) with (-1) by (apply (Z.div_unique _ _ _ (v + 2 ^ (b - 1))); lia).
    assert (uw b ((v + 2 ^ b) * 2) = 2 * v + 2 ^ b) as ->.
    { unfold uw. symmetry. apply (Z.mod_unique _ _ 1); lia. }
    assert (uw b (-1) = 2 ^ b - 1) as ->.
    { unfold uw. symmetry. apply (Z.mod_unique _ _ (-1)); lia. }
    rewrite lxor_ones_compl by lia. lia.
  - rewrite (Z.div_small v) by lia. rewrite (uw_small b 0) by lia. rewrite Z.lxor_0_r.
    rewrite uw_small by lia. lia.
Qed.

Lemma ZigZagDecode_value b u : 2 <= b -> 0 <= u < 2 ^ b ->
  ZigZagDecode b u = if Z.even u then u `div` 2 else - (u `div` 2) - 1.
Proof.
  intros Hb Hu. unfold ZigZagDecode. rewrite (uw_small b u) by done. cbv zeta.
  rewrite land_1, Z.shiftr_div_pow2 by lia. change (2 ^ 1) with 2.
  pose proof (pow2_half b ltac:(lia)). pose proof (Z.div_mod u 2 ltac:(lia)) as Hdm.
  rewrite Zmod_even. rewrite Zmod_even in Hdm.
  assert (Hd : 0 <= u `div` 2 < 2 ^ (b - 1)) by (destruct (Z.even u); lia).
  destruct (Z.even u).
  - rewrite Z.opp_0, (uw_small b 0), Z.lxor_0_r by lia.
    rewrite <- (uw_small b (u `div` 2)) at 1 by lia. apply sw_uw; [lia|]. unfold signed_range. lia.
  - change (- (1)) with (-1).
    assert (uw b (-1) = 2 ^ b - 1) as -> by (unfold uw; symmetry; apply (Z.mod_unique _ _ (-1)); lia).
    rewrite lxor_ones_compl by lia.
    replace (2 ^ b - 1 - u `div` 2) with (uw b (- (u `div` 2) - 1)).
    2: { rewrite uw_signed by (unfold signed_range; lia). destruct (Z.ltb_spec (- (u `div` 2) - 1) 0); lia. }
    apply sw_uw; [lia|]. unfold signed_range. lia.
Qed.

Lemma MaybeExtend_in_type T v : int_type_ok T -> in_type T v -> MaybeExtend T v = u64 v.
Proof.
  unfold int_type_ok, in_type, MaybeExtend. intros HT Hv. destruct (int_signed T); [done|].
  rewrite uw_small by done. symmetry. apply (uw_small 64).
  assert (2 ^ int_bits T <= 2 ^ 64) by (apply Z.pow_le_mono_r; lia). lia.
Qed.

(** The value a reader gets back by converting the 64-bit payload to the
    field's own type. *)
Definition to_type (T : int_type) (payload : Z) : Z :=
  if int_signed T then sw (int_bits T) payload else uw (int_bits T) payload.

Lemma to_type_u64 T v : int_type_ok T -> in_type T v -> to_type T (u64 v) = v.
Proof.
  unfold int_type_ok, in_type, to_type. intros HT Hv.
  assert (Huw : uw (int_bits T) (u64 v) = uw (int_bits T) v) by (apply uw_uw; lia).
  assert (Hss : uw (int_bits T) (uw (int_bits T) v) = uw (int_bits T) v) by (apply uw_uw; lia).
  destruct (int_signed T).
  - transitivity (sw (int_bits T) (uw (int_bits T) v)); [unfold sw; by rewrite Huw, Hss|].
    apply sw_uw; [lia|exact Hv].
  - rewrite Huw. by apply uw_small.
Qed.

(** ** Properties *)

(** Every integer written as a variable-length integer, whatever its C++
    type, is parsed back: the parser consumes exactly the bytes written (at most
    ten) and returns the sign-extended 64-bit payload, which converts to the value. *)
Theorem varint_roundtrip (T : int_type) (v : Z) (rest : list Z) :
  int_type_ok T -> in_type T v ->
  ParseVarInt (WriteVarInt T v ++ rest) = (zlen (WriteVarInt T v), u64 v)
  /\ to_type T (u64 v) = v /\ 1 <= zlen (WriteVarInt T v) <= 10.
Proof.
  intros HT Hv. destruct (WriteVarInt_spec T v HT) as (Hb & Hs & Hval & Hlen).
  rewrite ParseVarInt_shape by (done || lia). rewrite Hval, MaybeExtend_in_type by done.
  split; [|split; [by apply to_type_u64|lia]].
  f_equal. unfold u64, uw. apply Z.mod_mod. lia.
Qed.

Lemma varint_roundtrip_witness :
  int_type_ok int32_t /\ ParseVarInt (WriteVarInt int32_t (-2) ++ [7]) = (10, 18446744073709551614)
  /\ to_type int32_t 18446744073709551614 = -2.
Proof.
  assert (HT : int_type_ok int32_t) by (unfold int_type_ok; simpl; lia).
  destruct (varint_roundtrip int32_t (-2) [7] HT) as (H1 & H2 & H3); [unfold in_type; simpl; lia|].
  split; [exact HT|]. split; [exact H1|exact H2].
Defined.

(** A value below 2^(7*size) written as a fixed-size redundant integer
    (the back-filled length fields) occupies exactly [size] bytes and is parsed back
    from them, whatever follows. *)
Theorem redundant_varint_roundtrip (v size : Z) (rest : list Z) :
  word_ok 32 v -> 1 <= size <= 10 -> v < 2 ^ (7 * size) ->
  zlen (WriteRedundantVarInt v size) = size /\
  ParseVarInt (WriteRedundantVarInt v size ++ rest) = (size, v).
Proof.
  intros Hv Hsz Hlt. destruct (WriteRedundantVarInt_spec v size Hv) as (Hb & Hlen & Hval); [lia|].
  destruct (Hval Hlt) as [Hs Hv']. split; [done|].
  rewrite ParseVarInt_shape by (done || lia). rewrite Hlen, Hv'. f_equal.
  apply (uw_small 64). unfold word_ok in Hv. change (2 ^ 32) with 4294967296 in Hv.
  change (2 ^ 64) with 18446744073709551616. lia.
Qed.

Lemma redundant_varint_roundtrip_witness :
  WriteRedundantVarInt 1 4 = [129; 128; 128; 0] /\ ParseVarInt (WriteRedundantVarInt 1 4 ++ [9]) = (4, 1).
Proof.
  split; [reflexivity|].
  refine (proj2 (redundant_varint_roundtrip 1 4 [9] _ _ _)); [split; lia|lia|lia].
Defined.

(** ParseVarInt never reads past the range nor more than ten bytes; it
    fails (consuming nothing, value 0) exactly when no complete numeral of at most
    ten bytes starts the range, and otherwise returns that numeral modulo 2^64. *)
Theorem ParseVarInt_total (buf : list Z) : bytes_ok buf ->
  let '(n, v) := ParseVarInt buf in
  0 <= n <= Z.min 10 (zlen buf) /\ word_ok 64 v /\
  (n = 0 -> v = 0 /\ forall m, varint_shape (ztake m buf) = true -> 10 < zlen (ztake m buf)) /\
  (n <> 0 -> varint_shape (ztake n buf) = true /\ v = u64 (varint_value (ztake n buf))).
Proof.
  intros Hb. destruct (ParseVarInt_inv buf Hb) as [Hf|(l & rest & -> & Hs & Hl & Hp)].
  - rewrite Hf. pose proof (zlen_nonneg buf). split; [lia|]. split; [split; lia|]. split; [|done].
    intros _. split; [done|]. intros m Hm. apply Z.nle_gt. intros Hle.
    rewrite <- (ztake_zdrop m buf), ParseVarInt_shape in Hf by auto using bytes_ok_ztake.
    apply varint_shape_nonempty in Hm. injection Hf as Hf _. lia.
  - rewrite Hp. rewrite ztake_zlen_app, zlen_app.
    pose proof (zlen_nonneg rest). pose proof (varint_shape_nonempty l Hs).
    split; [lia|]. split; [apply (uw_range 64); lia|]. split; [lia|done].
Qed.

Lemma ParseVarInt_total_witness : bytes_ok [172; 2; 5] /\ fst (ParseVarInt [172; 2; 5]) <= Z.min 10 3.
Proof.
  assert (Hb : bytes_ok [172; 2; 5]) by (repeat constructor; lia).
  split; [exact Hb|]. exact (proj2 (proj1 (ParseVarInt_total [172; 2; 5] Hb))).
Defined.

(** Zig-zag: the encoding of a signed value is 2v (v >= 0) or -2v-1
    (v < 0), so small magnitudes give small unsigned numbers, and decoding inverts
    it over the whole range of the type. *)
Theorem zigzag_roundtrip (bits v : Z) : 2 <= bits -> signed_range bits v ->
  ZigZagEncode bits v = (if v <? 0 then - 2 * v - 1 else 2 * v)
  /\ word_ok bits (ZigZagEncode bits v)
  /\ ZigZagDecode bits (ZigZagEncode bits v) = v.
Proof.
  intros Hb Hv. rewrite ZigZagEncode_value by done.
  assert (Hr : word_ok bits (if v <? 0 then - 2 * v - 1 else 2 * v)).
  { unfold word_ok, signed_range in *. pose proof (pow2_half bits ltac:(lia)). destruct (Z.ltb_spec v 0); lia. }
  split; [done|]. split; [done|]. rewrite ZigZagDecode_value by done.
  destruct (Z.ltb_spec v 0).
  - replace (- 2 * v - 1) with (2 * (- v - 1) + 1) by lia.
    rewrite Z.even_add, Z.even_mul. cbn [Z.even orb Bool.eqb].
    rewrite Z.mul_comm, Z.div_add_l by lia. change (1 `div` 2) with 0. lia.
  - rewrite Z.even_mul. cbn [Z.even orb]. rewrite Z.mul_comm, Z.div_mul by lia. done.
Qed.

Lemma zigzag_roundtrip_witness : ZigZagEncode 32 (-3) = 5 /\ ZigZagDecode 32 5 = -3.
Proof.
  destruct (zigzag_roundtrip 32 (-3)) as (H1 & _ & H2); [lia|unfold signed_range; lia|].
  split; [exact H1|exact H2].
Defined.
