(* ===== verification/ProtoDecoder.v ===== *)
(** * Schema-less and typed proto decoders
    (src/protozero/proto_decoder.cc, include/perfetto/protozero/proto_decoder.h,
    include/perfetto/protozero/field.h, src/protozero/field.cc)

    The buffer of a decoder is [mem]; a pointer into it is an offset, [begin_] is 0
    and [end_] is [zlen mem].  The payload pointer a length-delimited field keeps in
    [int_value_] is such an offset.  The theorems: parsing is memory safe and makes
    progress on arbitrary bytes; an encoded field list is decoded exactly; the
    typed decoder keeps the last value of each field and iterates repeated fields
    in wire order (when its storage has a slot for every known field). *)

From S2P Require Import Prelude ProtoUtils.

(** ** Fields *)

Record Field := mkField { id_ : Z; type_ : Z; int_value_ : Z; size_ : Z }.
(** Field{}: all members zero. *)
Definition Field0 : Field := mkField 0 0 0 0.
#[export] Instance Field_eq_dec : EqDecision Field.
Proof. solve_decision. Defined.
Definition valid (f : Field) : bool := negb (id_ f =? 0).
Definition initialize (id type int_value size : Z) : Field := mkField id type int_value size.

Definition as_bool (f : Field) : bool := negb (int_value_ f =? 0).
Definition as_uint32 (f : Field) : Z := u32 (int_value_ f).
Definition as_int32 (f : Field) : Z := s32 (int_value_ f).
Definition as_sint32 (f : Field) : Z := ZigZagDecode 32 (u32 (int_value_ f)).
Definition as_uint64 (f : Field) : Z := int_value_ f.
Definition as_int64 (f : Field) : Z := s64 (int_value_ f).
Definition as_sint64 (f : Field) : Z := ZigZagDecode 64 (int_value_ f).
(** The bytes as_bytes() / as_string() point to. *)
Definition as_bytes (mem : list Z) (f : Field) : list Z := zread (int_value_ f) (size_ f) mem.

(** Field::SerializeAndAppendToInternal; PERFETTO_FATAL on an unknown type. *)
Definition SerializeAndAppendTo (mem : list Z) (f : Field) (dst : list Z) : outcome (list Z) :=
  if type_ f =? wire_type_value kVarInt then
    Ok (dst ++ WriteVarInt uint32_t (MakeTagVarInt (id_ f)) ++ WriteVarInt uint64_t (int_value_ f))
  else if type_ f =? wire_type_value kFixed32 then
    Ok (dst ++ WriteVarInt uint32_t (MakeTagFixed 4 (id_ f)) ++ le_bytes 4 (u32 (int_value_ f)))
  else if type_ f =? wire_type_value kFixed64 then
    Ok (dst ++ WriteVarInt uint32_t (MakeTagFixed 8 (id_ f)) ++ le_bytes 8 (int_value_ f))
  else if type_ f =? wire_type_value kLengthDelimited then
    Ok (dst ++ WriteVarInt uint32_t (MakeTagLengthDelimited (id_ f)) ++ WriteVarInt uint64_t (size_ f)
        ++ as_bytes mem f)
  else Crash.

(** ** Parsing one field *)

Inductive ParseResult : Type := kAbort | kSkip | kOk.
Record ParseFieldResult := mkPFR { parse_res : ParseResult; next : Z; field : Field }.

(** ParseVarInt(mem + pos, end, &value). *)
Definition ParseVarIntAt (mem : list Z) (pos : Z) : Z * Z :=
  let '(n, v) := ParseVarInt (zdrop pos mem) in (pos + n, v).

Definition ParsePreamble (mem : list Z) (pos : Z) : option (Z * Z) :=
  if znth mem pos <? 128 then Some (pos + 1, znth mem pos)
  else let '(next, preamble) := ParseVarIntAt mem pos in
       if pos =? next then None else Some (next, preamble).

(** The switch on the wire type: (new_pos, int_value, size), or None where the
    code returns the kAbort result. *)
Definition ParsePayload (mem : list Z) (field_type pos : Z) : option (Z * Z * Z) :=
  let end_ := zlen mem in
  if field_type =? wire_type_value kVarInt then
    let '(new_pos, int_value) := ParseVarIntAt mem pos in
    if new_pos =? pos then None else Some (new_pos, int_value, 0)
  else if field_type =? wire_type_value kLengthDelimited then
    let '(new_pos, payload_length) := ParseVarIntAt mem pos in
    if new_pos =? pos then None
    else if end_ - new_pos <? payload_length then None
    else Some (new_pos + payload_length, new_pos, payload_length)
  else if field_type =? wire_type_value kFixed64 then
    if end_ <? pos + 8 then None else Some (pos + 8, le_value (zread pos 8 mem), 0)
  else if field_type =? wire_type_value kFixed32 then
    if end_ <? pos + 4 then None else Some (pos + 4, le_value (zread pos 4 mem), 0)
  else None.

Definition ParseOneField (mem : list Z) (buffer : Z) : ParseFieldResult :=
  let end_ := zlen mem in
  let abort := mkPFR kAbort buffer Field0 in
  if end_ <=? buffer then abort
  else
    match ParsePreamble mem buffer with
    | None => abort
    | Some (pos, preamble) =>
        let field_id := u32 (preamble .>> 3) in
        if (field_id =? 0) || (end_ <=? pos) then abort
        else
          let field_type := u8 (preamble .& 7) in
          match ParsePayload mem field_type pos with
          | None => abort
          | Some (new_pos, int_value, size) =>
              if 65535 <? field_id then mkPFR kSkip new_pos Field0
              else if kMaxMessageLength <? size then mkPFR kSkip new_pos Field0
              else mkPFR kOk new_pos (initialize (u16 field_id) field_type int_value (u32 size))
          end
    end.

(** ** ProtoDecoder.  The state is the buffer and the read cursor. *)

Record ProtoDecoder := mkDecoder { pd_mem : list Z; read_ptr_ : Z }.

(** The do-while loop: every round but the last moves the cursor forward, so
    one round more than there are bytes left is enough (ReadField_fuel). *)
Fixpoint ReadField_loop (fuel : nat) (mem : list Z) (read_ptr : Z) : Field * Z :=
  match fuel with
  | O => (Field0, read_ptr)
  | S fuel' =>
      let res := ParseOneField mem read_ptr in
      match parse_res res with
      | kSkip => ReadField_loop fuel' mem (next res)
      | _ => (field res, next res)
      end
  end.
Definition ReadField (d : ProtoDecoder) : Field * ProtoDecoder :=
  let '(f, p) := ReadField_loop (S (length (zdrop (read_ptr_ d) (pd_mem d)))) (pd_mem d) (read_ptr_ d) in
  (f, mkDecoder (pd_mem d) p).

Fixpoint FindField_loop (fuel : nat) (field_id : Z) (d : ProtoDecoder) : Field :=
  match fuel with
  | O => Field0
  | S fuel' =>
      let '(f, d') := ReadField d in
      if valid f then if id_ f =? field_id then f else FindField_loop fuel' field_id d' else Field0
  end.
Definition FindField (d : ProtoDecoder) (field_id : Z) : Field :=
  FindField_loop (S (length (pd_mem d))) field_id (mkDecoder (pd_mem d) 0).

(** The loop [for (f = ReadField(); f.valid(); f = ReadField())] of the clients. *)
Fixpoint ReadAll_loop (fuel : nat) (d : ProtoDecoder) : list Field :=
  match fuel with
  | O => []
  | S fuel' => let '(f, d') := ReadField d in if valid f then f :: ReadAll_loop fuel' d' else []
  end.
Definition ReadAll (mem : list Z) : list Field := ReadAll_loop (S (length mem)) (mkDecoder mem 0).

(** ** TypedProtoDecoderBase *)

Record TypedDecoder := mkTyped {
  fields_ : list Field;  (** on-stack or heap storage, [capacity_] slots *)
  num_fields_ : Z;
  tsize_ : Z;
  capacity_ : Z;
  tread_ptr_ : Z
}.

Definition PROTOZERO_DECODER_INITIAL_STACK_CAPACITY : Z := 100.

Definition TypedProtoDecoderBase (num_fields capacity : Z) : TypedDecoder :=
  mkTyped (replicate (Z.to_nat capacity) Field0) num_fields (Z.min num_fields (capacity - 1)) capacity 0.

Definition slot (l : list Field) (i : Z) : Field := default Field0 (l !! Z.to_nat i).

(** Slots past the initialised ones are never read; they are Field{} here. *)
Definition ExpandHeapStorage (d : TypedDecoder) : outcome TypedDecoder :=
  let min_capacity := u32 (num_fields_ d + 2048) in
  let new_capacity := Z.max (u32 (capacity_ d * 2)) min_capacity in
  check! (tsize_ d <? new_capacity) && (num_fields_ d <? new_capacity) in
  let new_size := Z.max (tsize_ d) (num_fields_ d) in
  let new_storage := ztake (tsize_ d) (fields_ d) ++ replicate (Z.to_nat (new_capacity - tsize_ d)) Field0 in
  Ok (mkTyped new_storage (num_fields_ d) new_size new_capacity (tread_ptr_ d)).

(** One parsed field: the body of the loop after the kSkip/kAbort tests. *)
Definition StoreField (d : TypedDecoder) (f : Field) : outcome TypedDecoder :=
  let field_id := id_ f in
  if num_fields_ d <=? field_id then Ok d
  else
    let! d := if (tsize_ d <=? field_id) || (capacity_ d <=? tsize_ d) then ExpandHeapStorage d else Ok d in
    let fld := slot (fields_ d) field_id in
    if negb (valid fld) then
      Ok (mkTyped (<[Z.to_nat field_id := f]> (fields_ d)) (num_fields_ d) (tsize_ d) (capacity_ d) (tread_ptr_ d))
    else
      let fields := <[Z.to_nat (tsize_ d) := fld]> (fields_ d) in
      Ok (mkTyped (<[Z.to_nat field_id := f]> fields) (num_fields_ d) (tsize_ d + 1) (capacity_ d) (tread_ptr_ d)).

Fixpoint ParseAllFields_loop (fuel : nat) (mem : list Z) (cur : Z) (d : TypedDecoder) : outcome TypedDecoder :=
  match fuel with
  | O => Ok d
  | S fuel' =>
      let res := ParseOneField mem cur in
      match parse_res res with
      | kSkip => ParseAllFields_loop fuel' mem (next res) d
      | kAbort => Ok (mkTyped (fields_ d) (num_fields_ d) (tsize_ d) (capacity_ d) (next res))
      | kOk => let! d := StoreField d (field res) in ParseAllFields_loop fuel' mem (next res) d
      end
  end.
Definition ParseAllFields (mem : list Z) (d : TypedDecoder) : outcome TypedDecoder :=
  ParseAllFields_loop (S (length mem)) mem 0 d.

(** The constructor of TypedProtoDecoder<MAX_FIELD_ID, _>. *)
Definition TypedProtoDecoder (MAX_FIELD_ID : Z) (mem : list Z) : outcome TypedDecoder :=
  ParseAllFields mem
    (TypedProtoDecoderBase (MAX_FIELD_ID + 1) PROTOZERO_DECODER_INITIAL_STACK_CAPACITY).

(** Get() returns a reference into the storage: the index of the slot. *)
Definition GetIndex (d : TypedDecoder) (id : Z) : Z :=
  if (id <? num_fields_ d) && (id <? tsize_ d) then id else 0.
Definition Get (d : TypedDecoder) (id : Z) : Field := slot (fields_ d) (GetIndex d id).

(** at<FIELD_ID>(): ids below the on-stack capacity index the storage directly. *)
Definition at_ (d : TypedDecoder) (FIELD_ID : Z) : Field :=
  if FIELD_ID <? PROTOZERO_DECODER_INITIAL_STACK_CAPACITY then slot (fields_ d) FIELD_ID
  else Get d FIELD_ID.

(** ** RepeatedFieldIterator: [iter_], [end_], [last_] are slot indices. *)

Record RepeatedIter := mkIter { ri_field_id : Z; iter_ : Z; end_ : Z; last_ : Z }.

Fixpoint FindNextMatchingId_loop (fuel : nat) (fs : list Field) (it : RepeatedIter) : RepeatedIter :=
  match fuel with
  | O => it
  | S fuel' =>
      if negb (iter_ it =? end_ it) then
        if id_ (slot fs (iter_ it)) =? ri_field_id it then it
        else FindNextMatchingId_loop fuel' fs (mkIter (ri_field_id it) (iter_ it + 1) (end_ it) (last_ it))
      else
        mkIter (ri_field_id it) (if valid (slot fs (last_ it)) then last_ it else end_ it) (end_ it) (last_ it)
  end.
Definition FindNextMatchingId (fs : list Field) (it : RepeatedIter) : RepeatedIter :=
  FindNextMatchingId_loop (S (Z.to_nat (end_ it - iter_ it))) fs it.
Definition RepeatedFieldIterator (fs : list Field) (field_id begin end_ last : Z) : RepeatedIter :=
  FindNextMatchingId fs (mkIter field_id begin end_ last).
Definition iter_bool (it : RepeatedIter) : bool := negb (iter_ it =? end_ it).
Definition iter_next (fs : list Field) (it : RepeatedIter) : RepeatedIter :=
  if iter_ it =? last_ it then mkIter (ri_field_id it) (end_ it) (end_ it) (last_ it)
  else FindNextMatchingId fs (mkIter (ri_field_id it) (iter_ it + 1) (end_ it) (last_ it)).

Definition GetRepeated (d : TypedDecoder) (field_id : Z) : RepeatedIter :=
  let repeated_begin := if num_fields_ d <? tsize_ d then num_fields_ d else tsize_ d in
  RepeatedFieldIterator (fields_ d) field_id repeated_begin (tsize_ d) (GetIndex d field_id).

(** [for (auto it = GetRepeated(id); it; ++it) out.push_back( *it )]. *)
Fixpoint iter_collect (fuel : nat) (fs : list Field) (it : RepeatedIter) : list Field :=
  match fuel with
  | O => []
  | S fuel' => if iter_bool it then slot fs (iter_ it) :: iter_collect fuel' fs (iter_next fs it) else []
  end.
Definition RepeatedValues (d : TypedDecoder) (field_id : Z) : list Field :=
  iter_collect (S (S (Z.to_nat (tsize_ d)))) (fields_ d) (GetRepeated d field_id).

(** ** PackedRepeatedFieldIterator<wire_type, CppType> over the bytes [buf];
    [read_ptr_] is the list of the bytes not yet consumed. *)

Record PackedIter := mkPacked {
  pk_read : list Z; curr_value_ : Z; curr_value_valid_ : bool; parse_error_ : bool }.

Definition packed_next (wire_type : ProtoWireType) (T : int_type) (it : PackedIter) : PackedIter :=
  if negb (curr_value_valid_ it) then it
  else if bool_decide (pk_read it = []) then mkPacked (pk_read it) (curr_value_ it) false (parse_error_ it)
  else
    match wire_type with
    | kVarInt =>
        let '(n, new_value) := ParseVarInt (pk_read it) in
        if n =? 0 then mkPacked (pk_read it) (curr_value_ it) false true
        else mkPacked (zdrop n (pk_read it)) (to_type T new_value) true (parse_error_ it)
    | _ =>
        let kStep := match wire_type with kFixed32 => 4 | _ => 8 end in
        mkPacked (zdrop kStep (pk_read it)) (to_type T (le_value (ztake (int_bits T `div` 8) (pk_read it)))) true
          (parse_error_ it)
    end.

Definition PackedRepeatedFieldIterator (wire_type : ProtoWireType) (T : int_type) (buf : list Z) : PackedIter :=
  let size := zlen buf in
  if size =? 0 then mkPacked buf 0 false false
  else
    let bad := match wire_type with
               | kFixed32 => negb (size `mod` 4 =? 0)
               | kFixed64 => negb (size `mod` 8 =? 0)
               | _ => false
               end in
    if bad then mkPacked buf 0 false true
    else packed_next wire_type T (mkPacked buf 0 true false).

(** [for (it; it; ++it) out.push_back( *it )]: the values and the error flag. *)
Fixpoint packed_collect (fuel : nat) (wire_type : ProtoWireType) (T : int_type) (it : PackedIter) : list Z * bool :=
  match fuel with
  | O => ([], parse_error_ it)
  | S fuel' =>
      if curr_value_valid_ it then
        let '(l, e) := packed_collect fuel' wire_type T (packed_next wire_type T it) in (curr_value_ it :: l, e)
      else ([], parse_error_ it)
  end.
Definition PackedValues (wire_type : ProtoWireType) (T : int_type) (buf : list Z) : list Z * bool :=
  packed_collect (S (S (length buf))) wire_type T (PackedRepeatedFieldIterator wire_type T buf).
Definition GetPackedRepeated (wire_type : ProtoWireType) (T : int_type) (mem : list Z) (d : TypedDecoder)
    (field_id : Z) : list Z * bool :=
  let f := Get d field_id in
  PackedValues wire_type T (if valid f then as_bytes mem f else []).

(** ** Specification: a message as a list of (id, value) pairs *)

Inductive wire_value : Type :=
| VVarInt (v : Z)
| VFixed64 (v : Z)
| VFixed32 (v : Z)
| VBytes (l : list Z).
Definition wire_field : Type := (Z * wire_value)%type.

Definition value_ok (v : wire_value) : Prop :=
  match v with
  | VVarInt v | VFixed64 v => word_ok 64 v
  | VFixed32 v => word_ok 32 v
  | VBytes l => bytes_ok l /\ zlen l <= kMaxMessageLength
  end.
Definition field_ok (f : wire_field) : Prop := 1 <= f.1 <= 65535 /\ value_ok f.2.
Definition value_type (v : wire_value) : ProtoWireType :=
  match v with VVarInt _ => kVarInt | VFixed64 _ => kFixed64 | VFixed32 _ => kFixed32 | VBytes _ => kLengthDelimited end.

Definition encode_tag (f : wire_field) : list Z :=
  WriteVarInt uint32_t (u32 (f.1 .<< 3) .| wire_type_value (value_type f.2)).
Definition encode_value (v : wire_value) : list Z :=
  match v with
  | VVarInt v => WriteVarInt uint64_t v
  | VFixed64 v => le_bytes 8 v
  | VFixed32 v => le_bytes 4 v
  | VBytes l => WriteVarInt uint64_t (zlen l) ++ l
  end.
Definition encode_field (f : wire_field) : list Z := encode_tag f ++ encode_value f.2.
Definition encode_fields (fs : list wire_field) : list Z := concat (map encode_field fs).

(** Any encoding of a value or field, canonical or not: [l] is a complete
    numeral of at most ten bytes that a reader takes for [v]. *)
Definition numeral (l : list Z) (v : Z) : Prop :=
  bytes_ok l /\ varint_shape l = true /\ zlen l <= 10 /\ u64 (varint_value l) = v.
Definition encodes_value (v : wire_value) (p : list Z) : Prop :=
  match v with
  | VVarInt v => numeral p v
  | VFixed64 v => word_ok 64 v /\ p = le_bytes 8 v
  | VFixed32 v => word_ok 32 v /\ p = le_bytes 4 v
  | VBytes l => bytes_ok l /\ zlen l <= kMaxMessageLength /\ exists n, numeral n (zlen l) /\ p = n ++ l
  end.
Definition encodes (f : wire_field) (b : list Z) : Prop :=
  1 <= f.1 <= 65535 /\
  exists t p, numeral t (wire_type_value (value_type f.2) + f.1 * 8) /\ encodes_value f.2 p /\ b = t ++ p.

(** The value a decoded field denotes, with its payload read from the buffer. *)
Definition view (mem : list Z) (f : Field) : wire_field :=
  (id_ f,
   if type_ f =? 0 then VVarInt (int_value_ f)
   else if type_ f =? 1 then VFixed64 (int_value_ f)
   else if type_ f =? 5 then VFixed32 (int_value_ f)
   else VBytes (as_bytes mem f)).

(** What a kOk result guarantees about its field. *)
Definition field_in (mem : list Z) (from to : Z) (f : Field) : Prop :=
  1 <= id_ f <= 65535 /\
  (type_ f = 2 /\ from < int_value_ f /\ int_value_ f + size_ f = to /\ 0 <= size_ f <= kMaxMessageLength
   \/ (type_ f = 0 \/ type_ f = 1) /\ size_ f = 0 /\ word_ok 64 (int_value_ f)
   \/ type_ f = 5 /\ size_ f = 0 /\ word_ok 32 (int_value_ f)).

(** The decoder of the buffer [mem] has seen the fields [L], in order:
    [R] is its repeated storage, holding the displaced values in order. *)
Definition occurrences (id : Z) (L : list Field) : list Field := filter (fun f => id_ f = id) L.
Definition slot_list (f : Field) : list Field := if valid f then [f] else [].
Record typed_inv (nf : Z) (L R : list Field) (d : TypedDecoder) : Prop := {
  ti_nf : num_fields_ d = nf;
  ti_size : tsize_ d = nf + zlen R;
  ti_cap : tsize_ d <= capacity_ d;
  ti_len : zlen (fields_ d) = capacity_ d;
  ti_bound : capacity_ d <= 2 * tsize_ d + 4096;
  ti_rep : forall i : nat, (i < length R)%nat -> fields_ d !! (Z.to_nat nf + i)%nat = R !! i;
  ti_ids : Forall (fun f => 1 <= id_ f < nf) R;
  ti_zero : slot (fields_ d) 0 = Field0;
  ti_slot : forall id, 1 <= id < nf -> valid (slot (fields_ d) id) = true -> id_ (slot (fields_ d) id) = id;
  ti_none : forall id, 1 <= id < nf -> valid (slot (fields_ d) id) = false ->
    slot (fields_ d) id = Field0 /\ occurrences id R = [];
  ti_occ : forall id, 1 <= id < nf -> occurrences id L = occurrences id R ++ slot_list (slot (fields_ d) id)
}.

(** ** Parsing is memory safe and makes progress *)

Lemma ParseVarIntAt_range mem pos : bytes_ok mem -> 0 <= pos <= zlen mem ->
  let '(n, v) := ParseVarIntAt mem pos in pos <= n <= zlen mem /\ word_ok 64 v.
Proof.
  intros Hm Hp. unfold ParseVarIntAt.
  pose proof (ParseVarInt_inv (zdrop pos mem) ltac:(auto with bytes)) as [->|(l & rest & Hd & Hs & Hl & ->)].
  - split; [lia|split; lia].
  - apply (f_equal zlen) in Hd. rewrite zlen_zdrop, zlen_app in Hd by lia.
    pose proof (zlen_nonneg rest). pose proof (zlen_nonneg l). split; [lia|]. apply (uw_range 64). lia.
Qed.

Lemma znth_byte mem pos : bytes_ok mem -> byte_ok (znth mem pos).
Proof.
  intros Hm. unfold znth. destruct (mem !! Z.to_nat pos) eqn:E; simpl.
  - by eapply Forall_lookup in E.
  - unfold byte_ok. lia.
Qed.

Lemma ParsePreamble_range mem pos n p : bytes_ok mem -> 0 <= pos < zlen mem ->
  ParsePreamble mem pos = Some (n, p) -> pos < n <= zlen mem /\ word_ok 64 p.
Proof.
  intros Hm Hp. unfold ParsePreamble. destruct (Z.ltb_spec (znth mem pos) 128).
  - intros [= <- <-]. pose proof (znth_byte mem pos Hm) as Hb. unfold byte_ok in Hb.
    split; [lia|]. unfold word_ok. change (2 ^ 64) with 18446744073709551616. lia.
  - pose proof (ParseVarIntAt_range mem pos Hm ltac:(lia)) as Hr.
    destruct (ParseVarIntAt mem pos) as [m v]. destruct (Z.eqb_spec pos m); [done|].
    intros [= <- <-]. split; [lia|apply Hr].
Qed.

Lemma ParsePayload_range mem t pos n v s : bytes_ok mem -> 0 <= pos < zlen mem ->
  ParsePayload mem t pos = Some (n, v, s) ->
  pos < n <= zlen mem /\
  (t = 2 /\ pos < v /\ v + s = n /\ 0 <= s
   \/ (t = 0 \/ t = 1) /\ s = 0 /\ word_ok 64 v \/ t = 5 /\ s = 0 /\ word_ok 32 v).
Proof.
  intros Hm Hp. unfold ParsePayload. cbn [wire_type_value].
  pose proof (ParseVarIntAt_range mem pos Hm ltac:(lia)) as Hr.
  destruct (ParseVarIntAt mem pos) as [m w]. destruct Hr as [Hr Hw].
  destruct (Z.eqb_spec t 0).
  { destruct (Z.eqb_spec m pos); [done|]. intros [= <- <- <-]. split; [lia|]. right; left. auto. }
  destruct (Z.eqb_spec t 2).
  { destruct (Z.eqb_spec m pos); [done|]. destruct (Z.ltb_spec (zlen mem - m) w); [done|].
    intros [= <- <- <-]. unfold word_ok in Hw. split; [lia|]. left. lia. }
  assert (Hle : forall k, zlen (zread pos k mem) = k -> word_ok (8 * k) (le_value (zread pos k mem))).
  { intros k Hk. unfold word_ok. pose proof (le_value_range (zread pos k mem)) as Hv. rewrite Hk in Hv.
    apply Hv. auto with bytes. }
  destruct (Z.eqb_spec t 1).
  { destruct (Z.ltb_spec (zlen mem) (pos + 8)); [done|]. intros [= <- <- <-]. split; [lia|].
    right; left. split; [auto|]. split; [done|]. apply Hle, zlen_zread; lia. }
  destruct (Z.eqb_spec t 5); [|done].
  destruct (Z.ltb_spec (zlen mem) (pos + 4)); [done|]. intros [= <- <- <-]. split; [lia|].
  right; right. split; [auto|]. split; [done|]. apply Hle, zlen_zread; lia.
Qed.

Lemma ParseOneField_safe mem pos : bytes_ok mem -> 0 <= pos ->
  let r := ParseOneField mem pos in
  match parse_res r with
  | kAbort => next r = pos /\ field r = Field0
  | kSkip => pos < next r <= zlen mem /\ field r = Field0
  | kOk => pos < next r <= zlen mem /\ field_in mem pos (next r) (field r)
  end.
Proof.
  intros Hm Hp. cbv zeta. unfold ParseOneField. destruct (Z.leb_spec (zlen mem) pos); [done|].
  destruct (ParsePreamble mem pos) as [[n p]|] eqn:Epre; [|done].
  apply ParsePreamble_range in Epre as [Hn Hpre]; [|done|lia].
  destruct (Z.eqb_spec (u32 (p .>> 3)) 0); [done|]. destruct (Z.leb_spec (zlen mem) n); [done|]. cbn [orb].
  destruct (ParsePayload mem _ n) as [[[m v] s]|] eqn:Epay; [|done].
  apply ParsePayload_range in Epay as [Hm' Hv]; [|done|lia].
  destruct (Z.ltb_spec 65535 (u32 (p .>> 3))); [simpl; split; [lia|done]|].
  destruct (Z.ltb_spec kMaxMessageLength s); [simpl; split; [lia|done]|].
  simpl. split; [lia|]. unfold field_in. simpl. pose proof (u32_range (p .>> 3)).
  rewrite u16_small by lia. split; [lia|].
  change kMaxMessageLength with 268435455 in *.
  destruct Hv as [(-> & ? & ? & ?)|[(? & -> & ?)|(? & -> & ?)]].
  - left. rewrite u32_small by lia. lia.
  - right; left. done.
  - right; right. done.
Qed.

(** ** Encoded fields are decoded exactly *)

Lemma tag_value id t : 0 <= id < 2 ^ 29 ->
  u32 (id .<< 3) .| wire_type_value t = wire_type_value t + id * 8.
Proof.
  intros Hid. assert (Ht : 0 <= wire_type_value t < 2 ^ 3) by (destruct t; simpl; lia).
  rewrite u32_small.
  - rewrite Z.lor_comm, lor_shiftl_add by lia. done.
  - rewrite Z.shiftl_mul_pow2 by lia. change (2 ^ 29) with 536870912 in Hid. lia.
Qed.

Lemma tag_fields id t : 0 <= id < 2 ^ 29 ->
  let tag := wire_type_value t + id * 8 in
  tag .>> 3 = id /\ u8 (tag .& 7) = wire_type_value t /\ 0 <= tag < 4294967296.
Proof.
  intros Hid. cbv zeta. change (2 ^ 29) with 536870912 in Hid.
  assert (Ht : 0 <= wire_type_value t < 8) by (destruct t; simpl; lia).
  rewrite shiftr_div, land_7 by lia. change (2 ^ 3) with 8. split; [|split; [|lia]].
  - rewrite Z.div_add by lia. rewrite Z.div_small by lia. lia.
  - rewrite Z.mod_add by lia. rewrite Z.mod_small by lia. apply u8_small. lia.
Qed.

Lemma ParseVarIntAt_app pre l post : bytes_ok l -> varint_shape l = true -> zlen l <= 10 ->
  ParseVarIntAt (pre ++ l ++ post) (zlen pre) = (zlen pre + zlen l, u64 (varint_value l)).
Proof. intros. unfold ParseVarIntAt. rewrite zdrop_zlen_app, ParseVarInt_shape by done. done. Qed.

Lemma znth_app_head pre b l : znth (pre ++ b :: l) (zlen pre) = b.
Proof. unfold znth, zlen. rewrite Nat2Z.id, lookup_app_r, Nat.sub_diag by lia. done. Qed.

Lemma ParsePreamble_app pre l post : bytes_ok l -> varint_shape l = true -> zlen l <= 10 ->
  ParsePreamble (pre ++ l ++ post) (zlen pre) = Some (zlen pre + zlen l, u64 (varint_value l)).
Proof.
  intros Hb Hs Hl. unfold ParsePreamble.
  destruct l as [|b l]; [done|]. cbn [app]. rewrite znth_app_head.
  cbn [varint_shape] in Hs. destruct (Z.ltb_spec b 128).
  - apply bool_decide_eq_true in Hs. subst l. cbn [varint_value].
    apply Forall_inv in Hb. unfold byte_ok in Hb.
    rewrite Z.mod_small by lia. rewrite u64_small by lia. repeat f_equal. lia.
  - change (b :: l ++ post) with ((b :: l) ++ post).
    rewrite (ParseVarIntAt_app pre (b :: l) post); [|done| |done].
    + pose proof (varint_shape_nonempty (b :: l)) as Hne. rewrite zlen_cons in *.
      pose proof (zlen_nonneg l). destruct (Z.eqb_spec (zlen pre) (zlen pre + (1 + zlen l))); [lia|done].
    + cbn [varint_shape]. destruct (Z.ltb_spec b 128); [lia|done].
Qed.

Lemma int_type_ok_u32 : int_type_ok uint32_t. Proof. unfold int_type_ok; simpl; lia. Qed.
Lemma int_type_ok_u64 : int_type_ok uint64_t. Proof. unfold int_type_ok; simpl; lia. Qed.

Lemma WriteVarInt_u64 v : word_ok 64 v -> varint_value (WriteVarInt uint64_t v) = v.
Proof.
  intros Hv. destruct (WriteVarInt_spec uint64_t v int_type_ok_u64) as (_ & _ & -> & _).
  rewrite MaybeExtend_in_type; [by apply (uw_small 64)|apply int_type_ok_u64|done].
Qed.
Lemma WriteVarInt_u32 v : word_ok 32 v -> varint_value (WriteVarInt uint32_t v) = v.
Proof.
  intros Hv. destruct (WriteVarInt_spec uint32_t v int_type_ok_u32) as (_ & _ & -> & _).
  unfold MaybeExtend. simpl. by apply uw_small.
Qed.

Lemma encode_tag_spec f : field_ok f ->
  bytes_ok (encode_tag f) /\ varint_shape (encode_tag f) = true /\ 1 <= zlen (encode_tag f) <= 10 /\
  varint_value (encode_tag f) = wire_type_value (value_type f.2) + f.1 * 8.
Proof.
  intros [Hid _]. unfold encode_tag.
  destruct (WriteVarInt_spec uint32_t (u32 (f.1 .<< 3) .| wire_type_value (value_type f.2)) int_type_ok_u32)
    as (Hb & Hs & _ & Hl).
  split; [done|]. split; [done|]. split; [done|].
  rewrite tag_value by (change (2 ^ 29) with 536870912; lia). apply WriteVarInt_u32.
  pose proof (tag_fields f.1 (value_type f.2) ltac:(change (2 ^ 29) with 536870912; lia)) as (_ & _ & Hr).
  exact Hr.
Qed.

Lemma numeral_pos l v : numeral l v -> 1 <= zlen l.
Proof. intros (_ & Hs & _). by apply varint_shape_nonempty. Qed.

Lemma encodes_value_pos v p : encodes_value v p -> 1 <= zlen p.
Proof.
  destruct v as [v|v|v|l]; cbn [encodes_value].
  - apply numeral_pos.
  - intros [_ ->]. rewrite zlen_le_bytes. lia.
  - intros [_ ->]. rewrite zlen_le_bytes. lia.
  - intros (_ & _ & n & Hn & ->). apply numeral_pos in Hn. rewrite zlen_app. pose proof (zlen_nonneg l). lia.
Qed.

Lemma numeral_WriteVarInt T v : int_type_ok T -> numeral (WriteVarInt T v) (MaybeExtend T v).
Proof.
  intros HT. destruct (WriteVarInt_spec T v HT) as (Hb & Hs & Hv & Hl).
  split; [done|]. split; [done|]. split; [lia|]. rewrite Hv. apply (uw_small 64), (MaybeExtend_range T v HT).
Qed.

Lemma encodes_encode_value v : value_ok v -> encodes_value v (encode_value v).
Proof.
  destruct v as [v|v|v|l]; cbn [value_ok encodes_value encode_value]; intros Hv; try done.
  - pose proof (numeral_WriteVarInt uint64_t v int_type_ok_u64) as Hn.
    rewrite MaybeExtend_in_type in Hn; [|apply int_type_ok_u64|done].
    unfold u64 in Hn. by rewrite (uw_small 64 v) in Hn.
  - destruct Hv as [Hb Hl]. split; [done|]. split; [done|]. eexists. split; [|done].
    pose proof (numeral_WriteVarInt uint64_t (zlen l) int_type_ok_u64) as Hn.
    assert (Hw : word_ok 64 (zlen l)).
    { pose proof (zlen_nonneg l). change kMaxMessageLength with 268435455 in Hl.
      unfold word_ok. change (2 ^ 64) with 18446744073709551616. lia. }
    rewrite MaybeExtend_in_type in Hn; [|apply int_type_ok_u64|done].
    unfold u64 in Hn. by rewrite (uw_small 64 (zlen l)) in Hn.
Qed.

Lemma encodes_encode_field f : field_ok f -> encodes f (encode_field f).
Proof.
  intros Hf. destruct (encode_tag_spec f Hf) as (Hb & Hs & Hl & Hv). destruct Hf as [Hid Hval].
  split; [done|]. exists (encode_tag f), (encode_value f.2). split; [|split; [by apply encodes_encode_value|done]].
  split; [done|]. split; [done|]. split; [lia|]. rewrite Hv. apply u64_small.
  assert (0 <= wire_type_value (value_type f.2) < 8) by (destruct f.2; simpl; lia). lia.
Qed.

Lemma bytes_ok_encodes f b : encodes f b -> bytes_ok b.
Proof.
  intros [_ (t & p & Ht & Hp & ->)]. apply bytes_ok_app. split; [apply Ht|].
  destruct f.2 as [v|v|v|l]; cbn [encodes_value] in Hp.
  - apply Hp.
  - destruct Hp as [_ ->]. apply bytes_ok_le_bytes.
  - destruct Hp as [_ ->]. apply bytes_ok_le_bytes.
  - destruct Hp as (? & _ & n & Hn & ->). apply bytes_ok_app. split; [apply Hn|done].
Qed.

Lemma ParseVarIntAt_numeral pre l v post : numeral l v ->
  ParseVarIntAt (pre ++ l ++ post) (zlen pre) = (zlen pre + zlen l, v) /\ (zlen pre + zlen l =? zlen pre) = false.
Proof.
  intros Hn. pose proof (numeral_pos l v Hn). destruct Hn as (Hb & Hs & Hl & <-).
  split; [by apply ParseVarIntAt_app|]. apply Z.eqb_neq. lia.
Qed.

(** A fixed-size payload. *)
Lemma zread_fixed pre k v post : zread (zlen pre) (Z.of_nat k) (pre ++ le_bytes k v ++ post) = le_bytes k v.
Proof. pose proof (zread_app_exact pre (le_bytes k v) post) as H. by rewrite zlen_le_bytes in H. Qed.

Lemma ParsePayload_enc pre v p post : encodes_value v p -> exists x s,
  ParsePayload (pre ++ p ++ post) (wire_type_value (value_type v)) (zlen pre) = Some (zlen pre + zlen p, x, s) /\
  0 <= s <= kMaxMessageLength /\
  forall id, view (pre ++ p ++ post) (mkField id (wire_type_value (value_type v)) x s) = (id, v).
Proof.
  intros Hv. unfold ParsePayload, view. pose proof (zlen_nonneg post). change kMaxMessageLength with 268435455.
  destruct v as [v|v|v|l]; cbn [encodes_value] in Hv;
    cbn [value_type wire_type_value Z.eqb Pos.eqb id_ type_ int_value_ size_].
  - destruct (ParseVarIntAt_numeral pre p v post Hv) as [-> ->]. exists v, 0. split; [done|]. split; [lia|done].
  - destruct Hv as [Hw ->]. rewrite !zlen_app, zlen_le_bytes. change (Z.of_nat 8) with 8.
    destruct (Z.ltb_spec (zlen pre + (8 + zlen post)) (zlen pre + 8)); [lia|].
    rewrite (zread_fixed pre 8 v post : zread (zlen pre) 8 _ = _), le_value_bytes_small by done.
    exists v, 0. split; [done|]. split; [lia|done].
  - destruct Hv as [Hw ->]. rewrite !zlen_app, zlen_le_bytes. change (Z.of_nat 4) with 4.
    destruct (Z.ltb_spec (zlen pre + (4 + zlen post)) (zlen pre + 4)); [lia|].
    rewrite (zread_fixed pre 4 v post : zread (zlen pre) 4 _ = _), le_value_bytes_small by done.
    exists v, 0. split; [done|]. split; [lia|done].
  - destruct Hv as (Hb & Hl & n & Hn & ->). change kMaxMessageLength with 268435455 in Hl. pose proof (zlen_nonneg l).
    rewrite <- app_assoc. destruct (ParseVarIntAt_numeral pre n _ (l ++ post) Hn) as [-> ->].
    rewrite !zlen_app.
    destruct (Z.ltb_spec (zlen pre + (zlen n + (zlen l + zlen post)) - (zlen pre + zlen n)) (zlen l)); [lia|].
    exists (zlen pre + zlen n), (zlen l). split; [by rewrite Z.add_assoc|]. split; [lia|]. intros id.
    unfold as_bytes. cbn [int_value_ size_]. do 2 f_equal.
    rewrite app_assoc, <- zlen_app. apply zread_app_exact.
Qed.

Lemma ParseOneField_enc pre f b post : encodes f b -> exists fd,
  ParseOneField (pre ++ b ++ post) (zlen pre) = mkPFR kOk (zlen pre + zlen b) fd /\
  valid fd = true /\ view (pre ++ b ++ post) fd = f.
Proof.
  intros [Hid (t & p & Ht & Hp & ->)]. destruct f as [id v]. cbn [fst snd] in *.
  pose proof (encodes_value_pos v p Hp) as Hvl. pose proof (zlen_nonneg post). pose proof (numeral_pos t _ Ht).
  destruct (tag_fields id (value_type v)) as (Hsh & Hland & Hrange); [change (2 ^ 29) with 536870912; lia|].
  destruct Ht as (Htb & Hts & Htl & Htv). unfold ParseOneField. rewrite <- app_assoc.
  rewrite ParsePreamble_app by (done || lia). rewrite Htv. cbv zeta in Hsh, Hland. rewrite Hsh, Hland.
  rewrite u32_small by lia. rewrite !zlen_app.
  destruct (Z.leb_spec (zlen pre + (zlen t + (zlen p + zlen post))) (zlen pre)); [lia|].
  destruct (Z.eqb_spec id 0); [lia|].
  destruct (Z.leb_spec (zlen pre + (zlen t + (zlen p + zlen post))) (zlen pre + zlen t)); [lia|]. cbn [orb].
  destruct (ParsePayload_enc (pre ++ t) v p post Hp) as (x & s & Hpay & Hs & Hview).
  rewrite (app_assoc pre), <- (zlen_app pre), Hpay.
  destruct (Z.ltb_spec 65535 id); [lia|]. rewrite u16_small by lia.
  destruct (Z.ltb_spec kMaxMessageLength s); [lia|]. change kMaxMessageLength with 268435455 in Hs.
  rewrite u32_small by lia. unfold initialize. eexists. split; [f_equal; rewrite zlen_app; lia|].
  split; [|apply Hview]. unfold valid. cbn [id_]. destruct (Z.eqb_spec id 0); [lia|done].
Qed.

(** ** The reading loops *)

(** Extra fuel is harmless once the loop has enough. *)
Lemma ReadField_fuel n m mem pos : bytes_ok mem -> 0 <= pos ->
  (length (zdrop pos mem) < n)%nat -> (n <= m)%nat -> ReadField_loop m mem pos = ReadField_loop n mem pos.
Proof.
  revert m pos. induction n as [|n IH]; intros m pos Hm Hp Hn Hnm; [lia|].
  destruct m as [|m]; [lia|]. cbn [ReadField_loop].
  pose proof (ParseOneField_safe mem pos Hm Hp) as Hs; cbv zeta in Hs. destruct (parse_res _); [done| |done].
  apply IH; [done|lia| |lia]. unfold zdrop in *. rewrite length_drop in *. unfold zlen in Hs. lia.
Qed.

(** ReadField either fails, or returns a field inside the bytes it consumed. *)
Lemma ReadField_loop_safe n mem pos f p : bytes_ok mem -> 0 <= pos ->
  (length (zdrop pos mem) < n)%nat -> ReadField_loop n mem pos = (f, p) ->
  pos <= p <= Z.max pos (zlen mem) /\
  (f = Field0 \/ pos < p /\ exists from, pos <= from < p /\ field_in mem from p f /\
     ParseOneField mem from = mkPFR kOk p f).
Proof.
  revert pos. induction n as [|n IH]; intros pos Hm Hp Hn; [lia|]. cbn [ReadField_loop].
  pose proof (ParseOneField_safe mem pos Hm Hp) as Hs; cbv zeta in Hs.
  destruct (ParseOneField mem pos) as [r nx fd] eqn:Epf. cbn [parse_res next field] in *.
  destruct r.
  - intros [= <- <-]. destruct Hs as [-> ->]. split; [lia|by left].
  - intros Hr. apply IH in Hr; [|done|lia|].
    + destruct Hr as [Hr1 Hr2]. split; [lia|].
      destruct Hr2 as [->|(? & from & ? & ? & ?)]; [by left|right]. split; [lia|]. exists from.
      split; [lia|done].
    + unfold zdrop in *. rewrite length_drop in *. unfold zlen in Hs. lia.
  - intros [= <- <-]. split; [lia|]. right. split; [lia|]. exists pos. split; [lia|]. split; [apply Hs|done].
Qed.

Lemma field_in_valid mem a b f : field_in mem a b f -> valid f = true.
Proof. intros [Hid _]. unfold valid. destruct (Z.eqb_spec (id_ f) 0); [lia|done]. Qed.

Lemma ReadField_enc pre f b post : encodes f b -> exists fd,
  ReadField (mkDecoder (pre ++ b ++ post) (zlen pre)) = (fd, mkDecoder (pre ++ b ++ post) (zlen pre + zlen b)) /\
  valid fd = true /\ view (pre ++ b ++ post) fd = f.
Proof.
  intros Hf. destruct (ParseOneField_enc pre f b post Hf) as (fd & Hp & Hv). exists fd. split; [|done].
  unfold ReadField. cbn [read_ptr_ pd_mem ReadField_loop]. by rewrite Hp.
Qed.

Lemma ReadField_end mem : ReadField (mkDecoder mem (zlen mem)) = (Field0, mkDecoder mem (zlen mem)).
Proof.
  unfold ReadField. cbn [read_ptr_ pd_mem ReadField_loop]. unfold ParseOneField.
  destruct (Z.leb_spec (zlen mem) (zlen mem)); [done|lia].
Qed.

Lemma encodes_pos f b : encodes f b -> 2 <= zlen b.
Proof.
  intros [_ (t & p & Ht & Hp & ->)]. apply numeral_pos in Ht. apply encodes_value_pos in Hp. rewrite zlen_app. lia.
Qed.

Lemma encode_fields_cons f fs : encode_fields (f :: fs) = encode_field f ++ encode_fields fs.
Proof. done. Qed.

Lemma ReadAll_loop_enc fuel pre fs bs : Forall2 encodes fs bs -> (length fs < fuel)%nat ->
  map (view (pre ++ concat bs)) (ReadAll_loop fuel (mkDecoder (pre ++ concat bs) (zlen pre))) = fs.
Proof.
  intros Hfs. revert fuel pre. induction Hfs as [|f b fs bs Hf Hfs IH]; intros fuel pre Hfuel.
  - simpl. rewrite app_nil_r. destruct fuel as [|fuel]; [lia|].
    cbn [ReadAll_loop]. rewrite ReadField_end. done.
  - destruct fuel as [|fuel]; [simpl in Hfuel; lia|]. cbn [concat ReadAll_loop].
    destruct (ReadField_enc pre f b (concat bs) Hf) as (fd & -> & -> & Hv). cbn [map]. rewrite Hv. f_equal.
    rewrite (app_assoc pre), <- (zlen_app pre). apply IH. simpl in Hfuel. lia.
Qed.

Lemma length_encodes fs bs : Forall2 encodes fs bs -> (length fs <= length (concat bs))%nat.
Proof.
  induction 1 as [|f b fs bs Hf Hfs IH]; [done|]. cbn [concat length]. rewrite length_app.
  pose proof (encodes_pos f b Hf). unfold zlen in *. lia.
Qed.

Lemma ReadAll_enc fs bs : Forall2 encodes fs bs -> map (view (concat bs)) (ReadAll (concat bs)) = fs.
Proof.
  intros Hfs. unfold ReadAll. apply (ReadAll_loop_enc _ [] fs bs Hfs).
  pose proof (length_encodes fs bs Hfs). lia.
Qed.

Lemma ReadAll_encode fs : Forall field_ok fs ->
  map (view (encode_fields fs)) (ReadAll (encode_fields fs)) = fs.
Proof.
  intros Hfs. apply ReadAll_enc. induction Hfs; constructor; [by apply encodes_encode_field|done].
Qed.

(** Fields decoded from arbitrary bytes denote encodable values. *)
Lemma view_ok mem a b f : bytes_ok mem -> field_in mem a b f -> 0 <= a -> b <= zlen mem -> field_ok (view mem f).
Proof.
  intros Hm [Hid Hf] Ha Hb. split; [done|]. unfold view. cbn [snd].
  destruct Hf as [(-> & ? & ? & ?)|[([-> | ->] & ? & ?)|(-> & ? & ?)]]; cbn [Z.eqb Pos.eqb value_ok]; try done.
  unfold as_bytes. split; [auto with bytes|]. rewrite zlen_zread by lia. lia.
Qed.

Lemma SerializeAndAppendTo_view mem a b f dst : field_in mem a b f -> 0 <= a -> b <= zlen mem ->
  SerializeAndAppendTo mem f dst = Ok (dst ++ encode_field (view mem f)).
Proof.
  intros [Hid Hf] Ha Hb. unfold SerializeAndAppendTo, encode_field, encode_tag, view. cbn [fst snd].
  destruct Hf as [(-> & ? & ? & ?)|[([-> | ->] & ? & ?)|(-> & ? & Hv)]];
    cbn [Z.eqb Pos.eqb wire_type_value value_type encode_value]; try done.
  - unfold MakeTagLengthDelimited. cbn [wire_type_value]. unfold as_bytes. rewrite zlen_zread by lia. done.
  - rewrite u32_small by (unfold word_ok in Hv; change (2 ^ 32) with 4294967296 in Hv; lia). done.
Qed.

(** Every field ReadAll returns was parsed from a range of the buffer. *)
Lemma ReadAll_loop_in fuel mem pos : bytes_ok mem -> 0 <= pos ->
  Forall (fun f => exists a b, 0 <= a /\ b <= zlen mem /\ field_in mem a b f) (ReadAll_loop fuel (mkDecoder mem pos)).
Proof.
  intros Hm. revert pos. induction fuel as [|fuel IH]; intros pos Hp; [constructor|].
  cbn [ReadAll_loop]. destruct (ReadField _) as [f d] eqn:Er. unfold ReadField in Er.
  cbn [pd_mem read_ptr_] in Er.
  destruct (ReadField_loop _ mem pos) as [f' p'] eqn:El. injection Er as -> <-.
  apply ReadField_loop_safe in El; [|done|done|lia]. destruct El as [Hp' Hf].
  destruct (valid f) eqn:Ev; [|constructor]. destruct Hf as [->|(? & from & ? & Hin & _)]; [done|].
  constructor; [|apply IH; lia]. exists from, p'. split; [lia|]. split; [|done].
  destruct (Z.max_spec pos (zlen mem)); lia.
Qed.

Definition SerializeAll (mem : list Z) (fs : list Field) : outcome (list Z) :=
  fold_left (fun acc f => let! dst := acc in SerializeAndAppendTo mem f dst) fs (Ok []).

Lemma SerializeAll_view mem fs dst :
  Forall (fun f => exists a b, 0 <= a /\ b <= zlen mem /\ field_in mem a b f) fs ->
  fold_left (fun acc f => let! dst := acc in SerializeAndAppendTo mem f dst) fs (Ok dst) =
  Ok (dst ++ encode_fields (map (view mem) fs)).
Proof.
  intros Hfs. revert dst. induction Hfs as [|f fs (a & b & Ha & Hb & Hf) Hfs IH]; intros dst.
  - simpl. by rewrite app_nil_r.
  - cbn [fold_left obind map]. rewrite (SerializeAndAppendTo_view mem a b) by done.
    rewrite IH. rewrite encode_fields_cons. by rewrite app_assoc.
Qed.

(** ** The typed decoder *)

Definition store_all (fs : list Field) (d : TypedDecoder) : outcome TypedDecoder :=
  fold_left (fun acc f => let! d := acc in StoreField d f) fs (Ok d).

Lemma store_all_cons f fs d :
  store_all (f :: fs) d = (let! d' := StoreField d f in store_all fs d').
Proof.
  unfold store_all. cbn [fold_left obind]. destruct (StoreField d f) as [d'|]; [done|]. cbn [obind].
  induction fs as [|g fs IH]; [done|]. cbn [fold_left obind]. exact IH.
Qed.

Lemma length_zdrop_lt (mem : list Z) a b n :
  0 <= a -> a < b <= zlen mem -> (length (zdrop a mem) < S n)%nat -> (length (zdrop b mem) < n)%nat.
Proof. unfold zlen, zdrop. rewrite !length_drop. lia. Qed.

(** ParseAllFields stores, in order, exactly the fields ReadField enumerates. *)
Lemma ParseAllFields_loop_fold n m mem pos d : bytes_ok mem -> 0 <= pos ->
  (length (zdrop pos mem) < n)%nat -> (length (zdrop pos mem) < m)%nat ->
  exists p, ParseAllFields_loop n mem pos d =
    (let! d' := store_all (ReadAll_loop m (mkDecoder mem pos)) d in
     Ok (mkTyped (fields_ d') (num_fields_ d') (tsize_ d') (capacity_ d') p)).
Proof.
  intros Hm. revert m pos d. induction n as [|n IH]; intros m pos d Hp Hn Hk; [lia|].
  destruct m as [|m]; [lia|]. cbn [ParseAllFields_loop].
  pose proof (ParseOneField_safe mem pos Hm Hp) as Hs; cbv zeta in Hs.
  cbn [ReadAll_loop]. unfold ReadField. cbn [pd_mem read_ptr_ ReadField_loop].
  destruct (ParseOneField mem pos) as [r nx fd] eqn:Epf. cbn [parse_res next field] in *.
  destruct r.
  - destruct Hs as [-> ->]. cbn [valid id_ Field0 Z.eqb negb]. exists pos. done.
  - destruct Hs as [Hnx ->]. destruct (IH (S m) nx d) as [p ->]; [lia| | |].
    + by eapply length_zdrop_lt.
    + pose proof (length_zdrop_lt mem pos nx m Hp Hnx Hk). lia.
    + exists p. cbn [ReadAll_loop]. unfold ReadField. cbn [pd_mem read_ptr_].
      rewrite (ReadField_fuel (S (length (zdrop nx mem))) (length (zdrop pos mem))); [done|done|lia|lia|].
      pose proof (length_zdrop_lt mem pos nx (length (zdrop pos mem)) Hp Hnx ltac:(lia)). lia.
  - destruct Hs as [Hnx Hfd]. rewrite (field_in_valid _ _ _ _ Hfd). rewrite store_all_cons.
    destruct (StoreField d fd) as [d'|]; [|by exists 0]. cbn [obind].
    apply IH; [lia| |]; by eapply length_zdrop_lt.
Qed.

Lemma slot_insert_eq l i f : 0 <= i < zlen l -> slot (<[Z.to_nat i := f]> l) i = f.
Proof. unfold slot, zlen. intros. rewrite list_lookup_insert_eq by lia. done. Qed.
Lemma slot_insert_ne l i j f : 0 <= i -> 0 <= j -> i <> j -> slot (<[Z.to_nat i := f]> l) j = slot l j.
Proof. unfold slot. intros. rewrite list_lookup_insert_ne by lia. done. Qed.
Lemma zlen_insert (l : list Field) i f : zlen (<[i := f]> l) = zlen l.
Proof. unfold zlen. by rewrite length_insert. Qed.

Lemma occurrences_app id L K : occurrences id (L ++ K) = occurrences id L ++ occurrences id K.
Proof. apply filter_app. Qed.
Lemma occurrences_one_eq id f : id_ f = id -> occurrences id [f] = [f].
Proof. intros. unfold occurrences. rewrite filter_cons_True by done. done. Qed.
Lemma occurrences_one_ne id f : id_ f <> id -> occurrences id [f] = [].
Proof. intros. unfold occurrences. rewrite filter_cons_False by done. done. Qed.

Lemma typed_inv_expand nf L R d : 1 <= nf < 4096 -> tsize_ d < 2 ^ 29 -> capacity_ d <= tsize_ d ->
  typed_inv nf L R d ->
  exists d', ExpandHeapStorage d = Ok d' /\ typed_inv nf L R d' /\ tsize_ d' = tsize_ d /\ tsize_ d' < capacity_ d'.
Proof.
  intros Hnf Hsz Hfull [Hn Hs Hc Hl Hb Hr Hi Hz Hslot Hnone Hocc]. unfold ExpandHeapStorage.
  change (2 ^ 29) with 536870912 in Hsz. pose proof (zlen_nonneg R).
  rewrite Hn. rewrite (u32_small (nf + 2048)), (u32_small (capacity_ d * 2)) by lia.
  destruct (Z.ltb_spec (tsize_ d) (Z.max (capacity_ d * 2) (nf + 2048))); [|lia].
  destruct (Z.ltb_spec nf (Z.max (capacity_ d * 2) (nf + 2048))); [|lia]. cbn [andb perfetto_check obind].
  rewrite (Z.max_l (tsize_ d)) by lia.
  assert (Heq : ztake (tsize_ d) (fields_ d) = fields_ d).
  { unfold ztake. apply take_ge. unfold zlen in Hl. lia. }
  rewrite Heq. eexists. split; [reflexivity|]. cbn [tsize_ capacity_]. split; [|lia].
  assert (Hslots : forall i rest, 0 <= i < tsize_ d -> slot (fields_ d ++ rest) i = slot (fields_ d) i).
  { intros i rest Hi'. unfold slot. rewrite lookup_app_l; [done|]. unfold zlen in Hl. lia. }
  constructor; cbn [num_fields_ tsize_ capacity_ fields_]; try done; try lia.
  - rewrite zlen_app. rewrite Hl. unfold zlen. rewrite length_replicate. lia.
  - intros i Hlt. rewrite lookup_app_l; [by apply Hr|]. unfold zlen in *. lia.
  - rewrite Hslots by lia. done.
  - intros id Hid. rewrite Hslots by lia. by apply Hslot.
  - intros id Hid. rewrite Hslots by lia. by apply Hnone.
  - intros id Hid. rewrite Hslots by lia. by apply Hocc.
Qed.

(** The slot is taken: its value moves to the end of the repeated storage. *)
Lemma typed_inv_displace nf L R d f : 1 <= nf -> 1 <= id_ f < nf -> tsize_ d < capacity_ d -> typed_inv nf L R d ->
  valid (slot (fields_ d) (id_ f)) = true ->
  typed_inv nf (L ++ [f]) (R ++ [slot (fields_ d) (id_ f)])
    (mkTyped (<[Z.to_nat (id_ f) := f]> (<[Z.to_nat (tsize_ d) := slot (fields_ d) (id_ f)]> (fields_ d)))
       (num_fields_ d) (tsize_ d + 1) (capacity_ d) (tread_ptr_ d)).
Proof.
  intros Hnf Hid Hroom [Hn Hs Hc Hl Hb Hr Hi Hz Hslot Hnone Hocc] Hg. pose proof (zlen_nonneg R).
  set (g := slot (fields_ d) (id_ f)) in *.
  assert (Hgid : id_ g = id_ f) by (apply Hslot; [lia|done]).
  constructor; cbn [num_fields_ tsize_ capacity_ fields_].
  - done.
  - rewrite zlen_app, zlen_cons, zlen_nil. lia.
  - lia.
  - by rewrite !zlen_insert.
  - lia.
  - intros i Hlt. rewrite length_app in Hlt. simpl in Hlt. rewrite list_lookup_insert_ne by lia.
    destruct (decide (i = length R)) as [->|].
    + rewrite lookup_app_r, Nat.sub_diag by lia. simpl.
      replace (Z.to_nat nf + length R)%nat with (Z.to_nat (tsize_ d)) by (unfold zlen in *; lia).
      rewrite list_lookup_insert_eq; [done|]. unfold zlen in Hl. lia.
    + rewrite list_lookup_insert_ne by (unfold zlen in *; lia). rewrite lookup_app_l by lia. apply Hr. lia.
  - apply Forall_app. split; [done|]. constructor; [lia|constructor].
  - rewrite !slot_insert_ne by lia. done.
  - intros id Hid'. destruct (Z.eq_dec id (id_ f)) as [->|].
    + rewrite slot_insert_eq by (rewrite zlen_insert; lia). done.
    + rewrite !slot_insert_ne by lia. by apply Hslot.
  - intros id Hid' Hv. destruct (Z.eq_dec id (id_ f)) as [->|].
    + rewrite slot_insert_eq in Hv by (rewrite zlen_insert; lia). exfalso.
      unfold valid in Hv. apply negb_false_iff, Z.eqb_eq in Hv. lia.
    + rewrite !slot_insert_ne in * by lia. destruct (Hnone id Hid' Hv) as [-> HR]. split; [done|].
      rewrite occurrences_app, HR. apply occurrences_one_ne. lia.
  - intros id Hid'. rewrite !occurrences_app, Hocc by done. destruct (Z.eq_dec id (id_ f)) as [->|].
    + rewrite slot_insert_eq by (rewrite zlen_insert; lia). fold g. rewrite !occurrences_one_eq by done.
      unfold slot_list. rewrite Hg. unfold valid. destruct (Z.eqb_spec (id_ f) 0); [lia|done].
    + rewrite !slot_insert_ne by lia. rewrite !occurrences_one_ne by lia. by rewrite !app_nil_r.
Qed.

(** The slot is free: it takes the value. *)
Lemma typed_inv_fresh nf L R d f : 1 <= nf -> 1 <= id_ f < nf -> typed_inv nf L R d ->
  valid (slot (fields_ d) (id_ f)) = false ->
  typed_inv nf (L ++ [f]) R
    (mkTyped (<[Z.to_nat (id_ f) := f]> (fields_ d)) (num_fields_ d) (tsize_ d) (capacity_ d) (tread_ptr_ d)).
Proof.
  intros Hnf Hid [Hn Hs Hc Hl Hb Hr Hi Hz Hslot Hnone Hocc] Hg. pose proof (zlen_nonneg R).
  set (g := slot (fields_ d) (id_ f)) in *.
  constructor; cbn [num_fields_ tsize_ capacity_ fields_]; try done; try lia.
  - by rewrite zlen_insert.
  - intros i Hlt. rewrite list_lookup_insert_ne by lia. by apply Hr.
  - rewrite slot_insert_ne by lia. done.
  - intros id Hid'. destruct (Z.eq_dec id (id_ f)) as [->|].
    + rewrite slot_insert_eq by lia. done.
    + rewrite slot_insert_ne by lia. by apply Hslot.
  - intros id Hid' Hv. destruct (Z.eq_dec id (id_ f)) as [->|].
    + rewrite slot_insert_eq in Hv by lia. exfalso.
      unfold valid in Hv. apply negb_false_iff, Z.eqb_eq in Hv. lia.
    + rewrite slot_insert_ne in * by lia. by apply Hnone.
  - intros id Hid'. rewrite !occurrences_app, Hocc by done. destruct (Z.eq_dec id (id_ f)) as [->|].
    + rewrite slot_insert_eq by lia. rewrite occurrences_one_eq by done.
      fold g. destruct (Hnone (id_ f)) as [_ ->]; [lia|done|]. unfold slot_list. rewrite Hg. simpl.
      unfold valid. destruct (Z.eqb_spec (id_ f) 0); [lia|done].
    + rewrite slot_insert_ne by lia. rewrite occurrences_one_ne by lia. by rewrite app_nil_r.
Qed.

Lemma typed_inv_store nf L R d f : 1 <= nf < 4096 -> 1 <= id_ f -> tsize_ d < 2 ^ 29 -> typed_inv nf L R d ->
  exists R' d', StoreField d f = Ok d' /\ typed_inv nf (L ++ [f]) R' d' /\ tsize_ d' <= tsize_ d + 1.
Proof.
  intros Hnf Hid Hsz Hinv. unfold StoreField.
  destruct (Z.leb_spec (num_fields_ d) (id_ f)) as [Hbig|Hsmall].
  { exists R, d. split; [done|]. split; [|lia]. destruct Hinv as [Hn Hs Hc Hl Hb Hr Hi Hz Hslot Hnone Hocc].
    constructor; try done. intros id Hid'. rewrite occurrences_app, Hocc by done.
    rewrite occurrences_one_ne by lia. by rewrite app_nil_r. }
  assert (Hd : exists d1, (if (tsize_ d <=? id_ f) || (capacity_ d <=? tsize_ d) then ExpandHeapStorage d else Ok d) = Ok d1
    /\ typed_inv nf L R d1 /\ tsize_ d1 = tsize_ d /\ tsize_ d1 < capacity_ d1).
  { pose proof (ti_size _ _ _ _ Hinv). pose proof (ti_nf _ _ _ _ Hinv). pose proof (zlen_nonneg R).
    destruct (Z.leb_spec (tsize_ d) (id_ f)); [lia|]. cbn [orb].
    destruct (Z.leb_spec (capacity_ d) (tsize_ d)).
    - by apply typed_inv_expand.
    - exists d. done. }
  destruct Hd as (d1 & -> & Hinv1 & Hts & Hroom). cbn [obind].
  assert (Hnf1 : num_fields_ d1 = num_fields_ d) by (by rewrite (ti_nf _ _ _ _ Hinv1), (ti_nf _ _ _ _ Hinv)).
  pose proof (ti_nf _ _ _ _ Hinv1) as Hn1. destruct (valid (slot (fields_ d1) (id_ f))) eqn:Hg; cbn [negb].
  - eexists _, _. split; [reflexivity|]. split; [|cbn [tsize_]; lia]. apply typed_inv_displace; (done || lia).
  - eexists _, _. split; [reflexivity|]. split; [|cbn [tsize_]; lia]. apply typed_inv_fresh; (done || lia).
Qed.

Lemma typed_inv_store_all nf fs L R d : 1 <= nf < 4096 -> Forall (fun f => 1 <= id_ f) fs ->
  tsize_ d + zlen fs <= 2 ^ 29 -> typed_inv nf L R d ->
  exists R' d', store_all fs d = Ok d' /\ typed_inv nf (L ++ fs) R' d'.
Proof.
  intros Hnf Hfs. revert L R d. induction Hfs as [|f fs Hf Hfs IH]; intros L R d Hsz Hinv.
  - exists R, d. rewrite app_nil_r. done.
  - rewrite zlen_cons in Hsz. pose proof (zlen_nonneg fs). rewrite store_all_cons.
    destruct (typed_inv_store nf L R d f) as (R1 & d1 & -> & Hinv1 & Hs1); [done|done|lia|done|].
    cbn [obind]. destruct (IH (L ++ [f]) R1 d1) as (R2 & d2 & Heq & Hinv2); [lia|done|].
    exists R2, d2. split; [done|]. by rewrite <- app_assoc in Hinv2.
Qed.

Lemma typed_inv_init nf cap : 1 <= nf < cap -> cap <= 4096 -> typed_inv nf [] [] (TypedProtoDecoderBase nf cap).
Proof.
  intros Hnf Hcap. unfold TypedProtoDecoderBase. rewrite Z.min_l by lia.
  assert (Hslot : forall i, slot (replicate (Z.to_nat cap) Field0) i = Field0).
  { intros i. unfold slot. destruct (replicate _ _ !! _) eqn:E; [|done]. by apply lookup_replicate in E as [-> _]. }
  constructor; cbn [num_fields_ tsize_ capacity_ fields_]; try done; try lia.
  - rewrite zlen_nil. lia.
  - unfold zlen. rewrite length_replicate. lia.
  - simpl. lia.
  - intros id Hid. rewrite Hslot. done.
  - intros id Hid. rewrite Hslot. done.
Qed.

(** One step of the search, and its two ends. *)
Lemma FindNextMatchingId_step fs id i e l : i < e ->
  FindNextMatchingId fs (mkIter id i e l) =
  if id_ (slot fs i) =? id then mkIter id i e l else FindNextMatchingId fs (mkIter id (i + 1) e l).
Proof.
  intros Hie. unfold FindNextMatchingId at 1. cbn [iter_ end_].
  change (S (Z.to_nat (e - i))) with (1 + Z.to_nat (e - i))%nat. cbn [Nat.add FindNextMatchingId_loop iter_ end_ last_ ri_field_id].
  destruct (Z.eqb_spec i e); [lia|]. cbn [negb]. destruct (Z.eqb_spec (id_ (slot fs i)) id); [done|].
  unfold FindNextMatchingId. cbn [iter_ end_]. f_equal. lia.
Qed.

Lemma FindNextMatchingId_end fs id e l :
  FindNextMatchingId fs (mkIter id e e l) = mkIter id (if valid (slot fs l) then l else e) e l.
Proof.
  unfold FindNextMatchingId. cbn [iter_ end_]. rewrite Z.sub_diag.
  cbn [Z.to_nat FindNextMatchingId_loop iter_ end_ last_ ri_field_id]. by rewrite Z.eqb_refl.
Qed.

(** Past the repeated storage only the slot of the field is left. *)
Lemma iter_collect_end fs id e fuel : id < e -> (1 < fuel)%nat ->
  iter_collect fuel fs (FindNextMatchingId fs (mkIter id e e id)) = slot_list (slot fs id).
Proof.
  intros He Hfuel. rewrite FindNextMatchingId_end. destruct fuel as [|[|fuel]]; [lia|lia|]. unfold slot_list.
  destruct (valid (slot fs id)); cbn [iter_collect]; unfold iter_bool; cbn [iter_ end_].
  - destruct (Z.eqb_spec id e); [lia|]. cbn [negb].
    unfold iter_next. cbn [iter_ last_ end_ ri_field_id]. rewrite Z.eqb_refl. cbn [iter_ end_].
    by rewrite Z.eqb_refl.
  - by rewrite Z.eqb_refl.
Qed.

(** The iterator, from slot [nf + k] on, yields the matching part of the
    repeated storage and then the slot of the field. *)
Lemma iter_collect_spec nf L R d id k fuel : typed_inv nf L R d -> 1 <= id < nf -> (k <= length R)%nat ->
  (length R - k + 1 < fuel)%nat ->
  iter_collect fuel (fields_ d) (FindNextMatchingId (fields_ d) (mkIter id (nf + Z.of_nat k) (tsize_ d) id)) =
  occurrences id (drop k R) ++ slot_list (slot (fields_ d) id).
Proof.
  intros Hinv Hid. destruct Hinv as [Hn Hs Hc Hl Hb Hr Hi Hz Hslot Hnone Hocc].
  remember (length R - k)%nat as n eqn:En. revert k fuel En.
  induction n as [|n IH]; intros k fuel En Hk Hfuel; unfold zlen in Hs.
  - rewrite drop_ge by lia. replace (nf + Z.of_nat k) with (tsize_ d) by lia.
    apply iter_collect_end; lia.
  - destruct (lookup_lt_is_Some_2 R k) as [g Hg]; [lia|].
    rewrite (drop_S R g k Hg). rewrite FindNextMatchingId_step by lia.
    assert (Hgs : slot (fields_ d) (nf + Z.of_nat k) = g).
    { unfold slot. replace (Z.to_nat (nf + Z.of_nat k)) with (Z.to_nat nf + k)%nat by lia.
      rewrite Hr by lia. by rewrite Hg. }
    rewrite Hgs. change (g :: drop (S k) R) with ([g] ++ drop (S k) R). rewrite occurrences_app.
    replace (nf + Z.of_nat k + 1) with (nf + Z.of_nat (S k)) by lia.
    destruct (Z.eqb_spec (id_ g) id) as [Heq|Hne].
    + destruct fuel as [|fuel]; [lia|]. cbn [iter_collect]. unfold iter_bool. cbn [iter_ end_].
      destruct (Z.eqb_spec (nf + Z.of_nat k) (tsize_ d)); [lia|]. cbn [negb].
      rewrite Hgs. unfold iter_next. cbn [iter_ last_ ri_field_id end_].
      destruct (Z.eqb_spec (nf + Z.of_nat k) id); [lia|].
      replace (nf + Z.of_nat k + 1) with (nf + Z.of_nat (S k)) by lia. rewrite IH by lia.
      rewrite occurrences_one_eq by done. done.
    + rewrite IH by lia. rewrite occurrences_one_ne by done. done.
Qed.

Lemma RepeatedValues_spec nf L R d id : typed_inv nf L R d -> 1 <= id < nf ->
  RepeatedValues d id = occurrences id L.
Proof.
  intros Hinv Hid. rewrite (ti_occ _ _ _ _ Hinv id Hid).
  unfold RepeatedValues, GetRepeated, RepeatedFieldIterator, GetIndex.
  pose proof (ti_nf _ _ _ _ Hinv) as Hn. pose proof (ti_size _ _ _ _ Hinv) as Hs. pose proof (zlen_nonneg R).
  rewrite Hn. destruct (Z.ltb_spec id nf); [|lia]. destruct (Z.ltb_spec id (tsize_ d)); [|lia]. cbn [andb].
  replace (if nf <? tsize_ d then nf else tsize_ d) with (nf + Z.of_nat 0) by (destruct (Z.ltb_spec nf (tsize_ d)); lia).
  rewrite (iter_collect_spec nf L R d id 0) by (done || unfold zlen in *; lia). by rewrite drop_0.
Qed.

Lemma Get_spec nf L R d id : typed_inv nf L R d -> 1 <= id < nf ->
  Get d id = default Field0 (last (occurrences id L)).
Proof.
  intros Hinv Hid. rewrite (ti_occ _ _ _ _ Hinv id Hid). unfold Get, GetIndex.
  pose proof (ti_size _ _ _ _ Hinv) as Hs. pose proof (zlen_nonneg R).
  rewrite (ti_nf _ _ _ _ Hinv). destruct (Z.ltb_spec id nf); [|lia].
  destruct (Z.ltb_spec id (tsize_ d)); [|lia]. cbn [andb].
  unfold slot_list. destruct (valid _) eqn:Hv.
  - by rewrite last_snoc.
  - destruct (ti_none _ _ _ _ Hinv id Hid Hv) as [-> ->]. done.
Qed.

Lemma ReadAll_loop_length n mem pos : bytes_ok mem -> 0 <= pos <= zlen mem ->
  zlen (ReadAll_loop n (mkDecoder mem pos)) <= zlen mem - pos.
Proof.
  intros Hm. revert pos. induction n as [|n IH]; intros pos Hp; cbn [ReadAll_loop]; [rewrite zlen_nil; lia|].
  destruct (ReadField _) as [f d] eqn:Er. unfold ReadField in Er. cbn [pd_mem read_ptr_] in Er.
  destruct (ReadField_loop _ mem pos) as [f' p'] eqn:El. injection Er as -> <-.
  apply ReadField_loop_safe in El; [|done|lia|lia]. destruct El as [Hp' Hf].
  destruct (valid f) eqn:Ev; [|rewrite zlen_nil; lia]. destruct Hf as [->|[Hlt _]]; [done|].
  rewrite zlen_cons. specialize (IH p'). lia.
Qed.

(** ** Properties *)

(** Parsing one field of an arbitrary byte buffer is memory safe: a
    result that is not kAbort moves the cursor strictly forward and never past the
    end, a returned field has a 16-bit id, a payload that lies inside the bytes
    consumed (and is at most kMaxMessageLength long) or an integer of its wire
    width; kAbort leaves the cursor where it was. *)
Theorem ParseOneField_memory_safe (mem : list Z) (pos : Z) : bytes_ok mem -> 0 <= pos ->
  match ParseOneField mem pos with
  | mkPFR kAbort nx f => nx = pos /\ f = Field0
  | mkPFR kSkip nx f => pos < nx <= zlen mem /\ f = Field0
  | mkPFR kOk nx f => pos < nx <= zlen mem /\ field_in mem pos nx f
  end.
Proof.
  intros Hm Hp. pose proof (ParseOneField_safe mem pos Hm Hp) as Hs. cbv zeta in Hs.
  destruct (ParseOneField mem pos) as [[] nx f]; exact Hs.
Qed.

Lemma ParseOneField_memory_safe_witness :
  bytes_ok [18; 2; 104; 105] /\ ParseOneField [18; 2; 104; 105] 0 = mkPFR kOk 4 (mkField 2 2 2 2)
  /\ field_in [18; 2; 104; 105] 0 4 (mkField 2 2 2 2).
Proof.
  assert (Hb : bytes_ok [18; 2; 104; 105]) by (repeat constructor; lia).
  split; [exact Hb|]. split; [reflexivity|].
  exact (proj2 (ParseOneField_memory_safe [18; 2; 104; 105] 0 Hb ltac:(lia))).
Defined.

(** Decoding inverts encoding: for every list of fields and every encoding of
    each of them (tags, values and lengths may be non-canonical numerals, as the
    redundant lengths the writer back-fills), reading all fields of the buffer
    yields exactly that list, with every payload found at the offsets the decoder
    returns. *)
Theorem decode_encode_fields (fs : list wire_field) (bs : list (list Z)) : Forall2 encodes fs bs ->
  map (view (concat bs)) (ReadAll (concat bs)) = fs.
Proof. apply ReadAll_enc. Qed.

Lemma decode_encode_fields_witness :
  map (view [8; 172; 130; 0; 58; 130; 128; 0; 1; 2]) (ReadAll [8; 172; 130; 0; 58; 130; 128; 0; 1; 2]) =
  [(1, VVarInt 300); (7, VBytes [1; 2])].
Proof.
  apply (decode_encode_fields [(1, VVarInt 300); (7, VBytes [1; 2])] [[8; 172; 130; 0]; [58; 130; 128; 0; 1; 2]]).
  assert (Hb : forall l, Forall (fun x => 0 <= x < 256) l -> bytes_ok l) by (intros l H; exact H).
  constructor; [|constructor; [|constructor]].
  - split; [simpl; lia|]. exists [8], [172; 130; 0]. split; [|split; [|done]].
    + split; [apply Hb; repeat constructor; lia|]. split; [done|]. split; [vm_compute; discriminate|done].
    + split; [apply Hb; repeat constructor; lia|]. split; [done|]. split; [vm_compute; discriminate|done].
  - split; [simpl; lia|]. exists [58], [130; 128; 0; 1; 2]. split; [|split; [|done]].
    + split; [apply Hb; repeat constructor; lia|]. split; [done|]. split; [vm_compute; discriminate|done].
    + split; [apply Hb; repeat constructor; lia|]. split; [vm_compute; discriminate|].
      exists [130; 128; 0]. split; [|done].
      split; [apply Hb; repeat constructor; lia|]. split; [done|]. split; [vm_compute; discriminate|done].
Defined.

(** Re-serialization: for arbitrary input bytes, serializing every decoded
    field (Field::SerializeAndAppendTo never hits its fatal branch) gives a buffer
    that decodes to the same fields; non-canonical encodings, skipped fields and
    trailing garbage are gone. *)
Theorem reserialize_decoded (mem : list Z) : bytes_ok mem ->
  exists out, SerializeAll mem (ReadAll mem) = Ok out /\
    map (view out) (ReadAll out) = map (view mem) (ReadAll mem).
Proof.
  intros Hm. pose proof (ReadAll_loop_in (S (length mem)) mem 0 Hm ltac:(lia)) as Hin.
  exists (encode_fields (map (view mem) (ReadAll mem))). split.
  - apply (SerializeAll_view mem (ReadAll mem) [] Hin).
  - apply ReadAll_encode. apply Forall_map. eapply Forall_impl; [exact Hin|].
    intros f (a & b & Ha & Hb & Hf). by eapply view_ok.
Qed.

Lemma reserialize_decoded_witness : bytes_ok [8; 129; 0; 255] /\
  exists out, SerializeAll [8; 129; 0; 255] (ReadAll [8; 129; 0; 255]) = Ok out.
Proof.
  assert (Hb : bytes_ok [8; 129; 0; 255]) by (repeat constructor; lia).
  split; [exact Hb|]. destruct (reserialize_decoded _ Hb) as [out [H _]]. exists out. exact H.
Defined.

(** The typed decoder of a message whose largest field id is below 99
    refines the sequential one: it never aborts, Get() and at() return the last
    occurrence of a field (an invalid field when there is none), and iterating a
    repeated field returns every occurrence in wire order, through any number of
    expansions of the storage. *)
Theorem TypedProtoDecoder_refines (MAX_FIELD_ID : Z) (mem : list Z) :
  1 <= MAX_FIELD_ID < 99 -> bytes_ok mem -> zlen mem <= kMaxMessageLength ->
  exists d, TypedProtoDecoder MAX_FIELD_ID mem = Ok d /\
    forall id, 1 <= id <= MAX_FIELD_ID ->
      RepeatedValues d id = occurrences id (ReadAll mem) /\
      Get d id = default Field0 (last (occurrences id (ReadAll mem))) /\ at_ d id = Get d id.
Proof.
  intros HM Hm Hlen. change kMaxMessageLength with 268435455 in Hlen. unfold TypedProtoDecoder, ParseAllFields.
  assert (Hzd : zdrop 0 mem = mem) by done.
  destruct (ParseAllFields_loop_fold (S (length mem)) (S (length mem)) mem 0
    (TypedProtoDecoderBase (MAX_FIELD_ID + 1) PROTOZERO_DECODER_INITIAL_STACK_CAPACITY)) as [p ->];
    [done|lia|rewrite Hzd; lia|rewrite Hzd; lia|].
  change (ReadAll_loop (S (length mem)) (mkDecoder mem 0)) with (ReadAll mem).
  unfold PROTOZERO_DECODER_INITIAL_STACK_CAPACITY.
  pose proof (ReadAll_loop_length (S (length mem)) mem 0 Hm ltac:(pose proof (zlen_nonneg mem); lia)) as Hn.
  destruct (typed_inv_store_all (MAX_FIELD_ID + 1) (ReadAll mem) [] []
    (TypedProtoDecoderBase (MAX_FIELD_ID + 1) 100)) as (R & d & -> & Hinv); [lia| | |by apply typed_inv_init; lia|].
  { eapply Forall_impl; [apply (ReadAll_loop_in _ mem 0 Hm); lia|]. intros f (a & b & _ & _ & [Hid _]). lia. }
  { unfold TypedProtoDecoderBase. cbn [tsize_]. rewrite Z.min_l by lia. unfold ReadAll.
    change (2 ^ 29) with 536870912. lia. }
  cbn [obind]. cbn [app] in Hinv. eexists. split; [reflexivity|]. intros id Hid.
  pose proof (RepeatedValues_spec _ _ _ _ id Hinv ltac:(lia)) as H1.
  pose proof (Get_spec _ _ _ _ id Hinv ltac:(lia)) as H2.
  split; [exact H1|]. split; [exact H2|].
  unfold at_, PROTOZERO_DECODER_INITIAL_STACK_CAPACITY. destruct (Z.ltb_spec id 100); [|lia].
  unfold Get, GetIndex. cbn [num_fields_ tsize_ fields_]. rewrite (ti_nf _ _ _ _ Hinv).
  pose proof (ti_size _ _ _ _ Hinv). pose proof (zlen_nonneg R).
  destruct (Z.ltb_spec id (MAX_FIELD_ID + 1)); [|lia]. destruct (Z.ltb_spec id (tsize_ d)); [done|lia].
Qed.

Lemma TypedProtoDecoder_refines_witness :
  exists d, TypedProtoDecoder 5 [8; 1; 16; 9; 8; 2; 8; 3] = Ok d /\
    RepeatedValues d 1 = occurrences 1 (ReadAll [8; 1; 16; 9; 8; 2; 8; 3]).
Proof.
  destruct (TypedProtoDecoder_refines 5 [8; 1; 16; 9; 8; 2; 8; 3]) as (d & Hd & H).
  - lia.
  - repeat constructor; lia.
  - vm_compute. discriminate.
  - exists d. split; [exact Hd|]. apply H. lia.
Defined.

(** A message whose largest field id is 99 or more loses data: the
    constructor leaves [size_ = capacity_ - 1 = 99 < num_fields_], so the first
    displaced value of a repeated field is stored in slot 99, which belongs to
    field 99.  Here field 5 occurs three times; iterating it misses the first
    occurrence and Get(99) returns a field with id 5. *)
Theorem TypedProtoDecoder_loses_repeated :
  exists d, TypedProtoDecoder 120 [40; 1; 40; 2; 40; 3] = Ok d /\
    map int_value_ (occurrences 5 (ReadAll [40; 1; 40; 2; 40; 3])) = [1; 2; 3] /\
    map int_value_ (RepeatedValues d 5) = [2; 3] /\
    occurrences 99 (ReadAll [40; 1; 40; 2; 40; 3]) = [] /\ id_ (Get d 99) = 5.
Proof.
  destruct (TypedProtoDecoder 120 [40; 1; 40; 2; 40; 3]) as [d|] eqn:E; [|vm_compute in E; discriminate].
  exists d. split; [done|]. vm_compute in E. injection E as <-. vm_compute. done.
Qed.
