(* ===== verification/ProtoWriter.v ===== *)
(** * Scattered writing of protobuf messages
    (include/perfetto/protozero/scattered_stream_writer.h, message.h,
    scattered_heap_buffer.h, message_arena.h, packed_repeated_fields.h and their .cc
    files under src/protozero/)

    A message is written append-only into a chain of fixed-size slices; the length
    of a nested message is reserved up front (four bytes, never split over two
    slices) and back-filled when the nested message ends.  A pointer into a slice is
    the pair (index of the slice, offset).  The theorems: the stitched output is the
    reference encoding of the calls made, whatever the slice sizes and the initial
    contents of the memory; the decoder reads it back; the message arena is a
    stack; the packed buffers hold the concatenated elements. *)

From S2P Require Import Prelude ProtoUtils ProtoDecoder.

(** ** ScatteredHeapBuffer and ScatteredStreamWriter *)

Record Slice := mkSlice { buffer_ : list Z; unused_bytes_ : Z }.
Definition slice_size (s : Slice) : Z := zlen (buffer_ s).
Definition GetUsedRange (s : Slice) : list Z := ztake (slice_size s - unused_bytes_ s) (buffer_ s).

(** A pointer into the slices; nullptr is None. *)
Definition pointer : Type := (nat * Z)%type.

(** The buffer (ScatteredHeapBuffer), the writer (ScatteredStreamWriter) and the
    arena (MessageArena: the number of entries of each block, the front first)
    that a root message owns.  [cur_slice_] is the slice [cur_range_] points to,
    None when the range is {nullptr, nullptr}; its begin is offset 0.  The buffer's
    [writer_] is set by the constructor of HeapBuffered. *)
Record Stream := mkStream {
  next_slice_size_ : Z;
  maximum_slice_size_ : Z;
  slices_ : list Slice;
  cached_slice_ : option (list Z);
  cur_slice_ : option nat;
  cur_end_ : Z;
  write_ptr_ : Z;
  written_previously_ : Z;
  blocks_ : list Z
}.

Definition set_slices (l : list Slice) (s : Stream) : Stream :=
  mkStream (next_slice_size_ s) (maximum_slice_size_ s) l (cached_slice_ s) (cur_slice_ s) (cur_end_ s)
    (write_ptr_ s) (written_previously_ s) (blocks_ s).
Definition set_write_ptr (p : Z) (s : Stream) : Stream :=
  mkStream (next_slice_size_ s) (maximum_slice_size_ s) (slices_ s) (cached_slice_ s) (cur_slice_ s) (cur_end_ s)
    p (written_previously_ s) (blocks_ s).
Definition set_blocks (l : list Z) (s : Stream) : Stream :=
  mkStream (next_slice_size_ s) (maximum_slice_size_ s) (slices_ s) (cached_slice_ s) (cur_slice_ s) (cur_end_ s)
    (write_ptr_ s) (written_previously_ s) l.

Definition bytes_available (s : Stream) : Z := cur_end_ s - write_ptr_ s.
Definition written (s : Stream) : Z := written_previously_ s + write_ptr_ s.

(** memcpy() to a pointer. *)
Definition store (i : nat) (off : Z) (src : list Z) (s : Stream) : Stream :=
  set_slices (alter (fun sl => mkSlice (zwrite off src (buffer_ sl)) (unused_bytes_ sl)) i (slices_ s)) s.

Definition AdjustUsedSizeOfCurrentSlice (s : Stream) : Stream :=
  if bool_decide (slices_ s = []) then s
  else set_slices (alter (fun sl => mkSlice (buffer_ sl) (bytes_available s)) (length (slices_ s) - 1)%nat (slices_ s)) s.

Section writer.
(** The byte that fresh memory holds (0xff in builds with debug checks). *)
Context (junk : Z).

Definition Slice_new (size : Z) : Slice := mkSlice (replicate (Z.to_nat size) junk) size.
Definition Slice_Clear (buf : list Z) : Slice := mkSlice buf (zlen buf).

(** ScatteredHeapBuffer::GetNewBuffer: the range is the whole new last slice. *)
Definition GetNewBuffer (s : Stream) : Stream :=
  let s := AdjustUsedSizeOfCurrentSlice s in
  let '(slice, cached) := match cached_slice_ s with
                          | Some buf => (Slice_Clear buf, None)
                          | None => (Slice_new (next_slice_size_ s), None)
                          end in
  mkStream (Z.min (maximum_slice_size_ s) (next_slice_size_ s * 2)) (maximum_slice_size_ s)
    (slices_ s ++ [slice]) cached (cur_slice_ s) (cur_end_ s) (write_ptr_ s) (written_previously_ s) (blocks_ s).

(** ScatteredStreamWriter::Reset(range). *)
Definition Writer_Reset (range : option (nat * Z)) (s : Stream) : Stream :=
  let '(sl, e) := match range with Some (i, e) => (Some i, e) | None => (None, 0) end in
  mkStream (next_slice_size_ s) (maximum_slice_size_ s) (slices_ s) (cached_slice_ s) sl e 0
    (written_previously_ s + write_ptr_ s) (blocks_ s).

Definition Extend (s : Stream) : Stream :=
  let s := GetNewBuffer s in
  Writer_Reset (Some ((length (slices_ s) - 1)%nat, default 0 (slice_size <$> last (slices_ s)))) s.

(** The slice write_ptr_ points into. *)
Definition cur (s : Stream) : nat := default O (cur_slice_ s).

Definition WriteByte (value : Z) (s : Stream) : Stream :=
  let s := if cur_end_ s <=? write_ptr_ s then Extend s else s in
  set_write_ptr (write_ptr_ s + 1) (store (cur s) (write_ptr_ s) [value] s).

Definition WriteBytesUnsafe (src : list Z) (s : Stream) : Stream :=
  set_write_ptr (write_ptr_ s + zlen src) (store (cur s) (write_ptr_ s) src s).

(** Every round writes at least one byte (slices are never empty): as many
    rounds as there are bytes (WriteBytes_spec). *)
Fixpoint WriteBytesSlowPath_loop (fuel : nat) (src : list Z) (s : Stream) : Stream :=
  match fuel with
  | O => s
  | S fuel' =>
      if 0 <? zlen src then
        let s := if cur_end_ s <=? write_ptr_ s then Extend s else s in
        let burst_size := Z.min (bytes_available s) (zlen src) in
        WriteBytesSlowPath_loop fuel' (zdrop burst_size src) (WriteBytesUnsafe (ztake burst_size src) s)
      else s
  end.
Definition WriteBytesSlowPath (src : list Z) (s : Stream) : Stream := WriteBytesSlowPath_loop (length src) src s.

Definition WriteBytes (src : list Z) (s : Stream) : Stream :=
  if write_ptr_ s + zlen src <=? cur_end_ s then WriteBytesUnsafe src s else WriteBytesSlowPath src s.

Definition ReserveBytes (size : Z) (s : Stream) : pointer * Stream :=
  let s := if cur_end_ s <? write_ptr_ s + size then Extend s else s in
  ((cur s, write_ptr_ s), set_write_ptr (write_ptr_ s + size) s).

(** The constructors of ScatteredHeapBuffer, ScatteredStreamWriter, MessageArena. *)
Definition Stream_new (initial_slice_size_bytes maximum_slice_size_bytes : Z) : Stream :=
  mkStream initial_slice_size_bytes maximum_slice_size_bytes [] None None 0 0 0 [0].

Definition GetSlices (s : Stream) : list Slice * Stream :=
  let s := AdjustUsedSizeOfCurrentSlice s in (slices_ s, s).
Definition StitchSlices (s : Stream) : list Z * Stream :=
  let '(slices, s) := GetSlices s in (concat (map GetUsedRange slices), s).
Definition GetRanges (s : Stream) : list (list Z) * Stream :=
  let '(slices, s) := GetSlices s in (map GetUsedRange slices, s).
Definition GetTotalSize (s : Stream) : Z := foldr (fun sl n => slice_size sl + n) 0 (slices_ s).

(** ScatteredHeapBuffer::Reset: keeps the first slice for later. *)
Definition HeapBuffer_Reset (s : Stream) : Stream :=
  match slices_ s with
  | [] => s
  | first :: _ =>
      mkStream (next_slice_size_ s) (maximum_slice_size_ s) [] (Some (buffer_ (Slice_Clear (buffer_ first))))
        (cur_slice_ s) (cur_end_ s) (write_ptr_ s) (written_previously_ s) (blocks_ s)
  end.

(** ** MessageArena *)

Definition kCapacity : Z := 16.
Definition NewMessage (blocks : list Z) : list Z :=
  match blocks with
  | entries :: rest => if kCapacity <=? entries then 1 :: entries :: rest else entries + 1 :: rest
  | [] => []
  end.
Definition DeleteLastMessage (blocks : list Z) : list Z :=
  match blocks with
  | entries :: rest => if (entries - 1 =? 0) && negb (bool_decide (rest = [])) then rest else entries - 1 :: rest
  | [] => []
  end.
(** MessageArena::Reset: blocks_.resize(1) keeps the front block. *)
Definition Arena_Reset (blocks : list Z) : list Z := match blocks with _ :: _ => [0] | [] => [] end.

(** ** Message *)

#[warnings="-register-all"]
Inductive Message : Type := mkMessage {
  m_size_ : Z;
  size_field_ : option pointer;
  size_already_written_ : Z;
  nested_message_ : option Message;
  finalized_ : bool
}.

Definition Message_Reset : Message := mkMessage 0 None 0 None false.
Definition inc_size_already_written (sz : Z) (m : Message) : Message :=
  mkMessage (m_size_ m) (size_field_ m) (u32 (size_already_written_ m + sz)) (nested_message_ m) (finalized_ m).

Definition WriteToStream (src : list Z) (m : Message) (s : Stream) : Message * Stream :=
  (mkMessage (u32 (m_size_ m + u32 (zlen src))) (size_field_ m) (size_already_written_ m) (nested_message_ m) (finalized_ m),
   WriteBytes src s).

(** Finalize, with EndNestedMessage inlined where it recurs. *)
Fixpoint Finalize (m : Message) (s : Stream) : Message * Stream :=
  match m with
  | mkMessage size size_field already nested finalized =>
      if finalized then (m, s)
      else
        let '(size, s) := match nested with
                          | Some n => let '(n', s') := Finalize n s in
                                      (u32 (size + m_size_ n'), set_blocks (DeleteLastMessage (blocks_ s')) s')
                          | None => (size, s)
                          end in
        let s := match size_field with
                 | Some (i, off) => store i off (WriteRedundantVarInt (u32 (size - already)) kMessageLengthFieldSize) s
                 | None => s
                 end in
        (mkMessage size None already None true, s)
  end.

Definition EndNestedMessage (m : Message) (s : Stream) : Message * Stream :=
  match nested_message_ m with
  | Some n =>
      let '(n', s) := Finalize n s in
      (mkMessage (u32 (m_size_ m + m_size_ n')) (size_field_ m) (size_already_written_ m) None (finalized_ m),
       set_blocks (DeleteLastMessage (blocks_ s)) s)
  | None => (m, s)
  end.

Definition AppendVarInt (T : int_type) (field_id value : Z) (m : Message) (s : Stream) : Message * Stream :=
  let '(m, s) := EndNestedMessage m s in
  WriteToStream (WriteVarInt uint32_t (MakeTagVarInt field_id) ++ WriteVarInt T value) m s.

Definition AppendSignedVarInt (bits field_id value : Z) (m : Message) (s : Stream) : Message * Stream :=
  AppendVarInt (IntType bits false) field_id (ZigZagEncode bits value) m s.

Definition AppendTinyVarInt (field_id value : Z) (m : Message) (s : Stream) : Message * Stream :=
  let '(m, s) := EndNestedMessage m s in
  WriteToStream (WriteVarInt uint32_t (MakeTagVarInt field_id) ++ [u8 value]) m s.

(** [sizeof_T] is 4 or 8; [value] is the bit pattern of the argument. *)
Definition AppendFixed (sizeof_T field_id value : Z) (m : Message) (s : Stream) : Message * Stream :=
  let '(m, s) := EndNestedMessage m s in
  WriteToStream (WriteVarInt uint32_t (MakeTagFixed sizeof_T field_id) ++ le_bytes (Z.to_nat sizeof_T) value) m s.

Definition AppendBytes (field_id : Z) (src : list Z) (m : Message) (s : Stream) : Message * Stream :=
  let '(m, s) := EndNestedMessage m s in
  let '(m, s) := WriteToStream
    (WriteVarInt uint32_t (MakeTagLengthDelimited field_id) ++ WriteVarInt uint32_t (u32 (zlen src))) m s in
  WriteToStream src m s.

(** strlen(): the bytes before the first NUL. *)
Fixpoint c_str (str : list Z) : list Z :=
  match str with [] => [] | b :: r => if b =? 0 then [] else b :: c_str r end.
Definition AppendString (field_id : Z) (str : list Z) (m : Message) (s : Stream) : Message * Stream :=
  AppendBytes field_id (c_str str) m s.

(** Unlike its siblings, it does not end the nested message. *)
Definition AppendScatteredBytes (field_id : Z) (ranges : list (list Z)) (m : Message) (s : Stream) : Message * Stream :=
  let size := foldr (fun r n => zlen r + n) 0 ranges in
  let '(m, s) := WriteToStream
    (WriteVarInt uint32_t (MakeTagLengthDelimited field_id) ++ WriteVarInt uint32_t (u32 size)) m s in
  fold_left (fun ms range => WriteToStream range ms.1 ms.2) ranges (m, s).

Definition AppendRawProtoBytes (data : list Z) (m : Message) (s : Stream) : Message * Stream := WriteToStream data m s.

(** The new message is [nested_message_] of the result. *)
Definition BeginNestedMessageInternal (field_id : Z) (m : Message) (s : Stream) : Message * Stream :=
  let '(m, s) := EndNestedMessage m s in
  let '(m, s) := WriteToStream (WriteVarInt uint32_t (MakeTagLengthDelimited field_id)) m s in
  let s := set_blocks (NewMessage (blocks_ s)) s in
  let '(p, s) := ReserveBytes kMessageLengthFieldSize s in
  let message := mkMessage 0 (Some p) 0 None false in
  (mkMessage (u32 (m_size_ m + kMessageLengthFieldSize)) (size_field_ m) (size_already_written_ m) (Some message)
     (finalized_ m), s).

(** ** HeapBuffered *)

Definition SerializeAsArray (m : Message) (s : Stream) : list Z * (Message * Stream) :=
  let '(m, s) := Finalize m s in
  let '(out, s) := StitchSlices s in (out, (m, s)).
(** RootMessage::Reset resets the arena and the message. *)
Definition HeapBuffered_Reset (s : Stream) : Message * Stream :=
  let s := Writer_Reset None (HeapBuffer_Reset s) in
  (Message_Reset, set_blocks (Arena_Reset (blocks_ s)) s).

(** ** The calls of a client *)

#[warnings="-register-all"]
Inductive call : Type :=
| CVarInt (T : int_type) (field_id value : Z)
| CSignedVarInt (bits field_id value : Z)
| CTinyVarInt (field_id value : Z)
| CFixed (sizeof_T field_id value : Z)
| CBytes (field_id : Z) (src : list Z)
| CNested (field_id : Z) (body : list call).

(** A client that fills the messages in the stacked fashion the API asks for:
    the calls of [body] go to the nested message, the ones after it to the parent
    (which ends the nested message). *)
Fixpoint run_call (c : call) (m : Message) (s : Stream) : Message * Stream :=
  match c with
  | CVarInt T id v => AppendVarInt T id v m s
  | CSignedVarInt bits id v => AppendSignedVarInt bits id v m s
  | CTinyVarInt id v => AppendTinyVarInt id v m s
  | CFixed sz id v => AppendFixed sz id v m s
  | CBytes id src => AppendBytes id src m s
  | CNested id body =>
      let '(m, s) := BeginNestedMessageInternal id m s in
      match nested_message_ m with
      | Some n =>
          let '(n, s) := (fix run (l : list call) (n : Message) (s : Stream) : Message * Stream :=
                            match l with
                            | [] => (n, s)
                            | c :: l => let '(n, s) := run_call c n s in run l n s
                            end) body n s in
          (mkMessage (m_size_ m) (size_field_ m) (size_already_written_ m) (Some n) (finalized_ m), s)
      | None => (m, s)
      end
  end.
Fixpoint run_calls (l : list call) (m : Message) (s : Stream) : Message * Stream :=
  match l with
  | [] => (m, s)
  | c :: l => let '(m, s) := run_call c m s in run_calls l m s
  end.

End writer.

(** ** Specification *)

(** The bytes written so far, slice by slice. *)
Definition segs (s : Stream) : list (list Z) := map GetUsedRange (slices_ (AdjustUsedSizeOfCurrentSlice s)).

(** The [n] bytes at offset [off] of segment [i] are the bytes [p, p + n) of the
    stream. *)
Definition ptr_at (L : list (list Z)) (i : nat) (off n p : Z) : Prop :=
  exists l, L !! i = Some l /\ 0 <= off /\ 0 <= n /\ off + n <= zlen l /\ p = zlen (concat (take i L)) + off.

(** Slices have room for the length field of a nested message. *)
Record stream_ok (s : Stream) : Prop := {
  so_next : kMessageLengthFieldSize <= next_slice_size_ s <= maximum_slice_size_ s;
  so_cached : forall b, cached_slice_ s = Some b -> kMessageLengthFieldSize <= zlen b;
  so_sizes : Forall (fun sl => kMessageLengthFieldSize <= slice_size sl) (slices_ s);
  so_cur : slices_ s = [] /\ cur_slice_ s = None /\ cur_end_ s = 0 /\ write_ptr_ s = 0 \/
    exists init l, slices_ s = init ++ [l] /\ cur_slice_ s = Some (length init) /\ cur_end_ s = slice_size l /\
      0 <= write_ptr_ s <= cur_end_ s /\ Forall (fun sl => 0 <= unused_bytes_ sl <= slice_size sl) init
}.

(** [s'] is [s] after appending [src]: earlier pointers stay valid. *)
Record wrote (s : Stream) (src : list Z) (s' : Stream) : Prop := {
  wr_ok : stream_ok s';
  wr_flat : concat (segs s') = concat (segs s) ++ src;
  wr_ptr : forall i off n p, ptr_at (segs s) i off n p -> ptr_at (segs s') i off n p;
  wr_written : written s' = written s + zlen src;
  wr_blocks : blocks_ s' = blocks_ s
}.

(** What the calls mean: the reference encoding. *)
Fixpoint encode_call (c : call) : list Z :=
  match c with
  | CVarInt T id v => WriteVarInt uint32_t (MakeTagVarInt id) ++ WriteVarInt T v
  | CSignedVarInt bits id v => WriteVarInt uint32_t (MakeTagVarInt id) ++ WriteVarInt (IntType bits false) (ZigZagEncode bits v)
  | CTinyVarInt id v => WriteVarInt uint32_t (MakeTagVarInt id) ++ [u8 v]
  | CFixed sz id v => WriteVarInt uint32_t (MakeTagFixed sz id) ++ le_bytes (Z.to_nat sz) v
  | CBytes id src => WriteVarInt uint32_t (MakeTagLengthDelimited id) ++ WriteVarInt uint32_t (zlen src) ++ src
  | CNested id body =>
      let b := concat (map encode_call body) in
      WriteVarInt uint32_t (MakeTagLengthDelimited id) ++ WriteRedundantVarInt (zlen b) kMessageLengthFieldSize ++ b
  end.
Definition encode_calls (l : list call) : list Z := concat (map encode_call l).

(** Blocks of the arena: never empty; only the last one may have no entry. *)
Definition arena_ok (blocks : list Z) : Prop :=
  exists entries rest, blocks = entries :: rest /\ Forall (fun e => 1 <= e <= kCapacity) rest /\
    0 <= entries <= kCapacity /\ (rest <> [] -> 1 <= entries).

(** ** Segments *)

Lemma alter_snoc {A} (f : A -> A) (l : list A) x : alter f (length l) (l ++ [x]) = l ++ [f x].
Proof. rewrite <- (Nat.add_0_r (length l)) at 1. by rewrite alter_app_r. Qed.

Lemma segs_snoc s init l : slices_ s = init ++ [l] -> cur_end_ s = slice_size l ->
  segs s = map GetUsedRange init ++ [ztake (write_ptr_ s) (buffer_ l)].
Proof.
  intros Hs He. unfold segs, AdjustUsedSizeOfCurrentSlice. rewrite bool_decide_eq_false_2 by (rewrite Hs; by destruct init).
  unfold set_slices. cbn [slices_]. rewrite Hs, length_app. cbn [length].
  rewrite Nat.add_sub, alter_snoc, map_app. f_equal. cbn. do 2 f_equal. unfold GetUsedRange, bytes_available, slice_size.
  cbn [buffer_ unused_bytes_]. unfold slice_size in He. f_equal. lia.
Qed.

Lemma segs_nil s : slices_ s = [] -> segs s = [].
Proof. intros Hs. unfold segs, AdjustUsedSizeOfCurrentSlice. rewrite Hs. simpl. by rewrite Hs. Qed.

Lemma segs_set_blocks l s : segs (set_blocks l s) = segs s.
Proof. unfold segs, AdjustUsedSizeOfCurrentSlice. cbn [set_blocks slices_]. by case_bool_decide. Qed.

Lemma ptr_at_length L i off n p : ptr_at L i off n p -> (i < length L)%nat.
Proof. intros (l & Hl & _). by apply lookup_lt_Some in Hl. Qed.

Lemma ptr_at_app L L' i off n p : ptr_at L i off n p -> ptr_at (L ++ L') i off n p.
Proof.
  intros H. pose proof (ptr_at_length _ _ _ _ _ H) as Hi. destruct H as (l & Hl & H0 & Hn & H1 & Hp).
  exists l. rewrite lookup_app_l, take_app_le by lia. done.
Qed.

Lemma ptr_at_last L l src i off n p : ptr_at (L ++ [l]) i off n p -> ptr_at (L ++ [l ++ src]) i off n p.
Proof.
  intros H. pose proof (ptr_at_length _ _ _ _ _ H) as Hi. rewrite length_app in Hi. cbn in Hi.
  destruct H as (k & Hk & H0 & Hn & H1 & Hp). rewrite take_app_le in Hp by lia.
  unfold ptr_at. rewrite take_app_le by lia. destruct (decide (i < length L)%nat).
  - exists k. rewrite lookup_app_l in * by lia. done.
  - replace i with (length L) in * by lia. rewrite list_lookup_middle in Hk by done. injection Hk as <-.
    exists (l ++ src). rewrite list_lookup_middle by done. rewrite zlen_app. pose proof (zlen_nonneg src).
    repeat split; try done. lia.
Qed.

Lemma zlen_concat_alter {A} (L : list (list A)) f j i : (forall l, L !! j = Some l -> zlen (f l) = zlen l) ->
  zlen (concat (take i (alter f j L))) = zlen (concat (take i L)).
Proof.
  revert j i. induction L as [|x L IH]; intros j i Hf; [done|].
  destruct i as [|i]; [done|]. destruct j as [|j]; cbn [alter list_alter take concat]; rewrite !zlen_app.
  - by rewrite (Hf x).
  - rewrite IH; [done|]. intros l Hl. by apply Hf.
Qed.

Lemma ptr_at_alter L f j i off n p : (forall l, L !! j = Some l -> zlen (f l) = zlen l) ->
  ptr_at L i off n p -> ptr_at (alter f j L) i off n p.
Proof.
  intros Hf (l & Hl & H0 & Hn & H1 & Hp). pose proof (zlen_concat_alter L f j i Hf) as Hz.
  destruct (decide (i = j)) as [->|Hne].
  - exists (f l). rewrite Hz, Hf, list_lookup_alter_eq, Hl by done. done.
  - exists l. rewrite Hz, list_lookup_alter_ne by done. done.
Qed.

Lemma concat_alter_zwrite L i off src p : ptr_at L i off (zlen src) p ->
  concat (alter (zwrite off src) i L) = zwrite p src (concat L).
Proof.
  intros (l & Hl & H0 & Hn & H1 & Hp). rewrite <- (take_drop_middle L i l) by done.
  assert (Hlen : length (take i L) = i) by (rewrite length_take; apply lookup_lt_Some in Hl; lia).
  replace i with (length (take i L) + 0)%nat at 1 by lia. rewrite alter_app_r. cbn [alter list_alter].
  rewrite !concat_app. cbn [concat]. rewrite zwrite_app_r by lia.
  rewrite zwrite_app_l by lia. do 3 f_equal. lia.
Qed.

Lemma map_alter_at {A B} (f : A -> B) g h i (l : list A) : (forall x, l !! i = Some x -> f (g x) = h (f x)) ->
  map f (alter g i l) = alter h i (map f l).
Proof.
  revert i. induction l as [|x l IH]; intros i H; [done|]. destruct i as [|i]; cbn.
  - by rewrite H.
  - f_equal. apply IH. intros y Hy. by apply H.
Qed.

(** Filling in reserved bytes. *)
Lemma store_segs s i off src p : stream_ok s -> ptr_at (segs s) i off (zlen src) p ->
  stream_ok (store i off src s) /\ segs (store i off src s) = alter (zwrite off src) i (segs s).
Proof.
  intros [Hn Hc Hsz [(Hnil & _)|(init & l & Hs & Hcur & He & Hw & Hu)]] Hp.
  { rewrite segs_nil in Hp by done. apply ptr_at_length in Hp. cbn in Hp. lia. }
  pose proof (ptr_at_length _ _ _ _ _ Hp) as Hi. destruct Hp as (k & Hk & H0 & _ & H1 & _).
  rewrite (segs_snoc s init l) in * by done. rewrite length_app, length_map in Hi. cbn in Hi.
  set (g := fun sl => mkSlice (zwrite off src (buffer_ sl)) (unused_bytes_ sl)).
  destruct (decide (i < length init)%nat) as [Hlt|Hge].
  - rewrite lookup_app_l in Hk by (rewrite length_map; lia).
    assert (Hg : forall sl, init !! i = Some sl -> zlen (zwrite off src (buffer_ sl)) = zlen (buffer_ sl)
       /\ GetUsedRange (g sl) = zwrite off src (GetUsedRange sl)).
    { intros sl Hsl. rewrite list_lookup_fmap, Hsl in Hk. injection Hk as <-.
      eapply Forall_lookup in Hu; [|exact Hsl]. unfold GetUsedRange, slice_size in *. cbn [g buffer_ unused_bytes_].
      rewrite zlen_ztake in H1 by lia. rewrite zlen_zwrite by lia. split; [done|].
      apply ztake_zwrite; lia. }
    assert (Hs' : slices_ (store i off src s) = alter g i init ++ [l]).
    { unfold store, set_slices. cbn [slices_]. rewrite Hs. by rewrite alter_app_l. }
    split.
    + constructor; [done|done|rewrite Hs'; rewrite Hs in Hsz; apply Forall_app in Hsz as [Hsz1 Hsz2];
        apply Forall_app; split; [apply Forall_alter; [done|]; intros sl Hsl ?; unfold slice_size in *;
          cbn [g buffer_]; destruct (Hg sl Hsl) as [-> _]; done|done]|].
      right. exists (alter g i init), l. rewrite length_alter. do 4 (split; [done|]).
      apply Forall_alter; [done|]. intros sl Hsl ?. destruct (Hg sl Hsl) as [Hz _].
      unfold slice_size in *. cbn [g buffer_ unused_bytes_]. rewrite Hz. done.
    + rewrite (segs_snoc _ (alter g i init) l) by done. rewrite alter_app_l by (rewrite length_map; lia). f_equal.
      apply map_alter_at. intros sl Hsl. by apply Hg.
  - replace i with (length init) in * by lia.
    rewrite lookup_app_r in Hk by (rewrite length_map; lia). rewrite length_map, Nat.sub_diag in Hk. injection Hk as <-.
    unfold slice_size in *. rewrite zlen_ztake in H1 by lia.
    assert (Hs' : slices_ (store (length init) off src s) = init ++ [g l]).
    { unfold store, set_slices. cbn [slices_]. rewrite Hs. apply alter_snoc. }
    assert (Hz : zlen (zwrite off src (buffer_ l)) = zlen (buffer_ l)) by (apply zlen_zwrite; lia).
    split.
    + constructor; [done|done|rewrite Hs'; rewrite Hs in Hsz; apply Forall_app in Hsz as [Hsz1 Hsz2];
        apply Forall_app; split; [done|apply Forall_singleton; apply Forall_inv in Hsz2; unfold slice_size in *;
          cbn [g buffer_]; rewrite Hz; exact Hsz2]|].
      right. exists init, (g l). unfold slice_size. cbn [g buffer_]. rewrite Hz. done.
    + rewrite (segs_snoc _ init (g l)); [|done|unfold slice_size; cbn [g buffer_]; by rewrite Hz].
      rewrite <- (length_map GetUsedRange init) at 2. rewrite alter_snoc.
      do 2 f_equal. apply ztake_zwrite; lia.
Qed.

(** ** The stream writer appends *)

Lemma wrote_refl s : stream_ok s -> wrote s [] s.
Proof. intros. constructor; auto using app_nil_r. rewrite zlen_nil. lia. Qed.

Lemma wrote_trans s a s1 b s2 : wrote s a s1 -> wrote s1 b s2 -> wrote s (a ++ b) s2.
Proof.
  intros [] []. constructor; auto.
  - by rewrite app_assoc, <- wr_flat0.
  - rewrite zlen_app. lia.
  - congruence.
Qed.

Section append.
Context (junk : Z).

Lemma Adjust_slices s init l : slices_ s = init ++ [l] -> slices_ (AdjustUsedSizeOfCurrentSlice s) =
  init ++ [mkSlice (buffer_ l) (bytes_available s)].
Proof.
  intros Hs. unfold AdjustUsedSizeOfCurrentSlice. rewrite bool_decide_eq_false_2 by (rewrite Hs; by destruct init).
  unfold set_slices. cbn [slices_]. rewrite Hs, length_app. cbn [length].
  rewrite Nat.add_sub. by rewrite alter_snoc.
Qed.

Lemma Adjust_same s : let a := AdjustUsedSizeOfCurrentSlice s in
  next_slice_size_ a = next_slice_size_ s /\ maximum_slice_size_ a = maximum_slice_size_ s /\
  cached_slice_ a = cached_slice_ s /\ cur_slice_ a = cur_slice_ s /\ cur_end_ a = cur_end_ s /\
  write_ptr_ a = write_ptr_ s /\ written_previously_ a = written_previously_ s /\ blocks_ a = blocks_ s.
Proof. unfold AdjustUsedSizeOfCurrentSlice. by case_bool_decide. Qed.

(** Extend adds an empty segment in a slice that has room for a length field. *)
Lemma Extend_spec s : stream_ok s ->
  wrote s [] (Extend junk s) /\ write_ptr_ (Extend junk s) = 0 /\ kMessageLengthFieldSize <= cur_end_ (Extend junk s).
Proof.
  intros Hok. pose proof Hok as [Hn Hc Hsz Hcur]. pose proof (Adjust_same s) as Ha. cbv zeta in Ha.
  destruct Ha as (Ha1 & Ha2 & Ha3 & _ & _ & Ha6 & Ha7 & Ha8).
  set (a := AdjustUsedSizeOfCurrentSlice s) in *.
  set (nl := match cached_slice_ s with Some buf => Slice_Clear buf | None => Slice_new junk (next_slice_size_ s) end).
  assert (Hsl : slices_ (Extend junk s) = slices_ a ++ [nl]).
  { unfold Extend, GetNewBuffer. fold a. unfold nl. rewrite Ha3, Ha1. by destruct (cached_slice_ s). }
  assert (Hnl : kMessageLengthFieldSize <= slice_size nl).
  { unfold nl, slice_size. destruct (cached_slice_ s) eqn:E; [by apply Hc|].
    unfold Slice_new, kMessageLengthFieldSize, zlen in *. cbn [buffer_]. rewrite length_replicate. lia. }
  assert (Hu : Forall (fun sl => 0 <= unused_bytes_ sl <= slice_size sl) (slices_ a)).
  { destruct Hcur as [(Hnil & _)|(init & l & Hs & _ & He & Hw & Hu)].
    - unfold a, AdjustUsedSizeOfCurrentSlice. rewrite Hnil. simpl. by rewrite Hnil.
    - unfold a. rewrite (Adjust_slices s init l) by done. apply Forall_app. split; [done|].
      apply Forall_singleton. unfold bytes_available, slice_size in *. cbn [buffer_ unused_bytes_]. lia. }
  assert (He : cur_end_ (Extend junk s) = slice_size nl).
  { unfold Extend, GetNewBuffer. fold a. unfold nl. rewrite Ha3, Ha1. unfold Writer_Reset.
    destruct (cached_slice_ s); cbn [cur_end_ slices_]; rewrite last_snoc; done. }
  assert (Hw : write_ptr_ (Extend junk s) = 0).
  { unfold Extend. by destruct (GetNewBuffer junk s). }
  assert (Hsegs : segs (Extend junk s) = segs s ++ [[]]).
  { rewrite (segs_snoc _ (slices_ a) nl) by done. rewrite Hw. done. }
  split; [|split; [done|lia]]. constructor.
  - constructor.
    + unfold Extend, GetNewBuffer, Writer_Reset. fold a. rewrite Ha3, Ha1, Ha2. unfold kMessageLengthFieldSize in *.
      destruct (cached_slice_ s); cbn [next_slice_size_ maximum_slice_size_]; lia.
    + unfold Extend, GetNewBuffer. fold a. rewrite Ha3. destruct (cached_slice_ s); done.
    + rewrite Hsl. apply Forall_app. split; [|by apply Forall_singleton].
      destruct Hcur as [(Hnil & _)|(init & l & Hs & _)].
      * unfold a, AdjustUsedSizeOfCurrentSlice. rewrite Hnil. simpl. by rewrite Hnil.
      * unfold a. rewrite (Adjust_slices s init l) by done. rewrite Hs in Hsz. apply Forall_app in Hsz as [Hs1 Hs2].
        apply Forall_app. split; [done|]. apply Forall_singleton. exact (Forall_inv Hs2).
    + right. exists (slices_ a), nl. rewrite Hw, He. unfold kMessageLengthFieldSize in Hnl.
      split; [done|]. split; [|split; [done|split; [lia|done]]].
      unfold Extend. replace (length (slices_ a)) with (length (slices_ (GetNewBuffer junk s)) - 1)%nat; [done|].
      unfold GetNewBuffer. fold a. destruct (cached_slice_ a); cbn [slices_]; rewrite length_app; cbn; lia.
  - rewrite Hsegs, concat_app. done.
  - intros i off n p Hp. rewrite Hsegs. by apply ptr_at_app.
  - assert (Hwp : written_previously_ (Extend junk s) = written_previously_ s + write_ptr_ s).
    { unfold Extend, GetNewBuffer. fold a. rewrite <- Ha7, <- Ha6. by destruct (cached_slice_ a). }
    unfold written. rewrite Hwp, Hw. change (zlen (@nil Z)) with 0. lia.
  - unfold Extend, GetNewBuffer. fold a. destruct (cached_slice_ a); done.
Qed.

Lemma WriteBytesUnsafe_spec src s : stream_ok s -> write_ptr_ s + zlen src <= cur_end_ s ->
  wrote s src (WriteBytesUnsafe src s).
Proof.
  intros Hok Hfit. pose proof (zlen_nonneg src).
  pose proof Hok as [Hn Hc Hsz [(Hnil & H1 & H2 & H3)|(init & l & Hs & Hcur & He & Hw & Hu)]].
  { destruct src as [|b src]; [|rewrite zlen_cons in Hfit; pose proof (zlen_nonneg src); lia].
    assert (Hsame : slices_ (WriteBytesUnsafe [] s) = []) by (cbn; by rewrite Hnil).
    constructor.
    - constructor; [done|done|by rewrite Hsame|]. left. rewrite Hsame. cbn. rewrite H3. done.
    - rewrite !segs_nil by done. done.
    - intros i off n p. by rewrite !segs_nil by done.
    - unfold written. cbn. rewrite zlen_nil. lia.
    - done. }
  unfold slice_size in *.
  set (l' := mkSlice (zwrite (write_ptr_ s) src (buffer_ l)) (unused_bytes_ l)).
  assert (Hs' : slices_ (WriteBytesUnsafe src s) = init ++ [l']).
  { unfold WriteBytesUnsafe, store, set_write_ptr, set_slices, cur. cbn [slices_]. rewrite Hcur, Hs.
    apply alter_snoc. }
  assert (Hl' : zlen (buffer_ l') = zlen (buffer_ l)) by (apply zlen_zwrite; lia).
  assert (Hsegs : segs (WriteBytesUnsafe src s) = map GetUsedRange init ++ [ztake (write_ptr_ s) (buffer_ l) ++ src]).
  { rewrite (segs_snoc _ init l') by (done || unfold slice_size; rewrite Hl'; done).
    do 2 f_equal. unfold l'. cbn. apply ztake_zwrite_end; lia. }
  constructor.
  - constructor; [done|done|rewrite Hs'; rewrite Hs in Hsz; apply Forall_app in Hsz as [Hsz1 Hsz2];
      apply Forall_app; split; [done|apply Forall_singleton; apply Forall_inv in Hsz2; unfold slice_size in *;
        rewrite Hl'; exact Hsz2]|].
    right. exists init, l'. unfold slice_size. rewrite Hl'. cbn. split; [done|].
    do 2 (split; [done|]). split; [lia|done].
  - rewrite Hsegs, (segs_snoc s init l) by done. rewrite !concat_app. cbn. by rewrite !app_nil_r, app_assoc.
  - intros i off n p. rewrite Hsegs, (segs_snoc s init l) by done. apply ptr_at_last.
  - unfold written. cbn. lia.
  - done.
Qed.

Lemma stream_ok_room s : stream_ok s -> write_ptr_ s <= cur_end_ s.
Proof. intros [_ _ _ [(_ & _ & -> & ->)|(? & ? & _ & _ & _ & ? & _)]]; lia. Qed.

Lemma WriteBytesSlowPath_loop_spec fuel src s : stream_ok s -> (length src <= fuel)%nat ->
  wrote s src (WriteBytesSlowPath_loop junk fuel src s).
Proof.
  revert src s. induction fuel as [|fuel IH]; intros src s Hok Hf.
  - destruct src; [|simpl in Hf; lia]. by apply wrote_refl.
  - cbn [WriteBytesSlowPath_loop]. destruct (Z.ltb_spec 0 (zlen src)) as [Hpos|Hz].
    2: { destruct src; [by apply wrote_refl|]. rewrite zlen_cons in Hz. pose proof (zlen_nonneg src). lia. }
    assert (Hroom : exists s1, (if cur_end_ s <=? write_ptr_ s then Extend junk s else s) = s1 /\ wrote s [] s1
                      /\ 0 < bytes_available s1).
    { destruct (Z.leb_spec (cur_end_ s) (write_ptr_ s)).
      - exists (Extend junk s). destruct (Extend_spec s Hok) as (Hw & H1 & H2). split; [done|]. split; [done|].
        unfold bytes_available, kMessageLengthFieldSize in *. lia.
      - exists s. split; [done|]. split; [by apply wrote_refl|]. unfold bytes_available. lia. }
    destruct Hroom as (s1 & -> & Hw1 & Hav). set (n := Z.min (bytes_available s1) (zlen src)).
    rewrite <- (app_nil_l src) at 1. rewrite <- (ztake_zdrop n src) at 1.
    assert (Hlen : zlen (ztake n src) = n) by (apply zlen_ztake; lia).
    eapply wrote_trans; [exact Hw1|]. eapply wrote_trans.
    + apply WriteBytesUnsafe_spec; [by destruct Hw1|]. rewrite Hlen. unfold bytes_available in n. lia.
    + apply IH.
      * eapply wr_ok. apply WriteBytesUnsafe_spec; [by destruct Hw1|]. rewrite Hlen. unfold bytes_available in n. lia.
      * unfold zdrop. rewrite length_drop. unfold zlen in *. lia.
Qed.

Lemma WriteBytes_spec src s : stream_ok s -> wrote s src (WriteBytes junk src s).
Proof.
  intros Hok. unfold WriteBytes. destruct (Z.leb_spec (write_ptr_ s + zlen src) (cur_end_ s)).
  - by apply WriteBytesUnsafe_spec.
  - by apply WriteBytesSlowPath_loop_spec.
Qed.

Lemma zread_zlen_app_take o n (l : list Z) : 0 <= o -> 0 <= n -> ztake (o + n) l = ztake o l ++ zread o n l.
Proof. intros. exact (zread_split 0 o n l ltac:(lia) ltac:(lia) ltac:(lia)). Qed.

Lemma ReserveBytes_spec s : stream_ok s -> exists i off s' hole,
  ReserveBytes junk kMessageLengthFieldSize s = ((i, off), s') /\ zlen hole = kMessageLengthFieldSize /\
  wrote s hole s' /\ ptr_at (segs s') i off kMessageLengthFieldSize (zlen (concat (segs s))).
Proof.
  intros Hok. unfold ReserveBytes.
  assert (Hroom : exists s1, (if cur_end_ s <? write_ptr_ s + kMessageLengthFieldSize then Extend junk s else s) = s1 /\
     wrote s [] s1 /\ write_ptr_ s1 + kMessageLengthFieldSize <= cur_end_ s1).
  { destruct (Z.ltb_spec (cur_end_ s) (write_ptr_ s + kMessageLengthFieldSize)).
    - exists (Extend junk s). destruct (Extend_spec s Hok) as (Hw & -> & H2). split; [done|]. split; [done|lia].
    - exists s. split; [done|]. split; [by apply wrote_refl|lia]. }
  destruct Hroom as (s1 & -> & Hw1 & Hav). set (k := kMessageLengthFieldSize) in *. assert (Hk : k = 4) by done.
  pose proof Hw1 as [Hok1 Hflat1 Hptr1 Hwr1 Hb1]. rewrite app_nil_r in Hflat1.
  pose proof Hok1 as [Hn Hc Hsz [(Hnil & H1 & H2 & H3)|(init & l & Hs & Hcur & He & Hw & Hu)]]; [lia|].
  set (s2 := set_write_ptr (write_ptr_ s1 + k) s1). set (hole := zread (write_ptr_ s1) k (buffer_ l)).
  unfold slice_size in He. assert (Hhole : zlen hole = k) by (apply zlen_zread; lia).
  assert (Hs2 : segs s2 = map GetUsedRange init ++ [ztake (write_ptr_ s1) (buffer_ l) ++ hole]).
  { rewrite (segs_snoc s2 init l) by done. do 2 f_equal. apply zread_zlen_app_take; lia. }
  assert (Hs1 : segs s1 = map GetUsedRange init ++ [ztake (write_ptr_ s1) (buffer_ l)]) by by apply segs_snoc.
  exists (cur s1), (write_ptr_ s1), s2, hole. split; [done|]. split; [done|]. split.
  - change hole with ([] ++ hole). eapply wrote_trans; [exact Hw1|]. constructor.
    + constructor; [done|done|done|]. right. exists init, l. do 3 (split; [done|]). split; [cbn; lia|done].
    + rewrite Hs2, Hs1, !concat_app. cbn. by rewrite !app_nil_r, app_assoc.
    + intros i off n p. rewrite Hs2, Hs1. apply ptr_at_last.
    + unfold written. cbn -[Z.add]. lia.
    + done.
  - unfold cur. rewrite Hcur. cbn [from_option id]. exists (ztake (write_ptr_ s1) (buffer_ l) ++ hole).
    rewrite <- Hflat1, Hs2, Hs1. rewrite <- (length_map GetUsedRange init).
    rewrite list_lookup_middle, take_app_length by done. rewrite zlen_app, zlen_ztake by lia.
    rewrite concat_app, zlen_app. cbn. rewrite app_nil_r, zlen_ztake by lia. repeat split; try lia.
Qed.

(** ** The arena is a stack *)

Lemma arena_ok_new B : arena_ok B -> arena_ok (NewMessage B).
Proof.
  intros (e & rest & -> & Hr & He & Hne). unfold arena_ok, NewMessage, kCapacity in *. destruct (Z.leb_spec 16 e).
  - exists 1, (e :: rest). split; [done|]. split; [constructor; [lia|done]|]. lia.
  - exists (e + 1), rest. split; [done|]. split; [done|]. lia.
Qed.

Lemma DeleteLastMessage_NewMessage B : arena_ok B -> DeleteLastMessage (NewMessage B) = B.
Proof.
  intros (e & rest & -> & Hr & He & Hne). unfold arena_ok, NewMessage, kCapacity in *. destruct (Z.leb_spec 16 e).
  - cbn. done.
  - unfold DeleteLastMessage. rewrite Z.add_simpl_r. destruct (Z.eqb_spec e 0); [|done].
    case_bool_decide; [done|]. specialize (Hne H0). lia.
Qed.

(** ** Messages *)

(** [m] is the message whose encoding so far is [body], starting after [pre]: once
    its nested messages are finalized the stream is [pre ++ body].  [B] is the arena
    without the nested messages of [m]. *)
Fixpoint rep (m : Message) (L : list (list Z)) (blocks : list Z) (pre body : list Z) (B : list Z) : Prop :=
  match m with
  | mkMessage size _ already nested finalized =>
      already = 0 /\ finalized = false /\
      match nested with
      | None => concat L = pre ++ body /\ size = zlen body /\ blocks = B
      | Some c =>
          exists b0 cb hole i off,
            size_field_ c = Some (i, off) /\ zlen hole = kMessageLengthFieldSize /\
            ptr_at L i off kMessageLengthFieldSize (zlen (pre ++ b0)) /\
            size = zlen b0 + kMessageLengthFieldSize /\
            body = b0 ++ WriteRedundantVarInt (zlen cb) kMessageLengthFieldSize ++ cb /\
            rep c L blocks (pre ++ b0 ++ hole) cb (NewMessage B)
      end
  end.

Definition keeps (s s' : Stream) : Prop := forall i off n p, ptr_at (segs s) i off n p -> ptr_at (segs s') i off n p.

(** What Finalize does to the prefix: the length goes to the size field. *)
Definition backfilled (m : Message) (s : Stream) (pre body pre' : list Z) : Prop :=
  match size_field_ m with
  | None => pre' = pre
  | Some (i, off) => forall q, ptr_at (segs s) i off kMessageLengthFieldSize q -> q + kMessageLengthFieldSize <= zlen pre ->
      pre' = zwrite q (WriteRedundantVarInt (zlen body) kMessageLengthFieldSize) pre
  end.
Definition field_ready (m : Message) (s : Stream) (pre : list Z) : Prop :=
  match size_field_ m with
  | None => True
  | Some (i, off) => exists q, ptr_at (segs s) i off kMessageLengthFieldSize q /\ q + kMessageLengthFieldSize <= zlen pre
  end.

(** A message in progress without open nested message. *)
Definition plain (size : Z) (sf : option pointer) : Message := mkMessage size sf 0 None false.

Definition End_spec (m : Message) : Prop := forall s pre body B,
  stream_ok s -> arena_ok B -> rep m (segs s) (blocks_ s) pre body B -> zlen body <= kMaxMessageLength ->
  exists s', EndNestedMessage m s = (plain (zlen body) (size_field_ m), s') /\
    stream_ok s' /\ blocks_ s' = B /\ keeps s s' /\ concat (segs s') = pre ++ body.
Definition Fin_spec (m : Message) : Prop := forall s pre body B,
  stream_ok s -> arena_ok B -> rep m (segs s) (blocks_ s) pre body B -> zlen body <= kMaxMessageLength ->
  field_ready m s pre ->
  exists s' pre', Finalize m s = (mkMessage (zlen body) None 0 None true, s') /\
    stream_ok s' /\ blocks_ s' = B /\ keeps s s' /\ concat (segs s') = pre' ++ body /\ backfilled m s pre body pre'.

Lemma redundant_length v : word_ok 32 v -> zlen (WriteRedundantVarInt v kMessageLengthFieldSize) = kMessageLengthFieldSize.
Proof. intros Hv. apply (WriteRedundantVarInt_spec v kMessageLengthFieldSize Hv). done. Qed.

Lemma size_word n : 0 <= n <= kMaxMessageLength -> word_ok 32 n /\ u32 n = n.
Proof. change kMaxMessageLength with 268435455. intros. split; [split; lia|apply u32_small; lia]. Qed.

Lemma Finalize_unfold m s : Finalize m s =
  if finalized_ m then (m, s)
  else let '(m1, s1) := EndNestedMessage m s in
       (mkMessage (m_size_ m1) None (size_already_written_ m1) None true,
        match size_field_ m with
        | Some (i, off) => store i off (WriteRedundantVarInt (u32 (m_size_ m1 - size_already_written_ m1)) kMessageLengthFieldSize) s1
        | None => s1
        end).
Proof.
  destruct m as [size sf already [n|] []]; try done. cbn [Finalize EndNestedMessage nested_message_ finalized_].
  destruct (Finalize n s). done.
Qed.

Lemma keeps_trans s1 s2 s3 : keeps s1 s2 -> keeps s2 s3 -> keeps s1 s3.
Proof. unfold keeps. eauto. Qed.

Lemma concat_ptr_bound L i off n p : ptr_at L i off n p -> 0 <= p /\ p + n <= zlen (concat L).
Proof.
  intros (l & Hl & H0 & Hn & H1 & ->). pose proof (f_equal (@concat Z) (take_drop_middle L i l Hl)) as HL.
  rewrite <- HL, concat_app, zlen_app. cbn [concat]. rewrite zlen_app.
  pose proof (zlen_nonneg (concat (take i L))). pose proof (zlen_nonneg (concat (drop (S i) L))). lia.
Qed.

(** Filling a hole between [a] and [b]. *)
Lemma zwrite_hole {A} (a hole b src : list A) : zlen src = zlen hole -> zwrite (zlen a) src (a ++ hole ++ b) = a ++ src ++ b.
Proof.
  intros H. rewrite zwrite_app_r, Z.sub_diag by lia. f_equal.
  rewrite zwrite_app_l by lia. by rewrite zwrite_exact.
Qed.

Lemma EndNested_of_Finalize m : (forall n, nested_message_ m = Some n -> Fin_spec n) -> End_spec m.
Proof.
  intros IH s pre body B Hok HB Hrep Hsz. destruct m as [size sf already [c|] fin]; cbn [rep] in Hrep.
  - destruct Hrep as (-> & -> & b0 & cb & hole & i & off & Hsf & Hhole & Hp & -> & -> & Hrep).
    pose proof (redundant_length (zlen cb)) as Hred. rewrite !zlen_app in Hsz.
    pose proof (zlen_nonneg b0) as Hb0. pose proof (zlen_nonneg cb) as Hcb.
    pose proof (zlen_nonneg (WriteRedundantVarInt (zlen cb) kMessageLengthFieldSize)).
    destruct (size_word (zlen cb)) as [Hw _]; [lia|]. specialize (Hred Hw). rewrite Hred in Hsz.
    assert (Hroom : zlen (pre ++ b0) + kMessageLengthFieldSize <= zlen (pre ++ b0 ++ hole)) by (rewrite !zlen_app; lia).
    destruct (IH c eq_refl s (pre ++ b0 ++ hole) cb (NewMessage B)) as (s1 & pre' & Heq & Hok1 & HB1 & Hk1 & Hc1 & Hbf);
      [done|by apply arena_ok_new|done|lia| |].
    { unfold field_ready. rewrite Hsf. eauto. }
    unfold backfilled in Hbf. rewrite Hsf in Hbf. specialize (Hbf _ Hp Hroom).
    cbn [EndNestedMessage nested_message_]. rewrite Heq. cbn [m_size_ size_field_ size_already_written_ finalized_].
    unfold kMessageLengthFieldSize in *.
    exists (set_blocks (DeleteLastMessage (blocks_ s1)) s1). split.
    { unfold plain. f_equal. f_equal. rewrite !zlen_app, Hred.
      destruct (size_word (zlen b0 + 4 + zlen cb)) as [_ ->]; lia. }
    split; [by destruct Hok1|]. split; [cbn [set_blocks blocks_]; rewrite HB1; by apply DeleteLastMessage_NewMessage|].
    unfold keeps. rewrite segs_set_blocks. split; [exact Hk1|]. rewrite Hc1, Hbf.
    rewrite app_assoc. rewrite <- (app_nil_r hole), zwrite_hole by lia. by rewrite app_nil_r, <- !app_assoc.
  - destruct Hrep as (-> & -> & Hc & -> & <-). exists s. do 3 (split; [done|]). split; [unfold keeps; auto|done].
Qed.

Lemma Finalize_spec m : Fin_spec m.
Proof.
  revert m. fix IH 1. intros m s pre body B Hok HB Hrep Hsz Hready.
  assert (Hend : End_spec m).
  { apply EndNested_of_Finalize. intros n Hn. destruct m as [? ? ? [c|] ?]; [|discriminate Hn].
    cbn in Hn. injection Hn as <-. apply IH. }
  destruct (Hend s pre body B) as (s1 & Heq & Hok1 & HB1 & Hk1 & Hc1); [done..|].
  rewrite Finalize_unfold, Heq. assert (finalized_ m = false) as -> by (destruct m; apply Hrep).
  cbn [plain m_size_ size_already_written_]. unfold field_ready, backfilled in *. rewrite Z.sub_0_r.
  pose proof (zlen_nonneg body). destruct (size_word (zlen body)) as [Hw ->]; [lia|].
  destruct (size_field_ m) as [[i off]|].
  - destruct Hready as (q & Hq & Hroom). pose proof (Hk1 _ _ _ _ Hq) as Hq1.
    pose proof (redundant_length _ Hw) as Hred. rewrite <- Hred in Hq1.
    destruct (store_segs s1 i off _ q Hok1 Hq1) as [Hok2 Hs2]. pose proof (concat_ptr_bound _ _ _ _ _ Hq).
    eexists _, (zwrite q (WriteRedundantVarInt (zlen body) kMessageLengthFieldSize) pre).
    split; [reflexivity|]. split; [done|]. split; [done|]. split; [|split].
    + eapply keeps_trans; [exact Hk1|]. intros j o n p Hp. rewrite Hs2. apply ptr_at_alter; [|done].
      intros l Hl. destruct Hq1 as (k & Hk & Hoff & _ & Hfit & _). replace k with l in * by congruence. apply zlen_zwrite; lia.
    + rewrite Hs2, (concat_alter_zwrite _ _ _ _ q) by done. rewrite Hc1. apply zwrite_app_l; lia.
    + intros q' Hq' Hroom'. destruct Hq as (? & ? & _ & _ & _ & ->). destruct Hq' as (? & ? & _ & _ & _ & ->). done.
  - exists s1, pre. done.
Qed.

(** ** Calls *)

(** [f] appends [enc] to the encoding of the message it is called on. *)
Definition appends (f : Message -> Stream -> Message * Stream) (enc : list Z) : Prop := forall m s pre body B,
  stream_ok s -> arena_ok B -> rep m (segs s) (blocks_ s) pre body B -> zlen body + zlen enc <= kMaxMessageLength ->
  exists m' s', f m s = (m', s') /\ stream_ok s' /\ keeps s s' /\
    rep m' (segs s') (blocks_ s') pre (body ++ enc) B /\ size_field_ m' = size_field_ m.

Lemma rep_plain sf L pre body B : concat L = pre ++ body -> rep (plain (zlen body) sf) L B pre body B.
Proof. done. Qed.

Lemma WriteToStream_spec src sf s pre body : stream_ok s -> concat (segs s) = pre ++ body ->
  zlen body + zlen src <= kMaxMessageLength ->
  exists s', WriteToStream junk src (plain (zlen body) sf) s = (plain (zlen (body ++ src)) sf, s') /\
    stream_ok s' /\ keeps s s' /\ concat (segs s') = pre ++ body ++ src /\ blocks_ s' = blocks_ s.
Proof.
  intros Hok Hc Hsz. pose proof (WriteBytes_spec src s Hok) as [Hok' Hc' Hp' _ Hb'].
  exists (WriteBytes junk src s). unfold WriteToStream, plain. cbn [m_size_ size_field_ size_already_written_ nested_message_ finalized_].
  pose proof (zlen_nonneg body). pose proof (zlen_nonneg src).
  split; [|split; [done|split; [done|split; [|done]]]].
  - rewrite zlen_app. destruct (size_word (zlen src)) as [_ ->]; [lia|].
    destruct (size_word (zlen body + zlen src)) as [_ ->]; [lia|done].
  - by rewrite Hc', Hc, <- app_assoc.
Qed.

Lemma appends_one src : appends (fun m s => let '(m, s) := EndNestedMessage m s in WriteToStream junk src m s) src.
Proof.
  intros m s pre body B Hok HB Hrep Hsz. pose proof (zlen_nonneg src).
  destruct (EndNested_of_Finalize m (fun n _ => Finalize_spec n) s pre body B) as (s1 & -> & Hok1 & HB1 & Hk1 & Hc1);
    [done..|lia|].
  destruct (WriteToStream_spec src (size_field_ m) s1 pre body) as (s2 & -> & Hok2 & Hk2 & Hc2 & Hb2); [done..|].
  eexists _, s2. split; [reflexivity|]. split; [done|]. split; [by eapply keeps_trans|]. split; [|done].
  rewrite Hb2, HB1. by apply rep_plain.
Qed.

Lemma appends_bytes id src : zlen src <= kMaxMessageLength -> appends (AppendBytes junk id src)
  (WriteVarInt uint32_t (MakeTagLengthDelimited id) ++ WriteVarInt uint32_t (zlen src) ++ src).
Proof.
  intros Hsrc m s pre body B Hok HB Hrep Hsz. pose proof (zlen_nonneg src). unfold AppendBytes.
  destruct (size_word (zlen src)) as [_ ->]; [lia|].
  rewrite (app_assoc (WriteVarInt uint32_t (MakeTagLengthDelimited id))) in *.
  set (hd := WriteVarInt uint32_t _ ++ _) in *. rewrite zlen_app in Hsz. pose proof (zlen_nonneg hd).
  destruct (EndNested_of_Finalize m (fun n _ => Finalize_spec n) s pre body B) as (s1 & -> & Hok1 & HB1 & Hk1 & Hc1);
    [done..|lia|].
  destruct (WriteToStream_spec hd (size_field_ m) s1 pre body) as (s2 & -> & Hok2 & Hk2 & Hc2 & Hb2); [done..|lia|].
  destruct (WriteToStream_spec src (size_field_ m) s2 pre (body ++ hd)) as (s3 & -> & Hok3 & Hk3 & Hc3 & Hb3);
    [done..|rewrite zlen_app; lia|].
  eexists _, s3. split; [reflexivity|]. split; [done|]. split; [eauto using keeps_trans|]. split; [|done].
  rewrite Hb3, Hb2, HB1, (app_assoc body hd src). apply rep_plain. by rewrite Hc3, <- (app_assoc body).
Qed.

Lemma BeginNestedMessage_spec id m s pre body B : stream_ok s -> arena_ok B ->
  rep m (segs s) (blocks_ s) pre body B ->
  let tag := WriteVarInt uint32_t (MakeTagLengthDelimited id) in
  zlen body + zlen tag + kMessageLengthFieldSize <= kMaxMessageLength ->
  exists i off hole s', BeginNestedMessageInternal junk id m s =
      (mkMessage (zlen (body ++ tag) + kMessageLengthFieldSize) (size_field_ m) 0
         (Some (plain 0 (Some (i, off)))) false, s') /\
    zlen hole = kMessageLengthFieldSize /\ stream_ok s' /\ keeps s s' /\
    ptr_at (segs s') i off kMessageLengthFieldSize (zlen (pre ++ body ++ tag)) /\
    rep (plain 0 (Some (i, off))) (segs s') (blocks_ s') (pre ++ (body ++ tag) ++ hole) [] (NewMessage B).
Proof.
  intros Hok HB Hrep tag Hsz. pose proof (zlen_nonneg tag). unfold kMessageLengthFieldSize in Hsz.
  unfold BeginNestedMessageInternal. fold tag.
  destruct (EndNested_of_Finalize m (fun n _ => Finalize_spec n) s pre body B) as (s1 & -> & Hok1 & HB1 & Hk1 & Hc1);
    [done..|lia|].
  destruct (WriteToStream_spec tag (size_field_ m) s1 pre body) as (s2 & -> & Hok2 & Hk2 & Hc2 & Hb2); [done..|lia|].
  set (s3 := set_blocks (NewMessage (blocks_ s2)) s2).
  assert (Hok3 : stream_ok s3) by by destruct Hok2. assert (Hs3 : segs s3 = segs s2) by apply segs_set_blocks.
  destruct (ReserveBytes_spec s3 Hok3) as (i & off & s4 & hole & -> & Hhole & [Hok4 Hc4 Hk4 _ Hb4] & Hp).
  exists i, off, hole, s4. split; [|split; [done|split; [done|split; [|split]]]].
  - cbn [plain m_size_ size_field_ size_already_written_ finalized_]. f_equal. f_equal. unfold kMessageLengthFieldSize.
    pose proof (zlen_nonneg (body ++ tag)). destruct (size_word (zlen (body ++ tag) + 4)) as [_ ->]; [|done].
    rewrite zlen_app. rewrite zlen_app in *. lia.
  - eapply keeps_trans; [exact Hk1|]. eapply keeps_trans; [exact Hk2|]. unfold keeps. rewrite <- Hs3. exact Hk4.
  - rewrite Hs3, Hc2 in Hp. exact Hp.
  - cbn. rewrite Hb4, Hc4, Hs3, Hc2. cbn [s3 set_blocks blocks_]. rewrite Hb2, HB1, app_nil_r, <- !app_assoc. done.
Qed.

(** Field ids fit 32 bits and values are at most 64 bits wide; no message is
    longer than kMaxMessageLength (the sizes of the nested ones are smaller). *)
Definition call_ok (c : call) : Prop := zlen (encode_call c) <= kMaxMessageLength.

Lemma call_ind' (P : call -> Prop) :
  (forall T id v, P (CVarInt T id v)) -> (forall bits id v, P (CSignedVarInt bits id v)) ->
  (forall id v, P (CTinyVarInt id v)) -> (forall sz id v, P (CFixed sz id v)) -> (forall id src, P (CBytes id src)) ->
  (forall id body, Forall P body -> P (CNested id body)) -> forall c, P c.
Proof.
  intros H1 H2 H3 H4 H5 H6. fix IH 1. intros [| | | | |id body].
  1: apply H1. 1: apply H2. 1: apply H3. 1: apply H4. 1: apply H5.
  apply H6. induction body as [|c body IHb]; constructor; [apply IH|exact IHb].
Qed.

Lemma run_call_nested id body m s : run_call junk (CNested id body) m s =
  let '(m, s) := BeginNestedMessageInternal junk id m s in
  match nested_message_ m with
  | Some n => let '(n, s) := run_calls junk body n s in
              (mkMessage (m_size_ m) (size_field_ m) (size_already_written_ m) (Some n) (finalized_ m), s)
  | None => (m, s)
  end.
Proof. reflexivity. Qed.

Lemma appends_calls l : Forall (fun c => appends (run_call junk c) (encode_call c)) l ->
  appends (run_calls junk l) (encode_calls l).
Proof.
  induction 1 as [|c l Hc Hl IH]; intros m s pre body B Hok HB Hrep Hsz.
  - exists m, s. cbn. rewrite app_nil_r. split; [done|]. split; [done|]. split; [unfold keeps; auto|done].
  - change (encode_calls (c :: l)) with (encode_call c ++ encode_calls l) in *. rewrite zlen_app in Hsz.
    pose proof (zlen_nonneg (encode_calls l)).
    destruct (Hc m s pre body B) as (m1 & s1 & Heq & Hok1 & Hk1 & Hr1 & Hf1); [done..|lia|].
    cbn [run_calls]. rewrite Heq.
    destruct (IH m1 s1 pre (body ++ encode_call c) B) as (m2 & s2 & -> & Hok2 & Hk2 & Hr2 & Hf2); [done..|rewrite zlen_app; lia|].
    exists m2, s2. split; [done|]. split; [done|]. split; [by eapply keeps_trans|].
    rewrite app_assoc. split; [done|congruence].
Qed.

Lemma appends_call c : appends (run_call junk c) (encode_call c).
Proof.
  induction c as [T id v|bits id v|id v|sz id v|id src|id calls IH] using call_ind'; try apply appends_one.
  - intros m s pre body B Hok HB Hrep Hsz. cbn [encode_call run_call] in *. apply (appends_bytes id src); try done.
    rewrite !zlen_app in Hsz. pose proof (zlen_nonneg body). pose proof (zlen_nonneg (WriteVarInt uint32_t (MakeTagLengthDelimited id))).
    pose proof (zlen_nonneg (WriteVarInt uint32_t (zlen src))). lia.
  - intros m s pre body B Hok HB Hrep Hsz. rewrite run_call_nested. cbn [encode_call] in *.
    change (concat (map encode_call calls)) with (encode_calls calls) in *.
    set (tag := WriteVarInt uint32_t (MakeTagLengthDelimited id)) in *. set (cb := encode_calls calls) in *.
    rewrite !zlen_app in Hsz. pose proof (zlen_nonneg body). pose proof (zlen_nonneg tag). pose proof (zlen_nonneg cb).
    pose proof (zlen_nonneg (WriteRedundantVarInt (zlen cb) kMessageLengthFieldSize)).
    destruct (size_word (zlen cb)) as [Hw _]; [lia|]. rewrite (redundant_length _ Hw) in Hsz.
    destruct (BeginNestedMessage_spec id m s pre body B) as (i & off & hole & s1 & -> & Hhole & Hok1 & Hk1 & Hp & Hr1);
      [done..|fold tag; unfold kMessageLengthFieldSize in *; lia|]. fold tag in Hp, Hr1. fold tag. cbn [nested_message_].
    destruct (appends_calls calls IH _ _ _ _ _ Hok1 (arena_ok_new B HB) Hr1) as (n & s2 & -> & Hok2 & Hk2 & Hr2 & Hf2);
      [rewrite zlen_nil; unfold kMessageLengthFieldSize in *; fold cb; lia|]. cbn [app] in Hr2. fold cb in Hr2.
    eexists _, s2. split; [reflexivity|]. split; [done|]. split; [by eapply keeps_trans|]. split; [|done].
    cbn [rep m_size_ size_already_written_ finalized_]. split; [done|]. split; [done|].
    exists (body ++ tag), cb, hole, i, off. split; [exact Hf2|]. split; [done|].
    split; [by apply Hk2|]. split; [done|]. split; [by rewrite <- !app_assoc|done].
Qed.

(** A root message and its stream, ready to be filled. *)
Lemma fresh_rep s : concat (segs s) = [] -> blocks_ s = [0] -> rep Message_Reset (segs s) (blocks_ s) [] [] [0].
Proof. intros Hc Hb. cbn. by rewrite Hc, Hb. Qed.
Lemma arena_ok_init : arena_ok [0].
Proof. exists 0, []. split; [done|]. split; [constructor|]. unfold kCapacity. split; [lia|done]. Qed.

Lemma stream_ok_new i mx : kMessageLengthFieldSize <= i <= mx -> stream_ok (Stream_new i mx).
Proof. intros H. constructor; [done|done|by constructor|]. by left. Qed.

Lemma serialize_spec l s : stream_ok s -> concat (segs s) = [] -> blocks_ s = [0] ->
  zlen (encode_calls l) <= kMaxMessageLength ->
  let '(m, s1) := run_calls junk l Message_Reset s in
  let '(out, (m2, s2)) := SerializeAsArray m s1 in
  out = encode_calls l /\ m_size_ m2 = zlen (encode_calls l) /\ blocks_ s2 = [0] /\
  Forall (fun sl => kMessageLengthFieldSize <= slice_size sl) (slices_ s2) /\
  kMessageLengthFieldSize <= next_slice_size_ s2 <= maximum_slice_size_ s2 /\
  (forall b, cached_slice_ s2 = Some b -> kMessageLengthFieldSize <= zlen b).
Proof.
  intros Hok Hc Hb Hsz. pose proof (zlen_nonneg (encode_calls l)).
  assert (HA : appends (run_calls junk l) (encode_calls l)).
  { apply appends_calls. apply Forall_true. apply appends_call. }
  destruct (HA Message_Reset s [] [] [0] Hok arena_ok_init (fresh_rep s Hc Hb)) as (m & s1 & -> & Hok1 & _ & Hr & Hf);
    [rewrite zlen_nil; lia|]. cbn [app] in Hr. unfold SerializeAsArray.
  change (size_field_ Message_Reset) with (@None pointer) in Hf.
  assert (Hrd : field_ready m s1 []) by (unfold field_ready; by rewrite Hf).
  destruct (Finalize_spec m s1 [] (encode_calls l) [0] Hok1 arena_ok_init Hr Hsz Hrd)
    as (s2 & pre' & -> & Hok2 & HB2 & _ & Hc2 & Hbf).
  unfold backfilled in Hbf. rewrite Hf in Hbf. subst pre'. unfold StitchSlices, GetSlices.
  split; [exact Hc2|]. split; [done|]. pose proof (Adjust_same s2) as Ha. cbv zeta in Ha.
  destruct Ha as (-> & -> & -> & _ & _ & _ & _ & ->). split; [done|].
  destruct Hok2 as [Hn Hca Hs2 Hcur]. split; [|done]. destruct Hcur as [(Hnil & _)|(init & sl & Hs & _)].
  - unfold AdjustUsedSizeOfCurrentSlice. rewrite Hnil. simpl. by rewrite Hnil.
  - rewrite (Adjust_slices s2 init sl) by done. rewrite Hs in Hs2. apply Forall_app in Hs2 as [H1 H2].
    apply Forall_app. split; [done|]. apply Forall_singleton. exact (Forall_inv H2).
Qed.
End append.

(** ** Decoding what was written *)

(** The field a call denotes, for a decoder. *)
Definition call_field (c : call) : wire_field :=
  match c with
  | CVarInt T id v => (id, VVarInt (MaybeExtend T v))
  | CSignedVarInt bits id v => (id, VVarInt (MaybeExtend (IntType bits false) (ZigZagEncode bits v)))
  | CTinyVarInt id v => (id, VVarInt v)
  | CFixed sz id v => (id, if sz =? 8 then VFixed64 v else VFixed32 v)
  | CBytes id src => (id, VBytes src)
  | CNested id body => (id, VBytes (encode_calls body))
  end.
Definition call_id (c : call) : Z := (call_field c).1.
(** The values the C++ types allow, and a 16-bit field id. *)
Fixpoint call_wf (c : call) : Prop :=
  1 <= call_id c <= 65535 /\
  match c with
  | CVarInt T _ _ => int_type_ok T
  | CSignedVarInt bits _ _ => 8 <= bits <= 64
  | CTinyVarInt _ v => 0 <= v < 128
  | CFixed sz _ v => sz = 8 /\ word_ok 64 v \/ sz = 4 /\ word_ok 32 v
  | CBytes _ src => bytes_ok src
  | CNested _ body => foldr (fun c P => call_wf c /\ P) True body
  end.

Lemma numeral_u32 v : word_ok 32 v -> numeral (WriteVarInt uint32_t v) v.
Proof.
  intros Hv. pose proof (numeral_WriteVarInt uint32_t v int_type_ok_u32) as Hn.
  unfold MaybeExtend in Hn. simpl in Hn. unfold uw in Hn. rewrite Z.mod_small in Hn; [done|exact Hv].
Qed.

Lemma numeral_tag t id : 1 <= id <= 65535 ->
  numeral (WriteVarInt uint32_t (u32 (id .<< 3) .| wire_type_value t)) (wire_type_value t + id * 8).
Proof.
  intros Hid. rewrite tag_value by (change (2 ^ 29) with 536870912; lia). apply numeral_u32.
  assert (0 <= wire_type_value t < 8) by (destruct t; simpl; lia). unfold word_ok.
  change (2 ^ 32) with 4294967296. lia.
Qed.

Lemma numeral_small v : 0 <= v < 128 -> numeral [v] v.
Proof.
  intros Hv. split; [repeat constructor; lia|]. cbn [varint_shape varint_value]. destruct (Z.ltb_spec v 128); [|lia].
  split; [by rewrite bool_decide_eq_true_2|]. split; [rewrite zlen_cons, zlen_nil; lia|].
  rewrite Z.mod_small by lia. rewrite u64_small; lia.
Qed.

Lemma numeral_redundant v : 0 <= v <= kMaxMessageLength -> numeral (WriteRedundantVarInt v kMessageLengthFieldSize) v.
Proof.
  intros Hv. destruct (size_word v Hv) as [Hw _].
  destruct (WriteRedundantVarInt_spec v kMessageLengthFieldSize Hw) as (Hb & Hl & Hs); [done|].
  change kMaxMessageLength with 268435455 in Hv. unfold kMessageLengthFieldSize in *.
  destruct Hs as [Hs Hvv]; [change (2 ^ (7 * 4)) with 268435456; lia|].
  split; [done|]. split; [done|]. split; [lia|]. rewrite Hvv. apply u64_small. lia.
Qed.

Lemma encodes_call c : call_wf c -> zlen (encode_call c) <= kMaxMessageLength ->
  (forall id body, c = CNested id body -> bytes_ok (encode_calls body)) -> encodes (call_field c) (encode_call c).
Proof.
  intros Hwf Hsz Hb. destruct c as [T id v|bits id v|id v|sz id v|id src|id body]; destruct Hwf as [Hid Hc];
    (split; [exact Hid|]); unfold call_id in Hid; cbn [call_field fst snd] in *;
    [| | |destruct Hc as [[-> Hw]|[-> Hw]]| |]; eexists _, _.
  - split; [by apply (numeral_tag kVarInt)|]. split; [by apply numeral_WriteVarInt|done].
  - split; [by apply (numeral_tag kVarInt)|]. split; [by apply numeral_WriteVarInt|done].
  - split; [by apply (numeral_tag kVarInt)|]. split; [|done]. rewrite u8_small by lia. apply numeral_small; lia.
  - split; [by apply (numeral_tag kFixed64)|]. split; [split; [done|reflexivity]|done].
  - split; [by apply (numeral_tag kFixed32)|]. split; [split; [done|reflexivity]|done].
  - split; [by apply (numeral_tag kLengthDelimited)|]. split; [|done]. cbn [encode_call] in Hsz. rewrite !zlen_app in Hsz.
    pose proof (zlen_nonneg (WriteVarInt uint32_t (MakeTagLengthDelimited id))).
    pose proof (zlen_nonneg (WriteVarInt uint32_t (zlen src))). pose proof (zlen_nonneg src).
    split; [done|]. split; [lia|]. eexists. split; [|done]. apply numeral_u32, size_word. lia.
  - split; [by apply (numeral_tag kLengthDelimited)|]. split; [|done]. cbn [encode_call] in Hsz.
    change (concat (map encode_call body)) with (encode_calls body) in *. rewrite !zlen_app in Hsz.
    pose proof (zlen_nonneg (WriteVarInt uint32_t (MakeTagLengthDelimited id))).
    pose proof (zlen_nonneg (WriteRedundantVarInt (zlen (encode_calls body)) kMessageLengthFieldSize)).
    pose proof (zlen_nonneg (encode_calls body)). split; [by apply (Hb id)|]. split; [lia|].
    eexists. split; [|done]. apply numeral_redundant. lia.
Qed.

Lemma bytes_ok_tag id t : bytes_ok (WriteVarInt uint32_t (u32 (id .<< 3) .| wire_type_value t)).
Proof. apply (WriteVarInt_spec uint32_t _ int_type_ok_u32). Qed.

Lemma bytes_ok_encode_call c : call_wf c -> zlen (encode_call c) <= kMaxMessageLength -> bytes_ok (encode_call c).
Proof.
  induction c as [T id v|bits id v|id v|sz id v|id src|id body IH] using call_ind'; intros Hwf Hsz;
    try (eapply bytes_ok_encodes, encodes_call; [done|done|discriminate]).
  eapply bytes_ok_encodes, encodes_call; [done|done|]. intros id' body' [= <- <-].
  destruct Hwf as [_ Hwf]. cbn [encode_call] in Hsz. rewrite !zlen_app in Hsz.
  change (concat (map encode_call body)) with (encode_calls body) in *.
  pose proof (zlen_nonneg (WriteVarInt uint32_t (MakeTagLengthDelimited id))).
  pose proof (zlen_nonneg (WriteRedundantVarInt (zlen (encode_calls body)) kMessageLengthFieldSize)).
  assert (Hl : zlen (encode_calls body) <= kMaxMessageLength) by lia. clear Hsz H H0.
  unfold encode_calls in *. induction IH as [|c body Hc IH IHb]; [by constructor|].
  cbn [foldr map concat] in *. rewrite zlen_app in Hl. destruct Hwf as [Hw1 Hw2].
  pose proof (zlen_nonneg (encode_call c)). pose proof (zlen_nonneg (concat (map encode_call body))).
  apply bytes_ok_app. split; [apply Hc; [done|lia]|apply IHb; [done|lia]].
Qed.

Lemma zlen_encode_call_le l c : c ∈ l -> zlen (encode_call c) <= zlen (encode_calls l).
Proof.
  unfold encode_calls. induction 1 as [c l|c d l Hc IH]; cbn [map concat]; rewrite zlen_app.
  - pose proof (zlen_nonneg (concat (map encode_call l))). lia.
  - pose proof (zlen_nonneg (encode_call d)). lia.
Qed.

Lemma decode_calls l : Forall call_wf l -> zlen (encode_calls l) <= kMaxMessageLength ->
  map (view (encode_calls l)) (ReadAll (encode_calls l)) = map call_field l.
Proof.
  intros Hwf Hsz. apply ReadAll_enc.
  assert (Hle : forall c, c ∈ l -> call_wf c /\ zlen (encode_call c) <= kMaxMessageLength).
  { intros c Hc. pose proof (zlen_encode_call_le l c Hc). split; [by eapply Forall_forall|lia]. }
  clear Hwf Hsz. induction l as [|c l IH]; constructor.
  - destruct (Hle c) as [Hw Hs]; [by left|]. apply encodes_call; [done..|].
    intros id body ->. pose proof (bytes_ok_encode_call _ Hw Hs) as Hb. cbn [encode_call] in Hb.
    apply bytes_ok_app in Hb as [_ Hb]. by apply bytes_ok_app in Hb as [_ Hb].
  - apply IH. intros d Hd. apply Hle. by right.
Qed.

(** ** Packed repeated fields *)

(** PackedBufferBase: the storage (its length is the capacity; on the stack
    until it grows) and the offset of [write_ptr_]. *)
Record PackedBuffer := mkPackedBuffer { storage_ : list Z; pb_write_ptr_ : Z }.

Definition kMaxElementSize : Z := 10.
Definition kOnStackStorageSize : Z := 8192 - 32.

Section packed.
(** The byte that fresh memory holds. *)
Context (junk : Z).

Definition PackedBuffer_Reset : PackedBuffer := mkPackedBuffer (replicate (Z.to_nat kOnStackStorageSize) junk) 0.
Definition GrowSlowpath (b : PackedBuffer) : PackedBuffer :=
  let old_size := zlen (storage_ b) in
  let new_size := AlignUp 4096 (if old_size <? 65536 then old_size * 2 else (old_size * 3) `div` 2) in
  mkPackedBuffer (storage_ b ++ replicate (Z.to_nat (new_size - old_size)) junk) (pb_write_ptr_ b).
Definition GrowIfNeeded (b : PackedBuffer) : PackedBuffer :=
  if zlen (storage_ b) <? pb_write_ptr_ b + kMaxElementSize then GrowSlowpath b else b.
(** A store of [src] at [write_ptr_], which then moves past it; None if it would
    run past the end of the storage. *)
Definition packed_store (src : list Z) (b : PackedBuffer) : option PackedBuffer :=
  if zlen (storage_ b) <? pb_write_ptr_ b + zlen src then None
  else Some (mkPackedBuffer (zwrite (pb_write_ptr_ b) src (storage_ b)) (pb_write_ptr_ b + zlen src)).
Definition PackedVarInt_Append (T : int_type) (value : Z) (b : PackedBuffer) : option PackedBuffer :=
  packed_store (WriteVarInt T value) (GrowIfNeeded b).
Definition PackedFixedSizeInt_Append (sizeof_T value : Z) (b : PackedBuffer) : option PackedBuffer :=
  packed_store (le_bytes (Z.to_nat sizeof_T) value) (GrowIfNeeded b).
(** The [size()] bytes at [data()]. *)
Definition packed_data (b : PackedBuffer) : list Z := ztake (pb_write_ptr_ b) (storage_ b).

Definition packed_ok (b : PackedBuffer) : Prop :=
  0 <= pb_write_ptr_ b <= zlen (storage_ b) /\ kOnStackStorageSize <= zlen (storage_ b).

Lemma GrowIfNeeded_spec b : packed_ok b ->
  packed_ok (GrowIfNeeded b) /\ packed_data (GrowIfNeeded b) = packed_data b /\
  pb_write_ptr_ (GrowIfNeeded b) = pb_write_ptr_ b /\
  pb_write_ptr_ b + kMaxElementSize <= zlen (storage_ (GrowIfNeeded b)).
Proof.
  intros [Hw Hs]. unfold packed_ok, GrowIfNeeded, kOnStackStorageSize, kMaxElementSize in *.
  destruct (Z.ltb_spec (zlen (storage_ b)) (pb_write_ptr_ b + 10)); [|lia || by repeat split; lia].
  unfold GrowSlowpath, packed_data. cbn [storage_ pb_write_ptr_]. set (n := zlen (storage_ b)) in *.
  set (new := AlignUp 4096 _).
  assert (Hnew : n + 10 <= new).
  { unfold new. change 4096 with (2 ^ 12) at 1. rewrite AlignUp_spec by lia. change (2 ^ 12) with 4096.
    destruct (Z.ltb_spec n 65536).
    - pose proof (Z.div_mod (n * 2 + 4096 - 1) 4096). pose proof (Z.mod_pos_bound (n * 2 + 4096 - 1) 4096). lia.
    - set (k := (n * 3) `div` 2). assert (n + 10 <= k) by (apply Z.div_le_lower_bound; lia).
      pose proof (Z.div_mod (k + 4096 - 1) 4096). pose proof (Z.mod_pos_bound (k + 4096 - 1) 4096). lia. }
  assert (Hl : zlen (storage_ b ++ replicate (Z.to_nat (new - n)) junk) = new).
  { rewrite zlen_app. fold n. unfold zlen at 1. rewrite length_replicate. lia. }
  rewrite Hl. split; [lia|]. split; [apply ztake_app_le; fold n; lia|]. split; [done|lia].
Qed.

Lemma packed_store_spec src b : packed_ok b -> zlen src <= kMaxElementSize ->
  exists b', packed_store src (GrowIfNeeded b) = Some b' /\ packed_ok b' /\ packed_data b' = packed_data b ++ src.
Proof.
  intros Hok Hsrc. destruct (GrowIfNeeded_spec b Hok) as (Hok' & Hd & Hw & Hroom). pose proof (zlen_nonneg src).
  unfold packed_store. rewrite Hw in *. destruct (Z.ltb_spec (zlen (storage_ (GrowIfNeeded b))) (pb_write_ptr_ b + zlen src)); [lia|].
  eexists. split; [reflexivity|]. destruct Hok' as [Hw' Hs']. split.
  - unfold packed_ok. cbn [storage_ pb_write_ptr_]. rewrite zlen_zwrite by lia. lia.
  - rewrite <- Hd. unfold packed_data. cbn [storage_ pb_write_ptr_]. rewrite ztake_zwrite_end by lia. by rewrite Hw.
Qed.

Fixpoint append_all (f : Z -> PackedBuffer -> option PackedBuffer) (l : list Z) (b : PackedBuffer) : option PackedBuffer :=
  match l with
  | [] => Some b
  | v :: l => match f v b with Some b => append_all f l b | None => None end
  end.

Lemma append_all_spec f enc l b : packed_ok b ->
  (forall v b, f v b = packed_store (enc v) (GrowIfNeeded b)) -> (forall v, zlen (enc v) <= kMaxElementSize) ->
  exists b', append_all f l b = Some b' /\ packed_ok b' /\ packed_data b' = packed_data b ++ concat (map enc l).
Proof.
  intros Hok Hf Henc. revert b Hok. induction l as [|v l IH]; intros b Hok.
  - exists b. cbn. by rewrite app_nil_r.
  - cbn [append_all map concat]. rewrite Hf. destruct (packed_store_spec (enc v) b Hok) as (b1 & -> & Hok1 & Hd1); [auto|].
    destruct (IH b1 Hok1) as (b2 & -> & Hok2 & Hd2). exists b2. by rewrite Hd2, Hd1, app_assoc.
Qed.

Lemma packed_ok_Reset : packed_ok PackedBuffer_Reset /\ packed_data PackedBuffer_Reset = [].
Proof. split; [|done]. unfold packed_ok, PackedBuffer_Reset, zlen. cbn [storage_ pb_write_ptr_]. rewrite length_replicate. unfold kOnStackStorageSize. lia. Qed.
End packed.

(** PackedRepeatedFieldIterator over concatenated varints. *)
Lemma packed_next_varint T v rest cur0 : int_type_ok T -> in_type T v ->
  packed_next kVarInt T (mkPacked (WriteVarInt T v ++ rest) cur0 true false) = mkPacked rest v true false.
Proof.
  intros HT Hv. pose proof (numeral_WriteVarInt T v HT) as Hn. pose proof (numeral_pos _ _ Hn) as Hpos.
  unfold packed_next. cbn [curr_value_valid_ negb pk_read parse_error_].
  rewrite bool_decide_eq_false_2 by (intros H; apply app_eq_nil in H as [H _]; rewrite H, zlen_nil in Hpos; lia).
  destruct Hn as (Hb & Hs & Hl & Hval). rewrite ParseVarInt_shape by done. rewrite Hval.
  destruct (Z.eqb_spec (zlen (WriteVarInt T v)) 0); [lia|].
  rewrite zdrop_zlen_app, MaybeExtend_in_type by done. by rewrite to_type_u64.
Qed.

Lemma packed_collect_varints T vs v fuel : int_type_ok T -> Forall (in_type T) vs -> (length vs < fuel)%nat ->
  packed_collect (S fuel) kVarInt T (mkPacked (concat (map (WriteVarInt T) vs)) v true false) = (v :: vs, false).
Proof.
  intros HT Hvs. revert v fuel. induction Hvs as [|w vs Hw Hvs IH]; intros v fuel Hf.
  - cbn [packed_collect curr_value_valid_ map concat]. unfold packed_next at 1. cbn [curr_value_valid_ negb pk_read].
    rewrite bool_decide_eq_true_2 by done. destruct fuel; done.
  - cbn [packed_collect curr_value_valid_ map concat curr_value_]. rewrite packed_next_varint by done.
    destruct fuel as [|fuel]; [simpl in Hf; lia|]. rewrite IH by (simpl in Hf; lia). done.
Qed.

Lemma PackedValues_varints T vs : int_type_ok T -> Forall (in_type T) vs ->
  PackedValues kVarInt T (concat (map (WriteVarInt T) vs)) = (vs, false).
Proof.
  intros HT Hvs. unfold PackedValues, PackedRepeatedFieldIterator. destruct Hvs as [|v vs Hv Hvs]; [done|].
  set (buf := concat (map (WriteVarInt T) (v :: vs))).
  assert (Hlen : (length vs < length buf)%nat /\ zlen buf <> 0).
  { unfold buf. assert (H : forall l, (length l <= length (concat (map (WriteVarInt T) l)))%nat).
    { induction l as [|x l IH]; [done|]. cbn [map concat length]. rewrite length_app.
      pose proof (numeral_pos _ _ (numeral_WriteVarInt T x HT)). unfold zlen in *. lia. }
    specialize (H (v :: vs)). cbn [length] in H. unfold zlen. lia. }
  destruct (Z.eqb_spec (zlen buf) 0); [lia|]. unfold buf at 2. cbn [map concat].
  rewrite packed_next_varint by done. apply packed_collect_varints; [done..|]. lia.
Qed.

(** ** Properties *)

(** C1. The writer refines its specification: whatever the initial contents of the memory
    and the slice sizes (a slice has room for a length field), serializing a message
    filled by any sequence of calls, nested messages included, gives exactly the
    reference encoding; Finalize returns its size, and the arena is empty again. *)
Theorem HeapBuffered_serializes (junk initial maximum : Z) (l : list call) :
  kMessageLengthFieldSize <= initial <= maximum -> zlen (encode_calls l) <= kMaxMessageLength ->
  let '(m, s) := run_calls junk l Message_Reset (Stream_new initial maximum) in
  let '(out, (m', s')) := SerializeAsArray m s in
  out = encode_calls l /\ m_size_ m' = zlen out /\ blocks_ s' = [0].
Proof.
  intros Hi Hsz. pose proof (serialize_spec junk l (Stream_new initial maximum) (stream_ok_new _ _ Hi) eq_refl eq_refl Hsz) as H.
  destruct (run_calls _ _ _ _) as [m s]. destruct (SerializeAsArray m s) as [out [m' s']].
  destruct H as (-> & -> & -> & _). done.
Qed.

Lemma HeapBuffered_serializes_witness :
  let '(m, s) := run_calls 255 [CVarInt uint32_t 1 300; CNested 2 [CBytes 3 [7; 8; 9]; CNested 4 []]; CFixed 4 5 6]
                   Message_Reset (Stream_new 4 5) in
  (SerializeAsArray m s).1 =
    [8; 172; 2; 18; 138; 128; 128; 0; 26; 3; 7; 8; 9; 34; 128; 128; 128; 0; 45; 6; 0; 0; 0].
Proof.
  pose proof (HeapBuffered_serializes 255 4 5
    [CVarInt uint32_t 1 300; CNested 2 [CBytes 3 [7; 8; 9]; CNested 4 []]; CFixed 4 5 6]) as H.
  destruct (run_calls _ _ _ _) as [m s]. destruct (SerializeAsArray m s) as [out [m' s']]. cbn [fst].
  destruct H as [-> _]; [unfold kMessageLengthFieldSize; lia|vm_compute; discriminate|vm_compute; reflexivity].
Defined.

(** A HeapBuffered message can be reset and filled again: the second message
    reuses the first slice, whose old contents do not show. *)
Theorem HeapBuffered_reuse (junk initial maximum : Z) (l1 l2 : list call) :
  kMessageLengthFieldSize <= initial <= maximum ->
  zlen (encode_calls l1) <= kMaxMessageLength -> zlen (encode_calls l2) <= kMaxMessageLength ->
  let '(m, s) := run_calls junk l1 Message_Reset (Stream_new initial maximum) in
  let '(_, (_, s)) := SerializeAsArray m s in
  let '(m, s) := HeapBuffered_Reset s in
  let '(m, s) := run_calls junk l2 m s in
  (SerializeAsArray m s).1 = encode_calls l2.
Proof.
  intros Hi Hl1 Hl2.
  pose proof (serialize_spec junk l1 (Stream_new initial maximum) (stream_ok_new _ _ Hi) eq_refl eq_refl Hl1) as H.
  destruct (run_calls _ l1 _ _) as [m s]. destruct (SerializeAsArray m s) as [out [m' s']].
  destruct H as (_ & _ & Hb & Hsl & Hn & Hca). unfold HeapBuffered_Reset, HeapBuffer_Reset.
  set (s1 := Writer_Reset None _).
  assert (H1 : stream_ok (set_blocks (Arena_Reset (blocks_ s1)) s1) /\ segs (set_blocks (Arena_Reset (blocks_ s1)) s1) = []
    /\ Arena_Reset (blocks_ s1) = [0]).
  { unfold s1. destruct (slices_ s') as [|first rest] eqn:Es.
    - split; [|split; [|cbn; by rewrite Hb]]. 2: { rewrite segs_set_blocks. by apply segs_nil. }
      constructor; [done|done|cbn; rewrite Es; by constructor|by left].
    - split; [|split; [|cbn; by rewrite Hb]]. 2: { rewrite segs_set_blocks. by apply segs_nil. }
      constructor; [cbn; lia| |by constructor|by left]. cbn. intros b [= <-]. exact (Forall_inv Hsl). }
  destruct H1 as (Hok & Hs & Ha).
  pose proof (serialize_spec junk l2 _ Hok ltac:(by rewrite Hs) Ha Hl2) as H.
  destruct (run_calls _ l2 _ _) as [m2 s2]. destruct (SerializeAsArray m2 s2) as [out2 [m2' s2']]. apply H.
Qed.

Lemma HeapBuffered_reuse_witness :
  let '(m, s) := run_calls 255 [CBytes 1 [1; 2; 3; 4; 5; 6]] Message_Reset (Stream_new 4 8) in
  let '(_, (_, s)) := SerializeAsArray m s in
  let '(m, s) := HeapBuffered_Reset s in
  let '(m, s) := run_calls 255 [CTinyVarInt 2 9] m s in
  (SerializeAsArray m s).1 = [16; 9].
Proof.
  pose proof (HeapBuffered_reuse 255 4 8 [CBytes 1 [1; 2; 3; 4; 5; 6]] [CTinyVarInt 2 9]
    ltac:(unfold kMessageLengthFieldSize; lia) ltac:(vm_compute; discriminate) ltac:(vm_compute; discriminate)) as H.
  destruct (run_calls _ _ _ _) as [m s]. destruct (SerializeAsArray m s) as [out [m' s']].
  destruct (HeapBuffered_Reset s') as [m2 s2]. destruct (run_calls _ _ _ _) as [m3 s3]. exact H.
Defined.

(** C2. What is written is what a decoder reads: the fields ProtoDecoder reads from a
    serialized message are the fields of the calls, in order; a nested message is
    a length-delimited field whose payload is the encoding of its own calls, so the
    statement applies to it again. *)
Theorem HeapBuffered_decodes (junk initial maximum : Z) (l : list call) :
  kMessageLengthFieldSize <= initial <= maximum -> zlen (encode_calls l) <= kMaxMessageLength -> Forall call_wf l ->
  let '(m, s) := run_calls junk l Message_Reset (Stream_new initial maximum) in
  let out := (SerializeAsArray m s).1 in
  map (view out) (ReadAll out) = map call_field l.
Proof.
  intros Hi Hsz Hwf. pose proof (serialize_spec junk l (Stream_new initial maximum) (stream_ok_new _ _ Hi) eq_refl eq_refl Hsz) as H.
  destruct (run_calls _ _ _ _) as [m s]. destruct (SerializeAsArray m s) as [out [m' s']].
  destruct H as (-> & _). by apply decode_calls.
Qed.

Lemma HeapBuffered_decodes_witness :
  let '(m, s) := run_calls 0 [CSignedVarInt 32 1 (-3); CNested 2 [CTinyVarInt 3 1]] Message_Reset (Stream_new 4 4) in
  map (view (SerializeAsArray m s).1) (ReadAll (SerializeAsArray m s).1) = [(1, VVarInt 5); (2, VBytes [24; 1])].
Proof.
  apply (HeapBuffered_decodes 0 4 4 [CSignedVarInt 32 1 (-3); CNested 2 [CTinyVarInt 3 1]]).
  - unfold kMessageLengthFieldSize. lia.
  - vm_compute. discriminate.
  - apply Forall_cons; split; [cbn; lia|]. apply Forall_cons; split; [cbn; lia|]. constructor.
Defined.

(** Packed fields: appending any number of integers to a PackedVarInt never writes
    past its storage (which grows as needed), data() is the concatenation of the
    encodings, and PackedRepeatedFieldIterator reads the integers back. *)
Theorem PackedVarInt_roundtrip (junk : Z) (T : int_type) (vs : list Z) : int_type_ok T -> Forall (in_type T) vs ->
  exists b, append_all (PackedVarInt_Append junk T) vs (PackedBuffer_Reset junk) = Some b /\
    packed_data b = concat (map (WriteVarInt T) vs) /\ PackedValues kVarInt T (packed_data b) = (vs, false).
Proof.
  intros HT Hvs. destruct (packed_ok_Reset junk) as [Hok Hd].
  destruct (append_all_spec junk (PackedVarInt_Append junk T) (WriteVarInt T) vs (PackedBuffer_Reset junk) Hok)
    as (b & Hb & _ & Hdata); [done|intros v; apply (WriteVarInt_spec T v HT)|].
  exists b. rewrite Hdata, Hd. split; [done|]. split; [done|]. by apply PackedValues_varints.
Qed.

Lemma PackedVarInt_roundtrip_witness : exists b,
  append_all (PackedVarInt_Append 0 int32_t) [5; -1] (PackedBuffer_Reset 0) = Some b /\
  PackedValues kVarInt int32_t (packed_data b) = ([5; -1], false).
Proof.
  destruct (PackedVarInt_roundtrip 0 int32_t [5; -1]) as (b & H1 & _ & H2).
  - unfold int_type_ok. simpl. lia.
  - repeat constructor; simpl; lia.
  - exists b. split; [exact H1|exact H2].
Defined.

(** The fixed stack buffers of the Append methods are large enough: every tag
    takes at most kMaxTagEncodedSize bytes, and a tag followed by a value or a length
    at most kMaxSimpleFieldEncodedSize. *)
Theorem append_stack_buffers_suffice (T : int_type) (t : ProtoWireType) (id v sz : Z) :
  int_type_ok T -> sz = 4 \/ sz = 8 ->
  let tag := WriteVarInt uint32_t (u32 (id .<< 3) .| wire_type_value t) in
  zlen tag <= kMaxTagEncodedSize /\
  zlen (tag ++ WriteVarInt T v) <= kMaxSimpleFieldEncodedSize /\
  zlen (tag ++ le_bytes (Z.to_nat sz) v) <= kMaxSimpleFieldEncodedSize.
Proof.
  intros HT Hsz tag. unfold kMaxSimpleFieldEncodedSize.
  assert (Htag : zlen tag <= kMaxTagEncodedSize).
  { apply (WriteVarInt_size _ _ 5); [apply int_type_ok_u32| |lia]. unfold MaybeExtend. simpl.
    pose proof (uw_range 32 (u32 (id .<< 3) .| wire_type_value t)). 
    change (2 ^ 32) with 4294967296 in *. change (2 ^ (7 * 5)) with 34359738368. lia. }
  pose proof (proj2 (proj2 (proj2 (WriteVarInt_spec T v HT)))). rewrite !zlen_app, zlen_le_bytes.
  split; [done|]. split; [lia|]. destruct Hsz as [-> | ->]; simpl; lia.
Qed.

Lemma append_stack_buffers_suffice_witness :
  zlen (WriteVarInt uint32_t (u32 (4294967295 .<< 3) .| wire_type_value kVarInt) ++ WriteVarInt int64_t (-1))
    <= kMaxSimpleFieldEncodedSize.
Proof.
  apply (append_stack_buffers_suffice int64_t kVarInt 4294967295 (-1) 4).
  - unfold int_type_ok. simpl. lia.
  - left. reflexivity.
Defined.
