(* ===== verification/ProtoRingBuffer.v ===== *)
(** * Reassembling length-delimited messages from a byte stream
    (src/protozero/proto_ring_buffer.cc, proto_ring_buffer.h)

    The receiver appends chunks of a stream, cut anywhere, and after each one reads
    messages until none is complete.  The theorems: the messages delivered are those
    of the whole stream, whatever the cuts, as long as the pending data fits the
    buffer; a framing error is permanent; no fatal check can fail. *)

From S2P Require Import Prelude ProtoUtils ProtoDecoder.

(** ** Messages.  A pointer is the memory it points into and an offset; nullptr is
    None. *)

Record RingMessage := mkMsg { start : option (list Z * Z); len : Z; field_id : Z; fatal_framing_error : bool }.
Definition Message0 : RingMessage := mkMsg None 0 0 false.
Definition msg_valid (m : RingMessage) : bool := match start m with Some _ => true | None => false end.
(** The offset of end(), for a valid message. *)
Definition msg_end (m : RingMessage) : Z := match start m with Some (_, off) => off + len m | None => len m end.
(** What the client reads through the message. *)
Definition payload (m : RingMessage) : list Z := match start m with Some (mem, off) => zread off (len m) mem | None => [] end.

Definition kGrowBytes : Z := 128 * 1024.
Definition kMaxMsgSize : Z := 64 * 1024 * 1024.
Definition FramingError : RingMessage := mkMsg None 0 0 true.

(** [mem] is the range [start, end). *)
Definition TryReadProtoMessage (mem : list Z) : RingMessage :=
  let '(start_of_len, field_tag) := ParseVarInt mem in
  if start_of_len =? 0 then Message0
  else
    let tag := u32 (field_tag .& 7) in
    if negb (tag =? wire_type_value kLengthDelimited) then FramingError
    else
      let '(n, msg_len) := ParseVarInt (zdrop start_of_len mem) in
      let start_of_msg := start_of_len + n in
      if start_of_msg =? start_of_len then Message0
      else if kMaxMsgSize <? msg_len then FramingError
      else if zlen mem <? start_of_msg + msg_len then Message0
      else mkMsg (Some (mem, start_of_msg)) (u32 msg_len) (u32 (field_tag .>> 3)) false.

(** ** The reader *)

Record Reader := mkReader { buf_ : list Z; fastpath_ : RingMessage; failed_ : bool; rd_ : Z; wr_ : Z }.

Definition RingBufferMessageReader : Reader := mkReader (zeros kGrowBytes) Message0 false 0 0.
Definition capacity (r : Reader) : Z := zlen (buf_ r).
Definition avail (r : Reader) : Z := zlen (buf_ r) - (wr_ r - rd_ r).

(** [while (data_len > new_size - wr_) new_size += kGrowBytes]. *)
Fixpoint grow_loop (fuel : nat) (data_len wr new_size : Z) : Z :=
  match fuel with
  | O => new_size
  | S fuel' => if new_size - wr <? data_len then grow_loop fuel' data_len wr (new_size + kGrowBytes) else new_size
  end.
Definition grow_size (data_len wr size : Z) : Z :=
  grow_loop (Z.to_nat ((data_len + wr) `div` kGrowBytes + 2)) data_len wr size.

(** The compaction and the expansion; the flag is failed_. *)
Definition make_room (data_len : Z) (r : Reader) : Reader :=
  if zlen (buf_ r) - wr_ r <? data_len then
    let buf := zwrite 0 (zread (rd_ r) (wr_ r - rd_ r) (buf_ r)) (buf_ r) in
    let wr := wr_ r - rd_ r in
    if zlen buf - wr <? data_len then
      let new_size := grow_size data_len wr (zlen buf) in
      if kMaxMsgSize * 2 <? new_size then mkReader buf (fastpath_ r) true 0 wr
      else mkReader (buf ++ zeros (new_size - zlen buf)) (fastpath_ r) (failed_ r) 0 wr
    else mkReader buf (fastpath_ r) (failed_ r) 0 wr
  else r.

Definition Append (data : list Z) (r : Reader) : outcome Reader :=
  if failed_ r then Ok r
  else
    let r := if rd_ r =? wr_ r then mkReader (buf_ r) (fastpath_ r) (failed_ r) 0 0 else r in
    check! negb (msg_valid (fastpath_ r)) in
    let msg := TryReadProtoMessage data in
    if (rd_ r =? wr_ r) && msg_valid msg && (msg_end msg =? zlen data) then
      Ok (mkReader (buf_ r) msg (failed_ r) (rd_ r) (wr_ r))
    else
      let r := make_room (zlen data) r in
      if failed_ r then Ok r
      else Ok (mkReader (zwrite (wr_ r) data (buf_ r)) (fastpath_ r) (failed_ r) (rd_ r) (wr_ r + zlen data)).

Definition ReadMessage (r : Reader) : outcome (RingMessage * Reader) :=
  if failed_ r then Ok (FramingError, r)
  else if msg_valid (fastpath_ r) then
    check! rd_ r =? wr_ r in
    Ok (fastpath_ r, mkReader (buf_ r) Message0 (failed_ r) (rd_ r) (wr_ r))
  else if wr_ r <=? rd_ r then Ok (Message0, r)
  else
    let msg := TryReadProtoMessage (zread (rd_ r) (wr_ r - rd_ r) (buf_ r)) in
    if negb (msg_valid msg) then
      Ok (msg, mkReader (buf_ r) (fastpath_ r) (failed_ r || fatal_framing_error msg) (rd_ r) (wr_ r))
    else
      let end_ := rd_ r + msg_end msg in
      check! (rd_ r <? end_) && (end_ <=? wr_ r) in
      Ok (msg, mkReader (buf_ r) (fastpath_ r) (failed_ r) (rd_ r + (end_ - rd_ r)) (wr_ r)).

(** The loop of the client: (field id, payload) of each message, until ReadMessage
    returns an invalid one. *)
Fixpoint read_loop (fuel : nat) (r : Reader) : outcome (list (Z * list Z) * Reader) :=
  match fuel with
  | O => Ok ([], r)
  | S fuel' =>
      let! (msg, r) := ReadMessage r in
      if msg_valid msg then
        let! (l, r) := read_loop fuel' r in Ok ((field_id msg, payload msg) :: l, r)
      else Ok ([], r)
  end.
Definition feed (data : list Z) (r : Reader) : outcome (list (Z * list Z) * Reader) :=
  let! r := Append data r in read_loop (S (S (Z.to_nat (wr_ r - rd_ r)))) r.
Fixpoint feed_all (chunks : list (list Z)) (r : Reader) : outcome (list (Z * list Z) * Reader) :=
  match chunks with
  | [] => Ok ([], r)
  | c :: cs =>
      let! (l, r) := feed c r in
      let! (k, r) := feed_all cs r in Ok (l ++ k, r)
  end.

(** ** Specification: the messages of a whole stream *)

Inductive verdict : Type := Pending (rest : list Z) | Failed.

Fixpoint parse_loop (fuel : nat) (s : list Z) : list (Z * list Z) * verdict :=
  match fuel with
  | O => ([], Pending s)
  | S fuel' =>
      let m := TryReadProtoMessage s in
      if msg_valid m then
        let '(l, v) := parse_loop fuel' (zdrop (msg_end m) s) in ((field_id m, payload m) :: l, v)
      else ([], if fatal_framing_error m then Failed else Pending s)
  end.
Definition parse_stream (s : list Z) : list (Z * list Z) * verdict := parse_loop (S (length s)) s.

(** The stream of chunks so far leaves [v]; each chunk fits next to what is pending. *)
Fixpoint chunks_fit (chunks : list (list Z)) (v : verdict) : Prop :=
  match chunks, v with
  | c :: cs, Pending rest =>
      zlen rest + zlen c <= 2 * kMaxMsgSize - kGrowBytes /\ chunks_fit cs (parse_stream (rest ++ c)).2
  | _, _ => True
  end.

(** The reader holds exactly the pending bytes. *)
Definition holds (r : Reader) (v : verdict) : Prop :=
  match v with
  | Failed => failed_ r = true
  | Pending rest =>
      failed_ r = false /\ fastpath_ r = Message0 /\ 0 <= rd_ r <= wr_ r /\ wr_ r <= zlen (buf_ r) /\
      zread (rd_ r) (wr_ r - rd_ r) (buf_ r) = rest /\ zlen (buf_ r) <= 2 * kMaxMsgSize
  end.

(** ** Parsing one message *)

(** A valid message: a header of at least two bytes and a payload inside the
    buffer.  Reading from a longer buffer gives the same message. *)
Lemma TryRead_valid s : bytes_ok s -> msg_valid (TryReadProtoMessage s) = true ->
  let m := TryReadProtoMessage s in
  exists off, m = mkMsg (Some (s, off)) (len m) (field_id m) false /\ 2 <= off /\ 0 <= len m /\ off + len m <= zlen s /\
    forall t, bytes_ok t -> TryReadProtoMessage (s ++ t) = mkMsg (Some (s ++ t, off)) (len m) (field_id m) false.
Proof.
  intros Hb. unfold TryReadProtoMessage at 1 2. cbv zeta.
  pose proof (ParseVarInt_bound s Hb) as H1. pose proof (ParseVarInt_ext s) as X1.
  unfold TryReadProtoMessage. destruct (ParseVarInt s) as [n1 v1] eqn:E1. cbn [fst] in *.
  destruct (Z.eqb_spec n1 0); [done|]. destruct (negb _) eqn:Etag; [done|].
  pose proof (ParseVarInt_bound (zdrop n1 s) ltac:(auto with bytes)) as H2. rewrite zlen_zdrop in H2 by lia.
  pose proof (ParseVarInt_ext (zdrop n1 s)) as X2.
  pose proof (ParseVarInt_word (zdrop n1 s) ltac:(auto with bytes)) as W2.
  destruct (ParseVarInt (zdrop n1 s)) as [n2 v2] eqn:E2. cbn [fst snd] in *.
  destruct (Z.eqb_spec (n1 + n2) n1); [done|]. destruct (Z.ltb_spec kMaxMsgSize v2) as [|Hmax]; [done|].
  destruct (Z.ltb_spec (zlen s) (n1 + n2 + v2)); [done|]. intros _. cbn [len field_id]. destruct W2 as [W2 _].
  change kMaxMsgSize with 67108864 in Hmax. rewrite (u32_small v2) by lia.
  exists (n1 + n2). split; [done|]. split; [lia|]. split; [lia|]. split; [lia|]. intros t Ht.
  rewrite X1 by (done || lia). destruct (Z.eqb_spec n1 0); [done|]. rewrite Etag.
  rewrite zdrop_app_le by lia. rewrite X2 by (auto with bytes; lia).
  destruct (Z.eqb_spec (n1 + n2) n1); [done|]. destruct (Z.ltb_spec kMaxMsgSize v2) as [Hc|]; [change kMaxMsgSize with 67108864 in Hc; lia|].
  rewrite zlen_app. pose proof (zlen_nonneg t). destruct (Z.ltb_spec (zlen s + zlen t) (n1 + n2 + v2)); [lia|].
  by rewrite u32_small by lia.
Qed.

(** A framing error does not go away. *)
Lemma TryRead_fatal s t : bytes_ok s -> bytes_ok t -> fatal_framing_error (TryReadProtoMessage s) = true ->
  TryReadProtoMessage s = FramingError /\ TryReadProtoMessage (s ++ t) = FramingError.
Proof.
  intros Hb Ht. unfold TryReadProtoMessage.
  pose proof (ParseVarInt_bound s Hb) as H1. pose proof (ParseVarInt_ext s t Hb Ht) as X1.
  destruct (ParseVarInt s) as [n1 v1] eqn:E1. cbn [fst] in *.
  destruct (Z.eqb_spec n1 0); [done|]. rewrite X1 by lia. destruct (Z.eqb_spec n1 0); [done|].
  destruct (negb _) eqn:Etag; [done|]. rewrite zdrop_app_le by lia.
  pose proof (ParseVarInt_bound (zdrop n1 s) ltac:(auto with bytes)) as H2.
  pose proof (ParseVarInt_ext (zdrop n1 s) t ltac:(auto with bytes) Ht) as X2.
  destruct (ParseVarInt (zdrop n1 s)) as [n2 v2] eqn:E2. cbn [fst] in *.
  destruct (Z.eqb_spec (n1 + n2) n1); [done|]. rewrite X2 by lia. destruct (Z.eqb_spec (n1 + n2) n1); [done|].
  destruct (Z.ltb_spec kMaxMsgSize v2); [done|]. by destruct (zlen s <? n1 + n2 + v2).
Qed.

(** ** Parsing a stream *)

Lemma bytes_ok_zdrop_end n s : bytes_ok s -> bytes_ok (zdrop n s). Proof. auto with bytes. Qed.

Lemma parse_loop_fuel n m s : bytes_ok s -> (length s < n)%nat -> (length s < m)%nat -> parse_loop n s = parse_loop m s.
Proof.
  revert m s. induction n as [|n IH]; intros m s Hb Hn Hm; [lia|]. destruct m as [|m]; [lia|].
  cbn [parse_loop]. destruct (msg_valid _) eqn:Ev; [|done].
  destruct (TryRead_valid s Hb Ev) as (off & Hm' & Hoff & Hl & Hfit & _). rewrite Hm'. cbn [msg_end start len].
  set (e := off + _) in *. rewrite (IH m (zdrop e s)); [done|auto with bytes|..];
    unfold zdrop, zlen in *; rewrite length_drop; lia.
Qed.

Lemma parse_stream_step s : bytes_ok s -> parse_stream s =
  let m := TryReadProtoMessage s in
  if msg_valid m then let '(l, v) := parse_stream (zdrop (msg_end m) s) in ((field_id m, payload m) :: l, v)
  else ([], if fatal_framing_error m then Failed else Pending s).
Proof.
  intros Hb. unfold parse_stream at 1. cbn [parse_loop]. destruct (msg_valid _) eqn:Ev; [|done].
  destruct (TryRead_valid s Hb Ev) as (off & Hm' & Hoff & Hl & Hfit & _). cbv zeta. rewrite Hm'. cbn [msg_end start len].
  set (e := off + _) in *. unfold parse_stream.
  rewrite (parse_loop_fuel (length s) (S (length (zdrop e s)))); [done|auto with bytes|..];
    unfold zdrop, zlen in *; rewrite length_drop; lia.
Qed.

(** Cutting the stream anywhere: parse what is there, keep the rest. *)
Lemma parse_stream_app a b : bytes_ok a -> bytes_ok b -> parse_stream (a ++ b) =
  let '(l, v) := parse_stream a in
  match v with
  | Failed => (l, Failed)
  | Pending rest => let '(k, w) := parse_stream (rest ++ b) in (l ++ k, w)
  end.
Proof.
  intros Ha Hb. remember (length a) as n eqn:En. revert a Ha En. induction (lt_wf n) as [n _ IH]. intros a Ha ->.
  rewrite (parse_stream_step a Ha). cbv zeta. destruct (msg_valid (TryReadProtoMessage a)) eqn:Ev.
  - destruct (TryRead_valid a Ha Ev) as (off & Hm' & Hoff & Hl & Hfit & Hext).
    set (m := TryReadProtoMessage a) in *. rewrite parse_stream_step by (by apply bytes_ok_app). cbv zeta.
    rewrite Hext by done. cbn [msg_valid start msg_end len field_id]. rewrite zdrop_app_le by lia.
    rewrite Hm'. cbn [msg_end start len field_id].
    erewrite (IH (length (zdrop (off + len m) a))); [|unfold zdrop, zlen in *; rewrite length_drop; lia|auto with bytes|done].
    destruct (parse_stream (zdrop (off + len m) a)) as [l [rest|]].
    + destruct (parse_stream (rest ++ b)) as [k w]. cbn [app]. do 3 f_equal.
      unfold payload. cbn [start len]. apply zread_app_le; lia.
    + do 3 f_equal. unfold payload. cbn [start len]. apply zread_app_le; lia.
  - destruct (fatal_framing_error (TryReadProtoMessage a)) eqn:Ef.
    + destruct (TryRead_fatal a b Ha Hb Ef) as [_ Hext]. rewrite parse_stream_step by (by apply bytes_ok_app). by rewrite Hext.
    + by destruct (parse_stream (a ++ b)).
Qed.

Lemma parse_stream_rest s rest : bytes_ok s -> (parse_stream s).2 = Pending rest -> bytes_ok rest /\ zlen rest <= zlen s.
Proof.
  remember (length s) as n eqn:En. revert s En. induction (lt_wf n) as [n _ IH]. intros s -> Hs.
  rewrite (parse_stream_step s Hs). cbv zeta. destruct (msg_valid _) eqn:Ev.
  - destruct (TryRead_valid s Hs Ev) as (off & Hm' & Hoff & Hl & Hfit & Hext). rewrite Hm'. cbn [msg_end start len].
    set (e := off + _) in *. destruct (parse_stream (zdrop e s)) as [l v] eqn:E. intros [= ->].
    destruct (IH (length (zdrop e s))) with (s := zdrop e s) as [H1 H2]; [unfold zdrop, zlen in *; rewrite length_drop; lia|done|auto with bytes|by rewrite E|].
    split; [done|]. rewrite zlen_zdrop in H2 by lia. lia.
  - cbn [snd]. destruct (fatal_framing_error _); [done|]. intros [= <-]. split; [done|lia].
Qed.

(** What is left has no complete message. *)
Lemma parse_stream_idem s l rest : bytes_ok s -> parse_stream s = (l, Pending rest) -> parse_stream rest = ([], Pending rest).
Proof.
  remember (length s) as n eqn:En. revert s En l. induction (lt_wf n) as [n _ IH]. intros s -> l Hs.
  rewrite (parse_stream_step s Hs). cbv zeta. destruct (msg_valid _) eqn:Ev.
  - destruct (TryRead_valid s Hs Ev) as (off & Hm' & Hoff & Hl & Hfit & Hext). rewrite Hm'. cbn [msg_end start len].
    set (e := off + _) in *. destruct (parse_stream (zdrop e s)) as [k v] eqn:E. intros [= <- ->].
    eapply (IH (length (zdrop e s))); [|done| |exact E].
    + unfold zdrop, zlen in *; rewrite length_drop; lia.
    + auto with bytes.
  - destruct (fatal_framing_error _) eqn:Ef; [done|]. intros [= <- <-]. rewrite (parse_stream_step s Hs). cbv zeta. by rewrite Ev, Ef.
Qed.

(** ** The buffer *)

Lemma grow_loop_spec fuel dl wr size : dl + wr - size <= Z.of_nat fuel * kGrowBytes ->
  let n := grow_loop fuel dl wr size in
  size <= n /\ dl <= n - wr /\ (n = size \/ n < dl + wr + kGrowBytes).
Proof.
  revert size. unfold kGrowBytes. induction fuel as [|fuel IH]; intros size Hf; cbn [grow_loop]; [lia|].
  destruct (Z.ltb_spec (size - wr) dl); [|lia]. unfold kGrowBytes.
  specialize (IH (size + 128 * 1024) ltac:(lia)). cbv zeta in IH. lia.
Qed.

Lemma grow_size_spec dl wr size : 0 <= dl -> 0 <= wr -> 0 <= size ->
  let n := grow_size dl wr size in
  size <= n /\ dl <= n - wr /\ (n = size \/ n < dl + wr + kGrowBytes).
Proof.
  intros. apply grow_loop_spec. rewrite Z2Nat.id.
  - pose proof (Z.div_mod (dl + wr) kGrowBytes). pose proof (Z.mod_pos_bound (dl + wr) kGrowBytes).
    unfold kGrowBytes in *. lia.
  - pose proof (Z.div_pos (dl + wr) kGrowBytes). unfold kGrowBytes in *. lia.
Qed.

Lemma make_room_spec dl r rest : holds r (Pending rest) -> 0 <= dl -> zlen rest + dl <= 2 * kMaxMsgSize - kGrowBytes ->
  let r' := make_room dl r in holds r' (Pending rest) /\ wr_ r' + dl <= zlen (buf_ r').
Proof.
  intros Hh Hdl Hfit. pose proof Hh as (Hf & Hfp & Hrd & Hwr & Hrest & Hsz). unfold make_room.
  destruct (Z.ltb_spec (zlen (buf_ r) - wr_ r) dl); [|split; [exact Hh|lia]].
  assert (Hlr : zlen rest = wr_ r - rd_ r) by (rewrite <- Hrest; apply zlen_zread; lia).
  rewrite Hrest. set (buf := zwrite 0 rest (buf_ r)).
  assert (Hb : zlen buf = zlen (buf_ r)) by (apply zlen_zwrite; lia).
  assert (Hrd0 : zread 0 (wr_ r - rd_ r) buf = rest) by (apply zread_zwrite_eq; lia).
  rewrite Hb. destruct (Z.ltb_spec (zlen (buf_ r) - (wr_ r - rd_ r)) dl).
  - destruct (grow_size_spec dl (wr_ r - rd_ r) (zlen (buf_ r))) as (G1 & G2 & G3); [lia..|].
    set (n := grow_size _ _ _) in *. unfold kGrowBytes in *.
    destruct (Z.ltb_spec (kMaxMsgSize * 2) n); [lia|]. unfold holds. cbn [failed_ fastpath_ rd_ wr_ buf_].
    assert (Hn : zlen (buf ++ zeros (n - zlen (buf_ r))) = n) by (rewrite zlen_app, zlen_zeros, Hb by lia; lia).
    rewrite Hn, Z.sub_0_r, zread_app_le by lia. repeat split; (done || lia).
  - unfold holds. cbn [failed_ fastpath_ rd_ wr_ buf_]. rewrite Hb, Z.sub_0_r. repeat split; (done || lia).
Qed.

(** What Append leaves in the reader: the pending bytes, or the message that was
    handed over directly. *)
Lemma Append_spec c r rest : holds r (Pending rest) -> bytes_ok c -> zlen rest + zlen c <= 2 * kMaxMsgSize - kGrowBytes ->
  exists r', Append c r = Ok r' /\
    (holds r' (Pending (rest ++ c)) \/
     rest = [] /\ rd_ r' = wr_ r' /\ failed_ r' = false /\ fastpath_ r' = TryReadProtoMessage c /\
     msg_valid (TryReadProtoMessage c) = true /\ msg_end (TryReadProtoMessage c) = zlen c /\
     holds (mkReader (buf_ r') Message0 false (rd_ r') (wr_ r')) (Pending [])).
Proof.
  intros Hh Hb Hfit. pose proof Hh as (Hf & Hfp & Hrd & Hwr & Hrest & Hsz). unfold Append. rewrite Hf.
  set (r1 := if rd_ r =? wr_ r then _ else r).
  assert (Hh1 : holds r1 (Pending rest) /\ ((rd_ r1 =? wr_ r1) = true -> rest = [])).
  { unfold r1. destruct (Z.eqb_spec (rd_ r) (wr_ r)) as [He|He].
    - assert (rest = []) as -> by (rewrite <- Hrest, He, Z.sub_diag; done).
      split; [|done]. unfold holds. cbn [failed_ fastpath_ rd_ wr_ buf_]. repeat split; (done || lia).
    - split; [done|]. intros Hc. bool_facts. done. }
  destruct Hh1 as [Hh1 He1]. pose proof Hh1 as (Hf1 & Hfp1 & Hrd1 & Hwr1 & Hrest1 & Hsz1).
  rewrite Hfp1. cbn [msg_valid start Message0 negb perfetto_check obind].
  destruct (_ && _) eqn:Efast.
  - apply andb_true_iff in Efast as [Efast Eend]. apply andb_true_iff in Efast as [Eeq Eval]. apply Z.eqb_eq in Eend.
    specialize (He1 Eeq). rewrite He1 in Hrest1. apply Z.eqb_eq in Eeq. eexists. split; [reflexivity|]. right.
    cbn [failed_ fastpath_ rd_ wr_ buf_]. rewrite Hf1. do 6 (split; [done|]).
    split; [done|]. split; [done|]. split; [exact Hrd1|]. split; [exact Hwr1|]. split; [exact Hrest1|exact Hsz1].
  - destruct (make_room_spec (zlen c) r1 rest Hh1) as [Hh2 Hroom]; [apply zlen_nonneg|done|].
    set (r2 := make_room (zlen c) r1) in *. pose proof Hh2 as (Hf2 & Hfp2 & Hrd2 & Hwr2 & Hrest2 & Hsz2). rewrite Hf2.
    eexists. split; [reflexivity|]. left. unfold holds. cbn [failed_ fastpath_ rd_ wr_ buf_].
    pose proof (zlen_nonneg c). rewrite zlen_zwrite by lia. do 4 (split; [done || lia|]). split; [|done].
    replace (wr_ r2 + zlen c - rd_ r2) with ((wr_ r2 - rd_ r2) + zlen c) by lia. rewrite zread_split by lia.
    rewrite zread_zwrite_ne by lia. rewrite Hrest2. f_equal.
    replace (rd_ r2 + (wr_ r2 - rd_ r2)) with (wr_ r2) by lia. apply zread_zwrite_eq; lia.
Qed.

(** The reading loop delivers the complete messages of the pending bytes. *)
Lemma read_loop_spec fuel r rest : holds r (Pending rest) -> bytes_ok rest -> (length rest < fuel)%nat ->
  exists r', read_loop fuel r = Ok ((parse_stream rest).1, r') /\ holds r' (parse_stream rest).2.
Proof.
  revert r rest. induction fuel as [|fuel IH]; intros r rest Hh Hb Hf; [lia|].
  pose proof Hh as (Hfl & Hfp & Hrd & Hwr & Hrest & Hsz). cbn [read_loop]. unfold ReadMessage. rewrite Hfl, Hfp.
  cbn [msg_valid start Message0]. assert (Hlr : zlen rest = wr_ r - rd_ r) by (rewrite <- Hrest; apply zlen_zread; lia).
  destruct (Z.leb_spec (wr_ r) (rd_ r)).
  - destruct rest as [|x rest]; [|rewrite zlen_cons in Hlr; pose proof (zlen_nonneg rest); lia].
    exists r. cbn. done.
  - rewrite Hrest. rewrite parse_stream_step by done. cbv zeta. destruct (msg_valid (TryReadProtoMessage rest)) eqn:Ev; cbn [negb].
    + destruct (TryRead_valid rest Hb Ev) as (off & Hm' & Hoff & Hl & Hend & _). set (m := TryReadProtoMessage rest) in *.
      assert (He : msg_end m = off + len m) by (by rewrite Hm').
      destruct (Z.ltb_spec (rd_ r) (rd_ r + msg_end m)); [|lia]. destruct (Z.leb_spec (rd_ r + msg_end m) (wr_ r)); [|lia].
      cbn [andb perfetto_check obind]. rewrite Ev.
      set (r1 := mkReader _ _ _ _ _).
      destruct (IH r1 (zdrop (msg_end m) rest)) as (r2 & Heq & Hh2).
      * unfold r1, holds. cbn [failed_ fastpath_ rd_ wr_ buf_]. do 4 (split; [done || lia|]). split; [|done].
        assert (Hdr : zdrop (msg_end m) rest = zread (msg_end m) (zlen rest - msg_end m) rest).
        { unfold zread. symmetry. pose proof (zlen_zdrop (msg_end m) rest ltac:(lia)) as Hz. rewrite <- Hz. apply ztake_zlen. }
        rewrite Hdr. transitivity (zread (msg_end m) (zlen rest - msg_end m) (zread (rd_ r) (wr_ r - rd_ r) (buf_ r))).
        -- rewrite zread_zread by lia. f_equal; lia.
        -- by rewrite Hrest.
      * auto with bytes.
      * unfold zdrop, zlen in *. rewrite length_drop. lia.
      * rewrite Heq. cbn [obind]. exists r2. by destruct (parse_stream (zdrop (msg_end m) rest)).
    + cbn [obind]. rewrite Ev. eexists. split; [reflexivity|]. cbn [snd].
      destruct (fatal_framing_error (TryReadProtoMessage rest)); [done|]. rewrite orb_false_r. done.
Qed.

Lemma read_loop_S fuel r : read_loop (S fuel) r =
  let! (msg, r) := ReadMessage r in
  if msg_valid msg then let! (l, r) := read_loop fuel r in Ok ((field_id msg, payload msg) :: l, r) else Ok ([], r).
Proof. reflexivity. Qed.

Lemma feed_spec c r rest : holds r (Pending rest) -> bytes_ok c -> bytes_ok rest ->
  zlen rest + zlen c <= 2 * kMaxMsgSize - kGrowBytes ->
  exists r', feed c r = Ok ((parse_stream (rest ++ c)).1, r') /\ holds r' (parse_stream (rest ++ c)).2.
Proof.
  intros Hh Hb Hbr Hfit. unfold feed. destruct (Append_spec c r rest Hh Hb Hfit) as (r1 & -> & [Hh1|H1]); cbn [obind].
  - assert (Hl : zlen (rest ++ c) = wr_ r1 - rd_ r1).
    { destruct Hh1 as (_ & _ & ? & ? & <- & _). apply zlen_zread; lia. }
    apply read_loop_spec; [done|by apply bytes_ok_app|]. unfold zlen in Hl. lia.
  - destruct H1 as (-> & Hrw & Hf & Hfp & Hv & He & Hh0). cbn [app].
    rewrite read_loop_S. unfold ReadMessage at 1. rewrite Hf, Hfp, Hv, Hrw, Z.eqb_refl. cbn [perfetto_check obind].
    rewrite Hv. rewrite Hrw in Hh0.
    destruct (read_loop_spec (S (Z.to_nat (wr_ r1 - wr_ r1))) _ [] Hh0) as (r2 & Heq & Hh2); [constructor|simpl; lia|].
    rewrite Heq. cbn [obind]. exists r2.
    rewrite (parse_stream_step c Hb). cbv zeta. rewrite Hv, He.
    assert (zdrop (zlen c) c = []) as -> by (unfold zdrop, zlen; apply drop_ge; lia). done.
Qed.

Lemma feed_failed c r : failed_ r = true -> feed c r = Ok ([], r).
Proof.
  intros Hf. unfold feed, Append. rewrite Hf. cbn [obind]. rewrite read_loop_S. unfold ReadMessage. by rewrite Hf.
Qed.

Lemma feed_all_failed cs r : failed_ r = true -> feed_all cs r = Ok ([], r).
Proof.
  intros Hf. induction cs as [|c cs IH]; [done|]. cbn [feed_all]. rewrite feed_failed by done. cbn [obind]. by rewrite IH.
Qed.

Lemma feed_all_spec cs r rest : holds r (Pending rest) -> Forall bytes_ok cs -> bytes_ok rest -> chunks_fit cs (Pending rest) ->
  (parse_stream rest).1 = [] /\ (parse_stream rest).2 = Pending rest ->
  exists r', feed_all cs r = Ok ((parse_stream (rest ++ concat cs)).1, r') /\ holds r' (parse_stream (rest ++ concat cs)).2.
Proof.
  intros Hh Hcs. revert r rest Hh. induction Hcs as [|c cs Hc Hcs IH]; intros r rest Hh Hr Hfit [Hp1 Hp2].
  - exists r. cbn [concat]. rewrite app_nil_r, Hp1, Hp2. done.
  - cbn [feed_all concat chunks_fit] in *. destruct Hfit as [Hfit Hfits].
    destruct (feed_spec c r rest Hh Hc Hr Hfit) as (r1 & -> & Hh1). cbn [obind].
    assert (Hbc : bytes_ok (concat cs)) by (apply Forall_concat; done).
    rewrite app_assoc, (parse_stream_app (rest ++ c)) by (rewrite ?bytes_ok_app; done).
    pose proof (parse_stream_rest (rest ++ c)) as Hrest. destruct (parse_stream (rest ++ c)) as [l [rest1|]] eqn:E; cbn [fst snd] in *.
    + destruct (Hrest rest1) as [Hb1 _]; [by apply bytes_ok_app|done|].
      assert (Hidem : parse_stream rest1 = ([], Pending rest1)).
      { by apply (parse_stream_idem (rest ++ c) l); [apply bytes_ok_app|]. }
      destruct (IH r1 rest1) as (r2 & -> & Hh2); [done..|by rewrite Hidem|]. cbn [obind]. exists r2.
      by destruct (parse_stream (rest1 ++ concat cs)).
    + rewrite feed_all_failed by done. cbn [obind]. exists r1. by rewrite app_nil_r.
Qed.

(** ** Well-formed streams *)

(** An encoding, possibly not canonical, of the message (id, payload). *)
Definition msg_encodes (m : Z * list Z) (b : list Z) : Prop :=
  encodes (m.1, VBytes m.2) b /\ zlen m.2 <= kMaxMsgSize.

Lemma msg_encodes_inv m b : msg_encodes m b -> exists t n,
  numeral t (2 + m.1 * 8) /\ numeral n (zlen m.2) /\ b = t ++ n ++ m.2 /\ bytes_ok m.2 /\ zlen m.2 <= kMaxMsgSize /\
  1 <= m.1 <= 65535.
Proof.
  intros [[Hid (t & p & Ht & (Hb & _ & n & Hn & ->) & ->)] Hl]. exists t, n. done.
Qed.

Lemma TryRead_encoded m b t : msg_encodes m b ->
  let r := TryReadProtoMessage (b ++ t) in
  msg_valid r = true /\ msg_end r = zlen b /\ field_id r = m.1 /\ payload r = m.2.
Proof.
  intros Hm. destruct (msg_encodes_inv m b Hm) as (tg & n & Ht & Hn & -> & Hb & Hl & Hid). cbv zeta.
  pose proof (numeral_pos _ _ Ht). pose proof (numeral_pos _ _ Hn).
  destruct Ht as (Htb & Hts & Htl & Htv), Hn as (Hnb & Hns & Hnl & Hnv).
  unfold TryReadProtoMessage. rewrite <- app_assoc, ParseVarInt_shape by done. rewrite Htv.
  destruct (Z.eqb_spec (zlen tg) 0); [lia|]. rewrite zdrop_zlen_app.
  destruct (tag_fields m.1 kLengthDelimited ltac:(change (2 ^ 29) with 536870912; lia)) as (Hsh & Hland & Hr).
  cbn [wire_type_value] in *. rewrite Hsh. change kMaxMsgSize with 67108864 in *.
  assert (u32 ((2 + m.1 * 8) .& 7) = 2) as ->.
  { rewrite land_7. rewrite land_7 in Hland. pose proof (Z.mod_pos_bound (2 + m.1 * 8) 8).
    unfold u8 in Hland. rewrite uw_small in Hland by (change (2 ^ 8) with 256; lia). rewrite Hland. done. }
  cbn [Z.eqb Pos.eqb negb]. rewrite <- app_assoc, ParseVarInt_shape by done. rewrite Hnv.
  pose proof (zlen_nonneg m.2). pose proof (zlen_nonneg t).
  destruct (Z.eqb_spec (zlen tg + zlen n) (zlen tg)); [lia|]. destruct (Z.ltb_spec 67108864 (zlen m.2)); [lia|].
  rewrite !zlen_app. destruct (Z.ltb_spec (zlen tg + (zlen n + (zlen m.2 + zlen t))) (zlen tg + zlen n + zlen m.2)); [lia|].
  rewrite !u32_small by lia. unfold payload, msg_end. cbn [msg_valid start len field_id].
  split; [done|]. split; [lia|]. split; [done|]. rewrite app_assoc, <- zlen_app. apply zread_app_exact.
Qed.

Lemma varint_shape_prefix l x : varint_shape l = true -> varint_shape (l ++ x) = true -> x = [].
Proof.
  induction l as [|b l IH]; [done|]. cbn [varint_shape app]. destruct (b <? 128); [|done].
  intros H1 H2. apply bool_decide_eq_true in H1, H2. by subst l.
Qed.

Lemma ParseVarInt_strict p x : bytes_ok p -> x <> [] -> varint_shape (p ++ x) = true -> ParseVarInt p = (0, 0).
Proof.
  intros Hb Hx Hs. destruct (ParseVarInt_inv p Hb) as [->|(l & r & -> & Hl & _)]; [done|]. exfalso.
  rewrite <- app_assoc in Hs. apply (varint_shape_prefix l) in Hs as H; [|done]. by apply app_eq_nil in H as [_ ->].
Qed.

(** [app_eq_app], with the two cases overlapping only where nothing is missing. *)
Lemma app_eq_split {A} (p x t r : list A) : p ++ x = t ++ r ->
  (exists y, p = t ++ y /\ y ++ x = r) \/ (exists y, y <> [] /\ t = p ++ y).
Proof.
  intros H. apply app_eq_app in H as (y & [[-> ->]|[-> ->]]); [by left; exists y|].
  destruct (decide (y = [])) as [->|Hy]; [left; exists []; by rewrite !app_nil_r|right; by exists y].
Qed.

Lemma TryRead_strict m b p x : msg_encodes m b -> b = p ++ x -> x <> [] -> TryReadProtoMessage p = Message0.
Proof.
  intros Hm Hb Hx. destruct (msg_encodes_inv m b Hm) as (tg & n & Ht & Hn & Heq & Hbm & Hl & Hid).
  pose proof (numeral_pos _ _ Ht) as Htp. pose proof (numeral_pos _ _ Hn) as Hnp.
  destruct Ht as (Htb & Hts & Htl & Htv), Hn as (Hnb & Hns & Hnl & Hnv).
  assert (Hbp : bytes_ok (p ++ x)) by (rewrite <- Hb, Heq, !bytes_ok_app; done). apply bytes_ok_app in Hbp as [Hbp _].
  unfold TryReadProtoMessage. rewrite Hb in Heq. apply app_eq_split in Heq as [(y & -> & Hy)|(y & Hy & ->)].
  2: { by rewrite (ParseVarInt_strict p y). }
  rewrite ParseVarInt_shape by done. rewrite Htv. destruct (Z.eqb_spec (zlen tg) 0); [done|]. rewrite zdrop_zlen_app.
  destruct (tag_fields m.1 kLengthDelimited ltac:(change (2 ^ 29) with 536870912; lia)) as (_ & Hland & _).
  cbn [wire_type_value] in *.
  assert (u32 ((2 + m.1 * 8) .& 7) = 2) as ->.
  { rewrite land_7. rewrite land_7 in Hland. pose proof (Z.mod_pos_bound (2 + m.1 * 8) 8).
    unfold u8 in Hland. rewrite uw_small in Hland by (change (2 ^ 8) with 256; lia). rewrite Hland. done. }
  cbn [Z.eqb Pos.eqb negb]. apply bytes_ok_app in Hbp as [_ Hby]. apply app_eq_split in Hy as [(z & -> & Hz)|(z & Hz & ->)].
  2: { rewrite (ParseVarInt_strict y z) by done. by rewrite Z.add_0_r, Z.eqb_refl. }
  rewrite ParseVarInt_shape by done. rewrite Hnv. pose proof (zlen_nonneg m.2). change kMaxMsgSize with 67108864 in *.
  destruct (Z.eqb_spec (zlen tg + zlen n) (zlen tg)); [done|]. destruct (Z.ltb_spec 67108864 (zlen m.2)); [lia|].
  rewrite <- Hz, !zlen_app. destruct x as [|x0 x]; [done|]. rewrite zlen_cons. pose proof (zlen_nonneg x).
  by destruct (Z.ltb_spec (zlen tg + (zlen n + zlen z)) (zlen tg + zlen n + (zlen z + (1 + zlen x)))); [|lia].
Qed.

Lemma msg_encodes_size m b : msg_encodes m b -> zlen b <= kMaxMsgSize + 20 /\ bytes_ok b.
Proof.
  intros Hm. split; [|eapply bytes_ok_encodes, Hm].
  destruct (msg_encodes_inv m b Hm) as (tg & n & (_ & _ & ? & _) & (_ & _ & ? & _) & -> & _ & ? & _).
  rewrite !zlen_app. lia.
Qed.

Lemma bytes_ok_stream ms bs : Forall2 msg_encodes ms bs -> bytes_ok (concat bs).
Proof. induction 1 as [|m b ms bs Hm H IH]; [constructor|]. apply bytes_ok_app. split; [by apply (msg_encodes_size m)|done]. Qed.

Lemma parse_stream_encoded ms bs : Forall2 msg_encodes ms bs -> parse_stream (concat bs) = (ms, Pending []).
Proof.
  intros Hms. induction Hms as [|m b ms bs Hm Hms IH]; [done|]. cbn [concat].
  rewrite parse_stream_step by (apply bytes_ok_app; split; [by apply (msg_encodes_size m)|by eapply bytes_ok_stream]).
  pose proof (TryRead_encoded m b (concat bs) Hm) as Hr. cbv zeta in *. destruct Hr as (-> & -> & -> & ->). rewrite zdrop_zlen_app, IH. by destruct m.
Qed.

(** Any prefix of a well-formed stream leaves less than a message pending. *)
Lemma parse_stream_prefix ms bs p q : Forall2 msg_encodes ms bs -> p ++ q = concat bs ->
  exists l rest, parse_stream p = (l, Pending rest) /\ zlen rest <= kMaxMsgSize + 20.
Proof.
  intros Hms. revert p. induction Hms as [|m b ms bs Hm Hms IH]; intros p Hp.
  - apply app_eq_nil in Hp as [-> _]. exists [], []. split; [done|]. vm_compute. discriminate.
  - cbn [concat] in Hp. assert (Hbc : bytes_ok (b ++ concat bs)).
    { apply bytes_ok_app. split; [by apply (msg_encodes_size m)|by eapply bytes_ok_stream]. }
    assert (Hbp : bytes_ok p) by (rewrite <- Hp in Hbc; by apply bytes_ok_app in Hbc as [? _]).
    apply app_eq_split in Hp as [(y & -> & Hy)|(y & Hy & ->)]; rewrite (parse_stream_step _ Hbp).
    + pose proof (TryRead_encoded m b y Hm) as Hr. cbv zeta in *. destruct Hr as (-> & -> & _). rewrite zdrop_zlen_app.
      destruct (IH y Hy) as (l & rest & -> & Hr). by eexists _, rest.
    + rewrite (TryRead_strict m (p ++ y) p y) by done. exists [], p. split; [done|].
      destruct (msg_encodes_size m (p ++ y) Hm) as [Hs _]. rewrite zlen_app in Hs. pose proof (zlen_nonneg y). lia.
Qed.

Lemma chunks_fit_stream ms bs cs p rest : Forall2 msg_encodes ms bs -> p ++ concat cs = concat bs ->
  (parse_stream p).2 = Pending rest -> Forall (fun c => zlen c <= kMaxMsgSize - 2 * kGrowBytes) cs -> chunks_fit cs (Pending rest).
Proof.
  intros Hms Hp Hr Hcs. revert p rest Hp Hr. induction Hcs as [|c cs Hc Hcs IH]; intros p rest Hp Hr; [done|].
  cbn [chunks_fit concat] in *. destruct (parse_stream_prefix ms bs p (c ++ concat cs) Hms Hp) as (l & r & E & Hrest).
  rewrite E in Hr. injection Hr as ->. split.
  { change kMaxMsgSize with 67108864 in *. change kGrowBytes with 131072 in *. lia. }
  rewrite app_assoc in Hp. pose proof (bytes_ok_stream ms bs Hms) as Hb. rewrite <- Hp in Hb.
  apply bytes_ok_app in Hb as [Hb _]. apply bytes_ok_app in Hb as [Hbp Hbc].
  pose proof (parse_stream_app p c Hbp Hbc) as Happ. rewrite E in Happ.
  destruct (parse_stream_prefix ms bs (p ++ c) (concat cs) Hms Hp) as (l2 & r2 & E2 & _).
  destruct (parse_stream (rest ++ c)) as [k w] eqn:Ew. rewrite E2 in Happ. injection Happ as -> <-. cbn [snd].
  apply (IH (p ++ c)); [done|by rewrite E2].
Qed.

Lemma holds_init : holds RingBufferMessageReader (Pending []).
Proof. unfold holds, RingBufferMessageReader. cbn [failed_ fastpath_ rd_ wr_ buf_]. unfold kGrowBytes, kMaxMsgSize. rewrite zlen_zeros by lia. repeat split; (done || lia). Qed.

(** ** Properties *)

(** C38. Fragmentation does not matter: whatever the bytes and however they are cut
    into chunks that fit, the messages delivered are those of the whole stream, in
    order, no fatal check fails, and after a framing error nothing more is
    delivered. *)
Theorem ring_buffer_reassembles (chunks : list (list Z)) :
  Forall bytes_ok chunks -> chunks_fit chunks (Pending []) ->
  exists r, feed_all chunks RingBufferMessageReader = Ok ((parse_stream (concat chunks)).1, r) /\
    holds r (parse_stream (concat chunks)).2.
Proof. intros Hb Hfit. by apply (feed_all_spec chunks _ [] holds_init Hb (Forall_nil_2 _) Hfit). Qed.

Lemma ring_buffer_reassembles_witness :
  exists r, feed_all [[10; 2; 7]; [8; 10]; [0; 9; 1]] RingBufferMessageReader = Ok ([(1, [7; 8]); (1, [])], r)
    /\ failed_ r = true.
Proof.
  destruct (ring_buffer_reassembles [[10; 2; 7]; [8; 10]; [0; 9; 1]]) as (r & H1 & H2).
  - repeat constructor; lia.
  - repeat split; vm_compute; discriminate.
  - exists r. split; [rewrite H1; f_equal|exact H2].
Defined.

(** End to end: a stream of encoded messages of at most kMaxMsgSize bytes each,
    cut into chunks of at most 63.75 MB in any way, is delivered completely: exactly
    the (field id, payload) pairs, in order, and nothing is left pending. *)
Theorem ring_buffer_delivers (ms : list (Z * list Z)) (bs chunks : list (list Z)) :
  Forall2 msg_encodes ms bs -> concat chunks = concat bs ->
  Forall (fun c => zlen c <= kMaxMsgSize - 2 * kGrowBytes) chunks ->
  exists r, feed_all chunks RingBufferMessageReader = Ok (ms, r) /\ holds r (Pending []).
Proof.
  intros Hms Heq Hc. pose proof (bytes_ok_stream ms bs Hms) as Hb. rewrite <- Heq in Hb.
  assert (Hbs : Forall bytes_ok chunks).
  { clear -Hb. induction chunks as [|c cs IH]; [constructor|]. apply bytes_ok_app in Hb as [? ?]. constructor; auto. }
  destruct (feed_all_spec chunks _ [] holds_init Hbs (Forall_nil_2 _)) as (r & H1 & H2); [|done|].
  - by apply (chunks_fit_stream ms bs chunks []).
  - exists r. cbn [app] in H1, H2. rewrite Heq, (parse_stream_encoded ms bs Hms) in H1, H2. done.
Qed.

Lemma ring_buffer_delivers_witness :
  exists r, feed_all [[10]; [130; 0; 7]; [8]] RingBufferMessageReader = Ok ([(1, [7; 8])], r) /\ holds r (Pending []).
Proof.
  assert (Hb : forall l, Forall (fun x => 0 <= x < 256) l -> bytes_ok l) by (intros l H; exact H).
  apply (ring_buffer_delivers [(1, [7; 8])] [[10; 130; 0; 7; 8]]).
  - constructor; [|constructor]. split; [|vm_compute; discriminate]. split; [simpl; lia|].
    exists [10], [130; 0; 7; 8]. split; [|split; [|reflexivity]].
    + split; [apply Hb; repeat constructor; lia|]. split; [reflexivity|]. split; [vm_compute; discriminate|reflexivity].
    + split; [apply Hb; repeat constructor; lia|]. split; [vm_compute; discriminate|]. exists [130; 0].
      split; [|reflexivity]. split; [apply Hb; repeat constructor; lia|]. split; [reflexivity|].
      split; [vm_compute; discriminate|reflexivity].
  - reflexivity.
  - repeat constructor; vm_compute; discriminate.
Defined.
