(* ===== verification/FilterBytecode.v ===== *)
(** * The bytecode of the trace filter
    (src/protozero/filtering/filter_bytecode_generator.cc, filter_bytecode_parser.cc,
    filter_bytecode_common.h, include/perfetto/ext/base/hash.h)

    A filter says which fields of which messages may pass.  The generator writes it
    as a sequence of varint words with a checksum, the parser loads the words into a
    table that answers queries.  The theorems: for every filter the generator
    accepts, loading what it serialized answers every query as the filter says;
    arbitrary bytes never make a query read outside the table; a rejected bytecode
    leaves the parser empty. *)

From S2P Require Import Prelude ProtoUtils ProtoDecoder ProtoWriter.

(** ** base::Hash (FNV-1a) *)

Definition kFnv1a64OffsetBasis : Z := 0xcbf29ce484222325.
Definition kFnv1a64Prime : Z := 0x100000001b3.
(** Update(data, size), on the state [result_]. *)
Definition Hash_Update (data : list Z) (result_ : Z) : Z :=
  fold_left (fun r b => u64 ((r .^ u8 b) * kFnv1a64Prime)) data result_.
(** Update(uint32_t). *)
Definition Hash_Update_u32 (w : Z) (result_ : Z) : Z := Hash_Update (le_bytes 4 w) result_.
Definition hash_words (ws : list Z) : Z := fold_left (fun r w => Hash_Update_u32 w r) ws kFnv1a64OffsetBasis.

Definition kFilterOpcode_EndOfMessage : Z := 0.
Definition kFilterOpcode_SimpleField : Z := 1.
Definition kFilterOpcode_SimpleFieldRange : Z := 2.
Definition kFilterOpcode_NestedField : Z := 3.

(** ** FilterBytecodeGenerator *)

Record Generator := mkGen {
  num_messages_ : Z;
  last_field_id_ : Z;
  max_msg_index_ : Z;
  endmessage_called_ : bool;
  bytecode_ : list Z
}.
Definition FilterBytecodeGenerator : Generator := mkGen 0 0 0 false [].

Definition EndMessage (g : Generator) : Generator :=
  mkGen (u32 (num_messages_ g + 1)) 0 (max_msg_index_ g) true (bytecode_ g ++ [kFilterOpcode_EndOfMessage]).
Definition AddSimpleField (field_id : Z) (g : Generator) : outcome Generator :=
  check! last_field_id_ g <? field_id in
  Ok (mkGen (num_messages_ g) field_id (max_msg_index_ g) false
        (bytecode_ g ++ [u32 (field_id .<< 3) .| kFilterOpcode_SimpleField])).
Definition AddSimpleFieldRange (range_start range_len : Z) (g : Generator) : outcome Generator :=
  check! last_field_id_ g <? range_start in
  check! 0 <? range_len in
  Ok (mkGen (num_messages_ g) (u32 (range_start + range_len - 1)) (max_msg_index_ g) false
        (bytecode_ g ++ [u32 (range_start .<< 3) .| kFilterOpcode_SimpleFieldRange; range_len])).
Definition AddNestedField (field_id message_index : Z) (g : Generator) : outcome Generator :=
  check! last_field_id_ g <? field_id in
  Ok (mkGen (num_messages_ g) field_id (Z.max (max_msg_index_ g) message_index) false
        (bytecode_ g ++ [u32 (field_id .<< 3) .| kFilterOpcode_NestedField; message_index])).

(** The packed buffer is PackedVarInt; appending to it never fails
    (ProtoWriter, append_all_spec), and data() is the concatenated varints. *)
Definition Serialize (g : Generator) : outcome (list Z) :=
  check! endmessage_called_ g in
  check! max_msg_index_ g <? num_messages_ g in
  let words := bytecode_ g ++ [u32 (hash_words (bytecode_ g))] in
  match append_all (PackedVarInt_Append 0 uint32_t) words (PackedBuffer_Reset 0) with
  | Some b => Ok (packed_data b)
  | None => Crash
  end.

(** ** FilterBytecodeParser *)

Definition kDirectlyIndexLimit : Z := 128.
Definition kAllowed : Z := 1 .<< 31.
Definition kSimpleField : Z := 0x7fffffff.

Record Parser := mkParser { words_ : list Z; message_offset_ : list Z; suppress_logs_for_fuzzer_ : bool }.
Record QueryResult := mkQR { allowed : bool; nested_msg_index : Z }.
Definition simple_field (q : QueryResult) : bool := nested_msg_index q =? kSimpleField.

Definition Reset (p : Parser) : Parser := mkParser [] [] (suppress_logs_for_fuzzer_ p).

(** The locals of LoadInternal. *)
Record LoadState := mkLoad {
  direct_indexed_fields : list Z;
  ranges : list Z;
  max_msg_index : Z;
  parser : Parser
}.

Definition add_directly_indexed_field (field_id msg_id : Z) (direct : list Z) : list Z :=
  let resized := direct ++ zeros (Z.max (zlen direct) (field_id + 1) - zlen direct) in
  <[Z.to_nat field_id := kAllowed .| msg_id]> resized.
Definition add_range (id_start id_end msg_id : Z) (rs : list Z) : list Z :=
  rs ++ [id_start; id_end; kAllowed .| msg_id].

(** [for (; id < range_end && id < kDirectlyIndexLimit; ++id)]. *)
Fixpoint add_direct_range (fuel : nat) (id range_end : Z) (direct : list Z) : Z * list Z :=
  match fuel with
  | O => (id, direct)
  | S fuel' =>
      if (id <? range_end) && (id <? kDirectlyIndexLimit) then
        add_direct_range fuel' (id + 1) range_end (add_directly_indexed_field id (kAllowed .| kSimpleField) direct)
      else (id, direct)
  end.

Definition add_field (field_id msg_id : Z) (st : LoadState) : LoadState :=
  if field_id <? kDirectlyIndexLimit then
    mkLoad (add_directly_indexed_field field_id msg_id (direct_indexed_fields st)) (ranges st) (max_msg_index st) (parser st)
  else
    mkLoad (direct_indexed_fields st) (add_range field_id (u32 (field_id + 1)) msg_id (ranges st)) (max_msg_index st) (parser st).
Definition add_simple_range (field_id range_len : Z) (st : LoadState) : LoadState :=
  let range_end := u32 (field_id + range_len) in
  let '(id, direct) := add_direct_range (Z.to_nat kDirectlyIndexLimit) field_id range_end (direct_indexed_fields st) in
  mkLoad direct (if id <? range_end then add_range id range_end kSimpleField (ranges st) else ranges st)
    (max_msg_index st) (parser st).
Definition set_max (m : Z) (st : LoadState) : LoadState :=
  mkLoad (direct_indexed_fields st) (ranges st) (Z.max (max_msg_index st) m) (parser st).
Definition end_of_message (st : LoadState) : LoadState :=
  let p := parser st in
  mkLoad [] [] (max_msg_index st)
    (mkParser (words_ p ++ [u32 (zlen (direct_indexed_fields st))] ++ direct_indexed_fields st ++ ranges st)
       (message_offset_ p ++ [u32 (zlen (words_ p))]) (suppress_logs_for_fuzzer_ p)).

(** The loop over the words; None where the code returns false. *)
Fixpoint load_loop (words : list Z) (st : LoadState) : option LoadState :=
  match words with
  | [] => Some st
  | word :: rest =>
      let opcode := word .& 7 in
      let field_id := word .>> 3 in
      if (field_id =? 0) && negb (opcode =? kFilterOpcode_EndOfMessage) then None
      else if opcode =? kFilterOpcode_SimpleField then load_loop rest (add_field field_id kSimpleField st)
      else if opcode =? kFilterOpcode_NestedField then
        match rest with
        | [] => None
        | msg_id :: rest => load_loop rest (add_field field_id msg_id (set_max msg_id st))
        end
      else if opcode =? kFilterOpcode_SimpleFieldRange then
        match rest with
        | [] => None
        | range_len :: rest => load_loop rest (add_simple_range field_id range_len st)
        end
      else if opcode =? kFilterOpcode_EndOfMessage then load_loop rest (end_of_message st)
      else None
  end.

(** None: returns false (the partly built state is then reset by Load). *)
Definition LoadInternal (bytecode_data : list Z) (p : Parser) : option Parser :=
  let '(words, packed_parse_err) := PackedValues kVarInt uint32_t bytecode_data in
  match last words with
  | None => None
  | Some csum =>
      if packed_parse_err then None
      else
        let words := ztake (zlen words - 1) words in
        if negb (u32 (hash_words words) =? csum) then None
        else
          match load_loop words (mkLoad [] [] 0 p) with
          | None => None
          | Some st =>
              let p := parser st in
              if (0 <? max_msg_index st) && (zlen (message_offset_ p) <=? max_msg_index st) then None
              else Some (mkParser (words_ p) (message_offset_ p ++ [u32 (zlen (words_ p))]) (suppress_logs_for_fuzzer_ p))
          end
  end.
Definition Load (filter_data : list Z) (p : Parser) : bool * Parser :=
  let p := Reset p in
  match LoadInternal filter_data p with
  | Some p' => (true, p')
  | None => (false, Reset p)
  end.

(** The range search, on the words from [word] to [end]. *)
Fixpoint search_ranges (word : list Z) (field_id : Z) : Z :=
  match word with
  | range_start :: range_end :: range_state :: rest =>
      if (range_start <=? field_id) && (field_id <? range_end) then range_state else search_ranges rest field_id
  | _ => 0
  end.

(** None: a read outside the vectors. *)
Definition Query (msg_index field_id : Z) (p : Parser) : option QueryResult :=
  if zlen (message_offset_ p) <=? msg_index + 1 then Some (mkQR false 0)
  else
    match message_offset_ p !! Z.to_nat msg_index, message_offset_ p !! Z.to_nat (msg_index + 1) with
    | Some start_offset, Some end_off =>
        if zlen (words_ p) <? end_off then None
        else
          match zread start_offset (end_off - start_offset) (words_ p) with
          | [] => None
          | num_directly_indexed :: word =>
              let field_state :=
                if field_id <? num_directly_indexed then word !! Z.to_nat field_id
                else Some (search_ranges (zdrop num_directly_indexed word) field_id) in
              match field_state with
              | Some s => Some (mkQR (negb (s .& kAllowed =? 0)) (s .& (2 ^ 32 - 1 - kAllowed)))
              | None => None
              end
          end
    | _, _ => None
    end.

(** ** Specification: a filter is a list of messages, a message a list of entries *)

Inductive entry : Type :=
| ESimple (field_id : Z)
| ERange (range_start range_len : Z)
| ENested (field_id message_index : Z).

Definition entry_first (e : entry) : Z := match e with ESimple id | ERange id _ | ENested id _ => id end.
Definition entry_last (e : entry) : Z := match e with ESimple id | ENested id _ => id | ERange id n => id + n - 1 end.
Definition covers (e : entry) (f : Z) : bool := (entry_first e <=? f) && (f <=? entry_last e).
Definition entry_target (e : entry) : Z := match e with ENested _ m => m | _ => kSimpleField end.
(** What the filter says of field [f] of a message: not allowed, or the target. *)
Fixpoint filter_lookup (es : list entry) (f : Z) : option Z :=
  match es with
  | [] => None
  | e :: es => if covers e f then Some (entry_target e) else filter_lookup es f
  end.
Definition filter_query (ms : list (list entry)) (msg_index f : Z) : QueryResult :=
  match ms !! Z.to_nat msg_index with
  | None => mkQR false 0
  | Some es => match filter_lookup es f with None => mkQR false 0 | Some t => mkQR true t end
  end.

(** The calls that build a filter. *)
Definition add_entry (e : entry) (g : Generator) : outcome Generator :=
  match e with
  | ESimple id => AddSimpleField id g
  | ERange s n => AddSimpleFieldRange s n g
  | ENested id m => AddNestedField id m g
  end.
Definition gen_message (es : list entry) (g : Generator) : outcome Generator :=
  let! g := fold_left (fun acc e => let! g := acc in add_entry e g) es (Ok g) in Ok (EndMessage g).
Definition generate (ms : list (list entry)) : outcome Generator :=
  fold_left (fun acc es => let! g := acc in gen_message es g) ms (Ok FilterBytecodeGenerator).

(** Field ids increase within a message and fit the 29 bits of a word; message
    indices exist. *)
Fixpoint increasing (last : Z) (es : list entry) : Prop :=
  match es with
  | [] => True
  | e :: es => last < entry_first e /\ entry_first e <= entry_last e /\ entry_last e < 2 ^ 29 /\ increasing (entry_last e) es
  end.
Definition targets_ok (n : Z) (es : list entry) : Prop :=
  Forall (fun e => match e with ENested _ m => 0 <= m < n | _ => True end) es.

(** ** Words *)

Lemma word_fields id op : 0 <= id < 2 ^ 29 -> 0 <= op < 8 ->
  let w := u32 (id .<< 3) .| op in w = op + id * 8 /\ w .& 7 = op /\ w .>> 3 = id /\ 0 <= w < 4294967296.
Proof.
  intros Hid Hop. change (2 ^ 29) with 536870912 in Hid. cbv zeta.
  assert (Hw : u32 (id .<< 3) .| op = op + id * 8).
  { rewrite u32_small by (rewrite Z.shiftl_mul_pow2 by lia; lia).
    rewrite Z.lor_comm. rewrite lor_shiftl_add by (change (2 ^ 3) with 8; lia). done. }
  rewrite Hw, land_7, shiftr_div by lia. change (2 ^ 3) with 8. split; [done|]. split; [|split; [|lia]].
  - rewrite Z.mod_add by lia. apply Z.mod_small. lia.
  - rewrite Z.div_add by lia. rewrite Z.div_small by lia. lia.
Qed.

Lemma kAllowed_state t : 0 <= t < 2 ^ 31 -> let s := kAllowed .| t in
  s = kAllowed + t /\ (s .& kAllowed =? 0) = false /\ s .& (2 ^ 32 - 1 - kAllowed) = t /\ s <> 0.
Proof.
  intros Ht. cbv zeta. change kAllowed with (1 .<< 31).
  assert (Hs : (1 .<< 31) .| t = 2 ^ 31 + t).
  { rewrite Z.lor_comm, lor_shiftl_add by lia. lia. }
  rewrite Hs. change (1 .<< 31) with (2 ^ 31). split; [done|]. change (2 ^ 32 - 1 - 2 ^ 31) with (2 ^ 31 - 1).
  rewrite land_ones_mod by lia. split; [|split].
  - rewrite land_pow2_bit by lia. assert (Z.testbit (2 ^ 31 + t) 31 = true) as ->; [|done].
    apply Z.testbit_true; [lia|]. change (2 ^ 31) with 2147483648 in *.
    replace ((2147483648 + t) `div` 2147483648) with 1; [done|]. apply (Z.div_unique _ _ 1 t); lia.
  - replace (2 ^ 31 + t) with (t + 1 * 2 ^ 31) by lia. rewrite Z.mod_add by lia. by apply Z.mod_small.
  - change (2 ^ 31) with 2147483648 in *. lia.
Qed.

(** ** The direct table *)

Lemma znth_app_l l k i : 0 <= i < zlen l -> znth (l ++ k) i = znth l i.
Proof. unfold znth, zlen. intros. by rewrite lookup_app_l by lia. Qed.
Lemma znth_out l i : zlen l <= i -> znth l i = 0.
Proof. unfold znth, zlen. intros. by rewrite lookup_ge_None_2 by lia. Qed.
Lemma znth_app_zeros l n i : 0 <= i -> znth (l ++ zeros n) i = znth l i.
Proof.
  intros Hi. destruct (Z.lt_ge_cases i (zlen l)); [by apply znth_app_l|].
  rewrite (znth_out l) by done. unfold znth, zlen, zeros in *. rewrite lookup_app_r by lia.
  destruct (replicate (Z.to_nat n) 0 !! _) eqn:E; [|done]. by apply lookup_replicate in E as [-> _].
Qed.

Lemma add_direct_length id m d : 0 <= id -> zlen (add_directly_indexed_field id m d) = Z.max (zlen d) (id + 1).
Proof.
  intros. unfold add_directly_indexed_field. unfold zlen at 1. rewrite length_insert.
  change (Z.of_nat (length ?l)) with (zlen l). rewrite zlen_app, zlen_zeros; lia.
Qed.

Lemma add_direct_znth id m d f : 0 <= id -> 0 <= f ->
  znth (add_directly_indexed_field id m d) f = if f =? id then kAllowed .| m else znth d f.
Proof.
  intros Hid Hf. unfold add_directly_indexed_field. set (l := d ++ _).
  assert (Hl : id < zlen l) by (unfold l; rewrite zlen_app, zlen_zeros by lia; lia).
  unfold znth at 1. destruct (Z.eqb_spec f id) as [->|Hne].
  - rewrite list_lookup_insert_eq; [done|]. unfold zlen in Hl. lia.
  - rewrite list_lookup_insert_ne by lia. change (default 0 (l !! Z.to_nat f)) with (znth l f).
    unfold l. by rewrite znth_app_zeros.
Qed.

(** The first loop of a range. *)
Lemma add_direct_range_spec fuel id e d : 0 <= id -> zlen d <= kDirectlyIndexLimit -> kDirectlyIndexLimit - id <= Z.of_nat fuel ->
  let r := add_direct_range fuel id e d in
  r.1 = Z.max id (Z.min e kDirectlyIndexLimit) /\ zlen r.2 <= kDirectlyIndexLimit /\
  forall f, 0 <= f -> znth r.2 f =
    if (id <=? f) && (f <? Z.min e kDirectlyIndexLimit) then kAllowed .| (kAllowed .| kSimpleField) else znth d f.
Proof.
  unfold kDirectlyIndexLimit. revert id d. induction fuel as [|fuel IH]; intros id d Hid Hd Hf; cbn [add_direct_range].
  - cbn [fst snd]. split; [lia|]. split; [done|]. intros f Hf0.
    destruct (Z.leb_spec id f); [|done]. destruct (Z.ltb_spec f (Z.min e 128)); [lia|done].
  - unfold kDirectlyIndexLimit. destruct (Z.ltb_spec id e); cbn [andb]; [destruct (Z.ltb_spec id 128)|].
    2,3: cbn [fst snd]; split; [lia|]; split; [done|]; intros f Hf0;
      destruct (Z.leb_spec id f); [|done]; destruct (Z.ltb_spec f (Z.min e 128)); [lia|done].
    destruct (IH (id + 1) (add_directly_indexed_field id (kAllowed .| kSimpleField) d)) as (H1 & H2 & H3);
      [lia|rewrite add_direct_length; lia|lia|]. split; [lia|]. split; [done|]. intros f Hf0.
    rewrite H3, add_direct_znth by lia.
    destruct (Z.leb_spec (id + 1) f), (Z.leb_spec id f), (Z.ltb_spec f (Z.min e 128)), (Z.eqb_spec f id);
      cbn [andb]; try lia; done.
Qed.

(** ** The ranges *)

Fixpoint triples (rs : list Z) : Prop :=
  match rs with
  | [] => True
  | _ :: _ :: s :: rest => s <> 0 /\ triples rest
  | _ => False
  end.

Lemma search_ranges_snoc : forall rs a b s f, triples rs ->
  search_ranges (rs ++ [a; b; s]) f =
  if search_ranges rs f =? 0 then (if (a <=? f) && (f <? b) then s else 0) else search_ranges rs f.
Proof.
  fix IH 1. intros [|x [|y [|z rs]]] a b s f Ht; [done|done|done|]. cbn [app search_ranges]. destruct Ht as [Hz Ht].
  destruct ((x <=? f) && (f <? y)).
  - by destruct (Z.eqb_spec z 0).
  - by apply IH.
Qed.

Lemma triples_snoc : forall rs a b s, triples rs -> s <> 0 -> triples (rs ++ [a; b; s]).
Proof.
  fix IH 1. intros [|x [|y [|z rs]]] a b s Ht Hs; [done|done|done|]. destruct Ht as [Hz Ht].
  split; [done|by apply IH].
Qed.

(** ** Loading the entries of a message *)

Definition encode_state (o : option Z) : Z := match o with None => 0 | Some t => kAllowed .| t end.

(** The tables [d] and [r] say what the entries [es] say; the ids so far are at
    most [last]. *)
Record tables_ok (es : list entry) (last : Z) (d r : list Z) : Prop := {
  to_len : zlen d <= kDirectlyIndexLimit;
  to_direct : forall f, 0 <= f < kDirectlyIndexLimit -> znth d f = encode_state (filter_lookup es f);
  to_low : forall f, 0 <= f < kDirectlyIndexLimit -> search_ranges r f = 0;
  to_ranges : forall f, kDirectlyIndexLimit <= f -> search_ranges r f = encode_state (filter_lookup es f);
  to_triples : triples r;
  to_last : 0 <= last /\ forall f, last < f -> filter_lookup es f = None
}.

Lemma filter_lookup_snoc es e last f : (forall f, last < f -> filter_lookup es f = None) -> last < entry_first e ->
  filter_lookup (es ++ [e]) f = if covers e f then Some (entry_target e) else filter_lookup es f.
Proof.
  intros Hl He. assert (Hnone : covers e f = true -> filter_lookup es f = None).
  { unfold covers. intros Hc. bool_facts. apply Hl. lia. }
  induction es as [|x es IH]; cbn [app filter_lookup]; [done|].
  destruct (covers x f) eqn:Ex.
  - destruct (covers e f) eqn:Ee; [|done]. specialize (Hnone eq_refl). cbn [filter_lookup] in Hnone. by rewrite Ex in Hnone.
  - apply IH.
    + intros g Hg. specialize (Hl g Hg). cbn [filter_lookup] in Hl. by destruct (covers x g).
    + intros Hc. specialize (Hnone Hc). cbn [filter_lookup] in Hnone. by rewrite Ex in Hnone.
Qed.

Lemma tables_last es e last : (forall f, last < f -> filter_lookup es f = None) -> 0 <= last < entry_first e ->
  entry_first e <= entry_last e ->
  0 <= entry_last e /\ forall f, entry_last e < f -> filter_lookup (es ++ [e]) f = None.
Proof.
  intros Hl He Hle. split; [lia|]. intros f Hf. rewrite (filter_lookup_snoc es e last f) by (done || lia).
  unfold covers. destruct (Z.leb_spec f (entry_last e)); [lia|]. rewrite andb_false_r. apply Hl. lia.
Qed.

Lemma tables_empty : tables_ok [] 0 [] [].
Proof. constructor; try done; unfold kDirectlyIndexLimit; intros; rewrite ?zlen_nil; try lia; by rewrite znth_out by (rewrite zlen_nil; lia). Qed.

(** A single id, simple or nested. *)
Lemma tables_add_field es last st e : tables_ok es last (direct_indexed_fields st) (ranges st) ->
  last < entry_first e -> entry_last e = entry_first e -> entry_last e < 2 ^ 29 -> 0 <= entry_target e < 2 ^ 31 ->
  let st' := add_field (entry_first e) (entry_target e) st in
  tables_ok (es ++ [e]) (entry_last e) (direct_indexed_fields st') (ranges st') /\
  max_msg_index st' = max_msg_index st /\ parser st' = parser st.
Proof.
  intros [Hlen Hdir Hlow Hrng Htri [Hl0 Hl]] Hfirst Hlast Hbound Ht. cbv zeta. change (2 ^ 29) with 536870912 in Hbound.
  assert (Hcov : forall f, covers e f = (f =? entry_first e)).
  { intros f. unfold covers. rewrite Hlast. destruct (Z.leb_spec (entry_first e) f), (Z.leb_spec f (entry_first e)), (Z.eqb_spec f (entry_first e)); lia || done. }
  pose proof (filter_lookup_snoc es e last) as Hlook. pose proof (tables_last es e last Hl ltac:(lia) ltac:(lia)) as Hlast'.
  set (id := entry_first e) in *. unfold add_field, kDirectlyIndexLimit in *. destruct (kAllowed_state _ Ht) as (_ & _ & _ & Hne).
  destruct (Z.ltb_spec id 128); cbn [direct_indexed_fields ranges max_msg_index parser]; (split; [|done]).
  - constructor; unfold kDirectlyIndexLimit; try done.
    + rewrite add_direct_length by lia. lia.
    + intros f Hf. rewrite add_direct_znth, Hlook, Hcov by (done || lia).
      destruct (Z.eqb_spec f id); [done|]. apply Hdir. lia.
    + intros f Hf. rewrite Hlook, Hcov by (done || lia). destruct (Z.eqb_spec f id); [lia|]. apply Hrng. lia.
  - unfold add_range. rewrite u32_small by lia. constructor; unfold kDirectlyIndexLimit; try done.
    + intros f Hf. rewrite Hlook, Hcov by (done || lia). destruct (Z.eqb_spec f id); [lia|]. apply Hdir. lia.
    + intros f Hf. rewrite search_ranges_snoc, Hlow by (done || lia). cbn [Z.eqb].
      destruct (Z.leb_spec id f); [lia|done].
    + intros f Hf. rewrite search_ranges_snoc, Hlook, Hcov by (done || lia). rewrite Hrng by lia.
      destruct (Z.eqb_spec f id) as [->|Hfid].
      * rewrite (Hl id) by lia. cbn [encode_state Z.eqb].
        destruct (Z.leb_spec id id), (Z.ltb_spec id (id + 1)); try lia. done.
      * destruct (Z.eqb_spec (encode_state (filter_lookup es f)) 0) as [E|]; [|done]. rewrite E.
        destruct (Z.leb_spec id f), (Z.ltb_spec f (id + 1)); try lia; done.
    + by apply triples_snoc.
Qed.

(** A range, which may straddle the limit of the direct table. *)
Lemma tables_add_range es last st s n : tables_ok es last (direct_indexed_fields st) (ranges st) ->
  let e := ERange s n in
  last < s -> 0 < n -> entry_last e < 2 ^ 29 ->
  let st' := add_simple_range s n st in
  tables_ok (es ++ [e]) (entry_last e) (direct_indexed_fields st') (ranges st') /\
  max_msg_index st' = max_msg_index st /\ parser st' = parser st.
Proof.
  intros [Hlen Hdir Hlow Hrng Htri [Hl0 Hl]] e Hfirst Hn Hbound. cbv zeta. change (2 ^ 29) with 536870912 in Hbound.
  cbn [e entry_last] in Hbound.
  assert (Hcov : forall f, covers e f = (s <=? f) && (f <? s + n)).
  { intros f. unfold covers. cbn [e entry_first entry_last].
    destruct (Z.leb_spec s f), (Z.leb_spec f (s + n - 1)), (Z.ltb_spec f (s + n)); lia || done. }
  assert (Hlook : forall f, filter_lookup (es ++ [e]) f = if covers e f then Some kSimpleField else filter_lookup es f).
  { intros f. by apply (filter_lookup_snoc es e last). }
  pose proof (tables_last es e last Hl ltac:(cbn [e entry_first]; lia) ltac:(cbn [e entry_first entry_last]; lia)) as Hlast'.
  unfold add_simple_range. rewrite u32_small by lia.
  pose proof (add_direct_range_spec (Z.to_nat kDirectlyIndexLimit) s (s + n) (direct_indexed_fields st)
    ltac:(lia) Hlen ltac:(unfold kDirectlyIndexLimit; lia)) as Hr. cbv zeta in Hr.
  destruct (add_direct_range _ _ _ _) as [id d]. cbn [fst snd] in Hr. destruct Hr as (Hid & Hlen' & Hd').
  unfold kDirectlyIndexLimit in *. cbn [direct_indexed_fields ranges max_msg_index parser]. split; [|done].
  destruct (kAllowed_state kSimpleField ltac:(unfold kSimpleField; lia)) as (_ & _ & _ & Hne).
  constructor; unfold kDirectlyIndexLimit; try done.
  - intros f Hf. rewrite Hd', Hlook, Hcov by lia.
    destruct (Z.leb_spec s f), (Z.ltb_spec f (Z.min (s + n) 128)), (Z.ltb_spec f (s + n)); cbn [andb]; try lia;
      done || (apply Hdir; lia).
  - intros f Hf. destruct (Z.ltb_spec id (s + n)); [|by apply Hlow]. unfold add_range.
    rewrite search_ranges_snoc, Hlow by (done || lia). cbn [Z.eqb]. destruct (Z.leb_spec id f); [lia|done].
  - intros f Hf. rewrite Hlook, Hcov. destruct (Z.ltb_spec id (s + n)).
    + unfold add_range. rewrite search_ranges_snoc by done. rewrite Hrng by lia.
      destruct (Z.leb_spec s f), (Z.ltb_spec f (s + n)), (Z.leb_spec id f); cbn [andb]; try lia;
        try (by rewrite (Hl f) by lia);
        (destruct (Z.eqb_spec (encode_state (filter_lookup es f)) 0) as [E|]; [by rewrite E|done]).
    + rewrite Hrng by lia. destruct (Z.leb_spec s f), (Z.ltb_spec f (s + n)); cbn [andb]; try lia; done.
  - destruct (Z.ltb_spec id (s + n)); [|done]. by apply triples_snoc.
Qed.

(** ** Words of a filter *)

Definition entry_words (e : entry) : list Z :=
  match e with
  | ESimple id => [u32 (id .<< 3) .| kFilterOpcode_SimpleField]
  | ERange s n => [u32 (s .<< 3) .| kFilterOpcode_SimpleFieldRange; n]
  | ENested id m => [u32 (id .<< 3) .| kFilterOpcode_NestedField; m]
  end.
Definition message_words (es : list entry) : list Z := concat (map entry_words es) ++ [kFilterOpcode_EndOfMessage].
Definition filter_words (ms : list (list entry)) : list Z := concat (map message_words ms).

Definition apply_entry (e : entry) (st : LoadState) : LoadState :=
  match e with
  | ESimple id => add_field id kSimpleField st
  | ERange s n => add_simple_range s n st
  | ENested id m => add_field id m (set_max m st)
  end.
Definition entry_max (e : entry) : Z := match e with ENested _ m => m | _ => 0 end.

Lemma load_entry e rest st : 1 <= entry_first e -> entry_first e <= entry_last e < 2 ^ 29 ->
  load_loop (entry_words e ++ rest) st = load_loop rest (apply_entry e st).
Proof.
  intros H1 H2. destruct e as [id|s n|id m]; cbn [entry_first entry_last entry_words app apply_entry load_loop] in *;
    [destruct (word_fields id kFilterOpcode_SimpleField) as (-> & Hop & Hid & _)
    |destruct (word_fields s kFilterOpcode_SimpleFieldRange) as (-> & Hop & Hid & _)
    |destruct (word_fields id kFilterOpcode_NestedField) as (-> & Hop & Hid & _)];
    unfold kFilterOpcode_SimpleField, kFilterOpcode_SimpleFieldRange, kFilterOpcode_NestedField, kFilterOpcode_EndOfMessage in *;
    try lia; rewrite Hop, Hid; cbn [Z.eqb Pos.eqb negb].
  all: match goal with |- context [?x =? 0] => destruct (Z.eqb_spec x 0); [lia|] end; done.
Qed.

Lemma tables_apply es last st e : tables_ok es last (direct_indexed_fields st) (ranges st) ->
  last < entry_first e -> entry_first e <= entry_last e -> entry_last e < 2 ^ 29 -> 0 <= entry_max e < 2 ^ 31 -> 0 <= max_msg_index st ->
  let st' := apply_entry e st in
  tables_ok (es ++ [e]) (entry_last e) (direct_indexed_fields st') (ranges st') /\
  max_msg_index st' = Z.max (max_msg_index st) (entry_max e) /\ parser st' = parser st.
Proof.
  intros Hok H1 H2 H3 H4 H5. destruct e as [id|s n|id m];
    cbn [apply_entry entry_first entry_last entry_max] in *.
  - destruct (tables_add_field es last st (ESimple id) Hok) as (Ht & Hm & Hp); [done..|cbn [entry_target]; unfold kSimpleField; lia|].
    cbn [entry_first entry_target entry_last] in *. split; [done|]. split; [lia|done].
  - destruct (tables_add_range es last st s n Hok) as (Ht & Hm & Hp); [done|lia|done|].
    split; [done|]. split; [lia|done].
  - destruct (tables_add_field es last (set_max m st) (ENested id m) Hok) as (Ht & Hm & Hp); [done..|].
    cbn [entry_first entry_target entry_last] in *. split; [done|]. split; [exact Hm|exact Hp].
Qed.

Definition entries_max (es : list entry) (mx : Z) : Z := fold_left (fun mx e => Z.max mx (entry_max e)) es mx.

Definition apply_entries (es : list entry) (st : LoadState) : LoadState := fold_left (fun st e => apply_entry e st) es st.

Lemma tables_apply_entries es : forall prev last st, tables_ok prev last (direct_indexed_fields st) (ranges st) ->
  increasing last es -> Forall (fun e => 0 <= entry_max e < 2 ^ 31) es -> 0 <= max_msg_index st ->
  let st' := apply_entries es st in
  (exists last', tables_ok (prev ++ es) last' (direct_indexed_fields st') (ranges st')) /\
  max_msg_index st' = entries_max es (max_msg_index st) /\ parser st' = parser st.
Proof.
  induction es as [|e es IH]; intros prev last st Hok Hinc Hmx H0; cbv zeta.
  - rewrite app_nil_r. split; [by exists last|done].
  - destruct Hinc as (H1 & H2 & H3 & Hinc). inversion_clear Hmx as [|? ? Hm Hms].
    destruct (tables_apply prev last st e Hok) as (Ht & Hm' & Hp); [lia..|].
    destruct (IH (prev ++ [e]) (entry_last e) (apply_entry e st) Ht Hinc Hms) as (Hok' & Hm2 & Hp2); [lia|].
    rewrite <- app_assoc in Hok'. cbn [apply_entries fold_left]. split; [done|].
    split; [|rewrite <- Hp; exact Hp2]. unfold entries_max in *. cbn [fold_left]. rewrite <- Hm'. exact Hm2.
Qed.

(** ** Layout of the loaded table *)

(** The words of one message: the size of the direct table, the table, the ranges. *)
Definition block_of (d r : list Z) : list Z := zlen d :: d ++ r.
Definition block_ok (es : list entry) (b : list Z) : Prop :=
  exists last d r, b = block_of d r /\ tables_ok es last d r.
Fixpoint offsets (base : Z) (blocks : list (list Z)) : list Z :=
  match blocks with [] => [] | b :: bs => base :: offsets (base + zlen b) bs end.
Definition layout (blocks : list (list Z)) (p : Parser) : Prop :=
  words_ p = concat blocks /\ message_offset_ p = offsets 0 blocks.

Lemma offsets_snoc base bs b : offsets base (bs ++ [b]) = offsets base bs ++ [base + zlen (concat bs)].
Proof.
  revert base. induction bs as [|x bs IH]; intros base; cbn [offsets app concat]; [by rewrite Z.add_0_r|].
  rewrite IH, zlen_app. cbn [app]. do 3 f_equal. lia.
Qed.

Lemma offsets_lookup base bs (i : nat) : (i <= length bs)%nat ->
  (offsets base bs ++ [base + zlen (concat bs)]) !! i = Some (base + zlen (concat (take i bs))).
Proof.
  revert base i. induction bs as [|x bs IH]; intros base i Hi; cbn [offsets app concat].
  - destruct i; [|simpl in Hi; lia]. done.
  - destruct i as [|i]; [cbn; f_equal; rewrite zlen_nil; lia|]. cbn [lookup list_lookup take concat].
    rewrite !zlen_app, Z.add_assoc, IH by (simpl in Hi; lia). f_equal. lia.
Qed.

Lemma length_offsets base bs : length (offsets base bs) = length bs.
Proof. revert base. induction bs; intros; cbn; auto. Qed.

Lemma layout_end blocks p d r mx : layout blocks p -> zlen (words_ p) < 4294967296 -> zlen d <= kDirectlyIndexLimit ->
  layout (blocks ++ [block_of d r]) (parser (end_of_message (mkLoad d r mx p))).
Proof.
  intros [Hw Ho] Hs Hd. unfold end_of_message, kDirectlyIndexLimit in *. cbn [parser direct_indexed_fields ranges].
  pose proof (zlen_nonneg (words_ p)). pose proof (zlen_nonneg d). split; cbn [words_ message_offset_].
  - rewrite u32_small by lia. rewrite Hw, concat_app. cbn. by rewrite app_nil_r.
  - rewrite u32_small by lia. by rewrite offsets_snoc, Ho, Hw.
Qed.

Lemma Query_layout blocks p msg_index f : words_ p = concat blocks ->
  message_offset_ p = offsets 0 blocks ++ [zlen (concat blocks)] -> 0 <= msg_index ->
  Query msg_index f p =
    match blocks !! Z.to_nat msg_index with
    | None => Some (mkQR false 0)
    | Some [] => None
    | Some (num :: word) =>
        match (if f <? num then word !! Z.to_nat f else Some (search_ranges (zdrop num word) f)) with
        | Some s => Some (mkQR (negb (s .& kAllowed =? 0)) (s .& (2 ^ 32 - 1 - kAllowed)))
        | None => None
        end
    end.
Proof.
  intros Hw Ho Hm. unfold Query. rewrite Hw, Ho.
  assert (zlen (offsets 0 blocks ++ [zlen (concat blocks)]) = Z.of_nat (length blocks) + 1) as ->.
  { rewrite zlen_app. unfold zlen at 1. by rewrite length_offsets. }
  destruct (Z.leb_spec (Z.of_nat (length blocks) + 1) (msg_index + 1)).
  - by rewrite lookup_ge_None_2 by lia.
  - destruct (lookup_lt_is_Some_2 blocks (Z.to_nat msg_index)) as [b Hb]; [lia|]. rewrite Hb.
    pose proof (offsets_lookup 0 blocks (Z.to_nat msg_index) ltac:(lia)) as H1.
    pose proof (offsets_lookup 0 blocks (Z.to_nat (msg_index + 1)) ltac:(lia)) as H2.
    rewrite Z.add_0_l in H1, H2. rewrite H1, H2, !Z.add_0_l. replace (Z.to_nat (msg_index + 1)) with (S (Z.to_nat msg_index)) by lia.
    rewrite (take_S_r _ _ b) by done. rewrite concat_app, zlen_app. cbn [concat]. rewrite app_nil_r.
    pose proof (f_equal (@concat Z) (take_drop_middle blocks _ b Hb)) as Hc. rewrite <- Hc, concat_app. cbn [concat].
    rewrite !zlen_app. pose proof (zlen_nonneg (concat (drop (S (Z.to_nat msg_index)) blocks))).
    match goal with |- context [?x <? ?y] => destruct (Z.ltb_spec x y); [lia|] end.
    rewrite Z.add_simpl_l, zread_app_exact. done.
Qed.

(** ** Arbitrary bytecode *)

Definition raw_block (b : list Z) : Prop := exists d r, b = block_of d r /\ zlen d <= kDirectlyIndexLimit.
(** Words kept so far; the parser adds at most 132 of them per word of bytecode. *)
Definition load_size (st : LoadState) : Z := zlen (words_ (parser st)) + zlen (ranges st).
Record load_ok (st : LoadState) : Prop := {
  lo_direct : zlen (direct_indexed_fields st) <= kDirectlyIndexLimit;
  lo_layout : exists blocks, layout blocks (parser st) /\ Forall raw_block blocks
}.

Lemma load_ok_add_field id m st : 0 <= id -> load_ok st ->
  load_ok (add_field id m st) /\ load_size st <= load_size (add_field id m st) <= load_size st + 3.
Proof.
  intros Hid [Hd Hl]. unfold add_field, load_size, kDirectlyIndexLimit in *. destruct (Z.ltb_spec id 128);
    cbn [ranges parser]; (split; [constructor; [|done]|]); cbn [direct_indexed_fields]; unfold kDirectlyIndexLimit; try done.
  - rewrite add_direct_length by lia. lia.
  - lia.
  - unfold add_range. rewrite zlen_app. change (zlen [?a; ?b; ?c]) with 3. lia.
Qed.

Lemma load_ok_add_range s n st : 0 <= s -> load_ok st ->
  load_ok (add_simple_range s n st) /\ load_size st <= load_size (add_simple_range s n st) <= load_size st + 3.
Proof.
  intros Hs [Hd Hl]. unfold add_simple_range, load_size.
  pose proof (add_direct_range_spec (Z.to_nat kDirectlyIndexLimit) s (u32 (s + n)) (direct_indexed_fields st)
    Hs Hd ltac:(unfold kDirectlyIndexLimit; lia)) as Hr. cbv zeta in Hr.
  destruct (add_direct_range _ _ _ _) as [id d]. cbn [fst snd] in Hr. destruct Hr as (_ & Hlen & _).
  cbn [ranges parser]. split; [by constructor|]. destruct (id <? _); [|lia].
  unfold add_range. rewrite zlen_app. change (zlen [?a; ?b; ?c]) with 3. lia.
Qed.

Lemma load_ok_end st : load_ok st -> load_size st < 4294967296 ->
  load_ok (end_of_message st) /\ load_size st <= load_size (end_of_message st) <= load_size st + 129.
Proof.
  intros [Hd (blocks & Hl & Hb)] Hs. destruct st as [d r mx p]. unfold load_size in *.
  cbn [ranges parser direct_indexed_fields] in *.
  pose proof (zlen_nonneg r). split.
  - constructor; [done|]. exists (blocks ++ [block_of d r]). split; [apply layout_end; (done || lia)|].
    apply Forall_app. split; [done|]. apply Forall_singleton. by exists d, r.
  - unfold kDirectlyIndexLimit, end_of_message in *. cbn [words_ parser ranges direct_indexed_fields].
    rewrite !zlen_app. change (zlen [?a]) with 1. change (zlen (@nil Z)) with 0. pose proof (zlen_nonneg d). lia.
Qed.

Lemma load_loop_ok n : forall ws st st', (length ws <= n)%nat -> Forall (fun w => 0 <= w) ws -> load_ok st ->
  load_size st + 132 * zlen ws < 4294967296 -> load_loop ws st = Some st' ->
  load_ok st' /\ load_size st' <= load_size st + 132 * zlen ws.
Proof.
  induction n as [|n IH]; intros ws st st' Hn Hw Hok Hs; (destruct ws as [|w rest];
    [cbn [load_loop]; intros [= <-]; change (zlen (@nil Z)) with 0 in *; split; [done|lia]|]); [simpl in Hn; lia|].
  rewrite zlen_cons in *. pose proof (zlen_nonneg rest). cbn [length] in Hn. inversion_clear Hw as [|? ? Hw0 Hwr].
  cbn [load_loop]. assert (Hid : 0 <= w .>> 3) by (by apply Z.shiftr_nonneg).
  destruct (_ && _); [done|]. destruct (_ =? kFilterOpcode_SimpleField).
  { intros Hl. destruct (load_ok_add_field (w .>> 3) kSimpleField st Hid Hok) as [Hok1 Hs1].
    apply IH in Hl as [? ?]; [|lia|done|done|lia]. split; [done|lia]. }
  destruct (_ =? kFilterOpcode_NestedField).
  { destruct rest as [|m rest]; [done|]. rewrite zlen_cons in *. pose proof (zlen_nonneg rest). cbn [length] in Hn. intros Hl. inversion_clear Hwr as [|? ? _ Hwr'].
    assert (Hm : load_ok (set_max m st)) by by destruct Hok.
    destruct (load_ok_add_field (w .>> 3) m (set_max m st) Hid Hm) as [Hok1 Hs1].
    change (load_size (set_max m st)) with (load_size st) in Hs1.
    apply IH in Hl as [? ?]; [|lia|done|done|lia]. split; [done|lia]. }
  destruct (_ =? kFilterOpcode_SimpleFieldRange).
  { destruct rest as [|m rest]; [done|]. rewrite zlen_cons in *. pose proof (zlen_nonneg rest). cbn [length] in Hn. intros Hl. inversion_clear Hwr as [|? ? _ Hwr'].
    destruct (load_ok_add_range (w .>> 3) m st Hid Hok) as [Hok1 Hs1].
    apply IH in Hl as [? ?]; [|lia|done|done|lia]. split; [done|lia]. }
  destruct (_ =? kFilterOpcode_EndOfMessage); [|done].
  intros Hl. destruct (load_ok_end st Hok) as [Hok1 Hs1]; [lia|].
  apply IH in Hl as [? ?]; [|lia|done|done|lia]. split; [done|lia].
Qed.

Lemma packed_collect_words fuel it l e : packed_collect fuel kVarInt uint32_t it = (l, e) -> 0 <= curr_value_ it -> bytes_ok (pk_read it) ->
  Forall (fun w => 0 <= w) l /\ zlen l <= zlen (pk_read it) + 1.
Proof.
  revert it l e. induction fuel as [|fuel IH]; intros it l e; cbn [packed_collect].
  - intros [= <- _] _ _. split; [constructor|]. change (zlen (@nil Z)) with 0. pose proof (zlen_nonneg (pk_read it)). lia.
  - destruct (curr_value_valid_ it) eqn:Ev.
    2: { intros [= <- _] _ _. split; [constructor|]. change (zlen (@nil Z)) with 0. pose proof (zlen_nonneg (pk_read it)). lia. }
    destruct (packed_collect fuel _ _ _) as [l' e'] eqn:Ec. intros [= <- _] H0 Hb.
    rewrite zlen_cons. unfold packed_next in Ec. rewrite Ev in Ec. cbn [negb] in Ec.
    pose proof (zlen_nonneg (pk_read it)) as Hpr.
    assert (Hstop : forall i, curr_value_valid_ i = false -> packed_collect fuel kVarInt uint32_t i = (l', e') -> l' = []).
    { intros i Hi. destruct fuel; cbn [packed_collect]; [by intros [= <- _]|]. rewrite Hi. by intros [= <- _]. }
    case_bool_decide as Hnil.
    { apply Hstop in Ec as ->; [|done]. split; [by constructor|]. change (zlen (@nil Z)) with 0. lia. }
    destruct (ParseVarInt (pk_read it)) as [k v] eqn:Ep. destruct (Z.eqb_spec k 0) as [->|Hk].
    { apply Hstop in Ec as ->; [|done]. split; [by constructor|]. change (zlen (@nil Z)) with 0. lia. }
    apply IH in Ec as [Hl Hz]; [|cbn [curr_value_]; unfold to_type; simpl; apply (uw_range 32); lia|cbn [pk_read]; auto with bytes].
    split; [by constructor|]. cbn [pk_read] in Hz. pose proof (ParseVarInt_bound (pk_read it) Hb) as Hk'.
    rewrite Ep in Hk'. cbn [fst] in Hk'. rewrite zlen_zdrop in Hz by lia. lia.
Qed.

Lemma PackedValues_words bytes l e : bytes_ok bytes -> PackedValues kVarInt uint32_t bytes = (l, e) ->
  Forall (fun w => 0 <= w) l /\ zlen l <= zlen bytes + 1.
Proof.
  intros Hb. unfold PackedValues. set (it := PackedRepeatedFieldIterator _ _ _).
  assert (Hit : 0 <= curr_value_ it /\ bytes_ok (pk_read it) /\ zlen (pk_read it) <= zlen bytes).
  { unfold it, PackedRepeatedFieldIterator. destruct (zlen bytes =? 0); [cbn; split; [lia|split; [done|lia]]|].
    unfold packed_next. cbn [curr_value_valid_ negb pk_read]. case_bool_decide; [cbn; split; [lia|split; [done|lia]]|].
    pose proof (ParseVarInt_bound bytes Hb) as Hk. destruct (ParseVarInt bytes) as [k v]. cbn [fst] in Hk.
    destruct (k =? 0); cbn [curr_value_ pk_read]; [split; [lia|split; [done|lia]]|].
    split; [unfold to_type; simpl; apply (uw_range 32); lia|]. split; [auto with bytes|]. rewrite zlen_zdrop; lia. }
  destruct Hit as (H0 & Hbi & Hz). intros Hc. apply packed_collect_words in Hc as [? ?]; [|done|done]. split; [done|lia].
Qed.

(** ** Loading a whole filter *)

Lemma apply_entry_size e st : load_size (apply_entry e st) <= load_size st + 3.
Proof.
  assert (Hadd : forall id m st, load_size (add_field id m st) <= load_size st + 3).
  { intros id m s. unfold add_field, load_size, add_range. destruct (id <? _); cbn [ranges parser]; [lia|].
    rewrite zlen_app. change (zlen [?a; ?b; ?c]) with 3. lia. }
  destruct e as [id|s n|id m]; cbn [apply_entry]; [apply Hadd| |apply (Hadd id m (set_max m st))].
  unfold add_simple_range, load_size. destruct (add_direct_range _ _ _ _). cbn [ranges parser]. destruct (_ <? _); [|lia].
  unfold add_range. rewrite zlen_app. change (zlen [?a; ?b; ?c]) with 3. lia.
Qed.

Lemma load_entries es : forall st rest, Forall (fun e => 1 <= entry_first e /\ entry_first e <= entry_last e < 2 ^ 29) es ->
  load_loop (concat (map entry_words es) ++ rest) st = load_loop rest (apply_entries es st) /\
  load_size (apply_entries es st) <= load_size st + 3 * zlen es.
Proof.
  induction es as [|e es IH]; intros st rest Hes; cbn [apply_entries fold_left map concat].
  - split; [done|]. change (zlen (@nil entry)) with 0. lia.
  - inversion_clear Hes as [|? ? [H1 H2] Hes']. rewrite <- app_assoc, load_entry by done.
    destruct (IH (apply_entry e st) rest Hes') as [-> Hs]. split; [done|]. unfold apply_entries in Hs.
    pose proof (apply_entry_size e st). rewrite zlen_cons. lia.
Qed.

Lemma increasing_ids last es : 0 <= last -> increasing last es ->
  Forall (fun e => 1 <= entry_first e /\ entry_first e <= entry_last e < 2 ^ 29) es.
Proof.
  revert last. induction es as [|e es IH]; intros last Hl; [constructor|]. intros (H1 & H2 & H3 & Hinc).
  constructor; [lia|]. apply (IH (entry_last e)); [lia|done].
Qed.

Lemma load_message es rest mx p blocks : increasing 0 es -> Forall (fun e => 0 <= entry_max e < 2 ^ 31) es -> 0 <= mx ->
  layout blocks p -> zlen (words_ p) + 3 * zlen es < 4294967296 ->
  exists b p', load_loop (message_words es ++ rest) (mkLoad [] [] mx p) = load_loop rest (mkLoad [] [] (entries_max es mx) p') /\
    layout (blocks ++ [b]) p' /\ block_ok es b /\ zlen (words_ p') <= zlen (words_ p) + 129 + 3 * zlen es.
Proof.
  intros Hinc Hmx H0 Hl Hs. unfold message_words. rewrite <- app_assoc.
  set (st := mkLoad [] [] mx p). destruct (load_entries es st ([kFilterOpcode_EndOfMessage] ++ rest)) as [-> Hsz];
    [by eapply (increasing_ids 0)|].
  destruct (tables_apply_entries es [] 0 st tables_empty Hinc Hmx H0) as ((last' & Ht) & Hm & Hp).
  set (st' := apply_entries es st) in *. change (load_size st) with (zlen (words_ p) + zlen (@nil Z)) in Hsz.
  change (zlen (@nil Z)) with 0 in Hsz. unfold load_size in Hsz. change (parser st) with p in *.
  cbn [app] in Ht. exists (block_of (direct_indexed_fields st') (ranges st')), (parser (end_of_message st')). split; [|split; [|split]].
  - cbn [app load_loop]. unfold kFilterOpcode_EndOfMessage. cbn [Z.land Z.shiftr Z.shiftl Z.opp Z.eqb negb andb].
    unfold kFilterOpcode_SimpleField, kFilterOpcode_NestedField, kFilterOpcode_SimpleFieldRange. cbn [Z.eqb].
    f_equal. unfold end_of_message. cbn [parser]. by rewrite Hm.
  - destruct st' as [d r mx' p']. cbn [parser direct_indexed_fields ranges max_msg_index] in *. subst p'.
    apply layout_end; [done|pose proof (zlen_nonneg r); lia|by destruct Ht].
  - exists last', (direct_indexed_fields st'), (ranges st'). done.
  - unfold end_of_message. cbn [parser words_]. rewrite Hp, !zlen_app. change (zlen [?a]) with 1.
    rewrite Hp in Hsz. pose proof (to_len _ _ _ _ Ht) as Hd. unfold kDirectlyIndexLimit in Hd. lia.
Qed.

Definition filter_max (ms : list (list entry)) (mx : Z) : Z := fold_left (fun mx es => entries_max es mx) ms mx.

Lemma zlen_message_words es : 1 + zlen es <= zlen (message_words es).
Proof.
  unfold message_words. rewrite zlen_app. change (zlen [?a]) with 1.
  induction es as [|e es IH]; [vm_compute; discriminate|]. cbn [map concat]. rewrite zlen_app, zlen_cons.
  assert (1 <= zlen (entry_words e)) by (destruct e; vm_compute; discriminate). lia.
Qed.

Lemma entries_max_ge es mx : mx <= entries_max es mx.
Proof. unfold entries_max. revert mx. induction es as [|e es IH]; intros mx; cbn [fold_left]; [lia|]. specialize (IH (Z.max mx (entry_max e))). lia. Qed.

Lemma load_filter ms : forall mx p blocks, Forall (increasing 0) ms ->
  Forall (Forall (fun e => 0 <= entry_max e < 2 ^ 31)) ms -> 0 <= mx -> layout blocks p ->
  zlen (words_ p) + 132 * zlen (filter_words ms) < 4294967296 ->
  exists bs p', load_loop (filter_words ms) (mkLoad [] [] mx p) = Some (mkLoad [] [] (filter_max ms mx) p') /\
    layout (blocks ++ bs) p' /\ Forall2 block_ok ms bs /\ zlen (words_ p') < 4294967296.
Proof.
  induction ms as [|es ms IH]; intros mx p blocks Hinc Hmx H0 Hl Hs.
  - exists [], p. rewrite app_nil_r. change (zlen (filter_words [])) with 0 in Hs. split; [done|]. split; [done|]. split; [constructor|lia].
  - inversion_clear Hinc as [|? ? Hi Hinc']. inversion_clear Hmx as [|? ? Hm Hmx'].
    unfold filter_words in *. cbn [map concat] in *. rewrite zlen_app in Hs.
    pose proof (zlen_message_words es) as Hw. pose proof (zlen_nonneg es). pose proof (zlen_nonneg (concat (map message_words ms))).
    destruct (load_message es (concat (map message_words ms)) mx p blocks Hi Hm H0 Hl) as (b & p1 & -> & Hl1 & Hb & Hs1); [lia|].
    destruct (IH (entries_max es mx) p1 (blocks ++ [b]) Hinc' Hmx') as (bs & p2 & -> & Hl2 & Hbs & Hs2);
      [pose proof (entries_max_ge es mx); lia|done|lia|].
    exists (b :: bs), p2. rewrite <- app_assoc in Hl2. split; [done|]. split; [done|]. split; [by constructor|done].
Qed.

(** ** The generator *)

Lemma gen_entries es : forall g, increasing (last_field_id_ g) es -> 0 <= last_field_id_ g -> 0 <= max_msg_index_ g ->
  fold_left (fun acc e => let! g := acc in add_entry e g) es (Ok g) =
  Ok (mkGen (num_messages_ g) (match last es with Some e => entry_last e | None => last_field_id_ g end)
        (entries_max es (max_msg_index_ g)) (match es with [] => endmessage_called_ g | _ => false end)
        (bytecode_ g ++ concat (map entry_words es))).
Proof.
  induction es as [|e es IH]; intros g Hinc H0 Hmx.
  - cbn. rewrite app_nil_r. by destruct g.
  - destruct Hinc as (H1 & H2 & H3 & Hinc). change (2 ^ 29) with 536870912 in H3. cbn [fold_left obind].
    assert (He : add_entry e g = Ok (mkGen (num_messages_ g) (entry_last e) (Z.max (max_msg_index_ g) (entry_max e)) false
                                       (bytecode_ g ++ entry_words e))).
    { destruct e as [id|s n|id m]; cbn [add_entry entry_first entry_last entry_max entry_words] in *;
        unfold AddSimpleField, AddSimpleFieldRange, AddNestedField.
      - destruct (Z.ltb_spec (last_field_id_ g) id); [|lia]. cbn [perfetto_check obind]. rewrite Z.max_l by lia. done.
      - destruct (Z.ltb_spec (last_field_id_ g) s); [|lia]. destruct (Z.ltb_spec 0 n); [|lia]. cbn [perfetto_check obind].
        rewrite u32_small, Z.max_l by lia. done.
      - destruct (Z.ltb_spec (last_field_id_ g) id); [|lia]. cbn [perfetto_check obind]. done. }
    rewrite He, IH by (done || cbn; lia).
    cbn [num_messages_ last_field_id_ max_msg_index_ endmessage_called_ bytecode_ map concat]. rewrite <- app_assoc.
    destruct es as [|e' es]; [done|]. change (last (e :: e' :: es)) with (last (e' :: es)).
    destruct (last (e' :: es)) eqn:El; [done|]. by apply last_None in El.
Qed.

Lemma gen_messages ms : forall g, Forall (increasing 0) ms -> last_field_id_ g = 0 -> 0 <= max_msg_index_ g ->
  0 <= num_messages_ g -> num_messages_ g + zlen ms < 4294967296 ->
  exists g', fold_left (fun acc es => let! g := acc in gen_message es g) ms (Ok g) = Ok g' /\
    num_messages_ g' = num_messages_ g + zlen ms /\ max_msg_index_ g' = filter_max ms (max_msg_index_ g) /\
    bytecode_ g' = bytecode_ g ++ filter_words ms /\ (ms <> [] -> endmessage_called_ g' = true).
Proof.
  induction ms as [|es ms IH]; intros g Hinc Hl H0 Hn Hs.
  - exists g. change (zlen (@nil (list entry))) with 0. unfold filter_words. cbn. rewrite app_nil_r. repeat split; (done || lia).
  - inversion_clear Hinc as [|? ? Hi Hinc']. rewrite zlen_cons in *. pose proof (zlen_nonneg ms). cbn [fold_left obind].
    unfold gen_message at 2. rewrite (gen_entries es g) by (rewrite ?Hl; (done || lia)). cbn [obind].
    unfold EndMessage. cbn [num_messages_ max_msg_index_ bytecode_]. rewrite u32_small by lia.
    match goal with |- context [fold_left _ ms (Ok ?x)] => destruct (IH x) as (g' & Hg & Hn' & Hm' & Hb' & He') end;
      [done|done|cbn; pose proof (entries_max_ge es (max_msg_index_ g)); lia|cbn; lia|cbn; lia|].
    cbn [num_messages_ max_msg_index_ bytecode_] in *. exists g'. split; [exact Hg|]. split; [lia|]. split; [done|].
    split; [|]. { rewrite Hb'. unfold filter_words, message_words. cbn [map concat]. by rewrite <- !app_assoc. }
    intros _. destruct ms as [|es' ms]; [|by apply He']. cbn in Hg. injection Hg as <-. done.
Qed.

Lemma entries_max_bound es n mx : targets_ok n es -> 0 <= mx < n -> 0 <= entries_max es mx < n.
Proof.
  unfold entries_max. intros Hes. revert mx. induction Hes as [|e es He Hes IH]; intros mx Hmx; [done|].
  cbn [fold_left]. apply IH. destruct e; cbn [entry_max] in *; lia.
Qed.

Lemma filter_max_bound ms n mx : Forall (targets_ok n) ms -> 0 <= mx < n -> 0 <= filter_max ms mx < n.
Proof.
  unfold filter_max. intros Hms. revert mx. induction Hms as [|es ms Hes Hms IH]; intros mx Hmx; [done|].
  cbn [fold_left]. apply IH. by apply entries_max_bound.
Qed.

Lemma words_in_type ms n : Forall (increasing 0) ms -> Forall (targets_ok n) ms -> n < 4294967296 ->
  Forall (in_type uint32_t) (filter_words ms).
Proof.
  intros Hinc Hms Hn. apply Forall_concat, Forall_map. rewrite Forall_forall in *. intros es Hes.
  specialize (Hinc es Hes). specialize (Hms es Hes). unfold message_words. apply Forall_app. split.
  2: { repeat constructor; done. }
  pose proof (increasing_ids 0 es ltac:(lia) Hinc) as Hids. apply Forall_concat, Forall_map. unfold targets_ok in Hms.
  rewrite Forall_forall in *. intros e He. specialize (Hids e He). specialize (Hms e He). change (2 ^ 29) with 536870912 in Hids.
  assert (Hw : forall id op, 0 <= id < 536870912 -> 0 <= op < 8 -> in_type uint32_t (u32 (id .<< 3) .| op)).
  { intros id op Hi Ho. destruct (word_fields id op Hi Ho) as (_ & _ & _ & Hr). exact Hr. }
  destruct e as [id|s k|id m]; cbn [entry_words entry_first entry_last] in *; repeat constructor;
    try (apply Hw; unfold kFilterOpcode_SimpleField, kFilterOpcode_SimpleFieldRange, kFilterOpcode_NestedField; lia);
    unfold in_type; simpl; lia.
Qed.

(** ** Queries *)

Lemma filter_lookup_range es f t : Forall (fun e => 0 <= entry_max e < 2 ^ 31) es -> filter_lookup es f = Some t -> 0 <= t < 2 ^ 31.
Proof.
  induction 1 as [|e es He Hes IH]; [done|]. cbn [filter_lookup]. destruct (covers e f); [|done].
  intros [= <-]. destruct e; cbn [entry_target entry_max] in *; unfold kSimpleField; change (2 ^ 31) with 2147483648 in *; lia.
Qed.

(** A block answers as its entries say. *)
Lemma block_query es b f : block_ok es b -> Forall (fun e => 0 <= entry_max e < 2 ^ 31) es -> 0 <= f ->
  match b with
  | [] => None
  | num :: word =>
      match (if f <? num then word !! Z.to_nat f else Some (search_ranges (zdrop num word) f)) with
      | Some s => Some (mkQR (negb (s .& kAllowed =? 0)) (s .& (2 ^ 32 - 1 - kAllowed)))
      | None => None
      end
  end = Some (match filter_lookup es f with None => mkQR false 0 | Some t => mkQR true t end).
Proof.
  intros (last & d & r & -> & [Hlen Hdir Hlow Hrng _ _]) Hmx Hf. unfold block_of, kDirectlyIndexLimit in *.
  assert (Hs : (if f <? zlen d then (d ++ r) !! Z.to_nat f else Some (search_ranges (zdrop (zlen d) (d ++ r)) f))
    = Some (encode_state (filter_lookup es f))).
  { destruct (Z.ltb_spec f (zlen d)).
    - destruct (lookup_lt_is_Some_2 d (Z.to_nat f)) as [x Hx]; [unfold zlen in *; lia|].
      rewrite lookup_app_l by (unfold zlen in *; lia). rewrite Hx. f_equal.
      rewrite <- Hdir by lia. unfold znth. by rewrite Hx.
    - rewrite zdrop_zlen_app. f_equal. destruct (Z.lt_ge_cases f 128); [|by apply Hrng].
      rewrite Hlow by lia. rewrite <- Hdir by lia. symmetry. by apply znth_out. }
  rewrite Hs. destruct (filter_lookup es f) as [t|] eqn:Et; [|done]. cbn [encode_state].
  destruct (kAllowed_state t) as (_ & -> & -> & _); [by eapply filter_lookup_range|done].
Qed.

(** The serialized words, as the loader reads them back. *)
Lemma Serialize_spec g : endmessage_called_ g = true -> max_msg_index_ g < num_messages_ g ->
  Forall (in_type uint32_t) (bytecode_ g) ->
  exists bytes, Serialize g = Ok bytes /\
    PackedValues kVarInt uint32_t bytes = (bytecode_ g ++ [u32 (hash_words (bytecode_ g))], false).
Proof.
  intros He Hm Hw. unfold Serialize. rewrite He. destruct (Z.ltb_spec (max_msg_index_ g) (num_messages_ g)); [|lia].
  cbn [perfetto_check obind]. set (ws := bytecode_ g ++ _). destruct (packed_ok_Reset 0) as [Hok Hd].
  destruct (append_all_spec 0 (PackedVarInt_Append 0 uint32_t) (WriteVarInt uint32_t) ws (PackedBuffer_Reset 0) Hok)
    as (b & -> & _ & Hdata); [done|intros v; apply (WriteVarInt_spec uint32_t v int_type_ok_u32)|].
  exists (packed_data b). split; [done|]. rewrite Hdata, Hd. apply PackedValues_varints; [apply int_type_ok_u32|].
  apply Forall_app. split; [done|]. apply Forall_singleton. unfold in_type. simpl. apply u32_range.
Qed.

Lemma LoadInternal_words bytes ws p : PackedValues kVarInt uint32_t bytes = (ws ++ [u32 (hash_words ws)], false) ->
  LoadInternal bytes p =
  match load_loop ws (mkLoad [] [] 0 p) with
  | None => None
  | Some st =>
      let p := parser st in
      if (0 <? max_msg_index st) && (zlen (message_offset_ p) <=? max_msg_index st) then None
      else Some (mkParser (words_ p) (message_offset_ p ++ [u32 (zlen (words_ p))]) (suppress_logs_for_fuzzer_ p))
  end.
Proof.
  intros Hw. unfold LoadInternal. rewrite Hw, last_snoc, zlen_app. change (zlen [?a]) with 1.
  rewrite Z.add_simpl_r, ztake_zlen_app, Z.eqb_refl. done.
Qed.

(** ** Properties *)

(** C39. Generating, serializing and loading a filter is faithful: for every filter of at
    least one message, with field ids increasing within a message and below 2^29 (the
    generator does not check the latter, see [large_field_id_wraps]), existing nested targets
    and fewer than 2^32 / 132 words, the generator does not abort, the bytecode loads, and for every message and field the
    parser answers exactly what the filter says, for direct fields, ranges (also
    across the limit of the direct table) and nested fields. *)
Theorem filter_bytecode_roundtrip (ms : list (list entry)) (p : Parser) : ms <> [] ->
  Forall (increasing 0) ms -> Forall (targets_ok (zlen ms)) ms -> 132 * zlen (filter_words ms) < 4294967296 ->
  exists g bytes p', generate ms = Ok g /\ Serialize g = Ok bytes /\ Load bytes p = (true, p') /\
    forall msg_index field_id, 0 <= msg_index -> 0 <= field_id ->
      Query msg_index field_id p' = Some (filter_query ms msg_index field_id).
Proof.
  intros Hne Hinc Htg Hsz.
  assert (Hlen : 1 <= zlen ms <= zlen (filter_words ms)).
  { destruct ms as [|m0 ms']; [done|]. split; [rewrite zlen_cons; pose proof (zlen_nonneg ms'); lia|]. clear.
    induction (m0 :: ms') as [|es ms IH]; [done|]. unfold filter_words in *. cbn [map concat]. rewrite zlen_cons, zlen_app.
    pose proof (zlen_message_words es). pose proof (zlen_nonneg es). lia. }
  assert (Hmx : Forall (Forall (fun e => 0 <= entry_max e < 2 ^ 31)) ms).
  { eapply Forall_impl; [exact Htg|]. intros es Hes. eapply Forall_impl; [exact Hes|].
    intros e He. change (2 ^ 31) with 2147483648. destruct e; cbn [entry_max] in *; lia. }
  destruct (gen_messages ms FilterBytecodeGenerator Hinc) as (g & Hg & Hn & Hm & Hb & He); [done|done|done|cbn [num_messages_ FilterBytecodeGenerator]; lia|].
  cbn [num_messages_ max_msg_index_ bytecode_ FilterBytecodeGenerator app] in Hn, Hm, Hb.
  pose proof (filter_max_bound ms (zlen ms) 0 Htg ltac:(lia)) as Hfm.
  destruct (Serialize_spec g (He Hne)) as (bytes & Hs & Hw); [lia|rewrite Hb; apply (words_in_type ms (zlen ms)); (done || lia)|].
  destruct (load_filter ms 0 (Reset p) [] Hinc Hmx) as (bs & p1 & Hl & [Hl1 Hl2] & Hbs & Hsz1);
    [done|done|cbn [words_ Reset]; change (zlen (@nil Z)) with 0; lia|]. cbn [app] in Hl1, Hl2.
  exists g, bytes, (mkParser (words_ p1) (message_offset_ p1 ++ [u32 (zlen (words_ p1))]) (suppress_logs_for_fuzzer_ p1)).
  split; [done|]. split; [done|]. split.
  - unfold Load. rewrite (LoadInternal_words _ _ _ Hw), Hb, Hl. cbn [parser max_msg_index].
    rewrite Hl2. unfold zlen at 1. rewrite length_offsets, <- (Forall2_length _ _ _ Hbs).
    fold (zlen ms). destruct (Z.leb_spec (zlen ms) (filter_max ms 0)); [lia|]. by rewrite andb_false_r.
  - intros mi f Hmi Hf. pose proof (zlen_nonneg (words_ p1)).
    rewrite (Query_layout bs) by (done || (cbn [message_offset_]; rewrite u32_small by lia; by rewrite Hl2, Hl1)).
    unfold filter_query. destruct (ms !! Z.to_nat mi) as [es|] eqn:Ees.
    + destruct (Forall2_lookup_l _ _ _ _ _ Hbs Ees) as (b & -> & Hbo).
      apply (block_query es b f Hbo); [|done]. by eapply Forall_lookup in Ees.
    + apply lookup_ge_None_1 in Ees. rewrite (Forall2_length _ _ _ Hbs) in Ees. by rewrite lookup_ge_None_2.
Qed.

Lemma filter_bytecode_roundtrip_witness :
  exists g bytes p', generate [[ESimple 1; ERange 126 4; ENested 200 1]; [ESimple 5]] = Ok g /\ Serialize g = Ok bytes /\
    Load bytes (mkParser [] [] false) = (true, p') /\ Query 0 129 p' = Some (mkQR true kSimpleField) /\
    Query 0 200 p' = Some (mkQR true 1) /\ Query 1 6 p' = Some (mkQR false 0).
Proof.
  destruct (filter_bytecode_roundtrip [[ESimple 1; ERange 126 4; ENested 200 1]; [ESimple 5]] (mkParser [] [] false))
    as (g & bytes & p' & H1 & H2 & H3 & H4).
  - discriminate.
  - repeat constructor; simpl; lia.
  - repeat constructor; change (zlen _) with 2; lia.
  - vm_compute. reflexivity.
  - exists g, bytes, p'. split; [exact H1|]. split; [exact H2|]. split; [exact H3|].
    split; [rewrite H4 by lia; reflexivity|]. split; [rewrite H4 by lia; reflexivity|]. rewrite H4 by lia. reflexivity.
Defined.

(** The generator accepts a field id of 2^29 or more, but [field_id << 3] loses its high bits:
    the filter that allows field 2^29 + 1 loads as one that allows field 1. *)
Theorem large_field_id_wraps :
  (let! g := generate [[ESimple (2 ^ 29 + 1)]] in let! bytes := Serialize g in let '(loaded, p) := Load bytes (mkParser [] [] false) in
   Ok (loaded, Query 0 (2 ^ 29 + 1) p, Query 0 1 p)) = Ok (true, Some (mkQR false 0), Some (mkQR true kSimpleField)).
Proof. vm_compute. reflexivity. Qed.

(** Every query of a parser loaded from arbitrary bytes stays inside its tables. *)
Definition queries_safe (p : Parser) : Prop := forall msg_index field_id, 0 <= msg_index -> 0 <= field_id -> is_Some (Query msg_index field_id p).

Lemma Query_Reset q mi f : 0 <= mi -> Query mi f (Reset q) = Some (mkQR false 0).
Proof.
  intros Hmi. unfold Query. cbn [message_offset_ Reset]. change (zlen (@nil Z)) with 0. destruct (Z.leb_spec 0 (mi + 1)); [done|lia].
Qed.

Lemma LoadInternal_checksum bytes p p' : LoadInternal bytes p = Some p' ->
  exists ws, PackedValues kVarInt uint32_t bytes = (ws ++ [u32 (hash_words ws)], false).
Proof.
  unfold LoadInternal. intros El. destruct (PackedValues kVarInt uint32_t bytes) as [words err] eqn:Ew.
  destruct (last words) as [csum|] eqn:Elast; [|done].
  apply last_Some in Elast as [ws ->]. destruct err; [done|]. rewrite zlen_app in El. change (zlen [csum]) with 1 in El.
  rewrite Z.add_simpl_r, ztake_zlen_app in El. destruct (Z.eqb_spec (u32 (hash_words ws)) csum) as [<-|]; [|done]. by exists ws.
Qed.

Lemma Load_queries_safe bytes p : bytes_ok bytes -> zlen bytes < 2 ^ 24 -> queries_safe (Load bytes p).2.
Proof.
  intros Hb Hsz mi f Hmi Hf. change (2 ^ 24) with 16777216 in Hsz. unfold Load.
  destruct (LoadInternal bytes (Reset p)) as [p'|] eqn:El; [|cbn [snd]; rewrite Query_Reset; done].
  destruct (LoadInternal_checksum _ _ _ El) as [ws Ew].
  rewrite (LoadInternal_words _ _ _ Ew) in El. destruct (load_loop ws _) as [st|] eqn:Ell; [|done]. cbv zeta in El.
  destruct (_ && _); [done|]. injection El as <-. cbn [snd].
  destruct (PackedValues_words bytes _ _ Hb Ew) as [Hpos Hlen]. apply Forall_app in Hpos as [Hpos _].
  rewrite zlen_app in Hlen. change (zlen [?a]) with 1 in Hlen.
  apply (load_loop_ok (length ws)) in Ell as [[Hd (bs & [Hl1 Hl2] & Hraw)] Hls];
    [|done|done| |change (load_size _) with 0; lia].
  2: { constructor; [done|]. exists []. by split. }
  change (load_size (mkLoad [] [] 0 (Reset p))) with 0 in Hls. unfold load_size in Hls. pose proof (zlen_nonneg (ranges st)).
  pose proof (zlen_nonneg (words_ (parser st))).
  rewrite (Query_layout bs) by (done || (cbn [message_offset_]; rewrite u32_small by lia; by rewrite Hl2, Hl1)).
  destruct (bs !! Z.to_nat mi) as [b|] eqn:Eb; [|by eexists].
  eapply Forall_lookup in Hraw as (d & r & -> & _); [|exact Eb]. unfold block_of.
  destruct (Z.ltb_spec f (zlen d)); [|by eexists].
  destruct (lookup_lt_is_Some_2 (d ++ r) (Z.to_nat f)) as [x ->]; [rewrite length_app; unfold zlen in *; lia|by eexists].
Qed.

(** C40. Arbitrary bytecode is safe: loading any bytes (up to 16 MB) returns a parser all
    of whose queries read inside its tables; the load succeeds only if the bytes are
    varints that end with the FNV-1a checksum of the others; after a failed load the
    parser is empty and denies every field. *)
Theorem filter_load_safe (bytes : list Z) (p : Parser) : bytes_ok bytes -> zlen bytes < 2 ^ 24 ->
  let '(ok, p') := Load bytes p in
  (forall msg_index field_id, 0 <= msg_index -> 0 <= field_id -> is_Some (Query msg_index field_id p')) /\
  (if ok then exists ws, PackedValues kVarInt uint32_t bytes = (ws ++ [u32 (hash_words ws)], false)
   else forall msg_index field_id, 0 <= msg_index -> Query msg_index field_id p' = Some (mkQR false 0)).
Proof.
  intros Hb Hsz. pose proof (Load_queries_safe bytes p Hb Hsz) as Hq. unfold Load in *.
  destruct (LoadInternal bytes (Reset p)) as [p'|] eqn:El; (split; [exact Hq|]).
  - by apply LoadInternal_checksum in El.
  - intros mi f Hmi. by apply Query_Reset.
Qed.

Lemma filter_load_safe_witness :
  bytes_ok [9; 9; 9] /\ (Load [9; 9; 9] (mkParser [] [] true)).1 = false /\
  Query 0 1 (Load [9; 9; 9] (mkParser [] [] true)).2 = Some (mkQR false 0).
Proof.
  assert (Hb : bytes_ok [9; 9; 9]) by (repeat constructor; lia).
  pose proof (filter_load_safe [9; 9; 9] (mkParser [] [] true) Hb ltac:(vm_compute; reflexivity)) as H.
  destruct (Load [9; 9; 9] (mkParser [] [] true)) as [ok p'] eqn:E. cbn [fst snd].
  assert (Hok : ok = false) by (vm_compute in E; congruence). subst ok.
  split; [exact Hb|]. split; [reflexivity|]. apply (proj2 H). lia.
Defined.
