(* ===== verification/MessageFilter.v ===== *)
(** * The streaming trace filter
    (src/protozero/filtering/message_tokenizer.h, message_filter.cc, message_filter.h)

    A message, cut into arbitrary slices, is filtered one byte at a time by a
    tokenizer, a stack of the open messages and the bytecode filter; the output is
    written into a buffer as large as the input.  The theorems: the filter is
    equivalent to a recursive definition on the whole message, it never writes past
    its buffer nor fails a check whatever the input, and the slicing is
    irrelevant. *)

From S2P Require Import Prelude ProtoUtils ProtoDecoder ProtoWriter FilterBytecode.

(** ** MessageTokenizer *)

Record Token := mkToken { tk_field_id : Z; tk_type : ProtoWireType; tk_value : Z }.
Definition Token0 : Token := mkToken 0 kVarInt 0.
Definition tk_valid (t : Token) : bool := negb (tk_field_id t =? 0).

Inductive TState : Type :=
| kFieldPreamble | kVarIntValue | kFixedIntValue | kLenDelimited
| kInvalidFieldType | kMessageTooBig | kInvalidVarInt.
#[export] Instance TState_eq_dec : EqDecision TState.
Proof. solve_decision. Defined.

Record Tokenizer := mkTokenizer {
  state_ : TState;
  tz_field_id_ : Z;
  varint_ : Z;
  varint_shift_ : Z;
  fixed_int_shift_ : Z;
  fixed_int_bits_ : Z;
  fixed_int_value_ : Z
}.
Definition MessageTokenizer : Tokenizer := mkTokenizer kFieldPreamble 0 0 0 0 0 0.

(** The switch at the end of Push(), on a complete varint. *)
Definition PushVarInt (varint : Z) (t : Tokenizer) : Token * Tokenizer :=
  let set st := mkTokenizer st (tz_field_id_ t) 0 0 (fixed_int_shift_ t) (fixed_int_bits_ t) (fixed_int_value_ t) in
  match state_ t with
  | kFieldPreamble =>
      let field_type := u32 (varint .& 7) in
      let field_id := u32 (varint .>> 3) in
      let goto st := mkTokenizer st field_id 0 0 (fixed_int_shift_ t) (fixed_int_bits_ t) (fixed_int_value_ t) in
      (Token0,
       if field_type =? wire_type_value kVarInt then goto kVarIntValue
       else if (field_type =? wire_type_value kFixed32) || (field_type =? wire_type_value kFixed64) then
         mkTokenizer kFixedIntValue field_id 0 0 0 (if field_type =? wire_type_value kFixed32 then 32 else 64) 0
       else if field_type =? wire_type_value kLengthDelimited then goto kLenDelimited
       else goto kInvalidFieldType)
  | kVarIntValue => (mkToken (tz_field_id_ t) kVarInt varint, set kFieldPreamble)
  | kLenDelimited =>
      if kMaxMessageLength <? varint then (Token0, set kMessageTooBig)
      else (mkToken (tz_field_id_ t) kLengthDelimited varint, set kFieldPreamble)
  | st => (Token0, set st)
  end.

Definition Push (octet : Z) (t : Tokenizer) : Token * Tokenizer :=
  if bool_decide (state_ t = kFixedIntValue) then
    let value := fixed_int_value_ t .| u64 (octet .<< fixed_int_shift_ t) in
    let shift := u32 (fixed_int_shift_ t + 8) in
    if shift <? fixed_int_bits_ t then
      (Token0, mkTokenizer (state_ t) (tz_field_id_ t) (varint_ t) (varint_shift_ t) shift (fixed_int_bits_ t) value)
    else
      (mkToken (tz_field_id_ t) (if fixed_int_bits_ t =? 32 then kFixed32 else kFixed64) value,
       mkTokenizer kFieldPreamble (tz_field_id_ t) (varint_ t) (varint_shift_ t) 0 0 0)
  else
    let varint := varint_ t .| u64 ((octet .& 127) .<< varint_shift_ t) in
    if negb (octet .& 128 =? 0) then
      let shift := u32 (varint_shift_ t + 7) in
      (Token0,
       if 64 <=? shift then
         mkTokenizer kInvalidVarInt (tz_field_id_ t) varint 0 (fixed_int_shift_ t) (fixed_int_bits_ t) (fixed_int_value_ t)
       else
         mkTokenizer (state_ t) (tz_field_id_ t) varint shift (fixed_int_shift_ t) (fixed_int_bits_ t) (fixed_int_value_ t))
    else PushVarInt varint t.

Definition idle (t : Tokenizer) : bool :=
  bool_decide (state_ t = kFieldPreamble) && (varint_shift_ t =? 0) && (fixed_int_shift_ t =? 0).

(** ** MessageFilter.  The output buffer is the list of the bytes from [out_buf_]
    to [out_] and its capacity; a write past the capacity is a Crash.  A size field
    is an offset into it.  The top of the stack is the head of the list. *)

Record StackState := mkFrame {
  in_bytes : Z;
  in_bytes_limit : Z;
  eat_next_bytes : Z;
  out_bytes_written_at_start : Z;
  fr_field_id : Z;
  msg_index : Z;
  size_field : Z;
  size_field_len : Z;
  passthrough_eaten_bytes : bool
}.
Definition StackState0 : StackState := mkFrame 0 0 0 0 0 0 0 0 false.
Definition UINT32_MAX : Z := 4294967295.

Record Filter := mkFilter {
  out_buf_ : list Z;
  out_capacity : Z;
  root_msg_index_ : Z;
  filter_ : Parser;
  tokenizer_ : Tokenizer;
  stack_ : list StackState;
  error_ : bool;
  track_field_usage_ : bool;
  field_usage_ : gmap (list Z) Z
}.
Definition MessageFilter : Filter :=
  mkFilter [] 0 0 (mkParser [] [] false) MessageTokenizer [StackState0] false false ∅.

Definition set_out (o : list Z) (f : Filter) : Filter :=
  mkFilter o (out_capacity f) (root_msg_index_ f) (filter_ f) (tokenizer_ f) (stack_ f) (error_ f) (track_field_usage_ f) (field_usage_ f).
Definition set_tokenizer (t : Tokenizer) (f : Filter) : Filter :=
  mkFilter (out_buf_ f) (out_capacity f) (root_msg_index_ f) (filter_ f) t (stack_ f) (error_ f) (track_field_usage_ f) (field_usage_ f).
Definition set_stack (l : list StackState) (f : Filter) : Filter :=
  mkFilter (out_buf_ f) (out_capacity f) (root_msg_index_ f) (filter_ f) (tokenizer_ f) l (error_ f) (track_field_usage_ f) (field_usage_ f).
Definition set_usage (u : gmap (list Z) Z) (f : Filter) : Filter :=
  mkFilter (out_buf_ f) (out_capacity f) (root_msg_index_ f) (filter_ f) (tokenizer_ f) (stack_ f) (error_ f) (track_field_usage_ f) u.

Definition LoadFilterBytecode (filter_data : list Z) (f : Filter) : bool * Filter :=
  let '(res, p) := Load filter_data (filter_ f) in
  (res, mkFilter (out_buf_ f) (out_capacity f) (root_msg_index_ f) p (tokenizer_ f) (stack_ f) (error_ f)
          (track_field_usage_ f) (field_usage_ f)).

Fixpoint SetFilterRoot_loop (field_ids : list Z) (root_msg_idx : Z) (p : Parser) : outcome (option Z) :=
  match field_ids with
  | [] => Ok (Some root_msg_idx)
  | field_id :: rest =>
      match Query root_msg_idx field_id p with
      | None => Crash
      | Some res =>
          if negb (allowed res) || simple_field res then Ok None
          else SetFilterRoot_loop rest (nested_msg_index res) p
      end
  end.
Definition SetFilterRoot (field_ids : list Z) (f : Filter) : outcome (bool * Filter) :=
  let! r := SetFilterRoot_loop field_ids 0 (filter_ f) in
  match r with
  | None => Ok (false, f)
  | Some idx => Ok (true, mkFilter (out_buf_ f) (out_capacity f) idx (filter_ f) (tokenizer_ f) (stack_ f) (error_ f)
                           (track_field_usage_ f) (field_usage_ f))
  end.

(** A write at [out_]. *)
Definition out_write (src : list Z) (f : Filter) : outcome Filter :=
  if zlen (out_buf_ f) + zlen src <=? out_capacity f then Ok (set_out (out_buf_ f ++ src) f) else Crash.
Definition out_written (f : Filter) : Z := u32 (zlen (out_buf_ f)).

Definition FilterAppendVarInt (field_id value : Z) : list Z :=
  WriteVarInt uint32_t (MakeTagVarInt field_id) ++ WriteVarInt uint64_t value.
Definition FilterAppendFixed (sizeof_T field_id value : Z) : list Z :=
  WriteVarInt uint32_t (MakeTagFixed sizeof_T field_id) ++ le_bytes (Z.to_nat sizeof_T) value.
Definition LenDelimTag (field_id : Z) : list Z := WriteVarInt uint32_t (MakeTagLengthDelimited field_id).
(** (size_field_start, size_field_len) and the filter with the preamble written. *)
Definition AppendLenDelim (field_id len : Z) (f : Filter) : outcome (Z * Z * Filter) :=
  let! f1 := out_write (LenDelimTag field_id) f in
  let size_field_start := zlen (out_buf_ f1) in
  let! f2 := out_write (WriteVarInt uint32_t len) f1 in
  Ok (size_field_start, zlen (out_buf_ f2) - size_field_start, f2).

Definition SetUnrecoverableErrorState (f : Filter) : Filter :=
  mkFilter [] (out_capacity f) (root_msg_index_ f) (filter_ f) (tokenizer_ f)
    [mkFrame 0 UINT32_MAX UINT32_MAX 0 0 0 0 0 false] true (track_field_usage_ f) (field_usage_ f).

(** The first two entries have no id of their own. *)
Definition field_path (field_id : Z) (stack : list StackState) : list Z :=
  concat (map (WriteVarInt uint32_t) (map fr_field_id (drop 2 (rev stack)) ++ [field_id])).
Definition IncrementCurrentFieldUsage (field_id : Z) (allowed : bool) (f : Filter) : Filter :=
  let path := field_path field_id (stack_ f) in
  set_usage (<[path := s32 (default 0 (field_usage_ f !! path) + (if allowed then 1 else -1))]> (field_usage_ f)) f.

(** The switch on the type of a valid token.  [st] is the top of the stack; the
    results are the new top, the state to push if any, and the filter; None is the
    return through SetUnrecoverableErrorState. *)
Definition HandleToken (token : Token) (q : QueryResult) (st : StackState) (f : Filter)
    : outcome (option (StackState * option StackState * Filter)) :=
  match tk_type token with
  | kVarInt =>
      let! f := if allowed q && simple_field q then out_write (FilterAppendVarInt (tk_field_id token) (tk_value token)) f else Ok f in
      Ok (Some (st, None, f))
  | kFixed32 =>
      let! f := if allowed q && simple_field q then out_write (FilterAppendFixed 4 (tk_field_id token) (u32 (tk_value token))) f else Ok f in
      Ok (Some (st, None, f))
  | kFixed64 =>
      let! f := if allowed q && simple_field q then out_write (FilterAppendFixed 8 (tk_field_id token) (tk_value token)) f else Ok f in
      Ok (Some (st, None, f))
  | kLengthDelimited =>
      let submessage_len := u32 (tk_value token) in
      let in_bytes_left := u32 (in_bytes_limit st - in_bytes st - 1) in
      if in_bytes_left <? submessage_len then Ok None
      else if allowed q && negb (simple_field q) && (0 <? submessage_len) then
        let! (sf, sf_len, f) := AppendLenDelim (tk_field_id token) submessage_len f in
        Ok (Some (st, Some (mkFrame 0 submessage_len 0 (out_written f) (tk_field_id token) (nested_msg_index q) sf sf_len false), f))
      else
        let st := mkFrame (in_bytes st) (in_bytes_limit st) submessage_len (out_bytes_written_at_start st) (fr_field_id st)
                    (msg_index st) (size_field st) (size_field_len st) (allowed q) in
        if allowed q then
          let! (_, _, f) := AppendLenDelim (tk_field_id token) submessage_len f in Ok (Some (st, None, f))
        else Ok (Some (st, None, f))
  end.

(** FilterOneByte up to the increment of in_bytes; inl is the early return. *)
Definition ConsumeByte (octet : Z) (st : StackState) (f : Filter) : outcome (Filter + (StackState * option StackState * Filter)) :=
  if 0 <? eat_next_bytes st then
    let st' := mkFrame (in_bytes st) (in_bytes_limit st) (eat_next_bytes st - 1) (out_bytes_written_at_start st) (fr_field_id st)
                 (msg_index st) (size_field st) (size_field_len st) (passthrough_eaten_bytes st) in
    let! f := if passthrough_eaten_bytes st then out_write [octet] f else Ok f in
    Ok (inr (st', None, f))
  else
    let '(token, t) := Push octet (tokenizer_ f) in
    let f := set_tokenizer t f in
    if tk_valid token then
      match Query (msg_index st) (tk_field_id token) (filter_ f) with
      | None => Crash
      | Some q =>
          let! r := HandleToken token q st f in
          match r with
          | None => Ok (inl (SetUnrecoverableErrorState f))
          | Some (st, push, f) =>
              Ok (inr (st, push, if track_field_usage_ f then IncrementCurrentFieldUsage (tk_field_id token) (allowed q) f else f))
          end
      end
    else Ok (inr (st, None, f)).

Definition add_in_bytes (n : Z) (st : StackState) : StackState :=
  mkFrame (u32 (in_bytes st + n)) (in_bytes_limit st) (eat_next_bytes st) (out_bytes_written_at_start st) (fr_field_id st)
    (msg_index st) (size_field st) (size_field_len st) (passthrough_eaten_bytes st).

(** A store inside the part of the buffer already written. *)
Definition out_store (off : Z) (src : list Z) (f : Filter) : outcome Filter :=
  if off + zlen src <=? zlen (out_buf_ f) then Ok (set_out (zwrite off src (out_buf_ f)) f) else Crash.

(** The while loop that pops the messages that are complete, by recursion on the
    stack below its top [st].  [push] is the state to push, cleared by a round. *)
Fixpoint PopLoop (st : StackState) (rest : list StackState) (push : option StackState) (f : Filter) : outcome Filter :=
  if in_bytes_limit st <=? in_bytes st then
    let msg_bytes_written := u32 (out_written f - out_bytes_written_at_start st) in
    let! f := out_store (size_field st) (WriteRedundantVarInt msg_bytes_written (size_field_len st)) f in
    match rest with
    | [] => Crash
    | parent :: rest' =>
        if negb (idle (tokenizer_ f)) then Ok (SetUnrecoverableErrorState f)
        else PopLoop (add_in_bytes (in_bytes st) parent) rest' None f
    end
  else Ok (set_stack (match push with Some n => n :: st :: rest | None => st :: rest end) f).

Definition FilterOneByte (octet : Z) (f : Filter) : outcome Filter :=
  match stack_ f with
  | [] => Crash
  | st :: rest =>
      let! r := ConsumeByte octet st f in
      match r with
      | inl f => Ok f
      | inr (st, push, f) => PopLoop (add_in_bytes 1 st) rest push f
      end
  end.

Fixpoint FilterBytes (data : list Z) (f : Filter) : outcome Filter :=
  match data with
  | [] => Ok f
  | b :: data => let! f := FilterOneByte b f in FilterBytes data f
  end.

(** (output bytes, error), and the filter. *)
Definition FilterMessageFragments (slices : list (list Z)) (f : Filter) : outcome (list Z * bool * Filter) :=
  let total_len := fold_left (fun n s => u32 (n + zlen s)) slices 0 in
  let f := mkFilter [] total_len (root_msg_index_ f) (filter_ f) MessageTokenizer
             [mkFrame 0 total_len 0 0 0 (root_msg_index_ f) 0 0 false;
              mkFrame 0 UINT32_MAX UINT32_MAX 0 0 0 0 0 false]
             false (track_field_usage_ f) (field_usage_ f) in
  let! f := fold_left (fun acc slice => let! f := acc in FilterBytes slice f) slices (Ok f) in
  check! zlen (out_buf_ f) <=? out_capacity f in
  let bad := negb (Z.of_nat (length (stack_ f)) =? 1) || negb (idle (tokenizer_ f))
             || negb (default 0 (in_bytes <$> last (stack_ f)) =? total_len) in
  Ok (out_buf_ f, error_ f || bad, f).

(** ** Reference: the filter of a whole message, by recursion *)

(** The first field of [bs] and the bytes after it (after the length, for a
    length-delimited field); None when it is incomplete or malformed. *)
Definition next_token (bs : list Z) : option (Token * list Z) :=
  let '(n, tag) := ParseVarInt bs in
  if n =? 0 then None
  else
    let rest := zdrop n bs in
    let field_id := u32 (tag .>> 3) in
    let field_type := u32 (tag .& 7) in
    if field_type =? 0 then
      let '(k, v) := ParseVarInt rest in
      if k =? 0 then None else Some (mkToken field_id kVarInt v, zdrop k rest)
    else if field_type =? 2 then
      let '(k, v) := ParseVarInt rest in
      if k =? 0 then None else if kMaxMessageLength <? v then None
      else Some (mkToken field_id kLengthDelimited v, zdrop k rest)
    else if field_type =? 5 then
      if zlen rest <? 4 then None else Some (mkToken field_id kFixed32 (le_value (ztake 4 rest)), zdrop 4 rest)
    else if field_type =? 1 then
      if zlen rest <? 8 then None else Some (mkToken field_id kFixed64 (le_value (ztake 8 rest)), zdrop 8 rest)
    else None.

(** The filter's answer for a field, as the streaming code asks it. *)
Definition ask (p : Parser) (idx id : Z) : QueryResult := default (mkQR false 0) (Query idx id p).

(** The filtered message; None for a malformed one.  Fuel: the length of the
    message (every field consumes input). *)
Fixpoint filter_message (fuel : nat) (p : Parser) (idx : Z) (bs : list Z) : option (list Z) :=
  match fuel with
  | O => None
  | S fuel' =>
      if bool_decide (bs = []) then Some []
      else
        match next_token bs with
        | None => None
        | Some (tok, rest) =>
            let id := tk_field_id tok in
            let q := ask p idx id in
            let simple := allowed q && simple_field q in
            if id =? 0 then filter_message fuel' p idx rest
            else
              match tk_type tok with
              | kVarInt => app (if simple then FilterAppendVarInt id (tk_value tok) else []) <$> filter_message fuel' p idx rest
              | kFixed32 => app (if simple then FilterAppendFixed 4 id (tk_value tok) else []) <$> filter_message fuel' p idx rest
              | kFixed64 => app (if simple then FilterAppendFixed 8 id (tk_value tok) else []) <$> filter_message fuel' p idx rest
              | kLengthDelimited =>
                  let len := tk_value tok in
                  if zlen rest <? len then None
                  else
                    let payload := ztake len rest in
                    let rest' := zdrop len rest in
                    if allowed q && negb (simple_field q) && (0 <? len) then
                      sub ← filter_message fuel' p (nested_msg_index q) payload;
                      app (LenDelimTag id ++ WriteRedundantVarInt (zlen sub) (zlen (WriteVarInt uint32_t len)) ++ sub)
                        <$> filter_message fuel' p idx rest'
                    else
                      app (if allowed q then LenDelimTag id ++ WriteVarInt uint32_t len ++ payload else [])
                        <$> filter_message fuel' p idx rest'
              end
        end
  end.
Definition filter_reference (p : Parser) (idx : Z) (bs : list Z) : option (list Z) := filter_message (S (length bs)) p idx bs.

(** ** The tokenizer reads what [next_token] reads *)

(** Pushing bytes none of which completes a token. *)
Fixpoint push_quiet (bs : list Z) (t : Tokenizer) : option Tokenizer :=
  match bs with
  | [] => Some t
  | b :: bs => let '(tok, t) := Push b t in if tk_valid tok then None else push_quiet bs t
  end.

Lemma push_quiet_app a b t t' : push_quiet a t = Some t' -> push_quiet (a ++ b) t = push_quiet b t'.
Proof.
  revert t. induction a as [|x a IH]; intros t; cbn [push_quiet app]; [by intros [= ->]|].
  destruct (Push x t) as [tok t1]. destruct (tk_valid tok); [done|]. apply IH.
Qed.

(** At a field boundary, or after a complete preamble. *)
Definition at_state (s : TState) (t : Tokenizer) : Prop :=
  state_ t = s /\ varint_ t = 0 /\ varint_shift_ t = 0 /\ fixed_int_shift_ t = 0.
Definition dead (t : Tokenizer) : Prop :=
  state_ t = kInvalidFieldType \/ state_ t = kMessageTooBig \/ state_ t = kInvalidVarInt.

Lemma not_idle_state t : state_ t <> kFieldPreamble -> idle t = false.
Proof. intros H. unfold idle. by rewrite bool_decide_eq_false_2. Qed.
Lemma dead_not_idle t : dead t -> idle t = false.
Proof. intros H. apply not_idle_state. by destruct H as [-> |[-> | ->]]. Qed.
Lemma at_preamble_idle t : at_state kFieldPreamble t -> idle t = true.
Proof. intros (Hs & _ & Hv & Hf). unfold idle. by rewrite Hs, Hv, Hf. Qed.

Lemma push_dead bs t : dead t -> exists t', push_quiet bs t = Some t' /\ dead t'.
Proof.
  revert t. induction bs as [|b bs IH]; intros t Hd; [by exists t|]. cbn [push_quiet].
  assert (Hp : exists t1, Push b t = (Token0, t1) /\ dead t1).
  { unfold Push. rewrite bool_decide_eq_false_2 by (destruct Hd as [-> |[-> | ->]]; done).
    destruct (negb _).
    - eexists. split; [reflexivity|]. destruct (64 <=? _); [right; right; done|]. exact Hd.
    - unfold PushVarInt. destruct Hd as [H|[H|H]]; rewrite H; eexists; (split; [reflexivity|]); unfold dead; cbn; auto. }
  destruct Hp as (t1 & -> & Hd1). cbn. by apply IH.
Qed.

(** A varint, byte by byte, against ParseVarInt's loop. *)
Lemma push_varint bs : forall t pos, state_ t <> kFixedIntValue -> ~ dead t -> 0 <= varint_shift_ t < 64 -> 0 <= pos ->
  let '(n, v) := ParseVarInt_loop bs (varint_shift_ t) pos (varint_ t) in
  if n =? 0 then
    exists t', push_quiet bs t = Some t' /\ (bs <> [] \/ state_ t <> kFieldPreamble -> idle t' = false)
  else
    exists pre b rest t', bs = pre ++ b :: rest /\ n = pos + zlen pre + 1 /\ push_quiet pre t = Some t' /\
      Push b t' = PushVarInt v t.
Proof.
  induction bs as [|b bs IH]; intros t pos Hf Hd Hsh Hpos; cbn [ParseVarInt_loop].
  - cbn [Z.eqb]. exists t. split; [done|]. intros [|Hs]; [done|]. by apply not_idle_state.
  - destruct (Z.ltb_spec (varint_shift_ t) 64); [|lia].
    set (v1 := varint_ t .| u64 ((b .& 127) .<< varint_shift_ t)).
    assert (Hpush : Push b t = if negb (b .& 128 =? 0) then
       (Token0, if 64 <=? u32 (varint_shift_ t + 7) then
          mkTokenizer kInvalidVarInt (tz_field_id_ t) v1 0 (fixed_int_shift_ t) (fixed_int_bits_ t) (fixed_int_value_ t)
        else mkTokenizer (state_ t) (tz_field_id_ t) v1 (u32 (varint_shift_ t + 7)) (fixed_int_shift_ t) (fixed_int_bits_ t) (fixed_int_value_ t))
       else PushVarInt v1 t).
    { unfold Push. rewrite bool_decide_eq_false_2 by done. done. }
    rewrite u32_small in Hpush by lia. destruct (b .& 128 =? 0); cbn [negb] in Hpush.
    + destruct (Z.eqb_spec (pos + 1) 0); [lia|]. exists [], b, bs, t. split; [done|].
      split; [change (zlen (@nil Z)) with 0; lia|]. done.
    + destruct (Z.leb_spec 64 (varint_shift_ t + 7)).
      * assert (Hz : ParseVarInt_loop bs (varint_shift_ t + 7) (pos + 1) v1 = (0, 0)).
        { destruct bs; [done|]. cbn [ParseVarInt_loop]. by destruct (Z.ltb_spec (varint_shift_ t + 7) 64); [lia|]. }
        rewrite Hz. cbn [Z.eqb push_quiet]. rewrite Hpush.
        match goal with |- context [push_quiet bs ?x] => destruct (push_dead bs x) as (t' & Hq & Hd') end; [by right; right|].
        exists t'. split; [exact Hq|]. intros _. by apply dead_not_idle.
      * match type of Hpush with _ = (_, ?x) => set (t1 := x) in * end.
        specialize (IH t1 (pos + 1)). change (varint_shift_ t1) with (varint_shift_ t + 7) in IH. change (varint_ t1) with v1 in IH.
        destruct (ParseVarInt_loop bs (varint_shift_ t + 7) (pos + 1) v1) as [n v].
        specialize (IH Hf Hd ltac:(lia) ltac:(lia)). destruct (n =? 0).
        -- destruct IH as (t' & Hq & Hi). exists t'. cbn [push_quiet]. rewrite Hpush. split; [exact Hq|]. intros _.
           destruct bs as [|b' bs].
           ++ injection Hq as <-. unfold idle, t1. cbn [varint_shift_ state_]. destruct (Z.eqb_spec (varint_shift_ t + 7) 0); [lia|].
              by rewrite andb_false_r.
           ++ apply Hi. by left.
        -- destruct IH as (pre & c & rest & t' & -> & -> & Hq & Hp). exists (b :: pre), c, rest, t'.
           split; [done|]. split; [rewrite zlen_cons; lia|]. split; [cbn [push_quiet]; by rewrite Hpush|].
           rewrite Hp. unfold PushVarInt. done.
Qed.

(** A varint from a boundary. *)
Lemma push_ParseVarInt bs t s : at_state s t -> s <> kFixedIntValue -> ~ dead t ->
  let '(n, v) := ParseVarInt bs in
  if n =? 0 then
    exists t', push_quiet bs t = Some t' /\ (bs <> [] \/ s <> kFieldPreamble -> idle t' = false)
  else
    exists pre b t', bs = pre ++ b :: zdrop n bs /\ n = zlen pre + 1 /\ push_quiet pre t = Some t' /\
      Push b t' = PushVarInt v t.
Proof.
  intros (Hs & Hv & Hsh & Hfs) Hnf Hd. pose proof (push_varint bs t 0 ltac:(by rewrite Hs) Hd ltac:(rewrite Hsh; lia) ltac:(lia)) as H.
  rewrite Hv, Hsh, Hs in H. unfold ParseVarInt. destruct (ParseVarInt_loop bs 0 0 0) as [n v]. destruct (n =? 0); [done|].
  destruct H as (pre & b & rest & t' & -> & -> & Hq & Hp). exists pre, b, t'.
  split; [|split; [lia|done]]. f_equal. f_equal. rewrite cons_middle, app_assoc.
  replace (0 + zlen pre + 1) with (zlen (pre ++ [b])) by (rewrite zlen_app; change (zlen [b]) with 1; lia).
  by rewrite zdrop_zlen_app.
Qed.

Lemma le_value_snoc l b : le_value (l ++ [b]) = le_value l .| (b .<< (8 * zlen l)).
Proof.
  induction l as [|c l IH]; cbn [app le_value].
  - change (8 * zlen []) with 0. rewrite Z.shiftl_0_l, Z.lor_0_r, Z.shiftl_0_r. done.
  - rewrite IH, zlen_cons, Z.shiftl_lor, Z.shiftl_shiftl by (pose proof (zlen_nonneg l); lia).
    rewrite Z.lor_assoc. f_equal. f_equal. lia.
Qed.

(** Bytes of a fixed-size integer that do not complete it. *)
Lemma push_fixed l : forall t, state_ t = kFixedIntValue -> bytes_ok l -> 0 <= fixed_int_shift_ t ->
  fixed_int_shift_ t + 8 * zlen l < fixed_int_bits_ t <= 64 ->
  push_quiet l t = Some (mkTokenizer kFixedIntValue (tz_field_id_ t) (varint_ t) (varint_shift_ t) (fixed_int_shift_ t + 8 * zlen l)
                           (fixed_int_bits_ t) (fixed_int_value_ t .| (le_value l .<< fixed_int_shift_ t))).
Proof.
  induction l as [|b l IH]; intros t Hs Hb Hsh Hlt; cbn [push_quiet].
  - change (8 * zlen []) with 0. cbn [le_value]. rewrite Z.shiftl_0_l, Z.lor_0_r, Z.add_0_r, <- Hs. by destruct t.
  - rewrite zlen_cons in *. pose proof (zlen_nonneg l). apply Forall_cons in Hb as [Hb0 Hb].
    unfold Push. rewrite bool_decide_eq_true_2 by done. rewrite u32_small by lia.
    destruct (Z.ltb_spec (fixed_int_shift_ t + 8) (fixed_int_bits_ t)); [|lia]. cbn [tk_valid Token0 tk_field_id Z.eqb negb].
    rewrite IH; cbn [state_ fixed_int_shift_ fixed_int_bits_ fixed_int_value_ tz_field_id_ varint_ varint_shift_]; [|done|done|lia|lia].
    f_equal. f_equal; [lia|]. cbn [le_value]. rewrite u64_small.
    + rewrite Z.shiftl_lor, Z.shiftl_shiftl, Z.lor_assoc by lia. do 2 f_equal. lia.
    + unfold byte_ok in Hb0. rewrite Z.shiftl_mul_pow2 by lia.
      assert (2 ^ fixed_int_shift_ t <= 2 ^ 56) by (apply Z.pow_le_mono_r; lia).
      pose proof (pow2_pos (fixed_int_shift_ t) Hsh). change (2 ^ 56) with 72057594037927936 in *. nia.
Qed.

(** A whole fixed-size integer. *)
Lemma push_fixed_all (k : Z) l rest t : state_ t = kFixedIntValue -> bytes_ok l -> fixed_int_shift_ t = 0 -> fixed_int_value_ t = 0 ->
  fixed_int_bits_ t = 8 * k -> 1 <= k <= 8 -> zlen l = k ->
  exists pre b t1, l ++ rest = pre ++ b :: rest /\ push_quiet pre t = Some t1 /\
    Push b t1 = (mkToken (tz_field_id_ t) (if fixed_int_bits_ t =? 32 then kFixed32 else kFixed64) (le_value l),
                 mkTokenizer kFieldPreamble (tz_field_id_ t) (varint_ t) (varint_shift_ t) 0 0 0).
Proof.
  intros Hs Hb Hsh Hv Hbits Hk Hl. destruct l as [|b l _] using rev_ind; [change (zlen (@nil Z)) with 0 in Hl; lia|].
  rewrite zlen_app in Hl. change (zlen [?a]) with 1 in Hl. apply bytes_ok_app in Hb as [Hb Hb0]. apply Forall_inv in Hb0.
  exists l, b, (mkTokenizer kFixedIntValue (tz_field_id_ t) (varint_ t) (varint_shift_ t) (8 * zlen l) (8 * k) (le_value l)).
  split; [by rewrite <- app_assoc|]. split.
  - rewrite push_fixed by (done || lia). rewrite Hsh, Hv, Hbits, Z.shiftl_0_r. done.
  - pose proof (zlen_nonneg l). unfold Push. rewrite bool_decide_eq_true_2 by done.
    cbn [state_ fixed_int_shift_ fixed_int_bits_ fixed_int_value_ tz_field_id_ varint_ varint_shift_].
    rewrite u32_small by lia. destruct (Z.ltb_spec (8 * zlen l + 8) (8 * k)); [lia|]. rewrite Hbits. do 2 f_equal.
    rewrite le_value_snoc. f_equal. apply u64_small. unfold byte_ok in Hb0. rewrite Z.shiftl_mul_pow2 by lia.
    assert (2 ^ (8 * zlen l) <= 2 ^ 56) by (apply Z.pow_le_mono_r; lia). pose proof (pow2_pos (8 * zlen l) ltac:(lia)).
    revert Hb0. generalize dependent (2 ^ (8 * zlen l)). intros P. change (2 ^ 56) with 72057594037927936. intros HP1 HP2 Hb0. nia.
Qed.

Lemma push_quiet_snoc pre b rest t t1 t2 : push_quiet pre t = Some t1 -> Push b t1 = (Token0, t2) ->
  push_quiet (pre ++ b :: rest) t = push_quiet rest t2.
Proof. intros H1 H2. rewrite (push_quiet_app _ _ _ _ H1). cbn [push_quiet]. by rewrite H2. Qed.

(** What pushing [bs] does, against the field [r] that [next_token] reads. *)
Definition pushed (t : Tokenizer) (bs : list Z) (r : option (Token * list Z)) : Prop :=
  match r with
  | Some (tok, rest) => exists pre b t1 t2, bs = pre ++ b :: rest /\ push_quiet pre t = Some t1 /\
      Push b t1 = (tok, t2) /\ at_state kFieldPreamble t2
  | None => exists t1, push_quiet bs t = Some t1 /\ idle t1 = false
  end.

Lemma pushed_after pre b rest t t1 tz r : push_quiet pre t = Some t1 -> Push b t1 = (Token0, tz) -> pushed tz rest r ->
  pushed t (pre ++ b :: rest) r.
Proof.
  intros Hq Hp Hr. destruct r as [[tok rest']|]; cbn [pushed] in *.
  - destruct Hr as (pre2 & b2 & t2 & t3 & -> & Hq2 & Hp2 & Ha). exists (pre ++ b :: pre2), b2, t2, t3.
    split; [by rewrite <- app_assoc|]. by rewrite (push_quiet_snoc _ _ _ _ _ _ Hq Hp).
  - by rewrite (push_quiet_snoc _ _ _ _ _ _ Hq Hp).
Qed.

Lemma pushed_dead t bs : dead t -> pushed t bs None.
Proof. intros H. destruct (push_dead bs t H) as (t' & ? & ?). exists t'. eauto using dead_not_idle. Qed.

(** The varint after a preamble, as a value or as a length. *)
Lemma pushed_varint rest tz s (f : Z -> option Token) : at_state s tz -> s = kVarIntValue \/ s = kLenDelimited ->
  (forall v, match f v with
             | Some tok => exists t2, PushVarInt v tz = (tok, t2) /\ at_state kFieldPreamble t2
             | None => exists t2, PushVarInt v tz = (Token0, t2) /\ dead t2
             end) ->
  pushed tz rest (let '(k, v) := ParseVarInt rest in if k =? 0 then None else tok ← f v; Some (tok, zdrop k rest)).
Proof.
  intros Ha Hs Hf. assert (Hd : ~ dead tz).
  { intros [Hd|[Hd|Hd]]; destruct Ha as [Ha _]; destruct Hs as [-> | ->]; congruence. }
  pose proof (push_ParseVarInt rest tz s Ha ltac:(by destruct Hs as [-> | ->]) Hd) as H.
  destruct (ParseVarInt rest) as [k v]. destruct (k =? 0).
  - destruct H as (t1 & Hq & Hi). exists t1. split; [done|]. apply Hi. right. by destruct Hs as [-> | ->].
  - destruct H as (pre & b & t1 & Hr & _ & Hq & Hp). specialize (Hf v). destruct (f v) as [tok|]; cbn [mbind option_bind].
    + destruct Hf as (t2 & Hp2 & Ha2). exists pre, b, t1, t2. by rewrite Hp.
    + destruct Hf as (t2 & Hp2 & Hd2). rewrite Hr. eapply pushed_after; [exact Hq|by rewrite Hp|]. by apply pushed_dead.
Qed.

Lemma pushed_fixed (k : Z) rest t : state_ t = kFixedIntValue -> bytes_ok rest -> fixed_int_shift_ t = 0 -> fixed_int_value_ t = 0 ->
  varint_ t = 0 -> varint_shift_ t = 0 -> fixed_int_bits_ t = 8 * k -> 1 <= k <= 8 ->
  pushed t rest (if zlen rest <? k then None
                 else Some (mkToken (tz_field_id_ t) (if fixed_int_bits_ t =? 32 then kFixed32 else kFixed64) (le_value (ztake k rest)), zdrop k rest)).
Proof.
  intros Hs Hb Hsh Hv Hvi Hvs Hbits Hk. destruct (Z.ltb_spec (zlen rest) k).
  - eexists. split; [apply push_fixed; (done || lia)|]. by apply not_idle_state.
  - rewrite <- (ztake_zdrop k rest) at 1.
    destruct (push_fixed_all k (ztake k rest) (zdrop k rest) t) as (pre & b & t1 & Hr & Hq & Hp);
      [done|by apply bytes_ok_ztake|done|done|done|done|rewrite zlen_ztake; lia|].
    eexists pre, b, t1, _. split; [exact Hr|]. split; [exact Hq|]. split; [exact Hp|]. by rewrite Hvi, Hvs.
Qed.

Lemma next_token_push bs t : bytes_ok bs -> bs <> [] -> at_state kFieldPreamble t -> pushed t bs (next_token bs).
Proof.
  intros Hb Hne Ht. assert (Hd : ~ dead t) by (intros [Hd|[Hd|Hd]]; destruct Ht as [Ht _]; congruence).
  unfold next_token. pose proof (push_ParseVarInt bs t kFieldPreamble Ht ltac:(done) Hd) as Hp.
  destruct (ParseVarInt bs) as [n tag].
  destruct (n =? 0); [destruct Hp as (t1 & Hq & Hi); exists t1; eauto|].
  destruct Hp as (pre & b & t1 & Hbs & _ & Hq & Hpush). rewrite Hbs at 1.
  destruct Ht as (Hs & Hvi & Hvs & Hfs). unfold PushVarInt in Hpush. rewrite Hs in Hpush. cbn [wire_type_value] in Hpush.
  eapply pushed_after; [exact Hq|exact Hpush|]. cbv zeta. set (rest := zdrop n bs) in *.
  assert (Hbr : bytes_ok rest) by by apply bytes_ok_zdrop.
  set (id := u32 (tag .>> 3)) in *. set (ty := u32 (tag .& 7)) in *.
  destruct (Z.eqb_spec ty 0) as [E|].
  { apply (pushed_varint rest _ kVarIntValue (fun v => Some (mkToken id kVarInt v))); [by repeat split|by left|].
    intros v. eexists. split; [reflexivity|]. by repeat split. }
  destruct (Z.eqb_spec ty 5) as [E|].
  { rewrite E. cbn [orb Z.eqb]. apply (pushed_fixed 4); (done || lia). }
  destruct (Z.eqb_spec ty 1) as [E|].
  { rewrite E. cbn [orb Z.eqb]. apply (pushed_fixed 8); (done || lia). }
  cbn [orb]. destruct (Z.eqb_spec ty 2) as [E|]; [|by apply pushed_dead; left].
  pose proof (pushed_varint rest (mkTokenizer kLenDelimited id 0 0 (fixed_int_shift_ t) (fixed_int_bits_ t) (fixed_int_value_ t)) kLenDelimited
    (fun v => if kMaxMessageLength <? v then None else Some (mkToken id kLengthDelimited v))) as H.
  destruct (ParseVarInt rest) as [k v].
  replace (if k =? 0 then None else if kMaxMessageLength <? v then None else Some (mkToken id kLengthDelimited v, zdrop k rest))
    with (if k =? 0 then None else tok ← (if kMaxMessageLength <? v then None else Some (mkToken id kLengthDelimited v)); Some (tok, zdrop k rest))
    by (destruct (k =? 0); [done|]; by destruct (_ <? _)).
  apply H; [by repeat split|by right|]. intros w. unfold PushVarInt. cbn [state_]. destruct (kMaxMessageLength <? w); cbv beta iota zeta.
  - eexists. split; [reflexivity|]. by right; left.
  - eexists. split; [reflexivity|]. by repeat split.
Qed.

(** ** A field is never written longer than it was read *)

Definition token_output (tok : Token) : list Z :=
  match tk_type tok with
  | kVarInt => FilterAppendVarInt (tk_field_id tok) (tk_value tok)
  | kFixed32 => FilterAppendFixed 4 (tk_field_id tok) (tk_value tok)
  | kFixed64 => FilterAppendFixed 8 (tk_field_id tok) (tk_value tok)
  | kLengthDelimited => LenDelimTag (tk_field_id tok) ++ WriteVarInt uint32_t (tk_value tok)
  end.
Definition token_ok (tok : Token) : Prop :=
  word_ok 32 (tk_field_id tok) /\ 0 <= tk_value tok /\ (tk_type tok = kFixed32 -> tk_value tok < 2 ^ 32) /\
  (tk_type tok = kLengthDelimited -> tk_value tok <= kMaxMessageLength).

Lemma ParseVarInt_cost bs n v : bytes_ok bs -> ParseVarInt bs = (n, v) -> n <> 0 ->
  1 <= n <= zlen bs /\ n <= 10 /\ 0 <= v < 2 ^ (7 * n).
Proof.
  intros Hb Hp Hn. destruct (ParseVarInt_inv bs Hb) as [E|(l & rest & -> & Hs & Hl & E)]; rewrite E in Hp; injection Hp as <- <-; [done|].
  apply varint_shape_nonempty in Hs. rewrite zlen_app. pose proof (zlen_nonneg rest).
  pose proof (varint_value_nonneg l). pose proof (varint_value_bound l). pose proof (u64_range (varint_value l)).
  assert (u64 (varint_value l) <= varint_value l) by (apply Z.mod_le; lia). lia.
Qed.

Lemma MaybeExtend_le T v : int_signed T = false -> 0 <= v -> 0 <= int_bits T -> 0 <= MaybeExtend T v <= v.
Proof.
  intros HT Hv Hb. unfold MaybeExtend. rewrite HT. pose proof (uw_range (int_bits T) v Hb). split; [lia|].
  apply Z.mod_le; [lia|]. apply pow2_pos. lia.
Qed.

(** Writing again a value read from [n] bytes takes at most [n] bytes. *)
Lemma rewrite_cost T v w n : int_type_ok T -> int_signed T = false -> 0 <= v <= w -> w < 2 ^ (7 * n) -> 1 <= n <= 10 ->
  zlen (WriteVarInt T v) <= n.
Proof.
  intros HT Hs Hv Hw Hn. pose proof (MaybeExtend_le T v Hs ltac:(lia) ltac:(unfold int_type_ok in HT; lia)).
  rewrite <- (Z2Nat.id n) by lia. apply WriteVarInt_size; [done| |lia]. rewrite Z2Nat.id by lia. lia.
Qed.

Lemma retag v t : 0 <= v -> u32 (v .& 7) = wire_type_value t -> 0 <= u32 (u32 (v .>> 3) .<< 3) .| wire_type_value t <= v.
Proof.
  intros Hv Ht. rewrite land_7, shiftr_div, Z.shiftl_mul_pow2 in * by lia. change (2 ^ 3) with 8 in *.
  pose proof (Z.mod_pos_bound v 8 ltac:(lia)). rewrite u32_small in Ht by lia.
  set (q := v `div` 8). assert (Hq : v = 8 * q + wire_type_value t) by (pose proof (Z.div_mod v 8 ltac:(lia)); lia).
  assert (Hu : u32 (u32 q * 8) = u32 q `mod` 2 ^ 29 * 8).
  { unfold u32 at 1, uw. change (2 ^ 32) with (2 ^ 29 * 8). by rewrite Z.mul_mod_distr_r by lia. }
  rewrite Hu, Z.lor_comm. rewrite <- (Z.shiftl_mul_pow2 _ 3) by lia.
  pose proof (Z.mod_pos_bound (u32 q) (2 ^ 29) ltac:(lia)). rewrite lor_shiftl_add by lia.
  assert (0 <= q) by (apply Z.div_pos; lia). pose proof (u32_range q).
  assert (u32 q <= q) by (apply Z.mod_le; lia). assert (u32 q `mod` 2 ^ 29 <= u32 q) by (apply Z.mod_le; lia). lia.
Qed.

Lemma tag_cost v n t : 0 <= v < 2 ^ (7 * n) -> 1 <= n <= 10 -> u32 (v .& 7) = wire_type_value t ->
  zlen (WriteVarInt uint32_t (u32 (u32 (v .>> 3) .<< 3) .| wire_type_value t)) <= n.
Proof.
  intros Hv Hn Ht. pose proof (retag v t ltac:(lia) Ht). eapply rewrite_cost; [apply int_type_ok_u32|done|done|lia|lia].
Qed.

Lemma next_token_cost bs tok rest : bytes_ok bs -> next_token bs = Some (tok, rest) ->
  token_ok tok /\ bytes_ok rest /\ zlen rest < zlen bs /\ zlen (token_output tok) + zlen rest <= zlen bs.
Proof.
  intros Hb. unfold next_token. destruct (ParseVarInt bs) as [n tag] eqn:Etag. destruct (Z.eqb_spec n 0) as [|Hn]; [done|].
  destruct (ParseVarInt_cost bs n tag Hb Etag Hn) as (H1 & H2 & Hv). cbv zeta.
  set (r := zdrop n bs). assert (Hr : bytes_ok r) by by apply bytes_ok_zdrop.
  assert (Hlr : zlen r = zlen bs - n) by (apply zlen_zdrop; lia).
  pose proof (fun t => tag_cost tag n t Hv ltac:(lia)) as Htag. pose proof (u32_range (tag .>> 3)) as Hid.
  assert (Hvi : forall k v, ParseVarInt r = (k, v) -> k <> 0 -> bytes_ok (zdrop k r) /\ zlen (zdrop k r) = zlen r - k /\ 1 <= k <= 10 /\
     0 <= v < 2 ^ (7 * k)).
  { intros k v Ek Hk. destruct (ParseVarInt_cost r k v Hr Ek Hk) as (H3 & H4 & Hv2).
    split; [by apply bytes_ok_zdrop|]. split; [apply zlen_zdrop; lia|]. lia. }
  assert (Hfix : forall k, 0 < k -> k <= zlen r -> bytes_ok (zdrop k r) /\ zlen (zdrop k r) = zlen r - k /\ 0 <= le_value (ztake k r) < 2 ^ (8 * k)).
  { intros k Hk Hk2. split; [by apply bytes_ok_zdrop|]. split; [apply zlen_zdrop; lia|].
    pose proof (le_value_range (ztake k r) ltac:(by apply bytes_ok_ztake)) as H. by rewrite zlen_ztake in H by lia. }
  unfold token_ok, token_output, word_ok, FilterAppendVarInt, FilterAppendFixed, LenDelimTag, MakeTagVarInt, MakeTagFixed, MakeTagLengthDelimited.
  destruct (Z.eqb_spec (u32 (tag .& 7)) 0) as [E|].
  { destruct (ParseVarInt r) as [k v] eqn:Ek. destruct (Z.eqb_spec k 0); [done|]. intros [= <- <-].
    destruct (Hvi k v eq_refl n0) as (Hb2 & Hl2 & Hk & Hv2). cbn [tk_type tk_field_id tk_value].
    split; [split; [lia|split; [lia|done]]|]. split; [done|]. split; [lia|]. rewrite zlen_app.
    pose proof (Htag kVarInt E). pose proof (rewrite_cost uint64_t v v k int_type_ok_u64 eq_refl ltac:(lia) ltac:(lia) Hk). lia. }
  destruct (Z.eqb_spec (u32 (tag .& 7)) 2) as [E|].
  { destruct (ParseVarInt r) as [k v] eqn:Ek. destruct (Z.eqb_spec k 0); [done|]. destruct (Z.ltb_spec kMaxMessageLength v); [done|].
    intros [= <- <-]. destruct (Hvi k v eq_refl n1) as (Hb2 & Hl2 & Hk & Hv2). cbn [tk_type tk_field_id tk_value].
    split; [split; [lia|split; [lia|done]]|]. split; [done|]. split; [lia|]. rewrite zlen_app.
    pose proof (Htag kLengthDelimited E). pose proof (rewrite_cost uint32_t v v k int_type_ok_u32 eq_refl ltac:(lia) ltac:(lia) Hk). lia. }
  destruct (Z.eqb_spec (u32 (tag .& 7)) 5) as [E|].
  { destruct (Z.ltb_spec (zlen r) 4); [done|]. intros [= <- <-]. destruct (Hfix 4) as (Hb2 & Hl2 & Hv2); [lia|lia|].
    cbn [tk_type tk_field_id tk_value]. split; [split; [lia|split; [lia|split; [|done]]]; intros _; lia|]. split; [done|]. split; [lia|].
    rewrite zlen_app. pose proof (Htag kFixed32 E). change (4 =? 8) with false; cbv iota. rewrite zlen_le_bytes. lia. }
  destruct (Z.eqb_spec (u32 (tag .& 7)) 1) as [E|]; [|done].
  destruct (Z.ltb_spec (zlen r) 8); [done|]. intros [= <- <-]. destruct (Hfix 8) as (Hb2 & Hl2 & Hv2); [lia|lia|].
  cbn [tk_type tk_field_id tk_value]. split; [split; [lia|split; [lia|done]]|]. split; [done|]. split; [lia|].
  rewrite zlen_app. pose proof (Htag kFixed64 E). change (8 =? 8) with true; cbv iota. rewrite zlen_le_bytes. lia.
Qed.

(** ** The streaming filter follows the reference *)

(** Pop the complete messages, then go on with [bs]. *)
Definition resume (st : StackState) (rest : list StackState) (f : Filter) (bs : list Z) : outcome Filter :=
  let! f := PopLoop st rest None f in FilterBytes bs f.
(** The part of a stack entry that changes while its message is consumed. *)
Definition upd (n e : Z) (pt : bool) (st : StackState) : StackState :=
  mkFrame n (in_bytes_limit st) e (out_bytes_written_at_start st) (fr_field_id st) (msg_index st) (size_field st) (size_field_len st) pt.
(** After an error only the sentinel is left, and it eats what follows. *)
Definition errored (k : Z) (f : Filter) : Prop :=
  out_buf_ f = [] /\ 0 <= out_capacity f /\ error_ f = true /\ stack_ f = [mkFrame k UINT32_MAX (UINT32_MAX - k) 0 0 0 0 0 false].

Lemma PopLoop_stack st rest push f l : PopLoop st rest push (set_stack l f) = PopLoop st rest push f.
Proof.
  revert st push f. induction rest as [|p rest IH]; intros st push f; cbn [PopLoop].
  - destruct (_ <=? _); [|done]. change (out_written (set_stack l f)) with (out_written f). unfold out_store.
    cbn [out_buf_ set_stack]. by destruct (_ <=? _).
  - destruct (_ <=? _); [|done]. change (out_written (set_stack l f)) with (out_written f). unfold out_store.
    cbn [out_buf_ set_stack]. destruct (_ <=? _); [|done]. cbn [obind].
    change (tokenizer_ (set_out ?x (set_stack l f))) with (tokenizer_ (set_out x f)). destruct (negb _); [done|].
    change (set_out ?x (set_stack l f)) with (set_stack l (set_out x f)). apply IH.
Qed.

Lemma resume_cons b bs st rest f : in_bytes st < in_bytes_limit st ->
  resume st rest f (b :: bs) =
    (let! r := ConsumeByte b st (set_stack (st :: rest) f) in
     match r with
     | inl f => FilterBytes bs f
     | inr (st', push, f) => let! f := PopLoop (add_in_bytes 1 st') rest push f in FilterBytes bs f
     end).
Proof.
  intros H. unfold resume. destruct rest as [|p rest]; cbn [PopLoop]; (destruct (Z.leb_spec (in_bytes_limit st) (in_bytes st)); [lia|]);
    cbn [obind FilterBytes]; unfold FilterOneByte; cbn [stack_ set_stack];
    destruct (ConsumeByte _ _ _) as [[f'|[[st' push] f']]|]; done.
Qed.

Lemma errored_eats bs : forall k f, errored k f -> 0 <= k -> k + zlen bs < UINT32_MAX ->
  exists f', errored (k + zlen bs) f' /\ FilterBytes bs f = Ok f'.
Proof.
  induction bs as [|b bs IH]; intros k f He Hk Hlt.
  - exists f. change (zlen []) with 0. by rewrite Z.add_0_r.
  - rewrite zlen_cons in *. pose proof (zlen_nonneg bs). destruct He as (Ho & Hc & Herr & Hs). unfold UINT32_MAX in *.
    cbn [FilterBytes]. unfold FilterOneByte. rewrite Hs. unfold ConsumeByte. cbn [eat_next_bytes].
    destruct (Z.ltb_spec 0 (4294967295 - k)); [|lia]. cbn [passthrough_eaten_bytes obind].
    unfold add_in_bytes. cbn [PopLoop in_bytes in_bytes_limit]. rewrite u32_small by lia.
    destruct (Z.leb_spec 4294967295 (k + 1)); [lia|]. cbn [obind].
    edestruct (IH (k + 1)) as (f' & He' & ->); [|lia|lia|].
    + split; [exact Ho|]. split; [exact Hc|]. split; [exact Herr|]. cbn [stack_ set_stack]. unfold UINT32_MAX.
      cbn. do 2 f_equal. lia.
    + exists f'. split; [|done]. by replace (k + (1 + zlen bs)) with (k + 1 + zlen bs) by lia.
Qed.

Lemma errored_SetUnrecoverable f : 0 <= out_capacity f -> errored 0 (SetUnrecoverableErrorState f).
Proof. intros. by repeat split. Qed.

Lemma add_in_bytes_upd k n e pt st : 0 <= n + k < 4294967296 -> add_in_bytes k (upd n e pt st) = upd (n + k) e pt st.
Proof. intros. unfold add_in_bytes. cbn [in_bytes upd]. by rewrite u32_small by lia. Qed.

Lemma redundant_size v size : word_ok 32 v -> 0 <= size -> zlen (WriteRedundantVarInt v size) = size.
Proof.
  intros Hv Hs. destruct (Z.eq_dec size 0) as [->|]; [done|]. apply WriteRedundantVarInt_spec; [done|lia].
Qed.

Section Simulation.
Context (p : Parser) (cap root : Z) (track : bool).
Hypothesis Hsafe : forall mi id, 0 <= mi -> 0 <= id -> is_Some (Query mi id p).
Hypothesis Hcap : 0 <= cap < UINT32_MAX.

Definition St (o : list Z) (t : Tokenizer) (u : gmap (list Z) Z) : Filter := mkFilter o cap root p t [] false track u.

(** The bytes of a string, passed through or dropped. *)
Lemma resume_eats pl : forall n st rest o t u more pt, 0 <= n -> n + zlen pl <= in_bytes_limit st < UINT32_MAX ->
  zlen o + zlen pl <= cap ->
  resume (upd n (zlen pl) pt st) rest (St o t u) (pl ++ more) =
  resume (upd (n + zlen pl) 0 pt st) rest (St (o ++ (if pt then pl else [])) t u) more.
Proof.
  induction pl as [|b pl IH]; intros n st rest o t u more pt Hn Hlim Hc; unfold UINT32_MAX in *.
  - change (zlen []) with 0. rewrite Z.add_0_r. replace (if pt then [] else []) with (@nil Z) by by destruct pt. by rewrite app_nil_r.
  - rewrite zlen_cons in *. pose proof (zlen_nonneg pl). cbn [app]. rewrite resume_cons by (cbn; lia).
    unfold ConsumeByte. cbn [eat_next_bytes upd passthrough_eaten_bytes]. destruct (Z.ltb_spec 0 (1 + zlen pl)); [|lia].
    replace (1 + zlen pl - 1) with (zlen pl) by lia. replace (n + (1 + zlen pl)) with (n + 1 + zlen pl) by lia.
    change (mkFrame _ _ (zlen pl) _ _ _ _ _ _) with (upd n (zlen pl) pt st). destruct pt.
    + unfold out_write. cbn [out_buf_ out_capacity set_stack St]. change (zlen [b]) with 1.
      destruct (Z.leb_spec (zlen o + 1) cap); [|lia]. cbn [obind]. rewrite add_in_bytes_upd by lia.
      change (set_out ?x (set_stack ?l (St o t u))) with (set_stack l (St x t u)). rewrite PopLoop_stack.
      change (b :: pl) with ([b] ++ pl). rewrite (app_assoc o). apply (IH (n + 1) st rest (o ++ [b])); [lia|lia|].
      rewrite zlen_app. change (zlen [b]) with 1. lia.
    + cbn [obind]. rewrite add_in_bytes_upd by lia. rewrite PopLoop_stack. apply (IH (n + 1) st rest o t u more false); lia.
Qed.

(** Bytes inside a field. *)
Lemma resume_quiet pre : forall n st rest o t t1 u more pt, 0 <= n -> n + zlen pre <= in_bytes_limit st < UINT32_MAX ->
  push_quiet pre t = Some t1 ->
  resume (upd n 0 pt st) rest (St o t u) (pre ++ more) = resume (upd (n + zlen pre) 0 pt st) rest (St o t1 u) more.
Proof.
  induction pre as [|b pre IH]; intros n st rest o t t1 u more pt Hn Hlim Hq; unfold UINT32_MAX in *.
  - injection Hq as <-. change (zlen []) with 0. by rewrite Z.add_0_r.
  - rewrite zlen_cons in *. pose proof (zlen_nonneg pre). cbn [app]. rewrite resume_cons by (cbn; lia).
    unfold ConsumeByte. cbn [eat_next_bytes upd Z.ltb Z.compare tokenizer_ set_stack St]. cbn [push_quiet] in Hq.
    destruct (Push b t) as [tok t2]. destruct (tk_valid tok); [done|]. cbn [obind].
    rewrite add_in_bytes_upd by lia.
    change (set_tokenizer t2 (set_stack ?l _)) with (set_stack l (St o t2 u)). rewrite PopLoop_stack.
    replace (n + (1 + zlen pre)) with (n + 1 + zlen pre) by lia. by apply (IH (n + 1) st rest o t2 t1); [lia|lia|].
Qed.

(** The end of a message in the middle of a field. *)
Lemma resume_unfinished st rest o t u more pt : 0 <= size_field st -> 0 <= size_field_len st -> size_field st + size_field_len st <= zlen o ->
  rest <> [] -> idle t = false ->
  exists f, errored 0 f /\ resume (upd (in_bytes_limit st) 0 pt st) rest (St o t u) more = FilterBytes more f.
Proof.
  intros H1 H2 H3 Hr Hi. destruct rest as [|q rest]; [done|]. unfold resume. cbn [PopLoop in_bytes in_bytes_limit upd].
  rewrite Z.leb_refl. set (w := WriteRedundantVarInt _ _). unfold out_store. cbn [out_buf_ St].
  assert (Hw : zlen w = size_field_len st) by (apply redundant_size; [apply u32_range|done]).
  cbn [size_field upd]. rewrite Hw. destruct (Z.leb_spec (size_field st + size_field_len st) (zlen o)); [|lia]. cbn [obind tokenizer_ set_out St].
  rewrite Hi. cbn [negb obind]. eexists. split; [|reflexivity]. apply errored_SetUnrecoverable. cbn. lia.
Qed.

(** The end of a nested message: its length is filled in and the parent goes on. *)
Lemma resume_pop st q rest o sub t u more pt m ptq : at_state kFieldPreamble t ->
  size_field st = zlen o -> out_bytes_written_at_start st = u32 (zlen o + size_field_len st) -> 0 <= size_field_len st ->
  zlen sub <= in_bytes_limit st -> 0 <= m -> m + in_bytes_limit st < UINT32_MAX -> forall len, zlen len = size_field_len st ->
  resume (upd (in_bytes_limit st) 0 pt st) (upd m 0 ptq q :: rest) (St (o ++ len ++ sub) t u) more =
  resume (upd (m + in_bytes_limit st) 0 ptq q) rest (St (o ++ WriteRedundantVarInt (zlen sub) (size_field_len st) ++ sub) t u) more.
Proof.
  intros Ht Hsf Hst Hsl Hsub Hm Hlim len Hlen. unfold UINT32_MAX in *. pose proof (zlen_nonneg sub). unfold resume at 1. cbn [PopLoop in_bytes in_bytes_limit upd].
  rewrite Z.leb_refl. unfold out_written. cbn [out_buf_ St out_bytes_written_at_start size_field size_field_len upd].
  rewrite Hsf, Hst, !zlen_app, Hlen.
  replace (u32 (u32 (zlen o + (size_field_len st + zlen sub)) - u32 (zlen o + size_field_len st))) with (zlen sub).
  2: { unfold u32, uw. rewrite <- Zminus_mod. match goal with |- _ = ?a `mod` _ => replace a with (zlen sub) by lia end. by rewrite Z.mod_small by lia. }
  set (w := WriteRedundantVarInt _ _). assert (Hw : zlen w = size_field_len st) by (apply redundant_size; [split; lia|lia]).
  pose proof (zlen_nonneg o). unfold out_store. cbn [out_buf_ St]. rewrite !zlen_app, Hlen, Hw.
  destruct (Z.leb_spec (zlen o + size_field_len st) (zlen o + (size_field_len st + zlen sub))); [|lia]. cbn [obind tokenizer_ set_out St].
  rewrite (at_preamble_idle _ Ht). cbn [negb]. unfold resume. f_equal.
  rewrite (zwrite_app_r (zlen o)), Z.sub_diag, zwrite_app_l, zwrite_exact by lia.
  change (mkFrame m _ _ _ _ _ _ _ _) with (upd m 0 ptq q). by rewrite add_in_bytes_upd by lia.
Qed.

Lemma usage_only id b f : exists u, (if track_field_usage_ f then IncrementCurrentFieldUsage id b f else f) = set_usage u f.
Proof. destruct (track_field_usage_ f); [by eexists|]. exists (field_usage_ f). by destruct f. Qed.

Lemma Query_nested mi id q : Query mi id p = Some q -> 0 <= nested_msg_index q.
Proof.
  unfold Query. destruct (_ <=? _); [by intros [= <-]|]. destruct (message_offset_ p !! _); [|done]. destruct (message_offset_ p !! _); [|done].
  destruct (_ <? _); [done|]. destruct (zread _ _ _); [done|]. destruct (if _ <? _ then _ else _); [|done]. intros [= <-].
  cbn [nested_msg_index]. apply Z.land_nonneg. right. done.
Qed.

(** A field that is not length-delimited, or has id 0. *)
Lemma HandleToken_simple tok q st f : token_ok tok -> tk_type tok <> kLengthDelimited ->
  zlen (out_buf_ f) + zlen (token_output tok) <= out_capacity f ->
  HandleToken tok q st f = Ok (Some (st, None, set_out (out_buf_ f ++ (if allowed q && simple_field q then token_output tok else [])) f)).
Proof.
  intros (Hid & Hv & H32 & _) Ht Hc. unfold HandleToken, token_output in *.
  assert (Hsame : set_out (out_buf_ f ++ []) f = f) by (rewrite app_nil_r; by destruct f).
  destruct (tk_type tok); [| |done|]; try (rewrite u32_small by (specialize (H32 eq_refl); lia)); unfold out_write.
  all: destruct (allowed q && simple_field q); [|by rewrite Hsame].
  all: match goal with |- context [?a <=? ?b] => destruct (Z.leb_spec a b); [done|lia] end.
Qed.

Lemma resume_simple b n st rest o t1 u more pt tok t2 q : 0 <= n -> n + 1 <= in_bytes_limit st < UINT32_MAX ->
  Push b t1 = (tok, t2) -> tk_valid tok = true -> token_ok tok -> tk_type tok <> kLengthDelimited ->
  Query (msg_index st) (tk_field_id tok) p = Some q -> zlen o + zlen (token_output tok) <= cap ->
  exists u2, resume (upd n 0 pt st) rest (St o t1 u) (b :: more) =
    resume (upd (n + 1) 0 pt st) rest (St (o ++ (if allowed q && simple_field q then token_output tok else [])) t2 u2) more.
Proof.
  intros Hn Hlim Hp Hval Hok Hty Hq Hc. unfold UINT32_MAX in *. rewrite resume_cons by (cbn; lia).
  unfold ConsumeByte. cbn [eat_next_bytes upd Z.ltb Z.compare tokenizer_ set_stack St]. rewrite Hp, Hval.
  change (msg_index (upd ?a ?b ?c st)) with (msg_index st). change (filter_ ?f) with p. rewrite Hq. cbn [obind].
  rewrite HandleToken_simple by (done || (cbn; lia)). cbn [obind].
  match goal with |- context [if track_field_usage_ ?f then _ else _] => destruct (usage_only (tk_field_id tok) (allowed q) f) as [u2 ->] end.
  exists u2. cbn [obind]. rewrite (add_in_bytes_upd 1 n 0 pt st) by lia.
  match goal with |- context [PopLoop _ _ _ (set_usage _ ?f)] => change (set_usage u2 f) with (set_stack (stack_ f) (St (out_buf_ f) t2 u2)) end.
  by rewrite PopLoop_stack.
Qed.

Lemma AppendLenDelim_ok id len f : zlen (out_buf_ f) + zlen (LenDelimTag id ++ WriteVarInt uint32_t len) <= out_capacity f ->
  AppendLenDelim id len f = Ok (zlen (out_buf_ f) + zlen (LenDelimTag id), zlen (WriteVarInt uint32_t len),
                                set_out (out_buf_ f ++ LenDelimTag id ++ WriteVarInt uint32_t len) f).
Proof.
  rewrite zlen_app. intros H. unfold AppendLenDelim, out_write. pose proof (zlen_nonneg (WriteVarInt uint32_t len)).
  destruct (Z.leb_spec (zlen (out_buf_ f) + zlen (LenDelimTag id)) (out_capacity f)); [|lia]. cbn [obind out_buf_ out_capacity set_out].
  rewrite !zlen_app. match goal with |- context [?a <=? ?b] => destruct (Z.leb_spec a b); [|lia] end. cbn [obind out_buf_ set_out].
  rewrite !zlen_app, <- app_assoc. do 3 f_equal. lia.
Qed.

(** The new entry for a nested message whose length ends at byte [n] of its parent. *)
Definition nested_entry (o : list Z) (id len idx : Z) : StackState :=
  mkFrame 0 len 0 (u32 (zlen o + zlen (LenDelimTag id ++ WriteVarInt uint32_t len))) id idx (zlen o + zlen (LenDelimTag id))
    (zlen (WriteVarInt uint32_t len)) false.

Lemma resume_len_delimited b n st rest o t1 u more pt tok t2 q : 0 <= n -> n + 1 <= in_bytes_limit st < UINT32_MAX ->
  Push b t1 = (tok, t2) -> tk_valid tok = true -> token_ok tok -> tk_type tok = kLengthDelimited ->
  Query (msg_index st) (tk_field_id tok) p = Some q -> zlen o + zlen (token_output tok) <= cap ->
  let len := tk_value tok in
  if in_bytes_limit st - n - 1 <? len then
    exists f, errored 0 f /\ resume (upd n 0 pt st) rest (St o t1 u) (b :: more) = FilterBytes more f
  else if allowed q && negb (simple_field q) && (0 <? len) then
    exists u2, resume (upd n 0 pt st) rest (St o t1 u) (b :: more) =
      resume (nested_entry o (tk_field_id tok) len (nested_msg_index q)) (upd (n + 1) 0 pt st :: rest) (St (o ++ token_output tok) t2 u2) more
  else
    exists u2, resume (upd n 0 pt st) rest (St o t1 u) (b :: more) =
      resume (upd (n + 1) len (allowed q) st) rest (St (o ++ (if allowed q then token_output tok else [])) t2 u2) more.
Proof.
  intros Hn Hlim Hp Hval Hok Hty Hq Hc len. unfold UINT32_MAX in *. rewrite resume_cons by (cbn; lia).
  unfold ConsumeByte. cbn [eat_next_bytes upd Z.ltb Z.compare tokenizer_ set_stack St]. rewrite Hp, Hval.
  change (msg_index (upd ?a ?b ?c st)) with (msg_index st). change (filter_ ?f) with p. rewrite Hq. cbn [obind].
  destruct Hok as (Hid & Hv & _ & Hmax). specialize (Hmax Hty). change kMaxMessageLength with 268435455 in Hmax.
  unfold token_output in *. rewrite Hty in *. fold len in Hc. unfold HandleToken. rewrite Hty. fold len in Hv, Hmax |- *.
  cbn [in_bytes_limit in_bytes upd]. rewrite !u32_small by lia.
  destruct (Z.ltb_spec (in_bytes_limit st - n - 1) len).
  { cbn [obind]. eexists. split; [|reflexivity]. apply errored_SetUnrecoverable. cbn. lia. }
  set (g := set_tokenizer t2 _).
  assert (Hg : AppendLenDelim (tk_field_id tok) len g = Ok (zlen o + zlen (LenDelimTag (tk_field_id tok)), zlen (WriteVarInt uint32_t len),
     set_out (o ++ LenDelimTag (tk_field_id tok) ++ WriteVarInt uint32_t len) g)) by (apply AppendLenDelim_ok; exact Hc).
  rewrite Hg. unfold nested_entry. rewrite zlen_app.
  assert (Hdone : forall push o2 e pt2, (match push with Some _ => n + 1 < in_bytes_limit st | None => True end) ->
    exists u2, (let! f := (let! r := Ok (Some (upd n e pt2 st, push, set_out o2 g)) in
      match r with
      | None => Ok (inl (SetUnrecoverableErrorState g))
      | Some (st, push, f) => Ok (inr (st, push, if track_field_usage_ f then IncrementCurrentFieldUsage (tk_field_id tok) (allowed q) f else f))
      end) in
      match f with
      | inl f => FilterBytes more f
      | inr (st', push, f) => let! f := PopLoop (add_in_bytes 1 st') rest push f in FilterBytes more f
      end) =
    match push with
    | Some s => FilterBytes more (set_stack (s :: upd (n + 1) e pt2 st :: rest) (St o2 t2 u2))
    | None => resume (upd (n + 1) e pt2 st) rest (St o2 t2 u2) more
    end).
  { intros push o2 e pt2 Hpush. cbn [obind].
    match goal with |- context [if track_field_usage_ ?f then _ else _] => destruct (usage_only (tk_field_id tok) (allowed q) f) as [u2 ->] end.
    exists u2. rewrite add_in_bytes_upd by lia. change (set_usage u2 (set_out o2 g)) with (set_stack (upd n 0 pt st :: rest) (St o2 t2 u2)).
    rewrite PopLoop_stack. destruct push as [s|]; [|done].
    destruct rest; cbn [PopLoop in_bytes in_bytes_limit upd]; (destruct (Z.leb_spec (in_bytes_limit st) (n + 1)); [lia|done]). }
  destruct (allowed q && negb (simple_field q) && (0 <? len)) eqn:Enest.
  - bool_facts. cbn [obind]. match goal with |- context [Some ?s] => edestruct (Hdone (Some s)) as [u2 Hu] end.
    2: { exists u2. etransitivity; [exact Hu|]. unfold resume. cbn [PopLoop in_bytes in_bytes_limit].
      destruct (Z.leb_spec len 0); [lia|]. cbn [obind]. unfold out_written. cbn [out_buf_ set_out]. by rewrite !zlen_app. }
    lia.
  - clear Enest. assert (Hupd : forall e pt2, mkFrame n (in_bytes_limit st) e (out_bytes_written_at_start (upd n 0 pt st)) (fr_field_id (upd n 0 pt st))
      (msg_index (upd n 0 pt st)) (size_field (upd n 0 pt st)) (size_field_len (upd n 0 pt st)) pt2 = upd n e pt2 st) by done.
    rewrite Hupd. cbn [obind]. destruct (allowed q).
    + by apply (Hdone None).
    + cbn [obind] in Hdone. specialize (Hdone None (o ++ []) len false I). rewrite app_nil_r in *. exact Hdone.
Qed.

(** What consuming [bs] does to a message at byte [n], against its filtered version [r]. *)
Definition simulated (n : Z) (pt : bool) (st : StackState) (rest : list StackState) (o : list Z) (t : Tokenizer) (u : gmap (list Z) Z)
    (bs more : list Z) (r : option (list Z)) : Prop :=
  match r with
  | Some out => zlen out <= zlen bs /\ exists pt' t' u', at_state kFieldPreamble t' /\
      resume (upd n 0 pt st) rest (St o t u) (bs ++ more) = resume (upd (in_bytes_limit st) 0 pt' st) rest (St (o ++ out) t' u') more
  | None => exists k f, 0 <= k <= zlen bs /\ errored k f /\
      resume (upd n 0 pt st) rest (St o t u) (bs ++ more) = FilterBytes more f
  end.

Lemma simulated_step n1 pt1 o1 t1 u1 bs1 n pt st rest o t u bs more r :
  resume (upd n 0 pt st) rest (St o t u) (bs ++ more) = resume (upd n1 0 pt1 st) rest (St (o ++ o1) t1 u1) (bs1 ++ more) ->
  zlen o1 + zlen bs1 <= zlen bs -> simulated n1 pt1 st rest (o ++ o1) t1 u1 bs1 more r ->
  simulated n pt st rest o t u bs more (app o1 <$> r).
Proof.
  pose proof (zlen_nonneg o1). intros He Hl. destruct r as [out|]; cbn [simulated fmap option_fmap option_map].
  - intros (Hout & pt' & t' & u' & Ha & Hr). split; [rewrite zlen_app; lia|]. exists pt', t', u'. split; [done|].
    by rewrite He, Hr, <- app_assoc.
  - intros (k & f & Hk & Hf & Hr). exists k, f. split; [lia|]. split; [done|]. by rewrite He.
Qed.

Lemma simulated_error k f n pt st rest o t u bs1 bs more :
  resume (upd n 0 pt st) rest (St o t u) (bs ++ more) = FilterBytes (bs1 ++ more) f -> errored k f -> 0 <= k -> k + zlen bs1 <= zlen bs < UINT32_MAX ->
  simulated n pt st rest o t u bs more None.
Proof.
  intros He Hf Hk Hl. pose proof (zlen_nonneg bs1). destruct (errored_eats bs1 k f Hf Hk) as (f' & Hf' & Hr); [lia|].
  exists (k + zlen bs1), f'. split; [lia|]. split; [done|]. rewrite He. clear -Hr. revert f Hr.
  induction bs1 as [|b bs1 IH]; intros f Hr; cbn [FilterBytes app] in *; [by injection Hr as ->|].
  destruct (FilterOneByte b f); [by apply IH|done].
Qed.

Lemma simulation fuel : forall bs n pt st rest o t u more,
  bytes_ok bs -> (length bs < fuel)%nat -> at_state kFieldPreamble t -> 0 <= n -> n + zlen bs = in_bytes_limit st -> in_bytes_limit st < UINT32_MAX ->
  rest <> [] -> 0 <= msg_index st -> 0 <= size_field st -> 0 <= size_field_len st -> size_field st + size_field_len st <= zlen o ->
  zlen o + zlen bs <= cap ->
  simulated n pt st rest o t u bs more (filter_message fuel p (msg_index st) bs).
Proof.
  induction fuel as [|fuel IH]; intros bs n pt st rest o t u more Hb Hf Ht Hn Hlen Hlim Hrest Hmi Hs1 Hs2 Hs3 Hc; [lia|].
  cbn [filter_message]. case_bool_decide as Hnil.
  { subst bs. change (zlen (@nil Z)) with 0 in Hlen. split; [done|]. exists pt, t, u. split; [done|].
    rewrite app_nil_r. cbn [app]. do 2 f_equal. lia. }
  pose proof (next_token_push bs t Hb Hnil Ht) as Hpush. destruct (next_token bs) as [[tok rest1]|] eqn:Etok.
  2: { destruct Hpush as (t1 & Hq & Hi). destruct (resume_unfinished st rest o t1 u more pt Hs1 Hs2 Hs3 Hrest Hi) as (f & Hf1 & Hr).
       exists 0, f. pose proof (zlen_nonneg bs). split; [lia|]. split; [done|]. rewrite <- Hr, <- Hlen. by apply resume_quiet; [lia|lia|]. }
  destruct Hpush as (pre & b & t1 & t2 & Hbs & Hq & Hp & Ht2). destruct (next_token_cost bs tok rest1 Hb Etok) as (Hok & Hb1 & Hlt & Hcost).
  assert (Hlen1 : zlen bs = zlen pre + 1 + zlen rest1) by (rewrite Hbs, zlen_app, zlen_cons; lia).
  pose proof (zlen_nonneg pre) as Hp0. pose proof (zlen_nonneg rest1) as Hr0. pose proof (zlen_nonneg (token_output tok)) as Ho0.
  assert (Hf1 : (length rest1 < fuel)%nat) by (unfold zlen in Hlt; lia).
  assert (Hpre : forall more', resume (upd n 0 pt st) rest (St o t u) (pre ++ more') = resume (upd (n + zlen pre) 0 pt st) rest (St o t1 u) more')
    by (intros; apply resume_quiet; [lia|lia|done]).
  assert (Hbs' : bs = (pre ++ [b]) ++ rest1) by (by rewrite Hbs, <- app_assoc).
  destruct (Z.eqb_spec (tk_field_id tok) 0) as [Hid|Hid].
  { rewrite <- (option_fmap_id (filter_message fuel p (msg_index st) rest1)).
    apply (simulated_step (n + zlen pre + 1) pt [] t2 u rest1); [|change (zlen (@nil Z)) with 0; lia|].
    - rewrite app_nil_r, Hbs', <- app_assoc. replace (n + zlen pre + 1) with (n + zlen (pre ++ [b])) by (rewrite zlen_app; change (zlen [b]) with 1; lia).
      apply resume_quiet; [lia|rewrite zlen_app; change (zlen [b]) with 1; lia|].
      rewrite (push_quiet_app _ _ _ _ Hq). cbn [push_quiet]. rewrite Hp. unfold tk_valid. by rewrite Hid.
    - rewrite app_nil_r. apply IH; (done || lia). }
  assert (Hval : tk_valid tok = true) by (unfold tk_valid; destruct (Z.eqb_spec (tk_field_id tok) 0); done).
  destruct (Hsafe (msg_index st) (tk_field_id tok)) as [q Hquery]; [done|destruct Hok as [[? ?] _]; lia|].
  unfold ask. rewrite Hquery. change (default (mkQR false 0) (Some q)) with q. pose proof (Query_nested _ _ _ Hquery) as Hnest.
  assert (Hsplit : forall more', bs ++ more' = pre ++ b :: (rest1 ++ more')) by (intros; rewrite Hbs, <- app_assoc; done).
  assert (Hsimple : tk_type tok <> kLengthDelimited ->
    simulated n pt st rest o t u bs more (app (if allowed q && simple_field q then token_output tok else []) <$> filter_message fuel p (msg_index st) rest1)).
  { intros Hty. edestruct (resume_simple b (n + zlen pre) st rest o t1 u (rest1 ++ more) pt) as [u2 Hu]; [lia|lia|done|done|done|done|done|lia|].
    eapply simulated_step; [rewrite Hsplit, Hpre; exact Hu| |].
    - destruct (_ && _); [lia|change (zlen (@nil Z)) with 0; lia].
    - apply IH; try (done || lia); rewrite zlen_app; destruct (_ && _); change (zlen (@nil Z)) with 0; lia. }
  destruct (tk_type tok) eqn:Ety; [| |clear Hsimple|]; try (unfold token_output in Hsimple; rewrite Ety in Hsimple; by apply Hsimple).
  pose proof (resume_len_delimited b (n + zlen pre) st rest o t1 u (rest1 ++ more) pt tok t2 q ltac:(lia) ltac:(lia) Hp Hval Hok Ety Hquery ltac:(lia)) as Hld.
  cbv zeta in Hld |- *. set (len := tk_value tok) in *. assert (Hlv : 0 <= len) by apply Hok.
  replace (in_bytes_limit st - (n + zlen pre) - 1) with (zlen rest1) in Hld by lia.
  destruct (Z.ltb_spec (zlen rest1) len).
  { destruct Hld as (f & Hf0 & Hr). eapply simulated_error; [rewrite Hsplit, Hpre; exact Hr|exact Hf0|lia|lia]. }
  assert (Hpl : zlen (ztake len rest1) = len) by (apply zlen_ztake; lia).
  assert (Hrl : zlen (zdrop len rest1) = zlen rest1 - len) by (apply zlen_zdrop; lia).
  assert (Hrf : (length (zdrop len rest1) < fuel)%nat) by (unfold zdrop; rewrite length_drop; lia).
  assert (Hr1 : rest1 ++ more = ztake len rest1 ++ zdrop len rest1 ++ more) by by rewrite app_assoc, ztake_zdrop.
  assert (Hout : token_output tok = LenDelimTag (tk_field_id tok) ++ WriteVarInt uint32_t len) by (unfold token_output; by rewrite Ety).
  destruct (allowed q && negb (simple_field q) && (0 <? len)).
  - destruct Hld as [u2 Hu]. set (ne := nested_entry o (tk_field_id tok) len (nested_msg_index q)) in *.
    assert (Hsf : (length (ztake len rest1) < fuel)%nat) by (unfold zlen in *; lia).
    pose proof (zlen_app o (token_output tok)) as Hot. pose proof (zlen_nonneg o).
    assert (Hto : zlen (token_output tok) = zlen (LenDelimTag (tk_field_id tok)) + zlen (WriteVarInt uint32_t len)) by by rewrite Hout, zlen_app.
    pose proof (zlen_nonneg (LenDelimTag (tk_field_id tok))). pose proof (zlen_nonneg (WriteVarInt uint32_t len)).
    assert (Hnsf : size_field ne = zlen o + zlen (LenDelimTag (tk_field_id tok))) by done.
    assert (Hnsl : size_field_len ne = zlen (WriteVarInt uint32_t len)) by done.
    pose proof (IH (ztake len rest1) 0 false ne (upd (n + zlen pre + 1) 0 pt st :: rest) (o ++ token_output tok) t2 u2 (zdrop len rest1 ++ more)
      ltac:(by apply bytes_ok_ztake) Hsf Ht2 ltac:(lia) Hpl ltac:(change (len < UINT32_MAX); lia) ltac:(done) Hnest ltac:(rewrite Hnsf; lia) ltac:(rewrite Hnsl; lia)
      ltac:(rewrite Hnsf, Hnsl; lia) ltac:(lia)) as IHsub.
    change (msg_index ne) with (nested_msg_index q) in IHsub. unfold simulated in IHsub. rewrite <- Hr1 in IHsub.
    change (upd 0 0 false ne) with ne in IHsub. rewrite <- Hu in IHsub.
    destruct (filter_message fuel p (nested_msg_index q) (ztake len rest1)) as [sub|]; cbn [mbind option_bind].
    + destruct IHsub as (Hsub & pt' & t3 & u3 & Ht3 & Hr3).
      pose proof (zlen_nonneg sub). set (red := WriteRedundantVarInt (zlen sub) (zlen (WriteVarInt uint32_t len))).
      assert (Hred : zlen red = zlen (WriteVarInt uint32_t len)) by (apply redundant_size; [unfold UINT32_MAX in Hlim; split; lia|lia]).
      change (in_bytes_limit ne) with len in Hr3. rewrite Hout, (app_assoc o), <- (app_assoc _ _ sub) in Hr3.
      pose proof (zlen_app o (LenDelimTag (tk_field_id tok))) as Hoa.
      rewrite (resume_pop ne st rest (o ++ LenDelimTag (tk_field_id tok)) sub t3 u3 (zdrop len rest1 ++ more) pt' (n + zlen pre + 1) pt Ht3) in Hr3;
        [|lia| |lia|change (zlen sub <= len); lia|lia|change (in_bytes_limit ne) with len; lia|done].
      2: { rewrite Hnsl, Hoa. change (u32 (zlen o + zlen (LenDelimTag (tk_field_id tok) ++ WriteVarInt uint32_t len)) = u32 (zlen o + zlen (LenDelimTag (tk_field_id tok)) + zlen (WriteVarInt uint32_t len))).
           f_equal. rewrite zlen_app. lia. }
      change (in_bytes_limit ne) with len in Hr3. rewrite <- app_assoc in Hr3. eapply simulated_step; [rewrite Hsplit, Hpre; exact Hr3|rewrite !zlen_app; lia|].
      apply IH; try (done || lia); [by apply bytes_ok_zdrop|rewrite !zlen_app; lia|rewrite !zlen_app; lia].
    + destruct IHsub as (k & f & Hk & Hf0 & Hr3). eapply simulated_error; [rewrite Hsplit, Hpre; exact Hr3|exact Hf0|lia|lia].
  - destruct Hld as [u2 Hu]. rewrite Hr1 in Hu. 
    assert (Hshape : (o ++ (if allowed q then token_output tok else [])) ++ (if allowed q then ztake len rest1 else []) =
      o ++ (if allowed q then LenDelimTag (tk_field_id tok) ++ WriteVarInt uint32_t len ++ ztake len rest1 else [])).
    { rewrite <- app_assoc. destruct (allowed q); [|done]. by rewrite Hout, <- app_assoc. }
    assert (Hsz : zlen (if allowed q then LenDelimTag (tk_field_id tok) ++ WriteVarInt uint32_t len ++ ztake len rest1 else []) <= zlen (token_output tok) + len).
    { destruct (allowed q); [rewrite Hout, !zlen_app; lia|change (zlen (@nil Z)) with 0; lia]. }
    pose proof (zlen_app o (if allowed q then token_output tok else [])) as Hot.
    assert (Hkept : zlen (if allowed q then token_output tok else []) <= zlen (token_output tok)) by (destruct (allowed q); [lia|done]).
    pose proof (resume_eats (ztake len rest1) (n + zlen pre + 1) st rest (o ++ (if allowed q then token_output tok else [])) t2 u2
      (zdrop len rest1 ++ more) (allowed q) ltac:(lia) ltac:(lia) ltac:(lia)) as Heat.
    rewrite Hpl in Heat. rewrite Heat, Hshape in Hu. clear Heat.
    eapply simulated_step; [rewrite Hsplit, Hpre, Hr1; exact Hu|lia|].
    match goal with |- simulated _ _ _ _ (o ++ ?x) _ _ _ _ _ => pose proof (zlen_app o x); pose proof (zlen_nonneg x) end.
    apply IH; try (done || lia). by apply bytes_ok_zdrop.
Qed.
End Simulation.

Lemma FilterBytes_app a b f : FilterBytes (a ++ b) f = let! f := FilterBytes a f in FilterBytes b f.
Proof.
  revert f. induction a as [|x a IH]; intros f; cbn [FilterBytes app]; [done|]. destruct (FilterOneByte x f); [apply IH|done].
Qed.
Lemma FilterBytes_slices slices f :
  fold_left (fun acc slice => let! f := acc in FilterBytes slice f) slices (Ok f) = FilterBytes (concat slices) f.
Proof.
  revert f. induction slices as [|s l IH]; intros f; cbn [fold_left concat]; [done|]. cbn [obind]. rewrite FilterBytes_app.
  destruct (FilterBytes s f) as [f'|]; [apply IH|]. clear IH. by induction l.
Qed.
Lemma total_len_slices (slices : list (list Z)) : forall n, 0 <= n -> n + zlen (concat slices) < 4294967296 ->
  fold_left (fun n s => u32 (n + zlen s)) slices n = n + zlen (concat slices).
Proof.
  induction slices as [|s l IH]; intros n Hn Hl; cbn [fold_left concat] in *; [change (zlen (@nil Z)) with 0; lia|].
  rewrite zlen_app in *. pose proof (zlen_nonneg s). pose proof (zlen_nonneg (concat l)). rewrite u32_small, IH by lia. lia.
Qed.

(** The reference does not depend on the fuel. *)
Lemma filter_message_fuel n : forall m p idx bs, bytes_ok bs -> (length bs < n)%nat -> (length bs < m)%nat ->
  filter_message n p idx bs = filter_message m p idx bs.
Proof.
  induction n as [|n IH]; intros m p idx bs Hb Hn Hm; [lia|]. destruct m as [|m]; [lia|]. cbn [filter_message].
  case_bool_decide; [done|]. destruct (next_token bs) as [[tok rest]|] eqn:E; [|done].
  destruct (next_token_cost bs tok rest Hb E) as ((_ & Hv & _) & Hr & Hlt & _). unfold zlen in Hlt.
  rewrite (IH m p idx rest) by (done || lia). destruct (_ =? 0); [done|]. destruct (tk_type tok); try done.
  destruct (_ <? _); [done|].
  rewrite (IH m p _ (ztake _ rest)); [|by apply bytes_ok_ztake|unfold ztake; rewrite length_take; lia..].
  rewrite (IH m p idx (zdrop _ rest)); [done|by apply bytes_ok_zdrop|unfold zdrop; rewrite length_drop; lia..].
Qed.

Lemma token_output_bytes tok : bytes_ok (token_output tok).
Proof.
  pose proof (fun v => proj1 (WriteVarInt_spec uint32_t v int_type_ok_u32)) as H32.
  pose proof (fun v => proj1 (WriteVarInt_spec uint64_t v int_type_ok_u64)) as H64.
  unfold token_output, FilterAppendVarInt, FilterAppendFixed, LenDelimTag.
  destruct (tk_type tok); apply bytes_ok_app; (split; [apply H32|]); auto using bytes_ok_le_bytes.
Qed.

Lemma numeral_backfill v len : 0 <= v <= len -> len <= kMaxMessageLength ->
  numeral (WriteRedundantVarInt v (zlen (WriteVarInt uint32_t len))) v.
Proof.
  intros Hv Hl. change kMaxMessageLength with 268435455 in Hl. pose proof (numeral_u32 len) as Hn.
  destruct Hn as (_ & Hs & Hsz & Hval); [split; [lia|change (2 ^ 32) with 4294967296; lia]|].
  pose proof (varint_shape_nonempty _ Hs). pose proof (varint_value_bound (WriteVarInt uint32_t len)) as Hb.
  destruct (WriteVarInt_spec uint32_t len int_type_ok_u32) as (_ & _ & Hvv & _). rewrite Hvv in *.
  change (MaybeExtend uint32_t len) with (u32 len) in *. rewrite u32_small in * by lia.
  destruct (WriteRedundantVarInt_spec v (zlen (WriteVarInt uint32_t len))) as (Hb2 & Hl2 & Hs2); [split; [lia|change (2 ^ 32) with 4294967296; lia]|lia|].
  destruct Hs2 as [Hs2 Hv2]; [lia|]. split; [done|]. split; [done|]. split; [lia|]. rewrite Hv2. apply u64_small. lia.
Qed.

(** The filtered message is a byte string no longer than the message. *)
Lemma filter_message_bound fuel : forall p idx bs out, bytes_ok bs -> filter_message fuel p idx bs = Some out ->
  bytes_ok out /\ zlen out <= zlen bs.
Proof.
  induction fuel as [|fuel IH]; intros p idx bs out Hb; cbn [filter_message]; [done|].
  case_bool_decide as Hnil; [intros [= <-]; subst; by split|].
  destruct (next_token bs) as [[tok rest]|] eqn:E; [|done].
  destruct (next_token_cost bs tok rest Hb E) as ((_ & Hv & _ & Hmax) & Hr & Hlt & Hcost).
  pose proof (token_output_bytes tok) as Htb. pose proof (zlen_nonneg (token_output tok)). unfold token_output in *.
  assert (Hkeep : forall (c : bool) l rest', bytes_ok l -> bytes_ok rest' -> zlen l + zlen rest' <= zlen bs ->
    app (if c then l else []) <$> filter_message fuel p idx rest' = Some out -> bytes_ok out /\ zlen out <= zlen bs).
  { intros c l rest' Hl Hr' Hsz. destruct (filter_message fuel p idx rest') as [o|] eqn:Eo; [|done]. intros [= <-].
    apply IH in Eo as [Ho Hlo]; [|done]. pose proof (zlen_nonneg l). rewrite zlen_app, bytes_ok_app.
    destruct c; [split; [done|lia]|split; [split; [constructor|done]|change (zlen (@nil Z)) with 0; lia]]. }
  destruct (tk_field_id tok =? 0).
  { intros Ho. apply IH in Ho as [Ho Hl]; [split; [done|lia]|done]. }
  cbv zeta. destruct (tk_type tok); [by apply Hkeep..| |by apply Hkeep].
  set (len := tk_value tok) in *. destruct (Z.ltb_spec (zlen rest) len); [done|]. specialize (Hmax eq_refl).
  assert (Hz : zlen (ztake len rest) = len /\ zlen (zdrop len rest) = zlen rest - len) by (split; [apply zlen_ztake|apply zlen_zdrop]; lia).
  assert (Hbz : bytes_ok (ztake len rest) /\ bytes_ok (zdrop len rest)) by (split; [by apply bytes_ok_ztake|by apply bytes_ok_zdrop]).
  destruct Hz as [Hz1 Hz2], Hbz as [Hbz1 Hbz2]. apply bytes_ok_app in Htb as [Htb1 Htb2]. rewrite zlen_app in *.
  destruct (_ && _).
  - destruct (filter_message fuel p _ (ztake len rest)) as [sub|] eqn:Esub; [|done]. cbn [mbind option_bind].
    apply IH in Esub as [Hsb Hsl]; [|done]. pose proof (zlen_nonneg sub). intros Ho.
    destruct (numeral_backfill (zlen sub) len ltac:(lia) Hmax) as (Hrb & _). change kMaxMessageLength with 268435455 in Hmax.
    pose proof (redundant_size (zlen sub) (zlen (WriteVarInt uint32_t len)) ltac:(split; [lia|change (2 ^ 32) with 4294967296; lia]) (zlen_nonneg _)).
    apply (Hkeep true) in Ho; [done| |done|].
    + rewrite !bytes_ok_app. done.
    + rewrite !zlen_app. lia.
  - intros Ho. apply Hkeep in Ho; [done|rewrite !bytes_ok_app; done|done|rewrite !zlen_app; lia].
Qed.

(** *** The reference in terms of fields *)

Definition value_payload (v : wire_value) : list Z := match v with VBytes l => l | _ => [] end.
Definition value_number (v : wire_value) : Z :=
  match v with VVarInt v | VFixed64 v | VFixed32 v => v | VBytes l => zlen l end.

Lemma ParseVarInt_numeral l v rest : numeral l v -> ParseVarInt (l ++ rest) = (zlen l, v) /\ (zlen l =? 0) = false /\ zdrop (zlen l) (l ++ rest) = rest.
Proof.
  intros Hn. pose proof (numeral_pos l v Hn). destruct Hn as (Hb & Hs & Hl & <-). split; [by apply ParseVarInt_shape|].
  split; [by apply Z.eqb_neq; lia|apply zdrop_zlen_app].
Qed.

Lemma next_token_enc f b more : encodes f b ->
  next_token (b ++ more) = Some (mkToken f.1 (value_type f.2) (value_number f.2), value_payload f.2 ++ more).
Proof.
  intros [Hid (t & p & Ht & Hp & ->)]. destruct f as [id v]. cbn [fst snd] in *.
  destruct (tag_fields id (value_type v)) as (Hsh & Hland & Hrange); [change (2 ^ 29) with 536870912; lia|].
  unfold next_token. rewrite <- app_assoc. destruct (ParseVarInt_numeral t _ (p ++ more) Ht) as (-> & -> & ->).
  cbv zeta in Hsh, Hland |- *. rewrite Hsh, (u32_small id) by lia.
  assert (Hty : u32 ((wire_type_value (value_type v) + id * 8) .& 7) = wire_type_value (value_type v)).
  { rewrite land_7. rewrite Z.mod_add by lia. destruct v; reflexivity. }
  rewrite Hty. destruct v as [v|v|v|l]; cbn [encodes_value value_type wire_type_value Z.eqb Pos.eqb value_payload value_number app] in *.
  - destruct (ParseVarInt_numeral p _ more Hp) as (-> & -> & ->). done.
  - destruct Hp as [Hw ->]. rewrite zlen_app, zlen_le_bytes. change (Z.of_nat 8) with 8. pose proof (zlen_nonneg more).
    destruct (Z.ltb_spec (8 + zlen more) 8); [lia|]. change 8 with (zlen (le_bytes 8 v)). rewrite ztake_zlen_app, zdrop_zlen_app.
    by rewrite le_value_bytes_small by done.
  - destruct Hp as [Hw ->]. rewrite zlen_app, zlen_le_bytes. change (Z.of_nat 4) with 4. pose proof (zlen_nonneg more).
    destruct (Z.ltb_spec (4 + zlen more) 4); [lia|]. change 4 with (zlen (le_bytes 4 v)). rewrite ztake_zlen_app, zdrop_zlen_app.
    by rewrite le_value_bytes_small by done.
  - destruct Hp as (Hb & Hl & n & Hn & ->). rewrite <- app_assoc. destruct (ParseVarInt_numeral n _ (l ++ more) Hn) as (-> & -> & ->).
    destruct (Z.ltb_spec kMaxMessageLength (zlen l)); [lia|]. done.
Qed.

(** What the filter does to one field of a message of type [idx]: the fields it
    leaves (none or one), None if the payload is a malformed message. *)
Definition filter_field (p : Parser) (idx : Z) (f : wire_field) : option (list wire_field) :=
  let q := ask p idx f.1 in
  match f.2 with
  | VBytes l =>
      if negb (allowed q) then Some []
      else if simple_field q then Some [f]
      else sub ← filter_reference p (nested_msg_index q) l; Some [(f.1, VBytes sub)]
  | _ => Some (if allowed q && simple_field q then [f] else [])
  end.

Lemma encodes_kept id v : 1 <= id <= 65535 -> match v with VBytes _ => False | _ => True end -> value_ok v ->
  encodes (id, v) (token_output (mkToken id (value_type v) (value_number v))).
Proof.
  intros Hid Hv Hok. split; [done|]. unfold token_output. destruct v as [v|v|v|l]; [| | |done]; cbn [value_type tk_type tk_field_id tk_value value_number snd];
    eexists _, _; (split; [apply (numeral_tag _ id Hid)|]); (split; [|reflexivity]); cbn [encodes_value value_ok] in *.
  - by apply (encodes_encode_value (VVarInt v)).
  - done.
  - done.
Qed.

Lemma encodes_value_ok v b : encodes_value v b -> value_ok v.
Proof.
  destruct v; cbn [encodes_value value_ok]; [| | |by intros (? & ? & _)]; [|by intros [? _]..].
  intros (_ & _ & _ & <-). apply (uw_range 64). lia.
Qed.

(** One field at the front of a message. *)
Lemma filter_message_field fuel p idx f b more : encodes f b -> bytes_ok more -> (length (b ++ more) < S fuel)%nat ->
  match filter_field p idx f with
  | Some ks => exists bs, Forall2 encodes ks bs /\
      filter_message (S fuel) p idx (b ++ more) = app (concat bs) <$> filter_message fuel p idx more
  | None => filter_message (S fuel) p idx (b ++ more) = None
  end.
Proof.
  intros Hf Hmore Hfuel. pose proof (encodes_pos f b Hf) as Hpos. rewrite length_app in Hfuel. cbn [filter_message].
  rewrite bool_decide_eq_false_2 by (intros H; apply app_eq_nil in H as [-> _]; done).
  rewrite (next_token_enc f b more Hf). destruct Hf as [Hid (t & pb & Ht & Hp & Hb)]. destruct f as [id v]. cbn [fst snd] in *.
  cbn [tk_field_id tk_type tk_value]. destruct (Z.eqb_spec id 0); [lia|]. unfold filter_field. cbn [fst snd].
  set (q := ask p idx id). pose proof (encodes_value_ok v pb Hp) as Hvok.
  assert (Hnone : forall o : option (list Z), o = app (concat []) <$> o) by (by intros []).
  assert (Hscalar : match v with VBytes _ => False | _ => True end -> exists bs,
    Forall2 encodes (if allowed q && simple_field q then [(id, v)] else []) bs /\ 
    (if allowed q && simple_field q then token_output (mkToken id (value_type v) (value_number v)) else []) = concat bs).
  { intros Hv. destruct (_ && _); [|by exists []]. eexists [_]. split; [|cbn [concat]; by rewrite app_nil_r].
    constructor; [by apply encodes_kept|constructor]. }
  destruct v as [v|v|v|l]; cbn [value_type value_payload value_number app];
    try (destruct (Hscalar I) as (bs & Hbs & Hc); exists bs; split; [exact Hbs|]; rewrite <- Hc; reflexivity).
  destruct Hvok as [Hlb Hll]. rewrite zlen_app. pose proof (zlen_nonneg more). pose proof (zlen_nonneg l).
  destruct (Z.ltb_spec (zlen l + zlen more) (zlen l)); [lia|]. rewrite ztake_zlen_app, zdrop_zlen_app.
  assert (Hlen : (length l < fuel)%nat).
  { destruct Hp as (_ & _ & n0 & Hn & ->). apply numeral_pos in Ht. rewrite Hb, !length_app in Hfuel. unfold zlen in *. lia. }
  assert (Htag : numeral (LenDelimTag id) (2 + id * 8)) by apply (numeral_tag kLengthDelimited id Hid).
  destruct (allowed q); cbn [negb andb]; [|exists []; by split]. destruct (simple_field q); cbn [negb andb].
  { exists [LenDelimTag id ++ WriteVarInt uint32_t (zlen l) ++ l]. cbn [concat]. rewrite app_nil_r. split; [|done].
    constructor; [|constructor]. split; [done|]. eexists _, _. split; [exact Htag|]. split; [|reflexivity]. split; [done|]. split; [done|].
    eexists. split; [|reflexivity]. apply numeral_u32, size_word. lia. }
  unfold filter_reference. destruct (Z.ltb_spec 0 (zlen l)).
  - rewrite (filter_message_fuel (S (length l)) fuel) by (done || lia).
    destruct (filter_message fuel p (nested_msg_index q) l) as [sub|] eqn:Esub; cbn [mbind option_bind]; [|done].
    destruct (filter_message_bound _ _ _ _ _ Hlb Esub) as [Hsb Hsl]. pose proof (zlen_nonneg sub).
    eexists [_]. split; [|cbn [concat]; rewrite app_nil_r; reflexivity]. constructor; [|constructor].
    split; [done|]. eexists _, _. split; [exact Htag|]. split; [|reflexivity]. split; [done|]. split; [lia|].
    eexists. split; [|reflexivity]. apply numeral_backfill; lia.
  - destruct l as [|x l]; [|rewrite zlen_cons in *; pose proof (zlen_nonneg l); lia].
    exists [LenDelimTag id ++ WriteVarInt uint32_t 0 ++ []]. split; [|cbn [concat]; by rewrite !app_nil_r].
    constructor; [|constructor]. split; [done|]. eexists _, _. split; [exact Htag|]. split; [|reflexivity].
    split; [constructor|]. split; [by vm_compute|].
    eexists. split; [|reflexivity]. apply numeral_u32, size_word. done.
Qed.

Lemma bytes_ok_fields fs bs : Forall2 encodes fs bs -> bytes_ok (concat bs).
Proof. induction 1; cbn [concat]; [constructor|]. apply bytes_ok_app. split; [by eapply bytes_ok_encodes|done]. Qed.
Lemma filter_message_fields p idx fs bs : Forall2 encodes fs bs -> forall fuel, (length (concat bs) < fuel)%nat ->
  match mapM (filter_field p idx) fs with
  | Some kept => exists bs', Forall2 encodes (concat kept) bs' /\ filter_message fuel p idx (concat bs) = Some (concat bs')
  | None => filter_message fuel p idx (concat bs) = None
  end.
Proof.
  induction 1 as [|f b fs bs Hf Hfs IH]; intros fuel Hfuel.
  { exists []. split; [done|]. destruct fuel; [lia|done]. }
  cbn [concat mapM] in *. destruct fuel as [|fuel]; [lia|].
  assert (Hb : bytes_ok (concat bs)) by (by eapply bytes_ok_fields).
  pose proof (filter_message_field fuel p idx f b (concat bs) Hf Hb Hfuel) as Hone.
  pose proof (encodes_pos f b Hf) as Hpos. specialize (IH fuel). rewrite length_app in Hfuel. specialize (IH ltac:(unfold zlen in Hpos; lia)).
  destruct (filter_field p idx f) as [ks|]; cbn [mbind option_bind]; [|exact Hone]. destruct Hone as (bs1 & Hbs1 & ->).
  destruct (mapM (filter_field p idx) fs) as [kept|]; cbn [mbind option_bind]; [|by rewrite IH].
  destruct IH as (bs' & Hbs' & ->). exists (bs1 ++ bs'). cbn [concat mret option_ret fmap option_fmap option_map].
  split; [by apply Forall2_app|]. by rewrite concat_app.
Qed.

(** ** The whole filter *)

Lemma FilterMessageFragments_refines (bytecode : list Z) (p : Parser) (slices : list (list Z)) (f : Filter) :
  bytes_ok bytecode -> zlen bytecode < 2 ^ 24 -> filter_ f = (Load bytecode p).2 -> 0 <= root_msg_index_ f ->
  bytes_ok (concat slices) -> 1 <= zlen (concat slices) < UINT32_MAX ->
  let r := filter_reference (filter_ f) (root_msg_index_ f) (concat slices) in
  zlen (default [] r) <= zlen (concat slices) /\
  exists f', FilterMessageFragments slices f = Ok (default [] r, bool_decide (r = None), f').
Proof.
  intros Hbc Hbl Hf Hroot Hb Hlen r. unfold UINT32_MAX in *. pose proof (Load_queries_safe bytecode p Hbc Hbl) as Hsafe. rewrite <- Hf in Hsafe.
  unfold FilterMessageFragments. rewrite total_len_slices by lia. rewrite Z.add_0_l, FilterBytes_slices.
  set (n := zlen (concat slices)) in *. set (sent := mkFrame 0 UINT32_MAX UINT32_MAX 0 0 0 0 0 false).
  set (rt := mkFrame 0 n 0 0 0 (root_msg_index_ f) 0 0 false).
  pose proof (simulation (filter_ f) n (root_msg_index_ f) (track_field_usage_ f) Hsafe ltac:(unfold UINT32_MAX; lia)
    (S (length (concat slices))) (concat slices) 0 false rt [sent] [] MessageTokenizer (field_usage_ f) [] Hb ltac:(lia) ltac:(by repeat split)
    ltac:(lia) ltac:(done) ltac:(change (n < 4294967295); lia) ltac:(done) Hroot ltac:(done) ltac:(done) ltac:(done)
    ltac:(change (zlen (@nil Z)) with 0; lia)) as Hsim.
  change (filter_message _ _ _ _) with r in Hsim. unfold simulated in Hsim. rewrite app_nil_r in Hsim.
  assert (Hstart : resume (upd 0 0 false rt) [sent] (St (filter_ f) n (root_msg_index_ f) (track_field_usage_ f) [] MessageTokenizer (field_usage_ f)) (concat slices)
    = FilterBytes (concat slices) (mkFilter [] n (root_msg_index_ f) (filter_ f) MessageTokenizer [rt; sent] false (track_field_usage_ f) (field_usage_ f))).
  { unfold resume. cbn [PopLoop in_bytes_limit in_bytes upd rt]. destruct (Z.leb_spec n 0); [lia|done]. }
  rewrite Hstart in Hsim. destruct r as [out|]; cbn [default].
  - destruct Hsim as (Ho & pt' & t' & u' & Ht & Hr). split; [exact Ho|]. rewrite Hr. change ([] ++ out) with out. unfold resume.
    cbn [PopLoop in_bytes_limit in_bytes upd rt]. rewrite Z.leb_refl. unfold out_store. cbn [size_field size_field_len upd rt].
    rewrite redundant_size by (apply u32_range || done). cbn [out_buf_ St]. pose proof (zlen_nonneg out).
    destruct (Z.leb_spec (0 + 0) (zlen out)); [|lia]. cbn [obind].
    change (set_out _ _) with (St (filter_ f) n (root_msg_index_ f) (track_field_usage_ f) out t' u'). cbn [tokenizer_ St].
    rewrite (at_preamble_idle _ Ht). cbn [negb]. unfold add_in_bytes. cbn [in_bytes sent in_bytes_limit eat_next_bytes].
    rewrite Z.add_0_l, u32_small by lia. cbn [PopLoop in_bytes in_bytes_limit].
    unfold UINT32_MAX at 1. destruct (Z.leb_spec 4294967295 n); [lia|]. cbn [obind FilterBytes set_stack out_buf_ out_capacity St].
    destruct (Z.leb_spec (zlen out) n); [|lia]. cbn [obind perfetto_check]. eexists.
    change (tokenizer_ (set_stack _ _)) with t'. rewrite (at_preamble_idle _ Ht).
    change (default 0 (in_bytes <$> last _)) with n. rewrite (Z.eqb_refl n), bool_decide_eq_false_2 by done. reflexivity.
  - destruct Hsim as (k & g & Hk & (Ho & Hc & He & Hs) & Hr). split; [change (zlen (@nil Z)) with 0; lia|]. rewrite Hr. cbn [FilterBytes obind].
    rewrite Ho, He. change (zlen (@nil Z)) with 0. destruct (Z.leb_spec 0 (out_capacity g)); [|lia]. cbn [obind perfetto_check orb]. by eexists.
Qed.

(** The filter with another root, as SetFilterRoot leaves it. *)
Definition set_root (idx : Z) (f : Filter) : Filter :=
  mkFilter (out_buf_ f) (out_capacity f) idx (filter_ f) (tokenizer_ f) (stack_ f) (error_ f) (track_field_usage_ f) (field_usage_ f).
(** What the filter makes of a message of type [idx]; None if it reports an error, as it
    does of every message that is empty and not nested in another one. *)
Definition filter_as (f : Filter) (idx : Z) (l : list Z) : option (list Z) :=
  if bool_decide (l = []) then Some []
  else match FilterMessageFragments [l] (set_root idx f) with Ok (out, false, _) => Some out | _ => None end.
(** What becomes of a field of a message of type [idx]: it is kept or not, and a nested
    message is filtered. *)
Definition project_field (f : Filter) (idx : Z) (w : wire_field) : option (list wire_field) :=
  let q := ask (filter_ f) idx w.1 in
  match w.2 with
  | VBytes l =>
      if negb (allowed q) then Some []
      else if simple_field q then Some [w]
      else sub ← filter_as f (nested_msg_index q) l; Some [(w.1, VBytes sub)]
  | _ => Some (if allowed q && simple_field q then [w] else [])
  end.

Section Project.
Context (bytecode : list Z) (p : Parser) (f : Filter).
Context (Hbc : bytes_ok bytecode) (Hbl : zlen bytecode < 2 ^ 24) (Hf : filter_ f = (Load bytecode p).2).

Lemma filter_as_reference idx l : 0 <= idx -> bytes_ok l -> zlen l < UINT32_MAX -> filter_as f idx l = filter_reference (filter_ f) idx l.
Proof using All.
  intros Hi Hl Hz. unfold filter_as. case_bool_decide as He; [by subst|]. assert (E : concat [l] = l) by apply app_nil_r.
  assert (Hpos : 1 <= zlen l) by (destruct l; [done|]; rewrite zlen_cons; pose proof (zlen_nonneg l); lia).
  destruct (FilterMessageFragments_refines bytecode p [l] (set_root idx f)) as (_ & f' & ->); rewrite ?E; try done.
  cbn [set_root filter_ root_msg_index_]. by destruct (filter_reference (filter_ f) idx l).
Qed.
Lemma project_field_reference idx w b : 0 <= idx -> encodes w b -> project_field f idx w = filter_field (filter_ f) idx w.
Proof using All.
  intros Hi [_ (t & pb & _ & Hp & _)]. unfold project_field, filter_field. destruct w as [id v]. cbn [fst snd] in *. destruct v as [v|v|v|l]; try done.
  destruct (allowed _); [|done]. destruct (simple_field _); [done|]. cbn [negb]. apply encodes_value_ok in Hp as [Hlb Hll]. rewrite filter_as_reference; [done| |done|].
  - unfold ask. destruct (Query idx id (filter_ f)) as [q|] eqn:E; [by eapply Query_nested|done].
  - unfold UINT32_MAX in *. change kMaxMessageLength with 268435455 in *. lia.
Qed.
Lemma project_fields idx fs bs : 0 <= idx -> Forall2 encodes fs bs -> mapM (project_field f idx) fs = mapM (filter_field (filter_ f) idx) fs.
Proof using All.
  intros Hi. induction 1 as [|w b fs bs Hw _ IH]; [done|]. cbn [mapM]. by rewrite (project_field_reference idx w b), IH.
Qed.
End Project.

(** ** Properties *)

(** C7. The streaming filter is equivalent to the recursive definition on the whole
    message, whatever the bytecode loaded before, the message and its slicing: it never
    fails a check nor writes or reads outside its buffer and tables, it returns the
    filtered message, never longer than the input, or the error flag and no byte if the
    message is malformed. *)
Theorem streaming_filter_refines (bytecode : list Z) (p : Parser) (slices : list (list Z)) (f : Filter) :
  bytes_ok bytecode -> zlen bytecode < 2 ^ 24 -> filter_ f = (Load bytecode p).2 -> 0 <= root_msg_index_ f ->
  bytes_ok (concat slices) -> 1 <= zlen (concat slices) < UINT32_MAX ->
  let r := filter_reference (filter_ f) (root_msg_index_ f) (concat slices) in
  zlen (default [] r) <= zlen (concat slices) /\
  exists f', FilterMessageFragments slices f = Ok (default [] r, bool_decide (r = None), f').
Proof. intros Hbc Hbl Hf Hroot Hb Hlen. exact (FilterMessageFragments_refines bytecode p slices f Hbc Hbl Hf Hroot Hb Hlen). Qed.

(** A filter with one message: fields 1 and 3 simple, field 2 nested of the same type. *)
Definition sample_bytecode : list Z := [9; 19; 0; 25; 0; 134; 205; 135; 192; 10].
Definition sample_filter : Filter := (LoadFilterBytecode sample_bytecode MessageFilter).2.

Lemma streaming_filter_refines_witness :
  let slices := [[8; 5; 32; 9; 18]; []; [4; 8; 7; 32; 9]] in
  (LoadFilterBytecode sample_bytecode MessageFilter).1 = true /\ 1 <= zlen (concat slices) < UINT32_MAX /\
  exists f', FilterMessageFragments slices sample_filter = Ok ([8; 5; 18; 2; 8; 7], false, f').
Proof.
  cbv zeta. split; [vm_compute; reflexivity|]. split; [vm_compute; split; [discriminate|reflexivity]|].
  destruct (streaming_filter_refines sample_bytecode (mkParser [] [] false) [[8; 5; 32; 9; 18]; []; [4; 8; 7; 32; 9]] sample_filter) as (_ & f' & H).
  - repeat constructor; unfold byte_ok; lia.
  - vm_compute. reflexivity.
  - reflexivity.
  - vm_compute. discriminate.
  - repeat constructor; unfold byte_ok; lia.
  - vm_compute. split; [discriminate|reflexivity].
  - exists f'. rewrite H. vm_compute. reflexivity.
Defined.

(** C8. The filter is a projection of the fields: for every encoding of a list of fields
    (redundant varints included), however it is sliced, FilterMessageFragments returns a
    message that decodes to the allowed fields in their order, a nested message replaced by
    what the filter makes of it; a field the bytecode does not name, or names with the other
    kind, is gone; it reports an error, and returns nothing, only if it does for a nested
    message.  The bytecode is any that was loaded, below 16 MB, and the message is not
    empty. *)
Theorem filter_projects_fields (bytecode : list Z) (p : Parser) (slices : list (list Z)) (f : Filter) (fs : list wire_field) (bs : list (list Z)) :
  bytes_ok bytecode -> zlen bytecode < 2 ^ 24 -> filter_ f = (Load bytecode p).2 -> 0 <= root_msg_index_ f ->
  Forall2 encodes fs bs -> concat slices = concat bs -> 1 <= zlen (concat bs) < UINT32_MAX ->
  exists out error f', FilterMessageFragments slices f = Ok (out, error, f') /\
    match mapM (project_field f (root_msg_index_ f)) fs with
    | Some kept => error = false /\ map (view out) (ReadAll out) = concat kept
    | None => error = true /\ out = []
    end.
Proof.
  intros Hbc Hbl Hf Hroot Hfs Hsl Hlen. assert (Hb : bytes_ok (concat bs)) by (by eapply bytes_ok_fields).
  destruct (FilterMessageFragments_refines bytecode p slices f Hbc Hbl Hf Hroot) as (_ & f' & E); rewrite ?Hsl; try done. rewrite Hsl in E.
  eexists _, _, f'. split; [exact E|]. rewrite (project_fields bytecode p f Hbc Hbl Hf _ _ bs Hroot Hfs).
  pose proof (filter_message_fields (filter_ f) (root_msg_index_ f) fs bs Hfs (S (length (concat bs))) ltac:(lia)) as H. fold (filter_reference (filter_ f) (root_msg_index_ f) (concat bs)) in H.
  destruct (mapM (filter_field _ _) fs) as [kept|]; [|by rewrite H]. destruct H as (bs' & Hbs' & ->). split; [done|]. by apply ReadAll_enc.
Qed.

Lemma filter_projects_fields_witness :
  let fs := [(1, VVarInt 5); (4, VVarInt 9); (2, VBytes [8; 7; 32; 9]); (3, VFixed32 1)] in
  let bytes := encode_fields fs in
  Forall2 encodes fs (map encode_field fs) /\
  exists out f', FilterMessageFragments [ztake 3 bytes; zdrop 3 bytes] sample_filter = Ok (out, false, f') /\
    map (view out) (ReadAll out) = [(1, VVarInt 5); (2, VBytes [8; 7]); (3, VFixed32 1)].
Proof.
  cbv zeta. match goal with |- Forall2 encodes ?l _ /\ _ => set (fs := l) end.
  assert (Hfs : Forall2 encodes fs (map encode_field fs)).
  { unfold fs. cbn [map]. repeat constructor; apply encodes_encode_field; (split; [cbn; lia|]).
    all: first [ split; [apply Z.leb_le; reflexivity|apply Z.ltb_lt; reflexivity]
               | split; [repeat constructor; unfold byte_ok; lia|apply Z.leb_le; reflexivity] ]. }
  split; [exact Hfs|].
  destruct (filter_projects_fields sample_bytecode (mkParser [] [] false) [ztake 3 (encode_fields fs); zdrop 3 (encode_fields fs)] sample_filter fs (map encode_field fs))
    as (out & error & f' & E & H).
  - repeat constructor; unfold byte_ok; lia.
  - vm_compute. reflexivity.
  - reflexivity.
  - vm_compute. discriminate.
  - exact Hfs.
  - vm_compute. reflexivity.
  - vm_compute. split; [discriminate|reflexivity].
  - replace (mapM (project_field sample_filter (root_msg_index_ sample_filter)) fs) with (Some [[(1, VVarInt 5)]; []; [(2, VBytes [8; 7])]; [(3, VFixed32 1)]]) in H
      by (vm_compute; reflexivity).
    destruct H as [-> H]. exists out, f'. split; [exact E|exact H].
Defined.

(** An empty message, which is well-formed (it decodes to no field), is reported as an
    error: the root message is popped only when a byte is consumed. *)
Theorem empty_message_is_an_error (f : Filter) : forall slices, concat slices = [] ->
  filter_reference (filter_ f) (root_msg_index_ f) (concat slices) = Some [] /\
  exists f', FilterMessageFragments slices f = Ok ([], true, f').
Proof.
  intros slices Hs. split; [by rewrite Hs|]. unfold FilterMessageFragments. rewrite (total_len_slices slices 0) by (rewrite ?Hs; done).
  rewrite FilterBytes_slices, Hs. cbn [FilterBytes obind]. eexists. reflexivity.
Qed.

Lemma empty_message_is_an_error_witness : exists f', FilterMessageFragments [[]] sample_filter = Ok ([], true, f').
Proof. apply (empty_message_is_an_error sample_filter [[]] eq_refl). Defined.
