(* ===== verification/TraceBuffer.v ===== *)
(** * The trace buffer, write side
    (src/tracing/core/trace_buffer.cc, trace_buffer.h)

    The ring of ChunkRecords the service copies chunks into: the byte-level records,
    the index over them, insertion with eviction and padding, rewriting of chunks that
    were scraped before their completion, out-of-band patches.  The theorems: the
    records tile the buffer and the index names exactly the live ones, insertion evicts
    oldest-first and keeps the bytes of every other chunk, patches stay inside their
    chunk, and no check fails except on one path, which is exhibited. *)

From S2P Require Import Prelude ProtoUtils.

(** ** Data *)

Inductive OverwritePolicy : Type := kOverwrite | kDiscard.
#[export] Instance OverwritePolicy_eq_dec : EqDecision OverwritePolicy.
Proof. solve_decision. Defined.

(** SharedMemoryABI::ChunkHeader::Flags and ChunkMeta::IndexFlags. *)
Definition kFirstPacketContinuesFromPrevChunk : Z := 1 .<< 0.
Definition kLastPacketContinuesOnNextChunk : Z := 1 .<< 1.
Definition kChunkNeedsPatching : Z := 1 .<< 2.
Definition kComplete : Z := 1 .<< 0.
Definition kLastReadPacketSkipped : Z := 1 .<< 1.
Definition kMaxChunkID : Z := 4294967295.

(** A ChunkRecord in memory takes 16 bytes. *)
Definition sizeof_ChunkRecord : Z := 16.
Definition ChunkRecord_kMaxSize : Z := 65535.
Record ChunkRecord := mkRecord {
  rc_chunk_id : Z;
  rc_producer_id : Z;
  rc_writer_id : Z;
  rc_num_fragments : Z;
  rc_size : Z;
  rc_flags : Z;
  rc_is_padding : bool
}.
Definition rc_valid (r : ChunkRecord) : bool := negb (rc_size r =? 0).

(** The bytes of a record.  The bit field is flags:6, is_padding:1, and a bit that is
    never set nor read (0 here); the last bytes spell CHU. *)
Definition record_bytes (r : ChunkRecord) : list Z :=
  le_bytes 4 (rc_chunk_id r) ++ le_bytes 2 (rc_producer_id r) ++ le_bytes 2 (rc_writer_id r) ++
  le_bytes 2 (rc_num_fragments r) ++ le_bytes 2 (rc_size r) ++
  [(rc_flags r .& 63) .| (Z.b2z (rc_is_padding r) .<< 6); 67; 72; 85].
Definition parse_record (l : list Z) : ChunkRecord :=
  mkRecord (le_value (zread 0 4 l)) (le_value (zread 4 2 l)) (le_value (zread 6 2 l)) (le_value (zread 8 2 l))
    (le_value (zread 10 2 l)) (znth l 12 .& 63) (Z.testbit (znth l 12) 6).

(** {producer_id, writer_id, chunk_id}, ordered lexicographically. *)
Definition Key : Type := Z * Z * Z.
Definition Key_of (r : ChunkRecord) : Key := (rc_producer_id r, rc_writer_id r, rc_chunk_id r).
Definition Key_ltb (a b : Key) : bool :=
  let '(p, w, c) := a in let '(p', w', c') := b in
  (p <? p') || ((p =? p') && ((w <? w') || ((w =? w') && (c <? c')))).

(** [chunk_record] is an offset in the buffer. *)
Record ChunkMeta := mkMeta {
  chunk_record : Z;
  trusted_uid : Z;
  trusted_pid : Z;
  index_flags : Z;
  cm_flags : Z;
  num_fragments : Z;
  num_fragments_read : Z;
  cur_fragment_offset : Z
}.
Definition ChunkMeta_init (r p : Z) (complete : bool) (f u pid : Z) : ChunkMeta :=
  mkMeta r u pid (if complete then kComplete else 0) f p 0 0.
Definition is_complete (m : ChunkMeta) : bool := negb (index_flags m .& kComplete =? 0).
Definition set_index_flags (x : Z) (m : ChunkMeta) : ChunkMeta :=
  mkMeta (chunk_record m) (trusted_uid m) (trusted_pid m) x (cm_flags m) (num_fragments m) (num_fragments_read m) (cur_fragment_offset m).
Definition set_complete (complete : bool) (m : ChunkMeta) : ChunkMeta :=
  set_index_flags (if complete then index_flags m .| kComplete else index_flags m .& u8 (Z.lnot kComplete)) m.
Definition last_read_packet_skipped (m : ChunkMeta) : bool := negb (index_flags m .& kLastReadPacketSkipped =? 0).
Definition set_last_read_packet_skipped (skipped : bool) (m : ChunkMeta) : ChunkMeta :=
  set_index_flags (if skipped then index_flags m .| kLastReadPacketSkipped else index_flags m .& u8 (Z.lnot kLastReadPacketSkipped)) m.
Definition set_fragments_flags (n f : Z) (m : ChunkMeta) : ChunkMeta :=
  mkMeta (chunk_record m) (trusted_uid m) (trusted_pid m) (index_flags m) f n (num_fragments_read m) (cur_fragment_offset m).

(** TraceStats::BufferStats. *)
Inductive counter : Type :=
| abi_violations | chunks_rewritten | write_wrap_count | chunks_written | bytes_written
| chunks_committed_out_of_order | chunks_overwritten | bytes_overwritten | padding_bytes_cleared
| padding_bytes_written | patches_failed | patches_succeeded | chunks_discarded | chunks_read
| bytes_read | trace_writer_packet_loss | readaheads_succeeded | readaheads_failed.
#[export] Instance counter_eq_dec : EqDecision counter.
Proof. solve_decision. Defined.
Definition Stats : Type := counter -> Z.
Definition add_stat (c : counter) (n : Z) (s : Stats) : Stats := fun c' => if decide (c' = c) then s c' + n else s c'.

(** An iterator of the index: the key it points to, None for end(). *)
Definition iterator : Type := option Key.
Record SequenceIterator := mkSeqIter { seq_begin : iterator; seq_end : iterator; cur : iterator; wrapping_id : Z }.

Record TraceBuffer := mkTB {
  data_ : list Z;
  size_ : Z;
  max_chunk_size_ : Z;
  wptr_ : Z;
  index_ : gmap Key ChunkMeta;
  read_iter_ : SequenceIterator;
  overwrite_policy_ : OverwritePolicy;
  discard_writes_ : bool;
  last_chunk_id_written_ : gmap (Z * Z) Z;
  stats_ : Stats
}.

Definition set_data (d : list Z) (b : TraceBuffer) : TraceBuffer :=
  mkTB d (size_ b) (max_chunk_size_ b) (wptr_ b) (index_ b) (read_iter_ b) (overwrite_policy_ b) (discard_writes_ b) (last_chunk_id_written_ b) (stats_ b).
Definition set_wptr (w : Z) (b : TraceBuffer) : TraceBuffer :=
  mkTB (data_ b) (size_ b) (max_chunk_size_ b) w (index_ b) (read_iter_ b) (overwrite_policy_ b) (discard_writes_ b) (last_chunk_id_written_ b) (stats_ b).
Definition set_index (i : gmap Key ChunkMeta) (b : TraceBuffer) : TraceBuffer :=
  mkTB (data_ b) (size_ b) (max_chunk_size_ b) (wptr_ b) i (read_iter_ b) (overwrite_policy_ b) (discard_writes_ b) (last_chunk_id_written_ b) (stats_ b).
Definition set_read_iter (i : SequenceIterator) (b : TraceBuffer) : TraceBuffer :=
  mkTB (data_ b) (size_ b) (max_chunk_size_ b) (wptr_ b) (index_ b) i (overwrite_policy_ b) (discard_writes_ b) (last_chunk_id_written_ b) (stats_ b).
Definition set_discard (d : bool) (b : TraceBuffer) : TraceBuffer :=
  mkTB (data_ b) (size_ b) (max_chunk_size_ b) (wptr_ b) (index_ b) (read_iter_ b) (overwrite_policy_ b) d (last_chunk_id_written_ b) (stats_ b).
Definition set_last_ids (l : gmap (Z * Z) Z) (b : TraceBuffer) : TraceBuffer :=
  mkTB (data_ b) (size_ b) (max_chunk_size_ b) (wptr_ b) (index_ b) (read_iter_ b) (overwrite_policy_ b) (discard_writes_ b) l (stats_ b).
Definition stat (c : counter) (n : Z) (b : TraceBuffer) : TraceBuffer :=
  mkTB (data_ b) (size_ b) (max_chunk_size_ b) (wptr_ b) (index_ b) (read_iter_ b) (overwrite_policy_ b) (discard_writes_ b)
    (last_chunk_id_written_ b) (add_stat c n (stats_ b)).

(** Create() and Initialize(), once the zeroed memory has been obtained. *)
Definition Create (size : Z) (pol : OverwritePolicy) : TraceBuffer :=
  mkTB (zeros size) size (Z.min size ChunkRecord_kMaxSize) 0 ∅ (mkSeqIter None None None 0) pol false ∅ (fun _ => 0).
Definition size_to_end (b : TraceBuffer) : Z := size_ b - wptr_ b.

(** ** Records in the buffer *)

(** GetChunkRecordAt; a read outside the buffer is a Crash. *)
Definition GetChunkRecordAt (b : TraceBuffer) (ptr : Z) : outcome ChunkRecord :=
  check! (0 <=? ptr) && (ptr + sizeof_ChunkRecord <=? size_ b) in
  Ok (parse_record (zread ptr sizeof_ChunkRecord (data_ b))).

(** [src] is None for a padding record, whose payload of [size] bytes is left alone. *)
Definition WriteChunkRecord (wptr : Z) (record : ChunkRecord) (src : option (list Z)) (size : Z) (b : TraceBuffer) : outcome TraceBuffer :=
  check! rc_size record <=? size_to_end b in
  check! wptr + sizeof_ChunkRecord + size <=? size_ b in
  let d := zwrite wptr (record_bytes record) (data_ b) in
  let d := match src with Some bytes => zwrite (wptr + sizeof_ChunkRecord) bytes d | None => d end in
  let rounding_size := rc_size record - sizeof_ChunkRecord - size in
  Ok (set_data (zwrite (wptr + sizeof_ChunkRecord + size) (zeros rounding_size) d) b).

Definition DiscardWrite (b : TraceBuffer) : TraceBuffer := stat chunks_discarded 1 (set_discard true b).

(** wptr_ is not advanced. *)
Definition AddPaddingRecord (size : Z) (b : TraceBuffer) : outcome TraceBuffer :=
  let record := mkRecord 0 0 0 0 (u16 size) 0 true in
  let! b := WriteChunkRecord (wptr_ b) record None (size - sizeof_ChunkRecord) b in
  Ok (stat padding_bytes_written size b).

(** The outcome of the scan of DeleteNextChunksFor: a zeroed record (return 0), an
    unread chunk that may not be overwritten (return -1), or the pointer reached, the
    iterators to erase and the three counters. *)
Inductive scan_result : Type :=
| ScanUntouched
| ScanRefused
| ScanDone (next_chunk_ptr : Z) (index_delete : list Key) (overwritten overwritten_bytes padding_cleared : Z).

(** The while loop.  Every record has a size of at least 1, so the number of bytes to
    clear is enough fuel. *)
Fixpoint DeleteScan (fuel : nat) (b : TraceBuffer) (search_end next_chunk_ptr : Z) (index_delete : list Key)
    (overwritten overwritten_bytes padding_cleared : Z) : outcome scan_result :=
  match fuel with
  | O => Crash
  | S fuel =>
      if next_chunk_ptr <? search_end then
        let! next_chunk := GetChunkRecordAt b next_chunk_ptr in
        if negb (rc_valid next_chunk) then Ok ScanUntouched
        else
          let next := next_chunk_ptr + rc_size next_chunk in
          if negb (rc_is_padding next_chunk) then
            match index_ b !! Key_of next_chunk with
            | Some meta =>
                if num_fragments_read meta <? num_fragments meta then
                  if bool_decide (overwrite_policy_ b = kDiscard) then Ok ScanRefused
                  else
                    check! next <=? size_ b in
                    DeleteScan fuel b search_end next (index_delete ++ [Key_of next_chunk])
                      (overwritten + 1) (overwritten_bytes + rc_size next_chunk) padding_cleared
                else
                  check! next <=? size_ b in
                  DeleteScan fuel b search_end next (index_delete ++ [Key_of next_chunk]) overwritten overwritten_bytes padding_cleared
            | None =>
                check! next <=? size_ b in
                DeleteScan fuel b search_end next index_delete overwritten overwritten_bytes padding_cleared
            end
          else
            check! next <=? size_ b in
            DeleteScan fuel b search_end next index_delete overwritten overwritten_bytes (padding_cleared + rc_size next_chunk)
      else Ok (ScanDone next_chunk_ptr index_delete overwritten overwritten_bytes padding_cleared)
  end.

(** None: -1. *)
Definition DeleteNextChunksFor (bytes_to_clear : Z) (b : TraceBuffer) : outcome (option Z * TraceBuffer) :=
  check! negb (discard_writes_ b) in
  let search_end := wptr_ b + bytes_to_clear in
  let! res := DeleteScan (S (Z.to_nat bytes_to_clear)) b search_end (wptr_ b) [] 0 0 0 in
  match res with
  | ScanUntouched => Ok (Some 0, b)
  | ScanRefused => Ok (None, b)
  | ScanDone next_chunk_ptr index_delete n bytes padding =>
      let b := set_index (foldr delete (index_ b) index_delete) b in
      let b := stat padding_bytes_cleared padding (stat bytes_overwritten bytes (stat chunks_overwritten n b)) in
      Ok (Some (next_chunk_ptr - search_end), b)
  end.

(** ** CopyChunkUntrusted *)

Definition chunk_record_size (size : Z) : Z := AlignUp sizeof_ChunkRecord (size + sizeof_ChunkRecord).

(** What is kept of an incomplete chunk: all its fragments but the last. *)
Definition complete_part (num_fragments chunk_flags : Z) (chunk_complete : bool) : Z * Z :=
  if negb chunk_complete && (0 <? num_fragments) then
    (num_fragments - 1, u8 (chunk_flags .& Z.lnot kLastPacketContinuesOnNextChunk) .& Z.lnot kChunkNeedsPatching)
  else (num_fragments, chunk_flags).

(** The chunk is already in the index. *)
Definition RewriteChunk (key : Key) (record_meta : ChunkMeta) (record : ChunkRecord) (record_size num_fragments chunk_flags : Z)
    (chunk_complete : bool) (src : list Z) (b : TraceBuffer) : outcome TraceBuffer :=
  let! prev := GetChunkRecordAt b (chunk_record record_meta) in
  let '(p, w, c) := key in
  let subsequent_key := (p, w, u32 (c + 1)) in
  if bool_decide (Key_of prev <> key) || negb (rc_size prev =? record_size) || (num_fragments <? rc_num_fragments prev)
     || negb (rc_flags prev .& chunk_flags =? rc_flags prev) then Ok (stat abi_violations 1 b)
  else if rc_num_fragments prev =? num_fragments then Ok b
  else if (match index_ b !! subsequent_key with Some m => 0 <? num_fragments_read m | None => false end) then Ok (stat abi_violations 1 b)
  else if rc_num_fragments prev <? num_fragments_read record_meta then Ok b
  else
    let record_meta := set_complete chunk_complete (set_fragments_flags num_fragments chunk_flags record_meta) in
    let b := set_index (<[key := record_meta]> (index_ b)) b in
    let! b := WriteChunkRecord (chunk_record record_meta) record (Some src) (zlen src) b in
    Ok (stat chunks_rewritten 1 b).

(** The end of the buffer is too small: pad it and wrap.  inl: the write is discarded. *)
Definition WrapIfNeeded (record_size : Z) (b : TraceBuffer) : outcome (TraceBuffer + TraceBuffer) :=
  let cached_size_to_end := size_to_end b in
  if cached_size_to_end <? record_size then
    let! (res, b) := DeleteNextChunksFor cached_size_to_end b in
    match res with
    | None => Ok (inl (DiscardWrite b))
    | Some _ =>
        let! b := AddPaddingRecord cached_size_to_end b in
        Ok (inr (stat write_wrap_count 1 (set_wptr 0 b)))
    end
  else Ok (inr b).

Definition UpdateLastChunkId (producer writer chunk_id : Z) (b : TraceBuffer) : TraceBuffer :=
  let last_chunk_id := default 0 (last_chunk_id_written_ b !! (producer, writer)) in
  let b := set_last_ids (<[(producer, writer) := last_chunk_id]> (last_chunk_id_written_ b)) b in
  if u32 (chunk_id - last_chunk_id) <? kMaxChunkID `div` 2 then
    set_last_ids (<[(producer, writer) := chunk_id]> (last_chunk_id_written_ b)) b
  else stat chunks_committed_out_of_order 1 b.

(** The insertion at wptr_. *)
Definition InsertChunk (key : Key) (record : ChunkRecord) (record_size : Z) (meta : Z -> ChunkMeta) (src : list Z) (b : TraceBuffer) : outcome TraceBuffer :=
  let! (del_res, b) := DeleteNextChunksFor record_size b in
  match del_res with
  | None => Ok (DiscardWrite b)
  | Some padding_size =>
      let b := stat bytes_written record_size (stat chunks_written 1 b) in
      let b := set_index (match index_ b !! key with Some _ => index_ b | None => <[key := meta (wptr_ b)]> (index_ b) end) b in
      let! b := WriteChunkRecord (wptr_ b) record (Some src) (zlen src) b in
      let b := set_wptr (wptr_ b + record_size) b in
      let b := if size_ b <=? wptr_ b then stat write_wrap_count 1 (set_wptr 0 b) else b in
      let '(producer, writer, chunk_id) := key in
      let b := UpdateLastChunkId producer writer chunk_id b in
      if negb (padding_size =? 0) then AddPaddingRecord padding_size b else Ok b
  end.

Definition CopyChunkUntrusted (producer_id producer_uid producer_pid writer_id chunk_id num_fragments chunk_flags : Z)
    (chunk_complete : bool) (src : list Z) (b : TraceBuffer) : outcome TraceBuffer :=
  let record_size := chunk_record_size (zlen src) in
  if max_chunk_size_ b <? record_size then Ok (stat abi_violations 1 b)
  else
    let '(num_fragments, chunk_flags) := complete_part num_fragments chunk_flags chunk_complete in
    let record := mkRecord chunk_id producer_id writer_id num_fragments (u16 record_size) (chunk_flags .& 63) false in
    let key := Key_of record in
    match index_ b !! key with
    | Some record_meta => RewriteChunk key record_meta record record_size num_fragments chunk_flags chunk_complete src b
    | None =>
        if discard_writes_ b then Ok (DiscardWrite b)
        else
          let! r := WrapIfNeeded record_size b in
          match r with
          | inl b => Ok b
          | inr b =>
              InsertChunk key record record_size
                (fun ptr => ChunkMeta_init ptr num_fragments chunk_complete chunk_flags producer_uid producer_pid) src b
          end
    end.

(** ** TryPatchChunkContents *)

(** A patch: the offset the producer sent and four bytes. *)
Definition Patch : Type := Z * list Z.
Definition Patch_kSize : Z := 4.

Definition set_record_flags (ptr flags : Z) (b : TraceBuffer) : TraceBuffer :=
  let old := znth (data_ b) (ptr + 12) in
  set_data (zwrite (ptr + 12) [(old .& 192) .| (flags .& 63)] (data_ b)) b.

Fixpoint ApplyPatches (chunk_begin chunk_end : Z) (patches : list Patch) (b : TraceBuffer) : bool * TraceBuffer :=
  match patches with
  | [] => (true, b)
  | (offset_untrusted, bytes) :: patches =>
      let ptr := chunk_begin + sizeof_ChunkRecord + offset_untrusted in
      if (ptr <? chunk_begin + sizeof_ChunkRecord) || (chunk_end - Patch_kSize <? ptr) then (false, stat patches_failed 1 b)
      else ApplyPatches chunk_begin chunk_end patches (set_data (zwrite ptr bytes (data_ b)) b)
  end.

Definition TryPatchChunkContents (producer_id writer_id chunk_id : Z) (patches : list Patch) (other_patches_pending : bool)
    (b : TraceBuffer) : outcome (bool * TraceBuffer) :=
  let key := (producer_id, writer_id, chunk_id) in
  match index_ b !! key with
  | None => Ok (false, stat patches_failed 1 b)
  | Some chunk_meta =>
      let chunk_begin := chunk_record chunk_meta in
      let! record := GetChunkRecordAt b chunk_begin in
      let chunk_end := chunk_begin + rc_size record in
      let '(ok, b) := ApplyPatches chunk_begin chunk_end patches b in
      if negb ok then Ok (false, b)
      else
        let b := stat patches_succeeded (zlen patches) b in
        if negb other_patches_pending then
          let flags := cm_flags chunk_meta .& u8 (Z.lnot kChunkNeedsPatching) in
          let b := set_index (<[key := set_fragments_flags (num_fragments chunk_meta) flags chunk_meta]> (index_ b)) b in
          Ok (true, set_record_flags chunk_begin flags b)
        else Ok (true, b)
  end.

(** ** Specification: the buffer as a row of tiles *)

(** A tile is a record and the bytes after it. *)
Definition tile : Type := ChunkRecord * list Z.
Definition tile_bytes (t : tile) : list Z := record_bytes t.1 ++ t.2.
Definition tiles_bytes (ts : list tile) : list Z := concat (map tile_bytes ts).
Definition tiles_size (ts : list tile) : Z := zlen (tiles_bytes ts).
Definition is_chunk (t : tile) : Prop := rc_is_padding t.1 = false.
#[export] Instance is_chunk_dec t : Decision (is_chunk t).
Proof. unfold is_chunk. apply _. Defined.
(** The chunks among the tiles. *)
Definition chunks (ts : list tile) : list tile := filter is_chunk ts.

Record record_ok (r : ChunkRecord) : Prop := {
  ro_chunk : word_ok 32 (rc_chunk_id r);
  ro_producer : word_ok 16 (rc_producer_id r);
  ro_writer : word_ok 16 (rc_writer_id r);
  ro_fragments : word_ok 16 (rc_num_fragments r);
  ro_size : word_ok 16 (rc_size r);
  ro_flags : 0 <= rc_flags r < 64
}.
Record tile_ok (t : tile) : Prop := {
  to_record : record_ok t.1;
  to_size : rc_size t.1 = 16 + zlen t.2;
  to_aligned : rc_size t.1 `mod` 16 = 0;
  to_bytes : bytes_ok t.2
}.

(** Each tile with its offset. *)
Fixpoint placed (off : Z) (ts : list tile) : list (Z * tile) :=
  match ts with [] => [] | t :: ts => (off, t) :: placed (off + zlen (tile_bytes t)) ts end.
(** What the index says of a chunk. *)
Definition describes (off : Z) (t : tile) (m : ChunkMeta) : Prop :=
  chunk_record m = off /\ num_fragments m = rc_num_fragments t.1 /\ cm_flags m .& 63 = rc_flags t.1.
(** The index names exactly the chunks among [ps]. *)
Definition indexes (idx : gmap Key ChunkMeta) (ps : list (Z * tile)) : Prop :=
  (forall off t, (off, t) ∈ ps -> is_chunk t -> exists m, idx !! Key_of t.1 = Some m /\ describes off t m) /\
  (forall k m, idx !! k = Some m -> exists t, (chunk_record m, t) ∈ ps /\ is_chunk t /\ Key_of t.1 = k).

(** The invariant, with a gap of free bytes at the write pointer: [newer] tiles up to
    it, [gap], the [older] tiles, and the untouched zeros, which only exist before the
    first wrap. *)
Record laid (b : TraceBuffer) (newer : list tile) (gap : list Z) (older : list tile) (k : Z) : Prop := {
  la_data : data_ b = tiles_bytes newer ++ gap ++ tiles_bytes older ++ zeros k;
  la_size : size_ b = zlen (data_ b);
  la_aligned : size_ b `mod` 16 = 0;
  la_max : max_chunk_size_ b = Z.min (size_ b) ChunkRecord_kMaxSize;
  la_wptr : wptr_ b = tiles_size newer;
  la_zeros : 0 <= k /\ (0 < k -> older = []);
  la_gap : bytes_ok gap;
  la_newer : Forall tile_ok newer;
  la_older : Forall tile_ok older;
  la_index : indexes (index_ b) (placed 0 newer ++ placed (tiles_size newer + zlen gap) older);
  la_discard : discard_writes_ b = true -> overwrite_policy_ b = kDiscard
}.
(** Between operations there is no gap and the write pointer is inside. *)
Definition well_laid (b : TraceBuffer) (newer older : list tile) : Prop :=
  exists k, laid b newer [] older k /\ wptr_ b < size_ b.

(** ** Records and tiles *)

Lemma zlen_record_bytes r : zlen (record_bytes r) = 16.
Proof. unfold record_bytes. by rewrite !zlen_app, !zlen_le_bytes. Qed.

Lemma record_flag_byte f p : 0 <= f < 64 -> 
  ((f .& 63) .| (Z.b2z p .<< 6)) .& 63 = f /\ Z.testbit ((f .& 63) .| (Z.b2z p .<< 6)) 6 = p.
Proof.
  intros Hf. rewrite !(land_ones_mod _ 6) by lia. rewrite (Z.mod_small f) by lia. rewrite lor_shiftl_add by lia. change (2 ^ 6) with 64.
  split; [rewrite Z.mod_add by lia; apply Z.mod_small; lia|].
  rewrite Z.testbit_odd, shiftr_div by lia. change (2 ^ 6) with 64. rewrite Z.div_add by lia. rewrite Z.div_small by lia. by destruct p.
Qed.

Lemma parse_record_bytes r : record_ok r -> parse_record (record_bytes r) = r.
Proof.
  intros [H1 H2 H3 H4 H5 H6]. unfold parse_record, record_bytes.
  set (a := le_bytes 4 _). set (b := le_bytes 2 (rc_producer_id r)). set (c := le_bytes 2 (rc_writer_id r)).
  set (d := le_bytes 2 (rc_num_fragments r)). set (e := le_bytes 2 (rc_size r)). set (f := [_; 67; 72; 85]).
  assert (Ha : zread 0 4 (a ++ b ++ c ++ d ++ e ++ f) = a) by done.
  assert (Hb : zread 4 2 (a ++ b ++ c ++ d ++ e ++ f) = b) by done.
  assert (Hc : zread 6 2 (a ++ b ++ c ++ d ++ e ++ f) = c) by done.
  assert (Hd : zread 8 2 (a ++ b ++ c ++ d ++ e ++ f) = d) by done.
  assert (He : zread 10 2 (a ++ b ++ c ++ d ++ e ++ f) = e) by done.
  rewrite Ha, Hb, Hc, Hd, He. unfold a, b, c, d, e. rewrite !le_value_bytes_small by done.
  change (znth _ 12) with ((rc_flags r .& 63) .| (Z.b2z (rc_is_padding r) .<< 6)).
  destruct (record_flag_byte (rc_flags r) (rc_is_padding r) H6) as [-> ->]. by destruct r.
Qed.

Lemma bytes_ok_record r : record_ok r -> bytes_ok (record_bytes r).
Proof.
  intros [_ _ _ _ _ Hf]. unfold record_bytes. rewrite !bytes_ok_app. do 5 (split; [apply bytes_ok_le_bytes|]).
  rewrite (land_ones_mod _ 6), (Z.mod_small (rc_flags r)), lor_shiftl_add by lia. change (2 ^ 6) with 64.
  repeat constructor; destruct (rc_is_padding r); cbn; lia.
Qed.

Lemma tile_size_rc t : tile_ok t -> zlen (tile_bytes t) = rc_size t.1.
Proof. intros H. unfold tile_bytes. rewrite zlen_app, zlen_record_bytes. by rewrite (to_size _ H). Qed.
Lemma tile_size_pos t : 16 <= zlen (tile_bytes t).
Proof. unfold tile_bytes. rewrite zlen_app, zlen_record_bytes. pose proof (zlen_nonneg t.2). lia. Qed.
Lemma tile_size_max t : tile_ok t -> 16 <= rc_size t.1 <= 65520.
Proof.
  intros Ht. pose proof (to_size _ Ht). pose proof (to_aligned _ Ht) as Hm. destruct (ro_size _ (to_record _ Ht)) as [? ?].
  change (2 ^ 16) with 65536 in *. pose proof (zlen_nonneg t.2). pose proof (Z.div_mod (rc_size t.1) 16 ltac:(lia)). lia.
Qed.

Lemma tiles_bytes_app a b : tiles_bytes (a ++ b) = tiles_bytes a ++ tiles_bytes b.
Proof. unfold tiles_bytes. by rewrite map_app, concat_app. Qed.
Lemma tiles_bytes_cons t ts : tiles_bytes (t :: ts) = tile_bytes t ++ tiles_bytes ts.
Proof. done. Qed.
Lemma tiles_bytes_one t : tiles_bytes [t] = tile_bytes t.
Proof. unfold tiles_bytes. cbn [map concat]. by rewrite app_nil_r. Qed.
Lemma tiles_size_app a b : tiles_size (a ++ b) = tiles_size a + tiles_size b.
Proof. unfold tiles_size. by rewrite tiles_bytes_app, zlen_app. Qed.
Lemma tiles_size_cons t ts : tiles_size (t :: ts) = zlen (tile_bytes t) + tiles_size ts.
Proof. unfold tiles_size. by rewrite tiles_bytes_cons, zlen_app. Qed.
Lemma tiles_size_nonneg ts : 0 <= tiles_size ts.
Proof. apply zlen_nonneg. Qed.
Lemma tiles_size_aligned ts : Forall tile_ok ts -> tiles_size ts `mod` 16 = 0.
Proof.
  induction 1 as [|t ts Ht Hts IH]; [done|]. rewrite tiles_size_cons, (tile_size_rc t Ht).
  rewrite Z.add_mod, IH, (to_aligned _ Ht) by lia. done.
Qed.
Lemma bytes_ok_tiles ts : Forall tile_ok ts -> bytes_ok (tiles_bytes ts).
Proof.
  induction 1 as [|t ts Ht Hts IH]; [constructor|]. rewrite tiles_bytes_cons. unfold tile_bytes. rewrite !bytes_ok_app.
  split; [|done]. split; [apply bytes_ok_record, to_record, Ht|apply to_bytes, Ht].
Qed.
Lemma placed_app off a b : placed off (a ++ b) = placed off a ++ placed (off + tiles_size a) b.
Proof.
  revert off. induction a as [|t a IH]; intros off; cbn [placed app]; [by rewrite Z.add_0_r|].
  rewrite IH, tiles_size_cons. by rewrite Z.add_assoc.
Qed.
Lemma placed_range off ts o t : (o, t) ∈ placed off ts -> off <= o /\ o + zlen (tile_bytes t) <= off + tiles_size ts /\ t ∈ ts.
Proof.
  revert off. induction ts as [|t' ts IH]; intros off; cbn [placed]; [by intros ?%not_elem_of_nil|].
  rewrite tiles_size_cons. pose proof (tiles_size_nonneg ts). pose proof (tile_size_pos t').
  intros [[= -> ->]|Hin]%elem_of_cons.
  - split; [lia|]. split; [lia|]. by left.
  - destruct (IH _ Hin) as (? & ? & ?). split; [lia|]. split; [lia|]. by right.
Qed.
Lemma placed_split off ts o t : (o, t) ∈ placed off ts -> exists a b, ts = a ++ t :: b /\ o = off + tiles_size a.
Proof.
  revert off. induction ts as [|t' ts IH]; intros off; cbn [placed]; [by intros ?%not_elem_of_nil|].
  intros [[= -> ->]|Hin]%elem_of_cons; [exists [], ts; split; [done|]; change (tiles_size []) with 0; lia|].
  destruct (IH _ Hin) as (a & b & -> & ->). exists (t' :: a), b. split; [done|]. rewrite tiles_size_cons. lia.
Qed.

(** Reading a record where a tile starts. *)
Lemma GetChunkRecordAt_tile b pre t post : data_ b = pre ++ tile_bytes t ++ post -> size_ b = zlen (data_ b) -> record_ok t.1 ->
  GetChunkRecordAt b (zlen pre) = Ok t.1.
Proof.
  intros Hd Hs Ht. unfold GetChunkRecordAt. rewrite Hs, Hd, !zlen_app. unfold tile_bytes. rewrite zlen_app, zlen_record_bytes.
  pose proof (zlen_nonneg pre). pose proof (zlen_nonneg t.2). pose proof (zlen_nonneg post). unfold sizeof_ChunkRecord.
  destruct (Z.leb_spec 0 (zlen pre)); [|lia]. destruct (Z.leb_spec (zlen pre + 16) (zlen pre + (16 + zlen t.2 + zlen post))); [|lia].
  cbn [andb obind perfetto_check]. rewrite <- app_assoc. rewrite <- (zlen_record_bytes t.1), zread_app_exact. by rewrite parse_record_bytes.
Qed.

(** ** Making room *)

Definition keys (ts : list tile) : list Key := map (fun t => Key_of t.1) (chunks ts).
(** The chunk with key [k] has been read completely. *)
Definition fully_read (idx : gmap Key ChunkMeta) (k : Key) : Prop :=
  exists m, idx !! k = Some m /\ num_fragments m <= num_fragments_read m.

Lemma chunks_app a b : chunks (a ++ b) = chunks a ++ chunks b.
Proof. apply filter_app. Qed.
Lemma keys_app a b : keys (a ++ b) = keys a ++ keys b.
Proof. unfold keys. by rewrite chunks_app, map_app. Qed.
Lemma keys_cons t ts : keys (t :: ts) = (if rc_is_padding t.1 then [] else [Key_of t.1]) ++ keys ts.
Proof.
  unfold keys, chunks. rewrite filter_cons. destruct (rc_is_padding t.1) eqn:E.
  - rewrite decide_False; [done|]. unfold is_chunk. by rewrite E.
  - by rewrite decide_True.
Qed.

Lemma DeleteScan_spec older : forall fuel b pre tail search_end dels n1 n2 n3,
  data_ b = pre ++ tiles_bytes older ++ tail -> size_ b = zlen (data_ b) -> Forall tile_ok older ->
  (forall t, t ∈ older -> is_chunk t -> is_Some (index_ b !! Key_of t.1)) ->
  search_end <= zlen pre + tiles_size older -> zlen pre <= search_end + 65519 -> (Z.to_nat (search_end - zlen pre) < fuel)%nat ->
  (exists older1 older2 m1 m2 m3, older = older1 ++ older2 /\
     search_end <= zlen pre + tiles_size older1 <= search_end + 65519 /\
     DeleteScan fuel b search_end (zlen pre) dels n1 n2 n3 = Ok (ScanDone (zlen pre + tiles_size older1) (dels ++ keys older1) m1 m2 m3) /\
     (overwrite_policy_ b = kDiscard -> Forall (fully_read (index_ b)) (keys older1)))
  \/ (DeleteScan fuel b search_end (zlen pre) dels n1 n2 n3 = Ok ScanRefused /\ overwrite_policy_ b = kDiscard).
Proof.
  induction older as [|t older IH]; intros fuel b pre tail search_end dels n1 n2 n3 Hd Hs Hok Hidx Hse Hov Hfuel;
    (destruct fuel as [|fuel]; [lia|]); cbn [DeleteScan].
  { change (tiles_size []) with 0 in Hse. destruct (Z.ltb_spec (zlen pre) search_end); [lia|]. left. exists [], [], n1, n2, n3.
    change (tiles_size []) with 0. change (keys []) with (@nil Key). rewrite Z.add_0_r, (app_nil_r dels). split; [done|]. split; [lia|]. split; [done|]. intros _. constructor. }
  destruct (Z.ltb_spec (zlen pre) search_end).
  2: { left. exists [], (t :: older), n1, n2, n3. change (tiles_size []) with 0. change (keys []) with (@nil Key).
       rewrite Z.add_0_r, (app_nil_r dels). split; [done|]. split; [lia|]. split; [done|]. intros _. constructor. }
  apply Forall_cons in Hok as [Ht Hok]. rewrite tiles_bytes_cons, <- app_assoc in Hd.
  rewrite (GetChunkRecordAt_tile b pre t (tiles_bytes older ++ tail) Hd Hs (to_record _ Ht)). cbn [obind].
  pose proof (tile_size_max t Ht) as Hsz. unfold rc_valid. destruct (Z.eqb_spec (rc_size t.1) 0); [lia|]. cbn [negb].
  rewrite tiles_size_cons, (tile_size_rc t Ht) in Hse. pose proof (tiles_size_nonneg older). pose proof (zlen_nonneg pre).
  assert (Hend : (zlen pre + rc_size t.1 <=? size_ b) = true).
  { apply Z.leb_le. rewrite Hs, Hd, !zlen_app, (tile_size_rc t Ht). pose proof (zlen_nonneg tail). change (zlen (tiles_bytes older)) with (tiles_size older). lia. }
  assert (Hz : zlen (pre ++ tile_bytes t) = zlen pre + rc_size t.1) by (by rewrite zlen_app, (tile_size_rc t Ht)).
  pose proof (fun dels n1 n2 n3 => IH fuel b (pre ++ tile_bytes t) tail search_end dels n1 n2 n3 ltac:(by rewrite Hd, <- app_assoc) Hs Hok
    ltac:(intros t' Hin; apply Hidx; by right) ltac:(rewrite Hz; lia) ltac:(rewrite Hz; lia) ltac:(rewrite Hz; lia)) as IHt.
  rewrite Hz in IHt. clear IH.
  assert (Hrec : forall dels' n1 n2 n3, dels' = dels ++ (if rc_is_padding t.1 then [] else [Key_of t.1]) ->
    (overwrite_policy_ b = kDiscard -> is_chunk t -> fully_read (index_ b) (Key_of t.1)) ->
    (exists older1 older2 m1 m2 m3, t :: older = older1 ++ older2 /\ search_end <= zlen pre + tiles_size older1 <= search_end + 65519 /\
      DeleteScan fuel b search_end (zlen pre + rc_size t.1) dels' n1 n2 n3 = Ok (ScanDone (zlen pre + tiles_size older1) (dels ++ keys older1) m1 m2 m3) /\
      (overwrite_policy_ b = kDiscard -> Forall (fully_read (index_ b)) (keys older1)))
    \/ (DeleteScan fuel b search_end (zlen pre + rc_size t.1) dels' n1 n2 n3 = Ok ScanRefused /\ overwrite_policy_ b = kDiscard)).
  { intros dels' a1 a2 a3 -> Hread. destruct (IHt (dels ++ (if rc_is_padding t.1 then [] else [Key_of t.1])) a1 a2 a3)
      as [(o1 & o2 & m1 & m2 & m3 & -> & Hb & Hscan & Hall)|Href]; [|by right].
    left. exists (t :: o1), o2, m1, m2, m3. rewrite tiles_size_cons, (tile_size_rc t Ht), keys_cons, Hscan, <- app_assoc.
    split; [done|]. split; [lia|]. split; [do 2 f_equal; lia|]. intros Hp. specialize (Hall Hp). apply Forall_app. split; [|done].
    unfold is_chunk in Hread. destruct (rc_is_padding t.1); constructor; [by apply Hread|constructor]. }
  destruct (rc_is_padding t.1) eqn:Epad; cbn [negb].
  - rewrite Hend. cbn [obind perfetto_check]. apply Hrec; [by rewrite app_nil_r|]. unfold is_chunk. by rewrite Epad.
  - destruct (Hidx t ltac:(by left) Epad) as [m Hm]. rewrite Hm. destruct (Z.ltb_spec (num_fragments_read m) (num_fragments m)).
    + case_bool_decide as Hpol; [by right|]. rewrite Hend. cbn [obind perfetto_check]. apply Hrec; [done|]. by intros ?.
    + rewrite Hend. cbn [obind perfetto_check]. apply Hrec; [done|]. intros _ _. by exists m.
Qed.

Lemma elem_of_keys t ts : t ∈ ts -> is_chunk t -> Key_of t.1 ∈ keys ts.
Proof. intros Hin Hc. apply list_elem_of_fmap. exists t. split; [done|]. by apply list_elem_of_filter. Qed.
Lemma keys_elem_of k ts : k ∈ keys ts -> exists t, t ∈ ts /\ is_chunk t /\ Key_of t.1 = k.
Proof. intros (t & -> & [Hc Hin]%list_elem_of_filter)%list_elem_of_fmap. by exists t. Qed.
Lemma placed_elem off ts t : t ∈ ts -> exists o, (o, t) ∈ placed off ts.
Proof.
  revert off. induction ts as [|t' ts IH]; intros off; [by intros ?%not_elem_of_nil|]. intros [->|Hin]%elem_of_cons.
  - exists off. by left.
  - destruct (IH (off + zlen (tile_bytes t')) Hin) as [o Ho]. exists o. by right.
Qed.

Lemma indexes_unique idx ps o o' t t' : indexes idx ps -> (o, t) ∈ ps -> (o', t') ∈ ps -> is_chunk t -> is_chunk t' ->
  Key_of t.1 = Key_of t'.1 -> o = o'.
Proof.
  intros [H _] H1 H2 C1 C2 Hk. destruct (H o t H1 C1) as (m & Hm & Hd & _). destruct (H o' t' H2 C2) as (m' & Hm' & Hd' & _).
  rewrite Hk in Hm. rewrite Hm in Hm'. injection Hm' as <-. congruence.
Qed.

(** Erasing the chunks of a run of tiles. *)
Lemma indexes_delete idx ps off old1 old2 : (forall o t, (o, t) ∈ ps -> o < off) -> 
  indexes idx (ps ++ placed off (old1 ++ old2)) -> indexes (foldr delete idx (keys old1)) (ps ++ placed (off + tiles_size old1) old2).
Proof.
  intros Hps Hidx. rewrite placed_app in Hidx. split.
  - intros o t Hin Hc. assert (Hin' : (o, t) ∈ ps ++ placed off old1 ++ placed (off + tiles_size old1) old2).
    { rewrite !elem_of_app in *. tauto. }
    destruct (proj1 Hidx o t Hin' Hc) as (m & Hm & Hd). exists m. split; [|exact Hd].
    rewrite lookup_foldr_delete_not_elem_of; [exact Hm|]. intros (t1 & Hin1 & Hc1 & Hk)%keys_elem_of.
    destruct (placed_elem off old1 t1 Hin1) as [o1 Ho1]. destruct (placed_range _ _ _ _ Ho1) as (? & ? & _). pose proof (tile_size_pos t1).
    assert (o1 = o).
    { eapply (indexes_unique _ _ o1 o t1 t Hidx); [|exact Hin'|done|done|done]. rewrite !elem_of_app. tauto. }
    subst o1. apply elem_of_app in Hin as [Hin|Hin].
    + apply Hps in Hin. lia.
    + apply placed_range in Hin. lia.
  - intros k m Hm. destruct (decide (k ∈ keys old1)) as [Hk|Hk].
    { by rewrite lookup_foldr_delete in Hm. }
    rewrite lookup_foldr_delete_not_elem_of in Hm by done. destruct (proj2 Hidx k m Hm) as (t & Hin & Hc & Hkt).
    exists t. split; [|done]. rewrite !elem_of_app in *. destruct Hin as [|[Hin|]]; [by left| |by right].
    destruct Hk. rewrite <- Hkt. apply elem_of_keys; [|done]. by destruct (placed_range _ _ _ _ Hin) as (_ & _ & ?).
Qed.

(** What the operations of this side leave alone. *)
Definition same_ring (b b' : TraceBuffer) : Prop :=
  size_ b' = size_ b /\ max_chunk_size_ b' = max_chunk_size_ b /\ overwrite_policy_ b' = overwrite_policy_ b.

Lemma same_ring_trans b1 b2 b3 : same_ring b1 b2 -> same_ring b2 b3 -> same_ring b1 b3.
Proof. intros (?&?&?) (?&?&?). split; [|split]; congruence. Qed.

Lemma zread_zeros_mid pre n k post : 0 <= n <= k -> zread (zlen pre) n (pre ++ zeros k ++ post) = zeros n.
Proof.
  intros H. replace (zeros k) with (zeros n ++ zeros (k - n)).
  - rewrite <- app_assoc. rewrite <- (zlen_zeros n) at 1 by lia. apply zread_app_exact.
  - unfold zeros. rewrite <- replicate_add. f_equal. lia.
Qed.
Lemma zeros_add a b : 0 <= a -> 0 <= b -> zeros (a + b) = zeros a ++ zeros b.
Proof. intros. unfold zeros. rewrite <- replicate_add. f_equal. lia. Qed.

Lemma laid_size b newer gap older k : laid b newer gap older k -> size_ b = tiles_size newer + zlen gap + tiles_size older + k.
Proof.
  intros H. rewrite (la_size _ _ _ _ _ H), (la_data _ _ _ _ _ H), !zlen_app, zlen_zeros by apply (la_zeros _ _ _ _ _ H).
  unfold tiles_size. lia.
Qed.

Lemma DeleteNextChunksFor_spec b newer older k n : laid b newer [] older k -> discard_writes_ b = false ->
  0 < n <= size_to_end b -> n `mod` 16 = 0 ->
  (DeleteNextChunksFor n b = Ok (None, b) /\ overwrite_policy_ b = kDiscard) \/
  exists older1 older2 gap k' b', older = older1 ++ older2 /\ DeleteNextChunksFor n b = Ok (Some (zlen gap - n), b') /\
    laid b' newer gap older2 k' /\ n <= zlen gap <= n + 65519 /\ (k' = 0 \/ zlen gap = n) /\ zlen gap `mod` 16 = 0 /\
    same_ring b b' /\ wptr_ b' = wptr_ b /\ discard_writes_ b' = false /\ last_chunk_id_written_ b' = last_chunk_id_written_ b /\
    index_ b' = foldr delete (index_ b) (keys older1) /\ (overwrite_policy_ b = kDiscard -> Forall (fully_read (index_ b)) (keys older1)).
Proof.
  intros L Hdisc Hn Hal. pose proof (laid_size _ _ _ _ _ L) as Hsz. destruct (la_zeros _ _ _ _ _ L) as [Hk Hk0].
  unfold DeleteNextChunksFor. rewrite Hdisc. cbn [negb obind perfetto_check]. unfold size_to_end in Hn.
  pose proof (la_wptr _ _ _ _ _ L) as Hw. rewrite Hw in *. change (zlen []) with 0 in Hsz.
  destruct (decide (0 < k)) as [Hkp|Hkz].
  - right. specialize (Hk0 Hkp). subst older. change (tiles_size []) with 0 in Hsz.
    pose proof (Z.div_mod n 16 ltac:(lia)) as Hdm. assert (Hn16 : 16 <= n) by lia.
    cbn [DeleteScan]. destruct (Z.ltb_spec (tiles_size newer) (tiles_size newer + n)); [|lia].
    unfold GetChunkRecordAt, sizeof_ChunkRecord. pose proof (tiles_size_nonneg newer).
    destruct (Z.leb_spec 0 (tiles_size newer)); [|lia]. destruct (Z.leb_spec (tiles_size newer + 16) (size_ b)); [|lia].
    cbn [andb obind perfetto_check]. rewrite (la_data _ _ _ _ _ L). cbn [app tiles_bytes map concat].
    rewrite <- (app_nil_r (zeros k)). unfold tiles_size at 1. rewrite zread_zeros_mid by lia.
    change (rc_valid (parse_record (zeros 16))) with false. cbn [negb obind].
    exists [], [], (zeros n), (k - n), b. rewrite zlen_zeros, Z.sub_diag by lia.
    do 2 (split; [done|]). split; [|repeat (split; [done || lia|]); by intros _; constructor].
    destruct L as [L1 L2 L3 L4 L5 L6 Lg L7 L8 L9 L10]. split; try done.
    + rewrite L1. cbn [tiles_bytes map concat app]. rewrite <- zeros_add by lia. do 2 f_equal. lia.
    + split; [lia|done].
    + apply bytes_ok_zeros.
  - assert (k = 0) as -> by lia. clear Hk0.
    destruct (DeleteScan_spec older (S (Z.to_nat n)) b (tiles_bytes newer) [] (tiles_size newer + n) [] 0 0 0)
      as [(o1 & o2 & m1 & m2 & m3 & -> & Hb & Hscan & Hread)|[Hscan Hpol]].
    + rewrite (la_data _ _ _ _ _ L). done.
    + apply (la_size _ _ _ _ _ L).
    + apply (la_older _ _ _ _ _ L).
    + intros t Hin Hc. destruct (placed_elem (tiles_size newer + 0) older t Hin) as [o Ho].
      destruct (proj1 (la_index _ _ _ _ _ L) o t) as (m & Hm & _); [rewrite elem_of_app; by right|done|by exists m].
    + unfold tiles_size in *. lia.
    + unfold tiles_size in *. lia.
    + unfold tiles_size. lia.
    + right. change (zlen (tiles_bytes newer)) with (tiles_size newer) in *. rewrite Hscan. cbn [obind app].
      assert (Hg : zlen (tiles_bytes o1) = tiles_size o1) by done.
      destruct L as [L1 L2 L3 L4 L5 L6 Lg L7 L8 L9 L10]. apply Forall_app in L8 as [Ho1 Ho2].
      eexists o1, o2, (tiles_bytes o1), 0, _. split; [done|]. split; [rewrite Hg; do 3 f_equal; lia|].
      split.
      * split; try done; cbn [stat set_index data_ size_ index_].
        -- rewrite L1, tiles_bytes_app. cbn [app]. by rewrite <- app_assoc.
        -- by apply bytes_ok_tiles.
        -- rewrite Hg. apply indexes_delete; [|change (zlen []) with 0 in L9; by rewrite Z.add_0_r in L9].
           intros o t Hin. apply placed_range in Hin. pose proof (tile_size_pos t). lia.
      * rewrite Hg. split; [unfold tiles_size in *; lia|]. split; [by left|]. split; [by apply tiles_size_aligned|]. by repeat split.
    + left. change (zlen (tiles_bytes newer)) with (tiles_size newer) in *. by rewrite Hscan.
Qed.

(** ** Writing into the gap *)

Lemma zwrite_mid {A} (pre x old post : list A) : zlen x = zlen old -> zwrite (zlen pre) x (pre ++ old ++ post) = pre ++ x ++ post.
Proof.
  intros H. pose proof (zlen_nonneg old). rewrite zwrite_app_r by lia. rewrite Z.sub_diag, zwrite_app_l by lia. by rewrite zwrite_exact.
Qed.

(** The payload a write leaves after the record, in the place of [old]. *)
Definition written_payload (src : option (list Z)) (rc : Z) (old : list Z) : list Z :=
  match src with Some bytes => bytes ++ zeros (rc - 16 - zlen bytes) | None => zdrop 16 old end.

Lemma WriteChunkRecord_spec b pre old post r src size : data_ b = pre ++ old ++ post -> size_ b = zlen (data_ b) ->
  zlen old = rc_size r -> 16 <= rc_size r <= size_to_end b ->
  match src with Some bytes => size = zlen bytes /\ zlen bytes <= rc_size r - 16 | None => size = rc_size r - 16 end ->
  WriteChunkRecord (zlen pre) r src size b =
    Ok (set_data (pre ++ tile_bytes (r, written_payload src (rc_size r) old) ++ post) b).
Proof.
  intros Hd Hs Ho Hr Hsrc. unfold WriteChunkRecord, sizeof_ChunkRecord.
  pose proof (zlen_nonneg pre). pose proof (zlen_nonneg post).
  assert (Hlen : size_ b = zlen pre + rc_size r + zlen post) by (rewrite Hs, Hd, !zlen_app, Ho; lia).
  assert (Hsize : 0 <= size <= rc_size r - 16) by (destruct src as [bytes|]; [destruct Hsrc as [-> ?]; pose proof (zlen_nonneg bytes)|]; lia).
  destruct (Z.leb_spec (rc_size r) (size_to_end b)); [|lia]. destruct (Z.leb_spec (zlen pre + 16 + size) (size_ b)); [|lia].
  cbn [obind perfetto_check]. do 2 f_equal. rewrite Hd.
  assert (Hold : old ++ post = ztake 16 old ++ zdrop 16 old ++ post) by (by rewrite app_assoc, ztake_zdrop). rewrite Hold.
  assert (Hz1 : zlen (ztake 16 old) = 16) by (apply zlen_ztake; lia).
  assert (Hz2 : zlen (zdrop 16 old) = rc_size r - 16) by (rewrite zlen_zdrop; lia).
  rewrite (zwrite_mid pre) by (by rewrite zlen_record_bytes).
  assert (Hpre : zlen (pre ++ record_bytes r) = zlen pre + 16) by (by rewrite zlen_app, zlen_record_bytes).
  unfold tile_bytes. cbn [fst snd]. destruct src as [bytes|]; cbn [written_payload].
  - destruct Hsrc as [-> Hb]. pose proof (zlen_nonneg bytes). rewrite app_assoc, <- Hpre.
    rewrite <- (ztake_zdrop (zlen bytes) (zdrop 16 old)), <- (app_assoc (ztake (zlen bytes) _)).
    assert (Hz3 : zlen (ztake (zlen bytes) (zdrop 16 old)) = zlen bytes) by (apply zlen_ztake; lia).
    assert (Hz4 : zlen (zdrop (zlen bytes) (zdrop 16 old)) = rc_size r - 16 - zlen bytes) by (rewrite zlen_zdrop; lia).
    rewrite zwrite_mid by lia. rewrite app_assoc. rewrite <- zlen_app.
    rewrite zwrite_mid by (rewrite zlen_zeros; lia). by rewrite <- !app_assoc.
  - subst size. rewrite Z.sub_diag. change (zeros 0) with (@nil Z). rewrite !app_assoc.
    unfold zwrite. change (zlen []) with 0. rewrite Z.add_0_r. cbn [app]. by rewrite ztake_zdrop.
Qed.

Definition padding_record (size : Z) : ChunkRecord := mkRecord 0 0 0 0 size 0 true.
Lemma padding_tile_ok size p : size = 16 + zlen p -> size `mod` 16 = 0 -> size < 65536 -> bytes_ok p -> tile_ok (padding_record size, p).
Proof. intros -> Hm Hlt Hp. pose proof (zlen_nonneg p). split; [|done..]. split; cbn; unfold word_ok; (change (2 ^ 16) with 65536 || idtac); lia. Qed.

Lemma indexes_skip idx ps1 ps2 o t : ~ is_chunk t -> indexes idx (ps1 ++ ps2) <-> indexes idx (ps1 ++ (o, t) :: ps2).
Proof.
  intros Ht. split; intros [H1 H2].
  - split.
    + intros o' t' Hin Hc. apply H1; [|done]. rewrite !elem_of_app, elem_of_cons in *. destruct Hin as [|[[= -> ->]|]]; tauto.
    + intros k m Hm. destruct (H2 k m Hm) as (t' & Hin & ?). exists t'. split; [|done]. rewrite !elem_of_app, elem_of_cons in *. tauto.
  - split.
    + intros o' t' Hin Hc. apply H1; [|done]. rewrite !elem_of_app, elem_of_cons in *. tauto.
    + intros k m Hm. destruct (H2 k m Hm) as (t' & Hin & Hc & ?). exists t'. split; [|done]. rewrite !elem_of_app, elem_of_cons in *.
      destruct Hin as [|[[= -> ->]|]]; tauto.
Qed.

(** Filling the gap with padding. *)
Lemma AddPaddingRecord_spec b newer gap older s : laid b newer gap older 0 -> zlen gap = s -> 16 <= s < 65536 -> s `mod` 16 = 0 ->
  exists b', AddPaddingRecord s b = Ok b' /\ laid b' newer [] ((padding_record s, zdrop 16 gap) :: older) 0 /\
    same_ring b b' /\ wptr_ b' = wptr_ b /\ discard_writes_ b' = discard_writes_ b /\ index_ b' = index_ b /\
    last_chunk_id_written_ b' = last_chunk_id_written_ b.
Proof.
  intros L Hg Hs Hm. pose proof (laid_size _ _ _ _ _ L) as Hsz. pose proof (tiles_size_nonneg older).
  destruct L as [L1 L2 L3 L4 L5 L6 Lg L7 L8 L9 L10]. unfold AddPaddingRecord. rewrite u16_small by lia. rewrite L5.
  change (mkRecord 0 0 0 0 s 0 true) with (padding_record s). change (tiles_size newer) with (zlen (tiles_bytes newer)).
  rewrite (WriteChunkRecord_spec b (tiles_bytes newer) gap (tiles_bytes older ++ zeros 0)); [|done|done|done| |done].
  2: { unfold size_to_end. cbn [rc_size padding_record]. rewrite L5. lia. }
  cbn [obind written_payload]. eexists. split; [reflexivity|]. split; [|by repeat split].
  assert (Hz : zlen (zdrop 16 gap) = s - 16) by (rewrite zlen_zdrop; lia).
  assert (Htb : zlen (tile_bytes (padding_record s, zdrop 16 gap)) = s).
  { unfold tile_bytes. rewrite zlen_app, zlen_record_bytes. cbn [snd]. lia. }
  split; cbn [stat set_data data_ size_ index_ max_chunk_size_ wptr_ discard_writes_ overwrite_policy_]; try done.
  - by rewrite tiles_bytes_cons, <- app_assoc.
  - rewrite !zlen_app, Htb in *. rewrite Hsz. unfold tiles_size. change (zlen (zeros 0)) with 0. lia.
  - constructor.
  - constructor; [|done]. apply padding_tile_ok; [lia|done|lia|]. by apply bytes_ok_zdrop.
  - cbn [placed]. change (zlen []) with 0. rewrite Z.add_0_r. rewrite Htb, <- Hg. rewrite <- indexes_skip; [done|]. by unfold is_chunk.
Qed.

(** The layout does not depend on the statistics, the read iterator or the last ids. *)
Lemma laid_ext b b' newer gap older k : laid b newer gap older k -> data_ b' = data_ b -> same_ring b b' -> wptr_ b' = wptr_ b ->
  index_ b' = index_ b -> (discard_writes_ b' = true -> overwrite_policy_ b = kDiscard) -> laid b' newer gap older k.
Proof.
  intros [L1 L2 L3 L4 L5 L6 Lg L7 L8 L9 L10] Hd (Hs & Hmx & Hp) Hw Hi Hdw.
  split; rewrite ?Hd, ?Hs, ?Hmx, ?Hw, ?Hi, ?Hp; try done. 
Qed.

(** The write pointer goes back to the beginning of a buffer full of tiles. *)
Lemma laid_rewind b newer older : laid b newer [] older 0 -> laid (set_wptr 0 b) [] [] (newer ++ older) 0.
Proof.
  intros [L1 L2 L3 L4 L5 L6 Lg L7 L8 L9 L10]. split; cbn [set_wptr data_ size_ max_chunk_size_ wptr_ index_ discard_writes_ overwrite_policy_]; try done.
  - by rewrite L1, tiles_bytes_app, <- app_assoc.
  - by apply Forall_app.
  - change (zlen (@nil Z)) with 0 in *. cbn [placed app]. change (tiles_size []) with 0. rewrite placed_app.
    by rewrite Z.add_0_r in L9.
Qed.

(** [b'] is [b] with the chunks [dropped], the oldest, gone. *)
Definition evicts (b b' : TraceBuffer) (live dropped live' : list tile) : Prop :=
  live = dropped ++ live' /\
  (forall k, index_ b' !! k = if decide (k ∈ map (fun t => Key_of t.1) dropped) then None else index_ b !! k) /\
  (overwrite_policy_ b = kDiscard -> Forall (fully_read (index_ b)) (map (fun t => Key_of t.1) dropped)).

Lemma evicts_refl b b' live : index_ b' = index_ b -> evicts b b' live [] live.
Proof.
  intros Hi. split; [done|]. split; [intros k; rewrite Hi; rewrite decide_False; [done|apply not_elem_of_nil]|]. intros _. constructor.
Qed.
Lemma evicts_keys b b' idx' ts live : index_ b' = idx' -> idx' = foldr delete (index_ b) (keys ts) ->
  (overwrite_policy_ b = kDiscard -> Forall (fully_read (index_ b)) (keys ts)) -> evicts b b' (chunks ts ++ live) (chunks ts) live.
Proof.
  intros Hi1 Hi2 H. split; [done|]. split; [|exact H]. intros k. rewrite Hi1, Hi2. fold (keys ts). case_decide.
  - by apply lookup_foldr_delete.
  - by apply lookup_foldr_delete_not_elem_of.
Qed.
Lemma evicts_trans b1 b2 b3 l1 d1 l2 d2 l3 : overwrite_policy_ b2 = overwrite_policy_ b1 ->
  evicts b1 b2 l1 d1 l2 -> evicts b2 b3 l2 d2 l3 -> evicts b1 b3 l1 (d1 ++ d2) l3.
Proof.
  intros Hp (-> & Hi1 & Hr1) (-> & Hi2 & Hr2). split; [by rewrite app_assoc|]. rewrite map_app. split.
  - intros k. rewrite Hi2, Hi1. repeat case_decide; rewrite ?elem_of_app in *; tauto.
  - intros Hk. apply Forall_app. split; [by apply Hr1|]. rewrite Hp in Hr2. specialize (Hr2 Hk). eapply Forall_impl; [exact Hr2|].
    intros k (m & Hm & Hle). exists m. split; [|done]. rewrite Hi1 in Hm. by case_decide.
Qed.

Lemma record_size_ok n m : n `mod` 16 = 0 -> 0 <= n <= Z.min m ChunkRecord_kMaxSize -> n < 65536.
Proof. unfold ChunkRecord_kMaxSize. lia. Qed.

Lemma WrapIfNeeded_spec b newer older rs : well_laid b newer older -> discard_writes_ b = false -> 0 < rs -> rs <= max_chunk_size_ b ->
  (WrapIfNeeded rs b = Ok (inl (DiscardWrite b)) /\ overwrite_policy_ b = kDiscard) \/
  exists b' newer' older' dropped, WrapIfNeeded rs b = Ok (inr b') /\ well_laid b' newer' older' /\
    evicts b b' (chunks (older ++ newer)) dropped (chunks (older' ++ newer')) /\ rs <= size_to_end b' /\
    same_ring b b' /\ discard_writes_ b' = false /\ last_chunk_id_written_ b' = last_chunk_id_written_ b.
Proof.
  intros [k [L Hin]] Hdisc Hrs Hmax. unfold WrapIfNeeded. pose proof (la_max _ _ _ _ _ L) as Hmx. unfold ChunkRecord_kMaxSize in Hmx.
  destruct (Z.ltb_spec (size_to_end b) rs).
  2: { right. exists b, newer, older, []. split; [done|]. split; [by exists k|]. split; [by apply evicts_refl|]. by repeat split. }
  pose proof (laid_size _ _ _ _ _ L) as Hsz. change (zlen []) with 0 in Hsz. unfold size_to_end in *.
  pose proof (la_wptr _ _ _ _ _ L) as Hw. pose proof (tiles_size_aligned _ (la_newer _ _ _ _ _ L)) as Hal.
  assert (Hal2 : (size_ b - wptr_ b) `mod` 16 = 0) by (rewrite Hw, Zminus_mod, Hal, (la_aligned _ _ _ _ _ L); done).
  destruct (DeleteNextChunksFor_spec b newer older k (size_ b - wptr_ b) L Hdisc ltac:(unfold size_to_end; lia) Hal2)
    as [[Hd Hpol]|(o1 & o2 & gap & k' & b1 & Holder & Hd & L1 & Hgap & Hk' & Hgal & Hring & Hw1 & Hdisc1 & Hlast & Hidx & Hread)];
    rewrite Hd; cbn [obind]; [by left|]. right. unfold size_to_end in *.
  pose proof (laid_size _ _ _ _ _ L1) as Hsz1. pose proof (proj1 (la_zeros _ _ _ _ _ L1)). pose proof (tiles_size_nonneg o2).
  pose proof (proj1 Hring) as Hsame. assert (Ho2 : o2 = []).
  { destruct o2 as [|t o2]; [done|]. rewrite tiles_size_cons in *. pose proof (tile_size_pos t). pose proof (tiles_size_nonneg o2). lia. }
  subst o2. change (tiles_size []) with 0 in *. rewrite app_nil_r in Holder. subst o1. assert (k' = 0) as -> by lia.
  assert (Hg : zlen gap = size_ b - wptr_ b) by lia.
  destruct (AddPaddingRecord_spec b1 newer gap [] _ L1 Hg) as (b2 & -> & L2 & Hring2 & Hw2 & Hdisc2 & Hidx2 & Hlast2).
  { pose proof (Z.div_mod (size_ b - wptr_ b) 16 ltac:(lia)). unfold ChunkRecord_kMaxSize in *. lia. }
  { done. }
  cbn [obind]. set (pad := (padding_record _, _)) in *.
  exists (stat write_wrap_count 1 (set_wptr 0 b2)), [], (newer ++ [pad]), (chunks older). split; [done|].
  assert (Hpos : 0 < size_ b) by (rewrite Hw in Hin; pose proof (tiles_size_nonneg newer); lia).
  destruct Hring as (_ & Hm1 & Hp1), Hring2 as (Hs2 & Hm2 & Hp2).
  split.
  { exists 0. split; [|cbn; lia]. eapply laid_ext; [apply laid_rewind, L2|done|done|done|done|]. cbn. intros Hc. congruence. }
  rewrite app_nil_r. split.
  { rewrite !chunks_app. replace (chunks [pad]) with (@nil tile) by done. rewrite app_nil_r. eapply evicts_keys; [|exact Hidx|exact Hread].
    cbn. exact Hidx2. }
  split; [cbn; unfold ChunkRecord_kMaxSize in *; lia|]. split; [split; [cbn; lia|split; cbn; congruence]|]. split; cbn; congruence.
Qed.

(** ** Inserting a chunk *)

Lemma indexes_insert idx ps1 ps2 o t m : indexes idx (ps1 ++ ps2) -> idx !! Key_of t.1 = None -> describes o t m -> is_chunk t ->
  indexes (<[Key_of t.1 := m]> idx) (ps1 ++ (o, t) :: ps2).
Proof.
  intros [H1 H2] Hnone Hd Ht. split.
  - intros o' t' Hin Hc. rewrite elem_of_app, elem_of_cons in Hin.
    assert (Hcase : (o', t') = (o, t) \/ (o', t') ∈ ps1 ++ ps2) by (rewrite elem_of_app; tauto).
    destruct Hcase as [[= -> ->]|Hin']; [exists m; by rewrite lookup_insert_eq|].
    destruct (H1 o' t' Hin' Hc) as (m' & Hm' & Hd'). exists m'. split; [|done]. rewrite lookup_insert_ne; [done|congruence].
  - intros k m' Hm'. apply lookup_insert_Some in Hm' as [[<- <-]|[Hne Hm']].
    + exists t. destruct Hd as [-> _]. split; [|done]. rewrite elem_of_app, elem_of_cons. tauto.
    + destruct (H2 k m' Hm') as (t' & Hin & ?). exists t'. split; [|done]. rewrite elem_of_app, elem_of_cons in *. tauto.
Qed.

Lemma UpdateLastChunkId_frame p w c b : let b' := UpdateLastChunkId p w c b in
  data_ b' = data_ b /\ same_ring b b' /\ wptr_ b' = wptr_ b /\ index_ b' = index_ b /\ discard_writes_ b' = discard_writes_ b.
Proof. unfold UpdateLastChunkId. cbv zeta. by destruct (_ <? _). Qed.

Lemma chunk_tile_ok r src rs : record_ok r -> rc_size r = rs -> rs `mod` 16 = 0 -> zlen src + 16 <= rs -> bytes_ok src ->
  tile_ok (r, written_payload (Some src) rs []).
Proof.
  intros Hr <- Hm Hl Hb. split; [done| |done|]; cbn [fst snd written_payload].
  - rewrite zlen_app, zlen_zeros by lia. lia.
  - apply bytes_ok_app. split; [done|apply bytes_ok_zeros].
Qed.

(** The record written, before the padding: [b] has the room [gap] at its write pointer. *)
Lemma write_chunk_laid b newer gap older k r src m : laid b newer gap older k -> record_ok r -> rc_is_padding r = false ->
  rc_size r `mod` 16 = 0 -> zlen src + 16 <= rc_size r -> bytes_ok src -> rc_size r <= zlen gap -> index_ b !! Key_of r = None ->
  describes (wptr_ b) (r, src) m ->
  exists b1, WriteChunkRecord (wptr_ b) r (Some src) (zlen src) (set_index (<[Key_of r := m]> (index_ b)) b) = Ok b1 /\
    laid (set_wptr (wptr_ b + rc_size r) b1) (newer ++ [(r, written_payload (Some src) (rc_size r) [])]) (zdrop (rc_size r) gap) older k /\
    same_ring b b1 /\ wptr_ b1 = wptr_ b /\ discard_writes_ b1 = discard_writes_ b /\ last_chunk_id_written_ b1 = last_chunk_id_written_ b /\
    index_ b1 = <[Key_of r := m]> (index_ b).
Proof.
  intros L Hr Hpad Hm Hsrc Hb Hgap Hnone Hd. pose proof (laid_size _ _ _ _ _ L) as Hsz. pose proof (tiles_size_nonneg older).
  pose proof (chunk_tile_ok r src (rc_size r) Hr eq_refl Hm Hsrc Hb) as Hok. set (t := (r, written_payload (Some src) (rc_size r) [])) in *.
  destruct L as [L1 L2 L3 L4 L5 L6 Lg L7 L8 L9 L10]. set (bi := set_index _ b). pose proof (zlen_nonneg src).
  assert (Hg : gap = ztake (rc_size r) gap ++ zdrop (rc_size r) gap) by by rewrite ztake_zdrop.
  assert (Hzt : zlen (ztake (rc_size r) gap) = rc_size r) by (apply zlen_ztake; lia).
  rewrite L5. change (tiles_size newer) with (zlen (tiles_bytes newer)) at 1.
  rewrite (WriteChunkRecord_spec bi (tiles_bytes newer) (ztake (rc_size r) gap) (zdrop (rc_size r) gap ++ tiles_bytes older ++ zeros k));
    [|by unfold bi; cbn [set_index data_]; rewrite L1, Hg at 1; rewrite <- !app_assoc|done|done| |split; [done|lia]].
  2: { unfold size_to_end, bi. cbn [set_index size_ wptr_]. rewrite L5. lia. }
  eexists. split; [reflexivity|]. change (written_payload (Some src) (rc_size r) (ztake (rc_size r) gap)) with t.2. change (r, t.2) with t.
  assert (Htb : zlen (tile_bytes t) = rc_size r) by by apply tile_size_rc.
  assert (Hzd : zlen (zdrop (rc_size r) gap) = zlen gap - rc_size r) by (rewrite zlen_zdrop; lia).
  split; [|unfold bi; by repeat split].
  split; unfold bi; cbn [set_wptr set_data set_index data_ size_ index_ max_chunk_size_ wptr_ discard_writes_ overwrite_policy_]; try done.
  - rewrite tiles_bytes_app, tiles_bytes_one, <- !app_assoc. done.
  - rewrite L2, L1, !zlen_app, Htb, Hzd. lia.
  - rewrite tiles_size_app. change (tiles_size [t]) with (zlen (tiles_bytes [t])). by rewrite tiles_bytes_one, Htb, <- L5.
  - by apply bytes_ok_zdrop.
  - apply Forall_app. split; [done|]. by constructor; [|constructor].
  - rewrite placed_app, Z.add_0_l. cbn [placed]. rewrite <- app_assoc. cbn [app].
    rewrite tiles_size_app. change (tiles_size [t]) with (zlen (tiles_bytes [t])). rewrite tiles_bytes_one, Htb, Hzd.
    replace (tiles_size newer + rc_size r + (zlen gap - rc_size r)) with (tiles_size newer + zlen gap) by lia.
    change (Key_of r) with (Key_of t.1). apply indexes_insert; [done|done| |done]. rewrite <- L5. exact Hd.
Qed.

Lemma InsertChunk_spec b newer older r src meta : well_laid b newer older -> discard_writes_ b = false ->
  record_ok r -> rc_is_padding r = false -> rc_size r `mod` 16 = 0 -> zlen src + 16 <= rc_size r <= size_to_end b -> bytes_ok src ->
  index_ b !! Key_of r = None -> (forall ptr, describes ptr (r, src) (meta ptr)) ->
  (InsertChunk (Key_of r) r (rc_size r) meta src b = Ok (DiscardWrite b) /\ overwrite_policy_ b = kDiscard) \/
  exists b' newer' older' dropped live, InsertChunk (Key_of r) r (rc_size r) meta src b = Ok b' /\ well_laid b' newer' older' /\
    chunks (older ++ newer) = dropped ++ live /\
    chunks (older' ++ newer') = live ++ [(r, written_payload (Some src) (rc_size r) [])] /\
    (forall k, index_ b' !! k = if decide (k = Key_of r) then Some (meta (wptr_ b))
                                else if decide (k ∈ map (fun t => Key_of t.1) dropped) then None else index_ b !! k) /\
    (overwrite_policy_ b = kDiscard -> Forall (fully_read (index_ b)) (map (fun t => Key_of t.1) dropped)) /\
    same_ring b b' /\ discard_writes_ b' = false.
Proof.
  intros [k [L Hin]] Hdisc Hr Hpad Hm Hsrc Hb Hnone Hmeta. pose proof (zlen_nonneg src). unfold InsertChunk.
  destruct (DeleteNextChunksFor_spec b newer older k (rc_size r) L Hdisc ltac:(lia) Hm)
    as [[Hd Hpol]|(o1 & o2 & gap & k' & b1 & -> & Hd & L1 & Hgap & Hk' & Hgal & Hring & Hw1 & Hdisc1 & Hlast & Hidx & Hread)];
    rewrite Hd; cbn [obind]; [by left|]. right.
  assert (Hev : evicts b b1 (chunks o1 ++ chunks (o2 ++ newer)) (chunks o1) (chunks (o2 ++ newer))) by (eapply evicts_keys; [exact Hidx|done|done]).
  destruct Hev as (_ & Hidx1 & Hread1).
  assert (Hnone1 : index_ b1 !! Key_of r = None) by (rewrite Hidx1, Hnone; by case_decide).
  set (b1' := stat bytes_written _ _). assert (L1' : laid b1' newer gap o2 k') by (eapply laid_ext; [exact L1|done|done|done|done|]; cbn; congruence).
  change (index_ b1') with (index_ b1). rewrite Hnone1. change (wptr_ b1') with (wptr_ b1).
  destruct (write_chunk_laid b1' newer gap o2 k' r src (meta (wptr_ b1)) L1' Hr Hpad Hm ltac:(lia) Hb ltac:(lia) Hnone1 (Hmeta _))
    as (b2 & Hw2 & L2 & Hring2 & Hwp2 & Hdisc2 & Hlast2 & Hidx2).
  change (wptr_ b1') with (wptr_ b1) in *. change (index_ b1') with (index_ b1) in *.
  change (wptr_ (set_index ?i b1')) with (wptr_ b1). rewrite Hw2. cbn [obind]. rewrite Hwp2. set (t := (r, written_payload _ _ _)) in *.
  pose proof (laid_size _ _ _ _ _ L2) as Hsz2. pose proof (proj1 (la_zeros _ _ _ _ _ L2)) as Hk2. pose proof (tiles_size_nonneg o2).
  assert (Hgz : zlen (zdrop (rc_size r) gap) = zlen gap - rc_size r) by (rewrite zlen_zdrop; lia). rewrite Hgz in Hsz2.
  pose proof (la_wptr _ _ _ _ _ L2) as Hwt. cbn [set_wptr wptr_ size_] in Hwt, Hsz2.
  assert (Hgnil : zlen gap - rc_size r = 0 -> zdrop (rc_size r) gap = []).
  { intros E. rewrite E in Hgz. by destruct (zdrop (rc_size r) gap); [|rewrite zlen_cons in Hgz; pose proof (zlen_nonneg l); lia]. }
  assert (Hring2' : same_ring b b2).
  { change (same_ring b1 b2) in Hring2. by eapply same_ring_trans. }
  assert (Hs2 : size_ b2 = size_ b) by apply Hring2'.
  assert (Hidx3 : forall k, index_ b2 !! k = if decide (k = Key_of r) then Some (meta (wptr_ b))
      else if decide (k ∈ map (fun t => Key_of t.1) (chunks o1)) then None else index_ b !! k).
  { intros k0. rewrite Hidx2, Hw1. destruct (decide (k0 = Key_of r)) as [->|Hne]; [by rewrite lookup_insert_eq|].
    rewrite lookup_insert_ne by done. apply Hidx1. }
  (* The buffer after the advance of the write pointer, whichever way. *)
  set (b3 := if size_ _ <=? _ then _ else _).
  destruct (Key_of r) as [[producer writer] chunk_id] eqn:Ekey. set (b4 := UpdateLastChunkId producer writer chunk_id b3).
  destruct (UpdateLastChunkId_frame producer writer chunk_id b3) as (Fd & Fr & Fw & Fi & Fx). fold b4 in Fd, Fr, Fw, Fi, Fx.
  assert (Hb3 : data_ b3 = data_ b2 /\ same_ring b2 b3 /\ index_ b3 = index_ b2 /\ discard_writes_ b3 = false).
  { unfold b3. destruct (_ <=? _); cbn; rewrite Hdisc2; by repeat split. }
  destruct Hb3 as (Hd3 & Hr3 & Hi3 & Hx3).
  assert (Hring4 : same_ring b b4).
  { eapply same_ring_trans; [exact Hring2'|]. by eapply same_ring_trans. }
  assert (Hidx4 : forall k, index_ b4 !! k = if decide (k = (producer, writer, chunk_id)) then Some (meta (wptr_ b))
      else if decide (k ∈ map (fun t => Key_of t.1) (chunks o1)) then None else index_ b !! k).
  { intros k0. rewrite Fi, Hi3. apply Hidx3. }
  assert (Hlive : forall pre, chunks pre = [] -> chunks ((pre ++ o2) ++ newer ++ [t]) = chunks (o2 ++ newer) ++ [t]).
  { intros pre Hpre. rewrite !chunks_app, Hpre. cbn [app]. rewrite <- app_assoc. do 2 f_equal. unfold chunks. by rewrite filter_cons_True. }
  destruct (Z.leb_spec (size_ b) (wptr_ b1 + rc_size r)) as [Hwrap|Hwrap].
  - (* The record ends at the end of the buffer. *)
    assert (E : zlen gap - rc_size r = 0 /\ tiles_size o2 = 0 /\ k' = 0) by lia. destruct E as (E1 & E2 & ->). specialize (Hgnil E1).
    assert (o2 = []) as -> by (destruct o2 as [|t' o2]; [done|]; rewrite tiles_size_cons in E2; pose proof (tile_size_pos t'); pose proof (tiles_size_nonneg o2); lia).
    rewrite Hgnil in L2. rewrite E1. cbn [Z.eqb negb].
    exists b4, [], (newer ++ [t]), (chunks o1), (chunks newer). split; [done|].
    assert (Hb3 : b3 = stat write_wrap_count 1 (set_wptr 0 (set_wptr (wptr_ b1 + rc_size r) b2))).
    { unfold b3. cbn [set_wptr size_ wptr_]. rewrite Hs2. by destruct (Z.leb_spec (size_ b) (wptr_ b1 + rc_size r)); [|lia]. }
    split.
    { exists 0. split; [|rewrite Fw, (proj1 Hring4), Hb3; cbn; pose proof (tiles_size_nonneg newer); pose proof (la_wptr _ _ _ _ _ L); lia].
      apply laid_rewind in L2. rewrite app_nil_r in L2. eapply laid_ext; [exact L2|rewrite Fd, Hb3; done| |by rewrite Fw, Hb3|by rewrite Fi, Hb3|congruence].
      eapply same_ring_trans; [|exact Fr]. by rewrite Hb3. }
    split; [by rewrite app_nil_r, chunks_app|]. split; [rewrite app_nil_r; apply (Hlive []); done|]. split; [exact Hidx4|]. split; [exact Hread|]. split; [done|congruence].
  - assert (Hb3 : b3 = set_wptr (wptr_ b1 + rc_size r) b2).
    { unfold b3. cbn [set_wptr size_ wptr_]. rewrite Hs2. by destruct (Z.leb_spec (size_ b) (wptr_ b1 + rc_size r)); [lia|]. }
    assert (L4 : laid b4 (newer ++ [t]) (zdrop (rc_size r) gap) o2 k').
    { eapply laid_ext; [exact L2|rewrite Fd, Hb3; done| |by rewrite Fw, Hb3|by rewrite Fi, Hb3|congruence].
      eapply same_ring_trans; [|exact Fr]. by rewrite Hb3. }
    assert (Hin4 : wptr_ b4 < size_ b4) by (rewrite Fw, (proj1 Hring4), Hb3; cbn; lia).
    destruct (Z.eqb_spec (zlen gap - rc_size r) 0) as [E1|E1]; cbn [negb].
    + rewrite (Hgnil E1) in L4. exists b4, (newer ++ [t]), o2, (chunks o1), (chunks (o2 ++ newer)). split; [done|]. split; [by exists k'|].
      split; [by rewrite <- app_assoc, chunks_app|]. split; [apply (Hlive []); done|]. split; [exact Hidx4|]. split; [exact Hread|]. split; [done|congruence].
    + assert (k' = 0) as -> by (destruct Hk'; lia).
      assert (Hgm : (zlen gap - rc_size r) `mod` 16 = 0) by (rewrite Zminus_mod, Hgal, Hm; done).
      destruct (AddPaddingRecord_spec b4 _ _ _ _ L4 Hgz) as (b5 & -> & L5 & R5 & W5 & X5 & I5 & _).
      { pose proof (Z.div_mod (zlen gap - rc_size r) 16 ltac:(lia)). lia. }
      { done. }
      exists b5, (newer ++ [t]), ((padding_record (zlen gap - rc_size r), zdrop 16 (zdrop (rc_size r) gap)) :: o2), (chunks o1), (chunks (o2 ++ newer)).
      split; [done|]. split; [exists 0; split; [done|]; rewrite W5, (proj1 R5); exact Hin4|].
      split; [by rewrite <- app_assoc, chunks_app|]. split; [apply (Hlive [_]); done|].
      split; [intros k0; rewrite I5; apply Hidx4|]. split; [exact Hread|]. split; [by eapply same_ring_trans|congruence].
Qed.

(** ** Changing a chunk in place *)

(** The tiles with the chunk of key [k] replaced by [t']. *)
Definition set_chunk (k : Key) (t' : tile) (ts : list tile) : list tile :=
  map (fun u => if decide (is_chunk u /\ Key_of u.1 = k) then t' else u) ts.

Lemma set_chunk_app k t' a b : set_chunk k t' (a ++ b) = set_chunk k t' a ++ set_chunk k t' b.
Proof. apply map_app. Qed.
Lemma set_chunk_id k t' ts : (forall u, u ∈ ts -> is_chunk u -> Key_of u.1 <> k) -> set_chunk k t' ts = ts.
Proof.
  intros H. induction ts as [|u ts IH]; [done|]. cbn [set_chunk map]. rewrite decide_False.
  - f_equal. apply IH. intros v Hv. apply H. by right.
  - intros [Hc Hk]. apply (H u); [by left|done|done].
Qed.
Lemma chunks_set_chunk k t' ts : is_chunk t' -> chunks (set_chunk k t' ts) = set_chunk k t' (chunks ts).
Proof.
  intros Ht'. induction ts as [|u ts IH]; [done|]. cbn [set_chunk map]. unfold chunks in *. rewrite !filter_cons.
  destruct (decide (is_chunk u)) as [Hc|Hc].
  - cbn [set_chunk map]. destruct (decide (is_chunk u /\ Key_of u.1 = k)); (rewrite decide_True by done); f_equal; exact IH.
  - rewrite (decide_False (P := is_chunk u /\ _)) by tauto. rewrite decide_False by done. exact IH.
Qed.
Lemma placed_set_chunk k t' ts : (forall u, u ∈ ts -> is_chunk u -> Key_of u.1 = k -> zlen (tile_bytes u) = zlen (tile_bytes t')) ->
  forall off, placed off (set_chunk k t' ts) = map (fun x => (x.1, if decide (is_chunk x.2 /\ Key_of x.2.1 = k) then t' else x.2)) (placed off ts)
    /\ tiles_size (set_chunk k t' ts) = tiles_size ts.
Proof.
  induction ts as [|u ts IH]; intros Hs off; [done|]. cbn [set_chunk map placed fst snd].
  assert (Hu : zlen (tile_bytes (if decide (is_chunk u /\ Key_of u.1 = k) then t' else u)) = zlen (tile_bytes u)).
  { case_decide as Hd; [|done]. symmetry. apply Hs; [by left|tauto|tauto]. }
  rewrite !tiles_size_cons, Hu. destruct (IH ltac:(intros v Hv; apply Hs; by right) (off + zlen (tile_bytes u))) as [IH1 IH2].
  unfold set_chunk in IH1, IH2. by rewrite IH1, IH2.
Qed.

(** Where the index says a chunk is. *)
Lemma laid_chunk b newer older k key m : laid b newer [] older k -> index_ b !! key = Some m ->
  exists a t c, newer ++ older = a ++ t :: c /\ is_chunk t /\ Key_of t.1 = key /\ tile_ok t /\ chunk_record m = tiles_size a /\
    describes (chunk_record m) t m /\ (forall u, u ∈ a ++ c -> is_chunk u -> Key_of u.1 <> key).
Proof.
  intros L Hm. pose proof (la_index _ _ _ _ _ L) as Hidx. change (zlen (@nil Z)) with 0 in Hidx. rewrite Z.add_0_r in Hidx.
  pose proof (placed_app 0 newer older) as Hpa. rewrite Z.add_0_l in Hpa. rewrite <- Hpa in Hidx.
  destruct (proj2 Hidx key m Hm) as (t & Hin & Hc & Hk). destruct (placed_split _ _ _ _ Hin) as (a & c & Hall & Ho).
  exists a, t, c. rewrite Z.add_0_l in Ho. do 3 (split; [done|]). split.
  { assert (Hf : Forall tile_ok (newer ++ older)) by (apply Forall_app; split; [apply (la_newer _ _ _ _ _ L)|apply (la_older _ _ _ _ _ L)]).
    rewrite Hall in Hf. by apply Forall_app in Hf as [_ [? _]%Forall_cons]. }
  split; [done|]. split.
  { destruct (proj1 Hidx _ t Hin Hc) as (m' & Hm' & Hd). rewrite Hk, Hm in Hm'. by injection Hm' as <-. }
  intros u Hu Hcu Hku. assert (Hou : exists o, (o, u) ∈ placed 0 (newer ++ older) /\ o <> chunk_record m).
  { rewrite Hall, Ho, placed_app. cbn [placed]. apply elem_of_app in Hu as [Hu|Hu].
    - destruct (placed_elem 0 a u Hu) as [o Hou]. exists o. split; [rewrite elem_of_app; by left|]. apply placed_range in Hou.
      pose proof (tile_size_pos u). lia.
    - destruct (placed_elem (0 + tiles_size a + zlen (tile_bytes t)) c u Hu) as [o Hou]. exists o.
      split; [rewrite elem_of_app, elem_of_cons; by right; right|]. apply placed_range in Hou. pose proof (tile_size_pos t). lia. }
  destruct Hou as (o & Hou & Hne). apply Hne. eapply indexes_unique; [exact Hidx|exact Hou|exact Hin|done|done|congruence].
Qed.

Lemma laid_set_chunk b b' newer older k key m m' t' a t c : laid b newer [] older k -> index_ b !! key = Some m ->
  newer ++ older = a ++ t :: c -> is_chunk t -> Key_of t.1 = key -> chunk_record m = tiles_size a ->
  (forall u, u ∈ a ++ c -> is_chunk u -> Key_of u.1 <> key) ->
  is_chunk t' -> Key_of t'.1 = key -> tile_ok t' -> zlen (tile_bytes t') = zlen (tile_bytes t) -> describes (chunk_record m) t' m' ->
  data_ b' = tiles_bytes a ++ tile_bytes t' ++ tiles_bytes c ++ zeros k -> index_ b' = <[key := m']> (index_ b) ->
  same_ring b b' -> wptr_ b' = wptr_ b -> discard_writes_ b' = discard_writes_ b ->
  laid b' (set_chunk key t' newer) [] (set_chunk key t' older) k.
Proof.
  intros L Hm Hall Hc Hk Ho Hu Hc' Hk' Hok' Hsz Hd' Hdata Hidx (R1 & R2 & R3) Hw Hx.
  assert (Hsize : forall ts : list tile, (forall u, u ∈ ts -> u ∈ newer ++ older) -> forall u, u ∈ ts -> is_chunk u -> Key_of u.1 = key ->
     zlen (tile_bytes u) = zlen (tile_bytes t')).
  { intros ts Hts u Hin Hcu Hku. specialize (Hts u Hin). rewrite Hall, elem_of_app, elem_of_cons in Hts.
    destruct Hts as [Hi|[->|Hi]]; [|done|]; (destruct (Hu u); [rewrite elem_of_app; tauto|done|done]). }
  destruct (placed_set_chunk key t' newer (Hsize newer ltac:(intros; rewrite elem_of_app; by left)) 0) as [Hpn Hsn].
  destruct (placed_set_chunk key t' older (Hsize older ltac:(intros; rewrite elem_of_app; by right)) (tiles_size newer)) as [Hpo Hso].
  assert (Hset : set_chunk key t' newer ++ set_chunk key t' older = a ++ t' :: c).
  { rewrite <- set_chunk_app, Hall, set_chunk_app. cbn [set_chunk map]. rewrite decide_True by done.
    rewrite (set_chunk_id _ _ a) by (intros u Hi; apply Hu; rewrite elem_of_app; by left).
    fold (set_chunk key t' c). by rewrite (set_chunk_id _ _ c) by (intros u Hi; apply Hu; rewrite elem_of_app; by right). }
  assert (Hdlen : zlen (data_ b') = zlen (data_ b)).
  { pose proof (f_equal tiles_size Hall) as Hts. rewrite !tiles_size_app, tiles_size_cons in Hts. unfold tiles_size in Hts.
    rewrite Hdata, (la_data _ _ _ _ _ L). cbn [app]. rewrite !zlen_app. lia. }
  assert (Hokall : Forall tile_ok (set_chunk key t' newer ++ set_chunk key t' older)).
  { rewrite Hset. assert (Hf : Forall tile_ok (newer ++ older)) by (apply Forall_app; split; [apply (la_newer _ _ _ _ _ L)|apply (la_older _ _ _ _ _ L)]).
    rewrite Hall in Hf. apply Forall_app in Hf as [Hf1 [_ Hf2]%Forall_cons]. apply Forall_app. split; [done|]. by constructor. }
  apply Forall_app in Hokall as [Hok1 Hok2].
  destruct L as [L1 L2 L3 L4 L5 L6 Lg L7 L8 L9 L10]. split; rewrite ?R1, ?R2, ?R3, ?Hw, ?Hx; try done.
  - cbn [app]. rewrite Hdata, (app_assoc (tiles_bytes (set_chunk key t' newer))), <- tiles_bytes_app, Hset, tiles_bytes_app, tiles_bytes_cons.
    by rewrite <- !app_assoc.
  - by rewrite Hdlen.
  - by rewrite Hsn.
  - split; [apply L6|]. intros Hk0. rewrite (proj2 L6 Hk0). done.
  - change (zlen (@nil Z)) with 0 in *. rewrite Z.add_0_r in L9 |- *. rewrite Hsn, Hpn, Hpo, <- map_app.
    set (ps := placed 0 newer ++ _) in *. rewrite Hidx. split.
    + intros o u' Hin Hcu'. apply list_elem_of_fmap in Hin as ([o0 u] & [= -> ->] & Hin). cbn [fst snd] in *.
      destruct (decide (is_chunk u /\ Key_of u.1 = key)) as [[Hcu Hku]|Hne].
      * exists m'. rewrite Hk', lookup_insert_eq. split; [done|].
        destruct (proj1 L9 o0 u Hin Hcu) as (m0 & Hm0 & Hd0 & _). rewrite Hku, Hm in Hm0. injection Hm0 as <-. by rewrite <- Hd0.
      * destruct (proj1 L9 o0 u Hin Hcu') as (m0 & Hm0 & Hd0). exists m0. split; [|done]. rewrite lookup_insert_ne; [done|]. intros Heq. by apply Hne.
    + intros k0 m0 Hm0. apply lookup_insert_Some in Hm0 as [[<- <-]|[Hne Hm0]].
      * destruct (proj2 L9 key m Hm) as (u & Hin & Hcu & Hku). exists t'. split; [|done].
        apply list_elem_of_fmap. exists (chunk_record m, u). cbn [fst snd]. rewrite decide_True by done. split; [|done]. by rewrite (proj1 Hd').
      * destruct (proj2 L9 k0 m0 Hm0) as (u & Hin & Hcu & Hku). exists u. split; [|done]. apply list_elem_of_fmap.
        exists (chunk_record m0, u). cbn [fst snd]. rewrite decide_False by (intros [_ ?]; congruence). done.
Qed.

Lemma laid_data_split b newer older k a t c : laid b newer [] older k -> newer ++ older = a ++ t :: c ->
  data_ b = tiles_bytes a ++ tile_bytes t ++ tiles_bytes c ++ zeros k.
Proof.
  intros L Hall. rewrite (la_data _ _ _ _ _ L). cbn [app]. rewrite (app_assoc (tiles_bytes newer)), <- tiles_bytes_app, Hall, tiles_bytes_app, tiles_bytes_cons.
  by rewrite <- !app_assoc.
Qed.

Lemma chunk_record_size_spec n : 0 <= n -> n + 16 <= chunk_record_size n < n + 32 /\ chunk_record_size n `mod` 16 = 0.
Proof.
  intros Hn. unfold chunk_record_size, sizeof_ChunkRecord. rewrite AlignUp_16. split; [|apply Z.mod_mul; lia].
  pose proof (Z.div_mod (n + 16 + 15) 16 ltac:(lia)). pose proof (Z.mod_pos_bound (n + 16 + 15) 16 ltac:(lia)). lia.
Qed.

Lemma RewriteChunk_spec b newer older r m src nf flags complete : well_laid b newer older -> index_ b !! Key_of r = Some m ->
  record_ok r -> rc_is_padding r = false -> rc_size r = chunk_record_size (zlen src) -> bytes_ok src ->
  rc_num_fragments r = nf -> rc_flags r = flags .& 63 ->
  match RewriteChunk (Key_of r) m r (rc_size r) nf flags complete src b with
  | Crash => size_to_end b < rc_size r
  | Ok b' => b' = b \/ b' = stat abi_violations 1 b \/
      (let t' := (r, written_payload (Some src) (rc_size r) []) in
       let m' := set_complete complete (set_fragments_flags nf flags m) in
       well_laid b' (set_chunk (Key_of r) t' newer) (set_chunk (Key_of r) t' older) /\ same_ring b b' /\ discard_writes_ b' = discard_writes_ b /\
       index_ b' = <[Key_of r := m']> (index_ b) /\ num_fragments m < nf /\ num_fragments_read m <= num_fragments m)
  end.
Proof.
  intros [k [L Hin]] Hm Hr Hpad Hsz Hb Hnf Hfl. destruct (laid_chunk b newer older k _ m L Hm) as (a & t & c & Hall & Hc & Hk & Ht & Ho & Hd & Hu).
  unfold RewriteChunk. pose proof (laid_data_split _ _ _ _ _ _ _ L Hall) as Hdata.
  destruct (chunk_record_size_spec (zlen src) (zlen_nonneg src)) as [Hrs Hrm]. rewrite <- Hsz in Hrs, Hrm. pose proof (zlen_nonneg src).
  assert (Hget : GetChunkRecordAt b (chunk_record m) = Ok t.1).
  { rewrite Ho. exact (GetChunkRecordAt_tile b _ t _ Hdata (la_size _ _ _ _ _ L) (to_record _ Ht)). }
  rewrite Hget. cbn [obind].
  destruct (Key_of r) as [[p w] cid] eqn:Ekey.
  destruct (bool_decide _ || _ || _ || _) eqn:Echeck; [by right; left|]. bool_facts. repeat match goal with H : _ && _ = _ |- _ => clear H end.
  destruct (Z.eqb_spec (rc_num_fragments t.1) nf); [by left|]. destruct (match index_ b !! _ with Some _ => _ | None => _ end); [by right; left|].
  destruct (Z.ltb_spec (rc_num_fragments t.1) (num_fragments_read m)); [by left|].
  set (m' := set_complete complete _). set (bi := set_index _ b).
  assert (Hmo : chunk_record m' = chunk_record m) by (unfold m', set_complete; by destruct complete).
  rewrite Hmo, Ho. change (tiles_size a) with (zlen (tiles_bytes a)).
  destruct (Z.le_gt_cases (rc_size r) (size_to_end b)) as [Hfit|Hfit].
  2: { unfold WriteChunkRecord. change (size_to_end bi) with (size_to_end b). destruct (Z.leb_spec (rc_size r) (size_to_end b)); [lia|]. cbn. lia. }
  rewrite (WriteChunkRecord_spec bi (tiles_bytes a) (tile_bytes t) (tiles_bytes c ++ zeros k));
    [|done|apply (la_size _ _ _ _ _ L)|rewrite (tile_size_rc t Ht); lia|split; [lia|exact Hfit]|split; [done|lia]].
  cbn [obind]. right. right. change (written_payload (Some src) (rc_size r) (tile_bytes t)) with (written_payload (Some src) (rc_size r) []).
  set (t' := (r, written_payload _ _ _)). cbv zeta.
  assert (Hok' : tile_ok t') by (apply chunk_tile_ok; (done || lia)).
  destruct Hd as (Hd1 & Hd2 & Hd3). split; [|split; [done|split; [done|split; [done|lia]]]].
  exists k. split; [|exact Hin].
  eapply (laid_set_chunk b _ newer older k _ m m' t' a t c L Hm Hall Hc Hk Ho Hu); [done|exact Ekey|done| | |done|done|done|done|done].
  - rewrite (tile_size_rc _ Hok'), (tile_size_rc _ Ht). cbn [fst t']. lia.
  - split; [exact Hmo|]. split; [unfold m', set_complete; by destruct complete|]. unfold m', set_complete. by destruct complete.
Qed.

(** ** Patches *)

(** A patch sequence on a payload: it stops at the first patch out of bounds. *)
Fixpoint patch_payload (patches : list Patch) (p : list Z) : bool * list Z :=
  match patches with
  | [] => (true, p)
  | (off, bytes) :: patches => if zlen p - Patch_kSize <? off then (false, p) else patch_payload patches (zwrite off bytes p)
  end.
Definition patch_ok (p : Patch) : Prop := 0 <= p.1 /\ zlen p.2 = Patch_kSize /\ bytes_ok p.2.

Lemma patch_payload_keeps patches : forall p, Forall patch_ok patches -> bytes_ok p ->
  zlen (patch_payload patches p).2 = zlen p /\ bytes_ok (patch_payload patches p).2.
Proof.
  induction patches as [|[off bytes] patches IH]; intros p Hp Hb; [done|]. cbn [patch_payload].
  apply Forall_cons in Hp as [(H1 & H2 & H3) Hp]. cbn [fst snd] in *. unfold Patch_kSize in *.
  destruct (Z.ltb_spec (zlen p - 4) off); [done|].
  destruct (IH (zwrite off bytes p) Hp (bytes_ok_zwrite _ _ _ H3 Hb)) as [-> Hb']. split; [|done]. rewrite zlen_zwrite; lia.
Qed.

Lemma ApplyPatches_spec patches : forall b pre r p post, Forall patch_ok patches -> data_ b = pre ++ (record_bytes r ++ p) ++ post ->
  let '(ok, p') := patch_payload patches p in
  exists s, ApplyPatches (zlen pre) (zlen pre + 16 + zlen p) patches b =
    (ok, mkTB (pre ++ (record_bytes r ++ p') ++ post) (size_ b) (max_chunk_size_ b) (wptr_ b) (index_ b) (read_iter_ b)
           (overwrite_policy_ b) (discard_writes_ b) (last_chunk_id_written_ b) s).
Proof.
  induction patches as [|[off bytes] patches IH]; intros b pre r p post Hp Hd; cbn [patch_payload ApplyPatches].
  { exists (stats_ b). rewrite <- Hd. by destruct b. }
  apply Forall_cons in Hp as [(H1 & H2 & H3) Hp]. cbn [fst snd] in *. unfold Patch_kSize, sizeof_ChunkRecord in *.
  destruct (Z.ltb_spec (zlen pre + 16 + off) (zlen pre + 16)); [lia|]. cbn [orb].
  replace (zlen pre + 16 + zlen p - 4 <? zlen pre + 16 + off) with (zlen p - 4 <? off)
    by (destruct (Z.ltb_spec (zlen p - 4) off), (Z.ltb_spec (zlen pre + 16 + zlen p - 4) (zlen pre + 16 + off)); (done || lia)).
  destruct (Z.ltb_spec (zlen p - 4) off).
  { exists (add_stat patches_failed 1 (stats_ b)). unfold stat. by rewrite <- Hd. }
  assert (Hw : zwrite (zlen pre + 16 + off) bytes (data_ b) = pre ++ (record_bytes r ++ zwrite off bytes p) ++ post).
  { rewrite Hd. rewrite zwrite_app_r by lia. f_equal. pose proof (zlen_record_bytes r).
    rewrite zwrite_app_l by (rewrite ?zlen_app; lia). f_equal. rewrite zwrite_app_r by lia. f_equal. f_equal. lia. }
  specialize (IH (set_data (zwrite (zlen pre + 16 + off) bytes (data_ b)) b) pre r (zwrite off bytes p) post Hp Hw).
  rewrite zlen_zwrite in IH by lia. exact IH.
Qed.

(** The bit field of a chunk record with new flags. *)
Lemma set_record_flags_spec b pre r p post flags : data_ b = pre ++ (record_bytes r ++ p) ++ post -> rc_is_padding r = false -> 0 <= rc_flags r < 64 ->
  set_record_flags (zlen pre) flags b =
    set_data (pre ++ (record_bytes (mkRecord (rc_chunk_id r) (rc_producer_id r) (rc_writer_id r) (rc_num_fragments r) (rc_size r) (flags .& 63) false) ++ p) ++ post) b.
Proof.
  intros Hd Hpad Hf. unfold set_record_flags. f_equal.
  set (hd := le_bytes 4 (rc_chunk_id r) ++ le_bytes 2 (rc_producer_id r) ++ le_bytes 2 (rc_writer_id r) ++ le_bytes 2 (rc_num_fragments r) ++ le_bytes 2 (rc_size r)).
  assert (Hr : record_bytes r = hd ++ [rc_flags r .& 63] ++ [67; 72; 85]).
  { unfold record_bytes, hd. rewrite Hpad. change (Z.b2z false .<< 6) with 0. rewrite Z.lor_0_r. by rewrite <- !app_assoc. }
  assert (Hh : zlen hd = 12) by (unfold hd; by rewrite !zlen_app, !zlen_le_bytes).
  assert (Hfl : rc_flags r .& 63 = rc_flags r) by (rewrite (land_ones_mod _ 6) by lia; apply Z.mod_small; lia).
  assert (Hz : rc_flags r .& 192 = 0).
  { change 192 with (3 .<< 6). apply Z.bits_inj'. intros i Hi. rewrite Z.land_spec, Z.testbit_0_l. destruct (Z.lt_ge_cases i 6).
    - rewrite Z.shiftl_spec_low by lia. apply andb_false_r.
    - by rewrite (testbit_small 6) by (change (2 ^ 6) with 64; lia). }
  assert (Hdata : data_ b = (pre ++ hd) ++ [rc_flags r .& 63] ++ ([67; 72; 85] ++ p ++ post)).
  { rewrite Hd, Hr. by rewrite <- !app_assoc. }
  assert (Hpos : zlen pre + 12 = zlen (pre ++ hd)) by (rewrite zlen_app; lia).
  assert (Hn : znth (data_ b) (zlen pre + 12) = rc_flags r).
  { rewrite Hdata, Hpos. unfold znth, zlen. rewrite Nat2Z.id, lookup_app_r by lia. rewrite Nat.sub_diag. cbn [app lookup list_lookup default]. exact Hfl. }
  rewrite Hn, Hz, Z.lor_0_l, Hdata, Hpos, zwrite_mid by done.
  assert (Hff : (flags .& 63) .& 63 = flags .& 63) by (rewrite <- Z.land_assoc; done).
  unfold record_bytes. cbn [rc_chunk_id rc_producer_id rc_writer_id rc_num_fragments rc_size rc_flags rc_is_padding].
  rewrite Hff. change (Z.b2z false .<< 6) with 0. rewrite Z.lor_0_r. unfold hd. by rewrite <- !app_assoc.
Qed.

Lemma TryPatch_spec b newer older p w c patches pending : well_laid b newer older -> Forall patch_ok patches ->
  match index_ b !! (p, w, c) with
  | None => exists b', TryPatchChunkContents p w c patches pending b = Ok (false, b') /\ well_laid b' newer older /\ index_ b' = index_ b
  | Some m => exists t, t ∈ chunks (older ++ newer) /\ Key_of t.1 = (p, w, c) /\
      let '(ok, payload) := patch_payload patches t.2 in
      exists r' b', TryPatchChunkContents p w c patches pending b = Ok (ok, b') /\
        well_laid b' (set_chunk (p, w, c) (r', payload) newer) (set_chunk (p, w, c) (r', payload) older) /\
        is_chunk (r', payload) /\
        (if ok && negb pending then
           let flags := cm_flags m .& u8 (Z.lnot kChunkNeedsPatching) in
           r' = mkRecord (rc_chunk_id t.1) (rc_producer_id t.1) (rc_writer_id t.1) (rc_num_fragments t.1) (rc_size t.1) (flags .& 63) false /\
           index_ b' = <[(p, w, c) := set_fragments_flags (num_fragments m) flags m]> (index_ b)
         else r' = t.1 /\ index_ b' = index_ b)
  end.
Proof.
  intros [k [L Hin]] Hpat. destruct (index_ b !! (p, w, c)) as [m|] eqn:Hm.
  2: { unfold TryPatchChunkContents. rewrite Hm. eexists. split; [reflexivity|]. split; [|done]. exists k. split; [|exact Hin].
       eapply laid_ext; [exact L|done|done|done|done|apply (la_discard _ _ _ _ _ L)]. }
  destruct (laid_chunk b newer older k _ m L Hm) as (a & t & d & Hall & Hc & Hk & Ht & Ho & Hd & Hu).
  exists t. split.
  { unfold chunks. apply list_elem_of_filter. split; [done|]. rewrite elem_of_app. assert (Hta : t ∈ newer ++ older).
    { rewrite Hall, elem_of_app, elem_of_cons. by right; left. } rewrite elem_of_app in Hta. tauto. }
  split; [exact Hk|]. pose proof (laid_data_split _ _ _ _ _ _ _ L Hall) as Hdata.
  unfold TryPatchChunkContents. rewrite Hm.
  assert (Hget : GetChunkRecordAt b (chunk_record m) = Ok t.1).
  { rewrite Ho. exact (GetChunkRecordAt_tile b _ t _ Hdata (la_size _ _ _ _ _ L) (to_record _ Ht)). }
  rewrite Hget. cbn [obind].
  assert (Hend : chunk_record m + rc_size t.1 = zlen (tiles_bytes a) + 16 + zlen t.2) by (rewrite Ho, (to_size _ Ht); unfold tiles_size; lia).
  rewrite Hend, Ho. change (tiles_size a) with (zlen (tiles_bytes a)).
  pose proof (ApplyPatches_spec patches b (tiles_bytes a) t.1 t.2 (tiles_bytes d ++ zeros k) Hpat Hdata) as Happ.
  destruct (patch_payload_keeps patches t.2 Hpat (to_bytes _ Ht)) as [Hpl Hpb].
  destruct (patch_payload patches t.2) as [ok payload]. cbn [snd] in Hpl, Hpb. destruct Happ as [s Happ].
  rewrite Happ. set (b1 := mkTB _ _ _ _ _ _ _ _ _ _) in *.
  assert (Hdone : forall r' b' m', rc_is_padding r' = false -> Key_of r' = (p, w, c) -> tile_ok (r', payload) ->
     describes (chunk_record m) (r', payload) m' -> data_ b' = tiles_bytes a ++ tile_bytes (r', payload) ++ tiles_bytes d ++ zeros k ->
     index_ b' = <[(p, w, c) := m']> (index_ b) -> same_ring b b' -> wptr_ b' = wptr_ b -> discard_writes_ b' = discard_writes_ b ->
     well_laid b' (set_chunk (p, w, c) (r', payload) newer) (set_chunk (p, w, c) (r', payload) older)).
  { intros r' b' m' H1 H2 H3 H4 H5 H6 H7 H8 H9. exists k. split; [|destruct H7 as [-> _]; by rewrite H8].
    eapply (laid_set_chunk b b' newer older k _ m m' (r', payload) a t d L Hm Hall Hc Hk Ho Hu); try done.
    unfold tile_bytes. rewrite !zlen_app, !zlen_record_bytes. cbn [snd]. lia. }
  assert (Hok0 : tile_ok (t.1, payload)).
  { destruct Ht as [T1 T2 T3 T4]. split; cbn [fst snd]; try done. lia. }
  assert (Hsame : <[(p, w, c) := m]> (index_ b) = index_ b) by by apply insert_id.
  destruct ok; cbn [negb andb]; [|by exists t.1, b1; split; [done|]; split; [apply (Hdone t.1 b1 m); done || by rewrite Hsame|done]].
  destruct pending; cbn [negb].
  - exists t.1, (stat patches_succeeded (zlen patches) b1). split; [done|]. split; [|done].
    apply (Hdone t.1 _ m); try done; by rewrite Hsame.
  - set (flags := cm_flags m .& _).
    set (r' := mkRecord (rc_chunk_id t.1) (rc_producer_id t.1) (rc_writer_id t.1) (rc_num_fragments t.1) (rc_size t.1) (flags .& 63) false).
    exists r'. set (b2 := set_index _ _).
    assert (Hd2 : data_ b2 = tiles_bytes a ++ (record_bytes t.1 ++ payload) ++ tiles_bytes d ++ zeros k) by done.
    rewrite (set_record_flags_spec b2 (tiles_bytes a) t.1 payload _ flags Hd2 Hc) by apply (to_record _ Ht).
    eexists. split; [reflexivity|]. split; [|split; [done|split; reflexivity]].
    apply (Hdone r' _ (set_fragments_flags (num_fragments m) flags m)); try done.
    + destruct Hok0 as [[R1 R2 R3 R4 R5 R6] T2 T3 T4]. split; cbn [fst snd] in *; try done. split; try done. cbn [r' rc_flags].
      rewrite (land_ones_mod _ 6) by lia. apply Z.mod_pos_bound. lia.
    + destruct Hd as (Hd1 & Hn & _). by split.
Qed.

(** ** Copying a chunk *)

(** The arguments have their C++ types; [src] is what the memcpy reads. *)
Definition copy_args_ok (producer writer chunk_id nf flags : Z) (src : list Z) : Prop :=
  word_ok 16 producer /\ word_ok 16 writer /\ word_ok 32 chunk_id /\ word_ok 16 nf /\ word_ok 8 flags /\ bytes_ok src.
(** The tile a copy stores. *)
Definition copied_tile (producer writer chunk_id nf flags : Z) (complete : bool) (src : list Z) : tile :=
  let rs := chunk_record_size (zlen src) in
  let '(nf, flags) := complete_part nf flags complete in
  (mkRecord chunk_id producer writer nf (u16 rs) (flags .& 63) false, written_payload (Some src) rs []).

Lemma complete_part_ok nf flags complete : word_ok 16 nf -> let '(n, f) := complete_part nf flags complete in word_ok 16 n.
Proof. unfold complete_part, word_ok. intros. destruct (_ && _) eqn:E; [|done]. bool_facts. lia. Qed.

Lemma CopyChunk_spec b newer older p uid pid w c nf flags complete src : well_laid b newer older -> copy_args_ok p w c nf flags src ->
  let t := copied_tile p w c nf flags complete src in
  match CopyChunkUntrusted p uid pid w c nf flags complete src b with
  | Crash => is_Some (index_ b !! ((p, w, c) : Key)) /\ size_to_end b < chunk_record_size (zlen src)
  | Ok b' => exists newer' older', well_laid b' newer' older' /\ same_ring b b' /\
      match index_ b !! ((p, w, c) : Key) with
      | Some m => (newer' = newer /\ older' = older /\ index_ b' = index_ b) \/
          (newer' = set_chunk (p, w, c) t newer /\ older' = set_chunk (p, w, c) t older /\ rc_num_fragments t.1 > num_fragments m /\
           num_fragments_read m <= num_fragments m)
      | None => exists dropped live, chunks (older ++ newer) = dropped ++ live /\
          (overwrite_policy_ b = kDiscard -> Forall (fully_read (index_ b)) (map (fun t => Key_of t.1) dropped)) /\
          ((chunks (older' ++ newer') = live ++ [t] /\ chunk_record_size (zlen src) <= max_chunk_size_ b /\ discard_writes_ b = false /\
            exists m, index_ b' !! ((p, w, c) : Key) = Some m /\ m = ChunkMeta_init (chunk_record m) (rc_num_fragments t.1) complete (complete_part nf flags complete).2 uid pid)
           \/ (chunks (older' ++ newer') = live /\
               (max_chunk_size_ b < chunk_record_size (zlen src) /\ dropped = [] \/ overwrite_policy_ b = kDiscard /\ discard_writes_ b' = true)))
      end
  end.
Proof.
  intros Hw (Hp & Hwr & Hc & Hnf & Hfl & Hsrc). pose proof Hw as [k [L Hin]]. unfold CopyChunkUntrusted, copied_tile. cbv zeta.
  pose proof (zlen_nonneg src). destruct (chunk_record_size_spec (zlen src) ltac:(done)) as [Hrs Hrm].
  pose proof (la_max _ _ _ _ _ L) as Hmx. unfold ChunkRecord_kMaxSize in Hmx.
  destruct (Z.ltb_spec (max_chunk_size_ b) (chunk_record_size (zlen src))) as [Hbig|Hfits].
  { exists newer, older. split; [exists k; split; [|done]; eapply laid_ext; [exact L|done|done|done|done|apply (la_discard _ _ _ _ _ L)]|].
    split; [done|]. destruct (index_ b !! _); [by left|]. exists [], (chunks (older ++ newer)). split; [done|]. split; [by intros _; constructor|].
    right. split; [done|]. left. by split. }
  pose proof (complete_part_ok nf flags complete Hnf) as Hcp. destruct (complete_part nf flags complete) as [n f]. cbn [fst snd].
  rewrite u16_small by lia. set (r := mkRecord c p w n (chunk_record_size (zlen src)) (f .& 63) false).
  assert (Hr : record_ok r).
  { split; try done; cbn [r rc_size rc_flags]; [split; [lia|change (2 ^ 16) with 65536; lia]|].
    rewrite (land_ones_mod _ 6) by lia. apply (Z.mod_pos_bound f 64). lia. }
  change (p, w, c) with (Key_of r). change (chunk_record_size (zlen src)) with (rc_size r) in Hrs, Hrm, Hfits |- *. destruct (index_ b !! Key_of r) as [m|] eqn:Em.
  - pose proof (RewriteChunk_spec b newer older r m src n f complete Hw Em Hr eq_refl eq_refl Hsrc eq_refl eq_refl) as Hrw.
    destruct (RewriteChunk _ _ _ _ _ _ _ _ _) as [b'|]; [|by split].
    destruct Hrw as [->|[->|(Hw' & Hring & _ & _ & Hlt & Hle)]].
    + exists newer, older. split; [done|]. split; [done|]. by left.
    + exists newer, older. split; [exists k; split; [|done]; eapply laid_ext; [exact L|done|done|done|done|apply (la_discard _ _ _ _ _ L)]|].
      split; [done|]. by left.
    + eexists _, _. split; [exact Hw'|]. split; [done|]. right. split; [done|]. split; [done|]. cbn [fst r rc_num_fragments]. lia.
  - assert (Hdis : forall b1, overwrite_policy_ b1 = kDiscard -> forall ne ol, well_laid b1 ne ol -> well_laid (DiscardWrite b1) ne ol).
    { intros b1 Hp1 ne ol (k1 & L1 & Hin1). exists k1. split; [|exact Hin1]. by eapply laid_ext; [exact L1|done|done|done|done|]. }
    destruct (discard_writes_ b) eqn:Ed.
    { pose proof (la_discard _ _ _ _ _ L Ed) as Hpol. exists newer, older. split; [by apply Hdis|]. split; [done|]. 
      exists [], (chunks (older ++ newer)). split; [done|]. split; [by intros _; constructor|]. right. split; [done|]. right. by split. }
    destruct (WrapIfNeeded_spec b newer older (rc_size r) Hw Ed ltac:(lia) Hfits)
      as [[-> Hpol]|(b1 & ne & ol & dropped & -> & Hw1 & Hev & Hroom & Hring & Hd1 & _)]; cbn [obind].
    { exists newer, older. split; [by apply Hdis|]. split; [done|].  exists [], (chunks (older ++ newer)).
      split; [done|]. split; [by intros _; constructor|]. right. split; [done|]. right. by split. }
    destruct Hev as (Hlive & Hidx & Hread).
    assert (Hnone : index_ b1 !! Key_of r = None) by (rewrite Hidx, Em; by case_decide).
    destruct (InsertChunk_spec b1 ne ol r src (fun ptr => ChunkMeta_init ptr n complete f uid pid) Hw1 Hd1 Hr eq_refl Hrm ltac:(lia) Hsrc Hnone
      ltac:(by intros ptr; repeat split)) as [[-> Hpol]|(b' & ne' & ol' & d2 & live & -> & Hw' & Hl1 & Hl2 & Hidx2 & Hread2 & Hring2 & Hd2)].
    + destruct Hring as (R1 & R2 & R3). exists ne, ol. split; [by apply Hdis|]. split; [by split|]. 
      exists dropped, (chunks (ol ++ ne)). split; [exact Hlive|]. split; [exact Hread|]. right. split; [done|]. right. split; [congruence|done].
    + exists ne', ol'. split; [exact Hw'|]. split; [by eapply same_ring_trans|]. 
      exists (dropped ++ d2), live. split; [by rewrite Hlive, Hl1, app_assoc|]. split.
      { intros Hpol. rewrite map_app. apply Forall_app. split; [by apply Hread|].
        destruct Hring as (_ & _ & R3). rewrite R3 in Hread2. eapply Forall_impl; [by apply Hread2|].
        intros k0 (m0 & Hm0 & Hle). exists m0. split; [|done]. rewrite Hidx in Hm0. by case_decide. }
      left. split; [exact Hl2|]. split; [done|]. split; [done|]. eexists. rewrite Hidx2, decide_True by done. split; [reflexivity|]. done.
Qed.

Lemma Create_well_laid size pol : 0 < size -> size `mod` 16 = 0 -> well_laid (Create size pol) [] [].
Proof.
  intros Hs Hm. exists size. split; [|cbn; lia]. split; cbn [Create data_ size_ max_chunk_size_ wptr_ index_ discard_writes_ overwrite_policy_]; try done.
  - by rewrite zlen_zeros by lia.
  - split; [lia|done].
  - constructor.
  - split; [by intros ? ? ?%not_elem_of_nil|by intros k m ?%lookup_empty_Some].
Qed.

(** ** Sequences of operations *)

Inductive write_op : Type :=
| OpCopy (producer uid pid writer chunk_id nf flags : Z) (complete : bool) (src : list Z)
| OpPatch (producer writer chunk_id : Z) (patches : list Patch) (pending : bool).
Definition op_ok (o : write_op) : Prop :=
  match o with
  | OpCopy p _ _ w c nf flags _ src => copy_args_ok p w c nf flags src
  | OpPatch _ _ _ patches _ => Forall patch_ok patches
  end.
Definition apply_op (o : write_op) (b : TraceBuffer) : outcome TraceBuffer :=
  match o with
  | OpCopy p uid pid w c nf flags complete src => CopyChunkUntrusted p uid pid w c nf flags complete src b
  | OpPatch p w c patches pending => let! (_, b) := TryPatchChunkContents p w c patches pending b in Ok b
  end.
Definition apply_ops (ops : list write_op) (b : TraceBuffer) : outcome TraceBuffer :=
  fold_left (fun acc o => let! b := acc in apply_op o b) ops (Ok b).

(** The one operation that may abort: the rewrite of a stored chunk larger than what
    is left after the write pointer. *)
Definition rewrite_overflow (o : write_op) (b : TraceBuffer) : Prop :=
  match o with
  | OpCopy p _ _ w c _ _ _ src => is_Some (index_ b !! ((p, w, c) : Key)) /\ size_to_end b < chunk_record_size (zlen src)
  | OpPatch _ _ _ _ _ => False
  end.

Lemma apply_op_spec o b newer older : well_laid b newer older -> op_ok o ->
  match apply_op o b with Ok b' => exists newer' older', well_laid b' newer' older' /\ same_ring b b' | Crash => rewrite_overflow o b end.
Proof.
  intros Hw Ho. destruct o as [p uid pid w c nf flags complete src|p w c patches pending]; cbn [apply_op op_ok rewrite_overflow] in *.
  - pose proof (CopyChunk_spec b newer older p uid pid w c nf flags complete src Hw Ho) as H. cbv zeta in H.
    destruct (CopyChunkUntrusted _ _ _ _ _ _ _ _ _ _); [|exact H]. destruct H as (ne & ol & H1 & H2 & _). by exists ne, ol.
  - pose proof (TryPatch_spec b newer older p w c patches pending Hw Ho) as H.
    assert (Hring : forall r, TryPatchChunkContents p w c patches pending b = Ok r -> same_ring b r.2).
    { intros r. unfold TryPatchChunkContents. destruct (index_ b !! _); [|by intros [= <-]]. destruct (GetChunkRecordAt _ _) as [rec|]; [|done]. cbn [obind].
      assert (Hap : forall cb ce ps b0, same_ring b0 (ApplyPatches cb ce ps b0).2).
      { intros cb ce ps. induction ps as [|[off bytes] ps IH]; intros b0; [done|]. cbn [ApplyPatches]. destruct (_ || _); [done|].
        eapply same_ring_trans; [|apply IH]. done. }
      pose proof (Hap (chunk_record c0) (chunk_record c0 + rc_size rec) patches b) as Hr. destruct (ApplyPatches _ _ _ _) as [[|] b1]; [|by intros [= <-]].
      destruct pending; cbn [negb]; by intros [= <-]. }
    destruct (index_ b !! _) as [m|].
    + destruct H as (t & _ & _ & H). destruct (patch_payload patches t.2) as [ok payload]. destruct H as (r' & b' & Hb & Hw' & _).
      rewrite Hb. cbn [obind]. eexists _, _. split; [exact Hw'|]. apply (Hring _ Hb).
    + destruct H as (b' & Hb & Hw' & _). rewrite Hb. cbn [obind]. eexists _, _. split; [exact Hw'|]. apply (Hring _ Hb).
Qed.

Lemma apply_ops_spec ops : forall b newer older, well_laid b newer older -> Forall op_ok ops ->
  match apply_ops ops b with
  | Ok b' => exists newer' older', well_laid b' newer' older' /\ same_ring b b'
  | Crash => exists pre o post b', ops = pre ++ o :: post /\ apply_ops pre b = Ok b' /\ rewrite_overflow o b'
  end.
Proof.
  induction ops as [|o ops IH]; intros b newer older Hw Hok; [by exists newer, older|]. apply Forall_cons in Hok as [Ho Hok].
  pose proof (apply_op_spec o b newer older Hw Ho) as H1. unfold apply_ops. cbn [fold_left obind].
  destruct (apply_op o b) as [b1|] eqn:E1.
  - destruct H1 as (ne & ol & Hw1 & Hr1). specialize (IH b1 ne ol Hw1 Hok). unfold apply_ops in IH.
    destruct (fold_left _ ops (Ok b1)) as [b2|] eqn:E2.
    + destruct IH as (n2 & o2 & Hw2 & Hr2). exists n2, o2. split; [done|]. by eapply same_ring_trans.
    + destruct IH as (pre & o' & post & b' & -> & Hpre & Hov). exists (o :: pre), o', post, b'. split; [done|]. split; [|done].
      cbn [fold_left obind]. rewrite E1. exact Hpre.
  - assert (Hc : fold_left (fun acc o => let! b := acc in apply_op o b) ops Crash = Crash) by (clear; by induction ops).
    rewrite Hc. exists [], o, ops, b. done.
Qed.

(** The stored chunk an index entry points to, as a reader finds it. *)
Lemma laid_lookup b newer older key m : well_laid b newer older -> index_ b !! key = Some m ->
  exists t, t ∈ chunks (older ++ newer) /\ Key_of t.1 = key /\ tile_ok t /\ GetChunkRecordAt b (chunk_record m) = Ok t.1 /\
    num_fragments m = rc_num_fragments t.1 /\ cm_flags m .& 63 = rc_flags t.1 /\
    0 <= chunk_record m /\ chunk_record m + rc_size t.1 <= size_ b /\ zread (chunk_record m + 16) (zlen t.2) (data_ b) = t.2 /\
    (forall t', t' ∈ chunks (older ++ newer) -> Key_of t'.1 = key -> t' = t).
Proof.
  intros [k [L Hin]] Hm. destruct (laid_chunk b newer older k key m L Hm) as (a & t & c & Hall & Hc & Hk & Ht & Ho & (Hd1 & Hd2 & Hd3) & Hu).
  pose proof (laid_data_split _ _ _ _ _ _ _ L Hall) as Hdata. exists t.
  assert (Hmem : forall t', t' ∈ chunks (older ++ newer) <-> is_chunk t' /\ t' ∈ a ++ t :: c).
  { intros t'. unfold chunks. rewrite list_elem_of_filter, <- Hall, !elem_of_app. tauto. }
  split; [apply Hmem; split; [done|rewrite elem_of_app, elem_of_cons; tauto]|]. do 2 (split; [done|]). split.
  { rewrite Ho. exact (GetChunkRecordAt_tile b _ t _ Hdata (la_size _ _ _ _ _ L) (to_record _ Ht)). }
  do 2 (split; [done|]). rewrite Ho. pose proof (tiles_size_nonneg a). split; [done|]. split.
  { rewrite (la_size _ _ _ _ _ L), Hdata, !zlen_app, (tile_size_rc t Ht). unfold tiles_size.
    pose proof (zlen_nonneg (tiles_bytes c)). pose proof (zlen_nonneg (zeros k)). lia. }
  split.
  { rewrite Hdata. unfold tile_bytes, tiles_size. rewrite <- !app_assoc, (app_assoc (tiles_bytes a)).
    replace (zlen (tiles_bytes a) + 16) with (zlen (tiles_bytes a ++ record_bytes t.1)) by (by rewrite zlen_app, zlen_record_bytes).
    apply zread_app_exact. }
  intros t' [Hc' Hin']%Hmem Hk'. rewrite elem_of_app, elem_of_cons in Hin'. destruct Hin' as [Hi|[->|Hi]]; [|done|];
    (destruct (Hu t'); [rewrite elem_of_app; tauto|done|done]).
Qed.

(** ** Properties *)

(** A buffer of 64 bytes filled by two chunks, the second one incomplete. *)
Definition sample_ops : list write_op := [OpCopy 1 0 0 1 0 1 0 true [1; 2; 3]; OpCopy 1 0 0 2 0 2 0 false [4; 5]].
Definition sample_buffer (pol : OverwritePolicy) : TraceBuffer :=
  match apply_ops sample_ops (Create 64 pol) with Ok b => b | Crash => Create 64 pol end.

Ltac typed_args := repeat split; try (apply Z.leb_le; reflexivity); try (apply Z.ltb_lt; reflexivity); repeat constructor; unfold byte_ok; lia.

Lemma sample_ops_ok : Forall op_ok sample_ops.
Proof. constructor; [typed_args|]. constructor; [typed_args|constructor]. Qed.
Lemma sample_ok pol : apply_ops sample_ops (Create 64 pol) = Ok (sample_buffer pol).
Proof.
  unfold sample_buffer. destruct (apply_ops sample_ops (Create 64 pol)) as [b|] eqn:E; [done|].
  assert (H : match apply_ops sample_ops (Create 64 pol) with Ok _ => true | Crash => false end = true) by (destruct pol; vm_compute; reflexivity).
  by rewrite E in H.
Qed.
Lemma sample_laid pol : exists newer older, well_laid (sample_buffer pol) newer older.
Proof.
  pose proof (apply_ops_spec sample_ops _ _ _ (Create_well_laid 64 pol ltac:(lia) eq_refl) sample_ops_ok) as H.
  rewrite sample_ok in H. destruct H as (ne & ol & Hw & _). by exists ne, ol.
Qed.
(** Where the first chunk is. *)
Lemma sample_first : exists m, index_ (sample_buffer kOverwrite) !! ((1, 1, 0) : Key) = Some m /\ chunk_record m = 0.
Proof. eexists. split; vm_compute; reflexivity. Qed.

(** C9. Invariant of the trace buffer: after any sequence of copies and patches with
    arguments of their C++ types, the records tile the memory (see [well_laid]), every
    entry of the index points to an intact record of its key inside the buffer, and the
    process has not aborted, except by the rewrite of a stored chunk that is larger than
    what is left after the write pointer. *)
Theorem trace_buffer_invariant (size : Z) (pol : OverwritePolicy) (ops : list write_op) :
  0 < size -> size `mod` 16 = 0 -> Forall op_ok ops ->
  match apply_ops ops (Create size pol) with
  | Ok b =>
      (exists newer older, well_laid b newer older) /\ size_ b = size /\
      forall key m, index_ b !! key = Some m ->
        exists r, GetChunkRecordAt b (chunk_record m) = Ok r /\ Key_of r = key /\ num_fragments m = rc_num_fragments r /\
          0 <= chunk_record m /\ 16 <= rc_size r /\ chunk_record m + rc_size r <= size
  | Crash => exists pre o post b, ops = pre ++ o :: post /\ apply_ops pre (Create size pol) = Ok b /\ rewrite_overflow o b
  end.
Proof.
  intros Hs Hm Hok. pose proof (apply_ops_spec ops _ _ _ (Create_well_laid size pol Hs Hm) Hok) as H.
  destruct (apply_ops ops (Create size pol)) as [b|]; [|exact H]. destruct H as (ne & ol & Hw & (Hsz & _ & _)).
  split; [by exists ne, ol|]. split; [done|]. intros key m Hlk.
  destruct (laid_lookup b ne ol key m Hw Hlk) as (t & _ & Hk & Ht & Hg & Hn & _ & H0 & Hb & _ & _).
  exists t.1. pose proof (tile_size_max t Ht). rewrite Hsz in Hb. repeat (split; [done || lia|]). exact Hb.
Qed.

Lemma trace_buffer_invariant_witness :
  0 < 64 /\ 64 `mod` 16 = 0 /\ Forall op_ok sample_ops /\
  exists m r, index_ (sample_buffer kOverwrite) !! ((1, 2, 0) : Key) = Some m /\ GetChunkRecordAt (sample_buffer kOverwrite) (chunk_record m) = Ok r /\
    Key_of r = (1, 2, 0).
Proof.
  split; [lia|]. split; [reflexivity|]. split; [exact sample_ops_ok|].
  pose proof (trace_buffer_invariant 64 kOverwrite sample_ops ltac:(lia) eq_refl sample_ops_ok) as H. rewrite sample_ok in H.
  assert (Hm : is_Some (index_ (sample_buffer kOverwrite) !! ((1, 2, 0) : Key))) by (eexists; vm_compute; reflexivity).
  destruct Hm as [m Hm]. destruct H as (_ & _ & H). destruct (H _ m Hm) as (r & Hr & Hk & _). exists m, r. split; [exact Hm|]. split; [exact Hr|exact Hk].
Defined.

(** C10. Storing a chunk, in overwrite mode: a chunk that fits and is not in the buffer yet
    is always stored.  It becomes the newest chunk; only the oldest ones, a prefix of the
    row, make room for it, and every other chunk keeps its record and bytes.  The index
    entry is fresh (nothing read), and its record and payload are read back. *)
Theorem copy_chunk_fifo (b : TraceBuffer) (newer older : list tile) (p uid pid w c nf flags : Z) (complete : bool) (src : list Z) :
  well_laid b newer older -> copy_args_ok p w c nf flags src -> overwrite_policy_ b = kOverwrite ->
  index_ b !! ((p, w, c) : Key) = None -> chunk_record_size (zlen src) <= max_chunk_size_ b ->
  let t := copied_tile p w c nf flags complete src in
  exists b' newer' older' dropped kept m, CopyChunkUntrusted p uid pid w c nf flags complete src b = Ok b' /\
    well_laid b' newer' older' /\ chunks (older ++ newer) = dropped ++ kept /\ chunks (older' ++ newer') = kept ++ [t] /\
    index_ b' !! ((p, w, c) : Key) = Some m /\ num_fragments_read m = 0 /\ cur_fragment_offset m = 0 /\ is_complete m = complete /\
    GetChunkRecordAt b' (chunk_record m) = Ok t.1 /\ zread (chunk_record m + 16) (zlen src) (data_ b') = src.
Proof.
  intros Hw Hargs Hpol Hnone Hfits t. pose proof (CopyChunk_spec b newer older p uid pid w c nf flags complete src Hw Hargs) as H.
  cbv zeta in H. fold t in H. rewrite Hnone in H. destruct (CopyChunkUntrusted _ _ _ _ _ _ _ _ _ _) as [b'|]; [|by destruct H as [[? ?] _]].
  destruct H as (ne & ol & Hw' & _ & dropped & live & Hl & _ & [(Hl' & _ & _ & m & Hm & Hmeta)|(_ & [(? & _)|(? & _)])]); [|lia|congruence].
  exists b', ne, ol, dropped, live, m. do 5 (split; [done|]). rewrite Hmeta. cbn [ChunkMeta_init num_fragments_read cur_fragment_offset].
  do 2 (split; [done|]). split; [by destruct complete|]. cbn [chunk_record].
  destruct (laid_lookup b' ne ol _ m Hw' Hm) as (t0 & _ & Hk & _ & Hg & _ & _ & H0 & _ & Hread & Huniq).
  assert (Ht : t = t0).
  { apply Huniq; [rewrite Hl', elem_of_app, list_elem_of_singleton; by right|]. unfold t, copied_tile. by destruct (complete_part _ _ _). }
  subst t0. split; [done|]. assert (Hp : t.2 = src ++ zeros (chunk_record_size (zlen src) - 16 - zlen src)).
  { unfold t, copied_tile. by destruct (complete_part _ _ _). }
  rewrite Hp in Hread. pose proof (zlen_nonneg src). destruct (chunk_record_size_spec (zlen src) ltac:(done)) as [Hrs _].
  rewrite zlen_app in Hread. apply (f_equal (ztake (zlen src))) in Hread. rewrite ztake_zlen_app in Hread. rewrite <- Hread at 2.
  rewrite zlen_zeros by lia. unfold zread, ztake. rewrite take_take. f_equal. lia.
Qed.

Lemma copy_chunk_fifo_witness :
  exists newer older b' newer' older' dropped kept, well_laid (sample_buffer kOverwrite) newer older /\
    CopyChunkUntrusted 2 0 0 7 5 1 0 true [9; 9; 9; 9] (sample_buffer kOverwrite) = Ok b' /\ well_laid b' newer' older' /\
    chunks (older ++ newer) = dropped ++ kept /\ chunks (older' ++ newer') = kept ++ [copied_tile 2 7 5 1 0 true [9; 9; 9; 9]].
Proof.
  destruct (sample_laid kOverwrite) as (ne & ol & Hw).
  destruct (copy_chunk_fifo (sample_buffer kOverwrite) ne ol 2 0 0 7 5 1 0 true [9; 9; 9; 9] Hw ltac:(typed_args) eq_refl eq_refl ltac:(vm_compute; discriminate))
    as (b' & ne' & ol' & dropped & kept & m & H1 & H2 & H3 & H4 & _).
  exists ne, ol, b', ne', ol', dropped, kept. split; [exact Hw|]. split; [exact H1|]. split; [exact H2|]. split; [exact H3|exact H4].
Defined.

(** After a discarded write a chunk that is new is not stored. *)
Lemma discarded_copy b newer older p uid pid w c nf flags complete src b' : well_laid b newer older -> discard_writes_ b = true -> index_ b !! ((p, w, c) : Key) = None ->
  CopyChunkUntrusted p uid pid w c nf flags complete src b = Ok b' -> well_laid b' newer older.
Proof.
  intros (k & L & Hin) Ed Hnone. pose proof (la_discard _ _ _ _ _ L Ed) as Hpol. unfold CopyChunkUntrusted. destruct (max_chunk_size_ b <? _).
  - intros [= <-]. exists k. split; [|exact Hin]. eapply laid_ext; [exact L|done|done|done|done|apply (la_discard _ _ _ _ _ L)].
  - destruct (complete_part nf flags complete) as [n f]. change (Key_of _) with ((p, w, c) : Key). rewrite Hnone, Ed. intros [= <-]. exists k. split; [|exact Hin]. by eapply laid_ext; [exact L|done|done|done|done|].
Qed.
Lemma set_chunk_keeps k t' ts t : t ∈ ts -> Key_of t.1 <> k -> t ∈ set_chunk k t' ts.
Proof. intros Ht Hk. apply list_elem_of_fmap. exists t. split; [|done]. rewrite decide_False; [done|]. by intros [_ ?]. Qed.

(** C37. Storing a chunk, in discard mode: no chunk that still has unread fragments is
    evicted, whatever is copied. A chunk that is in the buffer and is committed again is
    rewritten in its place, with more fragments, or left as it is, whether or not writes
    are discarded; all other chunks stay. Once a write has been discarded a chunk that is
    not in the buffer is not stored, and the chunks stay exactly as they are. *)
Theorem discard_mode_keeps_unread (b : TraceBuffer) (newer older : list tile) (p uid pid w c nf flags : Z) (complete : bool) (src : list Z)
    (b' : TraceBuffer) :
  well_laid b newer older -> copy_args_ok p w c nf flags src -> overwrite_policy_ b = kDiscard ->
  CopyChunkUntrusted p uid pid w c nf flags complete src b = Ok b' ->
  let key : Key := (p, w, c) in let stored := copied_tile p w c nf flags complete src in
  exists newer' older', well_laid b' newer' older' /\
    (forall t m, t ∈ chunks (older ++ newer) -> index_ b !! Key_of t.1 = Some m -> num_fragments_read m < num_fragments m -> Key_of t.1 <> key ->
       t ∈ chunks (older' ++ newer')) /\
    (forall m, index_ b !! key = Some m ->
       chunks (older' ++ newer') = chunks (older ++ newer) \/
       chunks (older' ++ newer') = set_chunk key stored (chunks (older ++ newer)) /\ num_fragments m < rc_num_fragments stored.1 /\ num_fragments_read m <= num_fragments m) /\
    (discard_writes_ b = true -> index_ b !! key = None -> chunks (older' ++ newer') = chunks (older ++ newer)).
Proof.
  intros Hw Hargs Hpol Hb' key stored. pose proof (CopyChunk_spec b newer older p uid pid w c nf flags complete src Hw Hargs) as H.
  cbv zeta in H. fold key stored in H. rewrite Hb' in H. destruct H as (ne & ol & Hw' & _ & H). destruct (index_ b !! key) as [m|] eqn:Hm.
  - exists ne, ol. split; [exact Hw'|]. destruct H as [(-> & -> & _)|(-> & -> & Hgt & Hle)]; [by split; [|split; [by left|]]|].
    rewrite <- set_chunk_app, chunks_set_chunk by (unfold stored, copied_tile; by destruct (complete_part _ _ _)).
    split; [|split; [|done]]; [intros t m' Ht _ _; by apply set_chunk_keeps|]. intros m' [= <-]. right. split; [done|lia].
  - destruct (discard_writes_ b) eqn:Ed.
    { exists newer, older. split; [by eapply discarded_copy|]. by repeat split. }
    destruct H as (dropped & live & Hl & Hread & Hcases). exists ne, ol. split; [exact Hw'|]. split; [|done].
    specialize (Hread Hpol). intros t m' Hin Hm' Hunread _. rewrite Hl, elem_of_app in Hin. destruct Hin as [Hin|Hin].
    + eapply Forall_forall in Hread as (m0 & Hm0 & Hle); [|apply list_elem_of_fmap; exists t; split; [reflexivity|exact Hin]].
      rewrite Hm' in Hm0. injection Hm0 as <-. lia.
    + destruct Hcases as [(-> & _)|(-> & _)]; [rewrite elem_of_app; by left|done].
Qed.

Lemma discard_mode_keeps_unread_witness :
  exists newer older b' newer' older', well_laid (sample_buffer kDiscard) newer older /\
    CopyChunkUntrusted 2 0 0 7 5 1 0 true [9; 9; 9; 9] (sample_buffer kDiscard) = Ok b' /\ discard_writes_ b' = true /\
    well_laid b' newer' older' /\ forall t, t ∈ chunks (older ++ newer) -> Key_of t.1 = (1, 1, 0) -> t ∈ chunks (older' ++ newer').
Proof.
  destruct (sample_laid kDiscard) as (ne & ol & Hw).
  destruct (CopyChunkUntrusted 2 0 0 7 5 1 0 true [9; 9; 9; 9] (sample_buffer kDiscard)) as [b'|] eqn:Hb.
  2: { assert (H : match CopyChunkUntrusted 2 0 0 7 5 1 0 true [9; 9; 9; 9] (sample_buffer kDiscard) with Ok b => discard_writes_ b | Crash => false end = true)
         by (vm_compute; reflexivity). rewrite Hb in H. discriminate H. }
  assert (Hd : match CopyChunkUntrusted 2 0 0 7 5 1 0 true [9; 9; 9; 9] (sample_buffer kDiscard) with Ok b => discard_writes_ b | Crash => false end = true)
    by (vm_compute; reflexivity).
  rewrite Hb in Hd.
  destruct (discard_mode_keeps_unread (sample_buffer kDiscard) ne ol 2 0 0 7 5 1 0 true [9; 9; 9; 9] b' Hw ltac:(typed_args) eq_refl Hb)
    as (ne' & ol' & Hw' & Hkeep & _).
  exists ne, ol, b', ne', ol'. split; [exact Hw|]. split; [reflexivity|]. split; [exact Hd|]. split; [exact Hw'|].
  intros t Hin Hk. eapply Hkeep; [exact Hin|rewrite Hk; vm_compute; reflexivity|vm_compute; reflexivity|rewrite Hk; discriminate].
Defined.

(** After a discarded write, a chunk that is committed again is still written. *)
Theorem recommit_after_discard :
  (let! b := CopyChunkUntrusted 2 0 0 7 5 1 0 true [9; 9; 9; 9] (sample_buffer kDiscard) in let! b' := CopyChunkUntrusted 1 0 0 2 0 2 0 true [4; 6] b in
   Ok (discard_writes_ b, num_fragments <$> index_ b !! ((1, 2, 0) : Key), num_fragments <$> index_ b' !! ((1, 2, 0) : Key))) = Ok (true, Some 1, Some 2).
Proof. vm_compute. reflexivity. Qed.

(** Recommitting a chunk that is still in the buffer, when it fits after the write
    pointer: the buffer keeps its layout and every other chunk; the chunk itself is left
    as it is, or replaced in its place by a copy with more fragments, and only if the
    reader had not gone past the fragments it had. *)
Theorem recommit_in_place (b : TraceBuffer) (newer older : list tile) (p uid pid w c nf flags : Z) (complete : bool) (src : list Z) (m : ChunkMeta) :
  well_laid b newer older -> copy_args_ok p w c nf flags src -> index_ b !! ((p, w, c) : Key) = Some m ->
  chunk_record_size (zlen src) <= size_to_end b ->
  let t := copied_tile p w c nf flags complete src in
  exists b' newer' older', CopyChunkUntrusted p uid pid w c nf flags complete src b = Ok b' /\ well_laid b' newer' older' /\
    (chunks (older' ++ newer') = chunks (older ++ newer) /\ index_ b' = index_ b \/
     chunks (older' ++ newer') = set_chunk (p, w, c) t (chunks (older ++ newer)) /\
     num_fragments m < rc_num_fragments t.1 /\ num_fragments_read m <= num_fragments m).
Proof.
  intros Hw Hargs Hm Hfit t. pose proof (CopyChunk_spec b newer older p uid pid w c nf flags complete src Hw Hargs) as H.
  cbv zeta in H. fold t in H. rewrite Hm in H. destruct (CopyChunkUntrusted _ _ _ _ _ _ _ _ _ _) as [b'|]; [|lia].
  destruct H as (ne & ol & Hw' & _ & H). exists b', ne, ol. split; [done|]. split; [done|].
  destruct H as [(-> & -> & Hi)|(-> & -> & Hgt & Hle)]; [by left|right]. split; [|lia].
  rewrite <- set_chunk_app. apply chunks_set_chunk. unfold t, copied_tile. by destruct (complete_part _ _ _).
Qed.

Lemma recommit_in_place_witness :
  exists newer older b' newer' older', well_laid (sample_buffer kOverwrite) newer older /\
    CopyChunkUntrusted 1 0 0 2 0 2 0 true [4; 6] (sample_buffer kOverwrite) = Ok b' /\ well_laid b' newer' older' /\
    chunks (older' ++ newer') = set_chunk (1, 2, 0) (copied_tile 1 2 0 2 0 true [4; 6]) (chunks (older ++ newer)).
Proof.
  destruct (sample_laid kOverwrite) as (ne & ol & Hw).
  assert (Hm : exists m, index_ (sample_buffer kOverwrite) !! ((1, 2, 0) : Key) = Some m) by (eexists; vm_compute; reflexivity).
  destruct Hm as [m Hm].
  destruct (recommit_in_place (sample_buffer kOverwrite) ne ol 1 0 0 2 0 2 0 true [4; 6] m Hw ltac:(typed_args) Hm ltac:(vm_compute; discriminate))
    as (b' & ne' & ol' & Hb & Hw' & Hcase).
  exists ne, ol, b', ne', ol'. split; [exact Hw|]. split; [exact Hb|]. split; [exact Hw'|].
  destruct Hcase as [[_ Hi]|[H _]]; [|exact H]. exfalso.
  assert (Hn : match CopyChunkUntrusted 1 0 0 2 0 2 0 true [4; 6] (sample_buffer kOverwrite) with
               | Ok b => num_fragments <$> index_ b !! ((1, 2, 0) : Key) | Crash => None end = Some 2) by (vm_compute; reflexivity).
  rewrite Hb, Hi in Hn. vm_compute in Hn. discriminate.
Defined.

(** Patches: TryPatchChunkContents never aborts; it returns true exactly when the chunk
    is in the buffer and every patch lies inside its payload.  The patches up to the
    first one out of bounds are written, nothing else in the buffer changes but the
    needs-patching flag, cleared when no other patch is pending. *)
Theorem patch_chunk_correct (b : TraceBuffer) (newer older : list tile) (p w c : Z) (patches : list Patch) (pending : bool) :
  well_laid b newer older -> Forall patch_ok patches ->
  exists ok b' newer' older', TryPatchChunkContents p w c patches pending b = Ok (ok, b') /\ well_laid b' newer' older' /\
    match index_ b !! ((p, w, c) : Key) with
    | None => ok = false /\ chunks (older' ++ newer') = chunks (older ++ newer)
    | Some m => exists t r', t ∈ chunks (older ++ newer) /\ Key_of t.1 = (p, w, c) /\ ok = (patch_payload patches t.2).1 /\
        chunks (older' ++ newer') = set_chunk (p, w, c) (r', (patch_payload patches t.2).2) (chunks (older ++ newer)) /\
        (if ok && negb pending then rc_flags r' = (cm_flags m .& u8 (Z.lnot kChunkNeedsPatching)) .& 63 /\ rc_num_fragments r' = rc_num_fragments t.1
         else r' = t.1)
    end.
Proof.
  intros Hw Hp. pose proof (TryPatch_spec b newer older p w c patches pending Hw Hp) as H.
  change (index_ b !! (p, w, c)) with (index_ b !! ((p, w, c) : Key)) in H.
  destruct (index_ b !! ((p, w, c) : Key)) as [m|].
  - destruct H as (t & Hin & Hk & H). destruct (patch_payload patches t.2) as [ok payload] eqn:Epp. destruct H as (r' & b' & Hb & Hw' & Hc & Hr).
    eexists ok, b', _, _. split; [exact Hb|]. split; [exact Hw'|]. exists t, r'. rewrite Epp. do 3 (split; [done|]). split.
    + rewrite <- set_chunk_app. by apply chunks_set_chunk.
    + destruct (ok && negb pending); [|by destruct Hr]. destruct Hr as [-> _]. done.
  - destruct H as (b' & Hb & Hw' & _). by exists false, b', newer, older.
Qed.

Lemma patch_chunk_correct_witness :
  exists newer older b' newer' older' r', well_laid (sample_buffer kOverwrite) newer older /\
    TryPatchChunkContents 1 1 0 [(1, [7; 7; 7; 7])] false (sample_buffer kOverwrite) = Ok (true, b') /\ well_laid b' newer' older' /\
    chunks (older' ++ newer') = set_chunk (1, 1, 0) (r', [1; 7; 7; 7; 7] ++ zeros 11) (chunks (older ++ newer)).
Proof.
  destruct (sample_laid kOverwrite) as (ne & ol & Hw).
  destruct (patch_chunk_correct (sample_buffer kOverwrite) ne ol 1 1 0 [(1, [7; 7; 7; 7])] false Hw) as (ok & b' & ne' & ol' & Hb & Hw' & H).
  { repeat constructor; cbn; lia. }
  destruct sample_first as (m & Em & Hm0). rewrite Em in H.
  destruct H as (t & r' & Hin & Hk & Hok & Hc & _). destruct (laid_lookup _ ne ol _ m Hw Em) as (t0 & _ & _ & Ht0 & Hg & _ & _ & _ & _ & Hread & Huniq).
  pose proof (Huniq t Hin Hk) as Ht. subst t0. rewrite Hm0 in Hg, Hread.
  assert (Hsize : zlen t.2 = 16).
  { pose proof (to_size _ Ht0) as Hs. apply (f_equal (fun r => match r with Ok r => rc_size r | Crash => 0 end)) in Hg. rewrite Hs in Hg.
    vm_compute (match _ with Ok _ => _ | Crash => _ end) in Hg. lia. }
  rewrite Hsize in Hread. assert (Hp : t.2 = [1; 2; 3] ++ zeros 13) by (rewrite <- Hread; vm_compute; reflexivity).
  rewrite Hp in *. exists ne, ol, b', ne', ol', r'. split; [exact Hw|]. split; [rewrite Hb, Hok; reflexivity|]. split; [exact Hw'|]. exact Hc.
Defined.

(** The rewrite of an incomplete chunk can abort the service: PERFETTO_CHECK(record.size
    <= size_to_end()) in WriteChunkRecord measures the room after the write pointer,
    not after the address it writes to.  A 2048-byte chunk scraped with one fragment at
    the start of a 4 KB buffer, another chunk of 1024 bytes after it, and the commit of
    the first one fails the check, although its place in the buffer has the room. *)
Theorem recommit_can_abort :
  exists b m r, apply_ops [OpCopy 1 0 0 1 0 2 0 false (zeros 2032); OpCopy 1 0 0 2 0 1 0 true (zeros 1008)] (Create 4096 kOverwrite) = Ok b /\
    index_ b !! ((1, 1, 0) : Key) = Some m /\ GetChunkRecordAt b (chunk_record m) = Ok r /\ rc_size r = chunk_record_size 2032 /\
    chunk_record m + rc_size r <= size_ b /\
    CopyChunkUntrusted 1 0 0 1 0 2 0 true (zeros 2032) b = Crash.
Proof.
  assert (H : match apply_ops [OpCopy 1 0 0 1 0 2 0 false (zeros 2032); OpCopy 1 0 0 2 0 1 0 true (zeros 1008)] (Create 4096 kOverwrite) with
              | Ok b => match index_ b !! ((1, 1, 0) : Key) with
                        | Some m => match GetChunkRecordAt b (chunk_record m) with
                                    | Ok r => (rc_size r =? chunk_record_size 2032) && (chunk_record m + rc_size r <=? size_ b) &&
                                              match CopyChunkUntrusted 1 0 0 1 0 2 0 true (zeros 2032) b with Ok _ => false | Crash => true end
                                    | Crash => false
                                    end
                        | None => false
                        end
              | Crash => false
              end = true) by (vm_compute; reflexivity).
  destruct (apply_ops _ _) as [b|]; [|done]. destruct (index_ b !! _) as [m|] eqn:Em; [|done]. destruct (GetChunkRecordAt b _) as [r|] eqn:Er; [|done].
  exists b, m, r. bool_facts. destruct (CopyChunkUntrusted _ _ _ _ _ _ _ _ _ _) eqn:Ec; [done|]. by repeat split.
Qed.
