(* ===== verification/TraceBufferRead.v ===== *)
(** * The trace buffer, read side (src/tracing/core/trace_buffer.cc)

    Iteration over the chunks of a sequence in the order of their wrapping ids, the
    fragments of a chunk, the lookahead that stitches a packet spread over several
    chunks, and ReadNextTracePacket.  The lemmas: fragments are read inside their chunk and
    each once; that reads end without failing and give back what was copied is proved in
    TraceBufferSession. *)

From S2P Require Import Prelude ProtoUtils TraceBuffer.

(** ** Iterators of the index.  The index is not changed while it is iterated over, so
    the key an iterator points to identifies it; None is end(). *)

(** The first key of the map greater than [k], std::map::upper_bound(). *)
Definition min_key (a b : option Key) : option Key :=
  match a, b with
  | Some x, Some y => if Key_ltb y x then Some y else Some x
  | Some x, None => Some x
  | None, b => b
  end.
Definition upper_bound (k : Key) (idx : gmap Key ChunkMeta) : iterator :=
  foldr (fun k' best => if Key_ltb k k' then min_key (Some k') best else best) None (map fst (map_to_list idx)).
Definition index_begin (idx : gmap Key ChunkMeta) : iterator :=
  foldr (fun k' best => min_key (Some k') best) None (map fst (map_to_list idx)).
(** ++it, on an iterator that is not end(). *)
Definition iter_succ (it : iterator) (idx : gmap Key ChunkMeta) : iterator :=
  match it with Some k => upper_bound k idx | None => None end.

Definition Key_chunk (k : Key) : Z := k.2.
Definition Key_sequence (k : Key) : Z * Z := k.1.
Definition with_chunk (k : Key) (c : Z) : Key := (k.1, c).

Definition is_valid (it : SequenceIterator) : bool := bool_decide (cur it <> seq_end it).
Definition set_cur (c : iterator) (it : SequenceIterator) : SequenceIterator := mkSeqIter (seq_begin it) (seq_end it) c (wrapping_id it).
Definition MoveToEnd (it : SequenceIterator) : SequenceIterator := set_cur (seq_end it) it.

(** The wrapping id of an iterator at end() is never read (0 here); a sequence with a chunk in
    the index has a last written id, so its default is never taken. *)
Definition GetReadIterForSequence (begin_ : iterator) (b : TraceBuffer) : SequenceIterator :=
  match begin_ with
  | None => mkSeqIter None None None 0
  | Some k =>
      let seq_end := upper_bound (with_chunk k kMaxChunkID) (index_ b) in
      let wrapping_id := default 0 (last_chunk_id_written_ b !! Key_sequence k) in
      let cur := upper_bound (with_chunk k wrapping_id) (index_ b) in
      mkSeqIter begin_ seq_end (if bool_decide (cur = seq_end) then begin_ else cur) wrapping_id
  end.

Definition BeginRead (b : TraceBuffer) : TraceBuffer := set_read_iter (GetReadIterForSequence (index_begin (index_ b)) b) b.

(** Dereferencing end() is a Crash. *)
Definition MoveNext (b : TraceBuffer) (it : SequenceIterator) : outcome SequenceIterator :=
  if bool_decide (cur it = seq_end it) then Ok (MoveToEnd it)
  else
    match cur it with
    | None => Crash
    | Some k =>
        if Key_chunk k =? wrapping_id it then Ok (MoveToEnd it)
        else
          match index_ b !! k with
          | None => Crash
          | Some m =>
              if negb (is_complete m) then Ok (MoveToEnd it)
              else
                let next := iter_succ (cur it) (index_ b) in
                let next := if bool_decide (next = seq_end it) then seq_begin it else next in
                match next with
                | None => Crash
                | Some k' =>
                    if negb (u32 (Key_chunk k + 1) =? Key_chunk k') then Ok (MoveToEnd it)
                    else Ok (set_cur next it)
                end
          end
    end.

(** ** The fragments of a chunk *)

Inductive ReadPacketResult : Type := kSucceeded | kFailedInvalidPacket | kFailedEmptyPacket.
#[export] Instance ReadPacketResult_eq_dec : EqDecision ReadPacketResult.
Proof. solve_decision. Defined.
(** The slices added to a TracePacket so far. *)
Definition TracePacket : Type := list (list Z).
Definition kPacketSizeDropPacket : Z := kMaxMessageLength.

Definition set_meta (k : Key) (m : ChunkMeta) (b : TraceBuffer) : TraceBuffer := set_index (<[k := m]> (index_ b)) b.
Definition set_read_state (n off : Z) (m : ChunkMeta) : ChunkMeta :=
  mkMeta (chunk_record m) (trusted_uid m) (trusted_pid m) (index_flags m) (cm_flags m) (num_fragments m) n off.

(** The chunk is marked as read, whether it was or is beyond repair. *)
Definition count_chunk_read (m : ChunkMeta) (record_size : Z) (b : TraceBuffer) : TraceBuffer :=
  if is_complete m then stat bytes_read record_size (stat chunks_read 1 b) else b.
Definition give_up_chunk (k : Key) (m : ChunkMeta) (record_size : Z) (b : TraceBuffer) : TraceBuffer :=
  let m := set_read_state (num_fragments m) 0 m in
  count_chunk_read m record_size (set_meta k m b).

(** [packet] is None for a null pointer. *)
Definition ReadNextPacketInChunk (k : Key) (packet : option TracePacket) (b : TraceBuffer)
    : outcome (ReadPacketResult * option TracePacket * TraceBuffer) :=
  match index_ b !! k with
  | None => Crash
  | Some chunk_meta =>
      let record_begin := chunk_record chunk_meta in
      let! record := GetChunkRecordAt b record_begin in
      let record_end := record_begin + rc_size record in
      let packets_begin := record_begin + sizeof_ChunkRecord in
      let packet_begin := packets_begin + cur_fragment_offset chunk_meta in
      if (packet_begin <? packets_begin) || (record_end <=? packet_begin) then
        Ok (kFailedInvalidPacket, packet, give_up_chunk k chunk_meta (rc_size record) (stat abi_violations 1 b))
      else
        let header_end := Z.min (packet_begin + kMessageLengthFieldSize) record_end in
        let '(n, packet_size) := ParseVarInt (zread packet_begin (header_end - packet_begin) (data_ b)) in
        let packet_data := packet_begin + n in
        let next_packet := packet_data + packet_size in
        if (next_packet <=? packet_begin) || (record_end <? next_packet) then
          let b := if negb (packet_size =? kPacketSizeDropPacket) then stat abi_violations 1 b else stat trace_writer_packet_loss 1 b in
          Ok (kFailedInvalidPacket, packet, give_up_chunk k chunk_meta (rc_size record) b)
        else
          let m := set_read_state (u16 (num_fragments_read chunk_meta + 1)) (u16 (next_packet - packets_begin)) chunk_meta in
          let b := if (num_fragments_read m =? num_fragments m) && is_complete m
                   then stat bytes_read (rc_size record) (stat chunks_read 1 b) else b in
          let b := set_meta k (set_last_read_packet_skipped false m) b in
          if packet_size =? 0 then Ok (kFailedEmptyPacket, packet, b)
          else Ok (kSucceeded, (fun p => p ++ [zread packet_data packet_size (data_ b)]) <$> packet, b)
  end.

(** ** Lookahead *)

Inductive ReadAheadResult : Type := kSucceededReturnSlices | kFailedMoveToNextSequence | kFailedStayOnSameSequence.

(** The chunk an iterator points to. *)
Definition deref (b : TraceBuffer) (it : SequenceIterator) : outcome (Key * ChunkMeta) :=
  match cur it with
  | Some k => match index_ b !! k with Some m => Ok (k, m) | None => Crash end
  | None => Crash
  end.
Definition has_flag (f : Z) (m : ChunkMeta) : bool := negb (cm_flags m .& f =? 0).

(** The for(;;) that marks as read the fragments up to the chunk [last].  The fuel of
    this and the next loops bounds the number of chunks visited; running out of it is a
    Crash, which read_next_packet_correct excludes. *)
Fixpoint CommitFragments (fuel : nat) (last : iterator) (corrupted : bool) (packet : option TracePacket) (b : TraceBuffer)
    : outcome (bool * option TracePacket * TraceBuffer) :=
  match fuel with
  | O => Crash
  | S fuel =>
      let! (k, m) := deref b (read_iter_ b) in
      let! (corrupted, packet, b) :=
        (if 0 <? num_fragments m then
           let! (res, packet, b) := ReadNextPacketInChunk k packet b in
           Ok (corrupted || bool_decide (res = kFailedInvalidPacket), packet, b)
         else Ok (corrupted, packet, b)) in
      if bool_decide (cur (read_iter_ b) = last) then Ok (corrupted, packet, b)
      else
        let! it := MoveNext b (read_iter_ b) in
        CommitFragments fuel last corrupted packet (set_read_iter it b)
  end.

(** The for loop, after it.MoveNext(). *)
Fixpoint ReadAhead_loop (fuel fuel0 : nat) (it : SequenceIterator) (next_chunk_id : Z) (packet : option TracePacket) (b : TraceBuffer)
    : outcome (ReadAheadResult * option TracePacket * TraceBuffer) :=
  match fuel with
  | O => Crash
  | S fuel =>
      if negb (is_valid it) then Ok (kFailedMoveToNextSequence, packet, b)
      else
        let! (k, m) := deref b it in
        let continue := let! it := MoveNext b it in ReadAhead_loop fuel fuel0 it (u32 (next_chunk_id + 1)) packet b in
        if num_fragments m =? 0 then continue
        else if negb (Key_chunk k =? next_chunk_id) || negb (has_flag kFirstPacketContinuesFromPrevChunk m) then
          Ok (kFailedMoveToNextSequence, packet, b)
        else if has_flag kChunkNeedsPatching m then Ok (kFailedMoveToNextSequence, packet, b)
        else if (num_fragments m =? 1) && has_flag kLastPacketContinuesOnNextChunk m then continue
        else
          let! (corrupted, packet, b) := CommitFragments fuel0 (cur it) false packet b in
          if corrupted then Ok (kFailedStayOnSameSequence, Some [], b)
          else Ok (kSucceededReturnSlices, packet, b)
  end.
Definition ReadAhead (fuel : nat) (packet : option TracePacket) (b : TraceBuffer)
    : outcome (ReadAheadResult * option TracePacket * TraceBuffer) :=
  let! (k, _) := deref b (read_iter_ b) in
  let! it := MoveNext b (read_iter_ b) in
  ReadAhead_loop fuel fuel it (u32 (Key_chunk k + 1)) packet b.

(** ** ReadNextTracePacket *)

(** producer, uid, pid, writer. *)
Definition PacketSequenceProperties : Type := Z * Z * Z * Z.
Definition sequence_properties (k : Key) (m : ChunkMeta) : PacketSequenceProperties :=
  let '(p, w, _) := k in (p, trusted_uid m, trusted_pid m, w).

Inductive action : Type := kSkip | kReadOnePacket | kTryReadAhead.
Definition choose_action (m : ChunkMeta) : action :=
  if num_fragments_read m =? 0 then
    if has_flag kFirstPacketContinuesFromPrevChunk m then kSkip
    else if (num_fragments m =? 1) && has_flag kLastPacketContinuesOnNextChunk m then kTryReadAhead
    else kReadOnePacket
  else if (num_fragments_read m <? num_fragments m - 1) || negb (has_flag kLastPacketContinuesOnNextChunk m) then kReadOnePacket
  else kTryReadAhead.

Definition mark_skipped (k : Key) (b : TraceBuffer) : TraceBuffer :=
  match index_ b !! k with Some m => set_meta k (set_last_read_packet_skipped true m) b | None => b end.

(** The while loop over the fragments of the current chunk: a packet with the
    properties of its sequence, or the end of the loop with previous_packet_dropped. *)
Inductive inner_result : Type :=
| InnerReturn (packet : TracePacket) (props : PacketSequenceProperties) (previous_dropped : bool) (b : TraceBuffer)
| InnerBreak (packet : TracePacket) (previous_dropped : bool) (b : TraceBuffer).

Fixpoint ReadFragments (fuel fuel0 : nat) (props : PacketSequenceProperties) (packet : TracePacket) (dropped : bool) (b : TraceBuffer) : outcome inner_result :=
  match fuel with
  | O => Crash
  | S fuel =>
      let! (k, chunk_meta) := deref b (read_iter_ b) in
      if num_fragments_read chunk_meta <? num_fragments chunk_meta then
        match choose_action chunk_meta with
        | kSkip =>
            let! (_, _, b) := ReadNextPacketInChunk k None b in
            ReadFragments fuel fuel0 props packet true (mark_skipped k b)
        | kReadOnePacket =>
            let! (result, packet', b) := ReadNextPacketInChunk k (Some packet) b in
            let packet := default [] packet' in
            match result with
            | kSucceeded => Ok (InnerReturn packet props dropped b)
            | kFailedEmptyPacket => ReadFragments fuel fuel0 props packet dropped b
            | kFailedInvalidPacket => Ok (InnerBreak packet true (mark_skipped k b))
            end
        | kTryReadAhead =>
            let! (ra_res, packet', b) := ReadAhead fuel0 (Some packet) b in
            let packet := default [] packet' in
            match ra_res with
            | kSucceededReturnSlices => Ok (InnerReturn packet props dropped (stat readaheads_succeeded 1 b))
            | kFailedMoveToNextSequence =>
                let b := stat readaheads_failed 1 b in
                Ok (InnerBreak packet dropped (set_read_iter (MoveToEnd (read_iter_ b)) b))
            | kFailedStayOnSameSequence =>
                let! (k, _) := deref b (read_iter_ b) in
                ReadFragments fuel fuel0 props packet true (mark_skipped k b)
            end
        end
      else Ok (InnerBreak packet dropped b)
  end.

(** The for(;;) over the chunks.  None: no packet is left.  A packet left over by an
    attempt that failed keeps the slices it got. *)
Fixpoint ReadChunks (fuel fuel0 : nat) (packet : TracePacket) (dropped : bool) (b : TraceBuffer)
    : outcome (option (TracePacket * PacketSequenceProperties * bool) * TraceBuffer) :=
  match fuel with
  | O => Crash
  | S fuel =>
      let valid := is_valid (read_iter_ b) in
      if negb valid && bool_decide (seq_end (read_iter_ b) = None) then Ok (None, b)
      else
        let '(b, dropped) :=
          if valid then (b, dropped) else (set_read_iter (GetReadIterForSequence (seq_end (read_iter_ b)) b) b, true) in
        let next dropped packet b := let! it := MoveNext b (read_iter_ b) in ReadChunks fuel fuel0 packet dropped (set_read_iter it b) in
        let! (k, chunk_meta) := deref b (read_iter_ b) in
        if has_flag kChunkNeedsPatching chunk_meta then
          next dropped packet (set_read_iter (MoveToEnd (read_iter_ b)) b)
        else
          let dropped := if 0 <? num_fragments_read chunk_meta then last_read_packet_skipped chunk_meta else dropped in
          let! r := ReadFragments fuel0 fuel0 (sequence_properties k chunk_meta) packet dropped b in
          match r with
          | InnerReturn packet props dropped b => Ok (Some (packet, props, dropped), b)
          | InnerBreak packet dropped b => next dropped packet b
          end
  end.
Definition ReadNextTracePacket (fuel : nat) (b : TraceBuffer) : outcome (option (TracePacket * PacketSequenceProperties * bool) * TraceBuffer) :=
  ReadChunks fuel fuel [] true b.

(** Reading until nothing is left. *)
Fixpoint ReadAll (n fuel : nat) (b : TraceBuffer) : outcome (list (TracePacket * PacketSequenceProperties * bool) * TraceBuffer) :=
  match n with
  | O => Ok ([], b)
  | S n =>
      let! (r, b) := ReadNextTracePacket fuel b in
      match r with
      | None => Ok ([], b)
      | Some p => let! (ps, b) := ReadAll n fuel b in Ok (p :: ps, b)
      end
  end.

(** ** The order of the keys and the iterators of the index *)

Lemma Key_ltb_spec p w c p' w' c' : Key_ltb (p, w, c) (p', w', c') = true <-> p < p' \/ p = p' /\ (w < w' \/ w = w' /\ c < c').
Proof.
  unfold Key_ltb. rewrite orb_true_iff, andb_true_iff, orb_true_iff, andb_true_iff, !Z.ltb_lt, !Z.eqb_eq. tauto.
Qed.
Lemma Key_ltb_irrefl k : Key_ltb k k = false.
Proof. destruct k as [[p w] c]. apply not_true_iff_false. rewrite Key_ltb_spec. lia. Qed.
Lemma Key_ltb_trans k1 k2 k3 : Key_ltb k1 k2 = true -> Key_ltb k2 k3 = true -> Key_ltb k1 k3 = true.
Proof. destruct k1 as [[? ?] ?], k2 as [[? ?] ?], k3 as [[? ?] ?]. rewrite !Key_ltb_spec. lia. Qed.
Lemma Key_leb_trans k1 k2 k3 : Key_ltb k2 k1 = false -> Key_ltb k3 k2 = false -> Key_ltb k3 k1 = false.
Proof. destruct k1 as [[? ?] ?], k2 as [[? ?] ?], k3 as [[? ?] ?]. rewrite <- !not_true_iff_false, !Key_ltb_spec. lia. Qed.
Lemma Key_ltb_asym k1 k2 : Key_ltb k1 k2 = true -> Key_ltb k2 k1 = false.
Proof. destruct k1 as [[? ?] ?], k2 as [[? ?] ?]. rewrite <- not_true_iff_false, !Key_ltb_spec. lia. Qed.
Lemma Key_ltb_total k1 k2 : Key_ltb k1 k2 = false -> Key_ltb k2 k1 = false -> k1 = k2.
Proof.
  destruct k1 as [[p w] c], k2 as [[p' w'] c']. rewrite <- !not_true_iff_false, !Key_ltb_spec. intros.
  assert (p = p') as -> by lia. assert (w = w') as -> by lia. assert (c = c') as -> by lia. done.
Qed.
Lemma Key_ltb_sequence k1 k2 : Key_sequence k1 = Key_sequence k2 -> Key_ltb k1 k2 = (Key_chunk k1 <? Key_chunk k2).
Proof.
  destruct k1 as [[p w] c], k2 as [[p' w'] c']. cbn. intros [= -> ->]. by rewrite !Z.ltb_irrefl, !Z.eqb_refl.
Qed.
Lemma Key_eq k1 k2 : Key_sequence k1 = Key_sequence k2 -> Key_chunk k1 = Key_chunk k2 -> k1 = k2.
Proof. destruct k1, k2. cbn. congruence. Qed.

(** [r] is the first key of the index that satisfies [P]. *)
Definition least (P : Key -> bool) (idx : gmap Key ChunkMeta) (r : iterator) : Prop :=
  match r with
  | Some k => is_Some (idx !! k) /\ P k = true /\ forall k', is_Some (idx !! k') -> P k' = true -> Key_ltb k' k = false
  | None => forall k', is_Some (idx !! k') -> P k' = false
  end.
Lemma least_unique P idx1 idx2 r1 r2 : (forall k, is_Some (idx1 !! k) <-> is_Some (idx2 !! k)) -> least P idx1 r1 -> least P idx2 r2 -> r1 = r2.
Proof.
  intros Hdom. destruct r1 as [k1|], r2 as [k2|]; cbn [least]; [|intros (H1 & H2 & _) H|intros H (H1 & H2 & _)|done].
  - intros (D1 & P1 & M1) (D2 & P2 & M2). f_equal. apply Key_ltb_total; [apply M2; [by apply Hdom|done]|apply M1; [by apply Hdom|done]].
  - rewrite (H k1) in H2; [done|]. by apply Hdom.
  - rewrite (H k2) in H2; [done|]. by apply Hdom.
Qed.
Lemma fold_least (P : Key -> bool) l :
  match foldr (fun k' best => if P k' then min_key (Some k') best else best) None l with
  | Some k => k ∈ l /\ P k = true /\ forall k', k' ∈ l -> P k' = true -> Key_ltb k' k = false
  | None => forall k', k' ∈ l -> P k' = false
  end.
Proof.
  induction l as [|k l IH]; [by intros k' ?%not_elem_of_nil|]. cbn [foldr].
  destruct (foldr _ None l) as [y|].
  - destruct IH as (I1 & I2 & I3). destruct (P k) eqn:Ek; cbn [min_key].
    + destruct (Key_ltb y k) eqn:Ey.
      * split; [by right|]. split; [done|]. intros k' [->|Hk']%elem_of_cons Hp; [by apply Key_ltb_asym|by apply I3].
      * split; [by left|]. split; [done|]. intros k' [->|Hk']%elem_of_cons Hp; [apply Key_ltb_irrefl|].
        apply (Key_leb_trans k y k'); [done|by apply I3].
    + split; [by right|]. split; [done|]. intros k' [->|Hk']%elem_of_cons Hp; [congruence|by apply I3].
  - destruct (P k) eqn:Ek; cbn [min_key].
    + split; [by left|]. split; [done|]. intros k' [->|Hk']%elem_of_cons Hp; [apply Key_ltb_irrefl|]. by rewrite IH in Hp.
    + intros k' [->|Hk']%elem_of_cons; [done|by apply IH].
Qed.
Lemma elem_of_index (idx : gmap Key ChunkMeta) k : k ∈ map fst (map_to_list idx) <-> is_Some (idx !! k).
Proof.
  rewrite list_elem_of_fmap. split.
  - intros ([k' m] & -> & H%elem_of_map_to_list). by exists m.
  - intros [m Hm]. exists (k, m). by rewrite elem_of_map_to_list.
Qed.
Lemma upper_bound_least k idx : least (Key_ltb k) idx (upper_bound k idx).
Proof.
  pose proof (fold_least (Key_ltb k) (map fst (map_to_list idx))) as H. unfold upper_bound, least.
  destruct (foldr _ None _); [destruct H as (H1 & H2 & H3)|].
  - rewrite elem_of_index in H1. split; [done|]. split; [done|]. intros k' Hk'. apply H3. by rewrite elem_of_index.
  - intros k' Hk'. apply (H k'). by rewrite elem_of_index.
Qed.
Lemma index_begin_least idx : least (fun _ => true) idx (index_begin idx).
Proof.
  pose proof (fold_least (fun _ => true) (map fst (map_to_list idx))) as H. unfold index_begin, least.
  destruct (foldr _ None _); [destruct H as (H1 & H2 & H3)|].
  - rewrite elem_of_index in H1. split; [done|]. split; [done|]. intros k' Hk'. apply H3. by rewrite elem_of_index.
  - intros k' Hk'. apply (H k'). by rewrite elem_of_index.
Qed.

(** ** What a read changes: the cursors of the chunks, the statistics and the iterator *)

Create HintDb reads.
Definition same_chunk (m m' : ChunkMeta) : Prop :=
  chunk_record m' = chunk_record m /\ trusted_uid m' = trusted_uid m /\ trusted_pid m' = trusted_pid m /\ cm_flags m' = cm_flags m /\
  num_fragments m' = num_fragments m /\ is_complete m' = is_complete m.
Record reads (b b' : TraceBuffer) : Prop := {
  rd_data : data_ b' = data_ b;
  rd_ring : same_ring b b';
  rd_wptr : wptr_ b' = wptr_ b;
  rd_discard : discard_writes_ b' = discard_writes_ b;
  rd_last : last_chunk_id_written_ b' = last_chunk_id_written_ b;
  rd_index : forall k, match index_ b !! k, index_ b' !! k with
                       | Some m, Some m' => same_chunk m m' | None, None => True | _, _ => False end
}.

Lemma same_chunk_refl m : same_chunk m m. Proof. by repeat split. Qed.
Lemma same_chunk_trans m1 m2 m3 : same_chunk m1 m2 -> same_chunk m2 m3 -> same_chunk m1 m3.
Proof. intros (?&?&?&?&?&?) (?&?&?&?&?&?). repeat split; congruence. Qed.
Lemma reads_index_eq b b' : data_ b' = data_ b -> same_ring b b' -> wptr_ b' = wptr_ b -> discard_writes_ b' = discard_writes_ b ->
  last_chunk_id_written_ b' = last_chunk_id_written_ b -> index_ b' = index_ b -> reads b b'.
Proof. intros ? ? ? ? ? Hi. split; [done..|]. intros k. rewrite Hi. destruct (index_ b !! k); [apply same_chunk_refl|done]. Qed.
Lemma reads_refl b : reads b b. Proof. by apply reads_index_eq. Qed.
Lemma reads_trans b1 b2 b3 : reads b1 b2 -> reads b2 b3 -> reads b1 b3.
Proof.
  intros [? ? ? ? ? H1] [? ? ? ? ? H2]. split; try congruence; [by eapply same_ring_trans|]. intros k. specialize (H1 k). specialize (H2 k).
  destruct (index_ b1 !! k), (index_ b2 !! k), (index_ b3 !! k); try done. by eapply same_chunk_trans.
Qed.
Lemma reads_stat c n b : reads b (stat c n b). Proof. by apply reads_index_eq. Qed.
Lemma reads_set_read_iter it b : reads b (set_read_iter it b). Proof. by apply reads_index_eq. Qed.
Lemma reads_set_meta k m m' b : index_ b !! k = Some m -> same_chunk m m' -> reads b (set_meta k m' b).
Proof.
  intros Hm Hs. split; try done. intros k'. cbn [set_meta set_index index_]. destruct (decide (k' = k)) as [->|Hne].
  - by rewrite Hm, lookup_insert_eq.
  - rewrite lookup_insert_ne by done. destruct (index_ b !! k'); [apply same_chunk_refl|done].
Qed.
#[export] Hint Resolve reads_refl reads_stat reads_set_read_iter same_chunk_refl : reads.

Lemma reads_lookup b b' k m : reads b b' -> index_ b !! k = Some m -> exists m', index_ b' !! k = Some m' /\ same_chunk m m'.
Proof. intros R Hm. pose proof (rd_index _ _ R k) as H. rewrite Hm in H. destruct (index_ b' !! k); [by eauto|done]. Qed.
Lemma reads_lookup_back b b' k m' : reads b b' -> index_ b' !! k = Some m' -> exists m, index_ b !! k = Some m /\ same_chunk m m'.
Proof. intros R Hm. pose proof (rd_index _ _ R k) as H. rewrite Hm in H. destruct (index_ b !! k); [by eauto|done]. Qed.
Lemma reads_dom b b' k : reads b b' -> is_Some (index_ b !! k) <-> is_Some (index_ b' !! k).
Proof. intros R. pose proof (rd_index _ _ R k) as H. destruct (index_ b !! k), (index_ b' !! k); try done; split; intros [? ?]; eauto; done. Qed.

Lemma reads_well_laid b b' newer older : reads b b' -> well_laid b newer older -> well_laid b' newer older.
Proof.
  intros R (k & L & Hin). pose proof (rd_ring _ _ R) as (R1 & R2 & R3). exists k. split; [|rewrite (rd_wptr _ _ R), R1; exact Hin].
  destruct L. split; rewrite ?R1, ?R2, ?R3, ?(rd_data _ _ R), ?(rd_wptr _ _ R), ?(rd_discard _ _ R); try done.
  destruct la_index as [I1 I2]. split.
  - intros off t Hp Hc. destruct (I1 off t Hp Hc) as (m & Hm & (D1 & D2 & D3)). destruct (reads_lookup _ _ _ _ R Hm) as (m' & Hm' & (S1 & _ & _ & S4 & S5 & _)).
    exists m'. split; [exact Hm'|]. repeat split; congruence.
  - intros key m' Hm'. destruct (reads_lookup_back _ _ _ _ R Hm') as (m & Hm & (S1 & _)). destruct (I2 key m Hm) as (t & Hp & Ht). exists t. by rewrite S1.
Qed.

Lemma is_complete_skipped s m : is_complete (set_last_read_packet_skipped s m) = is_complete m.
Proof.
  unfold is_complete, set_last_read_packet_skipped. cbn [set_index_flags index_flags].
  replace ((if s then index_flags m .| kLastReadPacketSkipped else index_flags m .& u8 (Z.lnot kLastReadPacketSkipped)) .& kComplete)
    with (index_flags m .& kComplete); [done|].
  change kComplete with (2 ^ 0). rewrite !land_pow2_bit by lia. destruct s; [rewrite Z.lor_spec|rewrite Z.land_spec];
    [change (Z.testbit kLastReadPacketSkipped 0) with false; by rewrite orb_false_r|
     change (Z.testbit (u8 (Z.lnot kLastReadPacketSkipped)) 0) with true; by rewrite andb_true_r].
Qed.
Lemma same_chunk_skipped s m m' : same_chunk m m' -> same_chunk m (set_last_read_packet_skipped s m').
Proof. intros (?&?&?&?&?&?). repeat split; try done. by rewrite is_complete_skipped. Qed.
Lemma same_chunk_read_state n off m : same_chunk m (set_read_state n off m).
Proof. by repeat split. Qed.
#[export] Hint Resolve same_chunk_skipped same_chunk_read_state : reads.

(** ** The fragments of a payload *)

(** The fragment whose header is at [off]: its body and the offset after it. *)
Definition next_fragment (payload : list Z) (off : Z) : option (list Z * Z) :=
  if (off <? 0) || (zlen payload <=? off) then None
  else
    let '(n, size) := ParseVarInt (zread off (Z.min kMessageLengthFieldSize (zlen payload - off)) payload) in
    if (n + size <=? 0) || (zlen payload <? off + n + size) then None
    else Some (zread (off + n) size payload, off + n + size).

Lemma next_fragment_bounds payload off body off' : bytes_ok payload -> next_fragment payload off = Some (body, off') ->
  0 <= off < off' /\ off' <= zlen payload /\ exists n, 0 <= n <= 4 /\ body = zread (off + n) (zlen body) payload /\ off' = off + n + zlen body.
Proof.
  unfold next_fragment. intros Hb. destruct (_ || _) eqn:E1; [done|]. bool_facts. 
  set (h := zread off _ payload). assert (Hh : bytes_ok h) by (by apply bytes_ok_zread).
  assert (Hlen : zlen h = Z.min kMessageLengthFieldSize (zlen payload - off)) by (unfold h; apply zlen_zread; unfold kMessageLengthFieldSize; lia).
  pose proof (ParseVarInt_bound h Hh) as Hn. pose proof (ParseVarInt_word h Hh) as Hs. destruct (ParseVarInt h) as [n size]. cbn [fst snd] in *.
  unfold kMessageLengthFieldSize, word_ok in *. destruct (_ || _) eqn:E2; [done|]. bool_facts. intros [= <- <-].
  rewrite zlen_zread by lia. split; [lia|]. split; [lia|]. exists n. split; [lia|]. done.
Qed.

(** The invariant of the chunks: the ring is laid out, the cursors are 16-bit numbers,
    and the last chunk id of every stored sequence is known. *)
Definition cursor_ok (m : ChunkMeta) : Prop := word_ok 16 (num_fragments_read m) /\ word_ok 16 (cur_fragment_offset m).
Record stored (b : TraceBuffer) (newer older : list tile) : Prop := {
  st_laid : well_laid b newer older;
  st_cursors : forall k m, index_ b !! k = Some m -> cursor_ok m;
  st_last : forall k, is_Some (index_ b !! k) -> exists c, last_chunk_id_written_ b !! Key_sequence k = Some c /\ word_ok 32 c
}.
(** The payload of a stored chunk. *)
Definition payload_of (b : TraceBuffer) (m : ChunkMeta) : list Z :=
  match GetChunkRecordAt b (chunk_record m) with
  | Ok r => zread (chunk_record m + sizeof_ChunkRecord) (rc_size r - sizeof_ChunkRecord) (data_ b)
  | Crash => []
  end.

Lemma payload_of_tile b newer older k m t : well_laid b newer older -> index_ b !! k = Some m -> t ∈ chunks (older ++ newer) -> Key_of t.1 = k ->
  payload_of b m = t.2.
Proof.
  intros Hw Hm Ht Hk. destruct (laid_lookup b newer older k m Hw Hm) as (t' & _ & _ & Hok & Hget & _ & _ & _ & _ & Hpay & Hu).
  rewrite (Hu t Ht Hk). unfold payload_of, sizeof_ChunkRecord. rewrite Hget, (to_size _ Hok). by replace (16 + zlen t'.2 - 16) with (zlen t'.2) by lia.
Qed.
Lemma stored_lookup b newer older k m : stored b newer older -> index_ b !! k = Some m ->
  exists r, GetChunkRecordAt b (chunk_record m) = Ok r /\ Key_of r = k /\ rc_size r = 16 + zlen (payload_of b m) /\ bytes_ok (payload_of b m) /\
    0 <= chunk_record m /\ chunk_record m + rc_size r <= zlen (data_ b) /\ payload_of b m = zread (chunk_record m + 16) (zlen (payload_of b m)) (data_ b) /\
    zlen (payload_of b m) <= 65504 /\ word_ok 16 (num_fragments m) /\ word_ok 32 (Key_chunk k).
Proof.
  intros [Hw Hcur Hlast] Hm. destruct (laid_lookup b newer older k m Hw Hm) as (t & Ht & Hk & Hok & Hget & Hnf & _ & H0 & H1 & Hpay & _).
  exists t.1. destruct Hok as [Hrec Hsize Hal Hby]. pose proof (payload_of_tile b newer older k m t Hw Hm Ht Hk) as Hp.
  rewrite Hp. pose proof (tile_size_max t ltac:(by split)). destruct Hw as (k0 & L & _).
  split; [done|]. split; [done|]. split; [done|]. split; [done|]. split; [done|]. split; [rewrite <- (la_size _ _ _ _ _ L); lia|]. split; [done|].
  split; [lia|]. destruct Hrec. split; [by rewrite Hnf|]. by rewrite <- Hk.
Qed.

Lemma reads_payload b b' m m' : reads b b' -> same_chunk m m' -> payload_of b' m' = payload_of b m.
Proof.
  intros R (S1 & _). unfold payload_of, GetChunkRecordAt. destruct (rd_ring _ _ R) as (-> & _). by rewrite S1, (rd_data _ _ R).
Qed.

(** ReadNextPacketInChunk, as a function of the payload and the cursor. *)
Lemma ReadNextPacketInChunk_spec b newer older k m packet : stored b newer older -> index_ b !! k = Some m ->
  exists b', reads b b' /\ read_iter_ b' = read_iter_ b /\
  match next_fragment (payload_of b m) (cur_fragment_offset m) with
  | Some (body, off') =>
      ReadNextPacketInChunk k packet b =
        Ok (if decide (body = []) then kFailedEmptyPacket else kSucceeded, if decide (body = []) then packet else (fun p => p ++ [body]) <$> packet, b') /\
      index_ b' = <[k := set_last_read_packet_skipped false (set_read_state (u16 (num_fragments_read m + 1)) off' m)]> (index_ b)
  | None =>
      ReadNextPacketInChunk k packet b = Ok (kFailedInvalidPacket, packet, b') /\ index_ b' = <[k := set_read_state (num_fragments m) 0 m]> (index_ b)
  end.
Proof.
  intros Hst Hm. destruct (stored_lookup b newer older k m Hst Hm) as (r & Hget & _ & Hsize & Hby & H0 & H1 & Hpay & Hmax & Hnf & _).
  destruct (st_cursors _ _ _ Hst k m Hm) as [Hread Hoff]. unfold ReadNextPacketInChunk. rewrite Hm, Hget. cbn [obind]. cbv zeta.
  set (off := cur_fragment_offset m) in *. set (p := payload_of b m) in *. unfold sizeof_ChunkRecord, word_ok in *. 
  assert (Hgive : forall c, let b' := give_up_chunk k m (rc_size r) (stat c 1 b) in reads b b' /\ read_iter_ b' = read_iter_ b /\
            index_ b' = <[k := set_read_state (num_fragments m) 0 m]> (index_ b)).
  { intros c b'. unfold b', give_up_chunk, count_chunk_read.
    assert (R : reads b (set_meta k (set_read_state (num_fragments m) 0 m) (stat c 1 b))).
    { eapply reads_trans; [apply (reads_stat c 1)|]. eapply reads_set_meta; [exact Hm|auto with reads]. }
    destruct (is_complete _); [|done]. split; [|done]. eapply reads_trans; [exact R|]. eapply reads_trans; apply reads_stat. }
  unfold next_fragment. assert (Hc1 : (chunk_record m + 16 + off <? chunk_record m + 16) || (chunk_record m + rc_size r <=? chunk_record m + 16 + off)
    = (off <? 0) || (zlen p <=? off)) by lia.
  rewrite Hc1. clear Hc1. destruct (_ || _) eqn:E1.
  { destruct (Hgive abi_violations) as (R & Hit & Hidx). eexists. split; [exact R|]. split; [exact Hit|]. split; [reflexivity|exact Hidx]. }
  assert (Hsub : forall o n, 0 <= o -> 0 <= n -> o + n <= zlen p -> zread o n p = zread (chunk_record m + 16 + o) n (data_ b)).
  { intros. rewrite Hpay at 1. apply zread_zread; lia. }
  bool_facts. assert (Hhead : zread (chunk_record m + 16 + off) (Z.min (chunk_record m + 16 + off + kMessageLengthFieldSize) (chunk_record m + rc_size r) -
      (chunk_record m + 16 + off)) (data_ b) = zread off (Z.min kMessageLengthFieldSize (zlen p - off)) p).
  { rewrite Hsub by (unfold kMessageLengthFieldSize; lia). f_equal. lia. }
  rewrite Hhead. clear Hhead. set (h := zread off _ p). assert (Hh : bytes_ok h) by (by apply bytes_ok_zread).
  assert (Hlen : zlen h = Z.min kMessageLengthFieldSize (zlen p - off)) by (unfold h; apply zlen_zread; unfold kMessageLengthFieldSize; lia).
  pose proof (ParseVarInt_bound h Hh) as Hn. pose proof (ParseVarInt_word h Hh) as Hs. destruct (ParseVarInt h) as [n size]. cbn [fst snd] in *.
  assert (Hc2 : (chunk_record m + 16 + off + n + size <=? chunk_record m + 16 + off) || (chunk_record m + rc_size r <? chunk_record m + 16 + off + n + size)
    = (n + size <=? 0) || (zlen p <? off + n + size)) by lia.
  rewrite Hc2. clear Hc2. destruct (_ || _) eqn:E2.
  { destruct (negb _); [destruct (Hgive abi_violations) as (R & Hit & Hidx)|destruct (Hgive trace_writer_packet_loss) as (R & Hit & Hidx)];
      eexists; (split; [exact R|]; split; [exact Hit|]; split; [reflexivity|exact Hidx]). }
  bool_facts. unfold word_ok, kMessageLengthFieldSize in *.
  replace (chunk_record m + 16 + off + n + size - (chunk_record m + 16)) with (off + n + size) by lia. rewrite (u16_small (off + n + size)) by lia.
  set (m1 := set_read_state (u16 (num_fragments_read m + 1)) (off + n + size) m).
  set (b1 := if _ && _ then _ else _).
  assert (Hb1 : reads b b1 /\ read_iter_ b1 = read_iter_ b /\ index_ b1 = index_ b /\ data_ b1 = data_ b).
  { unfold b1. destruct (_ && _); [|by auto with reads]. split; [eapply reads_trans; apply reads_stat|done]. }
  destruct Hb1 as (R1 & Hit & Hidx & Hd). exists (set_meta k (set_last_read_packet_skipped false m1) b1).
  assert (Hbody : zread (chunk_record m + 16 + off + n) size (data_ b1) = zread (off + n) size p).
  { rewrite Hd, Hsub by lia. f_equal. lia. }
  assert (Hsz : zlen (zread (off + n) size p) = size) by (apply zlen_zread; lia).
  split; [eapply reads_trans; [exact R1|]; eapply reads_set_meta; [rewrite Hidx; exact Hm|unfold m1; auto with reads]|]. split; [done|].
  split; [|cbn [set_meta set_index index_]; by rewrite Hidx].
  destruct (Z.eqb_spec size 0) as [->|Hnz]; [by rewrite !decide_True by done|].
  assert (zread (off + n) size p <> []) by (intros Hnil; rewrite Hnil in Hsz; change (zlen (@nil Z)) with 0 in Hsz; lia).
  rewrite !decide_False by done. change (data_ (set_meta k (set_last_read_packet_skipped false m1) b1)) with (data_ b1). rewrite Hbody. reflexivity.
Qed.

(** ** Iterators over a sequence *)

Lemma reads_upper_bound b b' k : reads b b' -> upper_bound k (index_ b') = upper_bound k (index_ b).
Proof.
  intros R. eapply least_unique; [|apply upper_bound_least|apply upper_bound_least]. intros k'. symmetry. by apply reads_dom.
Qed.
Lemma reads_stored b b' newer older : reads b b' -> (forall k m, index_ b' !! k = Some m -> cursor_ok m) -> stored b newer older -> stored b' newer older.
Proof.
  intros R Hc [H1 H2 H3]. split; [by eapply reads_well_laid|done|]. intros k Hk. rewrite (rd_last _ _ R). apply H3. by apply (reads_dom b b').
Qed.

(** The chunk after [c] in the sequence of [k], when there is one. *)
Lemma upper_bound_sequence idx k c : c <= kMaxChunkID -> upper_bound (with_chunk k c) idx <> upper_bound (with_chunk k kMaxChunkID) idx ->
  exists k', upper_bound (with_chunk k c) idx = Some k' /\ is_Some (idx !! k') /\ Key_sequence k' = Key_sequence k /\ c < Key_chunk k'.
Proof.
  intros Hc Hne. pose proof (upper_bound_least (with_chunk k c) idx) as L1. pose proof (upper_bound_least (with_chunk k kMaxChunkID) idx) as L2.
  destruct k as [[p w] c0]. assert (Hw : forall x, with_chunk (p, w, c0) x = (p, w, x)) by done. rewrite !(Hw kMaxChunkID), !(Hw c) in Hne.
  rewrite (Hw c) in L1 |- *. rewrite (Hw kMaxChunkID) in L2.
  assert (Hmono : forall x, Key_ltb (p, w, kMaxChunkID) x = true -> Key_ltb (p, w, c) x = true).
  { intros [[p' w'] c']. rewrite !Key_ltb_spec. lia. }
  destruct (upper_bound (p, w, c) idx) as [[[p' w'] c']|] eqn:E1; cbn [least] in L1.
  - destruct L1 as (D & P & M). exists (p', w', c'). split; [done|]. split; [done|]. cbn. apply Key_ltb_spec in P as Hlt.
    destruct (decide ((p', w') = (p, w))) as [[= -> ->]|Hseq]; [split; [done|lia]|]. exfalso. apply Hne. symmetry.
    apply (least_unique (Key_ltb (p, w, kMaxChunkID)) idx idx); [done|exact L2|]. split; [done|]. split; [|auto].
    apply Key_ltb_spec. destruct (Z.eq_dec p p') as [->|]; [|lia]. destruct (Z.eq_dec w w') as [->|]; [congruence|lia].
  - destruct (upper_bound (p, w, kMaxChunkID) idx) as [ke|]; [|by destruct Hne]. destruct L2 as (D & P & _). apply Hmono in P. by rewrite L1 in P.
Qed.

(** The iterator stands on the sequence whose first key is [kb]. *)
Record seq_ok (b : TraceBuffer) (it : SequenceIterator) (kb : Key) : Prop := {
  sq_begin : seq_begin it = Some kb;
  sq_stored : is_Some (index_ b !! kb);
  sq_first : forall k, is_Some (index_ b !! k) -> Key_sequence k = Key_sequence kb -> Key_ltb k kb = false;
  sq_end : seq_end it = upper_bound (with_chunk kb kMaxChunkID) (index_ b);
  sq_wrapping : last_chunk_id_written_ b !! Key_sequence kb = Some (wrapping_id it);
  sq_cur : cur it = seq_end it \/ exists k, cur it = Some k /\ is_Some (index_ b !! k) /\ Key_sequence k = Key_sequence kb
}.
(** An iterator of a buffer with no chunk left. *)
Definition at_end (it : SequenceIterator) : Prop := seq_end it = None /\ cur it = None.
Definition iter_ok (b : TraceBuffer) (it : SequenceIterator) : Prop := at_end it \/ exists kb, seq_ok b it kb.

Lemma reads_seq_ok b b' it kb : reads b b' -> seq_ok b it kb -> seq_ok b' it kb.
Proof.
  intros R []. split; rewrite ?(rd_last _ _ R), ?(reads_upper_bound b b') by done; try done.
  - by apply (reads_dom b b').
  - intros k Hk. apply sq_first0. by apply (reads_dom b b').
  - destruct sq_cur0 as [|(k & ? & ? & ?)]; [by left|]. right. exists k. by rewrite <- (reads_dom b b' k R).
Qed.
Lemma reads_iter_ok b b' it : reads b b' -> iter_ok b it -> iter_ok b' it.
Proof. intros R [|[kb H]]; [by left|]. right. exists kb. by eapply reads_seq_ok. Qed.

(** The sequence after this one. *)
Lemma seq_end_spec b newer older it kb ke : stored b newer older -> seq_ok b it kb -> seq_end it = Some ke ->
  is_Some (index_ b !! ke) /\ Key_ltb kb ke = true /\ Key_sequence ke <> Key_sequence kb /\
  forall k, is_Some (index_ b !! k) -> Key_sequence k = Key_sequence ke -> Key_ltb k ke = false.
Proof.
  intros Hst Hsq He. pose proof (upper_bound_least (with_chunk kb kMaxChunkID) (index_ b)) as L. rewrite <- (sq_end _ _ _ Hsq), He in L.
  destruct L as (D & P & M). destruct D as [me Hme]. destruct (stored_lookup _ _ _ _ _ Hst Hme) as (_ & _ & _ & _ & _ & _ & _ & _ & _ & _ & Hce).
  destruct (sq_stored _ _ _ Hsq) as [mb Hmb]. destruct (stored_lookup _ _ _ _ _ Hst Hmb) as (_ & _ & _ & _ & _ & _ & _ & _ & _ & _ & Hcb).
  destruct ke as [[pe we] ce], kb as [[pb wb] cb]. cbn in P, Hce, Hcb. unfold word_ok, kMaxChunkID in *. apply Key_ltb_spec in P.
  split; [by exists me|]. split; [apply Key_ltb_spec; lia|]. split; [cbn; intros [= -> ->]; lia|].
  intros [[p w] c] Hk Hs. apply M; [done|]. cbn in Hs |- *. injection Hs as -> ->. apply Key_ltb_spec. lia.
Qed.
Lemma seq_cur_ne b newer older it kb k : stored b newer older -> seq_ok b it kb -> Key_sequence k = Key_sequence kb -> seq_end it <> Some k.
Proof. intros Hst Hsq Hs He. destruct (seq_end_spec _ _ _ _ _ _ Hst Hsq He) as (_ & _ & Hne & _). done. Qed.

(** GetReadIterForSequence, on the first key of a sequence. *)
Lemma GetReadIter_spec b newer older kb : stored b newer older -> is_Some (index_ b !! kb) ->
  (forall k, is_Some (index_ b !! k) -> Key_sequence k = Key_sequence kb -> Key_ltb k kb = false) ->
  let it := GetReadIterForSequence (Some kb) b in
  seq_ok b it kb /\ exists k, cur it = Some k /\ is_Some (index_ b !! k) /\ Key_sequence k = Key_sequence kb.
Proof.
  intros Hst Hkb Hfirst it. destruct (st_last _ _ _ Hst kb Hkb) as (c & Hc & Hcw). unfold it, GetReadIterForSequence. rewrite Hc. cbn [default].
  assert (Hcur : exists k, (if bool_decide (upper_bound (with_chunk kb c) (index_ b) = upper_bound (with_chunk kb kMaxChunkID) (index_ b))
      then Some kb else upper_bound (with_chunk kb c) (index_ b)) = Some k /\ is_Some (index_ b !! k) /\ Key_sequence k = Key_sequence kb).
  { case_bool_decide as E; [by exists kb|]. destruct (upper_bound_sequence (index_ b) kb c) as (k & Hk & D & S & _); [unfold word_ok, kMaxChunkID in *; lia|done|].
    exists k. done. }
  split; [|exact Hcur]. split; cbn [seq_begin seq_end cur wrapping_id]; try done. by right.
Qed.

Lemma MoveNext_reads b b' it : reads b b' -> MoveNext b' it = MoveNext b it.
Proof.
  intros R. unfold MoveNext, iter_succ. destruct (cur it) as [k|]; [|done]. rewrite (reads_upper_bound b b') by done.
  pose proof (rd_index _ _ R k) as H. destruct (index_ b !! k), (index_ b' !! k); try done. by destruct H as (_ & _ & _ & _ & _ & ->).
Qed.

(** The chunk after [k] in the ring of its sequence. *)
Lemma next_in_sequence b newer older it kb k : stored b newer older -> seq_ok b it kb -> is_Some (index_ b !! k) -> Key_sequence k = Key_sequence kb ->
  exists k', (if bool_decide (iter_succ (Some k) (index_ b) = seq_end it) then seq_begin it else iter_succ (Some k) (index_ b)) = Some k' /\
    is_Some (index_ b !! k') /\ Key_sequence k' = Key_sequence kb.
Proof.
  intros Hst Hsq [m Hm] Hs. unfold iter_succ. case_bool_decide as En; [exists kb; by destruct Hsq|].
  assert (Hmax : Key_chunk k <= kMaxChunkID).
  { destruct (stored_lookup _ _ _ _ _ Hst Hm) as (_ & _ & _ & _ & _ & _ & _ & _ & _ & _ & Hck). unfold word_ok, kMaxChunkID in *. lia. }
  assert (Hk : with_chunk k (Key_chunk k) = k) by (by destruct k).
  destruct (upper_bound_sequence (index_ b) k (Key_chunk k) Hmax) as (k' & Hk' & D & S & _).
  - rewrite Hk. replace (with_chunk k kMaxChunkID) with (with_chunk kb kMaxChunkID); [by rewrite <- (sq_end _ _ _ Hsq)|].
    unfold with_chunk, Key_sequence in *. by rewrite Hs.
  - exists k'. rewrite Hk in Hk'. split; [done|]. split; [done|congruence].
Qed.

(** A step of the iterator ends the sequence, or goes to the next chunk id, which only
    happens after a complete chunk and never past the last id written. *)
Lemma MoveNext_spec b newer older it kb : stored b newer older -> seq_ok b it kb ->
  MoveNext b it = Ok (MoveToEnd it) \/
  exists k m, cur it = Some k /\ is_valid it = true /\ Key_chunk k <> wrapping_id it /\ index_ b !! k = Some m /\ is_complete m = true /\
    let k' := with_chunk k (u32 (Key_chunk k + 1)) in
    MoveNext b it = Ok (set_cur (Some k') it) /\ is_Some (index_ b !! k') /\ seq_end it <> Some k'.
Proof.
  intros Hst Hsq. unfold MoveNext. case_bool_decide as Ecur; [by left|]. destruct (sq_cur _ _ _ Hsq) as [|(k & Hk & [m Hm] & Hs)]; [done|].
  rewrite Hk, Hm. destruct (Z.eqb_spec (Key_chunk k) (wrapping_id it)); [by left|]. destruct (is_complete m) eqn:Hcomp; cbn [negb]; [|by left].
  destruct (next_in_sequence b newer older it kb k Hst Hsq ltac:(by exists m) Hs) as (k' & -> & D & S). destruct (Z.eqb_spec (u32 (Key_chunk k + 1)) (Key_chunk k')) as [Hc|]; cbn [negb]; [|by left].
  right. exists k, m. split; [done|]. split; [unfold is_valid; by rewrite bool_decide_true|]. split; [done|]. split; [done|]. split; [done|].
  assert (Hk' : k' = with_chunk k (u32 (Key_chunk k + 1))) by (apply Key_eq; [unfold with_chunk; cbn; by rewrite S, <- Hs|by rewrite Hc]).
  rewrite <- Hk'. split; [done|]. split; [done|]. by eapply seq_cur_ne.
Qed.

(** ** One fragment *)

(** What a chunk may give to a packet: nothing, or the body of a fragment inside its
    payload, if it does not await patches. *)
Definition contributes (b : TraceBuffer) (k : Key) (slices : list (list Z)) : Prop :=
  slices = [] \/ exists m off off' body, index_ b !! k = Some m /\ has_flag kChunkNeedsPatching m = false /\
    next_fragment (payload_of b m) off = Some (body, off') /\ slices = [body].
(** The chunk can be read from. *)
Definition patched (b : TraceBuffer) (k : Key) : Prop :=
  exists m, index_ b !! k = Some m /\ (num_fragments m = 0 \/ has_flag kChunkNeedsPatching m = false).

Lemma reads_contributes b b' k s : reads b b' -> contributes b' k s -> contributes b k s.
Proof.
  intros R [->|(m' & off & off' & body & Hm' & Hf & Hn & ->)]; [by left|]. right.
  destruct (reads_lookup_back _ _ _ _ R Hm') as (m & Hm & S). exists m, off, off', body. rewrite <- (reads_payload _ _ _ _ R S).
  split; [done|]. split; [|done]. destruct S as (_ & _ & _ & S4 & _). unfold has_flag in *. by rewrite <- S4.
Qed.
Lemma reads_patched b b' k : reads b b' -> patched b k -> patched b' k.
Proof.
  intros R (m & Hm & Hp). destruct (reads_lookup _ _ _ _ R Hm) as (m' & Hm' & (_ & _ & _ & S4 & S5 & _)). exists m'. unfold has_flag in *.
  by rewrite S4, S5.
Qed.

Lemma fmap_app_nil (packet : option TracePacket) : (fun p => p ++ []) <$> packet = packet.
Proof. destruct packet; [cbn; by rewrite app_nil_r|done]. Qed.

(** The invariant through a read. *)
Lemma next_fragment_cursor b newer older k m body off' : stored b newer older -> index_ b !! k = Some m ->
  next_fragment (payload_of b m) (cur_fragment_offset m) = Some (body, off') ->
  cursor_ok (set_last_read_packet_skipped false (set_read_state (u16 (num_fragments_read m + 1)) off' m)).
Proof.
  intros Hst Hm En. destruct (stored_lookup b newer older k m Hst Hm) as (r & _ & _ & _ & Hby & _ & _ & _ & Hmax & _).
  destruct (next_fragment_bounds _ _ _ _ Hby En) as (Ho1 & Ho2 & _). split; cbn; [apply u16_range|unfold word_ok; lia].
Qed.
Lemma stored_set_cursor b b' newer older k m' : reads b b' -> stored b newer older -> cursor_ok m' -> index_ b' = <[k := m']> (index_ b) -> stored b' newer older.
Proof.
  intros R Hst Hok Hidx. eapply reads_stored; [exact R| |exact Hst]. intros k0 m0. rewrite Hidx, lookup_insert_Some.
  intros [[_ <-]|[_ H0]]; [exact Hok|by apply (st_cursors _ _ _ Hst k0)].
Qed.

Lemma read_fragment_spec b newer older k m packet : stored b newer older -> index_ b !! k = Some m -> has_flag kChunkNeedsPatching m = false ->
  exists res s m' b', ReadNextPacketInChunk k packet b = Ok (res, (fun p => p ++ s) <$> packet, b') /\
    reads b b' /\ stored b' newer older /\ read_iter_ b' = read_iter_ b /\ contributes b k s /\ (s = [] <-> res <> kSucceeded) /\
    index_ b' = <[k := m']> (index_ b) /\ (num_fragments_read m < num_fragments m -> num_fragments_read m < num_fragments_read m').
Proof.
  intros Hst Hm Hnp. destruct (ReadNextPacketInChunk_spec b newer older k m packet Hst Hm) as (b' & R & Hit & H).
  destruct (stored_lookup b newer older k m Hst Hm) as (r & _ & _ & _ & Hby & _ & _ & _ & Hmax & Hnf & _).
  destruct (next_fragment _ _) as [[body off']|] eqn:En; destruct H as [Hcall Hidx].
  - pose proof (next_fragment_cursor b newer older k m body off' Hst Hm En) as Hok. pose proof (stored_set_cursor _ _ _ _ _ _ R Hst Hok Hidx) as Hst'.
    set (m' := set_last_read_packet_skipped false _) in *.
    assert (Hmore : num_fragments_read m < num_fragments m -> num_fragments_read m < num_fragments_read m').
    { intros. unfold m'. cbn. destruct (st_cursors _ _ _ Hst k m Hm). unfold word_ok in *. rewrite u16_small by lia. lia. }
    destruct (decide (body = [])) as [Hnil|Hne].
    + exists kFailedEmptyPacket, [], m', b'. rewrite fmap_app_nil. do 4 (split; [done|]). by split; [left|].
    + exists kSucceeded, [body], m', b'. do 4 (split; [done|]). split; [right; by exists m, (cur_fragment_offset m), off', body|]. by split.
  - exists kFailedInvalidPacket, [], (set_read_state (num_fragments m) 0 m), b'. rewrite fmap_app_nil. split; [done|]. split; [done|].
    split; [refine (stored_set_cursor _ _ _ _ _ _ R Hst _ Hidx); split; [exact Hnf|done]|]. split; [done|]. split; [by left|]. by split; [|split; [|cbn; lia]].
Qed.

Lemma mark_skipped_spec b newer older k : stored b newer older ->
  reads b (mark_skipped k b) /\ stored (mark_skipped k b) newer older /\ read_iter_ (mark_skipped k b) = read_iter_ b /\
  forall m, index_ b !! k = Some m -> exists m', index_ (mark_skipped k b) !! k = Some m' /\ num_fragments_read m' = num_fragments_read m.
Proof.
  intros Hst. unfold mark_skipped. destruct (index_ b !! k) as [m|] eqn:Em; [|split; [auto with reads|split; [done|split; [done|by intros m]]]].
  assert (R : reads b (set_meta k (set_last_read_packet_skipped true m) b)) by (eapply reads_set_meta; [exact Em|auto with reads]).
  split; [exact R|]. split; [|split; [done|]].
  - eapply reads_stored; [exact R| |exact Hst]. intros k0 m0. cbn [set_meta set_index index_]. rewrite lookup_insert_Some.
    intros [[-> <-]|[_ H0]]; [exact (st_cursors _ _ _ Hst _ _ Em)|by apply (st_cursors _ _ _ Hst k0)].
  - intros m0 [= <-]. eexists. cbn [set_meta set_index index_]. rewrite lookup_insert_eq. by split.
Qed.

(** ** Walks along a sequence *)

(** The chunks an iterator visits until it stands at another iterator. *)
Inductive walk (b : TraceBuffer) : SequenceIterator -> list Key -> SequenceIterator -> Prop :=
| walk_nil it : walk b it [] it
| walk_cons it it1 it2 k ks :
    MoveNext b it = Ok it1 -> is_valid it1 = true -> cur it1 = Some k -> walk b it1 ks it2 -> walk b it (k :: ks) it2.

(** How many chunk ids are left until the last one written. *)
Definition position (it : SequenceIterator) : nat :=
  match cur it with
  | Some k => if is_valid it then S (Z.to_nat (u32 (wrapping_id it - Key_chunk k))) else O
  | None => O
  end.
(** Consecutive chunks of one sequence. *)
Fixpoint consecutive (k : Key) (ks : list Key) : Prop :=
  match ks with [] => True | k' :: ks => k' = with_chunk k (u32 (Key_chunk k + 1)) /\ consecutive k' ks end.

Fixpoint final (k : Key) (ks : list Key) : Key := match ks with [] => k | k' :: ks => final k' ks end.

Lemma walk_snoc b it ks it1 it2 k : walk b it ks it1 -> MoveNext b it1 = Ok it2 -> is_valid it2 = true -> cur it2 = Some k -> walk b it (ks ++ [k]) it2.
Proof.
  induction 1 as [it|it it0 it1 k0 ks Hm Hv Hc _ IH]; intros; (eapply walk_cons; [done..|]); [apply walk_nil|by apply IH].
Qed.
Lemma walk_reads b b' it ks it' : reads b b' -> walk b it ks it' -> walk b' it ks it'.
Proof. intros R. induction 1; [apply walk_nil|]. eapply walk_cons; [by rewrite (MoveNext_reads b b')|done..]. Qed.

Lemma is_valid_set_cur k it : seq_end it <> Some k -> is_valid (set_cur (Some k) it) = true.
Proof. intros H. unfold is_valid. cbn. rewrite bool_decide_true; [done|]. intros E. by rewrite <- E in H. Qed.
Lemma seq_ok_set_cur b it kb k : seq_ok b it kb -> is_Some (index_ b !! k) -> Key_sequence k = Key_sequence kb -> seq_ok b (set_cur (Some k) it) kb.
Proof. intros [] Hk Hs. split; cbn; try done. right. by exists k. Qed.
Lemma seq_ok_MoveToEnd b it kb : seq_ok b it kb -> seq_ok b (MoveToEnd it) kb.
Proof. intros []. split; cbn; try done. by left. Qed.
Lemma is_valid_MoveToEnd it : is_valid (MoveToEnd it) = false.
Proof. unfold is_valid. cbn. apply bool_decide_false. auto. Qed.

(** The key a valid iterator stands on. *)
Lemma valid_cur b it kb : seq_ok b it kb -> is_valid it = true -> exists k m, cur it = Some k /\ index_ b !! k = Some m /\ Key_sequence k = Key_sequence kb.
Proof.
  unfold is_valid. intros Hsq Hv. bool_facts. destruct (sq_cur _ _ _ Hsq) as [|(k & Hk & [m Hm] & Hs)]; [done|]. by exists k, m.
Qed.

Lemma u32_step w c : word_ok 32 w -> word_ok 32 c -> c <> w -> u32 (w - u32 (c + 1)) = u32 (w - c) - 1 /\ 0 < u32 (w - c).
Proof.
  unfold word_ok, u32, uw. intros Hw Hc Hne. pose proof (Z.mod_pos_bound (w - c) (2 ^ 32) ltac:(lia)).
  assert (Hnz : (w - c) `mod` 2 ^ 32 <> 0) by (intros H0; apply Z.mod_divide in H0; [destruct H0 as [q Hq]; nia|lia]).
  split; [|lia]. rewrite Zminus_mod_idemp_r. replace (w - (c + 1)) with (w - c - 1) by lia.
  rewrite <- (Zminus_mod_idemp_l (w - c)). apply Z.mod_small. lia.
Qed.

(** A step that stays in the sequence comes closer to the last id. *)
Lemma step_position b newer older it kb it1 : stored b newer older -> seq_ok b it kb -> MoveNext b it = Ok it1 -> is_valid it1 = true ->
  exists k, cur it = Some k /\ is_valid it = true /\ cur it1 = Some (with_chunk k (u32 (Key_chunk k + 1))) /\ seq_ok b it1 kb /\
    (position it1 < position it)%nat.
Proof.
  intros Hst Hsq Hmv Hv. destruct (MoveNext_spec _ _ _ _ _ Hst Hsq) as [Hend|(k & m & Hk & Hvk & Hne & Hm & _ & Hmv' & D & Hse)].
  { rewrite Hend in Hmv. injection Hmv as <-. by rewrite is_valid_MoveToEnd in Hv. }
  cbv zeta in Hmv', D, Hse. rewrite Hmv' in Hmv. injection Hmv as <-. exists k. split; [done|]. split; [done|]. split; [done|].
  destruct (valid_cur _ _ _ Hsq Hvk) as (k0 & m0 & Hk0 & _ & Hs). rewrite Hk in Hk0. injection Hk0 as <-.
  split; [by apply seq_ok_set_cur|]. destruct (stored_lookup _ _ _ _ _ Hst Hm) as (_ & _ & _ & _ & _ & _ & _ & _ & _ & _ & Hck).
  destruct (st_last _ _ _ Hst kb (sq_stored _ _ _ Hsq)) as (c & Hc & Hcw). rewrite (sq_wrapping _ _ _ Hsq) in Hc. injection Hc as <-.
  unfold position. rewrite Hk, Hvk. change (cur (set_cur _ it)) with (Some (with_chunk k (u32 (Key_chunk k + 1)))). cbn match. rewrite Hv.
  change (wrapping_id (set_cur _ it)) with (wrapping_id it). change (Key_chunk (with_chunk k ?x)) with x.
  destruct (u32_step (wrapping_id it) (Key_chunk k) Hcw Hck) as [-> Hpos]; [done|lia].
Qed.

Lemma walk_spec b newer older kb it ks it' : stored b newer older -> walk b it ks it' -> seq_ok b it kb ->
  seq_ok b it' kb /\ (ks <> [] -> is_valid it = true /\ is_valid it' = true /\ (position it' < position it)%nat) /\
  (forall k, cur it = Some k -> is_valid it = true -> consecutive k ks /\ cur it' = Some (final k ks)).
Proof.
  intros Hst. induction 1 as [it|it it1 it2 k ks Hmv Hv Hc Hw IH]; intros Hsq; [by split|].
  destruct (step_position _ _ _ _ _ _ Hst Hsq Hmv Hv) as (k0 & Hk0 & Hv0 & Hc1 & Hsq1 & Hlt). destruct (IH Hsq1) as (I1 & I2 & I3).
  destruct (I3 k Hc Hv) as [I4 I5]. split; [done|]. split.
  - intros _. split; [done|]. destruct ks as [|k1 ks]; [inversion Hw; subst; by split|]. destruct I2 as (_ & ? & ?); [done|]. split; [done|lia].
  - intros k1 Hk1 _. rewrite Hk0 in Hk1. injection Hk1 as <-. rewrite Hc1 in Hc. injection Hc as <-. by split.
Qed.

Lemma position_cur b it it' kb : seq_ok b it kb -> seq_ok b it' kb -> cur it = cur it' -> position it = position it'.
Proof.
  intros H H' Hc. pose proof (sq_wrapping _ _ _ H) as Hw. rewrite (sq_wrapping _ _ _ H') in Hw. injection Hw as Hw.
  unfold position, is_valid. by rewrite (sq_end _ _ _ H), (sq_end _ _ _ H'), Hc, Hw.
Qed.

(** ** The lookahead *)

Lemma fmap_app_app (packet : option TracePacket) (s1 s2 : list (list Z)) :
  (fun p => p ++ s2) <$> ((fun p => p ++ s1) <$> packet) = (fun p => p ++ s1 ++ s2) <$> packet.
Proof. destruct packet; [cbn; by rewrite <- app_assoc|done]. Qed.
Lemma Forall2_contributes b b' ks ss : reads b b' -> Forall2 (contributes b') ks ss -> Forall2 (contributes b) ks ss.
Proof. intros R H. eapply Forall2_impl; [exact H|]. intros. by eapply reads_contributes. Qed.

(** One iteration of CommitFragments: the fragment of the current chunk, if it has any. *)
Lemma commit_one b newer older k m corrupted packet : stored b newer older -> index_ b !! k = Some m -> patched b k ->
  exists c s b', (if 0 <? num_fragments m then
       let! (res, packet, b) := ReadNextPacketInChunk k packet b in Ok (corrupted || bool_decide (res = kFailedInvalidPacket), packet, b)
     else Ok (corrupted, packet, b)) = Ok (c, (fun p => p ++ s) <$> packet, b') /\
    reads b b' /\ stored b' newer older /\ read_iter_ b' = read_iter_ b /\ contributes b k s.
Proof.
  intros Hst Hm (m0 & Hm0 & Hp). rewrite Hm in Hm0. injection Hm0 as <-. destruct (Z.ltb_spec 0 (num_fragments m)) as [Hnf|Hnf].
  - destruct Hp as [Hp|Hp]; [lia|]. destruct (read_fragment_spec b newer older k m packet Hst Hm Hp) as (res & s & m' & b' & -> & R & Hst' & Hit & Hs & _).
    cbn [obind]. by eexists _, s, b'.
  - exists corrupted, [], b. rewrite fmap_app_nil. split; [done|]. split; [auto with reads|]. split; [done|]. split; [done|by left].
Qed.

Lemma CommitFragments_spec newer older kb it' ks : forall b corrupted packet k0, stored b newer older -> walk b (read_iter_ b) ks it' ->
  seq_ok b (read_iter_ b) kb -> is_valid (read_iter_ b) = true -> cur (read_iter_ b) = Some k0 -> Forall (patched b) (k0 :: ks) ->
  exists corrupted' ss b', (forall fuel, (length ks < fuel)%nat ->
      CommitFragments fuel (cur it') corrupted packet b = Ok (corrupted', (fun p => p ++ concat ss) <$> packet, b')) /\
    reads b b' /\ stored b' newer older /\ read_iter_ b' = it' /\ Forall2 (contributes b) (k0 :: ks) ss.
Proof.
  induction ks as [|k1 ks IH]; intros b corrupted packet k0 Hst Hw Hsq Hv Hk0 Hp; apply Forall_cons in Hp as [Hp0 Hp].
  all: pose proof Hp0 as (m & Hm & _); destruct (commit_one b newer older k0 m corrupted packet Hst Hm Hp0) as (c & s & b1 & Hone & R1 & Hst1 & Hit1 & Hs).
  - inversion Hw; subst. exists c, [s], b1. cbn [concat]. rewrite app_nil_r. split; [|split; [done|split; [done|split; [done|by constructor; [|constructor]]]]].
    intros [|fuel] Hf; [cbn in Hf; lia|]. cbn [CommitFragments]. unfold deref. rewrite Hk0, Hm. cbn [obind]. rewrite Hone. cbn [obind].
    by rewrite bool_decide_true by congruence.
  - inversion Hw as [|it0 it1 it2 k ks0 Hmv Hv1 Hc1 Hw1]; subst.
    destruct (step_position _ _ _ _ _ _ Hst Hsq Hmv Hv1) as (k2 & Hk2 & _ & _ & Hsq1 & Hlt).
    destruct (walk_spec _ _ _ _ _ _ _ Hst Hw1 Hsq1) as (Hsq' & Hpos & _).
    set (b2 := set_read_iter it1 b1). assert (R2 : reads b b2) by (eapply reads_trans; [exact R1|apply reads_set_read_iter]).
    assert (Hst2 : stored b2 newer older) by (eapply reads_stored; [apply (reads_set_read_iter it1 b1)|apply (st_cursors _ _ _ Hst1)|exact Hst1]).
    destruct (IH b2 c ((fun p => p ++ s) <$> packet) k1 Hst2) as (c' & ss & b' & Hcall & R' & Hst' & Hit' & Hss); try done.
    + by apply (walk_reads b).
    + by apply (reads_seq_ok b).
    + eapply Forall_impl; [exact Hp|]. intros. by apply (reads_patched b).
    + exists c', (s :: ss), b'. split; [|split; [by eapply reads_trans|split; [done|split; [done|]]]].
      * intros [|fuel] Hf; [cbn in Hf; lia|]. cbn [CommitFragments length] in *. unfold deref. rewrite Hk0, Hm. cbn [obind]. rewrite Hone. cbn [obind].
        assert (Hne : cur (read_iter_ b1) <> cur it').
        { rewrite Hit1, Hk0. intros He. destruct (walk_spec _ _ _ _ _ _ _ Hst Hw Hsq) as (Hs2 & Hp2 & _).
          destruct Hp2 as (_ & _ & Hp2); [done|]. rewrite (position_cur b it' (read_iter_ b) kb Hs2 Hsq) in Hp2 by congruence. lia. }
        rewrite bool_decide_false by done. rewrite Hit1, (MoveNext_reads b b1 _ R1), Hmv. cbn [obind concat]. fold b2.
        rewrite Hcall by lia. by rewrite fmap_app_app.
      * constructor; [done|]. by eapply Forall2_contributes.
Qed.

(** A chunk whose first fragment continues the packet of the chunk before it. *)
Definition continues (b : TraceBuffer) (k : Key) : Prop :=
  exists m, index_ b !! k = Some m /\
    (num_fragments m = 0 \/ has_flag kFirstPacketContinuesFromPrevChunk m = true /\ has_flag kChunkNeedsPatching m = false).
(** A chunk that is a middle part of a packet only. *)
Definition passes (b : TraceBuffer) (k : Key) : Prop :=
  exists m, index_ b !! k = Some m /\ (num_fragments m = 0 \/ num_fragments m = 1 /\ has_flag kLastPacketContinuesOnNextChunk m = true).

Lemma continues_patched b k : continues b k -> patched b k.
Proof. intros (m & Hm & [H|[_ H]]); exists m; tauto. Qed.

Section ReadAhead.
Context (b : TraceBuffer) (newer older : list tile) (kb : Key).
Hypothesis (Hst : stored b newer older) (Hsq : seq_ok b (read_iter_ b) kb).

Definition lookahead_result (r : outcome (bool * option TracePacket * TraceBuffer)) : outcome (ReadAheadResult * option TracePacket * TraceBuffer) :=
  let! (corrupted, packet, b) := r in
  if corrupted then Ok (kFailedStayOnSameSequence, Some [], b) else Ok (kSucceededReturnSlices, packet, b).

Lemma ReadAhead_loop_spec n : forall it0 it ks next packet, (position it < n)%nat -> walk b (read_iter_ b) ks it0 -> MoveNext b it0 = Ok it ->
  Forall (continues b) ks -> Forall (passes b) ks ->
  (forall fuel fuel0, (n <= fuel)%nat -> ReadAhead_loop fuel fuel0 it next packet b = Ok (kFailedMoveToNextSequence, packet, b)) \/
  exists mid last it', walk b (read_iter_ b) (mid ++ [last]) it' /\ Forall (continues b) (mid ++ [last]) /\ Forall (passes b) mid /\
    forall fuel fuel0, (n <= fuel)%nat -> ReadAhead_loop fuel fuel0 it next packet b = lookahead_result (CommitFragments fuel0 (cur it') false packet b).
Proof.
  induction n as [|n IH]; intros it0 it ks next packet Hpos Hw Hmv Hco Hpa; [lia|].
  destruct (is_valid it) eqn:Hv; [|left; intros [|fuel] fuel0 Hf; [lia|]; cbn [ReadAhead_loop]; by rewrite Hv].
  destruct (walk_spec _ _ _ _ _ _ _ Hst Hw Hsq) as (Hsq0 & _ & _).
  destruct (step_position _ _ _ _ _ _ Hst Hsq0 Hmv Hv) as (k0 & _ & _ & _ & Hsqi & _).
  destruct (valid_cur _ _ _ Hsqi Hv) as (k & m & Hk & Hm & _). pose proof (walk_snoc _ _ _ _ _ _ Hw Hmv Hv Hk) as Hw1.
  destruct (MoveNext b it) as [it1|] eqn:Hmv1.
  2: { destruct (MoveNext_spec _ _ _ _ _ Hst Hsqi) as [E|(? & ? & _ & _ & _ & _ & _ & E & _)]; rewrite E in Hmv1; done. }
  assert (Hpos1 : (position it1 < n)%nat).
  { destruct (is_valid it1) eqn:Hv1; [destruct (step_position _ _ _ _ _ _ Hst Hsqi Hmv1 Hv1) as (_ & _ & _ & _ & _ & Hlt); lia|].
    assert (position it1 = 0)%nat by (unfold position; rewrite Hv1; by destruct (cur it1)).
    assert (0 < position it)%nat by (unfold position; rewrite Hk, Hv; lia). lia. }
  (* what the loop does on this chunk *)
  assert (Hloop : forall fuel fuel0, ReadAhead_loop (S fuel) fuel0 it next packet b =
    if num_fragments m =? 0 then ReadAhead_loop fuel fuel0 it1 (u32 (next + 1)) packet b
    else if negb (Key_chunk k =? next) || negb (has_flag kFirstPacketContinuesFromPrevChunk m) then Ok (kFailedMoveToNextSequence, packet, b)
    else if has_flag kChunkNeedsPatching m then Ok (kFailedMoveToNextSequence, packet, b)
    else if (num_fragments m =? 1) && has_flag kLastPacketContinuesOnNextChunk m then ReadAhead_loop fuel fuel0 it1 (u32 (next + 1)) packet b
    else lookahead_result (CommitFragments fuel0 (cur it) false packet b)).
  { intros. cbn [ReadAhead_loop]. rewrite Hv. unfold deref. rewrite Hk, Hm. cbn [negb obind]. rewrite Hmv1. cbn [obind]. reflexivity. }
  assert (Hrec : continues b k -> passes b k -> 
    (forall fuel fuel0, (n <= fuel)%nat -> ReadAhead_loop fuel fuel0 it1 (u32 (next + 1)) packet b = Ok (kFailedMoveToNextSequence, packet, b)) \/
    exists mid last it', walk b (read_iter_ b) (mid ++ [last]) it' /\ Forall (continues b) (mid ++ [last]) /\ Forall (passes b) mid /\
      forall fuel fuel0, (n <= fuel)%nat -> ReadAhead_loop fuel fuel0 it1 (u32 (next + 1)) packet b = lookahead_result (CommitFragments fuel0 (cur it') false packet b)).
  { intros Hc Hp. apply (IH it it1 (ks ++ [k])); try done; apply Forall_app; split; auto. }
  assert (Hco1 : has_flag kFirstPacketContinuesFromPrevChunk m = true -> has_flag kChunkNeedsPatching m = false -> continues b k) by (exists m; auto).
  destruct (num_fragments m =? 0) eqn:E0; [|destruct (negb (Key_chunk k =? next) || _) eqn:E1; [|destruct (has_flag kChunkNeedsPatching m) eqn:E2;
    [|destruct ((num_fragments m =? 1) && has_flag kLastPacketContinuesOnNextChunk m) eqn:E3]]].
  2, 3: left; intros [|fuel] fuel0 Hf; [lia|]; apply Hloop.
  3: { bool_facts. right. exists ks, k, it. split; [done|]. split; [apply Forall_app; auto|]. split; [done|]. intros [|fuel] fuel0 Hf; [lia|]. apply Hloop. }
  all: bool_facts; destruct Hrec as [Hr|(mid & last & it' & W1 & W2 & W3 & Hr)]; try (exists m; auto); try (apply Hco1; done);
    [left|right; exists mid, last, it'; split; [done|split; [done|split; [done|]]]]; intros [|fuel] fuel0 Hf; try lia; rewrite Hloop; apply Hr; lia.
Qed.

(** The lookahead from a chunk that can be read: it fails and changes nothing, or it
    takes the next fragment of each chunk up to one that ends the packet, and leaves
    the iterator there, closer to the end. *)
Lemma ReadAhead_spec k0 packet : is_valid (read_iter_ b) = true -> cur (read_iter_ b) = Some k0 -> patched b k0 ->
  exists N, (forall fuel, (N <= fuel)%nat -> ReadAhead fuel (Some packet) b = Ok (kFailedMoveToNextSequence, Some packet, b)) \/
  exists mid last (corrupted : bool) ss b', (forall fuel, (N <= fuel)%nat -> ReadAhead fuel (Some packet) b =
      Ok (if corrupted then (kFailedStayOnSameSequence, Some [], b') else (kSucceededReturnSlices, Some (packet ++ concat ss), b'))) /\
    consecutive k0 (mid ++ [last]) /\ Forall (continues b) (mid ++ [last]) /\ Forall (passes b) mid /\
    reads b b' /\ stored b' newer older /\ seq_ok b' (read_iter_ b') kb /\ is_valid (read_iter_ b') = true /\ cur (read_iter_ b') = Some last /\
    (position (read_iter_ b') < position (read_iter_ b))%nat /\ Forall2 (contributes b) (k0 :: mid ++ [last]) ss.
Proof.
  intros Hv Hk0 Hp0. pose proof Hp0 as (m & Hm & _). destruct (MoveNext b (read_iter_ b)) as [it|] eqn:Hmv.
  2: { destruct (MoveNext_spec _ _ _ _ _ Hst Hsq) as [E|(? & ? & _ & _ & _ & _ & _ & E & _)]; rewrite E in Hmv; done. }
  assert (Hra : forall fuel, ReadAhead fuel (Some packet) b = ReadAhead_loop fuel fuel it (u32 (Key_chunk k0 + 1)) (Some packet) b).
  { intros. unfold ReadAhead, deref. rewrite Hk0, Hm. cbn [obind]. by rewrite Hmv. }
  destruct (ReadAhead_loop_spec (S (position it)) (read_iter_ b) it [] (u32 (Key_chunk k0 + 1)) (Some packet) ltac:(lia) (walk_nil b _) Hmv
    (Forall_nil_2 _) (Forall_nil_2 _)) as [H|(mid & last & it' & Hw & Hco & Hpa & H)].
  { exists (S (position it)). left. intros fuel Hf. rewrite Hra. by apply H. }
  destruct (CommitFragments_spec newer older kb it' (mid ++ [last]) b false (Some packet) k0 Hst Hw Hsq Hv Hk0) as (c & ss & b' & Hcall & R & Hst' & Hit' & Hss).
  { constructor; [done|]. eapply Forall_impl; [exact Hco|]. apply continues_patched. }
  destruct (walk_spec _ _ _ _ _ _ _ Hst Hw Hsq) as (Hsq' & Hpos & Hcons). destruct Hpos as (_ & Hv' & Hlt); [by destruct mid|].
  destruct (Hcons k0 Hk0 Hv) as [Hcs Hlast].
  exists (S (position it) + S (length (mid ++ [last])))%nat. right. exists mid, last, c, ss, b'. split.
  { intros fuel Hf. rewrite Hra, H, Hcall by lia. cbn [lookahead_result obind]. by destruct c. }
  rewrite Hit'. do 5 (split; [done|]). split; [by apply (reads_seq_ok b)|]. split; [done|]. split; [|done].
  rewrite Hlast. f_equal. clear. revert k0. induction mid as [|k mid IH]; intros k0; [done|apply IH].
Qed.
End ReadAhead.

(** ** What is left to read *)

(** The keys from an iterator on, as a set. *)
Definition keys_from (b : TraceBuffer) (r : iterator) : nat :=
  match r with None => O | Some ke => size (filter (fun k => Key_ltb k ke = false) (dom (index_ b))) end.
(** The fragments of the current chunk. *)
Definition unread (b : TraceBuffer) : Z :=
  match cur (read_iter_ b) with
  | Some k => match index_ b !! k with Some m => Z.max 0 (num_fragments m - num_fragments_read m) | None => 0 end
  | None => 0
  end.
(** The chunks of the sequences to come, those of the current one, the fragments of the
    current chunk, in this order of importance. *)
Definition remaining (b : TraceBuffer) : Z :=
  (Z.of_nat (keys_from b (seq_end (read_iter_ b))) * 2 ^ 33 + Z.of_nat (position (read_iter_ b))) * 2 ^ 16 + unread b.

Lemma keys_from_reads b b' r : reads b b' -> keys_from b' r = keys_from b r.
Proof.
  intros R. destruct r as [ke|]; [|done]. cbn [keys_from]. replace (dom (index_ b')) with (dom (index_ b)); [done|].
  apply set_eq. intros k. rewrite !elem_of_dom. by apply reads_dom.
Qed.
Lemma keys_from_after b k k' : is_Some (index_ b !! k) -> Key_ltb k k' = true -> (keys_from b (Some k') < keys_from b (Some k))%nat.
Proof.
  intros Hk Hlt. cbn [keys_from]. apply subset_size. split.
  - intros x. rewrite !elem_of_filter. intros [Hx Hd]. split; [|done]. apply not_true_iff_false. intros Hxk.
    by rewrite (Key_ltb_trans x k k') in Hx.
  - intros Hsub. assert (Hin : k ∈ filter (fun x => Key_ltb x k' = false) (dom (index_ b))).
    { apply Hsub. rewrite elem_of_filter, elem_of_dom. by rewrite Key_ltb_irrefl. }
    rewrite elem_of_filter in Hin. destruct Hin as [Hin _]. congruence.
Qed.
Lemma position_bound it : Z.of_nat (position it) <= 2 ^ 32.
Proof. unfold position. destruct (cur it); [|lia]. destruct (is_valid it); [|lia]. pose proof (u32_range (wrapping_id it - Key_chunk k)). lia. Qed.
Lemma unread_bound b newer older : stored b newer older -> 0 <= unread b < 2 ^ 16.
Proof.
  intros Hst. unfold unread. destruct (cur _) as [k|]; [|lia]. destruct (index_ b !! k) as [m|] eqn:Hm; [|lia].
  destruct (stored_lookup _ _ _ _ _ Hst Hm) as (_ & _ & _ & _ & _ & _ & _ & _ & _ & Hnf & _).
  destruct (st_cursors _ _ _ Hst k m Hm) as [Hr _]. unfold word_ok in *. lia.
Qed.

Lemma seq_end_reads b b' it it' kb : reads b b' -> seq_ok b it kb -> seq_ok b' it' kb -> seq_end it' = seq_end it.
Proof. intros R H H'. by rewrite (sq_end _ _ _ H), (sq_end _ _ _ H'), (reads_upper_bound b b'). Qed.

Lemma remaining_nonneg b newer older : stored b newer older -> 0 <= remaining b.
Proof. intros H. pose proof (unread_bound _ _ _ H). unfold remaining. lia. Qed.
Lemma remaining_position b b' newer older kb : reads b b' -> stored b newer older -> stored b' newer older ->
  seq_ok b (read_iter_ b) kb -> seq_ok b' (read_iter_ b') kb -> (position (read_iter_ b') < position (read_iter_ b))%nat -> remaining b' < remaining b.
Proof.
  intros R Hst Hst' Hsq Hsq' Hlt. unfold remaining. rewrite (seq_end_reads b b' _ _ kb R Hsq Hsq'), (keys_from_reads b b' _ R).
  pose proof (unread_bound _ _ _ Hst). pose proof (unread_bound _ _ _ Hst'). lia.
Qed.
Lemma remaining_unread b b' k m m' : reads b b' -> read_iter_ b' = read_iter_ b -> cur (read_iter_ b) = Some k -> index_ b !! k = Some m -> index_ b' !! k = Some m' ->
  num_fragments_read m < num_fragments m -> num_fragments_read m < num_fragments_read m' -> remaining b' < remaining b.
Proof.
  intros R Hit Hk Hm Hm' H1 H2. unfold remaining, unread. rewrite Hit, (keys_from_reads b b' _ R), Hk, Hm, Hm'.
  destruct (reads_lookup b b' k m R Hm) as (m0 & Hm0 & (_ & _ & _ & _ & Hnf & _)). rewrite Hm' in Hm0. injection Hm0 as <-. lia.
Qed.
Lemma remaining_sequence b b' newer older : reads b b' -> stored b newer older -> stored b' newer older ->
  (keys_from b (seq_end (read_iter_ b')) < keys_from b (seq_end (read_iter_ b)))%nat -> remaining b' < remaining b.
Proof.
  intros R Hst Hst' Hlt. unfold remaining. rewrite (keys_from_reads b b' _ R).
  pose proof (unread_bound _ _ _ Hst). pose proof (unread_bound _ _ _ Hst').
  pose proof (position_bound (read_iter_ b)). pose proof (position_bound (read_iter_ b')). lia.
Qed.

Lemma MoveNext_total b newer older it kb : stored b newer older -> seq_ok b it kb ->
  exists it1, MoveNext b it = Ok it1 /\ seq_ok b it1 kb /\ (is_valid it = true -> (position it1 < position it)%nat).
Proof.
  intros Hst Hsq. destruct (MoveNext_spec _ _ _ _ _ Hst Hsq) as [E|(k & m & Hk & Hv & _ & _ & _ & E & D & Hse)].
  - exists (MoveToEnd it). split; [done|]. split; [by apply seq_ok_MoveToEnd|]. intros Hv. destruct (valid_cur _ _ _ Hsq Hv) as (k & m & Hk & _).
    unfold position at 2. rewrite Hk, Hv. unfold position. rewrite is_valid_MoveToEnd. destruct (cur (MoveToEnd it)); lia.
  - eexists. split; [exact E|]. pose proof (is_valid_set_cur _ _ Hse) as Hv1. destruct (step_position _ _ _ _ _ _ Hst Hsq E Hv1) as (? & _ & _ & _ & H1 & H2).
    by split.
Qed.

(** ** Packets *)

(** [packet] is made of fragments of consecutive chunks of a sequence: one chunk, or a
    chunk whose last packet continues, chunks that only carry a part of it, and one that
    ends it. *)
Definition stitched (b : TraceBuffer) (s : Z * Z) (packet : TracePacket) : Prop :=
  exists k ks ss, Key_sequence k = s /\ consecutive k ks /\ packet = concat ss /\ Forall2 (contributes b) (k :: ks) ss /\
    (ks = [] \/ exists m mid last, index_ b !! k = Some m /\ has_flag kLastPacketContinuesOnNextChunk m = true /\
       ks = mid ++ [last] /\ Forall (passes b) mid /\ Forall (continues b) ks).

Lemma reads_stitched b b' s p : reads b b' -> stitched b' s p -> stitched b s p.
Proof.
  intros R (k & ks & ss & H1 & H2 & H3 & H4 & H5). exists k, ks, ss. split; [done|]. split; [done|]. split; [done|].
  split; [by eapply Forall2_contributes|]. destruct H5 as [|(m' & mid & last & Hm' & Hf & -> & Hp & Hc)]; [by left|]. right.
  destruct (reads_lookup_back _ _ _ _ R Hm') as (m & Hm & (_ & _ & _ & S4 & _)). exists m, mid, last. unfold has_flag in *. rewrite <- S4.
  split; [done|]. split; [done|]. split; [done|].
  split; [eapply Forall_impl; [exact Hp|]|eapply Forall_impl; [exact Hc|]]; intros k0 (m0' & Hm0' & H0);
    destruct (reads_lookup_back _ _ _ _ R Hm0') as (m0 & Hm0 & (_ & _ & _ & S4' & S5' & _)); exists m0; unfold has_flag in *; by rewrite <- S4', <- S5'.
Qed.
Lemma reads_patched_back b b' k : reads b b' -> patched b' k -> patched b k.
Proof.
  intros R (m' & Hm' & H0). destruct (reads_lookup_back _ _ _ _ R Hm') as (m & Hm & (_ & _ & _ & S4 & S5 & _)). exists m. unfold has_flag in *. by rewrite <- S4, <- S5.
Qed.

Lemma choose_action_ahead m : choose_action m = kTryReadAhead -> has_flag kLastPacketContinuesOnNextChunk m = true.
Proof.
  unfold choose_action. destruct (has_flag kLastPacketContinuesOnNextChunk m); [done|]. rewrite andb_false_r, orb_true_r. 
  destruct (_ =? 0); [destruct (has_flag _ m)|]; done.
Qed.
Lemma fmap_some_nil (s : list (list Z)) : (fun p => p ++ s) <$> Some ([] : TracePacket) = Some s.
Proof. done. Qed.

(** What the loop over the fragments of a chunk of the sequence of [kb] gives. *)
Definition fragments_result (newer older : list tile) (kb : Key) (props : PacketSequenceProperties) (b : TraceBuffer) (r : inner_result) : Prop :=
  match r with
  | InnerReturn packet props' _ b' => props' = props /\ reads b b' /\ stored b' newer older /\ seq_ok b' (read_iter_ b') kb /\
      remaining b' < remaining b /\ stitched b (Key_sequence kb) packet
  | InnerBreak packet _ b' => packet = [] /\ reads b b' /\ stored b' newer older /\ seq_ok b' (read_iter_ b') kb /\
      ((position (read_iter_ b') < position (read_iter_ b))%nat \/ read_iter_ b' = read_iter_ b)
  end.
Lemma fragments_result_trans newer older kb props b b1 r : reads b b1 -> remaining b1 < remaining b ->
  (position (read_iter_ b1) < position (read_iter_ b))%nat \/ read_iter_ b1 = read_iter_ b ->
  fragments_result newer older kb props b1 r -> fragments_result newer older kb props b r.
Proof.
  intros R Hlt Hit. destruct r as [packet props' d b'|packet d b']; cbn [fragments_result].
  - intros (H1 & H2 & H3 & H4 & H5 & H6). split; [done|]. split; [by eapply reads_trans|]. split; [done|]. split; [done|]. split; [lia|by eapply reads_stitched].
  - intros (H1 & H2 & H3 & H4 & H5). split; [done|]. split; [by eapply reads_trans|]. split; [done|]. split; [done|].
    destruct Hit as [Hit|Hit], H5 as [H5|H5]; rewrite ?H5, ?Hit in *; auto with lia.
Qed.

Lemma ReadFragments_spec newer older kb : forall n b dropped k props, (Z.to_nat (remaining b) < n)%nat -> stored b newer older ->
  seq_ok b (read_iter_ b) kb -> is_valid (read_iter_ b) = true -> cur (read_iter_ b) = Some k -> patched b k ->
  exists N r, (forall fuel fuel0, (N <= fuel)%nat -> (N <= fuel0)%nat -> ReadFragments fuel fuel0 props [] dropped b = Ok r) /\
    fragments_result newer older kb props b r.
Proof.
  induction n as [|n IH]; intros b dropped k props Hn Hst Hsq Hv Hk Hp; [lia|]. pose proof Hp as (m & Hm & Hnp).
  pose proof (remaining_nonneg _ _ _ Hst) as Hpos. destruct (valid_cur _ _ _ Hsq Hv) as (k0 & m0 & Hk0 & _ & Hs). rewrite Hk in Hk0. injection Hk0 as <-.
  destruct (st_cursors _ _ _ Hst k m Hm) as [Hread _].
  assert (Hunfold : forall fuel fuel0, ReadFragments (S fuel) fuel0 props [] dropped b = 
    if num_fragments_read m <? num_fragments m then
      match choose_action m with
      | kSkip => let! (_, _, b) := ReadNextPacketInChunk k None b in ReadFragments fuel fuel0 props [] true (mark_skipped k b)
      | kReadOnePacket =>
          let! (result, packet', b) := ReadNextPacketInChunk k (Some []) b in
          let packet := default [] packet' in
          match result with
          | kSucceeded => Ok (InnerReturn packet props dropped b)
          | kFailedEmptyPacket => ReadFragments fuel fuel0 props packet dropped b
          | kFailedInvalidPacket => Ok (InnerBreak packet true (mark_skipped k b))
          end
      | kTryReadAhead =>
          let! (ra_res, packet', b) := ReadAhead fuel0 (Some []) b in
          let packet := default [] packet' in
          match ra_res with
          | kSucceededReturnSlices => Ok (InnerReturn packet props dropped (stat readaheads_succeeded 1 b))
          | kFailedMoveToNextSequence =>
              let b := stat readaheads_failed 1 b in Ok (InnerBreak packet dropped (set_read_iter (MoveToEnd (read_iter_ b)) b))
          | kFailedStayOnSameSequence => let! (k, _) := deref b (read_iter_ b) in ReadFragments fuel fuel0 props packet true (mark_skipped k b)
          end
      end
    else Ok (InnerBreak [] dropped b)).
  { intros. cbn [ReadFragments]. unfold deref at 1. by rewrite Hk, Hm. }
  destruct (Z.ltb_spec (num_fragments_read m) (num_fragments m)) as [Hlt|Hge].
  2: { exists 1%nat. eexists. split; [intros [|fuel] fuel0 ? ?; [lia|apply Hunfold]|]. split; [done|]. split; [auto with reads|]. split; [done|]. split; [done|by right]. }
  destruct Hnp as [Hnf|Hnp]; [unfold word_ok in *; lia|].
  (* what is left after one fragment of this chunk has been consumed *)
  assert (Hone : forall packet, exists res s b1, ReadNextPacketInChunk k packet b = Ok (res, (fun p => p ++ s) <$> packet, b1) /\
    contributes b k s /\ (s = [] <-> res <> kSucceeded) /\ reads b b1 /\ stored b1 newer older /\ read_iter_ b1 = read_iter_ b /\ remaining b1 < remaining b /\
    reads b (mark_skipped k b1) /\ stored (mark_skipped k b1) newer older /\ read_iter_ (mark_skipped k b1) = read_iter_ b /\
    remaining (mark_skipped k b1) < remaining b).
  { intros packet. destruct (read_fragment_spec b newer older k m packet Hst Hm Hnp) as (res & s & m1 & b1 & Hc & R & Hst1 & Hit & Hs1 & Hs2 & Hidx & Hmore).
    destruct (mark_skipped_spec b1 newer older k Hst1) as (R2 & Hst2 & Hit2 & Hm2).
    assert (Hm1 : index_ b1 !! k = Some m1) by (by rewrite Hidx, lookup_insert_eq). destruct (Hm2 m1 Hm1) as (m2 & Hm2' & Hr2).
    exists res, s, b1. do 6 (split; [done|]). split; [by eapply remaining_unread; eauto|]. assert (R3 := reads_trans _ _ _ R R2).
    split; [done|]. split; [done|]. split; [congruence|]. eapply remaining_unread; eauto; [congruence|rewrite Hr2; auto]. }
  assert (Hrec : forall b1 d, reads b b1 -> stored b1 newer older -> read_iter_ b1 = read_iter_ b -> remaining b1 < remaining b ->
    exists N r, (forall fuel fuel0, (N <= fuel)%nat -> (N <= fuel0)%nat -> ReadFragments fuel fuel0 props [] d b1 = Ok r) /\ fragments_result newer older kb props b r).
  { intros b1 d R Hst1 Hit Hlt1. pose proof (remaining_nonneg _ _ _ Hst1). destruct (IH b1 d k props) as (N & r & Hr1 & Hr2); try done; rewrite ?Hit; try done; [lia|by apply (reads_seq_ok b)|by eapply reads_patched|].
    exists N, r. split; [done|]. eapply fragments_result_trans; eauto. }
  destruct (choose_action m) eqn:Eact.
  - destruct (Hone None) as (res & s & b1 & Hc & _ & _ & _ & _ & _ & _ & R & Hst1 & Hit1 & Hlt1). destruct (Hrec _ true R Hst1 Hit1 Hlt1) as (N & r & Hr & Hres).
    exists (S N), r. split; [|done]. intros [|fuel] fuel0 ? ?; [lia|]. rewrite Hunfold, Hc. cbn [obind]. apply Hr; lia.
  - destruct (Hone (Some [])) as (res & s & b1 & Hc & Hcon & Hsr & R1 & Hst1 & Hit1 & Hlt1 & R2 & Hst2 & Hit2 & Hlt2). rewrite fmap_some_nil in Hc.
    destruct res.
    + exists 1%nat. eexists. split; [intros [|fuel] fuel0 ? ?; [lia|]; rewrite Hunfold, Hc; reflexivity|]. cbn [fragments_result default].
      split; [done|]. split; [done|]. split; [done|]. split; [rewrite Hit1; by apply (reads_seq_ok b)|]. split; [done|].
      exists k, [], [s]. split; [done|]. split; [done|]. split; [cbn; by rewrite app_nil_r|]. split; [by constructor; [|constructor]|by left].
    + exists 1%nat. eexists. split; [intros [|fuel] fuel0 ? ?; [lia|]; rewrite Hunfold, Hc; reflexivity|]. cbn [fragments_result default].
      split; [by apply Hsr|]. split; [done|]. split; [done|]. split; [rewrite Hit2; by apply (reads_seq_ok b)|]. by right.
    + assert (s = []) as -> by (by apply Hsr). destruct (Hrec b1 dropped R1 Hst1 Hit1 Hlt1) as (N & r & Hr & Hres).
      exists (S N), r. split; [|done]. intros [|fuel] fuel0 ? ?; [lia|]. rewrite Hunfold, Hc. cbn [obind default]. apply Hr; lia.
  - destruct (ReadAhead_spec b newer older kb Hst Hsq k [] Hv Hk Hp) as (N & [Hra|(mid & last & c & ss & b1 & Hra & Hcs & Hco & Hpa & R1 & Hst1 & Hsq1 & Hv1 & Hk1 & Hlt1 & Hss)]).
    + exists (S N). eexists. split; [intros [|fuel] fuel0 ? ?; [lia|]; rewrite Hunfold, Hra by lia; reflexivity|]. cbn [fragments_result default].
      set (b1 := set_read_iter _ _). assert (R1 : reads b b1) by (eapply reads_trans; [apply (reads_stat readaheads_failed 1)|apply reads_set_read_iter]).
      split; [done|]. split; [done|]. split; [eapply reads_stored; [exact R1|apply (st_cursors _ _ _ Hst)|exact Hst]|].
      split; [apply (reads_seq_ok b); [done|by apply seq_ok_MoveToEnd]|]. left. unfold b1. cbn [stat set_read_iter read_iter_].
      unfold position at 2. rewrite Hk, Hv. unfold position. rewrite is_valid_MoveToEnd. destruct (cur (MoveToEnd _)); lia.
    + assert (Hrem : remaining b1 < remaining b) by (by eapply remaining_position). pose proof (remaining_nonneg _ _ _ Hst1). destruct c.
      * destruct (mark_skipped_spec b1 newer older last Hst1) as (R2 & Hst2 & Hit2 & _). set (b2 := mark_skipped last b1) in *.
        assert (R3 := reads_trans _ _ _ R1 R2). assert (Hsq2 : seq_ok b2 (read_iter_ b2) kb) by (rewrite Hit2; by apply (reads_seq_ok b1)).
        assert (Hrem2 : remaining b2 < remaining b) by (eapply remaining_position; eauto; by rewrite Hit2).
        pose proof (remaining_nonneg _ _ _ Hst2). assert (Hlastp : patched b2 last).
        { apply (reads_patched b); [done|]. apply continues_patched. rewrite Forall_app, Forall_singleton in Hco. tauto. }
        destruct (IH b2 true last props) as (N2 & r & Hr & Hres); try done; rewrite ?Hit2; try done; [lia|].
        exists (S (N + N2)), r. split.
        -- intros [|fuel] fuel0 ? ?; [lia|]. rewrite Hunfold, Hra by lia. cbn [obind default]. unfold deref. rewrite Hk1.
           destruct Hlastp as (ml & Hml & _). destruct (reads_lookup_back _ _ _ _ R2 Hml) as (ml1 & -> & _). cbn [obind]. fold b2. apply Hr; lia.
        -- eapply fragments_result_trans; eauto. left. by rewrite Hit2.
      * exists (S N). eexists. split; [intros [|fuel] fuel0 ? ?; [lia|]; rewrite Hunfold, Hra by lia; reflexivity|]. cbn [fragments_result default].
        set (b2 := stat readaheads_succeeded 1 b1). assert (R2 : reads b b2) by (eapply reads_trans; [exact R1|apply reads_stat]).
        assert (Hst2 : stored b2 newer older) by (eapply reads_stored; [apply (reads_stat readaheads_succeeded 1)|apply (st_cursors _ _ _ Hst1)|exact Hst1]).
        split; [done|]. split; [done|]. split; [done|]. split; [apply (reads_seq_ok b1); [apply reads_stat|done]|]. split; [exact Hrem|].
        exists k, (mid ++ [last]), ss. split; [done|]. split; [done|]. split; [done|]. split; [done|]. right. exists m, mid, last.
        split; [done|]. split; [by apply choose_action_ahead|]. by split.
Qed.

(** ** ReadNextTracePacket *)

(** The trusted identity of a packet is that of a chunk of its sequence. *)
Definition identified (b : TraceBuffer) (props : PacketSequenceProperties) : Prop :=
  let '(p, uid, pid, w) := props in
  exists k m, index_ b !! k = Some m /\ Key_sequence k = (p, w) /\ trusted_uid m = uid /\ trusted_pid m = pid.
Definition props_sequence (props : PacketSequenceProperties) : Z * Z := let '(p, _, _, w) := props in (p, w).

(** What a call of ReadNextTracePacket gives: either the iterator is at the end of the
    last sequence, or a packet, and there is less left to read. *)
Definition read_result (newer older : list tile) (b : TraceBuffer) (r : option (TracePacket * PacketSequenceProperties * bool)) (b' : TraceBuffer) : Prop :=
  reads b b' /\ stored b' newer older /\ iter_ok b' (read_iter_ b') /\
  match r with
  | None => at_end (read_iter_ b')
  | Some (packet, props, _) => remaining b' < remaining b /\ identified b props /\ stitched b (props_sequence props) packet
  end.

Lemma reads_identified b b' props : reads b b' -> identified b' props -> identified b props.
Proof.
  intros R. destruct props as [[[p uid] pid] w]. intros (k & m1 & Hm1 & Hk & Hu & Hp). destruct (reads_lookup_back _ _ _ _ R Hm1) as (m & Hm & (_ & S2 & S3 & _)).
  exists k, m. split; [done|]. split; [done|]. by rewrite <- S2, <- S3.
Qed.
Lemma read_result_trans newer older b b1 r b' : reads b b1 -> remaining b1 < remaining b -> read_result newer older b1 r b' -> read_result newer older b r b'.
Proof.
  intros R Hlt (R' & H1 & H2 & H3). split; [by eapply reads_trans|]. split; [done|]. split; [done|]. destruct r as [[[packet props] d]|]; [|done].
  destruct H3 as (H3 & H4 & H5). split; [lia|]. split; [by eapply reads_identified|by eapply reads_stitched].
Qed.
Lemma stored_set_read_iter it b newer older : stored b newer older -> stored (set_read_iter it b) newer older.
Proof. intros Hst. eapply reads_stored; [apply (reads_set_read_iter it b)|apply (st_cursors _ _ _ Hst)|exact Hst]. Qed.

(** An iterator that is not valid goes to the next sequence. *)
Lemma next_sequence b newer older kb ke : stored b newer older -> seq_ok b (read_iter_ b) kb -> seq_end (read_iter_ b) = Some ke ->
  let b1 := set_read_iter (GetReadIterForSequence (seq_end (read_iter_ b)) b) b in
  stored b1 newer older /\ reads b b1 /\ (exists kb1, seq_ok b1 (read_iter_ b1) kb1) /\ is_valid (read_iter_ b1) = true /\ remaining b1 < remaining b.
Proof.
  intros Hst Hsq He b1. destruct (seq_end_spec _ _ _ _ _ _ Hst Hsq He) as (Hke & Hlt & _ & Hfirst).
  destruct (GetReadIter_spec b newer older ke Hst Hke Hfirst) as (Hsq1 & k & Hk & Hin & Hs).
  assert (R : reads b b1) by apply reads_set_read_iter. assert (Hst1 : stored b1 newer older) by (by apply stored_set_read_iter).
  assert (Hit : read_iter_ b1 = GetReadIterForSequence (Some ke) b) by (unfold b1; by rewrite He).
  split; [done|]. split; [done|]. split; [exists ke; rewrite Hit; by apply (reads_seq_ok b)|]. split.
  - rewrite Hit. unfold is_valid. apply bool_decide_true. rewrite Hk. intros E. by apply (seq_cur_ne b newer older _ ke k Hst Hsq1 Hs).
  - eapply remaining_sequence; try done. rewrite Hit, He. destruct (seq_end (GetReadIterForSequence (Some ke) b)) as [ke2|] eqn:E2.
    + apply keys_from_after; [done|]. by destruct (seq_end_spec _ _ _ _ _ _ Hst Hsq1 E2) as (_ & ? & _).
    + cbn [keys_from]. apply Nat.neq_0_lt_0. intros H0. apply size_empty_inv in H0. apply (not_elem_of_empty (C := gset Key) ke), H0.
      rewrite elem_of_filter, elem_of_dom. by rewrite Key_ltb_irrefl.
Qed.

Definition reads_on (newer older : list tile) (b : TraceBuffer) (dropped : bool) : Prop :=
  exists N r b', (forall fuel fuel0, (N <= fuel)%nat -> (N <= fuel0)%nat -> ReadChunks fuel fuel0 [] dropped b = Ok (r, b')) /\ read_result newer older b r b'.

(** The iteration after the chunk of a valid iterator, and the for loop's MoveNext. *)
Lemma reads_on_next newer older b b1 dropped kb : stored b newer older -> reads b b1 -> stored b1 newer older ->
  seq_ok b (read_iter_ b) kb -> is_valid (read_iter_ b) = true -> seq_ok b1 (read_iter_ b1) kb ->
  (position (read_iter_ b1) < position (read_iter_ b))%nat \/ read_iter_ b1 = read_iter_ b ->
  (forall b2, stored b2 newer older -> iter_ok b2 (read_iter_ b2) -> remaining b2 < remaining b -> reads_on newer older b2 dropped) ->
  exists N r b', (forall fuel fuel0, (N <= fuel)%nat -> (N <= fuel0)%nat ->
    (let! it := MoveNext b1 (read_iter_ b1) in ReadChunks fuel fuel0 [] dropped (set_read_iter it b1)) = Ok (r, b')) /\ read_result newer older b r b'.
Proof.
  intros Hst R1 Hst1 Hsq Hv Hsq1 Hpos Hrec. destruct (MoveNext_total _ _ _ _ _ Hst1 Hsq1) as (it & Hmv & Hsq2 & Hlt).
  set (b2 := set_read_iter it b1). assert (R2 : reads b b2) by (eapply reads_trans; [exact R1|apply reads_set_read_iter]).
  assert (Hst2 : stored b2 newer older) by (by apply stored_set_read_iter). assert (Hsq3 : seq_ok b2 (read_iter_ b2) kb) by (by apply (reads_seq_ok b1); [apply reads_set_read_iter|]).
  assert (Hp : (position it < position (read_iter_ b))%nat).
  { destruct (is_valid (read_iter_ b1)) eqn:Hv1; [specialize (Hlt eq_refl); destruct Hpos as [|<-]; lia|].
    destruct Hpos as [Hpos|Heq]; [|congruence]. destruct (MoveNext_spec _ _ _ _ _ Hst1 Hsq1) as [E|(? & ? & _ & Hv2 & _)]; [|congruence].
    rewrite Hmv in E. injection E as ->. unfold position at 1. rewrite is_valid_MoveToEnd. destruct (cur (MoveToEnd _)); lia. }
  assert (Hrem : remaining b2 < remaining b) by (by eapply remaining_position).
  destruct (Hrec b2 Hst2 ltac:(right; by exists kb) Hrem) as (N & r & b' & Hr & Hres). exists N, r, b'.
  split; [|by eapply read_result_trans]. intros. rewrite Hmv. cbn [obind]. by apply Hr.
Qed.

Lemma ReadChunks_valid newer older b dropped kb : stored b newer older -> seq_ok b (read_iter_ b) kb -> is_valid (read_iter_ b) = true ->
  (forall b2 d, stored b2 newer older -> iter_ok b2 (read_iter_ b2) -> remaining b2 < remaining b -> reads_on newer older b2 d) ->
  reads_on newer older b dropped.
Proof.
  intros Hst Hsq Hv Hrec. destruct (valid_cur _ _ _ Hsq Hv) as (k & m & Hk & Hm & Hs).
  destruct (has_flag kChunkNeedsPatching m) eqn:Hnp.
  - set (b1 := set_read_iter (MoveToEnd (read_iter_ b)) b). assert (R1 : reads b b1) by apply reads_set_read_iter.
    destruct (reads_on_next newer older b b1 dropped kb Hst R1) as (N & r & b' & Hr & Hres); auto.
    + by apply stored_set_read_iter.
    + apply (reads_seq_ok b); [done|by apply seq_ok_MoveToEnd].
    + left. unfold b1, position at 2. cbn [set_read_iter read_iter_]. rewrite Hk, Hv. unfold position. rewrite is_valid_MoveToEnd. destruct (cur (MoveToEnd _)); lia.
    + exists (S N), r, b'. split; [|done]. intros [|fuel] fuel0 ? ?; [lia|]. cbn [ReadChunks]. rewrite Hv. cbn [negb andb]. unfold deref.
      rewrite Hk, Hm. cbn [obind]. rewrite Hnp. apply Hr; lia.
  - set (d := if 0 <? num_fragments_read m then last_read_packet_skipped m else dropped).
    destruct (ReadFragments_spec newer older kb _ b d k (sequence_properties k m) (Nat.lt_succ_diag_r _) Hst Hsq Hv Hk ltac:(by exists m; auto)) as (N & r & Hr & Hres).
    assert (Hstep : forall fuel fuel0, (N <= fuel0)%nat -> ReadChunks (S fuel) fuel0 [] dropped b =
      match r with
      | InnerReturn packet props dropped b => Ok (Some (packet, props, dropped), b)
      | InnerBreak packet dropped b => let! it := MoveNext b (read_iter_ b) in ReadChunks fuel fuel0 packet dropped (set_read_iter it b)
      end).
    { intros. cbn [ReadChunks]. rewrite Hv. cbn [negb andb]. unfold deref. rewrite Hk, Hm. cbn [obind]. rewrite Hnp. fold d. rewrite Hr by lia. reflexivity. }
    destruct r as [packet props d' b1|packet d' b1]; cbn [fragments_result] in Hres.
    + destruct Hres as (-> & R & Hst1 & Hsq1 & Hlt & Hstitch). exists (S N). eexists _, b1. split; [intros [|fuel] fuel0 ? ?; [lia|]; rewrite Hstep by lia; reflexivity|].
      split; [done|]. split; [done|]. split; [right; by exists kb|]. split; [done|]. destruct k as [[p w] c]. cbn [sequence_properties].
      split; [by exists (p, w, c), m|]. cbn [props_sequence]. by rewrite <- Hs in Hstitch.
    + destruct Hres as (-> & R & Hst1 & Hsq1 & Hpos). destruct (reads_on_next newer older b b1 d' kb Hst R) as (N2 & r & b' & Hr2 & Hres); auto.
      exists (S (N + N2)), r, b'. split; [|done]. intros [|fuel] fuel0 ? ?; [lia|]. rewrite Hstep by lia. apply Hr2; lia.
Qed.

Lemma ReadChunks_spec newer older : forall n b dropped, (Z.to_nat (remaining b) < n)%nat -> stored b newer older -> iter_ok b (read_iter_ b) -> reads_on newer older b dropped.
Proof.
  induction n as [|n IH]; intros b dropped Hn Hst Hit; [lia|]. pose proof (remaining_nonneg _ _ _ Hst) as Hpos.
  assert (Hrec : forall b2 d, stored b2 newer older -> iter_ok b2 (read_iter_ b2) -> remaining b2 < remaining b -> reads_on newer older b2 d).
  { intros b2 d H1 H2 H3. apply IH; [|done|done]. pose proof (remaining_nonneg _ _ _ H1). lia. }
  destruct (is_valid (read_iter_ b)) eqn:Hv.
  { destruct Hit as [[H1 H2]|[kb Hsq]]; [unfold is_valid in Hv; bool_facts; congruence|]. by apply (ReadChunks_valid newer older b dropped kb). }
  destruct (seq_end (read_iter_ b)) as [ke|] eqn:He.
  - destruct Hit as [[H1 H2]|[kb Hsq]]; [congruence|]. destruct (next_sequence b newer older kb ke Hst Hsq He) as (Hst1 & R1 & [kb1 Hsq1] & Hv1 & Hlt).
    destruct (ReadChunks_valid newer older _ true kb1 Hst1 Hsq1 Hv1) as (N & r & b' & Hr & Hres).
    { intros. apply Hrec; [done|done|lia]. }
    exists (S N), r, b'. split; [|by eapply read_result_trans]. intros [|fuel] fuel0 ? ?; [lia|].
    rewrite <- (Hr (S fuel) fuel0) by lia. cbn [ReadChunks]. rewrite Hv, Hv1. cbn [negb andb]. by rewrite bool_decide_false by congruence.
  - exists 1%nat, None, b. split.
    { intros [|fuel] fuel0 ? ?; [lia|]. cbn [ReadChunks]. rewrite Hv. cbn [negb andb]. by rewrite bool_decide_true. }
    split; [auto with reads|]. split; [done|]. split; [done|]. unfold is_valid in Hv. bool_facts. apply dec_stable in Hv. split; congruence.
Qed.
