(* ===== verification/TraceBufferSession.v ===== *)
(** * The trace buffer as a whole (src/tracing/core/trace_buffer.h)

    Sessions: copies, patches and complete reads in any order, as the service makes them.
    The theorems: what is left to read stays well-formed through every write, a session
    does not fail and its reads end, and what is copied into the buffer is read back. *)

From S2P Require Import Prelude ProtoUtils TraceBuffer TraceBufferRead.

(** ** The cursors and the last chunk ids through the writes *)

Record tracked (idx : gmap Key ChunkMeta) (last : gmap (Z * Z) Z) : Prop := {
  tr_cursors : forall k m, idx !! k = Some m -> cursor_ok m;
  tr_known : forall k, is_Some (idx !! k) -> is_Some (last !! Key_sequence k);
  tr_ids : forall s c, last !! s = Some c -> word_ok 32 c
}.

Lemma tracked_deletes ks idx last : tracked idx last -> tracked (foldr delete idx ks) last.
Proof.
  intros H. induction ks as [|k ks I]; [done|]. cbn [foldr]. split; [| |apply (tr_ids _ _ H)].
  - intros k' m [_ Hm]%lookup_delete_Some. by apply (tr_cursors _ _ I k').
  - intros k' [m [_ Hm]%lookup_delete_Some]. apply (tr_known _ _ I). by exists m.
Qed.
Lemma tracked_insert idx last k m : tracked idx last -> cursor_ok m -> is_Some (last !! Key_sequence k) -> tracked (<[k := m]> idx) last.
Proof.
  intros H Hm Hc. split; [| |apply (tr_ids _ _ H)].
  - intros k' m' [[_ <-]|[_ Hk]]%lookup_insert_Some; [done|by apply (tr_cursors _ _ H k')].
  - intros k' [m' [[<- _]|[_ Hk]]%lookup_insert_Some]; [done|apply (tr_known _ _ H); by exists m'].
Qed.
Lemma tracked_last idx last s c : tracked idx last -> word_ok 32 c -> tracked idx (<[s := c]> last).
Proof.
  intros H Hc. split; [apply (tr_cursors _ _ H)| |].
  - intros k Hk. destruct (decide (s = Key_sequence k)) as [->|Hne]; [by rewrite lookup_insert_eq|]. rewrite lookup_insert_ne by done. by apply (tr_known _ _ H).
  - intros s' c' [[_ <-]|[_ Hk]]%lookup_insert_Some; [done|by apply (tr_ids _ _ H s')].
Qed.

Definition tracks (b : TraceBuffer) : Prop := tracked (index_ b) (last_chunk_id_written_ b).
(** The index and the last ids are not written by the operations on the bytes. *)
Definition same_tracks (b b' : TraceBuffer) : Prop := index_ b' = index_ b /\ last_chunk_id_written_ b' = last_chunk_id_written_ b.

Lemma WriteChunkRecord_tracks wptr r src n b b' : WriteChunkRecord wptr r src n b = Ok b' -> same_tracks b b' /\ wptr_ b' = wptr_ b.
Proof. unfold WriteChunkRecord. destruct (_ <=? _); [|done]. cbn. destruct (_ <=? _); [|done]. cbn. by intros [= <-]. Qed.
Lemma AddPaddingRecord_tracks s b b' : AddPaddingRecord s b = Ok b' -> same_tracks b b'.
Proof.
  unfold AddPaddingRecord. destruct (WriteChunkRecord _ _ _ _ b) as [b1|] eqn:E; [|done]. cbn. intros [= <-]. by apply WriteChunkRecord_tracks in E as [[H1 H2] _].
Qed.
Lemma DeleteNextChunksFor_tracks n b r b' : DeleteNextChunksFor n b = Ok (r, b') -> tracks b -> tracks b' /\ last_chunk_id_written_ b' = last_chunk_id_written_ b.
Proof.
  unfold DeleteNextChunksFor. destruct (negb _); [|done]. cbn [perfetto_check obind]. destruct (DeleteScan _ _ _ _ _ _ _ _) as [[| |p ks n1 n2 n3]|]; [..|done]; cbn; intros [= <- <-]; [done|done|].
  intros H. split; [|done]. by apply tracked_deletes.
Qed.
Lemma RewriteChunk_tracks key m r rs nf flags complete src b b' : index_ b !! key = Some m -> RewriteChunk key m r rs nf flags complete src b = Ok b' ->
  tracks b -> tracks b'.
Proof.
  intros Hm. unfold RewriteChunk. destruct (GetChunkRecordAt _ _) as [prev|]; [|done]. cbn [obind]. destruct key as [[p w] c]. cbv zeta.
  destruct (_ || _); [by intros [= <-]|]. destruct (_ =? _); [by intros [= <-]|]. match goal with |- (if ?x then _ else _) = _ -> _ => destruct x end; [by intros [= <-]|].
  destruct (_ <? _); [by intros [= <-]|]. destruct (WriteChunkRecord _ _ _ _ _) as [b1|] eqn:E; [|done]. cbn. intros [= <-] H.
  apply WriteChunkRecord_tracks in E as [[E1 E2] _]. unfold tracks. cbn [stat index_ last_chunk_id_written_]. rewrite E1, E2.
  apply tracked_insert; [exact H| |apply (tr_known _ _ H); by exists m]. destruct (tr_cursors _ _ H _ _ Hm). by split.
Qed.
Lemma WrapIfNeeded_tracks rs b r : WrapIfNeeded rs b = Ok r -> tracks b -> match r with inl b' | inr b' => tracks b' end.
Proof.
  unfold WrapIfNeeded. destruct (_ <? _); [|by intros [= <-]]. destruct (DeleteNextChunksFor _ _) as [[[x|] b1]|] eqn:E; cbn [obind]; [|by intros [= <-] H; apply (DeleteNextChunksFor_tracks _ _ _ _ E)|done].
  destruct (AddPaddingRecord _ b1) as [b2|] eqn:E2; cbn [obind]; [|done]. intros [= <-] H. apply AddPaddingRecord_tracks in E2 as [E3 E4].
  destruct (DeleteNextChunksFor_tracks _ _ _ _ E H) as [H1 _]. unfold tracks. cbn [stat set_wptr index_ last_chunk_id_written_]. by rewrite E3, E4.
Qed.
Lemma UpdateLastChunkId_tracks p w c b : tracks b -> word_ok 32 c ->
  let b' := UpdateLastChunkId p w c b in tracks b' /\ index_ b' = index_ b /\ is_Some (last_chunk_id_written_ b' !! (p, w)).
Proof.
  intros H Hc. unfold UpdateLastChunkId. set (l := default 0 _). assert (Hl : word_ok 32 l).
  { unfold l. destruct (last_chunk_id_written_ b !! (p, w)) as [c'|] eqn:E; [by apply (tr_ids _ _ H (p, w))|done]. }
  assert (H1 : tracked (index_ b) (<[(p, w) := l]> (last_chunk_id_written_ b))) by (by apply tracked_last).
  destruct (_ <? _); cbn; (split; [|split; [done|by rewrite lookup_insert_eq]]); [by apply tracked_last|exact H1].
Qed.
Lemma InsertChunk_tracks key r rs meta src b b' : InsertChunk key r rs meta src b = Ok b' -> tracks b -> word_ok 32 (Key_chunk key) ->
  (forall ptr, cursor_ok (meta ptr)) -> tracks b'.
Proof.
  unfold InsertChunk. destruct (DeleteNextChunksFor rs b) as [[[pad|] b1]|] eqn:Ed; cbn [obind]; [| |done];
    [|intros [= <-] H _ _; by apply (DeleteNextChunksFor_tracks _ _ _ _ Ed)].
  destruct (WriteChunkRecord _ _ _ _ _) as [b2|] eqn:Ew; cbn [obind]; [|done]. destruct key as [[p w] c]. intros Hb' H Hc Hmeta.
  destruct (DeleteNextChunksFor_tracks _ _ _ _ Ed H) as [H1 _]. apply WriteChunkRecord_tracks in Ew as [[E1 E2] E3].
  cbn [set_index stat index_ last_chunk_id_written_ wptr_] in E1, E2, E3.
  set (b3 := if _ <=? _ then _ else _) in Hb'. assert (H3 : index_ b3 = index_ b2 /\ last_chunk_id_written_ b3 = last_chunk_id_written_ b2).
  { unfold b3. by destruct (_ <=? _). }
  destruct H3 as [E4 E5]. 
  destruct (UpdateLastChunkId_tracks p w c (set_index (index_ b1) b3)) as (T1 & T2 & T3); [unfold tracks; cbn; by rewrite E5, E2|done|].
  assert (Hup : last_chunk_id_written_ (UpdateLastChunkId p w c (set_index (index_ b1) b3)) = last_chunk_id_written_ (UpdateLastChunkId p w c b3)).
  { unfold UpdateLastChunkId. cbn. by destruct (_ <? _). }
  assert (Hidx : index_ (UpdateLastChunkId p w c b3) = index_ b3) by (unfold UpdateLastChunkId; by destruct (_ <? _)).
  assert (T : tracks (UpdateLastChunkId p w c b3)).
  { unfold tracks in *. rewrite T2, Hup in T1. rewrite Hup in T3. rewrite Hidx, E4, E1. cbn [set_index index_] in T1.
    match goal with |- tracked (match ?x with _ => _ end) _ => destruct x end; [exact T1|]. by apply tracked_insert. }
  destruct (negb (pad =? 0)); [|by injection Hb' as <-]. apply AddPaddingRecord_tracks in Hb' as [E6 E7]. unfold tracks in *. by rewrite E6, E7.
Qed.

Lemma CopyChunk_tracks p uid pid w c nf flags complete src b b' : CopyChunkUntrusted p uid pid w c nf flags complete src b = Ok b' -> tracks b -> word_ok 32 c ->
  tracks b'.
Proof.
  unfold CopyChunkUntrusted. destruct (_ <? _); [by intros [= <-]|]. destruct (complete_part _ _ _) as [n f]. cbv zeta.
  destruct (index_ b !! _) as [m|] eqn:Em; [intros Hb' H _; by apply (RewriteChunk_tracks _ _ _ _ _ _ _ _ _ _ Em Hb')|].
  destruct (discard_writes_ b); [by intros [= <-]|]. destruct (WrapIfNeeded _ b) as [[b1|b1]|] eqn:E; cbn [obind]; [intros [= <-] H _; by apply (WrapIfNeeded_tracks _ _ _ E)| |done].
  intros Hb' H Hc. apply (InsertChunk_tracks _ _ _ _ _ _ _ Hb'); [by apply (WrapIfNeeded_tracks _ _ _ E)|done|done].
Qed.
Lemma TryPatch_tracks p w c patches pending b r : TryPatchChunkContents p w c patches pending b = Ok r -> tracks b -> tracks r.2.
Proof.
  assert (Hap : forall cb ce ps b0, same_tracks b0 (ApplyPatches cb ce ps b0).2).
  { intros cb ce ps. induction ps as [|[off bytes] ps IH]; intros b0; [done|]. cbn [ApplyPatches]. destruct (_ || _); [done|]. destruct (IH (set_data (zwrite (cb + sizeof_ChunkRecord + off) bytes (data_ b0)) b0)). by split. }
  unfold TryPatchChunkContents. destruct (index_ b !! (p, w, c)) as [m|] eqn:Em; [|by intros [= <-]]. destruct (GetChunkRecordAt _ _) as [rec|]; [|done]. cbn [obind].
  specialize (Hap (chunk_record m) (chunk_record m + rc_size rec) patches b). destruct (ApplyPatches _ _ _ _) as [ok b1]. destruct Hap as [E1 E2]. cbn [snd] in *.
  destruct ok; cbn [negb]; [|intros [= <-]; unfold tracks; cbn; by rewrite E1, E2].
  destruct pending; cbn [negb]; intros [= <-] H; unfold tracks in *; cbn; rewrite E1, E2; [exact H|].
  apply tracked_insert; [exact H|by apply (tr_cursors _ _ H _ _ Em)|apply (tr_known _ _ H); by exists m].
Qed.
Lemma apply_op_tracks o b b' : apply_op o b = Ok b' -> op_ok o -> tracks b -> tracks b'.
Proof.
  destruct o as [p uid pid w c nf flags complete src|p w c patches pending]; cbn [apply_op op_ok].
  - intros Hb' (_ & _ & Hc & _) H. by apply (CopyChunk_tracks _ _ _ _ _ _ _ _ _ _ _ Hb').
  - destruct (TryPatchChunkContents _ _ _ _ _ _) as [[ok b1]|] eqn:E; [|done]. cbn. intros [= <-] _ H. by apply (TryPatch_tracks _ _ _ _ _ _ _ E).
Qed.
Lemma reads_tracks b b' newer older : reads b b' -> stored b' newer older -> tracks b -> tracks b'.
Proof.
  intros R Hst H. split; [apply (st_cursors _ _ _ Hst)| |]; rewrite (rd_last _ _ R); [|apply (tr_ids _ _ H)].
  intros k Hk. apply (tr_known _ _ H). by apply (reads_dom b b').
Qed.
Lemma tracks_stored b newer older : well_laid b newer older -> tracks b -> stored b newer older.
Proof.
  intros Hw H. split; [done|apply (tr_cursors _ _ H)|]. intros k Hk. destruct (tr_known _ _ H k Hk) as [c Hc]. exists c. split; [done|by apply (tr_ids _ _ H _ _ Hc)].
Qed.

(** ** Reading until nothing is left *)

Lemma BeginRead_spec b newer older : stored b newer older -> stored (BeginRead b) newer older /\ iter_ok (BeginRead b) (read_iter_ (BeginRead b)) /\ reads b (BeginRead b).
Proof.
  intros Hst. split; [by apply stored_set_read_iter|]. split; [|apply reads_set_read_iter].
  pose proof (index_begin_least (index_ b)) as L. unfold BeginRead. cbn [set_read_iter read_iter_].
  destruct (index_begin (index_ b)) as [k|]; [|by left]. destruct L as (D & _ & M). right. exists k.
  apply (reads_seq_ok b); [apply reads_set_read_iter|]. apply (GetReadIter_spec b newer older k Hst D). intros k' Hk' _. by apply M.
Qed.

Definition from_buffer (b : TraceBuffer) (r : TracePacket * PacketSequenceProperties * bool) : Prop :=
  identified b r.1.2 /\ stitched b (props_sequence r.1.2) r.1.1.
Lemma reads_from_buffer b b' r : reads b b' -> from_buffer b' r -> from_buffer b r.
Proof. intros R [H1 H2]. split; [by eapply reads_identified|by eapply reads_stitched]. Qed.

Lemma ReadAll_spec newer older : forall n b, (Z.to_nat (remaining b) < n)%nat -> stored b newer older -> iter_ok b (read_iter_ b) ->
  exists N ps b', (forall n fuel, (N <= n)%nat -> (N <= fuel)%nat -> ReadAll n fuel b = Ok (ps, b')) /\
    reads b b' /\ stored b' newer older /\ at_end (read_iter_ b') /\ Forall (from_buffer b) ps.
Proof.
  induction n as [|n IH]; intros b Hn Hst Hit; [lia|]. destruct (ReadChunks_spec newer older _ b true (Nat.lt_succ_diag_r _) Hst Hit) as (N & r & b1 & Hr & R1 & Hst1 & Hit1 & Hres).
  destruct r as [[[packet props] d]|].
  - destruct Hres as (Hlt & Hid & Hs). pose proof (remaining_nonneg _ _ _ Hst1). destruct (IH b1) as (N1 & ps & b' & Hall & R' & Hst' & Hend & Hps); [lia|done|done|].
    exists (S (N + N1)), ((packet, props, d) :: ps), b'. split.
    { intros [|n'] fuel ? ?; [lia|]. cbn [ReadAll]. unfold ReadNextTracePacket. rewrite Hr by lia. cbn [obind]. by rewrite Hall by lia. }
    split; [by eapply reads_trans|]. split; [done|]. split; [done|]. constructor; [done|]. eapply Forall_impl; [exact Hps|]. intros. by eapply reads_from_buffer.
  - exists (S N), [], b1. split; [|by split; [|split; [|split]]]. intros [|n'] fuel ? ?; [lia|]. cbn [ReadAll]. unfold ReadNextTracePacket. by rewrite Hr by lia.
Qed.

(** ** Sessions *)

Inductive session_op : Type := SWrite (o : write_op) | SRead.
Definition session_op_ok (o : session_op) : Prop := match o with SWrite o => op_ok o | SRead => True end.
(** The packets read, in order. *)
Definition session_step (fuel : nat) (acc : outcome (list (TracePacket * PacketSequenceProperties * bool) * TraceBuffer)) (o : session_op) :=
  let! (ps, b) := acc in
  match o with
  | SWrite o => let! b := apply_op o b in Ok (ps, b)
  | SRead => let! (more, b) := ReadAll fuel fuel (BeginRead b) in Ok (ps ++ more, b)
  end.
Definition run_session (fuel : nat) (ops : list session_op) (b : TraceBuffer) :=
  fold_left (session_step fuel) ops (Ok ([], b)).

Lemma session_crash fuel ops : fold_left (session_step fuel) ops Crash = Crash.
Proof. by induction ops. Qed.
Lemma run_session_spec ops : forall b ps newer older, well_laid b newer older -> tracks b -> Forall session_op_ok ops ->
  exists N, forall fuel, (N <= fuel)%nat ->
  match fold_left (session_step fuel) ops (Ok (ps, b)) with
  | Ok (_, b') => exists newer' older', stored b' newer' older' /\ size_ b' = size_ b
  | Crash => exists pre o post ps' b', ops = pre ++ SWrite o :: post /\ fold_left (session_step fuel) pre (Ok (ps, b)) = Ok (ps', b') /\ rewrite_overflow o b'
  end.
Proof.
  induction ops as [|o ops IH]; intros b ps newer older Hw Ht Hok; [exists O; intros; exists newer, older; split; [by apply tracks_stored|done]|].
  apply Forall_cons in Hok as [Ho Hok]. destruct o as [o|].
  - pose proof (apply_op_spec o b newer older Hw Ho) as H1. destruct (apply_op o b) as [b1|] eqn:E1.
    + destruct H1 as (ne & ol & Hw1 & (Hsize & _)). destruct (IH b1 ps ne ol Hw1 (apply_op_tracks o b b1 E1 Ho Ht) Hok) as [N HN]. exists N. intros fuel Hf.
      specialize (HN fuel Hf). cbn [fold_left]. assert (Es : session_step fuel (Ok (ps, b)) (SWrite o) = Ok (ps, b1)) by (cbn; by rewrite E1). rewrite Es.
      destruct (fold_left _ ops (Ok (ps, b1))) as [[ps2 b2]|].
      * destruct HN as (n2 & o2 & H2 & H3). exists n2, o2. split; [done|congruence].
      * destruct HN as (pre & o' & post & ps' & b' & -> & Hpre & Hov). exists (SWrite o :: pre), o', post, ps', b'. split; [done|]. split; [|done].
        cbn [fold_left]. by rewrite Es.
    + exists O. intros fuel _. cbn [fold_left]. assert (Es : session_step fuel (Ok (ps, b)) (SWrite o) = Crash) by (cbn; by rewrite E1). rewrite Es, session_crash.
      exists [], o, ops, ps, b. done.
  - destruct (BeginRead_spec b newer older (tracks_stored _ _ _ Hw Ht)) as (Hst0 & Hit0 & R0).
    destruct (ReadAll_spec newer older _ (BeginRead b) (Nat.lt_succ_diag_r _) Hst0 Hit0) as (N & more & b1 & Hall & R1 & Hst1 & _ & _).
    assert (R := reads_trans _ _ _ R0 R1). destruct (IH b1 (ps ++ more) newer older (st_laid _ _ _ Hst1) (reads_tracks _ _ _ _ R Hst1 Ht) Hok) as [N2 HN].
    exists (N + N2)%nat. intros fuel Hf. specialize (HN fuel ltac:(lia)). cbn [fold_left].
    assert (Es : session_step fuel (Ok (ps, b)) SRead = Ok (ps ++ more, b1)) by (cbn [session_step obind]; by rewrite Hall by lia). rewrite Es.
    destruct (fold_left _ ops (Ok (ps ++ more, b1))) as [[ps2 b2]|].
    + destruct HN as (n2 & o2 & H2 & H3). exists n2, o2. split; [done|]. destruct (rd_ring _ _ R) as (R3 & _). congruence.
    + destruct HN as (pre & o' & post & ps' & b' & -> & Hpre & Hov). exists (SRead :: pre), o', post, ps', b'. split; [done|]. split; [|done].
      cbn [fold_left]. by rewrite Es.
Qed.

(** ** Fragments written and read back *)

(** A fragment as a trace writer lays it out: a varint header, in at most four bytes, and
    the body. *)
Definition fragment : Type := list Z * list Z.
Definition fragment_bytes (f : fragment) : list Z := f.1 ++ f.2.
Record fragment_ok (f : fragment) : Prop := {
  fr_shape : varint_shape f.1 = true;
  fr_header : bytes_ok f.1 /\ zlen f.1 <= kMessageLengthFieldSize;
  fr_size : varint_value f.1 = zlen f.2
}.
(** Reading [n] fragments of a chunk. *)
Fixpoint read_fragments (n : nat) (k : Key) (packet : TracePacket) (b : TraceBuffer) : outcome (TracePacket * TraceBuffer) :=
  match n with
  | O => Ok (packet, b)
  | S n =>
      let! (res, packet, b) := ReadNextPacketInChunk k (Some packet) b in
      check! bool_decide (res <> kFailedInvalidPacket) in
      read_fragments n k (default [] packet) b
  end.

Lemma next_fragment_bytes pre f rest : fragment_ok f ->
  next_fragment (pre ++ fragment_bytes f ++ rest) (zlen pre) = Some (f.2, zlen pre + zlen (fragment_bytes f)).
Proof.
  destruct f as [h body]. unfold fragment_bytes. cbn [fst snd]. intros [Hs [Hb Hl] Hv]. cbn [fst snd] in *. unfold kMessageLengthFieldSize in *.
  pose proof (varint_shape_nonempty h Hs). pose proof (zlen_nonneg body). pose proof (zlen_nonneg rest). pose proof (zlen_nonneg pre).
  set (p := pre ++ (h ++ body) ++ rest). assert (Hp : zlen p = zlen pre + zlen h + zlen body + zlen rest) by (unfold p; rewrite !zlen_app; lia).
  unfold next_fragment, kMessageLengthFieldSize. replace ((zlen pre <? 0) || (zlen p <=? zlen pre)) with false by lia.
  assert (Hhead : exists t, zread (zlen pre) (Z.min 4 (zlen p - zlen pre)) p = h ++ t).
  { assert (Hq : zlen h <= Z.min 4 (zlen p - zlen pre)) by lia. set (q := Z.min _ _) in *. clearbody q.
    eexists. unfold p, zread. rewrite zdrop_zlen_app, <- app_assoc. unfold ztake. rewrite take_app_ge by (unfold zlen in *; lia). reflexivity. }
  destruct Hhead as [t ->]. rewrite (ParseVarInt_shape h t Hb Hs) by lia. rewrite Hv, u64_small.
  2: { rewrite <- Hv. pose proof (varint_value_nonneg h). pose proof (varint_value_bound h). split; [done|]. 
       assert (2 ^ (7 * zlen h) <= 2 ^ 28) by (apply Z.pow_le_mono_r; lia). lia. }
  replace ((zlen h + zlen body <=? 0) || (zlen p <? zlen pre + zlen h + zlen body)) with false by lia.
  f_equal. f_equal; [|rewrite zlen_app; lia]. unfold p. rewrite <- !app_assoc, (app_assoc pre h). rewrite <- zlen_app. apply zread_app_exact.
Qed.

Definition bodies (frs : list fragment) : TracePacket := filter (fun s => s <> []) (map snd frs).

Lemma bodies_cons f frs : bodies (f :: frs) = bodies [f] ++ bodies frs.
Proof. apply (filter_app _ (map snd [f]) (map snd frs)). Qed.
Lemma bodies_one f : bodies [f] = if decide (f.2 = []) then [] else [f.2].
Proof. unfold bodies. cbn [map]. rewrite filter_cons. by repeat case_decide. Qed.
Lemma read_fragments_spec newer older k frs : forall b m packet pre rest, stored b newer older -> index_ b !! k = Some m ->
  payload_of b m = pre ++ concat (map fragment_bytes frs) ++ rest -> cur_fragment_offset m = zlen pre -> Forall fragment_ok frs ->
  exists b' m', read_fragments (length frs) k packet b = Ok (packet ++ bodies frs, b') /\ reads b b' /\ stored b' newer older /\
    index_ b' !! k = Some m' /\ cur_fragment_offset m' = zlen pre + zlen (concat (map fragment_bytes frs)) /\
    (num_fragments_read m + Z.of_nat (length frs) < 65536 -> num_fragments_read m' = num_fragments_read m + Z.of_nat (length frs)).
Proof.
  induction frs as [|f frs IH]; intros b m packet pre rest Hst Hm Hpay Hoff Hok.
  - exists b, m. split; [by rewrite app_nil_r|]. split; [apply reads_refl|]. do 2 (split; [done|]). cbn. split; [change (zlen (@nil Z)) with 0; lia|lia].
  - apply Forall_cons in Hok as [Hf Hok]. cbn [map concat] in Hpay. rewrite <- app_assoc in Hpay.
    destruct (ReadNextPacketInChunk_spec b newer older k m (Some packet) Hst Hm) as (b1 & R1 & _ & H). rewrite Hpay, Hoff, (next_fragment_bytes pre f _ Hf) in H.
    destruct H as [Hcall Hidx]. set (m1 := set_last_read_packet_skipped false _) in Hidx.
    assert (Hm1 : index_ b1 !! k = Some m1) by (by rewrite Hidx, lookup_insert_eq).
    assert (Hp1 : payload_of b1 m1 = payload_of b m) by (apply reads_payload; [done|unfold m1; auto with reads]).
    assert (Hst1 : stored b1 newer older).
    { eapply stored_set_cursor; [exact R1|exact Hst| |exact Hidx]. apply (next_fragment_cursor b newer older k m f.2); [done|done|].
      by rewrite Hpay, Hoff, (next_fragment_bytes pre f _ Hf). }
    assert (Hpre : zlen (pre ++ fragment_bytes f) = zlen pre + zlen (fragment_bytes f)) by apply zlen_app.
    destruct (IH b1 m1 (packet ++ bodies [f]) (pre ++ fragment_bytes f) rest Hst1 Hm1) as (b' & m' & Hr & R' & Hst' & Hm' & Hoff' & Hn').
    + rewrite Hp1, Hpay. by rewrite <- !app_assoc.
    + unfold m1. cbn. by rewrite Hpre.
    + done.
    + exists b', m'. split.
      { cbn [read_fragments length]. rewrite Hcall. cbn [obind]. replace (packet ++ bodies (f :: frs)) with ((packet ++ bodies [f]) ++ bodies frs) by (by rewrite (bodies_cons f frs), app_assoc).
        rewrite <- Hr, bodies_one. destruct (decide (f.2 = [])); [by rewrite app_nil_r|done]. }
      split; [by eapply reads_trans|]. do 2 (split; [done|]). cbn [map concat]. rewrite !zlen_app in *. split; [lia|].
      intros Hlt. cbn [length] in *. rewrite Nat2Z.inj_succ in *. unfold m1 in Hn'. cbn in Hn'.
      destruct (st_cursors _ _ _ Hst k m Hm) as [[Hr0 _] _]. rewrite u16_small in Hn' by lia. rewrite Hn' by lia. lia.
Qed.

(** ** Properties *)

Lemma Create_tracks size pol : tracks (Create size pol).
Proof. unfold tracks. cbn [Create index_ last_chunk_id_written_]. split; [by intros k m ?%lookup_empty_Some|by intros k [m ?%lookup_empty_Some]|by intros s c ?%lookup_empty_Some]. Qed.
Lemma apply_ops_tracks ops : forall b b', apply_ops ops b = Ok b' -> Forall op_ok ops -> tracks b -> tracks b'.
Proof.
  induction ops as [|o ops IH]; intros b b'; [by intros [= <-]|]. unfold apply_ops. cbn [fold_left obind]. intros Hb' [Ho Hok]%Forall_cons Ht.
  destruct (apply_op o b) as [b1|] eqn:E; [apply (IH b1); [exact Hb'|done|by eapply apply_op_tracks]|].
  assert (Hc : fold_left (fun acc o => let! b := acc in apply_op o b) ops Crash = Crash) by (clear; by induction ops). by rewrite Hc in Hb'.
Qed.
Lemma sample_tracks pol : tracks (sample_buffer pol).
Proof. apply (apply_ops_tracks sample_ops (Create 64 pol)); [apply sample_ok|apply sample_ops_ok|apply Create_tracks]. Qed.
Lemma sample_stored pol : exists newer older, stored (sample_buffer pol) newer older.
Proof. destruct (sample_laid pol) as (ne & ol & Hw). exists ne, ol. apply tracks_stored; [done|apply sample_tracks]. Qed.

(** C11. One call of ReadNextTracePacket, on a well-formed buffer and iterator: it ends
    (some fuel is enough, and more changes nothing), it fails no check and reads no byte
    outside the buffer, and it changes only cursors, statistics and the iterator.  It
    returns nothing only at the end of the last sequence; a packet it returns is made of
    fragments inside the payloads of consecutive chunks of one sequence, linked by their
    continuation flags and none of them awaiting patches, with the trusted identity of a
    chunk of that sequence; and what is left to read has decreased. *)
Theorem read_next_packet_correct (b : TraceBuffer) (newer older : list tile) : stored b newer older -> iter_ok b (read_iter_ b) ->
  exists N r b', (forall fuel, (N <= fuel)%nat -> ReadNextTracePacket fuel b = Ok (r, b')) /\ read_result newer older b r b'.
Proof.
  intros Hst Hit. destruct (ReadChunks_spec newer older _ b true (Nat.lt_succ_diag_r _) Hst Hit) as (N & r & b' & Hr & Hres).
  exists N, r, b'. split; [|exact Hres]. intros fuel Hf. by apply Hr.
Qed.

Lemma read_next_packet_correct_witness :
  exists newer older, let b := BeginRead (sample_buffer kOverwrite) in stored b newer older /\ iter_ok b (read_iter_ b) /\
  exists N r b', (forall fuel, (N <= fuel)%nat -> ReadNextTracePacket fuel b = Ok (r, b')) /\ read_result newer older b r b'.
Proof.
  destruct (sample_stored kOverwrite) as (ne & ol & Hst). destruct (BeginRead_spec _ _ _ Hst) as (Hst1 & Hit1 & _). exists ne, ol.
  split; [exact Hst1|]. split; [exact Hit1|]. exact (read_next_packet_correct _ ne ol Hst1 Hit1).
Defined.

(** Reading everything: BeginRead followed by ReadNextTracePacket until it returns
    false ends, on every well-formed buffer, with the iterator at the end of the index;
    the memory, the write pointer and the stored chunks are as before, and every packet
    is stitched from the chunks of its sequence. *)
Theorem read_all_correct (b : TraceBuffer) (newer older : list tile) : stored b newer older ->
  exists N ps b', (forall n fuel, (N <= n)%nat -> (N <= fuel)%nat -> ReadAll n fuel (BeginRead b) = Ok (ps, b')) /\
    reads b b' /\ stored b' newer older /\ at_end (read_iter_ b') /\ Forall (from_buffer b) ps.
Proof.
  intros Hst. destruct (BeginRead_spec _ _ _ Hst) as (Hst1 & Hit1 & R1).
  destruct (ReadAll_spec newer older _ (BeginRead b) (Nat.lt_succ_diag_r _) Hst1 Hit1) as (N & ps & b' & H1 & R & H2 & H3 & H4).
  exists N, ps, b'. split; [exact H1|]. split; [by eapply reads_trans|]. split; [done|]. split; [done|].
  eapply Forall_impl; [exact H4|]. intros. by eapply reads_from_buffer.
Qed.

Lemma read_all_correct_witness :
  exists newer older, stored (sample_buffer kOverwrite) newer older /\
  exists N ps b', (forall n fuel, (N <= n)%nat -> (N <= fuel)%nat -> ReadAll n fuel (BeginRead (sample_buffer kOverwrite)) = Ok (ps, b')) /\ at_end (read_iter_ b').
Proof.
  destruct (sample_stored kOverwrite) as (ne & ol & Hst). exists ne, ol. split; [exact Hst|].
  destruct (read_all_correct _ ne ol Hst) as (N & ps & b' & H1 & _ & _ & H2 & _). exists N, ps, b'. by split.
Defined.

(** C12. Sessions: copies and patches with arguments of their C++ types and complete reads,
    in any order from an empty buffer, run to their end without failing, except by the
    rewrite of a stored chunk that is larger than what is left after the write pointer;
    the buffer stays well-formed and keeps its size. *)
Theorem session_correct (size : Z) (pol : OverwritePolicy) (ops : list session_op) :
  0 < size -> size `mod` 16 = 0 -> Forall session_op_ok ops ->
  exists N, forall fuel, (N <= fuel)%nat ->
  match run_session fuel ops (Create size pol) with
  | Ok (_, b) => exists newer older, stored b newer older /\ size_ b = size
  | Crash => exists pre o post ps b, ops = pre ++ SWrite o :: post /\ run_session fuel pre (Create size pol) = Ok (ps, b) /\ rewrite_overflow o b
  end.
Proof.
  intros Hs Hm Hok. exact (run_session_spec ops (Create size pol) [] [] [] (Create_well_laid size pol Hs Hm) (Create_tracks size pol) Hok).
Qed.

Lemma session_correct_witness :
  let ops := map SWrite sample_ops ++ [SRead] ++ map SWrite sample_ops ++ [SRead] in
  0 < 64 /\ 64 `mod` 16 = 0 /\ Forall session_op_ok ops /\
  exists N, forall fuel, (N <= fuel)%nat ->
  match run_session fuel ops (Create 64 kOverwrite) with
  | Ok (_, b) => exists newer older, stored b newer older /\ size_ b = 64
  | Crash => exists pre o post ps b, ops = pre ++ SWrite o :: post /\ run_session fuel pre (Create 64 kOverwrite) = Ok (ps, b) /\ rewrite_overflow o b
  end.
Proof.
  intros ops. assert (Hok : Forall session_op_ok ops).
  { assert (H : Forall session_op_ok (map SWrite sample_ops)) by (apply Forall_map, sample_ops_ok). assert (Hr : Forall session_op_ok [SRead]) by by constructor.
    unfold ops. rewrite !Forall_app. tauto. }
  split; [lia|]. split; [done|]. split; [exact Hok|]. exact (session_correct 64 kOverwrite ops ltac:(lia) eq_refl Hok).
Defined.

(** C13. Fragments written and read back: a new chunk made of well-formed fragments (a
    varint header of at most four bytes, and the body), copied in overwrite mode into a
    buffer it fits in, is then read to its end, and gives exactly its non-empty bodies in
    order. *)
Theorem copy_then_read (b : TraceBuffer) (newer older : list tile) (p uid pid w c flags : Z) (frs : list fragment) :
  well_laid b newer older -> tracks b -> overwrite_policy_ b = kOverwrite -> index_ b !! ((p, w, c) : Key) = None ->
  let src := concat (map fragment_bytes frs) in let nf := Z.of_nat (length frs) in
  copy_args_ok p w c nf flags src -> Forall fragment_ok frs -> chunk_record_size (zlen src) <= max_chunk_size_ b ->
  exists b1 b2 m2, CopyChunkUntrusted p uid pid w c nf flags true src b = Ok b1 /\
    read_fragments (length frs) (p, w, c) [] b1 = Ok (bodies frs, b2) /\
    index_ b2 !! ((p, w, c) : Key) = Some m2 /\ num_fragments_read m2 = nf /\ num_fragments m2 = nf.
Proof.
  intros Hw Ht Hpol Hnone src nf Hargs Hok Hfits.
  pose proof (CopyChunk_spec b newer older p uid pid w c nf flags true src Hw Hargs) as H. cbv zeta in H. rewrite Hnone in H.
  destruct (CopyChunkUntrusted _ _ _ _ _ _ _ _ _ _) as [b1|] eqn:Hcopy; [|by destruct H as [[? ?] _]].
  destruct H as (ne & ol & Hw1 & _ & dropped & live & _ & _ & [(Hch & _ & _ & m & Hm & Hinit)|(_ & [[? _]|[? _]])]); [|lia|congruence].
  pose proof Hargs as (_ & _ & Hc & Hnf & _). assert (Hst1 : stored b1 ne ol) by (apply tracks_stored; [done|by apply (CopyChunk_tracks _ _ _ _ _ _ _ _ _ _ _ Hcopy)]).
  set (t := copied_tile p w c nf flags true src) in *. assert (Hp : payload_of b1 m = t.2).
  { eapply payload_of_tile; [exact Hw1|exact Hm| |done]. rewrite Hch, elem_of_app. right. by left. }
  destruct (read_fragments_spec ne ol (p, w, c) frs b1 m [] [] (zeros (chunk_record_size (zlen src) - 16 - zlen src)) Hst1 Hm) as (b2 & m2 & Hr & R & _ & Hm2 & _ & Hn).
  - rewrite Hp. unfold t, copied_tile, complete_part, written_payload. done.
  - by rewrite Hinit.
  - exact Hok.
  - exists b1, b2, m2. split; [done|]. split; [exact Hr|]. split; [exact Hm2|].
    assert (Hr0 : num_fragments_read m = 0) by (by rewrite Hinit). assert (Hn0 : num_fragments m = nf) by (by rewrite Hinit).
    unfold word_ok in Hnf. rewrite Hr0 in Hn. split; [rewrite Hn; unfold nf in *; lia|].
    pose proof (rd_index _ _ R ((p, w, c) : Key)) as Hi. rewrite Hm, Hm2 in Hi. destruct Hi as (_ & _ & _ & _ & -> & _). done.
Qed.

Definition sample_fragments : list fragment := [([1], [65]); ([0], []); ([130; 0], [66; 67])].
Lemma sample_fragments_ok : Forall fragment_ok sample_fragments.
Proof. repeat constructor; unfold byte_ok, kMessageLengthFieldSize, zlen; cbn; lia. Qed.
Lemma copy_then_read_witness :
  exists b1 b2, CopyChunkUntrusted 2 0 0 7 5 3 0 true [1; 65; 0; 130; 0; 66; 67] (sample_buffer kOverwrite) = Ok b1 /\
    read_fragments 3 (2, 7, 5) [] b1 = Ok ([[65]; [66; 67]], b2).
Proof.
  destruct (sample_laid kOverwrite) as (ne & ol & Hw).
  destruct (copy_then_read (sample_buffer kOverwrite) ne ol 2 0 0 7 5 0 sample_fragments Hw (sample_tracks kOverwrite) eq_refl ltac:(vm_compute; reflexivity)
    ltac:(typed_args) sample_fragments_ok ltac:(apply Z.leb_le; vm_compute; reflexivity)) as (b1 & b2 & _ & H1 & H2 & _).
  exists b1, b2. split; [exact H1|exact H2].
Defined.

(** A late chunk can truncate a packet: chunk 1, which starts with the end of a packet
    that chunk 0 begins, arrives first; its two fragments are consumed, the first one
    skipped as a continuation of a missing chunk, and the second one returned.  When
    chunk 0 arrives, the lookahead takes the next fragment of chunk 1 without a check
    that there is one left: it reads the zeros after the payload, an empty fragment, and
    returns the beginning of the packet alone as if it were complete. *)
Theorem late_chunk_truncates_packet :
  let late := OpCopy 1 5 6 1 1 2 kFirstPacketContinuesFromPrevChunk true [1; 68; 1; 69] in
  let early := OpCopy 1 5 6 1 0 2 kLastPacketContinuesOnNextChunk true [1; 65; 1; 66] in
  exists b1 b2 b3 b4 ps1 ps2 m,
    apply_op late (Create 4096 kOverwrite) = Ok b1 /\ ReadAll 10 50 (BeginRead b1) = Ok (ps1, b2) /\ map (fun p => p.1.1) ps1 = [[[69]]] /\
    apply_op early b2 = Ok b3 /\ ReadAll 10 50 (BeginRead b3) = Ok (ps2, b4) /\ map (fun p => p.1.1) ps2 = [[[65]]; [[66]]] /\
    index_ b4 !! ((1, 1, 1) : Key) = Some m /\ num_fragments m = 2 /\ num_fragments_read m = 3.
Proof.
  intros late early.
  assert (H : match apply_op late (Create 4096 kOverwrite) with
    | Ok b1 => match ReadAll 10 50 (BeginRead b1) with
      | Ok (ps1, b2) => match apply_op early b2 with
        | Ok b3 => match ReadAll 10 50 (BeginRead b3) with
          | Ok (ps2, b4) => bool_decide (map (fun p => p.1.1) ps1 = [[[69]]]) && bool_decide (map (fun p => p.1.1) ps2 = [[[65]]; [[66]]]) &&
              match index_ b4 !! ((1, 1, 1) : Key) with Some m => (num_fragments m =? 2) && (num_fragments_read m =? 3) | None => false end
          | Crash => false end
        | Crash => false end
      | Crash => false end
    | Crash => false end = true) by (vm_compute; reflexivity).
  destruct (apply_op late _) as [b1|]; [|done]. destruct (ReadAll 10 50 (BeginRead b1)) as [[ps1 b2]|] eqn:E2; [|done].
  destruct (apply_op early b2) as [b3|] eqn:E3; [|done]. destruct (ReadAll 10 50 (BeginRead b3)) as [[ps2 b4]|] eqn:E4; [|done].
  destruct (index_ b4 !! ((1, 1, 1) : Key)) as [m|] eqn:Em; bool_facts; [|done]. by exists b1, b2, b3, b4, ps1, ps2, m.
Qed.
