(* ===== verification/SharedMemoryAbi.v ===== *)
(** * The shared memory buffer between producers and the service
    (src/tracing/core/shared_memory_abi.cc, include/perfetto/ext/tracing/core/shared_memory_abi.h)

    The pages and their chunks: geometry, the 32-bit word of a page that holds its
    partition and the state of its chunks, and the lock-free operations on it as steps of
    concurrent threads (each atomic load, compare-and-swap and store is one step).  The
    theorems: no interleaving makes two owners of a chunk, fails a check or lets a write
    leave its chunk; a chunk only goes through its states in order and its bytes are
    stable once complete; every operation is wait-free. *)

From S2P Require Import Prelude ProtoUtils.

(** Divisions by constants in lia. *)
#[local] Ltac Zify.zify_post_hook ::= Z.to_euclidean_division_equations.

(** ** Constants *)

Definition kMinPageSize : Z := 4 * 1024.
Definition kMaxPageSize : Z := 64 * 1024.
Definition kChunkFree : Z := 0.
Definition kChunkBeingWritten : Z := 1.
Definition kChunkBeingRead : Z := 2.
Definition kChunkComplete : Z := 3.
Definition kNumPageLayouts : Z := 8.
Definition kNumChunksForLayout : list Z := [0; 1; 2; 4; 7; 14; 0; 0].
Definition kChunkAlignment : Z := 4.
Definition kChunkShift : Z := 2.
Definition kChunkMask : Z := 3.
Definition kLayoutMask : Z := 1879048192.
Definition kLayoutShift : Z := 28.
Definition kAllChunksMask : Z := 268435455.
Definition kAllChunksComplete : Z := 268435455.
Definition kAllChunksFree : Z := 0.
Definition kRetryAttempts : nat := 64.
Definition sizeof_PageHeader : Z := 8.
Definition sizeof_ChunkHeader : Z := 8.

(** ** Geometry *)

Definition GetChunkSize (page_size divider : Z) : Z := ((page_size - sizeof_PageHeader) `div` divider) .& Z.lnot 3.
Definition chunk_size_of (page_size num_chunks : Z) : Z := if num_chunks =? 0 then 0 else GetChunkSize page_size num_chunks.
Definition InitChunkSizes (page_size : Z) : outcome (list Z) :=
  foldr (fun n acc => let! l := acc in check! chunk_size_of page_size n <=? 65535 in Ok (u16 (chunk_size_of page_size n) :: l))
    (Ok []) kNumChunksForLayout.

(** Addresses are offsets from start_, whose own value only matters for its alignment. *)
Record Abi := mkAbi { size_ : Z; page_size_ : Z; num_pages_ : Z; chunk_sizes_ : list Z }.
Definition Initialize (start size page_size : Z) : outcome Abi :=
  let! sizes := InitChunkSizes page_size in
  check! kMinPageSize <=? page_size in
  check! page_size <=? kMaxPageSize in
  check! page_size `mod` kMinPageSize =? 0 in
  check! start `mod` kMinPageSize =? 0 in
  check! size `mod` page_size =? 0 in
  Ok (mkAbi size page_size (size `div` page_size) sizes).

Definition page_start (a : Abi) (page_idx : Z) : Z := page_size_ a * page_idx.
Definition layout_index (page_layout : Z) : Z := (page_layout .& kLayoutMask) .>> kLayoutShift.
Definition GetNumChunksForLayout (page_layout : Z) : Z := znth kNumChunksForLayout (layout_index page_layout).
Definition GetChunkSizeForLayout (a : Abi) (page_layout : Z) : Z := znth (chunk_sizes_ a) (layout_index page_layout).
Definition GetChunkStateFromLayout (page_layout chunk_idx : Z) : Z := (page_layout .>> (chunk_idx * kChunkShift)) .& kChunkMask.
Fixpoint UsedChunks_loop (n : nat) (i page_layout res : Z) : Z :=
  match n with
  | O => res
  | S n => UsedChunks_loop n (i + 1) (page_layout .>> kChunkShift)
             (res .| (if negb (page_layout .& kChunkMask =? kChunkFree) then 1 .<< i else 0))
  end.
Definition GetUsedChunks (page_layout : Z) : Z := UsedChunks_loop (Z.to_nat (GetNumChunksForLayout page_layout)) 0 page_layout 0.

(** begin_ as an offset.  An invalid chunk is None where it can be returned. *)
Record Chunk := mkChunk { begin_ : Z; c_size : Z; chunk_idx_ : Z }.
#[export] Instance Chunk_eq_dec : EqDecision Chunk.
Proof. solve_decision. Defined.
Definition c_end (c : Chunk) : Z := begin_ c + c_size c.
Definition payload_begin (c : Chunk) : Z := begin_ c + sizeof_ChunkHeader.
Definition payload_size (c : Chunk) : Z := c_size c - sizeof_ChunkHeader.
Definition Chunk_new (begin size chunk_idx : Z) : outcome Chunk :=
  check! begin `mod` kChunkAlignment =? 0 in
  check! 0 <? size in
  Ok (mkChunk begin size chunk_idx).

Definition GetChunkUnchecked (a : Abi) (page_idx page_layout chunk_idx : Z) : outcome Chunk :=
  let chunk_size := GetChunkSizeForLayout a page_layout in
  let chunk_offset_in_page := sizeof_PageHeader + chunk_idx * chunk_size in
  Chunk_new (page_start a page_idx + chunk_offset_in_page) chunk_size (u8 chunk_idx).
Definition GetPageAndChunkIndex (a : Abi) (c : Chunk) : Z * Z :=
  let rel_addr := begin_ c in
  let page_idx := rel_addr `div` page_size_ a in
  let offset := rel_addr `mod` page_size_ a in
  (page_idx, (offset - sizeof_PageHeader) `div` c_size c).

(** ** The shared memory: the bytes, little-endian atomics *)

Definition load32 (off : Z) (mem : list Z) : Z := le_value (zread off 4 mem).
Definition load16 (off : Z) (mem : list Z) : Z := le_value (zread off 2 mem).
Definition store32 (off v : Z) (mem : list Z) : list Z := zwrite off (le_bytes 4 v) mem.
Definition store16 (off v : Z) (mem : list Z) : list Z := zwrite off (le_bytes 2 v) mem.

Definition GetPageLayout (a : Abi) (page_idx : Z) (mem : list Z) : Z := load32 (page_start a page_idx) mem.
Definition is_page_free (a : Abi) (page_idx : Z) (mem : list Z) : bool := GetPageLayout a page_idx mem =? 0.
Definition is_page_complete (a : Abi) (page_idx : Z) (mem : list Z) : bool :=
  let layout := GetPageLayout a page_idx mem in
  let num_chunks := GetNumChunksForLayout layout in
  if num_chunks =? 0 then false
  else (layout .& kAllChunksMask) =? (kAllChunksComplete .& ((1 .<< (num_chunks * kChunkShift)) - 1)).
Definition GetChunkState (a : Abi) (page_idx chunk_idx : Z) (mem : list Z) : Z := GetChunkStateFromLayout (GetPageLayout a page_idx mem) chunk_idx.
Fixpoint FreeChunks_loop (n : nat) (i layout res : Z) : Z :=
  match n with
  | O => res
  | S n => FreeChunks_loop n (i + 1) (layout .>> kChunkShift) (res .| (if layout .& kChunkMask =? kChunkFree then 1 .<< i else 0))
  end.
Definition GetFreeChunks (a : Abi) (page_idx : Z) (mem : list Z) : Z :=
  let layout := GetPageLayout a page_idx mem in FreeChunks_loop (Z.to_nat (GetNumChunksForLayout layout)) 0 layout 0.

(** The chunk header: chunk_id, writer_id, packets (count:10, flags:6). *)
Record ChunkHeader := mkHeader { h_chunk_id : Z; h_writer_id : Z; h_packets : Z }.
Definition chunk_id_at (c : Chunk) : Z := begin_ c.
Definition writer_id_at (c : Chunk) : Z := begin_ c + 4.
Definition packets_at (c : Chunk) : Z := begin_ c + 6.
Definition packets_count (packets : Z) : Z := packets .& 1023.
Definition packets_flags (packets : Z) : Z := packets .>> 10.
Definition Packets (count flags : Z) : Z := (count .& 1023) .| ((flags .& 63) .<< 10).

Definition writer_id (c : Chunk) (mem : list Z) : Z := load16 (writer_id_at c) mem.
Definition GetPacketCountAndFlags (c : Chunk) (mem : list Z) : Z * Z :=
  let packets := load16 (packets_at c) mem in (packets_count packets, packets_flags packets).
Definition IncrementPacketCount (c : Chunk) (mem : list Z) : Z * list Z :=
  let packets := load16 (packets_at c) mem in
  let packets := Packets (packets_count packets + 1) (packets_flags packets) in
  (packets_count packets, store16 (packets_at c) packets mem).
Definition IncreasePacketCountTo (packet_count : Z) (c : Chunk) (mem : list Z) : Z * list Z :=
  let packets := load16 (packets_at c) mem in
  let packets := if packets_count packets <? packet_count then Packets packet_count (packets_flags packets) else packets in
  (packets_count packets, store16 (packets_at c) packets mem).
Definition SetFlag (flag : Z) (c : Chunk) (mem : list Z) : list Z :=
  let packets := load16 (packets_at c) mem in
  store16 (packets_at c) (Packets (packets_count packets) (packets_flags packets .| flag)) mem.
Definition ClearNeedsPatchingFlag (c : Chunk) (mem : list Z) : list Z :=
  let packets := load16 (packets_at c) mem in
  store16 (packets_at c) (Packets (packets_count packets) (packets_flags packets .& Z.lnot 4)) mem.

(** ** The operations on the page word *)

Definition set_chunk_state (layout chunk_idx state : Z) : Z :=
  (layout .& u32 (Z.lnot (kChunkMask .<< (chunk_idx * kChunkShift)))) .| (state .<< (chunk_idx * kChunkShift)).
(** compare_exchange_strong on a 32-bit word. *)
Definition cas32 (off expected desired : Z) (mem : list Z) : bool * list Z :=
  if load32 off mem =? expected then (true, store32 off desired mem) else (false, mem).

Definition TryPartitionPage (a : Abi) (page_idx layout : Z) (mem : list Z) : bool * list Z :=
  cas32 (page_start a page_idx) 0 ((layout .<< kLayoutShift) .& kLayoutMask) mem.

(** ** Threads.  A thread is at a point of one of the operations, with its locals, and
    holds the chunks it has acquired, each with the state it acquired it in. *)

Inductive pc : Type :=
| Idle
| AcqLoad (page_idx chunk_idx desired : Z) (header : ChunkHeader) (attempt : nat)
| AcqCas (page_idx chunk_idx desired : Z) (header : ChunkHeader) (attempt : nat) (layout next_layout : Z)
| AcqStoreWriter (c : Chunk) (header : ChunkHeader)
| AcqStoreChunkId (c : Chunk) (header : ChunkHeader)
| AcqStorePackets (c : Chunk) (header : ChunkHeader)
| RelClearWriter (c : Chunk) (page_idx chunk_idx : Z)
| RelClearChunkId (c : Chunk) (page_idx chunk_idx : Z)
| RelClearPackets (c : Chunk) (page_idx chunk_idx : Z)
| RelLoad (c : Chunk) (desired page_idx chunk_idx : Z) (attempt : nat)
| RelCas (c : Chunk) (desired page_idx chunk_idx : Z) (attempt : nat) (layout next_layout : Z).
Record Thread := mkThread { t_pc : pc; held : list (Chunk * Z) }.

Definition acquire_from (desired : Z) : Z := if desired =? kChunkBeingWritten then kChunkFree else kChunkComplete.
Definition release_from (desired : Z) : Z := if desired =? kChunkComplete then kChunkBeingWritten else kChunkBeingRead.
(** The next iteration of a retry loop, or giving up. *)
Definition retry (attempt : nat) (k : nat -> pc) : pc := if (S attempt <? kRetryAttempts)%nat then k (S attempt) else Idle.

(** TryAcquireChunk and ReleaseChunk, one atomic access at a time. *)
Definition acquire_step (a : Abi) (t : Thread) (mem : list Z) : outcome (Thread * list Z) :=
  let goto p := Ok (mkThread p (held t), mem) in
  match t_pc t with
  | AcqLoad page_idx chunk_idx desired header attempt =>
      let layout := GetPageLayout a page_idx mem in
      if GetNumChunksForLayout layout <=? chunk_idx then goto Idle
      else if negb (GetChunkStateFromLayout layout chunk_idx =? acquire_from desired) then goto Idle
      else goto (AcqCas page_idx chunk_idx desired header attempt layout (set_chunk_state layout chunk_idx desired))
  | AcqCas page_idx chunk_idx desired header attempt layout next_layout =>
      let '(success, mem) := cas32 (page_start a page_idx) layout next_layout mem in
      if success then
        let! chunk := GetChunkUnchecked a page_idx layout chunk_idx in
        if desired =? kChunkBeingWritten then Ok (mkThread (AcqStoreWriter chunk header) (held t), mem)
        else Ok (mkThread Idle ((chunk, desired) :: held t), mem)
      else Ok (mkThread (retry attempt (AcqLoad page_idx chunk_idx desired header)) (held t), mem)
  | AcqStoreWriter c header => Ok (mkThread (AcqStoreChunkId c header) (held t), store16 (writer_id_at c) (h_writer_id header) mem)
  | AcqStoreChunkId c header => Ok (mkThread (AcqStorePackets c header) (held t), store32 (chunk_id_at c) (h_chunk_id header) mem)
  | AcqStorePackets c header => Ok (mkThread Idle ((c, kChunkBeingWritten) :: held t), store16 (packets_at c) (h_packets header) mem)
  | _ => Ok (t, mem)
  end.
(** ClearChunkHeader. *)
Definition clear_step (t : Thread) (mem : list Z) : outcome (Thread * list Z) :=
  match t_pc t with
  | RelClearWriter c page_idx chunk_idx => Ok (mkThread (RelClearChunkId c page_idx chunk_idx) (held t), store16 (writer_id_at c) 0 mem)
  | RelClearChunkId c page_idx chunk_idx => Ok (mkThread (RelClearPackets c page_idx chunk_idx) (held t), store32 (chunk_id_at c) 0 mem)
  | RelClearPackets c page_idx chunk_idx => Ok (mkThread (RelLoad c kChunkFree page_idx chunk_idx 0) (held t), store16 (packets_at c) 0 mem)
  | _ => Ok (t, mem)
  end.
Definition release_step (a : Abi) (t : Thread) (mem : list Z) : outcome (Thread * list Z) :=
  let goto p := Ok (mkThread p (held t), mem) in
  match t_pc t with
  | RelLoad c desired page_idx chunk_idx attempt =>
      let layout := GetPageLayout a page_idx mem in
      check! c_size c =? GetChunkSizeForLayout a layout in
      check! GetChunkStateFromLayout layout chunk_idx =? release_from desired in
      let next_layout := set_chunk_state layout chunk_idx desired in
      let next_layout := if next_layout .& kAllChunksMask =? kAllChunksFree then 0 else next_layout in
      goto (RelCas c desired page_idx chunk_idx attempt layout next_layout)
  | RelCas c desired page_idx chunk_idx attempt layout next_layout =>
      let '(success, mem) := cas32 (page_start a page_idx) layout next_layout mem in
      Ok (mkThread (if success then Idle else retry attempt (RelLoad c desired page_idx chunk_idx)) (held t), mem)
  | _ => Ok (t, mem)
  end.
Definition thread_step (a : Abi) (t : Thread) (mem : list Z) : outcome (Thread * list Z) :=
  match t_pc t with
  | Idle => Ok (t, mem)
  | AcqLoad _ _ _ _ _ | AcqCas _ _ _ _ _ _ _ | AcqStoreWriter _ _ | AcqStoreChunkId _ _ | AcqStorePackets _ _ => acquire_step a t mem
  | RelClearWriter _ _ _ | RelClearChunkId _ _ _ | RelClearPackets _ _ _ => clear_step t mem
  | _ => release_step a t mem
  end.

(** The first point of ReleaseChunk. *)
Definition ReleaseChunk (a : Abi) (c : Chunk) (desired : Z) : pc :=
  let '(page_idx, chunk_idx) := GetPageAndChunkIndex a c in
  if desired =? kChunkFree then RelClearWriter c page_idx chunk_idx else RelLoad c desired page_idx chunk_idx 0.
Definition TryAcquireChunk (page_idx chunk_idx desired : Z) (header : ChunkHeader) : pc := AcqLoad page_idx chunk_idx desired header 0.

(** The whole operation when no other thread interferes, within [fuel] steps. *)
Fixpoint run_operation (fuel : nat) (a : Abi) (t : Thread) (mem : list Z) : outcome (Thread * list Z) :=
  match t_pc t, fuel with
  | Idle, _ => Ok (t, mem)
  | _, O => Crash
  | _, S fuel => let! r := thread_step a t mem in run_operation fuel a r.1 r.2
  end.

(** ** All the threads of the producer and of the service *)

Record World := mkWorld { w_mem : list Z; w_threads : list Thread }.
Definition set_thread (i : nat) (t : Thread) (mem : list Z) (w : World) : World := mkWorld mem (<[i := t]> (w_threads w)).

(** One step: a thread goes on in an operation, or starts one.  The clients follow the
    protocol: an acquisition is for writing or for reading, a chunk is released by the
    thread that holds it and to the state after its own, only the holder of a chunk
    acquired for writing writes to it, and a page is partitioned with a valid layout. *)
Inductive step (a : Abi) (w : World) : nat -> World -> Prop :=
| step_continue i t t' mem' :
    w_threads w !! i = Some t -> t_pc t <> Idle -> thread_step a t (w_mem w) = Ok (t', mem') ->
    step a w i (set_thread i t' mem' w)
| step_acquire i t page_idx chunk_idx desired header :
    w_threads w !! i = Some t -> t_pc t = Idle -> 0 <= page_idx < num_pages_ a -> 0 <= chunk_idx ->
    desired = kChunkBeingWritten \/ desired = kChunkBeingRead ->
    step a w i (set_thread i (mkThread (TryAcquireChunk page_idx chunk_idx desired header) (held t)) (w_mem w) w)
| step_release i t pre c state post :
    w_threads w !! i = Some t -> t_pc t = Idle -> held t = pre ++ (c, state) :: post ->
    step a w i (set_thread i (mkThread (ReleaseChunk a c (if state =? kChunkBeingWritten then kChunkComplete else kChunkFree)) (pre ++ post)) (w_mem w) w)
| step_partition i t page_idx layout :
    w_threads w !! i = Some t -> t_pc t = Idle -> 0 <= page_idx < num_pages_ a -> 1 <= layout <= 5 ->
    step a w i (set_thread i t (TryPartitionPage a page_idx layout (w_mem w)).2 w)
| step_write i t c off bytes :
    w_threads w !! i = Some t -> t_pc t = Idle -> (c, kChunkBeingWritten) ∈ held t ->
    begin_ c <= off -> off + zlen bytes <= c_end c -> bytes_ok bytes ->
    step a w i (set_thread i t (zwrite off bytes (w_mem w)) w).
Inductive reachable (a : Abi) (w0 : World) : World -> Prop :=
| reachable_start : reachable a w0 w0
| reachable_step w i w' : reachable a w0 w -> step a w i w' -> reachable a w0 w'.

(** A zeroed buffer and [n] threads. *)
Definition start_world (a : Abi) (n : nat) : World := mkWorld (zeros (size_ a)) (replicate n (mkThread Idle [])).

(** ** The words *)

Definition state_at (word j : Z) : Z := GetChunkStateFromLayout word j.
Definition word_wf (word : Z) : Prop :=
  word_ok 31 word /\ layout_index word <= 5 /\ forall j, GetNumChunksForLayout word <= j < 14 -> state_at word j = kChunkFree.

Lemma state_at_bits word j i : 0 <= j -> 0 <= i -> Z.testbit (state_at word j) i = (i <? 2) && Z.testbit word (i + 2 * j).
Proof.
  intros. unfold state_at, GetChunkStateFromLayout, kChunkShift, kChunkMask. rewrite Z.land_spec, Z.shiftr_spec by lia.
  change 3 with (Z.ones 2). replace (j * 2) with (2 * j) by lia. destruct (Z.ltb_spec i 2).
  - rewrite Z.ones_spec_low by lia. by rewrite andb_true_r.
  - rewrite Z.ones_spec_high by lia. apply andb_false_r.
Qed.
Lemma state_at_range word j : 0 <= state_at word j < 4.
Proof. unfold state_at, GetChunkStateFromLayout. change kChunkMask with (2 ^ 2 - 1). rewrite land_ones_mod by lia. apply Z.mod_pos_bound. lia. Qed.

Lemma set_chunk_state_bits word j s i : 0 <= j < 14 -> 0 <= s < 4 -> 0 <= i -> word_ok 32 word ->
  Z.testbit (set_chunk_state word j s) i = if (2 * j <=? i) && (i <? 2 * j + 2) then Z.testbit s (i - 2 * j) else Z.testbit word i.
Proof.
  intros Hj Hs Hi Hw. unfold set_chunk_state, kChunkShift, kChunkMask. rewrite Z.lor_spec, Z.land_spec. replace (j * 2) with (2 * j) by lia.
  unfold u32, uw. destruct (Z.ltb_spec i 32) as [Hi32|Hi32].
  - rewrite Z.mod_pow2_bits_low by lia. rewrite Z.lnot_spec by lia. rewrite !Z.shiftl_spec by lia. change 3 with (Z.ones 2).
    destruct (Z.leb_spec (2 * j) i), (Z.ltb_spec i (2 * j + 2)); cbn [andb].
    + rewrite Z.ones_spec_low by lia. by rewrite andb_false_r.
    + rewrite Z.ones_spec_high by lia. rewrite andb_true_r. rewrite (testbit_small 2 s) by lia. apply orb_false_r.
    + rewrite !(Z.testbit_neg_r _ (i - 2 * j)) by lia. by rewrite andb_true_r, orb_false_r.
    + lia.
  - rewrite Z.mod_pow2_bits_high by lia. rewrite andb_false_r, Z.shiftl_spec by lia. rewrite (testbit_small 2 s) by lia.
    rewrite (testbit_small 32 word) by (done || lia). replace (i <? 2 * j + 2) with false by lia. by rewrite andb_false_r.
Qed.

Lemma state_at_set word j s k : 0 <= j < 14 -> 0 <= s < 4 -> 0 <= k -> word_ok 32 word ->
  state_at (set_chunk_state word j s) k = if k =? j then s else state_at word k.
Proof.
  intros Hj Hs Hk Hw. apply Z.bits_inj'. intros i Hi. rewrite state_at_bits, set_chunk_state_bits by (done || lia).
  destruct (Z.eqb_spec k j) as [->|Hne].
  - destruct (Z.ltb_spec i 2); cbn [andb]; [|by rewrite (testbit_small 2 s) by lia].
    replace ((2 * j <=? i + 2 * j) && (i + 2 * j <? 2 * j + 2)) with true by lia. f_equal. lia.
  - rewrite state_at_bits by lia. destruct (Z.ltb_spec i 2); cbn [andb]; [|done].
    by replace ((2 * j <=? i + 2 * k) && (i + 2 * k <? 2 * j + 2)) with false by lia.
Qed.
Lemma layout_index_bits word i : 0 <= i -> Z.testbit (layout_index word) i = (i <? 3) && Z.testbit word (i + 28).
Proof.
  intros. unfold layout_index, kLayoutMask, kLayoutShift. rewrite Z.shiftr_spec, Z.land_spec by lia.
  change 1879048192 with (Z.shiftl (Z.ones 3) 28). rewrite Z.shiftl_spec by lia. replace (i + 28 - 28) with i by lia.
  destruct (Z.ltb_spec i 3); [rewrite Z.ones_spec_low by lia|rewrite Z.ones_spec_high by lia]; [by rewrite andb_true_r|apply andb_false_r].
Qed.
Lemma layout_index_range word : 0 <= layout_index word < 8.
Proof.
  assert (H : layout_index word .& (2 ^ 3 - 1) = layout_index word).
  { apply Z.bits_inj'. intros i Hi. rewrite Z.land_spec, layout_index_bits by lia. change (2 ^ 3 - 1) with (Z.ones 3).
    destruct (Z.ltb_spec i 3); [rewrite Z.ones_spec_low by lia; by rewrite andb_true_r|done]. }
  rewrite <- H, land_ones_mod by lia. apply Z.mod_pos_bound. lia.
Qed.
Lemma layout_index_set word j s : 0 <= j < 14 -> 0 <= s < 4 -> word_ok 32 word -> layout_index (set_chunk_state word j s) = layout_index word.
Proof.
  intros. apply Z.bits_inj'. intros i Hi. rewrite !layout_index_bits, set_chunk_state_bits by (done || lia).
  by replace ((2 * j <=? i + 28) && (i + 28 <? 2 * j + 2)) with false by lia.
Qed.
Lemma word_ok_bits n x : 0 <= n -> 0 <= x -> (forall i, n <= i -> Z.testbit x i = false) -> word_ok n x.
Proof.
  intros Hn Hx Hb. split; [done|]. assert (H : x .& (2 ^ n - 1) = x); [|rewrite land_ones_mod in H by lia; rewrite <- H; apply Z.mod_pos_bound; lia].
  replace (2 ^ n - 1) with (Z.ones n) by (rewrite Z.ones_equiv; lia).
  apply Z.bits_inj'. intros i Hi. rewrite Z.land_spec. destruct (Z.lt_ge_cases i n); [rewrite Z.ones_spec_low by lia; apply andb_true_r|by rewrite Hb by lia].
Qed.
Lemma word_ok_set word j s : 0 <= j < 14 -> 0 <= s < 4 -> word_ok 31 word -> word_ok 31 (set_chunk_state word j s).
Proof.
  intros Hj Hs Hw. assert (Hw32 : word_ok 32 word) by (unfold word_ok in *; lia). apply word_ok_bits; [lia| |].
  - unfold set_chunk_state. apply Z.lor_nonneg. split; [apply Z.land_nonneg; left; unfold word_ok in *; lia|apply Z.shiftl_nonneg; lia].
  - intros i Hi. rewrite set_chunk_state_bits by (done || lia). replace ((2 * j <=? i) && (i <? 2 * j + 2)) with false by lia.
    apply (testbit_small 31); [done|lia|lia].
Qed.
Lemma word_wf_set word j s : word_wf word -> 0 <= j < GetNumChunksForLayout word -> 0 <= s < 4 -> j < 14 -> word_wf (set_chunk_state word j s).
Proof.
  intros (H1 & H2 & H3) Hj Hs Hj'. assert (Hw32 : word_ok 32 word) by (unfold word_ok in *; lia). unfold word_wf, GetNumChunksForLayout in *.
  rewrite layout_index_set by (done || lia). split; [apply word_ok_set; [lia|done|done]|]. split; [done|]. intros k Hk.
  rewrite state_at_set by (done || lia). destruct (Z.eqb_spec k j); [lia|]. by apply H3.
Qed.

Lemma all_chunks_free word j : word .& kAllChunksMask = kAllChunksFree -> 0 <= j < 14 -> state_at word j = kChunkFree.
Proof.
  intros Hf Hj. apply Z.bits_inj'. intros i Hi. rewrite state_at_bits by lia. rewrite Z.testbit_0_l. destruct (Z.ltb_spec i 2); [|done].
  assert (Hb : Z.testbit (word .& kAllChunksMask) (i + 2 * j) = false) by (rewrite Hf; apply Z.testbit_0_l).
  rewrite Z.land_spec in Hb. change kAllChunksMask with (Z.ones 28) in Hb. rewrite Z.ones_spec_low in Hb by lia. by rewrite andb_true_r in Hb.
Qed.
Lemma word_wf_0 : word_wf 0.
Proof. split; [done|]. split; [done|]. intros j _. unfold state_at, GetChunkStateFromLayout. by rewrite Z.shiftr_0_l. Qed.
Lemma state_at_0 j : state_at 0 j = kChunkFree.
Proof. unfold state_at, GetChunkStateFromLayout. by rewrite Z.shiftr_0_l. Qed.

Lemma num_chunks_cases word : 0 <= layout_index word <= 5 -> GetNumChunksForLayout word ∈ [0; 1; 2; 4; 7; 14].
Proof.
  intros H. unfold GetNumChunksForLayout, kNumChunksForLayout.
  assert (Hi : layout_index word = 0 \/ layout_index word = 1 \/ layout_index word = 2 \/ layout_index word = 3 \/ layout_index word = 4 \/ layout_index word = 5) by lia.
  repeat destruct Hi as [->|Hi]; rewrite ?Hi; cbn; rewrite !elem_of_cons; tauto.
Qed.
Lemma num_chunks_range word : 0 <= layout_index word <= 5 -> 0 <= GetNumChunksForLayout word <= 14.
Proof. intros H. apply num_chunks_cases in H. rewrite !elem_of_cons, elem_of_nil in H. lia. Qed.

Lemma partition_word layout : 1 <= layout <= 5 ->
  let word := (layout .<< kLayoutShift) .& kLayoutMask in
  word_wf word /\ layout_index word = layout /\ forall j, 0 <= j < 14 -> state_at word j = kChunkFree.
Proof.
  intros H word. assert (Hi : layout = 1 \/ layout = 2 \/ layout = 3 \/ layout = 4 \/ layout = 5) by lia.
  assert (Hf : word .& kAllChunksMask = kAllChunksFree) by (unfold word; repeat destruct Hi as [->|Hi]; rewrite ?Hi; reflexivity).
  assert (Hl : layout_index word = layout) by (unfold word; repeat destruct Hi as [->|Hi]; rewrite ?Hi; reflexivity).
  assert (Hr : word_ok 31 word).
  { unfold word. repeat destruct Hi as [->|Hi]; rewrite ?Hi; split; (apply Z.leb_le || apply Z.ltb_lt); reflexivity. }
  split; [|split; [done|intros; by apply all_chunks_free]]. split; [done|]. split; [lia|]. intros j Hj.
  assert (0 <= GetNumChunksForLayout word) by (apply num_chunks_range; lia). apply all_chunks_free; [done|lia].
Qed.

(** ** Geometry of the pages *)

Record abi_ok (a : Abi) : Prop := {
  ab_page : kMinPageSize <= page_size_ a <= kMaxPageSize;
  ab_aligned : page_size_ a `mod` kMinPageSize = 0;
  ab_size : size_ a = num_pages_ a * page_size_ a;
  ab_pages : 0 <= num_pages_ a;
  ab_sizes : chunk_sizes_ a = map (chunk_size_of (page_size_ a)) kNumChunksForLayout
}.

Lemma GetChunkSize_div page_size n : GetChunkSize page_size n = (((page_size - 8) `div` n) `div` 4) * 4.
Proof.
  unfold GetChunkSize, sizeof_PageHeader. rewrite <- Z.ldiff_land. change 3 with (Z.ones 2). rewrite Z.ldiff_ones_r by lia.
  by rewrite Z.shiftl_mul_pow2, Z.shiftr_div_pow2 by lia.
Qed.
Lemma InitChunkSizes_ok page_size l : InitChunkSizes page_size = Ok l -> kMinPageSize <= page_size -> l = map (chunk_size_of page_size) kNumChunksForLayout.
Proof.
  unfold kMinPageSize. intros H Hp. unfold InitChunkSizes in H.
  assert (Hn : Forall (fun n => 0 <= chunk_size_of page_size n) kNumChunksForLayout).
  { assert (Hpos : forall n, 0 <= n -> 0 <= chunk_size_of page_size n).
    { intros n Hn. unfold chunk_size_of. destruct (Z.eqb_spec n 0); [lia|]. rewrite GetChunkSize_div.
      assert (H0 : 0 <= (page_size - 8) `div` n) by (apply Z.div_pos; lia). revert H0. generalize ((page_size - 8) `div` n). intros. lia. }
    unfold kNumChunksForLayout. repeat (apply Forall_cons; split; [apply Hpos; lia|]). apply Forall_nil_2. }
  revert l H. induction Hn as [|n ns H0 Hn IH]; intros l; cbn [foldr map]; [by intros [= <-]|].
  destruct (foldr _ _ ns) as [l0|]; [|done]. cbn [obind]. destruct (Z.leb_spec (chunk_size_of page_size n) 65535); [|done]. cbn. intros [= <-].
  rewrite u16_small by lia. f_equal. by apply IH.
Qed.
Lemma Initialize_ok start size page_size a : Initialize start size page_size = Ok a -> 0 <= size -> abi_ok a.
Proof.
  unfold Initialize. intros H Hs. destruct (InitChunkSizes page_size) as [l|] eqn:E; [|done]. cbn [obind] in H.
  repeat match type of H with obind (perfetto_check ?b) _ = _ => let E := fresh "C" in destruct b eqn:E; cbn [perfetto_check obind] in H; [|done] end.
  bool_facts. injection H as <-. assert (E1 := InitChunkSizes_ok _ _ E C). unfold kMinPageSize, kMaxPageSize in *.
  split; cbn; try done; [|apply Z.div_pos; lia]. pose proof (Z.div_mod size page_size ltac:(lia)) as Hd.
  revert Hd. generalize (size `div` page_size). intros q Hd. rewrite C3 in Hd. lia.
Qed.

(** The chunk [j] of the page [p] under a given word. *)
Section Geometry.
Context (a : Abi) (Ha : abi_ok a).

Lemma chunk_geometry word : 1 <= layout_index word <= 5 ->
  let n := GetNumChunksForLayout word in let cs := GetChunkSizeForLayout a word in
  1 <= n <= 14 /\ 8 < cs /\ cs `mod` 4 = 0 /\ 8 + n * cs <= page_size_ a.
Proof.
  intros Hl n cs. destruct Ha as [[H1 H2] H3 H4 H5 H6]. unfold kMinPageSize, kMaxPageSize in *.
  assert (Hcs : cs = chunk_size_of (page_size_ a) n).
  { unfold cs, n, GetChunkSizeForLayout, GetNumChunksForLayout. rewrite H6. unfold kNumChunksForLayout.
    assert (Hi : layout_index word = 1 \/ layout_index word = 2 \/ layout_index word = 3 \/ layout_index word = 4 \/ layout_index word = 5) by lia.
    repeat destruct Hi as [->|Hi]; rewrite ?Hi; reflexivity. }
  assert (Hn : n = 1 \/ n = 2 \/ n = 4 \/ n = 7 \/ n = 14).
  { unfold n, GetNumChunksForLayout, kNumChunksForLayout.
    assert (Hi : layout_index word = 1 \/ layout_index word = 2 \/ layout_index word = 3 \/ layout_index word = 4 \/ layout_index word = 5) by lia.
    repeat destruct Hi as [->|Hi]; rewrite ?Hi; cbn; tauto. }
  rewrite Hcs. unfold chunk_size_of. replace (n =? 0) with false by lia. rewrite GetChunkSize_div.
  split; [lia|]. destruct Hn as [->|[->|[->|[->| ->]]]]; lia.
Qed.

Lemma partitioned word j : layout_index word <= 5 -> 0 <= j < GetNumChunksForLayout word -> 1 <= layout_index word <= 5.
Proof.
  intros Hl Hj. pose proof (layout_index_range word). destruct (Z.eq_dec (layout_index word) 0) as [E|]; [|lia].
  unfold GetNumChunksForLayout in Hj. rewrite E in Hj. change (znth kNumChunksForLayout 0) with 0 in Hj. lia.
Qed.

Definition chunk_at (p word j : Z) : Chunk :=
  mkChunk (page_size_ a * p + 8 + j * GetChunkSizeForLayout a word) (GetChunkSizeForLayout a word) j.
Lemma GetChunkUnchecked_spec p word j : layout_index word <= 5 -> 0 <= j < GetNumChunksForLayout word ->
  GetChunkUnchecked a p word j = Ok (chunk_at p word j).
Proof.
  intros Hl Hj. destruct (chunk_geometry word (partitioned word j Hl Hj)) as (Hn & Hcs & Hm & _). unfold GetChunkUnchecked, Chunk_new, page_start, sizeof_PageHeader, kChunkAlignment.
  pose proof (ab_aligned a Ha). unfold kMinPageSize in *. set (cs := GetChunkSizeForLayout a word) in *.
  assert (E : (page_size_ a * p + (8 + j * cs)) `mod` 4 = 0).
  { assert (Hd : exists q, page_size_ a = 4 * q) by (exists (page_size_ a `div` 4096 * 1024); lia). destruct Hd as [q ->].
    assert (Hc : exists r, cs = 4 * r) by (exists (cs `div` 4); lia). destruct Hc as [r ->].
    replace (4 * q * p + (8 + j * (4 * r))) with ((q * p + 2 + j * r) * 4) by lia. apply Z.mod_mul. lia. }
  rewrite E. cbn [perfetto_check obind Z.eqb]. replace (0 <? cs) with true by lia. cbn [perfetto_check obind]. unfold chunk_at. fold cs.
  rewrite u8_small by lia. do 2 f_equal. lia.
Qed.
Lemma chunk_at_page p word j : layout_index word <= 5 -> 0 <= j < GetNumChunksForLayout word ->
  page_size_ a * p + 8 <= begin_ (chunk_at p word j) /\ c_end (chunk_at p word j) <= page_size_ a * (p + 1).
Proof.
  intros Hl Hj. destruct (chunk_geometry word (partitioned word j Hl Hj)) as (Hn & Hcs & _ & Hfit). unfold c_end, chunk_at. cbn [begin_ c_size]. nia.
Qed.
Lemma GetPageAndChunkIndex_spec p word j : layout_index word <= 5 -> 0 <= j < GetNumChunksForLayout word ->
  GetPageAndChunkIndex a (chunk_at p word j) = (p, j).
Proof.
  intros Hl Hj. destruct (chunk_geometry word (partitioned word j Hl Hj)) as (Hn & Hcs & _ & Hfit). unfold GetPageAndChunkIndex, chunk_at, sizeof_PageHeader. cbn [begin_ c_size].
  set (cs := GetChunkSizeForLayout a word) in *. set (ps := page_size_ a) in *.
  replace (ps * p + 8 + j * cs) with (8 + j * cs + p * ps) by lia. rewrite Z.div_add, Z.mod_add by nia.
  rewrite Z.div_small, Z.mod_small by nia. f_equal. replace (8 + j * cs - 8) with (j * cs) by lia. apply Z.div_mul. lia.
Qed.
Lemma chunk_at_index p word word' j : layout_index word' = layout_index word -> chunk_at p word' j = chunk_at p word j.
Proof. intros E. unfold chunk_at, GetChunkSizeForLayout. by rewrite E. Qed.
Lemma chunks_disjoint p word j p' word' j' : layout_index word <= 5 -> 0 <= j < GetNumChunksForLayout word ->
  layout_index word' <= 5 -> 0 <= j' < GetNumChunksForLayout word' -> (p, j) <> (p', j') -> (p = p' -> word = word') ->
  c_end (chunk_at p word j) <= begin_ (chunk_at p' word' j') \/ c_end (chunk_at p' word' j') <= begin_ (chunk_at p word j).
Proof.
  intros Hl Hj Hl' Hj' Hne Hw. destruct (chunk_at_page p word j Hl Hj) as [B1 E1]. destruct (chunk_at_page p' word' j' Hl' Hj') as [B2 E2].
  destruct (Z.lt_trichotomy p p') as [Hp|[Hp|Hp]]; [left; pose proof (ab_page a Ha); unfold kMinPageSize in *; nia| |right; pose proof (ab_page a Ha); unfold kMinPageSize in *; nia].
  specialize (Hw Hp). subst p' word'. destruct (chunk_geometry word (partitioned word j Hl Hj)) as (Hn & Hcs & _). unfold c_end, chunk_at. cbn [begin_ c_size].
  destruct (Z.lt_trichotomy j j') as [|[->|]]; [left; nia|done|right; nia].
Qed.
End Geometry.

(** The legal changes of the state of a chunk. *)
Definition lifecycle : list (Z * Z) :=
  [(kChunkFree, kChunkBeingWritten); (kChunkBeingWritten, kChunkComplete); (kChunkComplete, kChunkBeingRead); (kChunkBeingRead, kChunkFree)].

(** ** Memory accesses *)

Lemma load32_frame off o src mem : 0 <= off -> 0 <= o -> off + 4 <= zlen mem -> o + zlen src <= zlen mem ->
  off + 4 <= o \/ o + zlen src <= off -> load32 off (zwrite o src mem) = load32 off mem.
Proof. intros. unfold load32. rewrite zread_zwrite_ne; [done|lia..]. Qed.
Lemma load32_store32 off v mem : 0 <= off -> off + 4 <= zlen mem -> word_ok 32 v -> load32 off (store32 off v mem) = v.
Proof.
  intros. unfold load32, store32. rewrite zread_zwrite_eq by (rewrite ?zlen_le_bytes; lia). by apply le_value_bytes_small.
Qed.
Lemma zlen_store32 off v mem : 0 <= off -> off + 4 <= zlen mem -> zlen (store32 off v mem) = zlen mem.
Proof. intros. unfold store32. apply zlen_zwrite; [done|]. rewrite zlen_le_bytes. lia. Qed.

(** ** Ownership *)

(** The chunks a thread has acquired and not released, with the state they are in. *)
Definition pc_owned (p : pc) : list (Chunk * Z) :=
  match p with
  | AcqStoreWriter c _ | AcqStoreChunkId c _ | AcqStorePackets c _ => [(c, kChunkBeingWritten)]
  | RelClearWriter c _ _ | RelClearChunkId c _ _ | RelClearPackets c _ _ => [(c, kChunkBeingRead)]
  | RelLoad c desired _ _ _ | RelCas c desired _ _ _ _ _ => [(c, release_from desired)]
  | _ => []
  end.
Definition owned (t : Thread) : list (Chunk * Z) := pc_owned (t_pc t) ++ held t.
Definition all_owned (w : World) : list (Chunk * Z) := concat (map owned (w_threads w)).

Section Ownership.
Context (a : Abi) (Ha : abi_ok a).

(** An owned chunk is a chunk of the current partition of its page, in the state it was
    acquired in. *)
Definition hold_ok (mem : list Z) (x : Chunk * Z) : Prop :=
  exists p j, 0 <= p < num_pages_ a /\ let word := GetPageLayout a p mem in
    0 <= j < GetNumChunksForLayout word /\ x.1 = chunk_at a p word j /\ state_at word j = x.2 /\
    (x.2 = kChunkBeingWritten \/ x.2 = kChunkBeingRead).
Definition pc_ok (p : pc) : Prop :=
  match p with
  | AcqLoad page_idx chunk_idx desired _ _ =>
      0 <= page_idx < num_pages_ a /\ 0 <= chunk_idx /\ (desired = kChunkBeingWritten \/ desired = kChunkBeingRead)
  | AcqCas page_idx chunk_idx desired _ _ layout next_layout =>
      0 <= page_idx < num_pages_ a /\ (desired = kChunkBeingWritten \/ desired = kChunkBeingRead) /\
      0 <= chunk_idx < GetNumChunksForLayout layout /\ state_at layout chunk_idx = acquire_from desired /\
      next_layout = set_chunk_state layout chunk_idx desired
  | RelClearWriter c page_idx chunk_idx | RelClearChunkId c page_idx chunk_idx | RelClearPackets c page_idx chunk_idx =>
      GetPageAndChunkIndex a c = (page_idx, chunk_idx)
  | RelLoad c desired page_idx chunk_idx _ =>
      GetPageAndChunkIndex a c = (page_idx, chunk_idx) /\ (desired = kChunkComplete \/ desired = kChunkFree)
  | RelCas c desired page_idx chunk_idx _ layout next_layout =>
      GetPageAndChunkIndex a c = (page_idx, chunk_idx) /\ (desired = kChunkComplete \/ desired = kChunkFree) /\
      let next := set_chunk_state layout chunk_idx desired in next_layout = if next .& kAllChunksMask =? kAllChunksFree then 0 else next
  | _ => True
  end.
Definition mem_ok (mem : list Z) : Prop :=
  zlen mem = size_ a /\ forall p, 0 <= p < num_pages_ a -> word_wf (GetPageLayout a p mem).
Record inv (w : World) : Prop := {
  in_mem : mem_ok (w_mem w);
  in_held : Forall (hold_ok (w_mem w)) (all_owned w);
  in_unique : NoDup (map (fun x => GetPageAndChunkIndex a x.1) (all_owned w));
  in_pcs : Forall (fun t => pc_ok (t_pc t)) (w_threads w)
}.

Lemma page_bounds p : 0 <= p < num_pages_ a -> 0 <= page_start a p /\ page_start a p + page_size_ a <= size_ a /\ 4096 <= page_size_ a.
Proof. destruct Ha. unfold page_start, kMinPageSize in *. rewrite ab_size0. nia. Qed.

(** Writing inside a chunk changes no word. *)
Lemma chunk_write_words mem p j o src : mem_ok mem -> 0 <= p < num_pages_ a -> 0 <= j < GetNumChunksForLayout (GetPageLayout a p mem) ->
  let c := chunk_at a p (GetPageLayout a p mem) j in begin_ c <= o -> o + zlen src <= c_end c ->
  zlen (zwrite o src mem) = zlen mem /\ 0 <= o /\ o + zlen src <= zlen mem /\
  forall q, 0 <= q < num_pages_ a -> GetPageLayout a q (zwrite o src mem) = GetPageLayout a q mem.
Proof.
  intros [Hl Hw] Hp Hj c Ho He. destruct (Hw p Hp) as (_ & Hi & _). destruct (chunk_at_page a Ha p _ j Hi Hj) as [B E]. fold c in B, E.
  destruct (page_bounds p Hp) as (P1 & P2 & P3). unfold page_start in *. pose proof (zlen_nonneg src). assert (Hb : 0 <= o /\ o + zlen src <= zlen mem) by (rewrite Hl; nia).
  split; [apply zlen_zwrite; lia|]. split; [lia|]. split; [lia|]. intros q Hq. destruct (page_bounds q Hq) as (Q1 & Q2 & Q3). unfold page_start in *.
  unfold GetPageLayout. apply load32_frame; unfold page_start; try lia. destruct (Z.lt_trichotomy q p) as [|[->|]]; [left; nia|left; lia|right; nia].
Qed.
Lemma mem_ok_words mem mem' : mem_ok mem -> zlen mem' = zlen mem -> (forall q, 0 <= q < num_pages_ a -> GetPageLayout a q mem' = GetPageLayout a q mem) -> mem_ok mem'.
Proof. intros [H1 H2] Hl Hw. split; [congruence|]. intros p Hp. rewrite Hw by done. by apply H2. Qed.
Lemma hold_ok_words mem mem' x : (forall q, 0 <= q < num_pages_ a -> GetPageLayout a q mem' = GetPageLayout a q mem) -> hold_ok mem x -> hold_ok mem' x.
Proof. intros Hw (p & j & Hp & H). exists p, j. split; [done|]. cbv zeta in *. by rewrite Hw. Qed.

(** Replacing the word of a page. *)
Lemma store_word mem p v : mem_ok mem -> 0 <= p < num_pages_ a -> word_wf v ->
  let mem' := store32 (page_start a p) v mem in
  mem_ok mem' /\ GetPageLayout a p mem' = v /\ forall q, 0 <= q < num_pages_ a -> q <> p -> GetPageLayout a q mem' = GetPageLayout a q mem.
Proof.
  intros [Hl Hw] Hp Hv mem'. destruct (page_bounds p Hp) as (P1 & P2 & P3).
  assert (Hlen : zlen mem' = zlen mem) by (apply zlen_store32; lia).
  assert (Hpv : GetPageLayout a p mem' = v) by (apply load32_store32; [lia|lia|destruct Hv as ([? ?] & _); split; lia]).
  assert (Hq : forall q, 0 <= q < num_pages_ a -> q <> p -> GetPageLayout a q mem' = GetPageLayout a q mem).
  { intros q Hq Hne. destruct (page_bounds q Hq) as (Q1 & Q2 & Q3). unfold GetPageLayout, mem', store32.
    apply load32_frame; rewrite ?zlen_le_bytes; try lia. unfold page_start in *. destruct (Z.lt_trichotomy q p) as [|[->|]]; [left; nia|done|right; nia]. }
  split; [|done]. split; [congruence|]. intros q Hq'. destruct (Z.eq_dec q p) as [->|Hne]; [by rewrite Hpv|rewrite Hq by done; by apply Hw].
Qed.

(** Threads *)
Lemma all_owned_split w i t : w_threads w !! i = Some t -> exists rest, all_owned w ≡ₚ owned t ++ rest /\
  forall t' mem, all_owned (set_thread i t' mem w) ≡ₚ owned t' ++ rest.
Proof.
  intros Hi. exists (concat (map owned (take i (w_threads w))) ++ concat (map owned (drop (S i) (w_threads w)))).
  assert (Hsplit : forall t', concat (map owned (take i (w_threads w) ++ t' :: drop (S i) (w_threads w))) ≡ₚ
    owned t' ++ concat (map owned (take i (w_threads w))) ++ concat (map owned (drop (S i) (w_threads w)))).
  { intros t'. rewrite map_app, concat_app. cbn [map concat]. rewrite !app_assoc. apply Permutation_app_tail. apply Permutation_app_comm. }
  split.
  - unfold all_owned. rewrite <- Hsplit. by rewrite take_drop_middle.
  - intros t' mem. unfold all_owned, set_thread. cbn [w_threads]. rewrite insert_take_drop by (by eapply lookup_lt_Some). apply Hsplit.
Qed.

Lemma inv_update w i t t' mem' : inv w -> w_threads w !! i = Some t -> mem_ok mem' -> pc_ok (t_pc t') ->
  (forall rest, Forall (hold_ok (w_mem w)) (owned t ++ rest) -> NoDup (map (fun x => GetPageAndChunkIndex a x.1) (owned t ++ rest)) ->
     Forall (hold_ok mem') (owned t' ++ rest) /\ NoDup (map (fun x => GetPageAndChunkIndex a x.1) (owned t' ++ rest))) ->
  inv (set_thread i t' mem' w).
Proof.
  intros [H1 H2 H3 H4] Hi Hmem Hpc Hown. destruct (all_owned_split w i t Hi) as (rest & P1 & P2). rewrite P1 in H2, H3.
  destruct (Hown rest H2 H3) as [H5 H6]. split; [done| | |].
  - by rewrite P2.
  - by rewrite P2.
  - cbn [set_thread w_threads]. by apply Forall_insert.
Qed.

(** The thread goes on, and no word changes. *)
Lemma inv_same w i t t' mem' : inv w -> w_threads w !! i = Some t -> owned t' ≡ₚ owned t -> pc_ok (t_pc t') -> zlen mem' = zlen (w_mem w) ->
  (forall q, 0 <= q < num_pages_ a -> GetPageLayout a q mem' = GetPageLayout a q (w_mem w)) -> inv (set_thread i t' mem' w).
Proof.
  intros Hinv Hi Hown Hpc Hlen Hw. eapply inv_update; [exact Hinv|exact Hi|by eapply mem_ok_words; [apply Hinv|..]|exact Hpc|].
  intros rest H1 H2. rewrite Hown. split; [|done]. eapply Forall_impl; [exact H1|]. intros x. by apply hold_ok_words.
Qed.

(** The thread gives up a chunk, whose state stays. *)
Lemma inv_lost w i t t' lost : inv w -> w_threads w !! i = Some t -> owned t ≡ₚ lost ++ owned t' -> pc_ok (t_pc t') ->
  inv (set_thread i t' (w_mem w) w).
Proof.
  intros Hinv Hi Hown Hpc. eapply inv_update; [exact Hinv|exact Hi|apply Hinv|exact Hpc|].
  intros rest. rewrite Hown, <- app_assoc, map_app, Forall_app, NoDup_app. tauto.
Qed.

(** What is owned of a page under its word. *)
Lemma hold_ok_index mem x : mem_ok mem -> hold_ok mem x -> exists p j, GetPageAndChunkIndex a x.1 = (p, j) /\ 0 <= p < num_pages_ a /\
  let word := GetPageLayout a p mem in 0 <= j < GetNumChunksForLayout word /\ x.1 = chunk_at a p word j /\ state_at word j = x.2 /\
    (x.2 = kChunkBeingWritten \/ x.2 = kChunkBeingRead).
Proof.
  intros [_ Hw] (p & j & Hp & Hj & Hc & Hs). exists p, j. split; [|done]. rewrite Hc. apply GetPageAndChunkIndex_spec; [done| |done]. by apply Hw.
Qed.

(** Others keep their chunks when the state of one chunk they do not own changes. *)
Lemma hold_ok_other mem p j s x : mem_ok mem -> 0 <= p < num_pages_ a -> let word := GetPageLayout a p mem in
  0 <= j < GetNumChunksForLayout word -> 0 <= s < 4 -> hold_ok mem x -> GetPageAndChunkIndex a x.1 <> (p, j) ->
  hold_ok (store32 (page_start a p) (set_chunk_state word j s) mem) x.
Proof.
  intros Hmem Hp word Hj Hs Hx Hne. pose proof (proj2 Hmem p Hp) as Hwf. pose proof (num_chunks_range word) as Hn.
  assert (Hl : 0 <= layout_index word <= 5) by (split; [apply layout_index_range|apply Hwf]). specialize (Hn Hl).
  assert (Hw32 : word_ok 32 word) by (destruct Hwf as ([? ?] & _); split; unfold word; lia).
  destruct (store_word mem p (set_chunk_state word j s) Hmem Hp) as (_ & Hsame & Hother); [by apply word_wf_set; [|..|lia]|].
  destruct (hold_ok_index mem x Hmem Hx) as (q & k & Hi & Hq & Hk & Hc & Hst). rewrite Hi in Hne. exists q, k. split; [done|]. cbv zeta.
  destruct (Z.eq_dec q p) as [->|Hqp]; [|by rewrite Hother].
  rewrite Hsame. assert (Hkj : k <> j) by congruence. fold word in Hk, Hc, Hst. unfold GetNumChunksForLayout in *. rewrite layout_index_set by (done || lia).
  split; [done|]. split; [by rewrite (chunk_at_index a p word) by (apply layout_index_set; done || lia)|].
  rewrite state_at_set by (done || lia). by replace (k =? j) with false by lia.
Qed.

Lemma inv_acquire w i t t' p j d : inv w -> w_threads w !! i = Some t -> 0 <= p < num_pages_ a -> let word := GetPageLayout a p (w_mem w) in
  0 <= j < GetNumChunksForLayout word -> state_at word j = acquire_from d -> d = kChunkBeingWritten \/ d = kChunkBeingRead ->
  owned t' ≡ₚ (chunk_at a p word j, d) :: owned t -> pc_ok (t_pc t') ->
  inv (set_thread i t' (store32 (page_start a p) (set_chunk_state word j d) (w_mem w)) w).
Proof.
  intros Hinv Hi Hp word Hj Hst Hd Hown Hpc. pose proof (in_mem _ Hinv) as Hmem. pose proof (proj2 Hmem p Hp) as Hwf.
  assert (Hl : 0 <= layout_index word <= 5) by (split; [apply layout_index_range|apply Hwf]). pose proof (num_chunks_range word Hl) as Hn.
  assert (Hd4 : 0 <= d < 4) by (unfold kChunkBeingWritten, kChunkBeingRead in *; lia).
  assert (Hw32 : word_ok 32 word) by (destruct Hwf as ([? ?] & _); split; unfold word; lia).
  destruct (store_word (w_mem w) p (set_chunk_state word j d) Hmem Hp) as (Hmem' & Hsame & _); [by apply word_wf_set; [|..|lia]|].
  eapply inv_update; [exact Hinv|exact Hi|exact Hmem'|exact Hpc|]. intros rest H1 H2. rewrite Hown.
  assert (Hnot : Forall (fun x => GetPageAndChunkIndex a x.1 <> (p, j)) (owned t ++ rest)).
  { eapply Forall_impl; [exact H1|]. intros x Hx He. destruct (hold_ok_index _ _ Hmem Hx) as (q & k & Hqk & _ & _ & _ & Hs & Hs2). rewrite He in Hqk. injection Hqk as <- <-.
    fold word in Hs. rewrite Hst in Hs. unfold acquire_from, kChunkBeingWritten, kChunkBeingRead, kChunkFree, kChunkComplete in *. destruct (_ =? _); lia. }
  cbn [app map]. split.
  - apply Forall_cons. split.
    + exists p, j. split; [done|]. cbv zeta. rewrite Hsame. unfold GetNumChunksForLayout in *. rewrite layout_index_set by (done || lia). cbn [fst snd].
      split; [done|]. split; [symmetry; apply chunk_at_index; apply layout_index_set; done || lia|]. rewrite state_at_set by (done || lia). by rewrite Z.eqb_refl.
    + rewrite Forall_forall in *. intros x Hx. apply hold_ok_other; auto.
  - apply NoDup_cons. split; [|done]. cbn [fst]. rewrite (GetPageAndChunkIndex_spec a Ha) by (done || lia). intros (x & He & Hx)%list_elem_of_fmap.
    rewrite Forall_forall in Hnot. by apply (Hnot x Hx).
Qed.

Lemma inv_release w i t t' c s d : inv w -> w_threads w !! i = Some t -> owned t ≡ₚ (c, s) :: owned t' -> s = release_from d ->
  d = kChunkComplete \/ d = kChunkFree -> pc_ok (t_pc t') -> let '(p, j) := GetPageAndChunkIndex a c in
  let next := set_chunk_state (GetPageLayout a p (w_mem w)) j d in
  inv (set_thread i t' (store32 (page_start a p) (if next .& kAllChunksMask =? kAllChunksFree then 0 else next) (w_mem w)) w).
Proof.
  intros Hinv Hi Hown Hs Hd Hpc. pose proof (in_mem _ Hinv) as Hmem.
  destruct (all_owned_split w i t Hi) as (rest0 & P1 & _). pose proof (in_held _ Hinv) as Hheld. rewrite P1, Hown in Hheld. apply Forall_cons in Hheld as [Hc _].
  destruct (hold_ok_index _ _ Hmem Hc) as (p & j & Hidx & Hp & Hj & Hcc & Hst & _). cbn [fst snd] in *. rewrite Hidx. cbv zeta.
  set (word := GetPageLayout a p (w_mem w)) in *. pose proof (proj2 Hmem p Hp) as Hwf. fold word in Hwf.
  assert (Hl : 0 <= layout_index word <= 5) by (split; [apply layout_index_range|apply Hwf]). pose proof (num_chunks_range word Hl) as Hn.
  assert (Hd4 : 0 <= d < 4) by (unfold kChunkComplete, kChunkFree in *; lia).
  assert (Hw32 : word_ok 32 word) by (destruct Hwf as ([? ?] & _); unfold word_ok; lia).
  set (next := set_chunk_state word j d). assert (Hnext : word_wf next) by (apply word_wf_set; done || lia).
  set (stored := if _ =? _ then 0 else next). assert (Hstored : word_wf stored) by (unfold stored; destruct (_ =? _); [apply word_wf_0|done]).
  destruct (store_word (w_mem w) p stored Hmem Hp Hstored) as (Hmem' & Hsame & Hother).
  eapply inv_update; [exact Hinv|exact Hi|exact Hmem'|exact Hpc|]. intros rest H1 H2. rewrite Hown in H1, H2. cbn [app map] in H1, H2.
  apply Forall_cons in H1 as [_ H1]. apply NoDup_cons in H2 as [H2 H3]. split; [|done]. rewrite Forall_forall in *. intros x Hx. specialize (H1 x Hx).
  assert (Hne : GetPageAndChunkIndex a x.1 <> (p, j)).
  { intros He. apply H2. apply list_elem_of_fmap. exists x. cbn [fst]. by rewrite Hidx, He. }
  unfold stored in *. destruct (Z.eqb_spec (next .& kAllChunksMask) kAllChunksFree) as [Hfree|_]; [|by apply hold_ok_other].
  destruct (hold_ok_index _ _ Hmem H1) as (q & k & Hqk & Hq & Hk & Hxc & Hxs & Hxs2). exists q, k. split; [done|]. cbv zeta.
  destruct (Z.eq_dec q p) as [->|Hqp]; [|by rewrite Hother]. exfalso. rewrite Hqk in Hne. fold word in Hk, Hxs.
  assert (Hks : state_at next k = kChunkFree) by (apply all_chunks_free; [done|lia]). unfold next in Hks. rewrite state_at_set in Hks by (done || lia).
  replace (k =? j) with false in Hks by (symmetry; apply Z.eqb_neq; congruence). unfold kChunkFree, kChunkBeingWritten, kChunkBeingRead in *. lia.
Qed.
(** What an owner knows of its chunk, and may write to it. *)
Lemma owned_chunk w i t c s : inv w -> w_threads w !! i = Some t -> (c, s) ∈ owned t -> hold_ok (w_mem w) (c, s).
Proof.
  intros Hinv Hi Hin. destruct (all_owned_split w i t Hi) as (rest & P & _). pose proof (in_held _ Hinv) as H. rewrite Forall_forall in H.
  apply H. rewrite P. apply elem_of_app. by left.
Qed.
Lemma owned_size mem x : mem_ok mem -> hold_ok mem x -> 8 < c_size x.1.
Proof.
  intros [_ Hw] (p & j & Hp & Hj & Hc & _). destruct (Hw p Hp) as (_ & Hl & _). rewrite Hc.
  apply (chunk_geometry a Ha _ (partitioned _ j Hl Hj)).
Qed.
Lemma owned_write w i t t' c s o src : inv w -> w_threads w !! i = Some t -> (c, s) ∈ owned t -> begin_ c <= o -> o + zlen src <= c_end c ->
  owned t' ≡ₚ owned t -> pc_ok (t_pc t') -> inv (set_thread i t' (zwrite o src (w_mem w)) w).
Proof.
  intros Hinv Hi Hin Ho He Hown Hpc. destruct (owned_chunk w i t c s Hinv Hi Hin) as (p & j & Hp & Hj & Hc & _). cbn [fst] in Hc.
  rewrite Hc in Ho, He. destruct (chunk_write_words (w_mem w) p j o src (in_mem _ Hinv) Hp Hj Ho He) as (Hz & _ & _ & Hw).
  by eapply inv_same.
Qed.
(** The three stores to the header. *)
Lemma owned_header w i t t' c s o v n : inv w -> w_threads w !! i = Some t -> (c, s) ∈ owned t -> begin_ c <= o -> o + Z.of_nat n <= begin_ c + 8 ->
  owned t' ≡ₚ owned t -> pc_ok (t_pc t') -> inv (set_thread i t' (zwrite o (le_bytes n v) (w_mem w)) w).
Proof.
  intros Hinv Hi Hin Ho He. eapply owned_write; try done. rewrite zlen_le_bytes.
  pose proof (owned_size _ _ (in_mem _ Hinv) (owned_chunk _ _ _ _ _ Hinv Hi Hin)) as Hs. cbn [fst] in Hs. unfold c_end. lia.
Qed.

(** No interleaving fails a check, and the invariant is kept. *)
Definition advances (w : World) (i : nat) (t : Thread) : Prop :=
  exists t' mem', thread_step a t (w_mem w) = Ok (t', mem') /\ inv (set_thread i t' mem' w).
Lemma advances_acquire w i t page_idx chunk_idx desired header attempt : inv w -> w_threads w !! i = Some t ->
  (t_pc t = AcqLoad page_idx chunk_idx desired header attempt \/ exists layout next, t_pc t = AcqCas page_idx chunk_idx desired header attempt layout next) ->
  advances w i t.
Proof.
  intros Hinv Hi Hpc. pose proof (in_pcs _ Hinv) as Hok. rewrite Forall_lookup in Hok. specialize (Hok i t Hi).
  destruct t as [pc held]. cbn [t_pc] in *. unfold advances, thread_step, acquire_step, clear_step, release_step. cbn [t_pc SharedMemoryAbi.held] in *.
  destruct Hpc as [->|(layout & next & ->)]; cbn [pc_ok] in Hok.
  - destruct Hok as (Hp & Hj & Hd). set (layout := GetPageLayout a page_idx (w_mem w)).
    destruct (Z.leb_spec (GetNumChunksForLayout layout) chunk_idx); [eexists _, _; split; [done|]; by eapply inv_same|].
    destruct (Z.eqb_spec (GetChunkStateFromLayout layout chunk_idx) (acquire_from desired)); cbn [negb]; (eexists _, _; split; [done|]; eapply inv_same; try done).
  - destruct Hok as (Hp & Hd & Hj & Hst & ->). unfold cas32. fold (GetPageLayout a page_idx (w_mem w)).
    destruct (Z.eqb_spec (GetPageLayout a page_idx (w_mem w)) layout) as [<-|].
    + pose proof (proj2 (in_mem _ Hinv) page_idx Hp) as (_ & Hl & _). rewrite (GetChunkUnchecked_spec a Ha) by done. cbn [obind].
      destruct (Z.eqb_spec desired kChunkBeingWritten) as [->|]; (eexists _, _; split; [done|]); by eapply inv_acquire.
    + eexists _, _; split; [done|]. unfold retry. destruct (_ <? _)%nat; eapply inv_same; try done. cbn. tauto.
Qed.
Lemma advances_release w i t c desired page_idx chunk_idx attempt : inv w -> w_threads w !! i = Some t ->
  (t_pc t = RelLoad c desired page_idx chunk_idx attempt \/ exists layout next, t_pc t = RelCas c desired page_idx chunk_idx attempt layout next) ->
  advances w i t.
Proof.
  intros Hinv Hi Hpc. pose proof (in_pcs _ Hinv) as Hok. rewrite Forall_lookup in Hok. specialize (Hok i t Hi).
  assert (Hc : hold_ok (w_mem w) (c, release_from desired)).
  { eapply owned_chunk; [done..|]. unfold owned. destruct Hpc as [->|(? & ? & ->)]; cbn; rewrite elem_of_cons; by left. }
  destruct (hold_ok_index _ _ (in_mem _ Hinv) Hc) as (p & j & Hidx & Hp & Hj & Hcc & Hst & _). cbn [fst snd] in *.
  destruct t as [pc held]. cbn [t_pc] in *. unfold advances, thread_step, acquire_step, clear_step, release_step. cbn [t_pc SharedMemoryAbi.held] in *.
  destruct Hpc as [->|(layout & next & ->)]; cbn [pc_ok] in Hok.
  - destruct Hok as (Hpj & Hd). rewrite Hidx in Hpj. injection Hpj as <- <-.
    replace (c_size c) with (GetChunkSizeForLayout a (GetPageLayout a p (w_mem w))) by (rewrite Hcc; done). rewrite Z.eqb_refl. cbn [perfetto_check obind].
    fold (state_at (GetPageLayout a p (w_mem w)) j). rewrite Hst, Z.eqb_refl. cbn [perfetto_check obind]. eexists _, _; split; [done|]. by eapply inv_same.
  - destruct Hok as (Hpj & Hd & ->). rewrite Hidx in Hpj. injection Hpj as <- <-. unfold cas32. fold (GetPageLayout a p (w_mem w)).
    destruct (Z.eqb_spec (GetPageLayout a p (w_mem w)) layout) as [<-|]; (eexists _, _; split; [done|]).
    + pose proof (inv_release w i _ (mkThread Idle held) c (release_from desired) desired Hinv Hi ltac:(reflexivity) eq_refl Hd I) as H. by rewrite Hidx in H.
    + unfold retry. destruct (_ <? _)%nat; [by eapply inv_same|]. eapply (inv_lost w i _ _ [(c, release_from desired)]); [done|exact Hi|done|done].
Qed.
Lemma thread_advances w i t : inv w -> w_threads w !! i = Some t -> advances w i t.
Proof.
  intros Hinv Hi. pose proof (in_pcs _ Hinv) as Hok. rewrite Forall_lookup in Hok. specialize (Hok i t Hi).
  destruct t as [pc hd]. cbn [t_pc] in Hok.
  destruct pc; try (by eapply advances_acquire; eauto); try (by eapply advances_release; eauto);
    unfold advances, thread_step, acquire_step, clear_step, release_step; cbn [t_pc held]; (eexists _, _; split; [done|]); [by eapply inv_same|..];
    (eapply owned_header; [done|exact Hi|apply elem_of_cons; by left|unfold writer_id_at, chunk_id_at, packets_at; lia..|done|try done]).
  cbn. tauto.
Qed.

(** What a step does to the memory: nothing, a legal change of the state of one chunk, the
    partition of a free page, or a write inside a chunk of the thread that steps. *)
Inductive effect (w : World) (i : nat) (mem' : list Z) : Prop :=
| effect_none : mem' = w_mem w -> effect w i mem'
| effect_state p j s v : 0 <= p < num_pages_ a -> 0 <= j < GetNumChunksForLayout (GetPageLayout a p (w_mem w)) ->
    (state_at (GetPageLayout a p (w_mem w)) j, s) ∈ lifecycle ->
    let next := set_chunk_state (GetPageLayout a p (w_mem w)) j s in
    v = next \/ (v = 0 /\ next .& kAllChunksMask = kAllChunksFree) -> mem' = store32 (page_start a p) v (w_mem w) -> effect w i mem'
| effect_partition p layout : 0 <= p < num_pages_ a -> GetPageLayout a p (w_mem w) = 0 -> 1 <= layout <= 5 ->
    mem' = store32 (page_start a p) ((layout .<< kLayoutShift) .& kLayoutMask) (w_mem w) -> effect w i mem'
| effect_write t c s o src : w_threads w !! i = Some t -> (c, s) ∈ owned t -> begin_ c <= o -> o + zlen src <= c_end c ->
    mem' = zwrite o src (w_mem w) -> effect w i mem'.

Lemma effect_header w i t c s o n v : inv w -> w_threads w !! i = Some t -> (c, s) ∈ owned t -> begin_ c <= o -> o + Z.of_nat n <= begin_ c + 8 ->
  effect w i (zwrite o (le_bytes n v) (w_mem w)).
Proof.
  intros Hinv Hi Hin Ho He. eapply effect_write; [done..| |done]. rewrite zlen_le_bytes.
  pose proof (owned_size _ _ (in_mem _ Hinv) (owned_chunk _ _ _ _ _ Hinv Hi Hin)) as Hs. cbn [fst] in Hs. unfold c_end. lia.
Qed.
Ltac header_effect :=
  intros [= <- <-]; eapply effect_header; [done|done|apply elem_of_cons; by left|unfold writer_id_at, chunk_id_at, packets_at; lia|unfold writer_id_at, chunk_id_at, packets_at; lia].
Lemma thread_effect w i t t' mem' : inv w -> w_threads w !! i = Some t -> thread_step a t (w_mem w) = Ok (t', mem') -> effect w i mem'.
Proof.
  intros Hinv Hi. pose proof (in_pcs _ Hinv) as Hok. rewrite Forall_lookup in Hok. specialize (Hok i t Hi).
  destruct t as [pc hd]. cbn [t_pc] in Hok. destruct pc; unfold thread_step, acquire_step, clear_step, release_step; cbn [t_pc held pc_ok] in *.
  - intros [= <- <-]. by apply effect_none.
  - intros H. apply effect_none. revert H. repeat cases_if; by intros [= <- <-].
  - destruct Hok as (Hp & Hd & Hj & Hst & ->). unfold cas32. fold (GetPageLayout a page_idx (w_mem w)).
    destruct (Z.eqb_spec (GetPageLayout a page_idx (w_mem w)) layout) as [<-|]; [|intros [= <- <-]; by apply effect_none].
    intros H. assert (mem' = store32 (page_start a page_idx) (set_chunk_state (GetPageLayout a page_idx (w_mem w)) chunk_idx desired) (w_mem w)).
    { destruct (GetChunkUnchecked _ _ _ _); [|done]. cbn [obind] in H. destruct (_ =? _); by injection H. }
    eapply effect_state; [done..| |by left|done]. rewrite Hst. destruct Hd as [->| ->]; vm_compute; repeat constructor.
  - header_effect.
  - header_effect.
  - header_effect.
  - header_effect.
  - header_effect.
  - header_effect.
  - intros H. apply effect_none. destruct (_ =? _); [|done]. cbn [perfetto_check obind] in H. destruct (_ =? release_from _); [|done]. by injection H.
  - destruct Hok as (Hpj & Hd & ->). unfold cas32. fold (GetPageLayout a page_idx (w_mem w)).
    destruct (Z.eqb_spec (GetPageLayout a page_idx (w_mem w)) layout) as [<-|]; [|intros [= <- <-]; by apply effect_none]. intros [= <- <-].
    assert (Hc : hold_ok (w_mem w) (c, release_from desired)) by (eapply owned_chunk; [done..|apply elem_of_cons; by left]).
    destruct (hold_ok_index _ _ (in_mem _ Hinv) Hc) as (p & j & Hidx & Hp & Hj & _ & Hst & _). cbn [fst snd] in *. rewrite Hidx in Hpj. injection Hpj as <- <-.
    eapply effect_state; [done..| | |done].
    + rewrite Hst. destruct Hd as [->| ->]; vm_compute; repeat constructor.
    + destruct (Z.eqb_spec (set_chunk_state (GetPageLayout a p (w_mem w)) j desired .& kAllChunksMask) kAllChunksFree); tauto.
Qed.

Lemma step_spec w i w' : inv w -> step a w i w' -> inv w' /\ effect w i (w_mem w').
Proof.
  intros Hinv Hs. destruct Hs as [i t t' mem' Hi Hne Hs|i t p j d h Hi Hid Hp Hj Hd|i t pre c s post Hi Hid Hh|i t p l Hi Hid Hp Hl|i t c o src Hi Hid Hin Ho He Hb].
  - split; [|by eapply thread_effect]. destruct (thread_advances w i t Hinv Hi) as (t1 & mem1 & E & H). congruence.
  - split; [|by apply effect_none]. destruct t as [pc hd]. cbn in Hid. subst pc. by eapply inv_same.
  - split; [|by apply effect_none]. destruct t as [pc hd]. cbn in Hid, Hh. subst pc hd.
    assert (Hin : (c, s) ∈ owned (mkThread Idle (pre ++ (c, s) :: post))) by (unfold owned; cbn; apply elem_of_app; right; apply elem_of_cons; by left).
    destruct (owned_chunk _ _ _ _ _ Hinv Hi Hin) as (_ & _ & _ & _ & _ & _ & Hs). cbn [snd] in Hs.
    eapply inv_same; [done|exact Hi| | |done|done]; unfold ReleaseChunk; destruct (GetPageAndChunkIndex a c) as [p j] eqn:Epj;
      destruct Hs as [->| ->]; cbn; rewrite ?Epj; unfold owned; cbn; try by apply Permutation_middle.
    all: tauto.
  - destruct t as [pc hd]. cbn in Hid. subst pc. unfold TryPartitionPage, cas32. fold (GetPageLayout a p (w_mem w)).
    destruct (Z.eqb_spec (GetPageLayout a p (w_mem w)) 0) as [E|]; cbn [snd]; [|split; [by eapply inv_same|by apply effect_none]].
    split; [|by eapply effect_partition]. destruct (partition_word l Hl) as (Hwf & _). destruct (store_word _ p _ (in_mem _ Hinv) Hp Hwf) as (Hm & _ & Hother).
    eapply inv_update; [done|exact Hi|exact Hm|done|]. intros rest H1 H2. split; [|done]. eapply Forall_impl; [exact H1|].
    intros x (q & j & Hq & Hj & Hx). exists q, j. split; [done|]. cbv zeta. destruct (Z.eq_dec q p) as [->|]; [|by rewrite Hother].
    rewrite E in Hj. cbn in Hj. change (GetNumChunksForLayout 0) with 0 in Hj. lia.
  - destruct t as [pc hd]. cbn in Hid, Hin. subst pc.
    split; [by eapply (owned_write _ _ _ _ c kChunkBeingWritten)|by eapply (effect_write _ _ _ _ c kChunkBeingWritten)].
Qed.
End Ownership.

(** ** Reachable worlds *)

Lemma GetPageLayout_zeros a p : abi_ok a -> 0 <= p < num_pages_ a -> GetPageLayout a p (zeros (size_ a)) = 0.
Proof.
  intros Ha Hp. destruct (page_bounds a Ha p Hp) as (H1 & H2 & H3). unfold GetPageLayout, load32, zread, ztake, zdrop, zeros.
  rewrite drop_replicate, take_replicate. replace (Nat.min _ _) with 4%nat by lia. done.
Qed.
Lemma start_inv a n : abi_ok a -> inv a (start_world a n).
Proof.
  intros Ha. assert (Hown : all_owned (start_world a n) = []).
  { unfold all_owned, start_world. cbn [w_threads]. induction n; [done|]. cbn. apply IHn. }
  split; [|rewrite Hown; apply Forall_nil_2|rewrite Hown; apply NoDup_nil_2|].
  - split; [apply zlen_zeros; destruct Ha; unfold kMinPageSize in *; rewrite ab_size0; nia|]. intros p Hp. cbn [start_world w_mem].
    rewrite GetPageLayout_zeros by done. apply word_wf_0.
  - cbn [start_world w_threads]. apply Forall_replicate. done.
Qed.
Lemma reachable_inv a n w : abi_ok a -> reachable a (start_world a n) w -> inv a w.
Proof.
  intros Ha. remember (start_world a n) as w0 eqn:E. induction 1 as [|w i w' Hr IH Hs]; subst; [by apply start_inv|].
  apply (step_spec a Ha w i w'); auto.
Qed.

(** ** Termination *)

(** An upper bound on the steps a thread still takes in its operation. *)
Definition rank (p : pc) : nat :=
  match p with
  | Idle => 0
  | AcqLoad _ _ _ _ k => 5 + 2 * (63 - k)
  | AcqCas _ _ _ _ k _ _ => 4 + 2 * (63 - k)
  | AcqStoreWriter _ _ => 3 | AcqStoreChunkId _ _ => 2 | AcqStorePackets _ _ => 1
  | RelClearWriter _ _ _ => 131 | RelClearChunkId _ _ _ => 130 | RelClearPackets _ _ _ => 129
  | RelLoad _ _ _ _ k => 2 + 2 * (63 - k)
  | RelCas _ _ _ _ k _ _ => 1 + 2 * (63 - k)
  end.
Lemma rank_step a t mem t' mem' : thread_step a t mem = Ok (t', mem') -> t_pc t <> Idle -> (rank (t_pc t') < rank (t_pc t))%nat.
Proof.
  destruct t as [pc hd]. unfold thread_step, acquire_step, clear_step, release_step, retry, kRetryAttempts. cbn [t_pc held]. destruct pc; intros H Hne; [done|..].
  all: repeat (match type of H with
    | context [perfetto_check ?b] => destruct b
    | context [GetChunkUnchecked ?x ?y ?z ?u] => destruct (GetChunkUnchecked x y z u)
    | context [cas32 ?x ?y ?z ?u] => destruct (cas32 x y z u)
    | (if ?b then _ else _) = _ => destruct b
    | Ok (mkThread (if ?b then _ else _) _, _) = _ => destruct b eqn:?
    end; cbn [obind perfetto_check] in H); try done; injection H as <- <-; cbn [rank t_pc]; rewrite ?Nat.ltb_lt in *; lia.
Qed.

(** A stretch of a run in which thread [i] is inside one operation, with the number of
    steps that are its own. *)
Inductive busy_run (a : Abi) (i : nat) (w : World) : nat -> World -> Prop :=
| busy_start t : w_threads w !! i = Some t -> t_pc t <> Idle -> busy_run a i w 0 w
| busy_step k w1 j w2 t : busy_run a i w k w1 -> step a w1 j w2 -> w_threads w2 !! i = Some t -> t_pc t <> Idle ->
    busy_run a i w (if (j =? i)%nat then S k else k) w2.
Lemma step_other a w j w' i t : step a w j w' -> j <> i -> w_threads w' !! i = Some t -> w_threads w !! i = Some t.
Proof. intros Hs Hne. destruct Hs; cbn [set_thread w_threads]; by rewrite list_lookup_insert_ne. Qed.
Lemma step_own a w i w' t t' : step a w i w' -> w_threads w !! i = Some t -> t_pc t <> Idle -> w_threads w' !! i = Some t' ->
  (rank (t_pc t') < rank (t_pc t))%nat.
Proof.
  intros Hs Hi Hne. destruct Hs; cbn [set_thread w_threads]; try congruence.
  rewrite list_lookup_insert_eq by (by eapply lookup_lt_Some). intros [= <-]. assert (t0 = t) as -> by congruence. by eapply rank_step.
Qed.
Lemma busy_rank a i w k w' : busy_run a i w k w' -> exists t t', w_threads w !! i = Some t /\ w_threads w' !! i = Some t' /\ t_pc t' <> Idle /\
  (k + rank (t_pc t') <= rank (t_pc t))%nat.
Proof.
  induction 1 as [t Hi Hne|k w1 j w2 t2 Hr IH Hs Hi Hne]; [by exists t, t|]. destruct IH as (t & t1 & H1 & H2 & H3 & H4). exists t, t2. split; [done|]. split; [done|]. split; [done|].
  destruct (Nat.eqb_spec j i) as [->|Hji]; [|assert (t2 = t1) as -> by (pose proof (step_other _ _ _ _ _ _ Hs Hji Hi); congruence); done].
  pose proof (step_own _ _ _ _ _ _ Hs H2 H3 Hi). lia.
Qed.
Lemma rank_bound p : (rank p <= 131)%nat.
Proof. destruct p; cbn [rank]; lia. Qed.
Lemma rank_busy p : p <> Idle -> (0 < rank p)%nat.
Proof. destruct p; cbn [rank]; try done; lia. Qed.

Section Steps.
Context (a : Abi) (Ha : abi_ok a).

(** The states of the chunks of a page after a step. *)
Lemma effect_lifecycle w i mem' p : inv a w -> effect a w i mem' -> 0 <= p < num_pages_ a ->
  let word := GetPageLayout a p (w_mem w) in let word' := GetPageLayout a p mem' in
  (forall j, 0 <= j < 14 -> state_at word' j = state_at word j \/ (state_at word j, state_at word' j) ∈ lifecycle) /\
  (layout_index word' = layout_index word \/ (word = 0 /\ 1 <= layout_index word' <= 5) \/ word' = 0).
Proof.
  intros Hinv He Hp word word'. pose proof (in_mem _ _ Hinv) as Hmem.
  destruct He as [->|q j s v Hq Hj Hlc next Hv ->|q l Hq Hw0 Hl ->|t c s o src Hi Hin Ho Hend ->].
  - split; [by left|by left].
  - set (old := GetPageLayout a q (w_mem w)) in *. destruct (proj2 Hmem q Hq) as (H31 & Hlay & Hrest). change (word_ok 31 old) in H31. change (layout_index old <= 5) in Hlay.
    assert (Hs4 : 0 <= s < 4).
    { revert Hlc. unfold lifecycle. rewrite !elem_of_cons, elem_of_nil. intros [[= _ ->]|[[= _ ->]|[[= _ ->]|[[= _ ->]|[]]]]]; done. }
    assert (Hn : GetNumChunksForLayout old <= 14) by (apply num_chunks_range; split; [apply layout_index_range|done]).
    assert (H32 : word_ok 32 old) by (destruct H31; split; lia).
    assert (Hnext : word_wf next) by (apply word_wf_set; [apply (proj2 Hmem q Hq)|done|done|lia]).
    assert (Hvwf : word_wf v) by (destruct Hv as [->|[-> _]]; [done|apply word_wf_0]).
    destruct (store_word a Ha _ q v Hmem Hq Hvwf) as (_ & Hsame & Hother).
    destruct (Z.eq_dec p q) as [->|Hne]; [|unfold word'; rewrite Hother by done; split; [by left|by left]].
    unfold word'. rewrite Hsame. split.
    + intros k Hk. assert (Hnk : state_at next k = if k =? j then s else state_at old k) by (apply state_at_set; done || lia).
      assert (Hvk : state_at v k = state_at next k).
      { destruct Hv as [->|[-> Hz]]; [done|]. rewrite state_at_0. symmetry. apply all_chunks_free; [done|lia]. }
      rewrite Hvk, Hnk. destruct (Z.eqb_spec k j) as [->|]; [by right|by left].
    + destruct Hv as [->|[-> _]]; [left; apply layout_index_set; done || lia|by right; right].
  - destruct (partition_word l Hl) as (Hwf & Hli & Hfree). destruct (store_word a Ha _ q _ Hmem Hq Hwf) as (_ & Hsame & Hother).
    destruct (Z.eq_dec p q) as [->|Hne]; [|unfold word'; rewrite Hother by done; split; [by left|by left]].
    unfold word, word'. rewrite Hsame, Hw0. split; [|right; left; lia]. intros j Hj. left. rewrite Hfree by done. by rewrite state_at_0.
  - destruct (owned_chunk a _ _ _ _ _ Hinv Hi Hin) as (q & j & Hq & Hj & Hc & _). cbn [fst] in Hc. subst c.
    destruct (chunk_write_words a Ha _ q j o src Hmem Hq Hj Ho Hend) as (_ & _ & _ & Hw). unfold word'. rewrite Hw by done. split; [by left|by left].
Qed.

(** The bytes of a chunk the stepping thread does not own. *)
Lemma effect_bytes w i mem' p j : inv a w -> effect a w i mem' -> 0 <= p < num_pages_ a ->
  let word := GetPageLayout a p (w_mem w) in 0 <= j < GetNumChunksForLayout word -> let c := chunk_at a p word j in
  (forall t s, w_threads w !! i = Some t -> (c, s) ∉ owned t) -> zread (begin_ c) (c_size c) mem' = zread (begin_ c) (c_size c) (w_mem w).
Proof.
  intros Hinv He Hp word Hj c Hno. pose proof (in_mem _ _ Hinv) as Hmem. destruct (proj2 Hmem p Hp) as (_ & Hlay & _). change (layout_index word <= 5) in Hlay.
  destruct (chunk_at_page a Ha p word j Hlay Hj) as [B E]. fold c in B, E. destruct (chunk_geometry a Ha word (partitioned word j Hlay Hj)) as (_ & Hcs & _).
  change (GetChunkSizeForLayout a word) with (c_size c) in Hcs. unfold c_end in E.
  destruct (page_bounds a Ha p Hp) as (P1 & P2 & P3). pose proof (proj1 Hmem) as Hlen. unfold page_start in *.
  assert (Hstore : forall q v, 0 <= q < num_pages_ a -> zread (begin_ c) (c_size c) (store32 (page_start a q) v (w_mem w)) = zread (begin_ c) (c_size c) (w_mem w)).
  { intros q v Hq. destruct (page_bounds a Ha q Hq) as (Q1 & Q2 & Q3). unfold store32, page_start in *. apply zread_zwrite_ne; rewrite ?zlen_le_bytes; try lia.
    destruct (Z.lt_trichotomy q p) as [|[->|]]; [right; nia|right; lia|left; nia]. }
  destruct He as [->|q k s v Hq _ _ _ _ ->|q l Hq _ _ ->|t d s o src Hi Hin Ho Hend ->]; [done|by apply Hstore|by apply Hstore|].
  destruct (owned_chunk a _ _ _ _ _ Hinv Hi Hin) as (q & k & Hq & Hk & Hd & _). cbn [fst] in Hd.
  destruct (proj2 Hmem q Hq) as (_ & Hlay' & _). assert (Hne : (p, j) <> (q, k)).
  { intros [= -> ->]. by apply (Hno t s Hi); unfold c, word; rewrite <- Hd. }
  destruct (chunks_disjoint a Ha p word j q _ k Hlay Hj Hlay' Hk Hne) as [Hdis|Hdis]; [intros ->; done| |].
  all: rewrite Hd in Ho, Hend; rewrite Hd in Hin; destruct (chunk_write_words a Ha _ q k o src Hmem Hq Hk Ho Hend) as (_ & Z1 & Z2 & _).
  all: pose proof (zlen_nonneg src); apply zread_zwrite_ne; try (unfold c_end in *; fold c in Hdis; lia).
Qed.
End Steps.

(** ** The queries on a page *)

#[local] Ltac Zify.zify_post_hook ::= idtac.
Lemma shift_state word k j : 0 <= j -> 0 <= k -> state_at (word .>> (k * 2)) j = state_at word (k + j).
Proof. intros. unfold state_at, GetChunkStateFromLayout, kChunkShift. rewrite Z.shiftr_shiftr by lia. do 2 f_equal. lia. Qed.
Lemma low_state word : word .& kChunkMask = state_at word 0.
Proof. unfold state_at, GetChunkStateFromLayout. by rewrite Z.shiftr_0_r. Qed.
Lemma chunk_bit_loop (f : Z -> bool) (loop : nat -> Z -> Z -> Z -> Z) :
  (forall i word res, loop O i word res = res) ->
  (forall n i word res, loop (S n) i word res = loop n (i + 1) (word .>> kChunkShift) (res .| (if f (word .& kChunkMask) then 1 .<< i else 0))) ->
  forall n i word res j, 0 <= i -> 0 <= j ->
  Z.testbit (loop n i word res) j = Z.testbit res j || ((i <=? j) && (j <? i + Z.of_nat n) && f (state_at word (j - i))).
Proof.
  intros H0 HS. induction n as [|n IH]; intros i word res j Hi Hj.
  - rewrite H0. change (Z.of_nat 0) with 0. destruct (Z.leb_spec i j), (Z.ltb_spec j (i + 0)); cbn [andb]; [lia|by rewrite orb_false_r..].
  - rewrite HS, IH by lia. rewrite Z.lor_spec, <- orb_assoc. f_equal. rewrite low_state.
    assert (Hbit : Z.testbit (if f (state_at word 0) then 1 .<< i else 0) j = (j =? i) && f (state_at word 0)).
    { destruct (f (state_at word 0)); [|by rewrite Z.testbit_0_l, andb_false_r]. rewrite andb_true_r, Z.shiftl_1_l, Z.pow2_bits_eqb by lia. apply Z.eqb_sym. }
    change kChunkShift with (1 * 2). rewrite Hbit. destruct (Z.eqb_spec j i) as [->|Hne]; [rewrite Z.sub_diag|].
    + destruct (Z.leb_spec (i + 1) i), (Z.leb_spec i i), (Z.ltb_spec i (i + Z.of_nat (S n))); try lia. cbn [andb]. by rewrite orb_false_r.
    + destruct (Z.leb_spec (i + 1) j), (Z.leb_spec i j), (Z.ltb_spec j (i + Z.of_nat (S n))), (Z.ltb_spec j (i + 1 + Z.of_nat n)); try lia; cbn [andb orb]; try done.
      rewrite shift_state by lia. do 2 f_equal. lia.
Qed.
Lemma UsedChunks_bits n i word res j : 0 <= i -> 0 <= j ->
  Z.testbit (UsedChunks_loop n i word res) j = Z.testbit res j || ((i <=? j) && (j <? i + Z.of_nat n) && negb (state_at word (j - i) =? kChunkFree)).
Proof. by apply (chunk_bit_loop (fun s => negb (s =? kChunkFree)) UsedChunks_loop). Qed.
Lemma FreeChunks_bits n i word res j : 0 <= i -> 0 <= j ->
  Z.testbit (FreeChunks_loop n i word res) j = Z.testbit res j || ((i <=? j) && (j <? i + Z.of_nat n) && (state_at word (j - i) =? kChunkFree)).
Proof. by apply (chunk_bit_loop (fun s => s =? kChunkFree) FreeChunks_loop). Qed.

(** The comparison of [is_page_complete], state by state. *)
#[local] Ltac Zify.zify_post_hook ::= Z.to_euclidean_division_equations.
Lemma complete_bits word n : 0 <= n <= 14 -> (forall j, n <= j < 14 -> state_at word j = kChunkFree) ->
  (word .& kAllChunksMask = (kAllChunksComplete .& ((1 .<< (n * kChunkShift)) - 1))) <-> (forall j, 0 <= j < n -> state_at word j = kChunkComplete).
Proof.
  intros Hn Hrest. assert (Hmask : forall i, 0 <= i -> Z.testbit (kAllChunksComplete .& ((1 .<< (n * kChunkShift)) - 1)) i = (i <? 2 * n)).
  { intros i Hi. rewrite Z.land_spec. replace ((1 .<< (n * kChunkShift)) - 1) with (Z.ones (2 * n)) by (rewrite Z.ones_equiv, Z.shiftl_1_l, <- Z.sub_1_r; unfold kChunkShift; do 2 f_equal; lia).
    change kAllChunksComplete with (Z.ones 28). rewrite !Z.testbit_ones_nonneg by lia. lia. }
  assert (Hword : forall i, 0 <= i -> Z.testbit (word .& kAllChunksMask) i = (i <? 28) && Z.testbit word i).
  { intros i Hi. rewrite Z.land_spec. change kAllChunksMask with (Z.ones 28). rewrite Z.testbit_ones_nonneg by lia. apply andb_comm. }
  split.
  - intros E j Hj. apply Z.bits_inj'. intros i Hi. rewrite state_at_bits by lia. unfold kChunkComplete. change 3 with (Z.ones 2). rewrite Z.testbit_ones_nonneg by lia.
    destruct (Z.ltb_spec i 2); [|done]. cbn [andb]. assert (Hb : Z.testbit (word .& kAllChunksMask) (i + 2 * j) = true) by (rewrite E, Hmask by lia; lia).
    rewrite Hword in Hb by lia. apply andb_true_iff in Hb as [_ Hb]. done.
  - intros Hall. apply Z.bits_inj'. intros i Hi. rewrite Hmask, Hword by lia. destruct (Z.ltb_spec i 28); [|cbn [andb]; lia]. cbn [andb].
    assert (Hij : Z.testbit word i = Z.testbit (state_at word (i `div` 2)) (i `mod` 2)).
    { rewrite state_at_bits by lia. replace (i `mod` 2 <? 2) with true by lia. cbn [andb]. f_equal. lia. }
    rewrite Hij. destruct (Z.ltb_spec i (2 * n)).
    + rewrite Hall by lia. assert (i `mod` 2 = 0 \/ i `mod` 2 = 1) as [->| ->] by lia; done.
    + rewrite Hrest by lia. apply Z.testbit_0_l.
Qed.

(** ** The packets field of the header *)

Lemma Packets_range count flags : word_ok 16 (Packets count flags).
Proof.
  unfold Packets. change 1023 with (2 ^ 10 - 1). change 63 with (2 ^ 6 - 1). rewrite !land_ones_mod by lia.
  pose proof (Z.mod_pos_bound count (2 ^ 10)). pose proof (Z.mod_pos_bound flags (2 ^ 6)). rewrite lor_shiftl_add by lia. unfold word_ok. lia.
Qed.
Lemma Packets_fields count flags : packets_count (Packets count flags) = count `mod` 1024 /\ packets_flags (Packets count flags) = flags `mod` 64.
Proof.
  unfold packets_count, packets_flags, Packets. change 1023 with (2 ^ 10 - 1). change 63 with (2 ^ 6 - 1). rewrite !land_ones_mod by lia.
  pose proof (Z.mod_pos_bound count (2 ^ 10)). pose proof (Z.mod_pos_bound flags (2 ^ 6)). rewrite lor_shiftl_add by lia.
  rewrite Z.shiftr_div_pow2 by lia. change (2 ^ 10) with 1024 in *. change (2 ^ 6) with 64 in *. lia.
Qed.
Lemma load16_range off mem : bytes_ok mem -> 0 <= off -> off + 2 <= zlen mem -> word_ok 16 (load16 off mem).
Proof.
  intros Hb Ho Hl. unfold load16. pose proof (le_value_range (zread off 2 mem) ltac:(by apply bytes_ok_zread)) as H.
  rewrite zlen_zread in H by lia. exact H.
Qed.
Lemma load16_store16 off v mem : 0 <= off -> off + 2 <= zlen mem -> word_ok 16 v -> load16 off (store16 off v mem) = v.
Proof.
  intros. unfold load16, store16. rewrite zread_zwrite_eq by (rewrite ?zlen_le_bytes; lia). by apply le_value_bytes_small.
Qed.
Lemma zread_store n off v mem o k : 0 <= off -> off + Z.of_nat n <= zlen mem -> 0 <= o -> 0 <= k -> o + k <= off \/ off + Z.of_nat n <= o ->
  zread o k (zwrite off (le_bytes n v) mem) = zread o k mem.
Proof. intros. apply zread_zwrite_ne; rewrite ?zlen_le_bytes; lia. Qed.
Lemma packets_small packets : word_ok 16 packets -> 0 <= packets_count packets < 1024 /\ 0 <= packets_flags packets < 64.
Proof.
  unfold word_ok, packets_count, packets_flags. change 1023 with (2 ^ 10 - 1). rewrite land_ones_mod, Z.shiftr_div_pow2 by lia.
  change (2 ^ 16) with 65536. change (2 ^ 10) with 1024. lia.
Qed.

(** ** The properties *)

(** C14. Whatever the threads of the producer and of the service interleave, no check of
    the shared memory code fails; every chunk a thread owns lies in its page after the
    page header, its page word holds the state it was acquired for, and no two owned
    chunks share a byte. *)
Theorem chunks_have_one_owner start size page_size a n w :
  Initialize start size page_size = Ok a -> 0 <= size -> reachable a (start_world a n) w ->
  (forall i t, w_threads w !! i = Some t -> exists r, thread_step a t (w_mem w) = Ok r) /\
  (forall k c s, all_owned w !! k = Some (c, s) -> let '(p, j) := GetPageAndChunkIndex a c in
     0 <= p < num_pages_ a /\ page_start a p + sizeof_PageHeader <= begin_ c /\ c_end c <= page_start a (p + 1) /\
     GetChunkState a p j (w_mem w) = s /\ (s = kChunkBeingWritten \/ s = kChunkBeingRead)) /\
  (forall k l x y, all_owned w !! k = Some x -> all_owned w !! l = Some y -> k <> l -> c_end x.1 <= begin_ y.1 \/ c_end y.1 <= begin_ x.1).
Proof.
  intros Hi Hs Hr. assert (Ha := Initialize_ok _ _ _ _ Hi Hs). pose proof (reachable_inv a n w Ha Hr) as Hinv. pose proof (in_mem _ _ Hinv) as Hmem.
  pose proof (in_held _ _ Hinv) as Hheld. rewrite Forall_lookup in Hheld. split; [|split].
  - intros i t Ht. destruct (thread_advances a Ha w i t Hinv Ht) as (t' & mem' & E & _). by eexists.
  - intros k c s Hk. destruct (hold_ok_index a Ha _ _ Hmem (Hheld _ _ Hk)) as (p & j & E & Hp & Hj & Hc & Hst & Hs'). cbn [fst snd] in *.
    rewrite E. destruct (proj2 Hmem p Hp) as (_ & Hl & _). rewrite Hc. destruct (chunk_at_page a Ha p _ j Hl Hj). unfold page_start, sizeof_PageHeader. tauto.
  - intros k l x y Hk Hl Hne. destruct (hold_ok_index a Ha _ _ Hmem (Hheld _ _ Hk)) as (p & j & Ex & Hp & Hj & -> & _).
    destruct (hold_ok_index a Ha _ _ Hmem (Hheld _ _ Hl)) as (q & i & Ey & Hq & Hi' & -> & _).
    apply chunks_disjoint; [done|apply (proj2 Hmem p Hp)|done|apply (proj2 Hmem q Hq)|done| |by intros ->].
    intros Epq. apply Hne. eapply (NoDup_lookup _ k l (p, j)); [exact (in_unique _ _ Hinv)| |];
      rewrite list_lookup_fmap; [rewrite Hk|rewrite Hl]; cbn; congruence.
Qed.

(** A step changes the state of a chunk only along free, being written, complete,
    being read, free; it changes a page's layout only from a free page to a partition or
    back to a free page; and it leaves alone the bytes of every chunk its thread does not
    own, so a complete chunk keeps its bytes until it is acquired for reading. *)
Theorem chunk_lifecycle start size page_size a n w i w' p :
  Initialize start size page_size = Ok a -> 0 <= size -> reachable a (start_world a n) w -> step a w i w' -> 0 <= p < num_pages_ a ->
  let word := GetPageLayout a p (w_mem w) in let word' := GetPageLayout a p (w_mem w') in
  (forall j, 0 <= j < 14 -> GetChunkState a p j (w_mem w') = GetChunkState a p j (w_mem w) \/
     (GetChunkState a p j (w_mem w), GetChunkState a p j (w_mem w')) ∈ lifecycle) /\
  (layout_index word' = layout_index word \/ (word = 0 /\ 1 <= layout_index word' <= 5) \/ word' = 0) /\
  (forall j c, 0 <= j < GetNumChunksForLayout word -> GetChunkUnchecked a p word j = Ok c ->
     (GetChunkState a p j (w_mem w) = kChunkComplete \/ forall t s, w_threads w !! i = Some t -> (c, s) ∉ owned t) ->
     zread (begin_ c) (c_size c) (w_mem w') = zread (begin_ c) (c_size c) (w_mem w)).
Proof.
  intros Hi Hs Hr Hstep Hp word word'. assert (Ha := Initialize_ok _ _ _ _ Hi Hs). pose proof (reachable_inv a n w Ha Hr) as Hinv.
  destruct (step_spec a Ha w i w' Hinv Hstep) as [_ He]. destruct (effect_lifecycle a Ha w i _ p Hinv He Hp) as [H1 H2].
  split; [exact H1|]. split; [exact H2|]. intros j c Hj Hc Hown. destruct (proj2 (in_mem _ _ Hinv) p Hp) as (_ & Hl & _).
  rewrite (GetChunkUnchecked_spec a Ha p word j Hl Hj) in Hc. injection Hc as <-. apply (effect_bytes a Ha w i _ p j Hinv He Hp Hj).
  destruct Hown as [Hcomplete|Hno]; [|done]. intros t s Ht Hin. destruct (owned_chunk a _ _ _ _ _ Hinv Ht Hin) as (q & k & Hq & Hk & Hc & Hst & Hbusy). cbn [fst snd] in *.
  destruct (proj2 (in_mem _ _ Hinv) q Hq) as (_ & Hl' & _). assert (E := f_equal (GetPageAndChunkIndex a) Hc).
  rewrite !(GetPageAndChunkIndex_spec a Ha) in E by done. injection E as <- <-. change (state_at word j = kChunkComplete) in Hcomplete.
  change (state_at word j = s) in Hst. rewrite Hcomplete in Hst. unfold kChunkComplete, kChunkBeingWritten, kChunkBeingRead in *. lia.
Qed.

(** C15. The operations are wait-free: a thread inside TryAcquireChunk or ReleaseChunk can
    always take its next step, and it is out of the operation after at most 131 steps of
    its own, whatever the other threads do meanwhile. *)
Theorem operations_are_wait_free start size page_size a n w i k w' :
  Initialize start size page_size = Ok a -> 0 <= size -> reachable a (start_world a n) w -> busy_run a i w k w' ->
  (k < 131)%nat /\ exists w'', step a w' i w''.
Proof.
  intros Hi Hs Hr Hb. assert (Ha := Initialize_ok _ _ _ _ Hi Hs). destruct (busy_rank _ _ _ _ _ Hb) as (t & t' & Ht & Ht' & Hne & Hk).
  pose proof (rank_bound (t_pc t)). pose proof (rank_busy _ Hne). split; [lia|].
  assert (Hr' : reachable a (start_world a n) w').
  { clear Hk Ht Ht' Hne. induction Hb as [|k w1 j w2 t2 Hb IH Hstep]; [done|]. eapply reachable_step; [by apply IH|exact Hstep]. }
  pose proof (reachable_inv a n w' Ha Hr') as Hinv. destruct (thread_advances a Ha w' i t' Hinv Ht') as (t2 & mem2 & E & _).
  eexists. by eapply step_continue.
Qed.

(** The geometry: the chunks of any partition of any page are aligned, lie in the page
    after its header, do not overlap, and are recognised from their address alone. *)
Theorem chunk_geometry_correct start size page_size a p layout j :
  Initialize start size page_size = Ok a -> 0 <= size -> 0 <= p < num_pages_ a -> layout_index layout <= 5 -> 0 <= j < GetNumChunksForLayout layout ->
  exists c, GetChunkUnchecked a p layout j = Ok c /\ GetPageAndChunkIndex a c = (p, j) /\ chunk_idx_ c = j /\ c_size c = GetChunkSizeForLayout a layout /\
    begin_ c `mod` kChunkAlignment = 0 /\ 0 < payload_size c /\
    page_start a p + sizeof_PageHeader <= begin_ c /\ c_end c <= page_start a (p + 1) /\ 0 <= begin_ c /\ c_end c <= size_ a /\
    (forall k c', 0 <= k < GetNumChunksForLayout layout -> k <> j -> GetChunkUnchecked a p layout k = Ok c' -> c_end c <= begin_ c' \/ c_end c' <= begin_ c).
Proof.
  intros Hi Hs Hp Hl Hj. assert (Ha := Initialize_ok _ _ _ _ Hi Hs). pose proof (GetChunkUnchecked_spec a Ha p layout j Hl Hj) as Hc.
  exists (chunk_at a p layout j). split; [exact Hc|]. split; [by apply GetPageAndChunkIndex_spec|]. split; [done|]. split; [done|].
  destruct (chunk_geometry a Ha layout (partitioned layout j Hl Hj)) as (_ & Hcs & _). destruct (chunk_at_page a Ha p layout j Hl Hj) as [B E].
  destruct (page_bounds a Ha p Hp) as (P1 & P2 & P3). unfold page_start, sizeof_PageHeader, payload_size, sizeof_ChunkHeader in *. split.
  - unfold GetChunkUnchecked, Chunk_new in Hc. destruct (_ `mod` _ =? 0) eqn:E0 in Hc; [|done]. cbn [perfetto_check obind] in Hc. destruct (0 <? _) in Hc; [|done]. injection Hc as Hc1 _. rewrite Hc1 in E0. cbn. lia.
  - cbn [c_size chunk_at]. split; [lia|]. split; [lia|]. split; [lia|]. split; [nia|]. split; [nia|].
    intros k c' Hk Hne Hc'. rewrite (GetChunkUnchecked_spec a Ha p layout k Hl Hk) in Hc'. injection Hc' as <-. apply chunks_disjoint; try done. congruence.
Qed.

(** What the readers of the page word see: the bitmaps of free and of used chunks, and
    whether all the chunks are complete, agree with the state of each chunk; a page is
    partitioned exactly when it is free, and all the chunks of the new layout are free. *)
Theorem page_queries_correct start size page_size a n w p :
  Initialize start size page_size = Ok a -> 0 <= size -> reachable a (start_world a n) w -> 0 <= p < num_pages_ a ->
  let mem := w_mem w in let num := GetNumChunksForLayout (GetPageLayout a p mem) in
  (forall j, 0 <= j -> Z.testbit (GetFreeChunks a p mem) j = (j <? num) && (GetChunkState a p j mem =? kChunkFree)) /\
  (forall j, 0 <= j -> Z.testbit (GetUsedChunks (GetPageLayout a p mem)) j = (j <? num) && negb (GetChunkState a p j mem =? kChunkFree)) /\
  (is_page_complete a p mem = true <-> 0 < num /\ forall j, 0 <= j < num -> GetChunkState a p j mem = kChunkComplete) /\
  (forall layout, 1 <= layout <= 5 -> let '(success, mem') := TryPartitionPage a p layout mem in
     success = is_page_free a p mem /\ (success = false -> mem' = mem) /\
     (success = true -> GetNumChunksForLayout (GetPageLayout a p mem') = znth kNumChunksForLayout layout /\ forall j, 0 <= j < 14 -> GetChunkState a p j mem' = kChunkFree)).
Proof.
  intros Hi Hs Hr Hp mem num. assert (Ha := Initialize_ok _ _ _ _ Hi Hs). pose proof (reachable_inv a n w Ha Hr) as Hinv.
  pose proof (in_mem _ _ Hinv) as Hmem. destruct (proj2 Hmem p Hp) as (_ & Hl & Hfree). fold mem in Hl, Hfree, Hmem. fold num in Hfree.
  assert (Hn : 0 <= num <= 14) by (apply num_chunks_range; split; [apply layout_index_range|done]). split; [|split; [|split]].
  - intros j Hj. unfold GetFreeChunks. fold num. rewrite FreeChunks_bits by lia. rewrite Z.testbit_0_l, Z.sub_0_r, Z.add_0_l, Z2Nat.id by lia.
    replace (0 <=? j) with true by lia. done.
  - intros j Hj. unfold GetUsedChunks. fold num. rewrite UsedChunks_bits by lia. rewrite Z.testbit_0_l, Z.sub_0_r, Z.add_0_l, Z2Nat.id by lia.
    replace (0 <=? j) with true by lia. done.
  - unfold is_page_complete. fold num. destruct (Z.eqb_spec num 0); [split; [done|lia]|]. rewrite Z.eqb_eq.
    split; [intros E; split; [lia|]|intros [_ E]]; by apply (complete_bits _ num).
  - intros layout Hlay. unfold TryPartitionPage, cas32, is_page_free. fold (GetPageLayout a p mem). destruct (GetPageLayout a p mem =? 0); [|done].
    split; [done|]. split; [done|]. intros _. destruct (partition_word layout Hlay) as (Hwf & Hli & Hst).
    destruct (store_word a Ha mem p _ Hmem Hp Hwf) as (_ & E & _). unfold GetChunkState. rewrite E. split; [by unfold GetNumChunksForLayout; rewrite Hli|done].
Qed.

(** The packet count and the flags of a chunk header: each operation changes its own
    field as intended (the count wraps at 10 bits), keeps the other one, and leaves the
    chunk id, the writer id and the payload alone. *)
Theorem packets_field_correct c mem n flag : bytes_ok mem -> 0 <= begin_ c -> c_end c <= zlen mem -> sizeof_ChunkHeader <= c_size c -> 0 <= n < 1024 -> 0 <= flag < 64 ->
  let '(count, flags) := GetPacketCountAndFlags c mem in
  let frame mem' := zread (begin_ c) 6 mem' = zread (begin_ c) 6 mem /\ zread (payload_begin c) (payload_size c) mem' = zread (payload_begin c) (payload_size c) mem in
  let '(c1, m1) := IncrementPacketCount c mem in let '(c2, m2) := IncreasePacketCountTo n c mem in
  let m3 := SetFlag flag c mem in let m4 := ClearNeedsPatchingFlag c mem in
  (GetPacketCountAndFlags c m1 = ((count + 1) `mod` 1024, flags) /\ c1 = (count + 1) `mod` 1024 /\ frame m1) /\
  (GetPacketCountAndFlags c m2 = (Z.max count n, flags) /\ c2 = Z.max count n /\ frame m2) /\
  (GetPacketCountAndFlags c m3 = (count, flags .| flag) /\ frame m3) /\
  (GetPacketCountAndFlags c m4 = (count, flags .& Z.lnot 4) /\ frame m4).
Proof.
  intros Hb Hbeg Hend Hsz Hn Hf. unfold GetPacketCountAndFlags, c_end, sizeof_ChunkHeader in *. set (packets := load16 (packets_at c) mem).
  assert (Hat : 0 <= packets_at c /\ packets_at c + 2 <= zlen mem) by (unfold packets_at; lia).
  assert (Hp : word_ok 16 packets) by (apply load16_range; [done|apply Hat|apply Hat]). destruct (packets_small packets Hp) as [Hc Hfl].
  assert (Hfr : forall v, zread (begin_ c) 6 (store16 (packets_at c) v mem) = zread (begin_ c) 6 mem /\
    zread (payload_begin c) (payload_size c) (store16 (packets_at c) v mem) = zread (payload_begin c) (payload_size c) mem).
  { intros v. unfold store16, payload_begin, payload_size, sizeof_ChunkHeader, packets_at. split; apply zread_store; lia. }
  assert (Hst : forall cn fl, GetPacketCountAndFlags c (store16 (packets_at c) (Packets cn fl) mem) = (cn `mod` 1024, fl `mod` 64)).
  { intros cn fl. unfold GetPacketCountAndFlags. rewrite load16_store16 by (apply Hat || apply Packets_range). f_equal; apply Packets_fields. }
  unfold GetPacketCountAndFlags in Hst. unfold IncrementPacketCount, IncreasePacketCountTo, SetFlag, ClearNeedsPatchingFlag. fold packets.
  assert (Hor : 0 <= packets_flags packets .| flag < 64).
  { apply (word_ok_bits 6); [lia|by apply Z.lor_nonneg; lia|]. intros i Hi. rewrite Z.lor_spec, !(testbit_small 6) by (done || lia). done. }
  assert (Hand : 0 <= packets_flags packets .& Z.lnot 4 < 64).
  { apply (word_ok_bits 6); [lia|apply Z.land_nonneg; lia|]. intros i Hi. rewrite Z.land_spec, (testbit_small 6 (packets_flags packets)) by (done || lia). done. }
  split; [|split; [|split]].
  - rewrite Hst, (proj1 (Packets_fields _ _)), (Z.mod_small (packets_flags packets)) by lia. auto.
  - destruct (Z.ltb_spec (packets_count packets) n).
    + rewrite Hst, (proj1 (Packets_fields _ _)), !Z.mod_small, Z.max_r by lia. auto.
    + rewrite load16_store16, Z.max_l by (apply Hat || done || lia). auto.
  - rewrite Hst, !Z.mod_small by lia. auto.
  - rewrite Hst, !Z.mod_small by lia. auto.
Qed.

(** What the header stores leave in memory. *)
#[local] Ltac Zify.zify_post_hook ::= idtac.
Lemma header_stored c wid id pk mem : 0 <= begin_ c -> begin_ c + 8 <= zlen mem -> word_ok 16 wid -> word_ok 32 id -> word_ok 16 pk ->
  let mem' := store16 (packets_at c) pk (store32 (chunk_id_at c) id (store16 (writer_id_at c) wid mem)) in
  load32 (chunk_id_at c) mem' = id /\ writer_id c mem' = wid /\ load16 (packets_at c) mem' = pk.
Proof.
  intros Hb Hl Hw Hi Hp mem'. unfold writer_id, mem', packets_at, chunk_id_at, writer_id_at.
  assert (L1 : zlen (store16 (begin_ c + 4) wid mem) = zlen mem) by (apply zlen_zwrite; rewrite ?zlen_le_bytes; lia).
  assert (L2 : zlen (store32 (begin_ c) id (store16 (begin_ c + 4) wid mem)) = zlen mem) by (rewrite zlen_store32; lia).
  split; [|split].
  - unfold load32, store16 at 1. rewrite zread_store by lia. apply load32_store32; [lia|lia|done].
  - unfold load16, store16 at 1. rewrite zread_store by lia. unfold store32. rewrite zread_store by lia. apply load16_store16; [lia|lia|done].
  - apply load16_store16; [lia|lia|done].
Qed.

Lemma run_step fuel a t mem t' mem' : thread_step a t mem = Ok (t', mem') -> t_pc t <> Idle ->
  run_operation (S fuel) a t mem = run_operation fuel a t' mem'.
Proof. intros E Hne. cbn [run_operation]. rewrite E. destruct (t_pc t); done. Qed.
Lemma run_idle fuel a hd mem : run_operation fuel a (mkThread Idle hd) mem = Ok (mkThread Idle hd, mem).
Proof. by destruct fuel. Qed.
Lemma run_stores a c header hd mem :
  run_operation 3 a (mkThread (AcqStoreWriter c header) hd) mem =
  Ok (mkThread Idle ((c, kChunkBeingWritten) :: hd),
      store16 (packets_at c) (h_packets header) (store32 (chunk_id_at c) (h_chunk_id header) (store16 (writer_id_at c) (h_writer_id header) mem))).
Proof. do 3 (erewrite run_step; [|reflexivity|done]). by rewrite run_idle. Qed.

(** Acquiring a chunk for writing, undisturbed: it succeeds exactly when the chunk
    exists in the page's layout and is free; then the caller holds it, its state and no
    other chunk's becomes being-written and its header is the given one.  Otherwise
    nothing changes. *)
Theorem acquire_for_writing_correct start size page_size a n w p j header hd :
  Initialize start size page_size = Ok a -> 0 <= size -> reachable a (start_world a n) w -> 0 <= p < num_pages_ a -> 0 <= j ->
  word_ok 32 (h_chunk_id header) -> word_ok 16 (h_writer_id header) -> word_ok 16 (h_packets header) ->
  let word := GetPageLayout a p (w_mem w) in
  let free := (j <? GetNumChunksForLayout word) && (GetChunkState a p j (w_mem w) =? kChunkFree) in
  exists mem', run_operation 5 a (mkThread (TryAcquireChunk p j kChunkBeingWritten header) hd) (w_mem w) =
    Ok (mkThread Idle (if free then (chunk_at a p word j, kChunkBeingWritten) :: hd else hd), mem') /\
  (free = false -> mem' = w_mem w) /\
  (free = true -> let c := chunk_at a p word j in
     GetChunkUnchecked a p word j = Ok c /\
     (forall k, 0 <= k < 14 -> GetChunkState a p k mem' = if k =? j then kChunkBeingWritten else GetChunkState a p k (w_mem w)) /\
     load32 (chunk_id_at c) mem' = h_chunk_id header /\ writer_id c mem' = h_writer_id header /\ load16 (packets_at c) mem' = h_packets header).
Proof.
  intros Hi Hs Hr Hp Hj Hh1 Hh2 Hh3 word free. assert (Ha := Initialize_ok _ _ _ _ Hi Hs). pose proof (reachable_inv a n w Ha Hr) as Hinv.
  pose proof (in_mem _ _ Hinv) as Hmem. pose proof (proj2 Hmem p Hp) as Hwf. change (word_wf word) in Hwf. pose proof Hwf as ([Hw0 Hw31] & Hl & _).
  assert (Hn : 0 <= GetNumChunksForLayout word <= 14) by (apply num_chunks_range; split; [apply layout_index_range|done]).
  unfold TryAcquireChunk, free, GetChunkState. fold word.
  assert (Hload : thread_step a (mkThread (AcqLoad p j kChunkBeingWritten header 0) hd) (w_mem w) =
    Ok (mkThread (if free then AcqCas p j kChunkBeingWritten header 0 word (set_chunk_state word j kChunkBeingWritten) else Idle) hd, w_mem w)).
  { unfold thread_step, acquire_step, clear_step, release_step, free, GetChunkState. cbn [t_pc held]. fold word. change (acquire_from kChunkBeingWritten) with kChunkFree. rewrite Z.leb_antisym.
    destruct (j <? _); [|done]. by destruct (_ =? kChunkFree). }
  erewrite run_step; [|exact Hload|done]. unfold free, GetChunkState. fold word.
  destruct (Z.ltb_spec j (GetNumChunksForLayout word)) as [Hlt|Hge]; cbn [andb]; [|rewrite run_idle; exists (w_mem w); done].
  destruct (Z.eqb_spec (GetChunkStateFromLayout word j) kChunkFree) as [Hst|Hst]; [|rewrite run_idle; exists (w_mem w); done].
  assert (Hj' : 0 <= j < GetNumChunksForLayout word) by lia.
  erewrite run_step; [|unfold thread_step, acquire_step, clear_step, release_step, cas32; cbn [t_pc held]; change (load32 (page_start a p) (w_mem w)) with word; rewrite Z.eqb_refl,
    (GetChunkUnchecked_spec a Ha p word j Hl Hj'); reflexivity|done]. rewrite run_stores.
  set (c := chunk_at a p word j). set (next := set_chunk_state word j kChunkBeingWritten).
  assert (Hnext : word_wf next) by (apply word_wf_set; done || lia). destruct (store_word a Ha _ p next Hmem Hp Hnext) as ([Hlen _] & Hsame & _).
  set (m1 := store32 (page_start a p) next (w_mem w)) in *. eexists. split; [done|]. split; [done|]. intros _. split; [by apply GetChunkUnchecked_spec|].
  destruct (chunk_at_page a Ha p word j Hl Hj') as [B E]. destruct (chunk_geometry a Ha word (partitioned word j Hl Hj')) as (_ & Hcs & _).
  fold c in B, E. change (GetChunkSizeForLayout a word) with (c_size c) in Hcs. unfold c_end in E. destruct (page_bounds a Ha p Hp) as (P1 & P2 & P3). unfold page_start in *.
  split; [|apply header_stored; lia || done].
  assert (L1 : zlen (store16 (begin_ c + 4) (h_writer_id header) m1) = zlen m1) by (apply zlen_zwrite; rewrite ?zlen_le_bytes; lia).
  assert (L2 : zlen (store32 (begin_ c) (h_chunk_id header) (store16 (begin_ c + 4) (h_writer_id header) m1)) = zlen m1) by (rewrite zlen_store32; lia).
  assert (Hword : GetPageLayout a p (store16 (packets_at c) (h_packets header) (store32 (chunk_id_at c) (h_chunk_id header) (store16 (writer_id_at c) (h_writer_id header) m1))) = next).
  { rewrite <- Hsame. unfold GetPageLayout, load32, page_start, packets_at, chunk_id_at, writer_id_at in *.
    unfold store16 at 1. rewrite zread_store by lia. unfold store32. rewrite zread_store by lia. unfold store16. by rewrite zread_store by lia. }
  intros k Hk. rewrite Hword. apply state_at_set; [lia|done|lia|split; lia].
Qed.

(** ** Concrete inputs: a buffer of one page of 4 KB, two threads *)

Definition demo_abi : Abi := mkAbi 4096 4096 1 [0; 4088; 2044; 1020; 584; 292; 0; 0].
Definition demo_start : World := start_world demo_abi 2.
Definition demo_partition : World := set_thread 0 (mkThread Idle []) (TryPartitionPage demo_abi 0 4 (w_mem demo_start)).2 demo_start.
Definition demo_acquire : World :=
  set_thread 1 (mkThread (TryAcquireChunk 0 2 kChunkBeingWritten (mkHeader 7 1 0)) []) (w_mem demo_partition) demo_partition.
Lemma demo_init : Initialize 0 4096 4096 = Ok demo_abi.
Proof. reflexivity. Qed.
Lemma demo_step1 : step demo_abi demo_start 0 demo_partition.
Proof. apply (step_partition demo_abi demo_start 0 (mkThread Idle []) 0 4); [reflexivity|reflexivity|cbn; lia|lia]. Qed.
Lemma demo_step2 : step demo_abi demo_partition 1 demo_acquire.
Proof.
  apply (step_acquire demo_abi demo_partition 1 (mkThread Idle []) 0 2 kChunkBeingWritten (mkHeader 7 1 0)); [reflexivity|reflexivity|cbn; lia|lia|by left].
Qed.
Lemma demo_reachable : reachable demo_abi (start_world demo_abi 2) demo_acquire.
Proof. eapply reachable_step; [|apply demo_step2]. eapply reachable_step; [|apply demo_step1]. apply reachable_start. Qed.
Lemma demo_word : GetPageLayout demo_abi 0 (w_mem demo_acquire) = 4 * 2 ^ 28.
Proof. reflexivity. Qed.

Lemma chunks_have_one_owner_witness : exists t r, w_threads demo_acquire !! 0%nat = Some t /\ thread_step demo_abi t (w_mem demo_acquire) = Ok r.
Proof.
  destruct (w_threads demo_acquire !! 0%nat) as [t|] eqn:E; [|discriminate E].
  destruct (proj1 (chunks_have_one_owner 0 4096 4096 demo_abi 2 demo_acquire demo_init ltac:(lia) demo_reachable) 0%nat t E) as [r Hr].
  by exists t, r.
Defined.
Lemma chunk_lifecycle_witness : layout_index (GetPageLayout demo_abi 0 (w_mem demo_start)) = 0 /\
  forall j, 0 <= j < 14 -> GetChunkState demo_abi 0 j (w_mem demo_partition) = GetChunkState demo_abi 0 j (w_mem demo_start) \/
    (GetChunkState demo_abi 0 j (w_mem demo_start), GetChunkState demo_abi 0 j (w_mem demo_partition)) ∈ lifecycle.
Proof.
  split; [reflexivity|]. apply (chunk_lifecycle 0 4096 4096 demo_abi 2 demo_start 0 demo_partition 0 demo_init ltac:(lia) (reachable_start _ _) demo_step1 ltac:(cbn; lia)).
Defined.
Lemma operations_are_wait_free_witness : (0 < 131)%nat /\ exists w', step demo_abi demo_acquire 1 w'.
Proof.
  apply (operations_are_wait_free 0 4096 4096 demo_abi 2 demo_acquire 1 0 demo_acquire demo_init ltac:(lia) demo_reachable).
  by eapply busy_start.
Defined.
Lemma chunk_geometry_correct_witness : exists c, GetChunkUnchecked demo_abi 0 (4 * 2 ^ 28) 6 = Ok c /\ GetPageAndChunkIndex demo_abi c = (0, 6).
Proof.
  destruct (chunk_geometry_correct 0 4096 4096 demo_abi 0 (4 * 2 ^ 28) 6 demo_init ltac:(lia) ltac:(cbn; lia) ltac:(vm_compute; discriminate)) as (c & H1 & H2 & _).
  - split; [lia|reflexivity].
  - by exists c.
Defined.
Lemma page_queries_correct_witness : is_page_complete demo_abi 0 (w_mem demo_acquire) = true <->
  0 < GetNumChunksForLayout (GetPageLayout demo_abi 0 (w_mem demo_acquire)) /\
  forall j, 0 <= j < GetNumChunksForLayout (GetPageLayout demo_abi 0 (w_mem demo_acquire)) -> GetChunkState demo_abi 0 j (w_mem demo_acquire) = kChunkComplete.
Proof. apply (page_queries_correct 0 4096 4096 demo_abi 2 demo_acquire 0 demo_init ltac:(lia) demo_reachable ltac:(cbn; lia)). Defined.
Lemma packets_field_correct_witness : GetPacketCountAndFlags (mkChunk 8 16 0) (zeros 32) = (0, 0) /\
  GetPacketCountAndFlags (mkChunk 8 16 0) (IncrementPacketCount (mkChunk 8 16 0) (zeros 32)).2 = (1, 0).
Proof.
  split; [reflexivity|].
  apply (packets_field_correct (mkChunk 8 16 0) (zeros 32) 3 4 (bytes_ok_zeros 32) ltac:(cbn; lia) ltac:(vm_compute; discriminate) ltac:(vm_compute; discriminate) ltac:(lia) ltac:(lia)).
Defined.
Lemma acquire_for_writing_correct_witness : exists mem',
  run_operation 5 demo_abi (mkThread (TryAcquireChunk 0 2 kChunkBeingWritten (mkHeader 7 1 0)) []) (w_mem demo_acquire) =
    Ok (mkThread Idle [(mkChunk 1176 584 2, kChunkBeingWritten)], mem').
Proof.
  destruct (acquire_for_writing_correct 0 4096 4096 demo_abi 2 demo_acquire 0 2 (mkHeader 7 1 0) [] demo_init ltac:(lia) demo_reachable
    ltac:(cbn; lia) ltac:(lia) ltac:(done) ltac:(done) ltac:(done)) as (mem' & E & _).
  exists mem'. rewrite E. reflexivity.
Defined.
