(* ===== verification/SharedMemoryArbiter.v ===== *)
(** * The producer's arbiter: commit requests, patches and direct patching
    (src/tracing/core/shared_memory_arbiter_impl.cc, src/tracing/core/patch_list.h)

    Trace writers return their chunks to the arbiter, which batches them, with the patches
    for the sizes of messages that were still open when their chunk was returned, into the
    commit requests sent to the service.  With direct patching a returned chunk that waits
    for patches stays writable in the shared memory until they are known or the batch is
    sent.  This is the arbiter once it is bound to its endpoint (ArbiterBinding has its other
    states, and [bound_arbiter_is_data_path] relates the two); every function is atomic (it
    holds the lock).  The theorem: batching, patching in the producer or in the
    service, and the times at which requests are sent do not change what the service ends
    up with. *)

From S2P Require Import Prelude ProtoUtils TraceBuffer.

(** ** Chunks as their owner sees them *)

(** A chunk of the shared memory with the fields of its header. *)
Record WChunk := mkWChunk { wc_writer_id : Z; wc_chunk_id : Z; wc_payload : list Z; wc_count : Z; wc_flags : Z }.
Definition set_payload (p : list Z) (c : WChunk) : WChunk := mkWChunk (wc_writer_id c) (wc_chunk_id c) p (wc_count c) (wc_flags c).
Definition set_count (n : Z) (c : WChunk) : WChunk := mkWChunk (wc_writer_id c) (wc_chunk_id c) (wc_payload c) n (wc_flags c).
Definition set_flags (f : Z) (c : WChunk) : WChunk := mkWChunk (wc_writer_id c) (wc_chunk_id c) (wc_payload c) (wc_count c) f.
Definition chunk_has_flag (f : Z) (c : WChunk) : bool := negb (wc_flags c .& f =? 0).
Definition wc_size (c : WChunk) : Z := zlen (wc_payload c) + 8.

(** ** PatchList *)

Record Patch := mkPatch { pt_chunk_id : Z; pt_offset : Z; pt_size_field : list Z }.
Definition Patch_new (chunk_id offset : Z) : Patch := mkPatch chunk_id offset [0; 0; 0; 0].
Definition is_patched (p : Patch) : bool := negb (default 0 (head (pt_size_field p)) =? 0).
Abbreviation PatchList := (list Patch).
Definition emplace_back (chunk_id offset : Z) (l : PatchList) : PatchList := l ++ [Patch_new chunk_id offset].

(** ** CommitDataRequest *)

(** An entry of chunks_to_move names a chunk of the shared memory: here it is the chunk,
    and whether its state is kChunkComplete (otherwise kChunkBeingWritten). *)
Record MovedChunk := mkMoved { mv_chunk : WChunk; mv_complete : bool; mv_target : Z }.
Record ChunkToPatch := mkToPatch { cp_writer_id : Z; cp_chunk_id : Z; cp_target : Z; cp_patches : list (Z * list Z); cp_has_more_patches : bool }.
Record Request := mkRequest { chunks_to_move : list MovedChunk; chunks_to_patch : list ChunkToPatch }.
Definition Request_empty : Request := mkRequest [] [].

(** [sent_] is what producer_endpoint_->CommitData received, [posted_] the delays of the
    tasks given to the task runner. *)
Record Arbiter := mkArbiter {
  shmem_size_ : Z;
  direct_patching_enabled_ : bool;
  batch_commits_duration_ms_ : Z;
  commit_data_req_ : option Request;
  bytes_pending_commit_ : Z;
  delayed_flush_scheduled_ : bool;
  posted_ : list Z;
  sent_ : list Request
}.
Definition set_req (req : option Request) (bytes : Z) (a : Arbiter) : Arbiter :=
  mkArbiter (shmem_size_ a) (direct_patching_enabled_ a) (batch_commits_duration_ms_ a) req bytes (delayed_flush_scheduled_ a) (posted_ a) (sent_ a).
Definition set_delayed (scheduled : bool) (posted : list Z) (a : Arbiter) : Arbiter :=
  mkArbiter (shmem_size_ a) (direct_patching_enabled_ a) (batch_commits_duration_ms_ a) (commit_data_req_ a) (bytes_pending_commit_ a) scheduled posted (sent_ a).
Definition set_sent (sent : list Request) (a : Arbiter) : Arbiter :=
  mkArbiter (shmem_size_ a) (direct_patching_enabled_ a) (batch_commits_duration_ms_ a) (commit_data_req_ a) (bytes_pending_commit_ a) (delayed_flush_scheduled_ a) (posted_ a) sent.
Definition Arbiter_new (shmem_size batch_ms : Z) (direct : bool) : Arbiter := mkArbiter shmem_size direct batch_ms None 0 false [] [].

(** ** TryDirectPatchLocked *)

(** The chunk in [moved] a patch may still be written to, the latest first. *)
Definition patchable (writer_id chunk_id : Z) (m : MovedChunk) : bool :=
  negb (mv_complete m) && (wc_writer_id (mv_chunk m) =? writer_id) && (wc_chunk_id (mv_chunk m) =? chunk_id).
Fixpoint find_patchable (writer_id chunk_id : Z) (moved_reversed : list MovedChunk) : option nat :=
  match moved_reversed with
  | [] => None
  | m :: rest => if patchable writer_id chunk_id m then Some (length rest) else find_patchable writer_id chunk_id rest
  end.
Definition patch_moved (patch : Patch) (chunk_needs_more_patching : bool) (m : MovedChunk) : MovedChunk :=
  let chunk := set_payload (zwrite (pt_offset patch) (pt_size_field patch) (wc_payload (mv_chunk m))) (mv_chunk m) in
  if chunk_needs_more_patching then mkMoved chunk (mv_complete m) (mv_target m)
  else mkMoved (set_flags (wc_flags chunk .& Z.lnot kChunkNeedsPatching) chunk) true (mv_target m).
Definition TryDirectPatchLocked (writer_id : Z) (patch : Patch) (chunk_needs_more_patching : bool) (moved : list MovedChunk) : outcome (option (list MovedChunk)) :=
  match find_patchable writer_id (pt_chunk_id patch) (rev moved) with
  | None => Ok None
  | Some i =>
      check! pt_offset patch <=? default 0 ((fun m => zlen (wc_payload (mv_chunk m))) <$> moved !! i) - kMessageLengthFieldSize in
      Ok (Some (alter (patch_moved patch chunk_needs_more_patching) i moved))
  end.

(** ** UpdateCommitDataRequest *)

Definition alter_last {A} (f : A -> A) (l : list A) : list A := alter f (length l - 1)%nat l.
Definition add_patch (p : Patch) (cp : ChunkToPatch) : ChunkToPatch :=
  mkToPatch (cp_writer_id cp) (cp_chunk_id cp) (cp_target cp) (cp_patches cp ++ [(pt_offset p, pt_size_field p)]) (cp_has_more_patches cp).
Definition set_more (cp : ChunkToPatch) : ChunkToPatch := mkToPatch (cp_writer_id cp) (cp_chunk_id cp) (cp_target cp) (cp_patches cp) true.
Definition front_is_for (chunk_id : Z) (l : PatchList) : bool := match l with [] => false | p :: _ => pt_chunk_id p =? chunk_id end.

(** A completed patch goes to the request; [last] is the chunk id of last_patch_req, the
    last entry of chunks_to_patch when it is not null. *)
Definition send_to_service (writer_id target : Z) (p : Patch) (last : option Z) (req : Request) : option Z * Request :=
  let '(last, ctp) := if bool_decide (last = Some (pt_chunk_id p)) then (last, chunks_to_patch req)
                      else (Some (pt_chunk_id p), chunks_to_patch req ++ [mkToPatch writer_id (pt_chunk_id p) target [] false]) in
  (last, mkRequest (chunks_to_move req) (alter_last (add_patch p) ctp)).
(** The loop over the completed patches. *)
Fixpoint drain_patches (direct : bool) (writer_id target : Z) (patch_list : PatchList) (last : option Z) (req : Request) :
    outcome (PatchList * option Z * Request) :=
  match patch_list with
  | [] => Ok ([], last, req)
  | curr_patch :: patch_list' =>
      if negb (is_patched curr_patch) then Ok (patch_list, last, req)
      else
        let! patched := if direct then TryDirectPatchLocked writer_id curr_patch (front_is_for (pt_chunk_id curr_patch) patch_list') (chunks_to_move req)
                        else Ok None in
        match patched with
        | Some moved => drain_patches direct writer_id target patch_list' last (mkRequest moved (chunks_to_patch req))
        | None => let '(last, req) := send_to_service writer_id target curr_patch last req in drain_patches direct writer_id target patch_list' last req
        end
  end.

(** The task to post is the one of a new batch, or an immediate one when patches were sent
    or half of the shared memory waits. *)
Definition UpdateCommitDataRequest (chunk : option WChunk) (writer_id target : Z) (patch_list : PatchList) (a : Arbiter) : outcome (PatchList * Arbiter) :=
  let batch := bool_decide (commit_data_req_ a = None) && negb (delayed_flush_scheduled_ a) in
  let req := default Request_empty (commit_data_req_ a) in
  let '(req, bytes) := match chunk with
                       | Some c =>
                           let stays := direct_patching_enabled_ a && chunk_has_flag kChunkNeedsPatching c in
                           (mkRequest (chunks_to_move req ++ [mkMoved c (negb stays) target]) (chunks_to_patch req), bytes_pending_commit_ a + wc_size c)
                       | None => (req, bytes_pending_commit_ a)
                       end in
  let! (patch_list, last, req) := drain_patches (direct_patching_enabled_ a) writer_id target patch_list None req in
  let more := match last with Some id => front_is_for id patch_list | None => false end in
  let req := if more then mkRequest (chunks_to_move req) (alter_last set_more (chunks_to_patch req)) else req in
  let now := bool_decide (last <> None) || (shmem_size_ a `div` 2 <=? bytes) in
  let delay := if now then [0] else if batch then [batch_commits_duration_ms_ a] else [] in
  Ok (patch_list, set_delayed (batch || delayed_flush_scheduled_ a) (posted_ a ++ delay) (set_req (Some req) bytes a)).

Definition ReturnCompletedChunk (chunk : WChunk) (target : Z) (patch_list : PatchList) (a : Arbiter) : outcome (PatchList * Arbiter) :=
  UpdateCommitDataRequest (Some chunk) (wc_writer_id chunk) target patch_list a.
Definition SendPatches (writer_id target : Z) (patch_list : PatchList) (a : Arbiter) : outcome (PatchList * Arbiter) :=
  UpdateCommitDataRequest None writer_id target patch_list a.

(** FlushPendingCommitDataRequests: on the thread of the task runner the request goes out,
    on another one the call is posted; and the task that UpdateCommitDataRequest posts. *)
Definition complete_moved (m : MovedChunk) : MovedChunk := mkMoved (mv_chunk m) true (mv_target m).
Definition FlushPendingCommitDataRequests (on_task_runner has_callback : bool) (a : Arbiter) : Arbiter :=
  if negb on_task_runner then set_delayed (delayed_flush_scheduled_ a) (posted_ a ++ [0]) a
  else match commit_data_req_ a with
       | Some req => set_req None 0 (set_sent (sent_ a ++ [mkRequest (map complete_moved (chunks_to_move req)) (chunks_to_patch req)]) a)
       | None => if has_callback then set_sent (sent_ a ++ [Request_empty]) a else a
       end.
Definition PostedFlush (a : Arbiter) : Arbiter := FlushPendingCommitDataRequests true false (set_delayed false (posted_ a) a).

(** ** What the service makes of the requests *)

Definition key_of (c : WChunk) : Z * Z := (wc_writer_id c, wc_chunk_id c).
(** Four bytes patched inside a payload (TryPatchChunkContents refuses the others). *)
Definition patch_payload (patch : Z * list Z) (c : WChunk) : WChunk :=
  if (0 <=? patch.1) && (patch.1 + zlen patch.2 <=? zlen (wc_payload c)) then set_payload (zwrite patch.1 patch.2 (wc_payload c)) c else c.
Definition apply_to_patch (c : WChunk) (cp : ChunkToPatch) : WChunk :=
  if bool_decide (key_of c = (cp_writer_id cp, cp_chunk_id cp)) then
    let c := fold_left (fun c p => patch_payload p c) (cp_patches cp) c in
    if cp_has_more_patches cp then c else set_flags (wc_flags c .& Z.lnot kChunkNeedsPatching) c
  else c.
Definition apply_request (chunks : list WChunk) (r : Request) : list WChunk :=
  map (fun c => fold_left apply_to_patch (chunks_to_patch r) c) (chunks ++ map mv_chunk (chunks_to_move r)).
Definition service (rs : list Request) : list WChunk := fold_left apply_request rs [].
Definition requests (a : Arbiter) : list Request := sent_ a ++ option_list (commit_data_req_ a).

(** The chunks of writer [w] with the patches that are known, wherever they are; the flag
    that announces patches left out. *)
Definition known_patches (w : Z) (pl : PatchList) : list (Z * Z * (Z * list Z)) :=
  map (fun p => (w, pt_chunk_id p, (pt_offset p, pt_size_field p))) (filter (fun p => is_patched p = true) pl).
Definition write_patch (c : WChunk) (q : Z * Z * (Z * list Z)) : WChunk := if bool_decide (key_of c = q.1) then patch_payload q.2 c else c.
Definition forget_needs_patching (c : WChunk) : WChunk := set_flags (wc_flags c .& Z.lnot kChunkNeedsPatching) c.
Definition view (w : Z) (pl : PatchList) (a : Arbiter) : list WChunk :=
  map (fun c => fold_left write_patch (known_patches w pl) (forget_needs_patching c)) (service (requests a)).

(** ** Lemmas *)

Definition flat (l : list ChunkToPatch) : list (Z * Z * (Z * list Z)) :=
  concat (map (fun cp => map (fun p => (cp_writer_id cp, cp_chunk_id cp, p)) (cp_patches cp)) l).

Lemma key_of_patch_payload p c : key_of (patch_payload p c) = key_of c.
Proof. unfold patch_payload. by destruct (_ && _). Qed.
Lemma key_of_fold_patch l : forall c, key_of (fold_left (fun c p => patch_payload p c) l c) = key_of c.
Proof. induction l as [|p l IH]; intros c; [done|]. cbn [fold_left]. by rewrite IH, key_of_patch_payload. Qed.
Lemma key_of_write_patch c q : key_of (write_patch c q) = key_of c.
Proof. unfold write_patch. case_bool_decide; [apply key_of_patch_payload|done]. Qed.
Lemma key_of_write_patches l : forall c, key_of (fold_left write_patch l c) = key_of c.
Proof. induction l as [|q l IH]; intros c; [done|]. cbn [fold_left]. by rewrite IH, key_of_write_patch. Qed.
Lemma key_of_apply c cp : key_of (apply_to_patch c cp) = key_of c.
Proof. unfold apply_to_patch. case_bool_decide; [|done]. destruct (cp_has_more_patches cp); apply key_of_fold_patch. Qed.
Lemma key_of_applies l : forall c, key_of (fold_left apply_to_patch l c) = key_of c.
Proof. induction l as [|cp l IH]; intros c; [done|]. cbn [fold_left]. by rewrite IH, key_of_apply. Qed.
Lemma forget_patch_payload p c : forget_needs_patching (patch_payload p c) = patch_payload p (forget_needs_patching c).
Proof. unfold patch_payload, forget_needs_patching. cbn [set_flags wc_payload]. by destruct (_ && _). Qed.
Lemma forget_forget c : forget_needs_patching (forget_needs_patching c) = forget_needs_patching c.
Proof. unfold forget_needs_patching. cbn [set_flags wc_flags]. by rewrite <- Z.land_assoc, Z.land_diag. Qed.
Lemma write_patch_other c q : key_of c <> q.1 -> write_patch c q = c.
Proof. intros H. unfold write_patch. by rewrite bool_decide_eq_false_2. Qed.
Lemma fold_write_key w id ps : forall c, key_of c = (w, id) ->
  fold_left write_patch (map (fun p => (w, id, p)) ps) c = fold_left (fun c p => patch_payload p c) ps c.
Proof.
  induction ps as [|p ps IH]; intros c Hk; [done|]. cbn [map fold_left]. unfold write_patch at 2. cbn [fst snd]. rewrite bool_decide_eq_true_2 by done.
  apply IH. by rewrite key_of_patch_payload.
Qed.
Lemma fold_write_other k l : forall c, key_of c = k -> Forall (fun q => q.1 <> k) l -> fold_left write_patch l c = c.
Proof.
  induction l as [|q l IH]; intros c Hk Hl; [done|]. apply Forall_cons in Hl as [Hq Hl]. cbn [fold_left]. unfold write_patch at 2.
  rewrite bool_decide_eq_false_2 by congruence. by apply IH.
Qed.
Lemma forget_fold_payload ps : forall c, forget_needs_patching (fold_left (fun c p => patch_payload p c) ps c) = fold_left (fun c p => patch_payload p c) ps (forget_needs_patching c).
Proof. induction ps as [|p ps IH]; intros c; [done|]. cbn [fold_left]. by rewrite IH, forget_patch_payload. Qed.
Lemma forget_write c q : forget_needs_patching (write_patch c q) = write_patch (forget_needs_patching c) q.
Proof. unfold write_patch. change (key_of (forget_needs_patching c)) with (key_of c). case_bool_decide; [apply forget_patch_payload|done]. Qed.

(** Up to the flag, a request applies its patches one by one. *)
Lemma apply_flat l : forall c, forget_needs_patching (fold_left apply_to_patch l c) = fold_left write_patch (flat l) (forget_needs_patching c).
Proof.
  induction l as [|cp l IH]; intros c; [done|]. cbn [fold_left]. rewrite IH. unfold flat. cbn [map concat]. rewrite fold_left_app. f_equal.
  unfold apply_to_patch. case_bool_decide as Hk.
  - rewrite fold_write_key by done. rewrite <- forget_fold_payload. by destruct (cp_has_more_patches cp); [|apply forget_forget].
  - symmetry. apply (fold_write_other (key_of c)); [done|]. rewrite Forall_map. apply Forall_true. intros p. cbn [fst]. congruence.
Qed.

(** ** The loop over the completed patches *)

(** [bs]: the chunks the service already has. *)
Definition all_chunks (bs : list WChunk) (req : Request) : list WChunk := bs ++ map mv_chunk (chunks_to_move req).
Definition request_view (w : Z) (pl : PatchList) (bs : list WChunk) (req : Request) : list WChunk :=
  map (fun c => fold_left write_patch (flat (chunks_to_patch req) ++ known_patches w pl) (forget_needs_patching c)) (all_chunks bs req).
Definition needs_patching (req : Request) (c : WChunk) : bool := chunk_has_flag kChunkNeedsPatching (fold_left apply_to_patch (chunks_to_patch req) c).
Definition patch_in (w : Z) (p : Patch) (c : WChunk) : Prop :=
  key_of c = (w, pt_chunk_id p) /\ 0 <= pt_offset p /\ zlen (pt_size_field p) = kMessageLengthFieldSize /\ pt_offset p + kMessageLengthFieldSize <= zlen (wc_payload c).
Record drain_ok (direct : bool) (w : Z) (pl : PatchList) (last : option Z) (bs : list WChunk) (req : Request) : Prop := {
  dr_keys : NoDup (map key_of (all_chunks bs req));
  dr_direct : forall cp m, cp ∈ chunks_to_patch req -> m ∈ chunks_to_move req -> mv_complete m = false -> (cp_writer_id cp, cp_chunk_id cp) <> key_of (mv_chunk m);
  dr_sent : forall cp, cp ∈ chunks_to_patch req -> (cp_writer_id cp, cp_chunk_id cp) ∈ map key_of (all_chunks bs req);
  dr_complete : direct = false -> Forall (fun m => mv_complete m = true) (chunks_to_move req);
  dr_patches : forall p, p ∈ pl -> is_patched p = true -> exists c, c ∈ all_chunks bs req /\ patch_in w p c;
  dr_flags : forall c, c ∈ all_chunks bs req -> wc_writer_id c = w -> needs_patching req c = true -> exists p, p ∈ pl /\ pt_chunk_id p = wc_chunk_id c;
  dr_last : forall id, last = Some id -> exists l cp, chunks_to_patch req = l ++ [cp] /\ cp_writer_id cp = w /\ cp_chunk_id cp = id /\ cp_has_more_patches cp = false
}.

Lemma alter_last_snoc {A} (f : A -> A) l x : alter_last f (l ++ [x]) = l ++ [f x].
Proof.
  unfold alter_last. rewrite length_app. cbn [length]. replace (length l + 1 - 1)%nat with (length l + 0)%nat by lia. by rewrite alter_app_r.
Qed.
Lemma flat_snoc l cp : flat (l ++ [cp]) = flat l ++ map (fun p => (cp_writer_id cp, cp_chunk_id cp, p)) (cp_patches cp).
Proof. unfold flat. rewrite map_app, concat_app. cbn [map concat]. by rewrite app_nil_r. Qed.
Lemma known_patches_cons w p pl : is_patched p = true -> known_patches w (p :: pl) = (w, pt_chunk_id p, (pt_offset p, pt_size_field p)) :: known_patches w pl.
Proof. intros H. unfold known_patches. rewrite filter_cons. by rewrite decide_True. Qed.

Lemma find_patchable_spec w id ms :
  match find_patchable w id (rev ms) with
  | Some i => exists m, ms !! i = Some m /\ patchable w id m = true
  | None => Forall (fun m => patchable w id m = false) ms
  end.
Proof.
  induction ms as [|m ms IH] using rev_ind; [by constructor|]. rewrite rev_app_distr. cbn [rev app find_patchable]. rewrite length_rev.
  destruct (patchable w id m) eqn:E.
  - exists m. split; [|done]. rewrite lookup_app_r by lia. by rewrite Nat.sub_diag.
  - destruct (find_patchable w id (rev ms)) as [i|].
    + destruct IH as (m0 & H1 & H2). exists m0. split; [|done]. rewrite lookup_app_l by (by eapply lookup_lt_Some). done.
    + apply Forall_app. split; [done|]. by constructor.
Qed.
Lemma patchable_true w id m : patchable w id m = true <-> mv_complete m = false /\ key_of (mv_chunk m) = (w, id).
Proof.
  unfold patchable, key_of. rewrite !andb_true_iff, negb_true_iff, !Z.eqb_eq. split; [intros [[-> ->] ->]; done|intros [-> [= -> ->]]; done].
Qed.

Lemma needs_patching_snoc ms l cp c : needs_patching (mkRequest ms (l ++ [cp])) c =
  if bool_decide (key_of c = (cp_writer_id cp, cp_chunk_id cp)) && negb (cp_has_more_patches cp) then false else needs_patching (mkRequest ms l) c.
Proof.
  unfold needs_patching. cbn [chunks_to_patch]. rewrite fold_left_app. cbn [fold_left]. set (c0 := fold_left apply_to_patch l c).
  assert (Hk : key_of c0 = key_of c) by apply key_of_applies. unfold apply_to_patch. rewrite Hk. case_bool_decide; cbn [andb]; [|done].
  assert (Hf : forall ps c1, wc_flags (fold_left (fun c p => patch_payload p c) ps c1) = wc_flags c1).
  { induction ps as [|p ps IH]; intros c1; [done|]. cbn [fold_left]. rewrite IH. unfold patch_payload. by destruct (_ && _). }
  unfold chunk_has_flag. destruct (cp_has_more_patches cp); cbn [negb set_flags wc_flags]; rewrite Hf; [done|].
  rewrite <- Z.land_assoc, (Z.land_comm (Z.lnot _)), Z.land_lnot_diag, Z.land_0_r. done.
Qed.

Lemma send_spec direct w target p pl last bs req : drain_ok direct w (p :: pl) last bs req -> is_patched p = true ->
  Forall (fun m => patchable w (pt_chunk_id p) m = false) (chunks_to_move req) ->
  let '(last', req') := send_to_service w target p last req in
  drain_ok direct w pl last' bs req' /\ request_view w pl bs req' = request_view w (p :: pl) bs req /\ last' = Some (pt_chunk_id p).
Proof.
  intros [Hk Hd Hs Hc Hp Hf Hl] Hpat Hno. unfold send_to_service. set (id := pt_chunk_id p) in *.
  set (ctp := if bool_decide (last = Some id) then chunks_to_patch req else chunks_to_patch req ++ [mkToPatch w id target [] false]).
  assert (Hctp : exists l cp, ctp = l ++ [cp] /\ cp_writer_id cp = w /\ cp_chunk_id cp = id /\ cp_has_more_patches cp = false /\
    (forall cp', cp' ∈ l -> cp' ∈ chunks_to_patch req) /\ flat ctp = flat (chunks_to_patch req) /\
    forall c, key_of c <> (w, id) -> needs_patching (mkRequest (chunks_to_move req) l) c = needs_patching req c).
  { unfold ctp. case_bool_decide as Hlast.
    - destruct (Hl id Hlast) as (l & cp & E & E1 & E2 & E3). exists l, cp. split; [done|]. split; [done|]. split; [done|]. split; [done|].
      split; [intros cp' H; rewrite E; apply elem_of_app; by left|]. split; [done|]. intros c Hne. destruct req as [ms cs]. cbn [chunks_to_patch] in E. subst cs.
      rewrite needs_patching_snoc, E1, E2, bool_decide_eq_false_2 by done. done.
    - exists (chunks_to_patch req), (mkToPatch w id target [] false). split; [done|]. split; [done|]. split; [done|]. split; [done|]. split; [done|].
      split; [by rewrite flat_snoc, app_nil_r|]. by destruct req. }
  destruct Hctp as (l & cp & E & E1 & E2 & E3 & Hin & Hflat & Hneeds).
  replace (if bool_decide (last = Some id) then (last, chunks_to_patch req) else (Some id, chunks_to_patch req ++ [mkToPatch w id target [] false])) with (Some id, ctp)
    by (unfold ctp; case_bool_decide; by subst).
  rewrite E, alter_last_snoc. split; [|split; [|done]].
  - split; cbn [chunks_to_move chunks_to_patch]; try done.
    + intros cp' m H Hm Hinc. apply elem_of_app in H as [H|H%list_elem_of_singleton]; [by apply (Hd cp' m); auto|]. subst cp'. cbn [add_patch cp_writer_id cp_chunk_id].
      rewrite E1, E2. intros Hk'. rewrite Forall_forall in Hno. specialize (Hno m Hm). assert (Ht : patchable w id m = true) by (by apply patchable_true). congruence.
    + intros cp' H. apply elem_of_app in H as [H|H%list_elem_of_singleton]; [by apply Hs, Hin|]. subst cp'. cbn [add_patch cp_writer_id cp_chunk_id]. rewrite E1, E2.
      destruct (Hp p) as (c & Hc' & [Hkey _]); [apply elem_of_cons; by left|done|]. unfold id. rewrite <- Hkey. by apply list_elem_of_fmap_2.
    + intros p' H' Hp'. apply Hp; [apply elem_of_cons; by right|done].
    + intros c Hc' Hw. rewrite needs_patching_snoc. cbn [add_patch cp_writer_id cp_chunk_id cp_has_more_patches]. rewrite E1, E2, E3.
      case_bool_decide as Hkey; cbn [andb negb]; [done|]. rewrite Hneeds by done. intros Hn. destruct (Hf c Hc' Hw Hn) as (p' & H' & Hid).
      exists p'. split; [|done]. apply elem_of_cons in H' as [->|H']; [|done]. exfalso. apply Hkey. unfold key_of. by rewrite Hw, <- Hid.
    + intros id' [= <-]. by exists l, (add_patch p cp).
  - unfold request_view. cbn [chunks_to_patch]. apply map_ext. intros c. rewrite known_patches_cons by done. f_equal. rewrite <- Hflat, E, !flat_snoc.
    cbn [add_patch cp_writer_id cp_chunk_id cp_patches]. rewrite map_app. cbn [map]. rewrite E1, E2, <- !app_assoc. done.
Qed.

Lemma in_key_unique bs req c c' : NoDup (map key_of (all_chunks bs req)) -> c ∈ all_chunks bs req -> c' ∈ all_chunks bs req -> key_of c = key_of c' -> c = c'.
Proof.
  intros Hn Hc Hc' He. apply list_elem_of_lookup in Hc as [i Hi]. apply list_elem_of_lookup in Hc' as [j Hj].
  assert (i = j); [|congruence]. eapply (NoDup_lookup _ i j (key_of c) Hn); rewrite list_lookup_fmap; [by rewrite Hi|rewrite Hj; cbn; congruence].
Qed.

(** The chunk a direct patch changes. *)
Definition patched_chunk (p : Patch) (more : bool) (c : WChunk) : WChunk :=
  let c := set_payload (zwrite (pt_offset p) (pt_size_field p) (wc_payload c)) c in
  if more then c else set_flags (wc_flags c .& Z.lnot kChunkNeedsPatching) c.
Lemma mv_chunk_patch_moved p more m : mv_chunk (patch_moved p more m) = patched_chunk p more (mv_chunk m).
Proof. unfold patch_moved, patched_chunk. by destruct more. Qed.
Lemma key_of_patched p more c : key_of (patched_chunk p more c) = key_of c.
Proof. unfold patched_chunk. by destruct more. Qed.
Lemma all_chunks_alter bs p more i ms ctps :
  all_chunks bs (mkRequest (alter (patch_moved p more) i ms) ctps) = alter (patched_chunk p more) (length bs + i)%nat (bs ++ map mv_chunk ms).
Proof.
  unfold all_chunks. cbn [chunks_to_move]. rewrite alter_app_r. f_equal. revert i. induction ms as [|m ms IH]; intros i; [done|].
  destruct i as [|i]; cbn [alter list_alter map]; [by rewrite mv_chunk_patch_moved|]. f_equal. apply IH.
Qed.
Lemma flags_cleared ctps c : chunk_has_flag kChunkNeedsPatching c = false -> chunk_has_flag kChunkNeedsPatching (fold_left apply_to_patch ctps c) = false.
Proof.
  revert c. induction ctps as [|cp l IH]; intros c H; [done|]. cbn [fold_left]. apply IH. unfold apply_to_patch. case_bool_decide; [|done].
  assert (Hf : forall ps c1, wc_flags (fold_left (fun c p => patch_payload p c) ps c1) = wc_flags c1).
  { induction ps as [|p ps IHp]; intros c1; [done|]. cbn [fold_left]. rewrite IHp. unfold patch_payload. by destruct (_ && _). }
  unfold chunk_has_flag in *. destruct (cp_has_more_patches cp); cbn [set_flags wc_flags]; rewrite Hf; [done|].
  rewrite <- Z.land_assoc, (Z.land_comm (Z.lnot _)), Z.land_lnot_diag, Z.land_0_r. done.
Qed.
Lemma patched_chunk_payload p more c : 0 <= pt_offset p -> pt_offset p + zlen (pt_size_field p) <= zlen (wc_payload c) ->
  forget_needs_patching (patched_chunk p more c) = patch_payload (pt_offset p, pt_size_field p) (forget_needs_patching c).
Proof.
  intros H0 H1. unfold patch_payload. cbn [fst snd]. change (wc_payload (forget_needs_patching c)) with (wc_payload c).
  replace ((0 <=? pt_offset p) && (pt_offset p + zlen (pt_size_field p) <=? zlen (wc_payload c))) with true by lia.
  unfold patched_chunk, forget_needs_patching. destruct more; cbn [set_payload set_flags wc_flags wc_payload wc_writer_id wc_chunk_id wc_count]; [done|].
  by rewrite <- Z.land_assoc, Z.land_diag.
Qed.
Lemma patched_chunk_length p more c : 0 <= pt_offset p -> pt_offset p + zlen (pt_size_field p) <= zlen (wc_payload c) ->
  zlen (wc_payload (patched_chunk p more c)) = zlen (wc_payload c).
Proof. intros. unfold patched_chunk. destruct more; cbn [set_payload set_flags wc_payload]; by apply zlen_zwrite. Qed.

Section Direct.
Context (w : Z) (p : Patch) (pl : PatchList) (last : option Z) (bs : list WChunk) (req : Request) (i : nat) (m : MovedChunk).
Context (Hok : drain_ok true w (p :: pl) last bs req) (Hpat : is_patched p = true).
Context (Hi : chunks_to_move req !! i = Some m) (Hm : patchable w (pt_chunk_id p) m = true).
Let more := front_is_for (pt_chunk_id p) pl.
Let req' := mkRequest (alter (patch_moved p more) i (chunks_to_move req)) (chunks_to_patch req).
Let k := (length bs + i)%nat.

Lemma direct_lookup : all_chunks bs req !! k = Some (mv_chunk m).
Proof. unfold all_chunks, k. rewrite lookup_app_r by lia. replace (length bs + i - length bs)%nat with i by lia. by rewrite list_lookup_fmap, Hi. Qed.
Lemma direct_key : key_of (mv_chunk m) = (w, pt_chunk_id p).
Proof. by apply patchable_true in Hm as [_ Hk]. Qed.
Lemma direct_patch_in : patch_in w p (mv_chunk m).
Proof.
  destruct (dr_patches _ _ _ _ _ _ Hok p) as (c & Hc & Hin); [apply elem_of_cons; by left|done|].
  replace (mv_chunk m) with c; [done|]. eapply in_key_unique; [apply (dr_keys _ _ _ _ _ _ Hok)|exact Hc|eapply list_elem_of_lookup_2, direct_lookup|].
  rewrite direct_key. apply Hin.
Qed.
Lemma direct_other j c : j <> k -> all_chunks bs req !! j = Some c -> key_of c <> (w, pt_chunk_id p).
Proof.
  intros Hne Hj He. apply Hne. eapply (NoDup_lookup _ j k (w, pt_chunk_id p) (dr_keys _ _ _ _ _ _ Hok)); rewrite list_lookup_fmap.
  - rewrite Hj. cbn. congruence.
  - rewrite direct_lookup. cbn. by rewrite direct_key.
Qed.
Lemma direct_chunks j c' : all_chunks bs req' !! j = Some c' ->
  (j <> k /\ all_chunks bs req !! j = Some c') \/ (j = k /\ c' = patched_chunk p more (mv_chunk m)).
Proof.
  unfold req'. rewrite all_chunks_alter. change (bs ++ map mv_chunk (chunks_to_move req)) with (all_chunks bs req). fold k. destruct (decide (j = k)) as [->|Hne].
  - rewrite list_lookup_alter_eq, direct_lookup. intros [= <-]. by right.
  - rewrite list_lookup_alter_ne by done. by left.
Qed.
Lemma direct_keys : map key_of (all_chunks bs req') = map key_of (all_chunks bs req).
Proof.
  unfold req'. rewrite all_chunks_alter. apply list_eq. intros j. rewrite !list_lookup_fmap. destruct (decide (j = (length bs + i)%nat)) as [->|Hne].
  - rewrite list_lookup_alter_eq. unfold all_chunks. destruct ((bs ++ _) !! _) as [c|]; [|done]. apply (f_equal Some), key_of_patched.
  - by rewrite list_lookup_alter_ne.
Qed.
Lemma direct_ok : drain_ok true w pl last bs req'.
Proof.
  destruct direct_patch_in as (_ & Ho & Hz & Hle). rewrite <- Hz in Hle. split; try done.
  - rewrite direct_keys. apply (dr_keys _ _ _ _ _ _ Hok).
  - intros cp m' Hcp Hm' Hinc. cbn [req' chunks_to_move chunks_to_patch] in *. apply list_elem_of_lookup in Hm' as [j Hj]. destruct (decide (j = i)) as [->|Hne].
    + rewrite list_lookup_alter_eq, Hi in Hj. injection Hj as <-. rewrite mv_chunk_patch_moved, key_of_patched. apply (dr_direct _ _ _ _ _ _ Hok cp m Hcp); [by eapply list_elem_of_lookup_2|].
      by apply patchable_true in Hm as [Hm _].
    + rewrite list_lookup_alter_ne in Hj by done. apply (dr_direct _ _ _ _ _ _ Hok cp m' Hcp); [by eapply list_elem_of_lookup_2|done].
  - rewrite direct_keys. apply (dr_sent _ _ _ _ _ _ Hok).
  - intros p' Hp' Hpat'. destruct (dr_patches _ _ _ _ _ _ Hok p') as (c & Hc & Hin); [apply elem_of_cons; by right|done|]. apply list_elem_of_lookup in Hc as [j Hj].
    destruct (decide (j = k)) as [->|Hne].
    + rewrite direct_lookup in Hj. injection Hj as <-. exists (patched_chunk p more (mv_chunk m)). split.
      * eapply (list_elem_of_lookup_2 _ k). unfold req'. rewrite all_chunks_alter. fold k. rewrite list_lookup_alter_eq.
        change (bs ++ map mv_chunk (chunks_to_move req)) with (all_chunks bs req). by rewrite direct_lookup.
      * unfold patch_in in *. by rewrite key_of_patched, patched_chunk_length.
    + exists c. split; [|done]. eapply (list_elem_of_lookup_2 _ j). unfold req'. rewrite all_chunks_alter. fold k. by rewrite list_lookup_alter_ne.
  - intros c' Hc' Hw Hn. apply list_elem_of_lookup in Hc' as [j Hj]. destruct (direct_chunks j c' Hj) as [[Hne Hj']|[-> ->]].
    + destruct (dr_flags _ _ _ _ _ _ Hok c') as (p' & Hp' & Hid); [by eapply list_elem_of_lookup_2|done|done|]. exists p'. split; [|done].
      apply elem_of_cons in Hp' as [->|Hp']; [|done]. exfalso. apply (direct_other j c' Hne Hj'). unfold key_of. by rewrite Hw, Hid.
    + assert (Hcid : wc_chunk_id (patched_chunk p more (mv_chunk m)) = pt_chunk_id p).
      { pose proof direct_key as Hk. rewrite <- (key_of_patched p more) in Hk. by injection Hk. }
      rewrite Hcid. destruct more eqn:Em; unfold more in Em.
      * unfold front_is_for in Em. destruct pl as [|p' pl']; [done|]. exists p'. split; [apply elem_of_cons; by left|lia].
      * unfold needs_patching in Hn. rewrite flags_cleared in Hn; [done|]. unfold patched_chunk, chunk_has_flag. cbn [set_flags set_payload wc_flags].
        by rewrite <- Z.land_assoc, (Z.land_comm (Z.lnot _)), Z.land_lnot_diag, Z.land_0_r.
  - apply (dr_last _ _ _ _ _ _ Hok).
Qed.
Lemma direct_flat : Forall (fun q => q.1 <> (w, pt_chunk_id p)) (flat (chunks_to_patch req)).
Proof.
  unfold flat. rewrite Forall_concat, Forall_map. apply Forall_forall. intros cp Hcp. rewrite Forall_map. apply Forall_true. intros q. cbn [fst].
  rewrite <- direct_key. apply (dr_direct _ _ _ _ _ _ Hok cp m Hcp); [by eapply list_elem_of_lookup_2|]. by apply patchable_true in Hm as [Hm _].
Qed.
Lemma direct_view : request_view w pl bs req' = request_view w (p :: pl) bs req.
Proof.
  destruct direct_patch_in as (_ & Ho & Hz & Hle). rewrite <- Hz in Hle. pose proof direct_flat as Hflat.
  unfold request_view. cbn [req' chunks_to_patch]. rewrite known_patches_cons by done. apply list_eq. intros j. rewrite !list_lookup_fmap.
  unfold req'. rewrite all_chunks_alter. change (bs ++ map mv_chunk (chunks_to_move req)) with (all_chunks bs req). fold k. destruct (decide (j = k)) as [->|Hne].
  - rewrite list_lookup_alter_eq, direct_lookup. cbn. f_equal. rewrite !fold_left_app. cbn [fold_left]. rewrite patched_chunk_payload by done.
    assert (Hk : key_of (forget_needs_patching (mv_chunk m)) = (w, pt_chunk_id p)) by apply direct_key.
    assert (Hk' : key_of (patch_payload (pt_offset p, pt_size_field p) (forget_needs_patching (mv_chunk m))) = (w, pt_chunk_id p)) by (rewrite key_of_patch_payload; exact Hk).
    rewrite (fold_write_other _ _ _ Hk Hflat), (fold_write_other _ _ _ Hk' Hflat). unfold write_patch. cbn [fst snd]. by rewrite bool_decide_eq_true_2.
  - rewrite list_lookup_alter_ne by done. destruct (all_chunks bs req !! j) as [c|] eqn:Hj; [|done]. cbn. f_equal. rewrite !fold_left_app. cbn [fold_left]. f_equal.
    symmetry. apply write_patch_other. rewrite key_of_write_patches. exact (direct_other j c Hne Hj).
Qed.
End Direct.

(** ** The whole loop *)

Lemma TryDirectPatch_spec w p pl last bs req : drain_ok true w (p :: pl) last bs req -> is_patched p = true ->
  match TryDirectPatchLocked w p (front_is_for (pt_chunk_id p) pl) (chunks_to_move req) with
  | Crash => False
  | Ok None => Forall (fun m => patchable w (pt_chunk_id p) m = false) (chunks_to_move req)
  | Ok (Some moved) => let req' := mkRequest moved (chunks_to_patch req) in
      drain_ok true w pl last bs req' /\ request_view w pl bs req' = request_view w (p :: pl) bs req
  end.
Proof.
  intros Hok Hpat. unfold TryDirectPatchLocked. pose proof (find_patchable_spec w (pt_chunk_id p) (chunks_to_move req)) as Hf.
  destruct (find_patchable _ _ _) as [i|]; [|done]. destruct Hf as (m & Hi & Hm). rewrite Hi. cbn [fmap option_fmap option_map default].
  destruct (direct_patch_in w p pl last bs req i m Hok Hpat Hi Hm) as (_ & _ & _ & Hle).
  cbn. replace (pt_offset p <=? zlen (wc_payload (mv_chunk m)) - kMessageLengthFieldSize) with true by lia. cbn [perfetto_check obind].
  split; [by eapply direct_ok|by eapply direct_view].
Qed.
Lemma patchable_complete w id ms : Forall (fun m => mv_complete m = true) ms -> Forall (fun m => patchable w id m = false) ms.
Proof. intros H. eapply Forall_impl; [exact H|]. intros m Hm. unfold patchable. by rewrite Hm. Qed.
(** What is left of the list begins with a patch that is not known yet. *)
Definition drained (pl : PatchList) : Prop := match pl with [] => True | p :: _ => is_patched p = false end.
Lemma drain_spec direct w target bs pl : forall last req, drain_ok direct w pl last bs req ->
  exists pl' last' req', drain_patches direct w target pl last req = Ok (pl', last', req') /\ drain_ok direct w pl' last' bs req' /\
    request_view w pl' bs req' = request_view w pl bs req /\ drained pl' /\ exists sent, pl = sent ++ pl' /\ Forall (fun p => is_patched p = true) sent.
Proof.
  induction pl as [|p pl IH]; intros last req Hok; [exists [], last, req; split; [done|]; split; [done|]; split; [done|]; split; [done|]; by exists []|].
  cbn [drain_patches]. destruct (is_patched p) eqn:Hpat; cbn [negb];
    [|exists (p :: pl), last, req; split; [done|]; split; [done|]; split; [done|]; split; [done|]; by exists []].
  assert (Hsend : Forall (fun m => patchable w (pt_chunk_id p) m = false) (chunks_to_move req) -> exists pl' last' req',
    (let '(last, req) := send_to_service w target p last req in drain_patches direct w target pl last req) = Ok (pl', last', req') /\ drain_ok direct w pl' last' bs req' /\
    request_view w pl' bs req' = request_view w (p :: pl) bs req /\ drained pl' /\ exists sent, p :: pl = sent ++ pl' /\ Forall (fun p => is_patched p = true) sent).
  { intros Hno. pose proof (send_spec direct w target p pl last bs req Hok Hpat Hno) as H. destruct (send_to_service _ _ _ _ _) as [last1 req1]. destruct H as (H1 & H2 & _).
    destruct (IH last1 req1 H1) as (pl' & last' & req' & E & H3 & H4 & H5 & sent & -> & H6). exists pl', last', req'. split; [done|]. split; [done|]. split; [congruence|].
    split; [done|]. exists (p :: sent). split; [done|]. by constructor. }
  destruct direct; [|cbn [obind]; by apply Hsend, patchable_complete, (dr_complete _ _ _ _ _ _ Hok)].
  pose proof (TryDirectPatch_spec w p pl last bs req Hok Hpat) as H. destruct (TryDirectPatchLocked _ _ _ _) as [[moved|]|]; [| |done]; cbn [obind]; [|by apply Hsend].
  destruct H as [H1 H2]. destruct (IH last _ H1) as (pl' & last' & req' & E & H3 & H4 & H5 & sent & -> & H6). exists pl', last', req'. split; [done|]. split; [done|].
  split; [congruence|]. split; [done|]. exists (p :: sent). split; [done|]. by constructor.
Qed.

(** ** The arbiter *)

Definition pending (a : Arbiter) : Request := default Request_empty (commit_data_req_ a).
Definition arbiter_ok (w : Z) (pl : PatchList) (a : Arbiter) : Prop := drain_ok (direct_patching_enabled_ a) w pl None (service (sent_ a)) (pending a).

Lemma service_snoc rs r : service (rs ++ [r]) = apply_request (service rs) r.
Proof. unfold service. by rewrite fold_left_app. Qed.
Lemma apply_request_eq bs req : apply_request bs req = map (fun c => fold_left apply_to_patch (chunks_to_patch req) c) (all_chunks bs req).
Proof. done. Qed.
Lemma service_requests a : service (requests a) = apply_request (service (sent_ a)) (pending a).
Proof.
  unfold requests, pending. destruct (commit_data_req_ a) as [req|]; cbn [option_list default]; [apply service_snoc|].
  rewrite app_nil_r. unfold apply_request. cbn. rewrite app_nil_r. symmetry. apply map_id.
Qed.
Lemma view_request w pl a : view w pl a = request_view w pl (service (sent_ a)) (pending a).
Proof.
  unfold view, request_view. rewrite service_requests, apply_request_eq, map_map. apply map_ext. intros c. by rewrite apply_flat, fold_left_app.
Qed.
Lemma keys_apply_request bs req : map key_of (apply_request bs req) = map key_of (all_chunks bs req).
Proof. rewrite apply_request_eq, map_map. apply map_ext. intros c. apply key_of_applies. Qed.

Lemma last_none direct w pl last bs req : drain_ok direct w pl last bs req -> drain_ok direct w pl None bs req.
Proof. by intros []. Qed.
Lemma set_more_ok direct w pl id bs req : drain_ok direct w pl (Some id) bs req -> front_is_for id pl = true ->
  let req' := mkRequest (chunks_to_move req) (alter_last set_more (chunks_to_patch req)) in
  drain_ok direct w pl None bs req' /\ request_view w pl bs req' = request_view w pl bs req.
Proof.
  intros [Hk Hd Hs Hc Hp Hf Hl] Hfront. destruct (Hl id eq_refl) as (l & cp & E & E1 & E2 & E3). destruct req as [ms ctps]. cbn [chunks_to_move chunks_to_patch] in *. subst ctps.
  rewrite alter_last_snoc. cbv zeta. split.
  - split; try done; cbn [chunks_to_move chunks_to_patch] in *.
    + intros cp' m H. apply elem_of_app in H as [H|H%list_elem_of_singleton]; [apply Hd, elem_of_app; by left|]. subst cp'. apply (Hd cp), elem_of_app. right. by apply list_elem_of_singleton.
    + intros cp' H. apply elem_of_app in H as [H|H%list_elem_of_singleton]; [apply Hs, elem_of_app; by left|]. subst cp'. apply (Hs cp), elem_of_app. right. by apply list_elem_of_singleton.
    + intros c Hc' Hw Hn. rewrite needs_patching_snoc in Hn. cbn [set_more cp_writer_id cp_chunk_id cp_has_more_patches] in Hn. rewrite E1, E2, andb_false_r in Hn.
      destruct (decide (key_of c = (w, id))) as [Hkey|Hne].
      * destruct pl as [|p pl']; [done|]. exists p. split; [apply elem_of_cons; by left|]. cbn in Hfront. injection Hkey as _ ->. lia.
      * apply (Hf c Hc' Hw). rewrite needs_patching_snoc, E1, E2, bool_decide_eq_false_2 by done. done.
  - unfold request_view. cbn [chunks_to_patch]. by rewrite !flat_snoc.
Qed.

(** A new chunk of the writer joins the request. *)
Lemma move_chunk_ok direct w pl bs req c complete target : drain_ok direct w pl None bs req -> wc_writer_id c = w ->
  key_of c ∉ map key_of (all_chunks bs req) -> (direct = false -> complete = true) ->
  (chunk_has_flag kChunkNeedsPatching c = true -> exists p, p ∈ pl /\ pt_chunk_id p = wc_chunk_id c) ->
  let req' := mkRequest (chunks_to_move req ++ [mkMoved c complete target]) (chunks_to_patch req) in
  drain_ok direct w pl None bs req' /\ request_view w pl bs req' = request_view w pl bs req ++ [forget_needs_patching c].
Proof.
  intros [Hk Hd Hs Hc Hp Hf Hl] Hw Hfresh Hcomp Hflag req'.
  assert (Hall : all_chunks bs req' = all_chunks bs req ++ [c]) by (unfold all_chunks, req'; cbn [chunks_to_move]; by rewrite map_app, app_assoc).
  assert (Hctp : Forall (fun q => q.1 <> key_of c) (flat (chunks_to_patch req) ++ known_patches w pl)).
  { apply Forall_app. split.
    - unfold flat. rewrite Forall_concat, Forall_map. apply Forall_forall. intros cp Hcp. rewrite Forall_map. apply Forall_true. intros q. cbn [fst]. intros He.
      apply Hfresh. rewrite <- He. by apply Hs.
    - unfold known_patches. rewrite Forall_map. apply Forall_forall. intros p [Hpat Hpin]%list_elem_of_filter. cbn [fst]. intros He.
      destruct (Hp p Hpin Hpat) as (c' & Hc' & [Hkey _]). apply Hfresh. rewrite <- He, <- Hkey. by apply list_elem_of_fmap_2. }
  split.
  - split; rewrite ?Hall; try done; cbn [req' chunks_to_move chunks_to_patch].
    + rewrite map_app. apply NoDup_app. split; [done|]. split; [|apply NoDup_singleton]. intros x Hx Hx2%list_elem_of_singleton. by subst x.
    + intros cp m Hcp Hm Hinc. apply elem_of_app in Hm as [Hm|Hm%list_elem_of_singleton]; [by apply Hd|]. subst m. intros He. apply Hfresh. cbn [mv_chunk] in He. rewrite <- He. by apply Hs.
    + intros cp Hcp. rewrite map_app. apply elem_of_app. left. by apply Hs.
    + intros Hdir. apply Forall_app. split; [by apply Hc|]. constructor; [by apply Hcomp|constructor].
    + intros p Hpin Hpat. destruct (Hp p Hpin Hpat) as (c' & Hc' & Hin). exists c'. split; [|done]. apply elem_of_app. by left.
    + intros c' Hc' Hw' Hn. apply elem_of_app in Hc' as [Hc'|Hc'%list_elem_of_singleton]; [by apply Hf|]. subst c'. apply Hflag.
      destruct (chunk_has_flag _ c) eqn:E; [done|]. unfold needs_patching in Hn. by rewrite flags_cleared in Hn.
  - unfold request_view. rewrite Hall, map_app. cbn [map req' chunks_to_patch]. f_equal. f_equal. by apply (fold_write_other (key_of c)).
Qed.

Lemma length_patch_payload p c : zlen (wc_payload (patch_payload p c)) = zlen (wc_payload c).
Proof. unfold patch_payload. destruct (_ && _) eqn:E; [|done]. cbn [set_payload wc_payload]. bool_facts. by apply zlen_zwrite. Qed.
Lemma length_applies l : forall c, zlen (wc_payload (fold_left apply_to_patch l c)) = zlen (wc_payload c).
Proof.
  induction l as [|cp l IH]; intros c; [done|]. cbn [fold_left]. rewrite IH. unfold apply_to_patch. case_bool_decide; [|done].
  assert (Hf : forall ps c1, zlen (wc_payload (fold_left (fun c p => patch_payload p c) ps c1)) = zlen (wc_payload c1)).
  { induction ps as [|p ps IHp]; intros c1; [done|]. cbn [fold_left]. by rewrite IHp, length_patch_payload. }
  destruct (cp_has_more_patches cp); cbn [set_flags wc_payload]; apply Hf.
Qed.

(** What a writer may return: a new chunk, whose flag announces the patches it waits for. *)
Definition returnable (w : Z) (pl : PatchList) (a : Arbiter) (chunk : option WChunk) : Prop :=
  match chunk with
  | None => True
  | Some c => wc_writer_id c = w /\ (key_of c ∉ map key_of (service (requests a))) /\
      (chunk_has_flag kChunkNeedsPatching c = true -> exists p, p ∈ pl /\ pt_chunk_id p = wc_chunk_id c)
  end.
Definition returned (chunk : option WChunk) : list WChunk := match chunk with Some c => [forget_needs_patching c] | None => [] end.

Lemma Update_spec w target chunk pl a : arbiter_ok w pl a -> returnable w pl a chunk ->
  exists pl' a', UpdateCommitDataRequest chunk w target pl a = Ok (pl', a') /\ arbiter_ok w pl' a' /\ view w pl' a' = (view w pl a ++ returned chunk) /\
    drained pl' /\ (exists sent, pl = sent ++ pl' /\ Forall (fun p => is_patched p = true) sent) /\
    sent_ a' = sent_ a /\ direct_patching_enabled_ a' = direct_patching_enabled_ a.
Proof.
  intros Hok Hret. unfold UpdateCommitDataRequest. fold (pending a).
  set (rb := match chunk with Some c => _ | None => _ end).
  assert (H1 : drain_ok (direct_patching_enabled_ a) w pl None (service (sent_ a)) rb.1 /\ request_view w pl (service (sent_ a)) rb.1 = (view w pl a ++ returned chunk)).
  { rewrite view_request. unfold rb. destruct chunk as [c|]; cbn [returned fst]; [|by rewrite app_nil_r].
    destruct Hret as (Hw & Hfresh & Hflag). rewrite service_requests, keys_apply_request in Hfresh. apply move_chunk_ok; try done. by intros ->. }
  destruct rb as [req bytes]. cbn [fst] in H1. destruct H1 as [H1 H2].
  destruct (drain_spec _ w target _ pl None req H1) as (pl' & last & req' & -> & H3 & H4 & H5 & H6). cbn [obind].
  set (more := match last with Some id => front_is_for id pl' | None => false end).
  assert (H7 : let r := if more then mkRequest (chunks_to_move req') (alter_last set_more (chunks_to_patch req')) else req' in
    drain_ok (direct_patching_enabled_ a) w pl' None (service (sent_ a)) r /\ request_view w pl' (service (sent_ a)) r = request_view w pl' (service (sent_ a)) req').
  { unfold more. destruct last as [id|]; [|split; [by eapply last_none|done]]. destruct (front_is_for id pl') eqn:E; [by apply (set_more_ok _ _ _ id)|]. split; [by eapply last_none|done]. }
  destruct H7 as [H7 H8]. exists pl'. eexists. split; [done|]. split; [exact H7|]. split; [|done].
  rewrite view_request. etransitivity; [exact H8|]. by rewrite H4.
Qed.

Lemma Flush_spec w pl on_thread callback a : arbiter_ok w pl a -> let a' := FlushPendingCommitDataRequests on_thread callback a in
  arbiter_ok w pl a' /\ view w pl a' = view w pl a /\ direct_patching_enabled_ a' = direct_patching_enabled_ a /\
  (on_thread = true -> commit_data_req_ a' = None /\ service (sent_ a') = service (requests a)).
Proof.
  intros Hok. unfold FlushPendingCommitDataRequests. destruct on_thread; cbn [negb]; [|split; [exact Hok|done]].
  assert (Hview : forall a', service (requests a') = service (requests a) -> view w pl a' = view w pl a) by (intros a' E; unfold view; by rewrite E).
  assert (Hempty : forall bs r, map key_of bs = map key_of (all_chunks (service (sent_ a)) (pending a)) -> chunks_to_move r = [] -> chunks_to_patch r = [] ->
    bs = service (requests a) -> drain_ok (direct_patching_enabled_ a) w pl None bs r).
  { intros bs r Hbs Hr1 Hr2 Hs. assert (Hall : all_chunks bs r = bs) by (unfold all_chunks; rewrite Hr1; apply app_nil_r). split; rewrite ?Hall, ?Hr1, ?Hr2; try done.
    - rewrite Hbs. apply (dr_keys _ _ _ _ _ _ Hok).
    - intros cp m H. by apply not_elem_of_nil in H.
    - intros cp H. by apply not_elem_of_nil in H.
    - intros p Hp Hpat. destruct (dr_patches _ _ _ _ _ _ Hok p Hp Hpat) as (c & Hc & Hk & Hin). rewrite Hs, service_requests, apply_request_eq.
      exists (fold_left apply_to_patch (chunks_to_patch (pending a)) c). split; [by apply list_elem_of_fmap_2|]. unfold patch_in. by rewrite key_of_applies, length_applies.
    - intros c Hc Hw Hn. rewrite Hs, service_requests, apply_request_eq in Hc. apply list_elem_of_fmap in Hc as (c0 & -> & Hc0). unfold needs_patching in Hn. rewrite Hr2 in Hn.
      assert (Hk := key_of_applies (chunks_to_patch (pending a)) c0). injection Hk as Hk1 Hk2. rewrite Hk2.
      apply (dr_flags _ _ _ _ _ _ Hok); [done|congruence|exact Hn]. }
  destruct (commit_data_req_ a) as [req|] eqn:Er.
  - assert (Hs : service (sent_ a ++ [mkRequest (map complete_moved (chunks_to_move req)) (chunks_to_patch req)]) = service (requests a)).
    { rewrite service_snoc, service_requests. unfold pending. rewrite Er. cbn [default]. unfold apply_request. cbn [chunks_to_move chunks_to_patch]. by rewrite map_map. }
    split; [|split; [|split; [done|]]].
    + apply Hempty; try done; cbn [set_req set_sent sent_]. rewrite Hs, service_requests. apply keys_apply_request.
    + apply Hview. unfold requests at 1. cbn [set_req set_sent sent_ commit_data_req_ option_list]. by rewrite app_nil_r.
    + intros _. split; [done|]. exact Hs.
  - assert (Hs : service (sent_ a) = service (requests a)) by (unfold requests; rewrite Er; cbn [option_list]; by rewrite app_nil_r).
    assert (Hs' : service (sent_ a ++ [Request_empty]) = service (sent_ a)).
    { rewrite service_snoc. unfold apply_request. cbn. rewrite app_nil_r. apply map_id. }
    destruct callback; [|split; [exact Hok|]; split; [done|]; split; [done|]; by rewrite Er]. split; [|split; [|split; [done|]]].
    + assert (Hp : pending (set_sent (sent_ a ++ [Request_empty]) a) = Request_empty) by (unfold pending; cbn [set_sent commit_data_req_]; by rewrite Er).
      apply Hempty; rewrite ?Hp; try done; cbn [set_sent sent_]; rewrite Hs'; [|exact Hs]. rewrite <- keys_apply_request, <- service_requests. by f_equal.
    + apply Hview. unfold requests at 1. cbn [set_sent sent_ commit_data_req_]. rewrite Er. cbn [option_list]. by rewrite app_nil_r, Hs', Hs.
    + intros _. cbn [set_sent sent_]. by rewrite Hs', Hs.
Qed.

(** Once no patch is left the service has the chunks of the view, none of them flagged. *)
Lemma forget_unflagged c : chunk_has_flag kChunkNeedsPatching c = false -> forget_needs_patching c = c.
Proof.
  unfold chunk_has_flag, forget_needs_patching. intros H. destruct c as [i k p n f]. unfold set_flags. cbn [wc_writer_id wc_chunk_id wc_payload wc_count wc_flags] in *. f_equal.
  rewrite <- Z.ldiff_land. rewrite <- (Z.lor_ldiff_and f kChunkNeedsPatching) at 2. apply negb_false_iff, Z.eqb_eq in H. by rewrite H, Z.lor_0_r.
Qed.
Lemma nothing_left w a i c : arbiter_ok w [] a -> service (requests a) !! i = Some c -> wc_writer_id c = w ->
  view w [] a !! i = Some c /\ chunk_has_flag kChunkNeedsPatching c = false.
Proof.
  intros Hok Hi Hw. assert (Hf : chunk_has_flag kChunkNeedsPatching c = false).
  { destruct (chunk_has_flag _ c) eqn:E; [|done]. rewrite service_requests, apply_request_eq, list_lookup_fmap in Hi. destruct (all_chunks _ _ !! i) as [c0|] eqn:E0; [|done].
    injection Hi as <-. pose proof (key_of_applies (chunks_to_patch (pending a)) c0) as [= Hk1 Hk2].
    destruct (dr_flags _ _ _ _ _ _ Hok c0) as (p & Hp & _); [by eapply list_elem_of_lookup_2|congruence|exact E|by apply not_elem_of_nil in Hp]. }
  split; [|done]. unfold view. rewrite list_lookup_fmap, Hi. cbn [fmap option_fmap option_map known_patches filter list_filter map fold_left]. by rewrite forget_unflagged.
Qed.

(** ** The property *)

(** C36. Committing is transparent: when a writer returns a chunk or sends its patches
    ([UpdateCommitDataRequest], with or without direct patching) and the requests are then
    flushed or left to batch, no check fails, exactly the completed patches at the front of
    the list are consumed, and what the service will have is what it would have had before,
    with the new chunk at the end and every completed patch applied.  A flush on the task
    runner leaves no request pending; if no patch is left then, the service has these very
    chunks, none of them flagged as needing patches. *)
Theorem commits_are_transparent w target chunk on_thread callback pl a : arbiter_ok w pl a -> returnable w pl a chunk ->
  exists pl' a', UpdateCommitDataRequest chunk w target pl a = Ok (pl', a') /\
    drained pl' /\ (exists sent, pl = sent ++ pl' /\ Forall (fun p => is_patched p = true) sent) /\ arbiter_ok w pl' a' /\ sent_ a' = sent_ a /\
    let a'' := FlushPendingCommitDataRequests on_thread callback a' in
    arbiter_ok w pl' a'' /\ view w pl' a'' = (view w pl a ++ returned chunk) /\
    (on_thread = true -> commit_data_req_ a'' = None /\ (pl' = [] -> forall i c, service (sent_ a'') !! i = Some c -> wc_writer_id c = w ->
       (view w pl a ++ returned chunk) !! i = Some c /\ chunk_has_flag kChunkNeedsPatching c = false)).
Proof.
  intros Hok Hret. destruct (Update_spec w target chunk pl a Hok Hret) as (pl' & a' & E & H1 & H2 & H3 & H4 & H5 & _).
  destruct (Flush_spec w pl' on_thread callback a' H1) as (F1 & F2 & _ & F3). exists pl', a'.
  do 5 (split; [done|]). cbv zeta. split; [done|]. split; [by rewrite F2|].
  intros Ht. destruct (F3 Ht) as [F4 F5]. split; [done|]. intros -> i c Hi Hw. rewrite <- H2, <- F2.
  apply nothing_left; [done| |done]. unfold requests. rewrite F4. by rewrite app_nil_r.
Qed.
Lemma arbiter_ok_new w pl shmem ms direct : Forall (fun p => is_patched p = false) pl -> arbiter_ok w pl (Arbiter_new shmem ms direct).
Proof.
  intros Hpl. rewrite Forall_forall in Hpl. split; try done.
  - apply NoDup_nil_2.
  - intros cp m H. by apply not_elem_of_nil in H.
  - intros cp H. by apply not_elem_of_nil in H.
  - intros p Hp Hpat. by rewrite Hpl in Hpat.
  - intros c H. by apply not_elem_of_nil in H.
Qed.
Definition demo_chunk : WChunk := mkWChunk 7 0 (zeros 16) 1 (kLastPacketContinuesOnNextChunk .| kChunkNeedsPatching).
Lemma commits_are_transparent_witness :
  exists pl' a', UpdateCommitDataRequest (Some demo_chunk) 7 1 [Patch_new 0 5] (Arbiter_new 4096 10 true) = Ok (pl', a') /\
    view 7 pl' (FlushPendingCommitDataRequests true false a') = [mkWChunk 7 0 (zeros 16) 1 kLastPacketContinuesOnNextChunk] /\
    commit_data_req_ (FlushPendingCommitDataRequests true false a') = None.
Proof.
  assert (Hok : arbiter_ok 7 [Patch_new 0 5] (Arbiter_new 4096 10 true)) by (apply arbiter_ok_new; by constructor).
  assert (Hret : returnable 7 [Patch_new 0 5] (Arbiter_new 4096 10 true) (Some demo_chunk)).
  { split; [done|]. split; [apply not_elem_of_nil|]. intros _. exists (Patch_new 0 5). split; [by apply list_elem_of_singleton|done]. }
  destruct (commits_are_transparent 7 1 (Some demo_chunk) true false _ _ Hok Hret) as (pl' & a' & E & _ & _ & _ & _ & _ & F2 & F3).
  exists pl', a'. split; [exact E|]. split; [exact F2|]. by apply F3.
Defined.
