(* ===== verification/ArbiterPatches.v ===== *)
(** * Chunks stay flagged while patches for them are left
    (src/tracing/core/shared_memory_arbiter_impl.cc, patch_list.h)

    What the invariant of SharedMemoryArbiter does not say: a chunk of a writer that the
    service has, or is about to get, is flagged with kChunkNeedsPatching as long as the writer
    has a patch for it.  The service does not read flagged chunks, so all it reads is final. *)

From S2P Require Import Prelude ProtoUtils TraceBuffer SharedMemoryArbiter.

(** ** The loop over the completed patches *)

(** Patches are made, and so sent, in the order of the chunks. *)
Definition sorted_patches (pl : PatchList) : Prop := StronglySorted Z.le (map pt_chunk_id pl).
(** The flag of a chunk before the patches of [last], if they are for it. *)
Definition waits (last : option Z) (req : Request) (c : WChunk) : bool :=
  needs_patching (mkRequest [] (if bool_decide (last = Some (wc_chunk_id c)) then removelast (chunks_to_patch req) else chunks_to_patch req)) c.
Record open_ok (w : Z) (pl : PatchList) (last : option Z) (bs : list WChunk) (req : Request) : Prop := {
  oo_sorted : sorted_patches pl;
  oo_last : forall id p, last = Some id -> p ∈ pl -> id <= pt_chunk_id p;
  oo_open : forall p c, p ∈ pl -> c ∈ all_chunks bs req -> key_of c = (w, pt_chunk_id p) -> waits last req c = true
}.

Lemma sorted_cons p pl : sorted_patches (p :: pl) -> sorted_patches pl /\ forall q, q ∈ pl -> pt_chunk_id p <= pt_chunk_id q.
Proof.
  unfold sorted_patches. cbn [map]. intros [H1 H2]%StronglySorted_inv. split; [done|]. intros q Hq. rewrite Forall_forall in H2. apply H2. by apply list_elem_of_fmap_2.
Qed.
Lemma needs_patching_moves ms ms' l c : needs_patching (mkRequest ms l) c = needs_patching (mkRequest ms' l) c.
Proof. done. Qed.
(** The flag depends on the key and the flags of a chunk only. *)
Lemma flags_fold_payload ps : forall c, wc_flags (fold_left (fun c p => patch_payload p c) ps c) = wc_flags c.
Proof. induction ps as [|p ps IH]; intros c; [done|]. cbn [fold_left]. rewrite IH. unfold patch_payload. by destruct (_ && _). Qed.
Lemma flags_fold_apply l : forall c c', key_of c = key_of c' -> wc_flags c = wc_flags c' -> wc_flags (fold_left apply_to_patch l c) = wc_flags (fold_left apply_to_patch l c').
Proof.
  induction l as [|cp l IH]; intros c c' Hk Hf; [done|]. cbn [fold_left]. apply IH; [by rewrite !key_of_apply|].
  unfold apply_to_patch. rewrite Hk. case_bool_decide; [|done]. destruct (cp_has_more_patches cp); cbn [set_flags wc_flags]; rewrite !flags_fold_payload; by rewrite Hf.
Qed.
Lemma waits_same last req c c' : key_of c = key_of c' -> wc_flags c = wc_flags c' -> waits last req c = waits last req c'.
Proof.
  intros Hk Hf. unfold waits, needs_patching, chunk_has_flag. cbn [chunks_to_patch]. pose proof Hk as [= _ ->]. by rewrite (flags_fold_apply _ c c').
Qed.

Lemma send_open direct w target p pl last bs req : drain_ok direct w (p :: pl) last bs req -> open_ok w (p :: pl) last bs req ->
  let '(last', req') := send_to_service w target p last req in open_ok w pl last' bs req'.
Proof.
  intros Hok [Hs Hl Ho]. apply sorted_cons in Hs as [Hs Hle]. unfold send_to_service. set (id := pt_chunk_id p) in *.
  assert (Hgo : forall l cp, cp_writer_id cp = w -> cp_chunk_id cp = id ->
    (forall c, wc_chunk_id c = id -> key_of c = (w, id) -> c ∈ all_chunks bs req -> needs_patching (mkRequest [] l) c = true) ->
    (forall p' c, p' ∈ pl -> c ∈ all_chunks bs req -> key_of c = (w, pt_chunk_id p') -> id < pt_chunk_id p' -> needs_patching (mkRequest [] l) c = true) ->
    open_ok w pl (Some id) bs (mkRequest (chunks_to_move req) (l ++ [add_patch p cp]))).
  { intros l cp E1 E2 Hsame Hlater. split; [done|by intros ? q [= <-]; apply Hle|]. intros p' c Hp' Hc Hk. pose proof Hk as [= _ Hid]. unfold waits. cbn [chunks_to_patch].
    case_bool_decide as Hb; [injection Hb as Hb; rewrite removelast_last; apply Hsame; [done| |done]; rewrite Hk; congruence|].
    rewrite needs_patching_snoc. cbn [add_patch cp_writer_id cp_chunk_id]. rewrite E1, E2, bool_decide_eq_false_2 by (intros He; rewrite Hk in He; congruence). cbn [andb].
    apply (Hlater p' c); [done|done|done|]. specialize (Hle p' Hp'). assert (id <> pt_chunk_id p') by congruence. lia. }
  assert (Hp : p ∈ p :: pl) by (by left). case_bool_decide as Hlast.
  - destruct (dr_last _ _ _ _ _ _ Hok id Hlast) as (l & cp & E & E1 & E2 & _). rewrite E, alter_last_snoc, Hlast. apply Hgo; [done|done| |].
    + intros c Hid Hk Hc. specialize (Ho p c Hp Hc Hk). unfold waits in Ho. rewrite Hlast, Hid, bool_decide_eq_true_2, E, removelast_last in Ho by done. exact Ho.
    + intros p' c Hp' Hc Hk Hlt. pose proof Hk as [= _ Hid]. specialize (Ho p' c ltac:(by right) Hc Hk). unfold waits in Ho.
      rewrite Hlast, Hid, bool_decide_eq_false_2, E, needs_patching_snoc, E1, E2, bool_decide_eq_false_2 in Ho; [exact Ho|rewrite Hk|]; intros [=]; lia.
  - rewrite alter_last_snoc. apply Hgo; [done|done| |].
    + intros c Hid Hk Hc. specialize (Ho p c Hp Hc Hk). unfold waits in Ho. rewrite Hid, bool_decide_eq_false_2 in Ho by done. exact Ho.
    + intros p' c Hp' Hc Hk Hlt. pose proof Hk as [= _ Hid]. specialize (Ho p' c ltac:(by right) Hc Hk). unfold waits in Ho. rewrite Hid, bool_decide_eq_false_2 in Ho; [exact Ho|].
      intros Hl'. specialize (Hl _ p Hl' Hp). unfold id in *. lia.
Qed.

Lemma direct_open w p pl last bs req i m :
  chunks_to_move req !! i = Some m -> patchable w (pt_chunk_id p) m = true -> open_ok w (p :: pl) last bs req ->
  open_ok w pl last bs (mkRequest (alter (patch_moved p (front_is_for (pt_chunk_id p) pl)) i (chunks_to_move req)) (chunks_to_patch req)).
Proof.
  intros Hi Hm [Hs Hl Ho]. apply sorted_cons in Hs as [Hs Hle]. set (more := front_is_for _ _).
  split; [done|intros id q E Hq; apply (Hl id q E); by right|]. intros p' c' Hp' Hc' Hk. apply list_elem_of_lookup in Hc' as [j Hj].
  destruct (direct_chunks p pl bs req i m Hi j c' Hj) as [[Hne Hj']|[-> ->]].
  - apply (Ho p' c'); [by right|by eapply list_elem_of_lookup_2|done].
  - rewrite key_of_patched, (direct_key w p m Hm) in Hk. injection Hk as Hid.
    assert (Hmore : more = true). { unfold more. destruct pl as [|q pl']; [by apply not_elem_of_nil in Hp'|]. cbn. apply Z.eqb_eq. pose proof (Hle q ltac:(by left)).
      apply elem_of_cons in Hp' as [->|Hp']; [done|]. apply sorted_cons in Hs as [_ Hs]. specialize (Hs p' Hp'). lia. }
    fold more. rewrite Hmore. change (waits last (mkRequest _ _) ?c) with (waits last req c). rewrite <- (waits_same _ _ (mv_chunk m)); [|by rewrite key_of_patched|done].
    apply (Ho p); [by left|by eapply list_elem_of_lookup_2, direct_lookup|by apply (direct_key w p m)].
Qed.

Lemma drain_open direct w target bs pl : forall last req pl' last' req', drain_ok direct w pl last bs req -> open_ok w pl last bs req ->
  drain_patches direct w target pl last req = Ok (pl', last', req') -> open_ok w pl' last' bs req'.
Proof.
  induction pl as [|p pl IH]; intros last req pl' last' req' Hok Ho; cbn [drain_patches]; [by intros [= <- <- <-]|].
  destruct (is_patched p) eqn:Hpat; cbn [negb]; [|by intros [= <- <- <-]].
  assert (Hsend : Forall (fun m => patchable w (pt_chunk_id p) m = false) (chunks_to_move req) ->
    (let '(last, req) := send_to_service w target p last req in drain_patches direct w target pl last req) = Ok (pl', last', req') -> open_ok w pl' last' bs req').
  { intros Hno. pose proof (send_spec direct w target p pl last bs req Hok Hpat Hno) as H. pose proof (send_open direct w target p pl last bs req Hok Ho) as H'.
    destruct (send_to_service _ _ _ _ _) as [last1 req1]. destruct H as (H & _). by apply IH. }
  destruct direct; [|cbn [obind]; by apply Hsend, patchable_complete, (dr_complete _ _ _ _ _ _ Hok)].
  pose proof (TryDirectPatch_spec w p pl last bs req Hok Hpat) as H. revert H. unfold TryDirectPatchLocked.
  pose proof (find_patchable_spec w (pt_chunk_id p) (chunks_to_move req)) as Hf. destruct (find_patchable _ _ _) as [i|]; [|intros H; cbn [obind]; by apply Hsend].
  destruct Hf as (m & Hi & Hm). destruct (pt_offset p <=? _); cbn [perfetto_check obind]; [|done]. intros [H _] E.
  eapply (IH _ _ _ _ _ H); [|exact E]. by apply (direct_open w p pl last bs req i m).
Qed.

(** ** The arbiter *)

Definition flags_ok (w : Z) (pl : PatchList) (a : Arbiter) : Prop :=
  sorted_patches pl /\ forall p c, p ∈ pl -> c ∈ service (requests a) -> key_of c = (w, pt_chunk_id p) -> chunk_has_flag kChunkNeedsPatching c = true.
Definition committed_ok (w : Z) (pl : PatchList) (a : Arbiter) : Prop := arbiter_ok w pl a /\ flags_ok w pl a.

Lemma flags_open w pl a : flags_ok w pl a <-> open_ok w pl None (service (sent_ a)) (pending a).
Proof.
  unfold flags_ok. rewrite service_requests, apply_request_eq. split.
  - intros [H1 H2]. split; [done|done|]. intros p c Hp Hc Hk. apply (H2 p (fold_left apply_to_patch (chunks_to_patch (pending a)) c)); [done|by apply list_elem_of_fmap_2|by rewrite key_of_applies].
  - intros [H1 _ H2]. split; [done|]. intros p c Hp (c0 & -> & Hc0)%list_elem_of_fmap Hk. rewrite key_of_applies in Hk. exact (H2 p c0 Hp Hc0 Hk).
Qed.
Lemma open_last w pl id bs req : open_ok w pl (Some id) bs req -> front_is_for id pl = false -> open_ok w pl None bs req.
Proof.
  intros [Hs Hl Ho] Hf. split; [done|done|]. intros p c Hp Hc Hk. specialize (Ho p c Hp Hc Hk). unfold waits in Ho. rewrite bool_decide_eq_false_2 in Ho; [exact Ho|].
  intros [= ->]. injection Hk as _ Hid. destruct pl as [|q pl']; [by apply not_elem_of_nil in Hp|]. cbn in Hf. pose proof (Hl _ q eq_refl ltac:(by left)).
  apply elem_of_cons in Hp as [->|Hp]; [lia|]. apply sorted_cons in Hs as [_ Hs]. specialize (Hs p Hp). lia.
Qed.
Lemma open_more direct w pl id bs req : drain_ok direct w pl (Some id) bs req -> open_ok w pl (Some id) bs req ->
  open_ok w pl None bs (mkRequest (chunks_to_move req) (alter_last set_more (chunks_to_patch req))).
Proof.
  intros Hok [Hs Hl Ho]. destruct (dr_last _ _ _ _ _ _ Hok id eq_refl) as (l & cp & E & E1 & E2 & _). rewrite E, alter_last_snoc. split; [done|done|].
  intros p c Hp Hc Hk. specialize (Ho p c Hp Hc Hk). unfold waits in *. rewrite bool_decide_eq_false_2 by done. cbn [chunks_to_patch].
  rewrite needs_patching_snoc. cbn [set_more cp_has_more_patches]. rewrite andb_false_r. rewrite E in Ho. case_bool_decide as Hb; [by rewrite removelast_last in Ho|].
  rewrite needs_patching_snoc, E1, E2, bool_decide_eq_false_2 in Ho; [exact Ho|]. intros He. apply Hb. injection He as _ ->. done.
Qed.

(** A new chunk, which is flagged if there are patches for it. *)
Definition announced (pl : PatchList) (chunk : option WChunk) : Prop :=
  forall c p, chunk = Some c -> p ∈ pl -> pt_chunk_id p = wc_chunk_id c -> chunk_has_flag kChunkNeedsPatching c = true.
Lemma move_chunk_open direct w pl bs req c complete target : drain_ok direct w pl None bs req -> open_ok w pl None bs req ->
  key_of c ∉ map key_of (all_chunks bs req) -> announced pl (Some c) ->
  open_ok w pl None bs (mkRequest (chunks_to_move req ++ [mkMoved c complete target]) (chunks_to_patch req)).
Proof.
  intros Hok [Hs Hl Ho] Hfresh Ha. split; [done|done|]. intros p c' Hp Hc Hk. unfold all_chunks in Hc. cbn [chunks_to_move] in Hc. rewrite map_app, app_assoc in Hc.
  apply elem_of_app in Hc as [Hc| ->%list_elem_of_singleton]; [by apply (Ho p)|]. cbn [mv_chunk] in *. unfold waits, needs_patching. rewrite bool_decide_eq_false_2 by done. cbn [chunks_to_patch].
  assert (Hnone : forall l, (forall cp, cp ∈ l -> cp ∈ chunks_to_patch req) -> fold_left apply_to_patch l c = c).
  { induction l as [|cp l IH]; intros Hin; [done|]. cbn [fold_left]. unfold apply_to_patch at 2. rewrite bool_decide_eq_false_2; [apply IH; intros; apply Hin; by right|].
    intros He. apply Hfresh. rewrite He. apply (dr_sent _ _ _ _ _ _ Hok), Hin. by left. }
  rewrite Hnone by done. apply (Ha c p); [done|done|]. injection Hk as _ ->. done.
Qed.

Lemma Update_flags w target chunk pl a pl' a' : committed_ok w pl a -> returnable w pl a chunk -> announced pl chunk ->
  UpdateCommitDataRequest chunk w target pl a = Ok (pl', a') -> flags_ok w pl' a'.
Proof.
  intros [Hok Hf%flags_open] Hret Hann. unfold UpdateCommitDataRequest. fold (pending a). set (rb := match chunk with Some c => _ | None => _ end).
  assert (H1 : drain_ok (direct_patching_enabled_ a) w pl None (service (sent_ a)) rb.1 /\ open_ok w pl None (service (sent_ a)) rb.1).
  { unfold rb. destruct chunk as [c|]; [|done]. destruct Hret as (Hw & Hfresh & Hflag). rewrite service_requests, keys_apply_request in Hfresh. cbn [fst]. split.
    - apply move_chunk_ok; try done. by intros ->.
    - by eapply move_chunk_open. }
  destruct rb as [req bytes]. cbn [fst] in H1. destruct H1 as [H1 H2].
  destruct (drain_spec _ w target _ pl None req H1) as (pl1 & last & req1 & E & H3 & _). pose proof (drain_open _ _ _ _ _ _ _ _ _ _ H1 H2 E) as H4. rewrite E. cbn [obind].
  intros [= <- <-]. apply flags_open. destruct last as [id|]; [|exact H4]. destruct (front_is_for id pl1) eqn:Ef; [by eapply open_more|by eapply open_last].
Qed.
Lemma Update_committed w target chunk pl a : committed_ok w pl a -> returnable w pl a chunk -> announced pl chunk ->
  exists pl' a', UpdateCommitDataRequest chunk w target pl a = Ok (pl', a') /\ committed_ok w pl' a' /\ view w pl' a' = (view w pl a ++ returned chunk) /\
    drained pl' /\ (exists sent, pl = sent ++ pl' /\ Forall (fun p => is_patched p = true) sent) /\
    sent_ a' = sent_ a /\ direct_patching_enabled_ a' = direct_patching_enabled_ a.
Proof.
  intros Hc Hret Hann. destruct (Update_spec w target chunk pl a (proj1 Hc) Hret) as (pl' & a' & E & H1 & H). exists pl', a'. split; [done|]. split; [|done]. split; [done|]. by eapply Update_flags.
Qed.
Lemma Flush_committed w pl on_thread callback a : committed_ok w pl a -> let a' := FlushPendingCommitDataRequests on_thread callback a in
  committed_ok w pl a' /\ view w pl a' = view w pl a /\ direct_patching_enabled_ a' = direct_patching_enabled_ a /\
  (on_thread = true -> commit_data_req_ a' = None /\ service (sent_ a') = service (requests a)).
Proof.
  intros [Hok Hf]. destruct (Flush_spec w pl on_thread callback a Hok) as (H1 & H2 & H3 & H4). split; [|done]. split; [done|]. split; [apply Hf|].
  destruct on_thread; [|apply Hf]. destruct (H4 eq_refl) as [H5 H6]. unfold requests. rewrite H5, app_nil_r, H6. apply Hf.
Qed.
(** Patches that join the list, for a chunk that has not been returned. *)
Lemma flags_app w pl new a : flags_ok w pl a -> sorted_patches (pl ++ new) ->
  (forall p, p ∈ new -> (w, pt_chunk_id p) ∉ map key_of (service (requests a))) -> flags_ok w (pl ++ new) a.
Proof.
  intros [_ Hf] Hs Hnew. split; [done|]. intros p c [Hp|Hp]%elem_of_app Hc Hk; [by apply (Hf p)|]. destruct (Hnew p Hp). rewrite <- Hk. by apply list_elem_of_fmap_2.
Qed.
Lemma sorted_app pl new id : sorted_patches pl -> (forall p, p ∈ pl -> pt_chunk_id p <= id) -> (forall p, p ∈ new -> pt_chunk_id p = id) -> sorted_patches (pl ++ new).
Proof.
  intros Hs Hle Hid. unfold sorted_patches in *. rewrite map_app.
  assert (Hnew : StronglySorted Z.le (map pt_chunk_id new) /\ Forall (fun x => x = id) (map pt_chunk_id new)).
  { clear Hs Hle. induction new as [|p new IH]; [split; constructor|]. destruct IH as [IH1 IH2]; [intros q Hq; apply Hid; by right|]. pose proof (Hid p ltac:(by left)) as Hp. cbn [map].
    split; constructor; [done| |done|done]. eapply Forall_impl; [exact IH2|]. cbn. intros x ->. lia. }
  destruct Hnew as [Hn1 Hn2]. induction pl as [|p pl IH]; [done|]. cbn [map app] in *. apply StronglySorted_inv in Hs as [Hs1 Hs2].
  constructor; [apply IH; [done|intros q Hq; apply Hle; by right]|]. apply Forall_app. split; [done|]. eapply Forall_impl; [exact Hn2|]. cbn. intros x ->. apply Hle. by left.
Qed.
(** Filling a patch in changes no chunk id. *)
Lemma flags_same_ids w pl pl' a : flags_ok w pl a -> map pt_chunk_id pl' = map pt_chunk_id pl -> flags_ok w pl' a.
Proof.
  intros [Hs Hf] E. split; [unfold sorted_patches; by rewrite E|]. intros p c Hp Hc Hk. assert (Hin : pt_chunk_id p ∈ map pt_chunk_id pl) by (rewrite <- E; by apply list_elem_of_fmap_2).
  apply list_elem_of_fmap in Hin as (q & Eq & Hq). apply (Hf q); [done|done|congruence].
Qed.

(** A chunk that is not flagged has no patches to come: the service has it as it will stay. *)
Lemma unflagged_final w pl a i c : committed_ok w pl a -> service (requests a) !! i = Some c -> wc_writer_id c = w ->
  chunk_has_flag kChunkNeedsPatching c = false -> view w pl a !! i = Some c.
Proof.
  intros [_ [_ Hf]] Hi Hw Hc. unfold view. rewrite list_lookup_fmap, Hi. cbn [fmap option_fmap option_map]. f_equal. rewrite forget_unflagged by done.
  apply (fold_write_other (key_of c)); [done|]. unfold known_patches. rewrite Forall_map. apply Forall_forall. intros p [_ Hp]%list_elem_of_filter. cbn [fst]. intros Hk.
  assert (Hin : c ∈ service (requests a)) by (by eapply list_elem_of_lookup_2). rewrite (Hf p c Hp Hin) in Hc; [done|]. by rewrite <- Hk.
Qed.
