(* ===== verification/IdAllocator.v ===== *)
(** * The allocator of writer ids (src/tracing/core/id_allocator.h, id_allocator.cc)

    Ids from 1 to a maximum are handed out in turn, the lowest free one after the last; a
    vector of bits, as long as the largest id ever used, says which are taken.  The lemmas
    give the contract its clients use: [taken]. *)

From S2P Require Import Prelude.

Record IdAllocator := mkIds { max_id_ : Z; last_id_ : Z; ids_ : list bool }.
Definition IdAllocator_new (max_id : Z) : IdAllocator := mkIds max_id 0 [].

(** One round of the loop of AllocateGeneric: the next id, if it is free.  [resize] is
    std::vector::resize, which also shrinks, with false for new elements. *)
Definition next_id (a : IdAllocator) : Z := if last_id_ a <? max_id_ a then u32 (last_id_ a + 1) else 1.
Definition try_next_id (a : IdAllocator) : bool * IdAllocator :=
  let id := next_id a in
  if zlen (ids_ a) <=? id then
    (true, mkIds (max_id_ a) id (<[Z.to_nat id := true]> (resize (Z.to_nat (u32 (id + 1))) false (ids_ a))))
  else if negb (default false (ids_ a !! Z.to_nat id)) then (true, mkIds (max_id_ a) id (<[Z.to_nat id := true]> (ids_ a)))
  else (false, mkIds (max_id_ a) id (ids_ a)).
Fixpoint allocate_loop (rounds : nat) (a : IdAllocator) : Z * IdAllocator :=
  match rounds with
  | O => (0, a)
  | S rounds => let '(free, a) := try_next_id a in if free then (last_id_ a, a) else allocate_loop rounds a
  end.
Definition AllocateGeneric (a : IdAllocator) : Z * IdAllocator := allocate_loop (Z.to_nat (max_id_ a)) a.
(** An invalid id is PERFETTO_DFATAL, which in release builds is nothing: the early return. *)
Definition FreeGeneric (id : Z) (a : IdAllocator) : IdAllocator :=
  if (id =? 0) || (zlen (ids_ a) <=? id) || negb (default false (ids_ a !! Z.to_nat id)) then a
  else mkIds (max_id_ a) (last_id_ a) (<[Z.to_nat id := false]> (ids_ a)).
Definition IsEmpty (a : IdAllocator) : bool := forallb negb (ids_ a).

(** ** The contract *)

Definition taken (a : IdAllocator) (id : Z) : bool := (0 <=? id) && default false (ids_ a !! Z.to_nat id).
Record ids_ok (a : IdAllocator) : Prop := {
  io_max : 1 < max_id_ a < 2 ^ 32 - 1;
  io_last : 0 <= last_id_ a <= max_id_ a;
  io_length : zlen (ids_ a) <= max_id_ a + 1;
  io_zero : taken a 0 = false
}.

Lemma ids_ok_new max_id : 1 < max_id < 2 ^ 32 - 1 -> ids_ok (IdAllocator_new max_id).
Proof. intros H. split; cbn; [done|lia|unfold zlen; cbn; lia|done]. Qed.
Lemma taken_new max_id id : taken (IdAllocator_new max_id) id = false.
Proof. unfold taken. cbn. apply andb_false_r. Qed.
Lemma taken_range a id : ids_ok a -> taken a id = true -> 0 < id <= max_id_ a.
Proof.
  intros H Ht. destruct (decide (id = 0)) as [->|Hne]; [rewrite (io_zero _ H) in Ht; done|]. unfold taken in Ht.
  destruct (ids_ a !! Z.to_nat id) eqn:E; [|by rewrite andb_false_r in Ht]. apply lookup_lt_Some in E. pose proof (io_length _ H). unfold zlen in *. lia.
Qed.
Lemma next_id_range a : ids_ok a -> 0 < next_id a <= max_id_ a.
Proof.
  intros [Hm Hl _ _]. unfold next_id. destruct (Z.ltb_spec (last_id_ a) (max_id_ a)); [|lia]. unfold u32, uw. rewrite Z.mod_small; lia.
Qed.

(** A round takes the next id exactly when it was free. *)
Lemma taken_insert m l ids id b i : 0 <= id < zlen ids -> taken (mkIds m l (<[Z.to_nat id := b]> ids)) i = if i =? id then b else taken (mkIds m l ids) i.
Proof.
  intros Hi. unfold taken, zlen in *. cbn [ids_]. destruct (Z.eqb_spec i id) as [->|Hne].
  - rewrite list_lookup_insert_eq by lia. cbn. rewrite andb_comm. destruct b; cbn; lia.
  - destruct (Z.leb_spec 0 i); [|done]. cbn [andb]. rewrite list_lookup_insert_ne by lia. done.
Qed.
Lemma taken_resize m l ids n i : (length ids <= n)%nat -> taken (mkIds m l (resize n false ids)) i = taken (mkIds m l ids) i.
Proof.
  intros Hn. unfold taken. cbn [ids_]. f_equal. rewrite resize_ge by done. destruct (decide (Z.to_nat i < length ids)%nat).
  - by rewrite lookup_app_l.
  - rewrite lookup_app_r by lia. rewrite (lookup_ge_None_2 ids) by lia. destruct (decide (Z.to_nat i - length ids < n - length ids)%nat) as [Hl|Hg].
    + by rewrite lookup_replicate_2.
    + by rewrite (lookup_ge_None_2 (replicate _ _)) by (rewrite length_replicate; lia).
Qed.
Lemma try_next_id_spec a : ids_ok a -> let '(free, a') := try_next_id a in
  free = negb (taken a (next_id a)) /\ last_id_ a' = next_id a /\ max_id_ a' = max_id_ a /\ ids_ok a' /\
  forall i, taken a' i = taken a i || (i =? next_id a).
Proof.
  intros Ha. pose proof (next_id_range _ Ha) as Hn. destruct Ha as [Hm Hl Hlen H0]. unfold try_next_id. set (id := next_id a) in *.
  assert (Hx : forall ids, zlen ids <= max_id_ a + 1 -> (forall i, taken (mkIds (max_id_ a) id ids) i = taken a i || (i =? id)) -> ids_ok (mkIds (max_id_ a) id ids)).
  { intros ids H1 H2. split; cbn [max_id_ last_id_ ids_]; [done|lia|done|]. rewrite H2, H0. cbn [orb]. apply Z.eqb_neq. lia. }
  destruct (Z.leb_spec (zlen (ids_ a)) id) as [Hge|Hlt].
  - assert (Hu : u32 (id + 1) = id + 1) by (unfold u32, uw; rewrite Z.mod_small; lia). rewrite Hu.
    assert (Hsz : length (resize (Z.to_nat (id + 1)) false (ids_ a)) = Z.to_nat (id + 1)) by apply length_resize.
    assert (Ht : forall i, taken (mkIds (max_id_ a) id (<[Z.to_nat id := true]> (resize (Z.to_nat (id + 1)) false (ids_ a)))) i = taken a i || (i =? id)).
    { intros i. rewrite taken_insert by (unfold zlen; lia). destruct (i =? id); [by rewrite orb_true_r|]. rewrite orb_false_r.
      apply taken_resize. unfold zlen in *. lia. }
    split; [|split; [done|split; [done|split; [|exact Ht]]]].
    + unfold taken. rewrite lookup_ge_None_2 by (unfold zlen in *; lia). by rewrite andb_false_r.
    + apply Hx; [|exact Ht]. unfold zlen in *. rewrite length_insert. lia.
  - assert (Hb : default false (ids_ a !! Z.to_nat id) = taken a id) by (unfold taken; replace (0 <=? id) with true by lia; done). rewrite Hb.
    destruct (taken a id) eqn:E; cbn [negb].
    + assert (Ht : forall i, taken (mkIds (max_id_ a) id (ids_ a)) i = taken a i || (i =? id)).
      { intros i. change (taken (mkIds (max_id_ a) id (ids_ a)) i) with (taken a i). destruct (Z.eqb_spec i id) as [->|]; [by rewrite E|by rewrite orb_false_r]. }
      split; [done|split; [done|split; [done|split; [by apply Hx|exact Ht]]]].
    + assert (Ht : forall i, taken (mkIds (max_id_ a) id (<[Z.to_nat id := true]> (ids_ a))) i = taken a i || (i =? id)).
      { intros i. rewrite taken_insert by lia. destruct (i =? id); [by rewrite orb_true_r|]. by rewrite orb_false_r. }
      split; [done|split; [done|split; [done|split; [|exact Ht]]]]. apply Hx; [|exact Ht]. unfold zlen in *. by rewrite length_insert.
Qed.

(** The ids that [n] rounds visit. *)
Definition cycle (m l j : Z) : Z := (l + j - 1) `mod` m + 1.
Lemma cycle_next a : ids_ok a -> next_id a = cycle (max_id_ a) (last_id_ a) 1.
Proof.
  intros [Hm Hl _ _]. unfold next_id, cycle. replace (last_id_ a + 1 - 1) with (last_id_ a) by lia. destruct (Z.ltb_spec (last_id_ a) (max_id_ a)).
  - rewrite Z.mod_small by lia. unfold u32, uw. rewrite Z.mod_small; lia.
  - replace (last_id_ a) with (max_id_ a) by lia. rewrite Z_mod_same_full. done.
Qed.
Lemma cycle_cycle m l j : 0 < m -> cycle m (cycle m l 1) j = cycle m l (j + 1).
Proof.
  intros Hm. unfold cycle. f_equal. replace ((l + 1 - 1) `mod` m + 1 + j - 1) with (l `mod` m + j) by (replace (l + 1 - 1) with l by lia; lia).
  rewrite Zplus_mod_idemp_l. f_equal. lia.
Qed.
Lemma cycle_onto m l i : 0 < m -> 0 <= l -> 0 < i <= m -> exists j, 0 < j <= m /\ cycle m l j = i.
Proof.
  intros Hm Hl Hi. exists ((i - 1 - l) `mod` m + 1). split; [pose proof (Z.mod_pos_bound (i - 1 - l) m); lia|]. unfold cycle.
  replace (l + ((i - 1 - l) `mod` m + 1) - 1) with (l + (i - 1 - l) `mod` m) by lia. rewrite Zplus_mod_idemp_r.
  replace (l + (i - 1 - l)) with (i - 1) by lia. rewrite Z.mod_small; lia.
Qed.
Lemma allocate_loop_spec n : forall a, ids_ok a -> let '(id, a') := allocate_loop n a in
  ids_ok a' /\ max_id_ a' = max_id_ a /\
  ((id = 0 /\ (forall i, taken a' i = taken a i) /\ forall j, 0 < j <= Z.of_nat n -> taken a (cycle (max_id_ a) (last_id_ a) j) = true) \/
   (0 < id <= max_id_ a /\ taken a id = false /\ forall i, taken a' i = taken a i || (i =? id))).
Proof.
  induction n as [|n IH]; intros a Ha; cbn [allocate_loop].
  { split; [done|split; [done|left; split; [done|split; [done|lia]]]]. }
  pose proof (try_next_id_spec a Ha) as Hs. pose proof (next_id_range a Ha) as Hr. destruct (try_next_id a) as [free a1].
  destruct Hs as (-> & Hl1 & Hm1 & Ha1 & Ht1). destruct (taken a (next_id a)) eqn:E; cbn [negb].
  - specialize (IH a1 Ha1). destruct (allocate_loop n a1) as [id a']. destruct IH as (Ha' & Hm' & IH). split; [done|]. split; [congruence|].
    assert (Hsame : forall i, taken a1 i = taken a i) by (intros i; rewrite Ht1; destruct (Z.eqb_spec i (next_id a)) as [->|]; [by rewrite E|by rewrite orb_false_r]).
    destruct IH as [(-> & Hi & Hj)|(Hid & Hf & Hi)].
    + left. split; [done|]. split; [intros i; by rewrite Hi|]. intros j Hjr. destruct (decide (j = 1)) as [->|Hne]; [by rewrite <- cycle_next|].
      specialize (Hj (j - 1) ltac:(lia)). rewrite Hsame, Hm1, Hl1, cycle_next, cycle_cycle in Hj by (done || lia). by replace (j - 1 + 1) with j in Hj by lia.
    + right. rewrite Hm1 in Hid. split; [done|]. split; [by rewrite <- Hsame|]. intros i. by rewrite Hi, Hsame.
  - rewrite Hl1. split; [done|]. split; [done|]. right. done.
Qed.

(** Allocation gives a free id, and none only when all are taken. *)
Lemma AllocateGeneric_spec a : ids_ok a -> let '(id, a') := AllocateGeneric a in
  ids_ok a' /\ max_id_ a' = max_id_ a /\
  ((id = 0 /\ (forall i, taken a' i = taken a i) /\ forall i, 0 < i <= max_id_ a -> taken a i = true) \/
   (0 < id <= max_id_ a /\ taken a id = false /\ forall i, taken a' i = taken a i || (i =? id))).
Proof.
  intros Ha. unfold AllocateGeneric. pose proof (allocate_loop_spec (Z.to_nat (max_id_ a)) a Ha) as H. destruct (allocate_loop _ a) as [id a'].
  destruct H as (Ha' & Hm & H). split; [done|]. split; [done|]. destruct H as [(-> & Hi & Hj)|H]; [left|by right]. split; [done|]. split; [done|].
  intros i Hir. destruct Ha as [H1 H2 _ _]. destruct (cycle_onto (max_id_ a) (last_id_ a) i) as (j & Hj' & <-); [lia..|]. apply Hj. lia.
Qed.
Lemma FreeGeneric_spec id a : ids_ok a -> taken a id = true ->
  let a' := FreeGeneric id a in ids_ok a' /\ max_id_ a' = max_id_ a /\ forall i, taken a' i = taken a i && negb (i =? id).
Proof.
  intros Ha Ht. pose proof (taken_range _ _ Ha Ht) as Hr. assert (Hl : 0 <= id < zlen (ids_ a)).
  { unfold taken in Ht. destruct (ids_ a !! Z.to_nat id) eqn:E; [|by rewrite andb_false_r in Ht]. apply lookup_lt_Some in E. unfold zlen. lia. }
  unfold FreeGeneric. replace (id =? 0) with false by lia. replace (zlen (ids_ a) <=? id) with false by lia. cbn [orb].
  assert (E : default false (ids_ a !! Z.to_nat id) = true) by (unfold taken in Ht; by apply andb_true_iff in Ht as [_ Ht]). rewrite E. cbn [negb].
  assert (Hi : forall i, taken (mkIds (max_id_ a) (last_id_ a) (<[Z.to_nat id := false]> (ids_ a))) i = taken a i && negb (i =? id)).
  { intros i. rewrite taken_insert by lia. destruct (i =? id); cbn [negb]; [by rewrite andb_false_r|by rewrite andb_true_r]. }
  split; [|by split]. destruct Ha as [H1 H2 H3 H4]. split; [done|done| |by rewrite Hi, H4]. cbn [max_id_ ids_].
  unfold zlen in *. by rewrite length_insert.
Qed.
Lemma IsEmpty_spec a : IsEmpty a = true <-> forall i, taken a i = false.
Proof.
  unfold IsEmpty. rewrite forallb_forall. split.
  - intros H i. unfold taken. destruct (ids_ a !! Z.to_nat i) as [b|] eqn:E; [|apply andb_false_r].
    assert (Hb : negb b = true) by (apply H, list_elem_of_In; by eapply list_elem_of_lookup_2). destruct b; [done|]. apply andb_false_r.
  - intros H b Hb. apply list_elem_of_In, list_elem_of_lookup in Hb as [i Hi]. specialize (H (Z.of_nat i)). unfold taken in H.
    rewrite Nat2Z.id, Hi in H. apply andb_false_iff in H as [H|H]; [apply Z.leb_gt in H; lia|]. cbn in H. by rewrite H.
Qed.
