(* ===== verification/ArbiterBinding.v ===== *)
(** * Binding the arbiter: startup tracing, writer ids, flushes
    (src/tracing/core/shared_memory_arbiter_impl.cc, shared_memory_arbiter_impl.h)

    The whole state of an arbiter that may be created before its endpoint and task runner
    are known and whose startup writers target reservations of buffers: until all are bound,
    commits and flushes are held back.  The handling of chunks and patches is that of
    SharedMemoryArbiter.  Every function gives the state after its part under the lock and
    the actions that its thread does after releasing it; threads, actions and posted tasks
    interleave in a [World]. *)

From stdpp Require Import sorting.
From S2P Require Import Prelude ProtoUtils TraceBuffer SharedMemoryArbiter IdAllocator.

(** ** Buffer ids.  A MaybeUnboundBufferID is a buffer or, in its upper half, a reservation. *)

Definition kInvalidBufferId : Z := 0.
Definition kMaxWriterID : Z := 1023.
Definition MakeTargetBufferIdForReservation (reservation_id : Z) : outcome Z :=
  check! 0 <? reservation_id in Ok (u32 (reservation_id .<< 16)).
Definition IsReservationTargetBufferId (buffer_id : Z) : bool := 0 <? buffer_id .>> 16.
Record TargetBufferReservation := mkReservation { resolved : bool; target_buffer : Z }.
Definition Reservation_new : TargetBufferReservation := mkReservation false kInvalidBufferId.

(** ** State *)

(** A flush callback: the client's callbacks that it runs, none for an empty std::function. *)
Abbreviation Callback := (list Z).
(** A commit request with its flush_request_id (0 when it is not set). *)
Record CommitDataRequest := mkCommit { cr_chunks : Request; cr_flush_id : Z }.
Definition CommitDataRequest_new : CommitDataRequest := mkCommit Request_empty 0.

Inductive BufferExhaustedPolicy := kDrop | kStall.
#[export] Instance BufferExhaustedPolicy_eq : EqDecision BufferExhaustedPolicy.
Proof. solve_decision. Defined.

Record State := mkState {
  producer_endpoint_ : bool;      (* not null *)
  task_runner_ : bool;            (* not null *)
  smb_size_ : Z;
  pending_req_ : option CommitDataRequest;   (* commit_data_req_ *)
  pending_bytes_ : Z;                        (* bytes_pending_commit_ *)
  active_writer_ids_ : IdAllocator;
  did_shutdown_ : bool;
  fully_bound_ : bool;
  was_always_bound_ : bool;
  all_writers_have_drop_policy_ : bool;
  pending_writers_ : gmap Z Z;
  pending_flush_callbacks_ : list Callback;
  batch_ms_ : Z;                             (* batch_commits_duration_ms_ *)
  direct_patching_ : bool;                   (* direct_patching_enabled_ *)
  direct_patching_supported_by_service_ : bool;
  flush_scheduled_ : bool;                   (* delayed_flush_scheduled_ *)
  target_buffer_reservations_ : gmap Z TargetBufferReservation
}.
Definition State_new (bound : bool) (smb_size : Z) : State :=
  mkState bound bound smb_size None 0 (IdAllocator_new kMaxWriterID) false bound bound true ∅ [] 0 false false false ∅.

Definition set_commit (req : option CommitDataRequest) (bytes : Z) (scheduled : bool) (s : State) : State :=
  mkState (producer_endpoint_ s) (task_runner_ s) (smb_size_ s) req bytes (active_writer_ids_ s) (did_shutdown_ s) (fully_bound_ s) (was_always_bound_ s)
    (all_writers_have_drop_policy_ s) (pending_writers_ s) (pending_flush_callbacks_ s) (batch_ms_ s) (direct_patching_ s)
    (direct_patching_supported_by_service_ s) scheduled (target_buffer_reservations_ s).
Definition set_ids (ids : IdAllocator) (s : State) : State :=
  mkState (producer_endpoint_ s) (task_runner_ s) (smb_size_ s) (pending_req_ s) (pending_bytes_ s) ids (did_shutdown_ s) (fully_bound_ s) (was_always_bound_ s)
    (all_writers_have_drop_policy_ s) (pending_writers_ s) (pending_flush_callbacks_ s) (batch_ms_ s) (direct_patching_ s)
    (direct_patching_supported_by_service_ s) (flush_scheduled_ s) (target_buffer_reservations_ s).
Definition set_bound (endpoint runner fully always drop : bool) (s : State) : State :=
  mkState endpoint runner (smb_size_ s) (pending_req_ s) (pending_bytes_ s) (active_writer_ids_ s) (did_shutdown_ s) fully always
    drop (pending_writers_ s) (pending_flush_callbacks_ s) (batch_ms_ s) (direct_patching_ s)
    (direct_patching_supported_by_service_ s) (flush_scheduled_ s) (target_buffer_reservations_ s).
Definition set_pending (writers : gmap Z Z) (callbacks : list Callback) (reservations : gmap Z TargetBufferReservation) (s : State) : State :=
  mkState (producer_endpoint_ s) (task_runner_ s) (smb_size_ s) (pending_req_ s) (pending_bytes_ s) (active_writer_ids_ s) (did_shutdown_ s) (fully_bound_ s) (was_always_bound_ s)
    (all_writers_have_drop_policy_ s) writers callbacks (batch_ms_ s) (direct_patching_ s)
    (direct_patching_supported_by_service_ s) (flush_scheduled_ s) reservations.
Definition set_options (shutdown : bool) (batch_ms : Z) (direct supported : bool) (s : State) : State :=
  mkState (producer_endpoint_ s) (task_runner_ s) (smb_size_ s) (pending_req_ s) (pending_bytes_ s) (active_writer_ids_ s) shutdown (fully_bound_ s) (was_always_bound_ s)
    (all_writers_have_drop_policy_ s) (pending_writers_ s) (pending_flush_callbacks_ s) batch_ms direct
    supported (flush_scheduled_ s) (target_buffer_reservations_ s).

(** What a thread does after it released the lock, the tasks it posts, and the calls that
    the endpoint receives. *)
Inductive Task :=
| DelayedFlush
| FlushTask (callback : Callback)
| RegisterTask (writer_id buffer : Z)
| UnregisterTask (writer_id : Z)
| AbortTask (reservation_id : Z).
Inductive Call :=
| CommitData (req : CommitDataRequest) (callback : Callback)
| RegisterTraceWriter (writer_id buffer : Z)
| UnregisterTraceWriter (writer_id : Z).
Inductive Action :=
| PostTask (t : Task) (delay_ms : Z)
| Flush (callback : Callback)
| Invoke (c : Call).

(** ** Commits *)

(** UpdateCommitDataRequest: a task is posted only while the arbiter is fully bound. *)
Definition UpdateCommitDataRequest (chunk : option WChunk) (writer_id target : Z) (patch_list : PatchList) (s : State) :
    outcome (PatchList * State * list Action) :=
  let batch := bool_decide (pending_req_ s = None) && fully_bound_ s && negb (flush_scheduled_ s) in
  let commit := default CommitDataRequest_new (pending_req_ s) in
  let req := cr_chunks commit in
  let '(req, bytes) := match chunk with
                       | Some c =>
                           let stays := direct_patching_ s && chunk_has_flag kChunkNeedsPatching c in
                           (mkRequest (chunks_to_move req ++ [mkMoved c (negb stays) target]) (chunks_to_patch req), pending_bytes_ s + wc_size c)
                       | None => (req, pending_bytes_ s)
                       end in
  let! (patch_list, last, req) := drain_patches (direct_patching_ s) writer_id target patch_list None req in
  let more := match last with Some id => front_is_for id patch_list | None => false end in
  let req := if more then mkRequest (chunks_to_move req) (alter_last set_more (chunks_to_patch req)) else req in
  let now := fully_bound_ s && (bool_decide (last <> None) || (smb_size_ s `div` 2 <=? bytes)) in
  let actions := if now then [PostTask DelayedFlush 0] else if batch then [PostTask DelayedFlush (batch_ms_ s)] else [] in
  Ok (patch_list, set_commit (Some (mkCommit req (cr_flush_id commit))) bytes (batch || flush_scheduled_ s) s, actions).

(** ReplaceCommitPlaceholderBufferIdsLocked: whether all are replaced, and the request.
    Dereferencing an iterator at the end is a Crash. *)
Definition replace_placeholder (s : State) (target : Z) : outcome (bool * Z) :=
  if negb (IsReservationTargetBufferId target) then Ok (true, target)
  else match target_buffer_reservations_ s !! target with
       | None => Crash
       | Some r => if resolved r then Ok (true, target_buffer r) else Ok (false, target)
       end.
Definition set_mv_target (t : Z) (m : MovedChunk) : MovedChunk := mkMoved (mv_chunk m) (mv_complete m) t.
Definition set_cp_target (t : Z) (cp : ChunkToPatch) : ChunkToPatch :=
  mkToPatch (cp_writer_id cp) (cp_chunk_id cp) t (cp_patches cp) (cp_has_more_patches cp).
Fixpoint replace_all {A} (get : A -> Z) (set : Z -> A -> A) (s : State) (l : list A) : outcome (bool * list A) :=
  match l with
  | [] => Ok (true, [])
  | x :: l =>
      let! (b, t) := replace_placeholder s (get x) in
      let! (all, l) := replace_all get set s l in
      Ok (b && all, set t x :: l)
  end.
Definition ReplaceCommitPlaceholderBufferIdsLocked (s : State) (commit : CommitDataRequest) : outcome (bool * CommitDataRequest) :=
  let! (b1, moved) := replace_all mv_target set_mv_target s (chunks_to_move (cr_chunks commit)) in
  let! (b2, patches) := replace_all cp_target set_cp_target s (chunks_to_patch (cr_chunks commit)) in
  Ok (b1 && b2, mkCommit (mkRequest moved patches) (cr_flush_id commit)).

Definition FlushPendingCommitDataRequests (on_task_runner : bool) (callback : Callback) (s : State) : outcome (State * list Action) :=
  if negb (fully_bound_ s) then
    Ok (if bool_decide (callback = []) then s
        else set_pending (pending_writers_ s) (pending_flush_callbacks_ s ++ [callback]) (target_buffer_reservations_ s) s, [])
  else if negb on_task_runner then Ok (s, [PostTask (FlushTask callback) 0])
  else match pending_req_ s with
       | Some commit =>
           let! (_, commit) := ReplaceCommitPlaceholderBufferIdsLocked s commit in
           let req := cr_chunks commit in
           let commit := mkCommit (mkRequest (map complete_moved (chunks_to_move req)) (chunks_to_patch req)) (cr_flush_id commit) in
           Ok (set_commit None 0 (flush_scheduled_ s) s, [Invoke (CommitData commit callback)])
       | None => Ok (s, if bool_decide (callback = []) then [] else [Invoke (CommitData CommitDataRequest_new callback)])
       end.
Definition NotifyFlushComplete (req_id : Z) (s : State) : State * list Action :=
  match pending_req_ s with
  | None => (set_commit (Some (mkCommit Request_empty req_id)) (pending_bytes_ s) (flush_scheduled_ s) s,
             if fully_bound_ s then [PostTask (FlushTask []) 0] else [])
  | Some commit => (set_commit (Some (mkCommit (cr_chunks commit) (Z.max req_id (cr_flush_id commit)))) (pending_bytes_ s) (flush_scheduled_ s) s, [])
  end.

(** ** Options and shutdown *)

Definition SetBatchCommitsDuration (ms : Z) (s : State) : State :=
  set_options (did_shutdown_ s) ms (direct_patching_ s) (direct_patching_supported_by_service_ s) s.
Definition EnableDirectSMBPatching (s : State) : bool * State :=
  if negb (direct_patching_supported_by_service_ s) then (false, s)
  else (true, set_options (did_shutdown_ s) (batch_ms_ s) true (direct_patching_supported_by_service_ s) s).
Definition SetDirectSMBPatchingSupportedByService (s : State) : State :=
  set_options (did_shutdown_ s) (batch_ms_ s) (direct_patching_ s) true s.
Definition TryShutdown (s : State) : bool * State :=
  (IsEmpty (active_writer_ids_ s), set_options true (batch_ms_ s) (direct_patching_ s) (direct_patching_supported_by_service_ s) s).

(** ** Writers *)

(** CreateTraceWriterInternal: the id and the target buffer of the new writer, or None for a
    NullTraceWriter. *)
Definition CreateTraceWriterInternal (target : Z) (policy : BufferExhaustedPolicy) (s : State) : outcome (option (Z * Z) * State * list Action) :=
  if did_shutdown_ s then Ok (None, s, [])
  else
    let '(id, ids) := AllocateGeneric (active_writer_ids_ s) in
    let s := set_ids ids s in
    if id =? 0 then Ok (None, s, [])
    else
      let '(target, s) :=
        if IsReservationTargetBufferId target then
          let r := default Reservation_new (target_buffer_reservations_ s !! target) in
          (if resolved r then target_buffer r else target,
           set_pending (pending_writers_ s) (pending_flush_callbacks_ s) (<[target := r]> (target_buffer_reservations_ s)) s)
        else (target, s) in
      let! (s, register) :=
        if IsReservationTargetBufferId target then
          Ok (set_bound (producer_endpoint_ s) (task_runner_ s) false false (all_writers_have_drop_policy_ s)
                (set_pending (<[id := target]> (pending_writers_ s)) (pending_flush_callbacks_ s) (target_buffer_reservations_ s) s), [])
        else if negb (target =? kInvalidBufferId) then
          check! producer_endpoint_ s && task_runner_ s in Ok (s, [PostTask (RegisterTask id target) 0])
        else Ok (s, []) in
      let uses_drop_policy := bool_decide (policy = kDrop) in
      let s := set_bound (producer_endpoint_ s) (task_runner_ s) (fully_bound_ s) (was_always_bound_ s) (all_writers_have_drop_policy_ s && uses_drop_policy) s in
      check! fully_bound_ s || all_writers_have_drop_policy_ s in
      check! was_always_bound_ s || uses_drop_policy in
      Ok (Some (id, target), s, register).
Definition CreateTraceWriter (target : Z) (policy : BufferExhaustedPolicy) (s : State) : outcome (option (Z * Z) * State * list Action) :=
  check! 0 <? target in CreateTraceWriterInternal target policy s.
Definition CreateStartupTraceWriter (reservation_id : Z) (s : State) : outcome (option (Z * Z) * State * list Action) :=
  let! target := MakeTargetBufferIdForReservation reservation_id in CreateTraceWriterInternal target kDrop s.
Definition ReleaseWriterID (id : Z) (s : State) : State * list Action :=
  let s := set_ids (FreeGeneric id (active_writer_ids_ s)) s in
  if bool_decide (is_Some (pending_writers_ s !! id)) then
    (set_pending (delete id (pending_writers_ s)) (pending_flush_callbacks_ s) (target_buffer_reservations_ s) s, [])
  else if negb (task_runner_ s) then (s, []) else (s, [PostTask (UnregisterTask id) 0]).

(** ** Binding *)

Definition UpdateFullyBoundLocked (s : State) : bool * State :=
  if negb (producer_endpoint_ s) then (false, s)
  else
    let fully := forallb (fun e => resolved e.2) (map_to_list (target_buffer_reservations_ s)) in
    (fully, set_bound (producer_endpoint_ s) (task_runner_ s) fully (was_always_bound_ s && fully) (all_writers_have_drop_policy_ s) s).
Definition TakePendingFlushCallbacksLocked (s : State) : Callback * State :=
  (concat (pending_flush_callbacks_ s), set_pending (pending_writers_ s) [] (target_buffer_reservations_ s) s).
(** The end of both functions that bind. *)
Definition flush_if_bound (s : State) : State * list Action :=
  let '(should_flush, s) := UpdateFullyBoundLocked s in
  if should_flush then let '(callback, s) := TakePendingFlushCallbacksLocked s in (s, [Flush callback]) else (s, []).
Definition BindToProducerEndpoint (s : State) : outcome (State * list Action) :=
  check! negb (fully_bound_ s) in
  check! negb (producer_endpoint_ s) && negb (task_runner_ s) in
  let s := set_bound true true (fully_bound_ s) (was_always_bound_ s) (all_writers_have_drop_policy_ s) s in
  check! forallb (fun e => IsReservationTargetBufferId e.2) (map_to_list (pending_writers_ s)) in
  Ok (flush_if_bound s).
(** The writers of a reservation, in the order of the std::map. *)
Definition by_id (x y : Z * Z) : Prop := (x.1 <= y.1)%Z.
#[export] Instance by_id_dec x y : Decision (by_id x y).
Proof. unfold by_id. apply _. Defined.
Definition writers_of (reserved_id : Z) (writers : gmap Z Z) : list Z :=
  map fst (merge_sort by_id (filter (fun e => e.2 = reserved_id) (map_to_list writers))).
Definition BindStartupTargetBufferImpl (reservation_id target_buffer_id : Z) (s : State) : outcome (State * list Action) :=
  let! reserved_id := MakeTargetBufferIdForReservation reservation_id in
  let r := default Reservation_new (target_buffer_reservations_ s !! reserved_id) in
  check! negb (resolved r) in
  let writers_to_register := if target_buffer_id =? kInvalidBufferId then [] else writers_of reserved_id (pending_writers_ s) in
  let s := set_pending (filter (fun e => e.2 <> reserved_id) (pending_writers_ s)) (pending_flush_callbacks_ s)
             (<[reserved_id := mkReservation true target_buffer_id]> (target_buffer_reservations_ s)) s in
  let '(s, flush) := flush_if_bound s in
  Ok (s, map (fun id => Invoke (RegisterTraceWriter id target_buffer_id)) writers_to_register ++ flush).
Definition BindStartupTargetBuffer (on_task_runner : bool) (reservation_id target_buffer_id : Z) (s : State) : outcome (State * list Action) :=
  check! producer_endpoint_ s in
  check! task_runner_ s in
  check! on_task_runner in
  BindStartupTargetBufferImpl reservation_id target_buffer_id s.
Definition AbortStartupTracingForReservation (on_task_runner : bool) (reservation_id : Z) (s : State) : outcome (State * list Action) :=
  if task_runner_ s && negb on_task_runner then Ok (s, [PostTask (AbortTask reservation_id) 0])
  else BindStartupTargetBufferImpl reservation_id kInvalidBufferId s.

(** ** Threads

    Thread 0 is the one of the task runner.  An operation starts on a thread that has nothing
    left to do; it runs under the lock and leaves its actions to the thread.  Then any
    thread does its next action, or thread 0, when idle, runs any of the posted tasks. *)

(** A trace writer: its id, its target buffer, its policy. *)
Record Writer := mkWriter { w_id : Z; w_target : Z; w_policy : BufferExhaustedPolicy }.

Inductive Op :=
| CreateWriter (target : Z) (policy : BufferExhaustedPolicy)
| CreateStartupWriter (reservation_id : Z)
| ReturnChunk (writer : nat) (chunk : WChunk) (patches : PatchList)
| SendPatchesOp (writer : nat) (patches : PatchList)
| FlushOp (callback : Callback)
| NotifyFlush (req_id : Z)
| ReleaseWriter (writer : nat)
| Bind
| BindStartup (reservation_id target_buffer_id : Z)
| Abort (reservation_id : Z)
| SetBatch (ms : Z)
| SupportDirectPatching
| EnableDirectPatching
| Shutdown.
Inductive Event :=
| Start (thread : nat) (op : Op)
| Act (thread : nat)
| RunTask (index : nat).

(** [received_] is what the endpoint was called with; [writers_] the writers alive. *)
Record World := mkWorld {
  arbiter_ : State;
  threads_ : list (list Action);
  tasks_ : list Task;
  received_ : list Call;
  writers_ : list Writer
}.
Definition World_new (bound : bool) (smb_size : Z) (threads : nat) : World :=
  mkWorld (State_new bound smb_size) (replicate threads []) [] [] [].

Definition run_writer_op (w : option Writer) (f : Writer -> outcome (PatchList * State * list Action)) (s : State) : outcome (State * list Action) :=
  match w with
  | Some w => let! (_, s, acts) := f w in Ok (s, acts)
  | None => Ok (s, [])
  end.
Definition new_writer (policy : BufferExhaustedPolicy) (o : option (Z * Z)) : list Writer :=
  match o with Some (id, target) => [mkWriter id target policy] | None => [] end.
(** The operation on thread [thread]; the patches that were not completed stay with the writer. *)
Definition run_op (thread : nat) (op : Op) (writers : list Writer) (s : State) : outcome (State * list Action * list Writer) :=
  let same r := let! (s, acts) := r in Ok (s, acts, writers) in
  match op with
  | CreateWriter target policy =>
      let! (o, s, acts) := CreateTraceWriter target policy s in Ok (s, acts, writers ++ new_writer policy o)
  | CreateStartupWriter r =>
      let! (o, s, acts) := CreateStartupTraceWriter r s in Ok (s, acts, writers ++ new_writer kDrop o)
  | ReturnChunk i chunk patches =>
      same (run_writer_op (writers !! i) (fun w => UpdateCommitDataRequest (Some chunk) (w_id w) (w_target w) patches s) s)
  | SendPatchesOp i patches =>
      same (run_writer_op (writers !! i) (fun w => UpdateCommitDataRequest None (w_id w) (w_target w) patches s) s)
  | FlushOp callback => same (FlushPendingCommitDataRequests (bool_decide (thread = 0%nat)) callback s)
  | NotifyFlush req_id => Ok (NotifyFlushComplete req_id s, writers)
  | ReleaseWriter i =>
      match writers !! i with
      | Some w => Ok (ReleaseWriterID (w_id w) s, delete i writers)
      | None => Ok (s, [], writers)
      end
  | Bind => same (BindToProducerEndpoint s)
  | BindStartup r b => same (BindStartupTargetBuffer (bool_decide (thread = 0%nat)) r b s)
  | Abort r => same (AbortStartupTracingForReservation (bool_decide (thread = 0%nat)) r s)
  | SetBatch ms => Ok (SetBatchCommitsDuration ms s, [], writers)
  | SupportDirectPatching => Ok (SetDirectSMBPatchingSupportedByService s, [], writers)
  | EnableDirectPatching => Ok ((EnableDirectSMBPatching s).2, [], writers)
  | Shutdown => Ok ((TryShutdown s).2, [], writers)
  end.
(** A task on thread 0. *)
Definition clear_scheduled (s : State) : State := set_commit (pending_req_ s) (pending_bytes_ s) false s.
Definition run_task (t : Task) (s : State) : outcome (State * list Action) :=
  match t with
  | DelayedFlush => Ok (clear_scheduled s, [Flush []])
  | FlushTask callback => Ok (s, [Flush callback])
  | RegisterTask id buffer => Ok (s, [Invoke (RegisterTraceWriter id buffer)])
  | UnregisterTask id => Ok (s, [Invoke (UnregisterTraceWriter id)])
  | AbortTask r => AbortStartupTracingForReservation true r s
  end.
Definition set_acts (i : nat) (acts : list Action) (w : World) : World :=
  mkWorld (arbiter_ w) (<[i := acts]> (threads_ w)) (tasks_ w) (received_ w) (writers_ w).
Definition with_state (s : State) (writers : list Writer) (w : World) : World := mkWorld s (threads_ w) (tasks_ w) (received_ w) writers.
Definition exec (ev : Event) (w : World) : outcome World :=
  match ev with
  | Start i op =>
      match threads_ w !! i with
      | Some [] => let! (s, acts, writers) := run_op i op (writers_ w) (arbiter_ w) in Ok (set_acts i acts (with_state s writers w))
      | _ => Ok w
      end
  | Act i =>
      match threads_ w !! i with
      | Some (PostTask t _ :: acts) => Ok (set_acts i acts (mkWorld (arbiter_ w) (threads_ w) (tasks_ w ++ [t]) (received_ w) (writers_ w)))
      | Some (Invoke c :: acts) => Ok (set_acts i acts (mkWorld (arbiter_ w) (threads_ w) (tasks_ w) (received_ w ++ [c]) (writers_ w)))
      | Some (Flush callback :: acts) =>
          let! (s, more) := FlushPendingCommitDataRequests (bool_decide (i = 0%nat)) callback (arbiter_ w) in
          Ok (set_acts i (more ++ acts) (with_state s (writers_ w) w))
      | _ => Ok w
      end
  | RunTask k =>
      match threads_ w !! 0%nat, tasks_ w !! k with
      | Some [], Some t =>
          let! (s, acts) := run_task t (arbiter_ w) in
          Ok (set_acts 0 acts (mkWorld s (threads_ w) (delete k (tasks_ w)) (received_ w) (writers_ w)))
      | _, _ => Ok w
      end
  end.
Fixpoint exec_all (evs : list Event) (w : World) : outcome World :=
  match evs with
  | [] => Ok w
  | ev :: evs => let! w := exec ev w in exec_all evs w
  end.
