(* ===== verification/ArbiterBindingState.v ===== *)
(** * What the operations of an arbiter do under the lock

    The invariant of the state of an arbiter ([state_ok]) with the rules that its clients
    follow ([op_rules]), and, for every operation and task, that it fails no check and what
    it does to chunks, callbacks, reservations and pending flushes ([Locked]). *)

From S2P Require Import Prelude ProtoUtils TraceBuffer SharedMemoryArbiter IdAllocator ArbiterBinding.

(** ** Placeholders *)

Definition buffer_ok (t : Z) : Prop := 0 <= t < 65536.
Lemma IsReservation_buffer t : buffer_ok t -> IsReservationTargetBufferId t = false.
Proof. intros H. unfold buffer_ok in H. unfold IsReservationTargetBufferId. rewrite Z.shiftr_div_pow2 by lia. rewrite Z.div_small by lia. done. Qed.
Lemma IsReservation_id k : 0 < k < 65536 -> IsReservationTargetBufferId (k * 65536) = true.
Proof. intros H. unfold IsReservationTargetBufferId. rewrite Z.shiftr_div_pow2 by lia. change (2 ^ 16) with 65536. rewrite Z.div_mul by lia. apply Z.ltb_lt. lia. Qed.
Lemma Make_spec k : 0 < k < 65536 -> MakeTargetBufferIdForReservation k = Ok (k * 65536).
Proof.
  intros H. unfold MakeTargetBufferIdForReservation, perfetto_check. replace (0 <? k) with true by (symmetry; apply Z.ltb_lt; lia). cbn [obind].
  f_equal. rewrite Z.shiftl_mul_pow2 by lia. unfold u32, uw. rewrite Z.mod_small; lia.
Qed.

(** Where a chunk with target [t] goes, as far as it is known. *)
Definition resolve (s : State) (t : Z) : Z :=
  if IsReservationTargetBufferId t then
    match target_buffer_reservations_ s !! t with
    | Some r => if resolved r then target_buffer r else t
    | None => t
    end
  else t.
Definition valid_target (s : State) (t : Z) : Prop := buffer_ok t \/ is_Some (target_buffer_reservations_ s !! t).
Definition all_resolved (s : State) : bool := forallb (fun e => resolved e.2) (map_to_list (target_buffer_reservations_ s)).
Definition unresolved (s : State) (k : Z) : Prop := forall r, target_buffer_reservations_ s !! (k * 65536) = Some r -> resolved r = false.
(** Reservations only become known and then resolved. *)
Definition extends (s s' : State) : Prop :=
  forall t r, target_buffer_reservations_ s !! t = Some r ->
    exists r', target_buffer_reservations_ s' !! t = Some r' /\ (resolved r = true -> r' = r).

Lemma extends_refl s : extends s s.
Proof. intros t r H. by exists r. Qed.
Lemma extends_same s s' : target_buffer_reservations_ s' = target_buffer_reservations_ s -> extends s s'.
Proof. intros E t r H. exists r. by rewrite E. Qed.
Lemma extends_valid s s' t : extends s s' -> valid_target s t -> valid_target s' t.
Proof. intros He [H|[r H]]; [by left|right]. destruct (He t r H) as (r' & H' & _). by exists r'. Qed.
Lemma all_resolved_spec s : all_resolved s = true <-> forall t r, target_buffer_reservations_ s !! t = Some r -> resolved r = true.
Proof.
  unfold all_resolved. rewrite forallb_forall. split.
  - intros H t r Hr. apply (H (t, r)). apply list_elem_of_In, elem_of_map_to_list. done.
  - intros H [t r] Hin. apply list_elem_of_In, elem_of_map_to_list in Hin. by apply (H t).
Qed.

(** ** The invariant *)

Definition moved (s : State) : list MovedChunk := match pending_req_ s with Some c => chunks_to_move (cr_chunks c) | None => [] end.
Definition to_patch (s : State) : list ChunkToPatch := match pending_req_ s with Some c => chunks_to_patch (cr_chunks c) | None => [] end.
(** Chunks by their writer, their id and their target. *)
Definition chunk_key (m : MovedChunk) : Z * Z * Z := (key_of (mv_chunk m), mv_target m).
Definition final (s : State) (k : Z * Z * Z) : Z * Z * Z := (k.1, resolve s k.2).

Record state_ok (closed : gset Z) (ws : list Writer) (s : State) : Prop := {
  so_runner : task_runner_ s = producer_endpoint_ s;
  so_fully : fully_bound_ s = producer_endpoint_ s && all_resolved s;
  so_always : was_always_bound_ s = true -> fully_bound_ s = true;
  so_drop : fully_bound_ s || all_writers_have_drop_policy_ s = true;
  so_callbacks : fully_bound_ s = true -> pending_flush_callbacks_ s = [];
  so_pending : forall id t, pending_writers_ s !! id = Some t ->
    0 < id <= kMaxWriterID /\ IsReservationTargetBufferId t = true /\ exists r, target_buffer_reservations_ s !! t = Some r /\ resolved r = false;
  so_reservations : forall t r, target_buffer_reservations_ s !! t = Some r ->
    (exists k, 0 < k < 65536 /\ t = k * 65536 /\ (resolved r = true -> k ∈ closed)) /\
    buffer_ok (target_buffer r) /\ (target_buffer r <> 0 -> producer_endpoint_ s = true);
  so_moved : Forall (fun m => valid_target s (mv_target m)) (moved s);
  so_patches : Forall (fun cp => valid_target s (cp_target cp)) (to_patch s);
  so_writers : Forall (fun w => valid_target s (w_target w)) ws;
  so_ids : ids_ok (active_writer_ids_ s) /\ max_id_ (active_writer_ids_ s) = kMaxWriterID;
  so_taken : forall id, taken (active_writer_ids_ s) id = true <-> id ∈ map w_id ws;
  so_unique : NoDup (map w_id ws)
}.

(** ** The clients

    Patches lie in their chunks, a reservation is bound or aborted once, binding happens on
    the thread of the task runner, and writers that stall and startup tracing exclude each
    other (the header of the class asks for each). *)

Definition patches_fit (w : Z) (patches : PatchList) (ms : list MovedChunk) : Prop :=
  forall p m, p ∈ patches -> m ∈ ms -> patchable w (pt_chunk_id p) m = true -> 0 <= pt_offset p <= zlen (wc_payload (mv_chunk m)) - 4 /\ zlen (pt_size_field p) = 4.
Definition op_rules (thread : nat) (op : Op) (closed : gset Z) (ws : list Writer) (s : State) : Prop :=
  match op with
  | CreateWriter t p => 0 < t < 65536 /\ producer_endpoint_ s = true /\ (p = kStall -> was_always_bound_ s = true)
  | CreateStartupWriter k => 0 < k < 65536 /\ (all_writers_have_drop_policy_ s = true \/ ~ unresolved s k)
  | ReturnChunk i c patches => forall w, ws !! i = Some w ->
      patches_fit (w_id w) patches (moved s ++ [mkMoved c false (w_target w)])
  | SendPatchesOp i patches => forall w, ws !! i = Some w -> patches_fit (w_id w) patches (moved s)
  | Bind => thread = 0%nat /\ producer_endpoint_ s = false
  | BindStartup k b => thread = 0%nat /\ producer_endpoint_ s = true /\ 0 < k < 65536 /\ 0 < b < 65536 /\ k ∉ closed
  | Abort k => 0 < k < 65536 /\ k ∉ closed
  | _ => True
  end.

(** ** The effect of a critical section *)

Definition call_chunks (c : Call) : list (Z * Z * Z) := match c with CommitData r _ => map chunk_key (chunks_to_move (cr_chunks r)) | _ => [] end.
Definition call_callback (c : Call) : Callback := match c with CommitData _ cb => cb | _ => [] end.
Definition act_chunks (a : Action) : list (Z * Z * Z) := match a with Invoke c => call_chunks c | _ => [] end.
Definition act_callback (a : Action) : Callback :=
  match a with PostTask (FlushTask cb) _ => cb | Flush cb => cb | Invoke c => call_callback c | _ => [] end.
Definition act_aborts (a : Action) : list Z := match a with PostTask (AbortTask k) _ => [k] | _ => [] end.
Definition is_flush (a : Action) : bool := match a with PostTask DelayedFlush _ | PostTask (FlushTask _) _ | Flush _ => true | _ => false end.
Definition is_delayed (a : Action) : bool := match a with PostTask DelayedFlush _ => true | _ => false end.
Definition chunks_in (l : list Action) : list (Z * Z * Z) := concat (map act_chunks l).
Definition callbacks_in (l : list Action) : Callback := concat (map act_callback l).
Definition aborts_in (l : list Action) : list Z := concat (map act_aborts l).

(** Calls name buffers, never placeholders; the endpoint is called on thread 0 only; a flush
    or a commit is the last thing that a thread has to do. *)
Definition call_typed (c : Call) : Prop :=
  match c with
  | CommitData r _ => Forall (fun m => buffer_ok (mv_target m)) (chunks_to_move (cr_chunks r)) /\
                      Forall (fun cp => buffer_ok (cp_target cp)) (chunks_to_patch (cr_chunks r))
  | RegisterTraceWriter id b => 0 < id <= kMaxWriterID /\ 0 < b < 65536
  | UnregisterTraceWriter id => 0 < id <= kMaxWriterID
  end.
Definition act_typed (a : Action) : Prop :=
  match a with
  | Invoke c => call_typed c
  | PostTask (RegisterTask id b) _ => call_typed (RegisterTraceWriter id b)
  | PostTask (UnregisterTask id) _ => call_typed (UnregisterTraceWriter id)
  | PostTask (AbortTask k) _ => 0 < k < 65536
  | _ => True
  end.
Fixpoint shape (i : nat) (l : list Action) : Prop :=
  match l with
  | [] => True
  | PostTask _ _ :: l => shape i l
  | Flush _ :: l => l = []
  | Invoke (CommitData _ _) :: l => i = 0%nat /\ l = []
  | Invoke _ :: l => i = 0%nat /\ shape i l
  end.

(** A critical section on thread [i] that takes [used] away from the work of the threads and
    leaves [acts]: the callbacks [cb] and the chunks [added] are new, and so are the
    reservations that [closed'] has more than [closed]. *)
Record Locked (i : nat) (used : list Action) (closed closed' : gset Z) (cb : Callback) (added : list (Z * Z * Z))
    (s : State) (s' : State) (acts : list Action) (ws' : list Writer) : Prop := {
  lk_state : state_ok closed' ws' s';
  lk_closed : closed ⊆ closed';
  lk_extends : extends s s';
  lk_resolved : forall k, unresolved s k -> unresolved s' k \/ (k ∈ aborts_in used) \/ (k ∉ closed);
  lk_chunks : map (final s') (map chunk_key (moved s) ++ added) = chunks_in acts ++ map (final s') (map chunk_key (moved s'));
  lk_callbacks : (concat (pending_flush_callbacks_ s) ++ callbacks_in used ++ cb) ≡ₚ (concat (pending_flush_callbacks_ s') ++ callbacks_in acts);
  lk_aborts : aborts_in acts = [] \/ exists k, aborts_in acts = [k] /\ (k ∉ closed) /\ (k ∈ closed') /\ unresolved s' k;
  lk_delayed : flush_scheduled_ s' = true -> existsb is_delayed acts = true \/ (existsb is_delayed used = false /\ flush_scheduled_ s = true);
  lk_flush : fully_bound_ s' = true -> pending_req_ s' <> None -> existsb is_flush acts = true \/
    (existsb is_flush used = false /\ fully_bound_ s = true /\ (pending_req_ s <> None \/ flush_scheduled_ s = true));
  lk_typed : Forall act_typed acts;
  lk_shape : shape i acts
}.

(** ** Patches *)

Lemma patch_moved_key p more m : chunk_key (patch_moved p more m) = chunk_key m.
Proof. unfold chunk_key, patch_moved. by destruct more. Qed.
Lemma map_key_alter p more i ms : map chunk_key (alter (patch_moved p more) i ms) = map chunk_key ms.
Proof. revert i. induction ms as [|m ms IH]; intros [|i]; cbn; [done..|by rewrite patch_moved_key|]. f_equal. apply IH. Qed.
Lemma patches_fit_cons w p pl ms : patches_fit w (p :: pl) ms -> patches_fit w pl ms.
Proof. intros H p' m Hp Hm. apply H; [apply elem_of_cons; by right|done]. Qed.
Lemma patches_fit_direct w p pl ms i m more : patches_fit w (p :: pl) ms -> ms !! i = Some m -> patchable w (pt_chunk_id p) m = true ->
  patches_fit w pl (alter (patch_moved p more) i ms).
Proof.
  intros H Hi Hm p' m' Hp' Hm' Hpat. destruct (H p m) as [Ho Hz]; [apply elem_of_cons; by left|by eapply list_elem_of_lookup_2|done|].
  apply list_elem_of_lookup in Hm' as [j Hj]. destruct (decide (j = i)) as [->|Hne].
  - rewrite list_lookup_alter_eq, Hi in Hj. injection Hj as <-. destruct more; [|by unfold patchable in Hpat].
    assert (Hlen : zlen (wc_payload (mv_chunk (patch_moved p true m))) = zlen (wc_payload (mv_chunk m))) by (cbn; apply zlen_zwrite; lia).
    rewrite Hlen. apply (H p' m); [apply elem_of_cons; by right|by eapply list_elem_of_lookup_2|exact Hpat].
  - rewrite list_lookup_alter_ne in Hj by done. apply (H p' m'); [apply elem_of_cons; by right|by eapply list_elem_of_lookup_2|done].
Qed.
Lemma direct_patch_ok w p pl ms more : patches_fit w (p :: pl) ms ->
  match TryDirectPatchLocked w p more ms with
  | Crash => False
  | Ok None => True
  | Ok (Some ms') => map chunk_key ms' = map chunk_key ms /\ patches_fit w pl ms'
  end.
Proof.
  intros H. unfold TryDirectPatchLocked. pose proof (find_patchable_spec w (pt_chunk_id p) ms) as Hf.
  destruct (find_patchable w (pt_chunk_id p) (rev ms)) as [i|]; [|done]. destruct Hf as (m & Hi & Hm).
  destruct (H p m) as [Ho _]; [apply elem_of_cons; by left|by eapply list_elem_of_lookup_2|done|]. 
  assert (Hd : (pt_offset p <=? default 0 ((fun m => zlen (wc_payload (mv_chunk m))) <$> ms !! i) - kMessageLengthFieldSize) = true).
  { rewrite Hi. apply Z.leb_le. change kMessageLengthFieldSize with 4. cbn. lia. }
  rewrite Hd. cbn [perfetto_check obind].
  split; [apply map_key_alter|by eapply patches_fit_direct].
Qed.
Lemma Forall_alter_last {A} (P : A -> Prop) f l : Forall P l -> (forall x, P x -> P (f x)) -> Forall P (alter_last f l).
Proof. intros H Hf. unfold alter_last. apply Forall_alter; [done|]. auto. Qed.

(** Completed patches are written or sent along: the chunks, their order and their targets
    stay. *)
Lemma drain_patches_ok direct w t (P : Z -> Prop) : P t -> forall pl last req, patches_fit w pl (chunks_to_move req) ->
  Forall (fun cp => P (cp_target cp)) (chunks_to_patch req) ->
  exists pl' last' req', drain_patches direct w t pl last req = Ok (pl', last', req') /\
    map chunk_key (chunks_to_move req') = map chunk_key (chunks_to_move req) /\ Forall (fun cp => P (cp_target cp)) (chunks_to_patch req').
Proof.
  intros HP. induction pl as [|p pl IH]; intros last req Hfit Hreq; cbn [drain_patches]; [by eexists _, _, _|].
  destruct (negb (is_patched p)); [by eexists _, _, _|].
  assert (Hsend : forall req, patches_fit w pl (chunks_to_move req) -> Forall (fun cp => P (cp_target cp)) (chunks_to_patch req) ->
    exists pl' last' req', (let '(last, req) := send_to_service w t p last req in drain_patches direct w t pl last req) = Ok (pl', last', req') /\
    map chunk_key (chunks_to_move req') = map chunk_key (chunks_to_move req) /\ Forall (fun cp => P (cp_target cp)) (chunks_to_patch req')).
  { intros req0 H1 H2. unfold send_to_service. case_bool_decide as Hl.
    - refine (IH _ (mkRequest (chunks_to_move req0) _) _ _); cbn [chunks_to_move chunks_to_patch]; [done|]. apply Forall_alter_last; [done|]. intros cp. by cbn.
    - refine (IH _ (mkRequest (chunks_to_move req0) _) _ _); cbn [chunks_to_move chunks_to_patch]; [done|]. apply Forall_alter_last; [|intros cp; by cbn]. apply Forall_app. split; [done|]. by constructor. }
  destruct direct; [|cbn [obind]; apply Hsend; [by eapply patches_fit_cons|done]].
  pose proof (direct_patch_ok w p pl (chunks_to_move req) (front_is_for (pt_chunk_id p) pl) Hfit) as Hd.
  destruct (TryDirectPatchLocked w p _ (chunks_to_move req)) as [[ms'|]|]; [| |done]; cbn [obind].
  - destruct Hd as [Hk Hf']. destruct (IH last (mkRequest ms' (chunks_to_patch req)) Hf' Hreq) as (pl' & last' & req' & E & E1 & E2).
    eexists _, _, _. split; [exact E|]. split; [|done]. by rewrite E1.
  - apply Hsend; [by eapply patches_fit_cons|done].
Qed.

(** ** Commits and flushes *)

Lemma Forall_target (P : Z -> Prop) ms : Forall (fun m => P (mv_target m)) ms <-> Forall (fun k => P k.2) (map chunk_key ms).
Proof. by rewrite Forall_map. Qed.
Lemma state_ok_commit closed ws s req bytes sch : state_ok closed ws s ->
  Forall (fun m => valid_target s (mv_target m)) (match req with Some c => chunks_to_move (cr_chunks c) | None => [] end) ->
  Forall (fun cp => valid_target s (cp_target cp)) (match req with Some c => chunks_to_patch (cr_chunks c) | None => [] end) ->
  state_ok closed ws (set_commit req bytes sch s).
Proof. intros [] H1 H2. by split. Qed.

(** A critical section that leaves commits, callbacks and the batching alone. *)
Lemma locked_quiet i closed ws' s s' acts : state_ok closed ws' s' -> extends s s' -> (forall k, unresolved s k -> unresolved s' k) ->
  pending_req_ s' = pending_req_ s -> pending_flush_callbacks_ s' = pending_flush_callbacks_ s -> flush_scheduled_ s' = flush_scheduled_ s ->
  (fully_bound_ s' = true -> fully_bound_ s = true) ->
  Forall (fun a => exists t d, a = PostTask t d /\ act_callback a = [] /\ act_aborts a = []) acts -> Forall act_typed acts ->
  Locked i [] closed closed [] [] s s' acts ws'.
Proof.
  intros Hs He Hu Hr Hc Hf Hb Ha Ht. assert (Hx : chunks_in acts = [] /\ callbacks_in acts = [] /\ aborts_in acts = [] /\ shape i acts).
  { clear Ht. induction Ha as [|a acts (t & d & -> & H1 & H2) Ha IH]; [done|]. destruct IH as (I1 & I2 & I3 & I4). unfold chunks_in, callbacks_in, aborts_in in *.
    cbn [map concat shape]. rewrite I1, I2, I3, H1, H2. done. }
  destruct Hx as (E1 & E2 & E3 & E4). assert (Hm : moved s' = moved s) by (unfold moved; by rewrite Hr). split; try done.
  - intros k Hk. left. auto.
  - by rewrite E1, app_nil_r, Hm.
  - rewrite E2, Hc. done.
  - by left.
  - intros H. right. split; [done|]. congruence.
  - intros H H'. right. split; [done|]. rewrite Hr in H'. auto.
Qed.

Section Commit.
Context (closed : gset Z) (ws : list Writer) (s : State) (Hs : state_ok closed ws s).

Lemma update_locked i chunk w t pl : valid_target s t ->
  patches_fit w pl (moved s ++ match chunk with Some c => [mkMoved c false t] | None => [] end) ->
  exists pl' s' acts, UpdateCommitDataRequest chunk w t pl s = Ok (pl', s', acts) /\
    Locked i [] closed closed [] (match chunk with Some c => [(key_of c, t)] | None => [] end) s s' acts ws.
Proof.
  intros Ht Hfit. unfold UpdateCommitDataRequest. set (commit := default CommitDataRequest_new (pending_req_ s)).
  assert (Hm : chunks_to_move (cr_chunks commit) = moved s) by (unfold commit, moved; by destruct (pending_req_ s)).
  assert (Hp : chunks_to_patch (cr_chunks commit) = to_patch s) by (unfold commit, to_patch; by destruct (pending_req_ s)).
  destruct (match chunk with Some c => _ | None => (cr_chunks commit, pending_bytes_ s) end) as [req bytes] eqn:Ereq.
  assert (Hreq : map chunk_key (chunks_to_move req) = map chunk_key (moved s) ++ (match chunk with Some c => [(key_of c, t)] | None => [] end) /\
                 chunks_to_patch req = to_patch s /\ patches_fit w pl (chunks_to_move req)).
  { destruct chunk as [c|]; injection Ereq as <- <-; cbn [chunks_to_move chunks_to_patch].
    - rewrite Hm, Hp, map_app. split; [done|split; [done|]]. intros p m Hp1 Hm1 Hpat. apply elem_of_app in Hm1 as [Hm1|Hm1%list_elem_of_singleton].
      + apply (Hfit p m); [done|apply elem_of_app; by left|done].
      + subst m. apply (Hfit p (mkMoved c false t)); [done|apply elem_of_app; right; by apply list_elem_of_singleton|].
        unfold patchable in *. cbn [mv_complete mv_chunk] in *. apply andb_true_iff in Hpat as [Hpat H2]. apply andb_true_iff in Hpat as [_ H1]. by rewrite H1, H2.
    - rewrite Hm, Hp, !app_nil_r. rewrite app_nil_r in Hfit. done. }
  destruct Hreq as (Hk & Hto & Hfit').
  destruct (drain_patches_ok (direct_patching_ s) w t (valid_target s) Ht pl None req Hfit') as (pl' & last & req' & E & E1 & E2);
    [rewrite Hto; apply (so_patches _ _ _ Hs)|]. rewrite E. cbn [obind]. clear E.
  set (more := match last with Some id => _ | None => false end).
  set (req'' := if more then _ else req'). set (batch := bool_decide (pending_req_ s = None) && fully_bound_ s && negb (flush_scheduled_ s)).
  set (now := fully_bound_ s && _). eexists _, _, _. split; [reflexivity|].
  assert (F1 : map chunk_key (chunks_to_move req'') = map chunk_key (moved s) ++ (match chunk with Some c => [(key_of c, t)] | None => [] end)).
  { rewrite <- Hk, <- E1. unfold req''. by destruct more. }
  assert (F2 : Forall (fun cp => valid_target s (cp_target cp)) (chunks_to_patch req'')).
  { unfold req''. destruct more; [|done]. cbn [chunks_to_patch]. apply Forall_alter_last; [done|]. intros cp. by cbn. }
  assert (F3 : Forall (fun m => valid_target s (mv_target m)) (chunks_to_move req'')).
  { apply Forall_target. rewrite F1. apply Forall_app. split; [apply Forall_target, (so_moved _ _ _ Hs)|]. destruct chunk; [|done]. by constructor. }
  split; try done.
  - by apply state_ok_commit.
  - by apply extends_same.
  - intros k Hk'. by left.
  - cbn [set_commit moved pending_req_ cr_chunks]. rewrite F1. destruct now; [done|]. by destruct batch.
  - destruct now; [done|]. by destruct batch.
  - left. destruct now; [done|]. by destruct batch.
  - cbn [set_commit flush_scheduled_]. intros H. destruct now; [by left|]. destruct batch; [by left|]. right. by split.
  - intros Hf _. cbn [set_commit fully_bound_] in Hf. destruct now; [by left|]. destruct batch eqn:Eb; [by left|]. right. split; [done|]. split; [done|].
    unfold batch in Eb. rewrite Hf, andb_true_r in Eb. apply andb_false_iff in Eb as [Eb|Eb]; [left; by apply bool_decide_eq_false in Eb|right].
    by apply negb_false_iff in Eb.
  - destruct now; [by repeat constructor|]. destruct batch; by repeat constructor.
  - destruct now; [done|]. by destruct batch.
Qed.

(** Once all reservations are resolved, placeholders become buffers. *)
Lemma replace_placeholder_ok t : all_resolved s = true -> valid_target s t -> replace_placeholder s t = Ok (true, resolve s t) /\ buffer_ok (resolve s t).
Proof.
  intros Ha Ht. unfold replace_placeholder, resolve. destruct (IsReservationTargetBufferId t) eqn:E; cbn [negb].
  - destruct Ht as [Ht|[r Hr]]; [by rewrite IsReservation_buffer in E|]. rewrite Hr. pose proof (proj1 (all_resolved_spec s) Ha t r Hr) as Hres. rewrite Hres.
    split; [done|]. apply (so_reservations _ _ _ Hs t r Hr).
  - destruct Ht as [Ht|[r Hr]]; [done|]. destruct (so_reservations _ _ _ Hs t r Hr) as ((k & Hk & -> & _) & _). by rewrite IsReservation_id in E.
Qed.
Lemma replace_all_ok {A} (get : A -> Z) set l : all_resolved s = true -> Forall (fun x => valid_target s (get x)) l ->
  replace_all get set s l = Ok (true, map (fun x => set (resolve s (get x)) x) l).
Proof.
  intros Ha Hl. induction Hl as [|x l Hx Hl IH]; [done|]. cbn [replace_all map]. destruct (replace_placeholder_ok (get x) Ha Hx) as [-> _]. cbn [obind].
  by rewrite IH.
Qed.
Lemma Forall_resolved {A} (get : A -> Z) l : all_resolved s = true -> Forall (fun x => valid_target s (get x)) l -> Forall (fun x => buffer_ok (resolve s (get x))) l.
Proof. intros Ha Hl. eapply Forall_impl; [exact Hl|]. intros x Hx. by apply replace_placeholder_ok. Qed.

(** FlushPendingCommitDataRequests, for a callback that comes from a client or from [used]. *)
Lemma flush_locked i used cb callback : callbacks_in used ++ cb = callback -> existsb is_delayed used = false ->
  exists s' acts, FlushPendingCommitDataRequests (bool_decide (i = 0%nat)) callback s = Ok (s', acts) /\ Locked i used closed closed cb [] s s' acts ws.
Proof.
  intros Hcb Hu. unfold FlushPendingCommitDataRequests. destruct (fully_bound_ s) eqn:Ef; cbn [negb].
  2:{ eexists _, _. split; [reflexivity|].
      assert (Hc : concat (pending_flush_callbacks_ s) ++ callback ≡ₚ
        concat (pending_flush_callbacks_ (if bool_decide (callback = []) then s
          else set_pending (pending_writers_ s) (pending_flush_callbacks_ s ++ [callback]) (target_buffer_reservations_ s) s))).
      { case_bool_decide as E; [by rewrite E, app_nil_r|]. cbn [set_pending pending_flush_callbacks_]. rewrite concat_app. cbn [concat]. by rewrite app_nil_r. }
      split; [| |by apply extends_same; case_bool_decide| | | |by left| | |done|done].
      - destruct Hs. case_bool_decide; split; try done. cbn. congruence.
      - done.
      - intros k Hk. left. by case_bool_decide.
      - rewrite app_nil_r. by case_bool_decide.
      - unfold callbacks_in at 2. cbn [map concat]. rewrite app_nil_r, Hcb. exact Hc.
      - intros H. right. split; [done|]. by case_bool_decide.
      - intros H. by case_bool_decide; cbn in H; congruence. }
  assert (Hf := Ef). rewrite (so_fully _ _ _ Hs) in Hf. apply andb_true_iff in Hf as [_ Ha].
  case_bool_decide as Hi; cbn [negb].
  2:{ eexists _, _. split; [reflexivity|]. split; try done; [apply extends_refl|intros k Hk; by left|by rewrite app_nil_r| |by left|intros H; right; by split|intros; by left|by repeat constructor].
      unfold callbacks_in at 2. cbn [map concat act_callback]. by rewrite app_nil_r, Hcb. }
  destruct (pending_req_ s) as [commit|] eqn:Er.
  - assert (Hm : moved s = chunks_to_move (cr_chunks commit)) by (unfold moved; by rewrite Er).
    assert (Hp : to_patch s = chunks_to_patch (cr_chunks commit)) by (unfold to_patch; by rewrite Er).
    pose proof (so_moved _ _ _ Hs) as Hv. pose proof (so_patches _ _ _ Hs) as Hw. rewrite Hm in Hv. rewrite Hp in Hw.
    unfold ReplaceCommitPlaceholderBufferIdsLocked. rewrite (replace_all_ok mv_target) by done. cbn [obind]. rewrite (replace_all_ok cp_target) by done. cbn [obind cr_chunks cr_flush_id chunks_to_move chunks_to_patch].
    rewrite map_map. eexists _, _. split; [reflexivity|]. split; try done.
    + by apply state_ok_commit.
    + by apply extends_same.
    + intros k Hk. by left.
    + rewrite app_nil_r, Hm. cbn [set_commit moved pending_req_ map]. rewrite app_nil_r. unfold chunks_in. cbn [map concat act_chunks call_chunks cr_chunks chunks_to_move].
      rewrite app_nil_r, !map_map. done.
    + unfold callbacks_in at 2. cbn [map concat act_callback call_callback set_commit pending_flush_callbacks_]. by rewrite app_nil_r, Hcb.
    + by left.
    + intros H. right. by split.
    + constructor; [|done]. cbn [act_typed call_typed cr_chunks chunks_to_move chunks_to_patch]. rewrite !Forall_map. split; by apply Forall_resolved.
  - eexists _, _. split; [reflexivity|]. assert (Hnil : concat (pending_flush_callbacks_ s) ++ callback ≡ₚ concat (pending_flush_callbacks_ s) ++
      callbacks_in (if bool_decide (callback = []) then [] else [Invoke (CommitData CommitDataRequest_new callback)])).
    { case_bool_decide as E; [by rewrite E|]. unfold callbacks_in. cbn [map concat act_callback call_callback]. by rewrite app_nil_r. }
    split; try done; [apply extends_refl|intros k Hk; by left| |by rewrite Hcb|left; by case_bool_decide|intros H; right; by split| |by case_bool_decide].
    + rewrite app_nil_r. by case_bool_decide.
    + case_bool_decide; [done|]. constructor; [|done]. by split; constructor.
Qed.

Lemma notify_locked i req_id : let '(s', acts) := NotifyFlushComplete req_id s in Locked i [] closed closed [] [] s s' acts ws.
Proof.
  unfold NotifyFlushComplete. destruct (pending_req_ s) as [commit|] eqn:Er.
  - assert (Hm : moved s = chunks_to_move (cr_chunks commit)) by (unfold moved; by rewrite Er).
    assert (Hp : to_patch s = chunks_to_patch (cr_chunks commit)) by (unfold to_patch; by rewrite Er).
    split; try done.
    + apply state_ok_commit; [done| |]; cbn [cr_chunks]; [rewrite <- Hm; apply Hs|rewrite <- Hp; apply Hs].
    + by apply extends_same.
    + intros k Hk. by left.
    + rewrite app_nil_r, Hm. done.
    + by left.
    + intros H. right. by split.
    + intros H H'. right. rewrite Er. by repeat split; [done..|left].
  - split; try done.
    + by apply state_ok_commit.
    + by apply extends_same.
    + intros k Hk. by left.
    + unfold moved. rewrite Er. cbn. by destruct (fully_bound_ s).
    + cbn [set_commit pending_flush_callbacks_]. by destruct (fully_bound_ s).
    + left. by destruct (fully_bound_ s).
    + intros H. right. by split.
    + cbn [set_commit fully_bound_]. intros H. rewrite H. intros _. by left.
    + destruct (fully_bound_ s); by repeat constructor.
    + by destruct (fully_bound_ s).
Qed.
End Commit.

(** ** Options and writers *)

Section Writers.
Context (closed : gset Z) (ws : list Writer) (s : State) (Hs : state_ok closed ws s).

Lemma options_locked i down ms direct supported : Locked i [] closed closed [] [] s (set_options down ms direct supported s) [] ws.
Proof. apply locked_quiet; try done; [by destruct Hs; split|by apply extends_same]. Qed.

Lemma taken_ok id : taken (active_writer_ids_ s) id = true -> 0 < id <= kMaxWriterID.
Proof. intros H. destruct (so_ids _ _ _ Hs) as [Ho <-]. by apply taken_range. Qed.
Lemma set_ids_none ids : (forall i, taken ids i = taken (active_writer_ids_ s) i) -> ids_ok ids -> max_id_ ids = kMaxWriterID -> state_ok closed ws (set_ids ids s).
Proof. intros Ht Ho Hm. destruct Hs. split; try done. intros id. cbn [set_ids active_writer_ids_]. rewrite Ht. apply so_taken0. Qed.

(** The reservation that a new startup writer asks for is recorded. *)
Definition note_reservation (t : Z) (s : State) : State :=
  set_pending (pending_writers_ s) (pending_flush_callbacks_ s)
    (<[t := default Reservation_new (target_buffer_reservations_ s !! t)]> (target_buffer_reservations_ s)) s.
Lemma note_extends t s0 : extends s0 (note_reservation t s0).
Proof.
  intros t' r H. cbn [note_reservation set_pending target_buffer_reservations_]. destruct (decide (t' = t)) as [->|Hne].
  - rewrite lookup_insert_eq, H. by exists r.
  - rewrite lookup_insert_ne by done. by exists r.
Qed.
Lemma note_unresolved t k : unresolved s k -> unresolved (note_reservation t s) k.
Proof.
  intros H r. cbn [note_reservation set_pending target_buffer_reservations_]. destruct (decide (t = k * 65536)) as [->|Hne].
  - rewrite lookup_insert_eq. intros [= <-]. destruct (target_buffer_reservations_ s !! (k * 65536)) as [r|] eqn:E; [by apply H|done].
  - rewrite lookup_insert_ne by done. apply H.
Qed.
End Writers.

(** A writer whose id is [id] joins, with a target that is a buffer or a reservation. *)
Lemma state_ok_join closed ws s s' id t p : state_ok closed ws s -> taken (active_writer_ids_ s) id = false ->
  0 < id <= kMaxWriterID -> ids_ok (active_writer_ids_ s') -> max_id_ (active_writer_ids_ s') = kMaxWriterID ->
  (forall i, taken (active_writer_ids_ s') i = taken (active_writer_ids_ s) i || (i =? id)) ->
  producer_endpoint_ s' = producer_endpoint_ s -> task_runner_ s' = task_runner_ s -> extends s s' -> valid_target s' t ->
  pending_req_ s' = pending_req_ s -> pending_flush_callbacks_ s' = pending_flush_callbacks_ s ->
  fully_bound_ s' = producer_endpoint_ s' && all_resolved s' -> (was_always_bound_ s' = true -> fully_bound_ s' = true) ->
  fully_bound_ s' || all_writers_have_drop_policy_ s' = true -> (fully_bound_ s' = true -> fully_bound_ s = true) ->
  (forall id' t', pending_writers_ s' !! id' = Some t' -> pending_writers_ s !! id' = Some t' \/ id' = id /\ t' = t /\ IsReservationTargetBufferId t = true) ->
  (forall t' r, target_buffer_reservations_ s' !! t' = Some r -> target_buffer_reservations_ s !! t' = Some r \/
     r = Reservation_new /\ exists k, 0 < k < 65536 /\ t' = k * 65536) ->
  (IsReservationTargetBufferId t = true -> exists r, target_buffer_reservations_ s' !! t = Some r /\ resolved r = false) ->
  state_ok closed (ws ++ [mkWriter id t p]) s'.
Proof.
  intros Hs Hfree Hid Hids Hmax Htk Ep Er He Ht Eq Ec Hfully Halways Hdrop Hback Hpw Hres Hnew. destruct Hs. split; try done.
  - congruence.
  - intros H. rewrite Ec. auto.
  - intros id' t' H. destruct (Hpw id' t' H) as [H'|(-> & -> & Hr)]; [|by auto]. destruct (so_pending0 id' t' H') as (H0 & H1 & r & H2 & H3). split; [done|]. split; [done|].
    destruct (He t' r H2) as (r' & H4 & _). destruct (Hres t' r' H4) as [H5|[-> _]]; [|by exists Reservation_new]. exists r'. split; [done|congruence].
  - intros t' r H. rewrite Ep. destruct (Hres t' r H) as [H'|[-> (k & Hk & ->)]]; [by apply so_reservations0|]. split; [by exists k|]. by unfold buffer_ok, kInvalidBufferId; cbn.
  - unfold moved. rewrite Eq. eapply Forall_impl; [exact so_moved0|]. intros m. by apply extends_valid.
  - unfold to_patch. rewrite Eq. eapply Forall_impl; [exact so_patches0|]. intros m. by apply extends_valid.
  - apply Forall_app. split; [|by constructor]. eapply Forall_impl; [exact so_writers0|]. intros m. by apply extends_valid.
  - intros i. rewrite Htk, map_app, elem_of_app, orb_true_iff, so_taken0. cbn [map w_id]. rewrite list_elem_of_singleton, Z.eqb_eq. done.
  - rewrite map_app. apply NoDup_app. split; [done|]. split; [|by apply NoDup_singleton]. intros i Hi ->%list_elem_of_singleton. apply so_taken0 in Hi. cbn [w_id] in Hi. congruence.
Qed.

Section Create.
Context (closed : gset Z) (ws : list Writer) (s : State) (Hs : state_ok closed ws s).

Lemma all_resolved_insert t r s' : target_buffer_reservations_ s' = <[t := r]> (target_buffer_reservations_ s) -> all_resolved s' = true -> resolved r = true.
Proof. intros E H. apply (proj1 (all_resolved_spec s') H t). rewrite E. apply lookup_insert_eq. Qed.
Lemma all_resolved_same s' : target_buffer_reservations_ s' = target_buffer_reservations_ s -> all_resolved s' = all_resolved s.
Proof. unfold all_resolved. by intros ->. Qed.

(** Allocating the id, and what follows when there is one. *)
Lemma create_cases target policy (P : option (Z * Z) -> State -> list Action -> Prop) :
  (forall ids, (forall i, taken ids i = taken (active_writer_ids_ s) i) -> ids_ok ids -> max_id_ ids = kMaxWriterID -> P None (set_ids ids s) []) -> P None s [] ->
  (forall id ids, 0 < id <= kMaxWriterID -> taken (active_writer_ids_ s) id = false -> ids_ok ids -> max_id_ ids = kMaxWriterID ->
     (forall i, taken ids i = taken (active_writer_ids_ s) i || (i =? id)) -> did_shutdown_ s = false -> AllocateGeneric (active_writer_ids_ s) = (id, ids) ->
     exists o s' acts, CreateTraceWriterInternal target policy s = Ok (o, s', acts) /\ P o s' acts) ->
  exists o s' acts, CreateTraceWriterInternal target policy s = Ok (o, s', acts) /\ P o s' acts.
Proof.
  intros H1 H2 H3. destruct (did_shutdown_ s) eqn:Ed; [unfold CreateTraceWriterInternal; rewrite Ed; by eexists _, _, _|].
  destruct (so_ids _ _ _ Hs) as [Ho Hm]. pose proof (AllocateGeneric_spec _ Ho) as Ha. destruct (AllocateGeneric (active_writer_ids_ s)) as [id ids] eqn:Ea.
  destruct Ha as (Ho' & Hm' & [(-> & Ht & _)|(Hid & Hf & Ht)]).
  - unfold CreateTraceWriterInternal. rewrite Ed, Ea. cbn [Z.eqb]. eexists _, _, _. split; [reflexivity|]. apply H1; [done|done|congruence].
  - apply (H3 id ids); try done; congruence.
Qed.

Definition created (policy : BufferExhaustedPolicy) (i : nat) (o : option (Z * Z)) (s' : State) (acts : list Action) : Prop :=
  Locked i [] closed closed [] [] s s' acts (ws ++ new_writer policy o).
Lemma created_none policy i ids : (forall i, taken ids i = taken (active_writer_ids_ s) i) -> ids_ok ids -> max_id_ ids = kMaxWriterID -> created policy i None (set_ids ids s) [].
Proof.
  intros H1 H2 H3. unfold created. cbn [new_writer]. rewrite app_nil_r. apply locked_quiet; try done; [by apply set_ids_none|by apply extends_same].
Qed.
Lemma created_null policy i : created policy i None s [].
Proof. unfold created. cbn [new_writer]. rewrite app_nil_r. apply locked_quiet; try done. apply extends_refl. Qed.

Lemma create_writer_locked i t policy : 0 < t < 65536 -> producer_endpoint_ s = true -> (policy = kStall -> was_always_bound_ s = true) ->
  exists o s' acts, CreateTraceWriter t policy s = Ok (o, s', acts) /\ created policy i o s' acts.
Proof.
  intros Ht Hep Hp. unfold CreateTraceWriter. replace (0 <? t) with true by (symmetry; apply Z.ltb_lt; lia). cbn [perfetto_check obind].
  apply create_cases; [by apply created_none|apply created_null|]. intros id ids Hid Hfree Ho Hm Htk Hd Ha.
  assert (Hres : IsReservationTargetBufferId t = false) by (apply IsReservation_buffer; unfold buffer_ok; lia).
  assert (Hrun := Hep). rewrite <- (so_runner _ _ _ Hs) in Hrun.
  unfold CreateTraceWriterInternal. rewrite Hd, Ha. replace (id =? 0) with false by (symmetry; apply Z.eqb_neq; lia). rewrite Hres. cbn [negb]. rewrite Hres.
  unfold kInvalidBufferId. replace (t =? 0) with false by (symmetry; apply Z.eqb_neq; lia). cbn [negb]. cbn [set_ids producer_endpoint_ task_runner_]. rewrite Hep, Hrun.
  cbn [andb perfetto_check obind]. set (drop := bool_decide (policy = kDrop)). set (s' := set_bound _ _ _ _ _ _).
  assert (Hdrop : fully_bound_ s' || all_writers_have_drop_policy_ s' = true).
  { unfold s'. cbn [set_bound fully_bound_ all_writers_have_drop_policy_ set_ids]. pose proof (so_drop _ _ _ Hs) as Hx. pose proof (so_always _ _ _ Hs) as Hy.
    unfold drop. case_bool_decide as Ek; [by rewrite andb_true_r|]. rewrite Hy; [done|]. apply Hp. by destruct policy. }
  assert (Halw : was_always_bound_ s' || drop = true) by (unfold s', drop; cbn; case_bool_decide; [by rewrite orb_true_r|rewrite Hp; [done|by destruct policy]]).
  rewrite Hdrop, Halw. cbn [perfetto_check obind]. eexists _, _, _. split; [reflexivity|].
  unfold created. cbn [new_writer]. apply locked_quiet; try done.
  - eapply (state_ok_join closed ws s s' id t policy); try done; [by apply extends_same|left; unfold buffer_ok; lia| | |by left|by left|].
    + unfold s'. cbn [set_bound set_ids producer_endpoint_ fully_bound_]. rewrite (so_fully _ _ _ Hs). unfold all_resolved. done.
    + apply (so_always _ _ _ Hs).
    + intros H. congruence.
  - by apply extends_same.
  - constructor; [by eexists _, _|done].
  - constructor; [|done]. split; lia.
Qed.


(** A startup writer whose reservation is resolved gets the buffer; otherwise it waits and
    the arbiter is no longer bound. *)
Section Startup.
Context (i : nat) (k : Z) (Hk : 0 < k < 65536) (Hrule : all_writers_have_drop_policy_ s = true \/ ~ unresolved s k).
Context (id : Z) (ids : IdAllocator) (Hid : 0 < id <= kMaxWriterID) (Hfree : taken (active_writer_ids_ s) id = false) (Ho : ids_ok ids).
Context (Hm : max_id_ ids = kMaxWriterID) (Htk : forall i, taken ids i = taken (active_writer_ids_ s) i || (i =? id)).
Let t := k * 65536.
Let r := default Reservation_new (target_buffer_reservations_ s !! t).
Let s1 := note_reservation t (set_ids ids s).

Lemma startup_extends : extends s s1.
Proof. apply (note_extends t (set_ids ids s)). Qed.
Lemma startup_unresolved k' : unresolved s k' -> unresolved s1 k'.
Proof. apply (note_unresolved (set_ids ids s) t). Qed.
Lemma startup_resolved s' : resolved r = true -> s' = set_bound (producer_endpoint_ s1) (task_runner_ s1) (fully_bound_ s1) (was_always_bound_ s1) (all_writers_have_drop_policy_ s1 && true) s1 ->
  state_ok closed (ws ++ [mkWriter id (target_buffer r) kDrop]) s' /\ buffer_ok (target_buffer r) /\ (target_buffer r <> 0 -> producer_endpoint_ s = true).
Proof.
  intros Hr ->. assert (Er : target_buffer_reservations_ s !! t = Some r) by (unfold r in *; destruct (target_buffer_reservations_ s !! t); [done|by cbn in Hr]).
  destruct (so_reservations _ _ _ Hs t r Er) as (_ & Hb & Hne). split; [|done].
  assert (Esame : target_buffer_reservations_ s1 = target_buffer_reservations_ s) by (cbn; rewrite Er; by apply insert_id).
  set (s' := set_bound _ _ _ _ _ _). eapply (state_ok_join closed ws s s' id (target_buffer r) kDrop); try done; [exact startup_extends|by left| | | |by left| |].
  - unfold s'. cbn [set_bound fully_bound_ producer_endpoint_]. change (fully_bound_ s1) with (fully_bound_ s). rewrite (so_fully _ _ _ Hs). f_equal.
    symmetry. by apply all_resolved_same.
  - apply (so_always _ _ _ Hs).
  - unfold s'. cbn [set_bound fully_bound_ all_writers_have_drop_policy_]. rewrite andb_true_r. apply (so_drop _ _ _ Hs).
  - intros t' r' H. left. change (target_buffer_reservations_ s1 !! t' = Some r') in H. by rewrite Esame in H.
  - intros H. by rewrite IsReservation_buffer in H.
Qed.
Lemma startup_waits s' : resolved r = false -> s' = set_bound (producer_endpoint_ s) (task_runner_ s) false false true
    (set_pending (<[id := t]> (pending_writers_ s)) (pending_flush_callbacks_ s) (target_buffer_reservations_ s1) s1) ->
  state_ok closed (ws ++ [mkWriter id t kDrop]) s'.
Proof.
  intros Hr ->. set (s' := set_bound _ _ _ _ _ _). eapply (state_ok_join closed ws s s' id t kDrop); try done; [exact startup_extends| | | | |].
  - right. cbn. rewrite lookup_insert_eq. by eexists.
  - destruct (all_resolved s') eqn:E; [|by rewrite andb_false_r]. exfalso.
    assert (Ht : resolved r = true) by (eapply (all_resolved_insert t r s'); [done|exact E]). congruence.
  - intros id' t'. cbn. destruct (decide (id = id')) as [->|Hne].
    + rewrite lookup_insert_eq. intros [= <-]. right. split; [done|]. split; [done|]. by apply IsReservation_id.
    + rewrite lookup_insert_ne by done. by left.
  - intros t' r'. cbn. destruct (decide (t = t')) as [<-|Hne].
    + rewrite lookup_insert_eq. intros [= <-]. fold r. unfold r. destruct (target_buffer_reservations_ s !! t) as [r0|]; [by left|right]. split; [done|]. by exists k.
    + rewrite lookup_insert_ne by done. by left.
  - intros _. exists r. cbn. by rewrite lookup_insert_eq.
Qed.
End Startup.

Lemma create_startup_locked i k : 0 < k < 65536 -> all_writers_have_drop_policy_ s = true \/ ~ unresolved s k ->
  exists o s' acts, CreateStartupTraceWriter k s = Ok (o, s', acts) /\ created kDrop i o s' acts.
Proof.
  intros Hk Hrule. unfold CreateStartupTraceWriter. rewrite Make_spec by done. cbn [obind]. set (t := k * 65536).
  apply create_cases; [by apply created_none|apply created_null|]. intros id ids Hid Hfree Ho Hm Htk Hd Ha.
  assert (Hrt : IsReservationTargetBufferId t = true) by by apply IsReservation_id.
  unfold CreateTraceWriterInternal. rewrite Hd, Ha. replace (id =? 0) with false by (symmetry; apply Z.eqb_neq; lia). rewrite Hrt.
  cbn [set_ids target_buffer_reservations_]. change (set_pending _ _ _ (set_ids ids s)) with (note_reservation t (set_ids ids s)).
  set (s1 := note_reservation t (set_ids ids s)). set (r := default Reservation_new _). destruct (resolved r) eqn:Er.
  - destruct (startup_resolved k id ids Hid Hfree Ho Hm Htk _ Er eq_refl) as (Hok & Hb & Hne). fold t in Hok, Hb, Hne. fold r in Hok, Hb, Hne. fold s1 in Hok.
    rewrite (IsReservation_buffer _ Hb). cbn [negb].
    assert (Hacts : exists acts, (if negb (target_buffer r =? kInvalidBufferId) then check! producer_endpoint_ s1 && task_runner_ s1 in Ok (s1, [PostTask (RegisterTask id (target_buffer r)) 0])
              else Ok (s1, [])) = Ok (s1, acts) /\ Forall (fun a => exists t d, a = PostTask t d /\ act_callback a = [] /\ act_aborts a = []) acts /\ Forall act_typed acts).
    { unfold kInvalidBufferId. destruct (Z.eqb_spec (target_buffer r) 0) as [Hz|Hz]; cbn [negb]; [by exists []|].
      change (producer_endpoint_ s1) with (producer_endpoint_ s). change (task_runner_ s1) with (task_runner_ s). rewrite (so_runner _ _ _ Hs), (Hne Hz). cbn [andb perfetto_check obind].
      eexists. split; [reflexivity|]. split; (constructor; [|done]); [by eexists _, _|]. split; [done|]. unfold buffer_ok in Hb. lia. }
    destruct Hacts as (acts & E & Ha1 & Ha2). rewrite E. cbn [obind]. rewrite bool_decide_eq_true_2 by done.
    set (s' := set_bound _ _ _ _ _ _) in *. rewrite (so_drop _ _ _ Hok), orb_true_r. cbn [perfetto_check obind]. eexists _, _, _. split; [reflexivity|].
    apply locked_quiet; try done; [by apply startup_extends|intros k'; by apply startup_unresolved].
  - rewrite Hrt. cbn [obind].
    assert (Hall : all_writers_have_drop_policy_ s = true).
    { destruct Hrule as [|Hn]; [done|]. destruct Hn. intros r' H'. unfold r, t in Er. by rewrite H' in Er. }
    rewrite bool_decide_eq_true_2 by done. set (s' := set_bound _ _ _ _ _ (set_bound _ _ _ _ _ _)).
    assert (E' : s' = set_bound (producer_endpoint_ s) (task_runner_ s) false false true
       (set_pending (<[id := t]> (pending_writers_ s)) (pending_flush_callbacks_ s) (target_buffer_reservations_ s1) s1)).
    { unfold s'. cbn [set_bound set_pending all_writers_have_drop_policy_]. change (all_writers_have_drop_policy_ s1) with (all_writers_have_drop_policy_ s). by rewrite Hall. }
    assert (Hok : state_ok closed (ws ++ [mkWriter id t kDrop]) s') by (by apply (startup_waits k Hk id ids Hid Hfree Ho Hm Htk)).
    rewrite (so_drop _ _ _ Hok), orb_true_r. cbn [perfetto_check obind]. eexists _, _, _. split; [reflexivity|].
    apply locked_quiet; try done; [by apply startup_extends|intros k'; by apply startup_unresolved].
Qed.
End Create.

(** ** Release *)

Section Release.
Context (closed : gset Z) (ws : list Writer) (s : State) (Hs : state_ok closed ws s) (n : nat) (w : Writer) (Hw : ws !! n = Some w).

Lemma released_ids : taken (active_writer_ids_ s) (w_id w) = true /\ (forall id, id ∈ map w_id (delete n ws) <-> (id ∈ map w_id ws) /\ id <> w_id w) /\ NoDup (map w_id (delete n ws)).
Proof.
  assert (Hp : map w_id ws ≡ₚ w_id w :: map w_id (delete n ws)) by (change (map w_id ws ≡ₚ map w_id (w :: delete n ws)); apply Permutation_map, delete_Permutation, Hw).
  assert (Hn := so_unique _ _ _ Hs). rewrite Hp in Hn. apply NoDup_cons in Hn as [Hni Hn]. split; [|split; [|done]].
  - apply (so_taken _ _ _ Hs). rewrite Hp. apply elem_of_cons. by left.
  - intros id. rewrite Hp, elem_of_cons. split; [intros H; split; [by right|congruence]|]. intros [[->|H] Hne]; done.
Qed.
Lemma state_ok_leave s' : active_writer_ids_ s' = FreeGeneric (w_id w) (active_writer_ids_ s) ->
  producer_endpoint_ s' = producer_endpoint_ s -> task_runner_ s' = task_runner_ s -> target_buffer_reservations_ s' = target_buffer_reservations_ s ->
  pending_req_ s' = pending_req_ s -> pending_flush_callbacks_ s' = pending_flush_callbacks_ s -> fully_bound_ s' = fully_bound_ s ->
  was_always_bound_ s' = was_always_bound_ s -> all_writers_have_drop_policy_ s' = all_writers_have_drop_policy_ s ->
  (forall id t, pending_writers_ s' !! id = Some t -> pending_writers_ s !! id = Some t) -> state_ok closed (delete n ws) s'.
Proof.
  intros Ei Ep Er Et Eq Ec Ef Ew Ed Hpw. destruct released_ids as (Ht & Hin & Hnd). destruct (so_ids _ _ _ Hs) as [Ho Hm].
  destruct (FreeGeneric_spec _ _ Ho Ht) as (Ho' & Hm' & Htk). destruct Hs. unfold all_resolved, valid_target, moved, to_patch in *. split; rewrite ?Ep, ?Er, ?Et, ?Eq, ?Ec, ?Ef, ?Ew, ?Ed, ?Ei; try done.
  - unfold all_resolved. by rewrite Et.
  - intros id t H. apply (so_pending0 id). auto.
  - unfold moved. rewrite Eq. eapply Forall_impl; [exact so_moved0|]. intros m. unfold valid_target. by rewrite Et.
  - unfold to_patch. rewrite Eq. eapply Forall_impl; [exact so_patches0|]. intros m. unfold valid_target. by rewrite Et.
  - apply Forall_delete. eapply Forall_impl; [exact so_writers0|]. intros m. unfold valid_target. by rewrite Et.
  - split; [done|congruence].
  - intros id. rewrite Htk, Hin, andb_true_iff, so_taken0, negb_true_iff, Z.eqb_neq. done.
Qed.
Lemma release_locked i : let '(s', acts) := ReleaseWriterID (w_id w) s in Locked i [] closed closed [] [] s s' acts (delete n ws).
Proof.
  destruct released_ids as (Ht & _). pose proof (taken_ok closed ws s Hs _ Ht) as Hr. unfold ReleaseWriterID. case_bool_decide.
  - apply locked_quiet; try done; [|by apply extends_same]. apply state_ok_leave; try done. intros id t. cbn. intros Hd. by apply lookup_delete_Some in Hd as [_ Hd].
  - assert (Hok : state_ok closed (delete n ws) (set_ids (FreeGeneric (w_id w) (active_writer_ids_ s)) s)) by by apply state_ok_leave.
    destruct (negb _); apply locked_quiet; try done; try by apply extends_same.
    + constructor; [by eexists _, _|done].
    + by constructor.
Qed.
End Release.

(** ** Binding *)

(** What both functions that bind do at the end: [s] is bound or not, [s0] is the state
    with the change of the endpoint or of a reservation. *)
Section Bind.
Context (closed closed' : gset Z) (ws : list Writer) (s s0 : State) (Hs : state_ok closed ws s) (Hsub : closed ⊆ closed').

(** [s0] satisfies the invariant but for fully_bound_, which is still that of [s]. *)
Record almost_bound : Prop := {
  al_state : forall fully, fully = producer_endpoint_ s0 && all_resolved s0 ->
    state_ok closed' ws (set_bound (producer_endpoint_ s0) (task_runner_ s0) fully (was_always_bound_ s0 && fully) (all_writers_have_drop_policy_ s0)
      (if fully then set_pending (pending_writers_ s0) [] (target_buffer_reservations_ s0) s0 else s0));
  al_fully : fully_bound_ s0 = fully_bound_ s;
  al_unbound : producer_endpoint_ s0 = false -> fully_bound_ s = false /\ was_always_bound_ s0 = false;
  al_extends : extends s s0;
  al_request : pending_req_ s0 = pending_req_ s;
  al_callbacks : pending_flush_callbacks_ s0 = pending_flush_callbacks_ s;
  al_scheduled : flush_scheduled_ s0 = flush_scheduled_ s
}.

Lemma bind_locked i used calls : almost_bound -> callbacks_in used = [] -> existsb is_delayed used = false -> 
  (forall k, unresolved s k -> unresolved s0 k \/ (k ∈ aborts_in used) \/ (k ∉ closed)) ->
  Forall (fun c => exists id b, c = RegisterTraceWriter id b /\ call_typed c) calls -> (calls <> [] -> i = 0%nat) ->
  let '(s', acts) := flush_if_bound s0 in Locked i used closed closed' [] [] s s' (map Invoke calls ++ acts) ws.
Proof.
  intros [Hst Hf Hun He Hr Hc Hd] Hu1 Hu2 Hres Hcalls Hi.
  assert (Hcl : forall l, chunks_in (map Invoke calls ++ l) = chunks_in l /\ callbacks_in (map Invoke calls ++ l) = callbacks_in l /\ aborts_in (map Invoke calls ++ l) = aborts_in l /\
     existsb is_flush (map Invoke calls ++ l) = existsb is_flush l /\ (Forall act_typed l -> Forall act_typed (map Invoke calls ++ l)) /\ (shape i l -> shape i (map Invoke calls ++ l))).
  { intros l. clear - Hcalls Hi. induction Hcalls as [|c calls (id & b & -> & Hc) H IH]; [done|]. destruct IH as (I1 & I2 & I3 & I4 & I5 & I6).
    { intros _. by apply Hi. }
    unfold chunks_in, callbacks_in, aborts_in in *. cbn [map app concat existsb act_chunks act_callback call_chunks call_callback act_aborts is_flush orb shape].
    repeat split; try done; [intros Hl; constructor; [done|by apply I5]|by apply Hi|by apply I6]. }
  unfold flush_if_bound, UpdateFullyBoundLocked. change (forallb _ _) with (all_resolved s0).
  destruct (producer_endpoint_ s0) eqn:Ep; cbn [negb].
  - specialize (Hst (all_resolved s0) eq_refl). destruct (all_resolved s0) eqn:Ea.
    + unfold TakePendingFlushCallbacksLocked. cbn [set_bound pending_flush_callbacks_ pending_writers_ target_buffer_reservations_].
      destruct (Hcl [Flush (concat (pending_flush_callbacks_ s0))]) as (C1 & C2 & C3 & C4 & C5 & C6). split.
      * cbn. exact Hst.
      * done.
      * exact He.
      * exact Hres.
      * rewrite C1, app_nil_r. cbn. unfold moved. cbn. by rewrite Hr.
      * rewrite C2, Hu1, Hc. cbn. by rewrite !app_nil_r.
      * left. by rewrite C3.
      * cbn. rewrite Hd. intros H. right. by split.
      * intros _ _. left. by rewrite C4.
      * apply C5. by constructor.
      * by apply C6.
    + destruct (Hcl []) as (C1 & C2 & C3 & C4 & C5 & C6). split.
      * cbn. exact Hst.
      * done.
      * exact He.
      * exact Hres.
      * rewrite C1, app_nil_r. unfold moved. cbn. by rewrite Hr.
      * rewrite C2, Hu1. cbn. rewrite Hc. by rewrite !app_nil_r.
      * left. by rewrite C3.
      * cbn. rewrite Hd. intros H. right. by split.
      * done.
      * by apply C5.
      * by apply C6.
  - destruct (Hun eq_refl) as [Hun1 Hun2]. specialize (Hst false eq_refl). cbn in Hst. destruct (Hcl []) as (C1 & C2 & C3 & C4 & C5 & C6).
    assert (E0 : s0 = set_bound false (task_runner_ s0) false (was_always_bound_ s0 && false) (all_writers_have_drop_policy_ s0) s0).
    { rewrite andb_false_r. unfold set_bound. destruct s0. cbn in *. f_equal; congruence. }
    split.
    + rewrite E0. exact Hst.
    + done.
    + exact He.
    + exact Hres.
    + rewrite C1, app_nil_r. unfold moved. by rewrite Hr.
    + rewrite C2, Hu1, Hc. cbn. by rewrite !app_nil_r.
    + left. by rewrite C3.
    + rewrite Hd. intros H. right. by split.
    + intros H. congruence.
    + by apply C5.
    + by apply C6.
Qed.
End Bind.

Section Binding.
Context (closed : gset Z) (ws : list Writer) (s : State) (Hs : state_ok closed ws s).

Lemma unbound_facts : producer_endpoint_ s = false -> fully_bound_ s = false /\ was_always_bound_ s = false /\ all_writers_have_drop_policy_ s = true.
Proof.
  intros He. assert (Hf : fully_bound_ s = false) by (rewrite (so_fully _ _ _ Hs), He; done). pose proof (so_drop _ _ _ Hs) as Hd. rewrite Hf in Hd.
  split; [done|]. split; [|done]. destruct (was_always_bound_ s) eqn:E; [|done]. apply (so_always _ _ _ Hs) in E. congruence.
Qed.

Lemma bind_endpoint_locked i : i = 0%nat -> producer_endpoint_ s = false ->
  exists s' acts, BindToProducerEndpoint s = Ok (s', acts) /\ Locked i [] closed closed [] [] s s' acts ws.
Proof.
  intros Hi He. destruct (unbound_facts He) as (Hf & Hw & Hd). assert (Hr := He). rewrite <- (so_runner _ _ _ Hs) in Hr.
  unfold BindToProducerEndpoint. rewrite Hf, He, Hr. cbn [negb andb perfetto_check obind].
  replace (forallb _ _) with true.
  2:{ symmetry. apply forallb_forall. intros [id t] Hin. apply list_elem_of_In in Hin. cbn [set_bound pending_writers_] in Hin. apply elem_of_map_to_list in Hin.
      by destruct (so_pending _ _ _ Hs id t Hin) as (_ & Hx & _). }
  cbn [perfetto_check obind]. set (s0 := set_bound true true false _ _ s). pose proof (bind_locked closed closed ws s s0 ltac:(done) i [] []) as Hb.
  destruct (flush_if_bound s0) as [s' acts]. eexists _, _. split; [reflexivity|]. apply Hb; try done; [|intros k Hk; by left].
  split; try done; [|by apply extends_same].
  intros fully Hfu. change (fully = all_resolved s) in Hfu. destruct Hs.
  assert (Hres : forall t r, target_buffer_reservations_ s !! t = Some r ->
    (exists k, 0 < k < 65536 /\ t = k * 65536 /\ (resolved r = true -> k ∈ closed)) /\ buffer_ok (target_buffer r) /\ (target_buffer r <> 0 -> true = true)).
  { intros t r H. by destruct (so_reservations0 t r H) as (H1 & H2 & _). }
  destruct fully; (split; try done); try exact Hfu; try exact Hd; try exact Hres.
  intros H. change (was_always_bound_ s && false = true) in H. by rewrite andb_false_r in H.
Qed.

Section Reserved.
Context (k b : Z) (closed' : gset Z) (Hk : 0 < k < 65536) (Hb : buffer_ok b) (Hep : b <> 0 -> producer_endpoint_ s = true).
Context (Hu : unresolved s k) (Hsub : closed ⊆ closed') (Hin : k ∈ closed').
Let t := k * 65536.
Definition bound_state : State :=
  set_pending (filter (fun e => e.2 <> t) (pending_writers_ s)) (pending_flush_callbacks_ s) (<[t := mkReservation true b]> (target_buffer_reservations_ s)) s.

Lemma bound_extends : extends s bound_state.
Proof.
  intros t' r H. cbn. destruct (decide (t = t')) as [<-|Hne].
  - rewrite lookup_insert_eq. eexists. split; [reflexivity|]. rewrite (Hu r H). done.
  - rewrite lookup_insert_ne by done. by exists r.
Qed.
Lemma bound_unresolved k' : unresolved s k' -> k' <> k -> unresolved bound_state k'.
Proof. intros H Hne r. cbn. rewrite lookup_insert_ne by (unfold t; lia). apply H. Qed.
Lemma bound_resolved : all_resolved s = true -> all_resolved bound_state = true.
Proof.
  rewrite !all_resolved_spec. intros H t' r. cbn. destruct (decide (t = t')) as [<-|Hne]; [rewrite lookup_insert_eq; by intros [= <-]|].
  rewrite lookup_insert_ne by done. apply H.
Qed.
Lemma bound_almost : almost_bound closed' ws s bound_state.
Proof.
  split; try done; [|intros He; by destruct (unbound_facts He) as (? & ? & _)|exact bound_extends].
  intros fully Hfu. set (s' := set_bound _ _ _ _ _ _).
  assert (He' : extends s s') by (intros t' r H; destruct (bound_extends t' r H) as (r' & H' & Hx); exists r'; split; [unfold s'; by destruct fully|done]).
  assert (Er : target_buffer_reservations_ s' = target_buffer_reservations_ bound_state) by (unfold s'; by destruct fully).
  assert (Eep : producer_endpoint_ s' = producer_endpoint_ s) by done.
  assert (Emp : pending_req_ s' = pending_req_ s) by (unfold s'; by destruct fully).
  pose proof (so_drop _ _ _ Hs) as Hdrop. pose proof (so_fully _ _ _ Hs) as Hf. destruct Hs. split.
  - exact so_runner0.
  - unfold s' at 1. cbn [set_bound fully_bound_]. rewrite Hfu. f_equal. unfold all_resolved. by rewrite Er.
  - unfold s'. cbn. by intros [_ H]%andb_true_iff.
  - change (fully || all_writers_have_drop_policy_ s = true). destruct fully; [done|]. cbn [orb].
    assert (Hf0 : fully_bound_ s = false); [|by rewrite Hf0 in Hdrop].
    rewrite Hf. destruct (producer_endpoint_ s) eqn:E; [|done]. cbn [andb]. destruct (all_resolved s) eqn:Ea; [|done]. pose proof (bound_resolved Ea) as Hx.
    rewrite Hx in Hfu. change (false = producer_endpoint_ s && true) in Hfu. by rewrite E in Hfu.
  - unfold s'. by destruct fully.
  - intros id t' H. assert (H' : filter (fun e => e.2 <> t) (pending_writers_ s) !! id = Some t') by (unfold s' in H; by destruct fully).
    apply map_lookup_filter_Some in H' as [H1 H2]. destruct (so_pending0 id t' H1) as (H3 & H4 & r & H5 & H6). split; [done|]. split; [done|].
    exists r. rewrite Er. cbn. rewrite lookup_insert_ne by (cbn in H2; congruence). done.
  - intros t' r H. rewrite Er in H. cbn in H. rewrite Eep. destruct (decide (t = t')) as [<-|Hne].
    + rewrite lookup_insert_eq in H. injection H as <-. cbn. split; [by exists k|]. done.
    + rewrite lookup_insert_ne in H by done. destruct (so_reservations0 t' r H) as ((k' & H1 & H2 & H3) & H4 & H5). split; [|done].
      exists k'. split; [done|]. split; [done|]. intros Hx. set_solver.
  - unfold moved. rewrite Emp. eapply Forall_impl; [exact so_moved0|]. intros m. by apply extends_valid.
  - unfold to_patch. rewrite Emp. eapply Forall_impl; [exact so_patches0|]. intros m. by apply extends_valid.
  - eapply Forall_impl; [exact so_writers0|]. intros m. by apply extends_valid.
  - unfold s'. by destruct fully.
  - unfold s'. by destruct fully.
  - done.
Qed.
End Reserved.

Lemma writers_of_typed k b : 0 < b < 65536 ->
  Forall (fun c => exists id b, c = RegisterTraceWriter id b /\ call_typed c) (map (fun id => RegisterTraceWriter id b) (writers_of k (pending_writers_ s))).
Proof.
  intros Hb. apply Forall_map, Forall_forall. intros id Hin. eexists _, _. split; [reflexivity|]. split; [|done].
  unfold writers_of in Hin. apply list_elem_of_fmap in Hin as ((id' & t) & -> & Hin). rewrite merge_sort_Permutation in Hin.
  apply list_elem_of_filter in Hin as [_ Hin]. apply elem_of_map_to_list in Hin. apply (so_pending _ _ _ Hs id' t Hin).
Qed.
Lemma bind_startup_locked i used k b closed' : 0 < k < 65536 -> buffer_ok b -> (b <> 0 -> producer_endpoint_ s = true /\ i = 0%nat) ->
  unresolved s k -> closed ⊆ closed' -> k ∈ closed' -> callbacks_in used = [] -> existsb is_delayed used = false -> (k ∈ aborts_in used) \/ (k ∉ closed) ->
  exists s' acts, BindStartupTargetBufferImpl k b s = Ok (s', acts) /\ Locked i used closed closed' [] [] s s' acts ws.
Proof.
  intros Hk Hb Hep Hu Hsub Hin Hu1 Hu2 Hfresh. unfold BindStartupTargetBufferImpl. rewrite Make_spec by done. cbn [obind].
  assert (Hr : resolved (default Reservation_new (target_buffer_reservations_ s !! (k * 65536))) = false).
  { destruct (target_buffer_reservations_ s !! (k * 65536)) as [r|] eqn:E; [by apply Hu|done]. }
  rewrite Hr. cbn [negb perfetto_check obind]. change (set_pending _ _ _ s) with (bound_state k b).
  set (ids := if b =? kInvalidBufferId then [] else _).
  assert (Ha : almost_bound closed' ws s (bound_state k b)) by (apply bound_almost; try done; intros H; by apply Hep).
  assert (Hids : Forall (fun c => exists id b, c = RegisterTraceWriter id b /\ call_typed c) (map (fun id => RegisterTraceWriter id b) ids) /\
                 (map (fun id => RegisterTraceWriter id b) ids <> [] -> i = 0%nat)).
  { unfold ids, kInvalidBufferId. destruct (Z.eqb_spec b 0) as [->|Hne]; [by split|]. split; [apply writers_of_typed; unfold buffer_ok in Hb; lia|]. intros _. by apply Hep. }
  pose proof (bind_locked closed closed' ws s (bound_state k b) Hsub i used (map (fun id => RegisterTraceWriter id b) ids) Ha Hu1 Hu2) as Hl.
  destruct (flush_if_bound (bound_state k b)) as [s' acts]. eexists _, _. split; [reflexivity|].
  replace (map (fun id => Invoke (RegisterTraceWriter id b)) ids) with (map Invoke (map (fun id => RegisterTraceWriter id b) ids)) by apply map_map.
  apply Hl; [|apply Hids..]. intros k' Hk'. destruct (decide (k' = k)) as [->|Hne]; [by right|]. left. by apply bound_unresolved.
Qed.

Lemma state_ok_closed closed' : closed ⊆ closed' -> state_ok closed' ws s.
Proof. intros Hsub. destruct Hs. split; try done. intros t r H. destruct (so_reservations0 t r H) as ((k & H1 & H2 & H3) & H4). split; [|done]. exists k. set_solver. Qed.
Lemma abort_locked i k : 0 < k < 65536 -> k ∉ closed -> unresolved s k ->
  exists s' acts, AbortStartupTracingForReservation (bool_decide (i = 0%nat)) k s = Ok (s', acts) /\ Locked i [] closed ({[k]} ∪ closed) [] [] s s' acts ws.
Proof.
  intros Hk Hc Hu. unfold AbortStartupTracingForReservation. destruct (task_runner_ s && _) eqn:E.
  - eexists _, _. split; [reflexivity|]. assert (Hsub : closed ⊆ {[k]} ∪ closed) by set_solver. split; try done.
    + by apply state_ok_closed.
    + apply extends_refl.
    + intros k' Hk'. by left.
    + by rewrite app_nil_r.
    + right. exists k. split; [done|]. split; [done|]. split; [set_solver|done].
    + intros H. by right.
    + intros H H'. right. split; [done|]. split; [done|by left].
    + by constructor.
  - apply bind_startup_locked; try done; [set_solver|set_solver|by right].
Qed.
End Binding.

(** ** Every operation and every task *)

Lemma not_closed_unresolved closed ws s k : state_ok closed ws s -> k ∉ closed -> unresolved s k.
Proof.
  intros Hs Hk r Hr. destruct (so_reservations _ _ _ Hs _ r Hr) as ((k' & _ & He & Hc) & _). destruct (resolved r); [|done]. assert (k' = k) as -> by lia.
  by destruct Hk; apply Hc.
Qed.

Definition op_closes (op : Op) (closed : gset Z) : gset Z := match op with BindStartup k _ | Abort k => {[k]} ∪ closed | _ => closed end.
Definition op_callback (op : Op) : Callback := match op with FlushOp cb => cb | _ => [] end.
Definition op_chunks (op : Op) (ws : list Writer) : list (Z * Z * Z) :=
  match op with ReturnChunk i c _ => match ws !! i with Some w => [(key_of c, w_target w)] | None => [] end | _ => [] end.

Section Op.
Context (closed : gset Z) (ws : list Writer) (s : State) (Hs : state_ok closed ws s).

Lemma nothing_locked i : Locked i [] closed closed [] [] s s [] ws.
Proof. apply locked_quiet; try done. apply extends_refl. Qed.
Lemma op_locked i op : op_rules i op closed ws s ->
  exists s' acts ws', run_op i op ws s = Ok (s', acts, ws') /\ Locked i [] closed (op_closes op closed) (op_callback op) (op_chunks op ws) s s' acts ws'.
Proof.
  destruct op as [t p|k|n c pl|n pl|cb|req_id|n| |k b|k|ms| | |]; cbn [op_rules op_closes op_callback op_chunks run_op].
  - intros (H1 & H2 & H3). destruct (create_writer_locked closed ws s Hs i t p H1 H2 H3) as (o & s' & acts & -> & Hl). by eexists _, _, _.
  - intros (H1 & H2). destruct (create_startup_locked closed ws s Hs i k H1 H2) as (o & s' & acts & -> & Hl). by eexists _, _, _.
  - intros Hr. destruct (ws !! n) as [w|] eqn:E; cbn [run_writer_op obind]; [|eexists _, _, _; split; [reflexivity|apply nothing_locked]].
    pose proof (so_writers _ _ _ Hs) as Hw. rewrite Forall_forall in Hw.
    destruct (update_locked closed ws s Hs i (Some c) (w_id w) (w_target w) pl) as (pl' & s' & acts & -> & Hl); [by eapply Hw, list_elem_of_lookup_2| |by eexists _, _, _].
    intros p m Hp Hm Hpat. apply elem_of_app in Hm as [Hm|Hm%list_elem_of_singleton]; (apply (Hr w eq_refl p m); [done|apply elem_of_app|done]); [by left|right; subst; by apply list_elem_of_singleton].
  - intros Hr. destruct (ws !! n) as [w|] eqn:E; cbn [run_writer_op obind]; [|eexists _, _, _; split; [reflexivity|apply nothing_locked]].
    pose proof (so_writers _ _ _ Hs) as Hw. rewrite Forall_forall in Hw.
    destruct (update_locked closed ws s Hs i None (w_id w) (w_target w) pl) as (pl' & s' & acts & -> & Hl); [by eapply Hw, list_elem_of_lookup_2| |by eexists _, _, _].
    rewrite app_nil_r. by apply Hr.
  - intros _. destruct (flush_locked closed ws s Hs i [] cb cb eq_refl eq_refl) as (s' & acts & -> & Hl). by eexists _, _, _.
  - intros _. pose proof (notify_locked closed ws s Hs i req_id) as Hl. destruct (NotifyFlushComplete req_id s) as [s' acts]. by eexists _, _, _.
  - intros _. destruct (ws !! n) as [w|] eqn:E; [|eexists _, _, _; split; [reflexivity|apply nothing_locked]].
    pose proof (release_locked closed ws s Hs n w E i) as Hl. destruct (ReleaseWriterID (w_id w) s) as [s' acts]. by eexists _, _, _.
  - intros [Hi He]. destruct (bind_endpoint_locked closed ws s Hs i Hi He) as (s' & acts & -> & Hl). by eexists _, _, _.
  - intros (Hi & He & Hk & Hb & Hc). unfold BindStartupTargetBuffer. rewrite (so_runner _ _ _ Hs), He, bool_decide_eq_true_2 by done. cbn [perfetto_check obind].
    destruct (bind_startup_locked closed ws s Hs i [] k b ({[k]} ∪ closed)) as (s' & acts & -> & Hl); try done; [unfold buffer_ok; lia|by eapply not_closed_unresolved|set_solver|set_solver|by right|].
    by eexists _, _, _.
  - intros (Hk & Hc). destruct (abort_locked closed ws s Hs i k Hk Hc) as (s' & acts & -> & Hl); [by eapply not_closed_unresolved|]. by eexists _, _, _.
  - intros _. eexists _, _, _. split; [reflexivity|]. by apply options_locked.
  - intros _. eexists _, _, _. split; [reflexivity|]. by apply options_locked.
  - intros _. eexists _, _, _. split; [reflexivity|]. unfold EnableDirectSMBPatching. destruct (negb _); cbn [snd]; [apply nothing_locked|by apply options_locked].
  - intros _. eexists _, _, _. split; [reflexivity|]. by apply options_locked.
Qed.

Lemma task_locked t d : act_typed (PostTask t d) -> (forall k, t = AbortTask k -> unresolved s k /\ k ∈ closed) ->
  exists s' acts, run_task t s = Ok (s', acts) /\ Locked 0 [PostTask t d] closed closed [] [] s s' acts ws.
Proof.
  intros Ht Ha. assert (Hq : forall a, chunks_in [a] = [] -> callbacks_in [a] = callbacks_in [PostTask t d] -> aborts_in [a] = [] -> act_typed a -> shape 0 [a] ->
      existsb is_delayed [PostTask t d] = false -> (existsb is_flush [PostTask t d] = true -> is_flush a = true) -> Locked 0 [PostTask t d] closed closed [] [] s s [a] ws).
  { intros a H1 H2 H3 H4 H5 H6 H7. split; try done; [apply extends_refl|intros k Hk; by left|by rewrite H1, app_nil_r|by rewrite H2, app_nil_r|by left|intros H; right; by split| |by constructor].
    intros H H'. destruct (existsb is_flush [PostTask t d]) eqn:E; [left; cbn; by rewrite H7|]. right. split; [done|]. split; [done|by left]. }
  destruct t as [|cb|id b|id|k]; cbn [run_task].
  - eexists _, _. split; [reflexivity|]. split; try done.
    + apply state_ok_commit; [done| |]; apply Hs.
    + by apply extends_same.
    + intros k Hk. by left.
    + by rewrite app_nil_r.
    + by left.
    + by left.
    + by constructor.
  - eexists _, _. split; [reflexivity|]. by apply Hq.
  - eexists _, _. split; [reflexivity|]. by apply Hq.
  - eexists _, _. split; [reflexivity|]. by apply Hq.
  - destruct (Ha k eq_refl) as [Hu Hc]. unfold AbortStartupTracingForReservation. rewrite andb_false_r.
    apply bind_startup_locked; try done. left. cbn. by apply list_elem_of_singleton.
Qed.
End Op.
