(* ===== verification/ArbiterBindingSession.v ===== *)
(** * Startup tracing: what the endpoint of an arbiter receives

    Sessions of clients on any number of threads, with an arbiter that is bound late or whose
    startup writers wait for their buffers: every chunk reaches the endpoint once, in the
    order in which chunks were returned, in its buffer; every flush callback is run once. *)

From S2P Require Import Prelude ProtoUtils TraceBuffer SharedMemoryArbiter IdAllocator ArbiterBinding ArbiterBindingState.

(** ** Sessions *)

(** What the clients did so far: the reservations that were bound or aborted, the chunks
    returned, the callbacks of flushes. *)
Record Trace := mkTrace { tr_closed : gset Z; tr_returned : list (Z * Z * Z); tr_flushes : Callback }.
Definition Trace_new : Trace := mkTrace ∅ [] [].
Definition started (ev : Event) (w : World) : option (nat * Op) :=
  match ev with
  | Start i op => match threads_ w !! i with Some [] => Some (i, op) | _ => None end
  | _ => None
  end.
Definition note (ev : Event) (w : World) (tr : Trace) : Trace :=
  match started ev w with
  | Some (_, op) => mkTrace (op_closes op (tr_closed tr)) (tr_returned tr ++ op_chunks op (writers_ w)) (tr_flushes tr ++ op_callback op)
  | None => tr
  end.
Definition rules (ev : Event) (w : World) (tr : Trace) : Prop :=
  match started ev w with Some (i, op) => op_rules i op (tr_closed tr) (writers_ w) (arbiter_ w) | None => True end.
Inductive session (w0 : World) : Trace -> World -> Prop :=
| session_start : session w0 Trace_new w0
| session_step tr w ev w' : session w0 tr w -> rules ev w tr -> exec ev w = Ok w' -> session w0 (note ev w tr) w'.

(** The actions that are left, those of posted tasks included. *)
Definition work (w : World) : list Action := map (fun t => PostTask t 0) (tasks_ w) ++ concat (threads_ w).
Definition committed (w : World) : list (Z * Z * Z) := concat (map call_chunks (received_ w)).
Definition handed_over (w : World) : Callback := concat (map call_callback (received_ w)).
Definition in_flight (w : World) : list (Z * Z * Z) := chunks_in (default [] (threads_ w !! 0%nat)).
Definition held (w : World) : list (Z * Z * Z) := map chunk_key (moved (arbiter_ w)).

Record world_ok (tr : Trace) (w : World) : Prop := {
  wo_state : state_ok (tr_closed tr) (writers_ w) (arbiter_ w);
  wo_shape : forall i acts, threads_ w !! i = Some acts -> shape i acts;
  wo_typed : Forall act_typed (work w);
  wo_received : Forall call_typed (received_ w);
  wo_chunks : map (final (arbiter_ w)) (tr_returned tr) = committed w ++ in_flight w ++ map (final (arbiter_ w)) (held w);
  wo_callbacks : tr_flushes tr ≡ₚ concat (pending_flush_callbacks_ (arbiter_ w)) ++ callbacks_in (work w) ++ handed_over w;
  wo_aborts : NoDup (aborts_in (work w));
  wo_pending_aborts : Forall (fun k => (k ∈ tr_closed tr) /\ unresolved (arbiter_ w) k) (aborts_in (work w));
  wo_delayed : flush_scheduled_ (arbiter_ w) = true -> existsb is_delayed (work w) = true;
  wo_flush : fully_bound_ (arbiter_ w) = true -> pending_req_ (arbiter_ w) <> None -> existsb is_flush (work w) = true
}.

(** ** Lemmas *)

Lemma threads_split (l : list (list Action)) i old : l !! i = Some old ->
  exists rest, concat l ≡ₚ old ++ rest /\ forall new, concat (<[i := new]> l) ≡ₚ new ++ rest.
Proof.
  revert i. induction l as [|x l IH]; intros [|i] H; [done..| |].
  - injection H as ->. exists (concat l). by split.
  - destruct (IH i H) as (rest & H1 & H2). exists (x ++ rest). cbn. split; [rewrite H1; by rewrite !app_assoc, (Permutation_app_comm x)|].
    intros new. rewrite H2. by rewrite !app_assoc, (Permutation_app_comm x).
Qed.
Lemma concat_map_perm {A B} (f : A -> list B) l l' : l ≡ₚ l' -> concat (map f l) ≡ₚ concat (map f l').
Proof. intros H. rewrite <- !flat_map_concat_map. by apply Permutation_flat_map. Qed.
Lemma existsb_perm {A} (f : A -> bool) l l' : l ≡ₚ l' -> existsb f l = existsb f l'.
Proof.
  intros H. apply eq_true_iff_eq. rewrite !existsb_exists. split; intros (x & Hx & Hf); exists x; (split; [|done]);
    apply list_elem_of_In; apply list_elem_of_In in Hx; [by rewrite <- H|by rewrite H].
Qed.
Lemma callbacks_in_app l l' : callbacks_in (l ++ l') = callbacks_in l ++ callbacks_in l'.
Proof. unfold callbacks_in. by rewrite map_app, concat_app. Qed.
Lemma aborts_in_app l l' : aborts_in (l ++ l') = aborts_in l ++ aborts_in l'.
Proof. unfold aborts_in. by rewrite map_app, concat_app. Qed.
Lemma chunks_in_typed l : Forall act_typed l -> Forall (fun k => buffer_ok k.2) (chunks_in l).
Proof.
  intros H. unfold chunks_in. rewrite Forall_concat, Forall_map. eapply Forall_impl; [exact H|]. intros a Ha.
  destruct a as [| |c]; cbn; [done..|]. destruct c; cbn; [|done..]. apply Forall_map. by destruct Ha as [Ha _].
Qed.
Lemma call_chunks_typed l : Forall call_typed l -> Forall (fun k => buffer_ok k.2) (concat (map call_chunks l)).
Proof. intros H. rewrite Forall_concat, Forall_map. eapply Forall_impl; [exact H|]. intros [r cb| |] Hc; cbn; [|done..]. apply Forall_map. by destruct Hc as [Hc _]. Qed.
Lemma shape_chunks i l : shape i l -> i <> 0%nat -> chunks_in l = [].
Proof.
  intros H Hi. induction l as [|a l IH]; [done|]. destruct a as [t d|cb|[r cb|id b|id]]; cbn in H; try (by destruct H).
  - unfold chunks_in in *. cbn. auto.
  - by subst l.
Qed.
Lemma resolve_buffer s t : buffer_ok t -> resolve s t = t.
Proof. intros H. unfold resolve. by rewrite IsReservation_buffer. Qed.
Lemma map_final_typed s l : Forall (fun k => buffer_ok k.2) l -> map (final s) l = l.
Proof. intros H. induction H as [|[k t] l Hk H IH]; [done|]. cbn. rewrite IH. f_equal. unfold final. cbn. by rewrite resolve_buffer. Qed.
Lemma final_final closed ws s s' k : state_ok closed ws s -> extends s s' -> final s' (final s k) = final s' k.
Proof.
  intros Hs He. unfold final. cbn. f_equal. destruct k as [k t]. cbn. unfold resolve at 2. destruct (IsReservationTargetBufferId t) eqn:E; [|done].
  destruct (target_buffer_reservations_ s !! t) as [r|] eqn:Er; [|done]. destruct (resolved r) eqn:Eres; [|done].
  destruct (so_reservations _ _ _ Hs t r Er) as (_ & Hb & _). rewrite resolve_buffer by done. destruct (He t r Er) as (r' & Hr' & Hx). rewrite (Hx Eres) in Hr'.
  unfold resolve. by rewrite E, Hr', Eres.
Qed.
Lemma map_final_final closed ws s s' l : state_ok closed ws s -> extends s s' -> map (final s') (map (final s) l) = map (final s') l.
Proof. intros Hs He. rewrite map_map. apply map_ext. intros k. by eapply final_final. Qed.

(** ** Critical sections keep the invariant *)

Lemma world_locked tr w w' i old used rest closed' cb added acts :
  world_ok tr w -> Locked i used (tr_closed tr) closed' cb added (arbiter_ w) (arbiter_ w') acts (writers_ w') ->
  threads_ w !! i = Some old -> chunks_in old = [] -> threads_ w' = <[i := acts]> (threads_ w) -> received_ w' = received_ w ->
  work w ≡ₚ used ++ rest -> work w' ≡ₚ acts ++ rest ->
  world_ok (mkTrace closed' (tr_returned tr ++ added) (tr_flushes tr ++ cb)) w'.
Proof.
  intros [Hst Hsh Hty Hre Hch Hcb Hab Hpa Hde Hfl] Hl Hi Hold Hth Hrec Hw Hw'. rewrite Hw, Forall_app in Hty. destruct Hty as [_ Hty].
  assert (Hcw := concat_map_perm act_callback _ _ Hw). assert (Hcw' := concat_map_perm act_callback _ _ Hw'). fold (callbacks_in (work w)) in Hcw. fold (callbacks_in (work w')) in Hcw'.
  assert (Haw := concat_map_perm act_aborts _ _ Hw). assert (Haw' := concat_map_perm act_aborts _ _ Hw'). fold (aborts_in (work w)) in Haw. fold (aborts_in (work w')) in Haw'.
  fold (callbacks_in (used ++ rest)) in Hcw. fold (callbacks_in (acts ++ rest)) in Hcw'. fold (aborts_in (used ++ rest)) in Haw. fold (aborts_in (acts ++ rest)) in Haw'.
  rewrite callbacks_in_app in Hcw, Hcw'. rewrite aborts_in_app in Haw, Haw'. rewrite Haw in Hab, Hpa. apply NoDup_app in Hab as (Ha1 & Ha2 & Ha3).
  apply Forall_app in Hpa as [_ Hpa]. pose proof (lk_extends _ _ _ _ _ _ _ _ _ _ Hl) as He.
  assert (Hpa' : Forall (fun k => (k ∈ closed') /\ unresolved (arbiter_ w') k) (aborts_in rest)).
  { apply Forall_forall. intros k Hk. rewrite Forall_forall in Hpa. destruct (Hpa k Hk) as [H1 H2]. split; [by apply (lk_closed _ _ _ _ _ _ _ _ _ _ Hl)|].
    destruct (lk_resolved _ _ _ _ _ _ _ _ _ _ Hl k H2) as [H|[H|H]]; [done| |done]. by destruct (Ha2 k H). }
  split; cbn [tr_closed tr_returned tr_flushes].
  - apply Hl.
  - intros j acts'. rewrite Hth. destruct (decide (j = i)) as [->|Hne].
    + rewrite list_lookup_insert_eq by (by eapply lookup_lt_Some). intros [= <-]. apply Hl.
    + rewrite list_lookup_insert_ne by done. apply Hsh.
  - rewrite Hw'. apply Forall_app. split; [apply Hl|done].
  - by rewrite Hrec.
  - rewrite map_app. rewrite <- (map_final_final _ _ _ _ _ Hst He), Hch. rewrite !map_app, (map_final_final _ _ _ _ _ Hst He).
    assert (E1 : map (final (arbiter_ w')) (committed w) = committed w) by (apply map_final_typed, call_chunks_typed, Hre).
    pose proof (lk_chunks _ _ _ _ _ _ _ _ _ _ Hl) as Hlc. rewrite map_app in Hlc.
    rewrite E1, <- !app_assoc. unfold held. fold (held w). unfold held in Hlc |- *. rewrite Hlc. unfold committed at 1 2. rewrite Hrec. f_equal.
    rewrite app_assoc. f_equal. unfold in_flight. rewrite Hth. destruct (decide (i = 0%nat)) as [->|Hne].
    + rewrite Hi, list_lookup_insert_eq by (by eapply lookup_lt_Some). cbn [default]. unfold id. by rewrite Hold.
    + rewrite list_lookup_insert_ne by done. rewrite (shape_chunks i acts) by (apply Hl || done). rewrite app_nil_r. apply map_final_typed, chunks_in_typed.
      destruct (threads_ w !! 0%nat) as [l0|] eqn:E0; [|done]. cbn [default]. unfold id.
      assert (Hin : Forall act_typed (work w')) by (rewrite Hw'; apply Forall_app; split; [apply Hl|done]). unfold work in Hin. apply Forall_app in Hin as [_ Hin].
      apply Forall_concat in Hin. rewrite Forall_forall in Hin. apply Hin. apply (list_elem_of_lookup_2 _ 0%nat). rewrite Hth. by rewrite list_lookup_insert_ne.
  - rewrite Hcb, Hcw, Hcw'. unfold handed_over. rewrite Hrec. pose proof (lk_callbacks _ _ _ _ _ _ _ _ _ _ Hl) as Hlk.
    transitivity ((concat (pending_flush_callbacks_ (arbiter_ w)) ++ callbacks_in used ++ cb) ++ callbacks_in rest ++ concat (map call_callback (received_ w))); [solve_Permutation|].
    rewrite Hlk. solve_Permutation.
  - rewrite Haw'. destruct (lk_aborts _ _ _ _ _ _ _ _ _ _ Hl) as [->|(k & -> & Hk1 & Hk2 & Hk3)]; [done|]. cbn. apply NoDup_cons. split; [|done].
    intros Hk. rewrite Forall_forall in Hpa. by destruct (Hpa k Hk).
  - rewrite Haw'. apply Forall_app. split; [|done]. destruct (lk_aborts _ _ _ _ _ _ _ _ _ _ Hl) as [->|(k & -> & Hk1 & Hk2 & Hk3)]; [done|]. by constructor.
  - intros H. rewrite (existsb_perm _ _ _ Hw'), existsb_app. destruct (lk_delayed _ _ _ _ _ _ _ _ _ _ Hl H) as [->|[Hu Hs]]; [done|].
    specialize (Hde Hs). rewrite (existsb_perm _ _ _ Hw), existsb_app, Hu in Hde. cbn in Hde. by rewrite Hde, orb_true_r.
  - intros H H'. rewrite (existsb_perm _ _ _ Hw'), existsb_app. destruct (lk_flush _ _ _ _ _ _ _ _ _ _ Hl H H') as [->|(Hu & Hf & Hp)]; [done|].
    assert (Hx : existsb is_flush (work w) = true).
    { destruct Hp as [Hp|Hp]; [by apply Hfl|]. specialize (Hde Hp). apply existsb_exists in Hde as (a & Ha & Hda). apply existsb_exists. exists a. split; [done|].
      destruct a as [[]| |]; by cbn in *. }
    rewrite (existsb_perm _ _ _ Hw), existsb_app, Hu in Hx. cbn in Hx. by rewrite Hx, orb_true_r.
Qed.

(** Doing one action moves it to the tasks or to the endpoint. *)
Lemma world_moves tr w w' a b rest : world_ok tr w -> work w ≡ₚ a :: rest -> work w' ≡ₚ b ++ rest ->
  arbiter_ w' = arbiter_ w -> writers_ w' = writers_ w -> (forall i acts, threads_ w' !! i = Some acts -> shape i acts) ->
  callbacks_in [a] ++ handed_over w ≡ₚ callbacks_in b ++ handed_over w' -> aborts_in b = aborts_in [a] ->
  existsb is_delayed b = is_delayed a -> existsb is_flush b = is_flush a -> (act_typed a -> Forall act_typed b) -> Forall call_typed (received_ w') ->
  committed w' ++ in_flight w' = committed w ++ in_flight w -> world_ok tr w'.
Proof.
  intros [Hst Hsh Hty Hre Hch Hcb Hab Hpa Hde Hfl] Hw Hw' Ea Ew Hsh' E1 E2 E3 E4 E5 E6 E7.
  assert (Hcw := concat_map_perm act_callback _ _ Hw). assert (Hcw' := concat_map_perm act_callback _ _ Hw').
  change (callbacks_in (work w) ≡ₚ callbacks_in ([a] ++ rest)) in Hcw. change (callbacks_in (work w') ≡ₚ callbacks_in (b ++ rest)) in Hcw'. rewrite callbacks_in_app in Hcw, Hcw'.
  assert (Haw : aborts_in (work w') ≡ₚ aborts_in (work w)).
  { transitivity (aborts_in (b ++ rest)); [by apply concat_map_perm|]. transitivity (aborts_in ([a] ++ rest)); [by rewrite !aborts_in_app, E2|]. symmetry. by apply concat_map_perm. }
  unfold held. split; rewrite ?Ea, ?Ew; try done.
  - rewrite Hw in Hty. apply Forall_cons in Hty as [H1 H2]. rewrite Hw'. apply Forall_app. split; [by apply E5|done].
  - unfold held. rewrite Ea, Hch, !app_assoc, E7. done.
  - rewrite Hcb, Hcw, Hcw'. transitivity (concat (pending_flush_callbacks_ (arbiter_ w)) ++ (callbacks_in [a] ++ handed_over w) ++ callbacks_in rest); [solve_Permutation|]. rewrite E1. solve_Permutation.
  - by rewrite Haw.
  - by rewrite Haw.
  - intros H. specialize (Hde H). rewrite (existsb_perm _ _ _ Hw) in Hde. rewrite (existsb_perm _ _ _ Hw'), existsb_app, E3. exact Hde.
  - intros H H'. specialize (Hfl H H'). rewrite (existsb_perm _ _ _ Hw) in Hfl. rewrite (existsb_perm _ _ _ Hw'), existsb_app, E4. exact Hfl.
Qed.

Lemma work_split w i old : threads_ w !! i = Some old ->
  exists rest, work w ≡ₚ old ++ rest /\ forall w' acts, threads_ w' = <[i := acts]> (threads_ w) -> tasks_ w' = tasks_ w -> work w' ≡ₚ acts ++ rest.
Proof.
  intros H. destruct (threads_split _ _ _ H) as (r & H1 & H2). exists (map (fun t => PostTask t 0) (tasks_ w) ++ r). unfold work. split; [rewrite H1; solve_Permutation|].
  intros w' acts E1 E2. rewrite E1, E2, H2. solve_Permutation.
Qed.
Lemma insert_shape (l : list (list Action)) (i : nat) (acts tl : list Action) : (forall (j : nat) a, l !! j = Some a -> shape j a) -> l !! i = Some (acts ++ tl) -> shape i tl -> forall (j : nat) (a : list Action), <[i := tl]> l !! j = Some a -> shape j a.
Proof.
  intros H Hi Ht j a. destruct (decide (j = i)) as [->|Hne].
  - rewrite list_lookup_insert_eq by (by eapply lookup_lt_Some). by intros [= <-].
  - rewrite list_lookup_insert_ne by done. apply H.
Qed.
Lemma in_flight_insert w w' i acts : threads_ w !! i = Some acts -> forall new, threads_ w' = <[i := new]> (threads_ w) ->
  (i = 0%nat /\ in_flight w = chunks_in acts /\ in_flight w' = chunks_in new) \/ (i <> 0%nat /\ in_flight w' = in_flight w).
Proof.
  intros H new E. unfold in_flight. rewrite E. destruct (decide (i = 0%nat)) as [->|Hne]; [left|right; split; [done|by rewrite list_lookup_insert_ne]].
  rewrite H, list_lookup_insert_eq by (by eapply lookup_lt_Some). done.
Qed.

(** Acting. *)
Lemma act_ok tr w i : world_ok tr w -> exists w', exec (Act i) w = Ok w' /\ world_ok tr w'.
Proof.
  intros Hw. cbn [exec]. destruct (threads_ w !! i) as [[|a acts]|] eqn:Ei; [by exists w| |by exists w].
  pose proof (wo_shape _ _ Hw i _ Ei) as Hs. destruct (work_split w i _ Ei) as (rest & Hw1 & Hw2). destruct a as [t d|cb|c].
  - eexists. split; [reflexivity|]. eapply (world_moves tr w _ (PostTask t d) [PostTask t 0] (acts ++ rest) Hw); try done.
    + unfold work. cbn [set_acts tasks_ threads_]. destruct (threads_split _ _ _ Ei) as (r & H1 & H2). rewrite H2, map_app. unfold work in Hw1. rewrite H1 in Hw1.
      cbn [map]. apply (Permutation_cons_inv (a := PostTask t d)). transitivity (PostTask t 0 :: map (fun t => PostTask t 0) (tasks_ w) ++ (PostTask t d :: acts) ++ r); [solve_Permutation|].
      rewrite Hw1. solve_Permutation.
    + eapply (insert_shape _ i [PostTask t d]); [apply (wo_shape _ _ Hw)|exact Ei|exact Hs].
    + cbn. by destruct t.
    + cbn. by destruct t.
    + intros H. by constructor.
    + apply (wo_received _ _ Hw).
    + destruct (in_flight_insert w (set_acts i acts (mkWorld (arbiter_ w) (threads_ w) (tasks_ w ++ [t]) (received_ w) (writers_ w))) i _ Ei acts eq_refl) as [(-> & E1 & E2)|(Hne & E)]; [by rewrite E1, E2|by rewrite E].
  - cbn in Hs. subst acts. destruct (flush_locked _ _ _ (wo_state _ _ Hw) i [Flush cb] [] cb) as (s' & more & E & Hl); [cbn; by rewrite !app_nil_r|done|].
    rewrite E. cbn [obind]. eexists. split; [reflexivity|]. rewrite app_nil_r.
    destruct tr as [cl ret fl]. rewrite <- (app_nil_r ret), <- (app_nil_r fl). match goal with |- world_ok _ ?w1 => set (w' := w1) end. refine (world_locked (mkTrace cl ret fl) w w' i _ _ rest _ _ _ _ Hw Hl Ei _ _ _ Hw1 _); try done. by apply Hw2.
  - assert (Hi : i = 0%nat /\ shape i acts) by (destruct c; cbn in Hs; [destruct Hs as [? ->]|..]; done). destruct Hi as [Hi Hs'].
    eexists. split; [reflexivity|]. eapply (world_moves tr w _ (Invoke c) [] (acts ++ rest) Hw); try done.
    + by apply Hw2.
    + eapply (insert_shape _ i [Invoke c]); [apply (wo_shape _ _ Hw)|exact Ei|exact Hs'].
    + unfold handed_over. cbn [set_acts received_]. rewrite map_app, concat_app. cbn. rewrite !app_nil_r. apply Permutation_app_comm.
    + cbn [set_acts received_]. apply Forall_app. split; [apply (wo_received _ _ Hw)|]. constructor; [|done]. pose proof (wo_typed _ _ Hw) as Ht. rewrite Hw1 in Ht.
      by apply Forall_inv in Ht.
    + set (w' := set_acts _ _ _). destruct (in_flight_insert w w' i _ Ei acts eq_refl) as [(_ & E1 & E2)|(Hne & _)]; [|done]. rewrite E1, E2.
      unfold committed. cbn [w' set_acts received_]. rewrite map_app, concat_app. cbn [map concat]. rewrite app_nil_r, <- app_assoc. done.
Qed.
Lemma run_task_ok tr w k : world_ok tr w -> exists w', exec (RunTask k) w = Ok w' /\ world_ok tr w'.
Proof.
  intros Hw. cbn [exec]. destruct (threads_ w !! 0%nat) as [[|a acts]|] eqn:Ei; [|by exists w..]. destruct (tasks_ w !! k) as [t|] eqn:Et; [|by exists w].
  destruct (work_split w 0 _ Ei) as (rest & Hw1 & _). destruct (threads_split _ _ _ Ei) as (r & H1 & H2).
  assert (Hp : work w ≡ₚ [PostTask t 0] ++ (map (fun t => PostTask t 0) (delete k (tasks_ w)) ++ r)).
  { unfold work. rewrite H1. cbn [app]. rewrite app_comm_cons. apply Permutation_app_tail. change (PostTask t 0 :: map (fun t => PostTask t 0) (delete k (tasks_ w)))
      with (map (fun t => PostTask t 0) (t :: delete k (tasks_ w))). apply Permutation_map, delete_Permutation, Et. }
  destruct (task_locked _ _ _ (wo_state _ _ Hw) t 0) as (s' & acts & E & Hl).
  - pose proof (wo_typed _ _ Hw) as Ht. rewrite Hp in Ht. by apply Forall_inv in Ht.
  - intros k' ->. pose proof (wo_pending_aborts _ _ Hw) as Ha. assert (Hx := concat_map_perm act_aborts _ _ Hp). fold (aborts_in (work w)) in Hx. rewrite Hx in Ha. cbn in Ha.
    apply Forall_inv in Ha. by destruct Ha.
  - rewrite E. cbn [obind]. eexists. split; [reflexivity|]. destruct tr as [cl ret fl]. rewrite <- (app_nil_r ret), <- (app_nil_r fl).
    match goal with |- world_ok _ ?w1 => set (w' := w1) end. refine (world_locked (mkTrace cl ret fl) w w' 0 _ _ _ _ _ _ _ Hw Hl Ei _ _ _ Hp _); try done. unfold work. cbn [w' set_acts threads_ tasks_]. rewrite H2. solve_Permutation.
Qed.
Lemma start_ok tr w i op : world_ok tr w -> rules (Start i op) w tr -> exists w', exec (Start i op) w = Ok w' /\ world_ok (note (Start i op) w tr) w'.
Proof.
  intros Hw. unfold rules, note. cbn [exec started]. destruct (threads_ w !! i) as [[|a acts]|] eqn:Ei; [|intros _; by exists w..]. intros Hr.
  destruct (op_locked _ _ _ (wo_state _ _ Hw) i op Hr) as (s' & acts & ws' & E & Hl). rewrite E. cbn [obind]. eexists. split; [reflexivity|].
  destruct (work_split w i _ Ei) as (rest & Hw1 & Hw2). match goal with |- world_ok _ ?w1 => set (w' := w1) end. refine (world_locked tr w w' i _ _ rest _ _ _ _ Hw Hl Ei _ _ _ Hw1 _); try done. by apply Hw2.
Qed.
Lemma exec_ok tr w ev : world_ok tr w -> rules ev w tr -> exists w', exec ev w = Ok w' /\ world_ok (note ev w tr) w'.
Proof. intros Hw Hr. destruct ev as [i op|i|k]; [by apply start_ok|by apply act_ok|by apply run_task_ok]. Qed.

Lemma world_ok_new bound smb n : world_ok Trace_new (World_new bound smb n).
Proof.
  assert (Hc : concat (replicate n ([] : list Action)) = []) by (induction n; [done|]; cbn; done).
  assert (Hw : work (World_new bound smb n) = []) by exact Hc. split; rewrite ?Hw; try done.
  - split; try done; cbn.
    + by rewrite andb_true_r.
    + by destruct bound.
    + intros id. rewrite taken_new. split; [done|]. by intros H%not_elem_of_nil.
    + constructor.
  - intros i acts [-> _]%lookup_replicate. done.
  - unfold committed, in_flight, held. cbn. by destruct n.
  - constructor.
Qed.
Lemma session_ok bound smb n tr w : session (World_new bound smb n) tr w -> world_ok tr w.
Proof.
  induction 1 as [|tr w ev w' Hs IH Hr He]; [apply world_ok_new|]. destruct (exec_ok tr w ev IH Hr) as (w'' & He' & Hok). congruence.
Qed.

(** ** The work ends

    Each action and each task is worth more than what it leaves. *)

Definition task_weight (t : Task) : nat := match t with DelayedFlush | FlushTask _ | AbortTask _ => 3 | RegisterTask _ _ | UnregisterTask _ => 2 end.
Definition weight (i : nat) (a : Action) : nat :=
  match a with PostTask t _ => S (task_weight t) | Flush _ => if bool_decide (i = 0%nat) then 2 else 5 | Invoke _ => 1 end.
Definition thread_weight (i : nat) (l : list Action) : nat := sum_list (map (weight i) l).
Fixpoint threads_weight (i : nat) (l : list (list Action)) : nat := match l with [] => 0 | acts :: l => thread_weight i acts + threads_weight (S i) l end.
Definition world_weight (w : World) : nat := sum_list (map task_weight (tasks_ w)) + threads_weight 0 (threads_ w).

Definition enabled (ev : Event) (w : World) : Prop :=
  match ev with
  | Start _ _ => False
  | Act i => exists a acts, threads_ w !! i = Some (a :: acts)
  | RunTask k => threads_ w !! 0%nat = Some [] /\ is_Some (tasks_ w !! k)
  end.
(** [n] steps in which the clients do nothing. *)
Inductive unattended : nat -> World -> World -> Prop :=
| unattended_done w : unattended 0 w w
| unattended_step n w ev w1 w2 : enabled ev w -> exec ev w = Ok w1 -> unattended n w1 w2 -> unattended (S n) w w2.
Definition idle (w : World) : Prop := tasks_ w = [] /\ Forall (fun acts => acts = []) (threads_ w).

Lemma threads_weight_insert k (l : list (list Action)) (i : nat) old new : l !! i = Some old ->
  (threads_weight k (<[i := new]> l) + thread_weight (k + i) old = threads_weight k l + thread_weight (k + i) new)%nat.
Proof.
  revert k i. induction l as [|x l IH]; intros k [|i] H; [done..| |].
  - injection H as ->. cbn. rewrite Nat.add_0_r. lia.
  - change (<[S i := new]> (x :: l)) with (x :: <[i := new]> l). cbn [threads_weight]. specialize (IH (S k) i H). replace (k + S i)%nat with (S k + i)%nat by lia. lia.
Qed.
Lemma sum_list_app_nat l l' : sum_list (l ++ l') = (sum_list l + sum_list l')%nat.
Proof. induction l as [|x l IH]; [done|]. cbn. rewrite IH. lia. Qed.
Lemma thread_weight_app i l l' : thread_weight i (l ++ l') = (thread_weight i l + thread_weight i l')%nat.
Proof. unfold thread_weight. by rewrite map_app, sum_list_app_nat. Qed.
Lemma sum_list_delete (f : Task -> nat) (l : list Task) (k : nat) t : l !! k = Some t -> (sum_list (map f (delete k l)) + f t = sum_list (map f l))%nat.
Proof.
  revert k. induction l as [|x l IH]; intros [|k] H; [done..| |].
  - injection H as ->. cbn. lia.
  - change (delete (S k) (x :: l)) with (x :: delete k l). specialize (IH k H). cbn [map]. cbn [sum_list sum_list_with foldr] in *. cbn. lia.
Qed.

Lemma flush_weight i cb s s' acts : FlushPendingCommitDataRequests (bool_decide (i = 0%nat)) cb s = Ok (s', acts) -> (thread_weight i acts < weight i (Flush cb))%nat.
Proof.
  unfold FlushPendingCommitDataRequests. cbn [weight]. destruct (fully_bound_ s); cbn [negb].
  2:{ intros [= _ <-]. case_bool_decide; cbn; lia. }
  case_bool_decide; cbn [negb]; [|intros [= _ <-]; cbn; lia]. destruct (pending_req_ s) as [c|].
  - destruct (ReplaceCommitPlaceholderBufferIdsLocked s c) as [[b c']|]; [|done]. cbn [obind]. intros [= _ <-]. cbn. lia.
  - intros [= _ <-]. case_bool_decide; cbn; lia.
Qed.
Lemma task_acts_weight t s s' acts : run_task t s = Ok (s', acts) -> (thread_weight 0 acts < task_weight t)%nat.
Proof.
  destruct t as [|cb|id b|id|k]; cbn [run_task]; [intros [= _ <-]; by apply Nat.ltb_lt..|]. unfold AbortStartupTracingForReservation. rewrite andb_false_r.
  unfold BindStartupTargetBufferImpl. destruct (MakeTargetBufferIdForReservation k) as [t|]; [|done]. cbn [obind]. destruct (perfetto_check _); [|done]. cbn [obind].
  change (kInvalidBufferId =? kInvalidBufferId) with true. cbn [map app].
  unfold flush_if_bound. destruct (UpdateFullyBoundLocked _) as [[] s1]; intros [= _ <-]; by apply Nat.ltb_lt.
Qed.
Lemma exec_weight w w' ev : enabled ev w -> exec ev w = Ok w' -> (world_weight w' < world_weight w)%nat /\ length (threads_ w') = length (threads_ w).
Proof.
  unfold world_weight. destruct ev as [i op|i|k]; cbn [enabled exec]; [done| |].
  - intros (a & acts & Ei). rewrite Ei.
    assert (Hc : forall new, (threads_weight 0 (<[i := new]> (threads_ w)) + (weight i a + thread_weight i acts) = threads_weight 0 (threads_ w) + thread_weight i new)%nat) by (intros new; exact (threads_weight_insert 0 (threads_ w) i (a :: acts) new Ei)).
    destruct a as [t d|cb|c].
    + intros [= <-]. cbn [set_acts tasks_ threads_]. rewrite length_insert. split; [|done]. specialize (Hc acts). rewrite map_app, sum_list_app_nat. cbn in *. lia.
    + destruct (FlushPendingCommitDataRequests _ _ _) as [[s' more]|] eqn:E; [|done]. cbn [obind]. intros [= <-]. cbn [set_acts with_state tasks_ threads_]. rewrite length_insert.
      split; [|done]. apply flush_weight in E. specialize (Hc (more ++ acts)). rewrite thread_weight_app in Hc. lia.
    + intros [= <-]. cbn [set_acts tasks_ threads_]. rewrite length_insert. split; [|done]. specialize (Hc acts). cbn in *. lia.
  - intros [E0 [t Et]]. rewrite E0, Et. destruct (run_task t (arbiter_ w)) as [[s' acts]|] eqn:E; [|done]. cbn [obind]. intros [= <-]. cbn [set_acts tasks_ threads_].
    rewrite length_insert. split; [|done]. apply task_acts_weight in E. pose proof (threads_weight_insert 0 _ 0 [] acts E0) as Hc. cbn [Nat.add] in Hc.
    pose proof (sum_list_delete task_weight _ _ _ Et). cbn in Hc. lia.
Qed.
Lemma not_idle w : (0 < length (threads_ w))%nat -> idle w \/ exists ev, enabled ev w.
Proof.
  intros Hn. destruct (decide (Forall (fun acts => acts = []) (threads_ w))) as [Hall|Hex].
  - destruct (tasks_ w) as [|t ts] eqn:Et; [by left|right]. exists (RunTask 0). split; [|rewrite Et; by eexists].
    destruct (threads_ w) as [|acts l]; [cbn in Hn; lia|]. apply Forall_inv in Hall. by subst.
  - right. apply not_Forall_Exists in Hex; [|intros x; apply _]. apply Exists_exists in Hex as (acts & Hin & Hne). apply list_elem_of_lookup in Hin as [i Hi].
    exists (Act i). destruct acts as [|a acts]; [by destruct Hne|]. by exists a, acts.
Qed.
Lemma unattended_ok tr n w w' : unattended n w w' -> world_ok tr w -> world_ok tr w' /\ (n + world_weight w' <= world_weight w)%nat /\ length (threads_ w') = length (threads_ w).
Proof.
  induction 1 as [w|n w ev w1 w2 Hen He Hun IH]; intros Hw; [split; [done|lia]|].
  assert (Hr : rules ev w tr) by (by destruct ev). destruct (exec_ok tr w ev Hw Hr) as (w1' & He' & Hok). assert (w1' = w1) as -> by congruence.
  replace (note ev w tr) with tr in Hok by (by destruct ev). destruct (IH Hok) as (H1 & H2 & H3). destruct (exec_weight w w1 ev Hen He). split; [done|]. split; [lia|congruence].
Qed.
Lemma unattended_ends tr w : world_ok tr w -> (0 < length (threads_ w))%nat -> exists n w', unattended n w w' /\ idle w'.
Proof.
  remember (world_weight w) as m eqn:Em. revert w Em. induction (lt_wf m) as [m _ IH]. intros w -> Hw Hn. destruct (not_idle w Hn) as [Hi|[ev Hen]]; [by exists 0%nat, w; split; [constructor|]|].
  assert (Hr : rules ev w tr) by (by destruct ev). destruct (exec_ok tr w ev Hw Hr) as (w1 & He & Hok). replace (note ev w tr) with tr in Hok by (by destruct ev).
  destruct (exec_weight w w1 ev Hen He) as [Hlt Hlen]. destruct (IH _ Hlt w1 eq_refl Hok) as (n & w' & Hun & Hi); [lia|]. exists (S n), w'. split; [by econstructor|done].
Qed.
Lemma session_threads w0 tr w : session w0 tr w -> length (threads_ w) = length (threads_ w0).
Proof.
  induction 1 as [|tr w ev w' Hs IH Hr He]; [done|]. rewrite <- IH. clear - He. destruct ev as [i op|i|k]; cbn [exec] in He.
  - destruct (threads_ w !! i) as [[|]|]; [|by injection He as <-..]. destruct (run_op _ _ _ _) as [[[s acts] ws]|]; [|done]. injection He as <-. apply length_insert.
  - destruct (threads_ w !! i) as [[|[t d|cb|c] acts]|]; [by injection He as <-| | | |by injection He as <-].
    + injection He as <-. apply length_insert.
    + destruct (FlushPendingCommitDataRequests _ _ _) as [[s more]|]; [|done]. injection He as <-. apply length_insert.
    + injection He as <-. apply length_insert.
  - destruct (threads_ w !! 0%nat) as [[|]|]; [|by injection He as <-..]. destruct (tasks_ w !! k); [|by injection He as <-]. destruct (run_task _ _) as [[s acts]|]; [|done].
    injection He as <-. apply length_insert.
Qed.
Lemma idle_all_sent tr w : world_ok tr w -> idle w -> fully_bound_ (arbiter_ w) = true ->
  committed w = map (final (arbiter_ w)) (tr_returned tr) /\ handed_over w ≡ₚ tr_flushes tr.
Proof.
  intros Hw [Ht Hth] Hf. assert (Hwork : work w = []).
  { unfold work. rewrite Ht. cbn. induction Hth as [|a l -> Hl IH]; [done|]. exact IH. }
  assert (Hq : pending_req_ (arbiter_ w) = None).
  { destruct (pending_req_ (arbiter_ w)) eqn:E; [|done]. pose proof (wo_flush _ _ Hw Hf) as Hx. rewrite E, Hwork in Hx. by discriminate Hx. }
  assert (Hin : in_flight w = []).
  { unfold in_flight. destruct (threads_ w !! 0%nat) as [l|] eqn:E; [|done]. rewrite Forall_forall in Hth. by rewrite (Hth l) by (by eapply list_elem_of_lookup_2). }
  split.
  - rewrite (wo_chunks _ _ Hw), Hin. unfold held, moved. rewrite Hq. cbn. by rewrite app_nil_r.
  - rewrite (wo_callbacks _ _ Hw), Hwork, (so_callbacks _ _ _ (wo_state _ _ Hw) Hf). done.
Qed.

(** ** Results *)

(** C4. In every session, on any threads and with any interleaving of their actions and of
    the posted tasks, an arbiter fails no check; every chunk that was returned is committed
    exactly once, in the order of the returns and in the buffer its reservation was bound to,
    or is about to be, or is held until all reservations are bound; and every flush callback
    is held, under way or handed to the endpoint, exactly once. *)
Theorem startup_commits_in_order bound smb_size n tr w : session (World_new bound smb_size n) tr w ->
  (forall ev, rules ev w tr -> exists w', exec ev w = Ok w') /\
  map (final (arbiter_ w)) (tr_returned tr) = committed w ++ in_flight w ++ map (final (arbiter_ w)) (held w) /\
  tr_flushes tr ≡ₚ concat (pending_flush_callbacks_ (arbiter_ w)) ++ callbacks_in (work w) ++ handed_over w.
Proof.
  intros H%session_ok. split; [|split; apply H]. intros ev Hr. destruct (exec_ok tr w ev H Hr) as (w' & He & _). by exists w'.
Qed.

(** C6. What the endpoint is called with is well typed: buffers of 16 bits, never
    placeholders of reservations, and valid writer ids; it is called from the thread of the
    task runner only; and the writers alive have different ids from 1 to kMaxWriterID. *)
Theorem endpoint_calls_typed bound smb_size n tr w : session (World_new bound smb_size n) tr w ->
  Forall call_typed (received_ w) /\
  (forall i acts c, threads_ w !! i = Some acts -> Invoke c ∈ acts -> i = 0%nat /\ call_typed c) /\
  NoDup (map w_id (writers_ w)) /\ Forall (fun x => 0 < w_id x <= kMaxWriterID /\ valid_target (arbiter_ w) (w_target x)) (writers_ w).
Proof.
  intros H%session_ok. pose proof (wo_state _ _ H) as Hs. split; [apply H|]. split; [|split; [apply Hs|]].
  - intros i acts c Hi Hc. split.
    + pose proof (wo_shape _ _ H i acts Hi) as Hsh. clear -Hsh Hc. induction acts as [|a acts IH]; [by apply not_elem_of_nil in Hc|].
      apply elem_of_cons in Hc as [<-|Hc]; [by destruct c, Hsh|]. destruct a as [| |[]]; cbn in Hsh; [by apply IH| | | |]; try by destruct Hsh.
      by subst; apply not_elem_of_nil in Hc.
    + pose proof (wo_typed _ _ H) as Ht. unfold work in Ht. apply Forall_app in Ht as [_ Ht]. apply Forall_concat in Ht. rewrite Forall_forall in Ht.
      specialize (Ht acts ltac:(by eapply list_elem_of_lookup_2)). rewrite Forall_forall in Ht. by apply (Ht (Invoke c)).
  - pose proof (so_writers _ _ _ Hs) as Hw. rewrite Forall_forall in *. intros x Hx. split; [|by apply Hw]. apply (taken_ok _ _ _ Hs), (so_taken _ _ _ Hs).
    by apply list_elem_of_fmap_2.
Qed.

(** C5. When the clients pause, the actions and tasks that are left come to an end within a
    bound, whatever their order; once they have, a fully bound arbiter has sent everything:
    all chunks are committed, in order, and every flush callback is with the endpoint. *)
Theorem everything_is_sent bound smb_size n tr w : session (World_new bound smb_size (S n)) tr w ->
  (forall k w', unattended k w w' -> (k <= world_weight w)%nat) /\ (exists k w', unattended k w w' /\ idle w') /\
  forall k w', unattended k w w' -> idle w' -> fully_bound_ (arbiter_ w') = true ->
    committed w' = map (final (arbiter_ w')) (tr_returned tr) /\ handed_over w' ≡ₚ tr_flushes tr.
Proof.
  intros H. pose proof (session_threads _ _ _ H) as Hn. cbn in Hn. rewrite length_replicate in Hn. apply session_ok in H. split; [|split].
  - intros k w' Hu. destruct (unattended_ok tr k w w' Hu H) as (_ & Hk & _). lia.
  - apply (unattended_ends tr); [done|lia].
  - intros k w' Hu Hi Hf. destruct (unattended_ok tr k w w' Hu H) as (Hw' & _ & _). by apply (idle_all_sent tr w').
Qed.

(** The part of the state that SharedMemoryArbiter models, with the delays of the tasks posted
    and the requests sent so far. *)
Definition data_path (s : State) (posted : list Z) (sent : list Request) : Arbiter :=
  mkArbiter (smb_size_ s) (direct_patching_ s) (batch_ms_ s) (cr_chunks <$> pending_req_ s) (pending_bytes_ s) (flush_scheduled_ s) posted sent.
Definition delays (acts : list Action) : list Z := concat (map (fun a => match a with PostTask _ d => [d] | _ => [] end) acts).
Definition requests_in (acts : list Action) : list Request := concat (map (fun a => match a with Invoke (CommitData r _) => [cr_chunks r] | _ => [] end) acts).

Lemma replace_all_buffers {A} (get : A -> Z) (set : Z -> A -> A) s l : (forall x, set (get x) x = x) -> Forall (fun x => buffer_ok (get x)) l -> replace_all get set s l = Ok (true, l).
Proof.
  intros Hset H. induction H as [|x l Hx H IH]; [done|]. cbn [replace_all]. unfold replace_placeholder. rewrite IsReservation_buffer by done. cbn [negb obind].
  rewrite IH. cbn [obind andb]. by rewrite Hset.
Qed.

(** While the arbiter is fully bound, returning a chunk, sending patches and flushing on
    the thread of the task runner do to commits, patches and batching exactly what the data
    path of SharedMemoryArbiter does, and fail exactly when it fails. *)
Theorem bound_arbiter_is_data_path s posted sent : fully_bound_ s = true ->
  (forall chunk w t pl,
     SharedMemoryArbiter.UpdateCommitDataRequest chunk w t pl (data_path s posted sent) =
     let! (pl', s', acts) := UpdateCommitDataRequest chunk w t pl s in Ok (pl', data_path s' (posted ++ delays acts) sent)) /\
  (forall cb, Forall (fun m => buffer_ok (mv_target m)) (moved s) -> Forall (fun cp => buffer_ok (cp_target cp)) (to_patch s) ->
     exists s' acts, FlushPendingCommitDataRequests true cb s = Ok (s', acts) /\
       SharedMemoryArbiter.FlushPendingCommitDataRequests true (bool_decide (cb <> [])) (data_path s posted sent) =
       data_path s' posted (sent ++ requests_in acts)).
Proof.
  intros Hf. split.
  - intros chunk w t pl. unfold SharedMemoryArbiter.UpdateCommitDataRequest, UpdateCommitDataRequest. rewrite Hf. cbn [data_path commit_data_req_ SharedMemoryArbiter.direct_patching_enabled_
      SharedMemoryArbiter.bytes_pending_commit_ SharedMemoryArbiter.delayed_flush_scheduled_ SharedMemoryArbiter.shmem_size_ SharedMemoryArbiter.batch_commits_duration_ms_ SharedMemoryArbiter.posted_].
    replace (default Request_empty (cr_chunks <$> pending_req_ s)) with (cr_chunks (default CommitDataRequest_new (pending_req_ s))) by by destruct (pending_req_ s).
    replace (bool_decide (cr_chunks <$> pending_req_ s = None)) with (bool_decide (pending_req_ s = None)) by (by destruct (pending_req_ s)).
    rewrite !andb_true_r. destruct chunk as [c|].
    + destruct (drain_patches _ _ _ _ _ _) as [[[pl' last] req']|]; [|done]. cbn [obind andb]. repeat case_match; done.
    + destruct (drain_patches _ _ _ _ _ _) as [[[pl' last] req']|]; [|done]. cbn [obind andb]. repeat case_match; done.
  - intros cb Hm Hp. unfold FlushPendingCommitDataRequests, SharedMemoryArbiter.FlushPendingCommitDataRequests. rewrite Hf. cbn [negb data_path commit_data_req_]. unfold moved, to_patch in Hm, Hp.
    destruct (pending_req_ s) as [c|] eqn:Er; cbn [fmap option_fmap option_map].
    + unfold ReplaceCommitPlaceholderBufferIdsLocked. rewrite (replace_all_buffers mv_target) by (by intros [] || done). cbn [obind]. rewrite (replace_all_buffers cp_target) by (by intros [] || done).
      cbn [obind]. eexists _, _. split; [reflexivity|]. done.
    + eexists _, _. split; [reflexivity|]. destruct cb as [|x cb]; cbn; [by rewrite app_nil_r; unfold data_path; rewrite Er|]. unfold data_path, set_sent. cbn. by rewrite Er.
Qed.

(** ** An example: a startup writer returns a chunk and asks for a flush before the arbiter is
    bound and before the reservation is *)

Definition example_chunk : WChunk := mkWChunk 1 0 [1; 2; 3; 4; 5; 6; 7; 8] 1 0.
Definition example_events : list Event :=
  [Start 1 (CreateStartupWriter 5); Start 1 (ReturnChunk 0 example_chunk []); Start 1 (FlushOp [7]); Start 0 Bind;
   Start 0 (BindStartup 5 3); Act 0; Start 1 (FlushOp [8]); Act 1; Act 0; Act 0].
Fixpoint replay (evs : list Event) (tr : Trace) (w : World) : outcome (Trace * World) :=
  match evs with
  | [] => Ok (tr, w)
  | ev :: evs => let! w' := exec ev w in replay evs (note ev w tr) w'
  end.
Fixpoint rules_all (evs : list Event) (tr : Trace) (w : World) : Prop :=
  match evs with
  | [] => True
  | ev :: evs => rules ev w tr /\ match exec ev w with Ok w' => rules_all evs (note ev w tr) w' | Crash => False end
  end.
Lemma session_replay w0 evs : forall tr w, session w0 tr w -> rules_all evs tr w -> exists tr' w', replay evs tr w = Ok (tr', w') /\ session w0 tr' w'.
Proof.
  induction evs as [|ev evs IH]; intros tr w Hs Hr; [by exists tr, w|]. cbn in *. destruct Hr as [Hr Hn]. destruct (exec ev w) as [w'|] eqn:E; [|done]. cbn [obind].
  apply IH; [|done]. by econstructor.
Qed.
Lemma example_rules : rules_all example_events Trace_new (World_new false 4096 2).
Proof.
  unfold example_events. vm_compute. repeat (split || intro); try discriminate; auto; try (exfalso; match goal with H : _ ?x [] |- _ => solve [inversion H] end).
Qed.
Lemma example_session : exists tr w, replay example_events Trace_new (World_new false 4096 2) = Ok (tr, w) /\ session (World_new false 4096 2) tr w.
Proof. apply session_replay; [constructor|exact example_rules]. Qed.

Lemma startup_commits_in_order_witness : exists tr w, session (World_new false 4096 2) tr w /\ committed w = [(1, 0, 3)] /\ tr_returned tr = [(1, 0, 327680)] /\
  handed_over w = [7] /\ tasks_ w = [FlushTask [8]] /\
  tr_flushes tr ≡ₚ concat (pending_flush_callbacks_ (arbiter_ w)) ++ callbacks_in (work w) ++ handed_over w.
Proof.
  destruct example_session as (tr & w & E & Hs). destruct (startup_commits_in_order false 4096 2 tr w Hs) as (_ & _ & Hf). exists tr, w. split; [exact Hs|].
  revert Hf. clear Hs. vm_compute in E. injection E as <- <-. intros Hf. repeat split; exact Hf.
Defined.
Lemma endpoint_calls_typed_witness : exists tr w, session (World_new false 4096 2) tr w /\ length (received_ w) = 2%nat /\ Forall call_typed (received_ w).
Proof.
  destruct example_session as (tr & w & E & Hs). destruct (endpoint_calls_typed false 4096 2 tr w Hs) as (Hf & _). exists tr, w. split; [exact Hs|]. split; [|exact Hf].
  clear Hs Hf. vm_compute in E. injection E as <- <-. reflexivity.
Defined.
Lemma everything_is_sent_witness : exists tr w, session (World_new false 4096 2) tr w /\ world_weight w = 3%nat /\ (exists k w', unattended k w w' /\ idle w') /\
  exists w', exec_all [RunTask 0; Act 0; Act 0] w = Ok w' /\ committed w' = [(1, 0, 3)] /\ handed_over w' = [7; 8].
Proof.
  destruct example_session as (tr & w & E & Hs). destruct (everything_is_sent false 4096 1 tr w Hs) as (_ & Hk & _). exists tr, w. split; [exact Hs|].
  clear Hs. revert Hk. vm_compute in E. injection E as <- <-. intros Hk. split; [reflexivity|]. split; [exact Hk|]. eexists. repeat split.
Defined.
Lemma bound_arbiter_is_data_path_witness : let s := set_commit (Some (mkCommit (mkRequest [mkMoved example_chunk true 3] []) 0)) 16 false (State_new true 4096) in
  fully_bound_ s = true /\ exists s' acts, FlushPendingCommitDataRequests true [] s = Ok (s', acts) /\
  SharedMemoryArbiter.FlushPendingCommitDataRequests true false (data_path s [] []) = data_path s' [] (requests_in acts).
Proof.
  intros s. split; [reflexivity|]. destruct (bound_arbiter_is_data_path s [] [] eq_refl) as [_ H]. apply (H []); [|constructor].
  constructor; [|constructor]. vm_compute. split; [discriminate|reflexivity].
Defined.
