(* ===== verification/ArbiterChunks.v ===== *)
(** * Getting a new chunk (SharedMemoryArbiterImpl::GetNewChunk in
    src/tracing/core/shared_memory_arbiter_impl.cc)

    The pages of the shared memory are searched in a ring, from the page where the last chunk
    was found; a free page is partitioned first.  The search holds the lock of the arbiter and
    runs here as consecutive steps of one thread of SharedMemoryAbi.  When it fails the writer
    gives up, or waits and searches again, up to 200 times; what the others do to the memory
    in between is a parameter. *)

From S2P Require Import Prelude ProtoUtils TraceBuffer ArbiterBinding SharedMemoryAbi.

(** ** Definitions *)

(** The accesses of an acquisition that nobody disturbs. *)
Definition kAcquireSteps : nat := 5.
Definition TryAcquireChunkForWriting (a : Abi) (page_idx chunk_idx : Z) (header : ChunkHeader) (hd : list (Chunk * Z)) (mem : list Z) :
    outcome (option Chunk * list (Chunk * Z) * list Z) :=
  let! (t, mem) := run_operation kAcquireSteps a (mkThread (TryAcquireChunk page_idx chunk_idx kChunkBeingWritten header) hd) mem in
  Ok (if (length hd <? length (held t))%nat then fst <$> head (held t) else None, held t, mem).

(** The loop over the bits of free_chunks, a uint32_t. *)
Fixpoint scan_chunks (n : nat) (a : Abi) (page_idx chunk_idx free_chunks : Z) (header : ChunkHeader) (hd : list (Chunk * Z)) (mem : list Z) :
    outcome (option Chunk * list (Chunk * Z) * list Z) :=
  match n with
  | O => Ok (None, hd, mem)
  | S n =>
      if free_chunks =? 0 then Ok (None, hd, mem)
      else if free_chunks .& 1 =? 0 then scan_chunks n a page_idx (chunk_idx + 1) (free_chunks .>> 1) header hd mem
      else
        let! (chunk, hd, mem) := TryAcquireChunkForWriting a page_idx chunk_idx header hd mem in
        match chunk with
        | Some c => Ok (Some c, hd, mem)
        | None => scan_chunks n a page_idx (chunk_idx + 1) (free_chunks .>> 1) header hd mem
        end
  end.
Definition scan_page (a : Abi) (layout page_idx : Z) (header : ChunkHeader) (hd : list (Chunk * Z)) (mem : list Z) : outcome (option Chunk * list (Chunk * Z) * list Z) :=
  let '(is_new_page, mem) := if is_page_free a page_idx mem then TryPartitionPage a page_idx layout mem else (false, mem) in
  let free_chunks := if is_new_page then u32 ((1 .<< znth kNumChunksForLayout layout) - 1) else GetFreeChunks a page_idx mem in
  scan_chunks 32 a page_idx 0 free_chunks header hd mem.
(** The loop over the pages; the last component but two is page_idx_. *)
Fixpoint scan_pages (n : nat) (i initial_page_idx page_idx : Z) (a : Abi) (layout : Z) (header : ChunkHeader) (hd : list (Chunk * Z)) (mem : list Z) :
    outcome (option Chunk * Z * list (Chunk * Z) * list Z) :=
  match n with
  | O => Ok (None, page_idx, hd, mem)
  | S n =>
      let page_idx := (initial_page_idx + i) `mod` num_pages_ a in
      let! (chunk, hd, mem) := scan_page a layout page_idx header hd mem in
      match chunk with
      | Some c => Ok (Some c, page_idx, hd, mem)
      | None => scan_pages n (i + 1) initial_page_idx page_idx a layout header hd mem
      end
  end.
Definition scan (a : Abi) (layout page_idx : Z) (header : ChunkHeader) (hd : list (Chunk * Z)) (mem : list Z) :=
  scan_pages (Z.to_nat (num_pages_ a)) 0 page_idx page_idx a layout header hd mem.

(** GetNewChunk.  [on_runner]: the thread is the one of the task runner; [commit_now k]: more
    than half of the buffer waits in commit_data_req_ at the [k]-th search; [others k]: what
    service and other threads do to the memory during the [k]-th wait.  The last component
    lists the waits, and the synchronous commit at the end. *)
Inductive Wait := FlushPending | SleepMicroseconds (us : Z).
Definition kMaxStallIntervalUs : Z := 100000.
Definition kFlushCommitsAfterEveryNStalls : Z := 2.
Definition kAssertAtNStalls : Z := 200.
Definition next_wait (stall_count interval : Z) (on_runner : bool) : Wait * Z :=
  if (stall_count `mod` kFlushCommitsAfterEveryNStalls =? 0) && on_runner then (FlushPending, interval)
  else (SleepMicroseconds interval, Z.min kMaxStallIntervalUs ((interval + 1) * 8)).
Section GetNewChunk.
Context (a : Abi) (layout : Z) (header : ChunkHeader) (hd : list (Chunk * Z)).
Context (policy : BufferExhaustedPolicy) (was_always_bound on_runner : bool) (commit_now : Z -> bool) (others : Z -> list Z -> list Z).
Fixpoint stall_loop (fuel : nat) (stall_count interval page_idx : Z) (mem : list Z) (waits : list Wait) :
    outcome (option Chunk * Z * list (Chunk * Z) * list Z * list Wait) :=
  match fuel with
  | O => Crash
  | S fuel =>
      let should_commit_synchronously := on_runner && bool_decide (policy = kStall) && commit_now stall_count in
      let! (chunk, page_idx, held, mem) := scan a layout page_idx header hd mem in
      match chunk with
      | Some c => Ok (Some c, page_idx, held, mem, waits ++ (if should_commit_synchronously then [FlushPending] else []))
      | None =>
          if bool_decide (policy = kDrop) then Ok (None, page_idx, held, mem, waits)
          else
            check! was_always_bound in
            let stall_count := stall_count + 1 in
            check! negb (stall_count =? kAssertAtNStalls) in
            let '(wait, interval) := next_wait stall_count interval on_runner in
            stall_loop fuel stall_count interval page_idx (others stall_count mem) (waits ++ [wait])
      end
  end.
(** Two hundred searches: the last one ends in the fatal check at the latest. *)
Definition GetNewChunk (page_idx : Z) (mem : list Z) := stall_loop 200 0 0 page_idx mem [].

(** The page and the memory before the [k]-th search, the previous ones having failed. *)
Fixpoint attempt (k : nat) (page_idx : Z) (mem : list Z) : Z * list Z :=
  match k with
  | O => (page_idx, mem)
  | S k =>
      let '(p, m) := attempt k page_idx mem in
      match scan a layout p header hd m with Ok (_, p', _, m') => (p', others (Z.of_nat (S k)) m') | Crash => (p, m) end
  end.
Definition search (k : nat) (page_idx : Z) (mem : list Z) := let '(p, m) := attempt k page_idx mem in scan a layout p header hd m.
Definition fails (r : outcome (option Chunk * Z * list (Chunk * Z) * list Z)) : Prop := exists p h m, r = Ok (None, p, h, m).
End GetNewChunk.

(** ** The search in a page *)

Section Search.
Context (start size page_size : Z) (a : Abi) (threads : nat) (Hinit : Initialize start size page_size = Ok a) (Hsize : 0 <= size).
Context (header : ChunkHeader) (Hh1 : word_ok 32 (h_chunk_id header)) (Hh2 : word_ok 16 (h_writer_id header)) (Hh3 : word_ok 16 (h_packets header)).
Context (i : nat).

(** Thread [i] does nothing else and holds [hd]. *)
Record ready (w : World) (hd : list (Chunk * Z)) : Prop := {
  rd_reachable : reachable a (start_world a threads) w;
  rd_thread : w_threads w !! i = Some (mkThread Idle hd)
}.
Definition goes (w : World) (hd : list (Chunk * Z)) (mem : list Z) : World := set_thread i (mkThread Idle hd) mem w.

Lemma goes_same w hd : w_threads w !! i = Some (mkThread Idle hd) -> goes w hd (w_mem w) = w.
Proof. intros H. unfold goes, set_thread. rewrite list_insert_id by done. by destruct w. Qed.
Lemma goes_thread w hd hd' mem : w_threads w !! i = Some (mkThread Idle hd) -> w_threads (goes w hd' mem) !! i = Some (mkThread Idle hd').
Proof. intros H. apply list_lookup_insert_eq. by eapply lookup_lt_Some. Qed.
Lemma goes_goes w hd mem hd' mem' : goes (goes w hd mem) hd' mem' = goes w hd' mem'.
Proof. unfold goes, set_thread. cbn. by rewrite list_insert_insert_eq. Qed.

Lemma run_reachable fuel w0 : forall w t t' mem', reachable a w0 w -> w_threads w !! i = Some t -> run_operation fuel a t (w_mem w) = Ok (t', mem') ->
  reachable a w0 (set_thread i t' mem' w).
Proof.
  induction fuel as [|fuel IH]; intros w t t' mem' Hr Hi He; cbn [run_operation] in He; assert (Hd : t_pc t = Idle \/ t_pc t <> Idle) by (destruct (t_pc t); auto); destruct Hd as [Hp|Hp].
  1,3: rewrite Hp in He; injection He as <- <-; unfold set_thread; rewrite list_insert_id by done; by destruct w.
  - by destruct (t_pc t).
  - assert (E : (let! r := thread_step a t (w_mem w) in run_operation fuel a r.1 r.2) = Ok (t', mem')) by (by destruct (t_pc t)).
    destruct (thread_step a t (w_mem w)) as [[t1 m1]|] eqn:Et; [|done]. cbn [obind fst snd] in E.
    assert (Hr1 : reachable a w0 (set_thread i t1 m1 w)) by (eapply reachable_step; [exact Hr|by eapply step_continue]).
    assert (Hi1 : w_threads (set_thread i t1 m1 w) !! i = Some t1) by (apply list_lookup_insert_eq; by eapply lookup_lt_Some).
    specialize (IH _ _ _ _ Hr1 Hi1 E). unfold set_thread in *. cbn [w_mem w_threads] in IH. by rewrite list_insert_insert_eq in IH.
Qed.

(** An attempt on chunk [j] of page [p]. *)
Lemma try_acquire_spec w hd p j : ready w hd -> 0 <= p < num_pages_ a -> 0 <= j < GetNumChunksForLayout (GetPageLayout a p (w_mem w)) ->
  GetChunkState a p j (w_mem w) = kChunkFree ->
  exists mem', TryAcquireChunkForWriting a p j header hd (w_mem w) =
    Ok (Some (chunk_at a p (GetPageLayout a p (w_mem w)) j), (chunk_at a p (GetPageLayout a p (w_mem w)) j, kChunkBeingWritten) :: hd, mem') /\
    ready (goes w ((chunk_at a p (GetPageLayout a p (w_mem w)) j, kChunkBeingWritten) :: hd) mem') ((chunk_at a p (GetPageLayout a p (w_mem w)) j, kChunkBeingWritten) :: hd) /\
    GetChunkState a p j mem' = kChunkBeingWritten /\
    load32 (chunk_id_at (chunk_at a p (GetPageLayout a p (w_mem w)) j)) mem' = h_chunk_id header /\
    writer_id (chunk_at a p (GetPageLayout a p (w_mem w)) j) mem' = h_writer_id header.
Proof.
  intros [Hr Hi] Hp Hj Hfree. set (word := GetPageLayout a p (w_mem w)) in *. set (c := chunk_at a p word j).
  destruct (acquire_for_writing_correct start size page_size a threads w p j header hd Hinit Hsize Hr Hp ltac:(lia) Hh1 Hh2 Hh3) as (mem' & E & _ & Ht).
  fold word in E, Ht. replace ((j <? GetNumChunksForLayout word) && (GetChunkState a p j (w_mem w) =? kChunkFree)) with true in E, Ht.
  2:{ symmetry. apply andb_true_iff. split; [apply Z.ltb_lt; lia|by apply Z.eqb_eq]. }
  exists mem'. unfold TryAcquireChunkForWriting. change kAcquireSteps with 5%nat. rewrite E. cbn [obind held head fmap option_fmap option_map fst].
  replace (length hd <? length ((chunk_at a p word j, kChunkBeingWritten) :: hd))%nat with true by (symmetry; apply Nat.ltb_lt; cbn; lia). fold c. split; [done|].
  assert (Hn : 0 <= GetNumChunksForLayout word <= 14).
  { assert (Ha := Initialize_ok _ _ _ _ Hinit Hsize). pose proof (in_mem _ _ (reachable_inv a threads w Ha Hr)) as [_ Hw]. destruct (Hw p Hp) as (_ & Hl & _).
    apply num_chunks_range. split; [apply layout_index_range|done]. }
  destruct (Ht eq_refl) as (_ & Hst & H1 & H2 & _). split; [|split; [|done]].
  - split; [|by eapply goes_thread].
    set (w1 := set_thread i (mkThread (TryAcquireChunk p j kChunkBeingWritten header) hd) (w_mem w) w).
    assert (Hr1 : reachable a (start_world a threads) w1).
    { eapply reachable_step; [exact Hr|]. apply (step_acquire a w i (mkThread Idle hd) p j kChunkBeingWritten header); [done|done|done|lia|by left]. }
    assert (Hi1 : w_threads w1 !! i = Some (mkThread (TryAcquireChunk p j kChunkBeingWritten header) hd)) by (apply list_lookup_insert_eq; by eapply lookup_lt_Some).
    pose proof (run_reachable 5 _ w1 _ _ mem' Hr1 Hi1 E) as Hx. unfold goes, set_thread in *. cbn [w1 w_threads] in Hx. by rewrite list_insert_insert_eq in Hx.
  - specialize (Hst j ltac:(lia)). by rewrite Z.eqb_refl in Hst.
Qed.

(** The outcome of a search for a free chunk of a page whose word is [word]. *)
Definition no_free (word : Z) : Prop := forall k, 0 <= k < GetNumChunksForLayout word -> state_at word k <> kChunkFree.
Definition first_free (word j : Z) : Prop :=
  0 <= j < GetNumChunksForLayout word /\ state_at word j = kChunkFree /\ forall k, 0 <= k < j -> state_at word k <> kChunkFree.
(** Chunk [j] of page [p] is acquired: the thread holds it, being written, with its header. *)
Definition acquired (w : World) (hd : list (Chunk * Z)) (p word j : Z) (mem' : list Z) : Prop :=
  let c := chunk_at a p word j in
  ready (goes w ((c, kChunkBeingWritten) :: hd) mem') ((c, kChunkBeingWritten) :: hd) /\
  GetChunkState a p j mem' = kChunkBeingWritten /\ load32 (chunk_id_at c) mem' = h_chunk_id header /\ writer_id c mem' = h_writer_id header.
Definition found (w : World) (hd : list (Chunk * Z)) (p word : Z) (r : outcome (option Chunk * list (Chunk * Z) * list Z)) : Prop :=
  exists j mem', first_free word j /\ r = Ok (Some (chunk_at a p word j), (chunk_at a p word j, kChunkBeingWritten) :: hd, mem') /\ acquired w hd p word j mem'.

Lemma shiftr_one_bound n x : 0 <= x < 2 ^ Z.of_nat (S n) -> 0 <= x .>> 1 < 2 ^ Z.of_nat n.
Proof.
  intros H. rewrite Z.shiftr_div_pow2 by lia. change (2 ^ 1) with 2. replace (Z.of_nat (S n)) with (Z.of_nat n + 1) in H by lia. rewrite Z.pow_add_r in H by lia.
  change (2 ^ 1) with 2 in H. split; [apply Z.div_pos; lia|]. apply Z.div_lt_upper_bound; lia.
Qed.
Lemma scan_chunks_spec w hd p : ready w hd -> 0 <= p < num_pages_ a -> let word := GetPageLayout a p (w_mem w) in
  forall n k free, 0 <= k -> 0 <= free < 2 ^ Z.of_nat n ->
    (forall j, 0 <= j -> Z.testbit free j = (k + j <? GetNumChunksForLayout word) && (state_at word (k + j) =? kChunkFree)) ->
    (forall j, 0 <= j < k -> j < GetNumChunksForLayout word -> state_at word j <> kChunkFree) ->
    (no_free word /\ scan_chunks n a p k free header hd (w_mem w) = Ok (None, hd, w_mem w)) \/ found w hd p word (scan_chunks n a p k free header hd (w_mem w)).
Proof.
  intros Hw Hp word. induction n as [|n IH]; intros k free Hk Hf Hb Hbefore.
  - assert (Hz : free = 0) by (cbn in Hf; lia). subst free. left. split; [|done]. intros j Hj Hst. destruct (decide (j < k)); [apply (Hbefore j); [lia|lia|done]|].
    specialize (Hb (j - k) ltac:(lia)). rewrite Z.testbit_0_l in Hb. replace (k + (j - k)) with j in Hb by lia. rewrite Hst in Hb.
    replace (j <? _) with true in Hb by (symmetry; apply Z.ltb_lt; lia). done.
  - cbn [scan_chunks]. destruct (Z.eqb_spec free 0) as [->|Hne].
    { left. split; [|done]. intros j Hj Hst. destruct (decide (j < k)); [apply (Hbefore j); [lia|lia|done]|].
      specialize (Hb (j - k) ltac:(lia)). rewrite Z.testbit_0_l in Hb. replace (k + (j - k)) with j in Hb by lia. rewrite Hst in Hb.
      replace (j <? _) with true in Hb by (symmetry; apply Z.ltb_lt; lia). done. }
    pose proof (Hb 0 ltac:(lia)) as H0. rewrite Z.add_0_r in H0.
    assert (Hand : free .& 1 = if Z.testbit free 0 then 1 else 0).
    { transitivity (free `mod` 2); [exact (Z.land_ones free 1 ltac:(lia))|]. rewrite <- Z.bit0_mod. by destruct (Z.testbit free 0). }
    assert (Hshift : forall j, 0 <= j -> Z.testbit (free .>> 1) j = (k + 1 + j <? GetNumChunksForLayout word) && (state_at word (k + 1 + j) =? kChunkFree)).
    { intros j Hj. rewrite Z.shiftr_spec by lia. rewrite Hb by lia. by replace (k + (j + 1)) with (k + 1 + j) by lia. }
    rewrite Hand. destruct (Z.testbit free 0) eqn:E0.
    + change (1 =? 0) with false. symmetry in H0. apply andb_true_iff in H0 as [Hlt Hst]. apply Z.ltb_lt in Hlt. apply Z.eqb_eq in Hst.
      destruct (try_acquire_spec w hd p k Hw Hp ltac:(fold word; lia) Hst) as (mem' & E & H1 & H2 & H3 & H4). rewrite E. cbn [obind]. right. exists k, mem'.
      split; [|split; [done|by split; [exact H1|]]]. split; [lia|]. split; [done|]. intros j Hj. apply Hbefore; lia.
    + change (0 =? 0) with true. apply IH; [lia|by apply shiftr_one_bound|exact Hshift|]. intros j Hj Hjn Hst. destruct (decide (j = k)) as [->|Hjk]; [|by apply (Hbefore j); [lia|lia|]].
      rewrite Hst, andb_true_r in H0. symmetry in H0. apply Z.ltb_ge in H0. lia.
Qed.

(** What the word of page [p] is when its chunks are searched: a free page is partitioned. *)
Definition searched_word (layout word : Z) : Z := if word =? 0 then (layout .<< kLayoutShift) .& kLayoutMask else word.
Lemma scan_page_spec w hd p layout : ready w hd -> 0 <= p < num_pages_ a -> 1 <= layout <= 5 ->
  let word := GetPageLayout a p (w_mem w) in
  (word <> 0 /\ no_free word /\ scan_page a layout p header hd (w_mem w) = Ok (None, hd, w_mem w)) \/
  found w hd p (searched_word layout word) (scan_page a layout p header hd (w_mem w)).
Proof.
  intros Hw Hp Hlay word. assert (Ha := Initialize_ok _ _ _ _ Hinit Hsize). pose proof (in_mem _ _ (reachable_inv a threads w Ha (rd_reachable _ _ Hw))) as Hmem.
  unfold scan_page, is_page_free. fold word. unfold searched_word. destruct (Z.eqb_spec word 0) as [Hz|Hnz].
  - right. unfold TryPartitionPage, cas32. change (load32 (page_start a p) (w_mem w)) with word. rewrite Hz. cbn [Z.eqb].
    set (word' := (layout .<< kLayoutShift) .& kLayoutMask). set (mem1 := store32 (page_start a p) word' (w_mem w)).
    destruct (partition_word layout Hlay) as (Hwf & Hli & Hst). fold word' in Hwf, Hli, Hst. destruct (store_word a Ha (w_mem w) p word' Hmem Hp Hwf) as (_ & Esame & _). fold mem1 in Esame.
    assert (Hw1 : ready (goes w hd mem1) hd).
    { split; [|eapply goes_thread, Hw]. eapply reachable_step; [apply Hw|]. replace mem1 with (TryPartitionPage a p layout (w_mem w)).2.
      - by apply step_partition; [apply Hw|..].
      - unfold TryPartitionPage, cas32. change (load32 (page_start a p) (w_mem w)) with word. by rewrite Hz. }
    assert (Hnum : 1 <= GetNumChunksForLayout word' <= 14 /\ znth kNumChunksForLayout layout = GetNumChunksForLayout word').
    { unfold GetNumChunksForLayout. rewrite Hli. assert (Hc : layout = 1 \/ layout = 2 \/ layout = 3 \/ layout = 4 \/ layout = 5) by lia.
      destruct Hc as [->|[->|[->|[->| ->]]]]; (split; [by split|done]). }
    destruct Hnum as [Hnum ->]. set (num := GetNumChunksForLayout word') in *.
    assert (Hones : u32 ((1 .<< num) - 1) = Z.ones num).
    { unfold Z.ones. rewrite Z.shiftl_1_l, <- Z.sub_1_r. unfold u32, uw. apply Z.mod_small. pose proof (Z.pow_le_mono_r 2 num 14 ltac:(lia) ltac:(lia)). pose proof (Z.pow_pos_nonneg 2 num ltac:(lia) ltac:(lia)).
      change (2 ^ 14) with 16384 in *. change (2 ^ 32) with 4294967296. lia. }
    rewrite Hones. pose proof (scan_chunks_spec (goes w hd mem1) hd p Hw1 Hp 32 0 (Z.ones num)) as Hs. cbn [goes set_thread w_mem] in Hs. rewrite Esame in Hs. fold num in Hs.
    destruct Hs as [(Hno & _)|Hs].
    + lia.
    + rewrite Z.ones_equiv. pose proof (Z.pow_le_mono_r 2 num 31 ltac:(lia) ltac:(lia)). pose proof (Z.pow_pos_nonneg 2 num ltac:(lia) ltac:(lia)).
      change (2 ^ Z.of_nat 32) with 4294967296. change (2 ^ 31) with 2147483648 in *. lia.
    + intros j Hj. rewrite Z.testbit_ones by lia. rewrite Z.add_0_l. replace (0 <=? j) with true by (symmetry; apply Z.leb_le; lia). cbn [andb].
      destruct (Z.ltb_spec j num); [|done]. cbn [andb]. symmetry. apply Z.eqb_eq. apply Hst. lia.
    + lia.
    + exfalso. apply (Hno 0); [fold num; lia|]. apply Hst. lia.
    + destruct Hs as (j & mem' & H1 & H2 & H3). exists j, mem'. split; [done|]. split; [done|]. unfold acquired in *. by rewrite goes_goes in H3.
  - destruct (proj2 Hmem p Hp) as (_ & Hl & _). fold word in Hl. assert (Hn : 0 <= GetNumChunksForLayout word <= 14) by (apply num_chunks_range; split; [apply layout_index_range|done]).
    assert (Hbits : forall j, 0 <= j -> Z.testbit (GetFreeChunks a p (w_mem w)) j = (0 + j <? GetNumChunksForLayout word) && (state_at word (0 + j) =? kChunkFree)).
    { intros j Hj. unfold GetFreeChunks. fold word. rewrite FreeChunks_bits by lia. rewrite Z.testbit_0_l, Z.sub_0_r, !Z.add_0_l, Z2Nat.id by lia.
      replace (0 <=? j) with true by (symmetry; apply Z.leb_le; lia). done. }
    assert (Hbound : 0 <= GetFreeChunks a p (w_mem w) < 2 ^ Z.of_nat 32).
    { assert (H0 : 0 <= GetFreeChunks a p (w_mem w)).
      { unfold GetFreeChunks. assert (Hg : forall n i word res, 0 <= i -> 0 <= res -> 0 <= FreeChunks_loop n i word res).
        { induction n as [|n IH]; intros k v res Hk Hres; [done|]. cbn [FreeChunks_loop]. apply IH; [lia|]. apply Z.lor_nonneg. split; [done|]. destruct (_ =? _); [|lia].
          by apply Z.shiftl_nonneg. }
        apply Hg; lia. }
      apply (word_ok_bits 32); [lia|done|]. intros j Hj. rewrite Hbits by lia. replace (0 + j <? GetNumChunksForLayout word) with false by (symmetry; apply Z.ltb_ge; lia). done. }
    destruct (scan_chunks_spec w hd p Hw Hp 32 0 (GetFreeChunks a p (w_mem w)) ltac:(lia) Hbound Hbits ltac:(lia)) as [[Hno E]|Hs]; [by left|by right].
Qed.

(** ** The search over the pages *)

Definition full (w : World) (p : Z) : Prop := GetPageLayout a p (w_mem w) <> 0 /\ no_free (GetPageLayout a p (w_mem w)).
Definition ring (page_idx k : Z) : Z := (page_idx + k) `mod` num_pages_ a.
Definition found_page (w : World) (hd : list (Chunk * Z)) (layout page_idx d : Z) (r : outcome (option Chunk * Z * list (Chunk * Z) * list Z)) : Prop :=
  let p := ring page_idx d in let word := searched_word layout (GetPageLayout a p (w_mem w)) in
  exists j mem', first_free word j /\ r = Ok (Some (chunk_at a p word j), p, (chunk_at a p word j, kChunkBeingWritten) :: hd, mem') /\ acquired w hd p word j mem'.

Lemma scan_pages_spec w hd layout initial : ready w hd -> 1 <= layout <= 5 -> 0 < num_pages_ a ->
  forall n k page_idx, 0 <= k -> (forall q, 0 <= q < k -> full w (ring initial q)) ->
    ((forall q, 0 <= q < k + Z.of_nat n -> full w (ring initial q)) /\
     scan_pages n k initial page_idx a layout header hd (w_mem w) = Ok (None, if (n =? 0)%nat then page_idx else ring initial (k + Z.of_nat n - 1), hd, w_mem w)) \/
    exists d, k <= d < k + Z.of_nat n /\ (forall q, 0 <= q < d -> full w (ring initial q)) /\
      found_page w hd layout initial d (scan_pages n k initial page_idx a layout header hd (w_mem w)).
Proof.
  intros Hw Hlay Hnum. induction n as [|n IH]; intros k page_idx Hk Hbefore.
  - left. split; [intros q Hq; apply Hbefore; lia|done].
  - cbn [scan_pages]. fold (ring initial k). assert (Hr : 0 <= ring initial k < num_pages_ a) by (apply Z.mod_pos_bound; lia).
    destruct (scan_page_spec w hd (ring initial k) layout Hw Hr Hlay) as [(Hz & Hno & E)|(j & mem' & H1 & E & H2)]; rewrite E; cbn [obind].
    + assert (Hb : forall q, 0 <= q < k + 1 -> full w (ring initial q)).
      { intros q Hq. destruct (decide (q = k)) as [->|]; [by split|]. apply Hbefore. lia. }
      destruct (IH (k + 1) (ring initial k) ltac:(lia) Hb) as [[H1 E1]|(d & Hd & H1 & H2)].
      * left. split; [intros q Hq; apply H1; lia|]. rewrite E1. cbn [Nat.eqb]. destruct n as [|n]; cbn [Nat.eqb]; do 3 f_equal; [do 2 f_equal; lia|do 2 f_equal; lia].
      * right. exists d. split; [lia|]. split; [done|]. exact H2.
    + right. exists k. split; [lia|]. split; [exact Hbefore|]. by exists j, mem'.
Qed.
End Search.

(** ** Results *)

(** C16. Searching for a chunk, from the page where the last one was found and around the ring
    of pages: it fails, and changes nothing, only when every page is partitioned and has no
    free chunk; otherwise it takes the first free chunk of the first page that has one,
    partitioning a free page.  The chunk is then held by the calling thread alone (the world
    it leaves is reachable), being written, with the given header. *)
Theorem GetNewChunk_finds_first_free start size page_size a threads header i w hd layout page_idx :
  Initialize start size page_size = Ok a -> 0 <= size -> 0 <= page_idx < num_pages_ a -> 1 <= layout <= 5 ->
  word_ok 32 (h_chunk_id header) -> word_ok 16 (h_writer_id header) -> word_ok 16 (h_packets header) -> ready a threads i w hd ->
  ((forall p, 0 <= p < num_pages_ a -> full a w p) /\
   scan a layout page_idx header hd (w_mem w) = Ok (None, ring a page_idx (num_pages_ a - 1), hd, w_mem w)) \/
  exists d, 0 <= d < num_pages_ a /\ (forall q, 0 <= q < d -> full a w (ring a page_idx q)) /\
    found_page a threads header i w hd layout page_idx d (scan a layout page_idx header hd (w_mem w)).
Proof.
  intros Hi Hs Hp Hlay H1 H2 H3 Hw. unfold scan.
  destruct (scan_pages_spec start size page_size a threads Hi Hs header H1 H2 H3 i w hd layout page_idx Hw Hlay ltac:(lia) (Z.to_nat (num_pages_ a)) 0 page_idx ltac:(lia) ltac:(lia))
    as [[Hall E]|(d & Hd & Hbefore & Hf)].
  - left. rewrite E. split.
    + intros p Hpr. assert (Hq : exists q, 0 <= q < num_pages_ a /\ ring a page_idx q = p).
      { exists ((p - page_idx) `mod` num_pages_ a). split; [apply Z.mod_pos_bound; lia|]. unfold ring. rewrite Zplus_mod_idemp_r. replace (page_idx + (p - page_idx)) with p by lia. apply Z.mod_small. lia. }
      destruct Hq as (q & Hq & <-). apply Hall. lia.
    + destruct (Nat.eqb_spec (Z.to_nat (num_pages_ a)) 0); [lia|]. do 3 f_equal. do 2 f_equal. lia.
  - right. exists d. split; [lia|]. by split.
Qed.

(** Waiting: the writer gets the chunk of the first search that succeeds, after one wait per
    failed search; after 200 failures the process is aborted; a writer that drops searches
    once. *)
Section Stall.
Context (a : Abi) (layout : Z) (header : ChunkHeader) (hd : list (Chunk * Z)) (on_runner : bool) (commit_now : Z -> bool) (others : Z -> list Z -> list Z).
Context (page_idx : Z) (mem : list Z).
#[local] Abbreviation nth_search := (fun k => search a layout header hd others k page_idx mem).
#[local] Abbreviation start_of := (fun k => attempt a layout header hd others k page_idx mem).

Lemma stall_loop_fails fuel k interval waits : fails (nth_search k) -> (Z.of_nat k + 1 <> 200) ->
  exists interval' wait, stall_loop a layout header hd kStall true on_runner commit_now others (S fuel) (Z.of_nat k) interval (start_of k).1 (start_of k).2 waits =
    stall_loop a layout header hd kStall true on_runner commit_now others fuel (Z.of_nat (S k)) interval' (start_of (S k)).1 (start_of (S k)).2 (waits ++ [wait]).
Proof.
  intros (p & h & m & E) Hk. cbn beta in E. unfold search in E. cbn [attempt]. destruct (attempt a layout header hd others k page_idx mem) as [p0 m0]. cbn [fst snd stall_loop].
  rewrite E. cbn [obind]. rewrite bool_decide_eq_false_2 by done. cbn [perfetto_check obind]. unfold kAssertAtNStalls.
  replace (Z.of_nat k + 1 =? 200) with false by (symmetry; apply Z.eqb_neq; lia). cbn [negb perfetto_check obind]. replace (Z.of_nat k + 1) with (Z.of_nat (S k)) by lia.
  destruct (next_wait _ interval on_runner) as [wait interval']. exists interval', wait. done.
Qed.
Lemma stall_loop_run n : forall k fuel interval waits, (forall j, (k <= j < k + n)%nat -> fails (nth_search j)) -> (k + n < 200)%nat ->
  exists interval' waits', stall_loop a layout header hd kStall true on_runner commit_now others (n + fuel) (Z.of_nat k) interval (start_of k).1 (start_of k).2 waits =
    stall_loop a layout header hd kStall true on_runner commit_now others fuel (Z.of_nat (k + n)) interval' (start_of (k + n)%nat).1 (start_of (k + n)%nat).2 (waits ++ waits') /\ length waits' = n.
Proof.
  induction n as [|n IH]; intros k fuel interval waits Hf Hn.
  - exists interval, []. rewrite Nat.add_0_r, app_nil_r. done.
  - destruct (stall_loop_fails (n + fuel) k interval waits) as (i1 & w1 & E); [apply Hf; lia|lia|]. cbn [Nat.add]. rewrite E.
    destruct (IH (S k) fuel i1 (waits ++ [w1])) as (i2 & w2 & E2 & Hl); [intros j Hj; apply Hf; lia|lia|]. exists i2, (w1 :: w2). split; [|cbn; lia].
    rewrite E2. rewrite <- app_assoc. replace (S k + n)%nat with (k + S n)%nat by lia. done.
Qed.

Theorem GetNewChunk_stalls :
  (forall k c p h m, (k < 200)%nat -> (forall j, (j < k)%nat -> fails (nth_search j)) -> nth_search k = Ok (Some c, p, h, m) ->
     exists waits, length waits = k /\ GetNewChunk a layout header hd kStall true on_runner commit_now others page_idx mem =
       Ok (Some c, p, h, m, waits ++ (if on_runner && commit_now (Z.of_nat k) then [FlushPending] else []))) /\
  ((forall j, (j < 200)%nat -> fails (nth_search j)) -> GetNewChunk a layout header hd kStall true on_runner commit_now others page_idx mem = Crash) /\
  (forall was_always_bound c p h m, scan a layout page_idx header hd mem = Ok (c, p, h, m) ->
     GetNewChunk a layout header hd kDrop was_always_bound on_runner commit_now others page_idx mem = Ok (c, p, h, m, [])).
Proof.
  split; [|split].
  - intros k c p h m Hk Hf E. destruct (stall_loop_run k 0 (200 - k) 0 []) as (i1 & w1 & E1 & Hl); [intros j Hj; apply Hf; lia|lia|]. exists w1. split; [done|].
    unfold GetNewChunk. replace (k + (200 - k))%nat with 200%nat in E1 by lia. change (Z.of_nat 0) with 0 in E1. cbn [attempt fst snd] in E1. rewrite E1. cbn [Nat.add]. unfold search in E. cbn beta in E.
    destruct (attempt a layout header hd others k page_idx mem) as [p0 m0]. destruct (200 - k)%nat as [|fuel] eqn:Ef; [lia|]. cbn [fst snd stall_loop app]. rewrite E. cbn [obind].
    rewrite bool_decide_eq_true_2 by done. by rewrite andb_true_r.
  - intros Hf. destruct (stall_loop_run 199 0 1 0 []) as (i1 & w1 & E1 & Hl); [intros j Hj; apply Hf; lia|lia|]. unfold GetNewChunk. change (199 + 1)%nat with 200%nat in E1. change (Z.of_nat 0) with 0 in E1.
    cbn [attempt fst snd] in E1. rewrite E1. destruct (Hf 199%nat ltac:(lia)) as (p & h & m & E). unfold search in E. cbn beta in E.
    change (0 + 199)%nat with 199%nat. destruct (attempt a layout header hd others 199 page_idx mem) as [p0 m0]. cbn [fst snd stall_loop]. rewrite E. cbn [obind].
    rewrite bool_decide_eq_false_2 by done. reflexivity.
  - intros was c p h m E. unfold GetNewChunk. change 200%nat with (S 199). cbn [stall_loop]. rewrite E. cbn [obind]. rewrite (bool_decide_eq_false_2 (kDrop = kStall)) by done.
    rewrite andb_false_r. cbn [andb]. destruct c; [done|]. by rewrite bool_decide_eq_true_2.
Qed.
End Stall.

(** One page of 4 KB, free: it is partitioned and its first chunk is taken. *)
Lemma GetNewChunk_finds_first_free_witness :
  let w := demo_start in let h := mkHeader 7 1 0 in
  ready demo_abi 2 1 w [] /\ exists c mem', scan demo_abi 4 0 h [] (w_mem w) = Ok (Some c, 0, [(c, kChunkBeingWritten)], mem') /\ c_size c = 584 /\
    exists d, 0 <= d < 1 /\ found_page demo_abi 2 h 1 w [] 4 0 d (scan demo_abi 4 0 h [] (w_mem w)).
Proof.
  intros w h. assert (Hw : ready demo_abi 2 1 w []) by (split; [apply reachable_start|reflexivity]). split; [exact Hw|].
  destruct (GetNewChunk_finds_first_free 0 4096 4096 demo_abi 2 h 1 w [] 4 0 demo_init) as [[Hf _]|(d & Hd & _ & Hf)];
    [lia|change (num_pages_ demo_abi) with 1; lia|lia|split; [discriminate|reflexivity]|split; [discriminate|reflexivity]|split; [discriminate|reflexivity]|exact Hw| |].
  - exfalso. apply (proj1 (Hf 0 ltac:(change (num_pages_ demo_abi) with 1; lia))). vm_compute. reflexivity.
  - assert (E : exists c mem', scan demo_abi 4 0 h [] (w_mem w) = Ok (Some c, 0, [(c, kChunkBeingWritten)], mem') /\ c_size c = 584) by (eexists _, _; split; vm_compute; reflexivity).
    destruct E as (c & mem' & E1 & E2). exists c, mem'. split; [exact E1|]. split; [exact E2|]. exists d. split; [exact Hd|exact Hf].
Defined.
