(* ===== verification/TraceWriter.v ===== *)
(** * Writing trace packets into chunks of the shared memory
    (src/tracing/core/trace_writer_impl.cc, trace_writer_impl.h)

    A trace writer gives its client a packet, whose bytes go straight into the chunk it
    holds.  When the chunk is full it gets another one from the arbiter and returns the old
    one: the packet is split into fragments, and the sizes of the messages that are still
    open, which lie in the old chunk, become patches.  When there is no other chunk the
    packet is invalidated and the writing goes on in a garbage chunk.  The client is the
    protobuf message API or the stream writer itself. *)

From S2P Require Import Prelude ProtoUtils ProtoDecoder ProtoWriter TraceBuffer TraceBufferRead SharedMemoryArbiter.

(** ** State *)

Definition kPacketHeaderSize : Z := 4.
Definition kMaxCount : Z := 1023.
Definition kGarbageChunkSize : Z := 1024.

(** Where a size field is: in a chunk (by id and offset in the payload), in the patch list
    (the number of the patch since the writer exists) or in the garbage chunk. *)
Inductive address : Type := Null | InChunk (chunk_id off : Z) | InPatch (n : nat) | InGarbage (off : Z).

(** A message that is being written: size_, size_field_, size_already_written_. *)
Record OpenMessage := mkOpen { om_size : Z; om_field : address; om_already : Z }.
Definition set_field (f : address) (m : OpenMessage) : OpenMessage := mkOpen (om_size m) f (om_already m).
Definition add_size (n : Z) (m : OpenMessage) : OpenMessage := mkOpen (u32 (om_size m + n)) (om_field m) (om_already m).

(** The range of the stream writer, and its write pointer. *)
Inductive place : Type := Nowhere | CurrentChunk | GarbageChunk.
Record StreamPos := mkPos { where_ : place; write_ptr_ : Z; range_end_ : Z }.
Definition available (s : StreamPos) : Z := range_end_ s - write_ptr_ s.

Record Modes := mkModes {
  fragmenting_packet_ : bool;
  reached_max_packets_per_chunk_ : bool;
  drop_packets_ : bool;
  retry_new_chunk_after_packet_ : bool;
  first_packet_on_sequence_ : bool
}.

(** cur_packet_ is [root_] with its chain of nested messages, the innermost one first.
    [supply_] is what the arbiter will answer to the requests for a chunk: how it flushes its
    commits meanwhile (by itself or by the posted task), and the payload of the chunk, if
    there is one.
    [popped_] counts the patches that have left the patch list. *)
Record Writer := mkWriter {
  id_ : Z;
  target_buffer_ : Z;
  next_chunk_id_ : Z;
  cur_chunk_ : option WChunk;
  stream_ : StreamPos;
  root_ : OpenMessage;
  nested_ : list OpenMessage;
  finalized_ : bool;
  cur_fragment_start_ : Z;
  last_packet_size_field_ : address;
  modes_ : Modes;
  patch_list_ : PatchList;
  popped_ : nat;
  arbiter_ : Arbiter;
  supply_ : list (list bool * option (list Z))
}.

Definition set_chunk (c : option WChunk) (w : Writer) : Writer :=
  mkWriter (id_ w) (target_buffer_ w) (next_chunk_id_ w) c (stream_ w) (root_ w) (nested_ w) (finalized_ w) (cur_fragment_start_ w)
    (last_packet_size_field_ w) (modes_ w) (patch_list_ w) (popped_ w) (arbiter_ w) (supply_ w).
Definition set_next_chunk_id (n : Z) (w : Writer) : Writer :=
  mkWriter (id_ w) (target_buffer_ w) n (cur_chunk_ w) (stream_ w) (root_ w) (nested_ w) (finalized_ w) (cur_fragment_start_ w)
    (last_packet_size_field_ w) (modes_ w) (patch_list_ w) (popped_ w) (arbiter_ w) (supply_ w).
Definition set_stream (s : StreamPos) (w : Writer) : Writer :=
  mkWriter (id_ w) (target_buffer_ w) (next_chunk_id_ w) (cur_chunk_ w) s (root_ w) (nested_ w) (finalized_ w) (cur_fragment_start_ w)
    (last_packet_size_field_ w) (modes_ w) (patch_list_ w) (popped_ w) (arbiter_ w) (supply_ w).
Definition set_packet (root : OpenMessage) (nested : list OpenMessage) (finalized : bool) (w : Writer) : Writer :=
  mkWriter (id_ w) (target_buffer_ w) (next_chunk_id_ w) (cur_chunk_ w) (stream_ w) root nested finalized (cur_fragment_start_ w)
    (last_packet_size_field_ w) (modes_ w) (patch_list_ w) (popped_ w) (arbiter_ w) (supply_ w).
Definition set_fragment_start (n : Z) (w : Writer) : Writer :=
  mkWriter (id_ w) (target_buffer_ w) (next_chunk_id_ w) (cur_chunk_ w) (stream_ w) (root_ w) (nested_ w) (finalized_ w) n
    (last_packet_size_field_ w) (modes_ w) (patch_list_ w) (popped_ w) (arbiter_ w) (supply_ w).
Definition set_last_field (f : address) (w : Writer) : Writer :=
  mkWriter (id_ w) (target_buffer_ w) (next_chunk_id_ w) (cur_chunk_ w) (stream_ w) (root_ w) (nested_ w) (finalized_ w) (cur_fragment_start_ w)
    f (modes_ w) (patch_list_ w) (popped_ w) (arbiter_ w) (supply_ w).
Definition set_modes (m : Modes) (w : Writer) : Writer :=
  mkWriter (id_ w) (target_buffer_ w) (next_chunk_id_ w) (cur_chunk_ w) (stream_ w) (root_ w) (nested_ w) (finalized_ w) (cur_fragment_start_ w)
    (last_packet_size_field_ w) m (patch_list_ w) (popped_ w) (arbiter_ w) (supply_ w).
Definition set_patches (l : PatchList) (popped : nat) (w : Writer) : Writer :=
  mkWriter (id_ w) (target_buffer_ w) (next_chunk_id_ w) (cur_chunk_ w) (stream_ w) (root_ w) (nested_ w) (finalized_ w) (cur_fragment_start_ w)
    (last_packet_size_field_ w) (modes_ w) l popped (arbiter_ w) (supply_ w).
Definition set_arbiter (a : Arbiter) (w : Writer) : Writer :=
  mkWriter (id_ w) (target_buffer_ w) (next_chunk_id_ w) (cur_chunk_ w) (stream_ w) (root_ w) (nested_ w) (finalized_ w) (cur_fragment_start_ w)
    (last_packet_size_field_ w) (modes_ w) (patch_list_ w) (popped_ w) a (supply_ w).
Definition set_supply (l : list (list bool * option (list Z))) (w : Writer) : Writer :=
  mkWriter (id_ w) (target_buffer_ w) (next_chunk_id_ w) (cur_chunk_ w) (stream_ w) (root_ w) (nested_ w) (finalized_ w) (cur_fragment_start_ w)
    (last_packet_size_field_ w) (modes_ w) (patch_list_ w) (popped_ w) (arbiter_ w) l.

Definition set_fragmenting (b : bool) (m : Modes) : Modes := mkModes b (reached_max_packets_per_chunk_ m) (drop_packets_ m) (retry_new_chunk_after_packet_ m) (first_packet_on_sequence_ m).
Definition set_reached_max (b : bool) (m : Modes) : Modes := mkModes (fragmenting_packet_ m) b (drop_packets_ m) (retry_new_chunk_after_packet_ m) (first_packet_on_sequence_ m).
Definition set_retry (b : bool) (m : Modes) : Modes := mkModes (fragmenting_packet_ m) (reached_max_packets_per_chunk_ m) (drop_packets_ m) b (first_packet_on_sequence_ m).
Definition set_first (b : bool) (m : Modes) : Modes := mkModes (fragmenting_packet_ m) (reached_max_packets_per_chunk_ m) (drop_packets_ m) (retry_new_chunk_after_packet_ m) b.
(** GetNewBuffer ends with these: a new chunk, or none. *)
Definition new_chunk_modes (drop : bool) (m : Modes) : Modes := mkModes (fragmenting_packet_ m) false drop false (first_packet_on_sequence_ m).

(** A new writer; its packet is finalized (cur_packet_->Finalize()). *)
Definition TraceWriterImpl (id target : Z) (a : Arbiter) (supply : list (list bool * option (list Z))) : outcome Writer :=
  check! negb (id =? 0) in
  Ok (mkWriter id target 0 None (mkPos Nowhere 0 0) (mkOpen 0 Null 0) [] true 0 Null (mkModes false false false false true) [] 0 a supply).

(** ** Stores *)

(** Four bytes to a size field.  A pointer to a chunk that is not held any more, to a patch
    that has left the list, or out of its chunk is a Crash. *)
Definition store (f : address) (src : list Z) (w : Writer) : outcome Writer :=
  match f with
  | Null => Crash
  | InChunk id off =>
      match cur_chunk_ w with
      | Some c =>
          check! (wc_chunk_id c =? id) && (0 <=? off) && (off + zlen src <=? zlen (wc_payload c)) in
          Ok (set_chunk (Some (set_payload (zwrite off src (wc_payload c)) c)) w)
      | None => Crash
      end
  | InPatch n =>
      check! (popped_ w <=? n)%nat && (n <? popped_ w + length (patch_list_ w))%nat in
      Ok (set_patches (alter (fun p => mkPatch (pt_chunk_id p) (pt_offset p) src) (n - popped_ w)%nat (patch_list_ w)) (popped_ w) w)
  | InGarbage off => check! (0 <=? off) && (off + zlen src <=? kGarbageChunkSize) in Ok w
  end.
(** WriteRedundantVarInt to a size field. *)
Definition write_size (size : Z) (f : address) (w : Writer) : outcome Writer := store f (WriteRedundantVarInt (u32 size) kMessageLengthFieldSize) w.

(** ** The arbiter, as the writer calls it *)

(** [done] patches have left the list. *)
Definition update_patches (old new : PatchList) (w : Writer) : Writer := set_patches new (popped_ w + (length old - length new))%nat w.
Definition return_chunk (c : WChunk) (w : Writer) : outcome Writer :=
  let! (pl, a) := ReturnCompletedChunk c (target_buffer_ w) (patch_list_ w) (arbiter_ w) in
  Ok (set_arbiter a (update_patches (patch_list_ w) pl w)).
Definition send_patches (w : Writer) : outcome Writer :=
  match patch_list_ w with
  | p :: _ =>
      if is_patched p then
        let! (pl, a) := SendPatches (id_ w) (target_buffer_ w) (patch_list_ w) (arbiter_ w) in
        Ok (set_arbiter a (update_patches (patch_list_ w) pl w))
      else Ok w
  | [] => Ok w
  end.
(** GetNewChunk: a chunk with the given header, or none when the memory is exhausted. *)
Definition GetNewChunk (count flags : Z) (w : Writer) : option WChunk * Writer :=
  match supply_ w with
  | [] => (None, w)
  | (flushes, answer) :: rest =>
      let a := fold_left (fun (a : Arbiter) (posted : bool) => if posted then PostedFlush a else FlushPendingCommitDataRequests true false a) flushes (arbiter_ w) in
      ((fun payload => mkWChunk (id_ w) (next_chunk_id_ w) payload count flags) <$> answer, set_supply rest (set_arbiter a w))
  end.

(** ** GetNewBuffer *)

(** AnnotatePatch, for an address in the chunk that is held. *)
Definition AnnotatePatch (off : Z) (c : WChunk) (w : Writer) : address * Writer :=
  let n := (popped_ w + length (patch_list_ w))%nat in
  let w := set_patches (emplace_back (wc_chunk_id c) (u16 off) (patch_list_ w)) (popped_ w) w in
  (InPatch n, set_chunk (Some (set_flags (wc_flags c .| kChunkNeedsPatching) c)) w).
(** The offset of a size field that points within the chunk. *)
Definition field_in_chunk (f : address) (c : WChunk) : option Z :=
  match f with
  | InChunk id off => if (id =? wc_chunk_id c) && (0 <=? off) && (off + kMessageLengthFieldSize <=? zlen (wc_payload c)) then Some off else None
  | _ => None
  end.
(** The size fields in the chunk become patches, the outermost message first. *)
Fixpoint detour (ms : list OpenMessage) (w : Writer) : list OpenMessage * Writer :=
  match ms with
  | [] => ([], w)
  | m :: rest =>
      let '(rest, w) := detour rest w in
      match cur_chunk_ w with
      | Some c =>
          match field_in_chunk (om_field m) c with
          | Some off => let '(f, w) := AnnotatePatch off c w in (set_field f m :: rest, w)
          | None => (m :: rest, w)
          end
      | None => (m :: rest, w)
      end
  end.
(** The size fields in the chunk are forgotten. *)
Definition invalidate (c : option WChunk) (m : OpenMessage) : OpenMessage :=
  match c with
  | Some c => match field_in_chunk (om_field m) c with Some _ => set_field Null m | None => m end
  | None => m
  end.

Definition garbage_range : StreamPos := mkPos GarbageChunk 0 kGarbageChunkSize.
(** No new chunk: the packet (the last one, when none is open) is invalidated. *)
Definition drop_mode (w : Writer) : outcome Writer :=
  let m := modes_ w in
  let! w :=
    if fragmenting_packet_ m then
      let! w := write_size kPacketSizeDropPacket (om_field (root_ w)) w in
      Ok (set_packet (set_field Null (root_ w)) (map (invalidate (cur_chunk_ w)) (nested_ w)) (finalized_ w) w)
    else if negb (drop_packets_ m) && match last_packet_size_field_ w with Null => false | _ => true end then
      write_size kPacketSizeDropPacket (last_packet_size_field_ w) w
    else Ok w in
  let! w := match cur_chunk_ w with Some c => return_chunk c w | None => Ok w end in
  Ok (set_last_field Null (set_chunk None (set_modes (new_chunk_modes true (modes_ w)) w))).
(** The fragment that ends with the chunk. *)
Definition end_fragment (w : Writer) : outcome Writer :=
  let partial_size := write_ptr_ (stream_ w) - cur_fragment_start_ w in
  let root := mkOpen (om_size (root_ w)) (om_field (root_ w)) (u32 (om_already (root_ w) + u32 partial_size)) in
  let w := set_packet root (nested_ w) (finalized_ w) w in
  let! w := match cur_chunk_ w with
            | Some c => Ok (set_chunk (Some (set_flags (wc_flags c .| kLastPacketContinuesOnNextChunk) c)) w)
            | None => Crash
            end in
  let! w := write_size partial_size (om_field (root_ w)) w in
  let '(nested, w) := detour (nested_ w) w in
  Ok (set_packet (root_ w) nested (finalized_ w) w).
(** The switch to a new chunk. *)
Definition use_chunk (new_chunk : WChunk) (w : Writer) : outcome (StreamPos * Writer) :=
  let fragmenting := fragmenting_packet_ (modes_ w) in
  let! w := if fragmenting then end_fragment w else Ok w in
  let! w := match cur_chunk_ w with Some c => return_chunk c w | None => Ok w end in
  let w := set_last_field Null (set_chunk (Some new_chunk) (set_next_chunk_id (u32 (next_chunk_id_ w + 1)) (set_modes (new_chunk_modes false (modes_ w)) w))) in
  let size := zlen (wc_payload new_chunk) in
  if fragmenting then
    let header := InChunk (wc_chunk_id new_chunk) 0 in
    let! w := store header (zeros kPacketHeaderSize) (set_last_field header (set_packet (set_field header (root_ w)) (nested_ w) (finalized_ w) w)) in
    Ok (mkPos CurrentChunk kPacketHeaderSize size, set_fragment_start kPacketHeaderSize w)
  else Ok (mkPos CurrentChunk 0 size, w).
(** The range GetNewBuffer returns is where its caller resets the stream writer. *)
Definition GetNewBuffer (w : Writer) : outcome (StreamPos * Writer) :=
  if fragmenting_packet_ (modes_ w) && drop_packets_ (modes_ w) then Ok (garbage_range, set_modes (set_retry true (modes_ w)) w)
  else
    let fragmenting := fragmenting_packet_ (modes_ w) in
    let '(new_chunk, w) := GetNewChunk (if fragmenting then 1 else 0) (if fragmenting then kFirstPacketContinuesFromPrevChunk else 0) w in
    match new_chunk with
    | None => let! w := drop_mode w in Ok (garbage_range, w)
    | Some new_chunk => use_chunk new_chunk w
    end.

(** ** ScatteredStreamWriter over these buffers *)

Definition Extend (w : Writer) : outcome Writer := let! (range, w) := GetNewBuffer w in Ok (set_stream range w).
(** memcpy() to the write pointer; nobody reads the garbage chunk. *)
Definition WriteBytesUnsafe (src : list Z) (w : Writer) : outcome Writer :=
  let p := stream_ w in
  check! write_ptr_ p + zlen src <=? range_end_ p in
  let! w := match where_ p, cur_chunk_ w with
            | CurrentChunk, Some c => Ok (set_chunk (Some (set_payload (zwrite (write_ptr_ p) src (wc_payload c)) c)) w)
            | GarbageChunk, _ => Ok w
            | _, _ => Crash
            end in
  Ok (set_stream (mkPos (where_ p) (write_ptr_ p + zlen src) (range_end_ p)) w).
(** Every round writes at least one byte, so there are at most as many rounds as bytes;
    more would be a Crash. *)
Fixpoint WriteBytesSlowPath (fuel : nat) (src : list Z) (w : Writer) : outcome Writer :=
  match fuel with
  | O => check! bool_decide (src = []) in Ok w
  | S fuel =>
      if 0 <? zlen src then
        let! w := if range_end_ (stream_ w) <=? write_ptr_ (stream_ w) then Extend w else Ok w in
        let burst_size := Z.min (available (stream_ w)) (zlen src) in
        let! w := WriteBytesUnsafe (ztake burst_size src) w in
        WriteBytesSlowPath fuel (zdrop burst_size src) w
      else Ok w
  end.
Definition WriteBytes (src : list Z) (w : Writer) : outcome Writer :=
  if write_ptr_ (stream_ w) + zlen src <=? range_end_ (stream_ w)
  then if bool_decide (src = []) then Ok w else WriteBytesUnsafe src w
  else WriteBytesSlowPath (length src) src w.
(** The address of a place of the current range. *)
Definition address_of (off : Z) (w : Writer) : address :=
  match where_ (stream_ w), cur_chunk_ w with
  | CurrentChunk, Some c => InChunk (wc_chunk_id c) off
  | GarbageChunk, _ => InGarbage off
  | _, _ => Null
  end.
Definition ReserveBytes (size : Z) (w : Writer) : outcome (address * Writer) :=
  let! w := if range_end_ (stream_ w) <? write_ptr_ (stream_ w) + size then Extend w else Ok w in
  let p := stream_ w in
  Ok (address_of (write_ptr_ p) w, set_stream (mkPos (where_ p) (write_ptr_ p + size) (range_end_ p)) w).

(** ** The messages of the packet *)

(** The innermost message grows. *)
Definition grow (n : Z) (w : Writer) : Writer :=
  match nested_ w with
  | m :: rest => set_packet (root_ w) (add_size n m :: rest) (finalized_ w) w
  | [] => set_packet (add_size n (root_ w)) [] (finalized_ w) w
  end.
Definition WriteToStream (src : list Z) (w : Writer) : outcome Writer :=
  let! w := WriteBytes src w in Ok (grow (u32 (zlen src)) w).
(** The end of Finalize: the size is written to the size field, if there is one. *)
Definition backfill (size : Z) (f : address) (w : Writer) : outcome Writer :=
  match f with Null => Ok w | _ => write_size size f w end.
(** Finalize of the innermost nested message and EndNestedMessage of its parent. *)
Definition EndInnermost (w : Writer) : outcome Writer :=
  match nested_ w with
  | [] => Ok w
  | m :: rest =>
      let! w := backfill (om_size m - om_already m) (om_field m) w in
      Ok (grow (om_size m) (set_packet (root_ w) rest (finalized_ w) w))
  end.
(** A method of the message at [depth] first ends the messages below it. *)
Fixpoint EndNestedMessages (fuel : nat) (depth : nat) (w : Writer) : outcome Writer :=
  match fuel with
  | O => Ok w
  | S fuel => if (depth <? length (nested_ w))%nat then let! w := EndInnermost w in EndNestedMessages fuel depth w else Ok w
  end.
Definition end_nested (depth : nat) (w : Writer) : outcome Writer := EndNestedMessages (length (nested_ w)) depth w.
Definition BeginNestedMessage (field_id : Z) (w : Writer) : outcome Writer :=
  let! w := WriteToStream (WriteVarInt uint32_t (MakeTagLengthDelimited field_id)) w in
  let! (f, w) := ReserveBytes kMessageLengthFieldSize w in
  let w := grow kMessageLengthFieldSize w in
  Ok (set_packet (root_ w) (mkOpen 0 f 0 :: nested_ w) (finalized_ w) w).
(** A call on the message at [depth]. *)
Fixpoint run_call (depth : nat) (c : call) (w : Writer) : outcome Writer :=
  let! w := end_nested depth w in
  match c with
  | CVarInt T id v => WriteToStream (WriteVarInt uint32_t (MakeTagVarInt id) ++ WriteVarInt T v) w
  | CSignedVarInt bits id v => WriteToStream (WriteVarInt uint32_t (MakeTagVarInt id) ++ WriteVarInt (IntType bits false) (ZigZagEncode bits v)) w
  | CTinyVarInt id v => WriteToStream (WriteVarInt uint32_t (MakeTagVarInt id) ++ [u8 v]) w
  | CFixed sz id v => WriteToStream (WriteVarInt uint32_t (MakeTagFixed sz id) ++ le_bytes (Z.to_nat sz) v) w
  | CBytes id src =>
      let! w := WriteToStream (WriteVarInt uint32_t (MakeTagLengthDelimited id) ++ WriteVarInt uint32_t (u32 (zlen src))) w in
      WriteToStream src w
  | CNested id body =>
      let! w := BeginNestedMessage id w in
      (fix run (l : list call) (w : Writer) : outcome Writer :=
         match l with [] => Ok w | c :: l => let! w := run_call (S depth) c w in run l w end) body w
  end.
Fixpoint run_calls (depth : nat) (l : list call) (w : Writer) : outcome Writer :=
  match l with
  | [] => Ok w
  | c :: l => let! w := run_call depth c w in run_calls depth l w
  end.

(** ** NewTracePacket, the end of a packet, Flush *)

(** The fields of TracePacket the writer sets (protos/perfetto/trace/trace_packet.proto). *)
Definition kPreviousPacketDropped : Z := 42.
Definition kFirstPacketOnSequence : Z := 87.

(** The header of the packet, its size field. *)
Definition write_header (w : Writer) : outcome Writer :=
  let w := set_packet (mkOpen 0 Null 0) [] false w in
  let! (header, w) := ReserveBytes kPacketHeaderSize w in
  let! w := store header (zeros kPacketHeaderSize) w in
  let w := set_last_field header (set_packet (mkOpen 0 header 0) [] false w) in
  Ok (set_modes (set_fragmenting true (modes_ w)) (set_fragment_start (write_ptr_ (stream_ w)) w)).
(** The prologue: a chunk with room, the completed patches sent, the header reserved. *)
Definition begin_packet (w : Writer) : outcome Writer :=
  check! finalized_ w in
  let w := set_modes (set_fragmenting false (modes_ w)) w in
  let chunk_too_full := available (stream_ w) <? kPacketHeaderSize + 8 in
  let! w := if chunk_too_full || reached_max_packets_per_chunk_ (modes_ w) || retry_new_chunk_after_packet_ (modes_ w) then Extend w else Ok w in
  let! w := send_patches w in
  write_header w.
(** The chunk counts the packet, unless it is dropped. *)
Definition count_packet (w : Writer) : outcome Writer :=
  if negb (drop_packets_ (modes_ w)) then
    match cur_chunk_ w with
    | Some c =>
        let new_packet_count := (wc_count c + 1) `mod` 1024 in
        Ok (set_modes (set_reached_max (new_packet_count =? kMaxCount) (modes_ w)) (set_chunk (Some (set_count new_packet_count c)) w))
    | None => Crash
    end
  else Ok w.
Definition NewTracePacket (w : Writer) : outcome Writer :=
  let was_dropping_packets := drop_packets_ (modes_ w) in
  let! w := begin_packet w in
  let! w := count_packet w in
  let! w := if negb (drop_packets_ (modes_ w)) && was_dropping_packets then run_call 0 (CTinyVarInt kPreviousPacketDropped 1) w else Ok w in
  if first_packet_on_sequence_ (modes_ w) then
    let! w := run_call 0 (CTinyVarInt kFirstPacketOnSequence 1) w in
    Ok (set_modes (set_first false (modes_ w)) w)
  else Ok w.
(** The packet ends with its handle: Finalize of the root message. *)
Definition FinalizePacket (w : Writer) : outcome Writer :=
  if finalized_ w then Ok w
  else
    let! w := end_nested 0 w in
    let! w := backfill (om_size (root_ w) - om_already (root_ w)) (om_field (root_ w)) w in
    Ok (set_packet (set_field Null (root_ w)) [] true w).
(** For clients that write through the stream writer. *)
Definition FinishTracePacket (w : Writer) : outcome Writer :=
  let! w := match om_field (root_ w) with
            | Null => Ok w
            | _ => write_size (write_ptr_ (stream_ w) - cur_fragment_start_ w) (last_packet_size_field_ w) w
            end in
  send_patches (set_packet (mkOpen 0 Null 0) [] true w).
Definition Flush (on_task_runner has_callback : bool) (w : Writer) : outcome Writer :=
  check! finalized_ w in
  let! w := match cur_chunk_ w with Some c => let! w := return_chunk c w in Ok (set_chunk None w) | None => Ok w end in
  let w := set_arbiter (FlushPendingCommitDataRequests on_task_runner has_callback (arbiter_ w)) w in
  Ok (set_last_field Null (set_stream (mkPos Nowhere 0 0) w)).
(** The destructor. *)
Definition TraceWriterImpl_delete (w : Writer) : outcome Writer :=
  match cur_chunk_ w with Some _ => let! w := FinalizePacket w in Flush true false w | None => Ok w end.

(** ** What a client does *)

(** A packet is filled through the message API, or by bytes given to the stream writer. *)
Inductive packet : Type := Calls (l : list call) | Raw (l : list (list Z)).
Fixpoint write_all (l : list (list Z)) (w : Writer) : outcome Writer :=
  match l with [] => Ok w | src :: l => let! w := WriteBytes src w in write_all l w end.
Definition write_packet (p : packet) (w : Writer) : outcome Writer :=
  let! w := NewTracePacket w in
  match p with
  | Calls l => let! w := run_calls 0 l w in FinalizePacket w
  | Raw l => let! w := write_all l w in FinishTracePacket w
  end.
Inductive writer_op : Type := WritePacket (p : packet) | FlushWriter (on_task_runner has_callback : bool) | ArbiterTask.
Definition run_writer_op (o : writer_op) (w : Writer) : outcome Writer :=
  match o with
  | WritePacket p => write_packet p w
  | FlushWriter t c => Flush t c w
  | ArbiterTask => Ok (set_arbiter (PostedFlush (arbiter_ w)) w)
  end.
Fixpoint run_writer (ops : list writer_op) (w : Writer) : outcome Writer :=
  match ops with [] => Ok w | o :: ops => let! w := run_writer_op o w in run_writer ops w end.
