(* ===== verification/TraceWriterInvariant.v ===== *)
(** * The state of a trace writer, chunk by chunk
    (src/tracing/core/trace_writer_impl.cc, shared_memory_arbiter_impl.cc)

    How the service reads the chunks of a writer ([read_chunks]: the fragments of every
    chunk, found by [next_fragment] and stitched together), the invariant that ties the
    patches, the arbiter and the chunks of the writer ([base]), and the state of a writer
    with an open packet ([opened]): the bytes of the packet, the pieces in the chunks that
    were returned and in the current chunk, the size fields that are still to be written. *)

From S2P Require Import Prelude ProtoUtils ProtoDecoder ProtoWriter TraceBuffer TraceBufferRead TraceBufferSession SharedMemoryArbiter ArbiterPatches TraceWriter.

(** ** The reader *)

(** A fragment of a packet: whether it starts and ends the packet, and its bytes; None is a
    fragment that cannot be read, and ends its chunk. *)
Definition item : Type := option (bool * bool * list Z).
Fixpoint chunk_items (n : nat) (off : Z) (starts last_continues : bool) (payload : list Z) : list item :=
  match n with
  | O => []
  | S n =>
      match next_fragment payload off with
      | None => [None]
      | Some (body, off') => Some (starts, negb (last_continues && bool_decide (n = O)), body) :: chunk_items n off' true last_continues payload
      end
  end.
Definition starts_packet (c : WChunk) : bool := negb (chunk_has_flag kFirstPacketContinuesFromPrevChunk c).
Definition items_of (c : WChunk) : list item :=
  chunk_items (Z.to_nat (wc_count c)) 0 (starts_packet c) (chunk_has_flag kLastPacketContinuesOnNextChunk c) (wc_payload c).
(** The complete packets, and the packet that has begun. *)
Definition reading : Type := list (list Z) * option (list Z).
Definition feed (s : reading) (i : item) : reading :=
  match i with
  | None => (s.1, None)
  | Some (starts, ends, body) =>
      match (if starts then Some body else (fun p => p ++ body) <$> s.2) with
      | None => (s.1, None)
      | Some p => if ends then (s.1 ++ [p], None) else (s.1, Some p)
      end
  end.
Definition feed_all (s : reading) (l : list item) : reading := fold_left feed l s.
Definition read_chunks (s : reading) (cs : list WChunk) : reading := feed_all s (concat (map items_of cs)).
Definition reassemble (cs : list WChunk) : list (list Z) := (read_chunks ([], None) cs).1.

Lemma feed_all_app s l k : feed_all s (l ++ k) = feed_all (feed_all s l) k.
Proof. apply fold_left_app. Qed.
Lemma read_chunks_app s l k : read_chunks s (l ++ k) = read_chunks (read_chunks s l) k.
Proof. unfold read_chunks. rewrite map_app, concat_app. apply feed_all_app. Qed.
Lemma read_chunks_one s c : read_chunks s [c] = feed_all s (items_of c).
Proof. unfold read_chunks. cbn [map concat]. by rewrite app_nil_r. Qed.

(** ** The layout of a chunk *)

Ltac max_lia := change kMaxMessageLength with 268435455 in *; unfold word_ok in *; lia.

Definition encode_fragment (b : list Z) : list Z := WriteRedundantVarInt (zlen b) kMessageLengthFieldSize ++ b.
Definition encode_fragments (l : list (list Z)) : list Z := concat (map encode_fragment l).
Definition drop_header : list Z := WriteRedundantVarInt kPacketSizeDropPacket kMessageLengthFieldSize.
(** The items of a chunk with these fragments. *)
Fixpoint layout_items (starts last_continues : bool) (l : list (list Z)) : list item :=
  match l with
  | [] => []
  | b :: r => Some (starts, negb (last_continues && bool_decide (r = [])), b) :: layout_items true last_continues r
  end.

Lemma zlen_redundant v : word_ok 32 v -> zlen (WriteRedundantVarInt v kMessageLengthFieldSize) = 4.
Proof. intros H. apply (WriteRedundantVarInt_spec v kMessageLengthFieldSize H). unfold kMessageLengthFieldSize. lia. Qed.
Lemma zlen_encode_fragment b : zlen b <= kMaxMessageLength -> zlen (encode_fragment b) = 4 + zlen b.
Proof.
  intros H. unfold encode_fragment. rewrite zlen_app, zlen_redundant; [done|]. pose proof (zlen_nonneg b). max_lia.
Qed.
Lemma fragment_of b : zlen b <= kMaxMessageLength -> fragment_ok (WriteRedundantVarInt (zlen b) kMessageLengthFieldSize, b).
Proof.
  intros H. pose proof (zlen_nonneg b). change kMaxMessageLength with 268435455 in *. destruct (WriteRedundantVarInt_spec (zlen b) kMessageLengthFieldSize) as (H1 & H2 & H3);
    [unfold word_ok; lia|unfold kMessageLengthFieldSize; lia|].
  destruct H3 as [H3 H4]; [unfold kMessageLengthFieldSize in *; lia|]. split; cbn [fst snd]; [done|split; [done|lia]|done].
Qed.
Lemma next_fragment_encoded pre b rest : zlen b <= kMaxMessageLength ->
  next_fragment (pre ++ encode_fragment b ++ rest) (zlen pre) = Some (b, zlen (pre ++ encode_fragment b)).
Proof.
  intros H. pose proof (next_fragment_bytes pre _ rest (fragment_of b H)) as E. unfold fragment_bytes in E. cbn [fst snd] in E. rewrite zlen_app. exact E.
Qed.
Lemma next_fragment_drop pre rest : zlen (pre ++ drop_header ++ rest) < kMaxMessageLength -> next_fragment (pre ++ drop_header ++ rest) (zlen pre) = None.
Proof.
  change drop_header with [255; 255; 255; 127]. set (h := [255; 255; 255; 127]). intros Hl. pose proof (zlen_nonneg rest). pose proof (zlen_nonneg pre).
  assert (Hh : zlen h = 4) by reflexivity. rewrite !zlen_app, Hh in Hl.
  unfold next_fragment. rewrite !zlen_app, Hh. replace ((zlen pre <? 0) || (zlen pre + (4 + zlen rest) <=? zlen pre)) with false by lia.
  replace (Z.min kMessageLengthFieldSize (zlen pre + (4 + zlen rest) - zlen pre)) with (zlen h) by (unfold kMessageLengthFieldSize; rewrite Hh; lia).
  rewrite zread_app_exact. change (ParseVarInt h) with (4, 268435455). cbv beta iota. change kMaxMessageLength with 268435455 in *.
  by replace ((4 + 268435455 <=? 0) || (zlen pre + (4 + zlen rest) <? zlen pre + 4 + 268435455)) with true by lia.
Qed.

Lemma chunk_items_layout l : forall pre starts lc tail, Forall (fun b => zlen b <= kMaxMessageLength) l ->
  chunk_items (length l) (zlen pre) starts lc (pre ++ encode_fragments l ++ tail) = layout_items starts lc l.
Proof.
  induction l as [|b l IH]; intros pre starts lc tail Hl; [done|]. apply Forall_cons in Hl as [Hb Hl]. cbn [length chunk_items].
  unfold encode_fragments. cbn [map concat]. rewrite <- (app_assoc (encode_fragment b)). fold (encode_fragments l). rewrite next_fragment_encoded by done. rewrite (app_assoc pre).
  rewrite IH by done. cbn [layout_items]. destruct l; done.
Qed.
(** One more fragment after those of the layout, that cannot be read. *)
Lemma chunk_items_drop l : forall pre starts tail, Forall (fun b => zlen b <= kMaxMessageLength) l ->
  zlen (pre ++ encode_fragments l ++ drop_header ++ tail) < kMaxMessageLength ->
  chunk_items (S (length l)) (zlen pre) starts false (pre ++ encode_fragments l ++ drop_header ++ tail) = layout_items starts false l ++ [None].
Proof.
  induction l as [|b l IH]; intros pre starts tail Hl Hz.
  - cbn [length chunk_items encode_fragments map concat app layout_items] in *. by rewrite next_fragment_drop.
  - apply Forall_cons in Hl as [Hb Hl]. change (S (length (b :: l))) with (S (S (length l))). cbn [chunk_items].
    unfold encode_fragments in *. cbn [map concat] in *. rewrite <- (app_assoc (encode_fragment b)) in *. rewrite next_fragment_encoded by done.
    rewrite (app_assoc pre) in *. specialize (IH (pre ++ encode_fragment b) true tail Hl Hz). cbn [chunk_items] in IH. rewrite IH. done.
Qed.

Definition frag_starts (starts : bool) (pre : list (list Z)) : bool := match pre with [] => starts | _ => true end.
Lemma layout_items_app lc b l : forall starts,
  layout_items starts lc (l ++ [b]) = layout_items starts false l ++ [Some (frag_starts starts l, negb lc, b)].
Proof.
  induction l as [|x l IH]; intros starts; cbn [app layout_items frag_starts].
  - rewrite bool_decide_eq_true_2 by done. by rewrite andb_true_r.
  - rewrite IH. rewrite bool_decide_eq_false_2 by (by destruct l). rewrite andb_false_r. cbn [andb negb]. do 3 f_equal. by destruct l.
Qed.

(** ** The chunks of a packet *)

(** A chunk that ends with a piece of a packet, after the fragments [pc_pre]. *)
Record piece := mkPiece { pc_pre : list (list Z); pc_body : list Z; pc_tail : list Z }.
Definition small (b : list Z) : Prop := zlen b <= kMaxMessageLength.
Record piece_chunk (pc : piece) (c : WChunk) : Prop := {
  pk_payload : wc_payload c = encode_fragments (pc_pre pc) ++ encode_fragment (pc_body pc) ++ pc_tail pc;
  pk_count : wc_count c = Z.of_nat (length (pc_pre pc)) + 1;
  pk_flag : chunk_has_flag kLastPacketContinuesOnNextChunk c = true;
  pk_small : Forall small (pc_pre pc) /\ small (pc_body pc)
}.
(** The chunks of a packet that are full; [S] is what was read before them. *)
Definition follows (x : WChunk * piece) : Prop := piece_chunk x.2 x.1 /\ pc_pre x.2 = [] /\ starts_packet x.1 = false.
Definition begins (S : reading) (D : list (list Z)) (c : WChunk) (pre : list (list Z)) : Prop :=
  (feed_all S (layout_items (starts_packet c) false pre)).1 = D /\ frag_starts (starts_packet c) pre = true.
Definition packet_chunks (S : reading) (D : list (list Z)) (ps : list (WChunk * piece)) : Prop :=
  match ps with [] => True | x :: r => piece_chunk x.2 x.1 /\ begins S D x.1 (pc_pre x.2) /\ Forall follows r end.
Definition bodies_of (ps : list (WChunk * piece)) : list (list Z) := map (fun x => pc_body x.2) ps.
(** The chunk that comes next, with its fragments before the packet. *)
Definition continues_in (S : reading) (D : list (list Z)) (ps : list (WChunk * piece)) (c : WChunk) (pre : list (list Z)) : Prop :=
  match ps with [] => begins S D c pre | _ => pre = [] /\ starts_packet c = false end.

Lemma encode_fragments_app l k : encode_fragments (l ++ k) = encode_fragments l ++ encode_fragments k.
Proof. unfold encode_fragments. by rewrite map_app, concat_app. Qed.
Lemma encode_fragments_one b : encode_fragments [b] = encode_fragment b.
Proof. unfold encode_fragments. cbn [map concat]. apply app_nil_r. Qed.
Lemma items_of_layout c l tail : wc_payload c = encode_fragments l ++ tail -> wc_count c = Z.of_nat (length l) -> Forall small l ->
  items_of c = layout_items (starts_packet c) (chunk_has_flag kLastPacketContinuesOnNextChunk c) l.
Proof.
  intros Hp Hn Hl. unfold items_of. rewrite Hp, Hn, Nat2Z.id. exact (chunk_items_layout l [] _ _ tail Hl).
Qed.
Lemma items_of_piece pc c : piece_chunk pc c ->
  items_of c = layout_items (starts_packet c) false (pc_pre pc) ++ [Some (frag_starts (starts_packet c) (pc_pre pc), false, pc_body pc)].
Proof.
  intros [Hp Hn Hf [H1 H2]]. rewrite (items_of_layout c (pc_pre pc ++ [pc_body pc]) (pc_tail pc)).
  - rewrite Hf. apply layout_items_app.
  - rewrite Hp, encode_fragments_app, encode_fragments_one. by rewrite <- app_assoc.
  - rewrite Hn, length_app. cbn [length]. lia.
  - apply Forall_app. by repeat constructor.
Qed.
Lemma items_of_dropped c l tail : wc_payload c = encode_fragments l ++ drop_header ++ tail -> wc_count c = Z.of_nat (length l) + 1 -> Forall small l ->
  chunk_has_flag kLastPacketContinuesOnNextChunk c = false -> zlen (wc_payload c) < kMaxMessageLength ->
  items_of c = layout_items (starts_packet c) false l ++ [None].
Proof.
  intros Hp Hn Hl Hf Hz. unfold items_of. rewrite Hp in *. rewrite Hn, Hf. replace (Z.to_nat (Z.of_nat (length l) + 1)) with (S (length l)) by lia.
  exact (chunk_items_drop l [] _ tail Hl Hz).
Qed.

(** What reading the next fragment of the packet gives. *)
Lemma follows_run D ps : forall X, Forall follows ps -> read_chunks (D, Some X) (map fst ps) = (D, Some (X ++ concat (bodies_of ps))).
Proof.
  induction ps as [|[c pc] ps IH]; intros X H; [cbn; by rewrite app_nil_r|]. apply Forall_cons in H as [(Hpc & Hpre & Hst) H]. cbn [fst snd] in *.
  change (map fst ((c, pc) :: ps)) with ([c] ++ map fst ps). rewrite read_chunks_app, read_chunks_one, (items_of_piece pc c Hpc), Hpre, Hst. cbn [layout_items app frag_starts].
  cbn [feed_all fold_left feed fmap option_fmap option_map snd fst]. cbn. rewrite IH by done. cbn [bodies_of map concat snd]. by rewrite app_assoc.
Qed.
Lemma packet_run S D x r : packet_chunks S D (x :: r) -> read_chunks S (map fst (x :: r)) = (D, Some (concat (bodies_of (x :: r)))).
Proof.
  intros (Hpc & [Hd Hst] & Hr). destruct x as [c pc]. cbn [fst snd] in *. change (map fst ((c, pc) :: r)) with ([c] ++ map fst r).
  rewrite read_chunks_app, read_chunks_one, (items_of_piece pc c Hpc), feed_all_app, Hst. cbn [feed_all fold_left feed]. rewrite Hd. by rewrite follows_run.
Qed.
Lemma continues_run S D ps c pre : packet_chunks S D ps -> continues_in S D ps c pre ->
  let T := feed_all (read_chunks S (map fst ps)) (layout_items (starts_packet c) false pre) in
  T.1 = D /\ (forall b, feed T (Some (frag_starts (starts_packet c) pre, true, b)) = (D ++ [concat (bodies_of ps) ++ b], None)) /\
  (forall b, feed T (Some (frag_starts (starts_packet c) pre, false, b)) = (D, Some (concat (bodies_of ps) ++ b))).
Proof.
  intros Hp Hc. destruct ps as [|x r].
  - destruct Hc as [Hd Hst]. cbn [map bodies_of concat app]. unfold read_chunks. cbn [map concat feed_all fold_left]. fold (feed_all S (layout_items (starts_packet c) false pre)).
    cbv zeta. rewrite Hst. cbn [feed]. by rewrite Hd.
  - destruct Hc as [-> Hst]. cbv zeta. rewrite (packet_run _ _ _ _ Hp), Hst. cbn [layout_items feed_all fold_left frag_starts feed fst snd]. done.
Qed.

(** ** Patches in any order *)

Lemma zwrite_comm {A} a b (s t l : list A) : 0 <= a -> a + zlen s <= b -> b + zlen t <= zlen l ->
  zwrite a s (zwrite b t l) = zwrite b t (zwrite a s l).
Proof.
  intros Ha Hab Hb. pose proof (zlen_nonneg s). pose proof (zlen_nonneg t). assert (E : l = ztake b l ++ zdrop b l) by (unfold ztake, zdrop; by rewrite take_drop).
  assert (Hz : zlen (ztake b l) = b) by (unfold ztake, zlen in *; rewrite length_take; lia).
  rewrite E. rewrite (zwrite_app_r b) by lia. rewrite !(zwrite_app_l a) by lia. rewrite zwrite_app_r by (rewrite zlen_zwrite; lia).
  rewrite zlen_zwrite by lia. done.
Qed.
Definition apart (p q : Z * list Z) : Prop := p.1 + zlen p.2 <= q.1 \/ q.1 + zlen q.2 <= p.1.
Lemma patch_payload_comm p q c : apart p q -> patch_payload p (patch_payload q c) = patch_payload q (patch_payload p c).
Proof.
  destruct p as [a s], q as [b t]. unfold apart. cbn [fst snd]. intros Hap. unfold patch_payload at 1 3. cbn [fst snd]. rewrite !length_patch_payload.
  unfold patch_payload. cbn [fst snd]. destruct ((0 <=? a) && _) eqn:Ea; destruct ((0 <=? b) && _) eqn:Eb; try done. bool_facts.
  unfold set_payload. cbn [wc_payload wc_writer_id wc_chunk_id wc_count wc_flags]. f_equal. destruct Hap; [by apply zwrite_comm|symmetry; by apply zwrite_comm].
Qed.
Lemma write_patch_comm p q c : (p.1 = q.1 -> apart p.2 q.2) -> write_patch (write_patch c q) p = write_patch (write_patch c p) q.
Proof.
  intros H. unfold write_patch at 1 3. rewrite !key_of_write_patch. unfold write_patch. do 2 case_bool_decide; try done. symmetry. apply patch_payload_comm.
  intros. destruct H; [congruence|by right|by left].
Qed.
Lemma write_patch_last q l : forall c, Forall (fun p => p.1 = q.1 -> apart p.2 q.2) l ->
  fold_left write_patch l (write_patch c q) = write_patch (fold_left write_patch l c) q.
Proof.
  induction l as [|p l IH]; intros c H; [done|]. apply Forall_cons in H as [Hp H]. cbn [fold_left]. rewrite write_patch_comm by done. by apply IH.
Qed.

(** ** The invariant of the writer *)

Definition wview (w : Writer) : list WChunk := view (id_ w) (patch_list_ w) (arbiter_ w).
Definition wchunks (w : Writer) : list WChunk := wview w ++ option_list (cur_chunk_ w).
Definition chunk_size_ok (c : WChunk) : Prop := 16 <= zlen (wc_payload c) <= 65535.
Definition supply_ok (l : list (list bool * option (list Z))) : Prop := Forall (fun e => match e.2 with Some p => 16 <= zlen p <= 65535 | None => True end) l.
Definition patch_data (p : Patch) : Z * list Z := (pt_offset p, pt_size_field p).
(** A patch of a chunk of the writer, inside its payload. *)
Definition patch_fits (cs : list WChunk) (p : Patch) : Prop :=
  zlen (pt_size_field p) = kMessageLengthFieldSize /\ 0 <= pt_offset p /\ 0 <= pt_chunk_id p /\
  exists c, cs !! Z.to_nat (pt_chunk_id p) = Some c /\ pt_offset p + kMessageLengthFieldSize <= zlen (wc_payload c).
Record base (w : Writer) : Prop := {
  ba_arbiter : committed_ok (id_ w) (patch_list_ w) (arbiter_ w);
  ba_keys : forall i c, wchunks w !! i = Some c -> key_of c = (id_ w, Z.of_nat i);
  ba_next : next_chunk_id_ w = zlen (wchunks w);
  ba_room : zlen (wchunks w) + zlen (supply_ w) < 4294967296;
  ba_supply : supply_ok (supply_ w);
  ba_sizes : Forall chunk_size_ok (wchunks w);
  ba_patches : Forall (patch_fits (wchunks w)) (patch_list_ w);
  ba_apart : forall i j p q, i <> j -> patch_list_ w !! i = Some p -> patch_list_ w !! j = Some q -> pt_chunk_id p = pt_chunk_id q -> apart (patch_data p) (patch_data q);
  ba_flag : forall c, cur_chunk_ w = Some c -> chunk_has_flag kChunkNeedsPatching c = true -> exists p, p ∈ patch_list_ w /\ pt_chunk_id p = wc_chunk_id c;
  ba_returned : forall p, p ∈ patch_list_ w -> pt_chunk_id p < zlen (wview w) \/ exists c, cur_chunk_ w = Some c /\ chunk_has_flag kChunkNeedsPatching c = true;
  ba_waiting : forall i p, patch_list_ w !! i = Some p -> is_patched p = false -> exists m, m ∈ nested_ w /\ om_field m = InPatch (popped_ w + i)
}.

(** The chunks of the view are those of the requests, patched. *)
Lemma view_lookup i pl a j c : view i pl a !! j = Some c -> exists c', all_chunks (service (sent_ a)) (pending a) !! j = Some c' /\ key_of c' = key_of c /\ zlen (wc_payload c') = zlen (wc_payload c).
Proof.
  rewrite view_request. unfold request_view. rewrite list_lookup_fmap. destruct (_ !! j) as [c'|] eqn:E; [|done]. cbn [fmap option_fmap option_map]. intros [= <-]. exists c'.
  split; [done|]. rewrite key_of_write_patches. split; [done|].
  assert (H : forall l c0, zlen (wc_payload (fold_left write_patch l c0)) = zlen (wc_payload c0)).
  { induction l as [|q l IH]; intros c0; [done|]. cbn [fold_left]. rewrite IH. unfold write_patch. case_bool_decide; [apply length_patch_payload|done]. }
  rewrite H. done.
Qed.
Lemma view_keys i pl a : map key_of (view i pl a) = map key_of (service (requests a)).
Proof. unfold view. rewrite map_map. apply map_ext. intros c. by rewrite key_of_write_patches. Qed.
Lemma length_view i pl a : length (view i pl a) = length (service (requests a)).
Proof. unfold view. apply length_map. Qed.

Lemma wview_index w i c : base w -> wview w !! i = Some c -> key_of c = (id_ w, Z.of_nat i).
Proof. intros H Hi. apply (ba_keys _ H). unfold wchunks. by rewrite lookup_app_l by (by eapply lookup_lt_Some). Qed.
Lemma cur_index w c : base w -> cur_chunk_ w = Some c -> key_of c = (id_ w, zlen (wview w)).
Proof.
  intros H Hc. apply (ba_keys _ H (length (wview w))). unfold wchunks. rewrite Hc, lookup_app_r by lia. by rewrite Nat.sub_diag.
Qed.
Lemma fits_lookup cs cs' p : Forall (fun c => chunk_size_ok c) cs -> length cs = length cs' ->
  (forall i c c', cs !! i = Some c -> cs' !! i = Some c' -> zlen (wc_payload c') = zlen (wc_payload c)) -> patch_fits cs p -> patch_fits cs' p.
Proof.
  intros _ Hlen Hz (H1 & H2 & H3 & c & Hc & H4). split; [done|]. split; [done|]. split; [done|].
  destruct (cs' !! Z.to_nat (pt_chunk_id p)) as [c'|] eqn:E; [|apply lookup_ge_None in E; apply lookup_lt_Some in Hc; lia].
  exists c'. split; [done|]. by rewrite (Hz _ _ _ Hc E).
Qed.
(** The arbiter has sent some patches; the chunks look the same. *)
Record arbiter_step (w w' : Writer) : Prop := {
  as_arbiter : committed_ok (id_ w) (patch_list_ w') (arbiter_ w');
  as_sent : exists sent, patch_list_ w = sent ++ patch_list_ w' /\ Forall (fun p => is_patched p = true) sent /\ popped_ w' = (popped_ w + length sent)%nat;
  as_frame : exists a pl n, w' = set_arbiter a (set_patches pl n w)
}.
Lemma as_patch w w' i p : arbiter_step w w' -> patch_list_ w !! i = Some p -> is_patched p = false ->
  exists j, patch_list_ w' !! j = Some p /\ (popped_ w' + j = popped_ w + i)%nat.
Proof.
  intros H Hi Hp. destruct (as_sent _ _ H) as (sent & E & Hs & Hn). rewrite E in Hi. destruct (decide (i < length sent)%nat).
  - rewrite lookup_app_l in Hi by done. rewrite Forall_forall in Hs. specialize (Hs p ltac:(by eapply list_elem_of_lookup_2)). congruence.
  - rewrite lookup_app_r in Hi by lia. exists (i - length sent)%nat. split; [done|]. lia.
Qed.
Lemma as_suffix w w' j p : arbiter_step w w' -> patch_list_ w' !! j = Some p ->
  exists i, patch_list_ w !! i = Some p /\ (popped_ w' + j = popped_ w + i)%nat.
Proof.
  intros H Hj. destruct (as_sent _ _ H) as (sent & E & Hs & Hn). exists (length sent + j)%nat. split; [|lia]. rewrite E, lookup_app_r by lia.
  by replace (length sent + j - length sent)%nat with j by lia.
Qed.
(** The base invariant after such a step, when the chunks are the same up to the flag. *)
Lemma base_arbiter_step w w' c' : base w -> arbiter_step w w' -> c' = cur_chunk_ w \/ c' = None ->
  length (wview w' ++ option_list c') = length (wchunks w) ->
  (forall i c, (wview w' ++ option_list c') !! i = Some c -> exists c0, wchunks w !! i = Some c0 /\ key_of c0 = key_of c /\ zlen (wc_payload c0) = zlen (wc_payload c)) ->
  (c' = cur_chunk_ w -> patch_list_ w' = patch_list_ w \/ cur_chunk_ w = None \/ exists c, cur_chunk_ w = Some c /\ chunk_has_flag kChunkNeedsPatching c = false) ->
  base (set_chunk c' w').
Proof.
  intros [B1 B2 B3 B4 B5 B6 B7 B8 B9 BR B10] Has Hc Hlen Hcs Hflag. destruct (as_frame _ _ Has) as (a & pl & n & Ew).
  assert (Hch : wchunks (set_chunk c' w') = wview w' ++ option_list c') by done.
  assert (E : id_ w' = id_ w /\ supply_ w' = supply_ w /\ next_chunk_id_ w' = next_chunk_id_ w /\ nested_ w' = nested_ w) by (by subst w'). destruct E as (E1 & E2 & E3 & E4).
  split; rewrite ?Hch; try (change (id_ (set_chunk c' w')) with (id_ w')); try (change (supply_ (set_chunk c' w')) with (supply_ w'));
    try (change (patch_list_ (set_chunk c' w')) with (patch_list_ w')); try (change (next_chunk_id_ (set_chunk c' w')) with (next_chunk_id_ w'));
    try (change (nested_ (set_chunk c' w')) with (nested_ w')); try (change (popped_ (set_chunk c' w')) with (popped_ w')); rewrite ?E1, ?E2, ?E3, ?E4.
  - apply (as_arbiter _ _ Has).
  - intros i c Hi. destruct (Hcs i c Hi) as (c0 & H0 & <- & _). by apply B2.
  - unfold zlen. by rewrite Hlen.
  - unfold zlen. by rewrite Hlen.
  - done.
  - rewrite Forall_lookup in *. intros i c Hi. destruct (Hcs i c Hi) as (c0 & H0 & _ & Hz). unfold chunk_size_ok. rewrite <- Hz. by apply (B6 i).
  - rewrite Forall_lookup. intros i p Hi. destruct (as_suffix _ _ _ _ Has Hi) as (j & Hj & _). rewrite Forall_lookup in B7. eapply (fits_lookup (wchunks w)); [done|done| |by apply (B7 j)].
    intros k c c1 Hk Hk1. destruct (Hcs k c1 Hk1) as (c0 & H0 & _ & Hz). congruence.
  - intros i j p q Hne Hi Hj. destruct (as_suffix _ _ _ _ Has Hi) as (i0 & Hi0 & N1). destruct (as_suffix _ _ _ _ Has Hj) as (j0 & Hj0 & N2). apply (B8 i0 j0); [lia|done|done].
  - cbn [set_chunk cur_chunk_]. intros c -> Hf. destruct Hc as [Hc|Hc]; [|done]. destruct (Hflag Hc) as [->|[Hno|(c1 & Hc1 & Hf1)]]; [by apply B9|congruence|congruence].
  - intros p Hp. apply list_elem_of_lookup in Hp as [i Hi]. destruct (as_suffix _ _ _ _ Has Hi) as (j & Hj & _). change (wview (set_chunk c' w')) with (wview w').
    unfold wchunks in Hlen. destruct Hc as [->| ->].
    + destruct (BR p) as [Hlt|Hcur]; [by eapply list_elem_of_lookup_2| |by right]. left. rewrite !length_app in Hlen. unfold zlen in *. lia.
    + left. rewrite Forall_lookup in B7. destruct (B7 j p Hj) as (_ & _ & _ & c0 & Hc0 & _). apply lookup_lt_Some in Hc0. unfold wchunks in Hc0. cbn [option_list] in Hlen.
      rewrite app_nil_r in Hlen. unfold zlen. lia.
  - intros i p Hi Hp. destruct (as_suffix _ _ _ _ Has Hi) as (j & Hj & ->). by apply (B10 j p).
Qed.

Lemma update_step w chunk pl a' : base w -> returnable (id_ w) (patch_list_ w) (arbiter_ w) chunk -> announced (patch_list_ w) chunk ->
  UpdateCommitDataRequest chunk (id_ w) (target_buffer_ w) (patch_list_ w) (arbiter_ w) = Ok (pl, a') ->
  let w' := set_arbiter a' (update_patches (patch_list_ w) pl w) in
  arbiter_step w w' /\ wview w' = wview w ++ returned chunk /\ drained (patch_list_ w').
Proof.
  intros Hb Hret Hann E w'. destruct (Update_committed (id_ w) (target_buffer_ w) chunk (patch_list_ w) (arbiter_ w) (ba_arbiter _ Hb) Hret Hann) as (pl' & a1 & E' & H1 & H2 & H3 & (sent & H4 & H5) & _).
  rewrite E in E'. injection E' as <- <-. split; [|split; [exact H2|exact H3]]. split; [exact H1| |].
  - exists sent. split; [exact H4|]. split; [exact H5|]. unfold w', update_patches. cbn [set_arbiter set_patches popped_ patch_list_]. rewrite H4, length_app. lia.
  - unfold w', update_patches. by eexists _, _, _.
Qed.
Lemma cur_returnable w c : base w -> cur_chunk_ w = Some c -> returnable (id_ w) (patch_list_ w) (arbiter_ w) (Some c).
Proof.
  intros Hb Hc. pose proof (cur_index w c Hb Hc) as Hk. pose proof Hk as [= Hk1 Hk2]. split; [done|]. split; [|by apply (ba_flag _ Hb)].
  rewrite <- (view_keys (id_ w) (patch_list_ w)). fold (wview w). intros (c1 & He & Hin)%list_elem_of_fmap. apply list_elem_of_lookup in Hin as [i Hi].
  rewrite Hk, (wview_index w i c1 Hb Hi) in He. injection He as He. apply lookup_lt_Some in Hi. unfold zlen in He. lia.
Qed.
Lemma cur_announced w c : base w -> cur_chunk_ w = Some c -> announced (patch_list_ w) (Some c).
Proof.
  intros Hb Hc c1 p [= <-] Hp Hid. pose proof (cur_index w c Hb Hc) as [= _ Hk]. destruct (ba_returned _ Hb p Hp) as [Hlt|(c1 & Hc1 & Hf)]; [lia|]. congruence.
Qed.
Lemma return_spec w c : base w -> cur_chunk_ w = Some c ->
  exists w', return_chunk c w = Ok w' /\ arbiter_step w w' /\ base (set_chunk None w') /\ wview w' = wview w ++ [forget_needs_patching c] /\ drained (patch_list_ w').
Proof.
  intros Hb Hc. pose proof (cur_returnable w c Hb Hc) as Hret. pose proof (cur_announced w c Hb Hc) as Hann. pose proof Hret as [Hid _].
  destruct (Update_spec (id_ w) (target_buffer_ w) (Some c) (patch_list_ w) (arbiter_ w) (proj1 (ba_arbiter _ Hb)) Hret) as (pl & a' & E & _).
  pose proof (update_step w (Some c) pl a' Hb Hret Hann E) as (Has & Hv & Hd). unfold return_chunk, ReturnCompletedChunk. rewrite Hid, E. cbn [obind].
  set (w' := set_arbiter a' (update_patches (patch_list_ w) pl w)) in *. exists w'. split; [done|]. split; [exact Has|]. split; [|done].
  assert (Hw : wchunks w = wview w ++ [c]) by (unfold wchunks; by rewrite Hc).
  apply (base_arbiter_step w); [done|done|by right| | |]; cbn [option_list]; rewrite ?app_nil_r, ?Hv, ?Hw.
  - cbn [returned]. by rewrite !length_app.
  - intros i c1 Hi. cbn [returned] in Hi. destruct (decide (i < length (wview w))%nat).
    + rewrite lookup_app_l in Hi by done. exists c1. by rewrite lookup_app_l.
    + rewrite lookup_app_r in Hi by lia. apply list_lookup_singleton_Some in Hi as [Hi <-]. exists c. rewrite lookup_app_r by lia. by rewrite Hi.
  - intros E1. rewrite Hc in E1. done.
Qed.
Lemma send_patches_spec w : base w -> (forall c, cur_chunk_ w = Some c -> chunk_has_flag kChunkNeedsPatching c = false) ->
  exists w', send_patches w = Ok w' /\ arbiter_step w w' /\ base w' /\ wview w' = wview w /\ drained (patch_list_ w').
Proof.
  intros Hb Hc. unfold send_patches. assert (Hsame : arbiter_step w w).
  { split; [apply (ba_arbiter _ Hb)|exists []; split; [done|]; split; [done|]; cbn; lia|]. exists (arbiter_ w), (patch_list_ w), (popped_ w). by destruct w. }
  destruct (patch_list_ w) as [|p pl] eqn:Epl; [exists w; rewrite Epl; done|]. destruct (is_patched p) eqn:Ep; [|exists w; rewrite Epl; done].
  destruct (Update_spec (id_ w) (target_buffer_ w) None (patch_list_ w) (arbiter_ w) (proj1 (ba_arbiter _ Hb)) I) as (pl' & a' & E & _).
  pose proof (update_step w None pl' a' Hb I ltac:(by intros ? ?) E) as (Has & Hv & Hd). unfold SendPatches. rewrite <- Epl, E. cbn [obind].
  set (w' := set_arbiter a' (update_patches (patch_list_ w) pl' w)) in *. exists w'. split; [done|]. split; [exact Has|]. cbn [returned] in Hv. rewrite app_nil_r in Hv.
  split; [|done]. assert (Hcur : cur_chunk_ w' = cur_chunk_ w) by done. replace w' with (set_chunk (cur_chunk_ w) w') by done.
  apply (base_arbiter_step w); [done|done|by left| | |]; rewrite ?Hv; [done|intros i c1 Hi; by exists c1|]. intros _. right. destruct (cur_chunk_ w) as [c|] eqn:E1; [|by left]. right. exists c. split; [done|]. by apply Hc.
Qed.

(** ** Writing to a patch *)

Definition fill (src : list Z) (p : Patch) : Patch := mkPatch (pt_chunk_id p) (pt_offset p) src.
Lemma known_patches_fill i pl k p src : pl !! k = Some p -> is_patched p = false -> is_patched (fill src p) = true ->
  exists l1 l2, pl = l1 ++ p :: l2 /\ length l1 = k /\ alter (fill src) k pl = l1 ++ fill src p :: l2 /\
    known_patches i pl = known_patches i l1 ++ known_patches i l2 /\
    known_patches i (alter (fill src) k pl) = known_patches i l1 ++ [(i, pt_chunk_id p, (pt_offset p, src))] ++ known_patches i l2.
Proof.
  intros Hk Hp Hf. exists (take k pl), (drop (S k) pl). pose proof (take_drop_middle pl k p Hk) as E. assert (Hlen : length (take k pl) = k) by (apply length_take_le; apply lookup_lt_Some in Hk; lia).
  assert (Ea : alter (fill src) k pl = take k pl ++ fill src p :: drop (S k) pl).
  { rewrite <- E at 1. rewrite <- Hlen at 1. rewrite <- (Nat.add_0_r (length (take k pl))). by rewrite alter_app_r. }
  split; [done|]. split; [done|]. split; [done|]. rewrite Ea. rewrite <- E at 1. unfold known_patches. rewrite !filter_app, !map_app. split.
  - rewrite filter_cons, decide_False by (by rewrite Hp). done.
  - rewrite filter_cons, decide_True by done. done.
Qed.
Lemma store_patch w k p src : base w -> patch_list_ w !! k = Some p -> is_patched p = false -> zlen src = kMessageLengthFieldSize ->
  is_patched (fill src p) = true -> pt_chunk_id p < zlen (wview w) ->
  let w' := set_patches (alter (fill src) k (patch_list_ w)) (popped_ w) w in
  store (InPatch (popped_ w + k)%nat) src w = Ok w' /\ base w' /\
  wview w' = map (fun c => write_patch c (id_ w, pt_chunk_id p, (pt_offset p, src))) (wview w).
Proof.
  intros Hb Hk Hp Hz Hf Hret w'. destruct (known_patches_fill (id_ w) _ k p src Hk Hp Hf) as (l1 & l2 & E & Hl1 & Ea & E1 & E2).
  assert (Hlt : (k < length (patch_list_ w))%nat) by (by eapply lookup_lt_Some).
  assert (Hrange : ((popped_ w <=? popped_ w + k) && (popped_ w + k <? popped_ w + length (patch_list_ w)))%nat = true) by (apply andb_true_iff; rewrite Nat.leb_le, Nat.ltb_lt; lia).
  assert (Hstore : store (InPatch (popped_ w + k)%nat) src w = Ok w').
  { cbn [store]. rewrite Hrange. cbn [perfetto_check obind]. replace (popped_ w + k - popped_ w)%nat with k by lia. done. }
  pose proof (ba_patches _ Hb) as Hfit. assert (Hpfit : patch_fits (wchunks w) p) by (rewrite Forall_lookup in Hfit; by apply (Hfit k)).
  destruct Hpfit as (F1 & F2 & F3 & c & Hc & F4).
  assert (Hview : wview w' = map (fun c => write_patch c (id_ w, pt_chunk_id p, (pt_offset p, src))) (wview w)).
  { unfold wview, view. rewrite map_map. apply map_ext. intros c1. change (patch_list_ w') with (alter (fill src) k (patch_list_ w)). change (id_ w') with (id_ w). rewrite E1, E2.
    rewrite !fold_left_app. cbn [fold_left]. rewrite write_patch_last; [done|]. unfold known_patches. rewrite Forall_map. apply Forall_forall. intros q [_ Hq]%list_elem_of_filter. cbn [fst snd].
    intros [= He]. apply list_elem_of_lookup in Hq as [j Hj]. pose proof (ba_apart _ Hb (S (length l1) + j)%nat k q p) as Hap. unfold patch_data in Hap. rewrite <- Hz in F1. unfold apart in *. cbn [fst snd] in *. rewrite F1 in Hap.
    apply Hap; [lia| |done|done]. rewrite E, lookup_app_r by lia. replace (S (length l1) + j - length l1)%nat with (S j) by lia. done. }
  split; [exact Hstore|]. split; [|exact Hview].
  assert (Hlookup : forall i q, patch_list_ w' !! i = Some q -> exists q0, patch_list_ w !! i = Some q0 /\ pt_chunk_id q = pt_chunk_id q0 /\ pt_offset q = pt_offset q0 /\ zlen (pt_size_field q) = zlen (pt_size_field q0) /\ (q = q0 \/ i = k /\ q0 = p /\ q = fill src p)).
  { intros i q. cbn [w' set_patches patch_list_]. destruct (decide (i = k)) as [->|Hne].
    - rewrite list_lookup_alter_eq, Hk. intros [= <-]. exists p. repeat split; try done; [cbn; congruence|]. by right.
    - rewrite list_lookup_alter_ne by done. intros Hi. exists q. repeat split; try done. by left. }
  assert (Hchunks : forall i c1, wchunks w' !! i = Some c1 -> exists c0, wchunks w !! i = Some c0 /\ key_of c1 = key_of c0 /\ zlen (wc_payload c1) = zlen (wc_payload c0)).
  { intros i c1. unfold wchunks. rewrite Hview. change (cur_chunk_ w') with (cur_chunk_ w). rewrite !lookup_app, list_lookup_fmap, length_map. destruct (wview w !! i) as [c0|].
    - cbn [fmap option_fmap option_map]. intros [= <-]. exists c0. split; [done|]. split; [apply key_of_write_patch|]. unfold write_patch. case_bool_decide; [apply length_patch_payload|done].
    - cbn [fmap option_fmap option_map]. intros Hi. by exists c1. }
  assert (Hlen : length (wchunks w') = length (wchunks w)) by (unfold wchunks; rewrite Hview, !length_app, length_map; done).
  destruct Hb as [B1 B2 B3 B4 B5 B6 B7 B8 B9 BR B10]. split; try done.
  - destruct B1 as [[K1 K2 K3 K4 K5 K6 K7] BF]. split; [|apply (flags_same_ids _ _ _ _ BF); cbn [w' set_patches patch_list_]; apply list_eq; intros i; rewrite !list_lookup_fmap;
      destruct (decide (i = k)) as [->|Hne]; [by rewrite list_lookup_alter_eq, Hk|by rewrite list_lookup_alter_ne]].
    split; try done.
    + intros q Hq Hqp. apply list_elem_of_lookup in Hq as [i Hi]. destruct (Hlookup i q Hi) as (q0 & Hq0 & I1 & I2 & I3 & [->|(-> & -> & ->)]).
      * apply K5; [by eapply list_elem_of_lookup_2|done].
      * unfold wchunks in Hc. rewrite lookup_app_l in Hc by (unfold zlen in Hret; lia). destruct (view_lookup _ _ _ _ _ Hc) as (c1 & Hc1 & Hk1 & Hz1). exists c1. split; [by eapply list_elem_of_lookup_2|].
        unfold patch_in. cbn [fill pt_chunk_id pt_offset pt_size_field]. rewrite Hk1, Hz1. split; [|done]. change (id_ w') with (id_ w). rewrite (B2 (Z.to_nat (pt_chunk_id p)) c); [f_equal; lia|].
        unfold wchunks. by rewrite lookup_app_l by (unfold zlen in Hret; lia).
    + intros c1 Hc1 Hw1 Hn1. destruct (K6 c1 Hc1 Hw1 Hn1) as (q & Hq & Hid). apply list_elem_of_lookup in Hq as [i Hi]. destruct (decide (i = k)) as [->|Hne].
      * exists (fill src p). split; [|cbn; congruence]. eapply (list_elem_of_lookup_2 _ k). cbn [w' set_patches patch_list_]. by rewrite list_lookup_alter_eq, Hk.
      * exists q. split; [|done]. eapply (list_elem_of_lookup_2 _ i). cbn [w' set_patches patch_list_]. by rewrite list_lookup_alter_ne.
  - intros i c1 Hi. destruct (Hchunks i c1 Hi) as (c0 & H0 & -> & _). by apply B2.
  - change (next_chunk_id_ w') with (next_chunk_id_ w). unfold zlen in *. by rewrite Hlen.
  - change (supply_ w') with (supply_ w). unfold zlen in *. by rewrite Hlen.
  - rewrite Forall_lookup in *. intros i c1 Hi. destruct (Hchunks i c1 Hi) as (c0 & H0 & _ & Hz0). unfold chunk_size_ok. rewrite Hz0. by apply (B6 i).
  - rewrite Forall_lookup in *. intros i q Hi. destruct (Hlookup i q Hi) as (q0 & Hq0 & I1 & I2 & I3 & _). destruct (B7 i q0 Hq0) as (G1 & G2 & G3 & c0 & Hc0 & G4).
    unfold patch_fits. rewrite I1, I2, I3. split; [done|]. split; [done|]. split; [done|].
    destruct (wchunks w' !! Z.to_nat (pt_chunk_id q0)) as [c1|] eqn:E0; [|apply lookup_ge_None in E0; apply lookup_lt_Some in Hc0; lia].
    exists c1. split; [done|]. destruct (Hchunks _ _ E0) as (c0' & H0' & _ & Hz0'). rewrite Hz0'. congruence.
  - intros i j q1 q2 Hne Hi Hj He. destruct (Hlookup i q1 Hi) as (r1 & R1 & I1 & I2 & I3 & _). destruct (Hlookup j q2 Hj) as (r2 & R2 & J1 & J2 & J3 & _).
    pose proof (B8 i j r1 r2 Hne R1 R2 ltac:(congruence)) as Hap. unfold apart, patch_data in *. cbn [fst snd] in *. by rewrite I2, I3, J2, J3.
  - intros c1 Hc1 Hf1. destruct (B9 c1 Hc1 Hf1) as (q & Hq & Hid). apply list_elem_of_lookup in Hq as [i Hi]. destruct (decide (i = k)) as [->|Hne].
    + exists (fill src p). split; [|cbn; congruence]. eapply (list_elem_of_lookup_2 _ k). cbn [w' set_patches patch_list_]. by rewrite list_lookup_alter_eq, Hk.
    + exists q. split; [|done]. eapply (list_elem_of_lookup_2 _ i). cbn [w' set_patches patch_list_]. by rewrite list_lookup_alter_ne.
  - intros q Hq. apply list_elem_of_lookup in Hq as [i Hi]. destruct (Hlookup i q Hi) as (q0 & Hq0 & -> & _). rewrite Hview. unfold zlen. rewrite length_map.
    apply BR. by eapply list_elem_of_lookup_2.
  - intros i q Hi Hq. destruct (Hlookup i q Hi) as (q0 & Hq0 & _ & _ & _ & [->|(-> & -> & ->)]); [by apply (B10 i q0)|congruence].
Qed.

(** ** A packet that is being written *)

(** Where the four bytes at position [p] of the packet are. *)
Inductive field_at (w : Writer) (V : list WChunk) (ps : list (WChunk * piece)) (c : WChunk) (pre : list (list Z)) (body : list Z) (p : Z) : address -> Prop :=
| at_chunk o : ptr_at (bodies_of ps ++ [body]) (length ps) o kMessageLengthFieldSize p ->
    field_at w V ps c pre body p (InChunk (wc_chunk_id c) (zlen (encode_fragments pre) + kMessageLengthFieldSize + o))
| at_patch k pt j x o : patch_list_ w !! k = Some pt -> is_patched pt = false -> ps !! j = Some x -> pt_chunk_id pt = zlen V + Z.of_nat j ->
    pt_offset pt = zlen (encode_fragments (pc_pre x.2)) + kMessageLengthFieldSize + o ->
    ptr_at (bodies_of ps ++ [body]) j o kMessageLengthFieldSize p ->
    field_at w V ps c pre body p (InPatch (popped_ w + k)%nat).
(** The open messages: their size fields do not overlap, the innermost one comes last. *)
Fixpoint nested_positions (poss : list Z) (upper : Z) : Prop :=
  match poss with [] => True | p :: rest => 0 <= p /\ p + kMessageLengthFieldSize <= upper /\ nested_positions rest p end.

Record opened (w : Writer) (D : list (list Z)) (flat : list Z) (poss : list Z)
    (V : list WChunk) (ps : list (WChunk * piece)) (c : WChunk) (pre : list (list Z)) (hdr body tail : list Z) : Prop := {
  op_base : base w;
  op_modes : fragmenting_packet_ (modes_ w) = true /\ drop_packets_ (modes_ w) = false /\ retry_new_chunk_after_packet_ (modes_ w) = false;
  op_view : wview w = V ++ map fst ps;
  op_cur : cur_chunk_ w = Some c;
  op_payload : wc_payload c = encode_fragments pre ++ hdr ++ body ++ tail /\ zlen hdr = kMessageLengthFieldSize;
  op_count : wc_count c = Z.of_nat (length pre) + 1 /\ wc_count c <= kMaxCount /\ reached_max_packets_per_chunk_ (modes_ w) = (wc_count c =? kMaxCount);
  op_flags : chunk_has_flag kLastPacketContinuesOnNextChunk c = false /\ chunk_has_flag kChunkNeedsPatching c = false;
  op_stream : stream_ w = mkPos CurrentChunk (zlen (encode_fragments pre) + kMessageLengthFieldSize + zlen body) (zlen (wc_payload c));
  op_start : cur_fragment_start_ w = zlen (encode_fragments pre) + kMessageLengthFieldSize;
  op_chunks : packet_chunks (read_chunks ([], None) V) D ps /\ continues_in (read_chunks ([], None) V) D ps c pre;
  op_flat : flat = concat (bodies_of ps) ++ body;
  op_small : small flat /\ Forall small pre;
  op_root : om_field (root_ w) = InChunk (wc_chunk_id c) (zlen (encode_fragments pre)) /\ om_already (root_ w) = zlen (concat (bodies_of ps));
  op_last : last_packet_size_field_ w = InChunk (wc_chunk_id c) (zlen (encode_fragments pre)) /\ finalized_ w = false;
  op_nested : Forall2 (fun m p => om_already m = 0 /\ field_at w V ps c pre body p (om_field m)) (nested_ w) poss;
  op_positions : nested_positions poss (zlen flat)
}.

(** Base facts about the current chunk. *)
Lemma base_set_cur w c c' : base w -> cur_chunk_ w = Some c -> key_of c' = key_of c -> zlen (wc_payload c') = zlen (wc_payload c) ->
  (chunk_has_flag kChunkNeedsPatching c = true -> chunk_has_flag kChunkNeedsPatching c' = true) ->
  (chunk_has_flag kChunkNeedsPatching c' = true -> exists p, p ∈ patch_list_ w /\ pt_chunk_id p = wc_chunk_id c) -> base (set_chunk (Some c') w).
Proof.
  intros [B1 B2 B3 B4 B5 B6 B7 B8 B9 BR B10] Hc Hk Hz Hf' Hf. assert (E : wchunks w = wview w ++ [c]) by (unfold wchunks; by rewrite Hc).
  assert (E' : wchunks (set_chunk (Some c') w) = wview w ++ [c']) by done. assert (Hcid : wc_chunk_id c' = wc_chunk_id c) by (by injection Hk).
  assert (Hcs : forall i c1, (wview w ++ [c']) !! i = Some c1 -> exists c0, (wview w ++ [c]) !! i = Some c0 /\ key_of c1 = key_of c0 /\ zlen (wc_payload c1) = zlen (wc_payload c0)).
  { intros i c1. rewrite !lookup_app. destruct (wview w !! i) as [c0|]; [intros [= <-]; by exists c0|]. intros [Hi <-]%list_lookup_singleton_Some. exists c. by rewrite Hi. }
  assert (Hlen : length (wview w ++ [c']) = length (wview w ++ [c])) by (by rewrite !length_app).
  split; rewrite ?E'; rewrite ?E in *; try done.
  - intros i c1 Hi. destruct (Hcs i c1 Hi) as (c0 & H0 & -> & _). by apply B2.
  - unfold zlen in *. rewrite Hlen. done.
  - unfold zlen in *. rewrite Hlen. done.
  - apply Forall_lookup. intros i c1 Hi. destruct (Hcs i c1 Hi) as (c0 & H0 & _ & Hz0). rewrite Forall_lookup in B6. unfold chunk_size_ok. rewrite Hz0. by apply (B6 i).
  - eapply Forall_impl; [exact B7|]. intros p. apply fits_lookup; [done|done|]. intros i c0 c1 H0 H1. destruct (Hcs i c1 H1) as (c0' & H0' & _ & Hz0). congruence.
  - cbn [set_chunk cur_chunk_ patch_list_]. intros c1 [= <-] Hn. rewrite Hcid. by apply Hf.
  - intros p Hp. destruct (BR p Hp) as [Hlt|(c1 & Hc1 & Hn)]; [by left|]. right. exists c'. rewrite Hc in Hc1. injection Hc1 as <-. split; [done|by apply Hf'].
Qed.
Lemma base_write w c c' : base w -> cur_chunk_ w = Some c -> key_of c' = key_of c -> zlen (wc_payload c') = zlen (wc_payload c) -> wc_flags c' = wc_flags c ->
  chunk_has_flag kChunkNeedsPatching c = false -> base (set_chunk (Some c') w).
Proof.
  intros B Hc Hk Hz Hf Hn. assert (E : chunk_has_flag kChunkNeedsPatching c' = false) by (unfold chunk_has_flag in *; by rewrite Hf).
  apply (base_set_cur w c); try done; congruence.
Qed.
Lemma base_nested w nested root fin : base w -> (forall i p, patch_list_ w !! i = Some p -> is_patched p = false -> exists m, m ∈ nested /\ om_field m = InPatch (popped_ w + i)) ->
  base (set_packet root nested fin w).
Proof. intros [B1 B2 B3 B4 B5 B6 B7 B8 B9 BR B10] H. by split. Qed.
Lemma base_root w root fin : base w -> base (set_packet root (nested_ w) fin w).
Proof. intros [B1 B2 B3 B4 B5 B6 B7 B8 B9 BR B10]. by split. Qed.
Lemma base_stream w s : base w -> base (set_stream s w).
Proof. intros [B1 B2 B3 B4 B5 B6 B7 B8 B9 BR B10]. by split. Qed.
Lemma base_modes w m : base w -> base (set_modes m w).
Proof. intros [B1 B2 B3 B4 B5 B6 B7 B8 B9 BR B10]. by split. Qed.
Lemma base_fragment_start w n : base w -> base (set_fragment_start n w).
Proof. intros [B1 B2 B3 B4 B5 B6 B7 B8 B9 BR B10]. by split. Qed.
Lemma base_last_field w f : base w -> base (set_last_field f w).
Proof. intros [B1 B2 B3 B4 B5 B6 B7 B8 B9 BR B10]. by split. Qed.
Create HintDb writer.
#[export] Hint Resolve base_root base_stream base_modes base_fragment_start base_last_field op_base : writer.

Lemma field_at_append w w' V ps c c' pre body src p f : field_at w V ps c pre body p f -> patch_list_ w' = patch_list_ w -> popped_ w' = popped_ w ->
  wc_chunk_id c' = wc_chunk_id c -> field_at w' V ps c' pre (body ++ src) p f.
Proof.
  intros [o Ho|k pt j x o H1 H2 H3 H4 H5 H6] Hpl Hpo Hid.
  - rewrite <- Hid. apply at_chunk. by apply ptr_at_last.
  - rewrite <- Hpo. eapply at_patch; [by rewrite Hpl|done..|]. by apply ptr_at_last.
Qed.
Lemma positions_le poss : forall u u', nested_positions poss u -> u <= u' -> nested_positions poss u'.
Proof. intros u u' H Hu. destruct poss as [|p r]; [done|]. destruct H as (H1 & H2 & H3). cbn. split; [done|]. split; [lia|done]. Qed.

Lemma put_spec w D flat poss V ps c pre hdr body tail src : opened w D flat poss V ps c pre hdr body tail -> small (flat ++ src) ->
  zlen src <= available (stream_ w) ->
  exists w' c' tail', WriteBytesUnsafe src w = Ok w' /\ opened w' D (flat ++ src) poss V ps c' pre hdr (body ++ src) tail' /\
    nested_ w' = nested_ w /\ root_ w' = root_ w /\ available (stream_ w') = available (stream_ w) - zlen src.
Proof.
  intros Ho Hs Hav. destruct Ho as [B M W C [P1 P2] N F S T [K1 K2] FL [SM1 SM2] R L NE PO]. unfold available in *. rewrite S in *. cbn [range_end_ write_ptr_] in *.
  pose proof (zlen_nonneg (encode_fragments pre)). pose proof (zlen_nonneg body). pose proof (zlen_nonneg src). pose proof (zlen_nonneg tail).
  assert (Hlen : zlen (wc_payload c) = zlen (encode_fragments pre) + 4 + zlen body + zlen tail) by (rewrite P1, !zlen_app, P2; unfold kMessageLengthFieldSize; lia).
  unfold kMessageLengthFieldSize in *. assert (Hle : zlen src <= zlen tail) by lia.
  set (c' := set_payload (zwrite (zlen (encode_fragments pre) + 4 + zlen body) src (wc_payload c)) c).
  assert (Hp' : wc_payload c' = encode_fragments pre ++ hdr ++ (body ++ src) ++ zdrop (zlen src) tail).
  { unfold c'. cbn [set_payload wc_payload]. rewrite P1. assert (Et : tail = ztake (zlen src) tail ++ zdrop (zlen src) tail) by (unfold ztake, zdrop; by rewrite take_drop).
    rewrite Et at 1. rewrite (app_assoc hdr), (app_assoc (encode_fragments pre)).
    replace (zlen (encode_fragments pre) + 4 + zlen body) with (zlen (encode_fragments pre ++ hdr ++ body)) by (rewrite !zlen_app; lia).
    rewrite zwrite_mid by (symmetry; apply zlen_ztake; lia). by rewrite <- !app_assoc. }
  assert (Hz' : zlen (wc_payload c') = zlen (wc_payload c)) by (rewrite Hp', Hlen, !zlen_app, zlen_zdrop by lia; lia).
  set (w' := set_stream (mkPos CurrentChunk (zlen (encode_fragments pre) + 4 + zlen body + zlen src) (zlen (wc_payload c))) (set_chunk (Some c') w)).
  exists w', c', (zdrop (zlen src) tail). split.
  { unfold WriteBytesUnsafe. rewrite S. cbn [where_ write_ptr_ range_end_]. rewrite C.
    replace (zlen (encode_fragments pre) + 4 + zlen body + zlen src <=? zlen (wc_payload c)) with true by lia. done. }
  split; [|split; [done|]; split; [done|]; cbn [w' set_stream stream_ range_end_ write_ptr_]; lia]. split; try done.
  - apply base_stream. apply (base_set_cur w c); try done. change (chunk_has_flag kChunkNeedsPatching c') with (chunk_has_flag kChunkNeedsPatching c). by rewrite (proj2 F).
  - cbn [w' set_stream stream_]. rewrite zlen_app, Hz'. f_equal. unfold kMessageLengthFieldSize. lia.
  - by rewrite FL, app_assoc.
  - eapply Forall2_impl; [exact NE|]. intros m p [Hm Hp]. split; [done|]. by eapply field_at_append.
  - eapply positions_le; [exact PO|]. rewrite zlen_app. lia.
Qed.

(** ** The patches of the packet *)

(** Patch [k] is the place [o] of the body of piece [j]. *)
Definition patch_at (pl : PatchList) (V : list WChunk) (ps : list (WChunk * piece)) (k j : nat) (o : Z) : Prop :=
  exists pt x, pl !! k = Some pt /\ is_patched pt = false /\ ps !! j = Some x /\ pt_chunk_id pt = zlen V + Z.of_nat j /\
    pt_offset pt = zlen (encode_fragments (pc_pre x.2)) + kMessageLengthFieldSize + o /\ 0 <= o /\ o + kMessageLengthFieldSize <= zlen (pc_body x.2).
Definition patch_piece (i : Z) (pt : Patch) (src : list Z) (o : Z) (x : WChunk * piece) : WChunk * piece :=
  (write_patch x.1 (i, pt_chunk_id pt, (pt_offset pt, src)), mkPiece (pc_pre x.2) (zwrite o src (pc_body x.2)) (pc_tail x.2)).

Lemma flags_patch_payload p c : wc_flags (patch_payload p c) = wc_flags c /\ wc_count (patch_payload p c) = wc_count c.
Proof. unfold patch_payload. by destruct (_ && _). Qed.
Lemma flags_write_patch q c : wc_flags (write_patch c q) = wc_flags c /\ wc_count (write_patch c q) = wc_count c.
Proof. unfold write_patch. case_bool_decide; [apply flags_patch_payload|done]. Qed.
Lemma starts_write_patch q c : starts_packet (write_patch c q) = starts_packet c.
Proof. unfold starts_packet, chunk_has_flag. by rewrite (proj1 (flags_write_patch q c)). Qed.

Lemma piece_chunk_patch pc c i pt src o : piece_chunk pc c -> key_of c = (i, pt_chunk_id pt) -> zlen src = kMessageLengthFieldSize ->
  pt_offset pt = zlen (encode_fragments (pc_pre pc)) + kMessageLengthFieldSize + o -> 0 <= o -> o + kMessageLengthFieldSize <= zlen (pc_body pc) ->
  piece_chunk (mkPiece (pc_pre pc) (zwrite o src (pc_body pc)) (pc_tail pc)) (write_patch c (i, pt_chunk_id pt, (pt_offset pt, src))).
Proof.
  intros [P1 P2 P3 [P4 P5]] Hk Hz Hoff Ho1 Ho2. assert (Hzb : zlen (zwrite o src (pc_body pc)) = zlen (pc_body pc)) by (apply zlen_zwrite; lia).
  assert (Hhd : zlen (WriteRedundantVarInt (zlen (pc_body pc)) kMessageLengthFieldSize) = 4) by (apply zlen_redundant; unfold small in *; pose proof (zlen_nonneg (pc_body pc)); max_lia).
  unfold write_patch. cbn [fst snd]. rewrite bool_decide_eq_true_2 by done. unfold patch_payload. cbn [fst snd].
  pose proof (zlen_nonneg (encode_fragments (pc_pre pc))). pose proof (zlen_nonneg (pc_tail pc)).
  replace ((0 <=? pt_offset pt) && (pt_offset pt + zlen src <=? zlen (wc_payload c))) with true.
  2: { rewrite P1. unfold encode_fragment. rewrite !zlen_app, Hhd. rewrite Hoff, Hz. unfold kMessageLengthFieldSize in *. symmetry. apply andb_true_iff. rewrite !Z.leb_le. lia. }
  split; cbn [set_payload wc_payload wc_count wc_flags pc_pre pc_body pc_tail]; try done; [|unfold small in *; by rewrite Hzb].
  rewrite P1. unfold encode_fragment. rewrite Hzb, <- !app_assoc. rewrite Hoff. unfold kMessageLengthFieldSize in *. rewrite (zwrite_app_r _ _ (encode_fragments (pc_pre pc))) by lia.
  rewrite (zwrite_app_r _ _ (WriteRedundantVarInt _ _)) by lia. rewrite zwrite_app_l by lia. do 3 f_equal. f_equal. lia.
Qed.

Lemma patched_pieces w V ps T R D k j o src pt : base w -> wview w = V ++ map fst ps ++ T -> packet_chunks R D ps ->
  patch_at (patch_list_ w) V ps k j o -> patch_list_ w !! k = Some pt -> zlen src = kMessageLengthFieldSize ->
  let ps' := alter (patch_piece (id_ w) pt src o) j ps in
  map (fun c => write_patch c (id_ w, pt_chunk_id pt, (pt_offset pt, src))) (wview w) = V ++ map fst ps' ++ T /\ packet_chunks R D ps'.
Proof.
  intros Hb Hv Hp (pt' & x & E1 & E2 & E3 & E4 & E5 & E6 & E7) E1' Hz. rewrite E1' in E1. injection E1 as <-.
  assert (Hkey : forall i c, (V ++ map fst ps ++ T) !! i = Some c -> key_of c = (id_ w, Z.of_nat i)) by (intros i c Hi; rewrite <- Hv in Hi; by apply wview_index).
  set (q := (id_ w, pt_chunk_id pt, (pt_offset pt, src))). split.
  - rewrite Hv. apply list_eq. intros i. rewrite list_lookup_fmap. destruct ((V ++ map fst ps ++ T) !! i) as [c|] eqn:Ei.
    + cbn [fmap option_fmap option_map]. pose proof (Hkey i c Ei) as Hk. destruct (decide (i = length V + j)%nat) as [->|Hne].
      * rewrite lookup_app_r in Ei |- * by lia. replace (length V + j - length V)%nat with j in * by lia. assert (Hj := lookup_lt_Some _ _ _ E3).
        rewrite lookup_app_l in Ei by (rewrite length_map; lia). rewrite list_lookup_fmap, E3 in Ei. injection Ei as <-.
        rewrite lookup_app_l by (rewrite length_map, length_alter; lia). rewrite list_lookup_fmap, list_lookup_alter_eq, E3. done.
      * rewrite write_patch_other by (unfold q; cbn [fst]; rewrite Hk, E4; intros [= He]; unfold zlen in He; lia). symmetry. rewrite <- Ei. rewrite !lookup_app. destruct (V !! i) eqn:EV; [done|].
        rewrite length_map, length_alter, length_map, !list_lookup_fmap. apply lookup_ge_None in EV. by rewrite list_lookup_alter_ne by lia.
    + cbn [fmap option_fmap option_map]. symmetry. apply lookup_ge_None. apply lookup_ge_None in Ei. rewrite !length_app, !length_map, length_alter in *. done.
  - assert (Hkx : key_of x.1 = (id_ w, pt_chunk_id pt)).
    { rewrite (Hkey (length V + j)%nat x.1); [f_equal; rewrite E4; unfold zlen; lia|]. rewrite lookup_app_r by lia. replace (length V + j - length V)%nat with j by lia.
      rewrite lookup_app_l by (rewrite length_map; by eapply lookup_lt_Some). by rewrite list_lookup_fmap, E3. }
    destruct ps as [|y r]; [done|]. destruct Hp as (Hpc & Hbg & Hr). destruct j as [|j].
    + injection E3 as <-. change (alter (patch_piece (id_ w) pt src o) 0%nat (y :: r)) with (patch_piece (id_ w) pt src o y :: r). cbn [packet_chunks patch_piece fst snd pc_pre]. split; [by apply piece_chunk_patch|]. split; [|done]. unfold begins. by rewrite starts_write_patch.
    + change (alter (patch_piece (id_ w) pt src o) (S j) (y :: r)) with (y :: alter (patch_piece (id_ w) pt src o) j r). change (r !! j = Some x) in E3.
      split; [done|]. split; [done|]. apply Forall_lookup. intros i z Hi. rewrite Forall_lookup in Hr. destruct (decide (i = j)) as [->|Hne].
      * rewrite list_lookup_alter_eq, E3 in Hi. injection Hi as <-. destruct (Hr j x E3) as (G1 & G2 & G3). unfold follows, patch_piece. cbn [fst snd pc_pre].
        split; [by apply piece_chunk_patch|]. by rewrite starts_write_patch.
      * rewrite list_lookup_alter_ne in Hi by done. by apply (Hr i).
Qed.

(** ** Ending a nested message *)

Definition same_place (m m' : OpenMessage) : Prop := om_field m' = om_field m /\ om_already m' = om_already m.
Lemma same_places_refl l : Forall2 same_place l l.
Proof. induction l; by constructor. Qed.
Lemma field_at_frame w w' V ps c pre body p f : field_at w V ps c pre body p f -> patch_list_ w' = patch_list_ w -> popped_ w' = popped_ w -> field_at w' V ps c pre body p f.
Proof.
  intros [o Ho|k pt j x o H1 H2 H3 H4 H5 H6] Hpl Hpo; [by apply at_chunk|]. rewrite <- Hpo. eapply at_patch; [by rewrite Hpl|done..].
Qed.
Lemma opened_resize w D flat poss V ps c pre hdr body tail root' nested' : opened w D flat poss V ps c pre hdr body tail ->
  same_place (root_ w) root' -> Forall2 same_place (nested_ w) nested' -> opened (set_packet root' nested' (finalized_ w) w) D flat poss V ps c pre hdr body tail.
Proof.
  intros [B M W C P N F S T K FL SM R L NE PO] [Hr1 Hr2] Hn. split; try done.
  - apply base_nested; [done|]. intros i p Hi Hp. destruct (ba_waiting _ B i p Hi Hp) as (m & Hm & Hf). apply list_elem_of_lookup in Hm as [j Hj].
    destruct (Forall2_lookup_l _ _ _ _ _ Hn Hj) as (m' & Hj' & [Hm' _]). exists m'. split; [by eapply list_elem_of_lookup_2|]. congruence.
  - cbn [set_packet root_]. by rewrite Hr1, Hr2.
  - cbn [set_packet nested_]. set (w' := set_packet root' nested' (finalized_ w) w). assert (E1 : patch_list_ w' = patch_list_ w) by done. assert (E2 : popped_ w' = popped_ w) by done.
    clearbody w'. clear - NE Hn E1 E2. revert poss NE. induction Hn as [|m m' l l' [H1 H2] Hn IH]; intros poss NE; inversion NE as [|? p ? poss' [G1 G2] NE']; subst; [constructor|].
    constructor; [|by apply IH]. rewrite H1, H2. split; [done|]. by eapply field_at_frame.
Qed.

(** Writing in place, piece by piece. *)
Lemma bodies_alter i pt src o j ps : bodies_of (alter (patch_piece i pt src o) j ps) = alter (zwrite o src) j (bodies_of ps).
Proof.
  revert j. induction ps as [|x ps IH]; intros j; [done|]. destruct j as [|j]; [done|].
  exact (f_equal (cons (pc_body x.2)) (IH j)).
Qed.
Lemma ptr_at_keep L src i o j o' n p : zlen src = kMessageLengthFieldSize -> (exists q, ptr_at L j o' kMessageLengthFieldSize q) -> ptr_at L i o n p -> ptr_at (alter (zwrite o' src) j L) i o n p.
Proof.
  intros Hz (q & l0 & Hl0 & H0 & _ & H1 & _) H. apply ptr_at_alter; [|done]. intros l Hl. rewrite Hl0 in Hl. injection Hl as <-. apply zlen_zwrite; lia.
Qed.
Lemma ptr_at_fun L i o n p q : ptr_at L i o n p -> ptr_at L i o n q -> p = q.
Proof. intros (l & _ & _ & _ & _ & ->) (l' & _ & _ & _ & _ & ->). done. Qed.
Lemma positions_below poss : forall u i p, nested_positions poss u -> poss !! i = Some p -> p < u.
Proof.
  induction poss as [|x r IH]; intros u i p H Hi; [done|]. destruct H as (H1 & H2 & H3). unfold kMessageLengthFieldSize in *. destruct i as [|i]; [injection Hi as <-; lia|].
  pose proof (IH x i p H3 Hi). lia.
Qed.
Lemma field_at_position w V ps c pre body p q f : field_at w V ps c pre body p f -> field_at w V ps c pre body q f -> p = q.
Proof.
  intros Hp Hq. inversion Hp as [o Ho E|k pt j x o H1 H2 H3 H4 H5 H6 E]; subst; inversion Hq as [o' Ho' E'|k' pt' j' x' o' H1' H2' H3' H4' H5' H6' E']; subst.
  - assert (o' = o) as -> by lia. by eapply ptr_at_fun.
  - assert (k' = k) as -> by lia. rewrite H1 in H1'. injection H1' as <-. assert (j' = j) as -> by lia. rewrite H3 in H3'. injection H3' as <-. assert (o' = o) as -> by lia. by eapply ptr_at_fun.
Qed.

Lemma alter_last_body {A} (f : A -> A) (l : list A) x : alter f (length l) (l ++ [x]) = l ++ [f x].
Proof. rewrite <- (Nat.add_0_r (length l)) at 1. by rewrite alter_app_r. Qed.
Lemma length_bodies ps : length (bodies_of ps) = length ps.
Proof. apply length_map. Qed.
Lemma flat_bodies ps body : concat (bodies_of ps ++ [body]) = concat (bodies_of ps) ++ body.
Proof. rewrite concat_app. cbn [concat]. by rewrite app_nil_r. Qed.
Lemma ptr_at_body ps body o p : ptr_at (bodies_of ps ++ [body]) (length ps) o kMessageLengthFieldSize p -> 0 <= o /\ o + kMessageLengthFieldSize <= zlen body.
Proof. intros (l & Hl & H0 & _ & H1 & _). rewrite <- length_bodies, lookup_app_r, Nat.sub_diag in Hl by lia. by injection Hl as <-. Qed.
Lemma ptr_at_piece ps body j x o p : ps !! j = Some x -> ptr_at (bodies_of ps ++ [body]) j o kMessageLengthFieldSize p -> 0 <= o /\ o + kMessageLengthFieldSize <= zlen (pc_body x.2).
Proof.
  intros Hj (l & Hl & H0 & _ & H1 & _). rewrite lookup_app_l in Hl by (rewrite length_bodies; by eapply lookup_lt_Some). unfold bodies_of in Hl. rewrite list_lookup_fmap, Hj in Hl. by injection Hl as <-.
Qed.
(** The payload of the current chunk. *)
Lemma payload_write pre hdr body tail o src : zlen hdr = kMessageLengthFieldSize -> 0 <= o -> o + zlen src <= zlen body ->
  zwrite (zlen (encode_fragments pre) + kMessageLengthFieldSize + o) src (encode_fragments pre ++ hdr ++ body ++ tail) = encode_fragments pre ++ hdr ++ zwrite o src body ++ tail.
Proof.
  intros Hh H0 H1. pose proof (zlen_nonneg (encode_fragments pre)). unfold kMessageLengthFieldSize in *. rewrite (zwrite_app_r _ _ (encode_fragments pre)) by lia.
  rewrite (zwrite_app_r _ _ hdr) by lia. rewrite zwrite_app_l by lia. do 3 f_equal. f_equal. lia.
Qed.

Lemma store_in_chunk w D flat m rest p poss V ps c pre hdr body tail src o : opened w D flat (p :: poss) V ps c pre hdr body tail -> nested_ w = m :: rest ->
  zlen src = kMessageLengthFieldSize -> om_field m = InChunk (wc_chunk_id c) (zlen (encode_fragments pre) + kMessageLengthFieldSize + o) ->
  ptr_at (bodies_of ps ++ [body]) (length ps) o kMessageLengthFieldSize p ->
  let c1 := set_payload (encode_fragments pre ++ hdr ++ zwrite o src body ++ tail) c in
  store (om_field m) src w = Ok (set_chunk (Some c1) w) /\
  opened (set_packet (root_ w) rest (finalized_ w) (set_chunk (Some c1) w)) D (zwrite p src flat) poss V ps c1 pre hdr (zwrite o src body) tail.
Proof.
  intros Ho Hn Hz Hf Hp c1. destruct Ho as [B M W C [P1 P2] N F S T K FL [SM1 SM2] R L NE PO]. destruct (ptr_at_body _ _ _ _ Hp) as [Ho0 Ho1].
  pose proof (zlen_nonneg (encode_fragments pre)). pose proof (zlen_nonneg tail).
  assert (Hzb : zlen (zwrite o src body) = zlen body) by (apply zlen_zwrite; lia).
  assert (Hc1 : zlen (wc_payload c1) = zlen (wc_payload c)) by (rewrite P1; cbn [c1 set_payload wc_payload]; rewrite !zlen_app, Hzb; done).
  assert (Hflat : zwrite p src flat = concat (bodies_of ps) ++ zwrite o src body).
  { rewrite FL, <- !flat_bodies. rewrite <- (concat_alter_zwrite (bodies_of ps ++ [body]) (length ps) o src p) by (by rewrite Hz). by rewrite <- length_bodies, alter_last_body. }
  split.
  - rewrite Hf. cbn [store]. rewrite C, Z.eqb_refl, Hz. unfold kMessageLengthFieldSize in *. rewrite P1, !zlen_app, P2.
    replace (true && (0 <=? zlen (encode_fragments pre) + 4 + o) && (zlen (encode_fragments pre) + 4 + o + 4 <=? zlen (encode_fragments pre) + (4 + (zlen body + zlen tail)))) with true
      by (symmetry; rewrite !andb_true_iff, !Z.leb_le; lia).
    cbn [perfetto_check obind]. rewrite payload_write by (unfold kMessageLengthFieldSize; lia). done.
  - rewrite Hn in NE. apply Forall2_cons in NE as [_ NE]. destruct PO as (PO1 & PO2 & PO3). assert (Hlen : zlen (zwrite p src flat) = zlen flat) by (apply zlen_zwrite; lia).
    split; try done.
    + apply base_nested.
      * apply (base_set_cur w c); try done. change (chunk_has_flag kChunkNeedsPatching c1) with (chunk_has_flag kChunkNeedsPatching c). by rewrite (proj2 F).
      * intros i q Hi Hq. destruct (ba_waiting _ B i q Hi Hq) as (m' & Hm' & Hf'). exists m'. split; [|done]. rewrite Hn in Hm'. apply elem_of_cons in Hm' as [->|Hm']; [congruence|done].
    + cbn [set_packet set_chunk stream_]. by rewrite Hc1, Hzb.
    + unfold small in *. by rewrite Hlen.
    + eapply Forall2_impl; [exact NE|]. intros m' q [G1 G2]. split; [done|]. assert (Hcid : wc_chunk_id c = wc_chunk_id c1) by done.
      assert (Halter : bodies_of ps ++ [zwrite o src body] = alter (zwrite o src) (length ps) (bodies_of ps ++ [body])) by (by rewrite <- length_bodies, alter_last_body).
      set (w' := set_packet _ _ _ _). assert (E1 : patch_list_ w' = patch_list_ w) by done. assert (E2 : popped_ w' = popped_ w) by done. clearbody w'.
      apply (field_at_frame w); [|done|done]. destruct G2 as [o' Ho'|k pt j x o' I1 I2 I3 I4 I5 I6].
      * rewrite Hcid. apply at_chunk. rewrite Halter. apply ptr_at_keep; [done|by exists p|done].
      * eapply at_patch; [done..|]. rewrite Halter. apply ptr_at_keep; [done|by exists p|done].
    + rewrite Hlen. eapply positions_le; [exact PO3|]. unfold kMessageLengthFieldSize in *. lia.
Qed.
