(* ===== verification/TraceWriterPacket.v ===== *)
(** * A packet of a trace writer, operation by operation
    (src/tracing/core/trace_writer_impl.cc, src/protozero/scattered_stream_writer.cc,
    src/protozero/message.cc)

    What each operation of the writer does to an open packet: storing a size field, in a
    chunk or in the patch list, getting a new buffer with and without a chunk, writing
    bytes, reserving, beginning and ending nested messages, and a call of the message API.
    The packet goes on in the chunks ([opened]) or is given up ([dropping]). *)

From S2P Require Import Prelude ProtoUtils ProtoDecoder ProtoWriter TraceBuffer TraceBufferRead TraceBufferSession SharedMemoryArbiter ArbiterPatches TraceWriter TraceWriterInvariant.

(** ** Writing a size field into the patch list *)

Definition marks (src : list Z) : Prop := zlen src = kMessageLengthFieldSize /\ forall p, is_patched (fill src p) = true.
Lemma marks_size v : word_ok 32 v -> marks (WriteRedundantVarInt v kMessageLengthFieldSize).
Proof.
  intros H. split; [by apply zlen_redundant|]. intros p. unfold is_patched. cbn [fill pt_size_field].
  change (WriteRedundantVarInt v kMessageLengthFieldSize) with ((u8 (u32 v) .| 128) :: WriteRedundantVarInt_loop 3 4 1 (u32 v .>> 7)). cbn [head default].
  apply negb_true_iff, Z.eqb_neq. cbn [default]. intros [_ E]%Z.lor_eq_0_iff. discriminate E.
Qed.

Lemma field_at_patched w V ps c pre body q f i src k pt j x o p : field_at w V ps c pre body q f -> f <> InPatch (popped_ w + k)%nat ->
  zlen src = kMessageLengthFieldSize -> patch_list_ w !! k = Some pt -> ps !! j = Some x -> ptr_at (bodies_of ps ++ [body]) j o kMessageLengthFieldSize p ->
  forall w', patch_list_ w' = alter (fill src) k (patch_list_ w) -> popped_ w' = popped_ w ->
  field_at w' V (alter (patch_piece i pt src o) j ps) c pre body q f.
Proof.
  intros Hf Hne Hz Hk Hj Hp w' Epl Epo.
  assert (HL : bodies_of (alter (patch_piece i pt src o) j ps) ++ [body] = alter (zwrite o src) j (bodies_of ps ++ [body])).
  { rewrite bodies_alter, alter_app_l; [done|]. rewrite length_bodies. by eapply lookup_lt_Some. }
  destruct Hf as [o' Ho'|k' pt' j' x' o' I1 I2 I3 I4 I5 I6].
  - apply at_chunk. rewrite HL, length_alter. by apply ptr_at_keep; [|exists p|].
  - assert (Hkk : k' <> k) by (intros ->; done). rewrite <- Epo.
    apply (at_patch _ _ _ _ _ _ _ k' pt' j' (if decide (j = j') then patch_piece i pt src o x' else x') o').
    + rewrite Epl, list_lookup_alter_ne by done. exact I1.
    + done.
    + rewrite list_lookup_alter. case_decide as Hjj; [|exact I3]. subst j'. by rewrite I3.
    + done.
    + by destruct (decide (j = j')).
    + rewrite HL. by apply ptr_at_keep; [|exists p|].
Qed.

Lemma returned_patch w D flat poss V ps c pre hdr body tail p : opened w D flat poss V ps c pre hdr body tail -> p ∈ patch_list_ w -> pt_chunk_id p < zlen (wview w).
Proof.
  intros Ho Hp. destruct (ba_returned _ (op_base _ _ _ _ _ _ _ _ _ _ _ Ho) p Hp) as [H|(c1 & Hc & Hn)]; [done|].
  rewrite (op_cur _ _ _ _ _ _ _ _ _ _ _ Ho) in Hc. injection Hc as <-. destruct (op_flags _ _ _ _ _ _ _ _ _ _ _ Ho). congruence.
Qed.
Lemma alter_eq_nil {A} (f : A -> A) i l : alter f i l = [] <-> l = [].
Proof. rewrite <- !length_zero_iff_nil, length_alter. done. Qed.
Lemma continues_in_alter S D f j ps c pre : continues_in S D (alter f j ps) c pre <-> continues_in S D ps c pre.
Proof. destruct ps as [|x r]; [done|]. by destruct j. Qed.
Lemma store_in_patch w D flat m rest p poss V ps c pre hdr body tail src k pt j x o : opened w D flat (p :: poss) V ps c pre hdr body tail -> nested_ w = m :: rest ->
  marks src -> om_field m = InPatch (popped_ w + k)%nat -> patch_list_ w !! k = Some pt -> is_patched pt = false -> ps !! j = Some x ->
  pt_chunk_id pt = zlen V + Z.of_nat j -> pt_offset pt = zlen (encode_fragments (pc_pre x.2)) + kMessageLengthFieldSize + o ->
  ptr_at (bodies_of ps ++ [body]) j o kMessageLengthFieldSize p ->
  let w1 := set_patches (alter (fill src) k (patch_list_ w)) (popped_ w) w in
  store (om_field m) src w = Ok w1 /\
  opened (set_packet (root_ w) rest (finalized_ w) w1) D (zwrite p src flat) poss V (alter (patch_piece (id_ w) pt src o) j ps) c pre hdr body tail.
Proof.
  intros Ho Hn [Hz Hm] Hf Hk Hpt Hj Hid Hoff Hp w1. pose proof (returned_patch _ _ _ _ _ _ _ _ _ _ _ pt Ho ltac:(by eapply list_elem_of_lookup_2)) as Hret.
  pose proof (op_base _ _ _ _ _ _ _ _ _ _ _ Ho) as B. destruct (store_patch w k pt src B Hk Hpt Hz (Hm pt) Hret) as (Hst & B1 & Hv1). fold w1 in Hst, B1, Hv1. rewrite Hf.
  split; [exact Hst|]. destruct (ptr_at_piece _ _ _ _ _ _ Hj Hp) as [Ho0 Ho1].
  pose proof (op_nested _ _ _ _ _ _ _ _ _ _ _ Ho) as NE0.
  destruct Ho as [_ M W C [P1 P2] N F S T [K1 K2] FL [SM1 SM2] [R1 R2] L NE PO].
  assert (Hpat : patch_at (patch_list_ w) V ps k j o) by (by exists pt, x).
  rewrite <- (app_nil_r (map fst ps)) in W. destruct (patched_pieces w V ps [] _ D k j o src pt B W K1 Hpat Hk Hz) as [W1 K3]. rewrite app_nil_r in W1.
  rewrite Hn in NE. apply Forall2_cons in NE as [_ NE]. destruct PO as (PO1 & PO2 & PO3). assert (Hlen : zlen (zwrite p src flat) = zlen flat) by (apply zlen_zwrite; lia).
  assert (HL : bodies_of (alter (patch_piece (id_ w) pt src o) j ps) ++ [body] = alter (zwrite o src) j (bodies_of ps ++ [body])).
  { rewrite bodies_alter, alter_app_l; [done|]. rewrite length_bodies. by eapply lookup_lt_Some. }
  split; try done.
  - apply base_nested; [exact B1|]. intros i q Hi Hq. destruct (ba_waiting _ B1 i q Hi Hq) as (m' & Hm' & Hf'). exists m'. split; [|done].
    cbn [w1 set_patches nested_] in Hm'. rewrite Hn in Hm'. apply elem_of_cons in Hm' as [->|Hm']; [|done]. exfalso. rewrite Hf in Hf'. cbn [w1 set_patches popped_] in Hf'.
    assert (i = k) as -> by (injection Hf'; lia). cbn [w1 set_patches patch_list_] in Hi. rewrite list_lookup_alter_eq, Hk in Hi. injection Hi as <-. by rewrite Hm in Hq.
  - change (wview (set_packet (root_ w) rest (finalized_ w) w1)) with (wview w1). by rewrite Hv1.
  - split; [exact K3|]. by apply continues_in_alter.
  - rewrite FL, <- !flat_bodies, HL. symmetry. apply concat_alter_zwrite. by rewrite Hz.
  - unfold small in *. by rewrite Hlen.
  - split; [done|]. change (root_ (set_packet (root_ w) rest (finalized_ w) w1)) with (root_ w). rewrite R2, bodies_alter.
    pose proof (zlen_concat_alter (bodies_of ps) (zwrite o src) j (length (bodies_of ps))) as Hc. rewrite !take_ge in Hc by (rewrite ?length_alter; lia). symmetry. apply Hc.
    intros l Hl. unfold bodies_of in Hl. rewrite list_lookup_fmap, Hj in Hl. injection Hl as <-. apply zlen_zwrite; lia.
  - apply Forall2_same_length_lookup. split; [by eapply Forall2_length|]. intros i m' q Hi Hq. destruct (Forall2_lookup_lr _ _ _ _ _ _ NE Hi Hq) as [G1 G2]. split; [done|].
    eapply field_at_patched; try done. rewrite <- Hf. intros Hsame. assert (q < p) by (by eapply positions_below).
    rewrite Hn in NE0. apply Forall2_cons in NE0 as [[_ G3] _]. rewrite Hsame in G2. assert (q = p) by (by eapply field_at_position). lia.
  - rewrite Hlen. eapply positions_le; [exact PO3|]. unfold kMessageLengthFieldSize in *. lia.
Qed.

(** ** A packet that has been given up *)

(** A size field that still can be stored without harm. *)
Inductive lost_field (w : Writer) (V : list WChunk) (ps : list (WChunk * piece)) : address -> Prop :=
| lost_null : lost_field w V ps Null
| lost_garbage off : 0 <= off -> off + kMessageLengthFieldSize <= kGarbageChunkSize -> lost_field w V ps (InGarbage off)
| lost_patch k j o : patch_at (patch_list_ w) V ps k j o -> lost_field w V ps (InPatch (popped_ w + k)%nat).
(** The chunks after the pieces of the packet give nothing. *)
Definition hopeless (R : reading) (D : list (list Z)) (ps : list (WChunk * piece)) (T : list WChunk) : Prop :=
  (ps = [] -> (read_chunks R T).1 = D) /\ (ps <> [] -> forall X, (read_chunks (D, Some X) T).1 = D).
Definition different_patches (l : list OpenMessage) : Prop :=
  forall i j m m' n, i <> j -> l !! i = Some m -> l !! j = Some m' -> om_field m = InPatch n -> om_field m' <> InPatch n.
Record dropped (w : Writer) (D : list (list Z)) (V : list WChunk) (ps : list (WChunk * piece)) (T : list WChunk) : Prop := {
  dp_base : base w;
  dp_modes : fragmenting_packet_ (modes_ w) = true /\ drop_packets_ (modes_ w) = true;
  dp_cur : cur_chunk_ w = None;
  dp_view : wview w = V ++ map fst ps ++ T;
  dp_stream : exists p, stream_ w = mkPos GarbageChunk p kGarbageChunkSize /\ 0 <= p <= kGarbageChunkSize;
  dp_final : finalized_ w = false;
  dp_chunks : packet_chunks (read_chunks ([], None) V) D ps /\ hopeless (read_chunks ([], None) V) D ps T;
  dp_root : om_field (root_ w) = Null \/ exists p q, om_field (root_ w) = InGarbage p /\ last_packet_size_field_ w = InGarbage q /\
    0 <= p <= kGarbageChunkSize - kMessageLengthFieldSize /\ 0 <= q <= kGarbageChunkSize - kMessageLengthFieldSize;
  dp_nested : Forall (fun m => lost_field w V ps (om_field m)) (nested_ w);
  dp_different : different_patches (nested_ w)
}.

Lemma dropped_read w D V ps T : dropped w D V ps T -> (read_chunks ([], None) (wview w)).1 = D.
Proof.
  intros [B M C W St F [K1 [K2 K3]] R N _]. rewrite W, !read_chunks_app. destruct ps as [|x r]; [by apply K2|]. rewrite (packet_run _ _ _ _ K1). by apply K3.
Qed.
Lemma lost_field_frame w w' V ps f : lost_field w V ps f -> patch_list_ w' = patch_list_ w -> popped_ w' = popped_ w -> lost_field w' V ps f.
Proof. intros [|off H1 H2|k j o H] E1 E2; [constructor|by constructor|]. rewrite <- E2. apply (lost_patch _ _ _ k j o). by rewrite E1. Qed.

Lemma different_cons m rest : different_patches (m :: rest) -> different_patches rest /\ (forall m' n, m' ∈ rest -> om_field m = InPatch n -> om_field m' <> InPatch n).
Proof.
  intros X. split.
  - intros i j m1 m2 n Hne Hi Hj. apply (X (S i) (S j)); [lia|done|done].
  - intros m' n [i Hi]%list_elem_of_lookup. apply (X 0%nat (S i)); done.
Qed.

Lemma lost_fields_frame w w' V ps l : Forall (fun m => lost_field w V ps (om_field m)) l -> patch_list_ w' = patch_list_ w -> popped_ w' = popped_ w ->
  Forall (fun m => lost_field w' V ps (om_field m)) l.
Proof. intros H E1 E2. eapply Forall_impl; [exact H|]. intros m. cbv beta. intros G. by eapply lost_field_frame. Qed.
(** The innermost message is closed: its size field, if there is one, is written. *)
Lemma dropped_close w w1 D V ps T m rest root fin : dropped w D V ps T -> nested_ w = m :: rest -> fin = false ->
  om_field m = Null \/ (exists off, om_field m = InGarbage off) -> om_field root = om_field (root_ w) -> w1 = w ->
  dropped (set_packet root rest fin w1) D V ps T.
Proof.
  intros [B M C W St F K R N X] Hn -> Hm Hroot ->. split; try done.
  - apply base_nested; [done|]. intros i p Hi Hp. destruct (ba_waiting _ B i p Hi Hp) as (m' & Hm' & Hf). exists m'. split; [|done].
    rewrite Hn in Hm'. apply elem_of_cons in Hm' as [->|]; [|done]. destruct Hm as [E|[off E]]; congruence.
  - cbn [set_packet root_ last_packet_size_field_]. by rewrite Hroot.
  - cbn [set_packet nested_]. rewrite Hn in N. apply Forall_cons in N as [_ N]. eapply Forall_impl; [exact N|]. intros m'. cbv beta. intros H. by eapply lost_field_frame.
  - cbn [set_packet nested_]. rewrite Hn in X. by apply different_cons in X as [X _].
Qed.
Lemma dropped_close_patch w D V ps T m rest root k j o src : dropped w D V ps T -> nested_ w = m :: rest -> marks src ->
  om_field m = InPatch (popped_ w + k)%nat -> patch_at (patch_list_ w) V ps k j o -> om_field root = om_field (root_ w) ->
  exists w1 ps', store (om_field m) src w = Ok w1 /\ dropped (set_packet root rest false w1) D V ps' T /\ wview w1 = V ++ map fst ps' ++ T /\
    w1 = set_patches (patch_list_ w1) (popped_ w) w.
Proof.
  intros [B M C W St F [K1 K2] R N X] Hn [Hz Hmk] Hm Hp Hroot. pose proof Hp as (pt & x & E1 & E2 & E3 & E4 & E5 & E6 & E7).
  assert (Hret : pt_chunk_id pt < zlen (wview w)).
  { rewrite W, E4. apply lookup_lt_Some in E3. unfold zlen. rewrite !length_app, length_map. lia. }
  destruct (store_patch w k pt src B E1 E2 Hz (Hmk pt) Hret) as (Hst & B1 & Hv1). set (w1 := set_patches _ _ w) in *.
  destruct (patched_pieces w V ps T _ D k j o src pt B W K1 Hp E1 Hz) as [W1 K3]. set (ps' := alter _ j ps) in *.
  exists w1, ps'. rewrite Hm. split; [exact Hst|]. split; [|by rewrite Hv1, W1]. split; try done.
  - apply base_nested; [exact B1|]. intros i q Hi Hq. destruct (ba_waiting _ B1 i q Hi Hq) as (m' & Hm' & Hf'). exists m'. split; [|done].
    cbn [w1 set_patches nested_] in Hm'. rewrite Hn in Hm'. apply elem_of_cons in Hm' as [->|Hm']; [|done]. exfalso. rewrite Hm in Hf'. cbn [w1 set_patches popped_] in Hf'.
    assert (i = k) as -> by (injection Hf'; lia). cbn [w1 set_patches patch_list_] in Hi. rewrite list_lookup_alter_eq, E1 in Hi. injection Hi as <-. by rewrite Hmk in Hq.
  - change (wview (set_packet root rest false w1)) with (wview w1). by rewrite Hv1.
  - split; [exact K3|]. unfold hopeless, ps'. by rewrite alter_eq_nil.
  - cbn [set_packet root_ last_packet_size_field_]. by rewrite Hroot.
  - cbn [set_packet nested_]. rewrite Hn in N, X. apply different_cons in X as [_ X]. apply Forall_cons in N as [_ N]. rewrite Forall_forall in N. apply Forall_forall. intros m' Hm'. specialize (N m' Hm').
    cbv beta in *. specialize (X m' (popped_ w + k)%nat Hm' Hm). destruct N as [|off H1 H2|k' j' o' (pt' & x' & G1 & G2 & G3 & G4 & G5 & G6 & G7)]; [constructor|by constructor|].
    assert (Hne : k' <> k) by congruence. apply (lost_patch (set_packet root rest false w1) V ps' k' j' o'). exists pt', (if decide (j = j') then patch_piece (id_ w) pt src o x' else x').
    split; [cbn [w1 set_packet set_patches patch_list_]; by rewrite list_lookup_alter_ne|]. split; [done|]. split; [unfold ps'; rewrite list_lookup_alter; case_decide as Hjj; [subst j'; by rewrite G3|done]|].
    split; [done|]. destruct (decide (j = j')) as [<-|]; [|done]. rewrite E3 in G3. injection G3 as <-. cbn [patch_piece snd pc_pre pc_body]. split; [done|]. split; [done|]. rewrite zlen_zwrite by lia. done.
  - cbn [set_packet nested_]. rewrite Hn in X. by apply different_cons in X as [X _].
Qed.

(** ** An open packet *)

(** What the arbiter had for the writer at some point, whether a packet had been lost by
    then, and whether this one is [doomed]; [dry]: there was a request without a chunk. *)
Record budget := mkBudget { given : list (list bool * option (list Z)); lost_before : Prop; doomed : Prop }.
Definition ran_out (S0 : budget) (s : list (list bool * option (list Z))) : Prop := lost_before S0 \/ s = [] \/ Exists (fun e => e.2 = None) (given S0).
Definition dry (S0 : budget) (w : Writer) : Prop := ran_out S0 (supply_ w).
Definition goes_on (w : Writer) (D : list (list Z)) (flat poss : list Z) : Prop :=
  exists V ps c pre hdr body tail, opened w D flat poss V ps c pre hdr body tail.
Definition dropping (w : Writer) (D : list (list Z)) : Prop := exists V ps T, dropped w D V ps T.
Record writing (S0 : budget) (first : bool) (w : Writer) (D : list (list Z)) (flat poss : list Z) : Prop := {
  wt_supply : supply_ w `suffix_of` given S0;
  wt_first : first_packet_on_sequence_ (modes_ w) = first;
  wt_small : small flat;
  wt_positions : nested_positions poss (zlen flat);
  wt_nested : length (nested_ w) = length poss;
  wt_state : (goes_on w D flat poss /\ ~ doomed S0) \/ dropping w D /\ dry S0 w
}.
(** The sizes of the open messages. *)
Definition sizes_of (w : Writer) : Z * list Z := (om_size (root_ w), map om_size (nested_ w)).
Fixpoint sized (root : Z) (sizes poss : list Z) (total : Z) : Prop :=
  match sizes, poss with
  | [], [] => root = total
  | s :: sizes, p :: poss => s = total - (p + kMessageLengthFieldSize) /\ sized root sizes poss (p + kMessageLengthFieldSize)
  | _, _ => False
  end.
Definition sized_ok (w : Writer) (poss : list Z) (total : Z) : Prop := sized (sizes_of w).1 (sizes_of w).2 poss total.

Lemma opened_store w D flat m rest p poss V ps c pre hdr body tail src : opened w D flat (p :: poss) V ps c pre hdr body tail -> nested_ w = m :: rest -> marks src ->
  exists w1, store (om_field m) src w = Ok w1 /\ goes_on (set_packet (root_ w) rest (finalized_ w) w1) D (zwrite p src flat) poss /\
    root_ w1 = root_ w /\ finalized_ w1 = finalized_ w /\ supply_ w1 = supply_ w /\ modes_ w1 = modes_ w.
Proof.
  intros Ho Hn Hm. pose proof (op_nested _ _ _ _ _ _ _ _ _ _ _ Ho) as NE. rewrite Hn in NE. apply Forall2_cons in NE as [[_ G] _].
  inversion G as [o Hp E|k pt j x o H1 H2 H3 H4 H5 H6 E].
  - destruct (store_in_chunk w D flat m rest p poss V ps c pre hdr body tail src o Ho Hn (proj1 Hm) (eq_sym E) Hp) as [Hst Ho']. eexists. split; [by rewrite E; apply Hst|].
    split; [|done]. by eexists _, _, _, _, _, _, _.
  - destruct (store_in_patch w D flat m rest p poss V ps c pre hdr body tail src k pt j x o Ho Hn Hm (eq_sym E) H1 H2 H3 H4 H5 H6) as [Hst Ho']. eexists. split; [by rewrite E; apply Hst|].
    split; [|done]. by eexists _, _, _, _, _, _, _.
Qed.
Lemma dropped_store w D V ps T m rest src : dropped w D V ps T -> nested_ w = m :: rest -> marks src ->
  exists w1, (om_field m = Null /\ w1 = w \/ om_field m <> Null /\ store (om_field m) src w = Ok w1) /\
    dropping (set_packet (root_ w) rest false w1) D /\ root_ w1 = root_ w /\ supply_ w1 = supply_ w /\ modes_ w1 = modes_ w /\ finalized_ w1 = finalized_ w.
Proof.
  intros Hd Hn Hm. pose proof (dp_nested _ _ _ _ _ Hd) as N. rewrite Hn in N. apply Forall_cons in N as [G _]. inversion G as [E|off H1 H2 E|k j o Hp E].
  - exists w. split; [left; done|]. split; [|done]. exists V, ps, T. eapply dropped_close; try done. by left.
  - exists w. split; [right; split; [done|]|].
    + cbn [store]. replace ((0 <=? off) && (off + zlen src <=? kGarbageChunkSize)) with true; [done|]. destruct Hm as [-> _]. symmetry. apply andb_true_iff. rewrite !Z.leb_le. done.
    + split; [|done]. exists V, ps, T. eapply dropped_close; try done. right. by exists off.
  - destruct (dropped_close_patch w D V ps T m rest (root_ w) k j o src Hd Hn Hm (eq_sym E) Hp eq_refl) as (w1 & ps' & Hst & Hd' & _ & Ew).
    exists w1. split; [right; split; [done|]; by rewrite E|]. split; [by exists V, ps', T|]. by rewrite Ew.
Qed.
Lemma dropped_resize w D V ps T root' nested' : dropped w D V ps T -> same_place (root_ w) root' -> Forall2 same_place (nested_ w) nested' ->
  dropped (set_packet root' nested' (finalized_ w) w) D V ps T.
Proof.
  intros [B M C W St F K R N X] [Hr _] Hn. split; try done.
  - apply base_nested; [done|]. intros i p Hi Hp. destruct (ba_waiting _ B i p Hi Hp) as (m & Hm & Hf). apply list_elem_of_lookup in Hm as [j Hj].
    destruct (Forall2_lookup_l _ _ _ _ _ Hn Hj) as (m' & Hj' & [Hm' _]). exists m'. split; [by eapply list_elem_of_lookup_2|]. congruence.
  - cbn [set_packet root_ last_packet_size_field_]. by rewrite Hr.
  - cbn [set_packet nested_]. apply Forall_lookup. intros i m' Hi. destruct (Forall2_lookup_r _ _ _ _ _ Hn Hi) as (m & Hm & [-> _]). rewrite Forall_lookup in N.
    eapply lost_field_frame; [by apply (N i m)|done|done].
  - cbn [set_packet nested_]. intros i j m1 m2 n Hne Hi Hj. destruct (Forall2_lookup_r _ _ _ _ _ Hn Hi) as (n1 & Hn1 & [-> _]).
    destruct (Forall2_lookup_r _ _ _ _ _ Hn Hj) as (n2 & Hn2 & [-> _]). by apply (X i j).
Qed.
Lemma writing_resize S0 first w D flat poss root' nested' : writing S0 first w D flat poss -> same_place (root_ w) root' -> Forall2 same_place (nested_ w) nested' ->
  writing S0 first (set_packet root' nested' (finalized_ w) w) D flat poss.
Proof.
  intros [A1 A2 A3 A4 A5 A6] Hr Hn. split; try done.
  - cbn [set_packet nested_]. rewrite <- A5. symmetry. by eapply Forall2_length.
  - destruct A6 as [[(V & ps & c & pre & hdr & body & tail & H) Hdm]|[(V & ps & T & H) Hdry]].
    + left. split; [|done]. exists V, ps, c, pre, hdr, body, tail. by apply opened_resize.
    + right. split; [|done]. exists V, ps, T. by apply dropped_resize.
Qed.
Lemma grow_writing S0 first w D flat poss n : writing S0 first w D flat poss -> writing S0 first (grow n w) D flat poss.
Proof.
  intros H. unfold grow. destruct (nested_ w) as [|m rest] eqn:E; apply writing_resize; try done; rewrite ?E; constructor; [done|apply same_places_refl].
Qed.

(** ** Ending nested messages *)

Lemma sized_grow w poss t n : sized_ok w poss t -> nested_positions poss t -> 0 <= t -> 0 <= n -> t + n <= kMaxMessageLength -> sized_ok (grow n w) poss (t + n).
Proof.
  unfold sized_ok, sizes_of. cbn [fst snd]. intros H Hp Ht Hn Hmax. unfold grow. destruct (nested_ w) as [|m rest]; destruct poss as [|p poss]; try done; cbn [map sized] in H.
  - cbn [set_packet root_ nested_ map sized add_size om_size]. rewrite H. apply u32_small. max_lia.
  - destruct H as [H1 H2], Hp as (P1 & P2 & P3). cbn [set_packet root_ nested_ map sized add_size om_size]. split; [|done].
    rewrite H1. unfold kMessageLengthFieldSize in *. rewrite u32_small by max_lia. lia.
Qed.
Definition size_field (n : Z) : list Z := WriteRedundantVarInt n kMessageLengthFieldSize.
Lemma zlen_size_field n : word_ok 32 n -> zlen (size_field n) = 4.
Proof. apply zlen_redundant. Qed.
Lemma nested_not_null w D flat m rest poss V ps c pre hdr body tail : opened w D flat poss V ps c pre hdr body tail -> nested_ w = m :: rest -> om_already m = 0 /\ om_field m <> Null.
Proof.
  intros Ho En. pose proof (op_nested _ _ _ _ _ _ _ _ _ _ _ Ho) as NE. rewrite En in NE. inversion NE as [|? p0 ? ? [Hal Hf] _]. split; [done|]. by destruct Hf.
Qed.
(** The innermost size field is written: in both states of the packet. *)
Lemma backfill_spec S0 first w D flat p poss m rest n : writing S0 first w D flat (p :: poss) -> nested_ w = m :: rest -> n = om_size m -> word_ok 32 n ->
  exists w1, backfill (n - om_already m) (om_field m) w = Ok w1 /\ writing S0 first (set_packet (root_ w1) rest (finalized_ w1) w1) D (zwrite p (size_field n) flat) poss /\ root_ w1 = root_ w.
Proof.
  intros [A1 A2 A3 (P1 & P2 & P3) A5 A6] En Hn Hw. assert (Hlen : zlen (zwrite p (size_field n) flat) = zlen flat) by (apply zlen_zwrite; rewrite ?zlen_size_field by done; unfold kMessageLengthFieldSize in *; lia).
  rewrite En in A5. injection A5 as A5. assert (Hpos : nested_positions poss (zlen flat)) by (eapply positions_le; [exact P3|unfold kMessageLengthFieldSize in *; lia]).
  destruct A6 as [[(V & ps & c & pre & hdr & body & tail & Ho) Hdm]|[(V & ps & T & Hd) Hdry]].
  - destruct (nested_not_null _ _ _ _ _ _ _ _ _ _ _ _ _ Ho En) as [Hal Hnull]. rewrite Hal, Z.sub_0_r.
    destruct (opened_store w D flat m rest p poss V ps c pre hdr body tail _ Ho En (marks_size _ Hw)) as (w1 & Hst & Hgo & Er & Ef & Es & Em).
    exists w1. split; [|split; [|done]].
    + unfold backfill, write_size. rewrite (u32_small n) by done. by destruct (om_field m).
    + rewrite Er, Ef. split; try done; [cbn [set_packet supply_]; by rewrite Es|cbn [set_packet modes_]; by rewrite Em|unfold small; by rewrite Hlen|by rewrite Hlen|by left].
  - assert (Hw' : word_ok 32 (u32 (n - om_already m))) by apply u32_range.
    destruct (dropped_store w D V ps T m rest _ Hd En (marks_size _ Hw')) as (w1 & Hst & Hd' & Er & Es & Em & Ef).
    exists w1. split; [|split; [|done]].
    + unfold backfill, write_size. destruct Hst as [[-> ->]|[Hne Hst]]; [done|]. by destruct (om_field m).
    + rewrite Er, Ef, (dp_final _ _ _ _ _ Hd). split; try done; [cbn [set_packet supply_]; by rewrite Es|cbn [set_packet modes_]; by rewrite Em|unfold small; by rewrite Hlen|by rewrite Hlen|].
      right. split; [done|]. unfold dry in *. cbn [set_packet supply_]. by rewrite Es.
Qed.
Lemma EndInnermost_spec S0 first w D flat p poss : writing S0 first w D flat (p :: poss) -> sized_ok w (p :: poss) (zlen flat) ->
  exists w', EndInnermost w = Ok w' /\ writing S0 first w' D (zwrite p (size_field (zlen flat - (p + kMessageLengthFieldSize))) flat) poss /\ sized_ok w' poss (zlen flat).
Proof.
  intros H Hs. pose proof H as [_ _ A3 (P1 & P2 & P3) A5 _]. unfold EndInnermost. destruct (nested_ w) as [|m rest] eqn:En; [done|].
  unfold sized_ok, sizes_of in Hs. cbn [fst snd] in Hs. rewrite En in Hs. cbn [map sized] in Hs. destruct Hs as [Hs1 Hs2]. unfold small in A3. rewrite <- Hs1.
  destruct (backfill_spec S0 first w D flat p poss m rest (om_size m) H En eq_refl) as (w1 & E & Hw1 & Er); [rewrite Hs1; unfold kMessageLengthFieldSize in *; max_lia|].
  rewrite E. cbn [obind]. eexists. split; [done|]. split; [by apply grow_writing|].
  replace (zlen flat) with (p + kMessageLengthFieldSize + om_size m) by lia.
  apply sized_grow; [unfold sized_ok, sizes_of; cbn [set_packet fst snd root_ nested_]; by rewrite Er|by eapply positions_le; [exact P3|unfold kMessageLengthFieldSize; lia]|unfold kMessageLengthFieldSize in *; lia..].
Qed.

(** Closing the [k] innermost messages of a packet. *)
Fixpoint close (k : nat) (flat poss : list Z) : list Z * list Z :=
  match k, poss with
  | S k, p :: poss => close k (zwrite p (size_field (zlen flat - (p + kMessageLengthFieldSize))) flat) poss
  | _, _ => (flat, poss)
  end.
Lemma length_close k : forall flat poss, length (close k flat poss).2 = (length poss - k)%nat.
Proof. induction k as [|k IH]; intros flat poss; [cbn; lia|]. destruct poss as [|p poss]; [done|]. cbn [close length]. rewrite IH. lia. Qed.
Lemma zlen_close k : forall flat poss, nested_positions poss (zlen flat) -> small flat -> zlen (close k flat poss).1 = zlen flat.
Proof.
  induction k as [|k IH]; intros flat poss Hp Hs; [done|]. destruct poss as [|p poss]; [done|]. destruct Hp as (P1 & P2 & P3). cbn [close]. unfold small in *.
  assert (Hz : zlen (zwrite p (size_field (zlen flat - (p + kMessageLengthFieldSize))) flat) = zlen flat).
  { apply zlen_zwrite; rewrite ?zlen_size_field; unfold kMessageLengthFieldSize in *; max_lia. }
  rewrite IH; rewrite ?Hz; [done|eapply positions_le; [exact P3|unfold kMessageLengthFieldSize in *; lia]|done].
Qed.
Lemma EndNestedMessages_spec S0 first D depth fuel : forall w flat poss, (length poss <= fuel)%nat -> writing S0 first w D flat poss -> sized_ok w poss (zlen flat) ->
  let r := close (length poss - depth) flat poss in
  exists w', EndNestedMessages fuel depth w = Ok w' /\ writing S0 first w' D r.1 r.2 /\ sized_ok w' r.2 (zlen r.1).
Proof.
  induction fuel as [|fuel IH]; intros w flat poss Hle Hw Hs.
  - destruct poss; [|cbn in Hle; lia]. by exists w.
  - cbn [EndNestedMessages]. rewrite (wt_nested _ _ _ _ _ _ Hw). destruct (depth <? length poss)%nat eqn:E.
    + apply Nat.ltb_lt in E. destruct poss as [|p poss]; [cbn in E; lia|]. destruct (EndInnermost_spec S0 first w D flat p poss Hw Hs) as (w1 & -> & Hw1 & Hs1). cbn [obind].
      cbn [length] in *. replace (S (length poss) - depth)%nat with (S (length poss - depth)) by lia. cbn [close]. apply IH; [lia|done|].
      pose proof (zlen_close 1 flat (p :: poss) (wt_positions _ _ _ _ _ _ Hw) (wt_small _ _ _ _ _ _ Hw)) as Hz. cbn [close fst] in Hz. by rewrite Hz.
    + apply Nat.ltb_ge in E. replace (length poss - depth)%nat with 0%nat by lia. by exists w.
Qed.
Lemma end_nested_spec S0 first w D flat poss depth : writing S0 first w D flat poss -> sized_ok w poss (zlen flat) ->
  let r := close (length poss - depth) flat poss in
  exists w', end_nested depth w = Ok w' /\ writing S0 first w' D r.1 r.2 /\ sized_ok w' r.2 (zlen r.1).
Proof. intros Hw Hs. apply EndNestedMessages_spec; try done. by rewrite (wt_nested _ _ _ _ _ _ Hw). Qed.

(** ** A chunk from the arbiter *)

Lemma base_arbiter w a : base w -> committed_ok (id_ w) (patch_list_ w) a -> view (id_ w) (patch_list_ w) a = wview w -> base (set_arbiter a w).
Proof.
  intros [B1 B2 B3 B4 B5 B6 B7 B8 B9 BR B10] Ha Hv. assert (E : wview (set_arbiter a w) = wview w) by exact Hv.
  assert (E' : wchunks (set_arbiter a w) = wchunks w) by (unfold wchunks; by rewrite E). split; rewrite ?E', ?E; done.
Qed.
Lemma base_supply w s : base w -> s `suffix_of` supply_ w -> base (set_supply s w).
Proof.
  intros [B1 B2 B3 B4 B5 B6 B7 B8 B9 BR B10] [k Hk]. split; try done.
  - change (wchunks (set_supply s w)) with (wchunks w). cbn [set_supply supply_]. rewrite Hk in B4. unfold zlen in *. rewrite length_app in B4. lia.
  - cbn [set_supply supply_]. rewrite Hk in B5. by apply Forall_app in B5 as [_ B5].
Qed.
Lemma PostedFlush_spec w pl a : committed_ok w pl a -> committed_ok w pl (PostedFlush a) /\ view w pl (PostedFlush a) = view w pl a.
Proof. intros H. by destruct (Flush_committed w pl true false (set_delayed false (posted_ a) a) H) as (H1 & H2 & _). Qed.
Lemma flushes_spec w pl fl : forall a, committed_ok w pl a ->
  let a' := fold_left (fun (a : Arbiter) (posted : bool) => if posted then PostedFlush a else FlushPendingCommitDataRequests true false a) fl a in
  committed_ok w pl a' /\ view w pl a' = view w pl a.
Proof.
  induction fl as [|p fl IH]; intros a H; [done|]. cbn [fold_left]. destruct p.
  - destruct (PostedFlush_spec w pl a H) as [H1 <-]. by apply IH.
  - destruct (Flush_committed w pl true false a H) as (H1 & <- & _). by apply IH.
Qed.
Lemma dry_suffix S0 w e rest : supply_ w `suffix_of` given S0 -> supply_ w = e :: rest -> e.2 = None -> ran_out S0 rest.
Proof. intros [k Hk] E He. right. right. rewrite Hk. apply Exists_app. right. rewrite E. by constructor. Qed.
Lemma GetNewChunk_spec S0 w count flags : base w -> supply_ w `suffix_of` given S0 ->
  exists answer a s, GetNewChunk count flags w = (answer, set_supply s (set_arbiter a w)) /\ base (set_supply s (set_arbiter a w)) /\ wview (set_supply s (set_arbiter a w)) = wview w /\
    s `suffix_of` given S0 /\
    match answer with
    | None => ran_out S0 s
    | Some c => exists p, c = mkWChunk (id_ w) (next_chunk_id_ w) p count flags /\ 16 <= zlen p <= 65535 /\ zlen (wchunks w) + zlen s + 1 < 4294967296
    end.
Proof.
  intros B Hsuf. unfold GetNewChunk. destruct (supply_ w) as [|[fl answer] rest] eqn:E.
  - exists None, (arbiter_ w), []. replace (set_supply [] (set_arbiter (arbiter_ w) w)) with w by (destruct w; cbn in *; by subst). split; [done|]. split; [done|]. split; [done|]. split; [apply suffix_nil|]. right. by left.
  - destruct (flushes_spec (id_ w) (patch_list_ w) fl (arbiter_ w) (ba_arbiter _ B)) as [Ha Hv]. set (a := fold_left _ fl _) in *.
    assert (B1 : base (set_arbiter a w)) by (by apply base_arbiter).
    assert (Hrest : rest `suffix_of` supply_ (set_arbiter a w)) by (cbn [set_arbiter supply_]; rewrite E; by exists [(fl, answer)]).
    eexists _, a, rest. split; [done|]. split; [by apply base_supply|]. split; [exact Hv|].
    split; [etransitivity; [exact Hrest|]; cbn [set_arbiter supply_]; by rewrite E|]. destruct answer as [p|]; cbn [fmap option_fmap option_map].
    + exists p. split; [done|]. pose proof (ba_supply _ B) as Hok. rewrite E in Hok. apply Forall_cons in Hok as [Hp _]. split; [exact Hp|].
      pose proof (ba_room _ B) as Hr. rewrite E, zlen_cons in Hr. lia.
    + eapply dry_suffix; [by rewrite E|exact E|done].
Qed.
(** The writer takes a new chunk. *)
Lemma base_new_chunk w p count flags : base (set_chunk None w) -> 16 <= zlen p <= 65535 -> zlen (wview w) + zlen (supply_ w) + 1 < 4294967296 ->
  flags .& kChunkNeedsPatching = 0 -> base (set_chunk (Some (mkWChunk (id_ w) (next_chunk_id_ w) p count flags)) (set_next_chunk_id (u32 (next_chunk_id_ w + 1)) w)).
Proof.
  intros [B1 B2 B3 B4 B5 B6 B7 B8 B9 BR B10] Hp Hroom Hf. set (c := mkWChunk _ _ p count flags). set (w' := set_chunk (Some c) _).
  assert (E0 : wchunks (set_chunk None w) = wview w) by (unfold wchunks; cbn [set_chunk cur_chunk_ option_list]; by rewrite app_nil_r).
  assert (E : wchunks w' = wview w ++ [c]) by done. rewrite E0 in *. cbn [set_chunk next_chunk_id_ supply_ patch_list_ id_ nested_ popped_] in *.
  assert (Hnf : chunk_has_flag kChunkNeedsPatching c = false) by (unfold chunk_has_flag; cbn [c wc_flags]; by rewrite Hf).
  assert (Hz : zlen (wview w ++ [c]) = zlen (wview w) + 1) by (by rewrite zlen_app).
  pose proof (zlen_nonneg (wview w)). pose proof (zlen_nonneg (supply_ w)).
  split; rewrite ?E; try done.
  - intros i c1 Hi. apply lookup_app_Some in Hi as [Hi|[Hi1 Hi]]; [by apply B2|]. apply list_lookup_singleton_Some in Hi as [Hi <-]. unfold key_of. cbn [c wc_writer_id wc_chunk_id].
    f_equal. rewrite B3. unfold zlen. lia.
  - cbn [w' set_chunk set_next_chunk_id next_chunk_id_]. rewrite Hz, B3. apply u32_small. unfold word_ok. lia.
  - rewrite Hz. cbn [w' set_chunk set_next_chunk_id supply_]. lia.
  - apply Forall_app. split; [done|]. constructor; [exact Hp|constructor].
  - eapply Forall_impl; [exact B7|]. intros q (Q1 & Q2 & Q3 & c1 & Q4 & Q5). split; [done|]. split; [done|]. split; [done|]. exists c1. split; [by apply lookup_app_l_Some|done].
  - cbn [w' set_chunk cur_chunk_]. intros c1 [= <-] Hn. congruence.
  - intros q Hq. destruct (BR q Hq) as [Hlt|(c1 & Hc1 & _)]; [by left|done].
Qed.

(** ** The size fields of a full chunk become patches *)

Section detour.
Variables (w : Writer) (V : list WChunk) (ps : list (WChunk * piece)) (c : WChunk) (pre : list (list Z)) (body : list Z).
Definition frag_offset : Z := zlen (encode_fragments pre) + kMessageLengthFieldSize.
Hypothesis Hfits : frag_offset + zlen body <= zlen (wc_payload c) <= 65535.
Definition new_patch (o : Z) : Patch := Patch_new (wc_chunk_id c) (frag_offset + o).
Inductive moved_field (new : PatchList) (p : Z) : address -> Prop :=
| moved_new k o : new !! k = Some (new_patch o) -> ptr_at (bodies_of ps ++ [body]) (length ps) o kMessageLengthFieldSize p ->
    moved_field new p (InPatch (popped_ w + length (patch_list_ w) + k)%nat)
| moved_old n : field_at w V ps c pre body p (InPatch n) -> moved_field new p (InPatch n).
Definition detoured (new : PatchList) : Writer :=
  set_chunk (Some (set_flags (if bool_decide (new = []) then wc_flags c else wc_flags c .| kChunkNeedsPatching) c)) (set_patches (patch_list_ w ++ new) (popped_ w) w).
(** The new patches come in the order of the packet. *)
Definition ascending (new : PatchList) : Prop := forall i j p q, (i < j)%nat -> new !! i = Some p -> new !! j = Some q -> pt_offset p + kMessageLengthFieldSize <= pt_offset q.
Definition new_patches (new : PatchList) (u : Z) : Prop :=
  Forall (fun pt => exists o p, pt = new_patch o /\ ptr_at (bodies_of ps ++ [body]) (length ps) o kMessageLengthFieldSize p /\ p + kMessageLengthFieldSize <= u) new.

Lemma moved_mono new new' p f : moved_field new p f -> moved_field (new ++ new') p f.
Proof. intros [k o H1 H2|n H]; [apply (moved_new _ _ k o); [by apply lookup_app_l_Some|done]|by apply moved_old]. Qed.
Lemma ptr_at_body_position o p : ptr_at (bodies_of ps ++ [body]) (length ps) o kMessageLengthFieldSize p -> p = zlen (concat (bodies_of ps)) + o.
Proof. intros (l & _ & _ & _ & _ & ->). rewrite take_app_le by (rewrite length_bodies; lia). by rewrite take_ge by (rewrite length_bodies; lia). Qed.
Lemma new_patches_mono new u u' : new_patches new u -> u <= u' -> new_patches new u'.
Proof. intros H Hu. eapply Forall_impl; [exact H|]. intros pt (o & p & H1 & H2 & H3). exists o, p. split; [done|]. split; [done|lia]. Qed.

Lemma detour_spec ms : forall poss u, cur_chunk_ w = Some c -> Forall2 (fun m p => field_at w V ps c pre body p (om_field m)) ms poss -> nested_positions poss u ->
  exists ms' new, detour ms w = (ms', detoured new) /\ Forall2 (fun m m' => om_size m' = om_size m /\ om_already m' = om_already m /\ (forall n, om_field m = InPatch n -> om_field m' = om_field m)) ms ms' /\
    Forall2 (fun m' p => moved_field new p (om_field m')) ms' poss /\ new_patches new u /\ ascending new /\
    (forall k, (k < length new)%nat -> exists m', m' ∈ ms' /\ om_field m' = InPatch (popped_ w + length (patch_list_ w) + k)).
Proof.
  intros poss u Hc. revert poss u. induction ms as [|m rest IH]; intros poss u Hf Hp.
  - inversion Hf; subst. exists [], []. split; [|split; [constructor|split; [constructor|split; [constructor|split; [by intros i j p q _ H|intros k H; cbn in H; lia]]]]].
    cbn [detour]. unfold detoured. rewrite bool_decide_eq_true_2 by done. rewrite app_nil_r. f_equal. destruct w, c. cbn in *. by subst.
  - inversion Hf as [|? p ? poss' Hm Hrest]; subst. destruct Hp as (P1 & P2 & P3). destruct (IH poss' p Hrest P3) as (ms' & new & E & Hsz & Hmv & Hnew & Hasc & Hin).
    cbn [detour]. rewrite E. unfold detoured at 1. cbn [set_chunk cur_chunk_]. inversion Hm as [o Ho Ef|k pt j x o I1 I2 I3 I4 I5 I6 Ef].
    + destruct (ptr_at_body _ _ _ _ Ho) as [Ho0 Ho1]. pose proof (zlen_nonneg (encode_fragments pre)). unfold field_in_chunk. cbn [set_flags wc_chunk_id wc_payload]. rewrite Z.eqb_refl.
      fold frag_offset. assert (Hoff : 0 <= frag_offset + o /\ frag_offset + o + kMessageLengthFieldSize <= zlen (wc_payload c)) by (unfold frag_offset, kMessageLengthFieldSize in *; lia).
      replace (true && (0 <=? frag_offset + o) && (frag_offset + o + kMessageLengthFieldSize <=? zlen (wc_payload c))) with true by (symmetry; rewrite !andb_true_iff, !Z.leb_le; tauto).
      unfold AnnotatePatch. rewrite u16_small by (unfold word_ok, kMessageLengthFieldSize in *; lia). set (k := (popped_ w + length (patch_list_ w) + length new)%nat).
      exists (set_field (InPatch k) m :: ms'), (new ++ [new_patch o]). split; [|split; [constructor; [|done]; split; [done|split; [done|intros n En; congruence]]|split; [|split; [|split]]]].
      * unfold detoured. cbn [set_chunk set_patches popped_ patch_list_ set_flags wc_chunk_id wc_flags]. rewrite length_app. f_equal; [do 3 f_equal; unfold k; lia|].
        unfold emplace_back. rewrite <- app_assoc. rewrite (bool_decide_eq_false_2 (new ++ _ = [])) by (by destruct new). 
        match goal with |- set_chunk (Some ?a) ?b = set_chunk (Some ?a') ?b' => replace a with a'; [done|] end. unfold set_flags. cbn. f_equal.
        case_bool_decide; [done|]. by rewrite <- Z.lor_assoc, Z.lor_diag.
      * constructor; [|eapply Forall2_impl; [exact Hmv|]; intros; by apply moved_mono]. cbn [set_field om_field]. apply (moved_new _ _ (length new) o); [|done]. by rewrite lookup_app_r, Nat.sub_diag by lia.
      * apply Forall_app. split; [eapply new_patches_mono; [exact Hnew|unfold kMessageLengthFieldSize in *; lia]|]. constructor; [|constructor]. by exists o, p.
      * intros i1 i2 p1 p2 Hlt H1 H2. apply lookup_app_Some in H2 as [H2|[Hge H2]].
        -- rewrite lookup_app_l in H1 by (apply lookup_lt_Some in H2; lia). by eapply (Hasc i1 i2).
        -- apply list_lookup_singleton_Some in H2 as [H2 <-]. rewrite lookup_app_l in H1 by lia. unfold new_patches in Hnew. rewrite Forall_lookup in Hnew.
           destruct (Hnew i1 p1 H1) as (o1 & q1 & -> & Hq1 & Hle). cbn [new_patch Patch_new pt_offset]. apply ptr_at_body_position in Hq1, Ho. lia.
      * intros i Hi. rewrite length_app in Hi. cbn [length] in Hi. destruct (decide (i = length new)) as [->|Hne].
        -- exists (set_field (InPatch k) m). split; [apply elem_of_cons; by left|done].
        -- destruct (Hin i) as (m' & Hm' & Ef'); [lia|]. exists m'. split; [apply elem_of_cons; by right|done].
    + cbn [field_in_chunk]. exists (m :: ms'), new. split; [done|]. split; [by constructor|]. split; [|split; [|split; [done|]]].
      * constructor; [|done]. rewrite <- Ef. apply moved_old. by rewrite Ef.
      * eapply new_patches_mono; [exact Hnew|unfold kMessageLengthFieldSize in *; lia].
      * intros i Hi. destruct (Hin i Hi) as (m' & Hm' & Ef'). exists m'. split; [apply elem_of_cons; by right|done].
Qed.
End detour.

(** The patch list and the chunk after that. *)
Lemma new_patch_unpatched c pre o : is_patched (new_patch c pre o) = false.
Proof. done. Qed.
Lemma arbiter_ok_app i pl new a : arbiter_ok i pl a -> Forall (fun p => is_patched p = false) new -> arbiter_ok i (pl ++ new) a /\ view i (pl ++ new) a = view i pl a.
Proof.
  intros [K1 K2 K3 K4 K5 K6 K7] Hnew. rewrite Forall_forall in Hnew. split.
  - split; try done.
    + intros p [Hp|Hp]%elem_of_app Hpat; [by apply K5|]. by rewrite Hnew in Hpat.
    + intros c Hc Hw Hn. destruct (K6 c Hc Hw Hn) as (p & Hp & He). exists p. split; [apply elem_of_app; by left|done].
  - unfold view, known_patches. rewrite filter_app, map_app. replace (filter (fun p => is_patched p = true) new) with (@nil Patch); [by rewrite app_nil_r|].
    induction new as [|p new IH]; [done|]. rewrite filter_cons, decide_False; [apply IH; intros q Hq; apply Hnew; apply elem_of_cons; by right|].
    rewrite Hnew; [done|]. apply elem_of_cons. by left.
Qed.
Lemma flag_or_same f a : (f .| a) .& a = a.
Proof. apply Z.bits_inj'. intros n Hn. rewrite Z.land_spec, Z.lor_spec. by destruct (Z.testbit f n), (Z.testbit a n). Qed.
Lemma flag_or_other f a b : a .& b = 0 -> (f .| a) .& b = f .& b.
Proof. intros H. by rewrite Z.land_lor_distr_l, H, Z.lor_0_r. Qed.
Lemma detoured_flag w c new : chunk_has_flag kChunkNeedsPatching c = false ->
  chunk_has_flag kChunkNeedsPatching (set_flags (if bool_decide (new = @nil Patch) then wc_flags c else wc_flags c .| kChunkNeedsPatching) c) = negb (bool_decide (new = [])) /\
  patch_list_ (detoured w c new) = patch_list_ w ++ new.
Proof. intros H. split; [|done]. case_bool_decide; [exact H|]. unfold chunk_has_flag. cbn [set_flags wc_flags]. by rewrite flag_or_same. Qed.

Lemma base_detoured w ps c pre body root ms' fin new u : base w -> cur_chunk_ w = Some c -> chunk_has_flag kChunkNeedsPatching c = false ->
  frag_offset pre + zlen body <= zlen (wc_payload c) ->
  Forall2 (fun m m' => om_size m' = om_size m /\ om_already m' = om_already m /\ (forall n, om_field m = InPatch n -> om_field m' = om_field m)) (nested_ w) ms' ->
  new_patches ps c pre body new u -> ascending new -> (forall k, (k < length new)%nat -> exists m', m' ∈ ms' /\ om_field m' = InPatch (popped_ w + length (patch_list_ w) + k)) ->
  let w' := set_packet root ms' fin (detoured w c new) in
  base w' /\ wview w' = wview w /\ zlen (wchunks w') = zlen (wchunks w).
Proof.
  intros B Hc Hnf Hfit Hms Hnew Hasc Hin w'. pose proof B as [B1 B2 B3 B4 B5 B6 B7 B8 B9 BR B10].
  assert (Hnu : Forall (fun p => is_patched p = false) new) by (eapply Forall_impl; [exact Hnew|]; by intros pt (o & p & -> & _)).
  destruct (arbiter_ok_app _ _ _ _ (proj1 B1) Hnu) as [Ha Hv]. destruct (detoured_flag w c new Hnf) as [Hflag _].
  set (c' := set_flags (if bool_decide (new = []) then wc_flags c else wc_flags c .| kChunkNeedsPatching) c) in *.
  assert (Ev : wview w' = wview w) by exact Hv. assert (Ew : wchunks w = wview w ++ [c]) by (unfold wchunks; by rewrite Hc).
  assert (Ew' : wchunks w' = wview w ++ [c']) by (unfold wchunks; by rewrite Ev). pose proof (cur_index w c B Hc) as Hk.
  assert (Hlt : forall p, p ∈ patch_list_ w -> pt_chunk_id p < wc_chunk_id c).
  { intros p Hp. injection Hk as _ ->. destruct (BR p Hp) as [H|(c1 & Hc1 & Hn1)]; [done|]. congruence. }
  assert (Hid : forall pt, pt ∈ new -> pt_chunk_id pt = wc_chunk_id c /\ zlen (pt_size_field pt) = kMessageLengthFieldSize /\ 0 <= pt_offset pt /\ pt_offset pt + kMessageLengthFieldSize <= zlen (wc_payload c)).
  { intros pt Hpt. unfold new_patches in Hnew. rewrite Forall_forall in Hnew. destruct (Hnew pt Hpt) as (o & p & -> & Ho & _). cbn [new_patch Patch_new pt_chunk_id pt_size_field pt_offset].
    destruct (ptr_at_body _ _ _ _ Ho). pose proof (zlen_nonneg (encode_fragments pre)). unfold frag_offset, kMessageLengthFieldSize in *. split; [done|]. split; [done|]. lia. }
  assert (Hlen : zlen (wchunks w') = zlen (wchunks w)) by (rewrite Ew, Ew', !zlen_app; done).
  assert (Hcs : forall i c1, wchunks w' !! i = Some c1 -> exists c0, wchunks w !! i = Some c0 /\ key_of c1 = key_of c0 /\ zlen (wc_payload c1) = zlen (wc_payload c0)).
  { intros i c1. rewrite Ew, Ew', !lookup_app. destruct (wview w !! i) as [c0|]; [intros [= <-]; by exists c0|]. intros [Hi <-]%list_lookup_singleton_Some. exists c. by rewrite Hi. }
  assert (Hfl : flags_ok (id_ w) (patch_list_ w ++ new) (arbiter_ w)).
  { pose proof Hk as [= _ Hcid]. apply flags_app; [apply B1| |].
    - apply (sorted_app _ _ (wc_chunk_id c)); [apply B1|intros p Hp; specialize (Hlt p Hp); lia|intros p Hp; by apply Hid].
    - intros p Hp. destruct (Hid p Hp) as [-> _]. rewrite <- (view_keys (id_ w) (patch_list_ w)). fold (wview w). intros (c1 & He & Hin1)%list_elem_of_fmap.
      apply list_elem_of_lookup in Hin1 as [i Hi]. rewrite (wview_index w i c1 B Hi) in He. injection He as He. apply lookup_lt_Some in Hi. unfold zlen in Hcid. lia. }
  split; [|by split]. split; rewrite ?Ev, ?Hlen; try done.
  - intros i c1 Hi. destruct (Hcs i c1 Hi) as (c0 & H0 & -> & _). by apply B2.
  - apply Forall_lookup. intros i c1 Hi. destruct (Hcs i c1 Hi) as (c0 & H0 & _ & Hz0). rewrite Forall_lookup in B6. unfold chunk_size_ok. rewrite Hz0. by apply (B6 i).
  - change (patch_list_ w') with (patch_list_ w ++ new). apply Forall_app. split.
    + eapply Forall_impl; [exact B7|]. intros p. apply fits_lookup; [done|unfold zlen in Hlen; lia|]. intros i c0 c1 H0 H1. destruct (Hcs i c1 H1) as (c0' & H0' & _ & Hz0). congruence.
    + apply Forall_forall. intros pt Hpt. destruct (Hid pt Hpt) as (I1 & I2 & I3 & I4). split; [done|]. split; [done|]. rewrite I1. injection Hk as _ ->. split; [apply zlen_nonneg|].
      exists c'. split; [|done]. rewrite Ew'. unfold zlen. rewrite Nat2Z.id. by apply list_lookup_middle.
  - change (patch_list_ w') with (patch_list_ w ++ new). intros i j p q Hne Hi Hj He. apply lookup_app_Some in Hi as [Hi|[Hi1 Hi]], Hj as [Hj|[Hj1 Hj]].
    + by apply (B8 i j).
    + pose proof (Hlt p ltac:(by eapply list_elem_of_lookup_2)). destruct (Hid q ltac:(by eapply list_elem_of_lookup_2)). lia.
    + pose proof (Hlt q ltac:(by eapply list_elem_of_lookup_2)). destruct (Hid p ltac:(by eapply list_elem_of_lookup_2)). lia.
    + destruct (Hid p ltac:(by eapply list_elem_of_lookup_2)) as (_ & Z1 & _). destruct (Hid q ltac:(by eapply list_elem_of_lookup_2)) as (_ & Z2 & _).
      unfold apart, patch_data. cbn [fst snd]. rewrite Z1, Z2. destruct (decide (i < j)%nat); [left; by eapply (Hasc (i - length (patch_list_ w))%nat (j - length (patch_list_ w))%nat); [lia|..]|].
      right. by eapply (Hasc (j - length (patch_list_ w))%nat (i - length (patch_list_ w))%nat); [lia|..].
  - intros c1 E1 Hn1. change (patch_list_ w') with (patch_list_ w ++ new). assert (c1 = c') as -> by (by injection E1). rewrite Hflag in Hn1. destruct new as [|pt new]; [done|]. exists pt.
    split; [apply elem_of_app; right; apply elem_of_cons; by left|]. destruct (Hid pt) as [-> _]; [apply elem_of_cons; by left|done].
  - change (patch_list_ w') with (patch_list_ w ++ new). intros p [Hp|Hp]%elem_of_app; [left; injection Hk as _ <-; by apply Hlt|]. right. exists c'. split; [done|]. rewrite Hflag. by destruct new; [apply not_elem_of_nil in Hp|].
  - change (patch_list_ w') with (patch_list_ w ++ new). change (popped_ w') with (popped_ w). change (nested_ w') with ms'. intros i p Hi Hp. apply lookup_app_Some in Hi as [Hi|[Hge Hi]].
    + destruct (B10 i p Hi Hp) as (m & Hm & Hf). apply list_elem_of_lookup in Hm as [k Hk']. destruct (Forall2_lookup_l _ _ _ _ _ Hms Hk') as (m' & Hm' & _ & _ & Hsame).
      exists m'. split; [by eapply list_elem_of_lookup_2|]. by rewrite (Hsame _ Hf).
    + destruct (Hin (i - length (patch_list_ w))%nat) as (m' & Hm' & Hf); [by eapply lookup_lt_Some|]. exists m'. split; [done|]. rewrite Hf. f_equal. lia.
Qed.

(** ** The end of a fragment *)

Lemma field_at_chunk w w' V ps c c' pre body p f : field_at w V ps c pre body p f -> wc_chunk_id c' = wc_chunk_id c ->
  patch_list_ w' = patch_list_ w -> popped_ w' = popped_ w -> field_at w' V ps c' pre body p f.
Proof.
  intros [o Ho|k pt j x o H1 H2 H3 H4 H5 H6] Hid Hpl Hpo; [rewrite <- Hid; by apply at_chunk|]. rewrite <- Hpo. eapply at_patch; [by rewrite Hpl|done..].
Qed.
Lemma opened_arbiter w s a D flat poss V ps c pre hdr body tail : opened w D flat poss V ps c pre hdr body tail ->
  let w' := set_supply s (set_arbiter a w) in base w' -> wview w' = wview w -> opened w' D flat poss V ps c pre hdr body tail.
Proof.
  intros [B M W C P N F St T K FL SM R L NE PO] w' B' Hv. split; try done.
  - by rewrite Hv.
  - eapply Forall2_impl; [exact NE|]. intros m p [H1 H2]. split; [done|]. by eapply field_at_frame.
Qed.
Lemma opened_frag_fits w D flat poss V ps c pre hdr body tail : opened w D flat poss V ps c pre hdr body tail -> frag_offset pre + zlen body <= zlen (wc_payload c) <= 65535.
Proof.
  intros Ho. destruct (op_payload _ _ _ _ _ _ _ _ _ _ _ Ho) as [P1 P2]. pose proof (ba_sizes _ (op_base _ _ _ _ _ _ _ _ _ _ _ Ho)) as Hs. unfold wchunks in Hs.
  rewrite (op_cur _ _ _ _ _ _ _ _ _ _ _ Ho) in Hs. apply Forall_app in Hs as [_ Hs]. apply Forall_cons in Hs as [[_ Hs] _]. split; [|done].
  rewrite P1, !zlen_app, P2. unfold frag_offset. pose proof (zlen_nonneg tail). lia.
Qed.
Definition full_chunk (c : WChunk) (pre : list (list Z)) (body tail : list Z) : WChunk :=
  set_payload (encode_fragments pre ++ size_field (zlen body) ++ body ++ tail) (set_flags (wc_flags c .| kLastPacketContinuesOnNextChunk) c).
Lemma small_body w D flat poss V ps c pre hdr body tail : opened w D flat poss V ps c pre hdr body tail -> small body.
Proof.
  intros Ho. pose proof (opened_frag_fits _ _ _ _ _ _ _ _ _ _ _ Ho) as H. pose proof (zlen_nonneg (encode_fragments pre)). unfold small, frag_offset, kMessageLengthFieldSize in *. max_lia.
Qed.
Lemma full_chunk_size w D flat poss V ps c pre hdr body tail : opened w D flat poss V ps c pre hdr body tail -> zlen (wc_payload (full_chunk c pre body tail)) = zlen (wc_payload c).
Proof.
  intros Ho. destruct (op_payload _ _ _ _ _ _ _ _ _ _ _ Ho) as [P1 P2]. cbn [full_chunk set_payload wc_payload]. rewrite P1, !zlen_app, P2, zlen_size_field; [done|].
  pose proof (small_body _ _ _ _ _ _ _ _ _ _ _ Ho) as H. pose proof (zlen_nonneg body). unfold small in H. max_lia.
Qed.
Lemma full_chunk_piece w D flat poss V ps c pre hdr body tail flags : opened w D flat poss V ps c pre hdr body tail ->
  flags .& kLastPacketContinuesOnNextChunk <> 0 -> piece_chunk (mkPiece pre body tail) (set_flags flags (full_chunk c pre body tail)).
Proof.
  intros Ho Hf. destruct (op_count _ _ _ _ _ _ _ _ _ _ _ Ho) as [N _]. destruct (op_small _ _ _ _ _ _ _ _ _ _ _ Ho) as [_ SM].
  split; cbn [pc_pre pc_body pc_tail set_flags full_chunk set_payload wc_payload wc_count]; try done.
  - unfold chunk_has_flag. cbn [set_flags wc_flags]. by apply negb_true_iff, Z.eqb_neq.
  - split; [done|]. by eapply small_body.
Qed.
Lemma base_full_chunk w D flat poss V ps c pre hdr body tail root : opened w D flat poss V ps c pre hdr body tail ->
  base (set_chunk (Some (full_chunk c pre body tail)) (set_packet root (nested_ w) (finalized_ w) w)).
Proof.
  intros Ho. destruct (op_flags _ _ _ _ _ _ _ _ _ _ _ Ho) as [_ F]. apply (base_set_cur _ c).
  - apply base_root. eapply op_base. exact Ho.
  - exact (op_cur _ _ _ _ _ _ _ _ _ _ _ Ho).
  - done.
  - by eapply full_chunk_size.
  - rewrite F. done.
  - unfold chunk_has_flag in *. cbn [full_chunk set_payload set_flags wc_flags]. rewrite flag_or_other, F by done. done.
Qed.

Lemma end_fragment_spec w D flat poss V ps c pre hdr body tail : opened w D flat poss V ps c pre hdr body tail ->
  exists w2 ms new, let c1 := full_chunk c pre body tail in
    end_fragment w = Ok w2 /\
    w2 = set_packet (mkOpen (om_size (root_ w)) (om_field (root_ w)) (zlen flat)) ms (finalized_ w)
           (detoured (set_packet (mkOpen (om_size (root_ w)) (om_field (root_ w)) (zlen flat)) (nested_ w) (finalized_ w) w) c1 new) /\
    base w2 /\ wview w2 = wview w /\ zlen (wchunks w2) = zlen (wchunks w) /\
    Forall2 (fun m m' => om_size m' = om_size m /\ om_already m' = om_already m /\ (forall n, om_field m = InPatch n -> om_field m' = om_field m)) (nested_ w) ms /\
    Forall2 (fun m' p => moved_field w V ps c pre body new p (om_field m')) ms poss.
Proof.
  intros Ho. pose proof (opened_frag_fits _ _ _ _ _ _ _ _ _ _ _ Ho) as Hfit. pose proof (full_chunk_size _ _ _ _ _ _ _ _ _ _ _ Ho) as Hsz.
  pose proof (small_body _ _ _ _ _ _ _ _ _ _ _ Ho) as Hsb. destruct (op_payload _ _ _ _ _ _ _ _ _ _ _ Ho) as [P1 P2]. destruct (op_flags _ _ _ _ _ _ _ _ _ _ _ Ho) as [_ F].
  destruct (op_root _ _ _ _ _ _ _ _ _ _ _ Ho) as [R1 R2]. destruct (op_small _ _ _ _ _ _ _ _ _ _ _ Ho) as [SM _]. pose proof (op_flat _ _ _ _ _ _ _ _ _ _ _ Ho) as FL.
  pose proof (zlen_nonneg body). pose proof (zlen_nonneg (encode_fragments pre)). pose proof (zlen_nonneg (concat (bodies_of ps))). pose proof (zlen_nonneg tail).
  set (c1 := full_chunk c pre body tail) in *. set (root := mkOpen (om_size (root_ w)) (om_field (root_ w)) (zlen flat)).
  set (w1 := set_chunk (Some c1) (set_packet root (nested_ w) (finalized_ w) w)). pose proof (base_full_chunk _ _ _ _ _ _ _ _ _ _ _ root Ho) as B1. fold c1 w1 in B1.
  assert (NE : Forall2 (fun m p => field_at w1 V ps c1 pre body p (om_field m)) (nested_ w1) poss).
  { eapply Forall2_impl; [apply (op_nested _ _ _ _ _ _ _ _ _ _ _ Ho)|]. intros m p [_ G]. by eapply field_at_chunk. }
  destruct (detour_spec w1 V ps c1 pre body ltac:(by rewrite Hsz) (nested_ w1) poss (zlen flat) eq_refl NE (op_positions _ _ _ _ _ _ _ _ _ _ _ Ho)) as (ms & new & E & Hms & Hmv & Hnew & Hasc & Hin).
  assert (Hf1 : chunk_has_flag kChunkNeedsPatching c1 = false).
  { unfold chunk_has_flag in *. cbn [c1 full_chunk set_payload set_flags wc_flags]. by rewrite flag_or_other, F by done. }
  destruct (base_detoured w1 ps c1 pre body root ms (finalized_ w) new (zlen flat) B1 eq_refl Hf1 ltac:(rewrite Hsz; lia) Hms Hnew Hasc Hin) as (B2 & V2 & L2).
  exists (set_packet root ms (finalized_ w) (detoured w1 c1 new)), ms, new. cbv zeta. split; [|split; [done|split; [exact B2|split; [exact V2|split; [|split; [exact Hms|]]]]]].
  - unfold end_fragment. rewrite (op_stream _ _ _ _ _ _ _ _ _ _ _ Ho), (op_start _ _ _ _ _ _ _ _ _ _ _ Ho). cbn [write_ptr_].
    replace (zlen (encode_fragments pre) + kMessageLengthFieldSize + zlen body - (zlen (encode_fragments pre) + kMessageLengthFieldSize)) with (zlen body) by lia.
    unfold small in *. rewrite FL, zlen_app in SM. rewrite R2. rewrite (u32_small (zlen body)) by max_lia. rewrite u32_small by max_lia. rewrite <- zlen_app, <- FL. fold root.
    cbn [set_packet cur_chunk_]. rewrite (op_cur _ _ _ _ _ _ _ _ _ _ _ Ho). cbn [obind].
    unfold write_size. rewrite u32_small by max_lia. fold (size_field (zlen body)). cbn [set_chunk set_packet root_]. change (om_field root) with (om_field (root_ w)). rewrite R1.
    assert (Hzs : zlen (size_field (zlen body)) = 4) by (apply zlen_size_field; max_lia).
    cbn [store set_chunk cur_chunk_ set_flags wc_chunk_id]. rewrite Z.eqb_refl, Hzs. cbn [set_flags wc_payload].
    replace (true && (0 <=? zlen (encode_fragments pre)) && (zlen (encode_fragments pre) + 4 <=? zlen (wc_payload c))) with true
      by (symmetry; rewrite !andb_true_iff, !Z.leb_le; unfold frag_offset, kMessageLengthFieldSize in *; lia).
    cbn [perfetto_check obind]. match goal with |- context [detour _ ?x] => replace x with w1 end.
    2: { unfold w1, c1, full_chunk. rewrite P1, zwrite_mid by (by rewrite Hzs, P2). done. }
    change (nested_ (set_chunk _ _)) with (nested_ w1). rewrite E. done.
  - change (zlen (wchunks (set_packet root ms (finalized_ w) (detoured w1 c1 new))) = zlen (wchunks w)). rewrite L2. unfold w1, wchunks. cbn [set_chunk cur_chunk_ option_list]. rewrite (op_cur _ _ _ _ _ _ _ _ _ _ _ Ho). cbn [option_list]. by rewrite !zlen_app.
  - eapply Forall2_impl; [exact Hmv|]. intros m' p [k o G1 G2|n G1]; [exact (moved_new w V ps c pre body new p k o G1 G2)|].
    apply moved_old. by eapply field_at_chunk.
Qed.

(** ** The packet goes on in a new chunk *)

Lemma forget_flag f c : f .& kChunkNeedsPatching = 0 -> chunk_has_flag f (forget_needs_patching c) = chunk_has_flag f c.
Proof.
  intros H. unfold chunk_has_flag, forget_needs_patching. cbn [set_flags wc_flags]. do 2 f_equal. apply Z.bits_inj'. intros n Hn.
  rewrite !Z.land_spec, Z.lnot_spec by done. assert (E : Z.testbit (f .& kChunkNeedsPatching) n = false) by (by rewrite H, Z.bits_0). rewrite Z.land_spec in E.
  by destruct (Z.testbit (wc_flags c) n), (Z.testbit f n), (Z.testbit kChunkNeedsPatching n).
Qed.
Lemma starts_forget c : starts_packet (forget_needs_patching c) = starts_packet c.
Proof. unfold starts_packet. by rewrite forget_flag. Qed.
Lemma items_of_forget c : items_of (forget_needs_patching c) = items_of c.
Proof. unfold items_of. rewrite starts_forget, forget_flag by done. done. Qed.
Lemma piece_forget pc c : piece_chunk pc c -> piece_chunk pc (forget_needs_patching c).
Proof. intros [H1 H2 H3 H4]. split; try done. by rewrite forget_flag. Qed.
Lemma starts_set_flags c g : g .& kFirstPacketContinuesFromPrevChunk = wc_flags c .& kFirstPacketContinuesFromPrevChunk -> starts_packet (set_flags g c) = starts_packet c.
Proof. intros H. unfold starts_packet, chunk_has_flag. cbn [set_flags wc_flags]. by rewrite H. Qed.
Lemma packet_chunks_snoc R D ps c pre c2 pc : packet_chunks R D ps -> continues_in R D ps c pre -> piece_chunk pc c2 -> pc_pre pc = pre -> starts_packet c2 = starts_packet c ->
  packet_chunks R D (ps ++ [(c2, pc)]).
Proof.
  intros Hp Hc Hpc Hpre Hs. destruct ps as [|x r].
  - cbn [app packet_chunks fst snd]. split; [done|]. rewrite Hpre. split; [|constructor]. destruct Hc as [H1 H2]. unfold begins. by rewrite Hs.
  - destruct Hp as (H1 & H2 & H3), Hc as [H4 H5]. cbn [app packet_chunks]. split; [done|]. split; [done|]. apply Forall_app. split; [done|]. constructor; [|constructor].
    unfold follows. cbn [fst snd]. by rewrite Hpre, Hs.
Qed.
(** Where the size fields are once the chunk has been returned. *)
Lemma field_at_returned w w2 w3 w4 V ps c pre body tail c2 new p f c4 : moved_field w V ps c pre body new p f -> wc_chunk_id c = zlen V + Z.of_nat (length ps) ->
  patch_list_ w2 = patch_list_ w ++ new -> popped_ w2 = popped_ w -> arbiter_step w2 w3 -> patch_list_ w4 = patch_list_ w3 -> popped_ w4 = popped_ w3 ->
  field_at w4 V (ps ++ [(c2, mkPiece pre body tail)]) c4 [] [] p f.
Proof.
  intros Hm Hid Hpl2 Hpo2 Has Hpl4 Hpo4. set (ps' := ps ++ [(c2, mkPiece pre body tail)]). assert (HL : bodies_of ps' ++ [[]] = (bodies_of ps ++ [body]) ++ [[]]) by (unfold ps', bodies_of; by rewrite map_app).
  destruct Hm as [k o H1 H2|n Hf].
  - destruct (as_patch w2 w3 (length (patch_list_ w) + k) (new_patch c pre o) Has) as (j & Hj & E); [rewrite Hpl2, lookup_app_r by lia; by replace (length (patch_list_ w) + k - length (patch_list_ w))%nat with k by lia|done|].
    replace (popped_ w + length (patch_list_ w) + k)%nat with (popped_ w4 + j)%nat by lia.
    apply (at_patch _ _ _ _ _ _ _ j (new_patch c pre o) (length ps) (c2, mkPiece pre body tail) o); [by rewrite Hpl4|done| |exact Hid|done|rewrite HL; by apply ptr_at_app].
    unfold ps'. by apply list_lookup_middle.
  - inversion Hf as [|k pt j x o I1 I2 I3 I4 I5 I6]; subst. destruct (as_patch w2 w3 k pt Has) as (i & Hi & E); [rewrite Hpl2; by apply lookup_app_l_Some|done|].
    replace (popped_ w + k)%nat with (popped_ w4 + i)%nat by lia.
    apply (at_patch _ _ _ _ _ _ _ i pt j x o); [by rewrite Hpl4|done|unfold ps'; by apply lookup_app_l_Some|done|done|rewrite HL; by apply ptr_at_app].
Qed.

Lemma wview_same w w' : id_ w' = id_ w -> patch_list_ w' = patch_list_ w -> arbiter_ w' = arbiter_ w -> wview w' = wview w.
Proof. intros E1 E2 E3. unfold wview. by rewrite E1, E2, E3. Qed.
Lemma opened_new_chunk w D flat poss V ps c pre hdr body tail p : opened w D flat poss V ps c pre hdr body tail -> 16 <= zlen p <= 65535 ->
  zlen (wchunks w) + zlen (supply_ w) + 1 < 4294967296 ->
  exists w' pos, use_chunk (mkWChunk (id_ w) (next_chunk_id_ w) p 1 kFirstPacketContinuesFromPrevChunk) w = Ok (pos, w') /\ goes_on (set_stream pos w') D flat poss /\
    12 <= available pos /\ supply_ w' = supply_ w /\ sizes_of w' = sizes_of w /\ first_packet_on_sequence_ (modes_ w') = first_packet_on_sequence_ (modes_ w).
Proof.
  intros Ho Hp Hroom. destruct (end_fragment_spec _ _ _ _ _ _ _ _ _ _ _ Ho) as (w2 & ms & new & E2 & Ew2 & B2 & V2 & L2 & Hms & Hmv). cbv zeta in Ew2.
  set (c1 := full_chunk c pre body tail) in *. set (root := mkOpen (om_size (root_ w)) (om_field (root_ w)) (zlen flat)) in *.
  set (c2 := set_flags (if bool_decide (new = []) then wc_flags c1 else wc_flags c1 .| kChunkNeedsPatching) c1).
  assert (Hc2 : cur_chunk_ w2 = Some c2) by (by rewrite Ew2).
  destruct (return_spec w2 c2 B2 Hc2) as (w3 & E3 & Has & B3 & V3 & _).
  destruct (as_frame _ _ Has) as (a & pl & n & Ew3).
  set (header := InChunk (next_chunk_id_ w) 0). set (nc := mkWChunk (id_ w) (next_chunk_id_ w) p 1 kFirstPacketContinuesFromPrevChunk).
  set (nc' := set_payload (zeros 4 ++ zdrop 4 p) nc).
  set (w5 := set_chunk (Some nc') (set_last_field header (set_packet (set_field header root) ms (finalized_ w) (set_next_chunk_id (u32 (next_chunk_id_ w + 1)) (set_modes (new_chunk_modes false (modes_ w)) w3))))).
  pose proof (zlen_nonneg p). assert (Hzp : zlen (zeros 4 ++ zdrop 4 p) = zlen p) by (rewrite zlen_app, zlen_zeros, zlen_zdrop by lia; lia).
  assert (Hidc : wc_chunk_id c = zlen V + Z.of_nat (length ps)).
  { pose proof (cur_index w c (op_base _ _ _ _ _ _ _ _ _ _ _ Ho) (op_cur _ _ _ _ _ _ _ _ _ _ _ Ho)) as Hk. rewrite (op_view _ _ _ _ _ _ _ _ _ _ _ Ho), zlen_app in Hk. injection Hk as _ ->. unfold zlen. rewrite length_map. lia. }
  assert (Hzw : zwrite 0 (zeros 4) p = zeros 4 ++ zdrop 4 p) by done.
  destruct (op_modes _ _ _ _ _ _ _ _ _ _ _ Ho) as (M1 & M2 & M3).
  destruct (op_flags _ _ _ _ _ _ _ _ _ _ _ Ho) as [F1 F2]. destruct (op_chunks _ _ _ _ _ _ _ _ _ _ _ Ho) as [K1 K2].
  assert (Hid3 : id_ w3 = id_ w /\ next_chunk_id_ w3 = next_chunk_id_ w /\ supply_ w3 = supply_ w) by (by rewrite Ew3, Ew2).
  assert (Hf3 : modes_ w3 = modes_ w /\ root_ w3 = root /\ nested_ w3 = ms /\ finalized_ w3 = finalized_ w) by (by rewrite Ew3, Ew2).
  assert (Hc2s : starts_packet c2 = starts_packet c).
  { unfold c2, c1, full_chunk. case_bool_decide; cbn [set_payload wc_flags]; unfold starts_packet, chunk_has_flag; cbn [set_flags set_payload wc_flags]; by rewrite ?flag_or_other. }
  assert (Hpc : piece_chunk (mkPiece pre body tail) (forget_needs_patching c2)).
  { apply piece_forget. unfold c2. eapply full_chunk_piece; [exact Ho|]. cbn [c1 full_chunk set_payload set_flags wc_flags]. case_bool_decide; [by rewrite flag_or_same|].
    rewrite flag_or_other by done. by rewrite flag_or_same. }
  assert (Hwv3 : zlen (wview w3) = zlen (wchunks w)).
  { rewrite V3, zlen_app, V2. unfold wchunks. rewrite (op_cur _ _ _ _ _ _ _ _ _ _ _ Ho), zlen_app. done. }
  exists (set_fragment_start 4 w5), (mkPos CurrentChunk 4 (zlen p)). split; [|split; [|split; [|split; [|split]]]].
  - unfold use_chunk. rewrite M1, E2. cbn [obind]. rewrite Hc2, E3. cbn [obind]. unfold w5, nc'. rewrite <- Hzw. clear - Hf3 M1 Hid3 Hp. destruct Hf3 as (I1 & I2 & I3 & I4), Hid3 as (_ & I5 & _).
    clearbody root. destruct w3 as [x1 x2 x3 x4 x5 x6 x7 x8 x9 x10 x11 x12 x13 x14 x15]. cbn in I1, I2, I3, I4, I5. subst.
    cbn [modes_ new_chunk_modes fragmenting_packet_ set_next_chunk_id set_modes next_chunk_id_]. cbn [store set_last_field set_packet set_chunk cur_chunk_ set_next_chunk_id set_modes].
    fold nc. rewrite Z.eqb_refl. change (0 + zlen (zeros kPacketHeaderSize)) with 4. change (wc_payload nc) with p. replace (4 <=? zlen p) with true by lia. done.
  - exists V, (ps ++ [(forget_needs_patching c2, mkPiece pre body tail)]), nc', [], (zeros 4), [], (zdrop 4 p).
    assert (B4 : base (set_chunk (Some nc) (set_next_chunk_id (u32 (next_chunk_id_ w + 1)) w3))).
    { destruct Hid3 as (I1 & I2 & I3). unfold nc. rewrite <- I1, <- I2. apply base_new_chunk; [done|done|rewrite Hwv3, I3; lia|done]. }
    split.
    + apply base_stream, base_fragment_start. apply (base_set_cur (set_last_field header (set_packet (set_field header root) ms (finalized_ w) (set_chunk (Some nc) (set_next_chunk_id (u32 (next_chunk_id_ w + 1)) (set_modes (new_chunk_modes false (modes_ w)) w3))))) nc); try done.
      apply base_last_field, base_nested; [exact (base_modes _ (new_chunk_modes false (modes_ w)) B4)|]. intros i q Hi Hq. destruct (ba_waiting _ B4 i q Hi Hq) as (m & Hm & Hf). exists m. split; [|done].
      cbn [set_chunk set_next_chunk_id nested_] in Hm. by rewrite Ew3, Ew2 in Hm.
    + done.
    + change (wview w3 = V ++ map fst (ps ++ [(forget_needs_patching c2, mkPiece pre body tail)])). rewrite V3, V2, (op_view _ _ _ _ _ _ _ _ _ _ _ Ho), map_app, app_assoc. done.
    + done.
    + done.
    + done.
    + done.
    + cbn [set_stream stream_]. f_equal. symmetry. exact Hzp.
    + done.
    + split; [by eapply packet_chunks_snoc; [exact K1|exact K2|..]; rewrite ?starts_forget|]. destruct ps; done.
    + unfold bodies_of. rewrite map_app, concat_app. cbn [map concat snd pc_body]. rewrite !app_nil_r. apply (op_flat _ _ _ _ _ _ _ _ _ _ _ Ho).
    + split; [by apply (op_small _ _ _ _ _ _ _ _ _ _ _ Ho)|constructor].
    + split; [done|]. cbn [set_stream set_fragment_start w5 set_chunk set_last_field set_packet root_ set_field om_already root].
      rewrite (op_flat _ _ _ _ _ _ _ _ _ _ _ Ho). unfold bodies_of. rewrite map_app, concat_app. cbn [map concat snd pc_body]. by rewrite app_nil_r.
    + split; [done|]. apply (op_last _ _ _ _ _ _ _ _ _ _ _ Ho).
    + apply Forall2_same_length_lookup. split; [by eapply Forall2_length|]. intros i m' q Hi Hq. cbn [set_stream set_fragment_start w5 set_chunk set_last_field set_packet nested_] in Hi.
      destruct (Forall2_lookup_r _ _ _ _ _ Hms Hi) as (m & Hm & _ & Hal & _). destruct (Forall2_lookup_lr _ _ _ _ _ _ (op_nested _ _ _ _ _ _ _ _ _ _ _ Ho) Hm Hq) as [Hal0 _].
      split; [by rewrite Hal|]. apply (field_at_returned w w2 w3 _ V ps c pre body tail (forget_needs_patching c2) new q); try done; [exact (Forall2_lookup_lr _ _ _ _ _ _ Hmv Hi Hq)|by rewrite Ew2..].
    + apply (op_positions _ _ _ _ _ _ _ _ _ _ _ Ho).
  - unfold available. cbn. lia.
  - cbn [set_fragment_start w5 set_chunk set_last_field set_packet set_next_chunk_id set_modes supply_]. by rewrite Ew3, Ew2.
  - unfold sizes_of. cbn. f_equal. clear - Hms. induction Hms as [|m m' l l' (H1 & _) _ IH]; [done|]. cbn [map]. by rewrite H1, IH.
  - done.
Qed.

(** ** No chunk: the packet is given up *)

Lemma positions_differ poss : forall u i j p q, nested_positions poss u -> (i < j)%nat -> poss !! i = Some p -> poss !! j = Some q -> q < p.
Proof.
  induction poss as [|x r IH]; intros u i j p q H Hij Hi Hj; [done|]. destruct H as (H1 & H2 & H3).
  destruct j as [|j]; [lia|]. cbn in Hj. destruct i as [|i]; [injection Hi as <-; by eapply positions_below|]. apply (IH x i j); try done. lia.
Qed.
Lemma opened_different w D flat poss V ps c pre hdr body tail : opened w D flat poss V ps c pre hdr body tail -> different_patches (nested_ w).
Proof.
  intros Ho i j m m' n Hne Hi Hj Hm Hm'. pose proof (op_nested _ _ _ _ _ _ _ _ _ _ _ Ho) as NE. pose proof (op_positions _ _ _ _ _ _ _ _ _ _ _ Ho) as PO.
  destruct (Forall2_lookup_l _ _ _ _ _ NE Hi) as (p & Hp & _ & G1). destruct (Forall2_lookup_l _ _ _ _ _ NE Hj) as (q & Hq & _ & G2). rewrite Hm in G1. rewrite Hm' in G2.
  assert (p = q) as <- by (by eapply field_at_position). destruct (decide (i < j)%nat).
  - pose proof (positions_differ _ _ i j p p PO ltac:(done) Hp Hq). lia.
  - pose proof (positions_differ _ _ j i p p PO ltac:(lia) Hq Hp). lia.
Qed.
Definition dropped_chunk (c : WChunk) (pre : list (list Z)) (rest : list Z) : WChunk := set_payload (encode_fragments pre ++ drop_header ++ rest) c.
Lemma items_of_dropped_chunk c pre rest : wc_count c = Z.of_nat (length pre) + 1 -> Forall small pre -> chunk_has_flag kLastPacketContinuesOnNextChunk c = false ->
  zlen (wc_payload (dropped_chunk c pre rest)) <= 65535 -> items_of (dropped_chunk c pre rest) = layout_items (starts_packet c) false pre ++ [None].
Proof. intros H1 H2 H3 H4. apply (items_of_dropped (dropped_chunk c pre rest) pre rest); try done. max_lia. Qed.
Lemma hopeless_dropped R D ps c pre rest : continues_in R D ps c pre -> wc_count c = Z.of_nat (length pre) + 1 -> Forall small pre ->
  chunk_has_flag kLastPacketContinuesOnNextChunk c = false -> zlen (wc_payload (dropped_chunk c pre rest)) <= 65535 ->
  hopeless R D ps [forget_needs_patching (dropped_chunk c pre rest)].
Proof.
  intros Hc H1 H2 H3 H4. unfold hopeless. setoid_rewrite read_chunks_one. rewrite items_of_forget, items_of_dropped_chunk by done. setoid_rewrite feed_all_app. split.
  - intros ->. destruct Hc as [Hc _]. cbn [feed_all fold_left feed fst]. exact Hc.
  - intros Hne X. destruct ps as [|x r]; [done|]. by destruct Hc as [-> _].
Qed.

Lemma lost_after_drop w w1 w3 w4 D flat poss V ps c pre hdr body tail c1 m p : opened w D flat poss V ps c pre hdr body tail ->
  wc_chunk_id c1 = wc_chunk_id c -> zlen (wc_payload c1) = zlen (wc_payload c) -> patch_list_ w1 = patch_list_ w -> popped_ w1 = popped_ w -> arbiter_step w1 w3 ->
  patch_list_ w4 = patch_list_ w3 -> popped_ w4 = popped_ w3 -> field_at w V ps c pre body p (om_field m) -> lost_field w4 V ps (om_field (invalidate (Some c1) m)).
Proof.
  intros Ho Hid Hz E1 E2 Has E3 E4 G. unfold invalidate. inversion G as [o Hp Ef|k pt j x o H1 H2 H3 H4 H5 H6 Ef].
  - destruct (ptr_at_body _ _ _ _ Hp) as [Ho0 Ho1]. pose proof (opened_frag_fits _ _ _ _ _ _ _ _ _ _ _ Ho) as Hfit. pose proof (zlen_nonneg (encode_fragments pre)).
    cbn [field_in_chunk]. rewrite Hid, Z.eqb_refl, Hz. unfold frag_offset, kMessageLengthFieldSize in *.
    replace (true && (0 <=? zlen (encode_fragments pre) + 4 + o) && (zlen (encode_fragments pre) + 4 + o + 4 <=? zlen (wc_payload c))) with true by (symmetry; rewrite !andb_true_iff, !Z.leb_le; lia).
    constructor.
  - cbn [field_in_chunk]. rewrite <- Ef. destruct (as_patch w1 w3 k pt Has) as (i & Hi & E); [by rewrite E1|done|]. replace (popped_ w + k)%nat with (popped_ w4 + i)%nat by lia.
    apply (lost_patch _ _ _ i j o). destruct (ptr_at_piece _ _ _ _ _ _ H3 H6). exists pt, x. by rewrite E3.
Qed.
Lemma opened_give_up w D flat poss V ps c pre hdr body tail : opened w D flat poss V ps c pre hdr body tail ->
  exists w', drop_mode w = Ok w' /\ dropping (set_stream garbage_range w') D /\ supply_ w' = supply_ w /\ length (nested_ w') = length (nested_ w) /\
    sizes_of w' = sizes_of w /\ first_packet_on_sequence_ (modes_ w') = first_packet_on_sequence_ (modes_ w).
Proof.
  intros Ho. destruct (op_modes _ _ _ _ _ _ _ _ _ _ _ Ho) as (M1 & M2 & M3). destruct (op_payload _ _ _ _ _ _ _ _ _ _ _ Ho) as [P1 P2].
  destruct (op_flags _ _ _ _ _ _ _ _ _ _ _ Ho) as [F1 F2]. destruct (op_chunks _ _ _ _ _ _ _ _ _ _ _ Ho) as [K1 K2]. destruct (op_root _ _ _ _ _ _ _ _ _ _ _ Ho) as [R1 R2].
  destruct (op_small _ _ _ _ _ _ _ _ _ _ _ Ho) as [_ SM]. destruct (op_count _ _ _ _ _ _ _ _ _ _ _ Ho) as [N1 _]. pose proof (opened_frag_fits _ _ _ _ _ _ _ _ _ _ _ Ho) as Hfit.
  pose proof (op_base _ _ _ _ _ _ _ _ _ _ _ Ho) as B. pose proof (op_cur _ _ _ _ _ _ _ _ _ _ _ Ho) as C. pose proof (zlen_nonneg (encode_fragments pre)). pose proof (zlen_nonneg body).
  set (c1 := dropped_chunk c pre (body ++ tail)). assert (Hz : zlen (wc_payload c1) = zlen (wc_payload c)) by (cbn [c1 dropped_chunk set_payload wc_payload]; rewrite P1, !zlen_app, P2; done).
  set (inv := map (invalidate (Some c1)) (nested_ w)). set (root := set_field Null (root_ w)).
  set (w1 := set_packet root inv (finalized_ w) (set_chunk (Some c1) w)).
  assert (Hinv : forall m n, om_field (invalidate (Some c1) m) = InPatch n <-> om_field m = InPatch n).
  { intros m n. unfold invalidate. destruct (field_in_chunk (om_field m) c1) eqn:E; [|done]. cbn [set_field om_field]. split; [done|]. intros Ef. by rewrite Ef in E. }
  assert (B1 : base w1).
  { apply base_nested; [apply (base_set_cur w c); try done; change (chunk_has_flag kChunkNeedsPatching c1) with (chunk_has_flag kChunkNeedsPatching c); by rewrite F2|].
    intros i p Hi Hp. destruct (ba_waiting _ B i p Hi Hp) as (m & Hm & Hf). exists (invalidate (Some c1) m). split; [by apply list_elem_of_fmap_2|]. by apply Hinv. }
  destruct (return_spec w1 c1 B1 eq_refl) as (w3 & E3 & Has & B3 & V3 & _). destruct (as_frame _ _ Has) as (a & pl & n & Ew3).
  assert (E1 : drop_mode w = let! w := return_chunk c1 w1 in Ok (set_last_field Null (set_chunk None (set_modes (new_chunk_modes true (modes_ w)) w)))).
  { unfold drop_mode. rewrite M1. unfold write_size. rewrite R1. change (WriteRedundantVarInt (u32 kPacketSizeDropPacket) kMessageLengthFieldSize) with drop_header.
    cbn [store]. rewrite C, Z.eqb_refl. change (zlen drop_header) with 4. unfold frag_offset, kMessageLengthFieldSize in *.
    replace (true && (0 <=? zlen (encode_fragments pre)) && (zlen (encode_fragments pre) + 4 <=? zlen (wc_payload c))) with true by (symmetry; rewrite !andb_true_iff, !Z.leb_le; lia).
    cbn [perfetto_check obind]. rewrite P1, zwrite_mid by (by rewrite P2). fold (dropped_chunk c pre (body ++ tail)). done. }
  rewrite E1, E3. cbn [obind]. eexists. split; [done|]. split; [|rewrite Ew3; split; [done|split; [apply length_map|split; [|done]]]].
  - assert (Hn3 : nested_ w3 = inv) by (by rewrite Ew3). exists V, ps, [forget_needs_patching c1]. split.
    + apply base_stream, base_last_field. exact (base_modes _ (new_chunk_modes true (modes_ w3)) B3).
    + by rewrite Ew3.
    + done.
    + change (wview w3 = V ++ map fst ps ++ [forget_needs_patching c1]). rewrite V3, app_assoc, <- (op_view _ _ _ _ _ _ _ _ _ _ _ Ho). done.
    + by exists 0.
    + rewrite Ew3. apply (op_last _ _ _ _ _ _ _ _ _ _ _ Ho).
    + split; [done|]. apply hopeless_dropped; try done. fold c1. rewrite Hz. lia.
    + left. by rewrite Ew3.
    + cbn [set_stream set_last_field set_chunk set_modes nested_]. rewrite Hn3. unfold inv. rewrite Forall_map. apply Forall_lookup. intros i m Hm.
      destruct (Forall2_lookup_l _ _ _ _ _ (op_nested _ _ _ _ _ _ _ _ _ _ _ Ho) Hm) as (p & Hp & _ & G).
      by apply (lost_after_drop w w1 w3 (set_stream garbage_range (set_last_field Null (set_chunk None (set_modes (new_chunk_modes true (modes_ w3)) w3)))) D flat poss V ps c pre hdr body tail c1 m p).
    + cbn [set_stream set_last_field set_chunk set_modes nested_]. rewrite Hn3. intros i j m m' k Hne Hi Hj Hm Hm'. unfold inv in Hi, Hj.
      rewrite list_lookup_fmap in Hi, Hj. apply fmap_Some in Hi as (m0 & Hi & ->), Hj as (m1 & Hj & ->). apply (proj1 (Hinv _ _)) in Hm, Hm'.
      exact (opened_different _ _ _ _ _ _ _ _ _ _ _ Ho i j m0 m1 k Hne Hi Hj Hm Hm').
  - unfold sizes_of. cbn. f_equal. unfold inv. rewrite map_map. apply map_ext. intros m. unfold invalidate. by destruct (field_in_chunk _ _).
Qed.

(** ** Extend and the writes of the stream *)

Lemma Extend_writing S0 first w D flat poss : writing S0 first w D flat poss ->
  exists w', Extend w = Ok w' /\ writing S0 first w' D flat poss /\ sizes_of w' = sizes_of w /\ 12 <= available (stream_ w').
Proof.
  intros [A1 A2 A3 A4 A5 A6]. unfold Extend, GetNewBuffer. destruct A6 as [[(V & ps & c & pre & hdr & body & tail & Ho) Hdm]|[(V & ps & T & Hd) Hdry]].
  - destruct (op_modes _ _ _ _ _ _ _ _ _ _ _ Ho) as (M1 & M2 & M3). rewrite M1, M2. cbn [andb].
    destruct (GetNewChunk_spec S0 w 1 kFirstPacketContinuesFromPrevChunk (op_base _ _ _ _ _ _ _ _ _ _ _ Ho) A1) as (answer & a & s & E & B1 & V1 & Hs & Hans). rewrite E.
    set (w1 := set_supply s (set_arbiter a w)) in *. pose proof (opened_arbiter _ s a _ _ _ _ _ _ _ _ _ _ Ho B1 V1) as Ho1. fold w1 in Ho1.
    destruct answer as [nc|].
    + destruct Hans as (p & -> & Hp & Hroom). assert (Hw1 : zlen (wchunks w1) = zlen (wchunks w)) by (unfold wchunks; by rewrite V1).
      destruct (opened_new_chunk w1 _ _ _ _ _ _ _ _ _ _ p Ho1 Hp) as (w' & pos & E2 & Hgo & Hav & Hsup & Hsz & Hfst); [rewrite Hw1; exact Hroom|].
      change (id_ w1) with (id_ w) in E2. change (next_chunk_id_ w1) with (next_chunk_id_ w) in E2. rewrite E2. cbn [obind]. eexists. split; [done|]. split; [|split; [exact Hsz|exact Hav]]. split; try done.
      * cbn [set_stream supply_]. by rewrite Hsup.
      * cbn [set_stream modes_]. by rewrite <- A2, Hfst.
      * rewrite <- A5. cbn [set_stream nested_]. change (nested_ w) with (nested_ w1). pose proof (f_equal snd Hsz) as Hl. apply (f_equal length) in Hl. cbn [sizes_of snd] in Hl. by rewrite !length_map in Hl.
      * by left.
    + destruct (opened_give_up w1 _ _ _ _ _ _ _ _ _ _ Ho1) as (w' & -> & Hgo & Hsup & Hl & Hsz & Hfst). cbn [obind]. eexists. split; [done|]. split; [|split; [exact Hsz|done]]. split; try done.
      * cbn [set_stream supply_]. by rewrite Hsup.
      * cbn [set_stream modes_]. by rewrite <- A2, Hfst.
      * rewrite <- A5. exact Hl.
      * right. split; [done|]. unfold dry. cbn [set_stream supply_]. by rewrite Hsup.
  - pose proof Hd as [B [M1 M2] C W St F K R N X]. rewrite M1, M2. cbn [andb obind]. eexists. split; [done|]. split; [|split; [done|done]]. split; try done.
    right. split; [|done]. exists V, ps, T. split; try done; [by apply base_stream, base_modes|by exists 0|by eapply lost_fields_frame].
Qed.

Lemma dropped_advance w D V ps T n : dropped w D V ps T -> 0 <= n <= available (stream_ w) ->
  dropped (set_stream (mkPos (where_ (stream_ w)) (write_ptr_ (stream_ w) + n) (range_end_ (stream_ w))) w) D V ps T.
Proof.
  intros [B M C W (p & St & Hp) F K R N X] Hn. unfold available in Hn. rewrite St in *. cbn [where_ write_ptr_ range_end_] in *. split; try done.
  - by apply base_stream.
  - exists (p + n). split; [done|]. lia.
  - by eapply lost_fields_frame.
Qed.
Lemma put_writing S0 first w D flat poss src : writing S0 first w D flat poss -> small (flat ++ src) -> zlen src <= available (stream_ w) ->
  exists w', WriteBytesUnsafe src w = Ok w' /\ writing S0 first w' D (flat ++ src) poss /\ sizes_of w' = sizes_of w /\ available (stream_ w') = available (stream_ w) - zlen src.
Proof.
  intros [A1 A2 A3 A4 A5 A6] Hs Hav. pose proof (zlen_nonneg src). assert (Hp : nested_positions poss (zlen (flat ++ src))) by (eapply positions_le; [exact A4|rewrite zlen_app; lia]).
  destruct A6 as [[(V & ps & c & pre & hdr & body & tail & Ho) Hdm]|[(V & ps & T & Hd) Hdry]].
  - destruct (put_spec w D flat poss V ps c pre hdr body tail src Ho Hs Hav) as (w' & c' & tail' & E & Ho' & En & Er & Ea). exists w'. split; [done|].
    assert (Hf : supply_ w' = supply_ w /\ modes_ w' = modes_ w).
    { unfold WriteBytesUnsafe in E. destruct (write_ptr_ _ + _ <=? _); [|done]. cbn [perfetto_check obind] in E. destruct (where_ _), (cur_chunk_ w); cbn in E; try done; by injection E as <-. }
    destruct Hf as [Hf1 Hf2]. split; [|split; [unfold sizes_of; by rewrite En, Er|done]]. split; rewrite ?Hf1, ?Hf2, ?En; try done. left. split; [by eexists _, _, _, _, _, _, _|done].
  - pose proof (dropped_advance _ _ _ _ _ (zlen src) Hd ltac:(lia)) as Hd'. destruct (dp_stream _ _ _ _ _ Hd) as (p & St & Hp'). unfold WriteBytesUnsafe. unfold available in *. rewrite St in *.
    cbn [where_ write_ptr_ range_end_] in *. replace (p + zlen src <=? kGarbageChunkSize) with true by lia. cbn [perfetto_check obind]. eexists. split; [done|]. split; [|split; [done|cbn [set_stream stream_ range_end_ write_ptr_]; lia]].
    split; try done. right. split; [by exists V, ps, T|done].
Qed.
Lemma small_prefix flat a b : small (flat ++ a ++ b) -> small (flat ++ a).
Proof. unfold small. rewrite !zlen_app. pose proof (zlen_nonneg b). lia. Qed.
Lemma WriteBytesSlowPath_writing S0 first D poss fuel : forall w flat src, (length src <= fuel)%nat -> writing S0 first w D flat poss -> small (flat ++ src) ->
  exists w', WriteBytesSlowPath fuel src w = Ok w' /\ writing S0 first w' D (flat ++ src) poss /\ sizes_of w' = sizes_of w.
Proof.
  induction fuel as [|fuel IH]; intros w flat src Hf Hw Hs.
  - destruct src; [|cbn in Hf; lia]. exists w. rewrite app_nil_r. by split.
  - cbn [WriteBytesSlowPath]. destruct (0 <? zlen src) eqn:E.
    2: { destruct src; [exists w; rewrite app_nil_r; by split|rewrite zlen_cons in E; pose proof (zlen_nonneg src); lia]. }
    assert (H1 : exists w1, (if range_end_ (stream_ w) <=? write_ptr_ (stream_ w) then Extend w else Ok w) = Ok w1 /\ writing S0 first w1 D flat poss /\ sizes_of w1 = sizes_of w /\ 0 < available (stream_ w1)).
    { destruct (range_end_ _ <=? _) eqn:Ea; [|exists w; unfold available; split; [done|]; split; [done|]; split; [done|lia]].
      destruct (Extend_writing _ _ _ _ _ _ Hw) as (w1 & E1 & Hw1 & Hsz & Hav). exists w1. split; [done|]. split; [done|]. split; [done|lia]. }
    destruct H1 as (w1 & -> & Hw1 & Hsz1 & Hav). cbn [obind]. set (n := Z.min (available (stream_ w1)) (zlen src)). assert (Hn : 0 < n <= zlen src) by lia.
    assert (Esrc : src = ztake n src ++ zdrop n src) by (unfold ztake, zdrop; by rewrite take_drop). rewrite Esrc in Hs.
    destruct (put_writing S0 first w1 D flat poss (ztake n src) Hw1 (small_prefix _ _ _ Hs)) as (w2 & -> & Hw2 & Hsz2 & _); [rewrite zlen_ztake; lia|]. cbn [obind].
    destruct (IH w2 (flat ++ ztake n src) (zdrop n src)) as (w3 & -> & Hw3 & Hsz3); [|done|by rewrite <- app_assoc|].
    { unfold zdrop. rewrite length_drop. lia. }
    exists w3. split; [done|]. rewrite <- app_assoc, <- Esrc in Hw3. split; [done|]. by rewrite Hsz3, Hsz2.
Qed.
Lemma WriteBytes_writing S0 first w D flat poss src : writing S0 first w D flat poss -> small (flat ++ src) ->
  exists w', WriteBytes src w = Ok w' /\ writing S0 first w' D (flat ++ src) poss /\ sizes_of w' = sizes_of w.
Proof.
  intros Hw Hs. unfold WriteBytes. destruct (_ <=? _) eqn:E; [|by apply WriteBytesSlowPath_writing]. case_bool_decide as Hsrc; [subst src; exists w; rewrite app_nil_r; by split|].
  destruct (put_writing S0 first w D flat poss src Hw Hs) as (w' & -> & H1 & H2 & _); [unfold available; lia|]. by exists w'.
Qed.

(** ** Reserving a size field and the calls *)

Definition push_message (f : address) (w : Writer) : Writer := set_packet (root_ w) (mkOpen 0 f 0 :: nested_ w) (finalized_ w) w.
Definition advance (n : Z) (w : Writer) : Writer := set_stream (mkPos (where_ (stream_ w)) (write_ptr_ (stream_ w) + n) (range_end_ (stream_ w))) w.
Lemma opened_reserve w D flat poss V ps c pre hdr body tail : opened w D flat poss V ps c pre hdr body tail -> 4 <= available (stream_ w) -> small (flat ++ ztake 4 tail) ->
  zlen (ztake 4 tail) = 4 /\
  opened (push_message (address_of (write_ptr_ (stream_ w)) w) (advance 4 w)) D (flat ++ ztake 4 tail) (zlen flat :: poss) V ps c pre hdr (body ++ ztake 4 tail) (zdrop 4 tail).
Proof.
  intros [B M W C [P1 P2] N F St T K FL [SM1 SM2] R L NE PO] Hav Hs. unfold available in Hav. unfold advance, push_message. rewrite St in *. cbn [range_end_ write_ptr_ where_] in *.
  pose proof (zlen_nonneg (encode_fragments pre)). pose proof (zlen_nonneg body). pose proof (zlen_nonneg (concat (bodies_of ps))).
  assert (Hlen : zlen (wc_payload c) = zlen (encode_fragments pre) + kMessageLengthFieldSize + zlen body + zlen tail) by (rewrite P1, !zlen_app, P2; lia).
  assert (Hz : zlen (ztake 4 tail) = 4) by (rewrite zlen_ztake; lia). split; [done|]. set (hole := ztake 4 tail) in *.
  unfold address_of. cbn [stream_ where_]. rewrite C, St. cbn [where_]. assert (Ezf : zlen (flat ++ hole) = zlen flat + 4) by (rewrite zlen_app; lia).
  split; try done.
  - apply base_nested; [by apply base_stream|]. intros i p Hi Hp. destruct (ba_waiting _ B i p Hi Hp) as (m & Hm & Hf). exists m. split; [apply elem_of_cons; by right|done].
  - split; [|done]. rewrite P1. do 2 f_equal. rewrite <- app_assoc. f_equal. unfold hole, ztake, zdrop. by rewrite take_drop.
  - cbn [set_packet set_stream stream_]. rewrite zlen_app, Hz. f_equal. lia.
  - by rewrite FL, app_assoc.
  - cbn [set_packet set_stream nested_]. constructor.
    + split; [done|]. cbn [om_field]. apply at_chunk. exists (body ++ hole). rewrite lookup_app_r by (by rewrite length_bodies). rewrite length_bodies, Nat.sub_diag.
      split; [done|]. split; [lia|]. split; [done|]. rewrite zlen_app, Hz. split; [unfold kMessageLengthFieldSize; lia|]. rewrite take_app_le by (by rewrite length_bodies).
      rewrite take_ge by (by rewrite length_bodies). by rewrite FL, zlen_app.
    + eapply Forall2_impl; [exact NE|]. intros m p [H1' H2']. split; [done|]. by eapply field_at_append.
  - rewrite Ezf. cbn [nested_positions]. unfold kMessageLengthFieldSize. pose proof (zlen_nonneg flat). split; [done|]. split; [lia|done].
Qed.
Lemma dropped_reserve w D V ps T : dropped w D V ps T -> 4 <= available (stream_ w) ->
  dropped (push_message (address_of (write_ptr_ (stream_ w)) w) (advance 4 w)) D V ps T.
Proof.
  intros Hd Hav. assert (Hd' : dropped (advance 4 w) D V ps T) by (apply dropped_advance; [done|lia]). pose proof (dp_stream _ _ _ _ _ Hd) as (p & St & Hp).
  unfold available in Hav. rewrite St in Hav. cbn [range_end_ write_ptr_] in Hav. unfold address_of. rewrite St. cbn [where_ write_ptr_].
  replace (match cur_chunk_ w with Some _ | _ => InGarbage p end) with (InGarbage p) by (by destruct (cur_chunk_ w)).
  destruct Hd' as [B M C W St' F K R N X]. split; try done.
  - apply base_nested; [done|]. intros i q Hi Hq. destruct (ba_waiting _ B i q Hi Hq) as (m & Hm & Hf). exists m. split; [apply elem_of_cons; by right|done].
  - cbn [push_message set_packet nested_]. constructor; [constructor; [lia|unfold kMessageLengthFieldSize; lia]|by eapply lost_fields_frame].
  - cbn [push_message set_packet nested_]. intros i j m m' n Hne Hi Hj Hm Hm'. destruct i as [|i], j as [|j]; cbn in Hi, Hj; [lia|injection Hi as <-; done|injection Hj as <-; done|].
    exact (X i j m m' n ltac:(lia) Hi Hj Hm Hm').
Qed.
Lemma ReserveBytes_writing S0 first w D flat poss : writing S0 first w D flat poss -> zlen flat + 4 <= kMaxMessageLength ->
  exists f w' hole, ReserveBytes kMessageLengthFieldSize w = Ok (f, w') /\ zlen hole = 4 /\ writing S0 first (push_message f w') D (flat ++ hole) (zlen flat :: poss) /\ sizes_of w' = sizes_of w.
Proof.
  intros Hw Hs. unfold ReserveBytes.
  assert (H1 : exists w1, (if range_end_ (stream_ w) <? write_ptr_ (stream_ w) + kMessageLengthFieldSize then Extend w else Ok w) = Ok w1 /\ writing S0 first w1 D flat poss /\ sizes_of w1 = sizes_of w /\ 4 <= available (stream_ w1)).
  { destruct (range_end_ _ <? _) eqn:Ea; [|exists w; unfold available; unfold kMessageLengthFieldSize in Ea; split; [done|]; split; [done|]; split; [done|lia]].
    destruct (Extend_writing _ _ _ _ _ _ Hw) as (w1 & E1 & Hw1 & Hsz & Hav). exists w1. split; [done|]. split; [done|]. split; [done|lia]. }
  destruct H1 as (w1 & -> & Hw1 & Hsz1 & Hav). cbn [obind]. change kMessageLengthFieldSize with 4 at 1. fold (advance 4 w1). clear Hw. pose proof (zlen_nonneg flat).
  destruct Hw1 as [A1 A2 A3 A4 A5 [[(V & ps & c & pre & hdr & body & tail & Ho) Hdm]|[(V & ps & T & Hd) Hdry]]].
  - eexists _, _, (ztake 4 tail). split; [done|].
    assert (Hz : zlen (ztake 4 tail) = 4).
    { destruct (op_payload _ _ _ _ _ _ _ _ _ _ _ Ho) as [P1 P2]. unfold available in Hav. rewrite (op_stream _ _ _ _ _ _ _ _ _ _ _ Ho), P1 in Hav. cbn [range_end_ write_ptr_] in Hav.
      rewrite !zlen_app, P2 in Hav. rewrite zlen_ztake; lia. }
    assert (Hsm : small (flat ++ ztake 4 tail)) by (unfold small; rewrite zlen_app, Hz; lia).
    destruct (opened_reserve _ _ _ _ _ _ _ _ _ _ _ Ho Hav Hsm) as [_ Ho']. split; [done|]. split; [|done]. split; try done; [|cbn; by rewrite A5|left; split; [by eexists _, _, _, _, _, _, _|done]].
    apply (op_positions _ _ _ _ _ _ _ _ _ _ _ Ho').
  - eexists _, _, (zeros 4). split; [done|]. split; [done|]. split; [|done]. split; try done.
    + unfold small. rewrite zlen_app. change (zlen (zeros 4)) with 4. lia.
    + rewrite zlen_app. change (zlen (zeros 4)) with 4. cbn [nested_positions]. unfold kMessageLengthFieldSize. split; [lia|]. split; [lia|done].
    + cbn. by rewrite A5.
    + right. split; [exists V, ps, T; by apply dropped_reserve|done].
Qed.
Lemma WriteToStream_writing S0 first w D flat poss src : writing S0 first w D flat poss -> small (flat ++ src) -> sized_ok w poss (zlen flat) ->
  exists w', WriteToStream src w = Ok w' /\ writing S0 first w' D (flat ++ src) poss /\ sized_ok w' poss (zlen (flat ++ src)).
Proof.
  intros Hw Hs Hsz. unfold WriteToStream. destruct (WriteBytes_writing _ _ _ _ _ _ src Hw Hs) as (w1 & -> & Hw1 & E). cbn [obind]. eexists. split; [done|].
  split; [by apply grow_writing|]. unfold small in Hs. rewrite zlen_app in *. pose proof (zlen_nonneg src). pose proof (zlen_nonneg flat).
  rewrite (u32_small (zlen src)) by max_lia. apply sized_grow; [unfold sized_ok; by rewrite E|exact (wt_positions _ _ _ _ _ _ Hw)|lia..].
Qed.
Lemma BeginNestedMessage_writing S0 first w D flat poss id : writing S0 first w D flat poss -> sized_ok w poss (zlen flat) ->
  let tag := WriteVarInt uint32_t (MakeTagLengthDelimited id) in zlen (flat ++ tag) + 4 <= kMaxMessageLength ->
  exists w' hole, BeginNestedMessage id w = Ok w' /\ zlen hole = 4 /\ writing S0 first w' D ((flat ++ tag) ++ hole) (zlen (flat ++ tag) :: poss) /\
    sized_ok w' (zlen (flat ++ tag) :: poss) (zlen ((flat ++ tag) ++ hole)).
Proof.
  intros Hw Hs tag Hmax. unfold BeginNestedMessage. fold tag. destruct (WriteToStream_writing S0 first w D flat poss tag Hw) as (w1 & -> & Hw1 & Hs1); [unfold small; lia|done|]. cbn [obind].
  destruct (ReserveBytes_writing S0 first w1 D _ _ Hw1 Hmax) as (f & w2 & hole & -> & Hz & Hw2 & Hsz). cbn [obind]. exists (push_message f (grow kMessageLengthFieldSize w2)), hole.
  split; [done|]. split; [done|]. pose proof (zlen_nonneg (flat ++ tag)). pose proof (wt_positions _ _ _ _ _ _ Hw1) as Hpos.
  assert (Hg : sized_ok (grow kMessageLengthFieldSize w2) poss (zlen (flat ++ tag) + kMessageLengthFieldSize)).
  { apply sized_grow; [unfold sized_ok; by rewrite Hsz|done|lia|unfold kMessageLengthFieldSize; lia|unfold kMessageLengthFieldSize; lia]. }
  split.
  - assert (E : push_message f (grow kMessageLengthFieldSize w2) =
      set_packet (root_ (grow kMessageLengthFieldSize w2)) (mkOpen 0 f 0 :: nested_ (grow kMessageLengthFieldSize w2)) (finalized_ (push_message f w2)) (push_message f w2)).
    { unfold push_message, grow. by destruct (nested_ w2). }
    rewrite E. apply writing_resize; [done|by unfold grow; destruct (nested_ w2)|]. cbn [push_message set_packet nested_]. constructor; [done|].
    unfold grow. destruct (nested_ w2); cbn [set_packet nested_]; [constructor|]. constructor; [done|apply same_places_refl].
  - unfold sized_ok, sizes_of, push_message. cbn [set_packet root_ nested_ fst snd map sized om_size]. rewrite zlen_app, Hz. unfold kMessageLengthFieldSize in *. split; [lia|exact Hg].
Qed.

(** ** A call of the message API *)

Definition calls_as (depth : nat) (flat poss : list Z) (bytes flat' poss' : list Z) : Prop :=
  (depth <= length poss')%nat /\ close (length poss' - depth) flat' poss' = ((close (length poss - depth) flat poss).1 ++ bytes, (close (length poss - depth) flat poss).2).
Definition call_spec (S0 : budget) (first : bool) (depth : nat) (op : Writer -> outcome Writer) (bytes : list Z) : Prop :=
  forall w D flat poss, writing S0 first w D flat poss -> sized_ok w poss (zlen flat) -> (depth <= length poss)%nat -> small (flat ++ bytes) ->
  exists w' flat' poss', op w = Ok w' /\ writing S0 first w' D flat' poss' /\ sized_ok w' poss' (zlen flat') /\ calls_as depth flat poss bytes flat' poss'.

Lemma close_writing S0 first w D flat poss k : writing S0 first w D flat poss -> zlen (close k flat poss).1 = zlen flat.
Proof. intros Hw. apply zlen_close; [exact (wt_positions _ _ _ _ _ _ Hw)|exact (wt_small _ _ _ _ _ _ Hw)]. Qed.
Lemma closed_writes S0 first depth op bytes : (forall w D flat poss, writing S0 first w D flat poss -> sized_ok w poss (zlen flat) -> small (flat ++ bytes) ->
    exists w', op w = Ok w' /\ writing S0 first w' D (flat ++ bytes) poss /\ sized_ok w' poss (zlen (flat ++ bytes))) ->
  call_spec S0 first depth (fun w => let! w := end_nested depth w in op w) bytes.
Proof.
  intros Hop w D flat poss Hw Hs Hd Hsm. destruct (end_nested_spec S0 first w D flat poss depth Hw Hs) as (w1 & -> & Hw1 & Hs1). cbn [obind].
  set (r := close (length poss - depth) flat poss) in *. assert (Hz : zlen r.1 = zlen flat) by (eapply close_writing; exact Hw).
  destruct (Hop w1 D r.1 r.2 Hw1 Hs1) as (w2 & -> & Hw2 & Hs2); [unfold small in *; by rewrite !zlen_app, Hz in *|]. exists w2, (r.1 ++ bytes), r.2. split; [done|]. split; [done|]. split; [done|].
  assert (Hl : length r.2 = depth) by (unfold r; rewrite length_close; lia). split; [lia|]. rewrite Hl, Nat.sub_diag. done.
Qed.
Lemma calls_seq S0 first depth op1 op2 b1 b2 : call_spec S0 first depth op1 b1 -> call_spec S0 first depth op2 b2 ->
  call_spec S0 first depth (fun w => let! w := op1 w in op2 w) (b1 ++ b2).
Proof.
  intros H1 H2 w D flat poss Hw Hs Hd Hsm. destruct (H1 w D flat poss Hw Hs Hd) as (w1 & f1 & p1 & -> & Hw1 & Hs1 & L1 & C1); [by eapply small_prefix|]. cbn [obind].
  assert (Hz : zlen f1 = zlen flat + zlen b1).
  { rewrite <- (close_writing _ _ _ _ _ _ (length p1 - depth) Hw1), C1. cbn [fst]. rewrite zlen_app. by rewrite (close_writing _ _ _ _ _ _ _ Hw). }
  destruct (H2 w1 D f1 p1 Hw1 Hs1 L1) as (w2 & f2 & p2 & -> & Hw2 & Hs2 & L2 & C2); [unfold small in *; rewrite !zlen_app in *; lia|].
  exists w2, f2, p2. split; [done|]. split; [done|]. split; [done|]. split; [done|]. rewrite C2, C1. cbn [fst snd]. by rewrite app_assoc.
Qed.
Lemma close_add k m : forall flat poss, close (k + m) flat poss = close m (close k flat poss).1 (close k flat poss).2.
Proof. induction k as [|k IH]; intros flat poss; [done|]. destruct poss as [|p poss]; [by destruct m|]. cbn [Nat.add close]. apply IH. Qed.
Lemma close_hole flat hole b : zlen hole = 4 -> zwrite (zlen flat) (size_field (zlen b)) ((flat ++ hole) ++ b) = flat ++ size_field (zlen b) ++ b \/ ~ word_ok 32 (zlen b).
Proof.
  intros Hz. destruct (decide (zlen b < 4294967296)); [left|right; unfold word_ok; lia]. rewrite <- app_assoc. apply zwrite_mid. rewrite zlen_size_field; [done|]. pose proof (zlen_nonneg b). unfold word_ok. lia.
Qed.
Lemma run_call_nested_eq depth id body w : run_call depth (CNested id body) w =
  let! w := end_nested depth w in let! w := BeginNestedMessage id w in run_calls (S depth) body w.
Proof.
  cbn [run_call]. destruct (end_nested depth w) as [w1|]; [|done]. cbn [obind]. destruct (BeginNestedMessage id w1) as [w2|]; [|done]. cbn [obind]. clear.
  revert w2. induction body as [|c body IH]; intros w2; [done|]. cbn [run_calls]. destruct (run_call (S depth) c w2); [|done]. cbn [obind]. apply IH.
Qed.
Lemma calls_nil S0 first depth : call_spec S0 first depth Ok [].
Proof. intros w D flat poss Hw Hs Hd _. exists w, flat, poss. split; [done|]. split; [done|]. split; [done|]. split; [done|]. rewrite app_nil_r. by destruct (close _ _ _). Qed.
Lemma run_calls_spec_of S0 first depth l : Forall (fun c => forall depth, call_spec S0 first depth (run_call depth c) (encode_call c)) l ->
  call_spec S0 first depth (run_calls depth l) (encode_calls l).
Proof.
  induction 1 as [|c l Hc Hl IH]; [apply calls_nil|]. change (encode_calls (c :: l)) with (encode_call c ++ encode_calls l). cbn [run_calls]. by apply calls_seq.
Qed.
Lemma stream_call S0 first depth bytes : call_spec S0 first depth (fun w => let! w := end_nested depth w in WriteToStream bytes w) bytes.
Proof. apply closed_writes. intros w D flat poss Hw Hs Hsm. by apply WriteToStream_writing. Qed.
Lemma nested_call S0 first depth id body : call_spec S0 first (S depth) (run_calls (S depth) body) (encode_calls body) ->
  call_spec S0 first depth (run_call depth (CNested id body)) (encode_call (CNested id body)).
Proof.
  intros Hbody w D flat poss Hw Hs Hd Hsm. rewrite run_call_nested_eq. cbn [encode_call] in *. fold (encode_calls body) in *.
  set (tag := WriteVarInt uint32_t (MakeTagLengthDelimited id)) in *. set (eb := encode_calls body) in *. fold (size_field (zlen eb)) in *.
  destruct (end_nested_spec S0 first w D flat poss depth Hw Hs) as (w1 & -> & Hw1 & Hs1). cbn [obind].
  set (r := close (length poss - depth) flat poss) in *. assert (Hz : zlen r.1 = zlen flat) by (eapply close_writing; exact Hw).
  assert (Hl : length r.2 = depth) by (unfold r; rewrite length_close; lia). pose proof (zlen_nonneg flat). pose proof (zlen_nonneg tag). pose proof (zlen_nonneg eb). pose proof (zlen_nonneg (size_field (zlen eb))).
  assert (Hwd : word_ok 32 (zlen eb)) by (unfold small in Hsm; rewrite !zlen_app in Hsm; max_lia).
  unfold small in Hsm. rewrite !zlen_app, zlen_size_field in Hsm by done.
  destruct (BeginNestedMessage_writing S0 first w1 D r.1 r.2 id Hw1 Hs1) as (w2 & hole & -> & Hh & Hw2 & Hs2); [fold tag; rewrite zlen_app, Hz; lia|]. fold tag in Hw2, Hs2. cbn [obind].
  destruct (Hbody w2 D _ _ Hw2 Hs2) as (w3 & f3 & p3 & -> & Hw3 & Hs3 & L3 & C3); [cbn [length]; lia|fold eb; unfold small; rewrite !zlen_app, Hz, Hh; lia|].
  exists w3, f3, p3. split; [done|]. split; [done|]. split; [done|]. split; [lia|]. fold eb in C3. cbn [length] in C3. rewrite Hl, Nat.sub_diag in C3. cbn [close fst snd] in C3.
  replace (length p3 - depth)%nat with ((length p3 - S depth) + 1)%nat by lia. rewrite close_add, C3. cbn [fst snd close].
  replace (zlen (((r.1 ++ tag) ++ hole) ++ eb) - (zlen (r.1 ++ tag) + kMessageLengthFieldSize)) with (zlen eb) by (rewrite !zlen_app, Hh; unfold kMessageLengthFieldSize; lia).
  destruct (close_hole (r.1 ++ tag) hole eb Hh) as [->|Hbad]; [|done]. by rewrite <- app_assoc.
Qed.
Lemma run_call_spec S0 first c : forall depth, call_spec S0 first depth (run_call depth c) (encode_call c).
Proof.
  induction c as [T id v|bits id v|id v|sz id v|id src|id body IH] using call_ind'; intros depth; try apply stream_call.
  - intros w D flat poss Hw Hs Hd Hsm. cbn [encode_call] in *. assert (Hu : u32 (zlen src) = zlen src).
    { unfold small in Hsm. rewrite !zlen_app in Hsm. pose proof (zlen_nonneg src). pose proof (zlen_nonneg flat). pose proof (zlen_nonneg (WriteVarInt uint32_t (MakeTagLengthDelimited id))).
      pose proof (zlen_nonneg (WriteVarInt uint32_t (zlen src))). apply u32_small. max_lia. }
    revert w D flat poss Hw Hs Hd Hsm. cbn [run_call]. rewrite Hu. apply (closed_writes S0 first depth).
    intros w D flat poss Hw Hs Hsm. set (ts := WriteVarInt uint32_t (MakeTagLengthDelimited id) ++ WriteVarInt uint32_t (zlen src)).
    rewrite (app_assoc (WriteVarInt uint32_t (MakeTagLengthDelimited id))) in *. fold ts in Hsm |- *.
    destruct (WriteToStream_writing S0 first w D flat poss ts Hw (small_prefix _ _ _ Hsm) Hs) as (w1 & -> & Hw1 & Hs1). cbn [obind].
    destruct (WriteToStream_writing S0 first w1 D _ poss src Hw1) as (w2 & -> & Hw2 & Hs2); [by rewrite <- app_assoc|done|]. exists w2. by rewrite app_assoc.
  - apply nested_call, run_calls_spec_of. exact IH.
Qed.
Lemma run_calls_spec S0 first depth l : call_spec S0 first depth (run_calls depth l) (encode_calls l).
Proof. apply run_calls_spec_of, Forall_forall. intros c _. apply run_call_spec. Qed.
