(* ===== verification/TraceWriterSession.v ===== *)
(** * What a trace writer hands to the service
    (src/tracing/core/trace_writer_impl.cc, shared_memory_arbiter_impl.cc)

    The chunks and patches that a session of a trace writer commits, read the way the
    service reads them ([next_fragment]) and stitched together, give the packets of the
    client: every packet exactly once and in order when there was always a chunk, and
    otherwise without those that were given up, each gap announced in the next packet;
    whatever the sizes and the contents of the chunks, the batching of the commits and the
    way of patching.  No write of the session leaves the chunks the writer holds. *)

From S2P Require Import Prelude ProtoUtils ProtoDecoder ProtoWriter TraceBuffer TraceBufferRead TraceBufferSession SharedMemoryArbiter ArbiterPatches TraceWriter TraceWriterInvariant TraceWriterPacket.

(** ** The specification *)

(** The markers of a packet: the one before it was lost, it is the first one. *)
Definition markers (first lost : bool) : list Z :=
  (if lost then encode_call (CTinyVarInt kPreviousPacketDropped 1) else []) ++ (if first then encode_call (CTinyVarInt kFirstPacketOnSequence 1) else []).
Definition packet_bytes (p : packet) : list Z := match p with Calls l => encode_calls l | Raw l => concat l end.
(** What arrives, when packet [i] is lost if [losses !! i] says so. *)
Fixpoint delivered (first lost : bool) (ps : list packet) (losses : list bool) : list (list Z) :=
  match ps, losses with
  | p :: ps, l :: losses => (if l then [] else [markers first lost ++ packet_bytes p]) ++ delivered false l ps losses
  | _, _ => []
  end.
Definition packets_of (ops : list writer_op) : list packet := omap (fun o => match o with WritePacket p => Some p | _ => None end) ops.
Definition packet_ok (p : packet) : Prop := zlen (packet_bytes p) + 16 <= kMaxMessageLength.

(** ** A writer between two packets *)

Definition start : reading := ([], None).
(** The last packet ends in the current chunk, as fragment [b]; before it the service has
    [D0]. *)
Record resting (w : Writer) (D0 : list (list Z)) (x : list Z) (c : WChunk) (frs : list (list Z)) (b tail : list Z) : Prop := {
  re_cur : cur_chunk_ w = Some c;
  re_payload : wc_payload c = encode_fragments (frs ++ [b]) ++ tail;
  re_count : wc_count c = Z.of_nat (length frs) + 1 /\ wc_count c <= kMaxCount /\ reached_max_packets_per_chunk_ (modes_ w) = (wc_count c =? kMaxCount);
  re_flags : chunk_has_flag kLastPacketContinuesOnNextChunk c = false /\ chunk_has_flag kChunkNeedsPatching c = false;
  re_stream : stream_ w = mkPos CurrentChunk (zlen (encode_fragments (frs ++ [b]))) (zlen (wc_payload c));
  re_last : last_packet_size_field_ w = InChunk (wc_chunk_id c) (zlen (encode_fragments frs));
  re_modes : drop_packets_ (modes_ w) = false /\ retry_new_chunk_after_packet_ (modes_ w) = false;
  re_small : Forall small (frs ++ [b]);
  re_read : let T := feed_all (read_chunks start (wview w)) (layout_items (starts_packet c) false frs) in
    T.1 = D0 /\ feed T (Some (frag_starts (starts_packet c) frs, true, b)) = (D0 ++ [x], None)
}.
(** No chunk: at the beginning, after a flush, or because there was none. *)
Record without_chunk (w : Writer) (D : list (list Z)) : Prop := {
  wo_cur : cur_chunk_ w = None;
  wo_read : (read_chunks start (wview w)).1 = D;
  wo_stream : stream_ w = mkPos Nowhere 0 0 \/ drop_packets_ (modes_ w) = true /\ exists p, stream_ w = mkPos GarbageChunk p kGarbageChunkSize /\ 0 <= p <= kGarbageChunkSize;
  wo_patches : drop_packets_ (modes_ w) = false -> patch_list_ w = [] /\ last_packet_size_field_ w = Null
}.
Definition rest_state (lost : bool) (w : Writer) (D : list (list Z)) : Prop :=
  (lost = false /\ exists D0 x c frs b tail, D = D0 ++ [x] /\ resting w D0 x c frs b tail) \/ without_chunk w D.
Record idle (S0 : budget) (first lost : bool) (w : Writer) (D : list (list Z)) : Prop := {
  id_base : base w;
  id_final : finalized_ w = true /\ nested_ w = [];
  id_supply : supply_ w `suffix_of` given S0;
  id_first : first_packet_on_sequence_ (modes_ w) = first;
  id_lost : drop_packets_ (modes_ w) = lost;
  id_state : rest_state lost w D;
  id_dry : lost = true -> dry S0 w
}.

(** Ready for the header of a packet: after the fragments [F] of the current chunk, or in
    the garbage chunk. *)
Record ready (w : Writer) (D : list (list Z)) (c : WChunk) (F : list (list Z)) (tail : list Z) : Prop := {
  rd_cur : cur_chunk_ w = Some c;
  rd_modes : drop_packets_ (modes_ w) = false /\ retry_new_chunk_after_packet_ (modes_ w) = false;
  rd_payload : wc_payload c = encode_fragments F ++ tail;
  rd_room : 12 <= zlen tail;
  rd_count : wc_count c = Z.of_nat (length F) /\ wc_count c < kMaxCount;
  rd_flags : chunk_has_flag kLastPacketContinuesOnNextChunk c = false /\ chunk_has_flag kChunkNeedsPatching c = false;
  rd_stream : stream_ w = mkPos CurrentChunk (zlen (encode_fragments F)) (zlen (wc_payload c));
  rd_small : Forall small F;
  rd_begins : begins (read_chunks start (wview w)) D c F
}.
Record lost_ready (S0 : budget) (w : Writer) (D : list (list Z)) : Prop := {
  lr_cur : cur_chunk_ w = None;
  lr_drop : drop_packets_ (modes_ w) = true;
  lr_read : (read_chunks start (wview w)).1 = D;
  lr_stream : exists p, stream_ w = mkPos GarbageChunk p kGarbageChunkSize /\ 0 <= p /\ p + 12 <= kGarbageChunkSize;
  lr_dry : dry S0 w
}.
(** The common part: between the packets. *)
Record between (S0 : budget) (first : bool) (w : Writer) : Prop := {
  bt_base : base w;
  bt_final : finalized_ w = true /\ nested_ w = [];
  bt_supply : supply_ w `suffix_of` given S0;
  bt_first : first_packet_on_sequence_ (modes_ w) = first
}.

Lemma idle_between S0 first lost w D : idle S0 first lost w D -> between S0 first w.
Proof. intros [H1 H2 H3 H4 _ _ _]. by split. Qed.
Lemma resting_items w D0 x c frs b tail : resting w D0 x c frs b tail ->
  items_of c = layout_items (starts_packet c) false frs ++ [Some (frag_starts (starts_packet c) frs, true, b)].
Proof.
  intros [C P (N & _) [F _] _ _ _ SM _]. rewrite (items_of_layout c (frs ++ [b]) tail P); [|rewrite N, length_app; cbn; lia|done]. rewrite F. apply layout_items_app.
Qed.
Lemma resting_read w D0 x c frs b tail : resting w D0 x c frs b tail -> read_chunks (read_chunks start (wview w)) [c] = (D0 ++ [x], None).
Proof. intros H. rewrite read_chunks_one, (resting_items _ _ _ _ _ _ _ H), feed_all_app. destruct (re_read _ _ _ _ _ _ _ H) as [_ Hr]. exact Hr. Qed.

(** ** Room for a packet *)

Lemma read_forget R c : read_chunks R [forget_needs_patching c] = read_chunks R [c].
Proof. by rewrite !read_chunks_one, items_of_forget. Qed.
(** The current chunk, if there is one, goes to the service. *)
Lemma return_current w : base w -> exists w3, match cur_chunk_ w with Some c => return_chunk c w | None => Ok w end = Ok w3 /\ base (set_chunk None w3) /\
  (exists a pl n, w3 = set_arbiter a (set_patches pl n w)) /\ read_chunks start (wview w3) = read_chunks start (wchunks w) /\ zlen (wview w3) = zlen (wchunks w) /\
  (forall c, cur_chunk_ w = Some c -> drained (patch_list_ w3)).
Proof.
  intros B. unfold wchunks. destruct (cur_chunk_ w) as [c|] eqn:C.
  - destruct (return_spec w c B C) as (w3 & E & Has & B3 & V3 & Hd). exists w3. split; [done|]. split; [done|]. split; [apply (as_frame _ _ Has)|]. cbn [option_list].
    rewrite V3, !read_chunks_app, read_forget, !zlen_app. by repeat split.
  - exists w. split; [done|]. replace (set_chunk None w) with w by (destruct w; cbn in *; by subst). split; [done|]. split; [exists (arbiter_ w), (patch_list_ w), (popped_ w); by destruct w|].
    cbn [option_list]. by rewrite app_nil_r.
Qed.
Lemma use_chunk_ready S0 first w D p : between S0 first w -> fragmenting_packet_ (modes_ w) = false -> (read_chunks start (wchunks w)).1 = D -> 16 <= zlen p <= 65535 ->
  zlen (wchunks w) + zlen (supply_ w) + 1 < 4294967296 ->
  exists w' pos, use_chunk (mkWChunk (id_ w) (next_chunk_id_ w) p 0 0) w = Ok (pos, w') /\ between S0 first (set_stream pos w') /\
    ready (set_stream pos w') D (mkWChunk (id_ w) (next_chunk_id_ w) p 0 0) [] p.
Proof.
  intros [B [F1 F2] Hs Hf] M HD Hp Hroom. destruct (return_current w B) as (w3 & E & B3 & (a & pl & n & Ew) & HR & HZ & _). set (nc := mkWChunk (id_ w) (next_chunk_id_ w) p 0 0).
  assert (Hw3 : id_ w3 = id_ w /\ next_chunk_id_ w3 = next_chunk_id_ w /\ supply_ w3 = supply_ w /\ modes_ w3 = modes_ w /\ nested_ w3 = nested_ w /\ finalized_ w3 = finalized_ w) by (by rewrite Ew).
  destruct Hw3 as (I1 & I2 & I3 & I4 & I5 & I6). pose proof (base_new_chunk w3 p 0 0 B3 Hp ltac:(rewrite HZ, I3; lia) eq_refl) as B4. rewrite I1, I2 in B4. fold nc in B4.
  eexists _, _. split; [|split].
  - unfold use_chunk. rewrite M. cbn [obind]. rewrite E. cbn [obind]. done.
  - split.
    + apply base_stream, base_last_field. rewrite I2. exact (base_modes _ (new_chunk_modes false (modes_ w3)) B4).
    + cbn. by rewrite I5, I6.
    + cbn. by rewrite I3.
    + cbn. by rewrite I4.
  - split; try done; [lia|]. split; [|done]. cbn [layout_items feed_all fold_left]. change (wview _) with (wview w3). by rewrite HR.
Qed.
(** There is none: the last packet, if it is still in the current chunk, is lost. *)
Lemma drop_resting w D0 x c frs b tail : base w -> fragmenting_packet_ (modes_ w) = false -> nested_ w = [] -> resting w D0 x c frs b tail ->
  let c1 := dropped_chunk c frs (b ++ tail) in let w1 := set_chunk (Some c1) w in
  write_size kPacketSizeDropPacket (last_packet_size_field_ w) w = Ok w1 /\ base w1 /\ (read_chunks start (wchunks w1)).1 = D0.
Proof.
  intros B M Hn [C P (N1 & N2 & N3) [F1 F2] St L [M1 M2] SM [R1 R2]] c1 w1. apply Forall_app in SM as [SM1 SM2]. apply Forall_cons in SM2 as [SMb _].
  assert (Hzh : zlen (WriteRedundantVarInt (zlen b) kMessageLengthFieldSize) = 4) by (apply zlen_redundant; unfold small in SMb; pose proof (zlen_nonneg b); max_lia).
  assert (P' : wc_payload c = encode_fragments frs ++ WriteRedundantVarInt (zlen b) kMessageLengthFieldSize ++ b ++ tail).
  { rewrite P, encode_fragments_app, encode_fragments_one. unfold encode_fragment. by rewrite <- !app_assoc. }
  assert (Hz : zlen (wc_payload c1) = zlen (wc_payload c)) by (rewrite P'; cbn [c1 dropped_chunk set_payload wc_payload]; rewrite !zlen_app, Hzh; done).
  assert (Hcs : zlen (wc_payload c) <= 65535). { pose proof (ba_sizes _ B) as Hs. unfold wchunks in Hs. rewrite C in Hs. apply Forall_app in Hs as [_ Hs]. by apply Forall_cons in Hs as [[_ Hs] _]. }
  split; [|split].
  - unfold write_size. rewrite L. change (WriteRedundantVarInt (u32 kPacketSizeDropPacket) kMessageLengthFieldSize) with drop_header. cbn [store]. rewrite C, Z.eqb_refl. change (zlen drop_header) with 4.
    pose proof (zlen_nonneg (encode_fragments frs)). pose proof (zlen_nonneg b). pose proof (zlen_nonneg tail).
    replace (true && (0 <=? zlen (encode_fragments frs)) && (zlen (encode_fragments frs) + 4 <=? zlen (wc_payload c))) with true by (symmetry; rewrite P', !zlen_app, Hzh, !andb_true_iff, !Z.leb_le; lia).
    cbn [perfetto_check obind]. rewrite P', zwrite_mid by (by rewrite Hzh). done.
  - apply (base_set_cur w c); try done. change (chunk_has_flag kChunkNeedsPatching c1) with (chunk_has_flag kChunkNeedsPatching c). by rewrite F2.
  - change (wchunks w1) with (wview w ++ [c1]). rewrite read_chunks_app, read_chunks_one. unfold c1.
    rewrite items_of_dropped_chunk; [|rewrite N1; lia|done|done|fold c1; lia]. rewrite feed_all_app. cbn [feed_all fold_left feed fst]. exact R1.
Qed.

Lemma rest_state_frame lost w w' D : rest_state lost w D -> wview w' = wview w -> cur_chunk_ w' = cur_chunk_ w -> stream_ w' = stream_ w -> last_packet_size_field_ w' = last_packet_size_field_ w ->
  patch_list_ w' = patch_list_ w -> set_fragmenting false (modes_ w') = set_fragmenting false (modes_ w) -> rest_state lost w' D.
Proof.
  intros H E1 E2 E3 E4 E5 E6. assert (Hm : drop_packets_ (modes_ w') = drop_packets_ (modes_ w) /\ retry_new_chunk_after_packet_ (modes_ w') = retry_new_chunk_after_packet_ (modes_ w) /\
    reached_max_packets_per_chunk_ (modes_ w') = reached_max_packets_per_chunk_ (modes_ w)) by (injection E6; done). destruct Hm as (M1 & M2 & M3).
  destruct H as [(Hl & D0 & x & c & frs & b & tail & -> & [C P N F St L M SM R])|[C R St P]].
  - left. split; [done|]. exists D0, x, c, frs, b, tail. split; [done|]. split; rewrite ?E1, ?E2, ?E3, ?E4, ?M1, ?M2, ?M3; done.
  - right. split; rewrite ?E1, ?E2, ?E3, ?E4, ?E5, ?M1; done.
Qed.
Lemma drop_mode_ready S0 first lost w D : between S0 first w -> fragmenting_packet_ (modes_ w) = false -> drop_packets_ (modes_ w) = lost -> rest_state lost w D -> dry S0 w ->
  exists w', drop_mode w = Ok w' /\ between S0 first (set_stream garbage_range w') /\
    exists D', lost_ready S0 (set_stream garbage_range w') D' /\ (D' = D \/ lost = false /\ exists x, D = D' ++ [x]).
Proof.
  intros [B [F1 F2] Hs Hf] M Hl Hst Hdry.
  assert (H1 : exists w1 D', (if negb (drop_packets_ (modes_ w)) && match last_packet_size_field_ w with Null => false | _ => true end then write_size kPacketSizeDropPacket (last_packet_size_field_ w) w else Ok w) = Ok w1 /\
    base w1 /\ (read_chunks start (wchunks w1)).1 = D' /\ (D' = D \/ lost = false /\ exists x, D = D' ++ [x]) /\ (exists c, w1 = set_chunk c w)).
  { destruct Hst as [(Hlf & D0 & x & c & frs & b & tail & -> & Hre)|Hwo].
    - rewrite Hl, Hlf. cbn [negb andb]. destruct (drop_resting w D0 x c frs b tail B M F2 Hre) as (E & B1 & HR). rewrite E. rewrite (re_last _ _ _ _ _ _ _ Hre). eexists _, D0. split; [done|]. split; [done|].
      split; [done|]. split; [right; split; [done|by exists x]|by eexists].
    - exists w, D. destruct Hwo as [C R St P]. split.
      + destruct (drop_packets_ (modes_ w)) eqn:E; [done|]. destruct (P eq_refl) as [_ ->]. done.
      + split; [done|]. split; [unfold wchunks; rewrite C; cbn [option_list]; by rewrite app_nil_r|]. split; [by left|]. exists None. destruct w. cbn in *. by subst. }
  destruct H1 as (w1 & D' & E1 & B1 & HR & HD & c1 & Ew1). destruct (return_current w1 B1) as (w3 & E3 & B3 & (a & pl & n & Ew3) & HR3 & _).
  exists (set_last_field Null (set_chunk None (set_modes (new_chunk_modes true (modes_ w3)) w3))). split; [|split].
  - unfold drop_mode. rewrite M. rewrite E1. cbn [obind]. rewrite E3. done.
  - split.
    + apply base_stream, base_last_field. exact (base_modes _ (new_chunk_modes true (modes_ w3)) B3).
    + by rewrite Ew3, Ew1.
    + by rewrite Ew3, Ew1.
    + by rewrite Ew3, Ew1.
  - exists D'. split; [|done]. split; try done.
    + change (wview _) with (wview w3). by rewrite HR3.
    + by exists 0.
    + unfold dry. by rewrite Ew3, Ew1.
Qed.

Lemma rest_read lost w D : rest_state lost w D -> (read_chunks start (wchunks w)).1 = D.
Proof.
  intros [(_ & D0 & x & c & frs & b & tail & -> & Hre)|[C R _ _]]; unfold wchunks.
  - rewrite (re_cur _ _ _ _ _ _ _ Hre). change (option_list (Some c)) with [c]. by rewrite read_chunks_app, (resting_read _ _ _ _ _ _ _ Hre).
  - rewrite C. cbn [option_list]. by rewrite app_nil_r.
Qed.
(** Where the next packet begins, and what was lost to get there. *)
Definition room_for (S0 : budget) (lost : bool) (w : Writer) (D : list (list Z)) : Prop :=
  (exists c F tail, ready w D c F tail) \/ exists D', lost_ready S0 w D' /\ (D' = D \/ lost = false /\ exists x, D = D' ++ [x]).
Lemma Extend_ready S0 first lost w D : between S0 first w -> fragmenting_packet_ (modes_ w) = false -> drop_packets_ (modes_ w) = lost -> rest_state lost w D ->
  exists w', Extend w = Ok w' /\ between S0 first w' /\ room_for S0 lost w' D.
Proof.
  intros Hb M Hl Hst. pose proof Hb as [B [F1 F2] Hs Hf]. unfold Extend, GetNewBuffer. rewrite M. cbn [andb].
  destruct (GetNewChunk_spec S0 w 0 0 B Hs) as (answer & a & s & E & B1 & V1 & Hs1 & Hans). rewrite E. set (w1 := set_supply s (set_arbiter a w)) in *.
  assert (Hb1 : between S0 first w1) by (by split). assert (Hst1 : rest_state lost w1 D) by (by eapply rest_state_frame).
  assert (Hz1 : zlen (wchunks w1) = zlen (wchunks w)) by (unfold wchunks; by rewrite V1).
  destruct answer as [nc|].
  - destruct Hans as (p & -> & Hp & Hroom). destruct (use_chunk_ready S0 first w1 D p Hb1 M (rest_read _ _ _ Hst1) Hp) as (w' & pos & E2 & Hb2 & Hrd); [rewrite Hz1; exact Hroom|].
    change (id_ w1) with (id_ w) in E2. change (next_chunk_id_ w1) with (next_chunk_id_ w) in E2. rewrite E2. cbn [obind]. eexists. split; [done|]. split; [done|]. left. by eexists _, _, _.
  - destruct (drop_mode_ready S0 first lost w1 D Hb1 M Hl Hst1) as (w' & -> & Hb2 & D' & Hlr & HD).
    { exact Hans. }
    cbn [obind]. eexists. split; [done|]. split; [done|]. right. by exists D'.
Qed.
Lemma find_room S0 first lost w D : idle S0 first lost w D -> let w0 := set_modes (set_fragmenting false (modes_ w)) w in
  exists w', (if (available (stream_ w0) <? kPacketHeaderSize + 8) || reached_max_packets_per_chunk_ (modes_ w0) || retry_new_chunk_after_packet_ (modes_ w0) then Extend w0 else Ok w0) = Ok w' /\
    between S0 first w' /\ room_for S0 lost w' D.
Proof.
  intros Hi w0. pose proof (idle_between _ _ _ _ _ Hi) as [B F Hs Hf]. assert (Hb0 : between S0 first w0) by (split; try done; by apply base_modes).
  assert (Hst0 : rest_state lost w0 D) by (by apply (rest_state_frame lost w); [apply (id_state _ _ _ _ _ Hi)|..]).
  destruct (_ || _) eqn:E; [by apply Extend_ready; [| |apply (id_lost _ _ _ _ _ Hi)|]|]. exists w0. split; [done|]. split; [done|].
  apply orb_false_iff in E as [E E3]. apply orb_false_iff in E as [E1 E2]. apply Z.ltb_ge in E1. unfold available, kPacketHeaderSize in E1.
  destruct Hst0 as [(Hlf & D0 & x & c & frs & b & tail & -> & Hre)|Hwo].
  - left. exists c, (frs ++ [b]), tail. pose proof Hre as [C P (N1 & N2 & N3) Fl St L Mo SM R]. rewrite St in E1. cbn [range_end_ write_ptr_] in E1. split; try done.
    + rewrite P, zlen_app in E1. lia.
    + rewrite length_app. cbn [length]. rewrite E2 in N3. unfold kMaxCount in *. lia.
    + destruct R as [R1 R2]. split; [|by destruct frs]. rewrite layout_items_app, feed_all_app. cbn [feed_all fold_left negb]. unfold start in *. fold (feed_all (read_chunks ([], None) (wview w0)) (layout_items (starts_packet c) false frs)). by rewrite R2.
  - right. exists D. split; [|by left]. destruct Hwo as [C R [St|(Hd & p & St & Hp)] P]; rewrite St in E1; cbn [range_end_ write_ptr_] in E1; [lia|]. split; try done.
    + exists p. split; [done|]. lia.
    + apply (id_dry _ _ _ _ _ Hi). rewrite <- (id_lost _ _ _ _ _ Hi). exact Hd.
Qed.

(** ** The header of a packet *)

Lemma send_between S0 first w : between S0 first w -> (forall c, cur_chunk_ w = Some c -> chunk_has_flag kChunkNeedsPatching c = false) ->
  exists w', send_patches w = Ok w' /\ between S0 first w' /\ wview w' = wview w /\ exists a pl n, w' = set_arbiter a (set_patches pl n w).
Proof.
  intros [B F Hs Hf] Hc. destruct (send_patches_spec w B Hc) as (w' & E & Has & B' & V' & _). destruct (as_frame _ _ Has) as (a & pl & n & Ew). exists w'. split; [done|].
  split; [split; [done|by rewrite Ew..]|]. split; [done|]. by exists a, pl, n.
Qed.
Lemma header_in_chunk S0 first w D c F tail : ~ doomed S0 -> between S0 first w -> ready w D c F tail ->
  exists w1 w2, write_header w = Ok w1 /\ count_packet w1 = Ok w2 /\ writing S0 first w2 D [] [] /\ sized_ok w2 [] 0 /\ drop_packets_ (modes_ w2) = false.
Proof.
  intros Hdm [B [F1 F2] Hs Hf] [C [M1 M2] P Hroom [N1 N2] [Fl1 Fl2] St SM Hbg].
  pose proof (zlen_nonneg (encode_fragments F)). assert (Hlen : zlen (wc_payload c) = zlen (encode_fragments F) + zlen tail) by (by rewrite P, zlen_app).
  set (wp := zlen (encode_fragments F)) in *. set (header := InChunk (wc_chunk_id c) wp).
  set (c1 := set_payload (encode_fragments F ++ zeros 4 ++ zdrop 4 tail) c). assert (Hz4 : zlen (ztake 4 tail) = 4) by (rewrite zlen_ztake; lia).
  assert (Ew : zwrite wp (zeros 4) (wc_payload c) = encode_fragments F ++ zeros 4 ++ zdrop 4 tail).
  { rewrite P. assert (Et : tail = ztake 4 tail ++ zdrop 4 tail) by (unfold ztake, zdrop; by rewrite take_drop). rewrite Et at 1. apply zwrite_mid. by rewrite Hz4. }
  set (w1 := set_modes (set_fragmenting true (modes_ w)) (set_fragment_start (wp + 4) (set_last_field header (set_packet (mkOpen 0 header 0) [] false
    (set_chunk (Some c1) (set_stream (mkPos CurrentChunk (wp + 4) (zlen (wc_payload c))) (set_packet (mkOpen 0 Null 0) [] false w))))))).
  assert (E1 : write_header w = Ok w1).
  { unfold write_header, ReserveBytes. cbn [set_packet stream_]. rewrite St. cbn [range_end_ write_ptr_ where_]. unfold kPacketHeaderSize. replace (zlen (wc_payload c) <? wp + 4) with false by lia.
    cbn [obind set_packet stream_ set_stream]. rewrite St. cbn [write_ptr_ where_ range_end_]. unfold address_of. cbn [set_packet stream_ where_ cur_chunk_]. rewrite St, C. cbn [where_]. fold header.
    cbn [store header set_stream set_packet cur_chunk_]. rewrite C, Z.eqb_refl. change (zlen (zeros 4)) with 4. replace (true && (0 <=? wp) && (wp + 4 <=? zlen (wc_payload c))) with true by (symmetry; rewrite !andb_true_iff, !Z.leb_le; lia).
    cbn [perfetto_check obind]. rewrite Ew. done. }
  set (n := Z.of_nat (length F) + 1). assert (Hn : (wc_count c1 + 1) `mod` 1024 = n) by (change (wc_count c1) with (wc_count c); rewrite N1; unfold n, kMaxCount in *; apply Z.mod_small; lia).
  set (c2 := set_count n c1). set (w2 := set_modes (set_reached_max (n =? kMaxCount) (modes_ w1)) (set_chunk (Some c2) w1)).
  exists w1, w2. split; [done|]. split.
  { unfold count_packet. replace (drop_packets_ (modes_ w1)) with false by (symmetry; exact M1). change (cur_chunk_ w1) with (Some c1). cbn [negb]. cbv zeta. by rewrite Hn. }
  split; [|split; [done|exact M1]]. split; try done.
  left. split; [|done]. exists (wview w), [], c2, F, (zeros 4), [], (zdrop 4 tail). assert (Hz2 : zlen (wc_payload c2) = zlen (wc_payload c)) by (cbn [c2 c1 set_count set_payload wc_payload]; rewrite Hlen, !zlen_app, zlen_zdrop by lia; change (zlen (zeros 4)) with 4; lia).
  split; try done.
  - assert (Hnone : forall w0, patch_list_ w0 = patch_list_ w -> forall i q, patch_list_ w0 !! i = Some q -> is_patched q = false -> exists m, m ∈ [] /\ om_field m = InPatch (popped_ w0 + i)).
    { intros w0 E0 i q Hi Hq. rewrite E0 in Hi. destruct (ba_waiting _ B i q Hi Hq) as (m & Hm & _). rewrite F2 in Hm. by apply not_elem_of_nil in Hm. }
    assert (B0 : base (set_chunk (Some c1) (set_stream (mkPos CurrentChunk (wp + 4) (zlen (wc_payload c))) (set_packet (mkOpen 0 Null 0) [] false w)))).
    { apply (base_write _ c); try done. apply base_stream, base_nested; [done|]. by apply Hnone. }
    apply base_modes, (base_write w1 c1); try done. apply base_modes, base_fragment_start, base_last_field, base_nested; [exact B0|]. by apply Hnone.
  - change (wview w = wview w ++ []). by rewrite app_nil_r.
  - split; [done|]. split; [cbn; unfold n, kMaxCount in *; lia|done].
  - cbn [w2 set_modes set_chunk stream_ w1 set_fragment_start set_last_field set_packet set_stream]. rewrite Hz2, zlen_nil, Z.add_0_r. done.
Qed.

Lemma header_in_garbage S0 first w D : between S0 first w -> lost_ready S0 w D ->
  exists w1, write_header w = Ok w1 /\ count_packet w1 = Ok w1 /\ writing S0 first w1 D [] [] /\ sized_ok w1 [] 0 /\ drop_packets_ (modes_ w1) = true.
Proof.
  intros [B [F1 F2] Hs Hf] [C Dr R (p & St & Hp1 & Hp2) Hdry].
  set (w1 := set_modes (set_fragmenting true (modes_ w)) (set_fragment_start (p + 4) (set_last_field (InGarbage p) (set_packet (mkOpen 0 (InGarbage p) 0) [] false
    (set_stream (mkPos GarbageChunk (p + 4) kGarbageChunkSize) (set_packet (mkOpen 0 Null 0) [] false w)))))).
  assert (E1 : write_header w = Ok w1).
  { unfold write_header, ReserveBytes. cbn [set_packet stream_]. rewrite St. cbn [range_end_ write_ptr_ where_]. unfold kPacketHeaderSize. replace (kGarbageChunkSize <? p + 4) with false by lia.
    cbn [obind set_packet stream_ set_stream]. rewrite St. cbn [write_ptr_ where_ range_end_]. unfold address_of. cbn [set_packet stream_ where_ cur_chunk_]. rewrite St, C. cbn [where_ store].
    change (zlen (zeros 4)) with 4. replace ((0 <=? p) && (p + 4 <=? kGarbageChunkSize)) with true by (symmetry; rewrite !andb_true_iff, !Z.leb_le; lia). done. }
  exists w1. split; [done|]. split; [unfold count_packet; replace (drop_packets_ (modes_ w1)) with true by (symmetry; exact Dr); done|]. split; [|by split]. split; try done.
  right. split; [|done]. exists (wview w), [], []. split; try done.
  - apply base_modes, base_fragment_start, base_last_field, base_nested; [|intros i q Hi Hq; destruct (ba_waiting _ B i q Hi Hq) as (m & Hm & _); rewrite F2 in Hm; by apply not_elem_of_nil in Hm].
    apply base_stream, base_nested; [done|]. intros i q Hi Hq. destruct (ba_waiting _ B i q Hi Hq) as (m & Hm & _). rewrite F2 in Hm. by apply not_elem_of_nil in Hm.
  - change (wview w = wview w ++ [] ++ []). by rewrite app_nil_r.
  - exists (p + 4). split; [done|]. lia.
  - right. exists p, p. unfold kMessageLengthFieldSize. repeat split; lia.
Qed.

(** ** NewTracePacket *)

Definition lost_last (lost : bool) (D D' : list (list Z)) : Prop := lost = false /\ exists x, D = D' ++ [x].
Lemma begin_packet_spec S0 first lost w D : ~ doomed S0 -> idle S0 first lost w D ->
  exists w1 w2 D', begin_packet w = Ok w1 /\ count_packet w1 = Ok w2 /\ writing S0 first w2 D' [] [] /\ sized_ok w2 [] 0 /\
    (D' = D \/ drop_packets_ (modes_ w2) = true /\ lost_last lost D D').
Proof.
  intros Hdm Hi. unfold begin_packet. rewrite (proj1 (id_final _ _ _ _ _ Hi)). cbn [perfetto_check obind].
  destruct (find_room _ _ _ _ _ Hi) as (w0 & E0 & Hb0 & Hroom). cbv zeta in E0. cbv zeta. rewrite E0. cbn [obind].
  destruct Hroom as [(c & F & tail & Hrd)|(D' & Hlr & HD)].
  - destruct (send_between S0 first w0 Hb0) as (w3 & -> & Hb3 & V3 & a & pl & n & Ew3); [intros c1 Hc1; rewrite (rd_cur _ _ _ _ _ Hrd) in Hc1; injection Hc1 as <-; apply (rd_flags _ _ _ _ _ Hrd)|]. cbn [obind].
    assert (Hrd3 : ready w3 D c F tail) by (destruct Hrd; split; rewrite ?V3, ?Ew3; done).
    destruct (header_in_chunk _ _ _ _ _ _ _ Hdm Hb3 Hrd3) as (w1 & w2 & E1 & E2 & Hw & Hs & _). exists w1, w2, D. by repeat (split; [done|]); left.
  - destruct (send_between S0 first w0 Hb0) as (w3 & -> & Hb3 & V3 & a & pl & n & Ew3); [intros c1 Hc1; rewrite (lr_cur _ _ _ Hlr) in Hc1; done|]. cbn [obind].
    assert (Hlr3 : lost_ready S0 w3 D') by (destruct Hlr; split; rewrite ?V3, ?Ew3; done).
    destruct (header_in_garbage _ _ _ _ Hb3 Hlr3) as (w1 & E1 & E2 & Hw & Hs & Hd). exists w1, w1, D'. repeat (split; [done|]). destruct HD as [->|HD]; [by left|by right].
Qed.
(** The packet of an open writer, with every message closed. *)
Definition holds (S0 : budget) (first : bool) (w : Writer) (D : list (list Z)) (bytes : list Z) : Prop :=
  exists flat poss, writing S0 first w D flat poss /\ sized_ok w poss (zlen flat) /\ close (length poss) flat poss = (bytes, []).
Lemma holds_start S0 first w D : writing S0 first w D [] [] -> sized_ok w [] 0 -> holds S0 first w D [].
Proof. intros Hw Hs. by exists [], []. Qed.
Lemma holds_call S0 first op b w D bytes : call_spec S0 first 0 op b -> holds S0 first w D bytes -> small (bytes ++ b) -> exists w', op w = Ok w' /\ holds S0 first w' D (bytes ++ b).
Proof.
  intros Hop (flat & poss & Hw & Hs & Hc) Hsm. assert (Hz : zlen bytes = zlen flat) by (rewrite <- (close_writing _ _ _ _ _ _ (length poss) Hw), Hc; done).
  destruct (Hop w D flat poss Hw Hs ltac:(lia)) as (w' & flat' & poss' & E & Hw' & Hs' & _ & Hc'); [unfold small in *; by rewrite zlen_app, Hz in *|].
  exists w'. split; [done|]. exists flat', poss'. split; [done|]. split; [done|]. rewrite !Nat.sub_0_r, Hc in Hc'. exact Hc'.
Qed.
Lemma tiny_call S0 first id v w D bytes : writing S0 first w D bytes [] -> sized_ok w [] (zlen bytes) -> small (bytes ++ encode_call (CTinyVarInt id v)) ->
  exists w', run_call 0 (CTinyVarInt id v) w = Ok w' /\ writing S0 first w' D (bytes ++ encode_call (CTinyVarInt id v)) [] /\ sized_ok w' [] (zlen (bytes ++ encode_call (CTinyVarInt id v))).
Proof.
  intros Hw Hs Hsm. assert (En : nested_ w = []) by (pose proof (wt_nested _ _ _ _ _ _ Hw); by destruct (nested_ w)).
  assert (E : end_nested 0 w = Ok w) by (unfold end_nested; by rewrite En). cbn [run_call]. rewrite E. cbn [obind]. by apply WriteToStream_writing.
Qed.
Lemma writing_first S0 first w D flat poss b : writing S0 first w D flat poss -> writing S0 b (set_modes (set_first b (modes_ w)) w) D flat poss.
Proof.
  intros [A1 A2 A3 A4 A5 A6]. split; try done. destruct A6 as [[(V & ps & c & pre & hdr & body & tail & [B M W C P N F St T K FL SM R L NE PO]) Hdm]|[(V & ps & T & [B M C W St F K R N X]) Hdry]].
  - left. split; [|done]. exists V, ps, c, pre, hdr, body, tail. split; try done; [by apply base_modes|]. eapply Forall2_impl; [exact NE|]. intros m p [H1 H2]. split; [done|]. by eapply field_at_frame.
  - right. split; [|done]. exists V, ps, T. split; try done; [by apply base_modes|by eapply lost_fields_frame].
Qed.
Lemma zlen_markers first lost : zlen (markers first lost) <= 6.
Proof. destruct first, lost; vm_compute; discriminate. Qed.
(** A packet that began in the garbage chunk stays there. *)
Definition doom (S0 : budget) : budget := mkBudget (given S0) (lost_before S0) True.
Lemma doom_writing S0 first w D flat poss : writing S0 first w D flat poss -> drop_packets_ (modes_ w) = true -> writing (doom S0) first w D flat poss.
Proof.
  intros [A1 A2 A3 A4 A5 A6] Hd. split; try done. destruct A6 as [[(V & ps & c & pre & hdr & body & tail & Ho) _]|A6]; [|by right].
  destruct (op_modes _ _ _ _ _ _ _ _ _ _ _ Ho) as (_ & M & _). congruence.
Qed.
Definition same_budget (S0 S1 : budget) : Prop := given S1 = given S0 /\ lost_before S1 = lost_before S0.
Lemma NewTracePacket_spec S0 first lost w D : ~ doomed S0 -> idle S0 first lost w D ->
  exists w' D' m S1, NewTracePacket w = Ok w' /\ same_budget S0 S1 /\ writing S1 false w' D' m [] /\ sized_ok w' [] (zlen m) /\ zlen m <= 6 /\
    (~ doomed S1 -> D' = D /\ m = markers first lost) /\ (D' = D \/ lost_last lost D D').
Proof.
  intros Hdm Hi. unfold NewTracePacket. rewrite (id_lost _ _ _ _ _ Hi). destruct (begin_packet_spec _ _ _ _ _ Hdm Hi) as (w1 & w2 & D' & -> & E2 & Hw & Hs & HD). cbn [obind]. rewrite E2. cbn [obind].
  set (S1 := if drop_packets_ (modes_ w2) then doom S0 else S0). assert (Hw1 : writing S1 first w2 D' [] []) by (unfold S1; destruct (drop_packets_ (modes_ w2)) eqn:E; [by apply doom_writing|done]).
  set (m1 := if negb (drop_packets_ (modes_ w2)) && lost then encode_call (CTinyVarInt kPreviousPacketDropped 1) else []). set (m2 := if first then encode_call (CTinyVarInt kFirstPacketOnSequence 1) else []).
  assert (Hm1 : zlen m1 <= 3) by (unfold m1; destruct (_ && _); vm_compute; discriminate). assert (Hm2 : zlen m2 <= 3) by (unfold m2; destruct first; vm_compute; discriminate).
  assert (H1 : exists w3, (if negb (drop_packets_ (modes_ w2)) && lost then run_call 0 (CTinyVarInt kPreviousPacketDropped 1) w2 else Ok w2) = Ok w3 /\ writing S1 first w3 D' m1 [] /\ sized_ok w3 [] (zlen m1)).
  { unfold m1. destruct (_ && _); [|by exists w2]. apply (tiny_call S1 first kPreviousPacketDropped 1 w2 D' [] Hw1 Hs). vm_compute. discriminate. }
  destruct H1 as (w3 & -> & Hw3 & Hs3). cbn [obind].
  assert (H2 : exists w4, (if first_packet_on_sequence_ (modes_ w3) then let! w := run_call 0 (CTinyVarInt kFirstPacketOnSequence 1) w3 in Ok (set_modes (set_first false (modes_ w)) w) else Ok w3) = Ok w4 /\ writing S1 false w4 D' (m1 ++ m2) [] /\ sized_ok w4 [] (zlen (m1 ++ m2))).
  { rewrite (wt_first _ _ _ _ _ _ Hw3). unfold m2. destruct first; [|exists w3; by rewrite app_nil_r].
    destruct (tiny_call S1 true kFirstPacketOnSequence 1 w3 D' m1 Hw3 Hs3) as (w4 & -> & G1 & G2).
    { unfold small. rewrite zlen_app. unfold m2 in Hm2. max_lia. }
    cbn [obind]. eexists. split; [done|]. split; [by eapply writing_first|done]. }
  destruct H2 as (w4 & E4 & H4 & Hs4). exists w4, D', (m1 ++ m2), S1. split; [exact E4|]. split; [unfold S1; by destruct (drop_packets_ (modes_ w2))|]. split; [done|]. split; [done|]. split; [rewrite zlen_app; lia|].
  split; [|destruct HD as [->|[_ HD]]; [by left|by right]]. unfold S1, m1, m2, markers. destruct (drop_packets_ (modes_ w2)) eqn:E; [intros H; by destruct H|]. intros _. cbn [negb andb].
  split; [|done]. destruct HD as [->|[HD _]]; done.
Qed.

(** ** The end of a packet *)

Lemma end_opened w D flat V ps c pre hdr body tail : opened w D flat [] V ps c pre hdr body tail -> finalized_ w = false ->
  exists w1, write_size (zlen body) (InChunk (wc_chunk_id c) (zlen (encode_fragments pre))) w = Ok w1 /\ supply_ w1 = supply_ w /\ modes_ w1 = modes_ w /\
    forall S0 root, supply_ w `suffix_of` given S0 -> idle S0 (first_packet_on_sequence_ (modes_ w)) false (set_packet root [] true w1) (D ++ [flat]).
Proof.
  intros Ho _. pose proof (small_body _ _ _ _ _ _ _ _ _ _ _ Ho) as SMb. pose proof (opened_frag_fits _ _ _ _ _ _ _ _ _ _ _ Ho) as Hfit. pose proof Ho as [B (M1 & M2 & M3) W C [P1 P2] (N1 & N2 & N3) [F1 F2] St T [K1 K2] FL [SM1 SM2] [R1 R2] [L1 L2] NE PO].
  inversion NE as [En|]. symmetry in En.
  set (c1 := set_payload (encode_fragments pre ++ size_field (zlen body) ++ body ++ tail) c). assert (Hzs : zlen (size_field (zlen body)) = 4) by (apply zlen_size_field; unfold small in SMb; pose proof (zlen_nonneg body); max_lia).
  assert (Hz : zlen (wc_payload c1) = zlen (wc_payload c)) by (cbn [c1 set_payload wc_payload]; rewrite P1, !zlen_app, P2, Hzs; done).
  pose proof (zlen_nonneg (encode_fragments pre)). pose proof (zlen_nonneg body). pose proof (zlen_nonneg tail).
  exists (set_chunk (Some c1) w). split; [|split; [done|split; [done|]]].
  - unfold write_size. assert (Hu : u32 (zlen body) = zlen body) by (apply u32_small; unfold small in SMb; max_lia). rewrite Hu. fold (size_field (zlen body)). cbn [store]. rewrite C, Z.eqb_refl, Hzs.
    unfold frag_offset, kMessageLengthFieldSize in *. replace (true && (0 <=? zlen (encode_fragments pre)) && (zlen (encode_fragments pre) + 4 <=? zlen (wc_payload c))) with true by (symmetry; rewrite !andb_true_iff, !Z.leb_le; lia).
    cbn [perfetto_check obind]. rewrite P1, zwrite_mid by (by rewrite Hzs, P2). done.
  - intros S0 root Hsup. assert (Henc : encode_fragments (pre ++ [body]) = encode_fragments pre ++ size_field (zlen body) ++ body) by (by rewrite encode_fragments_app, encode_fragments_one).
    destruct (continues_run _ _ _ _ _ K1 K2) as (T1 & T2 & _).
    split; try done.
    + apply base_nested; [by apply (base_write w c)|]. intros i q Hi Hq. destruct (ba_waiting _ B i q Hi Hq) as (m & Hm & _). rewrite En in Hm. by apply not_elem_of_nil in Hm.
    + left. split; [done|]. exists D, flat, c1, pre, body, tail. split; [done|]. split; try done.
      * rewrite Henc, <- !app_assoc. done.
      * cbn [set_packet set_chunk stream_]. rewrite St, Hz, Henc. f_equal. rewrite !zlen_app, Hzs. unfold kMessageLengthFieldSize. lia.
      * apply Forall_app. by repeat constructor.
      * change (wview (set_packet root [] true (set_chunk (Some c1) w))) with (wview w). rewrite W, read_chunks_app. unfold start. split; [exact T1|]. rewrite FL. apply T2.
Qed.
Lemma end_dropped S0 w D V ps T root : dropped w D V ps T -> nested_ w = [] -> supply_ w `suffix_of` given S0 -> dry S0 w ->
  idle S0 (first_packet_on_sequence_ (modes_ w)) true (set_packet root [] true w) D.
Proof.
  intros Hd Hn Hs Hdry. pose proof (dropped_read _ _ _ _ _ Hd) as HR. destruct Hd as [B [M1 M2] C W St F K R N X]. split; try done.
  - apply base_nested; [done|]. intros i q Hi Hq. destruct (ba_waiting _ B i q Hi Hq) as (m & Hm & _). rewrite Hn in Hm. by apply not_elem_of_nil in Hm.
  - right. split; try done; [by right|]. cbn [set_packet modes_]. by rewrite M2.
Qed.
(** What is left when a packet has ended: it is complete, or it is lost. *)
Definition ended (S0 : budget) (first : bool) (w : Writer) (D : list (list Z)) (bytes : list Z) : Prop :=
  ~ doomed S0 /\ idle S0 first false w (D ++ [bytes]) \/ idle S0 first true w D.
Lemma writing_open S0 first w D flat poss : writing S0 first w D flat poss -> finalized_ w = false.
Proof.
  intros [_ _ _ _ _ [[(V & ps & c & pre & hdr & body & tail & Ho) _]|[(V & ps & T & Hd) _]]]; [apply (op_last _ _ _ _ _ _ _ _ _ _ _ Ho)|apply (dp_final _ _ _ _ _ Hd)].
Qed.
Lemma garbage_store w D V ps T src f : dropped w D V ps T -> f = om_field (root_ w) \/ f = last_packet_size_field_ w -> om_field (root_ w) <> Null -> zlen src = 4 -> store f src w = Ok w.
Proof.
  intros Hd Hf Hn Hz. destruct (dp_root _ _ _ _ _ Hd) as [E|(p & q & E1 & E2 & Hp & Hq)]; [done|]. unfold kGarbageChunkSize, kMessageLengthFieldSize in *.
  destruct Hf as [->| ->]; rewrite ?E1, ?E2; cbn [store]; rewrite Hz.
  - replace ((0 <=? p) && (p + 4 <=? kGarbageChunkSize)) with true by (symmetry; rewrite andb_true_iff, !Z.leb_le; unfold kGarbageChunkSize; lia). done.
  - replace ((0 <=? q) && (q + 4 <=? kGarbageChunkSize)) with true by (symmetry; rewrite andb_true_iff, !Z.leb_le; unfold kGarbageChunkSize; lia). done.
Qed.
Lemma FinalizePacket_spec S0 first w D bytes : holds S0 first w D bytes -> exists w', FinalizePacket w = Ok w' /\ ended S0 first w' D bytes.
Proof.
  intros (flat & poss & Hw & Hs & Hc). unfold FinalizePacket. rewrite (writing_open _ _ _ _ _ _ Hw).
  destruct (end_nested_spec S0 first w D flat poss 0 Hw Hs) as (w1 & -> & Hw1 & Hs1). rewrite Nat.sub_0_r, Hc in Hw1, Hs1. cbn [fst snd obind] in *. clear Hw Hs Hc w.
  pose proof (writing_open _ _ _ _ _ _ Hw1) as Hfin. destruct Hw1 as [A1 A2 A3 A4 A5 [[(V & ps & c & pre & hdr & body & tail & Ho) Hdm]|[(V & ps & T & Hd) Hdry]]].
  - destruct (op_root _ _ _ _ _ _ _ _ _ _ _ Ho) as [R1 R2]. assert (En : nested_ w1 = []) by (by destruct (nested_ w1)).
    assert (Hsz : om_size (root_ w1) = zlen bytes) by (unfold sized_ok, sizes_of in Hs1; cbn [fst snd] in Hs1; by rewrite En in Hs1).
    replace (om_size (root_ w1) - om_already (root_ w1)) with (zlen body) by (rewrite Hsz, R2, (op_flat _ _ _ _ _ _ _ _ _ _ _ Ho), zlen_app; lia).
    destruct (end_opened _ _ _ _ _ _ _ _ _ _ Ho Hfin) as (w2 & E & _ & _ & Hidle). rewrite R1. cbn [backfill]. rewrite E. cbn [obind]. eexists. split; [done|]. left. split; [done|]. rewrite <- A2. by apply Hidle.
  - assert (En : nested_ w1 = []) by (by destruct (nested_ w1)). assert (E : backfill (om_size (root_ w1) - om_already (root_ w1)) (om_field (root_ w1)) w1 = Ok w1).
    { unfold backfill, write_size. destruct (om_field (root_ w1)) eqn:Ef; [done|rewrite <- Ef; eapply garbage_store; [exact Hd|by left|by rewrite Ef|apply zlen_redundant, u32_range]..]. }
    rewrite E. cbn [obind]. eexists. split; [done|]. right. rewrite <- A2. by eapply end_dropped.
Qed.
Lemma idle_send S0 first lost w D : idle S0 first lost w D -> exists w', send_patches w = Ok w' /\ idle S0 first lost w' D.
Proof.
  intros Hi. pose proof Hi as [B F Hs Hf Hl Hst Hdry]. destruct Hst as [(Hlf & D0 & x & c & frs & b & tail & -> & Hre)|Hwo].
  - destruct (send_between S0 first w) as (w' & E & [B' F' Hs' Hf'] & V' & a & pl & n & Ew); [by split|intros c1 Hc1; rewrite (re_cur _ _ _ _ _ _ _ Hre) in Hc1; injection Hc1 as <-; apply (re_flags _ _ _ _ _ _ _ Hre)|].
    exists w'. split; [done|]. split; try done; [by rewrite Ew| |by rewrite Hlf]. left. split; [done|]. exists D0, x, c, frs, b, tail. split; [done|]. destruct Hre. split; rewrite ?V', ?Ew; done.
  - destruct Hwo as [C R St P]. destruct (drop_packets_ (modes_ w)) eqn:Ed.
    + destruct (send_between S0 first w) as (w' & E & [B' F' Hs' Hf'] & V' & a & pl & n & Ew); [by split|by rewrite C|]. exists w'. split; [done|].
      split; [exact B'|exact F'|exact Hs'|exact Hf'|rewrite Ew; cbn; congruence| |intros H; unfold dry; rewrite Ew; by apply Hdry].
      right. split; rewrite ?V', ?Ew; try done; cbn; [by rewrite Ed|by rewrite Ed].
    + exists w. unfold send_patches. destruct (P eq_refl) as [-> _]. done.
Qed.
Lemma FinishTracePacket_spec S0 first w D bytes : writing S0 first w D bytes [] -> exists w', FinishTracePacket w = Ok w' /\ ended S0 first w' D bytes.
Proof.
  intros Hw. unfold FinishTracePacket. pose proof (writing_open _ _ _ _ _ _ Hw) as Hfin. destruct Hw as [A1 A2 A3 A4 A5 [[(V & ps & c & pre & hdr & body & tail & Ho) Hdm]|[(V & ps & T & Hd) Hdry]]].
  - destruct (op_root _ _ _ _ _ _ _ _ _ _ _ Ho) as [R1 R2]. rewrite R1, (op_stream _ _ _ _ _ _ _ _ _ _ _ Ho), (op_start _ _ _ _ _ _ _ _ _ _ _ Ho), (proj1 (op_last _ _ _ _ _ _ _ _ _ _ _ Ho)). cbn [write_ptr_].
    replace (zlen (encode_fragments pre) + kMessageLengthFieldSize + zlen body - (zlen (encode_fragments pre) + kMessageLengthFieldSize)) with (zlen body) by lia.
    destruct (end_opened _ _ _ _ _ _ _ _ _ _ Ho Hfin) as (w2 & E & _ & _ & Hidle). rewrite E. cbn [obind]. destruct (idle_send S0 first false _ (D ++ [bytes]) (eq_rect _ (fun f => idle S0 f false _ _) (Hidle S0 (mkOpen 0 Null 0) A1) _ A2)) as (w' & E' & Hi').
    exists w'. split; [done|]. by left.
  - assert (En : nested_ w = []) by (by destruct (nested_ w)). pose proof (end_dropped S0 w D V ps T (mkOpen 0 Null 0) Hd En A1 Hdry) as Hi. rewrite A2 in Hi. destruct (idle_send _ _ _ _ _ Hi) as (w' & E' & Hi').
    exists w'. split; [|by right]. assert (E : match om_field (root_ w) with Null => Ok w | _ => write_size (write_ptr_ (stream_ w) - cur_fragment_start_ w) (last_packet_size_field_ w) w end = Ok w).
    { unfold write_size. destruct (om_field (root_ w)) eqn:Ef; [done|eapply garbage_store; [exact Hd|by right|by rewrite Ef|apply zlen_redundant, u32_range]..]. }
    rewrite E. exact E'.
Qed.

(** ** A whole packet *)

Lemma write_all_writing S0 first D l : forall w flat, writing S0 first w D flat [] -> small (flat ++ concat l) ->
  exists w', write_all l w = Ok w' /\ writing S0 first w' D (flat ++ concat l) [].
Proof.
  induction l as [|src l IH]; intros w flat Hw Hs; [exists w; cbn [concat]; by rewrite app_nil_r|]. cbn [write_all concat] in *.
  destruct (WriteBytes_writing S0 first w D flat [] src Hw (small_prefix _ _ _ Hs)) as (w1 & -> & Hw1 & _). cbn [obind]. rewrite app_assoc in *. by apply IH.
Qed.
(** A packet is written: [l] tells whether it is lost; the one before may be lost then. *)
Lemma write_packet_spec S0 first lost w D p : ~ doomed S0 -> idle S0 first lost w D -> packet_ok p ->
  exists w' l D', write_packet p w = Ok w' /\ idle S0 false l w' D' /\
    (if l then D' = D \/ lost_last lost D D' else D' = D ++ [markers first lost ++ packet_bytes p]).
Proof.
  intros Hdm Hi Hp. unfold write_packet. destruct (NewTracePacket_spec _ _ _ _ _ Hdm Hi) as (w1 & D1 & m & S1 & -> & Hsb & Hw & Hs & Hm & HD1 & HD2). cbn [obind].
  unfold packet_ok in Hp. assert (Hsm : small (m ++ packet_bytes p)) by (unfold small; rewrite zlen_app; lia).
  assert (H : exists w2, match p with Calls l => let! w := run_calls 0 l w1 in FinalizePacket w | Raw l => let! w := write_all l w1 in FinishTracePacket w end = Ok w2 /\ ended S1 false w2 D1 (m ++ packet_bytes p)).
  { destruct p as [l|l].
    - assert (Hh : holds S1 false w1 D1 m) by (by exists m, []). destruct (holds_call _ _ _ _ _ _ _ (run_calls_spec S1 false 0 l) Hh Hsm) as (w2 & -> & Hh2). cbn [obind]. by apply FinalizePacket_spec.
    - destruct (write_all_writing S1 false D1 l w1 m Hw Hsm) as (w2 & -> & Hw2). cbn [obind]. by apply FinishTracePacket_spec. }
  destruct H as (w2 & E & He). exists w2. destruct Hsb as [Hg Hl].
  assert (Hidle : forall l D', idle S1 false l w2 D' -> idle S0 false l w2 D').
  { intros l D' [I1 I2 I3 I4 I5 I6 I7]. split; try done; [by rewrite <- Hg|]. intros Hlt. specialize (I7 Hlt). unfold dry, ran_out in *. by rewrite <- Hg, <- Hl. }
  destruct He as [[Hnd He]|He].
  - destruct (HD1 Hnd) as [-> ->]. exists false. eexists. split; [exact E|]. split; [by apply Hidle|]. done.
  - exists true, D1. split; [exact E|]. split; [by apply Hidle|done].
Qed.

(** ** Flush and the tasks of the arbiter *)

Lemma all_patched w : base w -> nested_ w = [] -> Forall (fun p => is_patched p = true) (patch_list_ w).
Proof.
  intros B Hn. apply Forall_lookup. intros i p Hi. destruct (is_patched p) eqn:E; [done|]. destruct (ba_waiting _ B i p Hi E) as (m & Hm & _). rewrite Hn in Hm. by apply not_elem_of_nil in Hm.
Qed.
Lemma idle_arbiter S0 first lost w D a : idle S0 first lost w D -> committed_ok (id_ w) (patch_list_ w) a -> view (id_ w) (patch_list_ w) a = wview w -> idle S0 first lost (set_arbiter a w) D.
Proof.
  intros [B F Hs Hf Hl Hst Hdry] Ha Hv. split; try done; [by apply base_arbiter|]. by eapply rest_state_frame.
Qed.
Lemma Flush_idle S0 first lost w D on_thread callback : idle S0 first lost w D ->
  exists w', Flush on_thread callback w = Ok w' /\ idle S0 first lost w' D /\ (lost = false -> patch_list_ w' = []) /\
    (on_thread = true -> commit_data_req_ (arbiter_ w') = None).
Proof.
  intros Hi. pose proof Hi as [B [F1 F2] Hs Hf Hl Hst Hdry]. destruct (return_current w B) as (w3 & E & B3 & (a & pl & n & Ew) & HR & _ & Hdr).
  assert (Hpl : lost = false -> patch_list_ w3 = []).
  { intros Hlf. destruct (cur_chunk_ w) as [c|] eqn:C.
    - specialize (Hdr c eq_refl). pose proof (all_patched (set_chunk None w3) B3 ltac:(cbn; by rewrite Ew)) as Hp. cbn [set_chunk patch_list_] in Hp. destruct (patch_list_ w3) as [|q l]; [done|].
      apply Forall_cons in Hp as [Hq _]. cbn in Hdr. congruence.
    - injection E as <-. destruct Hst as [(_ & D0 & x & c & frs & b & tail & _ & Hre)|Hwo]; [by rewrite (re_cur _ _ _ _ _ _ _ Hre) in C|]. apply (wo_patches _ _ Hwo). congruence. }
  destruct (Flush_committed (id_ w3) (patch_list_ w3) on_thread callback (arbiter_ w3) (ba_arbiter _ B3)) as (Ha & Hv & _ & Ht). set (a' := FlushPendingCommitDataRequests on_thread callback (arbiter_ w3)) in *.
  exists (set_last_field Null (set_stream (mkPos Nowhere 0 0) (set_arbiter a' (set_chunk None w3)))). split; [|split; [|split; [exact Hpl|intros H; by apply Ht]]].
  - unfold Flush. rewrite F1. cbn [perfetto_check obind]. fold a'. destruct (cur_chunk_ w) as [c|] eqn:C.
    + rewrite E. done.
    + injection E as <-. cbn [obind]. replace (set_chunk None w) with w; [done|]. destruct w. cbn in *. by subst.
  - assert (B4 : base (set_arbiter a' (set_chunk None w3))) by (by apply base_arbiter). split; try (by rewrite Ew).
    + by apply base_last_field, base_stream.
    + right. split.
      * done.
      * change (wview _) with (view (id_ w3) (patch_list_ w3) a'). rewrite Hv. change (view (id_ w3) (patch_list_ w3) (arbiter_ w3)) with (wview w3). rewrite HR. by eapply rest_read.
      * by left.
      * intros Hd. split; [|done]. apply Hpl. rewrite <- Hl. cbn in Hd. by rewrite Ew in Hd.
Qed.
Lemma ArbiterTask_idle S0 first lost w D : idle S0 first lost w D -> idle S0 first lost (set_arbiter (PostedFlush (arbiter_ w)) w) D.
Proof. intros Hi. destruct (PostedFlush_spec _ _ _ (ba_arbiter _ (id_base _ _ _ _ _ Hi))) as [H1 H2]. by apply idle_arbiter. Qed.

(** ** Sessions *)

Lemma delivered_snoc p l : forall ps losses first lost, length losses = length ps ->
  delivered first lost (ps ++ [p]) (losses ++ [l]) =
    delivered first lost ps losses ++ (if l then [] else [markers (first && bool_decide (ps = [])) (default lost (last losses)) ++ packet_bytes p]).
Proof.
  induction ps as [|q ps IH]; intros losses first lost Hl; destruct losses as [|l0 losses]; try done.
  - cbn [app delivered]. rewrite app_nil_r. cbn [last default]. rewrite bool_decide_eq_true_2 by done. by rewrite andb_true_r.
  - cbn [app delivered]. rewrite IH by (cbn in Hl; lia). rewrite app_assoc. f_equal. destruct l; [done|]. rewrite (bool_decide_eq_false_2 (q :: ps = [])) by done. rewrite andb_false_r.
    cbn [andb]. do 3 f_equal. rewrite last_cons. by destruct (last losses).
Qed.
Definition run_state (supply : list (list bool * option (list Z))) (w : Writer) (ps : list packet) (losses : list bool) : Prop :=
  length losses = length ps /\ supply_ w `suffix_of` supply /\ (true ∈ losses -> supply_ w = [] \/ Exists (fun e => e.2 = None) supply) /\
  let lost := default false (last losses) in
  idle (mkBudget (supply_ w) (lost = true) False) (bool_decide (ps = [])) lost w (delivered true false ps losses).

Lemma ran_out_global supply s s' (P : Prop) : s `suffix_of` supply -> s' `suffix_of` s -> ran_out (mkBudget s P False) s' -> (P -> s = [] \/ Exists (fun e : list bool * option (list Z) => e.2 = None) supply) ->
  s' = [] \/ Exists (fun e => e.2 = None) supply.
Proof.
  intros [k Hk] [j Hj] [H|[H|H]] HP; cbn in *.
  - destruct (HP H) as [E|E]; [left|by right]. subst s. by destruct j, s'.
  - by left.
  - right. rewrite Hk. apply Exists_app. by right.
Qed.
Lemma idle_restart S0 first lost w D : idle S0 first lost w D -> idle (mkBudget (supply_ w) (lost = true) False) first lost w D.
Proof. intros [B F Hs Hf Hl Hst Hdry]. split; try done. intros H. by left. Qed.
Lemma run_one_op supply w ps losses o : run_state supply w ps losses -> Forall packet_ok (packets_of [o]) ->
  exists w' losses', run_writer_op o w = Ok w' /\ run_state supply w' (ps ++ packets_of [o]) losses'.
Proof.
  intros (Hlen & Hsuf & Hluck & Hi) Hok. destruct o as [p|t c|]; cbn [packets_of omap list_omap run_writer_op] in *.
  - apply Forall_cons in Hok as [Hp _]. destruct (write_packet_spec (mkBudget _ _ False) _ _ _ _ p (fun H => H) Hi Hp) as (w' & l & D' & E & Hi' & HD). pose proof (id_supply _ _ _ _ _ Hi') as Hsuf'. cbn in Hsuf'.
    assert (Hluck' : l = true -> supply_ w' = [] \/ Exists (fun e => e.2 = None) supply).
    { intros Hl. eapply ran_out_global; [exact Hsuf|exact Hsuf'|exact (id_dry _ _ _ _ _ Hi' Hl)|]. intros Hlast. apply Hluck. destruct (last losses) as [b|] eqn:El; [|done]. cbn in Hlast. subst b.
      apply last_Some in El as [l0 ->]. apply elem_of_app. right. by apply list_elem_of_singleton. }
    assert (Hold : true ∈ losses -> supply_ w' = [] \/ Exists (fun e => e.2 = None) supply).
    { intros H. destruct (Hluck H) as [E0|E0]; [|by right]. left. rewrite E0 in Hsuf'. by apply suffix_nil_inv in Hsuf'. }
    assert (Hne : bool_decide (ps ++ [p] = []) = false) by (apply bool_decide_eq_false_2; by destruct ps).
    assert (Hdone : forall losses', length losses' = length (ps ++ [p]) -> last losses' = Some l -> delivered true false (ps ++ [p]) losses' = D' -> (true ∈ losses' -> l = true \/ true ∈ losses) -> run_state supply w' (ps ++ [p]) losses').
    { intros losses' G1 G2 G3 G4. split; [done|]. split; [by etransitivity|]. split; [intros H; destruct (G4 H); auto|]. cbv zeta. rewrite G2, G3, Hne. by eapply idle_restart. }
    destruct l; [destruct HD as [->|[Hlast [x Hx]]]|].
    + exists w', (losses ++ [true]). split; [done|]. apply Hdone; [by rewrite !length_app, Hlen|apply last_snoc|rewrite delivered_snoc by done; by rewrite app_nil_r|by left].
    + destruct ps as [|q ps] using rev_ind; [destruct losses; [|done]; cbn in Hx; by destruct D'|]. clear IHps. destruct losses as [|l0 losses] using rev_ind; [rewrite length_app in Hlen; cbn in Hlen; lia|]. clear IHlosses.
      rewrite last_snoc in Hlast. cbn in Hlast. subst l0. rewrite !length_app in Hlen. cbn in Hlen. rewrite delivered_snoc in Hx by lia. apply app_inj_tail in Hx as [Hx _].
      exists w', ((losses ++ [true]) ++ [true]). split; [done|]. apply Hdone; [rewrite !length_app; cbn; lia|apply last_snoc| |by left].
      rewrite delivered_snoc by (rewrite !length_app; cbn; lia). rewrite delivered_snoc by lia. by rewrite !app_nil_r.
    + exists w', (losses ++ [false]). split; [done|]. apply Hdone; [by rewrite !length_app, Hlen|apply last_snoc| |].
      * rewrite delivered_snoc by done. by rewrite HD.
      * intros [H|H%list_elem_of_singleton]%elem_of_app; [by right|done].
  - destruct (Flush_idle _ _ _ _ _ t c Hi) as (w' & E & Hi' & _). pose proof (id_supply _ _ _ _ _ Hi') as Hsuf'. cbn in Hsuf'. exists w', losses. split; [done|]. rewrite app_nil_r. split; [done|].
    split; [by etransitivity|]. split; [|by eapply idle_restart]. intros H. destruct (Hluck H) as [E0|E0]; [left|by right]. rewrite E0 in Hsuf'. by apply suffix_nil_inv in Hsuf'.
  - eexists _, losses. split; [done|]. rewrite app_nil_r. split; [done|]. split; [done|]. split; [done|]. by apply ArbiterTask_idle.
Qed.
Lemma new_run_state id target shmem ms direct supply : id <> 0 -> supply_ok supply -> zlen supply < 4294967296 ->
  exists w0, TraceWriterImpl id target (Arbiter_new shmem ms direct) supply = Ok w0 /\ run_state supply w0 [] [].
Proof.
  intros Hid Hsup Hlen. unfold TraceWriterImpl. replace (negb (id =? 0)) with true by (symmetry; apply negb_true_iff; lia).
  cbn [perfetto_check obind]. eexists. split; [done|]. split; [done|]. split; [done|]. split; [intros H; by apply not_elem_of_nil in H|].
  split; try done.
  - split; try done; try (intros; by repeat match goal with H : _ ∈ [] |- _ => apply not_elem_of_nil in H end).
    + split; [by apply arbiter_ok_new|]. split; [constructor|]. intros p c Hp. by apply not_elem_of_nil in Hp.
    + intros p H. by apply not_elem_of_nil in H.
  - right. split; [done|done|by left|done].
Qed.
Lemma run_ops supply : forall ops w ps losses, run_state supply w ps losses -> Forall packet_ok (packets_of ops) ->
  exists w' losses', run_writer ops w = Ok w' /\ run_state supply w' (ps ++ packets_of ops) losses'.
Proof.
  induction ops as [|o ops IH]; intros w ps losses Hr Hok; [exists w, losses; cbn; by rewrite app_nil_r|].
  assert (Eo : packets_of (o :: ops) = packets_of [o] ++ packets_of ops) by (by destruct o). rewrite Eo in *. apply Forall_app in Hok as [Ho Hok].
  destruct (run_one_op supply w ps losses o Hr Ho) as (w1 & losses1 & E & Hr1). cbn [run_writer]. rewrite E. cbn [obind].
  destruct (IH w1 _ _ Hr1 Hok) as (w' & losses' & E' & Hr'). exists w', losses'. by rewrite app_assoc.
Qed.
(** With nothing left to patch, what is sent is the view. *)
Lemma sent_is_view w : base w -> patch_list_ w = [] -> commit_data_req_ (arbiter_ w) = None ->
  service (sent_ (arbiter_ w)) = wview w /\ Forall (fun c => chunk_has_flag kChunkNeedsPatching c = false) (wview w).
Proof.
  intros B Hp Hc. assert (Er : requests (arbiter_ w) = sent_ (arbiter_ w)) by (unfold requests; rewrite Hc; apply app_nil_r).
  assert (H : forall i c, service (sent_ (arbiter_ w)) !! i = Some c -> wview w !! i = Some c /\ chunk_has_flag kChunkNeedsPatching c = false).
  { intros i c Hi. rewrite <- Er in Hi. assert (Hw : wc_writer_id c = id_ w).
    { destruct (lookup_lt_is_Some_2 (wview w) i) as [c' Hc']; [unfold wview; rewrite length_view; by eapply lookup_lt_Some|]. pose proof (wview_index _ _ _ B Hc') as Hk.
      pose proof (f_equal (fun l => l !! i) (view_keys (id_ w) (patch_list_ w) (arbiter_ w))) as Ek. cbn beta in Ek. rewrite !list_lookup_fmap in Ek. fold (wview w) in Ek. rewrite Hc', Hi in Ek.
      injection Ek as Ek _. unfold key_of in Hk. injection Hk as Hk _. congruence. }
    unfold wview. rewrite Hp. apply nothing_left; [|exact Hi|exact Hw]. rewrite <- Hp. apply (proj1 (ba_arbiter _ B)). }
  assert (E : service (sent_ (arbiter_ w)) = wview w).
  { apply (list_eq_same_length _ _ (length (wview w))); [done|unfold wview; by rewrite length_view, Er|]. intros i c1 c2 _ H1 H2. apply H in H1 as [H1 _]. congruence. }
  split; [done|]. apply Forall_lookup. intros i c Hi. rewrite <- E in Hi. by apply H in Hi as [_ Hi].
Qed.

(** ** What the service reads *)

(** The chunks it can read: it stops at one that waits for patches. *)
Fixpoint readable (cs : list WChunk) : list WChunk :=
  match cs with
  | [] => []
  | c :: cs => if chunk_has_flag kChunkNeedsPatching c then [] else c :: readable cs
  end.
Lemma readable_all cs : Forall (fun c => chunk_has_flag kChunkNeedsPatching c = false) cs -> readable cs = cs.
Proof. induction 1 as [|c cs Hc _ IH]; [done|]. cbn. by rewrite Hc, IH. Qed.
(** It is a prefix of chunks that agree with the unflagged ones. *)
Lemma readable_prefix cs : forall vs, length cs = length vs ->
  (forall i c, cs !! i = Some c -> chunk_has_flag kChunkNeedsPatching c = false -> vs !! i = Some c) -> readable cs `prefix_of` vs.
Proof.
  induction cs as [|c cs IH]; intros [|v vs] Hl Hi; [done|done|done|]. cbn [readable]. destruct (chunk_has_flag _ c) eqn:E; [apply prefix_nil|].
  specialize (Hi 0%nat c eq_refl E) as Hv. injection Hv as ->. apply prefix_cons, IH; [by injection Hl|]. intros i d Hd. by apply (Hi (S i)).
Qed.
(** Reading on only adds packets. *)
Lemma feed_all_prefix l : forall s, s.1 `prefix_of` (feed_all s l).1.
Proof.
  induction l as [|i l IH]; intros s; [done|]. cbn [feed_all fold_left]. etransitivity; [|apply IH]. destruct i as [[[starts ends] body]|]; [|done]. cbn [feed].
  destruct (if starts then _ else _); [|done]. destruct ends; cbn [fst]; [by apply prefix_app_r|done].
Qed.
Lemma reassemble_prefix cs vs : cs `prefix_of` vs -> reassemble cs `prefix_of` reassemble vs.
Proof. intros [r ->]. unfold reassemble. rewrite read_chunks_app. apply feed_all_prefix. Qed.
Lemma readable_view w : base w -> commit_data_req_ (arbiter_ w) = None -> readable (service (sent_ (arbiter_ w))) `prefix_of` wview w.
Proof.
  intros B Hc. assert (Er : requests (arbiter_ w) = sent_ (arbiter_ w)) by (unfold requests; rewrite Hc; apply app_nil_r). rewrite <- Er.
  apply readable_prefix; [unfold wview; by rewrite length_view|]. intros i c Hi Hf. apply unflagged_final; [apply (ba_arbiter _ B)|done| |done].
  destruct (lookup_lt_is_Some_2 (wview w) i) as [c' Hc']; [unfold wview; rewrite length_view; by eapply lookup_lt_Some|]. pose proof (wview_index _ _ _ B Hc') as [= Hk _].
  pose proof (f_equal (fun l => l !! i) (view_keys (id_ w) (patch_list_ w) (arbiter_ w))) as Ek. cbn beta in Ek. rewrite !list_lookup_fmap in Ek. fold (wview w) in Ek.
  rewrite Hc', Hi in Ek. injection Ek as Ek _. congruence.
Qed.
(** What chunks become with the patches that a writer still has. *)
Definition completed (w : Writer) (chunks : list WChunk) : list WChunk :=
  map (fun c => fold_left write_patch (known_patches (id_ w) (patch_list_ w)) (forget_needs_patching c)) chunks.

(** ** The property *)

(** C3. A trace writer delivers what its clients write.  Take any sequence of packets
    (filled through the message API or by raw bytes), flushes and tasks of the arbiter, and
    any answers to the requests for chunks: chunks of any size from 16 bytes to 64k, with
    any contents, or none.  No check fails and nothing is written outside a chunk or through
    a pointer to a chunk that has been returned.  A packet is lost only if a request for a
    chunk was refused.  After a flush, what the service can read, which reassembles the
    fragments of the chunks it was sent and patched up to the first that waits for patches,
    is the first of the packets that were not lost, in order, byte for byte the plain
    encoding of the calls, each preceded by the markers of the first packet and of a lost
    predecessor.  If the writer is not dropping packets then, it is all of them, and no
    patch, request or flagged chunk is left over.  If it is, because the last request for a
    chunk was refused, packets may be missing that are in chunks that still wait for patches:
    the writer has these patches, complete, and with them the service will have all packets
    that were not lost. *)
Theorem trace_writer_delivers id target shmem ms direct supply ops callback :
  id <> 0 -> supply_ok supply -> zlen supply < 4294967296 -> Forall packet_ok (packets_of ops) ->
  exists w w' losses,
    (let! w0 := TraceWriterImpl id target (Arbiter_new shmem ms direct) supply in run_writer ops w0) = Ok w /\ Flush true callback w = Ok w' /\
    length losses = length (packets_of ops) /\ (true ∈ losses -> supply_ w = [] \/ Exists (fun e => e.2 = None) supply) /\
    let kept := delivered true false (packets_of ops) losses in let chunks := service (sent_ (arbiter_ w')) in
    commit_data_req_ (arbiter_ w') = None /\ reassemble (readable chunks) `prefix_of` kept /\
    (drop_packets_ (modes_ w) = false -> reassemble (readable chunks) = kept /\ patch_list_ w' = [] /\ Forall (fun c => chunk_has_flag kChunkNeedsPatching c = false) chunks) /\
    Forall (fun p => is_patched p = true) (patch_list_ w') /\
    reassemble (completed w' chunks) = kept.
Proof.
  intros Hid Hsup Hlen Hok. destruct (new_run_state id target shmem ms direct supply Hid Hsup Hlen) as (w0 & E0 & Hr0). rewrite E0. cbn [obind].
  destruct (run_ops supply ops w0 [] [] Hr0 Hok) as (w & losses & E & Hl & Hsuf & Hluck & Hi). cbv zeta in Hi.
  destruct (Flush_idle _ _ _ _ _ true callback Hi) as (w' & EF & Hi' & Hpl & Hreq). specialize (Hreq eq_refl). exists w, w', losses. do 4 (split; [done|]).
  set (kept := delivered _ _ _ losses) in *. set (chunks := service _).
  pose proof (id_base _ _ _ _ _ Hi') as B. assert (Hkept : reassemble (wview w') = kept).
  { pose proof (rest_read _ _ _ (id_state _ _ _ _ _ Hi')) as HR. unfold wchunks in HR.
    unfold Flush in EF. rewrite (proj1 (id_final _ _ _ _ _ Hi)) in EF. cbn [perfetto_check obind] in EF. assert (Hc : cur_chunk_ w' = None).
    { destruct (cur_chunk_ w) as [c|] eqn:C; [destruct (return_chunk c w) as [w3|]; cbn [obind] in EF; try done; by injection EF as <-|]. cbn [obind] in EF. injection EF as <-. exact C. }
    rewrite Hc in HR. cbn [option_list] in HR. by rewrite app_nil_r in HR. }
  split; [done|]. split; [rewrite <- Hkept; by apply reassemble_prefix, readable_view|]. split; [|split; [apply all_patched; [done|apply Hi']|]].
  - intros Hdrop. assert (Hlost : default false (last losses) = false) by (by rewrite <- (id_lost _ _ _ _ _ Hi)).
    destruct (sent_is_view w' B (Hpl Hlost) Hreq) as [Hv Hf]. unfold chunks. rewrite Hv, readable_all by done. by rewrite (Hpl Hlost).
  - rewrite <- Hkept. f_equal. unfold completed, chunks, wview, view, requests. by rewrite Hreq, app_nil_r.
Qed.
Definition demo_supply : list (list bool * option (list Z)) := repeat ([true], Some (repeat 77 16)) 12 ++ [([], None)].
Definition demo_ops : list writer_op :=
  [WritePacket (Raw [repeat 65 20; repeat 66 5]); ArbiterTask; WritePacket (Calls [CNested 2 [CTinyVarInt 1 3; CNested 5 [CBytes 1 (repeat 67 18)]]; CTinyVarInt 1 1]); FlushWriter true true].
Lemma trace_writer_delivers_witness : exists w w' losses,
  (let! w0 := TraceWriterImpl 7 1 (Arbiter_new 4096 10 true) demo_supply in run_writer demo_ops w0) = Ok w /\ Flush true true w = Ok w' /\
  length losses = 2%nat /\ reassemble (readable (service (sent_ (arbiter_ w')))) = delivered true false (packets_of demo_ops) losses /\
  Forall (fun c => chunk_has_flag kChunkNeedsPatching c = false) (service (sent_ (arbiter_ w'))).
Proof.
  destruct (trace_writer_delivers 7 1 4096 10 true demo_supply demo_ops true) as (w & w' & losses & E & EF & Hl & _ & _ & _ & Hd & _); [done| | | |].
  - unfold supply_ok, demo_supply. cbn [repeat app]. repeat constructor; vm_compute; by intros [=].
  - by vm_compute.
  - apply Forall_cons; split; [|apply Forall_cons; split; [|by apply Forall_nil]]; apply Z.leb_le; by vm_compute.
  - exists w, w', losses. do 3 (split; [done|]). destruct Hd as (Hr & _ & Hf); [|split; [exact Hr|exact Hf]]. vm_compute in E. injection E as <-. done.
Defined.

(** While packets are dropped a flush does not make the packets before readable: here the
    first packet was not lost, but it shares its chunk with the beginning of the second, for
    which no chunk was left; the patch of that chunk is known, and is not sent. *)
Definition refused_supply : list (list bool * option (list Z)) := [([], Some (repeat 77 40)); ([], Some (repeat 77 16)); ([], None)].
Definition refused_ops : list writer_op := [WritePacket (Raw [repeat 65 4]); WritePacket (Calls [CNested 2 [CBytes 1 (repeat 67 50)]])].
Theorem refused_chunk_withholds_packet :
  (let! w := TraceWriterImpl 7 1 (Arbiter_new 4096 10 true) refused_supply in let! w := run_writer refused_ops w in let! w := Flush true true w in
   let chunks := service (sent_ (arbiter_ w)) in
   Ok (drop_packets_ (modes_ w), length (patch_list_ w), length (reassemble (readable chunks)), length (reassemble (completed w chunks)))) = Ok (true, 1%nat, 0%nat, 1%nat).
Proof. vm_compute. reflexivity. Qed.
