(* ===== verification/StdAlgorithms.v ===== *)
(** * The algorithms of the C++ standard library that the components use

    std::lower_bound and std::upper_bound halve a range in which a predicate holds first and
    then no more; std::sort permutes a range into the order of a strict weak ordering. *)

From S2P Require Import Prelude.

(** ** Binary search *)

Section binary_search.
Context {A : Type} (p : A -> bool).

(** The number of rounds is bounded by the length, which more than halves in each. *)
Fixpoint partition_loop (fuel : nat) (l : list A) (first len : nat) : nat :=
  match fuel with
  | O => first
  | S fuel =>
      if (len =? 0)%nat then first
      else
        let half := (len / 2)%nat in
        match l !! (first + half)%nat with
        | Some x => if p x then partition_loop fuel l (first + half + 1) (len - half - 1) else partition_loop fuel l first half
        | None => first
        end
  end.
Definition partition_point (l : list A) : nat := partition_loop (length l) l 0 (length l).
End binary_search.

(** The first element that is not less than [v], and the first one greater than [v]. *)
Definition lower_bound {A V} (lt : A -> V -> bool) (l : list A) (v : V) : nat := partition_point (fun x => lt x v) l.
Definition upper_bound {A V} (lt : V -> A -> bool) (l : list A) (v : V) : nat := partition_point (fun x => negb (lt v x)) l.

(** ** Vectors and loops *)

(** operator[] of a std::vector or a std::array; out of range it is undefined. *)
Definition vec_get {A} (l : list A) (i : Z) : outcome A := match l !! Z.to_nat i with Some x => Ok x | None => Crash end.
Definition vec_set {A} (l : list A) (i : Z) (x : A) : outcome (list A) := if i <? zlen l then Ok (<[Z.to_nat i := x]> l) else Crash.
(** std::vector::resize. *)
Definition vec_resize {A} (n : Z) (x : A) (l : list A) : list A := take (Z.to_nat n) l ++ replicate (Z.to_nat n - length l) x.
(** [for (i = first; i < last; ++i)] over a state that the body changes. *)
Fixpoint for_iter {S} (n : nat) (i : Z) (body : Z -> S -> outcome S) (s : S) : outcome S :=
  match n with O => Ok s | Datatypes.S n => let! s := body i s in for_iter n (i + 1) body s end.
Definition for_loop {S} (first last : Z) (body : Z -> S -> outcome S) (s : S) : outcome S := for_iter (Z.to_nat (last - first)) first body s.

(** ** Sorting *)

(** [x] may come before [y]. *)
Definition not_after {A} (lt : A -> A -> bool) (x y : A) : Prop := lt y x = false.
#[export] Instance not_after_dec {A} (lt : A -> A -> bool) x y : Decision (not_after lt x y) := decide (lt y x = false).
(** Where elements are equivalent the library leaves the order open; this is one of them. *)
Definition std_sort {A} (lt : A -> A -> bool) (l : list A) : list A := merge_sort (not_after lt) l.
Class WeakOrder {A} (lt : A -> A -> bool) : Prop := {
  lt_asymmetric : forall x y, lt x y = true -> lt y x = false;
  not_lt_transitive : forall x y z, lt y x = false -> lt z y = false -> lt z x = false
}.
(** Every element is not greater than the later ones (std::is_sorted). *)
Definition sorted_by {A} (lt : A -> A -> bool) (l : list A) : Prop := StronglySorted (not_after lt) l.

(** ** Properties *)

Lemma zlen_snoc {A} (l : list A) x : zlen (l ++ [x]) = zlen l + 1.
Proof. by rewrite zlen_app. Qed.

Lemma vec_get_Some {A} (l : list A) i x : l !! Z.to_nat i = Some x -> vec_get l i = Ok x.
Proof. intros E. unfold vec_get. by rewrite E. Qed.
Lemma vec_get_inside {A} (l : list A) i : 0 <= i < zlen l -> exists x, l !! Z.to_nat i = Some x /\ vec_get l i = Ok x.
Proof. intros H. destruct (lookup_lt_is_Some_2 l (Z.to_nat i)) as [x Hx]; [unfold zlen in H; lia|]. exists x. split; [done|by apply vec_get_Some]. Qed.
Lemma vec_set_inside {A} (l : list A) i x : 0 <= i < zlen l -> vec_set l i x = Ok (<[Z.to_nat i := x]> l).
Proof. intros H. unfold vec_set. destruct (Z.ltb_spec i (zlen l)); [done|lia]. Qed.
(** A loop that does not fail, by an invariant of its counter and state. *)
Lemma for_loop_inv {S} (P : Z -> S -> Prop) first last body s : first <= last -> P first s -> (forall i s, first <= i < last -> P i s -> exists s', body i s = Ok s' /\ P (i + 1) s') -> exists s', for_loop first last body s = Ok s' /\ P last s'.
Proof.
  unfold for_loop. intros Hle H0 Hstep. assert (Hn : last = first + Z.of_nat (Z.to_nat (last - first))) by lia. revert Hn. generalize (Z.to_nat (last - first)). intros n. revert first s Hle H0 Hstep. induction n as [|n IH]; intros first s Hle H0 Hstep Hn; cbn [for_iter].
  - exists s. split; [done|]. by replace last with first by lia.
  - destruct (Hstep first s) as (s' & E & H'); [lia|done|]. rewrite E. cbn [obind]. apply (IH (first + 1) s'); [lia|done|intros i s'' Hi; apply Hstep; lia|lia].
Qed.
Lemma for_loop_empty {S} first last (body : Z -> S -> outcome S) s : last <= first -> for_loop first last body s = Ok s.
Proof. intros H. unfold for_loop. by replace (Z.to_nat (last - first)) with O by lia. Qed.

Section search_properties.
Context {A : Type} (p : A -> bool).

(** [k] elements satisfy the predicate, the others do not. *)
Definition partitioned (l : list A) (k : nat) : Prop :=
  (k <= length l)%nat /\ forall i x, l !! i = Some x -> p x = bool_decide (i < k)%nat.

Lemma partition_loop_spec l k : partitioned l k ->
  forall fuel first len, (len <= fuel)%nat -> (first <= k <= first + len)%nat -> (first + len <= length l)%nat -> partition_loop p fuel l first len = k.
Proof.
  intros [Hk Hp]. induction fuel as [|fuel IH]; intros first len Hf Hr Hl; cbn [partition_loop]; [lia|].
  destruct (Nat.eqb_spec len 0) as [->|Hne]; [lia|]. set (half := (len / 2)%nat). assert (Hh : (half < len)%nat) by (apply Nat.div_lt; lia).
  destruct (lookup_lt_is_Some_2 l (first + half)) as [x Hx]; [lia|]. rewrite Hx, (Hp _ _ Hx). case_bool_decide; apply IH; lia.
Qed.
Lemma partition_point_spec l k : partitioned l k -> partition_point p l = k.
Proof. intros H. apply (partition_loop_spec _ _ H); destruct H; lia. Qed.
Lemma partitioned_app a b : Forall (fun x => p x = true) a -> Forall (fun x => p x = false) b -> partitioned (a ++ b) (length a).
Proof.
  intros Ha Hb. split; [rewrite length_app; lia|]. intros i x Hi. rewrite Forall_forall in Ha, Hb. apply lookup_app_Some in Hi as [Hi|[Hge Hi]].
  - rewrite bool_decide_eq_true_2 by (by eapply lookup_lt_Some). apply Ha. by eapply list_elem_of_lookup_2.
  - rewrite bool_decide_eq_false_2 by lia. apply Hb. by eapply list_elem_of_lookup_2.
Qed.
(** A predicate that, once false, stays false along the list partitions it. *)
Lemma partition_point_exists l : (forall i j x y, (i <= j)%nat -> l !! i = Some x -> l !! j = Some y -> p y = true -> p x = true) ->
  exists k, partitioned l k.
Proof.
  induction l as [|x l IH]; intros Hm; [by exists 0%nat; split; [done|intros i y Hi]|].
  destruct (p x) eqn:E.
  - destruct IH as [k [Hk Hp]]; [intros i j y z Hij Hi Hj; by apply (Hm (S i) (S j)); [lia|..]|].
    exists (S k). split; [cbn; lia|]. intros [|i] y Hi; [injection Hi as <-; by rewrite bool_decide_eq_true_2 by lia|].
    rewrite (Hp i y Hi). apply bool_decide_ext. lia.
  - exists 0%nat. split; [lia|]. intros i y Hi. rewrite bool_decide_eq_false_2 by lia. destruct (p y) eqn:Ey; [|done]. by rewrite (Hm 0%nat i x y) in E by (done || lia).
Qed.
End search_properties.

Section sort_properties.
Context {A : Type} (lt : A -> A -> bool) `{!WeakOrder lt}.

#[local] Instance not_lt_trans : Transitive (not_after lt).
Proof. intros x y z. apply not_lt_transitive. Qed.
#[local] Instance not_lt_total : Total (not_after lt).
Proof. intros x y. destruct (lt y x) eqn:E; [right; by apply lt_asymmetric|by left]. Qed.

Lemma std_sort_permutation l : std_sort lt l ≡ₚ l.
Proof. apply merge_sort_Permutation. Qed.
Lemma std_sort_sorted l : sorted_by lt (std_sort lt l).
Proof. apply StronglySorted_merge_sort; apply _. Qed.
Lemma length_std_sort l : length (std_sort lt l) = length l.
Proof. apply Permutation_length, std_sort_permutation. Qed.
Lemma sorted_by_app l k : sorted_by lt (l ++ k) <-> sorted_by lt l /\ sorted_by lt k /\ forall x y, x ∈ l -> y ∈ k -> lt y x = false.
Proof. unfold sorted_by. rewrite StronglySorted_app. unfold not_after. split; [intros (H1 & H2 & H3)|intros (H1 & H2 & H3)]; auto. Qed.
Lemma sorted_by_cons x l : sorted_by lt (x :: l) <-> Forall (fun y => lt y x = false) l /\ sorted_by lt l.
Proof. apply StronglySorted_cons. Qed.
Lemma sorted_by_lookup l i j x y : sorted_by lt l -> (i < j)%nat -> l !! i = Some x -> l !! j = Some y -> lt y x = false.
Proof.
  intros Hs Hij Hi Hj. rewrite <- (take_drop j l) in Hs. apply sorted_by_app in Hs as (_ & _ & H). apply H.
  - apply list_elem_of_lookup. exists i. by rewrite lookup_take_lt.
  - apply list_elem_of_lookup. exists 0%nat. by rewrite lookup_drop, Nat.add_0_r.
Qed.
End sort_properties.
#[export] Hint Rewrite @length_std_sort : zmem.

(** ** Bounds in sorted sequences of integers *)

Lemma sorted_lookup {A} (R : A -> A -> Prop) l i j x y : StronglySorted R l -> (i < j)%nat -> l !! i = Some x -> l !! j = Some y -> R x y.
Proof.
  intros Hs Hij Hi Hj. rewrite <- (take_drop j l) in Hs. apply StronglySorted_app in Hs as (H & _ & _). apply H.
  - apply list_elem_of_lookup. exists i. by rewrite lookup_take_lt.
  - apply list_elem_of_lookup. exists 0%nat. by rewrite lookup_drop, Nat.add_0_r.
Qed.
Lemma upper_bound_spec l v : StronglySorted Z.le l -> (upper_bound Z.ltb l v <= length l)%nat /\ forall i x, l !! i = Some x -> (x <= v <-> (i < upper_bound Z.ltb l v)%nat).
Proof.
  intros Hs. unfold upper_bound. destruct (partition_point_exists (fun x => negb (v <? x)) l) as [k Hk].
  { intros i j x y Hij Hi Hj. rewrite !negb_true_iff, !Z.ltb_ge. destruct (decide (i = j)) as [->|]; [replace y with x by congruence; done|]. pose proof (sorted_lookup _ _ i j x y Hs ltac:(lia) Hi Hj). cbn in *. lia. }
  rewrite (partition_point_spec _ _ _ Hk). destruct Hk as [Hk Hp]. split; [done|]. intros i x Hi. specialize (Hp i x Hi). revert Hp. case_bool_decide; intros Hp; [apply negb_true_iff, Z.ltb_ge in Hp|apply negb_false_iff, Z.ltb_lt in Hp]; lia.
Qed.
Lemma lower_bound_spec l v : StronglySorted Z.lt l -> (lower_bound Z.ltb l v <= length l)%nat /\ forall i x, l !! i = Some x -> (x < v <-> (i < lower_bound Z.ltb l v)%nat).
Proof.
  intros Hs. unfold lower_bound. destruct (partition_point_exists (fun x => x <? v) l) as [k Hk].
  { intros i j x y Hij Hi Hj. rewrite !Z.ltb_lt. destruct (decide (i = j)) as [->|]; [replace y with x by congruence; done|]. pose proof (sorted_lookup _ _ i j x y Hs ltac:(lia) Hi Hj). cbn in *. lia. }
  rewrite (partition_point_spec _ _ _ Hk). destruct Hk as [Hk Hp]. split; [done|]. intros i x Hi. specialize (Hp i x Hi). revert Hp. case_bool_decide; intros Hp; [apply Z.ltb_lt in Hp|apply Z.ltb_ge in Hp]; lia.
Qed.
Lemma lower_bound_finds l v j : StronglySorted Z.lt l -> l !! j = Some v -> lower_bound Z.ltb l v = j.
Proof.
  intros Hs Hj. destruct (lower_bound_spec l v Hs) as [Hle Hi]. pose proof (Hi j v Hj) as Hjv. destruct (Nat.lt_trichotomy (lower_bound Z.ltb l v) j) as [Hlt|[|]]; [|done|lia].
  destruct (lookup_lt_is_Some_2 l (lower_bound Z.ltb l v)) as [x Hx]; [apply lookup_lt_Some in Hj; lia|]. pose proof (sorted_lookup _ _ _ _ _ _ Hs Hlt Hx Hj) as Hxv. cbn in Hxv. apply (Hi _ _ Hx) in Hxv. lia.
Qed.
