(* ===== verification/CircularQueue.v ===== *)
(** * base::CircularQueue (include/perfetto/ext/base/circular_queue.h)

    A queue in a flat buffer of a power of two slots.  The positions of the first element and
    of the end only grow; a position is reduced to a slot when it is dereferenced.  A slot is
    raw memory or holds a live object: reading raw memory, or past the buffer, is a Crash. *)

From S2P Require Import Prelude StdAlgorithms.

(** ** The queue *)

Record CircularQueue (T : Type) := mkQueue { entries_ : list (option T); capacity_ : Z; begin_ : Z; end_ : Z }.
Arguments mkQueue {T} entries_ capacity_ begin_ end_.
Arguments entries_ {T} c.
Arguments capacity_ {T} c.
Arguments begin_ {T} c.
Arguments end_ {T} c.

Section queue.
Context {T : Type}.
#[local] Abbreviation Queue := (CircularQueue T).

Definition queue_size (q : Queue) : Z := u64 (end_ q - begin_ q).
Definition empty (q : Queue) : bool := queue_size q =? 0.
Definition slot_of (q : Queue) (pos : Z) : Z := pos .& u64 (capacity_ q - 1).
Definition Get (pos : Z) (q : Queue) : outcome T :=
  match entries_ q !! Z.to_nat (slot_of q pos) with Some (Some x) => Ok x | _ => Crash end.
(** An object is constructed in a slot, assigned to it, or destroyed. *)
Definition set_slot (pos : Z) (x : option T) (q : Queue) : outcome Queue :=
  check! slot_of q pos <? zlen (entries_ q) in
  Ok (mkQueue (<[Z.to_nat (slot_of q pos) := x]> (entries_ q)) (capacity_ q) (begin_ q) (end_ q)).
Fixpoint read_from (n : nat) (pos : Z) (q : Queue) : outcome (list T) :=
  match n with
  | O => Ok []
  | S n => let! x := Get pos q in let! l := read_from n (u64 (pos + 1)) q in Ok (x :: l)
  end.
Fixpoint write_from (pos : Z) (l : list T) (q : Queue) : outcome Queue :=
  match l with
  | [] => Ok q
  | x :: l => let! q := set_slot pos (Some x) q in write_from (u64 (pos + 1)) l q
  end.

(** Grow moves the elements to the front of a new buffer; the old one goes away. *)
Definition Grow (new_capacity : Z) (q : Queue) : outcome Queue :=
  let new_capacity := if new_capacity =? 0 then u64 (capacity_ q * 2) else new_capacity in
  check! new_capacity .& u64 (new_capacity - 1) =? 0 in
  check! capacity_ q <? new_capacity in
  let! moved := read_from (Z.to_nat (end_ q - begin_ q)) (begin_ q) q in
  check! zlen moved <=? new_capacity in
  Ok (mkQueue (map Some moved ++ replicate (Z.to_nat (new_capacity - zlen moved)) None) new_capacity 0 (zlen moved)).
Definition CircularQueue_new (initial_capacity : Z) : outcome Queue := Grow initial_capacity (mkQueue [] 0 0 0).
(** The move constructor: the new queue, and the old one reset to 1024 raw slots. *)
Definition CircularQueue_move (other : Queue) : outcome (Queue * Queue) :=
  let! fresh := CircularQueue_new 1024 in Ok (other, fresh).

Definition emplace_back (x : T) (q : Queue) : outcome Queue :=
  let! q := if capacity_ q <=? queue_size q then Grow 0 q else Ok q in
  let! q' := set_slot (end_ q) (Some x) q in
  Ok (mkQueue (entries_ q') (capacity_ q') (begin_ q') (u64 (end_ q' + 1))).
(** At most [n] elements are destroyed; only a live object can be. *)
Fixpoint erase_loop (n : nat) (q : Queue) : outcome Queue :=
  match n with
  | O => Ok q
  | S n =>
      if begin_ q <? end_ q then
        let! _ := Get (begin_ q) q in
        let! q := set_slot (begin_ q) None q in
        erase_loop n (mkQueue (entries_ q) (capacity_ q) (u64 (begin_ q + 1)) (end_ q))
      else Ok q
  end.
Definition erase_front (n : Z) (q : Queue) : outcome Queue := erase_loop (Z.to_nat n) q.
Definition pop_front (q : Queue) : outcome Queue := erase_front 1 q.
Definition clear (q : Queue) : outcome Queue := erase_front (queue_size q) q.

(** Access by index and through iterators, which are positions. *)
Definition at_ (idx : Z) (q : Queue) : outcome T := Get (u64 (begin_ q + idx)) q.
Definition Iterator_Add (pos offset : Z) : Z := u64 (s64 pos + offset).
Definition front (q : Queue) : outcome T := Get (begin_ q) q.
Definition back (q : Queue) : outcome T := Get (Iterator_Add (end_ q) (-1)) q.
(** The elements a loop from begin() to end() visits. *)
Definition elements (q : Queue) : outcome (list T) := read_from (Z.to_nat (end_ q - begin_ q)) (begin_ q) q.
(** std::sort between two iterators. *)
Definition sort_range (lt : T -> T -> bool) (first last : Z) (q : Queue) : outcome Queue :=
  let! l := read_from (Z.to_nat (last - first)) first q in write_from first (std_sort lt l) q.

(** A client: each operation with what it observes. *)
Inductive queue_op := EmplaceBack (x : T) | EraseFront (n : Z) | PopFront | Clear | At (idx : nat) | Front | Back | Iterate | SortRange (i j : nat) | MoveAway.
Definition run_queue_op (lt : T -> T -> bool) (o : queue_op) (q : Queue) : outcome (Queue * list T) :=
  match o with
  | EmplaceBack x => let! q := emplace_back x q in Ok (q, [])
  | EraseFront n => let! q := erase_front n q in Ok (q, [])
  | PopFront => let! q := pop_front q in Ok (q, [])
  | Clear => let! q := clear q in Ok (q, [])
  | At idx => let! x := at_ (Z.of_nat idx) q in Ok (q, [x])
  | Front => let! x := front q in Ok (q, [x])
  | Back => let! x := back q in Ok (q, [x])
  | Iterate => let! l := elements q in Ok (q, l)
  | SortRange i j => let! q := sort_range lt (begin_ q + Z.of_nat i) (begin_ q + Z.of_nat j) q in Ok (q, [])
  | MoveAway => let! (q, _) := CircularQueue_move q in Ok (q, [])
  end.
Fixpoint run_queue_ops (lt : T -> T -> bool) (ops : list queue_op) (q : Queue) : outcome (Queue * list T) :=
  match ops with
  | [] => Ok (q, [])
  | o :: ops => let! (q, l) := run_queue_op lt o q in let! (q, k) := run_queue_ops lt ops q in Ok (q, l ++ k)
  end.
(** The same on a list; None where the code does not allow the access. *)
Definition list_op (lt : T -> T -> bool) (o : queue_op) (l : list T) : option (list T * list T) :=
  match o with
  | EmplaceBack x => Some (l ++ [x], [])
  | EraseFront n => Some (zdrop n l, [])
  | PopFront => Some (tail l, [])
  | Clear => Some ([], [])
  | At idx => x ← l !! idx; Some (l, [x])
  | Front => x ← head l; Some (l, [x])
  | Back => x ← last l; Some (l, [x])
  | Iterate => Some (l, l)
  | SortRange i j => if decide (i <= j <= length l)%nat then Some (take i l ++ std_sort lt (take (j - i) (drop i l)) ++ drop j l, []) else None
  | MoveAway => Some (l, [])
  end.
Fixpoint list_ops (lt : T -> T -> bool) (ops : list queue_op) (l : list T) : option (list T * list T) :=
  match ops with
  | [] => Some (l, [])
  | o :: ops => '(l, k1) ← list_op lt o l; '(l, k2) ← list_ops lt ops l; Some (l, k1 ++ k2)
  end.

(** ** What the queue stands for *)

(** The slots, from the one of the first element around, hold the elements and then raw
    memory. *)
Record represents (q : Queue) (l : list T) : Prop := {
  rp_capacity : exists k, 0 <= k <= 63 /\ capacity_ q = 2 ^ k;
  rp_length : zlen (entries_ q) = capacity_ q;
  rp_begin : 0 <= begin_ q;
  rp_end : end_ q = begin_ q + zlen l;
  rp_room : zlen l <= capacity_ q;
  rp_word : end_ q < 2 ^ 64;
  rp_slots : forall i : nat, Z.of_nat i < capacity_ q -> entries_ q !! Z.to_nat ((begin_ q + Z.of_nat i) `mod` capacity_ q) = Some (l !! i)
}.

Lemma u64_pos q l pos : represents q l -> begin_ q <= pos <= end_ q -> u64 pos = pos.
Proof. intros H Hp. destruct H. apply u64_small. change (2 ^ 64) with 18446744073709551616 in *. lia. Qed.
Lemma capacity_pos q l : represents q l -> 0 < capacity_ q < 2 ^ 64.
Proof.
  intros H. destruct (rp_capacity _ _ H) as (k & Hk & ->). split; [apply pow2_pos; lia|]. apply Z.pow_lt_mono_r; lia.
Qed.
Lemma slot_spec q l pos : represents q l -> slot_of q pos = pos `mod` capacity_ q.
Proof.
  intros H. pose proof (capacity_pos _ _ H). unfold slot_of. rewrite u64_small by (change (2 ^ 64) with 18446744073709551616 in *; lia).
  destruct (rp_capacity _ _ H) as (k & Hk & ->). apply land_ones_mod. lia.
Qed.
Lemma mod_inj c b i j : 0 < c -> 0 <= i < c -> 0 <= j < c -> (b + i) `mod` c = (b + j) `mod` c -> i = j.
Proof.
  intros Hc Hi Hj E. assert (H : (i - j) `mod` c = 0).
  { replace (i - j) with ((b + i) - (b + j)) by lia. rewrite Zminus_mod, E, Z.sub_diag. by apply Z.mod_0_l; lia. }
  apply Z.mod_divide in H as [z Hz]; [|lia]. assert (z = 0) by nia. lia.
Qed.
Lemma size_spec q l : represents q l -> queue_size q = zlen l.
Proof.
  intros H. unfold queue_size. rewrite (rp_end _ _ H). replace (begin_ q + zlen l - begin_ q) with (zlen l) by lia. apply u64_small.
  pose proof (capacity_pos _ _ H). pose proof (rp_room _ _ H). pose proof (zlen_nonneg l). change (2 ^ 64) with 18446744073709551616 in *. lia.
Qed.
Lemma queue_Get_spec q l i x : represents q l -> l !! i = Some x -> Get (begin_ q + Z.of_nat i) q = Ok x.
Proof.
  intros H Hi. unfold Get. rewrite (slot_spec _ _ _ H), (rp_slots _ _ H); [by rewrite Hi|]. apply lookup_lt_Some in Hi. pose proof (rp_room _ _ H). unfold zlen in *. lia.
Qed.
Lemma read_from_spec q l : represents q l -> forall n i, (i + n <= length l)%nat -> read_from n (begin_ q + Z.of_nat i) q = Ok (take n (drop i l)).
Proof.
  intros H. induction n as [|n IH]; intros i Hn; [done|]. cbn [read_from]. destruct (lookup_lt_is_Some_2 l i) as [x Hx]; [lia|].
  rewrite (queue_Get_spec _ _ _ _ H Hx). cbn [obind]. rewrite (u64_pos q l) by (done || (rewrite (rp_end _ _ H); unfold zlen; lia)).
  replace (begin_ q + Z.of_nat i + 1) with (begin_ q + Z.of_nat (S i)) by lia. rewrite IH by lia. cbn [obind]. by rewrite (drop_S _ _ _ Hx).
Qed.
Lemma elements_spec q l : represents q l -> elements q = Ok l.
Proof.
  intros H. unfold elements. rewrite (rp_end _ _ H). replace (begin_ q + zlen l - begin_ q) with (zlen l) by lia. unfold zlen. rewrite Nat2Z.id.
  pose proof (read_from_spec q l H (length l) 0 ltac:(lia)) as E. rewrite Z.add_0_r in E. rewrite E. by rewrite drop_0, take_ge by lia.
Qed.
(** A store to the [i]-th slot counted from the first element. *)
Lemma set_slot_spec q l (i : nat) v : represents q l -> Z.of_nat i < capacity_ q ->
  exists es, set_slot (begin_ q + Z.of_nat i) v q = Ok (mkQueue es (capacity_ q) (begin_ q) (end_ q)) /\ zlen es = capacity_ q /\
    forall j : nat, Z.of_nat j < capacity_ q -> es !! Z.to_nat ((begin_ q + Z.of_nat j) `mod` capacity_ q) = Some (if decide (j = i) then v else l !! j).
Proof.
  intros H Hi. pose proof (capacity_pos _ _ H) as [Hc _]. pose proof (rp_length _ _ H) as Hl. unfold set_slot. rewrite (slot_spec _ _ _ H).
  pose proof (Z.mod_pos_bound (begin_ q + Z.of_nat i) (capacity_ q) Hc) as Hm. replace (_ <? zlen _) with true by (symmetry; lia). cbn [perfetto_check obind].
  eexists. split; [done|]. split; [unfold zlen in *; by rewrite length_insert|]. intros j Hj. case_decide as E.
  - subst j. apply list_lookup_insert_eq. unfold zlen in Hl. lia.
  - rewrite list_lookup_insert_ne; [by apply (rp_slots _ _ H)|]. intros E'. apply E. apply Z2Nat.inj in E'; [|lia|apply Z.mod_pos_bound; lia].
    apply Nat2Z.inj. symmetry. apply (mod_inj (capacity_ q) (begin_ q)); lia.
Qed.
Lemma take_insert_next (l : list T) i x : (i < length l)%nat -> take (S i) (<[i := x]> l) = take i l ++ [x].
Proof.
  intros Hi. rewrite insert_take_drop by done. change (x :: drop (S i) l) with ([x] ++ drop (S i) l). rewrite app_assoc.
  rewrite <- (take_app_length (take i l ++ [x]) (drop (S i) l)) at 2. f_equal. rewrite length_app, length_take. cbn. lia.
Qed.
Lemma write_from_spec l2 : forall q l i, represents q l -> (i + length l2 <= length l)%nat ->
  exists q', write_from (begin_ q + Z.of_nat i) l2 q = Ok q' /\ represents q' (take i l ++ l2 ++ drop (i + length l2) l) /\ capacity_ q' = capacity_ q /\ end_ q' = end_ q.
Proof.
  induction l2 as [|x l2 IH]; intros q l i H Hn.
  - exists q. split; [done|]. cbn [length app]. by rewrite Nat.add_0_r, take_drop.
  - cbn [length] in Hn. pose proof (rp_room _ _ H) as Hroom. unfold zlen in Hroom. destruct (set_slot_spec q l i (Some x) H) as (es & E & Hes & Hs); [lia|]. cbn [write_from]. rewrite E. cbn [obind].
    assert (H1 : represents (mkQueue es (capacity_ q) (begin_ q) (end_ q)) (<[i := x]> l)).
    { destruct H. split; try done; cbn [entries_ capacity_ begin_ end_]; [by unfold zlen in *; rewrite length_insert..|].
      intros j Hj. rewrite (Hs j Hj). case_decide as Ej; [subst j; by rewrite list_lookup_insert_eq by lia|by rewrite list_lookup_insert_ne]. }
    rewrite (u64_pos q l) by (done || (rewrite (rp_end _ _ H); unfold zlen; lia)). replace (begin_ q + Z.of_nat i + 1) with (begin_ q + Z.of_nat (S i)) by lia.
    destruct (IH _ _ (S i) H1) as (q' & E' & H' & Hc & He); [rewrite length_insert; lia|]. exists q'. split; [exact E'|]. split; [|done].
    rewrite take_insert_next, drop_insert_lt, <- app_assoc in H' by lia. by replace (i + length (x :: l2))%nat with (S i + length l2)%nat by (cbn; lia).
Qed.

Lemma Grow_spec q l n : represents q l \/ q = mkQueue [] 0 0 0 /\ l = [] -> (exists k, 0 <= k <= 63 /\ n = 2 ^ k) -> capacity_ q < n ->
  exists q', Grow n q = Ok q' /\ represents q' l /\ capacity_ q' = n /\ begin_ q' = 0.
Proof.
  intros Hq (k & Hk & Hn) Hlt. assert (Hp : 0 < n < 2 ^ 64) by (subst n; split; [apply pow2_pos; lia|apply Z.pow_lt_mono_r; lia]).
  assert (Hread : read_from (Z.to_nat (end_ q - begin_ q)) (begin_ q) q = Ok l /\ zlen l < n).
  { destruct Hq as [H|[-> ->]]; [|split; [done|rewrite zlen_nil; lia]]. split; [by apply elements_spec|pose proof (rp_room _ _ H); lia]. }
  destruct Hread as [Hread Hl]. unfold Grow. replace (n =? 0) with false by lia. rewrite u64_small by (change (2 ^ 64) with 18446744073709551616 in *; lia).
  replace (n .& (n - 1)) with 0 by (subst n; rewrite land_ones_mod by lia; symmetry; apply Z.mod_same; lia). cbn [perfetto_check obind Z.eqb].
  replace (capacity_ q <? n) with true by lia. cbn [perfetto_check obind]. rewrite Hread. cbn [obind]. replace (zlen l <=? n) with true by lia. cbn [perfetto_check obind].
  pose proof (zlen_nonneg l). eexists. split; [done|]. split; [|done]. split; cbn [capacity_ entries_ begin_ end_]; try lia.
  - by exists k.
  - unfold zlen in *. rewrite length_app, length_map, length_replicate. lia.
  - intros i Hi. rewrite Z.mod_small by lia. replace (Z.to_nat (0 + Z.of_nat i)) with i by lia. destruct (decide (i < length l)%nat) as [Hil|Hil].
    + rewrite lookup_app_l by (by rewrite length_map). rewrite list_lookup_fmap. destruct (lookup_lt_is_Some_2 l i Hil) as [x ->]. done.
    + rewrite lookup_app_r, length_map by (rewrite length_map; lia). rewrite lookup_replicate_2 by (unfold zlen in *; lia). by rewrite (lookup_ge_None_2 l i) by lia.
Qed.
Lemma CircularQueue_new_spec k : 0 <= k <= 63 -> exists q, CircularQueue_new (2 ^ k) = Ok q /\ represents q [] /\ capacity_ q = 2 ^ k /\ begin_ q = 0.
Proof.
  intros Hk. apply Grow_spec; [by right|by exists k|cbn]. apply pow2_pos. lia.
Qed.
Lemma emplace_back_spec q l x : represents q l -> end_ q + 1 < 2 ^ 64 -> zlen l < 2 ^ 63 ->
  exists q', emplace_back x q = Ok q' /\ represents q' (l ++ [x]) /\ end_ q' <= end_ q + 1 /\ begin_ q' <= begin_ q.
Proof.
  intros H Hend Hmax. unfold emplace_back. rewrite (size_spec _ _ H).
  assert (Hq1 : exists q1, (if capacity_ q <=? zlen l then Grow 0 q else Ok q) = Ok q1 /\ represents q1 l /\ zlen l < capacity_ q1 /\ begin_ q1 <= begin_ q).
  { pose proof (rp_room _ _ H). destruct (Z.leb_spec (capacity_ q) (zlen l)) as [Hle|Hlt]; [|by exists q; split; [|split; [|split]]].
    destruct (rp_capacity _ _ H) as (k & Hk & Hc). assert (Hk' : k < 63) by (destruct (Z.eq_dec k 63) as [->|]; [lia|lia]).
    assert (E2 : capacity_ q * 2 = 2 ^ (k + 1)) by (rewrite Hc, Z.pow_add_r by lia; lia). pose proof (capacity_pos _ _ H) as Hcap.
    assert (Hs : u64 (capacity_ q * 2) = 2 ^ (k + 1)) by (rewrite E2; apply u64_small; change 18446744073709551616 with (2 ^ 64); split; [apply Z.pow_nonneg; lia|apply Z.pow_lt_mono_r; lia]).
    destruct (Grow_spec q l (2 ^ (k + 1))) as (q1 & E1 & Hq1 & Hc1 & Hb1); [by left|exists (k + 1); lia|lia|]. exists q1.
    unfold Grow in *. cbn [Z.eqb]. rewrite Hs. replace (2 ^ (k + 1) =? 0) with false in E1 by lia. split; [exact E1|]. split; [done|]. pose proof (rp_begin _ _ H). lia. }
  destruct Hq1 as (q1 & -> & H1 & Hroom & Hb). cbn [obind]. rewrite (rp_end _ _ H1). destruct (set_slot_spec q1 l (length l) (Some x) H1 Hroom) as (es & E & Hes & Hs).
  unfold zlen. rewrite E. cbn [obind entries_ capacity_ begin_ end_]. pose proof (rp_end _ _ H1) as He1. pose proof (rp_end _ _ H) as He. pose proof (rp_begin _ _ H1).
  assert (Hw : u64 (end_ q1 + 1) = end_ q1 + 1) by (apply u64_small; change (2 ^ 64) with 18446744073709551616 in *; pose proof (zlen_nonneg l); lia).
  eexists. split; [done|]. rewrite Hw. cbn [end_ begin_]. split; [|lia]. destruct H1. split; try done; cbn [entries_ capacity_ begin_ end_]; rewrite ?zlen_app, ?zlen_cons, ?zlen_nil; try lia.
  intros j Hj. rewrite (Hs j Hj). case_decide as Ej; [subst j; by rewrite lookup_app_r, Nat.sub_diag by lia|]. f_equal.
  destruct (decide (j < length l)%nat); [by rewrite lookup_app_l|]. rewrite (lookup_ge_None_2 l) by lia. by rewrite lookup_ge_None_2 by (rewrite length_app; cbn; lia).
Qed.
Lemma erase_loop_spec n : forall q l, represents q l -> exists q', erase_loop n q = Ok q' /\ represents q' (drop n l) /\ end_ q' = end_ q /\ capacity_ q' = capacity_ q.
Proof.
  induction n as [|n IH]; intros q l H; [by exists q|]. cbn [erase_loop]. rewrite (rp_end _ _ H). destruct l as [|x l].
  - rewrite zlen_nil. replace (begin_ q <? begin_ q + 0) with false by lia. exists q. cbn [drop]. rewrite (rp_end _ _ H). by rewrite zlen_nil.
  - rewrite zlen_cons. pose proof (zlen_nonneg l). replace (begin_ q <? _) with true by lia. pose proof (rp_room _ _ H) as Hroom. rewrite zlen_cons in Hroom.
    pose proof (queue_Get_spec q (x :: l) 0 x H eq_refl) as G. rewrite Z.add_0_r in G. rewrite G. cbn [obind].
    destruct (set_slot_spec q (x :: l) 0 None H) as (es & E & Hes & Hs); [lia|]. rewrite Z.add_0_r in E. rewrite E. cbn [obind entries_ capacity_ begin_ end_].
    pose proof (rp_end _ _ H) as He. rewrite zlen_cons in He. rewrite (u64_pos q (x :: l)) by (done || lia).
    destruct (IH (mkQueue es (capacity_ q) (begin_ q + 1) (end_ q)) l) as (q' & E' & H' & He' & Hc'); [|exists q'; cbn [drop end_ capacity_] in *; by rewrite <- zlen_cons with (x := x), <- (rp_end _ _ H)].
    destruct (capacity_pos _ _ H) as [Hcap _]. destruct H. split; try done; cbn [entries_ capacity_ begin_ end_]; try lia.
    intros j Hj. replace (begin_ q + 1 + Z.of_nat j) with (begin_ q + Z.of_nat (S j)) by lia. destruct (decide (Z.of_nat (S j) < capacity_ q)) as [Hj'|Hj']; [by rewrite Hs by done|].
    replace (begin_ q + Z.of_nat (S j)) with (begin_ q + Z.of_nat 0 + 1 * capacity_ q) by lia. rewrite Z.mod_add by lia. rewrite Hs by lia. rewrite decide_True by done.
    by rewrite lookup_ge_None_2 by (unfold zlen in *; lia).
Qed.
Lemma erase_front_spec q l n : represents q l -> exists q', erase_front n q = Ok q' /\ represents q' (zdrop n l) /\ end_ q' = end_ q.
Proof. intros H. destruct (erase_loop_spec (Z.to_nat n) q l H) as (q' & E & H' & He & _). by exists q'. Qed.
Lemma sort_range_spec lt q l (i j : nat) : represents q l -> (i <= j <= length l)%nat ->
  exists q', sort_range lt (begin_ q + Z.of_nat i) (begin_ q + Z.of_nat j) q = Ok q' /\ represents q' (take i l ++ std_sort lt (take (j - i) (drop i l)) ++ drop j l) /\ end_ q' = end_ q.
Proof.
  intros H Hij. unfold sort_range. replace (Z.to_nat _) with (j - i)%nat by lia. rewrite (read_from_spec q l H) by lia. cbn [obind].
  assert (Hlen : length (std_sort lt (take (j - i) (drop i l))) = (j - i)%nat) by (unfold std_sort; rewrite merge_sort_Permutation, length_take, length_drop; lia).
  destruct (write_from_spec (std_sort lt (take (j - i) (drop i l))) q l i H) as (q' & E & H' & _ & He); [lia|]. rewrite Hlen in H'. exists q'. replace (i + (j - i))%nat with j in H' by lia. done.
Qed.
Lemma at_spec q l (i : nat) x : represents q l -> l !! i = Some x -> at_ (Z.of_nat i) q = Ok x.
Proof.
  intros H Hi. unfold at_. rewrite (u64_pos q l); [by apply (queue_Get_spec q l)|done|]. rewrite (rp_end _ _ H). apply lookup_lt_Some in Hi. unfold zlen. lia.
Qed.
Lemma back_spec q l x : represents q l -> end_ q < 2 ^ 63 -> last l = Some x -> back q = Ok x.
Proof.
  intros H Hw Hl. unfold back, Iterator_Add. apply last_Some in Hl as [l' ->]. pose proof (rp_end _ _ H) as He. rewrite zlen_app, zlen_cons, zlen_nil in He. pose proof (zlen_nonneg l'). pose proof (rp_begin _ _ H).
  assert (E : s64 (end_ q) = end_ q).
  { unfold s64, sw. assert (Eu : uw 64 (end_ q) = end_ q) by (apply uw_small; split; [lia|]; etransitivity; [exact Hw|apply Z.pow_lt_mono_r; lia]). rewrite Eu. by replace (end_ q <? 2 ^ (64 - 1)) with true by (symmetry; apply Z.ltb_lt; exact Hw). }
  rewrite E, (u64_pos q (l' ++ [x])) by (done || lia). replace (end_ q + -1) with (begin_ q + Z.of_nat (length l')) by (unfold zlen in *; lia). apply (queue_Get_spec q (l' ++ [x])); [done|]. by rewrite lookup_app_r, Nat.sub_diag.
Qed.
Lemma run_op_spec lt o q l l' k : represents q l -> end_ q + 1 < 2 ^ 63 -> list_op lt o l = Some (l', k) ->
  exists q', run_queue_op lt o q = Ok (q', k) /\ represents q' l' /\ end_ q' <= end_ q + 1.
Proof.
  intros H Hend Hop. assert (Hw : 2 ^ 63 < 2 ^ 64) by (apply Z.pow_lt_mono_r; lia). pose proof (rp_end _ _ H) as He. pose proof (rp_begin _ _ H) as Hb.
  destruct o as [x|n| | |idx| | | |i j|]; cbn [list_op run_queue_op] in *.
  - injection Hop as <- <-. destruct (emplace_back_spec q l x H) as (q' & -> & H' & He' & _); [lia..|]. by exists q'.
  - injection Hop as <- <-. destruct (erase_front_spec q l n H) as (q' & -> & H' & He'). exists q'. split; [done|]. split; [done|lia].
  - injection Hop as <- <-. unfold pop_front. destruct (erase_front_spec q l 1 H) as (q' & -> & H' & He'). exists q'. split; [done|]. split; [by destruct l|lia].
  - injection Hop as <- <-. unfold clear. rewrite (size_spec _ _ H). destruct (erase_front_spec q l (zlen l) H) as (q' & -> & H' & He'). exists q'. split; [done|]. split; [|lia].
    unfold zdrop, zlen in H'. by rewrite drop_ge in H' by lia.
  - destruct (l !! idx) as [x|] eqn:E; [|done]. injection Hop as <- <-. rewrite (at_spec q l idx x H E). exists q. split; [done|]. split; [done|lia].
  - destruct l as [|x l]; [done|]. injection Hop as <- <-. unfold front. pose proof (queue_Get_spec q (x :: l) 0 x H eq_refl) as G. rewrite Z.add_0_r in G. rewrite G. exists q. split; [done|]. split; [done|lia].
  - destruct (last l) as [x|] eqn:E; [|done]. injection Hop as <- <-. rewrite (back_spec q l x H) by (done || lia). exists q. split; [done|]. split; [done|lia].
  - injection Hop as <- <-. rewrite (elements_spec q l H). exists q. split; [done|]. split; [done|lia].
  - case_decide as Hij; [|done]. injection Hop as <- <-. destruct (sort_range_spec lt q l i j H Hij) as (q' & -> & H' & He'). exists q'. split; [done|]. split; [done|lia].
  - injection Hop as <- <-. unfold CircularQueue_move. destruct (CircularQueue_new_spec 10) as (q0 & E & _); [lia|]. change (2 ^ 10) with 1024 in E. rewrite E. exists q. split; [done|]. split; [done|lia].
Qed.

(** C35. CircularQueue is a first-in first-out sequence: whatever its initial capacity (a
    power of two), and however the positions wrap around the buffer and the buffer grows, any
    sequence of pushes, removals, accesses, iterations, sorts and moves gives what it gives on
    a list.  Only live objects are read, moved or destroyed, and the slots that hold no element
    hold no object. *)
Theorem circular_queue_refines_list lt ops l obs k : 0 <= k <= 63 -> zlen ops < 2 ^ 62 -> list_ops lt ops [] = Some (l, obs) ->
  exists q0 q, CircularQueue_new (2 ^ k) = Ok q0 /\ run_queue_ops lt ops q0 = Ok (q, obs) /\ represents q l /\ queue_size q = zlen l /\ elements q = Ok l.
Proof.
  intros Hk Hlen Hops. destruct (CircularQueue_new_spec k Hk) as (q0 & E0 & H0 & _ & Hb). assert (Hend : end_ q0 <= 0) by (rewrite (rp_end _ _ H0), Hb; done).
  assert (Hgen : forall ops q l0 l obs n, represents q l0 -> end_ q <= n -> n + zlen ops < 2 ^ 62 -> list_ops lt ops l0 = Some (l, obs) -> exists q', run_queue_ops lt ops q = Ok (q', obs) /\ represents q' l).
  { clear. assert (Hw : 2 ^ 62 < 2 ^ 63) by (apply Z.pow_lt_mono_r; lia). induction ops as [|o ops IH]; intros q l0 l obs n H He Hn Hops; cbn [list_ops run_queue_ops] in *.
    - injection Hops as <- <-. by exists q.
    - rewrite zlen_cons in Hn. pose proof (zlen_nonneg ops). destruct (list_op lt o l0) as [[l1 k1]|] eqn:E1; [|done]. cbn [mbind option_bind] in Hops.
      destruct (list_ops lt ops l1) as [[l2 k2]|] eqn:E2; [|done]. injection Hops as <- <-. destruct (run_op_spec lt o q l0 l1 k1 H) as (q1 & -> & H1 & He1); [lia|done|]. cbn [obind].
      destruct (IH q1 l1 l2 k2 (n + 1) H1) as (q' & -> & H'); [lia..|done|]. by exists q'. }
  destruct (Hgen ops q0 [] l obs 0 H0) as (q & E & H); [lia..|done|]. exists q0, q. split; [done|]. split; [done|]. split; [done|]. split; [by apply size_spec|by apply elements_spec].
Qed.
End queue.

Definition demo_queue_ops : list queue_op := [EmplaceBack 5; EmplaceBack 3; PopFront; EmplaceBack 9; EmplaceBack 1; EmplaceBack 2; SortRange 0 3; At 1; Back; MoveAway; EraseFront 2; Iterate].
Lemma circular_queue_refines_list_witness : exists q0 q, CircularQueue_new 2 = Ok q0 /\ run_queue_ops Z.ltb demo_queue_ops q0 = Ok (q, [3; 2; 9; 2]) /\ queue_size q = 2.
Proof.
  destruct (circular_queue_refines_list Z.ltb demo_queue_ops [9; 2] [3; 2; 9; 2] 1) as (q0 & q & E0 & E & _ & Hs & _); [lia|done|by vm_compute|].
  exists q0, q. split; [exact E0|]. split; [exact E|exact Hs].
Defined.
