(* ===== verification/TraceSorterQueue.v ===== *)
(** * The storage of the events that wait to be sorted
    (src/trace_processor/trace_sorter_queue.h, timestamped_trace_piece.h)

    Values of several types are appended to blocks of memory and evicted in any order; a
    32-bit offset into the concatenation of all blocks there ever were names a value.  The
    leading blocks all of whose values are gone are freed. *)

From S2P Require Import Prelude.

(** ** Types *)

(** TimestampedTracePiece::Type. *)
Inductive Type_ := kFtraceEvent | kTracePacket | kInlineSchedSwitch | kInlineSchedWaking | kJsonValue | kFuchsiaRecord | kTrackEvent | kSystraceLine | kInvalid.
#[export] Instance Type_eq_dec : EqDecision Type_.
Proof. solve_decision. Defined.

Definition kDefaultSize : Z := 1 * 1024 * 1024.

Section storage.
(** What the values are is of no concern here; a type has the size the compiler gives it. *)
Context {D : Type} (sizeof_T : Type_ -> Z).

(** A block is raw memory: storage_ has the objects that live in it, by offset. *)
Record Block := mkBlock { size_ : Z; offset_ : Z; num_elements_ : Z; num_elements_evicted_ : Z; storage_ : gmap Z (Type_ * D) }.
Definition Block_new (block_size : Z) : Block := mkBlock block_size 0 0 0 ∅.
Definition HasSpace (T : Type_) (b : Block) : bool := sizeof_T T <=? u32 (size_ b - offset_ b).
Definition block_empty (b : Block) : bool := num_elements_ b =? num_elements_evicted_ b.
(** The storage is an array of size_ / 8 words; a value that does not fit is a Crash. *)
Definition Block_Append (T : Type_) (value : D) (b : Block) : outcome (Z * Block) :=
  let cur_offset := offset_ b in
  check! cur_offset + sizeof_T T <=? size_ b `div` 8 * 8 in
  Ok (cur_offset, mkBlock (size_ b) (u32 (AlignUp 8 (u32 (cur_offset + sizeof_T T)))) (u32 (num_elements_ b + 1)) (num_elements_evicted_ b) (<[cur_offset := (T, value)]> (storage_ b))).
(** Only an object of the type asked for can be taken out. *)
Definition Block_Evict (T : Type_) (offset : Z) (b : Block) : outcome (D * Block) :=
  match storage_ b !! offset with
  | Some (T', value) =>
      check! bool_decide (T' = T) in
      Ok (value, mkBlock (size_ b) (offset_ b) (num_elements_ b) (u32 (num_elements_evicted_ b + 1)) (delete offset (storage_ b)))
  | None => Crash
  end.

Record VariadicQueue := mkVariadic { mem_blocks_ : list Block; block_size_ : Z; deleted_blocks_ : Z }.
Definition VariadicQueue_new (block_size : Z) : VariadicQueue := mkVariadic [Block_new block_size] block_size 0.
Definition GlobalMemOffsetFromLastBlockOffset (block_offset : Z) (q : VariadicQueue) : Z :=
  u32 (u32 (deleted_blocks_ q + u32 (zlen (mem_blocks_ q)) - 1) * block_size_ q + block_offset).
Definition VariadicQueue_Append (T : Type_) (value : D) (q : VariadicQueue) : outcome (Z * VariadicQueue) :=
  match last (mem_blocks_ q) with
  | None => Crash
  | Some back =>
      let blocks := if negb (HasSpace T back) then mem_blocks_ q ++ [Block_new (block_size_ q)] else mem_blocks_ q in
      match last blocks with
      | None => Crash
      | Some back_block =>
          let! (cur_offset, back_block) := Block_Append T value back_block in
          let q := mkVariadic (<[(length blocks - 1)%nat := back_block]> blocks) (block_size_ q) (deleted_blocks_ q) in
          Ok (GlobalMemOffsetFromLastBlockOffset cur_offset q, q)
      end
  end.
Definition VariadicQueue_Evict (T : Type_) (global_offset : Z) (q : VariadicQueue) : outcome (D * VariadicQueue) :=
  let block := u32 (global_offset `div` block_size_ q - deleted_blocks_ q) in
  let block_offset := global_offset `mod` block_size_ q in
  match mem_blocks_ q !! Z.to_nat block with
  | Some b => let! (value, b) := Block_Evict T block_offset b in Ok (value, mkVariadic (<[Z.to_nat block := b]> (mem_blocks_ q)) (block_size_ q) (deleted_blocks_ q))
  | None => Crash
  end.
Fixpoint free_blocks (blocks : list Block) (deleted : Z) : list Block * Z :=
  match blocks with
  | front :: (_ :: _) as rest => if block_empty front then free_blocks rest (u32 (deleted + 1)) else (blocks, deleted)
  | _ => (blocks, deleted)
  end.
Definition FreeMemory (q : VariadicQueue) : VariadicQueue :=
  let '(blocks, deleted) := free_blocks (mem_blocks_ q) (deleted_blocks_ q) in mkVariadic blocks (block_size_ q) deleted.
Definition NextOffset (q : VariadicQueue) : outcome Z :=
  match last (mem_blocks_ q) with Some b => Ok (GlobalMemOffsetFromLastBlockOffset (offset_ b) q) | None => Crash end.
(** The destructor checks that every value was evicted. *)
Definition VariadicQueue_delete (q : VariadicQueue) : outcome unit :=
  let q := FreeMemory q in
  check! zlen (mem_blocks_ q) =? 1 in
  match last (mem_blocks_ q) with Some b => perfetto_check (block_empty b) | None => Crash end.

(** ** What the queue stands for *)

#[local] Abbreviation Heap := (gmap Z (Type_ * D)).

Record block_ok (bs : Z) (b : Block) : Prop := {
  bk_size : size_ b = bs;
  bk_offset : 0 <= offset_ b <= bs /\ offset_ b `mod` 8 = 0;
  bk_keys : forall o v, storage_ b !! o = Some v -> 0 <= o < offset_ b;
  bk_counts : num_elements_ b = num_elements_evicted_ b + Z.of_nat (size (storage_ b)) /\ 0 <= num_elements_evicted_ b /\ 8 * num_elements_ b <= offset_ b
}.
(** The value with global offset [g], counted in blocks of [bs] bytes from block [d]. *)
Definition value_at (bs d : Z) (blocks : list Block) (g : Z) : option (Type_ * D) :=
  if decide (d * bs <= g) then b ← blocks !! Z.to_nat (g `div` bs - d); storage_ b !! (g `mod` bs) else None.
Record stores (q : VariadicQueue) (m : Heap) (next : Z) : Prop := {
  st_size : 0 < block_size_ q < 2 ^ 32 /\ block_size_ q `mod` 8 = 0;
  st_deleted : 0 <= deleted_blocks_ q;
  st_word : (deleted_blocks_ q + zlen (mem_blocks_ q)) * block_size_ q <= 2 ^ 32;
  st_blocks : Forall (block_ok (block_size_ q)) (mem_blocks_ q);
  st_next : exists init b, mem_blocks_ q = init ++ [b] /\ next = (deleted_blocks_ q + zlen init) * block_size_ q + offset_ b;
  st_values : forall g, m !! g = value_at (block_size_ q) (deleted_blocks_ q) (mem_blocks_ q) g
}.

(** ** Blocks *)

Lemma align8 x : AlignUp 8 x = (x + 7) `div` 8 * 8.
Proof. change 8 with (2 ^ 3) at 1. rewrite AlignUp_spec by lia. f_equal. f_equal. lia. Qed.
Lemma align8_bounds x : x <= AlignUp 8 x <= x + 7.
Proof. rewrite align8. pose proof (Z.div_mod (x + 7) 8). pose proof (Z.mod_pos_bound (x + 7) 8). lia. Qed.
Lemma block_new_ok bs : 0 < bs -> block_ok bs (Block_new bs).
Proof. intros H. split; [done|by split; [cbn; lia|]|intros o v Ho; cbn in Ho; by rewrite lookup_empty in Ho|done]. Qed.
Lemma block_empty_iff bs b : block_ok bs b -> block_empty b = true <-> storage_ b = ∅.
Proof.
  intros H. destruct (bk_counts _ _ H) as [Hc _]. unfold block_empty. rewrite Z.eqb_eq. rewrite <- map_size_empty_iff. lia.
Qed.
Lemma Block_Append_spec bs b T v : block_ok bs b -> 0 < bs < 2 ^ 32 -> bs `mod` 8 = 0 -> 0 < sizeof_T T -> HasSpace T b = true ->
  exists b', Block_Append T v b = Ok (offset_ b, b') /\ block_ok bs b' /\ storage_ b' = <[offset_ b := (T, v)]> (storage_ b) /\ offset_ b < bs /\ offset_ b < offset_ b' <= offset_ b + AlignUp 8 (sizeof_T T).
Proof.
  intros [B1 [B2 B2'] B3 (B4 & B5 & B6)] Hbs H8 Hs Hsp. change (2 ^ 32) with 4294967296 in Hbs. unfold HasSpace in Hsp. rewrite u32_small in Hsp by lia. apply Z.leb_le in Hsp. rewrite B1 in Hsp.
  assert (Hdiv : bs `div` 8 * 8 = bs) by (pose proof (Z.div_mod bs 8); lia). unfold Block_Append. rewrite B1, Hdiv.
  replace (offset_ b + sizeof_T T <=? bs) with true by lia. cbn [perfetto_check obind]. rewrite (u32_small (offset_ b + sizeof_T T)) by lia.
  assert (Ha : AlignUp 8 (offset_ b + sizeof_T T) = offset_ b + AlignUp 8 (sizeof_T T)).
  { rewrite !align8. replace (offset_ b + sizeof_T T + 7) with (sizeof_T T + 7 + offset_ b `div` 8 * 8) by (pose proof (Z.div_mod (offset_ b) 8); lia). rewrite Z.div_add by lia. pose proof (Z.div_mod (offset_ b) 8). lia. }
  assert (Hpos : sizeof_T T <= AlignUp 8 (sizeof_T T) /\ AlignUp 8 (sizeof_T T) `mod` 8 = 0).
  { rewrite align8. split; [pose proof (Z.div_mod (sizeof_T T + 7) 8); pose proof (Z.mod_pos_bound (sizeof_T T + 7) 8); lia|by apply Z.mod_mul]. }
  assert (Hle : offset_ b + AlignUp 8 (sizeof_T T) <= bs).
  { rewrite <- Ha, align8, <- Hdiv. apply Z.mul_le_mono_nonneg_r; [lia|]. apply Z.lt_succ_r. apply Z.div_lt_upper_bound; lia. }
  rewrite Ha. assert (Hge : 8 <= AlignUp 8 (sizeof_T T)) by (pose proof (Z.div_mod (AlignUp 8 (sizeof_T T)) 8); lia). rewrite (u32_small (offset_ b + _)), u32_small by lia.
  eexists. split; [done|]. split; [|split; [done|]; cbn; lia].
  assert (Hfresh : storage_ b !! offset_ b = None) by (destruct (storage_ b !! offset_ b) as [w|] eqn:E; [apply B3 in E; lia|done]).
  split; cbn; [done| | |].
  - split; [lia|]. rewrite Z.add_mod, B2', (proj2 Hpos) by lia. done.
  - intros o w Ho. apply lookup_insert_Some in Ho as [[<- _]|[_ Ho]]; [lia|]. apply B3 in Ho. lia.
  - rewrite map_size_insert_None by done. lia.
Qed.
Lemma Block_Evict_spec bs b T v o : block_ok bs b -> 0 < bs < 2 ^ 32 -> storage_ b !! o = Some (T, v) ->
  exists b', Block_Evict T o b = Ok (v, b') /\ block_ok bs b' /\ storage_ b' = delete o (storage_ b) /\ offset_ b' = offset_ b.
Proof.
  intros [B1 [B2 B2'] B3 (B4 & B5 & B6)] Hbs Ho. change (2 ^ 32) with 4294967296 in Hbs. unfold Block_Evict. rewrite Ho, bool_decide_eq_true_2 by done. cbn [perfetto_check obind].
  assert (Hsz : size (storage_ b) = S (size (delete o (storage_ b)))) by (rewrite map_size_delete_Some by done; assert (size (storage_ b) <> 0%nat) by (intros E%map_size_empty_iff; rewrite E in Ho; by rewrite lookup_empty in Ho); lia).
  rewrite u32_small by lia. eexists. split; [done|]. split; [|done]. split; cbn; [done|done| |].
  - intros o' w Ho'. apply lookup_delete_Some in Ho' as [_ Ho']. by apply (B3 _ _ Ho').
  - lia.
Qed.

(** ** Global offsets *)

Lemma value_at_global bs d blocks (j : nat) o : 0 < bs -> 0 <= d -> 0 <= o < bs ->
  value_at bs d blocks ((d + Z.of_nat j) * bs + o) = b ← blocks !! j; storage_ b !! o.
Proof.
  intros Hbs Hd Ho. unfold value_at. rewrite decide_True by nia. rewrite Z.div_add_l, (Z.div_small o) by lia. rewrite Z.add_comm, Z.mod_add, Z.mod_small by lia.
  by replace (Z.to_nat (d + Z.of_nat j + 0 - d)) with j by lia.
Qed.
Lemma global_offset bs d g : 0 < bs -> d * bs <= g -> exists (j : nat) o, g = (d + Z.of_nat j) * bs + o /\ 0 <= o < bs.
Proof.
  intros Hbs Hg. exists (Z.to_nat (g `div` bs - d)), (g `mod` bs). assert (d <= g `div` bs) by (apply Z.div_le_lower_bound; lia).
  rewrite Z2Nat.id by lia. pose proof (Z.div_mod g bs). split; [lia|apply Z.mod_pos_bound; lia].
Qed.
(** Only block [j] changes, by [f]. *)
Lemma value_at_insert bs d blocks (j : nat) b b' g : 0 < bs -> 0 <= d -> blocks !! j = Some b ->
  value_at bs d (<[j := b']> blocks) g = if decide (d * bs <= g /\ g `div` bs = d + Z.of_nat j) then storage_ b' !! (g `mod` bs) else value_at bs d blocks g.
Proof.
  intros Hbs Hd Hj. destruct (decide (d * bs <= g)) as [Hg|Hg]; [|unfold value_at; rewrite decide_False by done; by rewrite !decide_False by tauto].
  destruct (global_offset bs d g Hbs Hg) as (i & o & -> & Ho). rewrite !value_at_global by done. rewrite Z.div_add_l, (Z.div_small o) by lia. rewrite (Z.add_comm (_ * bs) o), Z.mod_add, Z.mod_small by lia.
  case_decide as E.
  - replace i with j by lia. rewrite list_lookup_insert_eq by (by eapply lookup_lt_Some). done.
  - rewrite list_lookup_insert_ne; [done|]. intros ->. apply E. lia.
Qed.
Lemma value_at_new_block bs d blocks g : 0 < bs -> 0 <= d -> value_at bs d (blocks ++ [Block_new bs]) g = value_at bs d blocks g.
Proof.
  intros Hbs Hd. destruct (decide (d * bs <= g)) as [Hg|Hg]; [|unfold value_at; by rewrite !decide_False by done].
  destruct (global_offset bs d g Hbs Hg) as (i & o & -> & Ho). rewrite !value_at_global by done. destruct (decide (i < length blocks)%nat); [by rewrite lookup_app_l|].
  rewrite (lookup_ge_None_2 blocks) by lia. rewrite lookup_app_r by lia. destruct (i - length blocks)%nat; [cbn; by rewrite lookup_empty|done].
Qed.
Lemma value_at_free bs d b rest g : 0 < bs -> 0 <= d -> storage_ b = ∅ -> value_at bs d (b :: rest) g = value_at bs (d + 1) rest g.
Proof.
  intros Hbs Hd Hb. destruct (decide (d * bs <= g)) as [Hg|Hg]; [|unfold value_at; rewrite !decide_False by nia; done].
  destruct (global_offset bs d g Hbs Hg) as (i & o & -> & Ho). rewrite value_at_global by done. destruct i as [|i].
  - cbn. rewrite Hb, lookup_empty. unfold value_at. rewrite decide_False by nia. done.
  - replace ((d + Z.of_nat (S i)) * bs + o) with ((d + 1 + Z.of_nat i) * bs + o) by lia. rewrite value_at_global by lia. done.
Qed.

(** ** The queue *)

Lemma stores_new bs : 0 < bs < 2 ^ 32 -> bs `mod` 8 = 0 -> stores (VariadicQueue_new bs) ∅ 0.
Proof.
  intros Hbs H8. split; cbn [VariadicQueue_new mem_blocks_ block_size_ deleted_blocks_]; try done.
  - change (zlen [Block_new bs]) with 1. lia.
  - apply Forall_singleton, block_new_ok. lia.
  - by exists [], (Block_new bs).
  - intros g. rewrite lookup_empty. rewrite <- (app_nil_l [_]), value_at_new_block by lia. unfold value_at. by destruct (decide _).
Qed.
Lemma stores_below q m next g v : stores q m next -> m !! g = Some v -> deleted_blocks_ q * block_size_ q <= g < next.
Proof.
  intros H Hg. rewrite (st_values _ _ _ H) in Hg. destruct (st_size _ _ _ H) as [Hbs _]. pose proof (st_deleted _ _ _ H) as Hd. destruct (decide (deleted_blocks_ q * block_size_ q <= g)) as [Hle|Hle]; [|unfold value_at in Hg; by rewrite decide_False in Hg].
  destruct (global_offset (block_size_ q) (deleted_blocks_ q) g ltac:(lia) Hle) as (j & o & -> & Ho). rewrite value_at_global in Hg by lia. destruct (mem_blocks_ q !! j) as [b|] eqn:Hj; [|done]. cbn in Hg.
  destruct (st_next _ _ _ H) as (init & back & E & ->). pose proof (Forall_lookup_1 _ _ _ _ (st_blocks _ _ _ H) Hj) as Hb. apply (bk_keys _ _ Hb) in Hg. pose proof (bk_offset _ _ Hb) as [Hbo _].
  split; [done|]. pose proof (st_blocks _ _ _ H) as Hall. rewrite E in Hall, Hj. apply Forall_app in Hall as [_ Hback]. rewrite Forall_singleton in Hback. pose proof (bk_offset _ _ Hback) as [Hbb _].
  unfold zlen. apply lookup_snoc_Some in Hj as [[Hj _]|[-> <-]]; [|lia]. assert ((deleted_blocks_ q + Z.of_nat j + 1) * block_size_ q <= (deleted_blocks_ q + Z.of_nat (length init)) * block_size_ q) by (apply Z.mul_le_mono_nonneg_r; lia). lia.
Qed.
Lemma next_in_word q m next : stores q m next -> next <= 2 ^ 32.
Proof.
  intros H. destruct (st_next _ _ _ H) as (init & b & E & ->). pose proof (st_word _ _ _ H) as Hw. pose proof (st_blocks _ _ _ H) as Hall. rewrite E in Hall. apply Forall_app in Hall as [_ Hb]. rewrite Forall_singleton in Hb.
  pose proof (bk_offset _ _ Hb) as [Hbo _]. rewrite E, zlen_app, zlen_cons, zlen_nil in Hw. lia.
Qed.
Lemma global_offset_spec q m next o : stores q m next -> 0 <= o < block_size_ q \/ o = block_size_ q /\ (deleted_blocks_ q + zlen (mem_blocks_ q)) * block_size_ q < 2 ^ 32 ->
  GlobalMemOffsetFromLastBlockOffset o q = (deleted_blocks_ q + zlen (mem_blocks_ q) - 1) * block_size_ q + o.
Proof.
  intros H Ho. destruct (st_size _ _ _ H) as [Hbs _]. pose proof (st_word _ _ _ H) as Hw. pose proof (st_deleted _ _ _ H) as Hd. change (2 ^ 32) with 4294967296 in *.
  destruct (st_next _ _ _ H) as (init & b & E & _). assert (Hlen : 1 <= zlen (mem_blocks_ q)) by (rewrite E, zlen_app, zlen_cons, zlen_nil; pose proof (zlen_nonneg init); lia).
  unfold GlobalMemOffsetFromLastBlockOffset. assert (deleted_blocks_ q + zlen (mem_blocks_ q) <= 4294967296) by nia.
  destruct (Z.eq_dec (deleted_blocks_ q + zlen (mem_blocks_ q)) 4294967296) as [E1|E1].
  - assert (block_size_ q = 1) by nia. destruct (st_size _ _ _ H) as [_ H8]. rewrite H1 in H8. done.
  - rewrite (u32_small (zlen _)), (u32_small (_ - 1)) by lia. apply u32_small. nia.
Qed.
(** A value goes to block [b], the last one. *)
Lemma Append_fits q m next T v init b : stores q m next -> 0 < sizeof_T T -> mem_blocks_ q = init ++ [b] -> HasSpace T b = true ->
  let g := (deleted_blocks_ q + zlen init) * block_size_ q + offset_ b in
  exists q' next', VariadicQueue_Append T v q = Ok (g, q') /\ stores q' (<[g := (T, v)]> m) next' /\ g < next' <= g + AlignUp 8 (sizeof_T T) /\ block_size_ q' = block_size_ q /\
    zlen (mem_blocks_ q') = zlen (mem_blocks_ q) /\ deleted_blocks_ q' = deleted_blocks_ q.
Proof.
  intros H Hs E Hsp g. destruct (st_size _ _ _ H) as [Hbs H8]. pose proof (st_deleted _ _ _ H) as Hd. pose proof (st_blocks _ _ _ H) as Hall. rewrite E in Hall. apply Forall_app in Hall as [Hinit Hb]. rewrite Forall_singleton in Hb.
  destruct (Block_Append_spec _ b T v Hb Hbs H8 Hs Hsp) as (b' & Eb & Hb' & Hst & Hlt & Hoff). unfold VariadicQueue_Append. rewrite E, last_snoc, Hsp. cbn [negb]. rewrite last_snoc, Eb. cbn [obind].
  assert (Ei : <[(length (init ++ [b]) - 1)%nat := b']> (init ++ [b]) = init ++ [b']).
  { rewrite length_app. cbn [length]. replace (length init + 1 - 1)%nat with (length init + 0)%nat by lia. by rewrite insert_app_r. }
  rewrite Ei. set (q' := mkVariadic (init ++ [b']) (block_size_ q) (deleted_blocks_ q)).
  assert (Hlen : zlen (init ++ [b']) = zlen init + 1) by (by rewrite zlen_app, zlen_cons, zlen_nil).
  assert (H' : stores q' (<[g := (T, v)]> m) ((deleted_blocks_ q + zlen init) * block_size_ q + offset_ b')).
  { split; cbn [q' mem_blocks_ block_size_ deleted_blocks_]; try done.
    - pose proof (st_word _ _ _ H) as Hw. by rewrite E, zlen_app, zlen_cons, zlen_nil in Hw; rewrite Hlen; rewrite Z.add_0_r in Hw.
    - apply Forall_app. split; [done|by apply Forall_singleton].
    - by exists init, b'.
    - intros g'. assert (El : (init ++ [b]) !! length init = Some b) by (by rewrite lookup_app_r, Nat.sub_diag by lia). pose proof (value_at_insert (block_size_ q) (deleted_blocks_ q) _ _ b b' g' ltac:(lia) Hd El) as Ev.
      replace (<[length init := b']> (init ++ [b])) with (init ++ [b']) in Ev by (rewrite <- Ei; rewrite length_app; cbn [length]; f_equal; lia). rewrite Ev. unfold g, zlen.
      assert (Hold : forall o, 0 <= o < block_size_ q -> m !! ((deleted_blocks_ q + Z.of_nat (length init)) * block_size_ q + o) = storage_ b !! o).
      { intros o Ho. rewrite (st_values _ _ _ H), value_at_global by lia. by rewrite E, El. }
      pose proof (bk_offset _ _ Hb) as [Hbo _]. case_decide as Ec.
      + destruct Ec as [Eg1 Eg2]. pose proof (Z.div_mod g' (block_size_ q) ltac:(lia)) as Hdm. pose proof (Z.mod_pos_bound g' (block_size_ q) ltac:(lia)) as Hm. rewrite Eg2 in Hdm.
        rewrite Hst. destruct (decide (g' `mod` block_size_ q = offset_ b)) as [Eo|Eo].
        * rewrite Eo, lookup_insert_eq. rewrite Hdm, Eo. rewrite (Z.mul_comm (block_size_ q)). by rewrite lookup_insert_eq.
        * rewrite (lookup_insert_ne (storage_ b)) by congruence. rewrite (lookup_insert_ne m) by nia. rewrite <- (Hold _ Hm). f_equal. lia.
      + rewrite lookup_insert_ne; [by rewrite (st_values _ _ _ H), E|]. intros <-. apply Ec. split; [nia|]. rewrite Z.div_add_l, Z.div_small by lia. lia. }
  exists q', ((deleted_blocks_ q + zlen init) * block_size_ q + offset_ b'). split; [|split; [exact H'|]].
  - rewrite (global_offset_spec q' _ _ _ H'); cbn [q' mem_blocks_ block_size_ deleted_blocks_]; [|pose proof (bk_offset _ _ Hb); lia]. rewrite Hlen. unfold g. do 3 f_equal. lia.
  - split; [unfold g; lia|]. split; [done|]. cbn [q' mem_blocks_ deleted_blocks_]. split; [|done]. by rewrite !zlen_app, !zlen_cons.
Qed.
Lemma add_block q m next : stores q m next -> (deleted_blocks_ q + zlen (mem_blocks_ q) + 1) * block_size_ q <= 2 ^ 32 ->
  let q1 := mkVariadic (mem_blocks_ q ++ [Block_new (block_size_ q)]) (block_size_ q) (deleted_blocks_ q) in
  stores q1 m ((deleted_blocks_ q + zlen (mem_blocks_ q)) * block_size_ q).
Proof.
  intros H Hw. destruct (st_size _ _ _ H) as [Hbs H8]. pose proof (st_deleted _ _ _ H). cbv zeta. split; cbn [mem_blocks_ block_size_ deleted_blocks_]; try done.
  - rewrite zlen_app, zlen_cons, zlen_nil. lia.
  - apply Forall_app. split; [apply (st_blocks _ _ _ H)|]. apply Forall_singleton, block_new_ok. lia.
  - exists (mem_blocks_ q), (Block_new (block_size_ q)). split; [done|]. cbn. lia.
  - intros g. rewrite value_at_new_block by lia. apply (st_values _ _ _ H).
Qed.

(** It does not fit: there is room for one more block. *)
Lemma Append_new_block q m next T v init b : stores q m next -> 0 < sizeof_T T <= block_size_ q -> mem_blocks_ q = init ++ [b] -> HasSpace T b = false ->
  (deleted_blocks_ q + zlen (mem_blocks_ q) + 1) * block_size_ q <= 2 ^ 32 ->
  let g := (deleted_blocks_ q + zlen (mem_blocks_ q)) * block_size_ q in
  exists q' next', VariadicQueue_Append T v q = Ok (g, q') /\ stores q' (<[g := (T, v)]> m) next' /\ next <= g < next' /\ next' <= g + AlignUp 8 (sizeof_T T) /\ g < next + sizeof_T T /\ block_size_ q' = block_size_ q.
Proof.
  intros H Hs E Esp Hw g. destruct (st_size _ _ _ H) as [Hbs H8]. pose proof (st_deleted _ _ _ H) as Hd. pose proof (st_blocks _ _ _ H) as Hall. rewrite E in Hall. apply Forall_app in Hall as [_ Hb]. rewrite Forall_singleton in Hb.
  pose proof (bk_offset _ _ Hb) as [Hbo _]. change (2 ^ 32) with 4294967296 in *. pose proof Esp as Hsp. unfold HasSpace in Hsp. rewrite (bk_size _ _ Hb), u32_small in Hsp by lia. apply Z.leb_gt in Hsp.
  assert (Hlen : zlen (mem_blocks_ q) = zlen init + 1) by (by rewrite E, zlen_app, zlen_cons, zlen_nil). pose proof (add_block q m next H Hw) as H1. cbv zeta in H1.
  assert (Hsp1 : HasSpace T (Block_new (block_size_ q)) = true) by (unfold HasSpace; cbn [Block_new size_ offset_]; rewrite u32_small by lia; lia).
  destruct (Append_fits _ _ _ T v _ _ H1 ltac:(lia) eq_refl Hsp1) as (q' & next' & E' & H' & Hn & Hbs' & _). cbn [block_size_ deleted_blocks_ Block_new offset_] in *. rewrite Z.add_0_r in *.
  exists q', next'. split; [|split; [exact H'|]].
  - unfold VariadicQueue_Append in *. cbn [mem_blocks_ block_size_ deleted_blocks_] in E'. rewrite last_snoc, Hsp1 in E'. cbn [negb] in E'. rewrite E at 1. rewrite last_snoc, Esp. exact E'.
  - destruct (st_next _ _ _ H) as (init' & b' & E2 & En). rewrite E in E2. apply app_inj_tail in E2 as [<- <-]. unfold g. rewrite Hlen in *. lia.
Qed.
(** An element is appended while the memory, with one more block, stays below 4 GiB. *)
Lemma variadic_Append_spec q m next T v : stores q m next -> 0 < sizeof_T T <= block_size_ q -> next + sizeof_T T + block_size_ q <= 2 ^ 32 ->
  exists g q' next', VariadicQueue_Append T v q = Ok (g, q') /\ stores q' (<[g := (T, v)]> m) next' /\ next <= g < next' /\ next' <= next + 2 * AlignUp 8 (sizeof_T T) /\ block_size_ q' = block_size_ q.
Proof.
  intros H Hs Hw. pose proof (align8_bounds (sizeof_T T)) as Ha. destruct (st_next _ _ _ H) as (init & b & E & En). destruct (HasSpace T b) eqn:Esp.
  - destruct (Append_fits q m next T v init b H ltac:(lia) E Esp) as (q' & next' & E' & H' & Hn & Hbs & _). rewrite <- En in *. exists next, q', next'. split; [done|]. split; [done|]. split; [lia|]. split; [lia|done].
  - assert (Hlen : zlen (mem_blocks_ q) = zlen init + 1) by (by rewrite E, zlen_app, zlen_cons, zlen_nil). destruct (st_size _ _ _ H) as [Hbs H8]. pose proof (st_blocks _ _ _ H) as Hall. rewrite E in Hall. apply Forall_app in Hall as [_ Hb]. rewrite Forall_singleton in Hb.
    pose proof (bk_offset _ _ Hb) as [Hbo _]. pose proof Esp as Hsp. unfold HasSpace in Hsp. change (2 ^ 32) with 4294967296 in *. rewrite (bk_size _ _ Hb), u32_small in Hsp by lia. apply Z.leb_gt in Hsp.
    destruct (Append_new_block q m next T v init b H Hs E Esp) as (q' & next' & E' & H' & Hg & Hn & Hgn & Hbs'); [rewrite Hlen; change (2 ^ 32) with 4294967296; lia|].
    eexists _, q', next'. split; [exact E'|]. split; [exact H'|]. split; [done|]. split; [lia|done].
Qed.
Lemma Evict_spec q m next T v g : stores q m next -> m !! g = Some (T, v) ->
  exists q', VariadicQueue_Evict T g q = Ok (v, q') /\ stores q' (delete g m) next /\ block_size_ q' = block_size_ q.
Proof.
  intros H Hg. pose proof (stores_below _ _ _ _ _ H Hg) as [Hlo Hhi]. destruct (st_size _ _ _ H) as [Hbs H8]. pose proof (st_deleted _ _ _ H) as Hd. pose proof (st_word _ _ _ H) as Hw.
  destruct (global_offset (block_size_ q) (deleted_blocks_ q) g ltac:(lia) Hlo) as (j & o & -> & Ho). rewrite (st_values _ _ _ H), value_at_global in Hg by lia. destruct (mem_blocks_ q !! j) as [b|] eqn:Hj; [|done]. cbn in Hg.
  pose proof (Forall_lookup_1 _ _ _ _ (st_blocks _ _ _ H) Hj) as Hb. destruct (Block_Evict_spec _ b T v o Hb Hbs Hg) as (b' & Eb & Hb' & Hst & Hoff).
  pose proof (lookup_lt_Some _ _ _ Hj) as Hlt. assert (Hdl : deleted_blocks_ q + Z.of_nat j < 2 ^ 32) by (unfold zlen in Hw; nia). change (2 ^ 32) with 4294967296 in *.
  unfold VariadicQueue_Evict. rewrite Z.div_add_l, (Z.div_small o), (Z.add_comm (_ * block_size_ q) o), Z.mod_add, Z.mod_small by lia. rewrite u32_small by lia.
  replace (Z.to_nat (deleted_blocks_ q + Z.of_nat j + 0 - deleted_blocks_ q)) with j by lia. rewrite Hj, Eb. cbn [obind]. eexists. split; [done|]. split; [|done].
  destruct (st_next _ _ _ H) as (init & back & E & En). split; cbn [mem_blocks_ block_size_ deleted_blocks_]; try done.
  - unfold zlen in *. by rewrite length_insert.
  - by apply Forall_insert; [apply (st_blocks _ _ _ H)|].
  - rewrite E in Hj |- *. apply lookup_snoc_Some in Hj as [[Hji _]|[-> <-]].
    + exists (<[j := b']> init), back. rewrite insert_app_l by done. split; [done|]. unfold zlen in *. by rewrite length_insert.
    + exists init, b'. rewrite <- (Nat.add_0_r (length init)), insert_app_r. split; [done|]. by rewrite Hoff.
  - intros g. rewrite (value_at_insert _ _ _ _ b) by (done || lia). rewrite Hst. case_decide as Ec.
    + destruct Ec as [Eg1 Eg2]. assert (Eg : g = (deleted_blocks_ q + Z.of_nat j) * block_size_ q + g `mod` block_size_ q) by (rewrite (Z.div_mod g (block_size_ q)) at 1 by lia; rewrite Eg2; lia).
      pose proof (Z.mod_pos_bound g (block_size_ q) ltac:(lia)) as Hm. destruct (decide (g `mod` block_size_ q = o)) as [Eo|Eo].
      * rewrite Eo, lookup_delete_eq. rewrite Eg, Eo, Z.add_comm. by rewrite lookup_delete_eq.
      * rewrite (lookup_delete_ne (storage_ b)) by congruence. rewrite (lookup_delete_ne m) by (intros E1; apply Eo; lia). rewrite (st_values _ _ _ H). rewrite Eg at 1. rewrite value_at_global by lia. by rewrite Hj.
    + rewrite lookup_delete_ne; [apply (st_values _ _ _ H)|]. intros <-. apply Ec. split; [lia|]. rewrite Z.add_comm, Z.div_add_l, Z.div_small by lia. lia.
Qed.
Lemma free_blocks_spec bs d blocks : 0 < bs -> 0 <= d -> d + zlen blocks < 2 ^ 32 -> Forall (block_ok bs) blocks -> blocks <> [] ->
  let '(blocks', d') := free_blocks blocks d in (exists gone, blocks = gone ++ blocks' /\ d' = d + zlen gone) /\ blocks' <> [] /\ (forall g, value_at bs d' blocks' g = value_at bs d blocks g) /\
    ((forall b, b ∈ removelast blocks' -> block_empty b = true) -> length blocks' = 1%nat).
Proof.
  intros Hbs. revert d. induction blocks as [|b rest IH]; intros d Hd Hw Hall Hne; [done|]. cbn [free_blocks]. destruct rest as [|b2 rest].
  - split; [exists []; rewrite zlen_nil; split; [done|lia]|]. done.
  - apply Forall_cons in Hall as [Hb Hall]. rewrite zlen_cons in Hw. pose proof (zlen_nonneg (b2 :: rest)). destruct (block_empty b) eqn:Eb.
    + assert (Eu : u32 (d + 1) = d + 1) by (apply u32_small; change (2 ^ 32) with 4294967296 in Hw; lia). rewrite Eu. specialize (IH (d + 1) ltac:(lia) ltac:(lia) Hall ltac:(done)).
      destruct (free_blocks (b2 :: rest) (d + 1)) as [blocks' d']. destruct IH as ((gone & -> & ->) & Hne' & Hv & Hone). split; [exists (b :: gone); split; [done|rewrite zlen_cons; lia]|]. split; [done|]. split; [|done].
      intros g. rewrite Hv. symmetry. apply value_at_free; [done|done|]. by apply (block_empty_iff bs).
    + split; [exists []; rewrite zlen_nil; split; [done|lia]|]. split; [done|]. split; [done|]. intros Hemp. rewrite Hemp in Eb; [done|]. cbn. apply list_elem_of_here.
Qed.
Lemma FreeMemory_spec q m next : stores q m next -> stores (FreeMemory q) m next /\ block_size_ (FreeMemory q) = block_size_ q /\ (m = ∅ -> zlen (mem_blocks_ (FreeMemory q)) = 1).
Proof.
  intros H. destruct (st_size _ _ _ H) as [Hbs H8]. pose proof (st_deleted _ _ _ H) as Hd. pose proof (st_word _ _ _ H) as Hw. destruct (st_next _ _ _ H) as (init & back & E & En).
  assert (Hw' : deleted_blocks_ q + zlen (mem_blocks_ q) < 2 ^ 32).
  { assert (8 <= block_size_ q) by (pose proof (Z.div_mod (block_size_ q) 8); lia). change (2 ^ 32) with 4294967296 in *. pose proof (zlen_nonneg (mem_blocks_ q)). nia. }
  pose proof (free_blocks_spec (block_size_ q) (deleted_blocks_ q) (mem_blocks_ q) ltac:(lia) Hd Hw' (st_blocks _ _ _ H) ltac:(rewrite E; by destruct init)) as HF. unfold FreeMemory.
  destruct (free_blocks (mem_blocks_ q) (deleted_blocks_ q)) as [blocks d]. destruct HF as ((gone & Eg & ->) & Hne & Hv & Hone). pose proof (zlen_nonneg gone).
  assert (H' : stores (mkVariadic blocks (block_size_ q) (deleted_blocks_ q + zlen gone)) m next).
  { split; cbn [mem_blocks_ block_size_ deleted_blocks_]; try done; try lia.
    - rewrite Eg, zlen_app in Hw. lia.
    - pose proof (st_blocks _ _ _ H) as Hall. rewrite Eg in Hall. by apply Forall_app in Hall as [_ Hall].
    - destruct (exists_last Hne) as (init' & b' & ->). exists init', b'. split; [done|]. rewrite E, app_assoc in Eg. apply app_inj_tail in Eg as [-> ->]. rewrite zlen_app in En. lia.
    - intros g. rewrite Hv. apply (st_values _ _ _ H). }
  split; [done|]. split; [done|]. intros ->. unfold zlen. cbn [mem_blocks_]. rewrite Hone; [done|]. intros b Hb.
  assert (Hb' : b ∈ blocks) by (destruct (exists_last Hne) as (i' & b' & ->); rewrite removelast_last in Hb; apply elem_of_app; by left). apply list_elem_of_lookup in Hb' as [j Hj].
  apply (block_empty_iff (block_size_ q)); [exact (Forall_lookup_1 _ _ _ _ (st_blocks _ _ _ H') Hj)|]. apply map_eq. intros o. rewrite lookup_empty. destruct (storage_ b !! o) as [v|] eqn:Eo; [|done]. exfalso.
  pose proof (Forall_lookup_1 _ _ _ _ (st_blocks _ _ _ H') Hj) as Hbo. pose proof (bk_keys _ _ Hbo _ _ Eo) as Hoo. pose proof (bk_offset _ _ Hbo) as [Hoff _]. cbn [block_size_] in *.
  pose proof (st_values _ _ _ H' ((deleted_blocks_ q + zlen gone + Z.of_nat j) * block_size_ q + o)) as Ev. cbn [mem_blocks_ block_size_ deleted_blocks_] in Ev. rewrite value_at_global, Hj in Ev by lia. cbn in Ev. by rewrite Eo, lookup_empty in Ev.
Qed.
Lemma NextOffset_spec q m next : stores q m next -> next < 2 ^ 32 -> NextOffset q = Ok next.
Proof.
  intros H Hn. destruct (st_next _ _ _ H) as (init & b & E & En). unfold NextOffset. rewrite E, last_snoc. destruct (st_size _ _ _ H) as [Hbs H8]. pose proof (st_deleted _ _ _ H) as Hd. pose proof (st_word _ _ _ H) as Hw.
  assert (Hlen : zlen (mem_blocks_ q) = zlen init + 1) by (by rewrite E, zlen_app, zlen_cons, zlen_nil). pose proof (st_blocks _ _ _ H) as Hall. rewrite E in Hall. apply Forall_app in Hall as [_ Hb]. rewrite Forall_singleton in Hb.
  pose proof (bk_offset _ _ Hb) as [Hbo _]. rewrite (global_offset_spec q m next _ H); [f_equal; rewrite Hlen; lia|].
  destruct (Z.eq_dec (offset_ b) (block_size_ q)) as [Eo|]; [right|left; lia]. split; [done|]. rewrite Hlen. lia.
Qed.
Lemma VariadicQueue_delete_spec q next : stores q ∅ next -> VariadicQueue_delete q = Ok tt.
Proof.
  intros H. destruct (FreeMemory_spec q ∅ next H) as (H' & _ & Hone). specialize (Hone eq_refl). unfold VariadicQueue_delete. rewrite Hone. cbn [Z.eqb Pos.eqb perfetto_check obind].
  destruct (st_next _ _ _ H') as (init & b & E & _). rewrite E in Hone. rewrite zlen_app, zlen_cons, zlen_nil in Hone. destruct init; [|rewrite zlen_cons in Hone; pose proof (zlen_nonneg init); lia]. rewrite E. cbn [app last].
  pose proof (st_blocks _ _ _ H') as Hall. rewrite E in Hall. cbn [app] in Hall. rewrite Forall_singleton in Hall. replace (block_empty b) with true; [done|]. symmetry. apply (block_empty_iff _ _ Hall). apply map_eq. intros o. rewrite lookup_empty.
  destruct (storage_ b !! o) as [v|] eqn:Eo; [|done]. exfalso. pose proof (bk_keys _ _ Hall _ _ Eo). pose proof (bk_offset _ _ Hall). destruct (st_size _ _ _ H') as [Hbs _]. pose proof (st_deleted _ _ _ H').
  pose proof (st_values _ _ _ H' ((deleted_blocks_ (FreeMemory q) + Z.of_nat 0) * block_size_ (FreeMemory q) + o)) as Ev. rewrite value_at_global, E in Ev by lia. cbn in Ev. by rewrite Eo, lookup_empty in Ev.
Qed.

(** ** The properties *)

(** What a client may do: append, take out a value it can name, free memory. *)
Inductive variadic_op := AppendOp (T : Type_) (value : D) | EvictOp (T : Type_) (global_offset : Z) | FreeOp.
(** The queue answers as the map [m] from offsets to values would; the offsets grow; and the
    destructor's checks hold whenever the map is empty. *)
Fixpoint behaves_as_map (ops : list variadic_op) (m : Heap) (q : VariadicQueue) : Prop :=
  (exists next, NextOffset q = Ok next /\ forall g v, m !! g = Some v -> 0 <= g < next) /\ (m = ∅ -> VariadicQueue_delete q = Ok tt) /\
  match ops with
  | [] => True
  | AppendOp T v :: ops => exists g q', VariadicQueue_Append T v q = Ok (g, q') /\ (forall g' v', m !! g' = Some v' -> g' < g) /\ behaves_as_map ops (<[g := (T, v)]> m) q'
  | EvictOp T g :: ops => forall v, m !! g = Some (T, v) -> exists q', VariadicQueue_Evict T g q = Ok (v, q') /\ behaves_as_map ops (delete g m) q'
  | FreeOp :: ops => behaves_as_map ops m (FreeMemory q)
  end.
(** The memory the appended values take, at most. *)
Fixpoint memory_of (ops : list variadic_op) : Z :=
  match ops with
  | [] => 0
  | AppendOp T _ :: ops => 2 * AlignUp 8 (sizeof_T T) + memory_of ops
  | _ :: ops => memory_of ops
  end.
Definition sizes_fit (bs : Z) : Prop := forall T, 0 < sizeof_T T <= bs.

Lemma memory_nonneg bs ops : sizes_fit bs -> 0 <= memory_of ops.
Proof.
  intros Hs. induction ops as [|[T v|T g|] ops IH]; cbn [memory_of]; [done| |done..]. specialize (Hs T). pose proof (align8_bounds (sizeof_T T)). lia.
Qed.
Lemma stores_observed q m next : stores q m next -> next < 2 ^ 32 ->
  (exists next, NextOffset q = Ok next /\ forall g v, m !! g = Some v -> 0 <= g < next) /\ (m = ∅ -> VariadicQueue_delete q = Ok tt).
Proof.
  intros H Hw. destruct (st_size _ _ _ H) as [Hbs _]. split; [|intros ->; by eapply VariadicQueue_delete_spec]. exists next. split; [by eapply NextOffset_spec|].
  intros g v Hg. pose proof (stores_below _ _ _ _ _ H Hg). pose proof (st_deleted _ _ _ H). nia.
Qed.
Lemma behaves_stores ops : forall q m next, stores q m next -> sizes_fit (block_size_ q) -> next + memory_of ops + block_size_ q < 2 ^ 32 -> behaves_as_map ops m q.
Proof.
  induction ops as [|o ops IH]; intros q m next H Hs Hw; destruct (st_size _ _ _ H) as [Hbs _].
  { cbn [memory_of] in Hw. destruct (stores_observed q m next H); [lia|done]. }
  pose proof (memory_nonneg _ (o :: ops) Hs) as Hmem'. destruct (stores_observed q m next H) as [Ho1 Ho2]; [lia|]. pose proof (memory_nonneg _ ops Hs) as Hmem. cbn [behaves_as_map]. split; [done|]. split; [done|].
  destruct o as [T v|T g|]; cbn [memory_of] in Hw.
  - destruct (variadic_Append_spec q m next T v H (Hs T)) as (g & q' & next' & E & H' & Hg & Hn & Hbs'); [specialize (Hs T); pose proof (align8_bounds (sizeof_T T)); lia|].
    exists g, q'. split; [done|]. split; [intros g' v' Hg'; apply (stores_below _ _ _ _ _ H) in Hg'; lia|]. apply (IH _ _ next'); rewrite ?Hbs'; [done|done|lia].
  - intros v Hg. destruct (Evict_spec q m next T v g H Hg) as (q' & E & H' & Hbs'). exists q'. split; [done|]. apply (IH _ _ next); rewrite ?Hbs'; [done|done|lia].
  - destruct (FreeMemory_spec q m next H) as (H' & Hbs' & _). apply (IH _ _ next); rewrite ?Hbs'; [done|done|lia].
Qed.

(** VariadicQueue is a map from offsets to values: whatever the order in which values
    are appended, evicted and memory is freed, and however values straddle blocks, an append
    gives an offset greater than those of all live values, an eviction gives the value that was
    appended there, nothing is read or written outside a block, and the checks of the
    destructor hold once every value was evicted. This holds while the appended values take
    less than 4 GiB. *)
Theorem variadic_queue_refines_map bs ops : 0 < bs < 2 ^ 32 -> bs `mod` 8 = 0 -> sizes_fit bs -> memory_of ops + bs < 2 ^ 32 ->
  behaves_as_map ops ∅ (VariadicQueue_new bs).
Proof. intros Hbs H8 Hs Hm. apply (behaves_stores ops _ ∅ 0); [by apply stores_new|done|cbn; lia]. Qed.

(** A value after the other goes through the queue. *)
Fixpoint pass_through (n : nat) (T : Type_) (v : D) (q : VariadicQueue) : outcome VariadicQueue :=
  match n with
  | O => Ok q
  | S n => let! (g, q) := VariadicQueue_Append T v q in let! (_, q) := VariadicQueue_Evict T g q in pass_through n T v (FreeMemory q)
  end.
Lemma pass_one q next next' g T v q1 : stores q ∅ next -> VariadicQueue_Append T v q = Ok (g, q1) -> stores q1 (<[g := (T, v)]> ∅) next' -> block_size_ q1 = block_size_ q ->
  exists q', pass_through 1 T v q = Ok q' /\ stores q' ∅ next' /\ zlen (mem_blocks_ q') = 1 /\ block_size_ q' = block_size_ q.
Proof.
  intros H E H1 Hbs. cbn [pass_through]. rewrite E. cbn [obind]. destruct (Evict_spec q1 _ next' T v g H1) as (q2 & -> & H2 & Hbs2); [apply lookup_insert_eq|]. cbn [obind].
  rewrite delete_insert_id in H2 by apply lookup_empty. destruct (FreeMemory_spec q2 ∅ next' H2) as (H3 & Hbs3 & Hone). exists (FreeMemory q2). split; [done|]. split; [done|]. split; [by apply Hone|congruence].
Qed.
Lemma pass_through_add n m T v q : pass_through (n + m) T v q = let! q := pass_through n T v q in pass_through m T v q.
Proof.
  revert q. induction n as [|n IH]; intros q; [done|]. cbn [Nat.add pass_through]. destruct (VariadicQueue_Append T v q) as [[g q1]|]; [|done]. cbn [obind]. destruct (VariadicQueue_Evict T g q1) as [[w q2]|]; [|done]. cbn [obind]. apply IH.
Qed.
Lemma last_block_fails q next T v init b : stores q ∅ next -> mem_blocks_ q = init ++ [b] -> zlen (mem_blocks_ q) = 1 -> 0 < sizeof_T T <= block_size_ q -> HasSpace T b = false -> (deleted_blocks_ q + 1) * block_size_ q = 2 ^ 32 ->
  exists q', VariadicQueue_Append T v q = Ok (0, q') /\ VariadicQueue_Evict T 0 q' = Crash.
Proof.
  intros H E Hlen Hs Hsp Hw. destruct (st_size _ _ _ H) as [Hbs H8]. pose proof (st_deleted _ _ _ H) as Hd. change (2 ^ 32) with 4294967296 in *.
  assert (Hd2 : 1 <= deleted_blocks_ q <= 536870911) by (pose proof (Z.div_mod (block_size_ q) 8); nia).
  assert (Hsp1 : HasSpace T (Block_new (block_size_ q)) = true) by (unfold HasSpace; cbn [Block_new size_ offset_]; rewrite u32_small by lia; lia).
  destruct (Block_Append_spec (block_size_ q) (Block_new (block_size_ q)) T v) as (b' & Eb & _); [apply block_new_ok; lia|change (2 ^ 32) with 4294967296; lia|done|lia|done|].
  assert (El : last (mem_blocks_ q) = Some b) by (by rewrite E, last_snoc).
  unfold VariadicQueue_Append. rewrite El, Hsp. cbn [negb]. rewrite last_snoc, Eb. cbn [obind Block_new offset_].
  set (blocks := <[(length (mem_blocks_ q ++ [Block_new (block_size_ q)]) - 1)%nat := b']> (mem_blocks_ q ++ [Block_new (block_size_ q)])).
  assert (Hl2 : zlen blocks = 2) by (unfold blocks, zlen in *; rewrite length_insert, length_app; cbn [length]; lia). eexists. split.
  - unfold GlobalMemOffsetFromLastBlockOffset. cbn [deleted_blocks_ mem_blocks_ block_size_]. rewrite Hl2. change (u32 2) with 2. replace (u32 (deleted_blocks_ q + 2 - 1)) with (deleted_blocks_ q + 1) by (rewrite u32_small; lia). rewrite Hw. reflexivity.
  - unfold VariadicQueue_Evict. cbn [deleted_blocks_ mem_blocks_ block_size_]. rewrite Z.div_0_l by lia. replace (u32 (0 - deleted_blocks_ q)) with (4294967296 - deleted_blocks_ q).
    + rewrite lookup_ge_None_2; [done|]. unfold zlen in Hl2. lia.
    + unfold u32, uw. change (2 ^ 32) with 4294967296. apply (Z.mod_unique _ _ (-1)); lia.
Qed.

(** After 4 GiB of values the offsets wrap around and the queue fails: when the block
    size divides 2^32, as the default does, after finitely many values have passed through one
    at a time (each appended, evicted, and its memory freed), the next append gives the offset
    0 again, and the eviction of that value reads mem_blocks_ out of its bounds, since the
    number of the block is reduced modulo 2^32 and the number of freed blocks is not. *)
Theorem variadic_queue_offsets_wrap bs K T v : 0 < bs < 2 ^ 32 -> bs `mod` 8 = 0 -> bs * K = 2 ^ 32 -> 0 < sizeof_T T <= bs ->
  exists n q q', pass_through n T v (VariadicQueue_new bs) = Ok q /\ VariadicQueue_Append T v q = Ok (0, q') /\ VariadicQueue_Evict T 0 q' = Crash.
Proof.
  intros Hbs H8 HK Hs. enough (Hgen : forall k q next, (Z.to_nat (2 ^ 32 - next) <= k)%nat -> stores q ∅ next -> zlen (mem_blocks_ q) = 1 -> block_size_ q = bs ->
    exists n q1 q2, pass_through n T v q = Ok q1 /\ VariadicQueue_Append T v q1 = Ok (0, q2) /\ VariadicQueue_Evict T 0 q2 = Crash) by (by apply (Hgen _ _ 0 (Nat.le_refl _)); [apply stores_new|..]).
  induction k as [k IH] using lt_wf_ind. intros q next Hk H Hlen Hq. destruct (st_next _ _ _ H) as (init & b & E & En). pose proof (st_word _ _ _ H) as Hw. pose proof (st_deleted _ _ _ H) as Hd. rewrite Hq, Hlen in Hw.
  assert (Hi : zlen init = 0) by (rewrite E, zlen_app, zlen_cons, zlen_nil in Hlen; lia).
  pose proof (st_blocks _ _ _ H) as Hall. rewrite E in Hall. apply Forall_app in Hall as [_ Hb]. rewrite Forall_singleton in Hb. pose proof (bk_offset _ _ Hb) as [Hbo _]. rewrite Hq in *.
  destruct (decide (HasSpace T b = false /\ (deleted_blocks_ q + 1) * bs = 2 ^ 32)) as [[Hsp Hlast]|Hgo].
  { rewrite <- Hq in *. destruct (last_block_fails q next T v init b H E Hlen Hs Hsp Hlast) as (q' & E1 & E2). exists 0%nat, q, q'. done. }
  assert (Hstep : exists g q1 next', VariadicQueue_Append T v q = Ok (g, q1) /\ stores q1 (<[g := (T, v)]> ∅) next' /\ next < next' /\ block_size_ q1 = block_size_ q).
  { rewrite <- Hq in *. destruct (HasSpace T b) eqn:Hsp.
    - destruct (Append_fits q ∅ next T v init b H ltac:(lia) E Hsp) as (q1 & next' & E1 & H1 & Hn & Hb1 & _). rewrite <- En in Hn. eexists _, q1, next'. split; [exact E1|]. split; [exact H1|]. split; [lia|done].
    - destruct (Append_new_block q ∅ next T v init b H Hs E Hsp) as (q1 & next' & E1 & H1 & Hg & _ & _ & Hb1); [|eexists _, q1, next'; split; [exact E1|]; split; [exact H1|]; split; [lia|done]].
      rewrite Hlen. assert ((deleted_blocks_ q + 1) * block_size_ q <> 2 ^ 32) by (intros Hx; by apply Hgo). assert (deleted_blocks_ q + 1 < K) by nia. nia. }
  destruct Hstep as (g & q1 & next' & E1 & H1 & Hn & Hb1). destruct (pass_one q next next' g T v q1 H E1 H1 Hb1) as (q2 & E2 & H2 & Hl2 & Hb2).
  pose proof (next_in_word _ _ _ H2).
  destruct (IH (Z.to_nat (2 ^ 32 - next')) ltac:(lia) q2 next' (Nat.le_refl _) H2 Hl2 ltac:(congruence)) as (n & q3 & q4 & E3 & E4 & E5).
  exists (1 + n)%nat, q3, q4. rewrite pass_through_add, E2. done.
Qed.
End storage.

Definition demo_size (T : Type_) : Z := match T with kInlineSchedSwitch => 24 | kTracePacket => 40 | _ => 8 end.
Lemma variadic_queue_refines_map_witness : behaves_as_map demo_size [AppendOp kTracePacket 5; AppendOp kInlineSchedSwitch 6; AppendOp kTracePacket 7; EvictOp kTracePacket 0; FreeOp; EvictOp kTracePacket 64; EvictOp kInlineSchedSwitch 40; FreeOp] ∅ (VariadicQueue_new 64).
Proof. apply (variadic_queue_refines_map demo_size 64); [lia|done|intros []; cbn; lia|vm_compute; done]. Defined.
Lemma variadic_queue_offsets_wrap_witness : exists n q q', pass_through demo_size n kTracePacket 5 (VariadicQueue_new kDefaultSize) = Ok q /\ VariadicQueue_Append demo_size kTracePacket 5 q = Ok (0, q') /\ VariadicQueue_Evict kTracePacket 0 q' = Crash.
Proof. apply (variadic_queue_offsets_wrap demo_size kDefaultSize 4096); [done|done|done|done]. Defined.
