(* ===== verification/TraceSorter.v ===== *)
(** * Sorting the events of a trace
    (src/trace_processor/trace_sorter.h, trace_sorter.cc)

    Events are appended to one queue per CPU and one for the rest, in any order of their
    timestamps; their payloads go to a [VariadicQueue].  An extraction sorts the queues that
    need it and merges them: it pushes events to the parser, the earliest first, until it meets
    one that was appended too recently. *)

From S2P Require Import Prelude StdAlgorithms CircularQueue TraceSorterQueue.

(** ** Descriptors *)

Definition kTypeBits : Z := 4.
Definition kTypeMask : Z := (1 .<< kTypeBits) - 1.
Definition type_code (T : Type_) : Z :=
  match T with
  | kFtraceEvent => 0 | kTracePacket => 1 | kInlineSchedSwitch => 2 | kInlineSchedWaking => 3 | kJsonValue => 4
  | kFuchsiaRecord => 5 | kTrackEvent => 6 | kSystraceLine => 7 | kInvalid => 8
  end.
Definition type_of_code (c : Z) : Type_ :=
  match c with
  | 0 => kFtraceEvent | 1 => kTracePacket | 2 => kInlineSchedSwitch | 3 => kInlineSchedWaking | 4 => kJsonValue
  | 5 => kFuchsiaRecord | 6 => kTrackEvent | 7 => kSystraceLine | _ => kInvalid
  end.
(** The offset and the type packed in 64 bits. *)
Definition Descriptor (offset : Z) (T : Type_) : Z := u64 (u32 offset .<< kTypeBits) .| type_code T.
Definition descriptor_offset (packed_value : Z) : Z := u32 (packed_value .>> kTypeBits).
Definition descriptor_type (packed_value : Z) : Type_ := type_of_code (packed_value .& kTypeMask).

Record TimestampedDescriptor := mkDesc { ts_ : Z; descriptor_ : Z }.
Definition td_offset (d : TimestampedDescriptor) : Z := descriptor_offset (descriptor_ d).
Definition td_type (d : TimestampedDescriptor) : Type_ := descriptor_type (descriptor_ d).
Definition td_Compare (x : TimestampedDescriptor) (ts : Z) : bool := ts_ x <? ts.
Definition td_lt (x y : TimestampedDescriptor) : bool := (ts_ x <? ts_ y) || ((ts_ x =? ts_ y) && (td_offset x <? td_offset y)).

(** ** A queue *)

Definition kTsMax : Z := 9223372036854775807.
Definition kTsMin : Z := -9223372036854775808.

Record Queue := mkSorterQueue { events_ : CircularQueue TimestampedDescriptor; min_ts_ : Z; max_ts_ : Z; sort_start_idx_ : Z; sort_min_ts_ : Z }.
Definition Queue_new : outcome Queue := let! events := CircularQueue_new 1024 in Ok (mkSorterQueue events kTsMax 0 0 kTsMax).
(** The first event that breaks the order is where the unsorted tail starts. *)
Definition Queue_Append (d : TimestampedDescriptor) (q : Queue) : outcome Queue :=
  let ts := ts_ d in
  let! events := emplace_back d (events_ q) in
  let min_ts := Z.min (min_ts_ q) ts in
  Ok (if max_ts_ q <=? ts then mkSorterQueue events min_ts ts (sort_start_idx_ q) (sort_min_ts_ q)
      else if sort_start_idx_ q =? 0 then mkSorterQueue events min_ts (max_ts_ q) (queue_size events - 1) ts
      else mkSorterQueue events min_ts (max_ts_ q) (sort_start_idx_ q) (Z.min (sort_min_ts_ q) ts)).
Definition needs_sorting (q : Queue) : bool := negb (sort_start_idx_ q =? 0).
Definition Queue_Sort (q : Queue) : outcome Queue :=
  let events := events_ q in
  let! sorted_part := read_from (Z.to_nat (sort_start_idx_ q)) (begin_ events) events in
  let sort_begin := lower_bound td_Compare sorted_part (sort_min_ts_ q) in
  let! events := sort_range td_lt (begin_ events + Z.of_nat sort_begin) (end_ events) events in
  Ok (mkSorterQueue events (min_ts_ q) (max_ts_ q) 0 0).

(** ** The sorter *)

Inductive SortingMode := kDefault | kFullSort.
Section sorter.
Context {D : Type} (sizeof_T : Type_ -> Z).

(** [pushed_] is what the parser has got so far: the index of the queue (the CPU plus one, or
    zero), the timestamp and the payload.  [out_of_order_] is the statistic
    sorter_push_event_out_of_order. *)
Definition pushed_event : Type := nat * Z * Type_ * D.
Record TraceSorter := mkSorter {
  sorting_mode_ : SortingMode;
  offset_for_extraction_ : Z;
  flushes_since_extraction_ : Z;
  variadic_queue_ : @VariadicQueue D;
  queues_ : list Queue;
  global_max_ts_ : Z;
  global_min_ts_ : Z;
  bypass_next_stage_for_testing_ : bool;
  latest_pushed_event_ts_ : Z;
  out_of_order_ : Z;
  pushed_ : list pushed_event
}.
Definition TraceSorter_new (mode : SortingMode) (bypass : bool) : TraceSorter :=
  mkSorter mode 0 0 (VariadicQueue_new kDefaultSize) [] 0 kTsMax bypass kTsMin 0 [].
Definition set_variadic (v : @VariadicQueue D) (s : TraceSorter) : TraceSorter :=
  mkSorter (sorting_mode_ s) (offset_for_extraction_ s) (flushes_since_extraction_ s) v (queues_ s) (global_max_ts_ s) (global_min_ts_ s)
    (bypass_next_stage_for_testing_ s) (latest_pushed_event_ts_ s) (out_of_order_ s) (pushed_ s).
Definition set_queues (qs : list Queue) (s : TraceSorter) : TraceSorter :=
  mkSorter (sorting_mode_ s) (offset_for_extraction_ s) (flushes_since_extraction_ s) (variadic_queue_ s) qs (global_max_ts_ s) (global_min_ts_ s)
    (bypass_next_stage_for_testing_ s) (latest_pushed_event_ts_ s) (out_of_order_ s) (pushed_ s).
Definition set_global (mn mx : Z) (s : TraceSorter) : TraceSorter :=
  mkSorter (sorting_mode_ s) (offset_for_extraction_ s) (flushes_since_extraction_ s) (variadic_queue_ s) (queues_ s) mx mn
    (bypass_next_stage_for_testing_ s) (latest_pushed_event_ts_ s) (out_of_order_ s) (pushed_ s).
Definition set_window (offset flushes : Z) (s : TraceSorter) : TraceSorter :=
  mkSorter (sorting_mode_ s) offset flushes (variadic_queue_ s) (queues_ s) (global_max_ts_ s) (global_min_ts_ s)
    (bypass_next_stage_for_testing_ s) (latest_pushed_event_ts_ s) (out_of_order_ s) (pushed_ s).

(** GetQueue grows the vector; the new queues are empty. *)
Fixpoint new_queues (n : nat) : outcome (list Queue) :=
  match n with
  | O => Ok []
  | S n => let! q := Queue_new in let! qs := new_queues n in Ok (q :: qs)
  end.
Definition GetQueue (index : nat) (s : TraceSorter) : outcome TraceSorter :=
  if (length (queues_ s) <=? index)%nat then let! qs := new_queues (index + 1 - length (queues_ s)) in Ok (set_queues (queues_ s ++ qs) s)
  else Ok s.
Definition UpdateGlobalTs (q : Queue) (s : TraceSorter) : TraceSorter := set_global (Z.min (global_min_ts_ s) (min_ts_ q)) (Z.max (global_max_ts_ s) (max_ts_ q)) s.
Definition append_to_queue (index : nat) (d : TimestampedDescriptor) (s : TraceSorter) : outcome TraceSorter :=
  match queues_ s !! index with
  | Some q => let! q := Queue_Append d q in Ok (UpdateGlobalTs q (set_queues (<[index := q]> (queues_ s)) s))
  | None => Crash
  end.
Definition AppendNonFtraceEvent (ts offset : Z) (T : Type_) (s : TraceSorter) : outcome TraceSorter :=
  let! s := GetQueue 0 s in append_to_queue 0 (mkDesc ts (Descriptor offset T)) s.
(** PushTracePacket, PushJsonValue, PushFuchsiaRecord, PushSystraceLine, PushTrackEventPacket. *)
Definition PushPacket (T : Type_) (ts : Z) (value : D) (s : TraceSorter) : outcome TraceSorter :=
  let! (offset, v) := VariadicQueue_Append sizeof_T T value (variadic_queue_ s) in AppendNonFtraceEvent ts offset T (set_variadic v s).
(** PushFtraceEvent and PushInlineFtraceEvent, for a 32-bit CPU number. *)
Definition PushFtraceEvent (T : Type_) (cpu ts : Z) (value : D) (s : TraceSorter) : outcome TraceSorter :=
  let index := Z.to_nat (u32 (cpu + 1)) in
  let! s := GetQueue index s in
  let! (offset, v) := VariadicQueue_Append sizeof_T T value (variadic_queue_ s) in
  append_to_queue index (mkDesc ts (Descriptor offset T)) (set_variadic v s).

(** ** Extraction *)

Definition MaybePushEvent (queue_idx : nat) (d : TimestampedDescriptor) (s : TraceSorter) : outcome TraceSorter :=
  let out_of_order := if ts_ d <? latest_pushed_event_ts_ s then out_of_order_ s + 1 else out_of_order_ s in
  let latest := Z.max (latest_pushed_event_ts_ s) (ts_ d) in
  let! (value, v) := match td_type d with kInvalid => Crash | T => VariadicQueue_Evict T (td_offset d) (variadic_queue_ s) end in
  let pushed := if bypass_next_stage_for_testing_ s then pushed_ s else pushed_ s ++ [(queue_idx, ts_ d, td_type d, value)] in
  Ok (mkSorter (sorting_mode_ s) (offset_for_extraction_ s) (flushes_since_extraction_ s) v (queues_ s) (global_max_ts_ s) (global_min_ts_ s)
    (bypass_next_stage_for_testing_ s) latest out_of_order pushed).
(** The loop over the queues: has one events, which starts earliest, the earliest timestamp
    and the one of the others. *)
Definition min_queue : Type := bool * nat * Z * Z.
Definition find_min_step (i : nat) (q : Queue) (acc : min_queue) : min_queue :=
  let '(found, idx, t0, t1) := acc in
  if empty (events_ q) then acc
  else if negb found || (min_ts_ q <? t0) then (true, i, min_ts_ q, t0)
  else if min_ts_ q <? t1 then (found, idx, t0, min_ts_ q)
  else acc.
Fixpoint find_min (i : nat) (qs : list Queue) (acc : min_queue) : min_queue :=
  match qs with [] => acc | q :: qs => find_min (S i) qs (find_min_step i q acc) end.
(** The loop over the events of that queue. *)
Fixpoint extract_events (queue_idx : nat) (limit_offset t1 : Z) (events : list TimestampedDescriptor) (s : TraceSorter) : outcome (Z * TraceSorter) :=
  match events with
  | [] => Ok (0, s)
  | d :: events =>
      if (limit_offset <=? td_offset d) || (t1 <? ts_ d) then Ok (0, s)
      else let! s := MaybePushEvent queue_idx d s in let! (n, s) := extract_events queue_idx limit_offset t1 events s in Ok (1 + n, s)
  end.
Definition max_ts_of (qs : list Queue) : Z := fold_left (fun m q => Z.max m (max_ts_ q)) qs 0.
(** After the events were pushed they leave the queue, and the bounds are updated. *)
Definition drop_extracted (idx : nat) (q : Queue) (n t1 : Z) (s : TraceSorter) : outcome TraceSorter :=
  let! events := erase_front n (events_ q) in
  let s := set_variadic (FreeMemory (variadic_queue_ s)) s in
  if empty events then
    let s := set_queues (<[idx := mkSorterQueue events kTsMax 0 (sort_start_idx_ q) (sort_min_ts_ q)]> (queues_ s)) s in
    Ok (set_global t1 (max_ts_of (queues_ s)) s)
  else
    let! d := front events in
    let s := set_queues (<[idx := mkSorterQueue events (ts_ d) (max_ts_ q) (sort_start_idx_ q) (sort_min_ts_ q)]> (queues_ s)) s in
    Ok (set_global (Z.min (ts_ d) t1) (global_max_ts_ s) s).
(** One round, and whether to go on. *)
Definition extract_round (limit_offset : Z) (s : TraceSorter) : outcome (bool * TraceSorter) :=
  let '(found, idx, t0, t1) := find_min 0 (queues_ s) (false, 0%nat, kTsMax, kTsMax) in
  if negb found then Ok (false, s)
  else
    match queues_ s !! idx with
    | None => Crash
    | Some q =>
        let! q := if needs_sorting q then Queue_Sort q else Ok q in
        let s := set_queues (<[idx := q]> (queues_ s)) s in
        let! events := elements (events_ q) in
        let! (n, s) := extract_events idx limit_offset t1 events s in
        if n =? 0 then Ok (false, s) else let! s := drop_extracted idx q n t1 s in Ok (true, s)
    end.
(** Every round but the last extracts an event; more rounds than events would be a Crash. *)
Fixpoint extract_loop (fuel : nat) (limit_offset : Z) (s : TraceSorter) : outcome TraceSorter :=
  match fuel with
  | O => Crash
  | S fuel => let! (go_on, s) := extract_round limit_offset s in if go_on then extract_loop fuel limit_offset s else Ok s
  end.
Definition num_events (s : TraceSorter) : Z := fold_right (fun q n => queue_size (events_ q) + n) 0 (queues_ s).
Definition SortAndExtractEventsUntilPacket (limit_offset : Z) (s : TraceSorter) : outcome TraceSorter :=
  extract_loop (S (Z.to_nat (num_events s))) limit_offset s.

Definition ExtractEventsForced (s : TraceSorter) : outcome TraceSorter :=
  let! cur_mem_block_offset := NextOffset (variadic_queue_ s) in
  let! s := SortAndExtractEventsUntilPacket cur_mem_block_offset s in
  Ok (set_window cur_mem_block_offset 0 (set_queues [] s)).
Definition NotifyFlushEvent (s : TraceSorter) : TraceSorter := set_window (offset_for_extraction_ s) (u32 (flushes_since_extraction_ s + 1)) s.
Definition NotifyReadBufferEvent (s : TraceSorter) : outcome TraceSorter :=
  if (match sorting_mode_ s with kFullSort => true | kDefault => false end) || (flushes_since_extraction_ s <? 2) then Ok s
  else
    let! s := SortAndExtractEventsUntilPacket (offset_for_extraction_ s) s in
    let! next := NextOffset (variadic_queue_ s) in
    Ok (set_window next 0 s).
(** The destructor takes the remaining values out of the queue, which checks that it is
    empty. *)
Fixpoint evict_all (ds : list TimestampedDescriptor) (v : @VariadicQueue D) : outcome (@VariadicQueue D) :=
  match ds with
  | [] => Ok v
  | d :: ds => let! (_, v) := match td_type d with kInvalid => Crash | T => VariadicQueue_Evict T (td_offset d) v end in evict_all ds v
  end.
Fixpoint evict_queues (qs : list Queue) (v : @VariadicQueue D) : outcome (@VariadicQueue D) :=
  match qs with
  | [] => Ok v
  | q :: qs => let! ds := elements (events_ q) in let! v := evict_all ds v in evict_queues qs v
  end.
Definition TraceSorter_delete (s : TraceSorter) : outcome unit := let! v := evict_queues (queues_ s) (variadic_queue_ s) in VariadicQueue_delete v.

(** ** What a client does *)

Inductive sorter_op :=
| PushPacketOp (T : Type_) (ts : Z) (value : D)
| PushFtraceOp (T : Type_) (cpu ts : Z) (value : D)
| FlushOp | ReadBufferOp | ForcedOp.
Definition run_sorter_op (o : sorter_op) (s : TraceSorter) : outcome TraceSorter :=
  match o with
  | PushPacketOp T ts v => PushPacket T ts v s
  | PushFtraceOp T cpu ts v => PushFtraceEvent T cpu ts v s
  | FlushOp => Ok (NotifyFlushEvent s)
  | ReadBufferOp => NotifyReadBufferEvent s
  | ForcedOp => ExtractEventsForced s
  end.
Fixpoint run_sorter (ops : list sorter_op) (s : TraceSorter) : outcome TraceSorter :=
  match ops with [] => Ok s | o :: ops => let! s := run_sorter_op o s in run_sorter ops s end.
Definition event_of (o : sorter_op) : option pushed_event :=
  match o with
  | PushPacketOp T ts v => Some (0%nat, ts, T, v)
  | PushFtraceOp T cpu ts v => Some (Z.to_nat (u32 (cpu + 1)), ts, T, v)
  | _ => None
  end.
End sorter.

(** The definitions at work. *)
Definition demo_sizes (T : Type_) : Z := match T with kFtraceEvent => 40 | kTracePacket => 40 | _ => 24 end.
Definition demo_sorter_ops : list (@sorter_op Z) :=
  [PushPacketOp kTracePacket 50 1; PushFtraceOp kFtraceEvent 0 30 2; PushFtraceOp kFtraceEvent 0 10 3; PushFtraceOp kInlineSchedWaking 1 20 4; PushPacketOp kTrackEvent 10 5; PushFtraceOp kFtraceEvent 0 30 6].
Example demo_sorted : match run_sorter demo_sizes (demo_sorter_ops ++ [ForcedOp]) (TraceSorter_new kDefault false) with
  | Ok s => map snd (pushed_ s) = [5; 3; 4; 2; 6; 1] /\ out_of_order_ s = 0
  | Crash => False
  end.
Proof. vm_compute. done. Qed.

(** ** Descriptors and their order *)

Lemma Descriptor_parts o T : 0 <= o < 2 ^ 32 -> descriptor_offset (Descriptor o T) = o /\ descriptor_type (Descriptor o T) = T.
Proof.
  intros Ho. change (2 ^ 32) with 4294967296 in Ho. assert (Hc : 0 <= type_code T < 2 ^ 4) by (destruct T; cbn; lia).
  assert (E : Descriptor o T = type_code T + o * 16).
  { unfold Descriptor, kTypeBits. rewrite u32_small by lia. rewrite u64_small by (rewrite Z.shiftl_mul_pow2 by lia; lia). rewrite Z.lor_comm. by apply lor_shiftl_add. }
  assert (Em : kTypeMask = 2 ^ 4 - 1) by done. unfold descriptor_offset, descriptor_type, kTypeBits. rewrite E, Em, shiftr_div, land_ones_mod by lia. change (2 ^ 4) with 16 in *. split.
  - rewrite Z.div_add, Z.div_small by lia. apply u32_small. lia.
  - rewrite Z.mod_add, Z.mod_small by lia. by destruct T.
Qed.
#[export] Instance td_lt_order : WeakOrder td_lt.
Proof. split; intros x y; unfold td_lt; intros; lia. Qed.
Lemma td_lt_false x y : td_lt x y = false <-> ts_ y < ts_ x \/ ts_ x = ts_ y /\ td_offset y <= td_offset x.
Proof. unfold td_lt. lia. Qed.

(** ** One queue *)

(** [l] is what the queue holds, in the order of the buffer. *)
Record queue_ok (q : Queue) (l : list TimestampedDescriptor) : Prop := {
  qo_events : represents (events_ q) l;
  qo_min : if decide (l = []) then min_ts_ q = kTsMax else Forall (fun d => min_ts_ q <= ts_ d) l /\ Exists (fun d => ts_ d = min_ts_ q) l;
  qo_max : Forall (fun d => ts_ d <= max_ts_ q) l;
  qo_sorted : if sort_start_idx_ q =? 0 then sorted_by td_lt l
              else 0 < sort_start_idx_ q < zlen l /\ sorted_by td_lt (ztake (sort_start_idx_ q) l) /\ Forall (fun d => sort_min_ts_ q <= ts_ d) (zdrop (sort_start_idx_ q) l)
}.
Lemma Queue_new_ok : exists q, Queue_new = Ok q /\ queue_ok q [] /\ end_ (events_ q) = 0.
Proof.
  unfold Queue_new. destruct (CircularQueue_new_spec (T := TimestampedDescriptor) 10) as (q & E & H & _ & Hb); [lia|]. change (2 ^ 10) with 1024 in E. rewrite E. cbn [obind]. eexists. split; [done|].
  split; [|cbn; by rewrite (rp_end _ _ H), Hb]. split; [exact H|done|constructor|constructor].
Qed.
Lemma Queue_Append_ok q l d : queue_ok q l -> end_ (events_ q) < 2 ^ 62 -> kTsMin <= ts_ d <= kTsMax -> Forall (fun x => td_offset x < td_offset d) l ->
  exists q', Queue_Append d q = Ok q' /\ queue_ok q' (l ++ [d]) /\ end_ (events_ q') <= end_ (events_ q) + 1.
Proof.
  intros [He Hmin Hmax Hsort] Hend Hts Hoff. assert (Hw : 2 ^ 62 < 2 ^ 63 /\ 2 ^ 63 < 2 ^ 64) by (split; apply Z.pow_lt_mono_r; lia).
  pose proof (rp_end _ _ He) as Hen. pose proof (rp_begin _ _ He). pose proof (zlen_nonneg l) as Hl.
  destruct (emplace_back_spec (events_ q) l d He) as (ev & E & He' & Hend' & _); [lia..|]. unfold Queue_Append. rewrite E. cbn [obind]. eexists. split; [done|].
  assert (Hmin' : if decide (l ++ [d] = []) then Z.min (min_ts_ q) (ts_ d) = kTsMax else Forall (fun x => Z.min (min_ts_ q) (ts_ d) <= ts_ x) (l ++ [d]) /\ Exists (fun x => ts_ x = Z.min (min_ts_ q) (ts_ d)) (l ++ [d])).
  { rewrite decide_False by (by destruct l). rewrite Forall_app, Exists_app, Forall_singleton. destruct (decide (l = [])) as [->|Hne].
    - rewrite Hmin, Z.min_r by lia. split; [split; [constructor|lia]|right; by constructor].
    - destruct Hmin as [Hm1 Hm2]. split; [split; [|lia]|].
      + eapply Forall_impl; [exact Hm1|]. cbn. intros x Hx. lia.
      + destruct (Z.le_gt_cases (min_ts_ q) (ts_ d)); [left; by rewrite Z.min_l|right]. rewrite Z.min_r by lia. by constructor. }
  assert (Hsz : queue_size ev = zlen l + 1) by (rewrite (size_spec _ _ He'), zlen_snoc; lia).
  destruct (Z.leb_spec (max_ts_ q) (ts_ d)) as [Hge|Hlt]; [|destruct (Z.eqb_spec (sort_start_idx_ q) 0) as [Hz|Hz]]; split; cbn [events_]; try lia; split; cbn [events_ min_ts_ max_ts_ sort_start_idx_ sort_min_ts_]; try done.
  - apply Forall_app. split; [|apply Forall_singleton; lia]. eapply Forall_impl; [exact Hmax|]. cbn. lia.
  - destruct (sort_start_idx_ q =? 0) eqn:Ez.
    + apply sorted_by_app. split; [done|]. split; [by repeat constructor|]. intros x y Hx ->%list_elem_of_singleton. rewrite Forall_forall in Hmax, Hoff. apply td_lt_false. specialize (Hmax x Hx). specialize (Hoff x Hx). cbn in *. lia.
    + destruct Hsort as (H1 & H2 & H3). rewrite zlen_snoc. split; [lia|]. rewrite ztake_app_le by lia. split; [done|]. rewrite zdrop_app_le by lia.
      apply Forall_app. split; [done|]. apply Forall_singleton. rewrite Forall_forall in H3, Hmax. destruct (zdrop (sort_start_idx_ q) l) as [|x r] eqn:Ed; [assert (zlen (zdrop (sort_start_idx_ q) l) = 0) by (by rewrite Ed); rewrite zlen_zdrop in *; lia|].
      specialize (H3 x ltac:(left)). assert (Hx : x ∈ l) by (rewrite <- (ztake_zdrop (sort_start_idx_ q) l), Ed; apply elem_of_app; right; left). specialize (Hmax x Hx). cbn in *. lia.
  - apply Forall_app. split; [done|apply Forall_singleton; lia].
  - rewrite Hsz. replace (zlen l + 1 - 1) with (zlen l) by lia. destruct (Z.eqb_spec (zlen l) 0) as [E0|E0].
    + destruct l; [by repeat constructor|rewrite zlen_cons in E0; pose proof (zlen_nonneg l); lia].
    + rewrite zlen_snoc. split; [lia|]. rewrite ztake_zlen_app, zdrop_zlen_app. split; [done|]. by repeat constructor.
  - apply Forall_app. split; [done|apply Forall_singleton; lia].
  - rewrite (proj2 (Z.eqb_neq _ _) Hz). destruct Hsort as (H1 & H2 & H3). rewrite zlen_snoc. split; [lia|]. rewrite ztake_app_le by lia. split; [done|]. rewrite zdrop_app_le by lia.
    apply Forall_app. split; [|apply Forall_singleton; lia]. eapply Forall_impl; [exact H3|]. cbn. lia.
Qed.
(** Sorting from the place of the smallest late event on sorts everything. *)
Lemma sort_tail_sorted l n k smin : sorted_by td_lt (take n l) -> Forall (fun d => smin <= ts_ d) (drop n l) -> partitioned (fun d => td_Compare d smin) (take n l) k ->
  sorted_by td_lt (take k l ++ std_sort td_lt (drop k l)) /\ take k l ++ std_sort td_lt (drop k l) ≡ₚ l.
Proof.
  intros Hs Hf [Hk Hp]. assert (Hkn : (k <= n)%nat) by (rewrite length_take in Hk; lia).
  assert (Etk : take k l = take k (take n l)) by (by rewrite take_take, Nat.min_l by lia). split.
  - apply sorted_by_app. split; [|split; [by apply std_sort_sorted; apply _|]].
    + rewrite Etk. rewrite <- (take_drop k (take n l)) in Hs. by apply sorted_by_app in Hs as (H1 & _ & _).
    + intros x y Hx Hy. rewrite std_sort_permutation in Hy. rewrite Etk in Hx. rewrite <- (take_drop (n - k) (drop k l)) in Hy. rewrite drop_drop in Hy. replace (k + (n - k))%nat with n in Hy by lia.
      apply elem_of_app in Hy as [Hy|Hy].
      * rewrite <- (take_drop k (take n l)) in Hs. apply sorted_by_app in Hs as (_ & _ & H3). apply H3; [done|]. by rewrite skipn_firstn_comm.
      * rewrite Forall_forall in Hf. specialize (Hf y Hy). cbn in Hf. apply list_elem_of_lookup in Hx as [i Hi]. apply lookup_take_Some in Hi as [Hi Hik]. specialize (Hp i x Hi). rewrite bool_decide_eq_true_2 in Hp by done. unfold td_Compare in Hp. apply td_lt_false. lia.
  - rewrite std_sort_permutation. by rewrite take_drop.
Qed.
Lemma Queue_Sort_ok q l : queue_ok q l -> needs_sorting q = true ->
  exists q' l', Queue_Sort q = Ok q' /\ queue_ok q' l' /\ l' ≡ₚ l /\ sorted_by td_lt l' /\ sort_start_idx_ q' = 0 /\ min_ts_ q' = min_ts_ q /\ end_ (events_ q') = end_ (events_ q).
Proof.
  intros [He Hmin Hmax Hsort] Hn. apply negb_true_iff in Hn. rewrite Hn in Hsort. destruct Hsort as (Hlt & Hs1 & Hs2). set (n := Z.to_nat (sort_start_idx_ q)). assert (Hnl : (n < length l)%nat) by (unfold zlen in Hlt; lia).
  unfold ztake in Hs1. unfold zdrop in Hs2. fold n in Hs1, Hs2. unfold Queue_Sort. fold n.
  pose proof (read_from_spec (events_ q) l He n 0 ltac:(lia)) as Er. rewrite Z.add_0_r, drop_0 in Er. rewrite Er. cbn [obind].
  destruct (partition_point_exists (fun d => td_Compare d (sort_min_ts_ q)) (take n l)) as [k Hk].
  { intros i j x y Hij Hi Hj Hy. unfold td_Compare in *. destruct (decide (i = j)) as [->|]; [congruence|]. assert (Hlt' : (i < j)%nat) by lia. pose proof (sorted_by_lookup _ _ _ _ _ _ Hs1 Hlt' Hi Hj) as Hxy. apply td_lt_false in Hxy. lia. }
  assert (El : lower_bound td_Compare (take n l) (sort_min_ts_ q) = k) by (apply partition_point_spec; exact Hk). rewrite El.
  destruct Hk as [Hk1 Hk2]. rewrite length_take in Hk1. rewrite (rp_end _ _ He). unfold zlen.
  destruct (sort_range_spec td_lt (events_ q) l k (length l) He) as (ev & Es & Hev & Hend); [lia|]. rewrite Es. cbn [obind].
  destruct (sort_tail_sorted l n k (sort_min_ts_ q) Hs1 Hs2) as [Hsorted Hperm]; [by split; [rewrite length_take|]|].
  rewrite (drop_ge l (length l)), app_nil_r in Hev by lia. rewrite (take_ge (drop k l)) in Hev by (rewrite length_drop; lia). eexists _, _. split; [done|]. split; [|split; [exact Hperm|]; split; [exact Hsorted|]; split; [done|]; split; [done|]; cbn [events_]; by rewrite Hend, (rp_end _ _ He)].
  split; cbn [events_ min_ts_ max_ts_ sort_start_idx_ sort_min_ts_ Z.eqb]; [exact Hev| |by rewrite Hperm|exact Hsorted].
  assert (Hnil : forall l', l' ≡ₚ l -> l' = [] <-> l = []) by (intros l' Hp; split; intros ->; [by apply Permutation_nil in Hp|by apply Permutation_nil_r in Hp]).
  rewrite (decide_ext _ _ _ _ (Hnil _ Hperm)). destruct (decide (l = [])); [done|]. by rewrite Hperm.
Qed.

(** ** The queue that starts first *)

Definition in_range (d : TimestampedDescriptor) : Prop := kTsMin <= ts_ d <= kTsMax.
Lemma empty_spec q l : queue_ok q l -> empty (events_ q) = bool_decide (l = []).
Proof.
  intros H. unfold empty. rewrite (size_spec _ _ (qo_events _ _ H)). destruct l as [|d l]; [done|]. rewrite bool_decide_eq_false_2 by done. rewrite zlen_cons. pose proof (zlen_nonneg l). lia.
Qed.
Lemma min_ts_spec q l : queue_ok q l -> l <> [] -> Forall (fun d => min_ts_ q <= ts_ d) l /\ Exists (fun d => ts_ d = min_ts_ q) l.
Proof. intros H Hne. pose proof (qo_min _ _ H) as Hm. by rewrite decide_False in Hm. Qed.
(** What the loop over the queues knows after some of them. *)
Definition found_min (qs : list Queue) (cs : list (list TimestampedDescriptor)) (acc : min_queue) : Prop :=
  let '(found, idx, t0, t1) := acc in
  if found : bool then
    exists q l, qs !! idx = Some q /\ cs !! idx = Some l /\ l <> [] /\ min_ts_ q = t0 /\ t0 <= t1 <= kTsMax /\ Forall (fun d => t0 <= ts_ d) l /\
      forall j l' d, cs !! j = Some l' -> j <> idx -> d ∈ l' -> t1 <= ts_ d
  else t0 = kTsMax /\ t1 = kTsMax /\ Forall (fun l => l = []) cs.
Lemma find_min_step_spec qs cs q l acc : length qs = length cs -> queue_ok q l -> Forall in_range l -> found_min qs cs acc ->
  found_min (qs ++ [q]) (cs ++ [l]) (find_min_step (length qs) q acc).
Proof.
  intros Hlen Hq Hr. destruct acc as [[[found idx] t0] t1]. intros Hacc. unfold find_min_step. rewrite (empty_spec _ _ Hq).
  assert (Hlast : forall j l', (cs ++ [l]) !! j = Some l' -> cs !! j = Some l' \/ j = length cs /\ l' = l) by (intros j l' Hj; apply lookup_snoc_Some in Hj as [[_ Hj]|[-> <-]]; auto).
  case_bool_decide as Hl.
  - subst l. unfold found_min in *. destruct found; [|destruct Hacc as (-> & -> & Hall); split; [done|split; [done|]]; apply Forall_app; split; [done|by constructor]].
    destruct Hacc as (q0 & l0 & H1 & H2 & H3 & H4 & H5 & H6 & H7). exists q0, l0. rewrite !lookup_app_l by (by eapply lookup_lt_Some). do 6 (split; [done|]).
    intros j l' d Hj Hne Hd. apply Hlast in Hj as [Hj|[-> ->]]; [by eapply H7|by apply not_elem_of_nil in Hd].
  - destruct (min_ts_spec _ _ Hq Hl) as [Hm1 Hm2]. assert (Hmr : min_ts_ q <= kTsMax) by (apply Exists_exists in Hm2 as (d & Hd & <-); rewrite Forall_forall in Hr; apply Hr in Hd; unfold in_range in Hd; lia).
    assert (Hnew : forall t, min_ts_ q <= t <= kTsMax -> (forall j l' d, cs !! j = Some l' -> d ∈ l' -> t <= ts_ d) -> found_min (qs ++ [q]) (cs ++ [l]) (true, length qs, min_ts_ q, t)).
    { intros t Ht Hothers. exists q, l. rewrite !lookup_app_r, Hlen, !Nat.sub_diag by lia. do 6 (split; [done|]). intros j l' d Hj Hne Hd. apply Hlast in Hj as [Hj|[-> ->]]; [by eapply Hothers|done]. }
    destruct found; cbn [negb orb]; unfold found_min in Hacc.
    + destruct Hacc as (q0 & l0 & H1 & H2 & H3 & H4 & H5 & H6 & H7). destruct (Z.ltb_spec (min_ts_ q) t0) as [Hlt|Hge].
      * apply Hnew; [lia|]. intros j l' d Hj Hd. destruct (decide (j = idx)) as [->|Hji]; [|specialize (H7 j l' d Hj Hji Hd); lia]. rewrite H2 in Hj. injection Hj as <-. rewrite Forall_forall in H6. by apply H6.
      * assert (Hkeep : forall t, t0 <= t <= kTsMax -> t <= t1 -> t <= min_ts_ q -> found_min (qs ++ [q]) (cs ++ [l]) (true, idx, t0, t)).
        { intros t Ht Ht1 Ht2. exists q0, l0. rewrite !lookup_app_l by (by eapply lookup_lt_Some). do 6 (split; [done|]). intros j l' d Hj Hne Hd. apply Hlast in Hj as [Hj|[-> ->]]; [specialize (H7 j l' d Hj Hne Hd); lia|].
          rewrite Forall_forall in Hm1. specialize (Hm1 d Hd). cbn in Hm1. lia. }
        destruct (Z.ltb_spec (min_ts_ q) t1); apply Hkeep; lia.
    + destruct Hacc as (-> & -> & Hall). apply Hnew; [lia|]. intros j l' d Hj Hd. rewrite Forall_lookup in Hall. rewrite (Hall j l' Hj) in Hd. by apply not_elem_of_nil in Hd.
Qed.
Lemma find_min_spec qs cs : Forall2 queue_ok qs cs -> Forall (Forall in_range) cs -> found_min qs cs (find_min 0 qs (false, 0%nat, kTsMax, kTsMax)).
Proof.
  intros H Hr. assert (Hgen : forall rest crest done cdone acc, Forall2 queue_ok rest crest -> Forall (Forall in_range) crest -> length done = length cdone -> found_min done cdone acc ->
    found_min (done ++ rest) (cdone ++ crest) (find_min (length done) rest acc)).
  { intros rest. induction rest as [|q rest IH]; intros crest dn cdone acc H2 Hr2 Hlen Hacc; inversion H2 as [|? l ? crest' Hq H3]; subst; [by rewrite !app_nil_r|]. apply Forall_cons in Hr2 as [Hrl Hr2]. cbn [find_min].
    change (q :: rest) with ([q] ++ rest). change (l :: crest') with ([l] ++ crest'). rewrite !app_assoc. replace (S (length dn)) with (length (dn ++ [q])) by (rewrite length_app; cbn; lia).
    apply IH; [done|done|rewrite !length_app; cbn; lia|by apply find_min_step_spec]. }
  apply (Hgen qs cs [] [] _ H Hr eq_refl). cbn. done.
Qed.
