(* ===== verification/TraceSorterExtract.v ===== *)
(** * The trace sorter is a merge of its queues

    Every event that is pushed to the sorter comes out once, with its payload; extracted
    events come out in the order of their timestamps, those of one queue with equal timestamps
    in the order in which they were pushed. *)

From S2P Require Import Prelude StdAlgorithms CircularQueue TraceSorterQueue TraceSorter.

(** ** Lists of queues *)

Lemma concat_insert {A} (cs : list (list A)) i l l' : cs !! i = Some l -> concat (<[i := l']> cs) ++ l ≡ₚ l' ++ concat cs.
Proof.
  intros Hi. rewrite <- (take_drop_middle cs i l Hi) at 2. rewrite insert_take_drop by (by eapply lookup_lt_Some). rewrite !concat_app. cbn [concat]. solve_Permutation.
Qed.
Lemma elem_of_concat {A} (cs : list (list A)) x : x ∈ concat cs <-> exists i l, cs !! i = Some l /\ x ∈ l.
Proof.
  induction cs as [|l cs IH]; cbn [concat]; [split; [intros H; by apply not_elem_of_nil in H|intros (i & l & H & _); done]|]. rewrite elem_of_app, IH. split.
  - intros [H|(i & k & H1 & H2)]; [by exists 0%nat, l|by exists (S i), k].
  - intros ([|i] & k & H1 & H2); [injection H1 as <-; by left|right; by exists i, k].
Qed.
Lemma elem_of_concat_insert {A} (cs : list (list A)) i l l' x : cs !! i = Some l -> x ∈ concat (<[i := l']> cs) -> (forall y, y ∈ l' -> y ∈ l) -> x ∈ concat cs.
Proof.
  intros Hi Hx Hsub. apply elem_of_concat in Hx as (j & k & Hj & Hx). apply elem_of_concat. destruct (decide (j = i)) as [->|].
  - rewrite list_lookup_insert_eq in Hj by (by eapply lookup_lt_Some). injection Hj as <-. exists i, l. auto.
  - rewrite list_lookup_insert_ne in Hj by done. by exists j, k.
Qed.

Section sorter.
Context {D : Type} (sizeof_T : Type_ -> Z).
#[local] Abbreviation Heap := (gmap Z (Type_ * D)).
#[local] Abbreviation TD := TimestampedDescriptor.
#[local] Abbreviation Event := (@pushed_event D).

(** ** The events that are staged *)

Definition ev_queue (e : Event) : nat := e.1.1.1.
Definition ev_ts (e : Event) : Z := e.1.1.2.
Definition ev_value (e : Event) : D := e.2.
Definition event (m : Heap) (i : nat) (d : TD) : option Event := '(_, v) ← m !! td_offset d; Some (i, ts_ d, td_type d, v).
Definition queue_events (m : Heap) (i : nat) (l : list TD) : list Event := omap (event m i) l.
Fixpoint staged_from (m : Heap) (i : nat) (cs : list (list TD)) : list Event :=
  match cs with [] => [] | l :: cs => queue_events m i l ++ staged_from m (S i) cs end.
Definition staged (m : Heap) (cs : list (list TD)) : list Event := staged_from m 0 cs.

Lemma staged_from_app m cs1 : forall i cs2, staged_from m i (cs1 ++ cs2) = staged_from m i cs1 ++ staged_from m (i + length cs1) cs2.
Proof.
  induction cs1 as [|l cs1 IH]; intros i cs2; cbn [staged_from app length]; [by rewrite Nat.add_0_r|]. rewrite IH, <- app_assoc. by replace (i + S (length cs1))%nat with (S i + length cs1)%nat by lia.
Qed.
Lemma staged_insert m cs i l l' : cs !! i = Some l -> staged m (<[i := l']> cs) ++ queue_events m i l ≡ₚ queue_events m i l' ++ staged m cs.
Proof.
  intros Hi. rewrite <- (take_drop_middle cs i l Hi) at 2. rewrite insert_take_drop by (by eapply lookup_lt_Some). unfold staged. rewrite !staged_from_app. cbn [staged_from].
  rewrite length_take, Nat.min_l by (apply lookup_lt_Some in Hi; lia). cbn [Nat.add]. solve_Permutation.
Qed.
Lemma queue_events_ext m m' i l : (forall d, d ∈ l -> m' !! td_offset d = m !! td_offset d) -> queue_events m' i l = queue_events m i l.
Proof.
  intros H. unfold queue_events. induction l as [|d l IH]; [done|]. cbn [omap list_omap]. rewrite IH by (intros d' Hd'; apply H; by right). unfold event. by rewrite (H d) by left.
Qed.
Lemma staged_ext m m' cs : (forall d, d ∈ concat cs -> m' !! td_offset d = m !! td_offset d) -> staged m' cs = staged m cs.
Proof.
  unfold staged. generalize 0%nat. induction cs as [|l cs IH]; intros i H; [done|]. cbn [staged_from concat] in *. rewrite (queue_events_ext m m') by (intros d Hd; apply H; apply elem_of_app; by left).
  f_equal. apply IH. intros d Hd. apply H. apply elem_of_app. by right.
Qed.
Lemma elem_of_queue_events m i l e : e ∈ queue_events m i l <-> exists d, d ∈ l /\ event m i d = Some e.
Proof. apply list_elem_of_omap. Qed.
Lemma elem_of_staged m cs e : e ∈ staged m cs <-> exists i l d, cs !! i = Some l /\ d ∈ l /\ event m i d = Some e.
Proof.
  unfold staged. assert (Hgen : forall k, e ∈ staged_from m k cs <-> exists i l d, cs !! i = Some l /\ d ∈ l /\ event m (k + i) d = Some e); [|by rewrite Hgen].
  induction cs as [|l cs IH]; intros k; cbn [staged_from]; [split; [intros H; by apply not_elem_of_nil in H|intros (i & l & d & H & _); done]|].
  rewrite elem_of_app, elem_of_queue_events, IH. split.
  - intros [(d & Hd & He)|(i & l' & d & Hi & Hd & He)]; [exists 0%nat, l, d; by rewrite Nat.add_0_r|exists (S i), l', d; by rewrite Nat.add_succ_r].
  - intros ([|i] & l' & d & Hi & Hd & He); [injection Hi as <-; left; exists d; by rewrite Nat.add_0_r in He|right; exists i, l', d; by rewrite Nat.add_succ_r in He].
Qed.
Lemma event_parts m i d e : event m i d = Some e -> ev_queue e = i /\ ev_ts e = ts_ d /\ exists T, m !! td_offset d = Some (T, ev_value e).
Proof. unfold event. destruct (m !! td_offset d) as [[T v]|]; [|done]. intros [= <-]. split; [done|]. split; [done|]. by exists T. Qed.

(** ** The invariant of the sorter *)

#[local] Abbreviation Sorter := (@TraceSorter D).
(** What was pushed: the latest timestamp, and that nothing is counted as out of order as long
    as the timestamps do not decrease. *)
Definition ts_le (a b : Event) : Prop := ev_ts a <= ev_ts b.
Record history (latest out : Z) (p : list Event) : Prop := {
  hi_max : Forall (fun e => ev_ts e <= latest) p;
  hi_is : latest = kTsMin \/ Exists (fun e => ev_ts e = latest) p;
  hi_order : StronglySorted ts_le p -> out = 0
}.
Definition live (m : Heap) (d : TD) : Prop := td_type d <> kInvalid /\ exists v, m !! td_offset d = Some (td_type d, v).
Record sorter_ok (s : Sorter) (m : Heap) (next : Z) (cs : list (list TD)) : Prop := {
  so_queues : Forall2 queue_ok (queues_ s) cs;
  so_range : Forall (Forall in_range) cs;
  so_heap : stores (variadic_queue_ s) m next;
  so_block : block_size_ (variadic_queue_ s) = kDefaultSize;
  so_live : forall d, d ∈ concat cs -> live m d;
  so_nodup : NoDup (map td_offset (concat cs));
  so_all : forall g v, m !! g = Some v -> exists d, d ∈ concat cs /\ td_offset d = g;
  so_ends : Forall (fun q => end_ (events_ q) <= next) (queues_ s);
  so_next : 0 <= next < 2 ^ 32;
  so_history : history (latest_pushed_event_ts_ s) (out_of_order_ s) (pushed_ s);
  so_bypass : bypass_next_stage_for_testing_ s = false
}.

(** One event goes to the parser. *)
Definition after_push (i : nat) (e : Event) (out : Z) (v : @VariadicQueue D) (s : Sorter) : Sorter :=
  mkSorter (sorting_mode_ s) (offset_for_extraction_ s) (flushes_since_extraction_ s) v (queues_ s) (global_max_ts_ s) (global_min_ts_ s)
    (bypass_next_stage_for_testing_ s) (Z.max (latest_pushed_event_ts_ s) (ev_ts e)) out (pushed_ s ++ [e]).
Lemma MaybePushEvent_spec i d s m next : stores (variadic_queue_ s) m next -> live m d -> bypass_next_stage_for_testing_ s = false -> in_range d -> history (latest_pushed_event_ts_ s) (out_of_order_ s) (pushed_ s) ->
  exists e out v, event m i d = Some e /\ MaybePushEvent i d s = Ok (after_push i e out v s) /\ stores v (delete (td_offset d) m) next /\ block_size_ v = block_size_ (variadic_queue_ s) /\
    history (Z.max (latest_pushed_event_ts_ s) (ts_ d)) out (pushed_ s ++ [e]).
Proof.
  intros Hst [Hty [v Hv]] Hb Hr [H1 H2 H3]. destruct (Evict_spec _ _ _ _ _ _ Hst Hv) as (q' & E & Hst' & Hbs).
  exists (i, ts_ d, td_type d, v), (if ts_ d <? latest_pushed_event_ts_ s then out_of_order_ s + 1 else out_of_order_ s), q'.
  split; [unfold event; by rewrite Hv|]. split; [|split; [done|split; [done|]]].
  - unfold MaybePushEvent. replace (match td_type d with kInvalid => Crash | T => VariadicQueue_Evict T (td_offset d) (variadic_queue_ s) end) with (VariadicQueue_Evict (td_type d) (td_offset d) (variadic_queue_ s)) by (by destruct (td_type d)).
    rewrite E. cbn [obind]. unfold after_push. by rewrite Hb.
  - split.
    + apply Forall_app. split; [|apply Forall_singleton; unfold ev_ts; cbn; lia]. eapply Forall_impl; [exact H1|]. cbn. lia.
    + destruct (Z.le_gt_cases (latest_pushed_event_ts_ s) (ts_ d)).
      * right. rewrite Z.max_r by lia. apply Exists_app. right. by constructor.
      * rewrite Z.max_l by lia. destruct H2 as [->|H2]; [unfold in_range in Hr; lia|]. right. apply Exists_app. by left.
    + intros Hs. apply StronglySorted_app in Hs as (Hc & Hs & _). rewrite (H3 Hs). destruct (Z.ltb_spec (ts_ d) (latest_pushed_event_ts_ s)) as [Hlt|]; [|done]. exfalso.
      destruct H2 as [E2|H2]; [unfold in_range in Hr; lia|]. apply Exists_exists in H2 as (e & He & Ee). specialize (Hc e _ He ltac:(left)). unfold ts_le, ev_ts in *. cbn in Hc. lia.
Qed.

(** The offsets of the events that were taken leave the heap. *)
Definition without (m : Heap) (l : list TD) : Heap := fold_left (fun m d => delete (td_offset d) m) l m.
Lemma without_lookup l : forall m g, (forall d, d ∈ l -> td_offset d <> g) -> without m l !! g = m !! g.
Proof.
  induction l as [|d l IH]; intros m g H; [done|]. cbn [without fold_left]. change (without (delete (td_offset d) m) l !! g = m !! g). rewrite IH by (intros d' Hd'; apply H; by right). apply lookup_delete_ne. apply H. by left.
Qed.
Lemma without_sub l : forall m g v, without m l !! g = Some v -> m !! g = Some v /\ forall d, d ∈ l -> td_offset d <> g.
Proof.
  induction l as [|d l IH]; intros m g v H; [split; [done|intros d Hd; by apply not_elem_of_nil in Hd]|]. cbn [without fold_left] in H. apply (IH (delete (td_offset d) m)) in H as [H Hl]. apply lookup_delete_Some in H as [Hne H].
  split; [done|]. intros d' [->|Hd']%elem_of_cons; auto.
Qed.
(** The part of the state that only the rounds change. *)
Definition same_frame (s s' : Sorter) : Prop :=
  sorting_mode_ s' = sorting_mode_ s /\ offset_for_extraction_ s' = offset_for_extraction_ s /\ flushes_since_extraction_ s' = flushes_since_extraction_ s /\ bypass_next_stage_for_testing_ s' = bypass_next_stage_for_testing_ s.
Lemma same_frame_trans s1 s2 s3 : same_frame s1 s2 -> same_frame s2 s3 -> same_frame s1 s3.
Proof. intros (A1 & A2 & A3 & A4) (B1 & B2 & B3 & B4). repeat split; congruence. Qed.
Lemma extract_events_spec i limit t1 next : forall l s m, stores (variadic_queue_ s) m next -> (forall d, d ∈ l -> live m d) -> NoDup (map td_offset l) -> Forall in_range l ->
  bypass_next_stage_for_testing_ s = false -> history (latest_pushed_event_ts_ s) (out_of_order_ s) (pushed_ s) ->
  exists taken rest s', l = taken ++ rest /\ extract_events i limit t1 l s = Ok (zlen taken, s') /\ stores (variadic_queue_ s') (without m taken) next /\ block_size_ (variadic_queue_ s') = block_size_ (variadic_queue_ s) /\
    Forall (fun d => td_offset d < limit /\ ts_ d <= t1) taken /\ (match rest with [] => True | d :: _ => limit <= td_offset d \/ t1 < ts_ d end) /\
    pushed_ s' = pushed_ s ++ queue_events m i taken /\ history (latest_pushed_event_ts_ s') (out_of_order_ s') (pushed_ s') /\ queues_ s' = queues_ s /\ same_frame s s'.
Proof.
  induction l as [|d l IH]; intros s m Hst Hl Hnd Hr Hb Hh; cbn [extract_events].
  { exists [], [], s. cbn [queue_events omap list_omap]. do 4 (split; [done|]). split; [constructor|]. split; [done|]. split; [by rewrite app_nil_r|]. done. }
  destruct ((limit <=? td_offset d) || (t1 <? ts_ d)) eqn:Estop.
  { exists [], (d :: l), s. cbn [queue_events omap list_omap]. do 4 (split; [done|]). split; [constructor|]. split; [lia|]. split; [by rewrite app_nil_r|]. done. }
  apply Forall_cons in Hr as [Hrd Hr]. apply NoDup_cons in Hnd as [Hnd1 Hnd]. assert (Hne : forall d', d' ∈ l -> td_offset d' <> td_offset d) by (intros d' Hd' E; apply Hnd1; rewrite <- E; by apply list_elem_of_fmap_2).
  destruct (MaybePushEvent_spec i d s m next Hst (Hl d ltac:(left)) Hb Hrd Hh) as (e & out & v & Ee & E & Hst1 & Hbs1 & Hh1). rewrite E. cbn [obind].
  destruct (IH (after_push i e out v s) (delete (td_offset d) m)) as (taken & rest & s' & -> & E' & Hst' & Hbs' & Ht & Hrest & Hp & Hh' & Hq & Hf); try done.
  - intros d' Hd'. destruct (Hl d' ltac:(by right)) as [H1 [w Hw]]. split; [done|]. exists w. rewrite lookup_delete_ne; [done|]. intros E1. by apply (Hne d' Hd').
  - cbn [after_push latest_pushed_event_ts_ out_of_order_ pushed_]. destruct (event_parts _ _ _ _ Ee) as (_ & -> & _). exact Hh1.
  - exists (d :: taken), rest, s'. rewrite E'. cbn [obind]. split; [done|]. split; [by rewrite zlen_cons|]. split; [exact Hst'|]. split; [by rewrite Hbs'|]. split; [constructor; [lia|done]|]. split; [done|].
    split; [|done]. rewrite Hp. cbn [after_push pushed_]. unfold queue_events. cbn [omap list_omap]. rewrite Ee, <- app_assoc. cbn [app]. do 2 f_equal.
    apply (queue_events_ext m (delete (td_offset d) m)). intros d' Hd'. rewrite lookup_delete_ne; [done|]. intros E1. apply (Hne d'); [apply elem_of_app; by left|done].
Qed.

(** ** One round *)

(** Values are ranked in the order in which they were appended. *)
Definition ranked (rank : D -> Z) (m : Heap) : Prop := forall g g' T v T' v', m !! g = Some (T, v) -> m !! g' = Some (T', v') -> g < g' -> rank v < rank v'.
(** By timestamp, and in the order of their ranks if they have the same one in one queue. *)
Definition ordered (rank : D -> Z) (a b : Event) : Prop := ev_ts a <= ev_ts b /\ (ev_queue a = ev_queue b -> ev_ts a = ev_ts b -> rank (ev_value a) < rank (ev_value b)).
(** From one state to another by pushing some of the staged events, in order. *)
Definition extracts (s : Sorter) (m : Heap) (cs : list (list TD)) (s' : Sorter) (m' : Heap) (cs' : list (list TD)) : Prop :=
  exists batch, pushed_ s' = pushed_ s ++ batch /\ batch ++ staged m' cs' ≡ₚ staged m cs /\ (forall g v, m' !! g = Some v -> m !! g = Some v) /\
    forall rank, ranked rank m -> StronglySorted (ordered rank) batch /\ forall a b, a ∈ batch -> b ∈ staged m' cs' -> ordered rank a b.
Lemma ranked_sub rank m m' : ranked rank m -> (forall g v, m' !! g = Some v -> m !! g = Some v) -> ranked rank m'.
Proof. intros H Hs g g' T v T' v' H1 H2. by apply (H g g' T v T' v'); apply Hs. Qed.
Lemma extracts_refl s m cs cs' s' : pushed_ s' = pushed_ s -> staged m cs' ≡ₚ staged m cs -> extracts s m cs s' m cs'.
Proof. intros Hp Hs. exists []. rewrite app_nil_r. split; [done|]. split; [done|]. split; [done|]. intros rank _. split; [constructor|]. intros a b Ha. by apply not_elem_of_nil in Ha. Qed.
Lemma extracts_trans s m cs s1 m1 cs1 s2 m2 cs2 : extracts s m cs s1 m1 cs1 -> extracts s1 m1 cs1 s2 m2 cs2 -> extracts s m cs s2 m2 cs2.
Proof.
  intros (b1 & P1 & S1 & U1 & O1) (b2 & P2 & S2 & U2 & O2). exists (b1 ++ b2). rewrite P2, P1, app_assoc. split; [done|]. split; [rewrite <- app_assoc; by rewrite S2|]. split; [auto|].
  intros rank Hr. destruct (O1 rank Hr) as [A1 B1]. destruct (O2 rank (ranked_sub _ _ _ Hr U1)) as [A2 B2].
  assert (Hsub : forall b, b ∈ b2 \/ b ∈ staged m2 cs2 -> b ∈ staged m1 cs1) by (intros b Hb; rewrite <- S2; by apply elem_of_app). split.
  - apply StronglySorted_app. split; [|done]. intros a b Ha Hb. apply B1; [done|]. apply Hsub. by left.
  - intros a b [Ha|Ha]%elem_of_app Hb; [apply B1; [done|]; apply Hsub; by right|by apply B2].
Qed.
Lemma sorted_queue q l : queue_ok q l ->
  exists q' l', (if needs_sorting q then Queue_Sort q else Ok q) = Ok q' /\ queue_ok q' l' /\ l' ≡ₚ l /\ sorted_by td_lt l' /\ sort_start_idx_ q' = 0 /\ min_ts_ q' = min_ts_ q /\ end_ (events_ q') = end_ (events_ q).
Proof.
  intros H. destruct (needs_sorting q) eqn:E; [by apply Queue_Sort_ok|]. exists q, l. unfold needs_sorting in E. apply negb_false_iff in E. pose proof (qo_sorted _ _ H) as Hs. rewrite E in Hs. apply Z.eqb_eq in E. done.
Qed.
(** Queue [idx] loses the events [gone]. *)
Lemma sorter_ok_update s m next cs s' idx q' l l' gone : sorter_ok s m next cs -> cs !! idx = Some l -> l ≡ₚ gone ++ l' -> queue_ok q' l' -> end_ (events_ q') <= next ->
  queues_ s' = <[idx := q']> (queues_ s) -> stores (variadic_queue_ s') (without m gone) next -> block_size_ (variadic_queue_ s') = kDefaultSize -> history (latest_pushed_event_ts_ s') (out_of_order_ s') (pushed_ s') ->
  bypass_next_stage_for_testing_ s' = false -> sorter_ok s' (without m gone) next (<[idx := l']> cs).
Proof.
  intros H Hi Hp Hq He Eq Hst Hbs Hh Hb. pose proof (concat_insert cs idx l l' Hi) as Hperm. rewrite Hp in Hperm.
  assert (Hp2 : concat cs ≡ₚ gone ++ concat (<[idx := l']> cs)) by (apply (Permutation_app_inv_r l'); rewrite <- app_assoc; rewrite (Permutation_app_comm (concat cs)); rewrite <- Hperm; solve_Permutation).
  assert (Hsub : forall d, d ∈ concat (<[idx := l']> cs) -> d ∈ concat cs) by (intros d Hd; rewrite Hp2; apply elem_of_app; by right).
  pose proof (so_nodup _ _ _ _ H) as Hnd. rewrite Hp2, map_app in Hnd. apply NoDup_app in Hnd as (Hn1 & Hn2 & Hn3).
  assert (Hne : forall d d', d ∈ gone -> d' ∈ concat (<[idx := l']> cs) -> td_offset d <> td_offset d').
  { intros d d' Hd Hd' E. apply (Hn2 (td_offset d)); [by apply list_elem_of_fmap_2|]. rewrite E. by apply list_elem_of_fmap_2. }
  split; try done.
  - rewrite Eq. apply Forall2_insert; [apply (so_queues _ _ _ _ H)|done].
  - apply Forall_insert; [apply (so_range _ _ _ _ H)|]. pose proof (Forall_lookup_1 _ _ _ _ (so_range _ _ _ _ H) Hi) as Hr. rewrite Hp in Hr. by apply Forall_app in Hr as [_ Hr].
  - intros d Hd. destruct (so_live _ _ _ _ H d (Hsub d Hd)) as [H1 [v Hv]]. split; [done|]. exists v. rewrite without_lookup; [done|]. intros d' Hd'. by apply Hne.
  - intros g v Hg. apply without_sub in Hg as [Hg Hg']. destruct (so_all _ _ _ _ H g v Hg) as (d & Hd & <-). rewrite Hp2 in Hd. apply elem_of_app in Hd as [Hd|Hd]; [exfalso; by apply (Hg' d)|by exists d].
  - rewrite Eq. apply Forall_insert; [apply (so_ends _ _ _ _ H)|done].
  - apply (so_next _ _ _ _ H).
Qed.

(** The queue after its first events were erased. *)
Lemma erased_queue_ok q taken rest : queue_ok q (taken ++ rest) -> sorted_by td_lt (taken ++ rest) -> sort_start_idx_ q = 0 ->
  exists ev, erase_front (zlen taken) (events_ q) = Ok ev /\ end_ ev = end_ (events_ q) /\ empty ev = bool_decide (rest = []) /\
    match rest with
    | [] => queue_ok (mkSorterQueue ev kTsMax 0 (sort_start_idx_ q) (sort_min_ts_ q)) []
    | d :: _ => front ev = Ok d /\ queue_ok (mkSorterQueue ev (ts_ d) (max_ts_ q) (sort_start_idx_ q) (sort_min_ts_ q)) rest
    end.
Proof.
  intros H Hs Hz. destruct (erase_front_spec (events_ q) (taken ++ rest) (zlen taken) (qo_events _ _ H)) as (ev & E & Hev & Hend). rewrite zdrop_zlen_app in Hev. exists ev. split; [done|]. split; [done|].
  pose proof (size_spec _ _ Hev) as Hsz. apply sorted_by_app in Hs as (_ & Hs & _). split; [unfold empty; rewrite Hsz; destruct rest; [done|]; rewrite bool_decide_eq_false_2 by done; rewrite zlen_cons; pose proof (zlen_nonneg rest); lia|].
  destruct rest as [|d rest]; [split; cbn [events_ min_ts_ max_ts_ sort_start_idx_ sort_min_ts_]; [done|done|constructor|rewrite Hz; constructor]|].
  split; [unfold front; pose proof (queue_Get_spec ev (d :: rest) 0 d Hev eq_refl) as G; by rewrite Z.add_0_r in G|]. split; cbn [events_ min_ts_ max_ts_ sort_start_idx_ sort_min_ts_]; [done| | |by rewrite Hz].
  - rewrite decide_False by done. split; [|by left]. constructor; [lia|]. apply sorted_by_cons in Hs as [Hs _]. eapply Forall_impl; [exact Hs|]. intros x Hx. apply td_lt_false in Hx. lia.
  - pose proof (qo_max _ _ H) as Hm. by apply Forall_app in Hm as [_ Hm].
Qed.
Lemma drop_extracted_spec idx q taken rest t1 s m next : queue_ok q (taken ++ rest) -> sorted_by td_lt (taken ++ rest) -> sort_start_idx_ q = 0 -> stores (variadic_queue_ s) m next ->
  exists q' s', drop_extracted idx q (zlen taken) t1 s = Ok s' /\ queue_ok q' rest /\ end_ (events_ q') = end_ (events_ q) /\ queues_ s' = <[idx := q']> (queues_ s) /\ stores (variadic_queue_ s') m next /\
    block_size_ (variadic_queue_ s') = block_size_ (variadic_queue_ s) /\ pushed_ s' = pushed_ s /\ latest_pushed_event_ts_ s' = latest_pushed_event_ts_ s /\ out_of_order_ s' = out_of_order_ s /\ same_frame s s'.
Proof.
  intros H Hs Hz Hst. destruct (erased_queue_ok q taken rest H Hs Hz) as (ev & E & Hend & Hemp & Hq). destruct (FreeMemory_spec _ _ _ Hst) as (Hst' & Hbs & _). unfold drop_extracted. rewrite E. cbn [obind]. rewrite Hemp.
  destruct rest as [|d rest].
  - rewrite bool_decide_eq_true_2 by done. eexists _, _. split; [done|]. done.
  - rewrite bool_decide_eq_false_2 by done. destruct Hq as [-> Hq]. cbn [obind]. eexists _, _. split; [done|]. done.
Qed.
(** The order in which a sorted queue is taken, against what stays. *)
Lemma taken_ordered m cs idx taken rest t1 rank : cs !! idx = Some (taken ++ rest) -> sorted_by td_lt (taken ++ rest) -> NoDup (map td_offset (taken ++ rest)) -> Forall (fun d => ts_ d <= t1) taken ->
  (forall j l' d, cs !! j = Some l' -> j <> idx -> d ∈ l' -> t1 <= ts_ d) -> ranked rank m ->
  StronglySorted (ordered rank) (queue_events m idx taken) /\ forall a b, a ∈ queue_events m idx taken -> b ∈ staged m (<[idx := rest]> cs) -> ordered rank a b.
Proof.
  intros Hi Hs Hnd Ht Hothers Hr.
  assert (Hone : forall d d' e e', event m idx d = Some e -> event m idx d' = Some e' -> td_lt d' d = false -> td_offset d <> td_offset d' -> ordered rank e e').
  { intros d d' e e' He He' Hlt Hne. apply event_parts in He as (Q1 & T1 & T & V1). apply event_parts in He' as (Q2 & T2 & T' & V2). apply td_lt_false in Hlt. split; [lia|]. intros _ Et. eapply (Hr _ _ _ _ _ _ V1 V2). lia. }
  assert (Hpair : forall l1 l2 d d', NoDup (map td_offset (l1 ++ l2)) -> d ∈ l1 -> d' ∈ l2 -> td_offset d <> td_offset d').
  { intros l1 l2 d d' Hn Hd Hd' E. rewrite map_app in Hn. apply NoDup_app in Hn as (_ & Hn & _). apply (Hn (td_offset d)); [by apply list_elem_of_fmap_2|]. rewrite E. by apply list_elem_of_fmap_2. }
  split.
  - pose proof Hs as Hs1. apply sorted_by_app in Hs1 as (Hs1 & _ & _). rewrite map_app in Hnd. apply NoDup_app in Hnd as (Hnd & _ & _). clear Hi Ht Hs Hothers. unfold queue_events.
    induction taken as [|d taken IH]; [constructor|]. apply sorted_by_cons in Hs1 as [Hd Hs1]. cbn [omap list_omap]. pose proof Hnd as Hnd'. apply NoDup_cons in Hnd as [Hn Hnd]. specialize (IH Hnd Hs1).
    destruct (event m idx d) as [e|] eqn:Ee; [|done]. constructor; [done|]. apply Forall_forall. intros e' He'. apply list_elem_of_omap in He' as (d' & Hd' & Ee'). apply (Hone d d' e e' Ee Ee').
    + rewrite Forall_forall in Hd. by apply Hd.
    + apply (Hpair [d] taken); [done|by left|done].
  - intros a b Ha Hb. apply elem_of_queue_events in Ha as (d & Hd & Ea). apply elem_of_staged in Hb as (j & l' & d' & Hj & Hd' & Eb). destruct (decide (j = idx)) as [->|Hne].
    + rewrite list_lookup_insert_eq in Hj by (by eapply lookup_lt_Some). injection Hj as <-. apply (Hone d d' a b Ea Eb); [|by apply (Hpair taken rest)]. apply sorted_by_app in Hs as (_ & _ & Hs). by apply Hs.
    + rewrite list_lookup_insert_ne in Hj by done. specialize (Hothers j l' d' Hj Hne Hd'). rewrite Forall_forall in Ht. specialize (Ht d Hd). cbn in Ht. apply event_parts in Ea as (Q1 & T1 & _). apply event_parts in Eb as (Q2 & T2 & _).
      split; [lia|]. intros Eq. congruence.
Qed.
(** Nothing staged may be extracted: the earliest event lies beyond the limit. *)
Definition exhausted (limit : Z) (cs : list (list TD)) : Prop := concat cs = [] \/ exists d, d ∈ concat cs /\ limit <= td_offset d /\ forall d', d' ∈ concat cs -> ts_ d <= ts_ d'.
Lemma exhausted_here cs idx (l l' : list TD) d rest limit t0 t1 : cs !! idx = Some l -> l' = d :: rest -> sorted_by td_lt l' -> limit <= td_offset d \/ t1 < ts_ d -> Exists (fun d => ts_ d = t0) l' -> t0 <= t1 ->
  (forall j l' d, cs !! j = Some l' -> j <> idx -> d ∈ l' -> t1 <= ts_ d) -> exhausted limit (<[idx := l']> cs).
Proof.
  intros Hi -> Hs Hor Hex Ht Hothers. apply sorted_by_cons in Hs as [Hs _]. rewrite Forall_forall in Hs.
  assert (Hmin : forall d', d' ∈ d :: rest -> ts_ d <= ts_ d') by (intros d' [->|Hd']%elem_of_cons; [lia|]; apply Hs, td_lt_false in Hd'; lia).
  apply Exists_exists in Hex as (d0 & Hd0 & E0). pose proof (Hmin d0 Hd0). assert (Hin : forall x, x ∈ d :: rest -> x ∈ concat (<[idx := d :: rest]> cs)).
  { intros x Hx. apply elem_of_concat. exists idx, (d :: rest). split; [|done]. apply list_lookup_insert_eq. by eapply lookup_lt_Some. }
  right. exists d. split; [apply Hin; by left|]. split; [lia|]. intros d' Hd'. apply elem_of_concat in Hd' as (j & k & Hj & Hd'). destruct (decide (j = idx)) as [->|Hne].
  - rewrite list_lookup_insert_eq in Hj by (by eapply lookup_lt_Some). injection Hj as <-. by apply Hmin.
  - rewrite list_lookup_insert_ne in Hj by done. specialize (Hothers j k d' Hj Hne Hd'). lia.
Qed.

Lemma staged_taken m cs idx l taken rest : cs !! idx = Some l -> l ≡ₚ taken ++ rest -> NoDup (map td_offset (concat cs)) ->
  queue_events m idx taken ++ staged (without m taken) (<[idx := rest]> cs) ≡ₚ staged m cs.
Proof.
  intros Hi Hp Hnd. pose proof (concat_insert cs idx l rest Hi) as Hperm. rewrite (staged_ext m).
  - pose proof (staged_insert m cs idx l rest Hi) as E. assert (El : queue_events m idx l ≡ₚ queue_events m idx taken ++ queue_events m idx rest) by (unfold queue_events; by rewrite Hp, omap_app).
    rewrite El in E. apply (Permutation_app_inv_l (queue_events m idx rest)). rewrite <- E. solve_Permutation.
  - intros d Hd. apply without_lookup. intros d' Hd' E. assert (Hp2 : concat cs ≡ₚ taken ++ concat (<[idx := rest]> cs)).
    { apply (Permutation_app_inv_r rest). rewrite <- app_assoc, (Permutation_app_comm (concat cs)), <- Hperm, Hp. solve_Permutation. }
    rewrite Hp2, map_app in Hnd. apply NoDup_app in Hnd as (_ & Hnd & _). apply (Hnd (td_offset d')); [by apply list_elem_of_fmap_2|]. rewrite E. by apply list_elem_of_fmap_2.
Qed.
Lemma extract_round_spec limit s m next cs : sorter_ok s m next cs ->
  exists go s' m' cs', extract_round limit s = Ok (go, s') /\ sorter_ok s' m' next cs' /\ extracts s m cs s' m' cs' /\ same_frame s s' /\
    if go : bool then (length (concat cs') < length (concat cs))%nat else exhausted limit cs'.
Proof.
  intros H. pose proof (find_min_spec _ _ (so_queues _ _ _ _ H) (so_range _ _ _ _ H)) as Hmin. unfold extract_round. destruct (find_min _ _ _) as [[[found idx] t0] t1]. unfold found_min in Hmin. destruct found; cbn [negb].
  2: { destruct Hmin as (_ & _ & Hall). exists false, s, m, cs. split; [done|]. split; [done|]. split; [by apply extracts_refl|]. split; [done|]. left. clear H. induction Hall as [|l cs -> _ IH]; [done|exact IH]. }
  destruct Hmin as (q & l & Hq & Hl & Hne & Ht0 & Ht1 & _ & Hothers). rewrite Hq. pose proof (Forall2_lookup_lr _ _ _ _ _ _ (so_queues _ _ _ _ H) Hq Hl) as Hqok.
  destruct (sorted_queue q l Hqok) as (q1 & l1 & -> & Hq1 & Hp1 & Hs1 & Hz1 & Hm1 & He1). cbn [obind]. rewrite (elements_spec _ _ (qo_events _ _ Hq1)). cbn [obind]. set (s1 := set_queues (<[idx := q1]> (queues_ s)) s).
  assert (Hlc : forall d, d ∈ l1 -> d ∈ concat cs) by (intros d Hd; rewrite Hp1 in Hd; apply elem_of_concat; by exists idx, l).
  assert (Hnd1 : NoDup (map td_offset l1)).
  { rewrite Hp1. pose proof (so_nodup _ _ _ _ H) as Hnd. pose proof (concat_insert cs idx l [] Hl) as Hc. cbn [app] in Hc. rewrite <- Hc, map_app in Hnd. by apply NoDup_app in Hnd as (_ & _ & Hnd). }
  pose proof (Forall_lookup_1 _ _ _ _ (so_range _ _ _ _ H) Hl) as Hrl. rewrite <- Hp1 in Hrl.
  destruct (extract_events_spec idx limit t1 next l1 s1 m (so_heap _ _ _ _ H) (fun d Hd => so_live _ _ _ _ H d (Hlc d Hd)) Hnd1 Hrl (so_bypass _ _ _ _ H) (so_history _ _ _ _ H)) as (taken & rest & s2 & Esp & -> & Hst2 & Hbs2 & Htk & Hrest & Hp2 & Hh2 & Hqs2 & Hf2).
  cbn [obind]. assert (Hend1 : end_ (events_ q1) <= next) by (rewrite He1; apply (Forall_lookup_1 _ _ _ _ (so_ends _ _ _ _ H) Hq)).
  assert (Hb2 : bypass_next_stage_for_testing_ s2 = false) by (destruct Hf2 as (_ & _ & _ & ->); apply (so_bypass _ _ _ _ H)).
  assert (Hbk2 : block_size_ (variadic_queue_ s2) = kDefaultSize) by (rewrite Hbs2; apply (so_block _ _ _ _ H)).
  destruct taken as [|d0 taken].
  - exists false, s2, m, (<[idx := l1]> cs). cbn [app] in Esp. subst rest. split; [done|]. split; [|split; [|split; [done|]]].
    + apply (sorter_ok_update s m next cs s2 idx q1 l l1 [] H Hl); cbn [app]; done.
    + apply extracts_refl; [rewrite Hp2; cbn; by rewrite app_nil_r|]. by apply (staged_taken m cs idx l [] l1 Hl); [|apply (so_nodup _ _ _ _ H)].
    + destruct l1 as [|d rest]; [by apply Permutation_nil in Hp1|]. apply (exhausted_here cs idx l _ d rest limit t0 t1 Hl eq_refl Hs1 Hrest); [|lia|done]. rewrite <- Ht0, <- Hm1. apply (min_ts_spec _ _ Hq1). done.
  - rewrite Esp in *. assert (Hn0 : (zlen (d0 :: taken) =? 0) = false) by (rewrite zlen_cons; pose proof (zlen_nonneg taken); lia). rewrite Hn0.
    destruct (drop_extracted_spec idx q1 (d0 :: taken) rest t1 s2 (without m (d0 :: taken)) next Hq1 Hs1 Hz1 Hst2) as (q3 & s3 & -> & Hq3 & He3 & Hqs3 & Hst3 & Hbs3 & Hp3 & Hl3 & Ho3 & Hf3). cbn [obind].
    assert (Hpl : l ≡ₚ (d0 :: taken) ++ rest) by done.
    exists true, s3, (without m (d0 :: taken)), (<[idx := rest]> cs). split; [done|]. split; [|split; [|split]].
    + apply (sorter_ok_update s m next cs s3 idx q3 l rest (d0 :: taken) H Hl Hpl Hq3); [by rewrite He3| |done|by rewrite Hbs3|by rewrite Hl3, Ho3, Hp3|].
      * rewrite Hqs3, Hqs2. cbn [s1 set_queues queues_]. by rewrite list_insert_insert_eq.
      * destruct Hf3 as (_ & _ & _ & ->). done.
    + exists (queue_events m idx (d0 :: taken)). rewrite Hp3, Hp2. split; [done|]. split; [by apply (staged_taken m cs idx l); [..|apply (so_nodup _ _ _ _ H)]|]. split; [intros g v Hg; by apply without_sub in Hg as [Hg _]|].
      intros rank Hr. destruct (taken_ordered m (<[idx := (d0 :: taken) ++ rest]> cs) idx (d0 :: taken) rest t1 rank) as [A B]; try done.
      * apply list_lookup_insert_eq. by eapply lookup_lt_Some.
      * eapply Forall_impl; [exact Htk|]. cbn. lia.
      * intros j l' d Hj Hne' Hd. rewrite list_lookup_insert_ne in Hj by done. by eapply Hothers.
      * split; [done|]. intros a b Ha Hb. apply B; [done|]. rewrite list_insert_insert_eq. apply elem_of_staged in Hb as (j & l' & d & Hj & Hd & Eb). apply elem_of_staged. exists j, l', d. split; [done|]. split; [done|].
        unfold event in *. destruct (without m (d0 :: taken) !! td_offset d) as [[T v]|] eqn:Ew; [|done]. apply without_sub in Ew as [-> _]. done.
    + exact (same_frame_trans s s2 s3 Hf2 Hf3).
    + pose proof (concat_insert cs idx l rest Hl) as Hc. apply Permutation_length in Hc. apply Permutation_length in Hpl. rewrite !length_app in *. cbn [length] in *. lia.
Qed.
Lemma extract_loop_spec limit next : forall fuel s m cs, sorter_ok s m next cs -> (length (concat cs) < fuel)%nat ->
  exists s' m' cs', extract_loop fuel limit s = Ok s' /\ sorter_ok s' m' next cs' /\ extracts s m cs s' m' cs' /\ same_frame s s' /\ exhausted limit cs'.
Proof.
  induction fuel as [|fuel IH]; intros s m cs H Hf; [lia|]. cbn [extract_loop]. destruct (extract_round_spec limit s m next cs H) as (go & s1 & m1 & cs1 & -> & H1 & X1 & F1 & Hgo). cbn [obind]. destruct go.
  - destruct (IH s1 m1 cs1 H1 ltac:(lia)) as (s2 & m2 & cs2 & -> & H2 & X2 & F2 & Hex). exists s2, m2, cs2. split; [done|]. split; [done|]. split; [by eapply extracts_trans|]. split; [by eapply same_frame_trans|done].
  - exists s1, m1, cs1. done.
Qed.
Lemma num_events_spec s m next cs : sorter_ok s m next cs -> num_events s = zlen (concat cs).
Proof.
  intros H. unfold num_events. pose proof (so_queues _ _ _ _ H) as Hq. clear H. induction Hq as [|q l qs cs Hq _ IH]; [done|]. cbn [fold_right concat]. rewrite IH, zlen_app, (size_spec _ _ (qo_events _ _ Hq)). done.
Qed.
Lemma SortAndExtract_spec limit s m next cs : sorter_ok s m next cs ->
  exists s' m' cs', SortAndExtractEventsUntilPacket limit s = Ok s' /\ sorter_ok s' m' next cs' /\ extracts s m cs s' m' cs' /\ same_frame s s' /\ exhausted limit cs'.
Proof.
  intros H. unfold SortAndExtractEventsUntilPacket. apply extract_loop_spec; [done|]. rewrite (num_events_spec _ _ _ _ H). unfold zlen. lia.
Qed.

(** ** Pushing *)

Definition type_ok (T : Type_) : Prop := T <> kInvalid /\ 0 < sizeof_T T <= kDefaultSize.
Lemma new_queues_spec n : exists qs, new_queues n = Ok qs /\ Forall2 queue_ok qs (replicate n []) /\ Forall (fun q => end_ (events_ q) = 0) qs.
Proof.
  induction n as [|n (qs & E & H & He)]; [by exists []; repeat constructor|]. cbn [new_queues]. destruct Queue_new_ok as (q & -> & Hq & Hz). cbn [obind]. rewrite E. cbn [obind]. exists (q :: qs).
  split; [done|]. split; by constructor.
Qed.
Lemma concat_replicate_nil {A} n : concat (replicate n (@nil A)) = [].
Proof. induction n; [done|exact IHn]. Qed.
Lemma staged_from_nil m n : forall i, staged_from m i (replicate n []) = [].
Proof. induction n as [|n IH]; intros i; [done|]. cbn. apply IH. Qed.
Lemma GetQueue_spec i s m next cs : sorter_ok s m next cs ->
  exists qs n, GetQueue i s = Ok (set_queues (queues_ s ++ qs) s) /\ (i < length (queues_ s ++ qs))%nat /\ sorter_ok (set_queues (queues_ s ++ qs) s) m next (cs ++ replicate n []) /\
    (forall v, GetQueue i (set_variadic v s) = Ok (set_variadic v (set_queues (queues_ s ++ qs) s))).
Proof.
  intros H. unfold GetQueue. cbn [set_variadic queues_]. destruct (Nat.leb_spec (length (queues_ s)) i) as [Hle|Hlt].
  - destruct (new_queues_spec (i + 1 - length (queues_ s))) as (qs & -> & Hq & He). cbn [obind]. exists qs, (i + 1 - length (queues_ s))%nat. split; [done|].
    split; [rewrite length_app; apply Forall2_length in Hq; rewrite length_replicate in Hq; lia|]. split; [|done].
    assert (Ec : concat (cs ++ replicate (i + 1 - length (queues_ s)) []) = concat cs) by (by rewrite concat_app, concat_replicate_nil, app_nil_r).
    destruct H. split; rewrite ?Ec; try done.
    + by apply Forall2_app.
    + apply Forall_app. split; [done|]. by apply Forall_replicate.
    + cbn [set_queues queues_]. apply Forall_app. split; [done|]. eapply Forall_impl; [exact He|]. cbn. intros q ->. lia.
  - exists [], 0%nat. assert (E : set_queues (queues_ s ++ []) s = s) by (destruct s; unfold set_queues; cbn; by rewrite app_nil_r). rewrite E. cbn [replicate]. rewrite !app_nil_r. split; [done|]. split; [done|]. done.
Qed.
Lemma staged_grow m cs n : staged m (cs ++ replicate n []) = staged m cs.
Proof. unfold staged. by rewrite staged_from_app, staged_from_nil, app_nil_r. Qed.
Lemma push_spec i T ts v s m next cs : sorter_ok s m next cs -> (i < length (queues_ s))%nat -> type_ok T -> kTsMin <= ts <= kTsMax -> next + 2 * AlignUp 8 (sizeof_T T) + kDefaultSize < 2 ^ 32 ->
  exists g q' s' next' cs', VariadicQueue_Append sizeof_T T v (variadic_queue_ s) = Ok (g, q') /\ append_to_queue i (mkDesc ts (Descriptor g T)) (set_variadic q' s) = Ok s' /\
    sorter_ok s' (<[g := (T, v)]> m) next' cs' /\ next' <= next + 2 * AlignUp 8 (sizeof_T T) /\ staged (<[g := (T, v)]> m) cs' ≡ₚ (i, ts, T, v) :: staged m cs /\
    (forall g' w, m !! g' = Some w -> g' < g) /\ pushed_ s' = pushed_ s /\ latest_pushed_event_ts_ s' = latest_pushed_event_ts_ s.
Proof.
  intros H Hi [HT Hsz] Hts Hmem. pose proof (so_heap _ _ _ _ H) as Hst. pose proof (so_next _ _ _ _ H) as Hn. pose proof (align8_bounds (sizeof_T T)) as Ha. pose proof (so_block _ _ _ _ H) as Hbs.
  destruct (variadic_Append_spec sizeof_T _ m next T v Hst) as (g & v' & next' & E & Hst' & Hg & Hn' & Hbs'); [by rewrite Hbs|rewrite Hbs; lia|]. rewrite Hbs in Hbs'.
  assert (Hlt : forall g' w, m !! g' = Some w -> g' < g) by (intros g' w Hw; apply (stores_below _ _ _ _ _ Hst) in Hw; lia).
  destruct (Descriptor_parts g T) as [Do Dt]; [lia|]. set (d := mkDesc ts (Descriptor g T)). assert (Hdo : td_offset d = g) by done. assert (Hdt : td_type d = T) by done.
  destruct (lookup_lt_is_Some_2 (queues_ s) i Hi) as [q Hq]. destruct (Forall2_lookup_l _ _ _ _ _ (so_queues _ _ _ _ H) Hq) as (l & Hl & Hqok).
  assert (Hold : forall x, x ∈ concat cs -> td_offset x < g) by (intros x Hx; destruct (so_live _ _ _ _ H x Hx) as [_ [w Hw]]; by eapply Hlt).
  assert (Hlc : forall x, x ∈ l -> x ∈ concat cs) by (intros x Hx; apply elem_of_concat; by exists i, l).
  pose proof (Forall_lookup_1 _ _ _ _ (so_ends _ _ _ _ H) Hq) as Hend. cbn in Hend. assert (Hw : 2 ^ 32 < 2 ^ 62) by (apply Z.pow_lt_mono_r; lia).
  destruct (Queue_Append_ok q l d Hqok) as (q1 & Eq & Hq1 & He1); [lia|done|apply Forall_forall; intros x Hx; rewrite Hdo; by apply Hold, Hlc|].
  exists g, v', (UpdateGlobalTs q1 (set_queues (<[i := q1]> (queues_ s)) (set_variadic v' s))), next', (<[i := l ++ [d]]> cs). split; [done|].
  split; [unfold append_to_queue; cbn [set_variadic queues_]; fold d; rewrite Hq, Eq; done|].
  pose proof (concat_insert cs i l (l ++ [d]) Hl) as Hperm. assert (Hp2 : concat (<[i := l ++ [d]]> cs) ≡ₚ d :: concat cs) by (apply (Permutation_app_inv_r l); rewrite Hperm; cbn [app]; solve_Permutation).
  assert (Hext : forall x, x ∈ concat cs -> <[g := (T, v)]> m !! td_offset x = m !! td_offset x) by (intros x Hx; apply lookup_insert_ne; specialize (Hold x Hx); lia).
  split; [|split; [done|split; [|split; [done|split; done]]]].
  - split; cbn [UpdateGlobalTs set_global set_queues set_variadic queues_ variadic_queue_ latest_pushed_event_ts_ out_of_order_ pushed_ bypass_next_stage_for_testing_]; try done.
    + apply Forall2_insert; [apply (so_queues _ _ _ _ H)|done].
    + apply Forall_insert; [apply (so_range _ _ _ _ H)|]. apply Forall_app. split; [apply (Forall_lookup_1 _ _ _ _ (so_range _ _ _ _ H) Hl)|by apply Forall_singleton].
    + intros x Hx. rewrite Hp2 in Hx. apply elem_of_cons in Hx as [->|Hx]; [split; [by rewrite Hdt|]; exists v; by rewrite Hdo, Hdt, lookup_insert_eq|].
      destruct (so_live _ _ _ _ H x Hx) as [H1 [w H2]]. split; [done|]. exists w. by rewrite Hext.
    + rewrite Hp2. cbn [map]. apply NoDup_cons. split; [|apply (so_nodup _ _ _ _ H)]. rewrite Hdo. intros Hx. apply list_elem_of_fmap in Hx as (x & Ex & Hx). specialize (Hold x Hx). lia.
    + intros g' w [[<- _]|[_ Hw']]%lookup_insert_Some; [exists d; rewrite Hp2; split; [by left|done]|]. destruct (so_all _ _ _ _ H g' w Hw') as (x & Hx & Ex). exists x. rewrite Hp2. split; [by right|done].
    + apply Forall_insert; [|lia]. eapply Forall_impl; [apply (so_ends _ _ _ _ H)|]. cbn. lia.
    + lia.
    + apply (so_history _ _ _ _ H).
    + apply (so_bypass _ _ _ _ H).
  - rewrite <- (staged_ext m (<[g := (T, v)]> m) cs Hext). pose proof (staged_insert (<[g := (T, v)]> m) cs i l (l ++ [d]) Hl) as Es. unfold queue_events in Es. rewrite omap_app in Es. cbn [omap list_omap] in Es. fold (queue_events (<[g := (T, v)]> m) i l) in Es.
    assert (Ee : event (<[g := (T, v)]> m) i d = Some (i, ts, T, v)) by (unfold event; by rewrite Hdo, lookup_insert_eq, Hdt). rewrite Ee in Es. apply (Permutation_app_inv_r (queue_events (<[g := (T, v)]> m) i l)). rewrite Es. cbn [app]. solve_Permutation.
Qed.

(** ** Sessions *)

(** An event that may be pushed: a timestamp of 64 bits, a payload that fits in a block. *)
Definition op_ok (o : @sorter_op D) : Prop :=
  match o with PushPacketOp T ts _ | PushFtraceOp T _ ts _ => type_ok T /\ kTsMin <= ts <= kTsMax | _ => True end.
(** The memory a push takes, at most. *)
Definition op_memory (o : @sorter_op D) : Z := match o with PushPacketOp T _ _ | PushFtraceOp T _ _ _ => 2 * AlignUp 8 (sizeof_T T) | _ => 0 end.
Fixpoint session_memory (ops : list (@sorter_op D)) : Z := match ops with [] => 0 | o :: ops => op_memory o + session_memory ops end.
(** From one state to another by an operation, seen from outside. *)
Definition op_effect (o : @sorter_op D) (s : Sorter) (m : Heap) (cs : list (list TD)) (s' : Sorter) (m' : Heap) (cs' : list (list TD)) : Prop :=
  match event_of o with
  | Some e => pushed_ s' = pushed_ s /\ latest_pushed_event_ts_ s' = latest_pushed_event_ts_ s /\ staged m' cs' ≡ₚ e :: staged m cs /\
      forall rank, ranked rank m -> (forall g T w, m !! g = Some (T, w) -> rank w < rank (ev_value e)) -> ranked rank m'
  | None => extracts s m cs s' m' cs'
  end.
Lemma ranked_insert rank m g T v : ranked rank m -> (forall g' w, m !! g' = Some w -> g' < g) -> (forall g T w, m !! g = Some (T, w) -> rank w < rank v) -> ranked rank (<[g := (T, v)]> m).
Proof.
  intros Hr Hlt Hv g1 g2 T1 v1 T2 v2 H1 H2 Hg. apply lookup_insert_Some in H1 as [[<- [= <- <-]]|[_ H1]]; apply lookup_insert_Some in H2 as [[<- [= <- <-]]|[_ H2]].
  - lia.
  - apply Hlt in H2. lia.
  - by eapply Hv.
  - by eapply Hr.
Qed.
Lemma sorter_ok_frame s s' m next cs : sorter_ok s m next cs -> queues_ s' = queues_ s -> variadic_queue_ s' = variadic_queue_ s -> pushed_ s' = pushed_ s -> latest_pushed_event_ts_ s' = latest_pushed_event_ts_ s ->
  out_of_order_ s' = out_of_order_ s -> bypass_next_stage_for_testing_ s' = bypass_next_stage_for_testing_ s -> sorter_ok s' m next cs.
Proof. intros [] E1 E2 E3 E4 E5 E6. split; rewrite ?E1, ?E2, ?E3, ?E4, ?E5, ?E6; done. Qed.
(** A forced extraction leaves nothing. *)
Lemma nothing_exhausted s m next cs : sorter_ok s m next cs -> exhausted next cs -> concat cs = [] /\ m = ∅.
Proof.
  intros H Hex. assert (Hc : concat cs = []).
  { destruct Hex as [Hc|(d & Hd & Hoff & _)]; [done|]. destruct (so_live _ _ _ _ H d Hd) as [_ [v Hv]]. apply (stores_below _ _ _ _ _ (so_heap _ _ _ _ H)) in Hv. lia. }
  split; [done|]. apply map_eq. intros g. rewrite lookup_empty. destruct (m !! g) as [v|] eqn:E; [|done]. destruct (so_all _ _ _ _ H g v E) as (d & Hd & _). rewrite Hc in Hd. by apply not_elem_of_nil in Hd.
Qed.
Lemma run_op_step o s m next cs : sorter_ok s m next cs -> op_ok o -> next + op_memory o + kDefaultSize < 2 ^ 32 ->
  exists s' m' next' cs', run_sorter_op sizeof_T o s = Ok s' /\ sorter_ok s' m' next' cs' /\ next' <= next + op_memory o /\ op_effect o s m cs s' m' cs' /\ (o = ForcedOp -> staged m' cs' = []).
Proof.
  intros H Ho Hmem. destruct o as [T ts v|T cpu ts v| | |]; cbn [run_sorter_op op_ok op_memory] in *.
  - destruct Ho as [HT Hts]. destruct (GetQueue_spec 0 s m next cs H) as (qs & n & _ & Hi & H1 & Hcomm). destruct (push_spec 0 T ts v _ m next _ H1 Hi HT Hts Hmem) as (g & q' & s' & next' & cs' & E & E' & H' & Hn & Hs & Hlt & Hp & Hl).
    unfold PushPacket. cbn [set_queues variadic_queue_] in E. rewrite E. cbn [obind]. unfold AppendNonFtraceEvent. rewrite Hcomm. cbn [obind]. rewrite E'. exists s', (<[g := (T, v)]> m), next', cs'.
    split; [done|]. split; [done|]. split; [done|]. split; [|done]. unfold op_effect. cbn [event_of]. rewrite staged_grow in Hs. do 3 (split; [done|]). intros rank Hr Hv. by apply ranked_insert.
  - destruct Ho as [HT Hts]. destruct (GetQueue_spec (Z.to_nat (u32 (cpu + 1))) s m next cs H) as (qs & n & EG & Hi & H1 & _). destruct (push_spec _ T ts v _ m next _ H1 Hi HT Hts Hmem) as (g & q' & s' & next' & cs' & E & E' & H' & Hn & Hs & Hlt & Hp & Hl).
    unfold PushFtraceEvent. rewrite EG. cbn [obind]. rewrite E. cbn [obind]. rewrite E'. exists s', (<[g := (T, v)]> m), next', cs'.
    split; [done|]. split; [done|]. split; [done|]. split; [|done]. unfold op_effect. cbn [event_of]. rewrite staged_grow in Hs. do 3 (split; [done|]). intros rank Hr Hv. by apply ranked_insert.
  - exists (NotifyFlushEvent s), m, next, cs. split; [done|]. split; [by apply (sorter_ok_frame s)|]. split; [lia|]. split; [|done]. by apply extracts_refl.
  - unfold NotifyReadBufferEvent. destruct (_ || _).
    + exists s, m, next, cs. split; [done|]. split; [done|]. split; [lia|]. split; [|done]. by apply extracts_refl.
    + destruct (SortAndExtract_spec (offset_for_extraction_ s) s m next cs H) as (s' & m' & cs' & -> & H' & X & _ & _). cbn [obind]. rewrite (NextOffset_spec _ _ _ (so_heap _ _ _ _ H') (proj2 (so_next _ _ _ _ H'))). cbn [obind].
      exists (set_window next 0 s'), m', next, cs'. split; [done|]. split; [by apply (sorter_ok_frame s')|]. split; [lia|]. done.
  - unfold ExtractEventsForced. rewrite (NextOffset_spec _ _ _ (so_heap _ _ _ _ H) (proj2 (so_next _ _ _ _ H))). cbn [obind].
    destruct (SortAndExtract_spec next s m next cs H) as (s' & m' & cs' & -> & H' & X & _ & Hex). cbn [obind]. destruct (nothing_exhausted s' m' next cs' H' Hex) as [Hc ->].
    exists (set_window next 0 (set_queues [] s')), ∅, next, []. split; [done|]. split; [|split; [lia|]; split; [|done]].
    + destruct H'. split; try done; cbn [set_window set_queues queues_ concat map]; try constructor; intros; by repeat match goal with Hx : _ ∈ [] |- _ => apply not_elem_of_nil in Hx end.
    + unfold op_effect. cbn [event_of]. destruct X as (batch & P & S1 & U & O). assert (Es : staged ∅ cs' = []).
      { destruct (staged ∅ cs') as [|e l] eqn:E; [done|]. assert (He : e ∈ staged ∅ cs') by (rewrite E; by left). apply elem_of_staged in He as (i & k & d & Hk & Hd & _). assert (Hd' : d ∈ concat cs') by (apply elem_of_concat; by exists i, k). rewrite Hc in Hd'. by apply not_elem_of_nil in Hd'. }
      rewrite Es in *. exists batch. done.
Qed.

Lemma new_sorter_ok mode : sorter_ok (TraceSorter_new mode false) ∅ 0 [].
Proof.
  split; try done; cbn [TraceSorter_new queues_ variadic_queue_ concat map].
  - by apply stores_new.
  - intros d Hd. by apply not_elem_of_nil in Hd.
  - constructor.
  - split; [constructor|by left|done].
Qed.
Lemma session_memory_nonneg ops : Forall op_ok ops -> 0 <= session_memory ops.
Proof.
  induction 1 as [|o ops Ho _ IH]; [done|]. cbn [session_memory]. assert (0 <= op_memory o); [|lia].
  destruct o as [T ts v|T cpu ts v| | |]; cbn in *; try lia; destruct Ho as [[_ Hs] _]; pose proof (align8_bounds (sizeof_T T)); lia.
Qed.
(** What holds along a session that starts from any good state. *)
Lemma session_step (P : Sorter -> Heap -> list (list TD) -> list sorter_op -> Prop) :
  (forall o ops s m cs s' m' cs' next next', sorter_ok s m next cs -> sorter_ok s' m' next' cs' -> run_sorter_op sizeof_T o s = Ok s' -> op_effect o s m cs s' m' cs' -> (o = ForcedOp -> staged m' cs' = []) -> P s m cs (o :: ops) -> P s' m' cs' ops) ->
  forall ops s m next cs, sorter_ok s m next cs -> P s m cs ops -> Forall op_ok ops -> next + session_memory ops + kDefaultSize < 2 ^ 32 ->
  exists s' m' next' cs', run_sorter sizeof_T ops s = Ok s' /\ sorter_ok s' m' next' cs' /\ P s' m' cs' [].
Proof.
  intros Hstep. induction ops as [|o ops IH]; intros s m next cs H HP Hok Hmem; [exists s, m, next, cs; done|]. apply Forall_cons in Hok as [Ho Hok]. pose proof (session_memory_nonneg ops Hok) as Hnn. cbn [session_memory run_sorter] in *.
  destruct (run_op_step o s m next cs H Ho) as (s1 & m1 & next1 & cs1 & E & H1 & Hn1 & Hef & Hforced); [lia|]. rewrite E. cbn [obind].
  apply (IH s1 m1 next1 cs1 H1); [by apply (Hstep o ops s m cs s1 m1 cs1 next next1)|done|lia].
Qed.
(** Nothing is lost: what was pushed so far, and what is staged, are the events of [done]. *)
Definition accounted (ops : list sorter_op) (s : Sorter) (m : Heap) (cs : list (list TD)) (rest : list sorter_op) : Prop :=
  exists gone, ops = gone ++ rest /\ pushed_ s ++ staged m cs ≡ₚ omap event_of gone /\ (last gone = Some ForcedOp -> staged m cs = []).
Lemma accounted_step all o ops s m cs s' m' cs' : op_effect o s m cs s' m' cs' -> (o = ForcedOp -> staged m' cs' = []) -> accounted all s m cs (o :: ops) -> accounted all s' m' cs' ops.
Proof.
  intros Hef Hforced (gone & -> & Hp & _). exists (gone ++ [o]). rewrite <- app_assoc. split; [done|]. rewrite omap_app, last_snoc. split; [|intros [= ->]; auto]. cbn [omap list_omap]. unfold op_effect in Hef. destruct (event_of o) as [e|].
  - destruct Hef as (-> & _ & Hs & _). rewrite Hs, <- Hp. solve_Permutation.
  - destruct Hef as (batch & -> & Hs & _). rewrite app_nil_r, <- app_assoc, Hs. done.
Qed.
(** The order is kept while every event is pushed in time: not before what was extracted. *)
Fixpoint in_time (ops : list sorter_op) (s : Sorter) : Prop :=
  match ops with
  | [] => True
  | o :: ops => match event_of o with Some e => latest_pushed_event_ts_ s <= ev_ts e | None => True end /\ match run_sorter_op sizeof_T o s with Ok s => in_time ops s | Crash => True end
  end.
Definition rank_lt (rank : D -> Z) (a b : Event) : Prop := rank (ev_value a) < rank (ev_value b).
Record in_order (rank : D -> Z) (s : Sorter) (m : Heap) (cs : list (list TD)) (rest : list sorter_op) : Prop := {
  io_time : in_time rest s;
  io_rest : StronglySorted (rank_lt rank) (omap event_of rest);
  io_older : forall a b, a ∈ pushed_ s ++ staged m cs -> b ∈ omap event_of rest -> rank_lt rank a b;
  io_ranked : ranked rank m;
  io_sorted : StronglySorted (ordered rank) (pushed_ s);
  io_staged : forall a b, a ∈ pushed_ s -> b ∈ staged m cs -> ordered rank a b
}.
Lemma in_order_step rank o ops s m cs s' m' cs' next : sorter_ok s m next cs -> run_sorter_op sizeof_T o s = Ok s' -> op_effect o s m cs s' m' cs' -> in_order rank s m cs (o :: ops) -> in_order rank s' m' cs' ops.
Proof.
  intros H E Hef [I1 I2 I3 I4 I5 I6]. cbn [in_time] in I1. rewrite E in I1. destruct I1 as [It I1]. cbn [omap list_omap] in *. unfold op_effect in Hef. destruct (event_of o) as [e|] eqn:Ee.
  - destruct Hef as (Ep & El & Hs & Hrk). apply StronglySorted_cons in I2 as [I2e I2]. rewrite Forall_forall in I2e.
    assert (Hval : forall g T w, m !! g = Some (T, w) -> rank w < rank (ev_value e)).
    { intros g T w Hg. destruct (so_all _ _ _ _ H g _ Hg) as (d & Hd & Eg). apply elem_of_concat in Hd as (i & l & Hi & Hd). assert (Ev : event m i d = Some (i, ts_ d, td_type d, w)) by (unfold event; by rewrite Eg, Hg).
      apply (I3 (i, ts_ d, td_type d, w) e); [|by left]. apply elem_of_app. right. apply elem_of_staged. by exists i, l, d. }
    split; [done|done| |by apply Hrk|by rewrite Ep|].
    + intros a b Ha Hb. rewrite Ep, Hs in Ha. apply elem_of_app in Ha as [Ha|[->|Ha]%elem_of_cons]; [apply I3; [apply elem_of_app; by left|by right]|by apply I2e|apply I3; [apply elem_of_app; by right|by right]].
    + intros a b Ha Hb. rewrite Ep in Ha. rewrite Hs in Hb. apply elem_of_cons in Hb as [->|Hb]; [|by apply I6]. split; [|intros _ _; apply I3; [apply elem_of_app; by left|by left]].
      pose proof (hi_max _ _ _ (so_history _ _ _ _ H)) as Hm. rewrite Forall_forall in Hm. specialize (Hm a Ha). cbn in Hm. lia.
  - destruct Hef as (batch & Ep & Hs & Hu & Ho). destruct (Ho rank I4) as [O1 O2]. assert (Hsub : forall b, b ∈ batch \/ b ∈ staged m' cs' -> b ∈ staged m cs) by (intros b Hb; rewrite <- Hs; by apply elem_of_app).
    split; [done|done| |by apply (ranked_sub rank m)| |].
    + intros a b Ha Hb. apply I3; [|done]. rewrite Ep, <- app_assoc, Hs in Ha. done.
    + rewrite Ep. apply StronglySorted_app. split; [|done]. intros a b Ha Hb. apply I6; [done|]. apply Hsub. by left.
    + intros a b Ha Hb. rewrite Ep in Ha. apply elem_of_app in Ha as [Ha|Ha]; [apply I6; [done|]; apply Hsub; by right|by apply O2].
Qed.
Lemma ordered_ts_le rank l : StronglySorted (ordered rank) l -> StronglySorted ts_le l.
Proof.
  induction 1 as [|a l _ IH Ha]; constructor; [done|]. eapply Forall_impl; [exact Ha|]. intros b [Hb _]. exact Hb.
Qed.
(** Without extractions in between, every event is in time. *)
Definition no_extraction (mode : SortingMode) (o : @sorter_op D) : Prop := match o with ForcedOp => False | ReadBufferOp => mode = kFullSort | _ => True end.
Lemma append_keeps i d s s' : append_to_queue i d s = Ok s' -> latest_pushed_event_ts_ s' = latest_pushed_event_ts_ (D := D) s /\ sorting_mode_ s' = sorting_mode_ s.
Proof. unfold append_to_queue. destruct (queues_ s !! i) as [q|]; [|done]. destruct (Queue_Append d q) as [q'|]; [|done]. by intros [= <-]. Qed.
Lemma GetQueue_keeps i s s' : GetQueue i s = Ok s' -> latest_pushed_event_ts_ s' = latest_pushed_event_ts_ (D := D) s /\ sorting_mode_ s' = sorting_mode_ s.
Proof. unfold GetQueue. destruct (_ <=? _)%nat; [|by intros [= <-]]. destruct (new_queues _) as [qs|]; [|done]. by intros [= <-]. Qed.
Lemma quiet_keeps o s s' : no_extraction (sorting_mode_ s) o -> run_sorter_op sizeof_T o s = Ok s' -> latest_pushed_event_ts_ s' = latest_pushed_event_ts_ s /\ sorting_mode_ s' = sorting_mode_ s.
Proof.
  destruct o as [T ts v|T cpu ts v| | |]; cbn [no_extraction run_sorter_op]; intros Hq E; [| | | |done].
  - unfold PushPacket, AppendNonFtraceEvent in E. destruct (VariadicQueue_Append _ _ _ _) as [[g w]|]; [|done]. cbn [obind] in E. destruct (GetQueue 0 (set_variadic w s)) as [s1|] eqn:E1; [|done]. cbn [obind] in E.
    apply append_keeps in E as [-> ->]. by apply GetQueue_keeps in E1 as [-> ->].
  - unfold PushFtraceEvent in E. destruct (GetQueue _ s) as [s1|] eqn:E1; [|done]. cbn [obind] in E. destruct (VariadicQueue_Append _ _ _ _) as [[g w]|]; [|done]. cbn [obind] in E. apply append_keeps in E as [-> ->]. apply GetQueue_keeps in E1 as [E2 E3]. by split.
  - by injection E as <-.
  - unfold NotifyReadBufferEvent in E. rewrite Hq in E. by injection E as <-.
Qed.
Lemma quiet_in_time ops : forall s, latest_pushed_event_ts_ s = kTsMin -> Forall op_ok ops -> Forall (no_extraction (sorting_mode_ s)) ops -> in_time (ops ++ [ForcedOp]) s.
Proof.
  induction ops as [|o ops IH]; intros s Hl Hok Hq; cbn [app in_time]; [split; [done|]; by destruct (run_sorter_op _ _ _)|]. apply Forall_cons in Hok as [Ho Hok]. apply Forall_cons in Hq as [Hqo Hq].
  split; [destruct o as [T ts v|T cpu ts v| | |]; cbn in *; rewrite ?Hl; try done; apply Ho|]. destruct (run_sorter_op sizeof_T o s) as [s'|] eqn:E; [|done]. destruct (quiet_keeps o s s' Hqo E) as [E1 E2]. apply IH; [congruence|done|by rewrite E2].
Qed.

(** The destructor takes out what is left. *)
Lemma evict_all_spec next : forall l v m, stores v m next -> (forall d, d ∈ l -> live m d) -> NoDup (map td_offset l) -> exists v', evict_all l v = Ok v' /\ stores v' (without m l) next.
Proof.
  induction l as [|d l IH]; intros v m Hst Hl Hnd; [by exists v|]. destruct (Hl d ltac:(left)) as [HT [w Hw]]. destruct (Evict_spec _ _ _ _ _ _ Hst Hw) as (v1 & E & Hst1 & _). cbn [evict_all].
  replace (match td_type d with kInvalid => Crash | T => VariadicQueue_Evict T (td_offset d) v end) with (VariadicQueue_Evict (td_type d) (td_offset d) v) by (by destruct (td_type d)). rewrite E. cbn [obind].
  cbn [map] in Hnd. apply NoDup_cons in Hnd as [Hn Hnd]. apply IH; [done| |done]. intros d' Hd'. destruct (Hl d' ltac:(by right)) as [H1 [w' Hw']]. split; [done|]. exists w'. rewrite lookup_delete_ne; [done|]. intros E1. apply Hn. rewrite E1. by apply list_elem_of_fmap_2.
Qed.
Lemma evict_queues_spec next qs cs : Forall2 queue_ok qs cs -> forall v m, stores v m next -> (forall d, d ∈ concat cs -> live m d) -> NoDup (map td_offset (concat cs)) -> exists v', evict_queues qs v = Ok v' /\ stores v' (without m (concat cs)) next.
Proof.
  induction 1 as [|q l qs cs Hq _ IH]; intros v m Hst Hl Hnd; [by exists v|]. cbn [evict_queues concat] in *. rewrite (elements_spec _ _ (qo_events _ _ Hq)). cbn [obind]. rewrite map_app in Hnd. apply NoDup_app in Hnd as (Hn1 & Hn2 & Hn3).
  destruct (evict_all_spec next l v m Hst) as (v1 & -> & Hst1); [intros d Hd; apply Hl; apply elem_of_app; by left|done|]. cbn [obind]. assert (Ew : without m (l ++ concat cs) = without (without m l) (concat cs)) by apply fold_left_app. rewrite Ew. apply IH; [done| |done].
  intros d Hd. destruct (Hl d ltac:(apply elem_of_app; by right)) as [H1 [w Hw]]. split; [done|]. exists w. rewrite (without_lookup l); [done|]. intros d' Hd' E. apply (Hn2 (td_offset d')); [by apply list_elem_of_fmap_2|]. rewrite E. by apply list_elem_of_fmap_2.
Qed.
Lemma TraceSorter_delete_spec s m next cs : sorter_ok s m next cs -> TraceSorter_delete s = Ok tt.
Proof.
  intros H. unfold TraceSorter_delete. destruct (evict_queues_spec next _ _ (so_queues _ _ _ _ H) _ m (so_heap _ _ _ _ H) (so_live _ _ _ _ H) (so_nodup _ _ _ _ H)) as (v' & -> & Hst). cbn [obind].
  apply (VariadicQueue_delete_spec v' next). replace ∅ with (without m (concat cs)); [done|]. apply map_eq. intros g. rewrite lookup_empty. destruct (without m (concat cs) !! g) as [w|] eqn:E; [|done]. apply without_sub in E as [E Hne].
  destruct (so_all _ _ _ _ H g w E) as (d & Hd & Eg). by apply Hne in Hd.
Qed.

(** ** The properties *)

(** C30. The trace sorter delivers every event exactly once, with its payload: after any
    sequence of pushes to any queues, flushes, incremental and forced extractions, what the
    parser got is, up to the order, what was pushed, less what is still staged; a forced
    extraction leaves nothing staged; no check fails, no extraction runs forever, and
    the destructor finds every payload.  This holds while the payloads take less than 2 GiB. *)
Theorem sorter_exactly_once mode ops : Forall op_ok ops -> session_memory ops + kDefaultSize < 2 ^ 32 ->
  exists s waiting, run_sorter sizeof_T ops (TraceSorter_new mode false) = Ok s /\ pushed_ s ++ waiting ≡ₚ omap event_of ops /\ (last ops = Some ForcedOp -> waiting = []) /\ TraceSorter_delete s = Ok tt.
Proof.
  intros Hok Hmem. destruct (session_step (accounted ops)) with (ops := ops) (s := TraceSorter_new (D := D) mode false) (m := ∅ : Heap) (next := 0) (cs := @nil (list TD)) as (s & m & next & cs & E & H & Hp); [| |by exists []|done|lia|].
  - intros o rest s m cs s' m' cs' next next' _ _ _. apply accounted_step.
  - apply new_sorter_ok.
  - destruct Hp as (gone & Eg & Hp & Hl). rewrite app_nil_r in Eg. subst gone. exists s, (staged m cs). split; [done|]. split; [done|]. split; [done|]. by eapply TraceSorter_delete_spec.
Qed.

(** C32. The merge is in order: if no event is pushed with a timestamp before one that was
    already extracted, the parser gets the events by increasing timestamp, those of one queue
    with equal timestamps in the order in which they were pushed (the rank of their payloads
    shows it), and the statistic of events out of order stays zero. *)
Theorem sorter_in_order rank mode ops : Forall op_ok ops -> session_memory ops + kDefaultSize < 2 ^ 32 -> StronglySorted (rank_lt rank) (omap event_of ops) -> in_time ops (TraceSorter_new mode false) ->
  exists s, run_sorter sizeof_T ops (TraceSorter_new mode false) = Ok s /\ StronglySorted (ordered rank) (pushed_ s) /\ out_of_order_ s = 0.
Proof.
  intros Hok Hmem Hrank Htime. destruct (session_step (in_order rank)) with (ops := ops) (s := TraceSorter_new (D := D) mode false) (m := ∅ : Heap) (next := 0) (cs := @nil (list TD)) as (s & m & next & cs & E & H & Hp); [| | |done|lia|].
  - intros o rest s m cs s' m' cs' next next' H _ E Hef _. by apply (in_order_step rank o rest s m cs s' m' cs' next).
  - apply new_sorter_ok.
  - split; try done; cbn; [intros a b Ha; by apply not_elem_of_nil in Ha|constructor|intros a b Ha; by apply not_elem_of_nil in Ha].
  - exists s. split; [done|]. pose proof (io_sorted _ _ _ _ _ Hp) as Hs. split; [done|]. apply (hi_order _ _ _ (so_history _ _ _ _ H)). by eapply ordered_ts_le.
Qed.

(** C31. A full sort: events pushed in any order to any queues and extracted at the end come
    out sorted by timestamp, each exactly once, stably within each queue. *)
Theorem full_sort_correct rank mode ops : Forall op_ok ops -> Forall (no_extraction mode) ops -> session_memory ops + kDefaultSize < 2 ^ 32 -> StronglySorted (rank_lt rank) (omap event_of ops) ->
  exists s, run_sorter sizeof_T (ops ++ [ForcedOp]) (TraceSorter_new mode false) = Ok s /\ pushed_ s ≡ₚ omap event_of ops /\ StronglySorted (ordered rank) (pushed_ s) /\ out_of_order_ s = 0.
Proof.
  intros Hok Hq Hmem Hrank. assert (Eo : omap event_of (ops ++ [ForcedOp]) = omap event_of ops) by (rewrite omap_app; apply app_nil_r).
  assert (Em : session_memory (ops ++ [ForcedOp]) = session_memory ops) by (clear; induction ops as [|o ops IH]; cbn in *; lia).
  destruct (session_step (fun s m cs rest => accounted (ops ++ [ForcedOp]) s m cs rest /\ in_order rank s m cs rest)) with (ops := ops ++ [ForcedOp]) (s := TraceSorter_new (D := D) mode false) (m := ∅ : Heap) (next := 0) (cs := @nil (list TD)) as (s & m & next & cs & E & H & Ha & Hp).
  - intros o rest s m cs s' m' cs' next next' H _ E Hef Hforced [H1 H2]. split; [by eapply accounted_step|by eapply in_order_step].
  - apply new_sorter_ok.
  - split; [by exists []|]. split; try done; cbn [TraceSorter_new pushed_ staged staged_from app]; [by apply quiet_in_time|by rewrite Eo|intros a b Hx; by apply not_elem_of_nil in Hx|constructor|intros a b Hx; by apply not_elem_of_nil in Hx].
  - apply Forall_app. split; [done|by apply Forall_singleton].
  - rewrite Em. lia.
  - destruct Ha as (gone & Eg & Hperm & Hl). rewrite app_nil_r in Eg. subst gone. rewrite last_snoc in Hl. rewrite (Hl eq_refl), app_nil_r, Eo in Hperm. exists s. split; [done|]. split; [done|].
    pose proof (io_sorted _ _ _ _ _ Hp) as Hs. split; [done|]. apply (hi_order _ _ _ (so_history _ _ _ _ H)). by eapply ordered_ts_le.
Qed.
End sorter.

(** ** The properties at concrete inputs *)

(** Pushes, an incremental extraction, a push that is late, and a forced extraction. *)
Definition demo_late_ops : list (@sorter_op Z) :=
  demo_sorter_ops ++ [FlushOp; FlushOp; ReadBufferOp; FlushOp; ReadBufferOp; PushPacketOp kTracePacket 5 7; ForcedOp].
(** The same without the late push. *)
Definition demo_timely_ops : list (@sorter_op Z) :=
  demo_sorter_ops ++ [FlushOp; FlushOp; ReadBufferOp; PushPacketOp kTracePacket 55 7; FlushOp; ReadBufferOp; ForcedOp].

Ltac each_op := repeat (apply Forall_cons; split; [first [exact I | reflexivity | vm_compute; repeat split; discriminate]|]); apply Forall_nil; exact I.

Lemma sorter_exactly_once_witness : session_memory demo_sizes demo_late_ops + kDefaultSize < 2 ^ 32 /\
  exists s waiting, run_sorter demo_sizes demo_late_ops (TraceSorter_new kDefault false) = Ok s /\ pushed_ s ++ waiting ≡ₚ omap event_of demo_late_ops /\ (last demo_late_ops = Some ForcedOp -> waiting = []) /\ TraceSorter_delete s = Ok tt.
Proof. split; [reflexivity|]. apply (sorter_exactly_once demo_sizes kDefault demo_late_ops); [each_op|reflexivity]. Defined.

#[local] Ltac ranks := repeat (apply StronglySorted_cons; split; [repeat (apply Forall_cons; split; [reflexivity|]); apply Forall_nil; exact I|]); apply SSorted_nil.
#[local] Ltac timely := vm_compute; repeat split; discriminate.

Lemma sorter_in_order_witness : session_memory demo_sizes demo_timely_ops + kDefaultSize < 2 ^ 32 /\
  exists s, run_sorter demo_sizes demo_timely_ops (TraceSorter_new kDefault false) = Ok s /\ StronglySorted (ordered id) (pushed_ s) /\ out_of_order_ s = 0.
Proof. split; [reflexivity|]. apply (sorter_in_order demo_sizes id kDefault demo_timely_ops); [each_op|reflexivity|cbn; ranks|timely]. Defined.

Lemma full_sort_correct_witness : session_memory demo_sizes demo_sorter_ops + kDefaultSize < 2 ^ 32 /\
  exists s, run_sorter demo_sizes (demo_sorter_ops ++ [ForcedOp]) (TraceSorter_new kFullSort false) = Ok s /\ pushed_ s ≡ₚ omap event_of demo_sorter_ops /\ StronglySorted (ordered id) (pushed_ s) /\ out_of_order_ s = 0.
Proof. split; [reflexivity|]. apply (full_sort_correct demo_sizes id kFullSort demo_sorter_ops); [each_op|each_op|reflexivity|cbn; ranks]. Defined.
