(* ===== verification/FlatHashMap.v ===== *)
(** * base::FlatHashMap

    The open-addressing hash map of include/perfetto/ext/base/flat_hash_map.h: a tag, a key
    and a value per slot, a probing sequence over the slots, tombstones, and growth when a
    load limit is reached.  The hash of the keys, the probing sequence, the append-only mode
    and the size of an entry are parameters, as the template's arguments are. *)

From S2P Require Import Prelude.

(** ** Probing sequences *)

(** LinearProbe::Calc, QuadraticProbe::Calc and QuadraticHalfProbe::Calc. *)
Definition LinearProbe (key_hash step capacity : Z) : Z := u64 (key_hash + step) .& u64 (capacity - 1).
Definition QuadraticProbe (key_hash step capacity : Z) : Z := u64 (key_hash + 2 * step * step + step) .& u64 (capacity - 1).
Definition QuadraticHalfProbe (key_hash step capacity : Z) : Z := u64 (key_hash + u64 (step * step + step) `div` 2) .& u64 (capacity - 1).
(** What the map asks of a probe: it stays inside the table and visits every slot. *)
Class Probe (Calc : Z -> Z -> Z -> Z) : Prop := {
  probe_range : forall k h s, 0 <= k <= 63 -> 0 <= Calc h s (2 ^ k) < 2 ^ k;
  probe_covers : forall k h i, 0 <= k <= 63 -> 0 <= i < 2 ^ k -> exists s, 0 <= s < 2 ^ k /\ Calc h s (2 ^ k) = i
}.

(** ** The map *)

Definition kFreeSlot : Z := 0.
Definition kTombstone : Z := 1.
(** kSlotNotFound, kNotFound and the end of an iteration: numeric_limits<size_t>::max(). *)
Definition kSlotNotFound : Z := 18446744073709551615.
Definition kDefaultLoadLimitPct : Z := 75.
Definition HashToTag (full_hash : Z) : Z :=
  let tag := u8 (full_hash .>> 56) in u8 (tag + ((if tag <=? kTombstone then 1 else 0) .<< 1)).
(** The attempts of Insert: every growth at least doubles the capacity, which has 64 bits. *)
Definition kMaxAttempts : nat := 64.

(** A key or a value is [None] where there is raw memory. *)
Record FlatHashMap (K V : Type) := mkMap {
  capacity_ : Z;
  size_ : Z;
  max_probe_length_ : Z;
  load_limit_ : Z;
  load_limit_percent_ : Z;
  tags_ : list Z;
  keys_ : list (option K);
  values_ : list (option V)
}.
Arguments mkMap {K V}.
Arguments capacity_ {K V}.
Arguments size_ {K V}.
Arguments max_probe_length_ {K V}.
Arguments load_limit_ {K V}.
Arguments load_limit_percent_ {K V}.
Arguments tags_ {K V}.
Arguments keys_ {K V}.
Arguments values_ {K V}.

Section flat_hash_map.
Context {K V : Type} `{!EqDecision K} (Hasher : K -> Z) (Calc : Z -> Z -> Z -> Z) (AppendOnly : bool) (sizeof_entry : Z).
#[local] Abbreviation HashMap := (FlatHashMap K V).

(** Reset allocates [n] free slots. *)
Definition Reset (n : Z) (m : HashMap) : HashMap :=
  let load_limit := u64 (n * u64 (load_limit_percent_ m)) `div` 100 in
  mkMap n 0 0 (Z.min load_limit n) (load_limit_percent_ m) (replicate (Z.to_nat n) kFreeSlot) (replicate (Z.to_nat n) None) (replicate (Z.to_nat n) None).
Definition empty_map (load_limit_pct : Z) : HashMap := mkMap 0 0 0 0 load_limit_pct [] [] [].
Definition FlatHashMap_new (initial_capacity load_limit_pct : Z) : HashMap :=
  if 0 <? initial_capacity then Reset initial_capacity (empty_map load_limit_pct) else empty_map load_limit_pct.
(** The move constructor: the new map, and what is left of the old one. *)
Definition FlatHashMap_move (other : HashMap) : HashMap * HashMap := (other, FlatHashMap_new 0 kDefaultLoadLimitPct).

(** Reading a slot: only a constructed key can be compared. *)
Definition tag_at (idx : Z) (m : HashMap) : outcome Z := match tags_ m !! Z.to_nat idx with Some t => Ok t | None => Crash end.
Definition key_at (idx : Z) (m : HashMap) : outcome K := match keys_ m !! Z.to_nat idx with Some (Some k) => Ok k | _ => Crash end.
Definition value_at (idx : Z) (m : HashMap) : outcome V := match values_ m !! Z.to_nat idx with Some (Some v) => Ok v | _ => Crash end.
(** The slot holds an entry with this tag and key. *)
Definition matches (key : K) (idx tag_idx : Z) (m : HashMap) : outcome bool :=
  if tag_idx =? HashToTag (Hasher key) then let! k := key_at idx m in Ok (bool_decide (k = key)) else Ok false.

(** *** Lookup *)

(** [n] more probes from step [i]. *)
Fixpoint find_loop (n : nat) (i : Z) (key : K) (m : HashMap) : outcome Z :=
  match n with
  | O => Ok kSlotNotFound
  | S n =>
      let idx := Calc (Hasher key) i (capacity_ m) in
      let! tag_idx := tag_at idx m in
      if tag_idx =? kFreeSlot then Ok kSlotNotFound
      else let! found := matches key idx tag_idx m in if found then Ok idx else find_loop n (i + 1) key m
  end.
Definition FindInternal (key : K) (m : HashMap) : outcome Z := find_loop (Z.to_nat (max_probe_length_ m)) 0 key m.
(** The pointer is the slot of the value. *)
Definition Find (key : K) (m : HashMap) : outcome (option Z) :=
  let! idx := FindInternal key m in Ok (if idx =? kSlotNotFound then None else Some idx).

(** *** Insertion *)

(** The probes of Insert: the slot of the key, or where to insert it and how many probes
    were made. *)
Inductive probed := KeyIn (idx : Z) | KeyMissing (insertion_slot probe_len : Z).
Fixpoint probe_loop (n : nat) (probe_len insertion_slot : Z) (key : K) (m : HashMap) : outcome probed :=
  match n with
  | O => Ok (KeyMissing insertion_slot probe_len)
  | S n =>
      let idx := Calc (Hasher key) probe_len (capacity_ m) in
      let! tag_idx := tag_at idx m in
      if tag_idx =? kFreeSlot then
        Ok (KeyMissing (if AppendOnly || (insertion_slot =? kSlotNotFound) then idx else insertion_slot) (probe_len + 1))
      else if negb AppendOnly && (tag_idx =? kTombstone) then probe_loop n (probe_len + 1) idx key m
      else let! found := matches key idx tag_idx m in if found then Ok (KeyIn idx) else probe_loop n (probe_len + 1) insertion_slot key m
  end.
Definition set_slot (idx tag : Z) (k : option K) (v : option V) (probe_len size : Z) (m : HashMap) : HashMap :=
  mkMap (capacity_ m) size probe_len (load_limit_ m) (load_limit_percent_ m) (<[Z.to_nat idx := tag]> (tags_ m)) (<[Z.to_nat idx := k]> (keys_ m)) (<[Z.to_nat idx := v]> (values_ m)).
Definition with_size (size : Z) (m : HashMap) : HashMap :=
  mkMap (capacity_ m) size (max_probe_length_ m) (load_limit_ m) (load_limit_percent_ m) (tags_ m) (keys_ m) (values_ m).
(** The loop over the old slots moves their entries into the new table with [insert]. *)
Fixpoint rehash_loop (insert : K -> V -> HashMap -> outcome (Z * bool * HashMap)) (n : nat) (i : Z) (old m : HashMap) (new_size : Z) : outcome HashMap :=
  match n with
  | O => Ok (with_size new_size m)
  | S n =>
      let! old_tag := tag_at i old in
      if negb (old_tag =? kFreeSlot) && negb (old_tag =? kTombstone) then
        let! k := key_at i old in
        let! v := value_at i old in
        let! (_, m) := insert k v m in
        rehash_loop insert n (i + 1) old m (new_size + 1)
      else rehash_loop insert n (i + 1) old m new_size
  end.
Definition grow_factor (old_capacity : Z) : Z := if u64 (old_capacity * sizeof_entry) <? 1024 * 1024 then 8 else 2.
Definition MaybeGrowAndRehash (insert : K -> V -> HashMap -> outcome (Z * bool * HashMap)) (grow : bool) (m : HashMap) : outcome HashMap :=
  let old_capacity := capacity_ m in
  let new_capacity := if grow then Z.max (u64 (old_capacity * grow_factor old_capacity)) 1024 else old_capacity in
  check! old_capacity <=? new_capacity in
  rehash_loop insert (Z.to_nat old_capacity) 0 m (Reset new_capacity m) 0.
(** Insert: the slot of the value, whether it was inserted, and the map. *)
Fixpoint insert_attempts (attempts : nat) (key : K) (value : V) (m : HashMap) : outcome (Z * bool * HashMap) :=
  match attempts with
  | O => Crash
  | S attempts =>
      let! r := probe_loop (Z.to_nat (capacity_ m)) 0 kSlotNotFound key m in
      match r with
      | KeyIn idx => Ok (idx, false, m)
      | KeyMissing insertion_slot probe_len =>
          if load_limit_ m <=? size_ m then
            let! m := MaybeGrowAndRehash (insert_attempts attempts) true m in insert_attempts attempts key value m
          else
            check! insertion_slot <? capacity_ m in
            Ok (insertion_slot, true,
              set_slot insertion_slot (HashToTag (Hasher key)) (Some key) (Some value) (Z.max (max_probe_length_ m) probe_len) (u64 (size_ m + 1)) m)
      end
  end.
Definition Insert : K -> V -> HashMap -> outcome (Z * bool * HashMap) := insert_attempts kMaxAttempts.
(** operator[] inserts a default value, and returns its slot; the caller may write there. *)
Definition index_operator (default_value : V) (key : K) (m : HashMap) : outcome (Z * HashMap) :=
  let! (idx, _, m) := Insert key default_value m in Ok (idx, m).
Definition store_value (idx : Z) (v : V) (m : HashMap) : HashMap :=
  mkMap (capacity_ m) (size_ m) (max_probe_length_ m) (load_limit_ m) (load_limit_percent_ m) (tags_ m) (keys_ m) (<[Z.to_nat idx := Some v]> (values_ m)).

(** *** Erasure *)

Definition EraseInternal (idx : Z) (m : HashMap) : HashMap := set_slot idx kTombstone None None (max_probe_length_ m) (u64 (size_ m - 1)) m.
Definition Erase (key : K) (m : HashMap) : outcome (bool * HashMap) :=
  if AppendOnly then Crash
  else let! idx := FindInternal key m in if idx =? kSlotNotFound then Ok (false, m) else Ok (true, EraseInternal idx m).
Fixpoint clear_loop (n : nat) (i : Z) (m : HashMap) : outcome HashMap :=
  match n with
  | O => Ok m
  | S n =>
      let! tag := tag_at i m in
      clear_loop n (i + 1) (if negb (tag =? kFreeSlot) && negb (tag =? kTombstone) then EraseInternal i m else m)
  end.
Definition Clear (m : HashMap) : outcome HashMap :=
  if capacity_ m =? 0 then Ok m
  else let! m := clear_loop (Z.to_nat (capacity_ m)) 0 m in MaybeGrowAndRehash Insert false m.

(** *** Iteration *)

(** FindNextNonFree, from slot [idx]; the end is kSlotNotFound. *)
Fixpoint next_loop (n : nat) (idx : Z) (m : HashMap) : outcome Z :=
  match n with
  | O => Ok kSlotNotFound
  | S n =>
      let! tag := tag_at idx m in
      if negb (tag =? kFreeSlot) && (AppendOnly || negb (tag =? kTombstone)) then Ok idx else next_loop n (idx + 1) m
  end.
Definition FindNextNonFree (idx : Z) (m : HashMap) : outcome Z := next_loop (Z.to_nat (capacity_ m - idx)) idx m.
(** A loop over the map: GetIterator(), then operator++ until the end. *)
Fixpoint iterate_loop (n : nat) (idx : Z) (m : HashMap) : outcome (list (K * V)) :=
  if idx =? kSlotNotFound then Ok []
  else
    match n with
    | O => Crash
    | S n =>
        let! k := key_at idx m in
        let! v := value_at idx m in
        let! next := FindNextNonFree (idx + 1) m in
        let! rest := iterate_loop n next m in
        Ok ((k, v) :: rest)
    end.
Definition iterate (m : HashMap) : outcome (list (K * V)) :=
  let! idx := FindNextNonFree 0 m in iterate_loop (Z.to_nat (capacity_ m)) idx m.

(** ** What a client does *)

Inductive map_op := InsertOp (k : K) (v : V) | FindOp (k : K) | EraseOp (k : K) | IndexOp (k : K) (v : V) | ClearOp | SizeOp | IterateOp.
Inductive map_result := Inserted (fresh : bool) (at_slot : V) | Found (v : option V) | Erased (b : bool) | Stored | Cleared | SizeIs (n : Z) | Entries (l : list (K * V)).
(** The pointers of the map are followed at once; [IndexOp k v] is m[k] = v. *)
Definition run_map_op (default_value : V) (o : map_op) (m : HashMap) : outcome (HashMap * map_result) :=
  match o with
  | InsertOp k v => let! (idx, fresh, m) := Insert k v m in let! w := value_at idx m in Ok (m, Inserted fresh w)
  | FindOp k =>
      let! r := Find k m in
      match r with Some idx => let! v := value_at idx m in Ok (m, Found (Some v)) | None => Ok (m, Found None) end
  | EraseOp k => let! (b, m) := Erase k m in Ok (m, Erased b)
  | IndexOp k v => let! (idx, m) := index_operator default_value k m in let! _ := value_at idx m in Ok (store_value idx v m, Stored)
  | ClearOp => let! m := Clear m in Ok (m, Cleared)
  | SizeOp => Ok (m, SizeIs (size_ m))
  | IterateOp => let! l := iterate m in Ok (m, Entries l)
  end.
Fixpoint run_map_ops (default_value : V) (ops : list map_op) (m : HashMap) : outcome (HashMap * list map_result) :=
  match ops with
  | [] => Ok (m, [])
  | o :: ops => let! (m, r) := run_map_op default_value o m in let! (m, rs) := run_map_ops default_value ops m in Ok (m, r :: rs)
  end.

(** ** The specification: a finite map *)

Context `{!Countable K}.
Definition spec_op (o : map_op) (mp : gmap K V) : gmap K V * map_result :=
  match o with
  | InsertOp k v => match mp !! k with Some w => (mp, Inserted false w) | None => (<[k := v]> mp, Inserted true v) end
  | FindOp k => (mp, Found (mp !! k))
  | EraseOp k => (delete k mp, Erased (bool_decide (is_Some (mp !! k))))
  | IndexOp k v => (<[k := v]> mp, Stored)
  | ClearOp => (∅, Cleared)
  | SizeOp => (mp, SizeIs (Z.of_nat (size mp)))
  | IterateOp => (mp, Entries (map_to_list mp))
  end.
Fixpoint spec_ops (ops : list map_op) (mp : gmap K V) : gmap K V * list map_result :=
  match ops with
  | [] => (mp, [])
  | o :: ops => let '(mp, r) := spec_op o mp in let '(mp, rs) := spec_ops ops mp in (mp, r :: rs)
  end.
(** The order of an iteration is not specified. *)
Definition same_result (r r' : map_result) : Prop :=
  match r, r' with Entries l, Entries l' => l ≡ₚ l' | _, _ => r = r' end.

(** *** What the table stands for *)

Definition slot_entry (t : Z) (kv : option K * option V) : option (K * V) :=
  if kTombstone <? t then match kv with (Some k, Some v) => Some (k, v) | _ => None end else None.
Definition slots (m : HashMap) : list (option (K * V)) := zip_with slot_entry (tags_ m) (zip (keys_ m) (values_ m)).
Definition entries (m : HashMap) : list (K * V) := omap id (slots m).
Definition tag_is (m : HashMap) (idx : Z) (P : Z -> Prop) : Prop := exists t, tags_ m !! Z.to_nat idx = Some t /\ P t.
(** A lookup of [k] gets to [idx]: no slot before it on the probing sequence is free. *)
Definition probe_reaches (m : HashMap) (k : K) (idx : Z) : Prop :=
  exists s, 0 <= s < max_probe_length_ m /\ Calc (Hasher k) s (capacity_ m) = idx /\
    forall s', 0 <= s' < s -> tag_is m (Calc (Hasher k) s' (capacity_ m)) (fun t => t <> kFreeSlot).
Definition load_limit_of (pct n : Z) : Z := Z.min ((n * pct) `div` 100) n.
Definition max_capacity : Z := 2 ^ 50.
Record well_formed (m : HashMap) : Prop := {
  wf_capacity : capacity_ m = 0 \/ exists k, 0 <= k <= 50 /\ capacity_ m = 2 ^ k;
  wf_tags : zlen (tags_ m) = capacity_ m;
  wf_keys : zlen (keys_ m) = capacity_ m;
  wf_values : zlen (values_ m) = capacity_ m;
  wf_live : forall (i : nat) t, tags_ m !! i = Some t -> kTombstone < t -> exists k v, slots m !! i = Some (Some (k, v)) /\ t = HashToTag (Hasher k) /\ probe_reaches m k (Z.of_nat i);
  wf_nodup : NoDup (entries m).*1;
  wf_tags_pos : Forall (fun t => 0 <= t) (tags_ m);
  wf_append_only : AppendOnly = true -> Forall (fun t => t <> kTombstone) (tags_ m);
  wf_size : size_ m = zlen (entries m);
  wf_max_probe : 0 <= max_probe_length_ m <= capacity_ m;
  wf_percent : 1 <= load_limit_percent_ m <= 100;
  wf_limit : load_limit_ m = load_limit_of (load_limit_percent_ m) (capacity_ m);
  wf_below_limit : size_ m <= load_limit_ m
}.
Definition represents (m : HashMap) (mp : gmap K V) : Prop := well_formed m /\ entries m ≡ₚ map_to_list mp.
End flat_hash_map.

(** ** The probes visit every slot *)

Lemma injective_covers (n : Z) (f : Z -> Z) : 0 <= n -> (forall s, 0 <= s < n -> 0 <= f s < n) -> (forall s t, 0 <= s < n -> 0 <= t < n -> f s = f t -> s = t) ->
  forall i, 0 <= i < n -> exists s, 0 <= s < n /\ f s = i.
Proof.
  intros Hn Hr Hinj i Hi. assert (Hp : f <$> seqZ 0 n ≡ₚ seqZ 0 n).
  { apply submseteq_length_Permutation; [|by rewrite length_fmap]. apply NoDup_submseteq.
    - apply NoDup_fmap_2_strong; [|apply NoDup_seqZ]. intros s t Hs Ht. rewrite elem_of_seqZ in Hs, Ht. apply Hinj; lia.
    - intros x Hx. apply list_elem_of_fmap in Hx as (s & -> & Hs). rewrite elem_of_seqZ in *. specialize (Hr s). lia. }
  assert (Hx : i ∈ f <$> seqZ 0 n) by (rewrite Hp; apply elem_of_seqZ; lia). apply list_elem_of_fmap in Hx as (s & -> & Hs). exists s. apply elem_of_seqZ in Hs. split; [lia|done].
Qed.
(** The mask is a remainder, and the wrap of 64 bits does not show in it. *)
Lemma u64_mask x k : 0 <= k <= 63 -> u64 x .& u64 (2 ^ k - 1) = x `mod` 2 ^ k.
Proof.
  intros Hk. assert (Hp : 2 ^ k < 2 ^ 64) by (apply Z.pow_lt_mono_r; lia). assert (0 < 2 ^ k) by (apply pow2_pos; lia).
  rewrite (u64_small (2 ^ k - 1)) by (change (2 ^ 64) with 18446744073709551616 in Hp; lia). rewrite land_ones_mod by lia. apply (uw_uw k 64). lia.
Qed.
Lemma mod_eq_divide a b n : 0 < n -> a `mod` n = b `mod` n -> (n | a - b).
Proof. intros Hn E. exists (a `div` n - b `div` n). pose proof (Z.div_mod a n). pose proof (Z.div_mod b n). nia. Qed.
Lemma divide_small n a : 0 < n -> (n | a) -> - n < a < n -> a = 0.
Proof. intros Hn [q ->] Ha. assert (q = 0) by nia. subst. lia. Qed.
(** Half of a wrapped even product, seen modulo 2^k. *)
Lemma half_wrap x k : 0 <= k <= 63 -> (u64 x `div` 2) `mod` 2 ^ k = (x `div` 2) `mod` 2 ^ k.
Proof.
  intros Hk. unfold u64, uw. assert (0 < 2 ^ k) by (apply pow2_pos; lia). pose proof (Z.div_mod x (2 ^ 64) ltac:(done)) as Hd.
  assert (E : x `div` 2 = (x `mod` 2 ^ 64) `div` 2 + x `div` 2 ^ 64 * 2 ^ 63).
  { rewrite Hd at 1. replace (2 ^ 64 * (x `div` 2 ^ 64) + x `mod` 2 ^ 64) with (x `mod` 2 ^ 64 + (x `div` 2 ^ 64 * 2 ^ 63) * 2) by lia. by rewrite Z.div_add by done. }
  rewrite E. replace (2 ^ 63) with (2 ^ (63 - k) * 2 ^ k) by (rewrite <- Z.pow_add_r by lia; f_equal; lia). rewrite Z.mul_assoc, Z.mod_add by lia. done.
Qed.
Lemma odd_factor k a b : 0 <= k -> (2 ^ k | (2 * a + 1) * b) -> (2 ^ k | b).
Proof.
  intros Hk. revert b. pattern k. apply natlike_ind; [intros b _; apply Z.divide_1_l| |done]. clear k Hk. intros k Hk IH b [q Hq]. rewrite Z.pow_succ_r in * by done.
  assert (E : exists c, b = 2 * c) by (exists (q * 2 ^ k - a * b); lia). destruct E as [c ->]. apply Z.mul_divide_mono_l, IH. exists q. lia.
Qed.

(** A probe whose offsets differ modulo the capacity visits every slot. *)
Lemma probe_of_offset (Calc : Z -> Z -> Z -> Z) (f : Z -> Z) : (forall k h s, 0 <= k <= 63 -> Calc h s (2 ^ k) = (h + f s) `mod` 2 ^ k) ->
  (forall k s t, 0 <= k <= 63 -> 0 <= s < 2 ^ k -> 0 <= t < 2 ^ k -> (2 ^ k | f s - f t) -> s = t) -> Probe Calc.
Proof.
  intros Hc Hinj. split.
  - intros k h s Hk. rewrite Hc by done. apply Z.mod_pos_bound, pow2_pos. lia.
  - intros k h i Hk Hi. assert (0 < 2 ^ k) by (apply pow2_pos; lia). destruct (injective_covers (2 ^ k) (fun s => Calc h s (2 ^ k))) with (i := i) as (s & Hs & E); [lia| | |done|by exists s].
    + intros s _. rewrite Hc by done. by apply Z.mod_pos_bound.
    + intros s t Hs Ht E. rewrite !Hc in E by done. apply mod_eq_divide in E; [|done]. apply (Hinj k); [done..|]. by replace (f s - f t) with (h + f s - (h + f t)) by lia.
Qed.
#[export] Instance LinearProbe_covers : Probe LinearProbe.
Proof.
  apply (probe_of_offset _ (fun s => s)); [intros k h s Hk; by apply u64_mask|]. intros k s t Hk Hs Ht Hd. apply divide_small in Hd; lia.
Qed.
#[export] Instance QuadraticProbe_covers : Probe QuadraticProbe.
Proof.
  apply (probe_of_offset _ (fun s => 2 * s * s + s)).
  - intros k h s Hk. unfold QuadraticProbe. rewrite u64_mask by done. f_equal. lia.
  - intros k s t Hk Hs Ht Hd. replace (2 * s * s + s - (2 * t * t + t)) with ((2 * (s + t) + 1) * (s - t)) in Hd by lia. apply odd_factor in Hd; [|lia]. apply divide_small in Hd; lia.
Qed.
Lemma triangle_diff s t : 2 * ((s * s + s) `div` 2 - (t * t + t) `div` 2) = (s - t) * (s + t + 1).
Proof.
  assert (He : forall x, (x * x + x) `mod` 2 = 0) by (intros x; replace (x * x + x) with (x * (x + 1)) by lia; rewrite Zmod_even, Z.even_mul, Z.even_add; by destruct (Z.even x)).
  pose proof (Z.div_mod (s * s + s) 2). pose proof (Z.div_mod (t * t + t) 2). pose proof (He s). pose proof (He t). lia.
Qed.
#[export] Instance QuadraticHalfProbe_covers : Probe QuadraticHalfProbe.
Proof.
  apply (probe_of_offset _ (fun s => (s * s + s) `div` 2)).
  - intros k h s Hk. unfold QuadraticHalfProbe. rewrite u64_mask by done. rewrite Z.add_mod, half_wrap, <- Z.add_mod by (try apply Z.pow_nonzero; lia). done.
  - intros k s t Hk Hs Ht Hd. apply (Z.mul_divide_mono_l _ _ 2) in Hd. rewrite triangle_diff, <- Z.pow_succ_r in Hd by lia. assert (Hp : 2 ^ Z.succ k = 2 * 2 ^ k) by (rewrite Z.pow_succ_r; lia).
    destruct (Z.Even_or_Odd (s - t)) as [[a Ha]|[a Ha]].
    + replace (s + t + 1) with (2 * (a + t) + 1) in Hd by lia. rewrite Z.mul_comm in Hd. apply odd_factor in Hd; [|lia]. apply divide_small in Hd; lia.
    + rewrite Ha in Hd. apply odd_factor in Hd; [|lia]. apply divide_small in Hd; lia.
Qed.

(** C26. Whatever the hash, the three probing sequences stay inside a table of 2^k slots, up to
    2^63, and visit every slot once within the first 2^k probes, although their 64-bit
    arithmetic wraps. *)
Theorem probes_visit_every_slot k h : 0 <= k <= 63 -> Forall (fun Calc => (fun s => Calc h s (2 ^ k)) <$> seqZ 0 (2 ^ k) ≡ₚ seqZ 0 (2 ^ k)) [LinearProbe; QuadraticProbe; QuadraticHalfProbe].
Proof.
  intros Hk. assert (H : forall Calc, Probe Calc -> (fun s => Calc h s (2 ^ k)) <$> seqZ 0 (2 ^ k) ≡ₚ seqZ 0 (2 ^ k)).
  { intros Calc HP. symmetry. apply submseteq_length_Permutation; [|by rewrite length_fmap]. apply NoDup_submseteq; [apply NoDup_seqZ|]. intros i Hi. apply elem_of_seqZ in Hi. destruct (probe_covers k h i Hk ltac:(lia)) as (s & Hs & E).
    apply list_elem_of_fmap. exists s. split; [done|]. apply elem_of_seqZ. lia. }
  repeat (apply Forall_cons; split; [apply H; apply _|]). by apply Forall_nil.
Qed.
Lemma probes_visit_every_slot_witness : (fun s => QuadraticHalfProbe 5 s 8) <$> seqZ 0 8 = [5; 6; 0; 3; 7; 4; 2; 1] /\ Forall (fun Calc => (fun s => Calc 5 s (2 ^ 3)) <$> seqZ 0 (2 ^ 3) ≡ₚ seqZ 0 (2 ^ 3)) [LinearProbe; QuadraticProbe; QuadraticHalfProbe].
Proof. split; [reflexivity|]. apply (probes_visit_every_slot 3 5). lia. Defined.
