(* ===== verification/FlatHashMapRefinement.v ===== *)
(** * The hash map refines a finite map

    The invariant of the table (every entry is reached by its probing sequence, no key
    twice), and that each operation keeps it and does what it does on a finite map. *)

From S2P Require Import Prelude FlatHashMap.

(** ** Lists of slots *)

Lemma omap_insert {A} (l : list (option A)) i o o' : l !! i = Some o -> option_list o ++ omap id (<[i := o']> l) ≡ₚ option_list o' ++ omap id l.
Proof.
  revert i. induction l as [|x l IH]; intros [|i] Hi; [done..| |].
  - injection Hi as ->. cbn. destruct o, o'; cbn; done || apply perm_swap.
  - cbn in *. specialize (IH i Hi). destruct x as [x|]; cbn; [|done]. rewrite <- !Permutation_middle. by rewrite IH.
Qed.
Lemma HashToTag_live h : kTombstone < HashToTag h < 256.
Proof.
  unfold HashToTag, kTombstone. pose proof (u8_range (h .>> 56)). destruct (Z.leb_spec (u8 (h .>> 56)) 1).
  - change (1 .<< 1) with 2. rewrite u8_small; lia.
  - change (0 .<< 1) with 0. rewrite u8_small; lia.
Qed.

Section flat_hash_map.
Context {K V : Type} `{Countable K} (Hasher : K -> Z) (Calc : Z -> Z -> Z -> Z) `{!Probe Calc} (AppendOnly : bool) (sizeof_entry : Z).
#[local] Abbreviation HashMap := (FlatHashMap K V).
#[local] Abbreviation wf := (well_formed (K := K) (V := V) Hasher Calc AppendOnly).
Implicit Type m : HashMap.

(** ** Slots *)

Lemma slots_lookup m i o : slots m !! i = Some o <-> exists t k v, tags_ m !! i = Some t /\ keys_ m !! i = Some k /\ values_ m !! i = Some v /\ o = slot_entry t (k, v).
Proof.
  unfold slots. rewrite lookup_zip_with_Some. split.
  - intros (t & [k v] & -> & Ht & Hkv). apply lookup_zip_Some in Hkv as [Hk Hv]. by exists t, k, v.
  - intros (t & k & v & Ht & Hk & Hv & ->). exists t, (k, v). split; [done|]. split; [done|]. by apply lookup_zip_Some.
Qed.
Lemma slots_live m i k v : slots m !! i = Some (Some (k, v)) <-> exists t, tags_ m !! i = Some t /\ kTombstone < t /\ keys_ m !! i = Some (Some k) /\ values_ m !! i = Some (Some v).
Proof.
  rewrite slots_lookup. unfold slot_entry. split.
  - intros (t & ok & ov & Ht & Hk & Hv & E). exists t. destruct (Z.ltb_spec kTombstone t); [|done]. destruct ok, ov; try done. by injection E as -> ->.
  - intros (t & Ht & Hl & Hk & Hv). exists t, (Some k), (Some v). repeat (split; [done|]). destruct (Z.ltb_spec kTombstone t); [done|lia].
Qed.
Lemma entries_elem m kv : kv ∈ entries m <-> exists i, slots m !! i = Some (Some kv).
Proof.
  unfold entries. rewrite list_elem_of_omap. split.
  - intros (o & Ho & E). apply list_elem_of_lookup in Ho as [i Hi]. exists i. by rewrite Hi, <- E.
  - intros [i Hi]. exists (Some kv). split; [|done]. by eapply list_elem_of_lookup_2.
Qed.
Lemma keys_elem m k : k ∈ (entries m).*1 <-> exists i v, slots m !! i = Some (Some (k, v)).
Proof.
  rewrite list_elem_of_fmap. split.
  - intros ([k' v] & -> & Hx). apply entries_elem in Hx as [i Hi]. by exists i, v.
  - intros (i & v & Hi). exists (k, v). split; [done|]. apply entries_elem. by exists i.
Qed.
Lemma entries_unique (l : list (K * V)) k v w : NoDup l.*1 -> (k, v) ∈ l -> (k, w) ∈ l -> v = w.
Proof. intros Hnd Hv Hw. apply (elem_of_list_to_map_1 (M := gmap K)) in Hv, Hw; [|done..]. congruence. Qed.
Lemma set_slot_slots idx t k v p n m : slots (set_slot idx t k v p n m) = <[Z.to_nat idx := slot_entry t (k, v)]> (slots m).
Proof. unfold slots, set_slot. cbn. rewrite insert_zip_with. f_equal. unfold zip. symmetry. apply (insert_zip_with pair). Qed.
Lemma slots_length m : wf m -> zlen (slots m) = capacity_ m.
Proof. intros []. unfold slots, zlen in *. rewrite length_zip_with, length_zip_with. lia. Qed.
Lemma slot_exists m idx : wf m -> 0 <= idx < capacity_ m -> exists t k v, tags_ m !! Z.to_nat idx = Some t /\ keys_ m !! Z.to_nat idx = Some k /\ values_ m !! Z.to_nat idx = Some v /\ slots m !! Z.to_nat idx = Some (slot_entry t (k, v)) /\ 0 <= t.
Proof.
  intros Hw Hi. destruct Hw. unfold zlen in *. destruct (lookup_lt_is_Some_2 (tags_ m) (Z.to_nat idx)) as [t Ht]; [lia|]. destruct (lookup_lt_is_Some_2 (keys_ m) (Z.to_nat idx)) as [k Hk]; [lia|]. destruct (lookup_lt_is_Some_2 (values_ m) (Z.to_nat idx)) as [v Hv]; [lia|].
  exists t, k, v. repeat (split; [done|]). split; [apply slots_lookup; by exists t, k, v|]. by eapply (Forall_lookup_1 _ _ _ _ wf_tags_pos).
Qed.
Lemma tag_at_spec m idx : wf m -> 0 <= idx < capacity_ m -> exists t, tag_at idx m = Ok t /\ tags_ m !! Z.to_nat idx = Some t /\ 0 <= t.
Proof. intros Hw Hi. destruct (slot_exists m idx Hw Hi) as (t & _ & _ & Ht & _ & _ & _ & Hp). exists t. unfold tag_at. by rewrite Ht. Qed.
(** A slot with the tag of a key holds an entry, and the comparison of keys decides. *)
Lemma matches_spec m k idx t : wf m -> 0 <= idx -> tags_ m !! Z.to_nat idx = Some t -> kTombstone < t ->
  exists b, matches Hasher k idx t m = Ok b /\ (b = true <-> exists v, slots m !! Z.to_nat idx = Some (Some (k, v))).
Proof.
  intros Hw Hi Ht Hlive. destruct (wf_live _ _ _ _ Hw _ _ Ht Hlive) as (k' & v & Hs & E & _). unfold matches. assert (Hk : key_at idx m = Ok k') by (apply slots_live in Hs as (_ & _ & _ & Hk & _); unfold key_at; by rewrite Hk).
  destruct (Z.eqb_spec t (HashToTag (Hasher k))) as [E'|Hne].
  - rewrite Hk. exists (bool_decide (k' = k)). split; [done|]. rewrite bool_decide_eq_true. split; [intros ->; by exists v|]. intros [v' Hv]. congruence.
  - exists false. split; [done|]. split; [done|]. intros [v' Hv]. assert (k' = k) by congruence. subst. done.
Qed.
Lemma capacity_bounds m : wf m -> 0 <= capacity_ m <= max_capacity.
Proof.
  intros [Hc _ _ _ _ _ _ _ _ _ _ _ _]. unfold max_capacity. destruct Hc as [->|(k & Hk & ->)]; [lia|]. assert (0 < 2 ^ k) by (apply pow2_pos; lia). assert (2 ^ k <= 2 ^ 50) by (apply Z.pow_le_mono_r; lia). lia.
Qed.
Lemma calc_range m h s : wf m -> 0 < capacity_ m -> 0 <= Calc h s (capacity_ m) < capacity_ m.
Proof. intros Hw Hc. destruct (wf_capacity _ _ _ _ Hw) as [|(k & Hk & ->)]; [lia|]. apply probe_range. lia. Qed.
Lemma calc_covers m h i : wf m -> 0 <= i < capacity_ m -> exists s, 0 <= s < capacity_ m /\ Calc h s (capacity_ m) = i.
Proof. intros Hw Hi. destruct (wf_capacity _ _ _ _ Hw) as [|(k & Hk & E)]; [lia|]. rewrite E in *. apply probe_covers; lia. Qed.

(** ** Searching *)

Definition holds_key (m : HashMap) (k : K) (idx : Z) : Prop := exists v, slots m !! Z.to_nat idx = Some (Some (k, v)).
(** The first [p] probes found neither a free slot nor the key. *)
Definition passed (m : HashMap) (k : K) (p : Z) : Prop :=
  forall s, 0 <= s < p -> tag_is m (Calc (Hasher k) s (capacity_ m)) (fun t => t <> kFreeSlot) /\ ~ holds_key m k (Calc (Hasher k) s (capacity_ m)).
Lemma passed_0 m k : passed m k 0.
Proof. intros s Hs. lia. Qed.
Lemma passed_step m k p : passed m k p -> tag_is m (Calc (Hasher k) p (capacity_ m)) (fun t => t <> kFreeSlot) -> ~ holds_key m k (Calc (Hasher k) p (capacity_ m)) -> passed m k (p + 1).
Proof. intros Hp Ht Hk s Hs. destruct (decide (s = p)) as [->|]; [done|]. apply Hp. lia. Qed.
(** Then the key is not in the table, if the search was long enough or met a free slot. *)
Lemma passed_missing m k p : wf m -> 0 <= p -> passed m k p -> max_probe_length_ m <= p \/ tag_is m (Calc (Hasher k) p (capacity_ m)) (fun t => t = kFreeSlot) -> k ∉ (entries m).*1.
Proof.
  intros Hw Hp0 Hp Hend Hin. apply keys_elem in Hin as (i & v & Hi). pose proof Hi as Hs. apply slots_live in Hi as (t & Ht & Hl & _). destruct (wf_live _ _ _ _ Hw _ _ Ht Hl) as (k' & v' & Hs' & _ & s & Hsr & Ec & Hfree).
  assert (k' = k) by congruence. subst k'. assert (Hhere : holds_key m k (Calc (Hasher k) s (capacity_ m))) by (exists v; by rewrite Ec, Nat2Z.id).
  destruct (Z.lt_trichotomy s p) as [Hlt|[->|Hgt]]; [by destruct (Hp s ltac:(lia))| |]; destruct Hend as [Hend|(t0 & Ht0 & ->)]; try lia.
  - rewrite Ec, Nat2Z.id in Ht0. assert (t = kFreeSlot) by congruence. unfold kFreeSlot, kTombstone in *. lia.
  - destruct (Hfree p) as (t1 & Ht1 & Hne); [lia|]. congruence.
Qed.
Lemma find_loop_spec m k : wf m -> forall n i, 0 <= i -> Z.of_nat n + i = max_probe_length_ m -> passed m k i ->
  exists idx, find_loop Hasher Calc n i k m = Ok idx /\ ((idx = kSlotNotFound /\ k ∉ (entries m).*1) \/ (0 <= idx < capacity_ m /\ holds_key m k idx)).
Proof.
  intros Hw. induction n as [|n IH]; intros i Hi Hn Hp; cbn [find_loop].
  - exists kSlotNotFound. split; [done|]. left. split; [done|]. apply (passed_missing m k i Hw Hi Hp). left. lia.
  - pose proof (wf_max_probe _ _ _ _ Hw). pose proof (calc_range m (Hasher k) i Hw ltac:(lia)) as Hr. destruct (tag_at_spec m _ Hw Hr) as (t & -> & Ht & Hpos). cbn [obind].
    destruct (Z.eqb_spec t kFreeSlot) as [->|Hne].
    + exists kSlotNotFound. split; [done|]. left. split; [done|]. apply (passed_missing m k i Hw Hi Hp). right. by exists kFreeSlot.
    + assert (Htag : tag_is m (Calc (Hasher k) i (capacity_ m)) (fun t => t <> kFreeSlot)) by (by exists t). destruct (decide (kTombstone < t)) as [Hl|Hl].
      * destruct (matches_spec m k _ t Hw (proj1 Hr) Ht Hl) as (b & -> & Hb). cbn [obind]. destruct b; [eexists; split; [done|]; right; split; [done|]; by apply Hb|]. apply IH; [lia..|]. apply passed_step; [done..|]. intros Hk. apply Hb in Hk. done.
      * assert (t = kTombstone) by (unfold kTombstone, kFreeSlot in *; lia). subst t. unfold matches. pose proof (HashToTag_live (Hasher k)). destruct (Z.eqb_spec kTombstone (HashToTag (Hasher k))); [lia|]. cbn [obind].
        apply IH; [lia..|]. apply passed_step; [done..|]. intros [v Hv]. apply slots_live in Hv as (t & Ht' & Hl' & _). assert (t = kTombstone) by congruence. lia.
Qed.
Lemma FindInternal_spec m k : wf m -> exists idx, FindInternal Hasher Calc k m = Ok idx /\ ((idx = kSlotNotFound /\ k ∉ (entries m).*1) \/ (0 <= idx < capacity_ m /\ holds_key m k idx)).
Proof. intros Hw. apply find_loop_spec; [done|lia| |apply passed_0]. pose proof (wf_max_probe _ _ _ _ Hw). lia. Qed.

(** Where Insert may put the key: no slot yet, and all are taken; or a slot that is not
    taken, behind slots that are not free. *)
Definition insertion_place (m : HashMap) (k : K) (p slot : Z) : Prop :=
  (slot = kSlotNotFound /\ forall s, 0 <= s < p -> tag_is m (Calc (Hasher k) s (capacity_ m)) (fun t => kTombstone < t)) \/
  (exists s, 0 <= s < p /\ slot = Calc (Hasher k) s (capacity_ m) /\ tag_is m slot (fun t => t <= kTombstone) /\
    forall s', 0 <= s' < s -> tag_is m (Calc (Hasher k) s' (capacity_ m)) (fun t => t <> kFreeSlot)).
Lemma insertion_place_step m k p slot : insertion_place m k p slot -> tag_is m (Calc (Hasher k) p (capacity_ m)) (fun t => kTombstone < t) -> insertion_place m k (p + 1) slot.
Proof.
  intros [[-> Ha]|(s & Hs & E & Ht & Hb)] Hl; [left; split; [done|]; intros s Hs; destruct (decide (s = p)) as [->|]; [done|apply Ha; lia]|right; exists s; split; [lia|done]].
Qed.
Lemma insertion_place_here m k p : 0 <= p -> passed m k p -> tag_is m (Calc (Hasher k) p (capacity_ m)) (fun t => t <= kTombstone) -> insertion_place m k (p + 1) (Calc (Hasher k) p (capacity_ m)).
Proof. intros Hp Hpass Ht. right. exists p. split; [lia|]. split; [done|]. split; [done|]. intros s' Hs'. by apply Hpass. Qed.
Lemma probe_loop_spec m k : wf m -> forall n p slot, 0 <= p -> Z.of_nat n + p = capacity_ m -> passed m k p -> insertion_place m k p slot ->
  exists r, probe_loop Hasher Calc AppendOnly n p slot k m = Ok r /\
    match r with
    | KeyIn idx => 0 <= idx < capacity_ m /\ holds_key m k idx
    | KeyMissing slot len => (k ∉ (entries m).*1) /\ 0 <= len <= capacity_ m /\ insertion_place m k len slot /\ (slot = kSlotNotFound -> len = capacity_ m)
    end.
Proof.
  intros Hw. pose proof (capacity_bounds m Hw) as Hcap. unfold max_capacity in Hcap. induction n as [|n IH]; intros p slot Hp Hn Hpass Hplace; cbn [probe_loop].
  - eexists. split; [done|]. cbn. split; [|split; [lia|]; split; [done|lia]]. apply (passed_missing m k p Hw Hp Hpass). left. pose proof (wf_max_probe _ _ _ _ Hw). lia.
  - pose proof (calc_range m (Hasher k) p Hw ltac:(lia)) as Hr. destruct (tag_at_spec m _ Hw Hr) as (t & -> & Ht & Hpos). cbn [obind]. destruct (Z.eqb_spec t kFreeSlot) as [->|Hne].
    + assert (Hhere : insertion_place m k (p + 1) (Calc (Hasher k) p (capacity_ m))) by (apply insertion_place_here; [done..|]; by exists kFreeSlot).
      eexists. split; [done|]. cbn. split; [apply (passed_missing m k p Hw Hp Hpass); right; by exists kFreeSlot|]. split; [lia|]. unfold kSlotNotFound in *. destruct (AppendOnly || (slot =? 18446744073709551615)) eqn:E; [split; [done|lia]|].
      apply orb_false_iff in E as [_ E%Z.eqb_neq]. split; [|done]. destruct Hplace as [[-> _]|(s & Hs & H')]; [done|]. right. exists s. split; [lia|done].
    + assert (Htag : tag_is m (Calc (Hasher k) p (capacity_ m)) (fun t => t <> kFreeSlot)) by (by exists t). destruct (Z.eqb_spec t kTombstone) as [->|Hnt].
      * assert (Ea : AppendOnly = false) by (destruct AppendOnly eqn:E; [|done]; pose proof (Forall_lookup_1 _ _ _ _ (wf_append_only _ _ _ _ Hw eq_refl) Ht); done). rewrite Ea. cbn [negb andb]. rewrite <- Ea.
        apply IH; [lia..| |apply insertion_place_here; [done..|]; by exists kTombstone]. apply passed_step; [done..|]. intros [v Hv]. apply slots_live in Hv as (t & Ht' & Hl & _). assert (t = kTombstone) by congruence. lia.
      * rewrite andb_false_r. assert (Hl : kTombstone < t) by (unfold kTombstone, kFreeSlot in *; lia). destruct (matches_spec m k _ t Hw (proj1 Hr) Ht Hl) as (b & -> & Hb). cbn [obind]. destruct b; [eexists; split; [done|]; split; [done|]; by apply Hb|].
        apply IH; [lia..| |apply insertion_place_step; [done|]; by exists t]. apply passed_step; [done..|]. intros Hk. apply Hb in Hk. done.
Qed.

(** ** Changing one slot *)

(** A change that frees no slot keeps every entry reachable. *)
Lemma probe_reaches_mono m m' k i : capacity_ m' = capacity_ m -> max_probe_length_ m <= max_probe_length_ m' ->
  (forall idx, tag_is m idx (fun t => t <> kFreeSlot) -> tag_is m' idx (fun t => t <> kFreeSlot)) -> probe_reaches Hasher Calc m k i -> probe_reaches Hasher Calc m' k i.
Proof. intros Ec Hm Ht (s & Hs & E & Hb). exists s. rewrite Ec. split; [lia|]. split; [done|]. intros s' Hs'. apply Ht. by apply Hb. Qed.
Lemma set_slot_tag_is idx t k v p n m j : 0 <= idx < zlen (tags_ m) -> t <> kFreeSlot -> tag_is m j (fun t => t <> kFreeSlot) -> tag_is (set_slot (K := K) (V := V) idx t k v p n m) j (fun t => t <> kFreeSlot).
Proof.
  intros Hi Hne (t0 & Ht0 & Hf). unfold tag_is, set_slot. cbn. destruct (decide (Z.to_nat j = Z.to_nat idx)) as [->|].
  - exists t. rewrite list_lookup_insert_eq; [done|]. unfold zlen in Hi. lia.
  - exists t0. by rewrite list_lookup_insert_ne.
Qed.
(** Taking a slot for a new key. *)
Lemma take_slot m k v p idx : wf m -> k ∉ (entries m).*1 -> 0 <= p <= capacity_ m -> insertion_place m k p idx -> (idx = kSlotNotFound -> p = capacity_ m) -> size_ m < load_limit_ m ->
  0 <= idx < capacity_ m /\
  exists m', m' = set_slot idx (HashToTag (Hasher k)) (Some k) (Some v) (Z.max (max_probe_length_ m) p) (u64 (size_ m + 1)) m /\
    wf m' /\ entries m' ≡ₚ (k, v) :: entries m /\ slots m' !! Z.to_nat idx = Some (Some (k, v)).
Proof.
  intros Hw Hk Hp Hplace Hfull Hlim. pose proof (capacity_bounds m Hw) as Hcap. unfold max_capacity in Hcap. pose proof (wf_limit _ _ _ _ Hw) as Hl. unfold load_limit_of in Hl. pose proof (wf_size _ _ _ _ Hw) as Hsize. pose proof (zlen_nonneg (entries m)).
  destruct Hplace as [[-> Ha]|(s & Hs & -> & (t & Ht & Htl) & Hb)].
  { exfalso. specialize (Hfull eq_refl). subst p. assert (zlen (entries m) = capacity_ m); [|lia]. rewrite <- (slots_length m Hw). unfold entries, zlen. f_equal.
    assert (Hall : Forall (fun o => is_Some o) (slots m)); [|clear -Hall; induction Hall as [|o l [x ->] _ IH]; cbn; [done|by rewrite IH]].
    apply Forall_lookup. intros i o Hi. assert (Z.of_nat i < capacity_ m) by (rewrite <- (slots_length m Hw); apply lookup_lt_Some in Hi; unfold zlen; lia).
    destruct (calc_covers m (Hasher k) (Z.of_nat i) Hw) as (s & Hs & Es); [lia|]. destruct (Ha s Hs) as (t & Ht & Htl). rewrite Es, Nat2Z.id in Ht. destruct (wf_live _ _ _ _ Hw _ _ Ht Htl) as (k' & v' & Hs' & _). rewrite Hi in Hs'. injection Hs' as ->. done. }
  set (idx := Calc (Hasher k) s (capacity_ m)) in *. pose proof (calc_range m (Hasher k) s Hw ltac:(lia)) as Hr. fold idx in Hr. split; [done|]. eexists. split; [done|]. set (m' := set_slot _ _ _ _ _ _ _).
  pose proof (HashToTag_live (Hasher k)) as Htag. unfold kTombstone in Htag. destruct (slot_exists m idx Hw Hr) as (t0 & k0 & v0 & Ht0 & _ & _ & Hs0 & Hpos). assert (t0 = t) by congruence. subst t0.
  assert (Hs0' : slots m !! Z.to_nat idx = Some None) by (rewrite Hs0; unfold slot_entry; destruct (Z.ltb_spec kTombstone t); [lia|done]).
  assert (Eslot : slot_entry (HashToTag (Hasher k)) (Some k, Some v) = Some (k, v)) by (unfold slot_entry, kTombstone; destruct (Z.ltb_spec 1 (HashToTag (Hasher k))); [done|lia]).
  assert (Eslots : slots m' = <[Z.to_nat idx := Some (k, v)]> (slots m)) by (unfold m'; by rewrite set_slot_slots, Eslot).
  assert (Ee : entries m' ≡ₚ (k, v) :: entries m) by (unfold entries; rewrite Eslots; by apply (omap_insert _ _ _ (Some (k, v))) in Hs0').
  assert (Hlen : (Z.to_nat idx < length (slots m))%nat) by (pose proof (slots_length m Hw); unfold zlen in *; lia).
  assert (Hmono : forall j, tag_is m j (fun t => t <> kFreeSlot) -> tag_is m' j (fun t => t <> kFreeSlot)).
  { intros j. apply set_slot_tag_is; [by rewrite (wf_tags _ _ _ _ Hw)|]. unfold kFreeSlot. lia. }
  split; [|split; [done|]; rewrite Eslots; by apply list_lookup_insert_eq]. split; unfold m'; cbn [set_slot capacity_ tags_ keys_ values_ size_ max_probe_length_ load_limit_ load_limit_percent_]; fold m'.
  - apply (wf_capacity _ _ _ _ Hw).
  - unfold zlen. rewrite length_insert. apply (wf_tags _ _ _ _ Hw).
  - unfold zlen. rewrite length_insert. apply (wf_keys _ _ _ _ Hw).
  - unfold zlen. rewrite length_insert. apply (wf_values _ _ _ _ Hw).
  - intros i t1 Hi Hlive. rewrite Eslots. destruct (decide (i = Z.to_nat idx)) as [->|Hne].
    + rewrite list_lookup_insert_eq in Hi by (pose proof (wf_tags _ _ _ _ Hw); unfold zlen in *; lia). injection Hi as <-. exists k, v. split; [by apply list_lookup_insert_eq|]. split; [done|]. exists s. unfold m'. cbn [set_slot capacity_ max_probe_length_]. fold m'.
      split; [lia|]. split; [fold idx; lia|]. intros s' Hs'. apply Hmono. by apply Hb.
    + rewrite list_lookup_insert_ne in Hi by done. destruct (wf_live _ _ _ _ Hw _ _ Hi Hlive) as (k1 & v1 & Hs1 & E1 & Hreach). exists k1, v1. rewrite list_lookup_insert_ne by done. split; [done|]. split; [done|]. apply (probe_reaches_mono m); [done|cbn; lia|done|done].
  - rewrite Ee. cbn. apply NoDup_cons. split; [done|]. apply (wf_nodup _ _ _ _ Hw).
  - apply Forall_insert; [apply (wf_tags_pos _ _ _ _ Hw)|lia].
  - intros Ha. apply Forall_insert; [by apply (wf_append_only _ _ _ _ Hw)|]. unfold kTombstone. lia.
  - unfold zlen. rewrite Ee. cbn [length]. unfold zlen in Hsize. rewrite u64_small by lia. lia.
  - pose proof (wf_max_probe _ _ _ _ Hw). lia.
  - apply (wf_percent _ _ _ _ Hw).
  - done.
  - rewrite u64_small by lia. lia.
Qed.
(** Leaving a tombstone. *)
Lemma erase_slot m k v idx : wf m -> AppendOnly = false -> 0 <= idx < capacity_ m -> slots m !! Z.to_nat idx = Some (Some (k, v)) -> wf (EraseInternal idx m) /\ (k, v) :: entries (EraseInternal idx m) ≡ₚ entries m.
Proof.
  intros Hw Ha Hr Hs. pose proof (wf_tags _ _ _ _ Hw) as Htl. pose proof (capacity_bounds m Hw) as Hcap. unfold max_capacity in Hcap. set (m' := EraseInternal idx m).
  assert (Eslots : slots m' = <[Z.to_nat idx := None]> (slots m)) by apply set_slot_slots. assert (Ee : (k, v) :: entries m' ≡ₚ entries m) by (unfold entries; rewrite Eslots; by apply (omap_insert _ _ _ None) in Hs).
  assert (Hmono : forall j, tag_is m j (fun t => t <> kFreeSlot) -> tag_is m' j (fun t => t <> kFreeSlot)) by (intros j; apply set_slot_tag_is; [by rewrite Htl|done]).
  pose proof (wf_size _ _ _ _ Hw) as Hsize. assert (Hn : zlen (entries m) = 1 + zlen (entries m')) by (unfold zlen; rewrite <- Ee; cbn [length]; lia). pose proof (wf_below_limit _ _ _ _ Hw) as Hb. pose proof (wf_limit _ _ _ _ Hw) as Hlim. unfold load_limit_of in Hlim. pose proof (zlen_nonneg (entries m')).
  split; [|done]. split; unfold m', EraseInternal; cbn [set_slot capacity_ tags_ keys_ values_ size_ max_probe_length_ load_limit_ load_limit_percent_]; fold (EraseInternal idx m) m'.
  - apply (wf_capacity _ _ _ _ Hw).
  - unfold zlen. by rewrite length_insert.
  - unfold zlen. rewrite length_insert. apply (wf_keys _ _ _ _ Hw).
  - unfold zlen. rewrite length_insert. apply (wf_values _ _ _ _ Hw).
  - intros i t1 Hi Hlive. rewrite Eslots. destruct (decide (i = Z.to_nat idx)) as [->|Hne].
    + rewrite list_lookup_insert_eq in Hi by (unfold zlen in *; lia). injection Hi as <-. done.
    + rewrite list_lookup_insert_ne in Hi by done. destruct (wf_live _ _ _ _ Hw _ _ Hi Hlive) as (k1 & v1 & Hs1 & E1 & Hreach). exists k1, v1. rewrite list_lookup_insert_ne by done. split; [done|]. split; [done|]. by apply (probe_reaches_mono m).
  - pose proof (wf_nodup _ _ _ _ Hw) as Hnd. rewrite <- Ee in Hnd. by apply NoDup_cons in Hnd as [_ Hnd].
  - apply Forall_insert; [apply (wf_tags_pos _ _ _ _ Hw)|done].
  - congruence.
  - rewrite u64_small; lia.
  - apply (wf_max_probe _ _ _ _ Hw).
  - apply (wf_percent _ _ _ _ Hw).
  - done.
  - rewrite u64_small; lia.
Qed.
(** Writing through the pointer to a value. *)
Lemma store_slot m k v w idx : wf m -> 0 <= idx < capacity_ m -> slots m !! Z.to_nat idx = Some (Some (k, v)) ->
  wf (store_value idx w m) /\ exists rest, entries m ≡ₚ (k, v) :: rest /\ entries (store_value idx w m) ≡ₚ (k, w) :: rest.
Proof.
  intros Hw Hr Hs. set (m' := store_value idx w m). assert (Hlen : (Z.to_nat idx < length (slots m))%nat) by (by eapply lookup_lt_Some).
  assert (Eslots : slots m' = <[Z.to_nat idx := Some (k, w)]> (slots m)).
  { apply slots_live in Hs as (t & Ht & Hl & Hk & Hv). unfold slots, m', store_value. cbn. transitivity (zip_with slot_entry (<[Z.to_nat idx := t]> (tags_ m)) (<[Z.to_nat idx := (Some k, Some w)]> (zip (keys_ m) (values_ m)))).
    - f_equal; [by rewrite list_insert_id|]. rewrite <- (list_insert_id (keys_ m) (Z.to_nat idx) (Some k)) at 1 by done. symmetry. apply (insert_zip_with pair).
    - rewrite <- insert_zip_with. f_equal. unfold slot_entry. destruct (Z.ltb_spec kTombstone t); [done|lia]. }
  set (rest := omap id (<[Z.to_nat idx := None]> (slots m))). assert (Ee : entries m ≡ₚ (k, v) :: rest) by (symmetry; apply (omap_insert _ _ _ None Hs)).
  assert (Ee' : entries m' ≡ₚ (k, w) :: rest).
  { unfold entries. rewrite Eslots. assert (Hs' : <[Z.to_nat idx := None]> (slots m) !! Z.to_nat idx = Some None) by (by apply list_lookup_insert_eq). apply (omap_insert _ _ _ (Some (k, w))) in Hs'. cbn in Hs'. by rewrite list_insert_insert_eq in Hs'. }
  split; [|by exists rest]. destruct Hw. split; try done; unfold m', store_value; cbn [capacity_ tags_ keys_ values_ size_ max_probe_length_ load_limit_ load_limit_percent_]; fold (store_value idx w m) m'.
  - unfold zlen. by rewrite length_insert.
  - intros i t1 Hi Hlive. destruct (wf_live i t1 Hi Hlive) as (k1 & v1 & Hs1 & E1 & Hreach). rewrite Eslots. destruct (decide (i = Z.to_nat idx)) as [->|Hne].
    + rewrite Hs in Hs1. injection Hs1 as <- <-. exists k, w. split; [by apply list_lookup_insert_eq|]. done.
    + exists k1, v1. by rewrite list_lookup_insert_ne.
  - rewrite Ee' in *. rewrite Ee in wf_nodup. done.
  - rewrite wf_size. unfold zlen. by rewrite Ee, Ee'.
Qed.

(** ** Growing *)

Lemma Reset_wf n pct m : n = 0 \/ (exists k, 0 <= k <= 50 /\ n = 2 ^ k) -> load_limit_percent_ m = pct -> 1 <= pct <= 100 ->
  wf (Reset n m) /\ entries (Reset n m) = [] /\ capacity_ (Reset n m) = n /\ load_limit_ (Reset n m) = load_limit_of pct n /\ load_limit_percent_ (Reset n m) = pct.
Proof.
  intros Hn Hp Hpct. assert (Hr : 0 <= n <= 2 ^ 50) by (destruct Hn as [->|(k & Hk & ->)]; [lia|]; assert (0 < 2 ^ k) by (apply pow2_pos; lia); assert (2 ^ k <= 2 ^ 50) by (apply Z.pow_le_mono_r; lia); lia).
  assert (Hnp : 0 <= n * pct <= 2 ^ 50 * 100) by nia.
  assert (Hl : load_limit_ (Reset n m) = load_limit_of pct n) by (unfold Reset, load_limit_of; cbn [load_limit_]; rewrite Hp, (u64_small pct), (u64_small (n * pct)) by lia; done).
  assert (He : entries (Reset n m) = []) by (unfold entries, slots, Reset; cbn; generalize (Z.to_nat n); intros j; induction j; done).
  assert (Hlim0 : 0 <= load_limit_of pct n) by (unfold load_limit_of; pose proof (Z.div_pos (n * pct) 100); lia).
  split; [|done]. split; try (by rewrite ?He); try (by unfold zlen, Reset; cbn; rewrite length_replicate; lia).
  - intros i t Hi Hlive. unfold Reset in Hi. cbn in Hi. apply lookup_replicate in Hi as [-> _]. done.
  - rewrite He. constructor.
  - unfold Reset. cbn. by apply Forall_replicate.
  - intros _. unfold Reset. cbn. by apply Forall_replicate.
  - unfold Reset. cbn [max_probe_length_ capacity_]. lia.
  - unfold Reset. cbn [load_limit_percent_]. lia.
  - rewrite Hl. unfold Reset. cbn [load_limit_percent_ capacity_]. by rewrite Hp.
  - rewrite Hl. done.
Qed.
(** The new capacity is a power of two, leaves room, and is bounded by the load. *)
Lemma new_capacity_spec m : wf m -> size_ m < 2 ^ 40 -> load_limit_ m <= size_ m ->
  let n := Z.max (u64 (capacity_ m * grow_factor sizeof_entry (capacity_ m))) 1024 in
  (exists k, 0 <= k <= 50 /\ n = 2 ^ k) /\ capacity_ m <= n /\ size_ m < load_limit_of (load_limit_percent_ m) n.
Proof.
  intros Hw Hsz Hfull n. pose proof (capacity_bounds m Hw) as Hcap. unfold max_capacity in Hcap. pose proof (wf_limit _ _ _ _ Hw) as Hl. pose proof (wf_below_limit _ _ _ _ Hw) as Hb. pose proof (wf_percent _ _ _ _ Hw) as Hpct. unfold load_limit_of in *. set (pct := load_limit_percent_ m) in *. set (c := capacity_ m) in *.
  pose proof (Z.div_mod (c * pct) 100 ltac:(done)) as Hd. pose proof (Z.mod_pos_bound (c * pct) 100 ltac:(done)) as Hmod. assert (Hc : c <= 100 * (size_ m + 1)) by nia.
  assert (Hf : grow_factor sizeof_entry c = 2 ^ 3 \/ grow_factor sizeof_entry c = 2 ^ 1) by (unfold grow_factor; destruct (_ <? _); auto). set (f := grow_factor sizeof_entry c) in *.
  assert (Hu : u64 (c * f) = c * f) by (apply u64_small; destruct Hf as [-> | ->]; lia). assert (En : n = Z.max (c * f) 1024) by (unfold n; by rewrite Hu). rewrite En.
  split; [|split; [destruct Hf as [-> | ->]; lia|]].
  - destruct (Z.max_spec (c * f) 1024) as [[Hlt ->]|[Hge ->]]; [by exists 10|]. destruct (wf_capacity _ _ _ _ Hw) as [E|(k & Hk & E)]; fold c in E; [lia|].
    assert (Hpow : forall j, 0 <= j -> c * 2 ^ j < 2 ^ 51 -> exists k', 0 <= k' <= 50 /\ c * 2 ^ j = 2 ^ k').
    { intros j Hj Hlt. rewrite E, <- Z.pow_add_r in * by lia. exists (k + j). split; [|done]. apply Z.pow_lt_mono_r_iff in Hlt; lia. }
    destruct Hf as [-> | ->]; apply Hpow; lia.
  - set (x := Z.max (c * f) 1024). assert (Hx : 2 * c <= x /\ 1024 <= x) by (unfold x; destruct Hf as [-> | ->]; lia). pose proof (Z.div_mod (x * pct) 100 ltac:(done)). pose proof (Z.mod_pos_bound (x * pct) 100 ltac:(done)). apply Z.min_glb_lt; nia.
Qed.

(** ** Insertion *)

#[local] Abbreviation attempt := (insert_attempts (K := K) (V := V) Hasher Calc AppendOnly sizeof_entry).
Lemma attempt_S n k v m : attempt (S n) k v m =
  let! r := probe_loop Hasher Calc AppendOnly (Z.to_nat (capacity_ m)) 0 kSlotNotFound k m in
  match r with
  | KeyIn idx => Ok (idx, false, m)
  | KeyMissing slot len =>
      if load_limit_ m <=? size_ m then let! m := MaybeGrowAndRehash sizeof_entry (attempt n) true m in attempt n k v m
      else check! slot <? capacity_ m in Ok (slot, true, set_slot slot (HashToTag (Hasher k)) (Some k) (Some v) (Z.max (max_probe_length_ m) len) (u64 (size_ m + 1)) m)
  end.
Proof. reflexivity. Qed.
Lemma search_spec m k : wf m -> exists r, probe_loop Hasher Calc AppendOnly (Z.to_nat (capacity_ m)) 0 kSlotNotFound k m = Ok r /\
    match r with
    | KeyIn idx => 0 <= idx < capacity_ m /\ holds_key m k idx
    | KeyMissing slot len => (k ∉ (entries m).*1) /\ 0 <= len <= capacity_ m /\ insertion_place m k len slot /\ (slot = kSlotNotFound -> len = capacity_ m)
    end.
Proof.
  intros Hw. pose proof (capacity_bounds m Hw). apply (probe_loop_spec m k Hw); [done|lia|apply passed_0|]. left. split; [done|]. intros s Hs. lia.
Qed.
Definition inserts_fresh (insert : K -> V -> HashMap -> outcome (Z * bool * HashMap)) : Prop :=
  forall k v m, wf m -> k ∉ (entries m).*1 -> size_ m < load_limit_ m ->
  exists idx m', insert k v m = Ok (idx, true, m') /\ wf m' /\ entries m' ≡ₚ (k, v) :: entries m /\ capacity_ m' = capacity_ m /\ load_limit_ m' = load_limit_ m /\
    0 <= idx < capacity_ m' /\ slots m' !! Z.to_nat idx = Some (Some (k, v)).
Lemma attempt_fresh n : inserts_fresh (attempt (S n)).
Proof.
  intros k v m Hw Hk Hlim. rewrite attempt_S. destruct (search_spec m k Hw) as (r & -> & Hr). cbn [obind]. destruct r as [idx|slot len].
  - destruct Hr as [_ [w Hs]]. exfalso. apply Hk, keys_elem. by exists (Z.to_nat idx), w.
  - destruct Hr as (_ & Hlen & Hplace & Hfull). destruct (take_slot m k v len slot Hw Hk Hlen Hplace Hfull Hlim) as (Hidx & m' & Em & Hw' & He & Hs). destruct (Z.leb_spec (load_limit_ m) (size_ m)); [lia|].
    unfold perfetto_check. destruct (Z.ltb_spec slot (capacity_ m)); [|lia]. cbn [obind]. rewrite <- Em. exists slot, m'. repeat (split; [subst m'; done|]). done.
Qed.
(** The loop over the old slots inserts what is behind slot [i]. *)
Definition entries_from (i : nat) (m : HashMap) : list (K * V) := omap id (drop i (slots m)).
Lemma entries_from_live i m k v : slots m !! i = Some (Some (k, v)) -> entries_from i m = (k, v) :: entries_from (S i) m.
Proof. intros Hi. unfold entries_from. by rewrite (drop_S _ _ _ Hi). Qed.
Lemma entries_from_none i m : slots m !! i = Some None -> entries_from i m = entries_from (S i) m.
Proof. intros Hi. unfold entries_from. by rewrite (drop_S _ _ _ Hi). Qed.
Lemma entries_from_end i m : zlen (slots m) <= Z.of_nat i -> entries_from i m = [].
Proof. intros Hi. unfold entries_from. rewrite drop_ge; [done|]. unfold zlen in Hi. lia. Qed.
(** What the code sees of a slot. *)
Lemma slot_cases m i : wf m -> 0 <= i < capacity_ m -> exists t, tag_at i m = Ok t /\
  ((kTombstone < t /\ exists k v, slots m !! Z.to_nat i = Some (Some (k, v)) /\ key_at i m = Ok k /\ value_at i m = Ok v) \/ ((t = kFreeSlot \/ t = kTombstone) /\ slots m !! Z.to_nat i = Some None)).
Proof.
  intros Hw Hi. destruct (slot_exists m i Hw Hi) as (t & ok & ov & Ht & Hk & Hv & Hs & Hpos). exists t. split; [unfold tag_at; by rewrite Ht|]. destruct (Z.lt_ge_cases kTombstone t) as [Hl|Hl].
  - left. split; [done|]. destruct (wf_live _ _ _ _ Hw _ _ Ht Hl) as (k & v & Hs' & _). exists k, v. split; [done|]. apply slots_live in Hs' as (t' & _ & _ & Hk' & Hv'). unfold key_at, value_at. by rewrite Hk', Hv'.
  - right. split; [unfold kFreeSlot, kTombstone in *; lia|]. rewrite Hs. unfold slot_entry. destruct (Z.ltb_spec kTombstone t); [lia|done].
Qed.
Lemma live_tests t : kTombstone < t -> (t =? kFreeSlot) = false /\ (t =? kTombstone) = false.
Proof. unfold kFreeSlot, kTombstone. intros Ht. split; apply Z.eqb_neq; lia. Qed.
Lemma rehash_loop_spec insert old : inserts_fresh insert -> wf old -> forall n i m count,
  0 <= i -> Z.of_nat n + i = capacity_ old -> wf m -> NoDup ((entries m).*1 ++ (entries_from (Z.to_nat i) old).*1) -> zlen (entries m) + zlen (entries_from (Z.to_nat i) old) <= load_limit_ m -> count = zlen (entries m) ->
  exists m', rehash_loop insert n i old m count = Ok m' /\ wf m' /\ entries m' ≡ₚ entries m ++ entries_from (Z.to_nat i) old /\ capacity_ m' = capacity_ m /\ load_limit_ m' = load_limit_ m.
Proof.
  intros Hins Hwo. induction n as [|n IH]; intros i m count Hi Hn Hw Hnd Hroom ->; cbn [rehash_loop].
  - exists (with_size (zlen (entries m)) m). rewrite <- (wf_size _ _ _ _ Hw). replace (with_size (size_ m) m) with m by (by destruct m). rewrite (entries_from_end (Z.to_nat i)) by (rewrite (slots_length old Hwo); lia). rewrite app_nil_r. done.
  - destruct (slot_cases old i Hwo) as (t & -> & Hcase); [lia|]. cbn [obind]. destruct Hcase as [[Hl (k & v & Hs & -> & ->)]|[Ht Hs]].
    + destruct (live_tests t Hl) as [-> ->]. cbn [negb andb obind]. rewrite (entries_from_live _ _ _ _ Hs) in *. cbn [fmap list_fmap fst] in Hnd. rewrite zlen_cons in Hroom. pose proof (zlen_nonneg (entries_from (S (Z.to_nat i)) old)).
      rewrite <- Permutation_middle in Hnd. apply NoDup_cons in Hnd as [Hk Hnd]. rewrite not_elem_of_app in Hk. destruct (Hins k v m Hw (proj1 Hk)) as (idx & m1 & -> & Hw1 & He1 & Hc1 & Hl1 & _); [rewrite (wf_size _ _ _ _ Hw); lia|]. cbn [obind].
      assert (Hz : zlen (entries m1) = zlen (entries m) + 1) by (unfold zlen; rewrite He1; cbn [length]; lia). replace (S (Z.to_nat i)) with (Z.to_nat (i + 1)) in * by lia.
      destruct (IH (i + 1) m1 (zlen (entries m) + 1)) as (m' & E & Hw' & He' & Hc' & Hl'); [lia|lia|done| |lia|lia|].
      * rewrite He1. cbn [fmap list_fmap fst app]. apply NoDup_cons. split; [|done]. by rewrite not_elem_of_app.
      * exists m'. split; [done|]. split; [done|]. split; [|split; congruence]. rewrite He', He1. cbn [app]. by rewrite Permutation_middle.
    + assert (Ed : negb (t =? kFreeSlot) && negb (t =? kTombstone) = false) by (by destruct Ht as [-> | ->]). rewrite Ed. rewrite (entries_from_none _ _ Hs) in *. replace (S (Z.to_nat i)) with (Z.to_nat (i + 1)) in * by lia. apply IH; try done; lia.
Qed.
Lemma grow_spec n m : wf m -> size_ m < 2 ^ 40 -> load_limit_ m <= size_ m ->
  exists m', MaybeGrowAndRehash sizeof_entry (attempt (S n)) true m = Ok m' /\ wf m' /\ entries m' ≡ₚ entries m /\ size_ m' < load_limit_ m'.
Proof.
  intros Hw Hsz Hfull. destruct (new_capacity_spec m Hw Hsz Hfull) as (Hpow & Hge & Hlim). unfold MaybeGrowAndRehash. set (c := Z.max _ 1024) in *. unfold perfetto_check. destruct (Z.leb_spec (capacity_ m) c); [|lia]. cbn [obind].
  destruct (Reset_wf c _ m (or_intror Hpow) eq_refl (wf_percent _ _ _ _ Hw)) as (Hw0 & He0 & Hc0 & Hl0 & _). pose proof (capacity_bounds m Hw).
  destruct (rehash_loop_spec (attempt (S n)) m (attempt_fresh n) Hw (Z.to_nat (capacity_ m)) 0 (Reset c m) 0) as (m' & -> & Hw' & He' & Hc' & Hl'); [done|lia|done| | |by rewrite He0|].
  - rewrite He0. apply (wf_nodup _ _ _ _ Hw).
  - rewrite He0, Hl0. change (entries_from (Z.to_nat 0) m) with (entries m). rewrite <- (wf_size _ _ _ _ Hw). unfold zlen. cbn [length]. lia.
  - rewrite He0 in He'. cbn [app] in He'. change (entries_from (Z.to_nat 0) m) with (entries m) in He'. exists m'. split; [done|]. split; [done|]. split; [done|]. rewrite (wf_size _ _ _ _ Hw'), Hl', Hl0. unfold zlen. rewrite He'. pose proof (wf_size _ _ _ _ Hw) as Hs. unfold zlen in Hs. lia.
Qed.
(** Insert of a key that is there changes nothing; of a new key, the table may grow first. *)
Lemma attempt_existing n k v w m : wf m -> (k, w) ∈ entries m -> exists idx, attempt (S n) k v m = Ok (idx, false, m) /\ 0 <= idx < capacity_ m /\ slots m !! Z.to_nat idx = Some (Some (k, w)).
Proof.
  intros Hw Hin. rewrite attempt_S. destruct (search_spec m k Hw) as (r & -> & Hr). cbn [obind]. destruct r as [idx|slot len].
  - destruct Hr as [Hi [w' Hs]]. exists idx. split; [done|]. split; [done|]. rewrite Hs. do 3 f_equal. assert (Hin' : (k, w') ∈ entries m) by (apply entries_elem; eauto). pose proof (wf_nodup _ _ _ _ Hw) as Hnd. by apply (entries_unique (entries m) k).
  - destruct Hr as [Hk _]. exfalso. apply Hk, list_elem_of_fmap. by exists (k, w).
Qed.
Lemma attempt_new n k v m : wf m -> k ∉ (entries m).*1 -> size_ m < 2 ^ 40 -> exists idx m', attempt (S (S n)) k v m = Ok (idx, true, m') /\ wf m' /\ entries m' ≡ₚ (k, v) :: entries m /\
    0 <= idx < capacity_ m' /\ slots m' !! Z.to_nat idx = Some (Some (k, v)).
Proof.
  intros Hw Hk Hsz. destruct (Z.lt_ge_cases (size_ m) (load_limit_ m)) as [Hlt|Hge].
  - destruct (attempt_fresh (S n) k v m Hw Hk Hlt) as (idx & m' & E & Hw' & He & _ & _ & Hi & Hs). by exists idx, m'.
  - rewrite attempt_S. destruct (search_spec m k Hw) as (r & -> & Hr). cbn [obind]. destruct r as [idx|slot len].
    { destruct Hr as [_ [w Hs]]. exfalso. apply Hk, keys_elem. by exists (Z.to_nat idx), w. }
    destruct (Z.leb_spec (load_limit_ m) (size_ m)); [|lia]. destruct (grow_spec n m Hw Hsz Hge) as (m1 & -> & Hw1 & He1 & Hlt1). cbn [obind].
    destruct (attempt_fresh n k v m1 Hw1) as (idx & m' & E & Hw' & He & _ & _ & Hi & Hs); [by rewrite He1|done|]. exists idx, m'. split; [exact E|]. split; [done|]. by rewrite He, He1.
Qed.

(** ** Clear and iteration *)

Lemma clear_loop_spec : forall n i m, 0 <= i -> Z.of_nat n + i = zlen (tags_ m) -> Forall (fun t => 0 <= t) (tags_ m) -> Forall (fun t => t <= kTombstone) (take (Z.to_nat i) (tags_ m)) ->
  exists m', clear_loop n i m = Ok m' /\ capacity_ m' = capacity_ m /\ load_limit_percent_ m' = load_limit_percent_ m /\ zlen (tags_ m') = zlen (tags_ m) /\ Forall (fun t => t = kFreeSlot \/ t = kTombstone) (tags_ m').
Proof.
  induction n as [|n IH]; intros i m Hi Hn Hpos Hdone; cbn [clear_loop].
  - exists m. repeat (split; [done|]). rewrite take_ge in Hdone by (unfold zlen in Hn; lia). rewrite Forall_forall in *. intros t Ht. specialize (Hpos t Ht). specialize (Hdone t Ht). unfold kFreeSlot, kTombstone in *. lia.
  - unfold zlen in Hn. destruct (lookup_lt_is_Some_2 (tags_ m) (Z.to_nat i)) as [t Ht]; [lia|]. unfold tag_at. rewrite Ht. cbn [obind]. pose proof (Forall_lookup_1 _ _ _ _ Hpos Ht) as Hp. cbn in Hp.
    destruct (negb (t =? kFreeSlot) && negb (t =? kTombstone)) eqn:E.
    + destruct (IH (i + 1) (EraseInternal i m)) as (m' & E' & H'); [lia| | | |]; unfold EraseInternal, set_slot in *; cbn [tags_ capacity_ load_limit_percent_] in *.
      * unfold zlen. rewrite length_insert. lia.
      * by apply Forall_insert.
      * replace (Z.to_nat (i + 1)) with (S (Z.to_nat i)) by lia. rewrite (take_S_r _ _ kTombstone) by (apply list_lookup_insert_eq; lia). rewrite take_insert_ge by lia. apply Forall_app. split; [done|]. by apply Forall_singleton.
      * exists m'. split; [done|]. unfold zlen in *. by rewrite length_insert in H'.
    + apply IH; [lia|unfold zlen; lia|done|]. replace (Z.to_nat (i + 1)) with (S (Z.to_nat i)) by lia. rewrite (take_S_r _ _ t) by done. apply Forall_app. split; [done|]. apply Forall_singleton.
      apply andb_false_iff in E as [E|E]; apply negb_false_iff, Z.eqb_eq in E as ->; done.
Qed.
(** No slot is live, so none is moved. *)
Lemma rehash_loop_nothing (insert : K -> V -> HashMap -> outcome (Z * bool * HashMap)) old : Forall (fun t => t = kFreeSlot \/ t = kTombstone) (tags_ old) -> forall n i m, 0 <= i -> Z.of_nat n + i <= zlen (tags_ old) -> rehash_loop insert n i old m 0 = Ok (with_size 0 m).
Proof.
  intros Hf. induction n as [|n IH]; intros i m Hi Hn; cbn [rehash_loop]; [done|]. unfold zlen in *. destruct (lookup_lt_is_Some_2 (tags_ old) (Z.to_nat i)) as [t Ht]; [lia|]. unfold tag_at. rewrite Ht. cbn [obind].
  pose proof (Forall_lookup_1 _ _ _ _ Hf Ht) as Hcase. cbn in Hcase. replace (negb (t =? kFreeSlot) && negb (t =? kTombstone)) with false by (by destruct Hcase as [-> | ->]). apply IH; lia.
Qed.
Lemma Clear_spec m : wf m -> exists m', Clear Hasher Calc AppendOnly sizeof_entry m = Ok m' /\ wf m' /\ entries m' = [].
Proof.
  intros Hw. pose proof (slots_length m Hw) as Hsl. pose proof (capacity_bounds m Hw). unfold Clear. destruct (Z.eqb_spec (capacity_ m) 0) as [E|Hne].
  - exists m. split; [done|]. split; [done|]. change (entries m) with (entries_from 0 m). apply entries_from_end. lia.
  - destruct (clear_loop_spec (Z.to_nat (capacity_ m)) 0 m) as (m1 & -> & Ec & Ep & Et & Hf); [done| |apply (wf_tags_pos _ _ _ _ Hw)|done|]; [rewrite (wf_tags _ _ _ _ Hw); lia|]. cbn [obind].
    unfold MaybeGrowAndRehash, perfetto_check. rewrite Ec, Z.leb_refl. cbn [obind]. rewrite rehash_loop_nothing by (done || rewrite Et, (wf_tags _ _ _ _ Hw); lia). exists (Reset (capacity_ m) m1). split; [done|].
    destruct (Reset_wf (capacity_ m) (load_limit_percent_ m) m1) as (Hw' & He & _); [apply (wf_capacity _ _ _ _ Hw)|done|apply (wf_percent _ _ _ _ Hw)|done].
Qed.

Lemma next_loop_spec m : wf m -> forall n i, 0 <= i -> Z.of_nat n + i = capacity_ m ->
  exists idx, next_loop AppendOnly n i m = Ok idx /\ ((idx = kSlotNotFound /\ entries_from (Z.to_nat i) m = []) \/
    (i <= idx < capacity_ m /\ exists k v, key_at idx m = Ok k /\ value_at idx m = Ok v /\ entries_from (Z.to_nat i) m = (k, v) :: entries_from (Z.to_nat (idx + 1)) m)).
Proof.
  intros Hw. induction n as [|n IH]; intros i Hi Hn; cbn [next_loop].
  - exists kSlotNotFound. split; [done|]. left. split; [done|]. apply entries_from_end. rewrite (slots_length m Hw). lia.
  - destruct (slot_cases m i Hw) as (t & Ht & Hcase); [lia|]. rewrite Ht. cbn [obind]. destruct Hcase as [[Hl (k & v & Hs & Hk & Hv)]|[Hc Hs]].
    + destruct (live_tests t Hl) as [-> ->]. cbn [negb]. rewrite orb_true_r. exists i. split; [done|]. right. split; [lia|]. exists k, v. split; [done|]. split; [done|]. replace (Z.to_nat (i + 1)) with (S (Z.to_nat i)) by lia. by apply entries_from_live.
    + assert (Et : negb (t =? kFreeSlot) && (AppendOnly || negb (t =? kTombstone)) = false).
      { destruct Hc as [-> | ->]; [done|]. destruct AppendOnly eqn:Ea; [|done]. exfalso. unfold tag_at in Ht. destruct (tags_ m !! Z.to_nat i) as [t'|] eqn:E; [|done]. injection Ht as ->. by apply (Forall_lookup_1 _ _ _ _ (wf_append_only _ _ _ _ Hw eq_refl) E). }
      rewrite Et. destruct (IH (i + 1)) as (idx & -> & Hidx); [lia..|]. exists idx. split; [done|]. rewrite (entries_from_none _ _ Hs). replace (S (Z.to_nat i)) with (Z.to_nat (i + 1)) by lia. destruct Hidx as [H'|[H' H'']]; [by left|right]. split; [lia|done].
Qed.
Lemma iterate_spec m : wf m -> iterate AppendOnly m = Ok (entries m).
Proof.
  intros Hw. pose proof (capacity_bounds m Hw) as Hc. unfold max_capacity in Hc. assert (Hloop : forall n i idx, 0 <= i -> (i <= idx < capacity_ m -> Z.of_nat n + idx >= capacity_ m) ->
    (idx = kSlotNotFound /\ entries_from (Z.to_nat i) m = []) \/ (i <= idx < capacity_ m /\ exists k v, key_at idx m = Ok k /\ value_at idx m = Ok v /\ entries_from (Z.to_nat i) m = (k, v) :: entries_from (Z.to_nat (idx + 1)) m) ->
    iterate_loop AppendOnly n idx m = Ok (entries_from (Z.to_nat i) m)).
  { induction n as [|n IH]; intros i idx Hi Hn Hcase; cbn [iterate_loop]; (destruct Hcase as [[-> ->]|(Hr & k & v & Hk & Hv & ->)]; [done|]); (destruct (Z.eqb_spec idx kSlotNotFound) as [->|_]; [unfold kSlotNotFound in *; lia|]); [lia|].
    rewrite Hk, Hv. cbn [obind]. unfold FindNextNonFree. destruct (next_loop_spec m Hw (Z.to_nat (capacity_ m - (idx + 1))) (idx + 1)) as (next & -> & Hnext); [lia..|]. cbn [obind]. rewrite (IH (idx + 1) next); [done|lia| |done]. intros Hr'. specialize (Hn Hr). lia. }
  unfold iterate, FindNextNonFree. destruct (next_loop_spec m Hw (Z.to_nat (capacity_ m - 0)) 0) as (idx & -> & Hidx); [lia..|]. cbn [obind]. change (entries m) with (entries_from (Z.to_nat 0) m). apply Hloop; [done|lia|done].
Qed.

(** ** The refinement *)

#[local] Abbreviation rep := (represents (K := K) (V := V) Hasher Calc AppendOnly).
Lemma rep_lookup m mp k v : rep m mp -> mp !! k = Some v <-> (k, v) ∈ entries m.
Proof. intros [_ He]. by rewrite He, elem_of_map_to_list. Qed.
Lemma rep_none m mp k : rep m mp -> mp !! k = None <-> k ∉ (entries m).*1.
Proof.
  intros Hr. rewrite eq_None_not_Some. split; intros Hn Hx; apply Hn.
  - apply list_elem_of_fmap in Hx as ([k' v] & -> & Hx). exists v. by apply (rep_lookup m).
  - destruct Hx as [v Hx]. apply list_elem_of_fmap. exists (k, v). split; [done|]. by apply (rep_lookup m mp).
Qed.
Lemma rep_size m mp : rep m mp -> size_ m = Z.of_nat (size mp).
Proof. intros [Hw He]. rewrite (wf_size _ _ _ _ Hw). unfold zlen. by rewrite He, length_map_to_list. Qed.
Lemma rep_insert m m' mp k v : rep m mp -> mp !! k = None -> wf m' -> entries m' ≡ₚ (k, v) :: entries m -> rep m' (<[k := v]> mp).
Proof. intros [_ He] Hk Hw' He'. split; [done|]. by rewrite He', map_to_list_insert, He. Qed.
Lemma rep_delete m m' mp k v : rep m mp -> wf m' -> (k, v) :: entries m' ≡ₚ entries m -> rep m' (delete k mp).
Proof.
  intros Hr Hw' He'. split; [done|]. assert (Hk : mp !! k = Some v) by (apply (rep_lookup m mp); [done|]; rewrite <- He'; left). destruct Hr as [_ He]. apply (Permutation_cons_inv (a := (k, v))). by rewrite He', He, map_to_list_delete.
Qed.
Lemma rep_store m m' mp k v w rest : rep m mp -> wf m' -> entries m ≡ₚ (k, v) :: rest -> entries m' ≡ₚ (k, w) :: rest -> rep m' (<[k := w]> mp).
Proof.
  intros Hr Hw' He He'. split; [done|]. assert (Hk : mp !! k = Some v) by (apply (rep_lookup m mp); [done|]; rewrite He; left). destruct Hr as [_ Hm]. rewrite <- insert_delete_eq, map_to_list_insert by apply lookup_delete_eq. rewrite He'. apply Permutation_skip.
  apply (Permutation_cons_inv (a := (k, v))). by rewrite <- He, Hm, map_to_list_delete.
Qed.
Lemma value_at_live m idx k v : slots m !! Z.to_nat idx = Some (Some (k, v)) -> value_at idx m = Ok v.
Proof. intros Hs. apply slots_live in Hs as (t & _ & _ & _ & Hv). unfold value_at. by rewrite Hv. Qed.
Lemma Insert_spec m mp k v : rep m mp -> size_ m < 2 ^ 40 -> exists idx m', Insert Hasher Calc AppendOnly sizeof_entry k v m = Ok (idx, bool_decide (mp !! k = None), m') /\
  0 <= idx < capacity_ m' /\ match mp !! k with Some w => m' = m /\ slots m' !! Z.to_nat idx = Some (Some (k, w)) | None => rep m' (<[k := v]> mp) /\ slots m' !! Z.to_nat idx = Some (Some (k, v)) end.
Proof.
  intros Hr Hsz. pose proof (proj1 Hr) as Hw. unfold Insert. change kMaxAttempts with (S (S 62)). destruct (mp !! k) as [w|] eqn:E.
  - apply (rep_lookup m) in E; [|done]. destruct (attempt_existing (S 62) k v w m Hw E) as (idx & E' & Hi & Hs). by exists idx, m.
  - pose proof E as Hn. apply (rep_none m) in E; [|done]. destruct (attempt_new 62 k v m Hw E Hsz) as (idx & m' & E' & Hw' & He & Hi & Hs). exists idx, m'. split; [exact E'|]. split; [done|]. split; [by apply (rep_insert m)|done].
Qed.
Lemma Find_spec m mp k : rep m mp -> exists idx, FindInternal Hasher Calc k m = Ok idx /\
  match mp !! k with Some v => (idx =? kSlotNotFound) = false /\ 0 <= idx < capacity_ m /\ slots m !! Z.to_nat idx = Some (Some (k, v)) | None => idx = kSlotNotFound end.
Proof.
  intros Hr. pose proof (proj1 Hr) as Hw. pose proof (capacity_bounds m Hw) as Hc. unfold max_capacity in Hc. destruct (FindInternal_spec m k Hw) as (idx & E & Hidx). exists idx. split; [done|]. destruct Hidx as [[-> Hk]|[Hi [v Hs]]].
  - apply (rep_none m mp) in Hk; [|done]. by rewrite Hk.
  - assert (Hk : mp !! k = Some v) by (apply (rep_lookup m); [done|]; apply entries_elem; eauto). rewrite Hk. split; [apply Z.eqb_neq; unfold kSlotNotFound; lia|done].
Qed.
(** Erasure is for maps that are not append-only. *)
Definition op_allowed (o : @map_op K V) : Prop := match o with EraseOp _ => AppendOnly = false | _ => True end.
Lemma run_map_op_refines default_value o m mp : rep m mp -> op_allowed o -> size_ m < 2 ^ 40 ->
  exists m' r, run_map_op Hasher Calc AppendOnly sizeof_entry default_value o m = Ok (m', r) /\ rep m' (spec_op o mp).1 /\ same_result r (spec_op o mp).2 /\ size_ m' <= size_ m + 1.
Proof.
  intros Hr Ho Hsz. pose proof (proj1 Hr) as Hw. destruct o as [k v|k|k|k v| | |]; cbn [run_map_op spec_op op_allowed] in *.
  - destruct (Insert_spec m mp k v Hr Hsz) as (idx & m' & -> & Hi & Hm). cbn [obind]. destruct (mp !! k) as [w|] eqn:E; cbn [fst snd].
    + destruct Hm as [-> Hs]. rewrite (value_at_live _ _ _ _ Hs). cbn [obind]. exists m, (Inserted false w). split; [done|]. split; [done|]. split; [done|lia].
    + destruct Hm as [Hr' Hs]. rewrite (value_at_live _ _ _ _ Hs). cbn [obind]. exists m', (Inserted true v). split; [done|]. split; [done|]. split; [done|]. rewrite (rep_size _ _ Hr), (rep_size _ _ Hr'), map_size_insert_None by done. lia.
  - unfold Find. destruct (Find_spec m mp k Hr) as (idx & -> & Hidx). cbn [obind]. exists m, (Found (mp !! k)). destruct (mp !! k) as [v|].
    + destruct Hidx as (-> & _ & Hs). rewrite (value_at_live _ _ _ _ Hs). split; [done|]. split; [done|]. split; [done|lia].
    + subst idx. split; [done|]. split; [done|]. split; [done|lia].
  - assert (Ee : Erase Hasher Calc AppendOnly k m = let! idx := FindInternal Hasher Calc k m in if idx =? kSlotNotFound then Ok (false, m) else Ok (true, EraseInternal idx m)) by (unfold Erase; by rewrite Ho). rewrite Ee. destruct (Find_spec m mp k Hr) as (idx & -> & Hidx). cbn [obind]. destruct (mp !! k) as [v|] eqn:E; cbn [fst snd].
    + destruct Hidx as (-> & Hi & Hs). destruct (erase_slot m k v idx Hw Ho Hi Hs) as [Hw' He']. exists (EraseInternal idx m), (Erased true). split; [done|]. assert (Hr' : rep (EraseInternal idx m) (delete k mp)) by (by apply (rep_delete m _ _ _ v)).
      split; [done|]. split; [done|]. rewrite (rep_size _ _ Hr), (rep_size _ _ Hr'), map_size_delete_Some by done. lia.
    + subst idx. exists m, (Erased false). split; [done|]. split; [by rewrite delete_id|]. split; [done|lia].
  - unfold index_operator. destruct (Insert_spec m mp k default_value Hr Hsz) as (idx & m1 & -> & Hi & Hm). cbn [obind]. assert (Hm1 : exists w mp1, rep m1 mp1 /\ slots m1 !! Z.to_nat idx = Some (Some (k, w)) /\ <[k := v]> mp1 = <[k := v]> mp).
    { destruct (mp !! k) as [w|]; [destruct Hm as [-> Hs]; by exists w, mp|destruct Hm as [Hr1 Hs]; exists default_value, (<[k := default_value]> mp); by rewrite insert_insert_eq]. }
    destruct Hm1 as (w & mp1 & Hr1 & Hs & Emp). rewrite (value_at_live _ _ _ _ Hs). cbn [obind]. destruct (store_slot m1 k w v idx (proj1 Hr1) Hi Hs) as (Hw' & rest & He & He'). assert (Hr' : rep (store_value idx v m1) (<[k := v]> mp)) by (rewrite <- Emp; by apply (rep_store m1 _ _ _ w _ rest)).
    exists (store_value idx v m1), Stored. split; [done|]. split; [done|]. split; [done|]. rewrite (rep_size _ _ Hr), (rep_size _ _ Hr'), map_size_insert. destruct (mp !! k); cbn; lia.
  - destruct (Clear_spec m Hw) as (m' & -> & Hw' & He). exists m', Cleared. split; [done|]. assert (Hr' : rep m' ∅) by (split; [done|]; by rewrite He, map_to_list_empty). split; [done|]. split; [done|]. rewrite (rep_size _ _ Hr), (rep_size _ _ Hr'), map_size_empty. lia.
  - exists m, (SizeIs (size_ m)). split; [done|]. split; [done|]. split; [|lia]. cbn. by rewrite (rep_size m mp).
  - rewrite (iterate_spec m Hw). exists m, (Entries (entries m)). split; [done|]. split; [done|]. split; [apply Hr|lia].
Qed.
Lemma run_map_ops_refines default_value ops : forall m mp, rep m mp -> Forall op_allowed ops -> size_ m + zlen ops < 2 ^ 40 ->
  exists m' rs, run_map_ops Hasher Calc AppendOnly sizeof_entry default_value ops m = Ok (m', rs) /\ rep m' (spec_ops ops mp).1 /\ Forall2 same_result rs (spec_ops ops mp).2.
Proof.
  induction ops as [|o ops IH]; intros m mp Hr Hok Hsz; cbn [run_map_ops spec_ops]; [exists m, []; by split_and!|]. apply Forall_cons in Hok as [Ho Hok]. rewrite zlen_cons in Hsz. pose proof (zlen_nonneg ops).
  destruct (run_map_op_refines default_value o m mp Hr Ho) as (m1 & r & -> & Hr1 & Hres & Hsz1); [lia|]. cbn [obind]. destruct (spec_op o mp) as [mp1 r'] eqn:E. cbn [fst snd] in *. destruct (IH m1 mp1 Hr1 Hok) as (m' & rs & -> & Hr' & Hrs); [lia|]. cbn [obind].
  destruct (spec_ops ops mp1) as [mp' rs'] eqn:E'. exists m', (r :: rs). split; [done|]. split; [done|]. by constructor.
Qed.

(** C25. FlatHashMap is a finite map: for any hash function and any probing sequence that visits
    every slot, from an initial capacity of zero or a power of two and a load limit of 1 to
    100 percent, any sequence of insertions, lookups, erasures, m[k] = v, clears and
    iterations runs without a failed check or an access outside the table, ends, and returns
    what the same operations return on a finite map; what is stored survives every growth. *)
Theorem flat_hash_map_refines_map default_value ops initial_capacity load_limit_pct :
  initial_capacity = 0 \/ (exists k, 0 <= k <= 40 /\ initial_capacity = 2 ^ k) -> 1 <= load_limit_pct <= 100 -> Forall op_allowed ops -> zlen ops < 2 ^ 40 ->
  exists m rs, run_map_ops Hasher Calc AppendOnly sizeof_entry default_value ops (FlatHashMap_new initial_capacity load_limit_pct) = Ok (m, rs) /\
    Forall2 same_result rs (spec_ops ops ∅).2 /\ entries m ≡ₚ map_to_list (spec_ops ops ∅).1.
Proof.
  intros Hc Hp Hok Hlen. assert (Hr : rep (FlatHashMap_new initial_capacity load_limit_pct) ∅ /\ size_ (FlatHashMap_new (K := K) (V := V) initial_capacity load_limit_pct) = 0).
  { assert (E : FlatHashMap_new initial_capacity load_limit_pct = Reset initial_capacity (empty_map (K := K) (V := V) load_limit_pct)).
    { unfold FlatHashMap_new. destruct (Z.ltb_spec 0 initial_capacity); [done|]. destruct Hc as [-> |(k & Hk & ->)]; [|assert (0 < 2 ^ k) by (apply pow2_pos; lia); lia]. unfold Reset, empty_map. cbn. f_equal. }
    rewrite E. destruct (Reset_wf initial_capacity load_limit_pct (empty_map load_limit_pct)) as (Hw & He & _); [destruct Hc as [?|(k & Hk & ?)]; [by left|right; exists k; split; [lia|done]]|done|done|]. split; [split; [done|]; by rewrite He, map_to_list_empty|done]. }
  destruct Hr as [Hr Hs]. destruct (run_map_ops_refines default_value ops _ ∅ Hr Hok) as (m & rs & E & Hr' & Hrs); [lia|]. exists m, rs. split; [done|]. split; [done|]. apply Hr'.
Qed.
End flat_hash_map.

(** ** At a concrete input *)

(** Keys that collide under a poor hash, a tombstone that is reused, growth, an iteration. *)
Definition demo_map_ops : list (@map_op Z Z) :=
  [InsertOp 1 10; InsertOp 5 50; InsertOp 1 11; EraseOp 1; InsertOp 9 90; FindOp 1; FindOp 5; IndexOp 5 51; IndexOp 13 130; FindOp 5; SizeOp; IterateOp; ClearOp; FindOp 9; InsertOp 7 70; IterateOp].
Definition demo_hash (k : Z) : Z := u64 ((k `mod` 4) .<< 56).
Example demo_map_result : match run_map_ops demo_hash LinearProbe false 16 0 demo_map_ops (FlatHashMap_new 4 75) with
  | Ok (m, rs) => rs = [Inserted true 10; Inserted true 50; Inserted false 10; Erased true; Inserted true 90; Found None; Found (Some 50); Stored; Stored; Found (Some 51); SizeIs 3; Entries [(9, 90); (5, 51); (13, 130)]; Cleared; Found None; Inserted true 70; Entries [(7, 70)]] /\ capacity_ m = 4
  | Crash => False
  end.
Proof. vm_compute. done. Qed.
Lemma flat_hash_map_refines_map_witness : zlen demo_map_ops < 2 ^ 40 /\
  exists m rs, run_map_ops demo_hash QuadraticHalfProbe false 16 0 demo_map_ops (FlatHashMap_new 4 75) = Ok (m, rs) /\ Forall2 same_result rs (spec_ops demo_map_ops ∅).2 /\ entries m ≡ₚ map_to_list (spec_ops demo_map_ops ∅).1.
Proof. split; [reflexivity|]. apply (flat_hash_map_refines_map demo_hash QuadraticHalfProbe false 16 0 demo_map_ops 4 75); [right; exists 2; split; [lia|reflexivity]|lia| |reflexivity]. repeat (apply Forall_cons; split; [first [exact I | reflexivity]|]). apply Forall_nil. exact I. Defined.
