(* ===== verification/StringPool.v ===== *)
(** * The string pool of the trace processor

    trace_processor/containers/string_pool.h and .cc: strings are interned in blocks of
    memory, each as its size, its bytes and a null byte; large strings are kept apart; a hash
    map from the hash of a string to its id finds what is already there. *)

From S2P Require Import Prelude ProtoUtils FlatHashMap.
From S2P Require FilterBytecode.

(** ** String views *)

(** A base::StringView or a NullTermStringView: [None] has a null pointer and size zero. *)
Definition StringView : Type := option (list Z).
Definition view_bytes (str : StringView) : list Z := default [] str.
(** StringView::Hash. *)
Definition StringView_Hash (str : StringView) : Z := FilterBytecode.Hash_Update (view_bytes str) FilterBytecode.kFnv1a64OffsetBasis.

(** ** Ids *)

Definition kNumBlockIndexBits : Z := 6.
Definition kNumBlockOffsetBits : Z := 25.
Definition kLargeStringFlagBitMask : Z := 1 .<< 31.
Definition kBlockOffsetBitMask : Z := (1 .<< kNumBlockOffsetBits) - 1.
Definition kBlockIndexBitMask : Z := (4294967295 .& Z.lnot kLargeStringFlagBitMask) .& Z.lnot kBlockOffsetBitMask.
Definition kBlockSizeBytes : Z := kBlockOffsetBitMask + 1.
Definition kMinLargeStringSizeBytes : Z := kBlockSizeBytes `div` 8.
Definition kMaxMetadataSize : Z := 6.

Definition Id_Null : Z := 0.
Definition is_null (id : Z) : bool := id =? 0.
Definition is_large_string (id : Z) : bool := negb (id .& kLargeStringFlagBitMask =? 0).
Definition block_offset (id : Z) : Z := u32 (id .& kBlockOffsetBitMask).
Definition block_index (id : Z) : Z := u32 ((id .& kBlockIndexBitMask) .>> kNumBlockOffsetBits).
Definition large_string_index (id : Z) : Z := u32 (id .& Z.lnot kLargeStringFlagBitMask).
Definition LargeString (index : Z) : Z := u32 (kLargeStringFlagBitMask .| u32 index).
Definition BlockString (index offset : Z) : Z :=
  u32 (Z.lnot kLargeStringFlagBitMask .& (u32 (index .<< kNumBlockOffsetBits) .| (offset .& kBlockOffsetBitMask))).

(** ** Blocks *)

(** [mem_] is the memory that was committed so far. *)
Record Block := mkBlock { mem_ : list Z; pos_ : Z; size_ : Z }.
Definition Block_new (size : Z) : Block := mkBlock [] 0 size.
Definition EnsureCommitted (committed_size : Z) (mem : list Z) : list Z := mem ++ zeros (committed_size - zlen mem).
(** The size as a varint, the bytes and the terminator; whether they fit, and where they are.
    A write outside of the committed memory is a crash. *)
Definition TryInsert (str : StringView) (b : Block) : outcome (bool * Z * Block) :=
  let str_size := zlen (view_bytes str) in
  let max_pos := u64 (pos_ b + str_size + kMaxMetadataSize) in
  if size_ b <? max_pos then Ok (false, 0, b)
  else
    let mem := EnsureCommitted max_pos (mem_ b) in
    let offset := pos_ b in
    let written := WriteVarInt uint64_t str_size ++ view_bytes str ++ [0] in
    check! offset + zlen written <=? zlen mem in
    Ok (true, offset, mkBlock (zwrite offset written mem) (u32 (offset + zlen written)) (size_ b)).
(** ReadSize: the offset of the string behind its size, and the size. *)
Definition ReadSize (offset : Z) (b : Block) : Z * Z :=
  let '(n, value) := ParseVarInt (zread offset kMaxMetadataSize (mem_ b)) in (offset + n, u32 value).
Definition GetFromBlockPtr (offset : Z) (b : Block) : outcome (list Z) :=
  let '(str_ptr, size) := ReadSize offset b in
  check! (str_ptr + size <? zlen (mem_ b)) in Ok (zread str_ptr size (mem_ b)).

(** ** The pool *)

#[local] Abbreviation Index := (FlatHashMap Z Z).
Record StringPool := mkPool { blocks_ : list Block; large_strings_ : list (list Z); string_index_ : Index }.
(** AlreadyHashed, LinearProbe, append-only; an entry has a hash of 8 bytes and an id of 4. *)
Definition AlreadyHashed (x : Z) : Z := x.
Definition index_Insert : Z -> Z -> Index -> outcome (Z * bool * Index) := Insert AlreadyHashed LinearProbe true 12.
Definition index_Find : Z -> Index -> outcome (option Z) := Find AlreadyHashed LinearProbe.
Definition StringPool_new : outcome StringPool :=
  let! (success, _, b) := TryInsert None (Block_new kBlockSizeBytes) in
  check! success in Ok (mkPool [b] [] (FlatHashMap_new 4096 kDefaultLoadLimitPct)).

Definition set_back (b : Block) (blocks : list Block) : list Block := <[(length blocks - 1)%nat := b]> blocks.
Definition InsertLargeString (str : StringView) (p : StringPool) : Z * StringPool :=
  let large := large_strings_ p ++ [view_bytes str] in
  (LargeString (zlen large - 1), mkPool (blocks_ p) large (string_index_ p)).
Definition InsertString (str : StringView) (p : StringPool) : outcome (Z * StringPool) :=
  match last (blocks_ p) with
  | None => Crash
  | Some back =>
      let! (success, offset, back) := TryInsert str back in
      if success then Ok (BlockString (zlen (blocks_ p) - 1) offset, mkPool (set_back back (blocks_ p)) (large_strings_ p) (string_index_ p))
      else if kMinLargeStringSizeBytes <=? zlen (view_bytes str) + kMaxMetadataSize then Ok (InsertLargeString str p)
      else
        let! (success, offset, back) := TryInsert str (Block_new kBlockSizeBytes) in
        check! success in
        let blocks := blocks_ p ++ [back] in
        Ok (BlockString (zlen blocks - 1) offset, mkPool blocks (large_strings_ p) (string_index_ p))
  end.
(** The insertion into the index comes first; the id is stored through the pointer it gave. *)
Definition InternString (str : StringView) (p : StringPool) : outcome (Z * StringPool) :=
  match str with
  | None => Ok (Id_Null, p)
  | Some _ =>
      let hash := StringView_Hash str in
      let! (slot, inserted, index) := index_Insert hash 0 (string_index_ p) in
      let p := mkPool (blocks_ p) (large_strings_ p) index in
      if negb inserted then let! id := value_at slot index in Ok (id, p)
      else
        let! (id, p) := InsertString str p in
        Ok (id, mkPool (blocks_ p) (large_strings_ p) (store_value slot id (string_index_ p)))
  end.
Definition GetId (str : StringView) (p : StringPool) : outcome (option Z) :=
  match str with
  | None => Ok (Some Id_Null)
  | Some _ =>
      let! found := index_Find (StringView_Hash str) (string_index_ p) in
      match found with Some slot => let! id := value_at slot (string_index_ p) in Ok (Some id) | None => Ok None end
  end.
Definition Get (id : Z) (p : StringPool) : outcome StringView :=
  if is_null id then Ok None
  else if is_large_string id then
    match large_strings_ p !! Z.to_nat (large_string_index id) with Some str => Ok (Some str) | None => Crash end
  else
    match blocks_ p !! Z.to_nat (block_index id) with
    | Some b => let! str := GetFromBlockPtr (block_offset id) b in Ok (Some str)
    | None => Crash
    end.
Definition pool_size (p : StringPool) : Z := FlatHashMap.size_ (string_index_ p).

(** ** Iteration *)

Record Iterator := mkIterator { block_index_ : Z; block_offset_ : Z; large_strings_index_ : Z }.
Definition CreateIterator : Iterator := mkIterator 0 0 0.
Definition Iterator_valid (p : StringPool) (it : Iterator) : bool := (block_index_ it <? zlen (blocks_ p)) || (large_strings_index_ it <? zlen (large_strings_ p)).
Definition Iterator_next (p : StringPool) (it : Iterator) : outcome Iterator :=
  if block_index_ it <? zlen (blocks_ p) then
    match blocks_ p !! Z.to_nat (block_index_ it) with
    | None => Crash
    | Some block =>
        let '(str_ptr, str_size) := ReadSize (block_offset_ it) block in
        let offset := u32 (str_ptr + (str_size + 1)) in
        Ok (if pos_ block <=? offset then mkIterator (block_index_ it + 1) 0 (large_strings_index_ it)
            else mkIterator (block_index_ it) offset (large_strings_index_ it))
    end
  else Ok (mkIterator (block_index_ it) (block_offset_ it) (large_strings_index_ it + 1)).
Definition StringId (p : StringPool) (it : Iterator) : Z :=
  if block_index_ it <? zlen (blocks_ p) then
    if (block_index_ it =? 0) && (block_offset_ it =? 0) then Id_Null else BlockString (block_index_ it) (block_offset_ it)
  else LargeString (large_strings_index_ it).
(** A loop over the pool: the ids with their strings. *)
Fixpoint all_strings_loop (fuel : nat) (p : StringPool) (it : Iterator) : outcome (list (Z * StringView)) :=
  if Iterator_valid p it then
    match fuel with
    | O => Crash
    | S fuel =>
        let! str := Get (StringId p it) p in
        let! next := Iterator_next p it in
        let! rest := all_strings_loop fuel p next in
        Ok ((StringId p it, str) :: rest)
    end
  else Ok [].

(** ** What a client does *)

Fixpoint intern_all (strs : list StringView) (p : StringPool) : outcome (list Z * StringPool) :=
  match strs with
  | [] => Ok ([], p)
  | str :: strs => let! (id, p) := InternString str p in let! (ids, p) := intern_all strs p in Ok (id :: ids, p)
  end.
