(* ===== verification/StringPoolCorrect.v ===== *)
(** * The string pool gives back what was interned

    The layout of the blocks, the ids of the strings in them, and that interning, lookup and
    iteration agree on them, as long as no two different strings have the same hash. *)

From S2P Require Import Prelude ProtoUtils FlatHashMap FlatHashMapRefinement StringPool.
From S2P Require FilterBytecode.

(** ** Ids *)

Lemma BlockString_value i o : 0 <= i < 64 -> 0 <= o < 2 ^ 25 -> BlockString i o = i * 2 ^ 25 + o.
Proof.
  intros Hi Ho. unfold BlockString, kBlockOffsetBitMask, kNumBlockOffsetBits. change ((1 .<< 25) - 1) with (2 ^ 25 - 1). rewrite land_ones_mod, Z.mod_small by lia. rewrite Z.shiftl_mul_pow2 by lia. rewrite (u32_small (i * 2 ^ 25)) by lia.
  rewrite Z.lor_comm. replace (i * 2 ^ 25) with (i .<< 25) by (by rewrite Z.shiftl_mul_pow2 by lia). rewrite lor_shiftl_add by lia. assert (E : Z.lnot kLargeStringFlagBitMask .& (o + i * 2 ^ 25) = o + i * 2 ^ 25).
  { rewrite Z.land_comm, <- Z.ldiff_land. apply Z.bits_inj'. intros n Hn. rewrite Z.ldiff_spec. change kLargeStringFlagBitMask with (2 ^ 31). destruct (Z.eqb_spec n 31) as [->|Hne].
    - rewrite (testbit_small 31 (o + i * 2 ^ 25)) by lia. done.
    - rewrite Z.pow2_bits_false by lia. apply andb_true_r. }
  rewrite E, u32_small, Z.shiftl_mul_pow2 by lia. lia.
Qed.
Lemma block_id_parts i o : 0 <= i < 64 -> 0 <= o < 2 ^ 25 -> is_large_string (BlockString i o) = false /\ block_index (BlockString i o) = i /\ block_offset (BlockString i o) = o /\ (BlockString i o = 0 <-> i = 0 /\ o = 0).
Proof.
  intros Hi Ho. rewrite BlockString_value by done. set (id := i * 2 ^ 25 + o). assert (Hid : 0 <= id < 2 ^ 31) by lia. split; [|split; [|split; [|lia]]].
  - unfold is_large_string. change kLargeStringFlagBitMask with (2 ^ 31). rewrite land_pow2_bit, (testbit_small 31) by lia. done.
  - unfold block_index. change kBlockIndexBitMask with (63 .<< 25). change kNumBlockOffsetBits with 25. rewrite Z.shiftr_land, Z.shiftr_shiftl_l by lia. change (63 .<< (25 - 25)) with (2 ^ 6 - 1). rewrite shiftr_div, land_ones_mod by lia.
    unfold id. rewrite Z.div_add_l, (Z.div_small o), Z.add_0_r, Z.mod_small by lia. apply u32_small. lia.
  - unfold block_offset, kBlockOffsetBitMask, kNumBlockOffsetBits. change ((1 .<< 25) - 1) with (2 ^ 25 - 1). rewrite land_ones_mod by lia. unfold id. rewrite Z.add_comm, Z.mod_add, Z.mod_small by lia. apply u32_small. lia.
Qed.
Lemma large_id_parts k : 0 <= k < 2 ^ 31 -> is_large_string (LargeString k) = true /\ large_string_index (LargeString k) = k /\ LargeString k <> 0.
Proof.
  intros Hk. assert (E : LargeString k = k + 2 ^ 31).
  { unfold LargeString. change kLargeStringFlagBitMask with (1 .<< 31). rewrite (u32_small k), Z.lor_comm, lor_shiftl_add by lia. rewrite u32_small by lia. lia. }
  rewrite E. assert (Hb : Z.testbit (k + 2 ^ 31) 31 = true) by (rewrite <- (Z.mul_1_l (2 ^ 31)), <- lor_shiftl_add by lia; rewrite Z.lor_spec, Z.shiftl_spec by lia; by rewrite orb_true_r).
  split; [|split; [|lia]].
  - unfold is_large_string. change kLargeStringFlagBitMask with (2 ^ 31). rewrite land_pow2_bit, Hb by lia. done.
  - unfold large_string_index. change kLargeStringFlagBitMask with (2 ^ 31). rewrite <- Z.ldiff_land. assert (Ed : Z.ldiff (k + 2 ^ 31) (2 ^ 31) = k).
    { apply Z.bits_inj'. intros n Hn. rewrite Z.ldiff_spec. rewrite <- (Z.mul_1_l (2 ^ 31)) at 1. rewrite <- lor_shiftl_add, Z.lor_spec by lia. change (1 .<< 31) with (2 ^ 31). destruct (Z.eqb_spec n 31) as [->|Hne].
      - rewrite Z.pow2_bits_true, (testbit_small 31 k) by lia. done.
      - rewrite Z.pow2_bits_false by lia. by rewrite orb_false_r, andb_true_r. }
    rewrite Ed. apply u32_small. lia.
Qed.

(** ** Blocks *)

Definition enc (s : list Z) : list Z := WriteVarInt uint64_t (zlen s) ++ s ++ [0].
Definition encs (strs : list (list Z)) : list Z := concat (map enc strs).
Lemma encs_app a b : encs (a ++ b) = encs a ++ encs b.
Proof. unfold encs. by rewrite map_app, concat_app. Qed.
Lemma encs_one s : encs [s] = enc s.
Proof. unfold encs. cbn. apply app_nil_r. Qed.
Lemma enc_size s : zlen s < 2 ^ 32 -> 1 <= zlen (WriteVarInt uint64_t (zlen s)) <= 5 /\ zlen (enc s) = zlen (WriteVarInt uint64_t (zlen s)) + zlen s + 1.
Proof.
  intros Hs. pose proof (zlen_nonneg s). split.
  - split; [apply WriteVarInt_spec; done|]. apply (WriteVarInt_size uint64_t (zlen s) 5); [done| |lia]. change (MaybeExtend uint64_t (zlen s)) with (u64 (zlen s)). rewrite u64_small by lia. lia.
  - unfold enc. rewrite !zlen_app. change (zlen [0]) with 1. lia.
Qed.
Record block_holds (b : Block) (strs : list (list Z)) : Prop := {
  bh_size : size_ b = kBlockSizeBytes;
  bh_pos : pos_ b = zlen (encs strs);
  bh_fits : pos_ b <= kBlockSizeBytes;
  bh_data : exists slack, mem_ b = encs strs ++ slack;
  bh_small : Forall (fun s => zlen s < 2 ^ 25) strs
}.
Lemma Block_new_holds : block_holds (Block_new kBlockSizeBytes) [].
Proof. split; try done. by exists []. Qed.
Lemma TryInsert_spec b strs str : block_holds b strs -> zlen (view_bytes str) < 2 ^ 32 ->
  let s := view_bytes str in
  if kBlockSizeBytes <? pos_ b + zlen s + kMaxMetadataSize then TryInsert str b = Ok (false, 0, b)
  else exists b', TryInsert str b = Ok (true, pos_ b, b') /\ block_holds b' (strs ++ [s]) /\ pos_ b' = pos_ b + zlen (enc s).
Proof.
  intros Hb Hs s. change (zlen s < 2 ^ 32) in Hs. destruct (enc_size s Hs) as [Hv He]. destruct Hb as [Hsz Hpos Hfit [slack Hd] Hsm]. pose proof (zlen_nonneg (encs strs)). pose proof (zlen_nonneg s). unfold TryInsert. fold s. rewrite Hsz. change kBlockSizeBytes with (2 ^ 25) in *. unfold kMaxMetadataSize in *.
  rewrite u64_small by lia. destruct (Z.ltb_spec (2 ^ 25) (pos_ b + zlen s + 6)) as [Hlt|Hge]; [done|]. change (WriteVarInt uint64_t (zlen s) ++ s ++ [0]) with (enc s). set (mem := EnsureCommitted _ _).
  assert (Hm : exists slack', mem = encs strs ++ slack' /\ zlen (encs strs) + zlen (enc s) <= zlen mem).
  { unfold mem, EnsureCommitted. rewrite Hd, <- app_assoc. eexists. split; [done|]. rewrite !zlen_app. pose proof (zlen_nonneg slack). destruct (Z.le_gt_cases (zlen (encs strs) + zlen slack) (pos_ b + zlen s + 6)) as [Hle|Hgt].
    - rewrite zlen_zeros by lia. lia.
    - pose proof (zlen_nonneg (zeros (pos_ b + zlen s + 6 - (zlen (encs strs) + zlen slack)))). lia. }
  destruct Hm as (slack' & Hm & Hroom). unfold perfetto_check. rewrite Hpos. destruct (Z.leb_spec (zlen (encs strs) + zlen (enc s)) (zlen mem)); [|lia]. cbn [obind]. rewrite u32_small by lia. eexists. split; [done|]. split; [|done].
  split; cbn [size_ pos_ mem_].
  - done.
  - by rewrite encs_app, encs_one, zlen_app.
  - change kBlockSizeBytes with (2 ^ 25). lia.
  - rewrite Hm. rewrite zwrite_app_r by lia. rewrite Z.sub_diag. unfold zwrite. change (ztake 0 slack') with (@nil Z). rewrite encs_app, encs_one. eexists. rewrite <- app_assoc. done.
  - apply Forall_app. split; [done|]. apply Forall_singleton. lia.
Qed.
(** Reading the string at its offset. *)
Lemma read_string b pre s post : block_holds b (pre ++ s :: post) ->
  let off := zlen (encs pre) in
  0 <= off < 2 ^ 25 /\ off + zlen (enc s) = zlen (encs (pre ++ [s])) /\ ReadSize off b = (off + zlen (WriteVarInt uint64_t (zlen s)), zlen s) /\ GetFromBlockPtr off b = Ok s.
Proof.
  intros [Hsz Hpos Hfit [slack Hd] Hsm] off. apply Forall_app in Hsm as [_ [Hs _]%Forall_cons]. destruct (enc_size s) as [Hv He]; [lia|]. change kBlockSizeBytes with (2 ^ 25) in *.
  change (s :: post) with ([s] ++ post) in Hd, Hpos. rewrite !encs_app, encs_one in Hd, Hpos. rewrite !zlen_app in Hpos. pose proof (zlen_nonneg (encs pre)). pose proof (zlen_nonneg (encs post)). pose proof (zlen_nonneg s).
  set (w := WriteVarInt uint64_t (zlen s)) in *. assert (Hmem : mem_ b = encs pre ++ w ++ s ++ [0] ++ (encs post ++ slack)) by (rewrite Hd; unfold enc; fold w; by rewrite <- !app_assoc).
  assert (Hdrop : zdrop off (mem_ b) = w ++ s ++ [0] ++ encs post ++ slack) by (rewrite Hmem; apply zdrop_zlen_app).
  assert (Hread : ReadSize off b = (off + zlen w, zlen s)).
  { unfold ReadSize, zread. rewrite Hdrop. unfold ztake. rewrite take_app_ge by (unfold kMaxMetadataSize, zlen in *; lia). destruct (WriteVarInt_spec uint64_t (zlen s)) as (Hb1 & Hb2 & Hb3 & Hb4); [done|]. fold w in Hb1, Hb2, Hb3, Hb4. rewrite ParseVarInt_shape by (done || lia). rewrite Hb3.
    change (MaybeExtend uint64_t (zlen s)) with (u64 (zlen s)). rewrite !u64_small, u32_small by (rewrite ?u64_small; lia). done. }
  split; [split; [lia|unfold off; lia]|]. split; [by rewrite encs_app, encs_one, zlen_app|]. split; [done|]. unfold GetFromBlockPtr. rewrite Hread. unfold perfetto_check. assert (Hl : off + zlen w + zlen s < zlen (mem_ b)) by (rewrite Hmem, !zlen_app; change (zlen [0]) with 1; pose proof (zlen_nonneg slack); unfold off; lia).
  destruct (Z.ltb_spec (off + zlen w + zlen s) (zlen (mem_ b))); [|lia]. cbn [obind]. f_equal. rewrite Hmem. unfold off. rewrite <- zlen_app, app_assoc. apply zread_app_exact.
Qed.

(** ** Where the strings are *)

Fixpoint with_ids (i off : Z) (strs : list (list Z)) : list (Z * list Z) :=
  match strs with [] => [] | s :: strs => (BlockString i off, s) :: with_ids i (off + zlen (enc s)) strs end.
Fixpoint ids_from (i : Z) (bss : list (list (list Z))) : list (Z * list Z) :=
  match bss with [] => [] | strs :: bss => with_ids i 0 strs ++ ids_from (i + 1) bss end.
Fixpoint large_from (k : Z) (ls : list (list Z)) : list (Z * list Z) :=
  match ls with [] => [] | s :: ls => (LargeString k, s) :: large_from (k + 1) ls end.
Lemma with_ids_app i off a b : with_ids i off (a ++ b) = with_ids i off a ++ with_ids i (off + zlen (encs a)) b.
Proof.
  revert off. induction a as [|s a IH]; intros off; cbn [with_ids app]; [change (zlen (encs [])) with 0; by rewrite Z.add_0_r|]. rewrite IH. change (s :: a) with ([s] ++ a). rewrite encs_app, encs_one, zlen_app. do 3 f_equal. lia.
Qed.
Lemma ids_from_app i a b : ids_from i (a ++ b) = ids_from i a ++ ids_from (i + zlen a) b.
Proof. revert i. induction a as [|strs a IH]; intros i; cbn [ids_from app]; [change (zlen []) with 0; by rewrite Z.add_0_r|]. rewrite IH, zlen_cons, <- app_assoc. do 3 f_equal. lia. Qed.
Lemma large_from_app k a b : large_from k (a ++ b) = large_from k a ++ large_from (k + zlen a) b.
Proof. revert k. induction a as [|s a IH]; intros k; cbn [large_from app]; [change (zlen []) with 0; by rewrite Z.add_0_r|]. rewrite IH, zlen_cons. do 3 f_equal. lia. Qed.
Lemma with_ids_elem i off strs id s : (id, s) ∈ with_ids i off strs -> exists pre post, strs = pre ++ s :: post /\ id = BlockString i (off + zlen (encs pre)).
Proof.
  revert off. induction strs as [|t strs IH]; intros off Hin; [by apply not_elem_of_nil in Hin|]. cbn [with_ids] in Hin. apply elem_of_cons in Hin as [E|Hin].
  - injection E as -> ->. exists [], strs. split; [done|]. change (zlen (encs [])) with 0. by rewrite Z.add_0_r.
  - apply IH in Hin as (pre & post & -> & ->). exists (t :: pre), post. split; [done|]. change (t :: pre) with ([t] ++ pre). rewrite encs_app, encs_one, zlen_app. f_equal. lia.
Qed.
Lemma ids_from_elem i bss id s : (id, s) ∈ ids_from i bss -> exists j strs, bss !! j = Some strs /\ (id, s) ∈ with_ids (i + Z.of_nat j) 0 strs.
Proof.
  revert i. induction bss as [|t bss IH]; intros i Hin; [by apply not_elem_of_nil in Hin|]. cbn [ids_from] in Hin. apply elem_of_app in Hin as [Hin|Hin].
  - exists 0%nat, t. split; [done|]. by rewrite Z.add_0_r.
  - apply IH in Hin as (j & strs & Hj & Hin). exists (S j), strs. split; [done|]. by replace (i + Z.of_nat (S j)) with (i + 1 + Z.of_nat j) by lia.
Qed.
Lemma large_from_elem k ls id s : (id, s) ∈ large_from k ls -> exists j, ls !! j = Some s /\ id = LargeString (k + Z.of_nat j).
Proof.
  revert k. induction ls as [|t ls IH]; intros k Hin; [by apply not_elem_of_nil in Hin|]. cbn [large_from] in Hin. apply elem_of_cons in Hin as [E|Hin].
  - injection E as -> ->. exists 0%nat. split; [done|]. by rewrite Z.add_0_r.
  - apply IH in Hin as (j & Hj & ->). exists (S j). split; [done|]. f_equal. lia.
Qed.

(** ** The invariant *)

#[local] Abbreviation index_rep := (represents (K := Z) (V := Z) AlreadyHashed LinearProbe true).
Definition hash_of (s : list Z) : Z := StringView_Hash (Some s).
(** What a full block holds at least. *)
Definition kMinBlockFill : Z := kBlockSizeBytes - kMinLargeStringSizeBytes.
(** The strings of the blocks [bs] and of the current one [cur]; the pairs of an id and a
    string that it stands for, the null string left out; and the memory [T] asked for. *)
Record layout_ok (p : StringPool) (bs : list (list (list Z))) (cur : list (list Z)) (stored : list (Z * list Z)) (T : Z) : Prop := {
  lo_blocks : exists blks b, blocks_ p = blks ++ [b] /\ Forall2 block_holds blks bs /\ block_holds b cur;
  lo_nonempty : Forall (fun strs => strs <> []) (bs ++ [cur]);
  lo_stored : ids_from 0 (bs ++ [cur]) ++ large_from 0 (large_strings_ p) = (0, []) :: stored;
  lo_fill : zlen bs * kMinBlockFill + zlen (encs cur) <= T;
  lo_large : 6 * zlen (large_strings_ p) <= T
}.
Record index_ok (p : StringPool) (stored : list (Z * list Z)) (T : Z) : Prop := {
  io_index : exists mp, index_rep (string_index_ p) mp /\ (forall h id, mp !! h = Some id <-> exists s, (id, s) ∈ stored /\ hash_of s = h) /\ 6 * Z.of_nat (base.size mp) <= T;
  io_nodup : NoDup (map hash_of stored.*2);
  io_nonzero : Forall (fun x => x.1 <> 0) stored
}.
(** The memory for which block numbers have room. *)
Definition kMaxPoolBytes : Z := 63 * kMinBlockFill.

Lemma layout_counts p bs cur stored T : layout_ok p bs cur stored T -> T <= kMaxPoolBytes -> zlen bs < 64 /\ zlen (large_strings_ p) < 2 ^ 31.
Proof.
  intros H HT. pose proof (lo_fill _ _ _ _ _ H) as Hf. pose proof (lo_large _ _ _ _ _ H). unfold kMaxPoolBytes in HT. change kMinBlockFill with 29360128 in *. pose proof (zlen_nonneg (encs cur)). lia.
Qed.
Lemma layout_block p bs cur stored T j strs : layout_ok p bs cur stored T -> (bs ++ [cur]) !! j = Some strs -> exists b, blocks_ p !! j = Some b /\ block_holds b strs.
Proof.
  intros H Hj. destruct (lo_blocks _ _ _ _ _ H) as (blks & b & -> & Hbs & Hb). assert (Hall : Forall2 block_holds (blks ++ [b]) (bs ++ [cur])) by (apply Forall2_app; [done|by constructor]).
  by apply (Forall2_lookup_r _ _ _ _ _ Hall).
Qed.
(** Every id but the null one stands for its string. *)
Lemma Get_spec_of p bs cur stored T id s : layout_ok p bs cur stored T -> T <= kMaxPoolBytes -> (id, s) ∈ (0, []) :: stored -> id <> 0 -> Get id p = Ok (Some s).
Proof.
  intros H HT Hin Hid. destruct (layout_counts _ _ _ _ _ H HT) as [Hnb Hnl]. rewrite <- (lo_stored _ _ _ _ _ H) in Hin. unfold Get, is_null. destruct (Z.eqb_spec id 0); [done|]. apply elem_of_app in Hin as [Hin|Hin].
  - apply ids_from_elem in Hin as (j & strs & Hj & Hin). apply with_ids_elem in Hin as (pre & post & -> & ->). destruct (layout_block _ _ _ _ _ _ _ H Hj) as (b & Hb & Hh). destruct (read_string _ _ _ _ Hh) as (Hoff & _ & _ & Hget).
    assert (Hj' : 0 <= Z.of_nat j < 64) by (apply lookup_lt_Some in Hj; rewrite length_app in Hj; cbn in Hj; unfold zlen in Hnb; lia). rewrite !Z.add_0_l. destruct (block_id_parts (Z.of_nat j) (zlen (encs pre)) Hj' Hoff) as (-> & -> & -> & _).
    rewrite Nat2Z.id, Hb, Hget. done.
  - apply large_from_elem in Hin as (j & Hj & ->). assert (Hj' : 0 <= Z.of_nat j < 2 ^ 31) by (apply lookup_lt_Some in Hj; unfold zlen in Hnl; lia). rewrite Z.add_0_l. destruct (large_id_parts (Z.of_nat j) Hj') as (-> & -> & _). by rewrite Nat2Z.id, Hj.
Qed.
Lemma layout_ids p bs cur stored T : layout_ok p bs cur stored T -> exists I, ids_from 0 (bs ++ [cur]) = (0, []) :: I /\ stored = I ++ large_from 0 (large_strings_ p).
Proof.
  intros H. pose proof (lo_stored _ _ _ _ _ H) as Hs. pose proof (lo_nonempty _ _ _ _ _ H) as Hne. destruct (ids_from 0 (bs ++ [cur])) as [|x I] eqn:E.
  - exfalso. destruct bs as [|strs bs]; cbn [app ids_from] in E; (apply Forall_cons in Hne as [Hne _]); [destruct cur as [|? ?]|destruct strs as [|? ?]]; done.
  - cbn in Hs. injection Hs as -> <-. by exists I.
Qed.
(** The current block is not empty or not the first. *)
Lemma layout_id_nonzero p bs cur stored T : layout_ok p bs cur stored T -> T <= kMaxPoolBytes -> zlen (encs cur) < 2 ^ 25 -> BlockString (zlen bs) (zlen (encs cur)) <> 0.
Proof.
  intros H HT Hc. destruct (layout_counts _ _ _ _ _ H HT) as [Hnb _]. pose proof (zlen_nonneg bs). pose proof (zlen_nonneg (encs cur)). rewrite BlockString_value by lia.
  assert (0 < zlen (encs cur)); [|lia]. pose proof (lo_nonempty _ _ _ _ _ H) as Hne. apply Forall_app in Hne as [_ [Hne _]%Forall_cons]. destruct cur as [|s cur]; [done|]. change (s :: cur) with ([s] ++ cur). rewrite encs_app, encs_one. unfold enc. rewrite !zlen_app. change (zlen [0]) with 1.
  pose proof (zlen_nonneg (WriteVarInt uint64_t (zlen s))). pose proof (zlen_nonneg s). pose proof (zlen_nonneg (encs cur)). lia.
Qed.
Lemma InsertString_spec p bs cur stored T s : layout_ok p bs cur stored T -> T + zlen s + 6 <= kMaxPoolBytes ->
  exists id p' bs' cur' stored', InsertString (Some s) p = Ok (id, p') /\ string_index_ p' = string_index_ p /\ layout_ok p' bs' cur' stored' (T + zlen s + 6) /\ stored' ≡ₚ (id, s) :: stored /\ id <> 0.
Proof.
  intros H HT. pose proof (zlen_nonneg s) as Hs0. destruct (layout_counts _ _ _ _ _ H ltac:(lia)) as [Hnb Hnl]. destruct (layout_ids _ _ _ _ _ H) as (I & HI & ->). destruct (lo_blocks _ _ _ _ _ H) as (blks & b & Eb & Hbs & Hb). pose proof (lo_fill _ _ _ _ _ H) as Hfill. pose proof (lo_large _ _ _ _ _ H) as Hlarge. pose proof (lo_nonempty _ _ _ _ _ H) as Hne.
  assert (Hlen : zlen blks = zlen bs) by (unfold zlen; by rewrite (Forall2_length _ _ _ Hbs)). assert (Hs : zlen s < 2 ^ 32) by (unfold kMaxPoolBytes in HT; change kMinBlockFill with 29360128 in *; pose proof (zlen_nonneg bs); pose proof (zlen_nonneg (encs cur)); lia).
  destruct (enc_size s Hs) as [Hv He]. unfold InsertString. rewrite Eb, last_snoc. pose proof (TryInsert_spec b cur (Some s) Hb Hs) as HTry. change (view_bytes (Some s)) with s in *. cbv zeta in HTry. pose proof (bh_pos _ _ Hb) as Hpos. change kBlockSizeBytes with (2 ^ 25) in *. unfold kMaxMetadataSize in *.
  revert HTry. destruct (Z.ltb_spec (2 ^ 25) (pos_ b + zlen s + 6)) as [Hfull|Hroom]; intros HTry.
  - rewrite HTry. cbn [obind]. change kMinLargeStringSizeBytes with 4194304. destruct (Z.leb_spec 4194304 (zlen s + 6)) as [Hbig|Hsmall].
    + unfold InsertLargeString. change (view_bytes (Some s)) with s. assert (El : zlen (large_strings_ p ++ [s]) - 1 = zlen (large_strings_ p)) by (rewrite zlen_app; change (zlen [s]) with 1; lia). rewrite El. pose proof (zlen_nonneg (large_strings_ p)).
      exists (LargeString (zlen (large_strings_ p))), (mkPool (blocks_ p) (large_strings_ p ++ [s]) (string_index_ p)), bs, cur, (I ++ large_from 0 (large_strings_ p ++ [s])). split; [done|]. split; [done|]. split; [|split].
      * split; cbn [blocks_ large_strings_]; [by exists blks, b|done|by rewrite HI|lia|]. rewrite zlen_app. change (zlen [s]) with 1. lia.
      * rewrite large_from_app. cbn [large_from]. rewrite Z.add_0_l. rewrite app_assoc. symmetry. apply Permutation_cons_append.
      * apply large_id_parts. lia.
    + pose proof (TryInsert_spec (Block_new kBlockSizeBytes) [] (Some s) Block_new_holds Hs) as HTry2. change (view_bytes (Some s)) with s in HTry2. cbv zeta in HTry2. change kBlockSizeBytes with (2 ^ 25) in *. unfold kMaxMetadataSize in HTry2. cbn [Block_new pos_] in HTry2. revert HTry2. destruct (Z.ltb_spec (2 ^ 25) (0 + zlen s + 6)); [lia|]. intros HTry2.
      destruct HTry2 as (b' & -> & Hb' & Hpos'). cbn [obind perfetto_check]. assert (El : zlen ((blks ++ [b]) ++ [b']) - 1 = zlen (bs ++ [cur])) by (rewrite !zlen_app; change (zlen [b']) with 1; change (zlen [b]) with 1; change (zlen [cur]) with 1; lia). rewrite El.
      set (id := BlockString (zlen (bs ++ [cur])) 0). assert (Hn : zlen (bs ++ [cur]) = zlen bs + 1) by (rewrite zlen_app; done).
      exists id, (mkPool ((blks ++ [b]) ++ [b']) (large_strings_ p) (string_index_ p)), (bs ++ [cur]), [s], (I ++ (id, s) :: large_from 0 (large_strings_ p)). split; [done|]. split; [done|].
      assert (Hfill' : zlen (bs ++ [cur]) * kMinBlockFill + zlen (encs [s]) <= T + zlen s + 6) by (rewrite Hn, encs_one; change kMinBlockFill with 29360128 in *; lia). split; [|split].
      * split; cbn [blocks_ large_strings_]; [|apply Forall_app; split; [done|by apply Forall_singleton]| |done|lia].
        -- exists (blks ++ [b]), b'. split; [done|]. split; [apply Forall2_app; [done|by constructor]|done].
        -- rewrite ids_from_app, HI. cbn [ids_from with_ids app]. rewrite Z.add_0_l. fold id. by rewrite <- app_assoc.
      * symmetry. apply Permutation_middle.
      * unfold id. assert (zlen (bs ++ [cur]) < 64) by (unfold kMaxPoolBytes in HT; change kMinBlockFill with 29360128 in *; pose proof (zlen_nonneg (encs [s])); lia). pose proof (zlen_nonneg bs). rewrite BlockString_value by lia. lia.
  - destruct HTry as (b' & -> & Hb' & Hpos'). cbn [obind]. assert (El : zlen (blks ++ [b]) - 1 = zlen bs) by (rewrite zlen_app; change (zlen [b]) with 1; lia). rewrite El, Hpos. set (id := BlockString (zlen bs) (zlen (encs cur))).
    assert (Eset : set_back b' (blks ++ [b]) = blks ++ [b']) by (unfold set_back; rewrite length_app; cbn [length]; rewrite Nat.add_sub, insert_app_r_alt, Nat.sub_diag by lia; done). rewrite Eset.
    exists id, (mkPool (blks ++ [b']) (large_strings_ p) (string_index_ p)), bs, (cur ++ [s]), (I ++ (id, s) :: large_from 0 (large_strings_ p)). split; [done|]. split; [done|]. split; [|split].
    + split; cbn [blocks_ large_strings_].
      * by exists blks, b'.
      * apply Forall_app in Hne as [Hne _]. apply Forall_app. split; [done|]. apply Forall_singleton. by destruct cur.
      * rewrite ids_from_app in HI |- *. cbn [ids_from] in HI |- *. rewrite app_nil_r in HI |- *. rewrite with_ids_app, !Z.add_0_l. cbn [with_ids]. rewrite !Z.add_0_l in HI. fold id. rewrite app_assoc, HI, <- app_assoc. done.
      * rewrite encs_app, encs_one, zlen_app. lia.
      * lia.
    + symmetry. apply Permutation_middle.
    + apply (layout_id_nonzero _ _ _ _ _ H); [lia|]. lia.
Qed.

(** ** Interning *)

Lemma layout_mono p bs cur stored T T' : layout_ok p bs cur stored T -> T <= T' -> layout_ok p bs cur stored T'.
Proof. intros [H1 H2 H3 H4 H5] HT. split; [done..|lia|lia]. Qed.
Lemma layout_frame p p' bs cur stored T : blocks_ p' = blocks_ p -> large_strings_ p' = large_strings_ p -> layout_ok p bs cur stored T -> layout_ok p' bs cur stored T.
Proof. intros E1 E2 [H1 H2 H3 H4 H5]. split; by rewrite ?E1, ?E2. Qed.
Lemma index_extend p p' stored stored' T T' id s index slot : index_ok p stored T -> stored' ≡ₚ (id, s) :: stored -> id <> 0 -> T + 6 <= T' ->
  (forall mp, index_rep (string_index_ p) mp -> mp !! hash_of s = None /\ index_rep index (<[hash_of s := 0]> mp) /\ 0 <= slot < FlatHashMap.capacity_ index /\ slots index !! Z.to_nat slot = Some (Some (hash_of s, 0))) ->
  string_index_ p' = store_value slot id index -> index_ok p' stored' T'.
Proof.
  intros [(mp & Hrep & Hmp & Hsz) Hnd Hnz] Hst Hid HT Hins Ep. destruct (Hins mp Hrep) as (Hnone & Hrep1 & Hslot & Hs). assert (Hfresh : forall id' s', (id', s') ∈ stored -> hash_of s' <> hash_of s).
  { intros id' s' Hin E. assert (Hsome : mp !! hash_of s = Some id') by (apply Hmp; by exists s'). congruence. }
  split.
  - destruct (store_slot AlreadyHashed LinearProbe true index (hash_of s) 0 id slot (proj1 Hrep1) Hslot Hs) as (Hw & rest & He & He'). exists (<[hash_of s := id]> mp). split; [|split].
    + rewrite Ep, <- (insert_insert_eq mp (hash_of s) id 0). by apply (rep_store AlreadyHashed LinearProbe true index _ _ _ 0 _ rest).
    + intros h id'. rewrite lookup_insert. setoid_rewrite Hst. setoid_rewrite elem_of_cons. case_decide as E.
      * subst h. split; [intros [= <-]; exists s; split; [by left|done]|]. intros (s' & [Hx|Hin] & Eh); [by injection Hx as -> _|]. by destruct (Hfresh id' s').
      * rewrite Hmp. split; [intros (s' & Hin & Eh); exists s'; split; [by right|done]|]. intros (s' & [Hx|Hin] & Eh); [injection Hx as -> ->; congruence|by exists s'].
    + rewrite map_size_insert_None by done. lia.
  - rewrite Hst. cbn. apply NoDup_cons. split; [|done]. intros Hin. apply list_elem_of_fmap in Hin as (s' & Eh & Hin). apply list_elem_of_fmap in Hin as ([id' s''] & -> & Hin). by destruct (Hfresh id' s'').
  - rewrite Hst. by constructor.
Qed.
Lemma InternString_spec p bs cur stored T s : layout_ok p bs cur stored T -> index_ok p stored T -> T + zlen s + 6 <= kMaxPoolBytes -> (forall id' s', (id', s') ∈ stored -> hash_of s' = hash_of s -> s' = s) ->
  exists id p' bs' cur' stored', InternString (Some s) p = Ok (id, p') /\ layout_ok p' bs' cur' stored' (T + zlen s + 6) /\ index_ok p' stored' (T + zlen s + 6) /\ (id, s) ∈ stored' /\ (stored' = stored \/ stored' ≡ₚ (id, s) :: stored).
Proof.
  intros H HI HT Hcoll. pose proof (zlen_nonneg s) as Hs0. pose proof HI as [(mp & Hrep & Hmp & Hsz) Hnd Hnz]. assert (Hsmall : FlatHashMap.size_ (string_index_ p) < 2 ^ 40).
  { rewrite (rep_size AlreadyHashed LinearProbe true _ _ Hrep). unfold kMaxPoolBytes in HT. change kMinBlockFill with 29360128 in HT. lia. }
  destruct (Insert_spec AlreadyHashed LinearProbe true 12 _ mp (hash_of s) 0 Hrep Hsmall) as (slot & index & E & Hslot & Hm). unfold InternString. change (StringView_Hash (Some s)) with (hash_of s). unfold index_Insert. rewrite E. cbn [obind]. destruct (mp !! hash_of s) as [id|] eqn:Eh.
  - destruct Hm as [-> Hs]. rewrite bool_decide_eq_false_2 by done. cbn [negb]. rewrite (value_at_live _ _ _ _ Hs). cbn [obind]. apply Hmp in Eh as Hst. destruct Hst as (s' & Hin & Ehash). pose proof (Hcoll id s' Hin Ehash) as ->.
    exists id, (mkPool (blocks_ p) (large_strings_ p) (string_index_ p)), bs, cur, stored. split; [done|]. split; [by apply (layout_mono _ _ _ _ T); [apply (layout_frame p)|lia]|]. split; [|split; [done|by left]].
    split; [|done|done]. exists mp. split; [done|]. split; [done|lia].
  - destruct Hm as [Hrep1 Hs]. rewrite bool_decide_eq_true_2 by done. cbn [negb]. set (p1 := mkPool (blocks_ p) (large_strings_ p) index). assert (H1 : layout_ok p1 bs cur stored T) by (by apply (layout_frame p)).
    destruct (InsertString_spec p1 bs cur stored T s H1 HT) as (id & p' & bs' & cur' & stored' & -> & Ei & H' & Hst & Hid). cbn [obind]. eexists id, _, bs', cur', stored'. split; [done|]. split; [by apply (layout_frame p')|]. split; [|split; [rewrite Hst; by left|by right]].
    apply (index_extend p _ stored stored' T _ id s index slot HI Hst Hid); [lia| |cbn; by rewrite Ei]. intros mp' Hrep'. assert (mp' = mp) as ->; [|done].
    apply map_eq. intros h. apply option_eq. intros v. by rewrite (rep_lookup AlreadyHashed LinearProbe true _ _ _ _ Hrep), (rep_lookup AlreadyHashed LinearProbe true _ _ _ _ Hrep').
Qed.
Lemma GetId_spec p stored T s : index_ok p stored T -> GetId (Some s) p = Ok (match list_find (fun x => hash_of x.2 = hash_of s) stored with Some (_, (id, _)) => Some id | None => None end).
Proof.
  intros [(mp & Hrep & Hmp & Hsz) Hnd Hnz]. unfold GetId, index_Find, Find. change (StringView_Hash (Some s)) with (hash_of s). destruct (Find_spec AlreadyHashed LinearProbe true _ mp (hash_of s) Hrep) as (idx & -> & Hidx). cbn [obind].
  destruct (list_find (fun x => hash_of x.2 = hash_of s) stored) as [[j [id s']]|] eqn:E.
  - apply list_find_Some in E as (Hj & Eh & _). cbn in Eh. assert (Hin : mp !! hash_of s = Some id) by (apply Hmp; exists s'; split; [by eapply list_elem_of_lookup_2|done]). rewrite Hin in Hidx. destruct Hidx as (-> & _ & Hs). by rewrite (value_at_live _ _ _ _ Hs).
  - apply list_find_None in E. assert (Hn : mp !! hash_of s = None).
    { destruct (mp !! hash_of s) as [id|] eqn:Em; [|done]. apply Hmp in Em as (s' & Hin & Eh). rewrite Forall_forall in E. by destruct (E _ Hin). }
    rewrite Hn in Hidx. by subst idx.
Qed.

(** ** A session *)

Definition no_collisions (strs : list StringView) : Prop :=
  forall s s', Some s ∈ strs -> Some s' ∈ strs -> hash_of s = hash_of s' -> s = s'.
(** The memory a session asks for, at most. *)
Definition asked (str : StringView) : Z := match str with Some s => zlen s + kMaxMetadataSize | None => 0 end.
Definition asked_all (strs : list StringView) : Z := fold_right (fun str n => asked str + n) 0 strs.
Lemma asked_all_nonneg strs : 0 <= asked_all strs.
Proof. induction strs as [|[s|] strs IH]; cbn; [done| |done]. pose proof (zlen_nonneg s). unfold kMaxMetadataSize, asked_all in *. lia. Qed.
Definition stands_for (stored : list (Z * list Z)) (id : Z) (str : StringView) : Prop := match str with None => id = 0 | Some s => (id, s) ∈ stored end.
Lemma intern_all_spec all : no_collisions all -> forall strs p bs cur stored T, layout_ok p bs cur stored T -> index_ok p stored T ->
  (forall x, x ∈ stored -> Some x.2 ∈ all) -> (forall str, str ∈ strs -> str ∈ all) -> T + asked_all strs <= kMaxPoolBytes ->
  exists ids p' bs' cur' stored' T', intern_all strs p = Ok (ids, p') /\ T' <= kMaxPoolBytes /\ layout_ok p' bs' cur' stored' T' /\ index_ok p' stored' T' /\
    Forall2 (stands_for stored') ids strs /\ (forall x, x ∈ stored -> x ∈ stored') /\ (forall x, x ∈ stored' -> x ∈ stored \/ Some x.2 ∈ strs).
Proof.
  intros Hno. induction strs as [|str strs IH]; intros p bs cur stored T H HI Hold Hnew HT; cbn [intern_all asked_all fold_right] in *.
  - exists [], p, bs, cur, stored, T. split; [done|]. split; [lia|]. split; [done|]. split; [done|]. split; [done|]. split; [done|]. by left.
  - pose proof (asked_all_nonneg strs) as Hnn. fold (asked_all strs) in HT. assert (Hnew' : forall str, str ∈ strs -> str ∈ all) by (intros str' Hin; apply Hnew; by right). destruct str as [s|].
    + cbn [asked] in HT. unfold kMaxMetadataSize in HT. pose proof (zlen_nonneg s). assert (Hs : Some s ∈ all) by (apply Hnew; left). destruct (InternString_spec p bs cur stored T s H HI) as (id & p1 & bs1 & cur1 & stored1 & -> & H1 & HI1 & Hin & Hst); [lia| |].
      { intros id' s' Hx Eh. apply (Hno s' s); [by apply (Hold (id', s'))|done|done]. }
      assert (Hst' : forall x, x ∈ stored1 <-> x ∈ stored \/ x = (id, s)).
      { intros x. destruct Hst as [-> |Hst]; [split; [by left|intros [?| ->]; done]|]. rewrite Hst, elem_of_cons. tauto. }
      cbn [obind]. destruct (IH p1 bs1 cur1 stored1 _ H1 HI1) as (ids & p' & bs' & cur' & stored' & T' & -> & HT' & H' & HI' & Hids & Hmono & Hback); [|done|lia|].
      { intros x Hx. apply Hst' in Hx as [Hx| ->]; [by apply Hold|done]. }
      cbn [obind]. exists (id :: ids), p', bs', cur', stored', T'. split; [done|]. split; [done|]. split; [done|]. split; [done|]. split; [constructor; [by apply Hmono|done]|]. split.
      * intros x Hx. apply Hmono, Hst'. by left.
      * intros x Hx. apply Hback in Hx as [Hx|Hx]; [|right; by right]. apply Hst' in Hx as [Hx| ->]; [by left|right; left].
    + cbn [asked InternString obind] in *. destruct (IH p bs cur stored T H HI Hold Hnew') as (ids & p' & bs' & cur' & stored' & T' & -> & HT' & H' & HI' & Hids & Hmono & Hback); [lia|]. cbn [obind].
      exists (Id_Null :: ids), p', bs', cur', stored', T'. split; [done|]. split; [done|]. split; [done|]. split; [done|]. split; [by constructor|]. split; [done|]. intros x Hx. apply Hback in Hx as [Hx|Hx]; [by left|right; by right].
Qed.
Lemma StringPool_new_ok : exists p, StringPool_new = Ok p /\ layout_ok p [] [[]] [] 6 /\ index_ok p [] 6.
Proof.
  eexists. split; [vm_compute; reflexivity|]. split.
  - split.
    + eexists [], _. split; [reflexivity|]. split; [done|]. split; [done|done|done| |by constructor]. exists (zeros 4). done.
    + by apply Forall_singleton.
    + done.
    + done.
    + done.
  - split; [|constructor|done]. exists ∅. split; [|split; [|done]].
    + destruct (Reset_wf AlreadyHashed LinearProbe true 4096 75 (empty_map (K := Z) (V := Z) 75)) as (Hw & He & _); [right; by exists 12|done|done|]. split; [exact Hw|]. change (entries (Reset 4096 (empty_map (K := Z) (V := Z) 75)) ≡ₚ map_to_list (∅ : gmap Z Z)). by rewrite He, map_to_list_empty.
    + intros h id. rewrite lookup_empty. split; [done|]. intros (s & Hin & _). by apply not_elem_of_nil in Hin.
Qed.

(** ** Iteration *)

Definition view_of (x : Z * list Z) : Z * StringView := (x.1, if x.1 =? 0 then None else Some x.2).
(** The iterator has the strings [rest] before it. *)
Definition at_pos (p : StringPool) (bss : list (list (list Z))) (it : Iterator) (rest : list (Z * list Z)) : Prop :=
  (exists front pre s post later, bss = front ++ (pre ++ s :: post) :: later /\ it = mkIterator (zlen front) (zlen (encs pre)) 0 /\
    rest = with_ids (zlen front) (zlen (encs pre)) (s :: post) ++ ids_from (zlen front + 1) later ++ large_from 0 (large_strings_ p)) \/
  (exists k, it = mkIterator (zlen bss) 0 (Z.of_nat k) /\ (k <= length (large_strings_ p))%nat /\ rest = large_from (Z.of_nat k) (drop k (large_strings_ p))).
Lemma at_block p bss front later : bss = front ++ later -> Forall (fun strs => strs <> []) bss -> at_pos p bss (mkIterator (zlen front) 0 0) (ids_from (zlen front) later ++ large_from 0 (large_strings_ p)).
Proof.
  intros -> Hne. destruct later as [|strs later].
  - right. exists 0%nat. rewrite app_nil_r. split; [done|]. split; [lia|done].
  - left. apply Forall_app in Hne as [_ [Hne _]%Forall_cons]. destruct strs as [|s post]; [done|]. exists front, [], s, post, later. split; [done|]. split; [done|]. cbn [ids_from]. by rewrite <- app_assoc.
Qed.
Lemma Iterator_step p bs cur stored T it x rest : layout_ok p bs cur stored T -> T <= kMaxPoolBytes -> at_pos p (bs ++ [cur]) it (x :: rest) ->
  Iterator_valid p it = true /\ StringId p it = x.1 /\ exists it', Iterator_next p it = Ok it' /\ at_pos p (bs ++ [cur]) it' rest.
Proof.
  intros H HT Hat. destruct (layout_counts _ _ _ _ _ H HT) as [Hnb Hnl]. pose proof (lo_nonempty _ _ _ _ _ H) as Hne. assert (Hlen : zlen (blocks_ p) = zlen (bs ++ [cur])).
  { destruct (lo_blocks _ _ _ _ _ H) as (blks & b & -> & Hbs & _). rewrite !zlen_app. f_equal. unfold zlen. by rewrite (Forall2_length _ _ _ Hbs). }
  assert (Hl : zlen (bs ++ [cur]) <= 64) by (rewrite zlen_app; change (zlen [cur]) with 1; lia). unfold Iterator_valid, StringId, Iterator_next. destruct Hat as [(front & pre & s & post & later & E & -> & Er)|(k & -> & Hk & Er)]; cbn [block_index_ block_offset_ large_strings_index_]; rewrite Hlen.
  - cbn [with_ids app] in Er. injection Er as -> ->. pose proof (zlen_nonneg front). pose proof (zlen_nonneg later). assert (Hlt : zlen front < zlen (bs ++ [cur])) by (rewrite E, zlen_app, zlen_cons; lia). destruct (Z.ltb_spec (zlen front) (zlen (bs ++ [cur]))); [|lia].
    assert (Hb : (bs ++ [cur]) !! Z.to_nat (zlen front) = Some (pre ++ s :: post)) by (rewrite E; apply list_lookup_middle; unfold zlen; lia). destruct (layout_block _ _ _ _ _ _ _ H Hb) as (b & -> & Hh). destruct (read_string _ _ _ _ Hh) as (Hoff & Hnext & Hread & _).
    destruct (block_id_parts (zlen front) (zlen (encs pre))) as (_ & _ & _ & Hz); [lia|done|]. split; [done|]. split.
    { cbn [fst]. destruct ((zlen front =? 0) && (zlen (encs pre) =? 0)) eqn:Ez; [|done]. apply andb_true_iff in Ez as [E1%Z.eqb_eq E2%Z.eqb_eq]. rewrite E1, E2. done. }
    rewrite Hread. assert (Hs : zlen s < 2 ^ 25) by (pose proof (bh_small _ _ Hh) as Hsm; by apply Forall_app in Hsm as [_ [Hs _]%Forall_cons]). destruct (enc_size s) as [Hv He]; [lia|]. pose proof (zlen_nonneg s).
    replace (zlen (encs pre) + zlen (WriteVarInt uint64_t (zlen s)) + (zlen s + 1)) with (zlen (encs pre) + zlen (enc s)) by lia. rewrite u32_small by lia. rewrite (bh_pos _ _ Hh). eexists. split; [done|].
    change (pre ++ s :: post) with (pre ++ [s] ++ post). rewrite (app_assoc pre), encs_app, zlen_app, <- Hnext. destruct post as [|s' post].
    + change (zlen (encs [])) with 0. rewrite Z.add_0_r, Z.leb_refl. cbn [with_ids app]. replace (zlen front + 1) with (zlen (front ++ [pre ++ [s]])) by (rewrite zlen_app; done). apply at_block; [|done]. rewrite E, <- app_assoc. done.
    + assert (0 < zlen (encs (s' :: post))) by (change (s' :: post) with ([s'] ++ post); rewrite encs_app, encs_one; unfold enc; rewrite !zlen_app; change (zlen [0]) with 1; pose proof (zlen_nonneg (WriteVarInt uint64_t (zlen s'))); pose proof (zlen_nonneg s'); pose proof (zlen_nonneg (encs post)); lia).
      destruct (Z.leb_spec (zlen (encs pre) + zlen (enc s) + zlen (encs (s' :: post))) (zlen (encs pre) + zlen (enc s))); [lia|]. left. exists front, (pre ++ [s]), s', post, later. split; [by rewrite E, <- app_assoc|]. by rewrite Hnext.
  - rewrite Z.ltb_irrefl. cbn [orb]. destruct (drop k (large_strings_ p)) as [|s ls] eqn:Ed; [done|]. cbn [large_from] in Er. injection Er as -> ->. assert (Hk' : (k < length (large_strings_ p))%nat) by (apply (f_equal length) in Ed; rewrite length_drop in Ed; cbn in Ed; lia).
    split; [apply Z.ltb_lt; unfold zlen; lia|]. split; [done|]. eexists. split; [done|]. right. exists (S k). split; [f_equal; lia|]. split; [lia|]. replace (Z.of_nat k + 1) with (Z.of_nat (S k)) by lia. f_equal. change (drop (S k) (large_strings_ p)) with (drop (S k) (large_strings_ p)). rewrite <- Nat.add_1_r, <- drop_drop, Ed. done.
Qed.
Lemma all_strings_spec p bs cur stored T : layout_ok p bs cur stored T -> T <= kMaxPoolBytes -> Forall (fun x => x.1 <> 0) stored -> forall rest it fuel, at_pos p (bs ++ [cur]) it rest -> (forall x, x ∈ rest -> x ∈ (0, []) :: stored) -> (length rest <= fuel)%nat ->
  all_strings_loop fuel p it = Ok (map view_of rest).
Proof.
  intros H HT Hnz. induction rest as [|x rest IH]; intros it fuel Hat Hin Hf.
  - assert (Hv : Iterator_valid p it = false).
    { destruct Hat as [(front & pre & s & post & later & _ & _ & E)|(k & -> & Hk & E)]; [done|]. unfold Iterator_valid. cbn. apply orb_false_iff. split; apply Z.ltb_ge.
      - destruct (lo_blocks _ _ _ _ _ H) as (blks & b & -> & Hbs & _). rewrite !zlen_app. unfold zlen. rewrite (Forall2_length _ _ _ Hbs). done.
      - destruct (drop k (large_strings_ p)) as [|s ls] eqn:Ed; [|done]. apply (f_equal length) in Ed. rewrite length_drop in Ed. cbn in Ed. unfold zlen. lia. }
    destruct fuel; cbn [all_strings_loop]; by rewrite Hv.
  - destruct fuel as [|fuel]; [cbn in Hf; lia|]. destruct (Iterator_step _ _ _ _ _ _ _ _ H HT Hat) as (Hv & Hid & it' & Hnext & Hat'). cbn [all_strings_loop map]. rewrite Hv, Hid, Hnext. unfold view_of at 1. destruct x as [id s]. cbn [fst snd]. assert (Hget : Get id p = Ok (if id =? 0 then None else Some s)).
    { destruct (Z.eqb_spec id 0) as [->|Hne]; [done|]. apply (Get_spec_of _ _ _ _ _ _ _ H HT); [apply Hin; by left|done]. }
    rewrite Hget. cbn [obind]. rewrite (IH it' fuel Hat'); [done|intros y Hy; apply Hin; by right|cbn in Hf; lia].
Qed.

(** ** The properties *)

Lemma stored_length (stored : list (Z * list Z)) (strs : list StringView) : NoDup (map hash_of stored.*2) -> (forall x, x ∈ stored -> Some x.2 ∈ strs) -> (length stored <= length strs)%nat.
Proof.
  intros Hnd Hin. rewrite <- (length_map (fun x => Some x.2)). apply submseteq_length, NoDup_submseteq.
  - apply NoDup_fmap_1 in Hnd. rewrite <- (map_map snd Some stored). change (NoDup (Some <$> stored.*2)). apply NoDup_fmap_2; [intros a b [= ->]; done|done].
  - intros v Hv. apply list_elem_of_fmap in Hv as (x & -> & Hx). by apply Hin.
Qed.
Lemma stands_for_ids stored ids strs id s : NoDup (map hash_of stored.*2) -> Forall2 (stands_for stored) ids strs -> (id, s) ∈ stored -> Some s ∈ strs -> (id, Some s) ∈ zip ids strs.
Proof.
  intros Hnd. induction 1 as [|id' str ids strs Hx _ IH]; intros Hin Hs; [by apply not_elem_of_nil in Hs|]. cbn [zip_with]. apply elem_of_cons in Hs as [<-|Hs]; [|right; by apply IH]. cbn in Hx. assert (id = id') as ->; [|left].
  apply NoDup_fmap_1 in Hnd. apply list_elem_of_lookup in Hin as [i Hi], Hx as [j Hj]. assert (i = j) as ->; [|congruence]. apply (NoDup_lookup _ _ _ s Hnd); by rewrite list_lookup_fmap, ?Hi, ?Hj.
Qed.
Lemma GetId_stored p stored T id s all : index_ok p stored T -> no_collisions all -> (forall x, x ∈ stored -> Some x.2 ∈ all) -> (id, s) ∈ stored -> GetId (Some s) p = Ok (Some id).
Proof.
  intros HI Hno Hall Hin. rewrite (GetId_spec p stored T s HI). destruct (list_find _ stored) as [[j [id' s']]|] eqn:E.
  - apply list_find_Some in E as (Hj & Eh & _). cbn in Eh. do 2 f_equal. pose proof (io_nodup _ _ _ HI) as Hnd. apply list_elem_of_lookup in Hin as [i Hi]. assert (i = j) as ->; [|congruence]. apply (NoDup_lookup _ _ _ (hash_of s) Hnd); change (map hash_of stored.*2) with (hash_of <$> stored.*2); rewrite !list_lookup_fmap, ?Hi, ?Hj; cbn; congruence.
  - apply list_find_None in E. rewrite Forall_forall in E. by destruct (E _ Hin).
Qed.

(** C29. The string pool gives back what was interned: after interning any strings, of which no two
    different ones have the same hash and which take at most 63 times 28 MiB, every id that was
    returned still stands for its string, a lookup of the string finds that id, and an
    iteration over the pool returns the null string and then every other interned string
    exactly once with its id.  No check fails and no access leaves a block. *)
Theorem string_pool_roundtrip strs : no_collisions strs -> kMaxMetadataSize + asked_all strs <= kMaxPoolBytes ->
  exists ids p l, (let! p := StringPool_new in intern_all strs p) = Ok (ids, p) /\ Forall2 (fun id str => Get id p = Ok str /\ GetId str p = Ok (Some id)) ids strs /\
    all_strings_loop (S (length strs)) p CreateIterator = Ok ((Id_Null, None) :: l) /\ NoDup l.*2 /\ forall x, x ∈ l <-> x ∈ zip ids strs /\ x.2 <> None.
Proof.
  intros Hno HT. unfold kMaxMetadataSize in HT. destruct StringPool_new_ok as (p0 & E0 & H0 & HI0). rewrite E0. cbn [obind]. destruct (intern_all_spec strs Hno strs p0 [] [[]] [] 6 H0 HI0) as (ids & p & bs & cur & stored & T & -> & HT' & H & HI & Hids & _ & Hback); [intros x Hx; by apply not_elem_of_nil in Hx|done|done|].
  assert (Hall : forall x, x ∈ stored -> Some x.2 ∈ strs) by (intros x Hx; apply Hback in Hx as [Hx|Hx]; [by apply not_elem_of_nil in Hx|done]). pose proof (io_nonzero _ _ _ HI) as Hnz. pose proof (io_nodup _ _ _ HI) as Hnd. rewrite Forall_forall in Hnz.
  assert (Hviews : map view_of stored = (fun x => (x.1, Some x.2)) <$> stored).
  { apply Forall_fmap_ext. apply Forall_forall. intros x Hx. unfold view_of. specialize (Hnz x Hx). by destruct (Z.eqb_spec x.1 0). }
  exists ids, p, (map view_of stored). split; [done|]. split; [|split; [|split]].
  - eapply Forall2_impl; [exact Hids|]. intros id [s|] Hx; cbn in Hx; [|subst id; done]. split; [|by apply (GetId_stored p stored T _ _ strs)]. apply (Get_spec_of _ _ _ _ _ _ _ H HT'); [by right|]. by apply (Hnz (id, s)).
  - change ((Id_Null, None) :: map view_of stored) with (map view_of ((0, []) :: stored)). apply (all_strings_spec _ _ _ _ _ H HT'); [by apply Forall_forall| |done|cbn; pose proof (stored_length stored strs Hnd Hall); lia].
    rewrite <- (lo_stored _ _ _ _ _ H). apply (at_block p _ [] _ eq_refl (lo_nonempty _ _ _ _ _ H)).
  - rewrite Hviews, <- list_fmap_compose. change (NoDup (map (fun x => Some x.2) stored)). rewrite <- (map_map snd Some stored). change (NoDup (Some <$> stored.*2)). apply NoDup_fmap_2; [intros a b [= ->]; done|]. by apply NoDup_fmap_1 in Hnd.
  - intros [id v]. rewrite Hviews, list_elem_of_fmap. split.
    + intros ([id' s] & [= -> ->] & Hx). split; [|done]. apply (stands_for_ids stored); [done..|]. by apply (Hall (id', s)).
    + intros [Hx Hv]. destruct v as [s|]; [|done]. exists (id, s). split; [done|]. apply list_elem_of_lookup in Hx as [i Hi]. apply lookup_zip_Some in Hi as [Hi1 Hi2]. by apply (Forall2_lookup_lr _ _ _ _ _ _ Hids Hi1 Hi2).
Qed.

(** The pool identifies strings by their hash alone: two different strings with the same
    64-bit hash get the same id, and the second one reads back as the first. *)
Theorem colliding_strings_are_merged s s' : hash_of s = hash_of s' -> zlen s <= kMinBlockFill -> zlen s' <= kMinBlockFill ->
  exists id p, (let! p := StringPool_new in intern_all [Some s; Some s'] p) = Ok ([id; id], p) /\ Get id p = Ok (Some s) /\ GetId (Some s') p = Ok (Some id).
Proof.
  intros Eh Hs Hs'. destruct StringPool_new_ok as (p0 & E0 & H0 & HI0). rewrite E0. cbn [obind]. pose proof (zlen_nonneg s) as Hs0. pose proof (zlen_nonneg s') as Hs0'. unfold kMaxPoolBytes. assert (HT : 6 + zlen s + 6 <= 63 * kMinBlockFill) by (change kMinBlockFill with 29360128 in *; lia).
  destruct (InternString_spec p0 [] [[]] [] 6 s H0 HI0 HT) as (id & p & bs & cur & stored & E & H & HI & Hin & Hst); [intros id' s'' Hx; by apply not_elem_of_nil in Hx|]. destruct Hst as [->|Hst]; [by apply not_elem_of_nil in Hin|].
  pose proof HI as [(mp & Hrep & Hmp & Hsz) _ Hnz]. assert (Hh : mp !! hash_of s' = Some id) by (apply Hmp; exists s; done). assert (Hsmall : FlatHashMap.size_ (string_index_ p) < 2 ^ 40) by (rewrite (rep_size AlreadyHashed LinearProbe true _ _ Hrep); change kMinBlockFill with 29360128 in *; lia).
  destruct (Insert_spec AlreadyHashed LinearProbe true 12 _ mp (hash_of s') 0 Hrep Hsmall) as (slot & index & Ei & Hslot & Hm). rewrite Hh in Hm, Ei. destruct Hm as [-> Hslots]. cbn [intern_all]. rewrite E. cbn [obind]. unfold InternString. change (StringView_Hash (Some s')) with (hash_of s'). unfold index_Insert. rewrite Ei. cbn [obind].
  rewrite bool_decide_eq_false_2 by done. cbn [negb]. rewrite (value_at_live _ _ _ _ Hslots). cbn [obind]. destruct p as [blks ls index]. cbn [blocks_ large_strings_ string_index_] in *. eexists id, _. split; [done|]. split.
  - apply (Get_spec_of _ _ _ _ _ _ _ H HT); [by right|]. rewrite Forall_forall in Hnz. by apply (Hnz (id, s)).
  - unfold GetId, index_Find, Find. change (StringView_Hash (Some s')) with (hash_of s'). cbn [string_index_]. destruct (Find_spec AlreadyHashed LinearProbe true _ mp (hash_of s') Hrep) as (idx & -> & Hidx). rewrite Hh in Hidx. destruct Hidx as (E1 & _ & Hv). cbn [obind]. rewrite E1. by rewrite (value_at_live _ _ _ _ Hv).
Qed.

(** ** At concrete inputs *)

(** Empty, null and repeated strings. *)
Definition demo_strings : list StringView := [Some [115; 108; 105; 99; 101]; None; Some []; Some [115; 108; 105; 99; 101]; Some [0; 255]].
(** "8yn0iYCKYHlIj4-BwPqk" and "GReLUrM4wMqfg9yzV3KQ". *)
Definition colliding_string : list Z := [56; 121; 110; 48; 105; 89; 67; 75; 89; 72; 108; 73; 106; 52; 45; 66; 119; 80; 113; 107].
Definition colliding_string' : list Z := [71; 82; 101; 76; 85; 114; 77; 52; 119; 77; 113; 102; 103; 57; 121; 122; 86; 51; 75; 81].
Definition no_collisions_b (strs : list StringView) : bool :=
  forallb (fun v => forallb (fun w => match v, w with Some s, Some t => negb (hash_of s =? hash_of t) || bool_decide (s = t) | _, _ => true end) strs) strs.
Lemma no_collisions_b_spec strs : no_collisions_b strs = true -> no_collisions strs.
Proof.
  unfold no_collisions_b. rewrite forallb_forall. intros Hb s t Hs Ht E. apply list_elem_of_In in Hs, Ht. specialize (Hb _ Hs). cbv beta iota in Hb. rewrite forallb_forall in Hb. specialize (Hb _ Ht). cbv beta iota in Hb. rewrite E, Z.eqb_refl in Hb. by apply bool_decide_eq_true in Hb.
Qed.
Lemma string_pool_roundtrip_witness : no_collisions demo_strings /\
  exists ids p l, (let! p := StringPool_new in intern_all demo_strings p) = Ok (ids, p) /\ Forall2 (fun id str => Get id p = Ok str /\ GetId str p = Ok (Some id)) ids demo_strings /\
    all_strings_loop (S (length demo_strings)) p CreateIterator = Ok ((Id_Null, None) :: l) /\ NoDup l.*2 /\ forall x, x ∈ l <-> x ∈ zip ids demo_strings /\ x.2 <> None.
Proof. split; [apply no_collisions_b_spec; vm_compute; reflexivity|]. apply string_pool_roundtrip; [apply no_collisions_b_spec; vm_compute; reflexivity|vm_compute; discriminate]. Defined.
Lemma colliding_strings_are_merged_witness : colliding_string <> colliding_string' /\ hash_of colliding_string = hash_of colliding_string' /\
  exists id p, (let! p := StringPool_new in intern_all [Some colliding_string; Some colliding_string'] p) = Ok ([id; id], p) /\ Get id p = Ok (Some colliding_string) /\ GetId (Some colliding_string') p = Ok (Some id).
Proof. split; [discriminate|]. split; [vm_compute; reflexivity|]. apply (colliding_strings_are_merged colliding_string colliding_string'); [vm_compute; reflexivity|vm_compute; discriminate|vm_compute; discriminate]. Defined.
(** Blocks are numbered with six bits, and nothing stops the pool at 64 of them: the first
    string of the next block gets the id of the null string. *)
Lemma sixty_fifth_block_is_null : BlockString 64 0 = Id_Null /\ forall o, BlockString 64 o = BlockString 0 o.
Proof. split; [reflexivity|]. intros o. unfold BlockString. change (u32 (64 .<< kNumBlockOffsetBits)) with (2 ^ 31). change (u32 (0 .<< kNumBlockOffsetBits)) with 0. rewrite Z.land_lor_distr_r. done. Qed.
