(* ===== verification/ClockTracker.v ===== *)
(** * The clock tracker of the trace processor

    trace_processor/importers/common/clock_tracker.h and .cc: snapshots of several clocks
    taken at the same time, a graph of the clocks that were seen together, and the
    conversion of timestamps along a shortest path in it, with a cache. *)

From S2P Require Import Prelude StdAlgorithms.
From S2P Require FilterBytecode.

(** ** Data *)

Definition ClockId : Type := Z.
Definition SnapshotHash : Type := Z.
Definition Edge : Type := ClockId * ClockId * SnapshotHash.
Definition edge_src (e : Edge) : ClockId := e.1.1.
Definition edge_target (e : Edge) : ClockId := e.1.2.
Definition edge_hash (e : Edge) : SnapshotHash := e.2.

Definition IsReservedSeqScopedClockId (clock_id : ClockId) : bool := (64 <=? clock_id) && (clock_id <? 128).
Definition SeqScopedClockIdToGlobal (seq_id clock_id : Z) : ClockId := (seq_id .<< 32) .| clock_id.
Definition ClockIsSeqScoped (global_clock_id : ClockId) : bool := 0 <? global_clock_id .>> 32.

Record ClockValue := mkClockValue { clock_id : ClockId; absolute_timestamp : Z; cv_unit_multiplier_ns : Z; cv_is_incremental : bool }.
Record ClockSnapshots := mkSnapshots { snapshot_ids : list Z; timestamps_ns : list Z }.
Record ClockDomain := mkDomain { snapshots : gmap SnapshotHash ClockSnapshots; unit_multiplier_ns : Z; is_incremental : bool; last_timestamp_ns : Z }.
Definition ClockDomain_new : ClockDomain := mkDomain ∅ 1 false 0.
(** [src_domain] points to the domain of a clock; [None] is the null pointer. *)
Record CachedClockPath := mkCached { ce_src : ClockId; ce_target : ClockId; src_domain : option ClockId; min_ts_ns : Z; max_ts_ns : Z; translation_ns : Z }.
Definition CachedClockPath_new : CachedClockPath := mkCached 0 0 None 0 0 0.
Definition kCacheSize : nat := 2.
Record ClockPath := mkPath { path : list Edge; last_clock : ClockId }.
Definition len (p : ClockPath) : nat := length (path p).
Definition kMaxLen : nat := 4.
Definition valid (p : ClockPath) : bool := (0 <? len p)%nat.

(** [graph_] is a std::set, in the order of the tuples; the counters are the statistics. *)
Record ClockTracker := mkTracker {
  trace_time_clock_id_ : ClockId;
  clocks_ : gmap ClockId ClockDomain;
  graph_ : list Edge;
  non_monotonic_clocks_ : gset ClockId;
  cache_ : list CachedClockPath;
  cache_lookups_disabled_for_testing_ : bool;
  rnd_ : Z;
  cur_snapshot_id_ : Z;
  trace_time_clock_id_used_for_conversion_ : bool;
  invalid_clock_snapshots : Z;
  clock_sync_cache_miss : Z;
  clock_sync_failure : Z
}.
Definition BUILTIN_CLOCK_BOOTTIME : ClockId := 6.
Definition empty_cache : list CachedClockPath := replicate kCacheSize CachedClockPath_new.
Definition ClockTracker_new : ClockTracker := mkTracker BUILTIN_CLOCK_BOOTTIME ∅ [] ∅ empty_cache false 1 0 false 0 0 0.
Definition set_clocks (clocks : gmap ClockId ClockDomain) (t : ClockTracker) : ClockTracker :=
  mkTracker (trace_time_clock_id_ t) clocks (graph_ t) (non_monotonic_clocks_ t) (cache_ t) (cache_lookups_disabled_for_testing_ t) (rnd_ t) (cur_snapshot_id_ t)
    (trace_time_clock_id_used_for_conversion_ t) (invalid_clock_snapshots t) (clock_sync_cache_miss t) (clock_sync_failure t).
Definition set_graph (graph : list Edge) (non_monotonic : gset ClockId) (t : ClockTracker) : ClockTracker :=
  mkTracker (trace_time_clock_id_ t) (clocks_ t) graph non_monotonic (cache_ t) (cache_lookups_disabled_for_testing_ t) (rnd_ t) (cur_snapshot_id_ t)
    (trace_time_clock_id_used_for_conversion_ t) (invalid_clock_snapshots t) (clock_sync_cache_miss t) (clock_sync_failure t).
Definition set_cache (cache : list CachedClockPath) (rnd : Z) (t : ClockTracker) : ClockTracker :=
  mkTracker (trace_time_clock_id_ t) (clocks_ t) (graph_ t) (non_monotonic_clocks_ t) cache (cache_lookups_disabled_for_testing_ t) rnd (cur_snapshot_id_ t)
    (trace_time_clock_id_used_for_conversion_ t) (invalid_clock_snapshots t) (clock_sync_cache_miss t) (clock_sync_failure t).
Definition set_snapshot_id (id : Z) (t : ClockTracker) : ClockTracker :=
  mkTracker (trace_time_clock_id_ t) (clocks_ t) (graph_ t) (non_monotonic_clocks_ t) (cache_ t) (cache_lookups_disabled_for_testing_ t) (rnd_ t) id
    (trace_time_clock_id_used_for_conversion_ t) (invalid_clock_snapshots t) (clock_sync_cache_miss t) (clock_sync_failure t).
Definition set_trace_clock (id : ClockId) (used : bool) (t : ClockTracker) : ClockTracker :=
  mkTracker id (clocks_ t) (graph_ t) (non_monotonic_clocks_ t) (cache_ t) (cache_lookups_disabled_for_testing_ t) (rnd_ t) (cur_snapshot_id_ t)
    used (invalid_clock_snapshots t) (clock_sync_cache_miss t) (clock_sync_failure t).
Definition count_stats (invalid miss failure : Z) (t : ClockTracker) : ClockTracker :=
  mkTracker (trace_time_clock_id_ t) (clocks_ t) (graph_ t) (non_monotonic_clocks_ t) (cache_ t) (cache_lookups_disabled_for_testing_ t) (rnd_ t) (cur_snapshot_id_ t)
    (trace_time_clock_id_used_for_conversion_ t) (invalid_clock_snapshots t + invalid) (clock_sync_cache_miss t + miss) (clock_sync_failure t + failure).

(** ** The graph: an ordered set of edges *)

Definition edge_lt (x y : Edge) : bool :=
  (edge_src x <? edge_src y) || ((edge_src x =? edge_src y) && ((edge_target x <? edge_target y) || ((edge_target x =? edge_target y) && (edge_hash x <? edge_hash y)))).
(** std::set::emplace, lower_bound (what is behind it) and erase of a range. *)
Fixpoint graph_emplace (e : Edge) (g : list Edge) : list Edge :=
  match g with
  | [] => [e]
  | x :: g' => if edge_lt e x then e :: g else if edge_lt x e then x :: graph_emplace e g' else g
  end.
Fixpoint from_lower_bound (e : Edge) (g : list Edge) : list Edge :=
  match g with [] => [] | x :: g' => if edge_lt x e then from_lower_bound e g' else g end.
(** Erasing from an iterator to one before it is undefined. *)
Definition graph_erase (first last : Edge) (g : list Edge) : outcome (list Edge) :=
  let from := from_lower_bound first g in
  let until := from_lower_bound last g in
  check! (length until <=? length from)%nat in
  Ok (take (length g - length from) g ++ until).
(** The edges that start at a clock, as the loop of FindPath visits them. *)
Fixpoint while_src (c : ClockId) (g : list Edge) : list Edge :=
  match g with [] => [] | x :: g' => if edge_src x =? c then x :: while_src c g' else [] end.
Definition edges_from (c : ClockId) (g : list Edge) : list Edge := while_src c (from_lower_bound (c, 0, 0) g).

(** ** Adding a snapshot *)

(** The 64-bit ids are hashed in the order in which they are given. *)
Definition snapshot_hash_of (clocks : list ClockValue) : SnapshotHash :=
  u32 (fold_left (fun r c => FilterBytecode.Hash_Update (le_bytes 8 (clock_id c)) r) clocks FilterBytecode.kFnv1a64OffsetBasis).
(** One clock of the snapshot; whether to go on with the others. *)
Definition add_clock (snapshot_id : Z) (snapshot_hash : SnapshotHash) (c : ClockValue) (t : ClockTracker) : outcome (bool * ClockTracker) :=
  let id := clock_id c in
  let domain := default ClockDomain_new (clocks_ t !! id) in
  let rejected domain := Ok (false, count_stats 1 0 0 (set_clocks (<[id := domain]> (clocks_ t)) t)) in
  let first := bool_decide (snapshots domain = ∅) in
  if first && cv_is_incremental c && negb (ClockIsSeqScoped id) then rejected domain
  else if negb first && (negb (unit_multiplier_ns domain =? cv_unit_multiplier_ns c) || negb (eqb (is_incremental domain) (cv_is_incremental c))) then rejected domain
  else
    let unit_multiplier := if first then cv_unit_multiplier_ns c else unit_multiplier_ns domain in
    let incremental := if first then cv_is_incremental c else is_incremental domain in
    let timestamp_ns := s64 (absolute_timestamp c * unit_multiplier) in
    let vect := default (mkSnapshots [] []) (snapshots domain !! snapshot_hash) in
    let with_vect v := mkDomain (<[snapshot_hash := v]> (snapshots domain)) unit_multiplier incremental timestamp_ns in
    if bool_decide (last (snapshot_ids vect) = Some snapshot_id) then rejected (with_vect vect)
    else
      let backwards := match last (timestamps_ns vect) with Some prev => timestamp_ns <? prev | None => false end in
      if backwards && (id =? trace_time_clock_id_ t) then rejected (with_vect vect)
      else
        let! graph := if backwards then graph_erase (id, 0, 0) (u64 (id + 1), 0, 0) (graph_ t) else Ok (graph_ t) in
        let non_monotonic := if backwards then {[id]} ∪ non_monotonic_clocks_ t else non_monotonic_clocks_ t in
        let vect := mkSnapshots (snapshot_ids vect ++ [snapshot_id]) (timestamps_ns vect ++ [timestamp_ns]) in
        Ok (true, set_graph graph non_monotonic (set_clocks (<[id := with_vect vect]> (clocks_ t)) t)).
Fixpoint add_clocks (snapshot_id : Z) (snapshot_hash : SnapshotHash) (clocks : list ClockValue) (t : ClockTracker) : outcome (bool * ClockTracker) :=
  match clocks with
  | [] => Ok (true, t)
  | c :: clocks =>
      let! (go_on, t) := add_clock snapshot_id snapshot_hash c t in
      if go_on then add_clocks snapshot_id snapshot_hash clocks t else Ok (false, t)
  end.
(** The two edges of a pair of clocks, and all pairs. *)
Definition add_pair (snapshot_hash : SnapshotHash) (non_monotonic : gset ClockId) (a b : ClockId) (g : list Edge) : list Edge :=
  let g := if bool_decide (a ∈ non_monotonic) then g else graph_emplace (a, b, snapshot_hash) g in
  if bool_decide (b ∈ non_monotonic) then g else graph_emplace (b, a, snapshot_hash) g.
Fixpoint add_edges (snapshot_hash : SnapshotHash) (non_monotonic : gset ClockId) (ids : list ClockId) (g : list Edge) : list Edge :=
  match ids with
  | [] => g
  | a :: ids => add_edges snapshot_hash non_monotonic ids (fold_left (fun g b => add_pair snapshot_hash non_monotonic a b g) ids g)
  end.
Definition AddSnapshot (clocks : list ClockValue) (t : ClockTracker) : outcome (Z * ClockTracker) :=
  let snapshot_id := cur_snapshot_id_ t in
  let t := set_cache empty_cache (rnd_ t) (set_snapshot_id (u32 (snapshot_id + 1)) t) in
  let snapshot_hash := snapshot_hash_of clocks in
  let! (complete, t) := add_clocks snapshot_id snapshot_hash clocks t in
  if complete then Ok (snapshot_id, set_graph (add_edges snapshot_hash (non_monotonic_clocks_ t) (map clock_id clocks) (graph_ t)) (non_monotonic_clocks_ t) t)
  else Ok (snapshot_id, t).

(** ** Finding a path *)

Definition no_path : ClockPath := mkPath [] 0.
Definition extend_path (prefix : ClockPath) (e : Edge) : ClockPath := mkPath (path prefix ++ [(last_clock prefix, edge_target e, edge_hash e)]) (edge_target e).
(** The loop over the queue. *)
Fixpoint find_path_loop (fuel : nat) (g : list Edge) (target : ClockId) (queue : list ClockPath) : outcome ClockPath :=
  match fuel with
  | O => Crash
  | S fuel =>
      match queue with
      | [] => Ok no_path
      | cur_path :: queue =>
          if last_clock cur_path =? target then Ok cur_path
          else if (kMaxLen <=? len cur_path)%nat then find_path_loop fuel g target queue
          else find_path_loop fuel g target (queue ++ map (extend_path cur_path) (edges_from (last_clock cur_path) g))
      end
  end.
(** At most so many paths of up to four edges can be queued. *)
Definition path_budget (g : list Edge) : nat := let d := length g in S (1 + d + d * d + d * d * d + d * d * d * d).
Definition FindPath (src target : ClockId) (t : ClockTracker) : outcome ClockPath :=
  check! negb (src =? target) in
  match clocks_ t !! target, clocks_ t !! src with
  | Some _, Some _ => find_path_loop (path_budget (graph_ t)) (graph_ t) target [mkPath [] src]
  | _, _ => Ok no_path
  end.

(** ** Conversion *)

(** ToNs of a domain; an incremental clock adds to its last timestamp.  The products and
    sums are those of 64-bit integers. *)
Definition ToNs (timestamp : Z) (d : ClockDomain) : Z * ClockDomain :=
  if negb (is_incremental d) then (s64 (timestamp * unit_multiplier_ns d), d)
  else let last := s64 (last_timestamp_ns d + s64 (timestamp * unit_multiplier_ns d)) in (last, mkDomain (snapshots d) (unit_multiplier_ns d) (is_incremental d) last).
Definition clock_ToNs (c : ClockId) (timestamp : Z) (t : ClockTracker) : outcome (Z * ClockTracker) :=
  match clocks_ t !! c with
  | Some d => let '(ns, d) := ToNs timestamp d in Ok (ns, set_clocks (<[c := d]> (clocks_ t)) t)
  | None => Crash
  end.
Definition GetSnapshot (c : ClockId) (hash : SnapshotHash) (t : ClockTracker) : outcome ClockSnapshots :=
  match clocks_ t !! c with
  | Some d => match snapshots d !! hash with Some s => Ok s | None => Crash end
  | None => Crash
  end.
Definition kInt64Min : Z := - 2 ^ 63.
Definition kInt64Max : Z := 2 ^ 63 - 1.
(** One step of the path: the new time and what the cache would remember; [None] where the
    snapshot is not in the target's domain and the step is skipped. *)
Definition translate (e : Edge) (ns : Z) (t : ClockTracker) : outcome (option (Z * Z * Z)) :=
  let! cur_snap := GetSnapshot (edge_src e) (edge_hash e) t in
  let ts_vec := timestamps_ns cur_snap in
  let ub := upper_bound Z.ltb ts_vec ns in
  let it := if (ub =? 0)%nat then ub else (ub - 1)%nat in
  match snapshot_ids cur_snap !! it, ts_vec !! it with
  | Some snapshot_id, Some ts =>
      let! next_snap := GetSnapshot (edge_target e) (edge_hash e) t in
      let next_index := lower_bound Z.ltb (snapshot_ids next_snap) snapshot_id in
      if bool_decide (snapshot_ids next_snap !! next_index = Some snapshot_id) then
        match timestamps_ns next_snap !! next_index with
        | Some next_timestamp_ns =>
            let adj := s64 (next_timestamp_ns - ts) in
            Ok (Some ((if (it =? 0)%nat then kInt64Min else ts), default kInt64Max (ts_vec !! (it + 1)%nat), adj))
        | None => Crash
        end
      else Ok None
  | _, _ => Crash
  end.
Definition set_bounds (b : Z * Z * Z) (ce : CachedClockPath) : CachedClockPath :=
  let '(mn, mx, adj) := b in mkCached (ce_src ce) (ce_target ce) (src_domain ce) mn mx adj.
Fixpoint follow (edges : list Edge) (cacheable : bool) (ns : Z) (ce : CachedClockPath) (t : ClockTracker) : outcome (Z * CachedClockPath) :=
  match edges with
  | [] => Ok (ns, ce)
  | e :: edges =>
      let! r := translate e ns t in
      match r with
      | None => follow edges cacheable ns ce t
      | Some (mn, mx, adj) => follow edges cacheable (s64 (ns + adj)) (if cacheable then set_bounds (mn, mx, adj) ce else ce) t
      end
  end.
(** std::minstd_rand. *)
Definition minstd_rand (state : Z) : Z := (48271 * state) `mod` 2147483647.
Definition ConvertSlowpath (src_clock_id : ClockId) (src_timestamp : Z) (target_clock_id : ClockId) (t : ClockTracker) : outcome (option Z * ClockTracker) :=
  let t := count_stats 0 1 0 t in
  let! p := FindPath src_clock_id target_clock_id t in
  if negb (valid p) then Ok (None, count_stats 0 0 1 t)
  else
    let cacheable := (len p =? 1)%nat in
    let! (ns, t) := clock_ToNs src_clock_id src_timestamp t in
    let! (ns, ce) := follow (path p) cacheable ns CachedClockPath_new t in
    if cacheable then
      let ce := mkCached src_clock_id target_clock_id (Some src_clock_id) (min_ts_ns ce) (max_ts_ns ce) (translation_ns ce) in
      let rnd := minstd_rand (rnd_ t) in
      Ok (Some ns, set_cache (<[Z.to_nat (rnd `mod` Z.of_nat kCacheSize) := ce]> (cache_ t)) rnd t)
    else Ok (Some ns, t).
(** The loop over the cache; looking at an entry converts the timestamp in its domain. *)
Fixpoint cache_lookup (entries : list CachedClockPath) (src_clock_id : ClockId) (src_timestamp : Z) (target_clock_id : ClockId) (t : ClockTracker) : outcome (option Z * ClockTracker) :=
  match entries with
  | [] => Ok (None, t)
  | ce :: entries =>
      if negb (ce_src ce =? src_clock_id) || negb (ce_target ce =? target_clock_id) then cache_lookup entries src_clock_id src_timestamp target_clock_id t
      else
        match src_domain ce with
        | None => Crash
        | Some c =>
            let! (ns, t) := clock_ToNs c src_timestamp t in
            if (min_ts_ns ce <=? ns) && (ns <? max_ts_ns ce) then Ok (Some (s64 (ns + translation_ns ce)), t)
            else cache_lookup entries src_clock_id src_timestamp target_clock_id t
        end
  end.
Definition Convert (src_clock_id : ClockId) (src_timestamp : Z) (target_clock_id : ClockId) (t : ClockTracker) : outcome (option Z * ClockTracker) :=
  let! (hit, t) := if cache_lookups_disabled_for_testing_ t then Ok (None, t) else cache_lookup (cache_ t) src_clock_id src_timestamp target_clock_id t in
  match hit with Some ns => Ok (Some ns, t) | None => ConvertSlowpath src_clock_id src_timestamp target_clock_id t end.

Definition ToTraceTime (c : ClockId) (timestamp : Z) (t : ClockTracker) : outcome (option Z * ClockTracker) :=
  let t := set_trace_clock (trace_time_clock_id_ t) true t in
  if c =? trace_time_clock_id_ t then Ok (Some timestamp, t) else Convert c timestamp (trace_time_clock_id_ t) t.
Definition FromTraceTime (to_clock_id : ClockId) (timestamp : Z) (t : ClockTracker) : outcome (option Z * ClockTracker) :=
  let t := set_trace_clock (trace_time_clock_id_ t) true t in
  if to_clock_id =? trace_time_clock_id_ t then Ok (Some timestamp, t) else Convert (trace_time_clock_id_ t) timestamp to_clock_id t.
Definition SetTraceTimeClock (c : ClockId) (t : ClockTracker) : ClockTracker :=
  if trace_time_clock_id_used_for_conversion_ t && negb (trace_time_clock_id_ t =? c) then t
  else set_trace_clock c (trace_time_clock_id_used_for_conversion_ t) t.

(** ** What a client does *)

Inductive clock_op := SnapshotOp (clocks : list ClockValue) | ConvertOp (src : ClockId) (timestamp : Z) (target : ClockId) | ToTraceOp (c : ClockId) (timestamp : Z) | FromTraceOp (c : ClockId) (timestamp : Z) | SetTraceOp (c : ClockId).
Definition run_clock_op (o : clock_op) (t : ClockTracker) : outcome (option Z * ClockTracker) :=
  match o with
  | SnapshotOp clocks => let! (id, t) := AddSnapshot clocks t in Ok (Some id, t)
  | ConvertOp src ts target => Convert src ts target t
  | ToTraceOp c ts => ToTraceTime c ts t
  | FromTraceOp c ts => FromTraceTime c ts t
  | SetTraceOp c => Ok (None, SetTraceTimeClock c t)
  end.
Fixpoint run_clock_ops (ops : list clock_op) (t : ClockTracker) : outcome (list (option Z) * ClockTracker) :=
  match ops with
  | [] => Ok ([], t)
  | o :: ops => let! (r, t) := run_clock_op o t in let! (rs, t) := run_clock_ops ops t in Ok (r :: rs, t)
  end.
