(* ===== verification/ClockTrackerGraph.v ===== *)
(** * The graph of the clock tracker and its shortest paths

    The ordered set of edges, and that the breadth-first search of FindPath returns a shortest
    path of at most four edges whenever there is one. *)

From S2P Require Import Prelude StdAlgorithms ClockTracker.

(** ** The order of the edges *)

Lemma edge_lt_iff x y : edge_lt x y = true <-> edge_src x < edge_src y \/ (edge_src x = edge_src y /\ (edge_target x < edge_target y \/ (edge_target x = edge_target y /\ edge_hash x < edge_hash y))).
Proof. unfold edge_lt. rewrite !orb_true_iff, !andb_true_iff, !orb_true_iff, !andb_true_iff, !Z.ltb_lt, !Z.eqb_eq. done. Qed.
Definition edge_before (x y : Edge) : Prop := edge_lt x y = true.
#[export] Instance edge_before_trans : Transitive edge_before.
Proof. intros x y z. unfold edge_before. rewrite !edge_lt_iff. lia. Qed.
Lemma edge_trichotomy x y : edge_before x y \/ x = y \/ edge_before y x.
Proof.
  unfold edge_before. rewrite !edge_lt_iff. destruct x as [[a b] c], y as [[a' b'] c']. unfold edge_src, edge_target, edge_hash. cbn.
  destruct (Z.lt_trichotomy a a') as [|[->|]]; [lia| |lia]. destruct (Z.lt_trichotomy b b') as [|[->|]]; [lia| |lia]. destruct (Z.lt_trichotomy c c') as [|[->|]]; [lia|auto|lia].
Qed.
Definition edges_sorted (g : list Edge) : Prop := StronglySorted edge_before g.

Lemma graph_emplace_elem e g x : x ∈ graph_emplace e g -> x = e \/ x ∈ g.
Proof.
  induction g as [|y g IH]; cbn [graph_emplace]; [rewrite list_elem_of_singleton; auto|]. destruct (edge_lt e y); [rewrite elem_of_cons; auto|]. destruct (edge_lt y e); [|auto].
  rewrite !elem_of_cons. intros [->|Hx]; [auto|]. apply IH in Hx as [->|Hx]; auto.
Qed.
Lemma graph_emplace_keeps e g x : x ∈ g -> x ∈ graph_emplace e g.
Proof.
  induction g as [|y g IH]; cbn [graph_emplace]; [intros Hx; by apply not_elem_of_nil in Hx|]. intros Hx. destruct (edge_lt e y); [by right|]. destruct (edge_lt y e); [|done].
  apply elem_of_cons in Hx as [->|Hx]; [left|right; by apply IH].
Qed.
Lemma graph_emplace_in e g : e ∈ graph_emplace e g.
Proof.
  induction g as [|y g IH]; cbn [graph_emplace]; [left|]. destruct (edge_lt e y) eqn:E1; [left|]. destruct (edge_lt y e) eqn:E2; [by right|]. destruct (edge_trichotomy e y) as [H|[->|H]]; [unfold edge_before in H; congruence|left|unfold edge_before in H; congruence].
Qed.
Lemma graph_emplace_sorted e g : edges_sorted g -> edges_sorted (graph_emplace e g).
Proof.
  unfold edges_sorted. induction 1 as [|y g Hg IH Hy]; cbn [graph_emplace]; [repeat constructor|]. destruct (edge_lt e y) eqn:E1.
  - constructor; [by constructor|]. constructor; [done|]. eapply Forall_impl; [exact Hy|]. intros z Hz. by transitivity y.
  - destruct (edge_lt y e) eqn:E2; [|by constructor]. constructor; [done|]. rewrite Forall_forall in *. intros z Hz. apply graph_emplace_elem in Hz as [->|Hz]; [done|by apply Hy].
Qed.
(** A sorted list is split where an edge is not before the bound. *)
Lemma lower_bound_split e g : edges_sorted g -> exists low, g = low ++ from_lower_bound e g /\ Forall (fun x => edge_lt x e = true) low /\ Forall (fun x => edge_lt x e = false) (from_lower_bound e g).
Proof.
  unfold edges_sorted. induction 1 as [|y g Hg IH Hy]; cbn [from_lower_bound]; [by exists []|]. destruct (edge_lt y e) eqn:E.
  - destruct IH as (low & Eg & Hl & Hr). exists (y :: low). split; [cbn; by f_equal|]. split; [by constructor|done].
  - exists []. split; [done|]. split; [done|]. constructor; [done|]. eapply Forall_impl; [exact Hy|]. intros z Hz. apply not_true_iff_false. intros Hze. apply not_true_iff_false in E. apply E. by apply (edge_before_trans y z e).
Qed.
Definition edge_nonneg (e : Edge) : Prop := 0 <= edge_src e /\ 0 <= edge_target e /\ 0 <= edge_hash e.
Lemma while_src_spec c g : edges_sorted g -> (forall e, e ∈ g -> c <= edge_src e) -> forall e, e ∈ while_src c g <-> e ∈ g /\ edge_src e = c.
Proof.
  intros Hs Hge e. induction Hs as [|y g Hg IH Hy]; cbn [while_src]; [split; [intros H; by apply not_elem_of_nil in H|intros [H _]; by apply not_elem_of_nil in H]|]. destruct (Z.eqb_spec (edge_src y) c) as [Ey|Ey].
  - rewrite !elem_of_cons, IH by (intros e' He'; apply Hge; by right). split; [intros [->|[? ?]]; auto|intros [[->|?] ?]; auto].
  - split; [intros H; by apply not_elem_of_nil in H|]. intros [He Ee]. exfalso. assert (c < edge_src y) by (pose proof (Hge y ltac:(left)); lia). apply elem_of_cons in He as [->|He]; [lia|]. rewrite Forall_forall in Hy. specialize (Hy e He). unfold edge_before in Hy. rewrite edge_lt_iff in Hy. lia.
Qed.
Lemma edges_from_spec c g e : edges_sorted g -> Forall edge_nonneg g -> e ∈ edges_from c g <-> e ∈ g /\ edge_src e = c.
Proof.
  intros Hs Hnn. unfold edges_from. destruct (lower_bound_split (c, 0, 0) g Hs) as (low & Eg & Hl & Hr). set (r := from_lower_bound (c, 0, 0) g) in *. rewrite Forall_forall in Hl, Hr, Hnn.
  assert (Hrs : edges_sorted r) by (unfold edges_sorted in *; rewrite Eg in Hs; by apply StronglySorted_app in Hs as (_ & _ & Hs)).
  rewrite while_src_spec; [|done|].
  - rewrite Eg, elem_of_app. split; [intros [? ?]; auto|]. intros [[He|He] Ee]; [|done]. exfalso. specialize (Hl e He). rewrite edge_lt_iff in Hl. destruct (Hnn e) as (H1 & H2 & H3); [rewrite Eg; apply elem_of_app; by left|]. unfold edge_src, edge_target, edge_hash in *. cbn in *. lia.
  - intros x Hx. specialize (Hr x Hx). apply not_true_iff_false in Hr. rewrite edge_lt_iff in Hr. unfold edge_src, edge_target, edge_hash in *. cbn in *. lia.
Qed.
Lemma edges_from_length c g : edges_sorted g -> (length (edges_from c g) <= length g)%nat.
Proof.
  intros Hs. unfold edges_from. destruct (lower_bound_split (c, 0, 0) g Hs) as (low & Eg & _). rewrite Eg at 2. rewrite length_app. generalize (from_lower_bound (c, 0, 0) g). intros r. assert (length (while_src c r) <= length r)%nat; [|lia].
  induction r as [|y r IH]; cbn; [done|]. destruct (_ =? _); cbn; lia.
Qed.
(** Erasing the edges of a clock. *)
Lemma graph_erase_spec c g : edges_sorted g -> Forall edge_nonneg g -> 0 <= c -> c + 1 < 2 ^ 64 -> exists g', graph_erase (c, 0, 0) (u64 (c + 1), 0, 0) g = Ok g' /\ edges_sorted g' /\ forall e, e ∈ g' <-> e ∈ g /\ edge_src e <> c.
Proof.
  intros Hs Hnn Hc Hc1. rewrite u64_small by lia. unfold graph_erase. destruct (lower_bound_split (c, 0, 0) g Hs) as (low & Eg & Hl & Hr). destruct (lower_bound_split (c + 1, 0, 0) g Hs) as (low' & Eg' & Hl' & Hr').
  set (r := from_lower_bound (c, 0, 0) g) in *. set (r' := from_lower_bound (c + 1, 0, 0) g) in *. rewrite Forall_forall in Hl, Hr, Hl', Hr', Hnn.
  assert (Hlt : forall e, e ∈ g -> (edge_lt e (c, 0, 0) = true <-> edge_src e < c) /\ (edge_lt e (c + 1, 0, 0) = true <-> edge_src e <= c)).
  { intros e He. destruct (Hnn e He) as (H1 & H2 & H3). rewrite !edge_lt_iff. unfold edge_src, edge_target, edge_hash in *. cbn in *. lia. }
  assert (Hlow : (length low <= length low')%nat).
  { destruct (Nat.le_gt_cases (length low) (length low')) as [|Hgt]; [done|]. exfalso. destruct (lookup_lt_is_Some_2 low (length low') Hgt) as [e He]. assert (Hg1 : g !! length low' = Some e) by (rewrite Eg; by apply lookup_app_l_Some). rewrite Eg', lookup_app_r, Nat.sub_diag in Hg1 by lia.
    assert (Hin : e ∈ g) by (rewrite Eg; apply elem_of_app; left; by eapply list_elem_of_lookup_2). destruct (Hlt e Hin) as [Ha Hb]. assert (Hlt1 : edge_src e < c) by (apply Ha, Hl; by eapply list_elem_of_lookup_2). assert (Hx : edge_lt e (c + 1, 0, 0) = true) by (apply Hb; lia). rewrite Hr' in Hx by (by eapply list_elem_of_lookup_2). done. }
  assert (El : length g = (length low + length r)%nat) by (rewrite Eg at 1; apply length_app). assert (El' : length g = (length low' + length r')%nat) by (rewrite Eg' at 1; apply length_app).
  unfold perfetto_check. destruct (Nat.leb_spec (length r') (length r)); [|lia]. cbn [obind]. exists (low ++ r'). split; [replace (length g - length r)%nat with (length low) by lia; do 2 f_equal; rewrite Eg; apply take_app_length|].
  assert (Hmem : forall e, e ∈ low ++ r' <-> e ∈ g /\ edge_src e <> c).
  { intros e. rewrite elem_of_app. split.
    - intros [He|He]; (assert (Hin : e ∈ g) by (first [rewrite Eg; apply elem_of_app; by left|rewrite Eg'; apply elem_of_app; by right])); destruct (Hlt e Hin) as [Ha Hb]; (split; [done|]).
      + assert (edge_src e < c) by (by apply Ha, Hl). lia.
      + intros E. assert (Hx : edge_lt e (c + 1, 0, 0) = true) by (apply Hb; lia). rewrite Hr' in Hx by done. done.
    - intros [Hin Hne]. destruct (Hlt e Hin) as [Ha Hb]. destruct (Z.lt_ge_cases (edge_src e) c) as [Hx|Hx].
      + left. rewrite Eg in Hin. apply elem_of_app in Hin as [|Hin]; [done|]. assert (Hx' : edge_lt e (c, 0, 0) = true) by (by apply Ha). rewrite Hr in Hx' by done. done.
      + right. rewrite Eg' in Hin. apply elem_of_app in Hin as [Hin|]; [|done]. assert (edge_src e <= c) by (by apply Hb, Hl'). lia. }
  split; [|done]. unfold edges_sorted in *. apply StronglySorted_app. split; [|split].
  - intros x y Hx Hy. assert (Hxg : x ∈ g) by (rewrite Eg; apply elem_of_app; by left). assert (Hyg : y ∈ g) by (rewrite Eg'; apply elem_of_app; by right). destruct (Hlt x Hxg) as [Ha _]. destruct (Hlt y Hyg) as [_ Hb]. assert (edge_src x < c) by (by apply Ha, Hl). assert (c < edge_src y).
    { apply Z.nle_gt. intros Hle. assert (Hx' : edge_lt y (c + 1, 0, 0) = true) by (by apply Hb). rewrite Hr' in Hx' by done. done. }
    unfold edge_before. rewrite edge_lt_iff. lia.
  - rewrite Eg in Hs. by apply StronglySorted_app in Hs as (_ & Hs & _).
  - rewrite Eg' in Hs. by apply StronglySorted_app in Hs as (_ & _ & Hs).
Qed.

(** ** Breadth-first search *)

(** The steps of a path: each starts where the one before ended. *)
Fixpoint is_path (g : list Edge) (src : ClockId) (es : list Edge) (target : ClockId) : Prop :=
  match es with
  | [] => src = target
  | e :: es => e ∈ g /\ edge_src e = src /\ is_path g (edge_target e) es target
  end.
Lemma is_path_snoc g src es e target : is_path g src (es ++ [e]) target <-> exists mid, is_path g src es mid /\ e ∈ g /\ edge_src e = mid /\ edge_target e = target.
Proof.
  revert src. induction es as [|x es IH]; intros src; cbn [app is_path].
  - split; [intros (H1 & H2 & H3); by exists src|intros (mid & -> & H1 & H2 & H3); done].
  - setoid_rewrite IH. split; [intros (H1 & H2 & mid & H3); exists mid; tauto|intros (mid & (H1 & H2 & H3) & H4); split_and!; [done..|by exists mid]].
Qed.

Section search.
Context (g : list Edge) (target : ClockId).
Definition extensions (p : ClockPath) : list ClockPath := map (extend_path p) (edges_from (last_clock p) g).
Definition next_level (ps : list ClockPath) : list ClockPath := concat (map extensions ps).
Definition find_target (ps : list ClockPath) : option ClockPath := snd <$> list_find (fun p => last_clock p = target) ps.
(** Level by level, [k] more levels. *)
Fixpoint level_search (k : nat) (ps : list ClockPath) : option ClockPath :=
  match find_target ps with
  | Some p => Some p
  | None => match k with O => None | S k => level_search k (next_level ps) end
  end.
(** The paths that a search of [k] levels takes from the queue. *)
Fixpoint weight (k : nat) : nat := match k with O => 1 | S k => (1 + length g * weight k)%nat end.
Definition weight_all (k : nat) (ps : list ClockPath) : nat := (length ps * weight k)%nat.
Lemma weight_pos k : (0 < weight k)%nat.
Proof. destruct k; cbn; lia. Qed.
Lemma find_target_cons p ps : find_target (p :: ps) = if decide (last_clock p = target) then Some p else find_target ps.
Proof. unfold find_target. cbn. destruct (decide (last_clock p = target)); [done|]. by destruct (list_find _ ps) as [[i q]|]. Qed.
Lemma find_target_app a b : find_target (a ++ b) = match find_target a with Some p => Some p | None => find_target b end.
Proof. induction a as [|p a IH]; [done|]. cbn [app]. rewrite !find_target_cons. by case_decide. Qed.
Lemma level_search_nil k : level_search k [] = None.
Proof. induction k as [|k IH]; [done|exact IH]. Qed.
Lemma extensions_len p n : len p = n -> Forall (fun q => len q = S n) (extensions p).
Proof. intros <-. unfold extensions. apply Forall_forall. intros q Hq. apply list_elem_of_In, in_map_iff in Hq as (e & <- & _). unfold len, extend_path. cbn. rewrite length_app. cbn. lia. Qed.
(** The result of the loop on a queue with the rest of a level and part of the next one. *)
Definition queue_result (k : nat) (level next : list ClockPath) : option ClockPath :=
  match find_target level with
  | Some p => Some p
  | None => match k with O => None | S k => level_search k (next ++ next_level level) end
  end.
Lemma find_path_loop_spec : edges_sorted g -> forall fuel k n level next, (n + k = kMaxLen)%nat -> (k = O -> next = []) -> Forall (fun p => len p = n) level -> Forall (fun p => len p = S n) next ->
  (weight_all k level + weight_all (Nat.pred k) next < fuel)%nat -> find_path_loop fuel g target (level ++ next) = Ok (default no_path (queue_result k level next)).
Proof.
  intros Hs. induction fuel as [|fuel IH]; intros k n level next Hn Hk Hl Hx Hf; [lia|].
  assert (Hstep : forall k n p level next, (n + k = kMaxLen)%nat -> (k = O -> next = []) -> Forall (fun p => len p = n) (p :: level) -> Forall (fun p => len p = S n) next -> (weight_all k (p :: level) + weight_all (Nat.pred k) next < S fuel)%nat ->
    find_path_loop (S fuel) g target (p :: level ++ next) = Ok (default no_path (queue_result k (p :: level) next))).
  { clear k n level next Hn Hk Hl Hx Hf. intros k n p level next Hn Hk Hl Hx Hf. apply Forall_cons in Hl as [Hp Hl]. cbn [find_path_loop]. unfold queue_result. rewrite find_target_cons. destruct (Z.eqb_spec (last_clock p) target) as [E|E]; [by rewrite decide_True|]. rewrite decide_False by done. rewrite Hp.
    unfold weight_all in Hf. cbn [length Nat.mul] in Hf. pose proof (weight_pos k). destruct k as [|k].
    - rewrite (Hk eq_refl) in *. rewrite Nat.add_0_r in Hn. subst n. rewrite Nat.leb_refl. rewrite (IH O kMaxLen level []); [done|done|done|done|done|]. unfold weight_all. cbn in *. lia.
    - unfold kMaxLen in *. destruct (Nat.leb_spec 4 n); [lia|]. rewrite <- app_assoc. change (map (extend_path p) (edges_from (last_clock p) g)) with (extensions p). pose proof (edges_from_length (last_clock p) g Hs) as Hd.
      rewrite (IH (S k) n level (next ++ extensions p)); [|done|done|done|apply Forall_app; split; [done|by apply extensions_len]|].
      + unfold queue_result. destruct (find_target level); [done|]. do 3 f_equal. rewrite <- app_assoc. done.
      + unfold weight_all in *. cbn [Nat.pred] in *. rewrite length_app. unfold extensions. rewrite length_map. cbn [weight] in *. nia. }
  destruct level as [|p level]; [|by apply (Hstep k n)]. cbn [app]. destruct k as [|k]; [rewrite (Hk eq_refl); done|]. destruct next as [|p next]; [unfold queue_result; change (find_target []) with (@None ClockPath); cbn [app]; change (next_level []) with (@nil ClockPath); by rewrite level_search_nil|].
  rewrite <- (app_nil_r next). rewrite (Hstep k (S n) p next []); [|lia|done|done|done|unfold weight_all in *; cbn [Nat.pred length Nat.mul] in *; lia].
  unfold queue_result. change (find_target []) with (@None ClockPath). change (next_level []) with (@nil ClockPath). cbn [app]. rewrite !app_nil_r. destruct k as [|k]; cbn [level_search]; by destruct (find_target (p :: next)).
Qed.

(** Level [n] has exactly the paths of [n] edges. *)
Fixpoint nth_level (n : nat) (src : ClockId) : list ClockPath := match n with O => [mkPath [] src] | S n => next_level (nth_level n src) end.
Lemma nth_level_spec n src p : edges_sorted g -> Forall edge_nonneg g -> p ∈ nth_level n src <-> len p = n /\ is_path g src (path p) (last_clock p).
Proof.
  intros Hs Hnn. revert p. induction n as [|n IH]; intros p; cbn [nth_level].
  - rewrite list_elem_of_singleton. split; [by intros ->|]. destruct p as [es c]. unfold len. cbn. intros [Hl Hp]. destruct es; [|done]. by rewrite Hp.
  - unfold next_level. rewrite list_elem_of_In, in_concat. setoid_rewrite in_map_iff. split.
    + intros (qs & (q & <- & Hq) & Hp). apply list_elem_of_In, IH in Hq as [Hl Hq]. apply in_map_iff in Hp as (e & <- & He). apply list_elem_of_In, edges_from_spec in He as [He Ee]; [|done..]. unfold len, extend_path in *. cbn. rewrite length_app. cbn. split; [lia|].
      apply is_path_snoc. exists (last_clock q). split; [done|]. replace (last_clock q, edge_target e, edge_hash e) with e; [done|]. rewrite <- Ee. by destruct e as [[a b] c].
    + destruct p as [es c]. unfold len. cbn. intros [Hl Hp]. destruct (exists_last (l := es)) as (es' & e & ->); [by destruct es|]. rewrite length_app in Hl. cbn in Hl. apply is_path_snoc in Hp as (mid & Hp & He & Ee & <-). exists (extensions (mkPath es' mid)). split.
      * exists (mkPath es' mid). split; [done|]. apply list_elem_of_In, IH. split; [unfold len; cbn; lia|done].
      * apply in_map_iff. exists e. split; [|apply list_elem_of_In, edges_from_spec; done]. unfold extend_path. cbn. f_equal. f_equal. f_equal. subst mid. by destruct e as [[a b] c].
Qed.
Lemma level_search_spec k n src : match level_search k (nth_level n src) with
  | Some p => exists m, (n <= m <= n + k)%nat /\ p ∈ nth_level m src /\ last_clock p = target /\ forall j q, (n <= j < m)%nat -> q ∈ nth_level j src -> last_clock q <> target
  | None => forall j q, (n <= j <= n + k)%nat -> q ∈ nth_level j src -> last_clock q <> target
  end.
Proof.
  assert (Hnone : forall n, find_target (nth_level n src) = None -> forall q, q ∈ nth_level n src -> last_clock q <> target).
  { intros m E. unfold find_target in E. apply fmap_None, list_find_None in E. by rewrite Forall_forall in E. }
  revert n. induction k as [|k IH]; intros n; cbn [level_search]; (destruct (find_target (nth_level n src)) as [p|] eqn:E; [apply fmap_Some in E as ([i q] & E & ->); apply list_find_Some in E as (Hi & Hq & _); exists n; split; [lia|]; split; [by eapply list_elem_of_lookup_2|]; split; [done|]; lia|]).
  - intros j q Hj. replace j with n by lia. by apply Hnone.
  - change (next_level (nth_level n src)) with (nth_level (S n) src). specialize (IH (S n)). destruct (level_search k (nth_level (S n) src)) as [p|].
    + destruct IH as (m & Hm & Hp & Ht & Hmin). exists m. split; [lia|]. split; [done|]. split; [done|]. intros j q Hj. destruct (decide (j = n)) as [->|]; [by apply Hnone|]. apply Hmin. lia.
    + intros j q Hj. destruct (decide (j = n)) as [->|]; [by apply Hnone|]. apply IH. lia.
Qed.
Lemma find_path_loop_correct src : edges_sorted g -> Forall edge_nonneg g -> src <> target -> exists p, find_path_loop (path_budget g) g target [mkPath [] src] = Ok p /\
  if valid p then is_path g src (path p) target /\ (len p <= kMaxLen)%nat /\ forall es, is_path g src es target -> (len p <= length es)%nat
  else forall es, is_path g src es target -> (kMaxLen < length es)%nat.
Proof.
  intros Hs Hnn Hne. eexists. split.
  - change [mkPath [] src] with ([mkPath [] src] ++ []). apply (find_path_loop_spec Hs _ kMaxLen 0); [done|done|by apply Forall_singleton|done|]. unfold weight_all, path_budget, kMaxLen. cbn [length weight Nat.pred Nat.mul]. nia.
  - unfold queue_result. change (find_target [mkPath [] src]) with (find_target (nth_level 0 src)). assert (E : (match find_target (nth_level 0 src) with Some p => Some p | None => match kMaxLen with O => None | S k => level_search k ([] ++ next_level [mkPath [] src]) end end) = level_search kMaxLen (nth_level 0 src)) by done.
    rewrite E. pose proof (level_search_spec kMaxLen 0 src) as Hl. destruct (level_search kMaxLen (nth_level 0 src)) as [p|].
    + change (default no_path (Some p)) with p. destruct Hl as (m & Hm & Hp & Ht & Hmin). apply nth_level_spec in Hp as [Hlen Hp]; [|done..]. rewrite Ht in Hp. assert (Hv : valid p = true) by (unfold valid; apply Nat.ltb_lt; destruct (path p) eqn:Epath; [cbn in Hp; congruence|unfold len; rewrite Epath; cbn; lia]).
      rewrite Hv. split; [done|]. split; [lia|]. intros es Hes. destruct (Nat.le_gt_cases (len p) (length es)) as [|Hgt]; [done|]. exfalso. apply (Hmin (length es) (mkPath es target)); [lia| |done]. apply nth_level_spec; done.
    + cbn. intros es Hes. destruct (Nat.le_gt_cases (length es) kMaxLen) as [Hle|]; [|done]. exfalso. apply (Hl (length es) (mkPath es target)); [lia| |done]. apply nth_level_spec; done.
Qed.
End search.
