(* ===== verification/ClockTrackerCorrect.v ===== *)
(** * Snapshots and conversions of the clock tracker

    The invariant of the tracker, what a snapshot records, and what a conversion computes
    from the recorded snapshots, with and without the cache. *)

From S2P Require Import Prelude StdAlgorithms ClockTracker ClockTrackerGraph.

(** ** The invariant *)

Definition has_hash (t : ClockTracker) (c : ClockId) (h : SnapshotHash) : Prop := exists d s, clocks_ t !! c = Some d /\ snapshots d !! h = Some s.
Record snapshots_ok (cur : Z) (monotonic : Prop) (s : ClockSnapshots) : Prop := {
  so_length : length (snapshot_ids s) = length (timestamps_ns s);
  so_nonempty : snapshot_ids s <> [];
  so_ids : StronglySorted Z.lt (snapshot_ids s);
  so_ids_bound : Forall (fun i => i < cur) (snapshot_ids s);
  so_sorted : monotonic -> StronglySorted Z.le (timestamps_ns s)
}.
Lemma snapshots_ok_impl cur (P Q : Prop) s : (Q -> P) -> snapshots_ok cur P s -> snapshots_ok cur Q s.
Proof. intros HQ []. split; auto. Qed.
Definition edge_ok (t : ClockTracker) (e : Edge) : Prop :=
  edge_nonneg e /\ edge_src e <> edge_target e /\ (edge_src e ∉ non_monotonic_clocks_ t) /\ has_hash t (edge_src e) (edge_hash e) /\ has_hash t (edge_target e) (edge_hash e).
Record tracker_ok (t : ClockTracker) : Prop := {
  to_sorted : edges_sorted (graph_ t);
  to_edges : Forall (edge_ok t) (graph_ t);
  to_domains : forall c d h s, clocks_ t !! c = Some d -> snapshots d !! h = Some s -> snapshots_ok (cur_snapshot_id_ t) (c ∉ non_monotonic_clocks_ t) s
}.
Lemma to_nonneg t : tracker_ok t -> Forall edge_nonneg (graph_ t).
Proof. intros H. eapply Forall_impl; [exact (to_edges _ H)|]. intros e He. apply He. Qed.
Lemma new_tracker_ok : tracker_ok ClockTracker_new.
Proof. split; [constructor|constructor|]. intros c d h s Hc. cbn in Hc. by rewrite lookup_empty in Hc. Qed.

Lemma sorted_snoc {A} (R : A -> A -> Prop) `{!Transitive R} l x : StronglySorted R l -> (forall y, last l = Some y -> R y x) -> StronglySorted R (l ++ [x]).
Proof.
  intros Hs Hl. apply StronglySorted_app. split; [|split; [done|repeat constructor]]. intros y z Hy Hz. apply list_elem_of_singleton in Hz as ->. destruct l as [|y' l' _] using rev_ind; [by apply not_elem_of_nil in Hy|].
  rewrite last_snoc in Hl. specialize (Hl y' eq_refl). apply elem_of_app in Hy as [Hy|Hy]; [|by apply list_elem_of_singleton in Hy as ->]. apply StronglySorted_app in Hs as (H & _ & _). transitivity y'; [|done]. apply H; [done|]. by apply list_elem_of_singleton.
Qed.

(** ** One clock of a snapshot *)

(** What the loop body leaves alone. *)
Record same_frame (t t' : ClockTracker) : Prop := {
  sf_trace : trace_time_clock_id_ t' = trace_time_clock_id_ t;
  sf_cache : cache_ t' = cache_ t;
  sf_disabled : cache_lookups_disabled_for_testing_ t' = cache_lookups_disabled_for_testing_ t;
  sf_rnd : rnd_ t' = rnd_ t;
  sf_cur : cur_snapshot_id_ t' = cur_snapshot_id_ t;
  sf_used : trace_time_clock_id_used_for_conversion_ t' = trace_time_clock_id_used_for_conversion_ t;
  sf_miss : clock_sync_cache_miss t' = clock_sync_cache_miss t;
  sf_failure : clock_sync_failure t' = clock_sync_failure t
}.
Lemma clock_frame_refl t : same_frame t t.
Proof. by split. Qed.
Lemma clock_frame_trans t1 t2 t3 : same_frame t1 t2 -> same_frame t2 t3 -> same_frame t1 t3.
Proof. intros [] []. split; congruence. Qed.
Definition domain_of (t : ClockTracker) (c : ClockId) : ClockDomain := default ClockDomain_new (clocks_ t !! c).
Lemma domain_of_snapshots t c h s : snapshots (domain_of t c) !! h = Some s -> exists d, clocks_ t !! c = Some d /\ snapshots d !! h = Some s.
Proof. unfold domain_of. destruct (clocks_ t !! c) as [d|]; [by exists d|]. cbn. by rewrite lookup_empty. Qed.
Definition vect_of (t : ClockTracker) (c : ClockId) (h : SnapshotHash) : ClockSnapshots := default (mkSnapshots [] []) (snapshots (domain_of t c) !! h).
Definition cv_timestamp_ns (c : ClockValue) : Z := s64 (absolute_timestamp c * cv_unit_multiplier_ns c).
(** The recorded snapshots of an accepted clock. *)
Record clock_recorded (sid : Z) (h : SnapshotHash) (c : ClockValue) (t t' : ClockTracker) : Prop := {
  cr_fresh : last (snapshot_ids (vect_of t (clock_id c) h)) <> Some sid;
  cr_domain : exists d, clocks_ t' !! clock_id c = Some d /\ unit_multiplier_ns d = cv_unit_multiplier_ns c /\ is_incremental d = cv_is_incremental c /\
    snapshots d = <[h := mkSnapshots (snapshot_ids (vect_of t (clock_id c) h) ++ [sid]) (timestamps_ns (vect_of t (clock_id c) h) ++ [cv_timestamp_ns c])]> (snapshots (domain_of t (clock_id c)));
  cr_others : forall c', c' <> clock_id c -> clocks_ t' !! c' = clocks_ t !! c';
  cr_stats : invalid_clock_snapshots t' = invalid_clock_snapshots t
}.
Definition clock_ok (c : ClockValue) : Prop := 0 <= clock_id c < 2 ^ 64 - 1.

Lemma vect_snapshots_ok t c h : tracker_ok t -> vect_of t c h = mkSnapshots [] [] \/ snapshots_ok (cur_snapshot_id_ t) (c ∉ non_monotonic_clocks_ t) (vect_of t c h).
Proof.
  intros H. unfold vect_of, domain_of. destruct (clocks_ t !! c) as [d|] eqn:Ec; cbn; [|left; by rewrite lookup_empty]. destruct (snapshots d !! h) as [s|] eqn:Es; cbn; [|by left]. right. by apply (to_domains _ H c d h).
Qed.
(** Replacing a domain by one with at least its snapshots keeps the edges. *)
Lemma has_hash_insert t c d c' h : (forall s, snapshots (domain_of t c) !! h = Some s -> exists s', snapshots d !! h = Some s') -> has_hash t c' h -> has_hash (set_clocks (<[c := d]> (clocks_ t)) t) c' h.
Proof.
  intros Hd (d' & s & Hc & Hs). unfold has_hash. cbn. destruct (decide (c' = c)) as [->|Hne].
  - destruct (Hd s) as [s' Hs']; [unfold domain_of; by rewrite Hc|]. exists d, s'. by rewrite lookup_insert_eq.
  - exists d', s. by rewrite lookup_insert_ne.
Qed.
Lemma domain_of_insert t c d c' : domain_of (set_clocks (<[c := d]> (clocks_ t)) t) c' = if decide (c' = c) then d else domain_of t c'.
Proof. unfold domain_of. cbn. case_decide as E; [subst; by rewrite lookup_insert_eq|by rewrite lookup_insert_ne]. Qed.
(** A rejected clock leaves the snapshots alone. *)
Lemma reject_ok t c d : tracker_ok t -> snapshots d = snapshots (domain_of t c) -> tracker_ok (count_stats 1 0 0 (set_clocks (<[c := d]> (clocks_ t)) t)).
Proof.
  intros H Hd. split; cbn [count_stats set_clocks graph_ clocks_ non_monotonic_clocks_ cur_snapshot_id_].
  - apply (to_sorted _ H).
  - eapply Forall_impl; [exact (to_edges _ H)|]. intros e (H1 & H2 & H3 & H4 & H5). split; [done|]. split; [done|]. split; [done|]. split; (apply (has_hash_insert t c d); [|done]); intros s Hs; rewrite Hd; by exists s.
  - intros c' d' h s. destruct (decide (c' = c)) as [->|Hne].
    + rewrite lookup_insert_eq. intros [= <-] Hs. rewrite Hd in Hs. unfold domain_of in Hs. destruct (clocks_ t !! c) as [d0|] eqn:Ec; cbn in Hs; [by apply (to_domains _ H c d0 h)|by rewrite lookup_empty in Hs].
    + rewrite lookup_insert_ne by done. apply (to_domains _ H).
Qed.

(** The frame of a rejected clock. *)
Definition rejected_to (t t' : ClockTracker) : Prop := tracker_ok t' /\ same_frame t t' /\ invalid_clock_snapshots t' = invalid_clock_snapshots t + 1.
Lemma rejected_spec t c d : tracker_ok t -> snapshots d = snapshots (domain_of t c) -> rejected_to t (count_stats 1 0 0 (set_clocks (<[c := d]> (clocks_ t)) t)).
Proof. intros H Hd. split; [by apply reject_ok|]. split; [split; cbn; (done || lia)|done]. Qed.
Lemma with_vect_same t c h s : snapshots (domain_of t c) !! h = Some s -> <[h := vect_of t c h]> (snapshots (domain_of t c)) = snapshots (domain_of t c).
Proof. intros Hs. unfold vect_of. rewrite Hs. by apply insert_id. Qed.
(** An accepted one. *)
Lemma accept_ok t c d h sid ts graph nm : tracker_ok t -> 0 <= c -> 0 <= h -> sid < cur_snapshot_id_ t -> Forall (fun i => i < sid) (snapshot_ids (vect_of t c h)) ->
  snapshots d = <[h := mkSnapshots (snapshot_ids (vect_of t c h) ++ [sid]) (timestamps_ns (vect_of t c h) ++ [ts])]> (snapshots (domain_of t c)) ->
  edges_sorted graph -> (forall e, e ∈ graph -> e ∈ graph_ t /\ edge_src e ∉ nm) -> non_monotonic_clocks_ t ⊆ nm ->
  (c ∉ nm -> forall prev, last (timestamps_ns (vect_of t c h)) = Some prev -> prev <= ts) ->
  tracker_ok (set_graph graph nm (set_clocks (<[c := d]> (clocks_ t)) t)).
Proof.
  intros H Hc Hh Hsid Hids Hd Hg Hgraph Hnm Hmono. split; cbn [set_graph set_clocks graph_ clocks_ non_monotonic_clocks_ cur_snapshot_id_].
  - done.
  - apply Forall_forall. intros e He. destruct (Hgraph e He) as [He' Hns]. pose proof (to_edges _ H) as Hes. rewrite Forall_forall in Hes. destruct (Hes e He') as (H1 & H2 & H3 & H4 & H5). split; [done|]. split; [done|]. split; [done|].
    assert (Hk : forall s, snapshots (domain_of t c) !! (edge_hash e) = Some s -> exists s', snapshots d !! (edge_hash e) = Some s').
    { intros s Hs. rewrite Hd. destruct (decide (h = edge_hash e)) as [->|]; [rewrite lookup_insert_eq; by eexists|rewrite lookup_insert_ne by done; by eexists]. }
    split; (apply (has_hash_insert t c d) in H4; [|done]); (apply (has_hash_insert t c d) in H5; [|done]); done.
  - intros c' d' h' s. destruct (decide (c' = c)) as [->|Hne].
    + rewrite lookup_insert_eq. intros [= <-]. rewrite Hd. destruct (decide (h' = h)) as [->|Hh'].
      * rewrite lookup_insert_eq. intros [= <-]. destruct (vect_snapshots_ok t c h H) as [E|Hv].
        -- rewrite E. cbn. split; cbn; [done|done|repeat constructor|repeat constructor; lia|intros _; repeat constructor].
        -- split; cbn [snapshot_ids timestamps_ns].
           ++ rewrite !length_app, (so_length _ _ _ Hv). done.
           ++ by intros [? ?]%app_eq_nil.
           ++ apply sorted_snoc; [exact _|apply Hv|]. intros y Hy. rewrite Forall_forall in Hids. apply Hids. rewrite last_lookup in Hy. by eapply list_elem_of_lookup_2.
           ++ apply Forall_app. split; [apply Hv|by apply Forall_singleton].
           ++ intros Hn. apply sorted_snoc; [exact _|apply Hv; by intros ?%Hnm|]. by apply Hmono.
      * rewrite lookup_insert_ne by done. intros Hs. apply domain_of_snapshots in Hs as (d0 & Ec & Hs). eapply snapshots_ok_impl; [|by apply (to_domains _ H c d0 h' s)]. by intros Hn ?%Hnm.
    + rewrite lookup_insert_ne by done. intros Hc' Hs. eapply snapshots_ok_impl; [|by apply (to_domains _ H c' d' h' s)]. by intros Hn ?%Hnm.
Qed.

Lemma domain_of_none_empty t c : snapshots (domain_of t c) = ∅ -> forall h, vect_of t c h = mkSnapshots [] [].
Proof. intros E h. unfold vect_of. by rewrite E, lookup_empty. Qed.
Lemma vect_of_cases t c h : (exists s, snapshots (domain_of t c) !! h = Some s /\ vect_of t c h = s) \/ vect_of t c h = mkSnapshots [] [].
Proof. unfold vect_of. destruct (snapshots (domain_of t c) !! h) as [s|]; [left; by exists s|by right]. Qed.
Lemma vect_of_last t c h i : last (snapshot_ids (vect_of t c h)) = Some i -> exists s, snapshots (domain_of t c) !! h = Some s /\ vect_of t c h = s.
Proof. unfold vect_of. destruct (snapshots (domain_of t c) !! h) as [s|]; [by exists s|done]. Qed.
Lemma add_clock_spec sid h c t : tracker_ok t -> clock_ok c -> 0 <= h -> cur_snapshot_id_ t = sid + 1 ->
  exists go t', add_clock sid h c t = Ok (go, t') /\ if go then tracker_ok t' /\ same_frame t t' /\ clock_recorded sid h c t t' else rejected_to t t'.
Proof.
  intros H Hc Hh Hcur. unfold add_clock. fold (domain_of t (clock_id c)). set (id := clock_id c) in *. set (d := domain_of t id). fold (vect_of t id h).
  case_match eqn:E1; [exists false; eexists; split; [done|by apply rejected_spec]|].
  case_match eqn:E2; [exists false; eexists; split; [done|by apply rejected_spec]|].
  set (um := if bool_decide (snapshots d = ∅) then cv_unit_multiplier_ns c else unit_multiplier_ns d). set (inc := if bool_decide (snapshots d = ∅) then cv_is_incremental c else is_incremental d).
  assert (Eum : um = cv_unit_multiplier_ns c /\ inc = cv_is_incremental c).
  { unfold um, inc. case_bool_decide; [done|]. cbn [negb andb] in E2. apply orb_false_iff in E2 as [Ea Eb]. apply negb_false_iff, Z.eqb_eq in Ea. apply negb_false_iff, eqb_prop in Eb. done. }
  destruct Eum as [-> ->]. cbv zeta. change (default {| snapshot_ids := []; timestamps_ns := [] |} (snapshots d !! h)) with (vect_of t id h). fold (cv_timestamp_ns c).
  clear E1 E2. case_bool_decide as E3.
  { exists false. eexists. split; [done|]. apply rejected_spec; [done|]. cbn [snapshots]. destruct (vect_of_last _ _ _ _ E3) as (s & Hs & _). by eapply with_vect_same. }
  set (back := match last (timestamps_ns (vect_of t id h)) with Some prev => cv_timestamp_ns c <? prev | None => false end).
  case_match eqn:E4.
  { exists false. eexists. split; [done|]. apply rejected_spec; [done|]. cbn [snapshots]. apply andb_true_iff in E4 as [E4 _]. unfold back in E4. destruct (vect_of_cases t id h) as [(s & Es & _)|Es]; [by eapply with_vect_same|]. by rewrite Es in E4. }
  assert (Hids : Forall (fun i => i < sid) (snapshot_ids (vect_of t id h))).
  { destruct (vect_snapshots_ok t id h H) as [E|Hv]; [rewrite E; constructor|]. pose proof (so_ids_bound _ _ _ Hv) as Hb. pose proof (so_ids _ _ _ Hv) as Hs. revert E3 Hb Hs. generalize (snapshot_ids (vect_of t id h)). intros l E3 Hb Hs. destruct l as [|y l _] using rev_ind; [constructor|].
    rewrite last_snoc in E3. apply Forall_app in Hb as [_ Hb]. rewrite Forall_singleton in Hb. apply StronglySorted_app in Hs as (Hlt & _ & _). assert (y <> sid) by congruence. apply Forall_app. split; [|apply Forall_singleton; lia]. apply Forall_forall. intros x Hx. specialize (Hlt x y Hx ltac:(by apply list_elem_of_singleton)). lia. }
  assert (Hg : exists g, (if back then graph_erase (id, 0, 0) (u64 (id + 1), 0, 0) (graph_ t) else Ok (graph_ t)) = Ok g /\ edges_sorted g /\ forall e, e ∈ g -> e ∈ graph_ t /\ edge_src e ∉ (if back then {[id]} ∪ non_monotonic_clocks_ t else non_monotonic_clocks_ t)).
  { pose proof (to_edges _ H) as He. rewrite Forall_forall in He. destruct back.
    - destruct (graph_erase_spec id (graph_ t)) as (g & Eg & Hs & Hm); [apply H|by apply to_nonneg|unfold clock_ok in Hc; fold id in Hc; lia..|]. exists g. split; [done|]. split; [done|]. intros e [He' Hne]%Hm. split; [done|]. destruct (He e He') as (_ & _ & Hn & _). intros [Hin|Hin]%elem_of_union; [by apply elem_of_singleton in Hin|done].
    - exists (graph_ t). split; [done|]. split; [apply H|]. intros e He'. split; [done|]. by apply He. }
  destruct Hg as (g & Eg & Hgs & Hge). rewrite Eg. cbn [obind]. exists true. eexists. split; [done|]. split; [|split].
  - eapply (accept_ok t id _ h sid (cv_timestamp_ns c)); [done|apply Hc|done|lia|done|done|done|done|destruct back; [apply union_subseteq_r|done]|].
    intros Hn prev Hp. unfold back in Hn. rewrite Hp in Hn. destruct (Z.ltb_spec (cv_timestamp_ns c) prev); [|done]. exfalso. apply Hn, elem_of_union. left. by apply elem_of_singleton.
  - by split.
  - split; [done| | |done].
    + eexists. cbn. fold id. rewrite lookup_insert_eq. split; [done|]. done.
    + intros c' Hne. cbn. by rewrite lookup_insert_ne.
Qed.

(** ** All clocks of a snapshot *)

Definition snoc_snapshot (sid ts : Z) (s : ClockSnapshots) : ClockSnapshots := mkSnapshots (snapshot_ids s ++ [sid]) (timestamps_ns s ++ [ts]).
Lemma recorded_vect sid h c t t' : clock_recorded sid h c t t' -> forall c' h',
  vect_of t' c' h' = if decide (c' = clock_id c /\ h' = h) then snoc_snapshot sid (cv_timestamp_ns c) (vect_of t c' h') else vect_of t c' h'.
Proof.
  intros [_ (d & Hd & _ & _ & Hs) Ho _] c' h'. destruct (decide (c' = clock_id c)) as [->|Hne].
  - assert (E : domain_of t' (clock_id c) = d) by (unfold domain_of; by rewrite Hd). unfold vect_of at 1. rewrite E, Hs. destruct (decide (h' = h)) as [->|Hh].
    + by rewrite lookup_insert_eq, decide_True.
    + rewrite lookup_insert_ne by done. rewrite decide_False by tauto. done.
  - rewrite decide_False by tauto. unfold vect_of, domain_of. by rewrite Ho.
Qed.
Lemma last_has_hash t c h i : last (snapshot_ids (vect_of t c h)) = Some i -> has_hash t c h.
Proof. intros (s & Hs & _)%vect_of_last. apply domain_of_snapshots in Hs as (d & Hd & Hs). by exists d, s. Qed.
(** What accepted clocks leave behind: one more entry in the vectors of the hash. *)
Record all_recorded (sid : Z) (h : SnapshotHash) (cs : list ClockValue) (t t' : ClockTracker) : Prop := {
  ar_nodup : NoDup (map clock_id cs);
  ar_fresh : forall c, c ∈ cs -> last (snapshot_ids (vect_of t (clock_id c) h)) <> Some sid;
  ar_vect : forall c, c ∈ cs -> vect_of t' (clock_id c) h = snoc_snapshot sid (cv_timestamp_ns c) (vect_of t (clock_id c) h);
  ar_others : forall c' h', c' ∉ map clock_id cs \/ h' <> h -> vect_of t' c' h' = vect_of t c' h';
  ar_domain : forall c, c ∈ cs -> exists d, clocks_ t' !! clock_id c = Some d /\ unit_multiplier_ns d = cv_unit_multiplier_ns c /\ is_incremental d = cv_is_incremental c;
  ar_domains : forall c', c' ∉ map clock_id cs -> clocks_ t' !! c' = clocks_ t !! c';
  ar_stats : invalid_clock_snapshots t' = invalid_clock_snapshots t
}.
Lemma in_map_id (c : ClockValue) cs : c ∈ cs -> clock_id c ∈ map clock_id cs.
Proof. intros Hc. apply list_elem_of_fmap. by exists c. Qed.
Lemma all_recorded_cons sid h c cs t t1 t' : clock_recorded sid h c t t1 -> all_recorded sid h cs t1 t' -> all_recorded sid h (c :: cs) t t'.
Proof.
  intros H1 [Hn Hf Hv Ho Hd Hds Hst]. pose proof (recorded_vect _ _ _ _ _ H1) as Hv1.
  assert (Hnc : clock_id c ∉ map clock_id cs).
  { intros (c' & Ec & Hc')%list_elem_of_fmap. apply (Hf c' Hc'). rewrite <- Ec, Hv1, decide_True by done. cbn. apply last_snoc. }
  assert (Hne : forall c', c' ∈ cs -> clock_id c' <> clock_id c) by (intros c' Hc' E; apply Hnc; rewrite <- E; by apply in_map_id).
  split.
  - cbn. by constructor.
  - intros c' [->|Hc']%elem_of_cons; [apply H1|]. intros E. apply (Hf c' Hc'). rewrite Hv1, decide_False; [done|]. intros [? _]. by apply (Hne c').
  - intros c' [->|Hc']%elem_of_cons.
    + rewrite Ho by (by left). by rewrite Hv1, decide_True.
    + rewrite Hv by done. rewrite Hv1, decide_False; [done|]. intros [? _]. by apply (Hne c').
  - intros c' h' Hc'. cbn in Hc'. rewrite elem_of_cons in Hc'. rewrite Ho by tauto. rewrite Hv1, decide_False; [done|]. tauto.
  - intros c' [->|Hc']%elem_of_cons; [|by apply Hd]. rewrite Hds by done. destruct (cr_domain _ _ _ _ _ H1) as (d & E & Hu & Hi & _). by exists d.
  - intros c' Hc'. cbn in Hc'. rewrite elem_of_cons in Hc'. rewrite Hds by tauto. apply (cr_others _ _ _ _ _ H1). tauto.
  - by rewrite Hst, (cr_stats _ _ _ _ _ H1).
Qed.
Lemma all_recorded_nil sid h t : all_recorded sid h [] t t.
Proof. split; try done; [by constructor|..]; intros c Hc; by apply not_elem_of_nil in Hc. Qed.
Lemma add_clocks_spec sid h cs t : tracker_ok t -> Forall clock_ok cs -> 0 <= h -> cur_snapshot_id_ t = sid + 1 ->
  exists go t', add_clocks sid h cs t = Ok (go, t') /\ tracker_ok t' /\ same_frame t t' /\ if go then all_recorded sid h cs t t' else invalid_clock_snapshots t' = invalid_clock_snapshots t + 1.
Proof.
  intros H Hcs Hh Hcur. revert t H Hcur. induction Hcs as [|c cs Hc Hcs IH]; intros t H Hcur; cbn [add_clocks].
  - exists true, t. split; [done|]. split; [done|]. split; [apply clock_frame_refl|apply all_recorded_nil].
  - destruct (add_clock_spec sid h c t H Hc Hh Hcur) as (go & t1 & E & Hgo). rewrite E. cbn [obind]. destruct go.
    + destruct Hgo as (H1 & Hf & Hr). destruct (IH t1 H1) as (go' & t' & E' & H' & Hf' & Hr'); [rewrite (sf_cur _ _ Hf); done|]. exists go', t'. split; [done|]. split; [done|]. split; [by eapply clock_frame_trans|].
      destruct go'; [by eapply all_recorded_cons|]. by rewrite Hr', (cr_stats _ _ _ _ _ Hr).
    + destruct Hgo as (H1 & Hf & Hr). by exists false, t1.
Qed.

(** ** The edges of a snapshot *)

Definition new_edge (h : SnapshotHash) (nm : gset ClockId) (a b : ClockId) (e : Edge) : Prop := e = (a, b, h) /\ a ∉ nm.
Lemma add_pair_spec h nm a b g : edges_sorted g -> edges_sorted (add_pair h nm a b g) /\ forall e, e ∈ add_pair h nm a b g <-> e ∈ g \/ new_edge h nm a b e \/ new_edge h nm b a e.
Proof.
  intros Hs. unfold add_pair, new_edge. assert (Hem : forall x e g, e ∈ graph_emplace x g <-> e ∈ g \/ e = x).
  { intros x e g'. split; [intros [->|?]%graph_emplace_elem; auto|intros [?| ->]; [by apply graph_emplace_keeps|apply graph_emplace_in]]. }
  split; [repeat case_bool_decide; auto using graph_emplace_sorted|]. intros e. repeat case_bool_decide; rewrite ?Hem; naive_solver.
Qed.
Lemma add_row_spec h nm a bs g : edges_sorted g -> edges_sorted (fold_left (fun g b => add_pair h nm a b g) bs g) /\
  forall e, e ∈ fold_left (fun g b => add_pair h nm a b g) bs g <-> e ∈ g \/ exists b, b ∈ bs /\ (new_edge h nm a b e \/ new_edge h nm b a e).
Proof.
  revert g. induction bs as [|b bs IH]; intros g Hs; cbn [fold_left]; [split; [done|]; intros e; setoid_rewrite elem_of_nil; naive_solver|].
  destruct (add_pair_spec h nm a b g Hs) as [Hs1 Hm1]. destruct (IH _ Hs1) as [Hs2 Hm2]. split; [done|]. intros e. rewrite Hm2, Hm1. setoid_rewrite elem_of_cons. naive_solver.
Qed.
Lemma add_edges_spec h nm ids g : edges_sorted g -> NoDup ids -> edges_sorted (add_edges h nm ids g) /\
  forall e, e ∈ add_edges h nm ids g <-> e ∈ g \/ exists a b, a ∈ ids /\ b ∈ ids /\ a <> b /\ new_edge h nm a b e.
Proof.
  intros Hs Hn. revert g Hs. induction Hn as [|a ids Ha Hn IH]; intros g Hs; cbn [add_edges].
  - split; [done|]. intros e. setoid_rewrite elem_of_nil. naive_solver.
  - destruct (add_row_spec h nm a ids g Hs) as [Hs1 Hm1]. destruct (IH _ Hs1) as [Hs2 Hm2]. split; [done|]. intros e. rewrite Hm2, Hm1. clear Hm1 Hm2 IH. split.
    + intros [[He|(b & Hb & He)]|(x & y & Hx & Hy & Hxy & He)]; [by left|right|right; exists x, y; by rewrite !elem_of_cons; auto].
      assert (a <> b) by (by intros ->). destruct He; [exists a, b|exists b, a]; rewrite !elem_of_cons; auto.
    + intros [He|(x & y & Hx & Hy & Hxy & He)]; [by left; left|]. apply elem_of_cons in Hx as [->|Hx], Hy as [->|Hy]; [done|left; right; exists y; auto|left; right; exists x; auto|right; by exists x, y].
Qed.

(** ** Adding a snapshot *)

(** The edges of an accepted snapshot, apart from those of clocks that went backwards. *)
Record snapshot_accepted (cs : list ClockValue) (t t' : ClockTracker) : Prop := {
  sa_recorded : all_recorded (cur_snapshot_id_ t) (snapshot_hash_of cs) cs t t';
  sa_edges : forall a b, a ∈ map clock_id cs -> b ∈ map clock_id cs -> a <> b -> a ∉ non_monotonic_clocks_ t' -> (a, b, snapshot_hash_of cs) ∈ graph_ t'
}.
Lemma hash_nonneg cs : 0 <= snapshot_hash_of cs.
Proof. apply u32_range. Qed.
Lemma next_snapshot_ok t : tracker_ok t -> 0 <= cur_snapshot_id_ t -> cur_snapshot_id_ t + 1 < 2 ^ 32 -> tracker_ok (set_cache empty_cache (rnd_ t) (set_snapshot_id (u32 (cur_snapshot_id_ t + 1)) t)).
Proof.
  intros H H0 H1. rewrite u32_small by lia. split; [apply H|apply H|]. cbn. intros c d h s Hc Hs. destruct (to_domains _ H c d h s Hc Hs). split; auto. eapply Forall_impl; [done|]. cbn. lia.
Qed.
Lemma AddSnapshot_spec cs t : tracker_ok t -> 0 <= cur_snapshot_id_ t -> cur_snapshot_id_ t + 1 < 2 ^ 32 -> Forall clock_ok cs ->
  exists t', AddSnapshot cs t = Ok (cur_snapshot_id_ t, t') /\ tracker_ok t' /\ cur_snapshot_id_ t' = cur_snapshot_id_ t + 1 /\ cache_ t' = empty_cache /\ trace_time_clock_id_ t' = trace_time_clock_id_ t /\
    (invalid_clock_snapshots t' = invalid_clock_snapshots t + 1 \/ (invalid_clock_snapshots t' = invalid_clock_snapshots t /\ snapshot_accepted cs t t')).
Proof.
  intros H H0 H1 Hcs. unfold AddSnapshot. set (t0 := set_cache _ _ _). pose proof (next_snapshot_ok t H H0 H1) as Hok. fold t0 in Hok. assert (Hcur : cur_snapshot_id_ t0 = cur_snapshot_id_ t + 1) by (cbn; by rewrite u32_small by lia).
  destruct (add_clocks_spec (cur_snapshot_id_ t) (snapshot_hash_of cs) cs t0 Hok Hcs (hash_nonneg cs) Hcur) as (go & t1 & E & Hok1 & Hf & Hgo). rewrite E. cbn [obind].
  assert (Hframe : cur_snapshot_id_ t1 = cur_snapshot_id_ t + 1 /\ cache_ t1 = empty_cache /\ trace_time_clock_id_ t1 = trace_time_clock_id_ t) by (destruct Hf as [-> -> _ _ -> _ _ _]; by split_and!).
  destruct Hframe as (Hf1 & Hf2 & Hf3). destruct go.
  - destruct (add_edges_spec (snapshot_hash_of cs) (non_monotonic_clocks_ t1) (map clock_id cs) (graph_ t1) (to_sorted _ Hok1) (ar_nodup _ _ _ _ _ Hgo)) as [Hs Hm].
    eexists. split; [done|]. split; [|split; [done|]; split; [done|]; split; [done|]; right; split].
    + split; [done| |apply Hok1]. apply Forall_forall. intros e [He|(a & b & Ha & Hb & Hab & -> & Hn)]%Hm; [by apply (proj1 (Forall_forall _ _) (to_edges _ Hok1))|].
      assert (Hhas : forall x, x ∈ map clock_id cs -> has_hash t1 x (snapshot_hash_of cs) /\ 0 <= x).
      { intros x (c & -> & Hc)%list_elem_of_fmap. split; [|rewrite Forall_forall in Hcs; by apply Hcs]. apply (last_has_hash _ _ _ (cur_snapshot_id_ t)). rewrite (ar_vect _ _ _ _ _ Hgo c Hc). apply last_snoc. }
      pose proof (hash_nonneg cs). split; [|split; [done|]; split; [done|]; split; by apply Hhas]. split_and!; [by apply Hhas..|done].
    + apply (ar_stats _ _ _ _ _ Hgo).
    + split; [by destruct Hgo|]. intros a b Ha Hb Hab Hn. apply Hm. right. exists a, b. by split_and!.
  - eexists. split; [done|]. split; [done|]. split; [done|]. split; [done|]. split; [done|]. by left.
Qed.
