(* ===== verification/ClockTrackerConvert.v ===== *)
(** * Conversions of the clock tracker

    What one step of a conversion computes from the recorded snapshots, that conversions of a
    reachable tracker follow a shortest path, and that the cache does not change results. *)

From S2P Require Import Prelude StdAlgorithms ClockTracker ClockTrackerGraph ClockTrackerCorrect.

(** ** One step *)

(** The snapshot used for a time: the latest one that is not after it, or the first. *)
Definition closest (l : list Z) (ns : Z) (i : nat) : Prop :=
  (i < length l)%nat /\ (forall x, l !! i = Some x -> i <> O -> x <= ns) /\ forall j x, l !! j = Some x -> (i < j)%nat -> ns < x.
Definition closest_index (l : list Z) (ns : Z) : nat := let ub := upper_bound Z.ltb l ns in if (ub =? 0)%nat then ub else (ub - 1)%nat.
Lemma closest_index_spec l ns : StronglySorted Z.le l -> l <> [] -> closest l ns (closest_index l ns).
Proof.
  intros Hs Hne. destruct (upper_bound_spec l ns Hs) as [Hle Hi]. assert (length l <> O) by (by destruct l). unfold closest_index. cbv zeta. destruct (Nat.eqb_spec (upper_bound Z.ltb l ns) 0) as [E|E]; (split; [lia|]; split).
  - intros x _ Hn. lia.
  - intros j x Hj _. specialize (Hi j x Hj). lia.
  - intros x Hx _. apply (Hi _ _ Hx). lia.
  - intros j x Hj Hlt. specialize (Hi j x Hj). lia.
Qed.
Lemma closest_unique l ns i j : StronglySorted Z.le l -> closest l ns i -> closest l ns j -> i = j.
Proof.
  intros Hs (Hi & Hi1 & Hi2) (Hj & Hj1 & Hj2). destruct (lookup_lt_is_Some_2 l i Hi) as [x Hx]. destruct (lookup_lt_is_Some_2 l j Hj) as [y Hy].
  destruct (Nat.lt_trichotomy i j) as [Hlt|[|Hlt]]; [|done|].
  - pose proof (Hi2 j y Hy Hlt). pose proof (Hj1 y Hy ltac:(lia)). lia.
  - pose proof (Hj2 i x Hx Hlt). pose proof (Hi1 x Hx ltac:(lia)). lia.
Qed.
(** What a step does to a time, from the recorded snapshots of its two clocks. *)
Definition hop (t : ClockTracker) (e : Edge) (ns ns' : Z) : Prop :=
  exists src target i sid ts, GetSnapshot (edge_src e) (edge_hash e) t = Ok src /\ GetSnapshot (edge_target e) (edge_hash e) t = Ok target /\
    closest (timestamps_ns src) ns i /\ snapshot_ids src !! i = Some sid /\ timestamps_ns src !! i = Some ts /\
    ((exists j ts', snapshot_ids target !! j = Some sid /\ timestamps_ns target !! j = Some ts' /\ ns' = s64 (ns + s64 (ts' - ts))) \/ ((sid ∉ snapshot_ids target) /\ ns' = ns)).
(** The range of times in which a step uses the same snapshot. *)
Definition in_bounds (b : Z * Z) (ns : Z) : bool := (b.1 <=? ns) && (ns <? b.2).
Lemma closest_bounds l ns ns' : StronglySorted Z.le l -> l <> [] -> let it := closest_index l ns in forall ts, l !! it = Some ts ->
  in_bounds ((if (it =? 0)%nat then kInt64Min else ts), default kInt64Max (l !! (it + 1)%nat)) ns' = true -> closest_index l ns' = it.
Proof.
  intros Hs Hne it ts Hts Hb. apply (closest_unique l ns'); [done|by apply closest_index_spec|]. unfold in_bounds in Hb. cbn in Hb. apply andb_true_iff in Hb as [H1 H2]. apply Z.leb_le in H1. apply Z.ltb_lt in H2. split; [by eapply lookup_lt_Some|]. split.
  - intros x Hx Hn. destruct (Nat.eqb_spec it 0); [done|]. congruence.
  - intros j x Hj Hlt. destruct (l !! (it + 1)%nat) as [y|] eqn:Ey.
    + cbn in H2. destruct (decide (j = (it + 1)%nat)) as [->|]; [assert (x = y) by congruence; lia|]. pose proof (sorted_lookup _ _ _ _ _ _ Hs (ltac:(lia) : (it + 1 < j)%nat) Ey Hj) as Hyx. cbn in Hyx. lia.
    + apply lookup_ge_None in Ey. apply lookup_lt_Some in Hj. lia.
Qed.

Lemma GetSnapshot_ok t c h : tracker_ok t -> has_hash t c h -> exists s, GetSnapshot c h t = Ok s /\ snapshots_ok (cur_snapshot_id_ t) (c ∉ non_monotonic_clocks_ t) s.
Proof. intros H (d & s & Hd & Hs). exists s. unfold GetSnapshot. rewrite Hd, Hs. split; [done|]. by apply (to_domains _ H c d h). Qed.
(** The step, once the snapshots are found. *)
Definition translate_at (s s' : ClockSnapshots) (it : nat) : outcome (option (Z * Z * Z)) :=
  match snapshot_ids s !! it, timestamps_ns s !! it with
  | Some snapshot_id, Some ts =>
      let next_index := lower_bound Z.ltb (snapshot_ids s') snapshot_id in
      if bool_decide (snapshot_ids s' !! next_index = Some snapshot_id) then
        match timestamps_ns s' !! next_index with
        | Some next_timestamp_ns => Ok (Some ((if (it =? 0)%nat then kInt64Min else ts), default kInt64Max (timestamps_ns s !! (it + 1)%nat), s64 (next_timestamp_ns - ts)))
        | None => Crash
        end
      else Ok None
  | _, _ => Crash
  end.
Lemma translate_at_spec t e s s' : GetSnapshot (edge_src e) (edge_hash e) t = Ok s -> GetSnapshot (edge_target e) (edge_hash e) t = Ok s' ->
  forall ns, translate e ns t = translate_at s s' (closest_index (timestamps_ns s) ns).
Proof. intros Es Es' ns. unfold translate. rewrite Es, Es'. done. Qed.
Lemma translate_spec t e ns : tracker_ok t -> e ∈ graph_ t -> exists r, translate e ns t = Ok r /\
  hop t e ns (match r with Some (_, _, adj) => s64 (ns + adj) | None => ns end) /\
  match r with Some (mn, mx, adj) => forall ns', in_bounds (mn, mx) ns' = true -> translate e ns' t = Ok r | None => True end.
Proof.
  intros H He. pose proof (to_edges _ H) as Hes. rewrite Forall_forall in Hes. destruct (Hes e He) as (_ & _ & Hm & Hsrc & Htgt). destruct (GetSnapshot_ok t _ _ H Hsrc) as (s & Es & Hs). destruct (GetSnapshot_ok t _ _ H Htgt) as (s' & Es' & Hs').
  pose proof (so_sorted _ _ _ Hs Hm) as Hmono. assert (Hne : timestamps_ns s <> []) by (pose proof (so_nonempty _ _ _ Hs); pose proof (so_length _ _ _ Hs); destruct (timestamps_ns s); [by destruct (snapshot_ids s)|done]).
  pose proof (closest_index_spec _ ns Hmono Hne) as Hc. pose proof (closest_bounds (timestamps_ns s) ns) as Hb. pose proof (translate_at_spec t e s s' Es Es') as Ht. rewrite Ht. cbv zeta in Hb.
  set (it := closest_index (timestamps_ns s) ns) in *.
  destruct (lookup_lt_is_Some_2 (timestamps_ns s) it) as [ts Hts]; [apply Hc|]. destruct (lookup_lt_is_Some_2 (snapshot_ids s) it) as [sid Hsid]; [rewrite (so_length _ _ _ Hs); apply Hc|].
  assert (E : translate_at s s' it = translate_at s s' it) by done. unfold translate_at in E at 2. rewrite Hts, Hsid in E. cbv zeta in E. rewrite E. revert E. case_bool_decide as Ej.
  - destruct (lookup_lt_is_Some_2 (timestamps_ns s') (lower_bound Z.ltb (snapshot_ids s') sid)) as [ts' Hts']; [rewrite <- (so_length _ _ _ Hs'); by eapply lookup_lt_Some|]. rewrite Hts'. intros E. eexists. split; [done|]. split.
    + exists s, s', it, sid, ts. split_and!; try done. left. by eexists _, _.
    + intros ns' Hns'. rewrite Ht, (Hb ns' Hmono Hne ts Hts Hns'). exact E.
  - intros E. eexists. split; [done|]. split; [|done]. exists s, s', it, sid, ts. split_and!; try done. right. split; [|done]. intros [j Hj]%list_elem_of_lookup. apply Ej. by rewrite (lower_bound_finds _ _ j (so_ids _ _ _ Hs') Hj).
Qed.

(** ** Along a path *)

Fixpoint hops (t : ClockTracker) (es : list Edge) (ns ns' : Z) : Prop :=
  match es with [] => ns' = ns | e :: es => exists mid, hop t e ns mid /\ hops t es mid ns' end.
Lemma follow_spec t es cacheable ns ce : tracker_ok t -> Forall (fun e => e ∈ graph_ t) es -> exists ns' ce', follow es cacheable ns ce t = Ok (ns', ce') /\ hops t es ns ns'.
Proof.
  intros H Hes. revert ns ce. induction Hes as [|e es He Hes IH]; intros ns ce; cbn [follow hops]; [by exists ns, ce|]. destruct (translate_spec t e ns H He) as (r & Er & Hh & _). rewrite Er. cbn [obind]. destruct r as [[[mn mx] adj]|].
  - destruct (IH (s64 (ns + adj)) (if cacheable then set_bounds (mn, mx, adj) ce else ce)) as (ns' & ce' & E & Hn). exists ns', ce'. split; [done|]. by eexists.
  - destruct (IH ns ce) as (ns' & ce' & E & Hn). exists ns', ce'. split; [done|]. by eexists.
Qed.
Lemma is_path_in_graph g src es target : is_path g src es target -> Forall (fun e => e ∈ g) es.
Proof. revert src. induction es as [|e es IH]; intros src; cbn; [done|]. intros (H1 & _ & H2). constructor; [done|by eapply IH]. Qed.

(** ** What conversions leave alone *)

Definition domain_data (d : ClockDomain) : gmap SnapshotHash ClockSnapshots * Z * bool := (snapshots d, unit_multiplier_ns d, is_incremental d).
Record same_snapshots (t t' : ClockTracker) : Prop := {
  ss_graph : graph_ t' = graph_ t;
  ss_non_monotonic : non_monotonic_clocks_ t' = non_monotonic_clocks_ t;
  ss_cur : cur_snapshot_id_ t' = cur_snapshot_id_ t;
  ss_trace : trace_time_clock_id_ t' = trace_time_clock_id_ t;
  ss_domains : forall c, domain_data <$> clocks_ t' !! c = domain_data <$> clocks_ t !! c
}.
#[export] Instance same_snapshots_preorder : PreOrder same_snapshots.
Proof. split; [by split|]. intros x y z [] []. split; congruence. Qed.
Lemma same_domain t t' c d : same_snapshots t t' -> clocks_ t !! c = Some d -> exists d', clocks_ t' !! c = Some d' /\ domain_data d' = domain_data d.
Proof. intros H Hc. pose proof (ss_domains _ _ H c) as E. rewrite Hc in E. cbn in E. apply fmap_Some in E as (d' & Hd' & E). by exists d'. Qed.
Lemma same_no_domain t t' c : same_snapshots t t' -> clocks_ t !! c = None -> clocks_ t' !! c = None.
Proof. intros H Hc. pose proof (ss_domains _ _ H c) as E. rewrite Hc in E. by apply fmap_None in E. Qed.
Lemma same_GetSnapshot t t' c h : same_snapshots t t' -> GetSnapshot c h t' = GetSnapshot c h t.
Proof.
  intros H. unfold GetSnapshot. destruct (clocks_ t !! c) as [d|] eqn:E.
  - destruct (same_domain _ _ _ _ H E) as (d' & -> & [= -> _ _]). done.
  - by rewrite (same_no_domain _ _ _ H E).
Qed.
Lemma same_translate t t' e ns : same_snapshots t t' -> translate e ns t' = translate e ns t.
Proof. intros H. unfold translate. rewrite (same_GetSnapshot _ _ _ _ H). destruct (GetSnapshot _ _ t); [|done]. cbn [obind]. by rewrite (same_GetSnapshot _ _ _ _ H). Qed.
Lemma same_follow t t' es cacheable ns ce : same_snapshots t t' -> follow es cacheable ns ce t' = follow es cacheable ns ce t.
Proof.
  intros H. revert ns ce. induction es as [|e es IH]; intros ns ce; cbn [follow]; [done|]. rewrite (same_translate _ _ _ _ H). destruct (translate e ns t) as [[[[mn mx] adj]|]|]; cbn [obind]; [apply IH|apply IH|done].
Qed.
Lemma same_FindPath t t' src target : same_snapshots t t' -> FindPath src target t' = FindPath src target t.
Proof.
  intros H. unfold FindPath. rewrite (ss_graph _ _ H). destruct (perfetto_check _); [|done]. cbn [obind].
  destruct (clocks_ t !! target) as [d|] eqn:E; [destruct (same_domain _ _ _ _ H E) as (d' & -> & _)|by rewrite (same_no_domain _ _ _ H E)].
  destruct (clocks_ t !! src) as [d0|] eqn:E0; [destruct (same_domain _ _ _ _ H E0) as (d0' & -> & _)|rewrite (same_no_domain _ _ _ H E0)]; done.
Qed.
Lemma same_has_hash t t' c h : same_snapshots t t' -> has_hash t c h -> has_hash t' c h.
Proof. intros H (d & s & Hd & Hs). destruct (same_domain _ _ _ _ H Hd) as (d' & Hd' & [= E _ _]). exists d', s. by rewrite E. Qed.
#[export] Instance same_snapshots_sym : Symmetric same_snapshots.
Proof. intros x y []. by split. Qed.
Lemma same_tracker_ok t t' : same_snapshots t t' -> tracker_ok t -> tracker_ok t'.
Proof.
  intros H Hok. pose proof (ss_non_monotonic _ _ H) as Hn. split.
  - rewrite (ss_graph _ _ H). apply Hok.
  - rewrite (ss_graph _ _ H). eapply Forall_impl; [exact (to_edges _ Hok)|]. intros e (H1 & H2 & H3 & H4 & H5). split_and!; [apply H1..|done|by rewrite Hn|by eapply same_has_hash|by eapply same_has_hash].
  - intros c d h s Hc Hs. symmetry in H. destruct (same_domain _ _ _ _ H Hc) as (d' & Hd' & [= E _ _]). rewrite <- (ss_cur _ _ H), <- (ss_non_monotonic _ _ H). rewrite <- E in Hs. by apply (to_domains _ Hok c d' h).
Qed.
Lemma same_hop t t' e ns ns' : same_snapshots t t' -> hop t e ns ns' -> hop t' e ns ns'.
Proof. intros H (s & s' & i & sid & ts & H1 & H2 & H3). exists s, s', i, sid, ts. rewrite !(same_GetSnapshot _ _ _ _ H). done. Qed.
Lemma same_hops t t' es ns ns' : same_snapshots t t' -> hops t es ns ns' -> hops t' es ns ns'.
Proof. intros H. revert ns. induction es as [|e es IH]; intros ns; cbn; [done|]. intros (mid & H1 & H2). exists mid. split; [by eapply same_hop|by apply IH]. Qed.

(** ** The cache *)

Record entry_hit (t : ClockTracker) (ce : CachedClockPath) : Prop := {
  eh_domain : src_domain ce = Some (ce_src ce);
  eh_path : exists p e, FindPath (ce_src ce) (ce_target ce) t = Ok p /\ path p = [e] /\
    forall ns, in_bounds (min_ts_ns ce, max_ts_ns ce) ns = true -> exists mn mx, translate e ns t = Ok (Some (mn, mx, translation_ns ce))
}.
Definition entry_ok (t : ClockTracker) (ce : CachedClockPath) : Prop := ce_src ce = ce_target ce \/ entry_hit t ce.
Definition cache_ok (t : ClockTracker) : Prop := Forall (entry_ok t) (cache_ t).
Lemma same_entry_ok t t' ce : same_snapshots t t' -> entry_ok t ce -> entry_ok t' ce.
Proof.
  intros H [|[Hd (p & e & Hf & He & Hb)]]; [by left|right]. split; [done|]. exists p, e. rewrite (same_FindPath _ _ _ _ H). split; [done|]. split; [done|]. intros ns Hns. destruct (Hb ns Hns) as (mn & mx & E). exists mn, mx. by rewrite (same_translate _ _ _ _ H).
Qed.
Lemma clock_ToNs_spec c ts t d : clocks_ t !! c = Some d -> exists ns t', clock_ToNs c ts t = Ok (ns, t') /\ same_snapshots t t' /\ cache_ t' = cache_ t /\ (is_incremental d = false -> ns = s64 (ts * unit_multiplier_ns d) /\ t' = t).
Proof.
  intros Hc. unfold clock_ToNs, ToNs. rewrite Hc. destruct (is_incremental d) eqn:Ei; cbn [negb]; eexists _, _; (split; [done|]); (split; [split; try done; intros c'; cbn; destruct (decide (c' = c)) as [->|Hne]; [rewrite lookup_insert_eq, Hc; cbn; by unfold domain_data; cbn; rewrite ?Ei|by rewrite lookup_insert_ne]|]); (split; [done|]); [done|].
  intros _. split; [done|]. rewrite insert_id by done. by destruct t.
Qed.
Lemma FindPath_known src target t p : FindPath src target t = Ok p -> valid p = true -> exists d, clocks_ t !! src = Some d.
Proof. unfold FindPath. destruct (perfetto_check _); [|done]. cbn [obind]. destruct (clocks_ t !! target); [|by intros [= <-]]. destruct (clocks_ t !! src) as [d|]; [by exists d|by intros [= <-]]. Qed.

(** ** Finding a path in a reachable tracker *)

Definition path_found (t : ClockTracker) (src target : ClockId) (p : ClockPath) : Prop :=
  if valid p then is_path (graph_ t) src (path p) target /\ (len p <= kMaxLen)%nat /\ forall es, is_path (graph_ t) src es target -> (len p <= length es)%nat
  else forall es, is_path (graph_ t) src es target -> (kMaxLen < length es)%nat.
Lemma is_path_known t src es target : tracker_ok t -> is_path (graph_ t) src es target -> src <> target -> is_Some (clocks_ t !! src) /\ is_Some (clocks_ t !! target).
Proof.
  intros H Hp Hne. pose proof (to_edges _ H) as Hes. rewrite Forall_forall in Hes. assert (Hknown : forall e, e ∈ graph_ t -> is_Some (clocks_ t !! edge_src e) /\ is_Some (clocks_ t !! edge_target e)).
  { intros e He. destruct (Hes e He) as (_ & _ & _ & (d & s & -> & _) & (d' & s' & -> & _)). by split. }
  split.
  - destruct es as [|e es]; [done|]. destruct Hp as (He & <- & _). by apply Hknown.
  - destruct es as [|e es _] using rev_ind; [done|]. apply is_path_snoc in Hp as (mid & _ & He & _ & <-). by apply Hknown.
Qed.
Lemma FindPath_spec t src target : tracker_ok t -> src <> target -> exists p, FindPath src target t = Ok p /\ path_found t src target p.
Proof.
  intros H Hne. unfold FindPath. assert (E : (src =? target) = false) by (by apply Z.eqb_neq). rewrite E. cbn [negb perfetto_check obind].
  assert (Hnone : (forall es, is_path (graph_ t) src es target -> False) -> path_found t src target no_path) by (intros Hn es Hes; by destruct (Hn es)).
  destruct (clocks_ t !! target) as [d|] eqn:Et; [|exists no_path; split; [done|]; apply Hnone; intros es Hes; destruct (is_path_known t src es target H Hes Hne) as [_ [? Hx]]; congruence].
  destruct (clocks_ t !! src) as [d'|] eqn:Es; [|exists no_path; split; [done|]; apply Hnone; intros es Hes; destruct (is_path_known t src es target H Hes Hne) as [[? Hx] _]; congruence].
  apply find_path_loop_correct; [apply H|by apply to_nonneg|done].
Qed.
Lemma path_found_follow t src target p ns ce cacheable : tracker_ok t -> path_found t src target p -> valid p = true -> exists ns' ce', follow (path p) cacheable ns ce t = Ok (ns', ce') /\ hops t (path p) ns ns'.
Proof. intros H Hf Hv. unfold path_found in Hf. rewrite Hv in Hf. apply follow_spec; [done|]. by apply (is_path_in_graph _ src _ target), Hf. Qed.

(** ** Converting *)

(** A clock domain after [k] conversions of the same timestamp: a clock of increments adds
    it to its last timestamp each time. *)
Definition after_deltas (k : nat) (ts : Z) (d : ClockDomain) : ClockDomain := Nat.iter k (fun d => (ToNs ts d).2) d.
(** The entries of the cache for two clocks. *)
Definition cached_for (src target : ClockId) (entries : list CachedClockPath) : nat := length (filter (fun ce => ce_src ce = src /\ ce_target ce = target) entries).
(** What a conversion must return: nothing when there is no short path, otherwise the time
    taken along the path that FindPath finds, if the source domain converts the timestamp at
    most [n] times before. *)
Definition converted (n : nat) (t : ClockTracker) (src : ClockId) (ts : Z) (target : ClockId) (r : option Z) : Prop :=
  exists p, FindPath src target t = Ok p /\
    match r with
    | None => valid p = false
    | Some ns' => valid p = true /\ exists d k, clocks_ t !! src = Some d /\ (k <= n)%nat /\ follow (path p) false (ToNs ts (after_deltas k ts d)).1 CachedClockPath_new t = Ok (ns', CachedClockPath_new)
    end.
Lemma after_deltas_absolute k ts d : is_incremental d = false -> after_deltas k ts d = d.
Proof. intros Hi. induction k as [|k IH]; [done|]. change (after_deltas (S k) ts d) with (ToNs ts (after_deltas k ts d)).2. rewrite IH. unfold ToNs. by rewrite Hi. Qed.
Lemma ToNs_absolute k ts d : is_incremental d = false -> (ToNs ts (after_deltas k ts d)).1 = s64 (ts * unit_multiplier_ns d).
Proof. intros Hi. rewrite after_deltas_absolute by done. unfold ToNs. by rewrite Hi. Qed.
Lemma converted_unique n n' t src ts target r r' : (forall c d, clocks_ t !! c = Some d -> is_incremental d = false) -> converted n t src ts target r -> converted n' t src ts target r' -> r = r'.
Proof.
  intros Hinc (p & Hp & Hr) (p' & Hp' & Hr'). replace p' with p in * by congruence. destruct r, r'; [|destruct Hr; congruence|destruct Hr'; congruence|done].
  destruct Hr as (_ & d & k & Hd & _ & Hf), Hr' as (_ & d' & k' & Hd' & _ & Hf'). replace d' with d in * by congruence. specialize (Hinc _ _ Hd). rewrite ToNs_absolute in Hf, Hf' by done. congruence.
Qed.
(** The source domain converts the timestamp [j] times from [t] to [t']. *)
Definition src_after (j : nat) (ts : Z) (src : ClockId) (t t' : ClockTracker) : Prop := forall d, clocks_ t !! src = Some d -> clocks_ t' !! src = Some (after_deltas j ts d).
Lemma src_after_same ts src t t' : clocks_ t' = clocks_ t -> src_after 0 ts src t t'.
Proof. intros E d. by rewrite E. Qed.
Lemma src_after_trans i j ts src t1 t2 t3 : src_after i ts src t1 t2 -> src_after j ts src t2 t3 -> src_after (j + i) ts src t1 t3.
Proof. intros H1 H2 d Hd. rewrite (H2 _ (H1 _ Hd)). unfold after_deltas. by rewrite Nat.iter_add. Qed.
Lemma later_converted j n t t' src ts target r : same_snapshots t t' -> src_after j ts src t t' -> converted n t' src ts target r -> converted (j + n) t src ts target r.
Proof.
  intros H Hj (p & Hp & Hr). rewrite (same_FindPath _ _ _ _ H) in Hp. exists p. split; [done|]. destruct r as [ns|]; [|done]. destruct Hr as (Hv & d' & k & Hd' & Hk & Hf). split; [done|]. destruct (same_domain t' t src d') as (d & Hd & _); [by symmetry|done|].
  rewrite (Hj d Hd) in Hd'. injection Hd' as <-. exists d, (k + j)%nat. split; [done|]. split; [lia|]. rewrite (same_follow _ _ _ _ _ _ H) in Hf. rewrite <- Hf. unfold after_deltas. by rewrite Nat.iter_add.
Qed.
Lemma converted_more n n' t src ts target r : (n <= n')%nat -> converted n t src ts target r -> converted n' t src ts target r.
Proof. intros Hn (p & Hp & Hr). exists p. split; [done|]. destruct r; [|done]. destruct Hr as (Hv & d & k & Hd & Hk & Hf). split; [done|]. exists d, k. split; [done|]. split; [lia|done]. Qed.
Lemma follow_uncached es cacheable ns ce t ns' ce' : follow es cacheable ns ce t = Ok (ns', ce') -> follow es false ns CachedClockPath_new t = Ok (ns', CachedClockPath_new).
Proof.
  revert ns ce. induction es as [|e es IH]; intros ns ce; cbn [follow]; [by intros [= -> ->]|]. destruct (translate e ns t) as [[[[mn mx] adj]|]|]; cbn [obind]; [apply IH|apply IH|done].
Qed.
(** What a conversion does to the tracker; it leaves it valid. *)
Record convert_effect (t t' : ClockTracker) : Prop := {
  ce_same : same_snapshots t t';
  ce_cache : cache_ok t -> cache_ok t';
  ce_clocks : (forall c d, clocks_ t !! c = Some d -> is_incremental d = false) -> clocks_ t' = clocks_ t;
  ce_disabled : cache_lookups_disabled_for_testing_ t' = cache_lookups_disabled_for_testing_ t;
  ce_used : trace_time_clock_id_used_for_conversion_ t' = trace_time_clock_id_used_for_conversion_ t;
  ce_invalid : invalid_clock_snapshots t' = invalid_clock_snapshots t
}.
#[export] Instance convert_effect_preorder : PreOrder convert_effect.
Proof.
  split; [intros t; by split|]. intros t1 t2 t3 [S1 C1 K1 D1 U1 I1] [S2 C2 K2 D2 U2 I2]. split; [by transitivity t2|auto| |congruence..]. intros Hinc. rewrite K2, K1; [done|done|]. by rewrite K1.
Qed.
Lemma clock_ToNs_effect c ts t d : clocks_ t !! c = Some d -> exists t', clock_ToNs c ts t = Ok ((ToNs ts d).1, t') /\ convert_effect t t' /\ cache_ t' = cache_ t /\ src_after 1 ts c t t'.
Proof.
  intros Hc. destruct (clock_ToNs_spec c ts t d Hc) as (ns & t' & E & Hs & Hk & Hn). assert (Et : ns = (ToNs ts d).1 /\ t' = set_clocks (<[c := (ToNs ts d).2]> (clocks_ t)) t) by (unfold clock_ToNs in E; rewrite Hc in E; destruct (ToNs ts d); by injection E as <- <-).
  destruct Et as [-> Et]. exists t'. split; [done|]. split; [|split; [done|]].
  - split; [done| | |by rewrite Et..]; [|intros Hinc; destruct Hn as [_ ->]; [by eapply Hinc|done]]. unfold cache_ok. rewrite Hk. intros H. eapply Forall_impl; [exact H|]. intros ce. by apply same_entry_ok.
  - intros d' Hd'. rewrite Hc in Hd'. injection Hd' as <-. rewrite Et. cbn. by rewrite lookup_insert_eq.
Qed.
(** A hit returns what the step would. *)
Lemma hit_converted n t src ts target p e d mn mx adj : FindPath src target t = Ok p -> path p = [e] -> clocks_ t !! src = Some d -> translate e (ToNs ts d).1 t = Ok (Some (mn, mx, adj)) -> converted n t src ts target (Some (s64 ((ToNs ts d).1 + adj))).
Proof.
  intros Hp He Hd Ht. exists p. split; [done|]. split; [unfold valid, len; by rewrite He|]. exists d, 0%nat. split; [done|]. split; [lia|]. rewrite He. cbn [follow after_deltas Nat.iter nat_rect]. by rewrite Ht.
Qed.
Lemma cached_for_cons src target ce entries : cached_for src target (ce :: entries) = ((if decide (ce_src ce = src /\ ce_target ce = target) then 1 else 0) + cached_for src target entries)%nat.
Proof. unfold cached_for. rewrite filter_cons. by destruct (decide _). Qed.
Lemma cache_lookup_spec entries src ts target t : src <> target -> Forall (entry_ok t) entries -> exists r t', cache_lookup entries src ts target t = Ok (r, t') /\ convert_effect t t' /\
  match r with Some ns => converted (cached_for src target entries) t src ts target (Some ns) | None => src_after (cached_for src target entries) ts src t t' end.
Proof.
  intros Hne. revert t. induction entries as [|ce entries IH]; intros t He; cbn [cache_lookup]; [exists None, t; split; [done|]; split; [done|by apply src_after_same]|]. apply Forall_cons in He as [He Hes]. rewrite cached_for_cons.
  destruct (Z.eqb_spec (ce_src ce) src) as [Esrc|]; cbn [negb orb]; [|rewrite decide_False by tauto; by apply IH]. destruct (Z.eqb_spec (ce_target ce) target) as [Etgt|]; cbn [negb]; [|rewrite decide_False by tauto; by apply IH]. rewrite decide_True by done.
  destruct He as [He|[Hd (p & e & Hf & Hp & Hb)]]; [congruence|]. rewrite Hd, Esrc, ?Etgt in *. destruct (FindPath_known _ _ _ _ Hf) as [d Hdom]; [unfold valid, len; by rewrite Hp|].
  destruct (clock_ToNs_effect src ts t d Hdom) as (t1 & E & Heff & Hk & Hone). rewrite E. cbn [obind]. set (ns := (ToNs ts d).1) in *. change ((min_ts_ns ce <=? ns) && (ns <? max_ts_ns ce)) with (in_bounds (min_ts_ns ce, max_ts_ns ce) ns). pose proof (ce_same _ _ Heff) as Hsame. destruct (in_bounds (min_ts_ns ce, max_ts_ns ce) ns) eqn:Hin.
  - eexists _, t1. split; [done|]. split; [done|]. destruct (Hb ns Hin) as (mn & mx & Ht). by eapply hit_converted.
  - destruct (IH t1) as (r & t' & E' & Heff' & Hr); [eapply Forall_impl; [exact Hes|]; intros x; by apply same_entry_ok|]. exists r, t'. split; [done|]. split; [by transitivity t1|]. destruct r; [by eapply later_converted|]. rewrite Nat.add_comm. by eapply src_after_trans.
Qed.

(** The entry that a conversion of one step leaves in the cache. *)
Lemma follow_entry t src target p e ns : tracker_ok t -> path_found t src target p -> valid p = true -> path p = [e] -> FindPath src target t = Ok p -> forall ns' ce, follow (path p) true ns CachedClockPath_new t = Ok (ns', ce) ->
  entry_ok t (mkCached src target (Some src) (min_ts_ns ce) (max_ts_ns ce) (translation_ns ce)).
Proof.
  intros H Hf Hv Hp Hfp ns' ce. unfold path_found in Hf. rewrite Hv in Hf. destruct Hf as (Hpath & _ & _). apply is_path_in_graph in Hpath. rewrite Hp in *. rewrite Forall_singleton in Hpath. cbn [follow]. destruct (translate_spec t e ns H Hpath) as (r & -> & _ & Hr). cbn [obind].
  right. split; [done|]. exists p, e. split; [done|]. split; [done|]. cbn [min_ts_ns max_ts_ns translation_ns]. destruct r as [[[mn mx] adj]|].
  - injection H0 as <- <-. cbn [set_bounds min_ts_ns max_ts_ns translation_ns]. intros ns1 Hb. exists mn, mx. by apply Hr.
  - injection H0 as <- <-. cbn. unfold in_bounds. cbn. intros ns1 [Ha Hb]%andb_true_iff. lia.
Qed.
Lemma count_stats_effect t miss failure : convert_effect t (count_stats 0 miss failure t).
Proof. split; try done; [unfold cache_ok; intros H; eapply Forall_impl; [exact H|]; intros ce; apply same_entry_ok; by split|cbn; lia]. Qed.
Lemma set_cache_effect t i ce rnd : entry_ok t ce -> convert_effect t (set_cache (<[i := ce]> (cache_ t)) rnd t).
Proof. intros Hce. split; try done. unfold cache_ok. cbn [cache_ set_cache]. intros H. apply Forall_insert; [|apply (same_entry_ok t); [by split|done]]. eapply Forall_impl; [exact H|]. intros x. apply same_entry_ok. by split. Qed.
Lemma ConvertSlowpath_spec src ts target t : tracker_ok t -> src <> target -> exists r t', ConvertSlowpath src ts target t = Ok (r, t') /\ convert_effect t t' /\ converted 0 t src ts target r.
Proof.
  intros H Hne. unfold ConvertSlowpath. set (t0 := count_stats 0 1 0 t). pose proof (count_stats_effect t 1 0) as He0. fold t0 in He0. pose proof (same_tracker_ok _ _ (ce_same _ _ He0) H) as H0. destruct (FindPath_spec t0 src target H0 Hne) as (p & Hp & Hf). rewrite Hp. cbn [obind].
  destruct (valid p) eqn:Hv; cbn [negb].
  2: { eexists None, _. split; [done|]. split; [transitivity t0; [done|apply count_stats_effect]|]. exists p. split; [by rewrite <- (same_FindPath _ _ _ _ (ce_same _ _ He0))|done]. }
  destruct (FindPath_known _ _ _ _ Hp Hv) as [d Hd]. destruct (clock_ToNs_effect src ts t0 d Hd) as (t1 & E & He1 & Hk & _). rewrite E. cbn [obind]. set (ns := (ToNs ts d).1) in *. assert (Hok1 : tracker_ok t1) by (by eapply same_tracker_ok; [apply He1|]). assert (Hp1 : FindPath src target t1 = Ok p) by (by rewrite (same_FindPath _ _ _ _ (ce_same _ _ He1))).
  assert (Hf1 : path_found t1 src target p) by (unfold path_found in *; by rewrite (ss_graph _ _ (ce_same _ _ He1))).
  destruct (path_found_follow t1 src target p ns CachedClockPath_new (len p =? 1)%nat Hok1 Hf1 Hv) as (ns' & ce & Ef & _). rewrite Ef. cbn [obind].
  assert (Hconv : converted 0 t src ts target (Some ns')).
  { apply (later_converted 0 0 t t0); [apply He0|by apply src_after_same|]. exists p. split; [done|]. split; [done|]. exists d, 0%nat. split; [done|]. split; [lia|]. rewrite <- (same_follow t0 t1) by apply He1. by eapply follow_uncached. }
  destruct (Nat.eqb_spec (len p) 1) as [Hlen|Hlen].
  - eexists (Some ns'), _. split; [done|]. split; [|done]. transitivity t0; [done|]. transitivity t1; [done|]. apply set_cache_effect. destruct (path p) as [|e [|]] eqn:Epath; try (unfold len in Hlen; rewrite Epath in Hlen; done). rewrite <- Epath in Ef. by eapply follow_entry.
  - exists (Some ns'), t1. split; [done|]. split; [by transitivity t0|done].
Qed.
Lemma Convert_spec src ts target t : tracker_ok t -> cache_ok t -> src <> target -> exists r t', Convert src ts target t = Ok (r, t') /\ convert_effect t t' /\ converted (cached_for src target (cache_ t)) t src ts target r.
Proof.
  intros H Hc Hne. unfold Convert. assert (Hl : exists r t' j, (if cache_lookups_disabled_for_testing_ t then Ok (None, t) else cache_lookup (cache_ t) src ts target t) = Ok (r, t') /\ convert_effect t t' /\ (j <= cached_for src target (cache_ t))%nat /\ match r with Some ns => converted (cached_for src target (cache_ t)) t src ts target (Some ns) | None => src_after j ts src t t' end).
  { destruct (cache_lookups_disabled_for_testing_ t); [exists None, t, 0%nat; split_and!; [done|done|lia|by apply src_after_same]|]. destruct (cache_lookup_spec (cache_ t) src ts target t Hne Hc) as (r & t' & E & He & Hr). by exists r, t', (cached_for src target (cache_ t)). }
  destruct Hl as (r & t1 & j & -> & He & Hj & Hr). cbn [obind]. destruct r as [ns|]; [by exists (Some ns), t1|]. destruct (ConvertSlowpath_spec src ts target t1) as (r & t' & E & He' & Hr'); [by eapply same_tracker_ok; [apply He|]|done|]. exists r, t'. split; [done|]. split; [by transitivity t1|].
  eapply converted_more; [|eapply later_converted; [apply He|exact Hr|exact Hr']]. lia.
Qed.

(** ** Sessions *)

Definition clock_op_ok (o : clock_op) : Prop :=
  match o with
  | SnapshotOp cs => Forall clock_ok cs
  | ConvertOp src _ target => src <> target
  | _ => True
  end.
(** Clocks with absolute timestamps only. *)
Definition absolute_op (o : clock_op) : Prop := match o with SnapshotOp cs => Forall (fun c => cv_is_incremental c = false) cs | _ => True end.
Record session_ok (t : ClockTracker) : Prop := { so_tracker : tracker_ok t; so_cache : cache_ok t; so_cur : 0 <= cur_snapshot_id_ t }.
Lemma empty_cache_ok t : cache_ t = empty_cache -> cache_ok t.
Proof. unfold cache_ok. intros ->. repeat constructor. Qed.
Lemma new_session_ok : session_ok ClockTracker_new.
Proof. split; [apply new_tracker_ok|by apply empty_cache_ok|done]. Qed.
Lemma convert_session_ok t t' : session_ok t -> convert_effect t t' -> session_ok t' /\ cur_snapshot_id_ t' = cur_snapshot_id_ t.
Proof. intros [H Hc H0] He. pose proof (ce_same _ _ He) as Hs. rewrite (ss_cur _ _ Hs). split; [|done]. split; [by eapply same_tracker_ok|by apply He|by rewrite (ss_cur _ _ Hs)]. Qed.
Lemma set_trace_clock_ok c used t : session_ok t -> session_ok (set_trace_clock c used t).
Proof.
  intros [[H1 H2 H3] Hc H0]. split; [by split| |done]. unfold cache_ok in *. eapply Forall_impl; [exact Hc|]. intros ce [|[Hd (p & e & Hf & Hp & Hb)]]; [by left|right]. split; [done|]. by exists p, e.
Qed.
Lemma run_clock_op_ok o t : session_ok t -> clock_op_ok o -> cur_snapshot_id_ t + 1 < 2 ^ 32 -> exists r t', run_clock_op o t = Ok (r, t') /\ session_ok t' /\ cur_snapshot_id_ t' <= cur_snapshot_id_ t + 1.
Proof.
  intros H Ho Hcur. assert (Hconv : forall src ts target t0, session_ok t0 -> cur_snapshot_id_ t0 = cur_snapshot_id_ t -> src <> target -> exists r t', Convert src ts target t0 = Ok (r, t') /\ session_ok t' /\ cur_snapshot_id_ t' <= cur_snapshot_id_ t + 1).
  { intros src ts target t0 H0 E Hne. destruct (Convert_spec src ts target t0) as (r & t' & Er & He & _); [apply H0|apply H0|done|]. exists r, t'. split; [done|]. destruct (convert_session_ok _ _ H0 He) as [? ->]. split; [done|lia]. }
  destruct o as [cs|src ts target|c ts|c ts|c]; cbn [run_clock_op clock_op_ok] in *.
  - destruct (AddSnapshot_spec cs t) as (t' & E & Hok & Hc & Hk & _ & _); [apply H|apply H|done|done|]. rewrite E. cbn [obind]. eexists _, t'. split; [done|]. split; [|lia]. split; [done|by apply empty_cache_ok|]. rewrite Hc. pose proof (so_cur _ H). lia.
  - by apply Hconv.
  - unfold ToTraceTime. cbv zeta. pose proof (set_trace_clock_ok (trace_time_clock_id_ t) true t H) as H0. set (t0 := set_trace_clock _ true t) in *. destruct (Z.eqb_spec c (trace_time_clock_id_ t0)); [eexists _, t0; split; [done|]; split; [done|cbn; lia]|]. by apply Hconv.
  - unfold FromTraceTime. cbv zeta. pose proof (set_trace_clock_ok (trace_time_clock_id_ t) true t H) as H0. set (t0 := set_trace_clock _ true t) in *. destruct (Z.eqb_spec c (trace_time_clock_id_ t0)); [eexists _, t0; split; [done|]; split; [done|cbn; lia]|]. by apply Hconv.
  - eexists None, _. split; [done|]. unfold SetTraceTimeClock. case_match; [split; [done|lia]|]. split; [by apply set_trace_clock_ok|cbn; lia].
Qed.
Lemma run_clock_ops_ok ops t : session_ok t -> Forall clock_op_ok ops -> cur_snapshot_id_ t + zlen ops < 2 ^ 32 -> exists rs t', run_clock_ops ops t = Ok (rs, t') /\ session_ok t' /\ cur_snapshot_id_ t' <= cur_snapshot_id_ t + zlen ops.
Proof.
  intros H Hops. revert t H. induction Hops as [|o ops Ho Hops IH]; intros t H Hcur; cbn [run_clock_ops]; [exists [], t; rewrite zlen_nil; split; [done|]; split; [done|lia]|].
  rewrite zlen_cons in *. pose proof (zlen_nonneg ops). destruct (run_clock_op_ok o t H Ho) as (r & t1 & -> & H1 & Hc1); [lia|]. cbn [obind]. destruct (IH t1 H1) as (rs & t' & -> & H' & Hc'); [lia|]. cbn [obind]. eexists _, t'. split; [done|]. split; [done|lia].
Qed.

(** C33. After any session of snapshots and conversions the tracker never fails a check, and a conversion between two different clocks returns nothing exactly when no path of at most four snapshot edges connects them; otherwise it returns the source time carried along a shortest such path. Each step uses the latest snapshot of its kind that is not after the time (or the first one), and leaves the time as it is when the target clock has no entry for that snapshot. The source time is the timestamp in nanoseconds; a clock of increments adds it to its last timestamp, and does so again at most once for each entry of the cache for the two clocks. *)
Theorem Convert_along_shortest_path ops src ts target : Forall clock_op_ok ops -> zlen ops < 2 ^ 32 -> src <> target ->
  exists rs t r t', run_clock_ops ops ClockTracker_new = Ok (rs, t) /\ Convert src ts target t = Ok (r, t') /\
  match r with
  | None => forall es, is_path (graph_ t) src es target -> (kMaxLen < length es)%nat
  | Some ns => exists es d, is_path (graph_ t) src es target /\ (length es <= kMaxLen)%nat /\ (forall es', is_path (graph_ t) src es' target -> (length es <= length es')%nat) /\
      clocks_ t !! (src) = Some d /\ (is_incremental d = false -> hops t es (s64 (ts * unit_multiplier_ns d)) ns) /\
      exists k, (k <= cached_for src target (cache_ t))%nat /\ hops t es (ToNs ts (after_deltas k ts d)).1 ns
  end.
Proof.
  intros Hops Hlen Hne. destruct (run_clock_ops_ok ops _ new_session_ok Hops Hlen) as (rs & t & E & H & _). destruct (Convert_spec src ts target t) as (r & t' & Ec & He & Hr); [apply H|apply H|done|]. exists rs, t, r, t'. split; [done|]. split; [done|].
  destruct (FindPath_spec t src target (so_tracker _ H) Hne) as (p & Hp & Hf). destruct Hr as (p' & Hp' & Hr). replace p' with p in * by congruence. unfold path_found in Hf. destruct r as [ns|]; [|by rewrite Hr in Hf].
  destruct Hr as (Hv & d & k & Hd & Hk & Hfollow). rewrite Hv in Hf. destruct Hf as (H1 & H2 & H3). destruct (follow_spec t (path p) false (ToNs ts (after_deltas k ts d)).1 CachedClockPath_new (so_tracker _ H)) as (ns' & ce' & Ef & Hh); [by eapply is_path_in_graph|]. rewrite Hfollow in Ef. injection Ef as <- _.
  exists (path p), d. split_and!; [done..| |by exists k]. intros Hi. by rewrite <- (ToNs_absolute k).
Qed.

(** After any session, adding a snapshot either counts it as invalid, because it repeats a clock, changes a clock's unit or encoding, makes a global clock incremental or moves the trace clock backwards, or it appends one entry to the vectors of exactly the clocks it names, under its fingerprint, and leaves an edge between any two of them that may be a source. *)
Theorem AddSnapshot_records ops cs : Forall clock_op_ok ops -> zlen ops + 1 < 2 ^ 32 -> Forall clock_ok cs ->
  exists rs t t', run_clock_ops ops ClockTracker_new = Ok (rs, t) /\ AddSnapshot cs t = Ok (cur_snapshot_id_ t, t') /\
  (invalid_clock_snapshots t' = invalid_clock_snapshots t + 1 \/ (invalid_clock_snapshots t' = invalid_clock_snapshots t /\ snapshot_accepted cs t t')).
Proof.
  intros Hops Hlen Hcs. destruct (run_clock_ops_ok ops _ new_session_ok Hops) as (rs & t & E & H & Hcur); [cbn; lia|]. cbn in Hcur. destruct (AddSnapshot_spec cs t) as (t' & Ea & _ & _ & _ & _ & Hr); [apply H|apply H|lia|done|]. by exists rs, t, t'.
Qed.

(** ** The example of clock_tracker.h *)

Definition absolute_value (c : ClockId) (ts : Z) : ClockValue := mkClockValue c ts 1 false.
(** The snapshots of the example in clock_tracker.h, with clocks 10, 11 and 12 for A, B and C. *)
Definition example_snapshots : list clock_op :=
  [SnapshotOp [absolute_value 10 10; absolute_value 11 100]; SnapshotOp [absolute_value 10 20; absolute_value 12 2000];
   SnapshotOp [absolute_value 11 400; absolute_value 12 5000]; SnapshotOp [absolute_value 10 30; absolute_value 11 300]].
Lemma Convert_along_shortest_path_witness : exists rs t r t', run_clock_ops example_snapshots ClockTracker_new = Ok (rs, t) /\ Convert 10 25 12 t = Ok (r, t') /\
  match r with
  | None => forall es, is_path (graph_ t) 10 es 12 -> (kMaxLen < length es)%nat
  | Some ns => exists es d, is_path (graph_ t) 10 es 12 /\ (length es <= kMaxLen)%nat /\ (forall es', is_path (graph_ t) 10 es' 12 -> (length es <= length es')%nat) /\
      clocks_ t !! (10 : ClockId) = Some d /\ (is_incremental d = false -> hops t es (s64 (25 * unit_multiplier_ns d)) ns) /\
      exists k, (k <= cached_for 10%Z 12%Z (cache_ t))%nat /\ hops t es (ToNs 25 (after_deltas k 25 d)).1 ns
  end.
Proof. apply Convert_along_shortest_path; [repeat (apply Forall_cons; split); try apply Forall_nil; repeat constructor; done|done|done]. Defined.
Lemma AddSnapshot_records_witness : exists rs t t', run_clock_ops example_snapshots ClockTracker_new = Ok (rs, t) /\ AddSnapshot [absolute_value 10 40; absolute_value 11 390] t = Ok (cur_snapshot_id_ t, t') /\
  (invalid_clock_snapshots t' = invalid_clock_snapshots t + 1 \/ (invalid_clock_snapshots t' = invalid_clock_snapshots t /\ snapshot_accepted [absolute_value 10 40; absolute_value 11 390] t t')).
Proof. apply AddSnapshot_records; [repeat (apply Forall_cons; split); try apply Forall_nil; repeat constructor; done|done|repeat constructor; done]. Defined.
