(* ===== verification/ClockTrackerCache.v ===== *)
(** * The cache of the clock tracker

    The cache of conversions does not change their results, as long as no clock sends
    increments, and what happens when one does. *)

From S2P Require Import Prelude StdAlgorithms ClockTracker ClockTrackerGraph ClockTrackerCorrect ClockTrackerConvert.

(** set_cache_lookups_disabled_for_testing. *)
Definition set_cache_lookups_disabled_for_testing (v : bool) (t : ClockTracker) : ClockTracker :=
  mkTracker (trace_time_clock_id_ t) (clocks_ t) (graph_ t) (non_monotonic_clocks_ t) (cache_ t) v (rnd_ t) (cur_snapshot_id_ t)
    (trace_time_clock_id_used_for_conversion_ t) (invalid_clock_snapshots t) (clock_sync_cache_miss t) (clock_sync_failure t).

(** ** Trackers that differ in the cache only *)

(** [t] with the cache, and what counts its use, of [k]. *)
Definition with_cache_of (k t : ClockTracker) : ClockTracker :=
  mkTracker (trace_time_clock_id_ t) (clocks_ t) (graph_ t) (non_monotonic_clocks_ t) (cache_ k) (cache_lookups_disabled_for_testing_ k) (rnd_ k) (cur_snapshot_id_ t)
    (trace_time_clock_id_used_for_conversion_ t) (invalid_clock_snapshots t) (clock_sync_cache_miss k) (clock_sync_failure k).
Definition same_view (t1 t2 : ClockTracker) : Prop := exists k, t2 = with_cache_of k t1.
Lemma count_invalid_with_cache k t : count_stats 1 0 0 (with_cache_of k t) = with_cache_of k (count_stats 1 0 0 t).
Proof. unfold count_stats, with_cache_of. cbn. by rewrite !Z.add_0_r. Qed.
Lemma add_clock_with_cache k sid h c t : add_clock sid h c (with_cache_of k t) = let! (go, t') := add_clock sid h c t in Ok (go, with_cache_of k t').
Proof.
  unfold add_clock. cbn [with_cache_of clocks_ graph_ non_monotonic_clocks_ trace_time_clock_id_]. cbv zeta. repeat match goal with |- context [if ?b then _ else _] => let E := fresh in destruct b eqn:E; try done end.
  all: cbn [obind]; try (change (set_clocks ?m (with_cache_of k t)) with (with_cache_of k (set_clocks m t)); by rewrite count_invalid_with_cache). all: by destruct (graph_erase (clock_id c, 0, 0) (u64 (clock_id c + 1), 0, 0) (graph_ t)).
Qed.
Lemma add_clocks_with_cache k sid h cs t : add_clocks sid h cs (with_cache_of k t) = let! (go, t') := add_clocks sid h cs t in Ok (go, with_cache_of k t').
Proof.
  revert t. induction cs as [|c cs IH]; intros t; cbn [add_clocks]; [done|]. rewrite add_clock_with_cache. destruct (add_clock sid h c t) as [[go t1]|]; cbn [obind]; [|done]. destruct go; [apply IH|done].
Qed.
Lemma AddSnapshot_view cs t1 t2 id t1' : same_view t1 t2 -> AddSnapshot cs t1 = Ok (id, t1') -> exists t2', AddSnapshot cs t2 = Ok (id, t2') /\ same_view t1' t2'.
Proof.
  intros [k ->] E. unfold AddSnapshot in *. cbv zeta in *. set (t0 := set_cache empty_cache (rnd_ t1) _) in E. set (k0 := set_cache empty_cache (rnd_ k) k). 
  change (set_cache empty_cache (rnd_ (with_cache_of k t1)) (set_snapshot_id (u32 (cur_snapshot_id_ (with_cache_of k t1) + 1)) (with_cache_of k t1))) with (with_cache_of k0 t0).
  change (cur_snapshot_id_ (with_cache_of k t1)) with (cur_snapshot_id_ t1). rewrite add_clocks_with_cache. destruct (add_clocks _ _ cs t0) as [[go t']|]; cbn [obind] in *; [|done].
  destruct go; injection E as <- <-; eexists; (split; [done|]); by exists k0.
Qed.
Lemma same_view_snapshots t1 t2 : same_view t1 t2 -> same_snapshots t1 t2.
Proof. intros [k ->]. by split. Qed.
Lemma same_view_fields t1 t2 : same_view t1 t2 <-> same_snapshots t1 t2 /\ clocks_ t2 = clocks_ t1 /\ trace_time_clock_id_used_for_conversion_ t2 = trace_time_clock_id_used_for_conversion_ t1 /\ invalid_clock_snapshots t2 = invalid_clock_snapshots t1.
Proof.
  split; [intros [k ->]; split; [by split|done]|]. intros ([] & ? & ? & ?). exists t2. destruct t1, t2. cbn in *. unfold with_cache_of. cbn. by subst.
Qed.
Definition all_absolute (t : ClockTracker) : Prop := forall c d, clocks_ t !! c = Some d -> is_incremental d = false.
Lemma Convert_view src ts target t1 t2 : session_ok t1 -> session_ok t2 -> all_absolute t1 -> same_view t1 t2 -> src <> target ->
  exists r t1' t2', Convert src ts target t1 = Ok (r, t1') /\ Convert src ts target t2 = Ok (r, t2') /\ same_view t1' t2' /\ clocks_ t1' = clocks_ t1.
Proof.
  intros H1 H2 Ha Hv Hne. destruct (Convert_spec src ts target t1) as (r & t1' & E1 & He1 & Hr1); [apply H1|apply H1|done|]. destruct (Convert_spec src ts target t2) as (r2 & t2' & E2 & He2 & Hr2); [apply H2|apply H2|done|].
  apply (later_converted 0 _ t1 t2) in Hr2; [|by apply same_view_snapshots|apply src_after_same; by destruct Hv as [k ->]]. rewrite (converted_unique _ _ _ _ _ _ _ _ Ha Hr2 Hr1) in E2. exists r, t1', t2'. split; [done|]. split; [done|]. apply same_view_fields in Hv as (Hs & Hc & Hu & Hi). pose proof (ce_clocks _ _ He1 Ha) as Hc1. split; [|done].
  assert (Ha2 : all_absolute t2) by (unfold all_absolute; by rewrite Hc). pose proof (ce_clocks _ _ He2 Ha2) as Hc2. apply same_view_fields. split; [transitivity t2; [transitivity t1; [symmetry; apply He1|done]|apply He2]|].
  rewrite Hc1, Hc2, (ce_used _ _ He1), (ce_used _ _ He2), (ce_invalid _ _ He1), (ce_invalid _ _ He2). done.
Qed.

(** ** Absolute clocks *)

Lemma all_absolute_insert t c d : all_absolute t -> is_incremental d = false -> all_absolute (set_clocks (<[c := d]> (clocks_ t)) t).
Proof. intros H Hd c' d'. cbn. destruct (decide (c' = c)) as [->|Hne]; [rewrite lookup_insert_eq; by intros [= <-]|rewrite lookup_insert_ne by done; apply H]. Qed.
Lemma add_clock_absolute sid h c t go t' : all_absolute t -> cv_is_incremental c = false -> add_clock sid h c t = Ok (go, t') -> all_absolute t'.
Proof.
  intros Ha Hc. assert (Hd : is_incremental (default ClockDomain_new (clocks_ t !! clock_id c)) = false) by (destruct (clocks_ t !! clock_id c) as [d|] eqn:E; [by apply (Ha (clock_id c))|done]).
  unfold add_clock. cbv zeta. set (d := default _ _) in *. rewrite Hc. set (um := if bool_decide (snapshots d = ∅) then _ else _). assert (Hi : (if bool_decide (snapshots d = ∅) then false else is_incremental d) = false) by (by case_bool_decide). rewrite Hi.
  assert (Hins : forall d', is_incremental d' = false -> all_absolute (set_clocks (<[clock_id c := d']> (clocks_ t)) t)) by (intros; by apply all_absolute_insert).
  repeat match goal with |- (if ?b then _ else _) = _ -> _ => destruct b end; try (intros [= <- <-]; by apply Hins).
  all: match goal with |- obind ?x _ = _ -> _ => destruct x end; cbn [obind]; [|done]; intros [= <- <-]; by apply Hins.
Qed.
Lemma add_clocks_absolute sid h cs t go t' : all_absolute t -> Forall (fun c => cv_is_incremental c = false) cs -> add_clocks sid h cs t = Ok (go, t') -> all_absolute t'.
Proof.
  intros Ha Hcs. revert t Ha. induction Hcs as [|c cs Hc Hcs IH]; intros t Ha; cbn [add_clocks]; [by intros [= <- <-]|]. destruct (add_clock sid h c t) as [[go1 t1]|] eqn:E; cbn [obind]; [|done]. pose proof (add_clock_absolute _ _ _ _ _ _ Ha Hc E). destruct go1; [by apply IH|by intros [= <- <-]].
Qed.
Lemma AddSnapshot_absolute cs t id t' : all_absolute t -> Forall (fun c => cv_is_incremental c = false) cs -> AddSnapshot cs t = Ok (id, t') -> all_absolute t'.
Proof.
  intros Ha Hcs. unfold AddSnapshot. cbv zeta. set (t0 := set_cache _ _ _). destruct (add_clocks _ _ cs t0) as [[go t1]|] eqn:E; cbn [obind]; [|done]. apply add_clocks_absolute in E; [|done..]. by destruct go; intros [= <- <-].
Qed.

(** ** Two sessions, with and without the cache *)

Record sessions_agree (t1 t2 : ClockTracker) : Prop := { sg_left : session_ok t1; sg_right : session_ok t2; sg_absolute : all_absolute t1; sg_view : same_view t1 t2 }.
Lemma sg_cur t1 t2 : sessions_agree t1 t2 -> cur_snapshot_id_ t2 = cur_snapshot_id_ t1.
Proof. intros H. apply (ss_cur _ _ (same_view_snapshots _ _ (sg_view _ _ H))). Qed.
Lemma set_trace_clock_agree c used t1 t2 : sessions_agree t1 t2 -> sessions_agree (set_trace_clock c used t1) (set_trace_clock c used t2).
Proof. intros [H1 H2 Ha [k ->]]. split; [by apply set_trace_clock_ok|by apply set_trace_clock_ok|done|by exists k]. Qed.
Lemma Convert_agree src ts target t1 t2 : sessions_agree t1 t2 -> src <> target -> exists r t1' t2', Convert src ts target t1 = Ok (r, t1') /\ Convert src ts target t2 = Ok (r, t2') /\ sessions_agree t1' t2' /\ cur_snapshot_id_ t1' <= cur_snapshot_id_ t1 + 1.
Proof.
  intros [H1 H2 Ha Hv] Hne. destruct (Convert_view src ts target t1 t2 H1 H2 Ha Hv Hne) as (r & t1' & t2' & E1 & E2 & Hv' & Hc). exists r, t1', t2'. split; [done|]. split; [done|].
  destruct (Convert_spec src ts target t1) as (? & ? & E1' & He1 & _); [apply H1|apply H1|done|]. rewrite E1 in E1'. injection E1' as <- <-. destruct (Convert_spec src ts target t2) as (? & ? & E2' & He2 & _); [apply H2|apply H2|done|]. rewrite E2 in E2'. injection E2' as <- <-.
  destruct (convert_session_ok _ _ H1 He1) as [H1' ->]. destruct (convert_session_ok _ _ H2 He2) as [H2' _]. split; [|lia]. split; [done|done|unfold all_absolute; by rewrite Hc|done].
Qed.
Lemma run_clock_op_agree o t1 t2 : sessions_agree t1 t2 -> clock_op_ok o -> absolute_op o -> cur_snapshot_id_ t1 + 1 < 2 ^ 32 ->
  exists r t1' t2', run_clock_op o t1 = Ok (r, t1') /\ run_clock_op o t2 = Ok (r, t2') /\ sessions_agree t1' t2' /\ cur_snapshot_id_ t1' <= cur_snapshot_id_ t1 + 1.
Proof.
  intros H Ho Hao Hcur. pose proof (sg_view _ _ H) as [k Ek]. destruct o as [cs|src ts target|c ts|c ts|c]; cbn [run_clock_op clock_op_ok absolute_op] in *.
  - destruct (run_clock_op_ok (SnapshotOp cs) t1 (sg_left _ _ H) Ho Hcur) as (r & t1' & E1 & H1 & Hc1). destruct (run_clock_op_ok (SnapshotOp cs) t2 (sg_right _ _ H) Ho) as (r2 & t2' & E2 & H2 & _); [by rewrite (sg_cur _ _ H)|].
    cbn [run_clock_op] in *. destruct (AddSnapshot cs t1) as [[id t1'']|] eqn:EA; cbn [obind] in *; [|done]. injection E1 as <- <-. destruct (AddSnapshot_view _ _ _ _ _ (sg_view _ _ H) EA) as (t2'' & EA2 & Hv). rewrite EA2 in *. cbn [obind] in *. injection E2 as <- <-.
    eexists _, _, _. split; [done|]. split; [done|]. split; [|done]. split; [done|done|by eapply AddSnapshot_absolute; [apply H| |]|done].
  - by apply Convert_agree.
  - unfold ToTraceTime. cbv zeta. pose proof (set_trace_clock_agree (trace_time_clock_id_ t1) true t1 t2 H) as H'. replace (trace_time_clock_id_ t2) with (trace_time_clock_id_ t1) by (by rewrite Ek). set (u1 := set_trace_clock _ true t1) in *. set (u2 := set_trace_clock _ true t2) in *. change (trace_time_clock_id_ u2) with (trace_time_clock_id_ u1).
    destruct (Z.eqb_spec c (trace_time_clock_id_ u1)); [eexists _, u1, u2; split; [done|]; split; [done|]; split; [done|cbn; lia]|]. by apply (Convert_agree _ _ _ u1 u2).
  - unfold FromTraceTime. cbv zeta. pose proof (set_trace_clock_agree (trace_time_clock_id_ t1) true t1 t2 H) as H'. replace (trace_time_clock_id_ t2) with (trace_time_clock_id_ t1) by (by rewrite Ek). set (u1 := set_trace_clock _ true t1) in *. set (u2 := set_trace_clock _ true t2) in *. change (trace_time_clock_id_ u2) with (trace_time_clock_id_ u1).
    destruct (Z.eqb_spec c (trace_time_clock_id_ u1)); [eexists _, u1, u2; split; [done|]; split; [done|]; split; [done|cbn; lia]|]. apply (Convert_agree _ _ _ u1 u2); [done|]. by apply not_eq_sym.
  - exists None, (SetTraceTimeClock c t1), (SetTraceTimeClock c t2). split; [done|]. split; [done|]. unfold SetTraceTimeClock. replace (trace_time_clock_id_used_for_conversion_ t2) with (trace_time_clock_id_used_for_conversion_ t1) by (by rewrite Ek). replace (trace_time_clock_id_ t2) with (trace_time_clock_id_ t1) by (by rewrite Ek).
    destruct (_ && _); [split; [done|lia]|]. split; [by apply set_trace_clock_agree|cbn; lia].
Qed.
Lemma run_clock_ops_agree ops t1 t2 : sessions_agree t1 t2 -> Forall clock_op_ok ops -> Forall absolute_op ops -> cur_snapshot_id_ t1 + zlen ops < 2 ^ 32 -> exists rs t1' t2', run_clock_ops ops t1 = Ok (rs, t1') /\ run_clock_ops ops t2 = Ok (rs, t2').
Proof.
  intros H Hops Habs. revert t1 t2 H. induction Hops as [|o ops Ho Hops IH]; intros t1 t2 H Hcur; cbn [run_clock_ops]; [by exists [], t1, t2|]. apply Forall_cons in Habs as [Hao Habs].
  rewrite zlen_cons in Hcur. pose proof (zlen_nonneg ops). destruct (run_clock_op_agree o t1 t2 H Ho Hao) as (r & u1 & u2 & -> & -> & H' & Hc); [lia|]. cbn [obind]. destruct (IH Habs u1 u2 H') as (rs & t1' & t2' & -> & ->); [lia|]. cbn [obind]. by eexists _, _, _.
Qed.

(** C34. When no clock sends increments, a session gives the same results with the cache of conversions as without it, whatever entries it evicts. *)
Theorem convert_cache_transparent ops : Forall clock_op_ok ops -> Forall absolute_op ops -> zlen ops < 2 ^ 32 ->
  exists rs t t', run_clock_ops ops ClockTracker_new = Ok (rs, t) /\ run_clock_ops ops (set_cache_lookups_disabled_for_testing true ClockTracker_new) = Ok (rs, t').
Proof.
  intros Hops Habs Hlen. apply run_clock_ops_agree; [|done..]. split; [apply new_session_ok| | |].
  - split; [|by apply empty_cache_ok|done]. apply (same_tracker_ok ClockTracker_new); [by split|apply new_tracker_ok].
  - intros c d. cbn. by rewrite lookup_empty.
  - by exists (set_cache_lookups_disabled_for_testing true ClockTracker_new).
Qed.

(** ** Sessions to try *)

Definition example_session : list clock_op := example_snapshots ++ [ConvertOp 10 25 11; ConvertOp 10 26 11; ConvertOp 12 5010 11; ConvertOp 10 31 11; ConvertOp 10 22 12; ConvertOp 10 28 11].
Example example_session_results : (let! (rs, _) := run_clock_ops example_session ClockTracker_new in Ok (drop 4 rs)) = Ok [Some 115; Some 116; Some 410; Some 301; Some 2002; Some 118].
Proof. by vm_compute. Qed.
Lemma example_session_ok : Forall clock_op_ok example_session /\ Forall absolute_op example_session.
Proof. split; (repeat (apply Forall_cons; split); try apply Forall_nil; repeat constructor; done). Qed.
Lemma convert_cache_transparent_witness : zlen example_session < 2 ^ 32 /\ exists rs t t', run_clock_ops example_session ClockTracker_new = Ok (rs, t) /\ run_clock_ops example_session (set_cache_lookups_disabled_for_testing true ClockTracker_new) = Ok (rs, t').
Proof. split; [done|]. apply convert_cache_transparent; [apply example_session_ok..|done]. Defined.

(** With a clock of increments an entry of the cache that names the clocks but whose range
    does not hold the time applies the increment a second time: the lookup has already added
    it to the last timestamp of the clock, and the slow path adds it again. *)
Definition sequence_clock : ClockId := SeqScopedClockIdToGlobal 1 64.
Definition increments (ts : Z) : ClockValue := mkClockValue sequence_clock ts 1 true.
Definition incremental_session : list clock_op :=
  [SnapshotOp [increments 50; absolute_value 11 200]; SnapshotOp [increments 10; absolute_value 12 7]; SnapshotOp [increments 100; absolute_value 11 300]; SnapshotOp [increments 20; absolute_value 12 8];
   ConvertOp sequence_clock 5 11; ConvertOp sequence_clock 90 11].
Example incremental_deltas_apply_twice : (let! (rs, _) := run_clock_ops incremental_session ClockTracker_new in Ok (drop 4 rs)) = Ok [Some 175; Some 405] /\
  (let! (rs, _) := run_clock_ops incremental_session (set_cache_lookups_disabled_for_testing true ClockTracker_new) in Ok (drop 4 rs)) = Ok [Some 175; Some 315].
Proof. split; by vm_compute. Qed.
(** The fingerprint of a snapshot depends on the order of its clocks. *)
Example snapshot_hash_order : snapshot_hash_of [absolute_value 10 1; absolute_value 11 1] <> snapshot_hash_of [absolute_value 11 1; absolute_value 10 1].
Proof. by vm_compute. Qed.
