(* ===== verification/BitVector.v ===== *)
(** * The bit vector of the trace processor

    trace_processor/containers/bit_vector.h and .cc: bits in blocks of eight 64-bit words, with
    the number of set bits before each block; the word algorithms, resizes, and the batch
    update of the set bits (the iterators are in BitVectorIterators).  An access out of the
    range of a vector is a Crash. *)

From S2P Require Import Prelude StdAlgorithms.

Local Open Scope cpp_scope.

(** ** Words *)

Abbreviation BitWord := Z (only parsing).
Definition kWordBits : Z := 64.
(** PERFETTO_POPCOUNT, the number of set bits of a 64-bit integer. *)
Definition popcount (w : Z) : Z := foldr (fun i n => (if Z.testbit w i then 1 else 0) + n) 0 (seqZ 0 64).
Definition word_IsSet (w : BitWord) (idx : Z) : bool := negb ((w .>> idx) .& 1 =? 0).
Definition word_Or (w : BitWord) (mask : Z) : BitWord := w .| mask.
Definition word_Set (w : BitWord) (idx : Z) : BitWord := word_Or w (u64 (1 .<< idx)).
Definition word_Clear (w : BitWord) (idx : Z) : BitWord := w .& u64 (Z.lnot (u64 (1 .<< idx))).
Definition MaskAllBitsSetUntil (idx : Z) : Z :=
  let top := u64 (1 .<< ((idx + 1) `mod` kWordBits)) in
  let top := top .>> ((idx + 1) `div` kWordBits) in
  u64 (top - 1).
Definition WordUntil (w : BitWord) (idx : Z) : Z := w .& MaskAllBitsSetUntil idx.
Definition word_CountSetBits (w : BitWord) : Z := popcount w.
Definition word_CountSetBits_until (w : BitWord) (idx : Z) : Z := popcount (WordUntil w idx).
Definition word_ClearAfter (w : BitWord) (idx : Z) : BitWord := WordUntil w idx.
Definition word_Set_range (w : BitWord) (first last : Z) : BitWord := w .| u64 (MaskAllBitsSetUntil (u32 (last - first)) .<< first).

(** The constants and the comparisons of the packed bytes. *)
Definition L8 : Z := 0x0101010101010101.
Definition H8 : Z := 0x8080808080808080.
Definition BwLessThan (x y : Z) : Z := ((u64 ((y .| H8) - (x .& u64 (Z.lnot H8))) .^ x) .^ y) .& H8.
Definition BwGtZero (x : Z) : Z := (u64 ((x .| H8) - L8) .| x) .& H8.
Definition word_IndexOfNthSet (word_ : BitWord) (n : Z) : Z :=
  let s := u64 (word_ - ((word_ .& 0xAAAAAAAAAAAAAAAA) .>> 1)) in
  let s := u64 ((s .& 0x3333333333333333) + ((s .>> 2) .& 0x3333333333333333)) in
  let s := u64 ((u64 (s + (s .>> 4)) .& 0x0F0F0F0F0F0F0F0F) * L8) in
  let b := (u64 ((BwLessThan s (u64 (n * L8)) .>> 7) * L8) .>> 53) .& u64 (Z.lnot 7) in
  let l := u64 (n - ((u64 (s .<< 8) .>> b) .& 0xFF)) in
  let s := u64 ((BwGtZero (u64 (((word_ .>> b) .& 0xFF) * L8) .& 0x8040201008040201) .>> 7) * L8) in
  u16 (u64 (b + (u64 ((BwLessThan s (u64 (l * L8)) .>> 7) * L8) .>> 56))).

(** ** Blocks *)

Record BlockOffset := mkOffset { word_idx : Z; bit_idx : Z }.
Record Address := mkAddress { block_idx : Z; block_offset : BlockOffset }.
Abbreviation Block := (list Z) (only parsing).
Definition kWords : Z := 8.
Definition kBlockBits : Z := kWords * kWordBits.
Definition Block_new : Block := replicate (Z.to_nat kWords) 0.
Definition Block_IsSet (addr : BlockOffset) (b : Block) : outcome bool := let! w := vec_get b (word_idx addr) in Ok (word_IsSet w (bit_idx addr)).
Definition Block_update (i : Z) (f : BitWord -> BitWord) (b : Block) : outcome Block := let! w := vec_get b i in vec_set b i (f w).
Definition Block_Set (addr : BlockOffset) (b : Block) : outcome Block := Block_update (word_idx addr) (fun w => word_Set w (bit_idx addr)) b.
Definition Block_Clear (addr : BlockOffset) (b : Block) : outcome Block := Block_update (word_idx addr) (fun w => word_Clear w (bit_idx addr)) b.
Fixpoint Block_IndexOfNthSet_loop (words : list BitWord) (i count n : Z) : outcome BlockOffset :=
  match words with
  | [] => Crash
  | w :: words =>
      let value := u32 (count + word_CountSetBits w) in
      if value <=? n then Block_IndexOfNthSet_loop words (i + 1) value n
      else Ok (mkOffset i (word_IndexOfNthSet w (u32 (n - count))))
  end.
Definition Block_IndexOfNthSet (n : Z) (b : Block) : outcome BlockOffset := Block_IndexOfNthSet_loop b 0 0 n.
Definition Block_CountSetBits_until (addr : BlockOffset) (b : Block) : outcome Z :=
  let! count := for_loop 0 (word_idx addr) (fun i count => let! w := vec_get b i in Ok (u32 (count + word_CountSetBits w))) 0 in
  let! w := vec_get b (word_idx addr) in
  Ok (u32 (count + word_CountSetBits_until w (bit_idx addr))).
Definition Block_CountSetBits (b : Block) : outcome Z :=
  for_loop 0 kWords (fun i count => let! w := vec_get b i in Ok (u32 (count + word_CountSetBits w))) 0.
Definition Block_ClearAfter (offset : BlockOffset) (b : Block) : outcome Block :=
  let! b := Block_update (word_idx offset) (fun w => word_ClearAfter w (bit_idx offset)) b in
  for_loop (word_idx offset + 1) kWords (fun i b => vec_set b i 0) b.
Definition Block_Set_range (first last : BlockOffset) (b : Block) : outcome Block :=
  if word_idx first =? word_idx last then Block_update (word_idx first) (fun w => word_Set_range w (bit_idx first) (bit_idx last)) b
  else
    let! b := Block_update (word_idx first) (fun w => word_Set_range w (bit_idx first) (kWordBits - 1)) b in
    let! b := for_loop (word_idx first + 1) (word_idx last) (fun i b => Block_update i (fun w => word_Set_range w 0 (kWordBits - 1)) b) b in
    Block_update (word_idx last) (fun w => word_Set_range w 0 (bit_idx last)) b.
Definition Block_FromFiller (offset : Z) (f : Z -> bool) : outcome Block :=
  for_loop 0 kWordBits (fun i b =>
    let mask := u64 (1 .<< i) in
    let offset_with_bit := u32 (offset + i) in
    for_loop 0 kWords (fun j b => Block_update j (fun w => word_Or w (if f (u32 (offset_with_bit + j * kWordBits)) then mask else 0)) b) b) Block_new.

(** ** The vector *)

Record BitVector := mkBitVector { size_ : Z; counts_ : list Z; blocks_ : list Block }.
Definition BitVector_new : BitVector := mkBitVector 0 [] [].
Definition set_counts (counts : list Z) (bv : BitVector) : BitVector := mkBitVector (size_ bv) counts (blocks_ bv).
Definition set_blocks (blocks : list Block) (bv : BitVector) : BitVector := mkBitVector (size_ bv) (counts_ bv) blocks.
Definition set_size (size : Z) (bv : BitVector) : BitVector := mkBitVector size (counts_ bv) (blocks_ bv).
Definition update_block (i : Z) (f : Block -> outcome Block) (bv : BitVector) : outcome BitVector :=
  let! b := vec_get (blocks_ bv) i in
  let! b := f b in
  let! blocks := vec_set (blocks_ bv) i b in
  Ok (set_blocks blocks bv).
Definition WordCeil (idx : Z) : Z := u32 (idx + kWordBits - 1) `div` kWordBits.
Definition IndexToAddress (idx : Z) : Address :=
  let bit_idx_inside_block := idx `mod` kBlockBits in
  mkAddress (idx `div` kBlockBits) (mkOffset (bit_idx_inside_block `div` kWordBits) (bit_idx_inside_block `mod` kWordBits)).
Definition AddressToIndex (addr : Address) : Z :=
  u32 (block_idx addr * kBlockBits + word_idx (block_offset addr) * kWordBits + bit_idx (block_offset addr)).
Definition BlockCeil (idx : Z) : Z := u32 (idx + kBlockBits - 1) `div` kBlockBits.
Definition BlockFloor (idx : Z) : Z := idx `div` kBlockBits.
Definition BlockToIndex (block : Z) : Z := u32 (block * kBlockBits).
Definition ApproxBytesCost (n : Z) : Z := u32 (BlockCeil n * kBlockBits + BlockCeil n * 4).

Definition IsSet (idx : Z) (bv : BitVector) : outcome bool :=
  let a := IndexToAddress idx in
  let! b := vec_get (blocks_ bv) (block_idx a) in
  Block_IsSet (block_offset a) b.
Definition CountSetBits_until (end_ : Z) (bv : BitVector) : outcome Z :=
  if end_ =? 0 then Ok 0
  else
    let addr := IndexToAddress (end_ - 1) in
    let idx := block_idx addr in
    let! count := vec_get (counts_ bv) idx in
    let! b := vec_get (blocks_ bv) idx in
    let! in_block := Block_CountSetBits_until (block_offset addr) b in
    Ok (u32 (count + in_block)).
Definition CountSetBits (bv : BitVector) : outcome Z := CountSetBits_until (size_ bv) bv.
Definition IndexOfNthSet (n : Z) (bv : BitVector) : outcome Z :=
  let it := upper_bound Z.ltb (counts_ bv) n in
  let block_idx := u32 (Z.of_nat it - 1) in
  let! count := vec_get (counts_ bv) block_idx in
  let set_in_block := u32 (n - count) in
  let! b := vec_get (blocks_ bv) block_idx in
  let! block_offset := Block_IndexOfNthSet set_in_block b in
  Ok (AddressToIndex (mkAddress block_idx block_offset)).
(** Adds to the counts from [first] to before [last]. *)
Definition add_to_counts (first last diff : Z) (bv : BitVector) : outcome BitVector :=
  let! counts := for_loop first last (fun i counts => let! c := vec_get counts i in vec_set counts i (u32 (c + diff))) (counts_ bv) in
  Ok (set_counts counts bv).
Definition Set_ (idx : Z) (bv : BitVector) : outcome (bool * BitVector) :=
  let addr := IndexToAddress idx in
  let! b := vec_get (blocks_ bv) (block_idx addr) in
  let! old_value := Block_IsSet (block_offset addr) b in
  if negb old_value then
    let! bv := update_block (block_idx addr) (Block_Set (block_offset addr)) bv in
    let! bv := add_to_counts (block_idx addr + 1) (zlen (counts_ bv)) 1 bv in
    Ok (old_value, bv)
  else Ok (old_value, bv).
Definition Clear (idx : Z) (bv : BitVector) : outcome BitVector :=
  let addr := IndexToAddress idx in
  let! b := vec_get (blocks_ bv) (block_idx addr) in
  let! old_value := Block_IsSet (block_offset addr) b in
  if old_value then
    let! bv := update_block (block_idx addr) (Block_Clear (block_offset addr)) bv in
    add_to_counts (block_idx addr + 1) (zlen (counts_ bv)) (-1) bv
  else Ok bv.
(** The new block of AppendTrue and AppendFalse. *)
Definition append_block (new_blocks_size : Z) (bv : BitVector) : outcome BitVector :=
  if zlen (blocks_ bv) <? new_blocks_size then
    let! t := CountSetBits bv in
    Ok (mkBitVector (size_ bv) (counts_ bv ++ [t]) (blocks_ bv ++ [Block_new]))
  else Ok bv.
Definition AppendTrue (bv : BitVector) : outcome BitVector :=
  let addr := IndexToAddress (size_ bv) in
  let! bv := append_block (block_idx addr + 1) bv in
  update_block (block_idx addr) (Block_Set (block_offset addr)) (set_size (u32 (size_ bv + 1)) bv).
Definition AppendFalse (bv : BitVector) : outcome BitVector :=
  let addr := IndexToAddress (size_ bv) in
  let! bv := append_block (block_idx addr + 1) bv in
  Ok (set_size (u32 (size_ bv + 1)) bv).
Definition Append (value : bool) (bv : BitVector) : outcome BitVector := if value then AppendTrue bv else AppendFalse bv.
Definition kFirstBlockOffset : BlockOffset := mkOffset 0 0.
Definition kLastBlockOffset : BlockOffset := mkOffset (kWords - 1) (kWordBits - 1).
Definition Set_range (first last : Address) (bv : BitVector) : outcome BitVector :=
  if block_idx first =? block_idx last then update_block (block_idx first) (Block_Set_range (block_offset first) (block_offset last)) bv
  else
    let! bv := update_block (block_idx first) (Block_Set_range (block_offset first) kLastBlockOffset) bv in
    let! bv := for_loop (block_idx first + 1) (block_idx last) (fun i bv => update_block i (Block_Set_range kFirstBlockOffset kLastBlockOffset) bv) bv in
    update_block (block_idx last) (Block_Set_range kFirstBlockOffset (block_offset last)) bv.
(** What Resize does for new bits that are set, and for new bits that are not. *)
Definition Resize_true (old_size : Z) (last_addr : Address) (bv : BitVector) : outcome BitVector :=
  let first := IndexToAddress old_size in
  let! bv := Set_range first last_addr bv in
  let end_of_block := mkAddress (block_idx first) kLastBlockOffset in
  let count_in_block_after_end := u32 (AddressToIndex end_of_block - AddressToIndex first + 1) in
  let! count := CountSetBits bv in
  let! (counts, _) := for_loop (block_idx first + 1) (block_idx last_addr + 1)
    (fun i '(counts, set_count) => let! counts := vec_set counts i set_count in Ok (counts, u32 (set_count + kBlockBits)))
    (counts_ bv, u32 (count + count_in_block_after_end)) in
  Ok (set_counts counts bv).
Definition Resize_false (old_blocks_size new_blocks_size : Z) (bv : BitVector) : outcome BitVector :=
  if old_blocks_size <? new_blocks_size then
    let! count := CountSetBits bv in
    let! counts := for_loop old_blocks_size new_blocks_size (fun i counts => vec_set counts i count) (counts_ bv) in
    Ok (set_counts counts bv)
  else Ok bv.
Definition Resize (size : Z) (value : bool) (bv : BitVector) : outcome BitVector :=
  let old_size := size_ bv in
  if size =? old_size then Ok bv
  else if size =? 0 then Ok BitVector_new
  else
    let last_addr := IndexToAddress (size - 1) in
    let old_blocks_size := zlen (counts_ bv) in
    let new_blocks_size := block_idx last_addr + 1 in
    let bv := mkBitVector (size_ bv) (vec_resize new_blocks_size 0 (counts_ bv)) (vec_resize new_blocks_size Block_new (blocks_ bv)) in
    let! bv :=
      if old_size <? size then
        if value then Resize_true old_size last_addr bv else Resize_false old_blocks_size new_blocks_size bv
      else update_block (block_idx last_addr) (Block_ClearAfter (block_offset last_addr)) bv in
    Ok (set_size size bv).
Definition BitVector_filled (count : Z) (value : bool) : outcome BitVector := Resize count value BitVector_new.
Fixpoint append_all (init : list bool) (bv : BitVector) : outcome BitVector :=
  match init with [] => Ok bv | x :: init => let! bv := Append x bv in append_all init bv end.
Definition BitVector_of (init : list bool) : outcome BitVector := append_all init BitVector_new.
Definition Range (first last : Z) (f : Z -> bool) : outcome BitVector :=
  let start_fast_block := BlockCeil first in
  let start_fast_idx := BlockToIndex start_fast_block in
  let end_fast_block := BlockFloor last in
  let end_fast_idx := BlockToIndex end_fast_block in
  let! bv := BitVector_filled first false in
  let! bv := for_loop first start_fast_idx (fun i bv => Append (f i) bv) bv in
  let! bv := for_loop start_fast_block end_fast_block (fun _ bv =>
    let! count := CountSetBits bv in
    let! block := Block_FromFiller (size_ bv) f in
    Ok (mkBitVector (u32 (size_ bv + kBlockBits)) (counts_ bv ++ [count]) (blocks_ bv ++ [block]))) bv in
  for_loop end_fast_idx last (fun i bv => Append (f i) bv) bv.

(** ** Updating the set bits *)

Fixpoint PdepSlow_loop (fuel : nat) (word bb mask result : Z) : outcome Z :=
  if mask =? 0 then Ok result
  else
    match fuel with
    | O => Crash
    | S fuel =>
        let result := if negb (word .& bb =? 0) then result .| (mask .& u64 (- mask)) else result in
        PdepSlow_loop fuel word (u64 (bb + bb)) (mask .& u64 (mask - 1)) result
    end.
Definition PdepSlow (word mask : Z) : outcome Z :=
  if (word =? 0) || (mask =? 2 ^ 64 - 1) then Ok word else PdepSlow_loop 64 word 1 mask 0.
(** The words of all blocks, as the pointers of UpdateSetBits see them. *)
Definition get_word (bv : BitVector) (i : Z) : outcome BitWord := let! b := vec_get (blocks_ bv) (i `div` kWords) in vec_get b (i `mod` kWords).
Definition set_word (i w : Z) (bv : BitVector) : outcome BitVector := update_block (i `div` kWords) (fun b => vec_set b (i `mod` kWords) w) bv.
Record update_state := mkUpdate { update_ptr : Z; update_unused_bits : Z; unused_bits_count : Z }.
(** The bits for a word with [popcount] set bits, and what is left of them. *)
Definition take_update_bits (update : BitVector) (update_ptr_end popcount : Z) (u : update_state) : outcome (Z * update_state) :=
  if popcount <=? unused_bits_count u then
    Ok (update_unused_bits u, mkUpdate (update_ptr u) (if popcount =? 64 then 0 else update_unused_bits u .>> popcount) (u8 (unused_bits_count u - popcount)))
  else
    let! (next_update, ptr) := if update_ptr u =? update_ptr_end then Ok (0, update_ptr u) else let! w := get_word update (update_ptr u) in Ok (w, update_ptr u + 1) in
    let update_for_current := update_unused_bits u .| u64 (next_update .<< unused_bits_count u) in
    let used_next_bits := u8 (popcount - unused_bits_count u) in
    Ok (update_for_current, mkUpdate ptr (if used_next_bits =? 64 then 0 else next_update .>> used_next_bits) (u8 (64 - used_next_bits))).
Definition update_word (update : BitVector) (update_ptr_end i : Z) (s : BitVector * update_state) : outcome (BitVector * update_state) :=
  let '(bv, u) := s in
  let! current := get_word bv i in
  if current =? 0 then Ok (bv, u)
  else
    let! (update_for_current, u) := take_update_bits update update_ptr_end (u8 (popcount current)) u in
    check! unused_bits_count u <=? 64 in
    let! w := PdepSlow update_for_current current in
    let! bv := set_word i w bv in
    Ok (bv, u).
(** The bound of the last loop, counts_.size() - 1, wraps when there is no block; the first
    access is then out of range. *)
Definition recount (bv : BitVector) : outcome BitVector :=
  if zlen (counts_ bv) =? 0 then Crash
  else
    let! counts := for_loop 0 (zlen (counts_ bv) - 1) (fun i counts =>
      let! c := vec_get counts i in
      let! b := vec_get (blocks_ bv) i in
      let! n := Block_CountSetBits b in
      vec_set counts (i + 1) (u32 (c + n))) (counts_ bv) in
    Ok (set_counts counts bv).
Definition UpdateSetBits (update bv : BitVector) : outcome BitVector :=
  let! (bv, _) := for_loop 0 (WordCeil (size_ bv)) (update_word update (WordCeil (size_ update))) (bv, mkUpdate 0 0 0) in
  recount bv.
