(* ===== verification/BitVectorWords.v ===== *)
(** * The words of the bit vector

    The number of set bits below an index, what the operations on words do to each bit, and
    the software PDEP. *)

From S2P Require Import Prelude StdAlgorithms BitVector.

Local Open Scope cpp_scope.

(** ** Counting *)

Definition b2z (b : bool) : Z := if b then 1 else 0.
(** How many of the first [n] bits are set. *)
Definition rank (f : Z -> bool) (n : Z) : Z := foldr (fun i k => b2z (f i) + k) 0 (seqZ 0 n).
Lemma popcount_rank w : popcount w = rank (Z.testbit w) 64.
Proof. done. Qed.
Lemma b2z_range b : 0 <= b2z b <= 1.
Proof. by destruct b. Qed.
Lemma rank_0 f n : n <= 0 -> rank f n = 0.
Proof. intros. unfold rank. by rewrite seqZ_nil. Qed.
Lemma foldr_rank_app (f : Z -> bool) l k : foldr (fun i n => b2z (f i) + n) k l = foldr (fun i n => b2z (f i) + n) 0 l + k.
Proof. induction l as [|i l IH]; cbn; [done|]. rewrite IH. lia. Qed.
Lemma rank_succ f n : 0 <= n -> rank f (n + 1) = rank f n + b2z (f n).
Proof. intros. unfold rank. rewrite seqZ_app by lia. rewrite foldr_app, foldr_rank_app, (seqZ_cons (0 + n) 1), (seqZ_nil (Z.succ (0 + n))) by lia. cbn [foldr]. rewrite Z.add_0_l. lia. Qed.
Lemma rank_ext f g n : (forall i, 0 <= i < n -> f i = g i) -> rank f n = rank g n.
Proof.
  intros H. destruct (Z.le_gt_cases n 0); [by rewrite !rank_0|]. revert H. pattern n. apply (Zlt_lower_bound_ind _ 1); [|lia]. clear n H0. intros n IH Hn H. replace n with ((n - 1) + 1) by lia. rewrite !rank_succ by lia. rewrite (H (n - 1)) by lia. f_equal.
  destruct (Z.eq_dec n 1) as [->|]; [done|]. apply IH; [lia|]. intros i Hi. apply H. lia.
Qed.
Lemma rank_ind (P : Z -> Prop) : P 0 -> (forall n, 0 <= n -> P n -> P (n + 1)) -> forall n, 0 <= n -> P n.
Proof. intros H0 Hs. apply natlike_ind; [done|]. intros x Hx. by apply Hs. Qed.
Lemma rank_split f a b : 0 <= a -> 0 <= b -> rank f (a + b) = rank f a + rank (fun i => f (a + i)) b.
Proof. intros Ha. revert b. apply (rank_ind (fun b => rank f (a + b) = rank f a + rank (fun i => f (a + i)) b)); [rewrite Z.add_0_r, (rank_0 _ 0) by lia; lia|]. intros b Hb IH. rewrite Z.add_assoc, !rank_succ by lia. lia. Qed.
Lemma rank_range f n : 0 <= n -> 0 <= rank f n <= n.
Proof. revert n. apply (rank_ind (fun n => 0 <= rank f n <= n)); [rewrite rank_0; lia|]. intros n Hn IH. rewrite rank_succ by lia. pose proof (b2z_range (f n)). lia. Qed.
Lemma rank_mono f a b : 0 <= a <= b -> rank f a <= rank f b.
Proof. intros. replace b with (a + (b - a)) by lia. rewrite rank_split by lia. pose proof (rank_range (fun i => f (a + i)) (b - a)). lia. Qed.
Lemma rank_false f n : (forall i, 0 <= i < n -> f i = false) -> rank f n = 0.
Proof. intros H. rewrite (rank_ext _ (fun _ => false) n H). destruct (Z.le_gt_cases n 0); [by apply rank_0|]. assert (0 <= n) as Hn by lia. clear -Hn. revert n Hn. apply (rank_ind (fun n => rank (fun _ => false) n = 0)); [done|]. intros n Hn IH. rewrite rank_succ by lia. cbn. lia. Qed.
Lemma rank_true f n : 0 <= n -> (forall i, 0 <= i < n -> f i = true) -> rank f n = n.
Proof. intros Hn H. rewrite (rank_ext _ (fun _ => true) n H). clear H. revert n Hn. apply (rank_ind (fun n => rank (fun _ => true) n = n)); [done|]. intros n Hn IH. rewrite rank_succ by lia. cbn. lia. Qed.
Lemma rank_stable f a b : 0 <= a <= b -> (forall i, a <= i < b -> f i = false) -> rank f b = rank f a.
Proof. intros Hab H. replace b with (a + (b - a)) by lia. rewrite rank_split by lia. rewrite (rank_false (fun i => f (a + i))); [lia|]. intros i Hi. apply H. lia. Qed.
(** One bit changed. *)
Lemma rank_update f g n i : 0 <= i -> (forall j, 0 <= j -> j <> i -> g j = f j) -> rank g n = rank f n + (if i <? n then b2z (g i) - b2z (f i) else 0).
Proof.
  intros Hi H. destruct (Z.ltb_spec i n) as [Hin|Hin].
  - replace n with ((i + 1) + (n - (i + 1))) by lia. rewrite !(rank_split _ (i + 1)), !rank_succ by lia. rewrite (rank_ext g f i) by (intros j Hj; apply H; lia). rewrite (rank_ext (fun j => g (i + 1 + j)) (fun j => f (i + 1 + j))) by (intros j Hj; apply H; lia). lia.
  - rewrite (rank_ext g f) by (intros j Hj; apply H; lia). lia.
Qed.
(** The place of the [n]th set bit. *)
Definition is_nth (f : Z -> bool) (n i : Z) : Prop := 0 <= i /\ f i = true /\ rank f i = n.
Lemma is_nth_lt f n i m : is_nth f n i -> i < m -> n < rank f m.
Proof. intros (Hi & Hf & Hn) Hm. pose proof (rank_mono f (i + 1) m ltac:(lia)) as Hr. rewrite rank_succ, Hf in Hr by lia. cbn in Hr. lia. Qed.
Lemma is_nth_order f n m i j : is_nth f n i -> is_nth f m j -> n < m -> i < j.
Proof. intros Hi (Hj & _ & Hm) Hnm. destruct (Z.lt_ge_cases i j) as [|Hge]; [done|]. pose proof (rank_mono f j i ltac:(lia)). destruct Hi as (_ & _ & Hn). lia. Qed.
Lemma is_nth_unique f n i j : is_nth f n i -> is_nth f n j -> i = j.
Proof. intros Hi Hj. destruct (Z.lt_trichotomy i j) as [H|[|H]]; [|done|]; [pose proof (is_nth_lt _ _ _ _ Hi H)|pose proof (is_nth_lt _ _ _ _ Hj H)]; destruct Hi as (_ & _ & ?), Hj as (_ & _ & ?); lia. Qed.
Lemma is_nth_exists f n m : 0 <= m -> 0 <= n < rank f m -> exists i, is_nth f n i /\ i < m.
Proof.
  intros Hm. revert m Hm n. apply (rank_ind (fun m => forall n, 0 <= n < rank f m -> exists i, is_nth f n i /\ i < m)); [intros n; rewrite rank_0; lia|]. intros m Hm IH n Hn. rewrite rank_succ in Hn by lia. destruct (Z.lt_ge_cases n (rank f m)) as [Hlt|Hge].
  - destruct (IH n) as (i & Hi & Him); [lia|]. exists i. split; [done|lia].
  - destruct (f m) eqn:E; cbn in Hn; [|lia]. exists m. split; [|lia]. split; [done|]. split; [done|]. lia.
Qed.
Lemma is_nth_ext f g n i : (forall j, 0 <= j <= i -> f j = g j) -> is_nth f n i -> is_nth g n i.
Proof. intros H (Hi & Hf & Hn). split; [done|]. rewrite <- (H i) by lia. split; [done|]. rewrite <- Hn. apply rank_ext. intros j Hj. symmetry. apply H. lia. Qed.

(** ** The bits of a word *)

Definition word64 (w : Z) : Prop := 0 <= w < 2 ^ 64.
Lemma word64_bit w i : word64 w -> 64 <= i -> Z.testbit w i = false.
Proof. intros. apply (testbit_small 64); [done|lia|lia]. Qed.
Lemma word64_of_bits w : 0 <= w -> (forall i, 64 <= i -> Z.testbit w i = false) -> word64 w.
Proof.
  intros Hw H. split; [done|]. destruct (Z.lt_ge_cases w (2 ^ 64)) as [|Hge]; [done|]. exfalso. assert (0 < 2 ^ 64) by done. assert (Hl : 64 <= Z.log2 w) by (apply Z.log2_le_pow2; lia). specialize (H _ Hl). rewrite Z.bit_log2 in H by lia. done.
Qed.
Lemma word64_u64 x : word64 (u64 x).
Proof. apply u64_range. Qed.
Lemma u64_testbit x i : 0 <= i -> Z.testbit (u64 x) i = (i <? 64) && Z.testbit x i.
Proof. intros. unfold u64, uw. by rewrite Z.testbit_mod_pow2 by lia. Qed.
Lemma word64_land_l a b : word64 a -> 0 <= b -> word64 (a .& b).
Proof. intros Ha Hb. apply word64_of_bits; [apply Z.land_nonneg; destruct Ha; lia|]. intros i Hi. by rewrite Z.land_spec, word64_bit. Qed.
Lemma word64_lor a b : word64 a -> word64 b -> word64 (a .| b).
Proof. intros Ha Hb. apply word64_of_bits; [apply Z.lor_nonneg; destruct Ha, Hb; lia|]. intros i Hi. by rewrite Z.lor_spec, !word64_bit. Qed.
#[export] Hint Resolve word64_u64 word64_lor : words.
Lemma word_IsSet_spec w i : 0 <= i -> word_IsSet w i = Z.testbit w i.
Proof. intros. unfold word_IsSet. rewrite land_1, <- Z.bit0_mod, Z.shiftr_spec by lia. rewrite Z.add_0_l. by destruct (Z.testbit w i). Qed.
Lemma pow2_word i : 0 <= i < 64 -> 0 < 2 ^ i < 2 ^ 64.
Proof. intros. split; [apply Z.pow_pos_nonneg; lia|apply Z.pow_lt_mono_r; lia]. Qed.
Lemma u64_shiftl_1 i : 0 <= i < 64 -> u64 (1 .<< i) = 2 ^ i.
Proof. intros. rewrite Z.shiftl_1_l. apply (uw_small 64). pose proof (pow2_word i). lia. Qed.
Lemma pow2_testbit i j : 0 <= i -> Z.testbit (2 ^ i) j = (j =? i).
Proof. intros. rewrite Z.pow2_bits_eqb by lia. apply Z.eqb_sym. Qed.
Lemma word_Set_spec w i j : 0 <= i < 64 -> Z.testbit (word_Set w i) j = (j =? i) || Z.testbit w j.
Proof. intros. unfold word_Set, word_Or. rewrite u64_shiftl_1 by lia. rewrite Z.lor_spec, pow2_testbit by lia. apply orb_comm. Qed.
Lemma word_Set_word64 w i : word64 w -> word64 (word_Set w i).
Proof. intros. unfold word_Set, word_Or. auto with words. Qed.
Lemma word_Clear_spec w i j : word64 w -> 0 <= i < 64 -> 0 <= j -> Z.testbit (word_Clear w i) j = negb (j =? i) && Z.testbit w j.
Proof.
  intros Hw Hi Hj. unfold word_Clear. rewrite u64_shiftl_1 by lia. rewrite Z.land_spec, u64_testbit, Z.lnot_spec, pow2_testbit by lia. destruct (Z.ltb_spec j 64); [apply andb_comm|]. cbn [andb]. rewrite (word64_bit w j Hw) by lia. by rewrite !andb_false_r.
Qed.
Lemma word_Clear_word64 w i : word64 w -> word64 (word_Clear w i).
Proof. intros. unfold word_Clear. apply word64_land_l; [done|apply word64_u64]. Qed.
Lemma MaskAllBitsSetUntil_spec idx : 0 <= idx < 64 -> MaskAllBitsSetUntil idx = Z.ones (idx + 1).
Proof.
  intros H. unfold MaskAllBitsSetUntil, kWordBits. cbv zeta. rewrite Z.ones_equiv. destruct (Z.eq_dec idx 63) as [->|]; [done|]. rewrite (Z.mod_small (idx + 1)), (Z.div_small (idx + 1)) by lia. rewrite u64_shiftl_1, Z.shiftr_0_r by lia. apply u64_small. pose proof (Z.pow_pos_nonneg 2 (idx + 1)). pose proof (Z.pow_lt_mono_r 2 (idx + 1) 64). lia.
Qed.
Lemma mask_testbit idx j : 0 <= idx < 64 -> 0 <= j -> Z.testbit (MaskAllBitsSetUntil idx) j = (j <=? idx).
Proof. intros. rewrite MaskAllBitsSetUntil_spec, Z.testbit_ones_nonneg by lia. destruct (Z.ltb_spec j (idx + 1)), (Z.leb_spec j idx); lia || done. Qed.
Lemma WordUntil_spec w idx j : 0 <= idx < 64 -> 0 <= j -> Z.testbit (WordUntil w idx) j = (j <=? idx) && Z.testbit w j.
Proof. intros. unfold WordUntil. rewrite Z.land_spec, mask_testbit by lia. apply andb_comm. Qed.
Lemma WordUntil_word64 w idx : word64 w -> 0 <= idx < 64 -> word64 (WordUntil w idx).
Proof. intros. unfold WordUntil. apply word64_land_l; [done|]. rewrite MaskAllBitsSetUntil_spec, Z.ones_equiv by lia. pose proof (Z.pow_pos_nonneg 2 (idx + 1)). lia. Qed.
Lemma word_CountSetBits_until_spec w idx : 0 <= idx < 64 -> word_CountSetBits_until w idx = rank (Z.testbit w) (idx + 1).
Proof.
  intros. unfold word_CountSetBits_until. rewrite popcount_rank. rewrite (rank_stable _ (idx + 1) 64); [|lia|].
  - apply rank_ext. intros j Hj. rewrite WordUntil_spec by lia. destruct (Z.leb_spec j idx); [done|lia].
  - intros j Hj. rewrite WordUntil_spec by lia. destruct (Z.leb_spec j idx); [lia|done].
Qed.
Lemma word_Set_range_spec w a b j : 0 <= a <= b -> b < 64 -> 0 <= j -> Z.testbit (word_Set_range w a b) j = ((a <=? j) && (j <=? b)) || Z.testbit w j.
Proof.
  intros Ha Hb Hj. unfold word_Set_range. rewrite u32_small by lia. rewrite Z.lor_spec, u64_testbit by lia. rewrite orb_comm. f_equal. destruct (Z.leb_spec a j).
  - rewrite Z.shiftl_spec, mask_testbit by lia. destruct (Z.ltb_spec j 64), (Z.leb_spec (j - a) (b - a)), (Z.leb_spec j b); lia || done.
  - rewrite Z.shiftl_spec_low by lia. apply andb_false_r.
Qed.
Lemma word_Set_range_word64 w a b : word64 w -> word64 (word_Set_range w a b).
Proof. intros. unfold word_Set_range. auto with words. Qed.
#[export] Hint Resolve word_Set_word64 word_Clear_word64 word_Set_range_word64 : words.
Lemma popcount_range w : 0 <= popcount w <= 64.
Proof. apply rank_range. lia. Qed.
Lemma word64_eq a b : word64 a -> word64 b -> (forall i, 0 <= i < 64 -> Z.testbit a i = Z.testbit b i) -> a = b.
Proof. intros Ha Hb H. apply Z.bits_inj'. intros i Hi. destruct (Z.lt_ge_cases i 64); [by apply H|by rewrite !word64_bit]. Qed.
Lemma popcount_0 w : word64 w -> popcount w = 0 -> w = 0.
Proof.
  intros Hw Hp. apply word64_eq; [done|done|]. intros i Hi. rewrite Z.testbit_0_l. destruct (Z.testbit w i) eqn:E; [|done]. rewrite popcount_rank in Hp. pose proof (is_nth_lt (Z.testbit w) (rank (Z.testbit w) i) i 64) as H. pose proof (rank_range (Z.testbit w) i). exfalso. assert (rank (Z.testbit w) i < 0); [|lia]. rewrite <- Hp. apply H; [split_and!; [lia|done|done]|lia].
Qed.

(** ** PDEP *)

(** Bit [j] of the mask, if set, takes the next bit of the word. *)
Definition pdep_bit (word mask j : Z) : bool := Z.testbit mask j && Z.testbit word (rank (Z.testbit mask) j).
(** The lowest set bit. *)
Lemma lowest_bit x : 0 < x -> exists m, 0 <= m /\ Z.testbit x m = true /\ forall j, 0 <= j < m -> Z.testbit x j = false.
Proof.
  intros Hx. destruct (is_nth_exists (Z.testbit x) 0 (Z.log2 x + 1)) as (m & (Hm & Hb & Hr) & _); [pose proof (Z.log2_nonneg x); lia| |].
  - pose proof (Z.log2_nonneg x). pose proof (rank_range (Z.testbit x) (Z.log2 x)). rewrite rank_succ, Z.bit_log2 by lia. cbn. lia.
  - exists m. split; [done|]. split; [done|]. intros j Hj. destruct (Z.testbit x j) eqn:E; [|done]. pose proof (is_nth_lt (Z.testbit x) (rank (Z.testbit x) j) j m). pose proof (rank_range (Z.testbit x) j). assert (rank (Z.testbit x) j < rank (Z.testbit x) m); [|lia]. apply H; [split_and!; [lia|done|done]|lia].
Qed.
Lemma testbit_pred x m j : 0 <= m -> Z.testbit x m = true -> (forall k, 0 <= k < m -> Z.testbit x k = false) -> 0 <= j ->
  Z.testbit (x - 1) j = if j <? m then true else if j =? m then false else Z.testbit x j.
Proof.
  intros Hm Hb Hlow Hj. set (q := x .>> (m + 1)). assert (Ex : x = 2 ^ (m + 1) * q + 2 ^ m).
  { apply Z.bits_inj'. intros i Hi. assert (Hd : Z.testbit (2 ^ (m + 1) * q + 2 ^ m) i = (i =? m) || (if i <? m + 1 then false else Z.testbit x i)).
    { rewrite Z.add_nocarry_lxor, Z.lxor_spec.
      - rewrite Z.mul_comm, Z.mul_pow2_bits, pow2_testbit by lia. unfold q. destruct (Z.ltb_spec i (m + 1)).
        + rewrite Z.testbit_neg_r by lia. by destruct (i =? m).
        + rewrite Z.shiftr_spec by lia. replace (i - (m + 1) + (m + 1)) with i by lia. destruct (Z.eqb_spec i m); [lia|]. by destruct (Z.testbit x i).
      - apply Z.bits_inj'. intros k Hk. rewrite Z.land_spec, Z.testbit_0_l, pow2_testbit, Z.mul_comm, Z.mul_pow2_bits by lia. destruct (Z.eqb_spec k m); [|apply andb_false_r]. by rewrite Z.testbit_neg_r by lia. }
    rewrite Hd. destruct (Z.eqb_spec i m) as [->|]; [done|]. destruct (Z.ltb_spec i (m + 1)); cbn; [apply Hlow; lia|done]. }
  assert (Hp : x - 1 = 2 ^ (m + 1) * q + Z.ones m) by (rewrite Z.ones_equiv; lia). rewrite Hp, Z.add_nocarry_lxor, Z.lxor_spec.
  - rewrite Z.mul_comm, Z.mul_pow2_bits, Z.testbit_ones_nonneg by lia. destruct (Z.ltb_spec j m); [by rewrite Z.testbit_neg_r by lia|]. unfold q. destruct (Z.eqb_spec j m); [by rewrite Z.testbit_neg_r by lia|]. rewrite Z.shiftr_spec by lia. replace (j - (m + 1) + (m + 1)) with j by lia. apply xorb_false_r.
  - apply Z.bits_inj'. intros k Hk. rewrite Z.land_spec, Z.testbit_0_l, Z.testbit_ones_nonneg, Z.mul_comm, Z.mul_pow2_bits by lia. destruct (Z.ltb_spec k m); [|apply andb_false_r]. by rewrite Z.testbit_neg_r by lia.
Qed.
Lemma clear_lowest x m j : word64 x -> 0 <= m -> Z.testbit x m = true -> (forall k, 0 <= k < m -> Z.testbit x k = false) -> 0 <= j -> Z.testbit (x .& u64 (x - 1)) j = Z.testbit x j && negb (j =? m).
Proof.
  intros Hx Hm Hb Hlow Hj. rewrite Z.land_spec, u64_testbit, (testbit_pred x m j) by done. destruct (Z.ltb_spec j 64); cbn [andb].
  - destruct (Z.ltb_spec j m); [rewrite Hlow by lia; done|]. destruct (Z.eqb_spec j m); [done|]. cbn. by destruct (Z.testbit x j).
  - by rewrite word64_bit.
Qed.
Lemma isolate_lowest x m j : word64 x -> 0 <= m -> Z.testbit x m = true -> (forall k, 0 <= k < m -> Z.testbit x k = false) -> 0 <= j -> Z.testbit (x .& u64 (- x)) j = (j =? m).
Proof.
  intros Hx Hm Hb Hlow Hj. replace (- x) with (Z.lnot (x - 1)) by (pose proof (Z.add_lnot_diag (x - 1)); lia). rewrite Z.land_spec, u64_testbit, Z.lnot_spec, (testbit_pred x m j) by done. destruct (Z.ltb_spec j 64); cbn [andb].
  - destruct (Z.ltb_spec j m); [rewrite Hlow by lia; destruct (Z.eqb_spec j m); [lia|done]|]. destruct (Z.eqb_spec j m) as [->|]; [by rewrite Hb|]. by destruct (Z.testbit x j).
  - rewrite word64_bit by done. destruct (Z.eqb_spec j m) as [->|]; [|done]. by rewrite word64_bit in Hb.
Qed.
Lemma single_bit_test w k : 0 <= k -> negb (w .& 2 ^ k =? 0) = Z.testbit w k.
Proof. intros. rewrite land_pow2_bit by lia. destruct (Z.testbit w k); [|done]. pose proof (Z.pow_pos_nonneg 2 k). destruct (Z.eqb_spec (2 ^ k) 0); [lia|done]. Qed.
Section pdep.
Context (word : Z) (F : Z -> bool) (HF : forall j, 64 <= j -> F j = false).

(** After [k] rounds: the [k] lowest bits of the mask are gone and copied. *)
Record pdep_inv (k cur res : Z) : Prop := {
  pi_range : 0 <= k;
  pi_cur : word64 cur;
  pi_cur_bits : forall j, 0 <= j -> Z.testbit cur j = F j && (k <=? rank F j);
  pi_res : word64 res;
  pi_res_bits : forall j, 0 <= j -> Z.testbit res j = F j && (rank F j <? k) && Z.testbit word (rank F j)
}.
Lemma pdep_lowest k cur res m : pdep_inv k cur res -> 0 <= m -> Z.testbit cur m = true -> (forall j, 0 <= j < m -> Z.testbit cur j = false) -> is_nth F k m.
Proof.
  intros H Hm Hb Hlow. rewrite (pi_cur_bits _ _ _ H) in Hb by done. apply andb_true_iff in Hb as [Hf Hk]. apply Z.leb_le in Hk. split; [done|]. split; [done|]. destruct (Z.le_gt_cases (rank F m) k); [lia|]. exfalso.
  destruct (is_nth_exists F k m) as (i & (Hi & Hfi & Hri) & Him); [done|split; [apply H|lia]|]. specialize (Hlow i ltac:(lia)). rewrite (pi_cur_bits _ _ _ H), Hfi, Hri, Z.leb_refl in Hlow by done. done.
Qed.
Lemma pdep_step k cur res m : pdep_inv k cur res -> is_nth F k m -> Z.testbit cur m = true -> (forall j, 0 <= j < m -> Z.testbit cur j = false) ->
  pdep_inv (k + 1) (cur .& u64 (cur - 1)) (if Z.testbit word k then res .| (cur .& u64 (- cur)) else res).
Proof.
  intros H Hn Hb Hlow. pose proof Hn as (Hm & Hfm & Hrm). pose proof (pi_range _ _ _ H). assert (Hsame : forall j, 0 <= j -> F j = true -> (rank F j = k <-> j = m)).
  { intros j Hj Hf. split; [|by intros ->]. intros Hr. by apply (is_nth_unique F k). }
  assert (Hiso : word64 (cur .& u64 (- cur))) by (apply word64_land_l; [apply H|apply word64_u64]). split.
  - lia.
  - apply word64_land_l; [apply H|apply word64_u64].
  - intros j Hj. rewrite (clear_lowest cur m) by (done || apply H). rewrite (pi_cur_bits _ _ _ H) by done. destruct (F j) eqn:Ef; [|done]. cbn. specialize (Hsame j Hj Ef). destruct (Z.leb_spec k (rank F j)), (Z.leb_spec (k + 1) (rank F j)), (Z.eqb_spec j m); try done; exfalso; lia.
  - destruct (Z.testbit word k); [apply word64_lor; [apply H|done]|apply H].
  - intros j Hj. assert (Hr : Z.testbit (if Z.testbit word k then res .| (cur .& u64 (- cur)) else res) j = Z.testbit res j || ((j =? m) && Z.testbit word k)).
    { destruct (Z.testbit word k); [|by rewrite andb_false_r, orb_false_r]. rewrite Z.lor_spec, (isolate_lowest cur m) by (done || apply H). by rewrite andb_true_r. }
    rewrite Hr, (pi_res_bits _ _ _ H) by done. destruct (F j) eqn:Ef.
    + specialize (Hsame j Hj Ef). cbn [andb]. destruct (Z.eqb_spec j m) as [->|Hne].
      * rewrite Hrm, Z.ltb_irrefl. destruct (Z.ltb_spec k (k + 1)); [done|lia].
      * rewrite orb_false_r. destruct (Z.ltb_spec (rank F j) k), (Z.ltb_spec (rank F j) (k + 1)); try done; exfalso; lia.
    + destruct (Z.eqb_spec j m) as [->|]; [congruence|done].
Qed.
Lemma PdepSlow_loop_spec fuel k cur res : pdep_inv k cur res -> (Z.to_nat (64 - k) <= fuel)%nat -> exists r, PdepSlow_loop fuel word (u64 (2 ^ k)) cur res = Ok r /\ word64 r /\ forall j, 0 <= j -> Z.testbit r j = F j && Z.testbit word (rank F j).
Proof.
  revert k cur res. induction fuel as [|fuel IH]; intros k cur res H Hfuel.
  all: pose proof (pi_cur _ _ _ H) as Hc; cbn [PdepSlow_loop]; destruct (Z.eqb_spec cur 0) as [E|E].
  1, 3: exists res; split; [done|]; split; [apply H|]; intros j Hj; rewrite (pi_res_bits _ _ _ H) by done; pose proof (pi_cur_bits _ _ _ H j Hj) as Hb; rewrite E, Z.testbit_0_l in Hb; destruct (F j); [|done]; cbn in *; destruct (Z.leb_spec k (rank F j)), (Z.ltb_spec (rank F j) k); (lia || done).
  all: destruct (lowest_bit cur) as (m & Hm & Hb & Hlow); [destruct Hc; lia|]; pose proof (pdep_lowest _ _ _ _ H Hm Hb Hlow) as Hn; pose proof Hn as (_ & Hfm & Hrm); pose proof (pi_range _ _ _ H);
    assert (m < 64) by (destruct (Z.lt_ge_cases m 64); [done|by rewrite HF in Hfm]); assert (k < 64) by (pose proof (rank_range F m Hm); lia).
  - lia.
  - assert (Eb : u64 (2 ^ k) = 2 ^ k) by (apply (uw_small 64); pose proof (pow2_word k); lia). rewrite Eb, single_bit_test by done. replace (2 ^ k + 2 ^ k) with (2 ^ (k + 1)) by (rewrite Z.pow_add_r by lia; lia). apply IH; [by apply (pdep_step k cur res m)|lia].
Qed.
End pdep.
Lemma PdepSlow_spec word mask : word64 word -> word64 mask -> exists r, PdepSlow word mask = Ok r /\ word64 r /\ forall j, 0 <= j -> Z.testbit r j = pdep_bit word mask j.
Proof.
  intros Hw Hm. unfold PdepSlow. destruct (Z.eqb_spec word 0) as [->|Hne]; [exists 0; split; [done|]; split; [done|]; intros j Hj; unfold pdep_bit; by rewrite !Z.testbit_0_l, andb_false_r|]. destruct (Z.eqb_spec mask (2 ^ 64 - 1)) as [->|Hne']; cbn [orb].
  - exists word. split; [done|]. split; [done|]. intros j Hj. unfold pdep_bit. change (2 ^ 64 - 1) with (Z.ones 64). rewrite Z.testbit_ones_nonneg by lia. destruct (Z.ltb_spec j 64); [|by rewrite word64_bit]. rewrite rank_true; [done|done|]. intros i Hi. rewrite Z.testbit_ones_nonneg by lia. by apply Z.ltb_lt; lia.
  - apply (PdepSlow_loop_spec word (Z.testbit mask) (fun j => word64_bit mask j Hm)) with (k := 0); [|done]. split; [done|done| |done|].
    + intros j Hj. pose proof (rank_range (Z.testbit mask) j Hj). destruct (Z.leb_spec 0 (rank (Z.testbit mask) j)); [by rewrite andb_true_r|lia].
    + intros j Hj. rewrite Z.testbit_0_l. pose proof (rank_range (Z.testbit mask) j Hj). destruct (Z.ltb_spec (rank (Z.testbit mask) j) 0); [lia|by rewrite andb_false_r].
Qed.
