(* ===== verification/BitVectorSelect.v ===== *)
(** * Finding the nth set bit of a word

    The broadword algorithm of BitWord::IndexOfNthSet treats a word as eight bytes.  Each of
    its steps is shown to act on the bytes one by one. *)

From S2P Require Import Prelude StdAlgorithms BitVector BitVectorWords.

Local Open Scope cpp_scope.

(** ** Eight bytes *)

(** The number with the given bytes, the lowest first; the elements need not be bytes. *)
Definition pack (l : list Z) : Z := foldr (fun b r => b + 256 * r) 0 l.
Lemma pack_cons b l : pack (b :: l) = b + 256 * pack l.
Proof. done. Qed.
Lemma byte_bits b i : byte_ok b -> 8 <= i -> Z.testbit b i = false.
Proof. intros. apply (testbit_small 8); [done|lia|lia]. Qed.
Lemma testbit_byte_cons b A i : byte_ok b -> 0 <= i -> Z.testbit (b + 256 * A) i = if i <? 8 then Z.testbit b i else Z.testbit A (i - 8).
Proof.
  intros Hb Hi. replace (b + 256 * A) with (b .| (A .<< 8)) by (rewrite lor_shiftl_add by (unfold byte_ok in Hb; lia); lia). rewrite Z.lor_spec. destruct (Z.ltb_spec i 8).
  - rewrite Z.shiftl_spec_low by lia. apply orb_false_r.
  - rewrite byte_bits by done. by rewrite Z.shiftl_spec by lia.
Qed.
Lemma bitwise_byte_cons (op : Z -> Z -> Z) (bop : bool -> bool -> bool) : (forall x y i, 0 <= i -> Z.testbit (op x y) i = bop (Z.testbit x i) (Z.testbit y i)) -> bop false false = false -> (forall x y, 0 <= x -> 0 <= y -> 0 <= op x y) ->
  forall a A b B, byte_ok a -> byte_ok b -> op (a + 256 * A) (b + 256 * B) = op a b + 256 * op A B /\ byte_ok (op a b).
Proof.
  intros Hop Hff Hnn a A b B Ha Hb. assert (Hab : byte_ok (op a b)).
  { unfold byte_ok in *. split; [apply Hnn; lia|]. apply Z.nle_gt. intros Hge. specialize (Hnn a b). assert (Hlog : 8 <= Z.log2 (op a b)) by (apply Z.log2_le_pow2; lia). pose proof (Hop a b (Z.log2 (op a b)) ltac:(lia)) as Hbit. rewrite Z.bit_log2 in Hbit by lia. rewrite !byte_bits in Hbit by (unfold byte_ok; lia). congruence. }
  split; [|done]. apply Z.bits_inj'. intros i Hi. rewrite Hop, !testbit_byte_cons by done. destruct (Z.ltb_spec i 8); rewrite Hop by lia; done.
Qed.
Lemma land_byte_cons a A b B : byte_ok a -> byte_ok b -> (a + 256 * A) .& (b + 256 * B) = (a .& b) + 256 * (A .& B) /\ byte_ok (a .& b).
Proof. apply (bitwise_byte_cons _ andb); [intros; by apply Z.land_spec|done|intros; apply Z.land_nonneg; lia]. Qed.
Lemma lor_byte_cons a A b B : byte_ok a -> byte_ok b -> (a + 256 * A) .| (b + 256 * B) = (a .| b) + 256 * (A .| B) /\ byte_ok (a .| b).
Proof. apply (bitwise_byte_cons _ orb); [intros; by apply Z.lor_spec|done|intros; apply Z.lor_nonneg; lia]. Qed.
Lemma lxor_byte_cons a A b B : byte_ok a -> byte_ok b -> (a + 256 * A) .^ (b + 256 * B) = (a .^ b) + 256 * (A .^ B) /\ byte_ok (a .^ b).
Proof. apply (bitwise_byte_cons _ xorb); [intros; by apply Z.lxor_spec|done|intros; apply Z.lxor_nonneg; lia]. Qed.
Section bytewise.
Context (op : Z -> Z -> Z) (Hop0 : op 0 0 = 0) (Hop : forall a A b B, byte_ok a -> byte_ok b -> op (a + 256 * A) (b + 256 * B) = op a b + 256 * op A B /\ byte_ok (op a b)).
Lemma bytewise_pack l k : bytes_ok l -> bytes_ok k -> length l = length k -> op (pack l) (pack k) = pack (zip_with op l k) /\ bytes_ok (zip_with op l k).
Proof.
  intros Hl. revert k. induction Hl as [|a l Ha Hl IH]; intros [|b k] Hk Hlen; try done. apply Forall_cons in Hk as [Hb Hk]. cbn [zip_with]. rewrite !pack_cons. destruct (Hop a (pack l) b (pack k) Ha Hb) as [E Hab]. destruct (IH k Hk) as [E' Hlk]; [cbn in Hlen; lia|]. split; [by rewrite E, E'|by constructor].
Qed.
End bytewise.
Lemma pack_range l : bytes_ok l -> 0 <= pack l < 256 ^ zlen l.
Proof.
  induction 1 as [|b l Hb Hl IH]; [done|]. rewrite pack_cons, zlen_cons. pose proof (zlen_nonneg l). rewrite Z.pow_add_r by lia. unfold byte_ok in Hb. lia.
Qed.
Lemma pack_word64 l : bytes_ok l -> zlen l = 8 -> word64 (pack l).
Proof. intros Hl Hn. pose proof (pack_range l Hl) as H. by rewrite Hn in H. Qed.
Lemma zip_with_repeat_r (op : Z -> Z -> Z) l m n : length l = n -> zip_with op l (replicate n m) = map (fun a => op a m) l.
Proof. intros <-. induction l as [|a l IH]; cbn; [done|]. by rewrite IH. Qed.
Lemma zip_with_repeat_l_eq (op : Z -> Z -> Z) l m : length l = 8%nat -> zip_with op l (replicate 8 m) = map (fun a => op a m) l.
Proof. apply zip_with_repeat_r. Qed.
(** An operation with the same byte in every place. *)
Lemma bytewise_const op (Hop0 : op 0 0 = 0) (Hop : forall a A b B, byte_ok a -> byte_ok b -> op (a + 256 * A) (b + 256 * B) = op a b + 256 * op A B /\ byte_ok (op a b)) l m : bytes_ok l -> byte_ok m -> length l = 8%nat ->
  op (pack l) (pack (replicate 8 m)) = pack (map (fun a => op a m) l) /\ bytes_ok (map (fun a => op a m) l).
Proof.
  intros Hl Hm Hn. destruct (bytewise_pack op Hop0 Hop l (replicate 8 m) Hl) as [E Hb]; [by apply Forall_replicate|by rewrite length_replicate|]. rewrite zip_with_repeat_r in E, Hb by done. done.
Qed.
(** The bytes of a word. *)
Definition bytes8 (w : Z) : list Z := le_bytes 8 w.
Lemma pack_le_value l : bytes_ok l -> le_value l = pack l.
Proof. induction 1 as [|b l Hb Hl IH]; [done|]. cbn [le_value]. rewrite IH, pack_cons, lor_shiftl_add by (unfold byte_ok in Hb; lia). lia. Qed.
Lemma pack_bytes8 w : word64 w -> pack (bytes8 w) = w.
Proof. intros Hw. rewrite <- pack_le_value by apply bytes_ok_le_bytes. by apply (le_value_bytes_small 8). Qed.
Lemma testbit_pack l i b : bytes_ok l -> 0 <= i -> l !! Z.to_nat (i `div` 8) = Some b -> Z.testbit (pack l) i = Z.testbit b (i `mod` 8).
Proof.
  intros Hl. revert i. induction Hl as [|a l Ha Hl IH]; intros i Hi Hb; [done|]. rewrite pack_cons, testbit_byte_cons by done. destruct (Z.ltb_spec i 8).
  - rewrite Z.div_small, Z.mod_small in * by lia. by injection Hb as ->.
  - replace i with (i - 8 + 1 * 8) at 2 by lia. rewrite Z.mod_add by lia. apply IH; [lia|]. replace i with (i - 8 + 1 * 8) in Hb by lia. rewrite Z.div_add in Hb by lia. assert (0 <= (i - 8) `div` 8) by (apply Z.div_pos; lia). by rewrite Z2Nat.inj_add, Nat.add_1_r in Hb by lia.
Qed.
Lemma byte_of_pack l k b : bytes_ok l -> 0 <= k -> l !! Z.to_nat k = Some b -> (pack l .>> (8 * k)) .& 255 = b.
Proof.
  intros Hl Hk Hb. assert (Hbb : byte_ok b) by (eapply Forall_lookup_1; [exact Hl|exact Hb]). apply Z.bits_inj'. intros i Hi. rewrite Z.land_spec, Z.shiftr_spec by lia. change 255 with (Z.ones 8). rewrite Z.testbit_ones_nonneg by lia. destruct (Z.ltb_spec i 8).
  - rewrite andb_true_r, (testbit_pack l _ b); [|done|lia|].
    + f_equal. rewrite Z.mul_comm, Z.mod_add by lia. by apply Z.mod_small.
    + rewrite (Z.mul_comm 8), Z.div_add, Z.div_small by lia. done.
  - by rewrite andb_false_r, byte_bits.
Qed.

(** ** The steps *)

Definition all_bytes (P : Z -> bool) : bool := forallb P (seqZ 0 256).
Lemma all_bytes_spec P : all_bytes P = true -> forall b, byte_ok b -> P b = true.
Proof. intros H b Hb. unfold all_bytes in H. rewrite forallb_forall in H. apply H. apply list_elem_of_In, elem_of_seqZ. unfold byte_ok in Hb. lia. Qed.
Definition byte_popcount (b : Z) : Z := rank (Z.testbit b) 8.
(** Pairs of bits, then nibbles. *)
Definition pairs (b : Z) : Z := b - ((b .& 0xAA) .>> 1).
Definition nibbles (b : Z) : Z := (pairs b .& 0x33) + ((pairs b .>> 2) .& 0x33).
Lemma byte_steps b : byte_ok b -> (b .& 0xAA) = 2 * ((b .& 0xAA) .>> 1) /\ (b .& 0xAA) .>> 1 <= b /\ byte_ok (pairs b) /\ byte_ok (nibbles b) /\ 0 <= nibbles b `div` 16 <= 4 /\ 0 <= nibbles b `mod` 16 <= 4 /\ nibbles b `div` 16 + nibbles b `mod` 16 = byte_popcount b.
Proof.
  intros Hb. pose proof (all_bytes_spec (fun b => ((b .& 0xAA) =? 2 * ((b .& 0xAA) .>> 1)) && ((b .& 0xAA) .>> 1 <=? b) && ((0 <=? pairs b) && (pairs b <? 256)) && ((0 <=? nibbles b) && (nibbles b <? 256)) &&
    ((nibbles b `div` 16 <=? 4) && (nibbles b `mod` 16 <=? 4)) && (nibbles b `div` 16 + nibbles b `mod` 16 =? byte_popcount b)) ltac:(by vm_compute) b Hb) as H. cbv beta in H. rewrite !andb_true_iff, !Z.leb_le, !Z.eqb_eq, !Z.ltb_lt in H. unfold byte_ok. pose proof (Z.mod_pos_bound (nibbles b) 16). assert (0 <= nibbles b -> 0 <= nibbles b `div` 16) by (intros; apply Z.div_pos; lia). lia.
Qed.
Lemma shift_mask_byte_cons a A m M k : byte_ok a -> 0 <= k <= 8 -> 0 <= m < 2 ^ (8 - k) -> ((a + 256 * A) .>> k) .& (m + 256 * M) = ((a .>> k) .& m) + 256 * ((A .>> k) .& M).
Proof.
  intros Ha Hk Hm. assert (Hmb : byte_ok m) by (unfold byte_ok; pose proof (Z.pow_le_mono_r 2 (8 - k) 8); lia). assert (Hakb : byte_ok (a .>> k)).
  { unfold byte_ok in *. rewrite Z.shiftr_div_pow2 by lia. pose proof (Z.pow_pos_nonneg 2 k). split; [apply Z.div_pos; lia|]. apply Z.div_lt_upper_bound; nia. }
  destruct (land_byte_cons (a .>> k) (A .>> k) m M Hakb Hmb) as [E Hb]. rewrite <- E. apply Z.bits_inj'. intros i Hi. rewrite !Z.land_spec, Z.shiftr_spec, !testbit_byte_cons by (done || lia). destruct (Z.ltb_spec i 8) as [Hi8|Hi8].
  - destruct (Z.ltb_spec (i + k) 8) as [H|H]; [by rewrite Z.shiftr_spec by lia|]. rewrite (testbit_small (8 - k) m i) by lia. by rewrite !andb_false_r.
  - destruct (Z.ltb_spec (i + k) 8); [lia|]. rewrite Z.shiftr_spec by lia. do 2 f_equal. lia.
Qed.
Lemma shift_mask_pack l m k : bytes_ok l -> 0 <= k <= 8 -> 0 <= m < 2 ^ (8 - k) -> (pack l .>> k) .& pack (replicate (length l) m) = pack (map (fun a => (a .>> k) .& m) l).
Proof.
  intros Hl Hk Hm. induction Hl as [|a l Ha Hl IH]; [cbn; by rewrite Z.land_0_r|]. cbn [length replicate map]. rewrite !pack_cons, shift_mask_byte_cons by done. by rewrite IH.
Qed.
Definition prefix_sums (l : list Z) : list Z :=
  match l with
  | [a0; a1; a2; a3; a4; a5; a6; a7] => [a0; a0 + a1; a0 + a1 + a2; a0 + a1 + a2 + a3; a0 + a1 + a2 + a3 + a4; a0 + a1 + a2 + a3 + a4 + a5; a0 + a1 + a2 + a3 + a4 + a5 + a6; a0 + a1 + a2 + a3 + a4 + a5 + a6 + a7]
  | _ => []
  end.
Ltac eight l Hn := destruct l as [|?a0 [|?a1 [|?a2 [|?a3 [|?a4 [|?a5 [|?a6 [|?a7 [|]]]]]]]]]; try discriminate Hn; clear Hn.
(** Multiplying by L8 adds up the bytes below each byte. *)
Lemma times_L8 l : length l = 8%nat -> bytes_ok (prefix_sums l) -> u64 (pack l * L8) = pack (prefix_sums l).
Proof.
  intros Hn Hp. assert (Hw : word64 (pack (prefix_sums l))) by (apply pack_word64; [done|]; eight l Hn; done). eight l Hn. cbn [prefix_sums] in *. unfold u64, uw.
  symmetry. apply (Z.mod_unique_pos _ _ (a1 + a2 * 257 + a3 * 65793 + a4 * 16843009 + a5 * 4311810305 + a6 * 1103823438081 + a7 * 282578800148737)); [exact Hw|]. unfold L8. cbn [pack foldr]. lia.
Qed.
(** Comparing bytes below 128. *)
Definition le_byte (x y : Z) : Z := if x <=? y then 128 else 0.
Lemma le_byte_step x y : 0 <= x < 128 -> 0 <= y < 128 -> ((((y .| 128) - x) .^ x) .^ y) .& 128 = le_byte x y /\ byte_ok ((y .| 128) - x).
Proof.
  intros Hx Hy. assert (H : forallb (fun x => forallb (fun y => (((((y .| 128) - x) .^ x) .^ y) .& 128 =? le_byte x y) && ((0 <=? (y .| 128) - x) && ((y .| 128) - x <? 256))) (seqZ 0 128)) (seqZ 0 128) = true) by (by vm_compute).
  rewrite forallb_forall in H. specialize (H x). cbv beta in H. rewrite forallb_forall in H. assert (Hin : forall z, 0 <= z < 128 -> In z (seqZ 0 128)) by (intros z Hz; apply list_elem_of_In, elem_of_seqZ; lia). specialize (H (Hin x Hx) y (Hin y Hy)). cbv beta in H. rewrite !andb_true_iff, !Z.leb_le, !Z.eqb_eq, !Z.ltb_lt in H. done.
Qed.
Lemma pack_map2 (f g h : Z -> Z) l : (forall x, x ∈ l -> f x + g x = h x) -> pack (map f l) + pack (map g l) = pack (map h l).
Proof. induction l as [|x l IH]; intros H; [done|]. cbn [map]. rewrite !pack_cons, <- (H x), <- IH by (intros; first [apply H; by right|left]). lia. Qed.
Lemma pack_scale c (f g : Z -> Z) l : (forall x, x ∈ l -> f x = c * g x) -> pack (map f l) = c * pack (map g l).
Proof. induction l as [|x l IH]; intros H; [cbn; lia|]. cbn [map]. rewrite !pack_cons, (H x), IH by (intros; first [apply H; by right|left]). lia. Qed.
Lemma bytes_ok_map (f : Z -> Z) l : (forall b, byte_ok b -> byte_ok (f b)) -> bytes_ok l -> bytes_ok (map f l).
Proof. intros H Hl. apply Forall_map. eapply Forall_impl; [exact Hl|exact H]. Qed.
Lemma bytes_elem l x : bytes_ok l -> x ∈ l -> byte_ok x.
Proof. intros Hl Hx. unfold bytes_ok in Hl. rewrite Forall_forall in Hl. by apply Hl. Qed.
Definition land_const := bytewise_const Z.land eq_refl land_byte_cons.
Definition lor_const := bytewise_const Z.lor eq_refl lor_byte_cons.
Definition lxor_pack := bytewise_pack Z.lxor eq_refl lxor_byte_cons.
Lemma u64_pack l : bytes_ok l -> length l = 8%nat -> u64 (pack l) = pack l.
Proof. intros Hl Hn. apply (uw_small 64), pack_word64; [done|]. unfold zlen. by rewrite Hn. Qed.

Section steps.
Context (l : list Z) (Hl : bytes_ok l) (Hn : length l = 8%nat).
Lemma step_pairs : u64 (pack l - ((pack l .& 0xAAAAAAAAAAAAAAAA) .>> 1)) = pack (map pairs l).
Proof.
  change 0xAAAAAAAAAAAAAAAA with (pack (replicate 8 0xAA)). rewrite (proj1 (land_const l 0xAA Hl ltac:(done) Hn)). rewrite (pack_scale 2 _ (fun b => (b .& 0xAA) .>> 1)) by (intros x Hx; apply (byte_steps x); by eapply bytes_elem).
  rewrite Z.shiftr_div_pow2 by lia. rewrite (Z.mul_comm 2), Z.div_mul by done. pose proof (pack_map2 pairs (fun b => (b .& 0xAA) .>> 1) (fun x => x) l ltac:(intros; unfold pairs; lia)) as E. rewrite (map_id l) in E.
  replace (pack l - _) with (pack (map pairs l)) by lia. apply u64_pack; [|by rewrite length_map]. apply bytes_ok_map; [|done]. intros b Hb. apply (byte_steps b Hb).
Qed.
Lemma step_nibbles : u64 ((pack (map pairs l) .& 0x3333333333333333) + ((pack (map pairs l) .>> 2) .& 0x3333333333333333)) = pack (map nibbles l).
Proof.
  assert (Hp : bytes_ok (map pairs l)) by (apply bytes_ok_map; [|done]; intros b Hb; apply (byte_steps b Hb)). assert (Hpn : length (map pairs l) = 8%nat) by (by rewrite length_map). change 0x3333333333333333 with (pack (replicate 8 0x33)). rewrite (proj1 (land_const _ 0x33 Hp ltac:(done) Hpn)).
  pose proof (shift_mask_pack (map pairs l) 0x33 2 Hp ltac:(lia) ltac:(lia)) as E. rewrite Hpn in E. rewrite E. rewrite !map_map. rewrite (pack_map2 _ _ nibbles) by done. apply u64_pack; [|by rewrite length_map]. apply bytes_ok_map; [|done]. intros b Hb. apply (byte_steps b Hb).
Qed.
Lemma step_bytes : u64 (pack (map nibbles l) + (pack (map nibbles l) .>> 4)) .& 0x0F0F0F0F0F0F0F0F = pack (map byte_popcount l).
Proof.
  set (k := map nibbles l). assert (Hk : Forall (fun x => 0 <= x `div` 16 <= 4 /\ 0 <= x `mod` 16 <= 4) k) by (apply Forall_map; eapply Forall_impl; [exact Hl|]; intros b Hb; pose proof (byte_steps b Hb); cbn; tauto).
  assert (Ek : map byte_popcount l = map (fun x => x `div` 16 + x `mod` 16) k).
  { unfold k. rewrite map_map. apply map_ext_in. intros b Hb%list_elem_of_In. symmetry. apply (byte_steps b). by eapply bytes_elem. }
  rewrite Ek. assert (Hkn : length k = 8%nat) by (unfold k; by rewrite length_map). clearbody k. clear Ek. eight k Hkn. repeat (apply Forall_cons in Hk as [? Hk]). cbv beta in *.
  assert (Hdm : forall a, a = 16 * (a `div` 16) + a `mod` 16) by (intros; by apply Z.div_mod). pose proof (Hdm a0). pose proof (Hdm a1). pose proof (Hdm a2). pose proof (Hdm a3). pose proof (Hdm a4). pose proof (Hdm a5). pose proof (Hdm a6). pose proof (Hdm a7).
  set (t := [a0 + a0 `div` 16 + 16 * (a1 `mod` 16); a1 + a1 `div` 16 + 16 * (a2 `mod` 16); a2 + a2 `div` 16 + 16 * (a3 `mod` 16); a3 + a3 `div` 16 + 16 * (a4 `mod` 16); a4 + a4 `div` 16 + 16 * (a5 `mod` 16); a5 + a5 `div` 16 + 16 * (a6 `mod` 16); a6 + a6 `div` 16 + 16 * (a7 `mod` 16); a7 + a7 `div` 16]).
  assert (Ht : bytes_ok t) by (unfold t, bytes_ok; repeat (apply Forall_cons; split; [unfold byte_ok; lia|]); by apply Forall_nil).
  assert (Es : pack [a0; a1; a2; a3; a4; a5; a6; a7] + (pack [a0; a1; a2; a3; a4; a5; a6; a7] .>> 4) = pack t) by (rewrite Z.shiftr_div_pow2 by lia; unfold t; cbn [pack foldr]; change (2 ^ 4) with 16; Z.to_euclidean_division_equations; lia).
  rewrite Es, u64_pack by done. change 0x0F0F0F0F0F0F0F0F with (pack (replicate 8 15)). rewrite (proj1 (land_const t 15 Ht ltac:(done) eq_refl)). f_equal. unfold t. cbn [map]. repeat f_equal; (change 15 with (2 ^ 4 - 1); rewrite land_ones_mod by lia; change (2 ^ 4) with 16; Z.to_euclidean_division_equations; lia).
Qed.
End steps.
Lemma popcounts_range l : Forall (fun x => 0 <= x <= 8) (map byte_popcount l).
Proof. apply Forall_map, Forall_true. intros b. apply rank_range. lia. Qed.
Lemma prefix_sums_range k : length k = 8%nat -> Forall (fun x => 0 <= x <= 8) k -> Forall (fun x => 0 <= x < 128) (prefix_sums k).
Proof. intros Hk Hr. eight k Hk. repeat (apply Forall_cons in Hr as [? Hr]). cbn [prefix_sums]. repeat (apply Forall_cons; split; [lia|]). by apply Forall_nil. Qed.
Lemma small_bytes_ok k : Forall (fun x => 0 <= x < 128) k -> bytes_ok k.
Proof. intros H. eapply Forall_impl; [exact H|]. unfold byte_ok. cbn. lia. Qed.
(** Counting the bytes that are at most [n]. *)
Lemma BwLessThan_pack X Y : length X = 8%nat -> length Y = 8%nat -> Forall (fun x => 0 <= x < 128) X -> Forall (fun x => 0 <= x < 128) Y -> BwLessThan (pack X) (pack Y) = pack (zip_with le_byte X Y).
Proof.
  intros HX HY HXr HYr. pose proof (small_bytes_ok _ HXr) as HXb. pose proof (small_bytes_ok _ HYr) as HYb. unfold BwLessThan. change H8 with (pack (replicate 8 128)). rewrite (proj1 (lor_const Y 128 HYb ltac:(done) HY)).
  change (u64 (Z.lnot (pack (replicate 8 128)))) with (pack (replicate 8 127)). rewrite (proj1 (land_const X 127 HXb ltac:(done) HX)). assert (EX : map (fun a => a .& 127) X = X).
  { rewrite <- (map_id X) at 2. apply map_ext_in. intros x Hx%list_elem_of_In. rewrite land_127. apply Z.mod_small. rewrite Forall_forall in HXr. by apply HXr. }
  rewrite EX. set (D := zip_with (fun y x => (y .| 128) - x) Y X).
  assert (ED : pack (map (fun a => a .| 128) Y) - pack X = pack D).
  { unfold D. clear -HX HY. rewrite <- HX in HY. clear HX. revert X HY. induction Y as [|y Y IH]; intros [|x X] Hlen; try done. cbn [map zip_with]. rewrite !pack_cons, <- IH by (cbn in Hlen; lia). lia. }
  assert (HD : bytes_ok D /\ length D = 8%nat) by (split; [|unfold D; rewrite length_zip_with; lia]; apply Forall_lookup_2; intros i d Hd; apply lookup_zip_with_Some in Hd as (y & x & -> & Hy & Hx); apply le_byte_step; [exact (Forall_lookup_1 _ _ _ _ HXr Hx)|exact (Forall_lookup_1 _ _ _ _ HYr Hy)]).
  destruct HD as [HDb HDn]. rewrite ED, u64_pack by done. destruct (lxor_pack D X HDb HXb ltac:(lia)) as [E1 Hb1]. rewrite E1. destruct (lxor_pack _ Y Hb1 HYb) as [E2 Hb2]; [rewrite length_zip_with; lia|]. rewrite E2. rewrite (proj1 (land_const _ 128 Hb2 ltac:(done) ltac:(rewrite !length_zip_with; lia))).
  f_equal. unfold D. clear -HX HY HXr HYr. rewrite <- HX in HY. clear HX. revert Y HY HYr. induction HXr as [|x X Hx HXr IH]; intros [|y Y] Hlen HYr; try done. apply Forall_cons in HYr as [Hy HYr]. cbn [zip_with map]. rewrite IH by (cbn in Hlen; (done || lia)). f_equal. by apply le_byte_step.
Qed.
Definition at_most (n : Z) (X : list Z) : list Z := map (fun x => b2z (x <=? n)) X.
Definition sum (l : list Z) : Z := foldr Z.add 0 l.
Lemma at_most_range n X : Forall (fun x => 0 <= x <= 8) (at_most n X).
Proof. apply Forall_map, Forall_true. intros x. cbn. destruct (x <=? n); cbn; lia. Qed.
(** The packed counts, and what the two shifts read from the highest one. *)
Lemma bw_count X n : length X = 8%nat -> Forall (fun x => 0 <= x < 128) X -> 0 <= n < 128 -> u64 ((BwLessThan (pack X) (u64 (n * L8)) .>> 7) * L8) = pack (prefix_sums (at_most n X)).
Proof.
  intros HX HXr Hn. assert (En : u64 (n * L8) = pack (replicate 8 n)).
  { assert (E : pack (replicate 8 n) = n * L8) by (unfold L8; cbn [pack foldr replicate]; lia). rewrite <- E. apply u64_pack; [|done]. apply Forall_replicate. unfold byte_ok. lia. }
  rewrite En, BwLessThan_pack; [|done|done|done|by apply Forall_replicate]. rewrite zip_with_repeat_l_eq by done. rewrite (pack_scale 128 _ (fun x => b2z (x <=? n))) by (intros x _; unfold le_byte; by destruct (x <=? n)).
  rewrite Z.shiftr_div_pow2 by lia. change (2 ^ 7) with 128. rewrite (Z.mul_comm 128), Z.div_mul by done. apply times_L8; [unfold at_most; by rewrite length_map|]. apply small_bytes_ok, prefix_sums_range; [unfold at_most; by rewrite length_map|apply at_most_range].
Qed.
Lemma top_sum k : length k = 8%nat -> Forall (fun x => 0 <= x <= 8) k -> pack (prefix_sums k) .>> 56 = sum k /\ (pack (prefix_sums k) .>> 53) .& u64 (Z.lnot 7) = 8 * sum k.
Proof.
  intros Hk Hr. pose proof (prefix_sums_range k Hk Hr) as Hp. eight k Hk. cbn [prefix_sums] in *. repeat (apply Forall_cons in Hp as [? Hp]). cbv beta in *. set (low := pack [a0; a0 + a1; a0 + a1 + a2; a0 + a1 + a2 + a3; a0 + a1 + a2 + a3 + a4; a0 + a1 + a2 + a3 + a4 + a5; a0 + a1 + a2 + a3 + a4 + a5 + a6]).
  assert (Hlow : 0 <= low < 2 ^ 56) by (unfold low; cbn [pack foldr]; lia). set (top := sum [a0; a1; a2; a3; a4; a5; a6; a7]). assert (Ht : 0 <= top < 128) by (unfold top; cbn [sum foldr]; lia).
  assert (E : pack [a0; a0 + a1; a0 + a1 + a2; a0 + a1 + a2 + a3; a0 + a1 + a2 + a3 + a4; a0 + a1 + a2 + a3 + a4 + a5; a0 + a1 + a2 + a3 + a4 + a5 + a6; a0 + a1 + a2 + a3 + a4 + a5 + a6 + a7] = low + top * 2 ^ 56) by (unfold low, top; cbn [pack foldr sum]; lia).
  rewrite E. clearbody low top. rewrite !Z.shiftr_div_pow2 by lia. assert (E56 : (low + top * 2 ^ 56) `div` 2 ^ 56 = top) by (rewrite Z.div_add, Z.div_small by lia; lia). split; [done|].
  set (x := (low + top * 2 ^ 56) `div` 2 ^ 53). assert (Hx : 0 <= x < 2 ^ 64) by (unfold x; split; [apply Z.div_pos; lia|apply Z.div_lt_upper_bound; lia]). assert (El : x .& u64 (Z.lnot 7) = Z.ldiff x (Z.ones 3)).
  { apply Z.bits_inj'. intros i Hi. rewrite Z.ldiff_spec, Z.land_spec, u64_testbit, Z.lnot_spec by lia. destruct (Z.ltb_spec i 64); [done|]. by rewrite (testbit_small 64 x i) by lia. }
  rewrite El, Z.ldiff_ones_r, Z.shiftl_mul_pow2, Z.shiftr_div_pow2 by lia. unfold x. rewrite Z.div_div by lia. rewrite <- Z.pow_add_r by lia. change (53 + 3) with 56. rewrite E56. lia.
Qed.
(** The rest is about one byte. *)
Definition byte_select (B l : Z) : Z :=
  u64 ((BwLessThan (u64 ((BwGtZero (u64 (B * L8) .& 0x8040201008040201) .>> 7) * L8)) (u64 (l * L8)) .>> 7) * L8) .>> 56.
Definition byte_select_ok (B l : Z) : bool := let j := byte_select B l in (0 <=? j) && (j <? 8) && Z.testbit B j && (rank (Z.testbit B) j =? l).
Lemma byte_select_checked : all_bytes (fun B => forallb (fun l => negb (l <? byte_popcount B) || byte_select_ok B l) (seqZ 0 8)) = true.
Proof. by vm_compute. Qed.
Lemma byte_select_spec B l : byte_ok B -> 0 <= l < byte_popcount B -> 0 <= byte_select B l < 8 /\ Z.testbit B (byte_select B l) = true /\ rank (Z.testbit B) (byte_select B l) = l.
Proof.
  intros HB Hl. pose proof (all_bytes_spec _ byte_select_checked B HB) as H. cbv beta in H. rewrite forallb_forall in H. assert (Hin : In l (seqZ 0 8)) by (apply list_elem_of_In, elem_of_seqZ; pose proof (rank_range (Z.testbit B) 8); unfold byte_popcount in Hl; lia).
  specialize (H l Hin). cbv beta in H. apply orb_true_iff in H as [H|H]; [apply negb_true_iff, Z.ltb_ge in H; lia|]. unfold byte_select_ok in H. cbv zeta in H. revert H. generalize (byte_select B l). intros j H. rewrite !andb_true_iff, Z.leb_le, Z.ltb_lt, Z.eqb_eq in H. tauto.
Qed.

(** ** The whole search *)

Lemma sum_app a b : sum (a ++ b) = sum a + sum b.
Proof. unfold sum. induction a as [|x a IH]; cbn [app foldr]; lia. Qed.
Lemma rank_bytes l k : bytes_ok l -> (k <= length l)%nat -> rank (Z.testbit (pack l)) (8 * Z.of_nat k) = sum (take k (map byte_popcount l)).
Proof.
  intros Hl. induction k as [|k IH]; intros Hk; [done|]. destruct (lookup_lt_is_Some_2 l k) as [b Hb]; [lia|]. replace (8 * Z.of_nat (S k)) with (8 * Z.of_nat k + 8) by lia. rewrite rank_split, IH by lia.
  rewrite (take_S_r _ _ (byte_popcount b)) by (by rewrite list_lookup_fmap, Hb). rewrite sum_app. f_equal. unfold byte_popcount, sum. cbn [foldr]. rewrite Z.add_0_r. apply rank_ext. intros i Hi.
  rewrite (testbit_pack l _ b); [|done|lia|].
  - f_equal. rewrite (Z.add_comm (8 * _)), (Z.mul_comm 8), Z.mod_add by lia. by apply Z.mod_small.
  - rewrite (Z.add_comm (8 * _)), (Z.mul_comm 8), Z.div_add, Z.div_small by lia. by rewrite Z.add_0_l, Nat2Z.id.
Qed.
(** The byte that holds the bit, and the number of set bits below it. *)
Lemma locate c n : length c = 8%nat -> Forall (fun x => 0 <= x <= 8) c -> 0 <= n < sum c -> let k := sum (at_most n (prefix_sums c)) in
  0 <= k < 8 /\ exists prev ck, (0 :: prefix_sums c) !! Z.to_nat k = Some prev /\ c !! Z.to_nat k = Some ck /\ prev <= n < prev + ck /\ prev = sum (take (Z.to_nat k) c) /\ 0 <= prev.
Proof.
  intros Hc Hr Hn k. eight c Hc. repeat (apply Forall_cons in Hr as [? Hr]). cbv beta in *. cbn [prefix_sums at_most map sum foldr] in *. unfold k. clear k.
  repeat match goal with |- context [b2z (?a <=? n)] => destruct (Z.leb_spec a n); cbn [b2z]; try (exfalso; lia) end.
  all: match goal with |- 0 <= ?k < 8 /\ _ => let k' := eval vm_compute in k in change k with k' end; (split; [lia|]); eexists _, _; (split; [reflexivity|]); (split; [reflexivity|]); match goal with |- context [take (Z.to_nat ?i) _] => let m := eval vm_compute in (Z.to_nat i) in change (Z.to_nat i) with m end; unfold sum; cbn [take foldr]; lia.
Qed.
Lemma shift_up_byte l k p : length l = 8%nat -> bytes_ok l -> 0 <= k < 8 -> (0 :: l) !! Z.to_nat k = Some p -> (u64 (pack l .<< 8) .>> (8 * k)) .& 0xFF = p.
Proof.
  intros Hn Hl Hk Hp. assert (E : u64 (pack l .<< 8) = pack (0 :: take 7 l)).
  { pose proof (pack_word64 (0 :: take 7 l)) as Hw. eight l Hn. cbn [take] in *. rewrite Z.shiftl_mul_pow2 by lia. unfold u64, uw. symmetry. apply (Z.mod_unique_pos _ _ a7); [|cbn [pack foldr]; lia]. apply Hw; [|done]. unfold bytes_ok in *. repeat (apply Forall_cons in Hl as [? Hl]). repeat (apply Forall_cons; split; [done|]). by apply Forall_nil. }
  rewrite E. apply byte_of_pack; [constructor; [done|by apply Forall_take]|lia|]. destruct (Z.to_nat k) as [|m] eqn:Em; [done|]. change (take 7 l !! m = Some p). change (l !! m = Some p) in Hp. by rewrite lookup_take_lt by lia.
Qed.
(** For every 64-bit word the broadword algorithm finds the bit that is set and has [n] set bits below it, for each [n] less than the number of set bits. *)
Lemma word_select_spec w n : word64 w -> 0 <= n < popcount w -> is_nth (Z.testbit w) n (word_IndexOfNthSet w n) /\ word_IndexOfNthSet w n < 64.
Proof.
  intros Hw Hn. pose proof (pack_bytes8 w Hw) as Ew. set (l := bytes8 w) in *. assert (Hl : bytes_ok l) by apply bytes_ok_le_bytes. assert (Hln : length l = 8%nat) by apply length_le_bytes. clearbody l. subst w.
  set (c := map byte_popcount l). pose proof (popcounts_range l) as Hcr. fold c in Hcr. assert (Hcn : length c = 8%nat) by (unfold c; by rewrite length_map). pose proof (prefix_sums_range c Hcn Hcr) as HP. assert (HPn : length (prefix_sums c) = 8%nat) by (clear -Hcn; by eight c Hcn).
  assert (Esum : popcount (pack l) = sum c) by (rewrite popcount_rank; change 64 with (8 * Z.of_nat 8); rewrite rank_bytes, take_ge by (done || lia || by fold c; lia); done). pose proof (popcount_range (pack l)) as Hpr. rewrite Esum in *.
  destruct (locate c n Hcn Hcr ltac:(lia)) as (Hk & prev & ck & Hprev & Hck & Hn' & Eprev & Hprev0). set (k := sum (at_most n (prefix_sums c))) in *. unfold c in Hck. rewrite list_lookup_fmap in Hck. apply fmap_Some in Hck as (B & HB & ->). assert (HBb : byte_ok B) by (eapply Forall_lookup_1; [exact Hl|exact HB]).
  destruct (byte_select_spec B (n - prev) HBb ltac:(lia)) as (Hj & Hbit & Hrank). assert (E : word_IndexOfNthSet (pack l) n = 8 * k + byte_select B (n - prev)).
  { unfold word_IndexOfNthSet. rewrite step_pairs, step_nibbles, step_bytes by done. fold c. rewrite times_L8 by (done || by apply small_bytes_ok). cbv zeta. rewrite bw_count by (done || lia). pose proof (top_sum (at_most n (prefix_sums c)) ltac:(unfold at_most; by rewrite length_map) (at_most_range _ _)) as [_ Etop]. rewrite Etop. fold k.
    rewrite (shift_up_byte _ _ prev) by (done || by apply small_bytes_ok). rewrite (byte_of_pack l k B) by (done || lia). rewrite (u64_small (n - prev)) by lia. fold (byte_select B (n - prev)). rewrite u64_small, u16_small by lia. done. }
  rewrite E. split; [|lia]. split; [lia|]. assert (Hat : forall i, 0 <= i < 8 -> Z.testbit (pack l) (8 * k + i) = Z.testbit B i).
  { intros i Hi. rewrite (testbit_pack l _ B); [|done|lia|].
    - f_equal. rewrite (Z.add_comm (8 * _)), (Z.mul_comm 8), Z.mod_add by lia. by apply Z.mod_small.
    - rewrite (Z.add_comm (8 * _)), (Z.mul_comm 8), Z.div_add, Z.div_small by lia. done. }
  split; [by rewrite Hat|]. rewrite rank_split by lia. rewrite (rank_ext (fun i => Z.testbit (pack l) (8 * k + i)) (Z.testbit B)) by (intros i Hi; apply Hat; lia). rewrite Hrank. replace k with (Z.of_nat (Z.to_nat k)) at 1 by lia. rewrite rank_bytes by (done || lia). fold c. rewrite <- Eprev. lia.
Qed.
(** BitWord::IndexOfNthSet, which works on the eight bytes of a word at once, returns for
    every 64-bit word and every [n] below its number of set bits the place of the set bit
    that has exactly [n] set bits below it. *)
Theorem broadword_select_correct w n : word64 w -> 0 <= n < popcount w -> is_nth (Z.testbit w) n (word_IndexOfNthSet w n) /\ word_IndexOfNthSet w n < 64.
Proof. apply word_select_spec. Qed.
Lemma broadword_select_correct_witness : word_IndexOfNthSet 0xF0F0 5 = 13 /\ is_nth (Z.testbit 0xF0F0) 5 (word_IndexOfNthSet 0xF0F0 5) /\ word_IndexOfNthSet 0xF0F0 5 < 64.
Proof. split; [vm_compute; reflexivity|]. apply (broadword_select_correct 0xF0F0 5); [unfold word64; lia|change (popcount 0xF0F0) with 8; lia]. Defined.
