(* ===== verification/BitVectorBlocks.v ===== *)
(** * The blocks of the bit vector

    What each operation on a block of 512 bits does to its bits. *)

From S2P Require Import Prelude StdAlgorithms BitVector BitVectorWords BitVectorSelect.

Local Open Scope cpp_scope.

(** ** The bits of a block *)

Definition block_ok (b : list Z) : Prop := length b = 8%nat /\ Forall word64 b.
Definition block_bit (b : list Z) (o : Z) : bool := match b !! Z.to_nat (o `div` 64) with Some w => Z.testbit w (o `mod` 64) | None => false end.
Definition offset_of (o : Z) : BlockOffset := mkOffset (o `div` 64) (o `mod` 64).
Lemma offset_range o : 0 <= o < 512 -> 0 <= o `div` 64 < 8 /\ 0 <= o `mod` 64 < 64.
Proof. intros. split; [split; [apply Z.div_pos; lia|apply Z.div_lt_upper_bound; lia]|apply Z.mod_pos_bound; lia]. Qed.
Lemma block_word b i : block_ok b -> 0 <= i < 8 -> exists w, b !! Z.to_nat i = Some w /\ vec_get b i = Ok w /\ word64 w.
Proof. intros [Hn Hw] Hi. destruct (vec_get_inside b i) as (w & E & Eg); [unfold zlen; lia|]. exists w. split; [done|]. split; [done|]. by eapply (Forall_lookup_1 word64). Qed.
Lemma block_bit_at b i w j : b !! Z.to_nat i = Some w -> 0 <= i -> 0 <= j < 64 -> block_bit b (64 * i + j) = Z.testbit w j.
Proof. intros E Hi Hj. unfold block_bit. rewrite (Z.add_comm (64 * i)), (Z.mul_comm 64), Z.div_add, Z.div_small, Z.add_0_l by lia. rewrite E, Z.mod_add by lia. f_equal. by apply Z.mod_small. Qed.
Lemma block_offset_split o : 0 <= o -> o = 64 * (o `div` 64) + o `mod` 64.
Proof. intros. apply Z.div_mod. lia. Qed.
Lemma Block_IsSet_spec b o : block_ok b -> 0 <= o < 512 -> Block_IsSet (offset_of o) b = Ok (block_bit b o).
Proof.
  intros Hb Ho. destruct (offset_range o Ho) as [H1 H2]. destruct (block_word b _ Hb H1) as (w & E & Eg & _). unfold Block_IsSet. cbn [word_idx bit_idx offset_of]. rewrite Eg. cbn [obind]. rewrite word_IsSet_spec by lia. unfold block_bit. by rewrite E.
Qed.
(** One word of a block changed. *)
Lemma Block_update_spec b i f : block_ok b -> 0 <= i < 8 -> (forall w, word64 w -> word64 (f w)) -> exists b', Block_update i f b = Ok b' /\ block_ok b' /\
  forall o, 0 <= o < 512 -> block_bit b' o = if o `div` 64 =? i then match b !! Z.to_nat i with Some w => Z.testbit (f w) (o `mod` 64) | None => false end else block_bit b o.
Proof.
  intros Hb Hi Hf. destruct (block_word b i Hb Hi) as (w & E & Eg & Hw). destruct Hb as [Hn Hws]. exists (<[Z.to_nat i := f w]> b). unfold Block_update. rewrite Eg. cbn [obind]. rewrite vec_set_inside by (unfold zlen; lia). split; [done|]. split; [split; [by rewrite length_insert|apply Forall_insert; auto]|].
  intros o Ho. unfold block_bit. destruct (offset_range o Ho) as [H1 _]. destruct (Z.eqb_spec (o `div` 64) i) as [->|Hne].
  - rewrite list_lookup_insert_eq by lia. by rewrite E.
  - rewrite list_lookup_insert_ne by lia. done.
Qed.
Definition block_becomes (b b' : Block) (g : Z -> bool) : Prop := block_ok b' /\ forall o, 0 <= o < 512 -> block_bit b' o = g o.
Lemma Block_update_bits b i f (g : Z -> bool -> bool) : block_ok b -> 0 <= i < 8 -> (forall w, word64 w -> word64 (f w)) -> (forall w j, word64 w -> 0 <= j < 64 -> Z.testbit (f w) j = g j (Z.testbit w j)) ->
  exists b', Block_update i f b = Ok b' /\ block_becomes b b' (fun o => if o `div` 64 =? i then g (o `mod` 64) (block_bit b o) else block_bit b o).
Proof.
  intros Hb Hi Hf Hg. destruct (Block_update_spec b i f Hb Hi Hf) as (b' & E & Hb' & Hbit). exists b'. split; [done|]. split; [done|]. intros o Ho. rewrite Hbit by done. destruct (Z.eqb_spec (o `div` 64) i) as [<-|]; [|done]. destruct (offset_range o Ho) as [H1 H2]. destruct (block_word b _ Hb H1) as (w & Ew & _ & Hw). unfold block_bit. rewrite Ew. by apply Hg.
Qed.
Lemma same_offset o o' : 0 <= o -> 0 <= o' -> (if o `div` 64 =? o' `div` 64 then o `mod` 64 =? o' `mod` 64 else false) = (o =? o').
Proof.
  intros. pose proof (block_offset_split o). pose proof (block_offset_split o'). destruct (Z.eqb_spec (o `div` 64) (o' `div` 64)) as [E|E].
  - destruct (Z.eqb_spec (o `mod` 64) (o' `mod` 64)), (Z.eqb_spec o o'); try done; exfalso; [lia|congruence].
  - destruct (Z.eqb_spec o o'); [congruence|done].
Qed.
Lemma Block_Set_spec b o : block_ok b -> 0 <= o < 512 -> exists b', Block_Set (offset_of o) b = Ok b' /\ block_becomes b b' (fun j => (j =? o) || block_bit b j).
Proof.
  intros Hb Ho. destruct (offset_range o Ho) as [H1 H2]. destruct (Block_update_bits b (o `div` 64) (fun w => word_Set w (o `mod` 64)) (fun j x => (j =? o `mod` 64) || x) Hb H1) as (b' & E & Hb' & Hbit); [auto with words|intros w j Hw Hj; by apply word_Set_spec|].
  exists b'. split; [done|]. split; [done|]. intros j Hj. rewrite Hbit by done. rewrite <- (same_offset j o) by lia. by destruct (_ =? _).
Qed.
Lemma Block_Clear_spec b o : block_ok b -> 0 <= o < 512 -> exists b', Block_Clear (offset_of o) b = Ok b' /\ block_becomes b b' (fun j => negb (j =? o) && block_bit b j).
Proof.
  intros Hb Ho. destruct (offset_range o Ho) as [H1 H2]. destruct (Block_update_bits b (o `div` 64) (fun w => word_Clear w (o `mod` 64)) (fun j x => negb (j =? o `mod` 64) && x) Hb H1) as (b' & E & Hb' & Hbit); [auto with words|intros w j Hw Hj; apply word_Clear_spec; (done || lia)|].
  exists b'. split; [done|]. split; [done|]. intros j Hj. rewrite Hbit by done. rewrite <- (same_offset j o) by lia. by destruct (_ =? _).
Qed.
Lemma Block_new_ok : block_ok Block_new /\ forall o, block_bit Block_new o = false.
Proof.
  split; [split; [done|by repeat constructor]|]. intros o. unfold block_bit, Block_new. destruct (replicate _ 0 !! _) as [w|] eqn:E; [|done]. apply lookup_replicate in E as [-> _]. apply Z.testbit_0_l.
Qed.

(** ** Counting *)

Lemma rank_block_words b i : block_ok b -> 0 <= i < 8 -> rank (block_bit b) (64 * (i + 1)) = rank (block_bit b) (64 * i) + match b !! Z.to_nat i with Some w => popcount w | None => 0 end.
Proof.
  intros Hb Hi. destruct (block_word b i Hb Hi) as (w & E & _ & _). rewrite E. replace (64 * (i + 1)) with (64 * i + 64) by lia. rewrite rank_split by lia. f_equal. rewrite popcount_rank. apply rank_ext. intros j Hj. apply block_bit_at; [done|lia|done].
Qed.
Lemma rank_small f n : 0 <= n < 2 ^ 32 -> u32 (rank f n) = rank f n.
Proof. intros. apply (uw_small 32). pose proof (rank_range f n). lia. Qed.
Lemma count_words_loop b n : block_ok b -> 0 <= n <= 8 -> for_loop 0 n (fun i count => let! w := vec_get b i in Ok (u32 (count + word_CountSetBits w))) 0 = Ok (rank (block_bit b) (64 * n)).
Proof.
  intros Hb Hn. destruct (for_loop_inv (fun i count => count = rank (block_bit b) (64 * i)) 0 n (fun i count => let! w := vec_get b i in Ok (u32 (count + word_CountSetBits w))) 0) as (c & E & ->); [lia|done| |done].
  intros i c Hi ->. destruct (block_word b i Hb ltac:(lia)) as (w & Ew & Eg & _). rewrite Eg. cbn [obind]. eexists. split; [done|]. pose proof (rank_block_words b i Hb ltac:(lia)) as Hr. rewrite Ew in Hr. unfold word_CountSetBits. rewrite <- Hr. apply rank_small. lia.
Qed.
Lemma Block_CountSetBits_until_spec b o : block_ok b -> 0 <= o < 512 -> Block_CountSetBits_until (offset_of o) b = Ok (rank (block_bit b) (o + 1)).
Proof.
  intros Hb Ho. destruct (offset_range o Ho) as [H1 H2]. unfold Block_CountSetBits_until. cbn [word_idx bit_idx offset_of]. rewrite count_words_loop by (done || lia). cbn [obind]. destruct (block_word b _ Hb H1) as (w & Ew & Eg & _). rewrite Eg. cbn [obind]. rewrite word_CountSetBits_until_spec by lia. f_equal.
  assert (E : rank (block_bit b) (o + 1) = rank (block_bit b) (64 * (o `div` 64)) + rank (Z.testbit w) (o `mod` 64 + 1)).
  { rewrite (block_offset_split o) at 1 by lia. rewrite <- Z.add_assoc, (rank_split _ (64 * _)) by lia. f_equal. apply rank_ext. intros j Hj. apply block_bit_at; (done || lia). }
  rewrite <- E. apply rank_small. lia.
Qed.
Lemma Block_CountSetBits_spec b : block_ok b -> Block_CountSetBits b = Ok (rank (block_bit b) 512).
Proof. intros Hb. by apply (count_words_loop b 8). Qed.

(** ** Ranges *)

Lemma word_le_offset j o : 0 <= j -> 0 <= o -> (j <=? o) = (j `div` 64 <? o `div` 64) || ((j `div` 64 =? o `div` 64) && (j `mod` 64 <=? o `mod` 64)).
Proof.
  intros. pose proof (block_offset_split j). pose proof (block_offset_split o). pose proof (Z.mod_pos_bound j 64). pose proof (Z.mod_pos_bound o 64). destruct (Z.leb_spec j o), (Z.ltb_spec (j `div` 64) (o `div` 64)), (Z.eqb_spec (j `div` 64) (o `div` 64)), (Z.leb_spec (j `mod` 64) (o `mod` 64)); cbn; try done; exfalso; lia.
Qed.
Lemma Block_ClearAfter_spec b o : block_ok b -> 0 <= o < 512 -> exists b', Block_ClearAfter (offset_of o) b = Ok b' /\ block_becomes b b' (fun j => (j <=? o) && block_bit b j).
Proof.
  intros Hb Ho. destruct (offset_range o Ho) as [H1 H2]. unfold Block_ClearAfter. cbn [word_idx bit_idx offset_of].
  destruct (Block_update_bits b (o `div` 64) (fun w => word_ClearAfter w (o `mod` 64)) (fun j x => (j <=? o `mod` 64) && x) Hb H1) as (b1 & E & Hb1 & Hbit1); [intros w Hw; by apply WordUntil_word64|intros w j Hw Hj; apply WordUntil_spec; lia|]. rewrite E. cbn [obind].
  destruct (for_loop_inv (fun i b' => block_ok b' /\ forall j, 0 <= j < 512 -> block_bit b' j = if (o `div` 64 + 1 <=? j `div` 64) && (j `div` 64 <? i) then false else block_bit b1 j) (o `div` 64 + 1) kWords (fun i b => vec_set b i 0) b1) as (b2 & E2 & Hb2 & Hbit2).
  - unfold kWords. lia.
  - split; [done|]. intros j Hj. destruct (Z.leb_spec (o `div` 64 + 1) (j `div` 64)), (Z.ltb_spec (j `div` 64) (o `div` 64 + 1)); try done; lia.
  - unfold kWords. intros i b' Hi [[Hn Hw] Hbit]. rewrite vec_set_inside by (unfold zlen; lia). eexists. split; [done|]. split; [split; [by rewrite length_insert|by apply Forall_insert]|]. intros j Hj. destruct (offset_range j Hj) as [Hj1 _]. unfold block_bit at 1. destruct (Z.eq_dec (j `div` 64) i) as [Ei|Hne].
    + rewrite Ei, list_lookup_insert_eq by lia. rewrite Z.testbit_0_l. destruct (Z.leb_spec (o `div` 64 + 1) i), (Z.ltb_spec i (i + 1)); try done; lia.
    + rewrite list_lookup_insert_ne by lia. fold (block_bit b' j). rewrite Hbit by done. destruct (Z.leb_spec (o `div` 64 + 1) (j `div` 64)), (Z.ltb_spec (j `div` 64) i), (Z.ltb_spec (j `div` 64) (i + 1)); try done; lia.
  - exists b2. split; [done|]. split; [done|]. intros j Hj. rewrite Hbit2, Hbit1, (word_le_offset j o) by lia. destruct (offset_range j Hj) as [Hj1 _]. unfold kWords. destruct (Z.leb_spec (o `div` 64 + 1) (j `div` 64)), (Z.ltb_spec (j `div` 64) 8), (Z.eqb_spec (j `div` 64) (o `div` 64)), (Z.ltb_spec (j `div` 64) (o `div` 64)); cbn; try done; lia.
Qed.
Lemma set_words_loop b first last : block_ok b -> 0 <= first <= last -> last <= 8 ->
  exists b', for_loop first last (fun i b => Block_update i (fun w => word_Set_range w 0 (kWordBits - 1)) b) b = Ok b' /\ block_becomes b b' (fun j => ((first <=? j `div` 64) && (j `div` 64 <? last)) || block_bit b j).
Proof.
  intros Hb Hf Hl. destruct (for_loop_inv (fun i b' => block_becomes b b' (fun j => ((first <=? j `div` 64) && (j `div` 64 <? i)) || block_bit b j)) first last (fun i b => Block_update i (fun w => word_Set_range w 0 (kWordBits - 1)) b) b) as (b' & E & H); [lia| | |by exists b'].
  - split; [done|]. intros j Hj. destruct (Z.leb_spec first (j `div` 64)), (Z.ltb_spec (j `div` 64) first); try done; lia.
  - intros i b' Hi [Hb' Hbit]. destruct (Block_update_bits b' i (fun w => word_Set_range w 0 (kWordBits - 1)) (fun j x => true) Hb' ltac:(lia)) as (b2 & E & Hb2 & Hbit2); [auto with words|intros w j Hw Hj; rewrite word_Set_range_spec by (unfold kWordBits; lia); unfold kWordBits; destruct (Z.leb_spec 0 j), (Z.leb_spec j (64 - 1)); (done || lia)|].
    exists b2. split; [done|]. split; [done|]. intros j Hj. rewrite Hbit2, Hbit by done. destruct (Z.eqb_spec (j `div` 64) i), (Z.leb_spec first (j `div` 64)), (Z.ltb_spec (j `div` 64) i), (Z.ltb_spec (j `div` 64) (i + 1)); cbn; try done; lia.
Qed.
Lemma word_Set_range_bits b i lo hi : block_ok b -> 0 <= i < 8 -> 0 <= lo <= hi -> hi < 64 -> exists b', Block_update i (fun w => word_Set_range w lo hi) b = Ok b' /\ block_becomes b b' (fun j => ((j `div` 64 =? i) && ((lo <=? j `mod` 64) && (j `mod` 64 <=? hi))) || block_bit b j).
Proof.
  intros Hb Hi Hlo Hhi. destruct (Block_update_bits b i (fun w => word_Set_range w lo hi) (fun j x => ((lo <=? j) && (j <=? hi)) || x) Hb Hi) as (b' & E & Hb' & Hbit); [auto with words|intros w j Hw Hj; apply word_Set_range_spec; lia|]. exists b'. split; [done|]. split; [done|]. intros j Hj. rewrite Hbit by done. by destruct (_ =? i).
Qed.
Lemma Block_Set_range_spec b a o : block_ok b -> 0 <= a <= o -> o < 512 -> exists b', Block_Set_range (offset_of a) (offset_of o) b = Ok b' /\ block_becomes b b' (fun j => ((a <=? j) && (j <=? o)) || block_bit b j).
Proof.
  intros Hb Ha Ho. destruct (offset_range a ltac:(lia)) as [Ha1 Ha2]. destruct (offset_range o ltac:(lia)) as [Ho1 Ho2]. unfold Block_Set_range. cbn [word_idx bit_idx offset_of]. assert (Hdiv : a `div` 64 <= o `div` 64) by (apply Z.div_le_mono; lia). pose proof (block_offset_split a). pose proof (block_offset_split o). destruct (Z.eqb_spec (a `div` 64) (o `div` 64)) as [E|E].
  - destruct (word_Set_range_bits b (a `div` 64) (a `mod` 64) (o `mod` 64) Hb Ha1) as (b' & Eb & Hb' & Hbit); [lia|lia|]. exists b'. split; [done|]. split; [done|]. intros j Hj. rewrite Hbit, (word_le_offset a j), (word_le_offset j o) by lia. destruct (Z.eqb_spec (j `div` 64) (a `div` 64)) as [Ej|Ej].
    + rewrite Ej, E, Z.eqb_refl, Z.ltb_irrefl. by destruct (_ <=? _).
    + destruct (Z.ltb_spec (a `div` 64) (j `div` 64)), (Z.ltb_spec (j `div` 64) (o `div` 64)), (Z.eqb_spec (a `div` 64) (j `div` 64)), (Z.eqb_spec (j `div` 64) (o `div` 64)); cbn; try done; lia.
  - destruct (word_Set_range_bits b (a `div` 64) (a `mod` 64) (kWordBits - 1) Hb Ha1) as (b1 & E1 & Hb1 & Hbit1); [unfold kWordBits; lia|unfold kWordBits; lia|]. rewrite E1. cbn [obind]. destruct (set_words_loop b1 (a `div` 64 + 1) (o `div` 64) Hb1) as (b2 & E2 & Hb2 & Hbit2); [lia|lia|]. rewrite E2. cbn [obind].
    destruct (word_Set_range_bits b2 (o `div` 64) 0 (o `mod` 64) Hb2 Ho1) as (b3 & E3 & Hb3 & Hbit3); [lia|lia|]. exists b3. split; [done|]. split; [done|]. intros j Hj. rewrite Hbit3, Hbit2, Hbit1, (word_le_offset a j), (word_le_offset j o) by lia. destruct (offset_range j Hj) as [Hj1 Hj2]. destruct (block_bit b j); [by rewrite !orb_true_r|]. rewrite !orb_false_r. unfold kWordBits.
    destruct (Z.eqb_spec (j `div` 64) (o `div` 64)), (Z.eqb_spec (j `div` 64) (a `div` 64)), (Z.eqb_spec (a `div` 64) (j `div` 64)), (Z.ltb_spec (a `div` 64) (j `div` 64)), (Z.ltb_spec (j `div` 64) (o `div` 64)), (Z.leb_spec (a `div` 64 + 1) (j `div` 64)), (Z.leb_spec 0 (j `mod` 64)), (Z.leb_spec (j `mod` 64) (64 - 1)); cbn; try lia; rewrite ?andb_true_r, ?orb_false_r; done.
Qed.

(** ** Searching and filling *)

Lemma Block_IndexOfNthSet_spec b n : block_ok b -> 0 <= n < rank (block_bit b) 512 -> exists o, Block_IndexOfNthSet n b = Ok (offset_of o) /\ 0 <= o < 512 /\ is_nth (block_bit b) n o.
Proof.
  intros Hb Hn. unfold Block_IndexOfNthSet. assert (Hgen : forall m i, (m = 8 - Z.to_nat i)%nat -> 0 <= i <= 8 -> rank (block_bit b) (64 * i) <= n -> exists o, Block_IndexOfNthSet_loop (drop (Z.to_nat i) b) i (rank (block_bit b) (64 * i)) n = Ok (offset_of o) /\ 0 <= o < 512 /\ is_nth (block_bit b) n o).
  { induction m as [|m IH]; intros i Hm Hi Hr; [replace i with 8 in Hr by lia; change (64 * 8) with 512 in Hr; lia|]. destruct (block_word b i Hb ltac:(lia)) as (w & Ew & _ & Hw). rewrite (drop_S _ _ _ Ew). cbn [Block_IndexOfNthSet_loop]. cbv zeta.
    pose proof (rank_block_words b i Hb ltac:(lia)) as Hrw. rewrite Ew in Hrw. unfold word_CountSetBits. rewrite <- Hrw, rank_small by lia. destruct (Z.leb_spec (rank (block_bit b) (64 * (i + 1))) n) as [Hle|Hlt].
    - replace (S (Z.to_nat i)) with (Z.to_nat (i + 1)) by lia. apply IH; [lia| |done]. destruct (Z.eq_dec i 8); [lia|]. lia.
    - pose proof (rank_range (block_bit b) (64 * i)). rewrite (u32_small (n - _)) by (pose proof (rank_range (block_bit b) 512); lia). destruct (word_select_spec w (n - rank (block_bit b) (64 * i)) Hw ltac:(lia)) as [(H0 & Hbit & Hrank) H64]. set (j := word_IndexOfNthSet w (n - rank (block_bit b) (64 * i))) in *.
      exists (64 * i + j). split; [|split; [lia|]].
      + unfold offset_of. f_equal. f_equal; [rewrite (Z.add_comm (64 * i)), (Z.mul_comm 64), Z.div_add, Z.div_small by lia; lia|rewrite (Z.add_comm (64 * i)), (Z.mul_comm 64), Z.mod_add by lia; symmetry; by apply Z.mod_small].
      + split; [lia|]. split; [by rewrite (block_bit_at b i w) by (done || lia)|]. rewrite rank_split by lia. rewrite (rank_ext (fun k => block_bit b (64 * i + k)) (Z.testbit w)) by (intros k Hk; apply block_bit_at; (done || lia)). lia. }
  destruct (Hgen 8%nat 0) as (o & E & H); [done|lia|rewrite rank_0; lia|]. by exists o.
Qed.
Lemma word_Or_bits w i (v : bool) j : 0 <= i < 64 -> 0 <= j -> Z.testbit (word_Or w (if v then u64 (1 .<< i) else 0)) j = ((j =? i) && v) || Z.testbit w j.
Proof. intros Hi Hj. unfold word_Or. rewrite Z.lor_spec. destruct v; [rewrite u64_shiftl_1, pow2_testbit, andb_true_r by lia; apply orb_comm|]. by rewrite Z.testbit_0_l, andb_false_r, orb_false_r. Qed.
Lemma Block_FromFiller_spec offset (f : Z -> bool) : 0 <= offset -> offset + 512 <= 2 ^ 32 -> exists b, Block_FromFiller offset f = Ok b /\ block_ok b /\ forall o, 0 <= o < 512 -> block_bit b o = f (offset + o).
Proof.
  intros Ho Ho'. unfold Block_FromFiller. destruct Block_new_ok as [Hnew Hnewbit].
  destruct (for_loop_inv (fun i b => block_ok b /\ forall o, 0 <= o < 512 -> block_bit b o = (o `mod` 64 <? i) && f (offset + o)) 0 kWordBits (fun i b => let mask := u64 (1 .<< i) in let offset_with_bit := u32 (offset + i) in
    for_loop 0 kWords (fun j b => Block_update j (fun w => word_Or w (if f (u32 (offset_with_bit + j * kWordBits)) then mask else 0)) b) b) Block_new) as (b & E & Hb & Hbit).
  - unfold kWordBits. lia.
  - split; [done|]. intros o Hoo. rewrite Hnewbit. pose proof (Z.mod_pos_bound o 64). destruct (Z.ltb_spec (o `mod` 64) 0); [lia|done].
  - unfold kWordBits. cbv zeta. intros i b Hi [Hb Hbit]. destruct (for_loop_inv (fun j b' => block_ok b' /\ forall o, 0 <= o < 512 -> block_bit b' o = (if o `div` 64 <? j then o `mod` 64 <? i + 1 else o `mod` 64 <? i) && f (offset + o)) 0 kWords (fun j b => Block_update j (fun w => word_Or w (if f (u32 (u32 (offset + i) + j * 64)) then u64 (1 .<< i) else 0)) b) b) as (b' & E & Hb' & Hbit').
    + unfold kWords. lia.
    + split; [done|]. intros o Hoo. rewrite Hbit by done. destruct (offset_range o Hoo). destruct (Z.ltb_spec (o `div` 64) 0); [lia|done].
    + unfold kWords. intros j b1 Hj [Hb1 Hbit1]. rewrite (u32_small (offset + i)), (u32_small (offset + i + j * 64)) by lia. set (v := f (offset + i + j * 64)). destruct (Block_update_bits b1 j (fun w => word_Or w (if v then u64 (1 .<< i) else 0)) (fun k x => ((k =? i) && v) || x) Hb1 Hj) as (b2 & E2 & Hb2 & Hbit2); [intros w Hw; unfold word_Or; apply word64_lor; [done|destruct v; [apply word64_u64|done]]|intros w k Hw Hk; apply word_Or_bits; lia|].
      exists b2. split; [done|]. split; [done|]. intros o Hoo. rewrite Hbit2, Hbit1 by done. destruct (Z.eqb_spec (o `div` 64) j) as [Ej|Ej].
      * rewrite Ej, Z.ltb_irrefl. destruct (Z.ltb_spec j (j + 1)); [|lia]. destruct (Z.eqb_spec (o `mod` 64) i) as [Ei|Ei].
        -- unfold v. replace (offset + i + j * 64) with (offset + o) by (pose proof (block_offset_split o); lia). destruct (Z.ltb_spec (o `mod` 64) i), (Z.ltb_spec (o `mod` 64) (i + 1)); try lia. by rewrite orb_false_r.
        -- destruct (Z.ltb_spec (o `mod` 64) i), (Z.ltb_spec (o `mod` 64) (i + 1)); try lia; done.
      * destruct (Z.ltb_spec (o `div` 64) j), (Z.ltb_spec (o `div` 64) (j + 1)); try lia; done.
    + exists b'. split; [done|]. split; [done|]. intros o Hoo. rewrite Hbit' by done. destruct (offset_range o Hoo) as [Ho1 _]. unfold kWords. destruct (Z.ltb_spec (o `div` 64) 8); [done|lia].
  - exists b. split; [done|]. split; [done|]. intros o Hoo. rewrite Hbit by done. destruct (offset_range o Hoo) as [_ Ho2]. unfold kWordBits. destruct (Z.ltb_spec (o `mod` 64) 64); [done|lia].
Qed.
