(* ===== verification/BitVectorCorrect.v ===== *)
(** * The bit vector as a list of bits

    The invariant of the vector (whole blocks, exact counts before each block, no bit set
    after the end) and what each operation does to its bits. *)

From S2P Require Import Prelude StdAlgorithms BitVector BitVectorWords BitVectorSelect BitVectorBlocks.

Local Open Scope cpp_scope.

(** ** The invariant *)

Definition bit (blocks : list Block) (i : Z) : bool := match blocks !! Z.to_nat (i `div` 512) with Some b => block_bit b (i `mod` 512) | None => false end.
Definition counts_exact (bv : BitVector) : Prop := forall k c, counts_ bv !! Z.to_nat k = Some c -> 0 <= k -> c = rank (bit (blocks_ bv)) (512 * k).
Definition kMaxSize : Z := 2 ^ 32 - 512.
(** The invariant, but for the number of blocks. *)
Record bv_inv (bv : BitVector) : Prop := {
  bi_size : 0 <= size_ bv <= kMaxSize;
  bi_blocks : Forall block_ok (blocks_ bv);
  bi_lengths : zlen (counts_ bv) = zlen (blocks_ bv);
  bi_room : size_ bv <= 512 * zlen (blocks_ bv) <= 2 ^ 32;
  bi_counts : counts_exact bv;
  bi_tail : forall i, size_ bv <= i -> bit (blocks_ bv) i = false
}.
Definition bv_ok (bv : BitVector) : Prop := bv_inv bv /\ zlen (blocks_ bv) = (size_ bv + 511) `div` 512.
Lemma new_bv_ok : bv_ok BitVector_new.
Proof. split; [|done]. split; try done. Qed.
Lemma index_range i n : 0 <= i < 512 * n -> 0 <= i `div` 512 < n /\ 0 <= i `mod` 512 < 512.
Proof. intros. split; [split; [apply Z.div_pos; lia|apply Z.div_lt_upper_bound; lia]|apply Z.mod_pos_bound; lia]. Qed.
Lemma index_split i : i = 512 * (i `div` 512) + i `mod` 512.
Proof. apply Z.div_mod. lia. Qed.
Lemma IndexToAddress_eq idx : IndexToAddress idx = mkAddress (idx `div` 512) (offset_of (idx `mod` 512)).
Proof. done. Qed.
Lemma AddressToIndex_spec k o : 0 <= o < 512 -> 0 <= 512 * k + o < 2 ^ 32 -> AddressToIndex (mkAddress k (offset_of o)) = 512 * k + o.
Proof. intros Ho H. unfold AddressToIndex. cbn [block_idx block_offset offset_of word_idx bit_idx]. unfold kBlockBits, kWords, kWordBits. rewrite <- (u32_small (512 * k + o)) by done. f_equal. pose proof (block_offset_split o). lia. Qed.
Lemma get_block blocks k : Forall block_ok blocks -> 0 <= k < zlen blocks -> exists b, blocks !! Z.to_nat k = Some b /\ vec_get blocks k = Ok b /\ block_ok b.
Proof. intros Hb Hk. destruct (vec_get_inside blocks k Hk) as (b & E & Eg). exists b. split; [done|]. split; [done|]. by eapply (Forall_lookup_1 block_ok). Qed.
Lemma bit_at blocks k b o : blocks !! Z.to_nat k = Some b -> 0 <= o < 512 -> bit blocks (512 * k + o) = block_bit b o.
Proof. intros E Ho. unfold bit. rewrite (Z.add_comm (512 * k)), (Z.mul_comm 512), Z.div_add, Z.div_small, Z.add_0_l, E, Z.mod_add by lia. f_equal. by apply Z.mod_small. Qed.
Lemma rank_block blocks k b o : blocks !! Z.to_nat k = Some b -> 0 <= k -> 0 <= o <= 512 -> rank (bit blocks) (512 * k + o) = rank (bit blocks) (512 * k) + rank (block_bit b) o.
Proof. intros E Hk Ho. rewrite rank_split by lia. f_equal. apply rank_ext. intros i Hi. apply bit_at; [done|lia]. Qed.
Lemma bit_outside blocks i : 512 * zlen blocks <= i -> bit blocks i = false.
Proof. intros H. unfold bit. rewrite lookup_ge_None_2; [done|]. unfold zlen in H. pose proof (index_split i). pose proof (Z.mod_pos_bound i 512). lia. Qed.
Definition same_shape (bv bv' : BitVector) : Prop := size_ bv' = size_ bv /\ counts_ bv' = counts_ bv /\ zlen (blocks_ bv') = zlen (blocks_ bv) /\ Forall block_ok (blocks_ bv').
(** One block changed, bit by bit. *)
Lemma update_block_spec bv k f (g : Z -> bool -> bool) : Forall block_ok (blocks_ bv) -> 0 <= k < zlen (blocks_ bv) -> (forall b, block_ok b -> exists b', f b = Ok b' /\ block_becomes b b' (fun o => g o (block_bit b o))) ->
  exists bv', update_block k f bv = Ok bv' /\ same_shape bv bv' /\ forall i, 0 <= i -> bit (blocks_ bv') i = if i `div` 512 =? k then g (i `mod` 512) (bit (blocks_ bv) i) else bit (blocks_ bv) i.
Proof.
  intros Hb Hk Hf. destruct (get_block _ k Hb Hk) as (b & E & Eg & Hbk). destruct (Hf b Hbk) as (b' & Ef & Hb' & Hbit). unfold update_block. rewrite Eg. cbn [obind]. rewrite Ef. cbn [obind]. rewrite vec_set_inside by done. cbn [obind]. eexists. split; [done|]. split.
  - unfold same_shape, zlen. cbn. rewrite length_insert. split_and!; [done..|by apply Forall_insert].
  - intros i Hi. cbn. unfold bit. destruct (Z.eqb_spec (i `div` 512) k) as [Ei|Ei].
    + rewrite Ei, list_lookup_insert_eq by (unfold zlen in Hk; lia). rewrite E. apply Hbit, Z.mod_pos_bound. lia.
    + rewrite list_lookup_insert_ne; [done|]. assert (0 <= i `div` 512) by (apply Z.div_pos; lia). lia.
Qed.

(** ** Queries *)

Lemma IsSet_spec bv idx : Forall block_ok (blocks_ bv) -> 0 <= idx < 512 * zlen (blocks_ bv) -> IsSet idx bv = Ok (bit (blocks_ bv) idx).
Proof.
  intros Hb Hi. destruct (index_range _ _ Hi) as [H1 H2]. destruct (get_block _ _ Hb H1) as (b & E & Eg & Hbk). unfold IsSet. rewrite IndexToAddress_eq. cbn [block_idx block_offset]. rewrite Eg. cbn [obind]. rewrite Block_IsSet_spec by done. unfold bit. by rewrite E.
Qed.
(** Only the count of the block of the last bit matters. *)
Lemma CountSetBits_until_local bv e c : Forall block_ok (blocks_ bv) -> 0 <= e <= 512 * zlen (blocks_ bv) -> e < 2 ^ 32 -> (0 < e -> counts_ bv !! Z.to_nat ((e - 1) `div` 512) = Some c /\ c = rank (bit (blocks_ bv)) (512 * ((e - 1) `div` 512))) ->
  CountSetBits_until e bv = Ok (rank (bit (blocks_ bv)) e).
Proof.
  intros Hb He Hlt Hc. unfold CountSetBits_until. destruct (Z.eqb_spec e 0) as [->|Hne]; [by rewrite rank_0|]. destruct (index_range (e - 1) (zlen (blocks_ bv)) ltac:(lia)) as [H1 H2]. destruct (get_block _ _ Hb H1) as (b & E & Eg & Hbk). destruct Hc as [Ec ->]; [lia|]. cbv zeta. rewrite IndexToAddress_eq. cbn [block_idx block_offset].
  rewrite (vec_get_Some _ _ _ Ec). cbn [obind]. rewrite Eg. cbn [obind]. rewrite Block_CountSetBits_until_spec by done. cbn [obind]. f_equal. pose proof (index_split (e - 1)). rewrite <- rank_block by (done || lia). replace (512 * _ + _) with e by lia. apply rank_small. lia.
Qed.
Lemma counts_lookup bv k : bv_inv bv -> 0 <= k < zlen (blocks_ bv) -> exists c, counts_ bv !! Z.to_nat k = Some c /\ c = rank (bit (blocks_ bv)) (512 * k).
Proof. intros H Hk. destruct (lookup_lt_is_Some_2 (counts_ bv) (Z.to_nat k)) as [c Hc]; [pose proof (bi_lengths _ H) as Hl; unfold zlen in *; lia|]. exists c. split; [done|]. apply (bi_counts _ H k); [done|lia]. Qed.
Lemma CountSetBits_until_spec bv e : bv_inv bv -> 0 <= e <= size_ bv -> CountSetBits_until e bv = Ok (rank (bit (blocks_ bv)) e).
Proof.
  intros H He. pose proof (bi_size _ H) as Hs. pose proof (bi_room _ H) as Hr. unfold kMaxSize in Hs. destruct (Z.eq_dec e 0) as [->|Hne]; [unfold CountSetBits_until; by rewrite rank_0|]. destruct (index_range (e - 1) (zlen (blocks_ bv)) ltac:(lia)) as [H1 _]. destruct (counts_lookup bv _ H H1) as (c & Hc & Ec).
  apply (CountSetBits_until_local bv e c); [apply H|lia|lia|done].
Qed.
Lemma CountSetBits_spec bv : bv_inv bv -> CountSetBits bv = Ok (rank (bit (blocks_ bv)) (size_ bv)).
Proof. intros H. apply CountSetBits_until_spec; [done|]. pose proof (bi_size _ H). lia. Qed.
Lemma IndexOfNthSet_spec bv n : bv_inv bv -> 0 <= n < rank (bit (blocks_ bv)) (size_ bv) -> exists i, IndexOfNthSet n bv = Ok i /\ is_nth (bit (blocks_ bv)) n i /\ i < size_ bv.
Proof.
  intros H Hn. pose proof (bi_size _ H) as Hs. pose proof (bi_room _ H) as Hr. unfold kMaxSize in Hs. set (f := bit (blocks_ bv)) in *. destruct (is_nth_exists f n (size_ bv) ltac:(lia) Hn) as (i & Hi & His). exists i. pose proof Hi as (Hi0 & Hfi & Hri).
  destruct (index_range i (zlen (blocks_ bv)) ltac:(lia)) as [H1 H2]. destruct (counts_lookup bv _ H H1) as (c & Hc & Ec). destruct (get_block _ _ (bi_blocks _ H) H1) as (b & Eb & Egb & Hbk). fold f in Ec.
  assert (Hub : upper_bound Z.ltb (counts_ bv) n = S (Z.to_nat (i `div` 512))).
  { unfold upper_bound. apply partition_point_spec. split; [apply lookup_lt_Some in Hc; lia|]. intros k x Hx. rewrite <- (Nat2Z.id k) in Hx. rewrite (bi_counts _ H _ _ Hx) by lia. fold f. assert (Hk : n < rank f (512 * Z.of_nat k) <-> i `div` 512 < Z.of_nat k).
    { pose proof (index_split i). split; intros Hk.
      - destruct (Z.lt_ge_cases (i `div` 512) (Z.of_nat k)) as [|Hge]; [done|]. pose proof (rank_mono f (512 * Z.of_nat k) i ltac:(lia)). lia.
      - rewrite <- Hri. apply (is_nth_lt f (rank f i) i); [done|lia]. }
    case_bool_decide as Hd; [apply negb_true_iff, Z.ltb_ge; lia|apply negb_false_iff, Z.ltb_lt, Hk; lia]. }
  unfold IndexOfNthSet. cbv zeta. rewrite Hub. rewrite (u32_small (Z.of_nat (S (Z.to_nat (i `div` 512))) - 1)) by lia. replace (Z.of_nat (S (Z.to_nat (i `div` 512))) - 1) with (i `div` 512) by lia. rewrite (vec_get_Some _ _ _ Hc). cbn [obind]. rewrite Egb. cbn [obind].
  pose proof (index_split i) as Hsp. assert (Hrb : forall o, 0 <= o <= 512 -> rank f (512 * (i `div` 512) + o) = c + rank (block_bit b) o) by (intros o Ho; rewrite Ec; apply rank_block; [done|lia|lia]). pose proof (rank_range f (512 * (i `div` 512))). pose proof (rank_range f (size_ bv)).
  assert (Hc1 : c <= n) by (rewrite Ec, <- Hri; apply rank_mono; lia). rewrite (u32_small (n - c)) by lia. destruct (Block_IndexOfNthSet_spec b (n - c) Hbk) as (o & Eo & Ho & Hno).
  { split; [lia|]. pose proof (is_nth_lt f n i (512 * (i `div` 512) + 512) Hi ltac:(lia)) as Hlt. rewrite Hrb in Hlt by lia. lia. }
  rewrite Eo. cbn [obind]. assert (Ei : i = 512 * (i `div` 512) + o).
  { apply (is_nth_unique f n); [done|]. destruct Hno as (_ & Hbo & Hro). split; [lia|]. split; [unfold f; by rewrite (bit_at _ _ b)|]. rewrite Hrb by lia. lia. }
  rewrite AddressToIndex_spec by lia. rewrite <- Ei. done.
Qed.

(** ** One bit *)

(** The vector [bv'] holds the bits [g] in [size] places. *)
Definition becomes (bv' : BitVector) (size : Z) (g : Z -> bool) : Prop := bv_ok bv' /\ size_ bv' = size /\ forall i, 0 <= i -> bit (blocks_ bv') i = g i.
Lemma add_to_counts_spec bv first diff : 0 <= first <= zlen (counts_ bv) -> exists bv', add_to_counts first (zlen (counts_ bv)) diff bv = Ok bv' /\ size_ bv' = size_ bv /\ blocks_ bv' = blocks_ bv /\ zlen (counts_ bv') = zlen (counts_ bv) /\
  forall k c, 0 <= k -> counts_ bv' !! Z.to_nat k = Some c -> exists c0, counts_ bv !! Z.to_nat k = Some c0 /\ c = if first <=? k then u32 (c0 + diff) else c0.
Proof.
  intros Hf. unfold add_to_counts. destruct (for_loop_inv (fun i counts => zlen counts = zlen (counts_ bv) /\ forall k c, 0 <= k -> counts !! Z.to_nat k = Some c -> exists c0, counts_ bv !! Z.to_nat k = Some c0 /\ c = if (first <=? k) && (k <? i) then u32 (c0 + diff) else c0)
    first (zlen (counts_ bv)) (fun i counts => let! c := vec_get counts i in vec_set counts i (u32 (c + diff))) (counts_ bv)) as (counts & E & Hl & Hc).
  - lia.
  - split; [done|]. intros k c Hk Hc. exists c. split; [done|]. destruct (Z.leb_spec first k), (Z.ltb_spec k first); try done; lia.
  - intros i counts Hi [Hl Hc]. destruct (vec_get_inside counts i) as (c & Ec & Eg); [lia|]. rewrite Eg. cbn [obind]. rewrite vec_set_inside by lia. eexists. split; [done|]. split; [unfold zlen in *; by rewrite length_insert|]. intros k c' Hk Hc'. destruct (Z.eq_dec k i) as [->|Hne].
    + rewrite list_lookup_insert_eq in Hc' by (unfold zlen in *; lia). injection Hc' as <-. destruct (Hc i c ltac:(lia) Ec) as (c0 & Hc0 & ->). exists c0. split; [done|]. destruct (Z.leb_spec first i), (Z.ltb_spec i i), (Z.ltb_spec i (i + 1)); try done; lia.
    + rewrite list_lookup_insert_ne in Hc' by lia. destruct (Hc k c' Hk Hc') as (c0 & Hc0 & ->). exists c0. split; [done|]. destruct (Z.leb_spec first k), (Z.ltb_spec k i), (Z.ltb_spec k (i + 1)); try done; lia.
  - rewrite E. cbn [obind]. eexists. split; [done|]. split_and!; [done..|]. cbn. intros k c Hk Hkc. destruct (Hc k c Hk Hkc) as (c0 & Hc0 & ->). exists c0. split; [done|]. apply lookup_lt_Some in Hkc. unfold zlen in *. destruct (Z.leb_spec first k), (Z.ltb_spec k (Z.of_nat (length (counts_ bv)))); try done; lia.
Qed.
Lemma rank_u32 bv k : bv_inv bv -> 0 <= k <= zlen (blocks_ bv) -> 0 <= rank (bit (blocks_ bv)) (512 * k) <= size_ bv.
Proof.
  intros H Hk. pose proof (bi_size _ H). destruct (Z.le_gt_cases (512 * k) (size_ bv)); [pose proof (rank_range (bit (blocks_ bv)) (512 * k)); lia|]. rewrite (rank_stable _ (size_ bv)); [apply rank_range; lia|lia|]. intros i Hi. apply (bi_tail _ H). lia.
Qed.
(** Writing one bit and adjusting the counts after its block. *)
Lemma write_bit_spec bv idx f (v : bool) diff : bv_ok bv -> 0 <= idx < size_ bv -> bit (blocks_ bv) idx = negb v -> diff = b2z v - b2z (negb v) ->
  (forall b o, block_ok b -> 0 <= o < 512 -> exists b', f o b = Ok b' /\ block_becomes b b' (fun j => if j =? o then v else block_bit b j)) ->
  exists bv', (let! bv := update_block (idx `div` 512) (f (idx `mod` 512)) bv in add_to_counts (idx `div` 512 + 1) (zlen (counts_ bv)) diff bv) = Ok bv' /\ becomes bv' (size_ bv) (fun i => if i =? idx then v else bit (blocks_ bv) i).
Proof.
  intros [H Hn] Hi Hold Hdiff Hf. pose proof (bi_size _ H) as Hs. pose proof (bi_room _ H) as Hr. unfold kMaxSize in Hs. destruct (index_range idx (zlen (blocks_ bv)) ltac:(lia)) as [H1 H2].
  destruct (update_block_spec bv (idx `div` 512) (f (idx `mod` 512)) (fun j x => if j =? idx `mod` 512 then v else x) (bi_blocks _ H) H1) as (bv1 & E1 & (S1 & S2 & S3 & S4) & Hbit1); [intros b Hb; by apply Hf|]. rewrite E1. cbn [obind]. pose proof (bi_lengths _ H) as Hl. rewrite S2.
  destruct (add_to_counts_spec bv1 (idx `div` 512 + 1) diff) as (bv' & E2 & T1 & T2 & T3 & Hc); [rewrite S2; lia|]. rewrite S2 in E2. rewrite E2. exists bv'. split; [done|].
  assert (Hbits : forall i, 0 <= i -> bit (blocks_ bv') i = if i =? idx then v else bit (blocks_ bv) i).
  { intros i Hi'. rewrite T2, Hbit1 by done. pose proof (index_split i). pose proof (index_split idx). destruct (Z.eqb_spec (i `div` 512) (idx `div` 512)), (Z.eqb_spec (i `mod` 512) (idx `mod` 512)), (Z.eqb_spec i idx); try done; exfalso; first [lia|congruence]. }
  split; [|split; [by rewrite T1|done]]. split; [|rewrite T2, S3, T1, S1; done]. split.
  - by rewrite T1, S1.
  - by rewrite T2.
  - rewrite T3, T2, S2, S3. done.
  - rewrite T1, T2, S1, S3. done.
  - intros k c Hkc Hk. destruct (Hc k c Hk Hkc) as (c0 & Hc0 & ->). rewrite S2 in Hc0. assert (Hkn : k < zlen (blocks_ bv)) by (apply lookup_lt_Some in Hc0; unfold zlen in *; lia). rewrite (bi_counts _ H k c0 Hc0 Hk) in *.
    rewrite (rank_update (bit (blocks_ bv)) (bit (blocks_ bv')) (512 * k) idx); [|lia|intros j Hj Hne; rewrite Hbits by done; destruct (Z.eqb_spec j idx); [done|done]]. rewrite Hbits, Z.eqb_refl, Hold, <- Hdiff by lia.
    pose proof (index_split idx). destruct (Z.leb_spec (idx `div` 512 + 1) k), (Z.ltb_spec idx (512 * k)); try lia. apply u32_small. pose proof (rank_u32 bv k H ltac:(lia)) as Hru.
    pose proof (rank_update (bit (blocks_ bv)) (bit (blocks_ bv')) (512 * k) idx ltac:(lia)) as Hup. destruct (Z.ltb_spec idx (512 * k)); [|lia]. rewrite Hbits, Z.eqb_refl, Hold, <- Hdiff in Hup by lia. rewrite <- Hup; [|intros j Hj Hne; rewrite Hbits by done; destruct (Z.eqb_spec j idx); done]. pose proof (rank_range (bit (blocks_ bv')) (512 * k)). assert (512 * k < 2 ^ 32) by lia. lia.
  - intros i Hi'. rewrite T1, S1 in Hi'. rewrite Hbits by lia. destruct (Z.eqb_spec i idx); [lia|]. by apply (bi_tail _ H).
Qed.
Lemma becomes_refl bv : bv_ok bv -> becomes bv (size_ bv) (bit (blocks_ bv)).
Proof. done. Qed.
Lemma becomes_ext bv n g g' : (forall i, 0 <= i -> g i = g' i) -> becomes bv n g -> becomes bv n g'.
Proof. intros E (H1 & H2 & H3). split_and!; [done..|]. intros i Hi. rewrite H3 by done. by apply E. Qed.
Lemma Set_spec bv idx : bv_ok bv -> 0 <= idx < size_ bv -> exists bv', Set_ idx bv = Ok (bit (blocks_ bv) idx, bv') /\ becomes bv' (size_ bv) (fun i => if i =? idx then true else bit (blocks_ bv) i).
Proof.
  intros Hok Hi. pose proof Hok as [H _]. pose proof (bi_room _ H) as Hr. destruct (index_range idx (zlen (blocks_ bv)) ltac:(lia)) as [H1 H2]. destruct (get_block _ _ (bi_blocks _ H) H1) as (b & E & Eg & Hbk). unfold Set_. rewrite IndexToAddress_eq. cbn [block_idx block_offset]. rewrite Eg. cbn [obind]. rewrite Block_IsSet_spec by done. cbn [obind].
  assert (Eb : block_bit b (idx `mod` 512) = bit (blocks_ bv) idx) by (unfold bit; by rewrite E). rewrite Eb. destruct (bit (blocks_ bv) idx) eqn:Eold; cbn [negb].
  - exists bv. split; [done|]. eapply becomes_ext; [|by apply becomes_refl]. intros i Hi'. destruct (Z.eqb_spec i idx) as [->|]; done.
  - destruct (write_bit_spec bv idx (fun o => Block_Set (offset_of o)) true 1 Hok Hi Eold) as (bv' & Ew & Hb); [done| |].
    + intros b0 o Hb0 Ho. destruct (Block_Set_spec b0 o Hb0 Ho) as (b' & Es & Hb' & Hbit). exists b'. split; [done|]. split; [done|]. intros j Hj. rewrite Hbit by done. by destruct (j =? o).
    + exists bv'. split; [|done]. destruct (update_block _ _ bv) as [bv1|]; cbn [obind] in *; [|done]. by rewrite Ew.
Qed.
Lemma BitVector_Clear_spec bv idx : bv_ok bv -> 0 <= idx < size_ bv -> exists bv', Clear idx bv = Ok bv' /\ becomes bv' (size_ bv) (fun i => if i =? idx then false else bit (blocks_ bv) i).
Proof.
  intros Hok Hi. pose proof Hok as [H _]. pose proof (bi_room _ H) as Hr. destruct (index_range idx (zlen (blocks_ bv)) ltac:(lia)) as [H1 H2]. destruct (get_block _ _ (bi_blocks _ H) H1) as (b & E & Eg & Hbk). unfold Clear. rewrite IndexToAddress_eq. cbn [block_idx block_offset]. rewrite Eg. cbn [obind]. rewrite Block_IsSet_spec by done. cbn [obind].
  assert (Eb : block_bit b (idx `mod` 512) = bit (blocks_ bv) idx) by (unfold bit; by rewrite E). rewrite Eb. destruct (bit (blocks_ bv) idx) eqn:Eold.
  - destruct (write_bit_spec bv idx (fun o => Block_Clear (offset_of o)) false (-1) Hok Hi Eold) as (bv' & Ew & Hb); [done| |by exists bv'].
    intros b0 o Hb0 Ho. destruct (Block_Clear_spec b0 o Hb0 Ho) as (b' & Es & Hb' & Hbit). exists b'. split; [done|]. split; [done|]. intros j Hj. rewrite Hbit by done. by destruct (j =? o).
  - exists bv. split; [done|]. eapply becomes_ext; [|by apply becomes_refl]. intros i Hi'. destruct (Z.eqb_spec i idx) as [->|]; done.
Qed.

(** ** Appending *)

Lemma bit_new_blocks blocks n i : 0 <= i -> bit (blocks ++ replicate n Block_new) i = bit blocks i.
Proof.
  intros Hi. unfold bit. destruct (decide (Z.to_nat (i `div` 512) < length blocks)%nat) as [Hlt|Hge]; [by rewrite lookup_app_l|]. rewrite lookup_app_r by lia. rewrite (lookup_ge_None_2 blocks) by lia. destruct (replicate n Block_new !! _) as [b|] eqn:E; [|done]. apply lookup_replicate in E as [-> _]. apply Block_new_ok.
Qed.
Lemma append_block_spec bv : bv_ok bv -> size_ bv < kMaxSize -> exists bv', append_block (size_ bv `div` 512 + 1) bv = Ok bv' /\ bv_inv bv' /\ zlen (blocks_ bv') = size_ bv `div` 512 + 1 /\ size_ bv' = size_ bv /\ forall i, 0 <= i -> bit (blocks_ bv') i = bit (blocks_ bv) i.
Proof.
  intros [H Hn] Hs. pose proof (bi_size _ H) as Hs0. pose proof (bi_room _ H) as Hr. unfold append_block, kMaxSize in *. pose proof (index_split (size_ bv)) as Hsp. pose proof (Z.mod_pos_bound (size_ bv) 512) as Hmod. assert (0 <= size_ bv `div` 512) by (apply Z.div_pos; lia).
  assert (Hceil : (size_ bv + 511) `div` 512 = if size_ bv `mod` 512 =? 0 then size_ bv `div` 512 else size_ bv `div` 512 + 1).
  { destruct (Z.eqb_spec (size_ bv `mod` 512) 0); symmetry; [apply (Z.div_unique _ _ _ 511); lia|apply (Z.div_unique _ _ _ (size_ bv `mod` 512 - 1)); lia]. }
  rewrite Hn, Hceil. destruct (Z.eqb_spec (size_ bv `mod` 512) 0) as [E|E]; cbn [negb].
  2: { destruct (Z.ltb_spec (size_ bv `div` 512 + 1) (size_ bv `div` 512 + 1)); [lia|]. exists bv. split_and!; [done..|by rewrite Hn, Hceil; destruct (Z.eqb_spec (size_ bv `mod` 512) 0)|done|done]. }
  destruct (Z.ltb_spec (size_ bv `div` 512) (size_ bv `div` 512 + 1)); [|lia]. rewrite CountSetBits_spec by done. cbn [obind]. eexists. split; [done|]. assert (Hlen : zlen (blocks_ bv) = size_ bv `div` 512) by (rewrite Hn, Hceil; destruct (Z.eqb_spec (size_ bv `mod` 512) 0); done).
  assert (Hbits : forall i, 0 <= i -> bit (blocks_ bv ++ [Block_new]) i = bit (blocks_ bv) i) by (intros i Hi; by apply (bit_new_blocks _ 1)). pose proof (bi_lengths _ H) as Hl.
  split; [|split; [|split; [done|done]]]; cbn [size_ counts_ blocks_].
  - split; cbn [size_ counts_ blocks_].
    + unfold kMaxSize. lia.
    + apply Forall_app. split; [apply H|]. apply Forall_singleton, Block_new_ok.
    + rewrite !zlen_app, Hl. done.
    + rewrite zlen_app. change (zlen [Block_new]) with 1. lia.
    + intros k c Hc Hk. cbn [counts_ blocks_] in *. rewrite (rank_ext _ (bit (blocks_ bv))) by (intros i Hi; apply Hbits; lia). apply lookup_app_Some in Hc as [Hc|[Hge Hc]]; [by apply (bi_counts _ H)|]. apply list_lookup_singleton_Some in Hc as [Hk0 <-]. f_equal. unfold zlen in *. lia.
    + intros i Hi. rewrite Hbits by lia. by apply (bi_tail _ H).
  - rewrite zlen_app, Hlen. done.
Qed.
Lemma set_size_tail bv n : bv_inv bv -> size_ bv <= n -> n <= kMaxSize -> n <= 512 * zlen (blocks_ bv) -> bv_inv (set_size n bv).
Proof.
  intros [H1 H2 H3 H4 H5 H6] Hn Hm Hr. split; cbn; [lia|done|done|lia|done|]. intros i Hi. apply H6. lia.
Qed.
Lemma BitVector_Append_spec bv v : bv_ok bv -> size_ bv < kMaxSize -> exists bv', Append v bv = Ok bv' /\ becomes bv' (size_ bv + 1) (fun i => if i =? size_ bv then v else bit (blocks_ bv) i).
Proof.
  intros Hok Hs. pose proof Hok as [H _]. pose proof (bi_size _ H) as Hs0. destruct (append_block_spec bv Hok Hs) as (bv1 & E1 & H1 & Hn1 & Hs1 & Hb1). unfold kMaxSize in *. pose proof (index_split (size_ bv)) as Hsp. pose proof (Z.mod_pos_bound (size_ bv) 512) as Hmod. assert (Hq : 0 <= size_ bv `div` 512) by (apply Z.div_pos; lia).
  assert (Hceil : zlen (blocks_ bv1) = (size_ bv + 1 + 511) `div` 512) by (rewrite Hn1; apply (Z.div_unique _ _ _ (size_ bv `mod` 512)); lia). assert (Hu : u32 (size_ bv1 + 1) = size_ bv + 1) by (rewrite Hs1; apply u32_small; lia).
  pose proof (set_size_tail bv1 (size_ bv + 1) H1 ltac:(lia) ltac:(unfold kMaxSize; lia) ltac:(lia)) as H2. destruct v; cbn [Append].
  - unfold AppendTrue. rewrite IndexToAddress_eq. cbn [block_idx block_offset]. rewrite E1. cbn [obind]. rewrite Hu. destruct (update_block_spec (set_size (size_ bv + 1) bv1) (size_ bv `div` 512) (Block_Set (offset_of (size_ bv `mod` 512))) (fun j x => (j =? size_ bv `mod` 512) || x) (bi_blocks _ H2)) as (bv' & E' & (S1 & S2 & S3 & S4) & Hbit); [cbn; lia|intros b Hb; apply Block_Set_spec; [done|lia]|].
    rewrite E'. exists bv'. split; [done|]. cbn [set_size size_ counts_ blocks_] in *. assert (Hbits : forall i, 0 <= i -> bit (blocks_ bv') i = if i =? size_ bv then true else bit (blocks_ bv) i).
    { intros i Hi. rewrite Hbit, Hb1 by done. pose proof (index_split i). destruct (Z.eqb_spec (i `div` 512) (size_ bv `div` 512)), (Z.eqb_spec (i `mod` 512) (size_ bv `mod` 512)), (Z.eqb_spec i (size_ bv)); try done; exfalso; first [lia|congruence]. }
    split; [|split; [done|done]]. split; [|rewrite S1, S3; done]. split.
    + rewrite S1. unfold kMaxSize. lia.
    + done.
    + rewrite S2, S3. apply H1.
    + rewrite S1, S3. pose proof (bi_room _ H1). lia.
    + intros k c Hc Hk. rewrite S2 in Hc. rewrite (rank_update (bit (blocks_ bv1)) _ _ (size_ bv)); [|lia|intros j Hj Hne; rewrite Hbits, Hb1 by done; destruct (Z.eqb_spec j (size_ bv)); done]. rewrite <- (bi_counts _ H1 k c Hc Hk). destruct (Z.ltb_spec (size_ bv) (512 * k)); [|lia]. apply lookup_lt_Some in Hc. pose proof (bi_lengths _ H1). unfold zlen in *. lia.
    + intros i Hi. rewrite S1 in Hi. rewrite Hbits by lia. destruct (Z.eqb_spec i (size_ bv)); [lia|]. apply (bi_tail _ H). lia.
  - unfold AppendFalse. rewrite IndexToAddress_eq. cbn [block_idx block_offset]. rewrite E1. cbn [obind]. rewrite Hu. exists (set_size (size_ bv + 1) bv1). split; [done|]. split; [by split|]. split; [done|]. intros i Hi. cbn. rewrite Hb1 by done. destruct (Z.eqb_spec i (size_ bv)) as [->|]; [|done]. by rewrite (bi_tail _ H).
Qed.
