(* ===== verification/BitVectorResize.v ===== *)
(** * Resizing and filling a bit vector

    Resize in both directions with both values, and the vectors filled by a function. *)

From S2P Require Import Prelude StdAlgorithms BitVector BitVectorWords BitVectorSelect BitVectorBlocks BitVectorCorrect.

Local Open Scope cpp_scope.

(** ** Ranges of bits *)

Lemma block_le_index j o : 0 <= j -> 0 <= o -> (j <=? o) = (j `div` 512 <? o `div` 512) || ((j `div` 512 =? o `div` 512) && (j `mod` 512 <=? o `mod` 512)).
Proof.
  intros Hj Ho. pose proof (index_split j). pose proof (index_split o). pose proof (Z.mod_pos_bound j 512). pose proof (Z.mod_pos_bound o 512).
  destruct (Z.leb_spec j o), (Z.ltb_spec (j `div` 512) (o `div` 512)), (Z.eqb_spec (j `div` 512) (o `div` 512)), (Z.leb_spec (j `mod` 512) (o `mod` 512)); try done; lia.
Qed.
Lemma Block_Set_range_fun a o : 0 <= a <= o -> o < 512 -> forall b, block_ok b -> exists b', Block_Set_range (offset_of a) (offset_of o) b = Ok b' /\ block_becomes b b' (fun j => ((a <=? j) && (j <=? o)) || block_bit b j).
Proof. intros Ha Ho b Hb. by apply Block_Set_range_spec. Qed.
(** One block of a range of bits to set. *)
Lemma set_range_block bv k a o : Forall block_ok (blocks_ bv) -> 0 <= k < zlen (blocks_ bv) -> 0 <= a <= o -> o < 512 ->
  exists bv', update_block k (Block_Set_range (offset_of a) (offset_of o)) bv = Ok bv' /\ same_shape bv bv' /\ forall i, 0 <= i -> bit (blocks_ bv') i = ((i `div` 512 =? k) && ((a <=? i `mod` 512) && (i `mod` 512 <=? o))) || bit (blocks_ bv) i.
Proof.
  intros Hb Hk Ha Ho. destruct (update_block_spec bv k _ (fun j x => ((a <=? j) && (j <=? o)) || x) Hb Hk (Block_Set_range_fun a o Ha Ho)) as (bv' & E & Hs & Hbit). exists bv'. split; [done|]. split; [done|]. intros i Hi. rewrite Hbit by done. by destruct (i `div` 512 =? k).
Qed.
Lemma same_shape_trans bv1 bv2 bv3 : same_shape bv1 bv2 -> same_shape bv2 bv3 -> same_shape bv1 bv3.
Proof. unfold same_shape. intros (? & ? & ? & ?) (? & ? & ? & ?). split_and!; congruence. Qed.
Lemma set_blocks_loop bv first last : Forall block_ok (blocks_ bv) -> 0 <= first <= last -> last <= zlen (blocks_ bv) ->
  exists bv', for_loop first last (fun i bv => update_block i (Block_Set_range kFirstBlockOffset kLastBlockOffset) bv) bv = Ok bv' /\ same_shape bv bv' /\ forall i, 0 <= i -> bit (blocks_ bv') i = ((first <=? i `div` 512) && (i `div` 512 <? last)) || bit (blocks_ bv) i.
Proof.
  intros Hb Hf Hl. destruct (for_loop_inv (fun k bv' => same_shape bv bv' /\ forall i, 0 <= i -> bit (blocks_ bv') i = ((first <=? i `div` 512) && (i `div` 512 <? k)) || bit (blocks_ bv) i) first last (fun i bv => update_block i (Block_Set_range kFirstBlockOffset kLastBlockOffset) bv) bv) as (bv' & E & H).
  - lia.
  - split; [done|]. intros i Hi. destruct (Z.leb_spec first (i `div` 512)), (Z.ltb_spec (i `div` 512) first); try done; lia.
  - intros k bv1 Hk [Hs Hbit]. pose proof Hs as (S1 & S2 & S3 & S4). destruct (set_range_block bv1 k 0 511) as (bv2 & E2 & Hs2 & Hbit2); [done|lia|lia|lia|]. exists bv2. split; [done|]. split; [by eapply same_shape_trans|]. intros i Hi. rewrite Hbit2, Hbit by done. pose proof (Z.mod_pos_bound i 512).
    destruct (Z.eqb_spec (i `div` 512) k), (Z.leb_spec 0 (i `mod` 512)), (Z.leb_spec (i `mod` 512) 511), (Z.leb_spec first (i `div` 512)), (Z.ltb_spec (i `div` 512) k), (Z.ltb_spec (i `div` 512) (k + 1)); try done; lia.
  - by exists bv'.
Qed.
Lemma Set_range_spec bv a o : Forall block_ok (blocks_ bv) -> 0 <= a <= o -> o < 512 * zlen (blocks_ bv) ->
  exists bv', Set_range (IndexToAddress a) (IndexToAddress o) bv = Ok bv' /\ same_shape bv bv' /\ forall i, 0 <= i -> bit (blocks_ bv') i = ((a <=? i) && (i <=? o)) || bit (blocks_ bv) i.
Proof.
  intros Hb Ha Ho. destruct (index_range a (zlen (blocks_ bv)) ltac:(lia)) as [Ha1 Ha2]. destruct (index_range o (zlen (blocks_ bv)) ltac:(lia)) as [Ho1 Ho2]. pose proof (index_split a) as Ha3. pose proof (index_split o) as Ho3. unfold Set_range. rewrite !IndexToAddress_eq. cbn [block_idx block_offset].
  destruct (Z.eqb_spec (a `div` 512) (o `div` 512)) as [E|Hne].
  - destruct (set_range_block bv (a `div` 512) (a `mod` 512) (o `mod` 512)) as (bv' & E' & Hs & Hbit); [done|lia|lia|lia|]. exists bv'. split; [done|]. split; [done|]. intros i Hi. rewrite Hbit, (block_le_index a), (block_le_index i) by lia. rewrite E in *.
    destruct (Z.eqb_spec (i `div` 512) (o `div` 512)), (Z.ltb_spec (o `div` 512) (i `div` 512)), (Z.ltb_spec (i `div` 512) (o `div` 512)), (Z.eqb_spec (o `div` 512) (i `div` 512)), (a `mod` 512 <=? i `mod` 512), (i `mod` 512 <=? o `mod` 512); try done; lia.
  - destruct (set_range_block bv (a `div` 512) (a `mod` 512) 511) as (bv1 & E1 & Hs1 & Hbit1); [done|lia|lia|lia|]. change kLastBlockOffset with (offset_of 511). rewrite E1. cbn [obind]. pose proof Hs1 as (_ & _ & S3 & S4). assert (Hlt : a `div` 512 < o `div` 512) by lia.
    destruct (set_blocks_loop bv1 (a `div` 512 + 1) (o `div` 512)) as (bv2 & E2 & Hs2 & Hbit2); [done|lia|lia|]. change kLastBlockOffset with (offset_of 511) in E2. rewrite E2. cbn [obind]. pose proof (same_shape_trans _ _ _ Hs1 Hs2) as Hs12. pose proof Hs12 as (_ & _ & S3' & S4'). change kFirstBlockOffset with (offset_of 0).
    destruct (set_range_block bv2 (o `div` 512) 0 (o `mod` 512)) as (bv' & E' & Hs & Hbit); [done|lia|lia|lia|]. exists bv'. split; [done|]. split; [by eapply same_shape_trans|]. intros i Hi. rewrite Hbit, Hbit2, Hbit1, (block_le_index a), (block_le_index i) by lia. pose proof (Z.mod_pos_bound i 512).
    destruct (Z.leb_spec 0 (i `mod` 512)); [|lia]. destruct (Z.leb_spec (i `mod` 512) 511); [|lia]. destruct (bit (blocks_ bv) i); [by rewrite !orb_true_r|]. rewrite !orb_false_r.
    destruct (Z.eqb_spec (i `div` 512) (o `div` 512)), (Z.eqb_spec (i `div` 512) (a `div` 512)), (Z.leb_spec (a `div` 512 + 1) (i `div` 512)), (Z.ltb_spec (i `div` 512) (o `div` 512)), (Z.ltb_spec (a `div` 512) (i `div` 512)), (Z.eqb_spec (a `div` 512) (i `div` 512)), (a `mod` 512 <=? i `mod` 512), (i `mod` 512 <=? o `mod` 512); try done; lia.
Qed.

(** ** Resize *)

Lemma block_count n : 0 < n -> (n + 511) `div` 512 = (n - 1) `div` 512 + 1.
Proof. intros. replace (n + 511) with (n - 1 + 1 * 512) by lia. by rewrite Z.div_add by lia. Qed.
Lemma block_count_mono a b : a <= b -> (a + 511) `div` 512 <= (b + 511) `div` 512.
Proof. intros. apply Z.div_le_mono; lia. Qed.
Lemma block_count_bounds n : n <= 512 * ((n + 511) `div` 512) <= n + 511.
Proof. pose proof (Z.div_mod (n + 511) 512). pose proof (Z.mod_pos_bound (n + 511) 512). lia. Qed.
Lemma vec_resize_grow {A} n (x : A) l : zlen l <= n -> vec_resize n x l = l ++ replicate (Z.to_nat (n - zlen l)) x.
Proof. intros H. unfold vec_resize, zlen in *. rewrite firstn_all2 by lia. do 2 f_equal. lia. Qed.
Lemma vec_resize_shrink {A} n (x : A) l : n <= zlen l -> vec_resize n x l = take (Z.to_nat n) l.
Proof. intros H. unfold vec_resize, zlen in *. replace (Z.to_nat n - length l)%nat with 0%nat by lia. cbn. by rewrite app_nil_r. Qed.
Lemma zlen_vec_resize {A} n (x : A) l : 0 <= n -> zlen (vec_resize n x l) = n.
Proof. intros H. unfold vec_resize, zlen. rewrite length_app, length_take, length_replicate. lia. Qed.
Lemma bit_resized blocks n i : 0 <= i -> 0 <= n -> bit (vec_resize n Block_new blocks) i = (i `div` 512 <? n) && bit blocks i.
Proof.
  intros Hi Hn. assert (0 <= i `div` 512) by (apply Z.div_pos; lia). destruct (Z.ltb_spec (i `div` 512) n) as [Hlt|Hge]; cbn [andb].
  - destruct (Z.le_gt_cases (zlen blocks) n) as [H1|H1]; [rewrite vec_resize_grow, bit_new_blocks by lia; done|]. rewrite vec_resize_shrink by lia. unfold bit. by rewrite lookup_take_lt by lia.
  - apply bit_outside. rewrite zlen_vec_resize by done. pose proof (index_split i). pose proof (Z.mod_pos_bound i 512). lia.
Qed.
Lemma blocks_resized blocks n : Forall block_ok blocks -> Forall block_ok (vec_resize n Block_new blocks).
Proof. intros H. unfold vec_resize. apply Forall_app. split; [by apply Forall_take|]. apply Forall_replicate, Block_new_ok. Qed.
Lemma counts_resized counts n k : 0 <= k < n -> k < zlen counts -> vec_resize n 0 counts !! Z.to_nat k = counts !! Z.to_nat k.
Proof. intros Hk Hl. unfold vec_resize, zlen in *. rewrite lookup_app_l by (rewrite length_take; lia). by rewrite lookup_take_lt by lia. Qed.
(** The vector after the block and count vectors got their new sizes. *)
Definition resized (n : Z) (bv : BitVector) : BitVector := mkBitVector (size_ bv) (vec_resize ((n + 511) `div` 512) 0 (counts_ bv)) (vec_resize ((n + 511) `div` 512) Block_new (blocks_ bv)).
Section Resize.
Context (bv : BitVector) (n : Z) (Hok : bv_ok bv) (Hn : 0 < n <= kMaxSize).
Lemma resized_bits i : 0 <= i -> bit (blocks_ (resized n bv)) i = (i `div` 512 <? (n + 511) `div` 512) && bit (blocks_ bv) i.
Proof. intros Hi. cbn. apply bit_resized; [done|]. apply Z.div_pos; lia. Qed.
Lemma new_blocks_range : 0 < (n + 511) `div` 512 <= 2 ^ 23.
Proof. pose proof (block_count_bounds n). unfold kMaxSize in Hn. lia. Qed.
Lemma in_new_blocks i : 0 <= i < n -> i `div` 512 < (n + 511) `div` 512.
Proof. intros Hi. pose proof (block_count_bounds n). apply Z.div_lt_upper_bound; lia. Qed.
Lemma resized_counts k c : 0 <= k -> k < zlen (blocks_ bv) -> counts_ (resized n bv) !! Z.to_nat k = Some c -> c = rank (bit (blocks_ bv)) (512 * k).
Proof.
  intros Hk Hl Hc. destruct Hok as [H _]. apply (bi_counts _ H); [|done]. cbn in Hc. rewrite counts_resized in Hc; [done| |rewrite (bi_lengths _ H); done]. split; [done|]. pose proof new_blocks_range. apply lookup_lt_Some in Hc. pose proof (zlen_vec_resize ((n + 511) `div` 512) 0 (counts_ bv) ltac:(lia)). unfold zlen in *. lia.
Qed.
(** Growing: the bits stay, and CountSetBits still counts them. *)
Context (Hg : size_ bv < n).
Lemma grown_bits i : 0 <= i -> bit (blocks_ (resized n bv)) i = bit (blocks_ bv) i.
Proof.
  intros Hi. rewrite resized_bits by done. destruct (Z.ltb_spec (i `div` 512) ((n + 511) `div` 512)) as [|Hge]; [done|]. cbn [andb]. symmetry. destruct Hok as [H _]. apply (bi_tail _ H). destruct (Z.lt_ge_cases i n) as [Hlt|]; [|lia]. pose proof (in_new_blocks i ltac:(lia)). lia.
Qed.
Lemma old_blocks_fit : zlen (blocks_ bv) <= (n + 511) `div` 512.
Proof. destruct Hok as [_ ->]. apply block_count_mono. lia. Qed.
Lemma grown_count bv1 : counts_ bv1 = counts_ (resized n bv) -> size_ bv1 = size_ bv -> zlen (blocks_ bv1) = (n + 511) `div` 512 -> Forall block_ok (blocks_ bv1) -> (forall i, 0 <= i < size_ bv -> bit (blocks_ bv1) i = bit (blocks_ bv) i) -> CountSetBits bv1 = Ok (rank (bit (blocks_ bv)) (size_ bv)).
Proof.
  intros Ec Es El Hb Hbit. destruct Hok as [H Hlen]. pose proof (bi_size _ H) as Hs. unfold kMaxSize in *. pose proof (block_count_bounds n). pose proof (block_count_bounds (size_ bv)). unfold CountSetBits. rewrite Es, <- (rank_ext _ _ _ Hbit).
  apply (CountSetBits_until_local bv1 (size_ bv) (rank (bit (blocks_ bv)) (512 * ((size_ bv - 1) `div` 512)))); [done|lia|lia|]. intros Hp. destruct (index_range (size_ bv - 1) (zlen (blocks_ bv)) ltac:(rewrite Hlen; lia)) as [Hin _]. pose proof old_blocks_fit. split.
  - rewrite Ec. cbn. rewrite counts_resized; [|lia|rewrite (bi_lengths _ H); lia]. destruct (counts_lookup bv _ H Hin) as (c & Hc & ->). done.
  - apply rank_ext. intros i Hi. symmetry. apply Hbit. pose proof (index_split (size_ bv - 1)). pose proof (Z.mod_pos_bound (size_ bv - 1) 512). lia.
Qed.
(** What a grown vector must satisfy to hold its bits. *)
Lemma grown_ok bv' v : size_ bv' = size_ bv -> zlen (blocks_ bv') = (n + 511) `div` 512 -> zlen (counts_ bv') = (n + 511) `div` 512 -> Forall block_ok (blocks_ bv') ->
  (forall i, 0 <= i -> bit (blocks_ bv') i = if i <? size_ bv then bit (blocks_ bv) i else (i <? n) && v) -> counts_exact bv' -> becomes (set_size n bv') n (fun i => if i <? n then if i <? size_ bv then bit (blocks_ bv) i else v else false).
Proof.
  intros Es El Ec Hb Hbit Hc. pose proof (block_count_bounds n). unfold kMaxSize in *. split.
  - split; [|done]. split; cbn; [unfold kMaxSize; lia|done|lia|lia|done|]. intros i Hi. destruct Hok as [H0 _]. pose proof (bi_size _ H0). rewrite Hbit by lia. destruct (Z.ltb_spec i (size_ bv)), (Z.ltb_spec i n); try done; lia.
  - split; [done|]. intros i Hi. cbn. rewrite Hbit by done. destruct (Z.ltb_spec i (size_ bv)), (Z.ltb_spec i n); try done; lia.
Qed.
Lemma Resize_false_spec : exists bv', Resize_false (zlen (counts_ bv)) ((n + 511) `div` 512) (resized n bv) = Ok bv' /\ becomes (set_size n bv') n (fun i => if i <? n then if i <? size_ bv then bit (blocks_ bv) i else false else false).
Proof.
  destruct Hok as [H Hlen]. pose proof new_blocks_range as Hnb. pose proof old_blocks_fit as Hfit. pose proof (bi_lengths _ H) as Hl. set (nb := (n + 511) `div` 512) in *. assert (Hlr : zlen (counts_ (resized n bv)) = nb) by (cbn; apply zlen_vec_resize; lia). assert (Hlb : zlen (blocks_ (resized n bv)) = nb) by (cbn; apply zlen_vec_resize; lia).
  assert (Hblk : Forall block_ok (blocks_ (resized n bv))) by (apply blocks_resized, H). assert (Hbits : forall i, 0 <= i -> bit (blocks_ (resized n bv)) i = if i <? size_ bv then bit (blocks_ bv) i else (i <? n) && false).
  { intros i Hi. rewrite grown_bits by done. destruct (Z.ltb_spec i (size_ bv)); [done|]. rewrite andb_false_r. by apply (bi_tail _ H). }
  unfold Resize_false. destruct (Z.ltb_spec (zlen (counts_ bv)) nb) as [Hlt|Hge].
  - rewrite (grown_count (resized n bv)) by (done || (intros i Hi; apply grown_bits; lia)). cbn [obind]. set (count := rank (bit (blocks_ bv)) (size_ bv)).
    destruct (for_loop_inv (fun i counts => zlen counts = nb /\ forall k c, 0 <= k < i -> counts !! Z.to_nat k = Some c -> c = rank (bit (blocks_ bv)) (512 * k)) (zlen (counts_ bv)) nb (fun i counts => vec_set counts i count) (counts_ (resized n bv))) as (counts & E & Hcl & Hc).
    + lia.
    + split; [done|]. intros k c Hk Hkc. apply (resized_counts k c); [lia|lia|done].
    + intros i counts Hi [Hcl Hc]. assert (0 <= zlen (counts_ bv)) by (unfold zlen; lia). rewrite vec_set_inside by lia. eexists. split; [done|]. split; [unfold zlen in *; by rewrite length_insert|]. intros k c Hk Hkc. destruct (Z.eq_dec k i) as [->|Hne].
      * rewrite list_lookup_insert_eq in Hkc by (unfold zlen in *; lia). injection Hkc as <-. unfold count. symmetry. apply rank_stable; [pose proof (bi_size _ H); pose proof (block_count_bounds (size_ bv)); rewrite Hlen in Hl; lia|]. intros j Hj. apply (bi_tail _ H). lia.
      * rewrite list_lookup_insert_ne in Hkc by lia. apply Hc; [lia|done].
    + rewrite E. cbn [obind]. eexists. split; [done|]. apply (grown_ok (set_counts counts (resized n bv)) false); try done. intros k c Hkc Hk. cbn [counts_ blocks_ set_counts] in *. rewrite (Hc k c) by (done || (apply lookup_lt_Some in Hkc; unfold zlen in *; lia)). apply rank_ext. intros i Hi. symmetry. apply grown_bits. lia.
  - eexists. split; [done|]. apply (grown_ok (resized n bv) false); try done. intros k c Hkc Hk. rewrite (resized_counts k c Hk) by (done || (apply lookup_lt_Some in Hkc; unfold zlen in *; lia)). apply rank_ext. intros i Hi. symmetry. apply grown_bits. lia.
Qed.
Lemma Resize_true_spec : (size_ bv `mod` 512 = 0 -> rank (bit (blocks_ bv)) (size_ bv) = 0) ->
  exists bv', Resize_true (size_ bv) (IndexToAddress (n - 1)) (resized n bv) = Ok bv' /\ becomes (set_size n bv') n (fun i => if i <? n then if i <? size_ bv then bit (blocks_ bv) i else true else false).
Proof.
  intros Hz. destruct Hok as [H Hlen]. pose proof (bi_size _ H) as Hs. pose proof new_blocks_range as Hnb. pose proof old_blocks_fit as Hfit. pose proof (bi_lengths _ H) as Hl. pose proof (block_count n ltac:(lia)) as Hnc. pose proof (block_count_bounds n) as Hnbb. set (nb := (n + 511) `div` 512) in *. assert (Hlr : zlen (counts_ (resized n bv)) = nb) by (cbn; apply zlen_vec_resize; lia). assert (Hlb : zlen (blocks_ (resized n bv)) = nb) by (cbn; apply zlen_vec_resize; lia).
  assert (Hblk : Forall block_ok (blocks_ (resized n bv))) by (apply blocks_resized, H). unfold Resize_true. destruct (Set_range_spec (resized n bv) (size_ bv) (n - 1)) as (bv1 & E1 & (S1 & S2 & S3 & S4) & Hbit); [done|lia|lia|]. rewrite E1. cbn [obind].
  assert (Hbits : forall i, 0 <= i -> bit (blocks_ bv1) i = if i <? size_ bv then bit (blocks_ bv) i else (i <? n) && true).
  { intros i Hi. rewrite Hbit, grown_bits, andb_true_r by done. destruct (Z.ltb_spec i (size_ bv)), (Z.leb_spec (size_ bv) i), (Z.leb_spec i (n - 1)), (Z.ltb_spec i n); cbn; try done; try lia. apply (bi_tail _ H). lia. }
  rewrite (grown_count bv1); [|done|done|by rewrite S3|done|intros i Hi; rewrite Hbits by lia; destruct (Z.ltb_spec i (size_ bv)); [done|lia]]. cbn [obind]. rewrite !IndexToAddress_eq. cbn [block_idx]. pose proof (index_split (size_ bv)) as Hsp. pose proof (Z.mod_pos_bound (size_ bv) 512) as Hmod. assert (Hq : 0 <= size_ bv `div` 512) by (apply Z.div_pos; lia).
  assert (Hqn : size_ bv `div` 512 < nb) by (apply in_new_blocks; lia). change kLastBlockOffset with (offset_of 511). unfold kMaxSize in *. rewrite !AddressToIndex_spec by lia. set (count := rank (bit (blocks_ bv)) (size_ bv)) in *. assert (Hcr : 0 <= count <= size_ bv) by (apply rank_range; lia). set (q := size_ bv `div` 512) in *. rewrite (u32_small (512 * q + 511 - _ + 1)) by lia.
  (* how many bits are set before a later block *)
  assert (Hrank : forall k, q < k <= nb - 1 -> rank (bit (blocks_ bv1)) (512 * k) = count + (512 * k - size_ bv)).
  { intros k Hk. replace (512 * k) with (size_ bv + (512 * k - size_ bv)) at 1 by lia. rewrite rank_split by lia. f_equal.
    - apply rank_ext. intros i Hi. rewrite Hbits by lia. destruct (Z.ltb_spec i (size_ bv)); [done|lia].
    - apply rank_true; [lia|]. intros i Hi. rewrite Hbits by lia. destruct (Z.ltb_spec (size_ bv + i) (size_ bv)), (Z.ltb_spec (size_ bv + i) n); try done; lia. }
  destruct (for_loop_inv (fun i '(counts, set_count) => zlen counts = nb /\ set_count = u32 (count + (512 * i - size_ bv)) /\ forall k c, 0 <= k < i -> counts !! Z.to_nat k = Some c -> c = rank (bit (blocks_ bv1)) (512 * k)) (q + 1) ((n - 1) `div` 512 + 1)
    (fun i '(counts, set_count) => let! counts := vec_set counts i set_count in Ok (counts, u32 (set_count + kBlockBits))) (counts_ bv1, u32 (count + (512 * q + 511 - (512 * q + size_ bv `mod` 512) + 1)))) as ([counts sc] & E & Hcl & _ & Hc).
  - lia.
  - split; [by rewrite S2|]. split; [f_equal; lia|]. intros k c Hk. rewrite S2. intros Hkc. destruct (Z.lt_ge_cases k (zlen (blocks_ bv))) as [Hlt|Hge].
    + rewrite (resized_counts k c) by (done || lia). apply rank_ext. intros i Hi. rewrite Hbits by lia. destruct (Z.ltb_spec i (size_ bv)); [done|lia].
    + assert (E0 : size_ bv `mod` 512 = 0) by (pose proof (block_count_bounds (size_ bv)); lia). assert (Hkq : k = q) by (pose proof (block_count_bounds (size_ bv)); lia). assert (Ez : c = 0).
      { cbn in Hkc. unfold vec_resize in Hkc. rewrite lookup_app_r in Hkc by (rewrite length_take; unfold zlen in *; lia). apply lookup_replicate in Hkc. tauto. }
      rewrite Ez, Hkq. replace (512 * q) with (size_ bv) by lia. rewrite <- (Hz E0). unfold count. apply rank_ext. intros i Hi. rewrite Hbits by lia. destruct (Z.ltb_spec i (size_ bv)); [done|lia].
  - intros i [cs sc] Hi (Hcl & -> & Hc). rewrite vec_set_inside by lia. cbn [obind]. eexists. split; [done|]. split; [unfold zlen in *; by rewrite length_insert|]. split; [unfold u32, uw; rewrite Zplus_mod_idemp_l; f_equal; unfold kBlockBits, kWords, kWordBits; lia|]. intros k c Hk Hkc. destruct (Z.eq_dec k i) as [->|Hne].
    + rewrite list_lookup_insert_eq in Hkc by (unfold zlen in *; lia). injection Hkc as <-. rewrite Hrank by lia. apply u32_small. lia.
    + rewrite list_lookup_insert_ne in Hkc by lia. apply Hc; [lia|done].
  - rewrite E. cbn [obind]. eexists. split; [done|]. apply (grown_ok (set_counts counts bv1) true); cbn [set_counts size_ counts_ blocks_]; [by rewrite S1|by rewrite S3|done|done|done|]. intros k c Hkc Hk. cbn [counts_ set_counts] in Hkc. apply Hc; [|done]. apply lookup_lt_Some in Hkc. unfold zlen in *. lia.
Qed.
End Resize.
Lemma Resize_shrink_spec bv n : bv_ok bv -> 0 < n < size_ bv -> exists bv', update_block ((n - 1) `div` 512) (Block_ClearAfter (offset_of ((n - 1) `mod` 512))) (resized n bv) = Ok bv' /\ becomes (set_size n bv') n (fun i => if i <? n then bit (blocks_ bv) i else false).
Proof.
  intros Hok Hn. pose proof Hok as [H Hlen]. pose proof (bi_size _ H) as Hs. pose proof (block_count n ltac:(lia)) as Hnc. pose proof (block_count_bounds n) as Hnb. pose proof (block_count_mono n (size_ bv) ltac:(lia)) as Hmono. unfold kMaxSize in *. pose proof (bi_lengths _ H) as Hl.
  assert (Hlb : zlen (blocks_ (resized n bv)) = (n + 511) `div` 512) by (cbn; apply zlen_vec_resize; lia). assert (Hlr : zlen (counts_ (resized n bv)) = (n + 511) `div` 512) by (cbn; apply zlen_vec_resize; lia). destruct (index_range (n - 1) ((n + 511) `div` 512) ltac:(lia)) as [H1 H2].
  destruct (update_block_spec (resized n bv) ((n - 1) `div` 512) (Block_ClearAfter (offset_of ((n - 1) `mod` 512))) (fun o x => (o <=? (n - 1) `mod` 512) && x)) as (bv' & E & (S1 & S2 & S3 & S4) & Hbit); [apply blocks_resized, H|lia|intros b Hb; by apply Block_ClearAfter_spec|]. exists bv'. split; [done|].
  assert (Hbits : forall i, 0 <= i -> bit (blocks_ bv') i = if i <? n then bit (blocks_ bv) i else false).
  { intros i Hi. rewrite Hbit, resized_bits by (done || (unfold kMaxSize; lia)). pose proof (block_le_index i (n - 1) Hi ltac:(lia)) as Hle. destruct (Z.ltb_spec i n), (Z.leb_spec i (n - 1)); try lia.
    - destruct (Z.eqb_spec (i `div` 512) ((n - 1) `div` 512)) as [E1|E1], (Z.ltb_spec (i `div` 512) ((n - 1) `div` 512)), (Z.ltb_spec (i `div` 512) ((n + 511) `div` 512)), (i `mod` 512 <=? (n - 1) `mod` 512); cbn [orb andb] in *; try done; lia.
    - destruct (Z.eqb_spec (i `div` 512) ((n - 1) `div` 512)) as [E1|E1], (Z.ltb_spec (i `div` 512) ((n - 1) `div` 512)), (Z.ltb_spec (i `div` 512) ((n + 511) `div` 512)), (i `mod` 512 <=? (n - 1) `mod` 512); cbn [orb andb] in *; try done; lia. }
  cbn [size_ resized] in S1. split; [|split; [done|done]]. split; [|by cbn; rewrite S3]. split; cbn [size_ counts_ blocks_ set_size].
  - unfold kMaxSize. lia.
  - done.
  - rewrite S2, S3. lia.
  - rewrite S3. lia.
  - intros k c Hc Hk. cbn [counts_ blocks_ set_size] in *. rewrite S2 in Hc. assert (Hkn : k < (n + 511) `div` 512) by (apply lookup_lt_Some in Hc; unfold zlen in *; lia). rewrite (resized_counts bv n Hok ltac:(unfold kMaxSize; lia) k c Hk) by (done || lia). apply rank_ext. intros i Hi. rewrite Hbits by lia. destruct (Z.ltb_spec i n); [done|lia].
  - intros i Hi. rewrite Hbits by lia. destruct (Z.ltb_spec i n); [lia|done].
Qed.
(** The bits after a resize. *)
Definition resize_bits (old n : Z) (v : bool) (f : Z -> bool) (i : Z) : bool := if i <? n then if i <? old then f i else v else false.
(** The counts of a vector that grows with set bits from a block boundary are right only if
    no bit was set. *)
Definition resize_safe (n : Z) (v : bool) (bv : BitVector) : Prop := v = true -> size_ bv < n -> size_ bv `mod` 512 = 0 -> rank (bit (blocks_ bv)) (size_ bv) = 0.
Lemma Resize_spec bv n v : bv_ok bv -> 0 <= n <= kMaxSize -> resize_safe n v bv -> exists bv', Resize n v bv = Ok bv' /\ becomes bv' n (resize_bits (size_ bv) n v (bit (blocks_ bv))).
Proof.
  intros Hok Hn Hsafe. pose proof Hok as [H Hlen]. pose proof (bi_size _ H) as Hs. unfold Resize, resize_bits. destruct (Z.eqb_spec n (size_ bv)) as [->|Hne].
  { exists bv. split; [done|]. eapply becomes_ext; [|by apply becomes_refl]. intros i Hi. cbv beta. destruct (Z.ltb_spec i (size_ bv)); [done|]. by apply (bi_tail _ H). }
  destruct (Z.eqb_spec n 0) as [->|Hn0].
  { exists BitVector_new. split; [done|]. split; [apply new_bv_ok|]. split; [done|]. intros i Hi. destruct (Z.ltb_spec i 0); [lia|done]. }
  rewrite IndexToAddress_eq. cbn [block_idx block_offset]. rewrite <- block_count by lia. change (mkBitVector _ _ _) with (resized n bv). destruct (Z.ltb_spec (size_ bv) n) as [Hg|Hg].
  - destruct v.
    + rewrite <- IndexToAddress_eq. destruct (Resize_true_spec bv n Hok ltac:(lia) Hg) as (bv' & E & Hb); [intros; by apply Hsafe|]. rewrite E. by exists (set_size n bv').
    + destruct (Resize_false_spec bv n Hok ltac:(lia) Hg) as (bv' & E & Hb). rewrite E. by exists (set_size n bv').
  - destruct (Resize_shrink_spec bv n Hok ltac:(lia)) as (bv' & E & Hb). rewrite E. exists (set_size n bv'). split; [done|]. eapply becomes_ext; [|done]. intros i Hi. cbv beta. destruct (Z.ltb_spec i n), (Z.ltb_spec i (size_ bv)); try done; lia.
Qed.
Lemma BitVector_filled_spec n v : 0 <= n <= kMaxSize -> exists bv, BitVector_filled n v = Ok bv /\ becomes bv n (fun i => (i <? n) && v).
Proof.
  intros Hn. destruct (Resize_spec BitVector_new n v new_bv_ok Hn) as (bv & E & Hb); [intros _ _ _; done|]. exists bv. split; [done|]. eapply becomes_ext; [|done]. intros i Hi. unfold resize_bits. cbn [size_ BitVector_new]. destruct (Z.ltb_spec i n), (Z.ltb_spec i 0); try done; lia.
Qed.

(** ** Filling by a function *)

Lemma append_loop_spec (f : Z -> bool) first last bv : bv_ok bv -> size_ bv = first -> first <= last -> last <= kMaxSize ->
  exists bv', for_loop first last (fun i bv => Append (f i) bv) bv = Ok bv' /\ becomes bv' last (fun i => if i <? first then bit (blocks_ bv) i else (i <? last) && f i).
Proof.
  intros Hok Hf Hl Hm. destruct (for_loop_inv (fun k bv' => becomes bv' k (fun i => if i <? first then bit (blocks_ bv) i else (i <? k) && f i)) first last (fun i bv => Append (f i) bv) bv) as (bv' & E & Hb); [done| | |by exists bv'].
  - subst first. eapply becomes_ext; [|by apply becomes_refl]. intros i Hi. cbv beta. destruct (Z.ltb_spec i (size_ bv)); [done|]. destruct Hok as [Hinv _]. by apply (bi_tail _ Hinv).
  - intros k bv1 Hk (Hok1 & Hs1 & Hb1). destruct (BitVector_Append_spec bv1 (f k) Hok1) as (bv2 & E2 & Hb2); [lia|]. exists bv2. split; [done|]. rewrite Hs1 in Hb2. eapply becomes_ext; [|done]. intros i Hi. cbv beta. rewrite Hb1 by done. destruct (Z.eqb_spec i k), (Z.ltb_spec i first), (Z.ltb_spec i k), (Z.ltb_spec i (k + 1)); try done; try lia. by subst i.
Qed.
Lemma append_filled_block bv (f : Z -> bool) : bv_ok bv -> size_ bv `mod` 512 = 0 -> size_ bv + 512 <= kMaxSize ->
  exists bv', (let! count := CountSetBits bv in let! block := Block_FromFiller (size_ bv) f in Ok (mkBitVector (u32 (size_ bv + kBlockBits)) (counts_ bv ++ [count]) (blocks_ bv ++ [block]))) = Ok bv' /\
    becomes bv' (size_ bv + 512) (fun i => if i <? size_ bv then bit (blocks_ bv) i else (i <? size_ bv + 512) && f i).
Proof.
  intros Hok Hz Hm. pose proof Hok as [H Hlen]. pose proof (bi_size _ H) as Hs. unfold kMaxSize in *. rewrite CountSetBits_spec by done. cbn [obind]. destruct (Block_FromFiller_spec (size_ bv) f ltac:(lia) ltac:(lia)) as (b & Eb & Hbk & Hbit). rewrite Eb. cbn [obind]. unfold kBlockBits, kWords, kWordBits. rewrite u32_small by lia. eexists. split; [done|].
  pose proof (index_split (size_ bv)) as Hsp. set (q := size_ bv `div` 512) in *. assert (Hq : zlen (blocks_ bv) = q) by (rewrite Hlen; pose proof (block_count_bounds (size_ bv)); lia). assert (Hq0 : 0 <= q) by lia. change (8 * 64) with 512.
  assert (Hlast : (blocks_ bv ++ [b]) !! Z.to_nat q = Some b) by (rewrite list_lookup_middle; [done|unfold zlen in Hq; lia]).
  assert (Hbits : forall i, 0 <= i -> bit (blocks_ bv ++ [b]) i = if i <? size_ bv then bit (blocks_ bv) i else (i <? size_ bv + 512) && f i).
  { intros i Hi. pose proof (index_split i) as Hi1. pose proof (Z.mod_pos_bound i 512) as Hi2. destruct (Z.ltb_spec i (size_ bv)) as [Hlt|Hge].
    - unfold bit. rewrite lookup_app_l; [done|]. unfold zlen in Hq. lia.
    - destruct (Z.ltb_spec i (size_ bv + 512)) as [Hlt|Hge2]; cbn [andb].
      + rewrite Hi1. replace (i `div` 512) with q by lia. rewrite (bit_at _ q b); [|exact Hlast|lia]. rewrite Hbit by lia. f_equal. lia.
      + apply bit_outside. rewrite zlen_app. change (zlen [b]) with 1. lia. }
  split; [|split; [done|done]]. split; cbn [size_ counts_ blocks_].
  - split; cbn [size_ counts_ blocks_].
    + unfold kMaxSize. lia.
    + apply Forall_app. split; [apply H|by apply Forall_singleton].
    + rewrite !zlen_app, (bi_lengths _ H). done.
    + rewrite zlen_app. change (zlen [b]) with 1. lia.
    + intros k c Hc Hk. cbn [counts_ blocks_] in *. assert (Hr : forall m, m <= size_ bv -> rank (bit (blocks_ bv ++ [b])) m = rank (bit (blocks_ bv)) m) by (intros m Hm'; apply rank_ext; intros i Hi; rewrite Hbits by lia; destruct (Z.ltb_spec i (size_ bv)); [done|lia]). pose proof (bi_lengths _ H) as Hl.
      apply lookup_app_Some in Hc as [Hc|[Hge Hc]]; [rewrite Hr by (apply lookup_lt_Some in Hc; unfold zlen in *; lia); by apply (bi_counts _ H)|]. apply list_lookup_singleton_Some in Hc as [Hk0 <-]. unfold zlen in *. replace (512 * k) with (size_ bv) by lia. symmetry. by apply Hr.
    + intros i Hi. rewrite Hbits by lia. destruct (Z.ltb_spec i (size_ bv)); [lia|]. destruct (Z.ltb_spec i (size_ bv + 512)); [lia|reflexivity].
  - rewrite zlen_app, Hq. change (zlen [b]) with 1. apply (Z.div_unique _ _ _ 511); lia.
Qed.
(** The block of [first] must end at or before the start of the block of [last]. *)
Lemma Range_spec first last (f : Z -> bool) : 0 <= first <= last -> last <= kMaxSize -> BlockCeil first <= BlockFloor last -> exists bv, Range first last f = Ok bv /\ becomes bv last (fun i => (first <=? i) && (i <? last) && f i).
Proof.
  intros Hf Hl. unfold Range, BlockFloor, BlockCeil, BlockToIndex, kBlockBits, kWords, kWordBits, kMaxSize in *. change (8 * 64) with 512 in *. rewrite (u32_small (first + 512 - 1)) by lia. replace (first + 512 - 1) with (first + 511) by lia. intros Hspan.
  pose proof (block_count_bounds first) as Hcb. set (c := (first + 511) `div` 512) in *. pose proof (index_split last) as Hls. pose proof (Z.mod_pos_bound last 512) as Hlm. set (e := last `div` 512) in *. rewrite !u32_small, (Z.mul_comm c), (Z.mul_comm e) by lia.
  destruct (BitVector_filled_spec first false) as (bv0 & E0 & Hok0 & Hs0 & Hb0); [unfold kMaxSize; lia|]. rewrite E0. cbn [obind]. destruct (append_loop_spec f first (512 * c) bv0 Hok0 Hs0) as (bv1 & E1 & Hok1 & Hs1 & Hb1); [lia|unfold kMaxSize; lia|]. rewrite E1. cbn [obind].
  destruct (for_loop_inv (fun k bv => becomes bv (512 * k) (fun i => (first <=? i) && (i <? 512 * k) && f i)) c e (fun _ bv => let! count := CountSetBits bv in let! block := Block_FromFiller (size_ bv) f in Ok (mkBitVector (u32 (size_ bv + 512)) (counts_ bv ++ [count]) (blocks_ bv ++ [block]))) bv1) as (bv2 & E2 & Hok2 & Hs2 & Hb2).
  - done.
  - split_and!; [done..|]. intros i Hi. rewrite Hb1, Hb0, andb_false_r by done. destruct (Z.ltb_spec i first), (Z.leb_spec first i); try done; lia.
  - intros k bv Hk (Hok & Hs & Hb). destruct (append_filled_block bv f Hok) as (bv' & E & Hb'); [rewrite Hs; by rewrite Z.mul_comm, Z.mod_mul by lia|unfold kMaxSize; lia|]. exists bv'. split; [done|]. rewrite Hs in Hb'. replace (512 * (k + 1)) with (512 * k + 512) by lia. eapply becomes_ext; [|done].
    intros i Hi. cbv beta. rewrite Hb by done. destruct (Z.leb_spec first i), (Z.ltb_spec i (512 * k)), (Z.ltb_spec i (512 * k + 512)); try done; lia.
  - rewrite E2. cbn [obind]. destruct (append_loop_spec f (512 * e) last bv2 Hok2 Hs2) as (bv & E & Hb); [lia|unfold kMaxSize; lia|]. exists bv. split; [done|]. eapply becomes_ext; [|done]. intros i Hi. cbv beta. rewrite Hb2 by done. destruct (Z.leb_spec first i), (Z.ltb_spec i (512 * e)), (Z.ltb_spec i last); try done; lia.
Qed.
(** When both ends lie in one block, the bits are appended up to the end of that block and
    then again from index 0: the example of the comment gives 519 bits instead of 7. *)
Lemma range_inside_a_block : (let! bv := Range 3 7 (fun i => i <? 5) in Ok (size_ bv)) = Ok 519.
Proof. vm_compute. reflexivity. Qed.
