(* ===== verification/BitVectorUpdate.v ===== *)
(** * The batch update of the set bits

    UpdateSetBits walks the words of both vectors at different speeds: it keeps the bits of
    the update that were read and not used yet. Here, that the [i]th set bit becomes the
    [i]th bit of the update. *)

From S2P Require Import Prelude StdAlgorithms BitVector BitVectorWords BitVectorSelect BitVectorBlocks BitVectorCorrect BitVectorResize.

Local Open Scope cpp_scope.

(** ** The words of a vector *)

Lemma word_index i : 0 <= i -> 512 * (i `div` 8) + 64 * (i `mod` 8) = 64 * i.
Proof. intros. pose proof (Z.div_mod i 8). lia. Qed.
Lemma word_range i n : 0 <= i < 8 * n -> 0 <= i `div` 8 < n /\ 0 <= i `mod` 8 < 8.
Proof. intros. split; [split; [apply Z.div_pos; lia|apply Z.div_lt_upper_bound; lia]|apply Z.mod_pos_bound; lia]. Qed.
Lemma get_word_spec bv i : Forall block_ok (blocks_ bv) -> 0 <= i < 8 * zlen (blocks_ bv) -> exists w, get_word bv i = Ok w /\ word64 w /\ forall j, 0 <= j < 64 -> Z.testbit w j = bit (blocks_ bv) (64 * i + j).
Proof.
  intros Hb Hi. destruct (word_range _ _ Hi) as [H1 H2]. destruct (get_block _ _ Hb H1) as (b & E & Eg & Hbk). destruct (block_word b (i `mod` 8) Hbk H2) as (w & Ew & Egw & Hw). exists w. unfold get_word, kWords. rewrite Eg. cbn [obind]. split; [done|]. split; [done|]. intros j Hj.
  rewrite <- (word_index i) by lia. rewrite <- Z.add_assoc, (bit_at _ (i `div` 8) b _ E) by lia. symmetry. apply block_bit_at; [done|lia|done].
Qed.
Lemma index_of_word o i : 0 <= o -> 0 <= i -> (if o `div` 512 =? i `div` 8 then (o `mod` 512) `div` 64 =? i `mod` 8 else false) = (o `div` 64 =? i).
Proof.
  intros Ho Hi. pose proof (Z.div_mod o 512). pose proof (Z.mod_pos_bound o 512). pose proof (Z.div_mod (o `mod` 512) 64). pose proof (Z.mod_pos_bound (o `mod` 512) 64). pose proof (Z.div_mod i 8). pose proof (Z.mod_pos_bound i 8). pose proof (Z.div_mod o 64). pose proof (Z.mod_pos_bound o 64).
  destruct (Z.eqb_spec (o `div` 512) (i `div` 8)), (Z.eqb_spec ((o `mod` 512) `div` 64) (i `mod` 8)), (Z.eqb_spec (o `div` 64) i); try done; lia.
Qed.
Lemma mod_512_64 o : (o `mod` 512) `mod` 64 = o `mod` 64.
Proof. rewrite (index_split o) at 2. replace (512 * (o `div` 512) + o `mod` 512) with (o `mod` 512 + (8 * (o `div` 512)) * 64) by lia. by rewrite Z.mod_add by lia. Qed.
Lemma block_set_word b i w : block_ok b -> 0 <= i < 8 -> word64 w -> exists b', vec_set b i w = Ok b' /\ block_becomes b b' (fun o => if o `div` 64 =? i then Z.testbit w (o `mod` 64) else block_bit b o).
Proof.
  intros Hb Hi Hw. destruct (block_word b i Hb Hi) as (w0 & E0 & Eg & _). destruct (Block_update_bits b i (fun _ => w) (fun j _ => Z.testbit w j)) as (b' & E & Hb'); [done|done|done|done|]. exists b'. unfold Block_update in E. rewrite Eg in E. cbn [obind] in E. split; [done|]. destruct Hb' as [H1 H2]. split; [done|]. intros o Ho. by rewrite H2.
Qed.
Lemma set_word_spec bv i w : Forall block_ok (blocks_ bv) -> 0 <= i < 8 * zlen (blocks_ bv) -> word64 w ->
  exists bv', set_word i w bv = Ok bv' /\ same_shape bv bv' /\ forall o, 0 <= o -> bit (blocks_ bv') o = if o `div` 64 =? i then Z.testbit w (o `mod` 64) else bit (blocks_ bv) o.
Proof.
  intros Hb Hi Hw. destruct (word_range _ _ Hi) as [H1 H2]. unfold set_word, kWords. destruct (update_block_spec bv (i `div` 8) (fun b => vec_set b (i `mod` 8) w) (fun o x => if o `div` 64 =? i `mod` 8 then Z.testbit w (o `mod` 64) else x) Hb H1) as (bv' & E & Hs & Hbit).
  - intros b Hbk. by apply block_set_word.
  - exists bv'. split; [done|]. split; [done|]. intros o Ho. rewrite Hbit by done. rewrite <- (index_of_word o i) by lia. destruct (o `div` 512 =? i `div` 8); [|done]. by rewrite mod_512_64.
Qed.
Lemma WordCeil_bounds n : 0 <= n <= kMaxSize -> n <= 64 * WordCeil n <= n + 63.
Proof. unfold kMaxSize. intros Hn. unfold WordCeil, kWordBits. rewrite u32_small by lia. pose proof (Z.div_mod (n + 64 - 1) 64). pose proof (Z.mod_pos_bound (n + 64 - 1) 64). lia. Qed.
Lemma words_in_blocks bv : bv_inv bv -> 0 <= WordCeil (size_ bv) <= 8 * zlen (blocks_ bv).
Proof. intros H. pose proof (WordCeil_bounds _ (bi_size _ H)). pose proof (bi_room _ H). pose proof (bi_size _ H). lia. Qed.

(** ** The bits of the update not used yet *)

Lemma u64_shiftl_bit x n j : 0 <= n -> 0 <= j -> Z.testbit (u64 (x .<< n)) j = (j <? 64) && (n <=? j) && Z.testbit x (j - n).
Proof.
  intros Hn Hj. rewrite u64_testbit by done. destruct (j <? 64); [|done]. cbn [andb]. rewrite Z.shiftl_spec by done. destruct (Z.leb_spec n j); [done|]. by rewrite Z.testbit_neg_r by lia.
Qed.
Lemma word64_shiftr x n : word64 x -> 0 <= n -> word64 (x .>> n).
Proof. intros [H1 H2] Hn. split; [by apply Z.shiftr_nonneg|]. rewrite Z.shiftr_div_pow2 by done. assert (0 < 2 ^ n) by (apply Z.pow_pos_nonneg; lia). apply Z.div_lt_upper_bound; [lia|]. nia. Qed.
(** A word without its [n] lowest bits, as the code computes it. *)
Lemma drop_bits x n j : word64 x -> 0 <= n <= 64 -> 0 <= j -> Z.testbit (if n =? 64 then 0 else x .>> n) j = Z.testbit x (j + n).
Proof.
  intros Hx Hn Hj. destruct (Z.eqb_spec n 64) as [->|]; [rewrite Z.testbit_0_l; symmetry; apply word64_bit; [done|lia]|]. by rewrite Z.shiftr_spec by done.
Qed.
Lemma drop_bits_word64 x n : word64 x -> 0 <= n <= 64 -> word64 (if n =? 64 then 0 else x .>> n).
Proof. intros Hx Hn. destruct (n =? 64); [done|]. apply word64_shiftr; [done|lia]. Qed.
Section Update.
Context (upd : BitVector) (Hupd : bv_inv upd).
Local Abbreviation ubit := (bit (blocks_ upd)).
Local Abbreviation uend := (WordCeil (size_ upd)).
(** [c] bits of the update are used; the state holds those up to the end of word [q - 1]. *)
Record unused_inv (c : Z) (u : update_state) (q : Z) : Prop := {
  un_count : 0 <= unused_bits_count u <= 64;
  un_word : word64 (update_unused_bits u);
  un_next : 0 <= c /\ c + unused_bits_count u = 64 * q;
  un_ptr : update_ptr u = Z.min q uend;
  un_bits : forall j, 0 <= j -> Z.testbit (update_unused_bits u) j = (j <? unused_bits_count u) && ubit (c + j)
}.
Lemma unused_start : unused_inv 0 (mkUpdate 0 0 0) 0.
Proof.
  split; cbn; [lia|done|lia| |].
  - pose proof (words_in_blocks upd Hupd). lia.
  - intros j Hj. rewrite Z.testbit_0_l. destruct (Z.ltb_spec j 0); [lia|done].
Qed.
(** The next word of the update, or zero at its end. *)
Lemma next_word q : 0 <= q -> exists w, (if Z.min q uend =? uend then Ok (0, Z.min q uend) else let! w := get_word upd (Z.min q uend) in Ok (w, Z.min q uend + 1)) = Ok (w, Z.min (q + 1) uend) /\ word64 w /\ forall j, 0 <= j < 64 -> Z.testbit w j = ubit (64 * q + j).
Proof.
  intros Hq. pose proof (words_in_blocks upd Hupd) as Hw. pose proof (WordCeil_bounds _ (bi_size _ Hupd)) as Hb. destruct (Z.eqb_spec (Z.min q uend) uend) as [E|E].
  - exists 0. split; [do 2 f_equal; lia|]. split; [done|]. intros j Hj. rewrite Z.testbit_0_l. symmetry. apply (bi_tail _ Hupd). lia.
  - replace (Z.min q uend) with q by lia. destruct (get_word_spec upd q (bi_blocks _ Hupd) ltac:(lia)) as (w & Ew & Hw64 & Hbit). exists w. rewrite Ew. cbn [obind]. split; [do 2 f_equal; lia|done].
Qed.
Lemma take_update_bits_spec c u q p : unused_inv c u q -> 0 < p <= 64 -> exists w u' q', take_update_bits upd uend p u = Ok (w, u') /\ word64 w /\ unused_inv (c + p) u' q' /\ forall j, 0 <= j < p -> Z.testbit w j = ubit (c + j).
Proof.
  intros H Hp. pose proof (un_count _ _ _ H) as Hc. pose proof (un_next _ _ _ H) as [Hc0 Hn]. unfold take_update_bits. destruct (Z.leb_spec p (unused_bits_count u)) as [Hle|Hgt].
  - eexists _, _, q. split; [done|]. split; [apply H|]. split; [split; cbn [unused_bits_count update_unused_bits update_ptr]|].
    + rewrite u8_small by lia. lia.
    + apply drop_bits_word64; [apply H|lia].
    + rewrite u8_small by lia. lia.
    + apply H.
    + intros j Hj. rewrite drop_bits by (done || lia || apply H). rewrite (un_bits _ _ _ H), u8_small by lia. replace (c + (j + p)) with (c + p + j) by lia. destruct (Z.ltb_spec (j + p) (unused_bits_count u)), (Z.ltb_spec j (unused_bits_count u - p)); try done; lia.
    + intros j Hj. rewrite (un_bits _ _ _ H) by lia. destruct (Z.ltb_spec j (unused_bits_count u)); [done|lia].
  - rewrite (un_ptr _ _ _ H). destruct (next_word q ltac:(lia)) as (w & Ew & Hw & Hbit). rewrite Ew. cbn [obind]. rewrite !(u8_small (p - _)), u8_small by lia. eexists _, _, (q + 1). split; [done|]. split; [apply word64_lor; [apply H|apply word64_u64]|]. split; [split; cbn [unused_bits_count update_unused_bits update_ptr]|].
    + lia.
    + apply drop_bits_word64; [done|lia].
    + lia.
    + done.
    + intros j Hj. rewrite drop_bits by (done || lia). destruct (Z.ltb_spec j (64 - (p - unused_bits_count u))); cbn [andb]; [rewrite Hbit by lia; f_equal; lia|apply word64_bit; [done|lia]].
    + intros j Hj. rewrite Z.lor_spec, u64_shiftl_bit, (un_bits _ _ _ H) by lia. destruct (Z.ltb_spec j (unused_bits_count u)), (Z.ltb_spec j 64), (Z.leb_spec (unused_bits_count u) j); cbn [andb orb]; try lia; [by rewrite orb_false_r|]. rewrite Hbit by lia. f_equal. lia.
Qed.
End Update.

(** ** The loop over the words *)

Lemma rank_word f w i j : 0 <= i -> 0 <= j <= 64 -> (forall k, 0 <= k < 64 -> Z.testbit w k = f (64 * i + k)) -> rank f (64 * i + j) = rank f (64 * i) + rank (Z.testbit w) j.
Proof. intros Hi Hj H. rewrite rank_split by lia. f_equal. apply rank_ext. intros k Hk. symmetry. apply H. lia. Qed.
Section UpdateLoop.
Context (upd bv : BitVector) (Hupd : bv_inv upd) (Hbv : bv_inv bv).
(** The bits after the update. *)
Definition updated (i : Z) : bool := bit (blocks_ bv) i && bit (blocks_ upd) (rank (bit (blocks_ bv)) i).
Definition update_loop_inv (i : Z) (s : BitVector * update_state) : Prop :=
  same_shape bv s.1 /\ (exists q, unused_inv upd (rank (bit (blocks_ bv)) (64 * i)) s.2 q) /\ forall o, 0 <= o -> bit (blocks_ s.1) o = if o <? 64 * i then updated o else bit (blocks_ bv) o.
Lemma update_word_spec i s : 0 <= i < WordCeil (size_ bv) -> update_loop_inv i s -> exists s', update_word upd (WordCeil (size_ upd)) i s = Ok s' /\ update_loop_inv (i + 1) s'.
Proof.
  destruct s as [bv1 u]. intros Hi (Hs & [q Hu] & Hbit). cbn [fst snd] in *. pose proof Hs as (S1 & S2 & S3 & S4). pose proof (words_in_blocks bv Hbv) as Hw. set (f := bit (blocks_ bv)) in *. destruct (get_word_spec bv1 i S4 ltac:(lia)) as (w & Ew & Hw64 & Hwb). unfold update_word. rewrite Ew. cbn [obind].
  assert (Hwf : forall k, 0 <= k < 64 -> Z.testbit w k = f (64 * i + k)) by (intros k Hk; rewrite Hwb, Hbit by lia; destruct (Z.ltb_spec (64 * i + k) (64 * i)); [lia|done]).
  assert (Hnext : rank f (64 * (i + 1)) = rank f (64 * i) + popcount w) by (replace (64 * (i + 1)) with (64 * i + 64) by lia; rewrite popcount_rank; apply rank_word; [lia|lia|done]).
  assert (Hword : forall o, 0 <= o -> o `div` 64 = i -> o = 64 * i + o `mod` 64 /\ 0 <= o `mod` 64 < 64) by (intros o Ho <-; split; [apply Z.div_mod; lia|apply Z.mod_pos_bound; lia]).
  destruct (Z.eqb_spec w 0) as [->|Hne].
  - exists (bv1, u). split; [done|]. split; [done|]. split; [exists q; fold f; by rewrite Hnext, Z.add_0_r|]. intros o Ho. rewrite Hbit by done. destruct (Z.ltb_spec o (64 * i)), (Z.ltb_spec o (64 * (i + 1))); try done; try lia. unfold updated. fold f. replace o with (64 * i + (o - 64 * i)) by lia. rewrite <- Hwf by lia. by rewrite Z.testbit_0_l.
  - pose proof (popcount_range w) as Hpr. assert (Hp0 : popcount w <> 0) by (intros E; by apply Hne, popcount_0). rewrite (u8_small (popcount w)) by lia. destruct (take_update_bits_spec upd Hupd (rank f (64 * i)) u q (popcount w) Hu ltac:(lia)) as (uw & u' & q' & E & Huw & Hu' & Hub). rewrite E. cbn [obind].
    pose proof (un_count _ _ _ _ Hu') as Hc'. destruct (Z.leb_spec (unused_bits_count u') 64); [|lia]. destruct (PdepSlow_spec uw w Huw Hw64) as (r & Er & Hr64 & Hrb). rewrite Er. cbn [obind]. destruct (set_word_spec bv1 i r S4 ltac:(lia) Hr64) as (bv2 & E2 & Hs2 & Hbit2). rewrite E2. cbn [obind]. eexists. split; [done|]. split; [by eapply same_shape_trans|]. cbn [fst snd]. split; [exists q'; fold f; by rewrite Hnext|].
    intros o Ho. rewrite Hbit2, Hbit by done. destruct (Z.eqb_spec (o `div` 64) i) as [Ei|Ei].
    + destruct (Hword o Ho Ei) as [Eo Hm]. destruct (Z.ltb_spec o (64 * (i + 1))); [|lia]. rewrite Hrb by lia. unfold pdep_bit, updated. fold f. rewrite Hwf by lia. rewrite <- Eo. destruct (f o) eqn:Ef; [|done]. cbn [andb]. rewrite Eo at 2. rewrite (rank_word f w) by (done || lia). apply Hub. pose proof (rank_range (Z.testbit w) (o `mod` 64)). split; [lia|].
      rewrite popcount_rank. apply (is_nth_lt _ _ (o `mod` 64)); [|lia]. split; [lia|]. split; [|done]. rewrite Hwf by lia. by rewrite <- Eo.
    + pose proof (Z.div_mod o 64). pose proof (Z.mod_pos_bound o 64). destruct (Z.ltb_spec o (64 * i)), (Z.ltb_spec o (64 * (i + 1))); try done; try lia.
Qed.
Lemma update_words_spec : exists bv1 u, for_loop 0 (WordCeil (size_ bv)) (update_word upd (WordCeil (size_ upd))) (bv, mkUpdate 0 0 0) = Ok (bv1, u) /\ same_shape bv bv1 /\ forall i, 0 <= i -> bit (blocks_ bv1) i = updated i.
Proof.
  pose proof (words_in_blocks bv Hbv) as Hw. destruct (for_loop_inv update_loop_inv 0 (WordCeil (size_ bv)) (update_word upd (WordCeil (size_ upd))) (bv, mkUpdate 0 0 0)) as ([bv1 u] & E & Hs & _ & Hbit).
  - lia.
  - split; [|split].
    + unfold same_shape. split_and!; [done..|apply Hbv].
    + exists 0. apply unused_start, Hupd.
    + intros o Ho. cbn [fst]. destruct (Z.ltb_spec o (64 * 0)); [lia|done].
  - intros i s Hi. by apply update_word_spec.
  - exists bv1, u. split; [done|]. split; [done|]. intros i Hi. cbn [fst] in Hbit. rewrite Hbit by done. destruct (Z.ltb_spec i (64 * WordCeil (size_ bv))); [done|]. unfold updated. pose proof (WordCeil_bounds _ (bi_size _ Hbv)). by rewrite (bi_tail _ Hbv) by lia.
Qed.
End UpdateLoop.

(** ** The counts *)

Lemma recount_spec bv : Forall block_ok (blocks_ bv) -> zlen (counts_ bv) = zlen (blocks_ bv) -> 0 < zlen (blocks_ bv) -> 512 * zlen (blocks_ bv) <= 2 ^ 32 -> counts_ bv !! 0%nat = Some 0 ->
  exists bv', recount bv = Ok bv' /\ size_ bv' = size_ bv /\ blocks_ bv' = blocks_ bv /\ zlen (counts_ bv') = zlen (counts_ bv) /\ counts_exact bv'.
Proof.
  intros Hb Hl Hp Hr H0. unfold recount. destruct (Z.eqb_spec (zlen (counts_ bv)) 0); [lia|]. set (f := bit (blocks_ bv)).
  destruct (for_loop_inv (fun i counts => zlen counts = zlen (counts_ bv) /\ forall k c, 0 <= k <= i -> counts !! Z.to_nat k = Some c -> c = rank f (512 * k)) 0 (zlen (counts_ bv) - 1)
    (fun i counts => let! c := vec_get counts i in let! b := vec_get (blocks_ bv) i in let! n := Block_CountSetBits b in vec_set counts (i + 1) (u32 (c + n))) (counts_ bv)) as (counts & E & Hcl & Hc).
  - lia.
  - split; [done|]. intros k c Hk Hc. assert (k = 0) as -> by lia. change (Z.to_nat 0) with 0%nat in Hc. assert (c = 0) as -> by congruence. by rewrite rank_0.
  - intros i counts Hi [Hcl Hc]. destruct (vec_get_inside counts i ltac:(lia)) as (c & Ec & Eg). rewrite Eg. cbn [obind]. destruct (get_block (blocks_ bv) i Hb ltac:(lia)) as (b & Eb & Egb & Hbk). rewrite Egb. cbn [obind]. rewrite Block_CountSetBits_spec by done. cbn [obind]. rewrite vec_set_inside by lia. eexists. split; [done|]. split; [unfold zlen in *; by rewrite length_insert|].
    intros k c' Hk Hkc. destruct (Z.eq_dec k (i + 1)) as [->|Hne].
    + rewrite list_lookup_insert_eq in Hkc by (unfold zlen in *; lia). injection Hkc as <-. rewrite (Hc i c) by (done || lia). unfold f. rewrite <- (rank_block _ i b 512) by (done || lia). replace (512 * i + 512) with (512 * (i + 1)) by lia. apply rank_small. lia.
    + rewrite list_lookup_insert_ne in Hkc by lia. apply Hc; [lia|done].
  - rewrite E. cbn [obind]. eexists. split; [done|]. split_and!; [done..|]. intros k c Hkc Hk. cbn [counts_ blocks_ set_counts] in *. apply Hc; [|done]. apply lookup_lt_Some in Hkc. unfold zlen in *. lia.
Qed.
(** An empty vector has no count to start from: the loop bound wraps. *)
Lemma UpdateSetBits_spec upd bv : bv_inv upd -> bv_ok bv -> 0 < size_ bv -> exists bv', UpdateSetBits upd bv = Ok bv' /\ becomes bv' (size_ bv) (updated upd bv).
Proof.
  intros Hu [H Hn] Hs. destruct (update_words_spec upd bv Hu H) as (bv1 & u & E & (S1 & S2 & S3 & S4) & Hbit). unfold UpdateSetBits. rewrite E. cbn [obind]. pose proof (bi_room _ H) as Hr. pose proof (bi_lengths _ H) as Hl. assert (Hp : 0 < zlen (blocks_ bv)) by (pose proof (bi_size _ H); lia).
  destruct (recount_spec bv1) as (bv' & E' & T1 & T2 & T3 & Hc); [done|rewrite S2, S3; done|rewrite S3; done|rewrite S3; lia| |].
  - rewrite S2. destruct (counts_lookup bv 0 H ltac:(lia)) as (c & Hc & Ec). rewrite rank_0 in Ec by lia. by subst c.
  - rewrite E'. exists bv'. split; [done|]. split; [|split; [by rewrite T1|by rewrite T2]]. split; [|rewrite T2, S3, T1, S1; done]. split.
    + rewrite T1, S1. apply H.
    + by rewrite T2.
    + rewrite T3, T2, S2, S3. done.
    + rewrite T1, T2, S1, S3. done.
    + done.
    + intros i Hi. rewrite T1, S1 in Hi. rewrite T2, Hbit by lia. unfold updated. by rewrite (bi_tail _ H).
Qed.
Lemma UpdateSetBits_empty upd : UpdateSetBits upd BitVector_new = Crash.
Proof. done. Qed.
