(* ===== verification/BitVectorSession.v ===== *)
(** * The bit vector refines a list of bits

    The reference: plain functions on [list bool]. Sessions of operations on the
    vector that avoid two known defects give the results and the bits of the reference. *)

From S2P Require Import Prelude StdAlgorithms BitVector BitVectorWords BitVectorSelect BitVectorBlocks BitVectorCorrect BitVectorResize BitVectorUpdate.

Local Open Scope cpp_scope.

(** ** The reference *)

Definition lbit (l : list bool) (i : Z) : bool := default false (l !! Z.to_nat i).
(** The places of the bits that are set, the first bit being at [i]. *)
Fixpoint positions (i : Z) (l : list bool) : list Z := match l with [] => [] | b :: l => (if b then [i] else []) ++ positions (i + 1) l end.
Fixpoint update_set_bits (l u : list bool) : list bool :=
  match l with
  | [] => []
  | false :: l => false :: update_set_bits l u
  | true :: l => default false (head u) :: update_set_bits l (tail u)
  end.
Definition resize_list (n : Z) (v : bool) (l : list bool) : list bool := take (Z.to_nat n) l ++ replicate (Z.to_nat n - length l) v.
Inductive bv_op := OpAppend (v : bool) | OpSet (i : Z) | OpClear (i : Z) | OpResize (n : Z) (v : bool) | OpUpdate (u : list bool) | OpIsSet (i : Z) | OpCount (n : Z) | OpNth (n : Z).
Inductive bv_result := RDone | RBool (b : bool) | RIndex (i : Z).
Definition inside (i : Z) (l : list bool) : bool := (0 <=? i) && (i <? zlen l).
(** An operation of the reference; nothing when an index or a size is out of range. *)
Definition list_op (o : bv_op) (l : list bool) : option (bv_result * list bool) :=
  match o with
  | OpAppend v => if zlen l <? kMaxSize then Some (RDone, l ++ [v]) else None
  | OpSet i => if inside i l then Some (RBool (lbit l i), <[Z.to_nat i := true]> l) else None
  | OpClear i => if inside i l then Some (RDone, <[Z.to_nat i := false]> l) else None
  | OpResize n v => if (0 <=? n) && (n <=? kMaxSize) then Some (RDone, resize_list n v l) else None
  | OpUpdate u => if zlen u <=? kMaxSize then Some (RDone, update_set_bits l u) else None
  | OpIsSet i => if inside i l then Some (RBool (lbit l i), l) else None
  | OpCount n => if (0 <=? n) && (n <=? zlen l) then Some (RIndex (zlen (positions 0 (take (Z.to_nat n) l))), l) else None
  | OpNth n => if 0 <=? n then (fun i => (RIndex i, l)) <$> positions 0 l !! Z.to_nat n else None
  end.
Definition vector_op (o : bv_op) (bv : BitVector) : outcome (bv_result * BitVector) :=
  match o with
  | OpAppend v => let! bv := Append v bv in Ok (RDone, bv)
  | OpSet i => let! (b, bv) := Set_ i bv in Ok (RBool b, bv)
  | OpClear i => let! bv := Clear i bv in Ok (RDone, bv)
  | OpResize n v => let! bv := Resize n v bv in Ok (RDone, bv)
  | OpUpdate u => let! u := BitVector_of u in let! bv := UpdateSetBits u bv in Ok (RDone, bv)
  | OpIsSet i => let! b := IsSet i bv in Ok (RBool b, bv)
  | OpCount n => let! c := CountSetBits_until n bv in Ok (RIndex c, bv)
  | OpNth n => let! i := IndexOfNthSet n bv in Ok (RIndex i, bv)
  end.
Fixpoint list_run (ops : list bv_op) (l : list bool) : option (list bv_result * list bool) :=
  match ops with
  | [] => Some ([], l)
  | o :: ops => '(r, l) ← list_op o l; '(rs, l) ← list_run ops l; Some (r :: rs, l)
  end.
Fixpoint vector_run (ops : list bv_op) (bv : BitVector) : outcome (list bv_result * BitVector) :=
  match ops with
  | [] => Ok ([], bv)
  | o :: ops => let! (r, bv) := vector_op o bv in let! (rs, bv) := vector_run ops bv in Ok (r :: rs, bv)
  end.
(** Where the code is known to go wrong: growing with set bits from whole blocks that hold a
    set bit ([resize_true_loses_the_count]), and updating the set bits of an empty vector
    ([UpdateSetBits_empty]). *)
Definition known_defect (o : bv_op) (l : list bool) : bool :=
  match o with
  | OpResize n v => v && (zlen l <? n) && (zlen l `mod` 512 =? 0) && negb (zlen (positions 0 l) =? 0)
  | OpUpdate _ => zlen l =? 0
  | _ => false
  end.
Fixpoint avoids_defects (ops : list bv_op) (l : list bool) : bool :=
  match ops with
  | [] => true
  | o :: ops => negb (known_defect o l) && match list_op o l with Some (_, l) => avoids_defects ops l | None => true end
  end.
(** The vector holds the bits of the list. *)
Definition models (bv : BitVector) (l : list bool) : Prop := becomes bv (zlen l) (lbit l).

(** ** Ranks and positions of a list *)

Lemma lbit_cons_0 b l : lbit (b :: l) 0 = b.
Proof. done. Qed.
Lemma lbit_cons_succ b l i : 0 <= i -> lbit (b :: l) (1 + i) = lbit l i.
Proof. intros. unfold lbit. by replace (Z.to_nat (1 + i)) with (S (Z.to_nat i)) by lia. Qed.
Lemma lbit_outside l i : zlen l <= i -> lbit l i = false.
Proof. intros. unfold lbit, zlen in *. by rewrite lookup_ge_None_2 by lia. Qed.
Lemma rank_cons b l n : 0 <= n -> rank (lbit (b :: l)) (1 + n) = b2z b + rank (lbit l) n.
Proof. intros. rewrite rank_split by lia. f_equal; [destruct b; done|]. apply rank_ext. intros i Hi. apply lbit_cons_succ. lia. Qed.
Lemma positions_shift l i : positions i l = (fun k => i + k) <$> positions 0 l.
Proof.
  revert i. induction l as [|b l IH]; intros i; [done|]. cbn [positions]. rewrite fmap_app, (IH (i + 1)), (IH (0 + 1)), <- list_fmap_compose. f_equal; [destruct b; cbn; [by rewrite Z.add_0_r|done]|]. apply list_fmap_ext. intros _ x _. cbn. lia.
Qed.
Lemma zlen_positions l n : 0 <= n -> zlen (positions 0 (take (Z.to_nat n) l)) = rank (lbit l) n.
Proof.
  revert n. induction l as [|b l IH]; intros n Hn.
  - rewrite take_nil. symmetry. apply rank_false. intros i _. unfold lbit. done.
  - destruct (Z.eq_dec n 0) as [->|Hne]; [done|]. replace (Z.to_nat n) with (S (Z.to_nat (n - 1))) by lia. cbn [take positions]. rewrite zlen_app, positions_shift. unfold zlen at 2. rewrite length_fmap. fold (zlen (positions 0 (take (Z.to_nat (n - 1)) l))). rewrite IH by lia.
    replace n with (1 + (n - 1)) at 2 by lia. rewrite rank_cons by lia. f_equal. by destruct b.
Qed.
Lemma zlen_positions_all l : zlen (positions 0 l) = rank (lbit l) (zlen l).
Proof. rewrite <- zlen_positions by (unfold zlen; lia). rewrite firstn_all2; [done|]. unfold zlen. lia. Qed.
Lemma positions_nth l n i : positions 0 l !! n = Some i <-> is_nth (lbit l) (Z.of_nat n) i.
Proof.
  revert n i. induction l as [|b l IH]; intros n i.
  - split; [by destruct n|]. intros (_ & H & _). done.
  - cbn [positions]. rewrite positions_shift. destruct b.
    + change ([0] ++ ?x) with (0 :: x). destruct n as [|n].
      * cbn [lookup list_lookup]. split; [intros [= <-]; split; [done|]; split; [done|by rewrite rank_0]|]. intros (Hi & Hb & Hr). destruct (Z.eq_dec i 0) as [->|]; [done|]. replace i with (1 + (i - 1)) in Hr by lia. rewrite rank_cons in Hr by lia. pose proof (rank_range (lbit l) (i - 1)). cbn in Hr. lia.
      * rewrite lookup_cons_ne_0 by done. cbn [Nat.pred]. rewrite list_lookup_fmap, fmap_Some. split.
        -- intros (k & Hk & ->). apply IH in Hk as (Hk & Hb & Hr). split; [lia|]. rewrite lbit_cons_succ, rank_cons by lia. split; [done|]. cbn. lia.
        -- intros (Hi & Hb & Hr). destruct (Z.eq_dec i 0) as [->|]; [rewrite rank_0 in Hr; lia|]. exists (i - 1). split; [|lia]. apply IH. replace i with (1 + (i - 1)) in Hb, Hr by lia. rewrite rank_cons in Hr by lia. rewrite lbit_cons_succ in Hb by lia. cbn in Hr. split; [lia|]. split; [done|lia].
    + change ([] ++ ?x) with x. rewrite list_lookup_fmap, fmap_Some. split.
      * intros (k & Hk & ->). apply IH in Hk as (Hk & Hb & Hr). split; [lia|]. rewrite lbit_cons_succ, rank_cons by lia. split; [done|]. cbn. lia.
      * intros (Hi & Hb & Hr). destruct (Z.eq_dec i 0) as [->|]; [done|]. exists (i - 1). split; [|lia]. apply IH. replace i with (1 + (i - 1)) in Hb, Hr by lia. rewrite rank_cons in Hr by lia. rewrite lbit_cons_succ in Hb by lia. cbn in Hr. split; [lia|]. split; [done|lia].
Qed.
Lemma lbit_tail u i : 0 <= i -> lbit (tail u) i = lbit u (1 + i).
Proof. intros. destruct u; [done|]. cbn. by rewrite lbit_cons_succ. Qed.
Lemma update_set_bits_spec l u i : 0 <= i -> lbit (update_set_bits l u) i = lbit l i && lbit u (rank (lbit l) i).
Proof.
  revert u i. induction l as [|b l IH]; intros u i Hi; [done|]. destruct (Z.eq_dec i 0) as [->|Hne].
  - rewrite rank_0 by lia. destruct b; [|done]. destruct u; done.
  - replace i with (1 + (i - 1)) by lia. rewrite rank_cons, lbit_cons_succ by lia. destruct b; cbn [update_set_bits b2z]; rewrite lbit_cons_succ, IH by lia.
    + rewrite lbit_tail; [done|]. apply rank_range. lia.
    + by rewrite Z.add_0_l.
Qed.
Lemma length_update_set_bits l u : length (update_set_bits l u) = length l.
Proof. revert u. induction l as [|[] l IH]; intros u; cbn; [done|by rewrite IH..]. Qed.

(** ** One operation *)

Lemma new_models : models BitVector_new [].
Proof. split; [apply new_bv_ok|]. done. Qed.
Lemma models_intro bv l size g : becomes bv size g -> size = zlen l -> (forall i, 0 <= i -> g i = lbit l i) -> models bv l.
Proof. intros H -> E. by eapply becomes_ext. Qed.
Section Models.
Context (bv : BitVector) (l : list bool) (H : models bv l).
Lemma models_ok : bv_ok bv.
Proof. apply H. Qed.
Lemma models_size : size_ bv = zlen l.
Proof. apply H. Qed.
Lemma models_bit i : 0 <= i -> bit (blocks_ bv) i = lbit l i.
Proof. apply H. Qed.
Lemma models_rank n : rank (bit (blocks_ bv)) n = rank (lbit l) n.
Proof. apply rank_ext. intros i Hi. apply models_bit. lia. Qed.
Lemma models_room i : 0 <= i < zlen l -> 0 <= i < 512 * zlen (blocks_ bv).
Proof. destruct models_ok as [Hi _]. pose proof (bi_room _ Hi) as Hr. rewrite models_size in Hr. lia. Qed.
Lemma models_write bv' i v : 0 <= i < zlen l -> becomes bv' (size_ bv) (fun k => if k =? i then v else bit (blocks_ bv) k) -> models bv' (<[Z.to_nat i := v]> l).
Proof.
  intros Hi Hb. eapply models_intro; [exact Hb|rewrite models_size; unfold zlen; by rewrite length_insert|]. intros k Hk. cbv beta. unfold lbit. destruct (Z.eqb_spec k i) as [->|Hne].
  - by rewrite list_lookup_insert_eq by (unfold zlen in Hi; lia).
  - rewrite list_lookup_insert_ne by lia. by apply models_bit.
Qed.
Lemma models_append v : zlen l < kMaxSize -> exists bv', Append v bv = Ok bv' /\ models bv' (l ++ [v]).
Proof.
  intros Hl. destruct (BitVector_Append_spec bv v models_ok) as (bv' & E & Hb); [by rewrite models_size|]. exists bv'. split; [done|]. eapply models_intro; [exact Hb|rewrite models_size; by rewrite zlen_snoc|]. intros i Hi. cbv beta. rewrite models_size. destruct (Z.eqb_spec i (zlen l)) as [->|Hne]; unfold lbit, zlen in *.
  - rewrite Nat2Z.id. by rewrite list_lookup_middle by done.
  - destruct (Z.lt_ge_cases i (Z.of_nat (length l))).
    + rewrite lookup_app_l by lia. by apply models_bit.
    + rewrite lookup_ge_None_2 by (rewrite length_app; cbn; lia). rewrite models_bit by done. apply lbit_outside. unfold zlen. lia.
Qed.
Lemma models_resize n v : 0 <= n <= kMaxSize -> resize_safe n v bv -> exists bv', Resize n v bv = Ok bv' /\ models bv' (resize_list n v l).
Proof.
  intros Hn Hs. destruct (Resize_spec bv n v models_ok Hn Hs) as (bv' & E & Hb). exists bv'. split; [done|]. unfold resize_list. eapply models_intro; [exact Hb|unfold zlen; rewrite length_app, length_take, length_replicate; lia|]. intros i Hi. unfold resize_bits, lbit. rewrite models_size. unfold zlen. destruct (Z.ltb_spec i n) as [H1|H1].
  - destruct (Z.ltb_spec i (Z.of_nat (length l))) as [H2|H2].
    + rewrite lookup_app_l by (rewrite length_take; lia). rewrite lookup_take_lt by lia. by apply models_bit.
    + rewrite lookup_app_r by (rewrite length_take; lia). rewrite lookup_replicate_2 by (rewrite length_take; lia). done.
  - by rewrite lookup_ge_None_2 by (rewrite length_app, length_take, length_replicate; lia).
Qed.
Lemma models_update u ul : models u ul -> 0 < zlen l -> exists bv', UpdateSetBits u bv = Ok bv' /\ models bv' (update_set_bits l ul).
Proof.
  intros Hu Hl. destruct (UpdateSetBits_spec u bv) as (bv' & E & Hb); [apply Hu|apply models_ok|by rewrite models_size|]. exists bv'. split; [done|]. eapply models_intro; [exact Hb|rewrite models_size; unfold zlen; by rewrite length_update_set_bits|]. intros i Hi. unfold updated. rewrite models_bit, models_rank, update_set_bits_spec by done. f_equal. apply Hu. by apply rank_range.
Qed.
Lemma models_nth n i : positions 0 l !! Z.to_nat n = Some i -> 0 <= n -> IndexOfNthSet n bv = Ok i.
Proof.
  intros Hp Hn. assert (Hlen : n < zlen (positions 0 l)) by (apply lookup_lt_Some in Hp; unfold zlen; lia). rewrite zlen_positions_all in Hlen. destruct models_ok as [Hi _]. destruct (IndexOfNthSet_spec bv n Hi) as (j & E & Hj & _); [rewrite models_rank, models_size; lia|].
  rewrite E. f_equal. apply positions_nth in Hp. rewrite Z2Nat.id in Hp by done. apply (is_nth_unique (lbit l) n); [|done]. eapply is_nth_ext; [|exact Hj]. intros k Hk. apply models_bit. lia.
Qed.
Lemma models_count n : 0 <= n <= zlen l -> CountSetBits_until n bv = Ok (zlen (positions 0 (take (Z.to_nat n) l))).
Proof. intros Hn. destruct models_ok as [Hi _]. rewrite CountSetBits_until_spec by (rewrite ?models_size; done). by rewrite zlen_positions, models_rank by lia. Qed.
Lemma models_count_all : CountSetBits bv = Ok (zlen (positions 0 l)).
Proof. destruct models_ok as [Hi _]. rewrite CountSetBits_spec by done. by rewrite models_size, models_rank, zlen_positions_all. Qed.
Lemma models_IsSet i : 0 <= i < zlen l -> IsSet i bv = Ok (lbit l i).
Proof. intros Hi. destruct models_ok as [Hinv _]. rewrite IsSet_spec by (apply models_room in Hi; done || apply Hinv). rewrite models_bit by lia. done. Qed.
End Models.
Lemma append_bits_spec init bv l : models bv l -> zlen l + zlen init <= kMaxSize -> exists bv', append_all init bv = Ok bv' /\ models bv' (l ++ init).
Proof.
  revert bv l. induction init as [|x init IH]; intros bv l H Hl; [exists bv; by rewrite app_nil_r|]. rewrite zlen_cons in Hl. pose proof (zlen_nonneg init). cbn [append_all]. destruct (models_append bv l H x ltac:(lia)) as (bv1 & E1 & H1). rewrite E1. cbn [obind]. destruct (IH bv1 (l ++ [x]) H1) as (bv' & E & Hm); [rewrite zlen_snoc; lia|]. exists bv'. split; [done|]. by rewrite <- app_assoc in Hm.
Qed.
Lemma BitVector_of_spec init : zlen init <= kMaxSize -> exists bv, BitVector_of init = Ok bv /\ models bv init.
Proof. intros H. by apply (append_bits_spec init BitVector_new [] new_models). Qed.
Lemma inside_spec i l : inside i l = true -> 0 <= i < zlen l.
Proof. unfold inside. lia. Qed.
Lemma vector_op_correct o bv l r l' : models bv l -> list_op o l = Some (r, l') -> known_defect o l = false -> exists bv', vector_op o bv = Ok (r, bv') /\ models bv' l'.
Proof.
  intros H Ho Hd. pose proof (models_size bv l H) as Hsz. destruct o as [v|i|i|n v|u|i|n|n]; cbn [list_op vector_op known_defect] in *.
  - destruct (Z.ltb_spec (zlen l) kMaxSize) as [Hl|]; [|done]. injection Ho as <- <-. destruct (models_append bv l H v Hl) as (bv' & -> & Hm). by exists bv'.
  - destruct (inside i l) eqn:Hin; [|done]. apply inside_spec in Hin. injection Ho as <- <-. destruct (Set_spec bv i (models_ok _ _ H)) as (bv' & -> & Hb); [lia|]. exists bv'. cbn [obind]. rewrite (models_bit _ _ H) by lia. split; [done|]. by apply (models_write bv).
  - destruct (inside i l) eqn:Hin; [|done]. apply inside_spec in Hin. injection Ho as <- <-. destruct (BitVector_Clear_spec bv i (models_ok _ _ H)) as (bv' & -> & Hb); [lia|]. exists bv'. split; [done|]. by apply (models_write bv).
  - destruct (Z.leb_spec 0 n), (Z.leb_spec n kMaxSize); cbn [andb] in Ho; try discriminate. injection Ho as <- <-. destruct (models_resize bv l H n v ltac:(lia)) as (bv' & -> & Hm); [|by exists bv'].
    intros -> Hlt Hz. rewrite Hsz in Hlt, Hz. rewrite models_size with (l := l), models_rank with (l := l), <- zlen_positions_all by done. destruct (Z.ltb_spec (zlen l) n), (Z.eqb_spec (zlen l `mod` 512) 0), (Z.eqb_spec (zlen (positions 0 l)) 0); cbn in Hd; try done; lia.
  - destruct (Z.leb_spec (zlen u) kMaxSize); [|done]. injection Ho as <- <-. pose proof (zlen_nonneg l). apply Z.eqb_neq in Hd. destruct (BitVector_of_spec u) as (bu & -> & Hu); [done|]. cbn [obind]. destruct (models_update bv l H bu u Hu) as (bv' & -> & Hm); [lia|]. by exists bv'.
  - destruct (inside i l) eqn:Hin; [|done]. apply inside_spec in Hin. injection Ho as <- <-. rewrite (models_IsSet bv l H) by lia. by exists bv.
  - destruct (Z.leb_spec 0 n), (Z.leb_spec n (zlen l)); cbn [andb] in Ho; try discriminate. injection Ho as <- <-. rewrite (models_count bv l H) by lia. by exists bv.
  - destruct (Z.leb_spec 0 n); [|done]. destruct (positions 0 l !! Z.to_nat n) as [i|] eqn:Ei; [|done]. injection Ho as <- <-. rewrite (models_nth bv l H n i) by done. by exists bv.
Qed.

(** ** Sessions *)

(** C27. Every session of appends, single-bit writes, resizes, batch updates of the set bits
    and queries on the bit vector, with indices and sizes in range, succeeds with the results
    of the same session on a list of bits, and leaves a vector that holds the resulting list,
    if it avoids two known defects: a Resize that appends set bits to whole blocks of 512
    bits that hold a set bit, and UpdateSetBits on an empty vector. The counts, the
    broadword search and the PDEP of the update are invisible. *)
Theorem bit_vector_refines_list ops bv l rs l' : models bv l -> list_run ops l = Some (rs, l') -> avoids_defects ops l = true ->
  exists bv', vector_run ops bv = Ok (rs, bv') /\ models bv' l'.
Proof.
  revert bv l rs l'. induction ops as [|o ops IH]; intros bv l rs l' H Hr Hd; cbn [list_run vector_run avoids_defects] in *; [injection Hr as <- <-; by exists bv|].
  destruct (list_op o l) as [[r l1]|] eqn:Eo; [|done]. apply andb_true_iff in Hd as [Hd%negb_true_iff Hds]. cbn [mbind option_bind] in Hr. destruct (list_run ops l1) as [[rs1 l2]|] eqn:Er; [|done]. injection Hr as <- <-.
  destruct (vector_op_correct o bv l r l1 H Eo Hd) as (bv1 & -> & H1). cbn [obind]. destruct (IH bv1 l1 rs1 l2 H1 Er Hds) as (bv' & -> & H'). by exists bv'.
Qed.
Lemma bit_vector_refines_list_witness :
  let ops := [OpResize 70 true; OpClear 3; OpAppend true; OpAppend false; OpUpdate [true; false; true; true]; OpSet 66; OpCount 72; OpNth 2; OpNth 3; OpResize 4 false; OpIsSet 3; OpCount 4] in
  let rs := [RDone; RDone; RDone; RDone; RDone; RBool false; RIndex 4; RIndex 4; RIndex 66; RDone; RBool false; RIndex 2] in
  exists bv, vector_run ops BitVector_new = Ok (rs, bv) /\ models bv [true; false; true; false].
Proof. intros ops rs. apply (bit_vector_refines_list ops BitVector_new [] rs); [apply new_models|vm_compute; reflexivity|vm_compute; reflexivity]. Defined.
(** Growing with set bits from a full last block that holds a set bit leaves the count
    before the new block at zero: the vector then reports too few set bits. *)
Theorem resize_true_loses_the_count : (let! bv := BitVector_filled 512 true in let! bv' := Resize 1024 true bv in let! before := CountSetBits bv in let! after := CountSetBits bv' in Ok (before, after, rank (bit (blocks_ bv')) 1024)) = Ok (512, 512, 1024).
Proof. vm_compute. reflexivity. Qed.
