(* ===== verification/BitVectorIterators.v ===== *)
(** * The iterators of the bit vector

    trace_processor/containers/bit_vector_iterators.h and .cc. An iterator caches the block
    of its bit and writes it back when it leaves the block or is destroyed; the counts it
    changed are corrected at the same moments, up to the block it moves to. The vector is
    state beside the iterator, since an iterator writes through its pointer. *)

From S2P Require Import Prelude StdAlgorithms BitVector.

Local Open Scope cpp_scope.

(** ** BaseIterator *)

Record BaseIterator := mkIterator { index_ : Z; it_size_ : Z; is_block_changed_ : bool; set_bit_count_diff_ : Z; block_ : list Z }.
Definition set_index (index : Z) (it : BaseIterator) : BaseIterator := mkIterator index (it_size_ it) (is_block_changed_ it) (set_bit_count_diff_ it) (block_ it).
Definition BaseIterator_new (bv : BitVector) : outcome BaseIterator :=
  let! b := if 0 <? size_ bv then vec_get (blocks_ bv) 0 else Ok Block_new in
  Ok (mkIterator 0 (size_ bv) false 0 b).
Definition block_offset_of (it : BaseIterator) : BlockOffset :=
  let bit_idx_inside_block := index_ it `mod` kBlockBits in
  mkOffset (bit_idx_inside_block `div` kWordBits) (bit_idx_inside_block `mod` kWordBits).
Definition it_IsSet (it : BaseIterator) : outcome bool := Block_IsSet (block_offset_of it) (block_ it).
Definition it_Set (it : BaseIterator) : outcome BaseIterator :=
  let! b := it_IsSet it in
  if negb b then
    let! block := Block_Set (block_offset_of it) (block_ it) in
    Ok (mkIterator (index_ it) (it_size_ it) true (set_bit_count_diff_ it + 1) block)
  else Ok it.
Definition it_Clear (it : BaseIterator) : outcome BaseIterator :=
  let! b := it_IsSet it in
  if b then
    let! block := Block_Clear (block_offset_of it) (block_ it) in
    Ok (mkIterator (index_ it) (it_size_ it) true (set_bit_count_diff_ it - 1) block)
  else Ok it.
(** The counts after the old block, up to the new one, by a signed addition of 32 bits; its
    overflow is undefined. *)
Definition shift_counts (old_block new_block diff : Z) (counts : list Z) : outcome (list Z) :=
  for_loop (old_block + 1) (new_block + 1) (fun i counts =>
    let! c := vec_get counts i in
    let new_count := s32 c + diff in
    check! (- 2 ^ 31 <=? new_count) && (new_count <? 2 ^ 31) in
    vec_set counts i (u32 new_count)) counts.
Definition OnBlockChange (old_block new_block : Z) (bv : BitVector) (it : BaseIterator) : outcome (BitVector * BaseIterator) :=
  let! blocks := if is_block_changed_ it then vec_set (blocks_ bv) old_block (block_ it) else Ok (blocks_ bv) in
  let! counts := if negb (set_bit_count_diff_ it =? 0) then shift_counts old_block new_block (set_bit_count_diff_ it) (counts_ bv) else Ok (counts_ bv) in
  let! block := vec_get blocks new_block in
  Ok (mkBitVector (size_ bv) counts blocks, mkIterator (index_ it) (it_size_ it) false (set_bit_count_diff_ it) block).
Definition SetIndex (index : Z) (bv : BitVector) (it : BaseIterator) : outcome (BitVector * BaseIterator) :=
  let old_index := index_ it in
  let it := set_index index it in
  if it_size_ it <=? index then Ok (bv, it)
  else
    let old_block := old_index `div` kBlockBits in
    let new_block := index `div` kBlockBits in
    if old_block =? new_block then Ok (bv, it) else OnBlockChange old_block new_block bv it.
(** The destructor. *)
Definition BaseIterator_destroy (bv : BitVector) (it : BaseIterator) : outcome BitVector :=
  if 0 <? it_size_ it then
    let block_idx := index_ it `div` kBlockBits in
    let last_block_idx := u32 (u32 (zlen (blocks_ bv)) - 1) in
    let! (bv, _) := OnBlockChange (Z.min block_idx last_block_idx) last_block_idx bv it in
    Ok bv
  else Ok bv.

(** ** AllBitsIterator *)

Definition AllBits_Next (bv : BitVector) (it : BaseIterator) : outcome (BitVector * BaseIterator) := SetIndex (u32 (index_ it + 1)) bv it.
Definition AllBits_Skip (n : Z) (bv : BitVector) (it : BaseIterator) : outcome (BitVector * BaseIterator) := SetIndex (u32 (index_ it + n)) bv it.
Definition AllBits_valid (it : BaseIterator) : bool := index_ it <? it_size_ it.

(** ** SetBitsIterator *)

(** A slot of the batch that was never written holds nothing. *)
Record SetBitsIterator := mkSetBits { base : BaseIterator; set_bit_index_ : Z; set_bit_count_ : Z; batch_ : list (option Z) }.
Definition kBatchSize : Z := 1024.
Definition batch_get (batch : list (option Z)) (i : Z) : outcome Z := let! x := vec_get batch i in match x with Some i => Ok i | None => Crash end.
Fixpoint read_batch_loop (fuel : nat) (size i set_bit_count_until_i set_bit_count : Z) (bv : BitVector) (batch : list (option Z)) : outcome (list (option Z)) :=
  if size <=? i then Ok batch
  else
    match fuel with
    | O => Crash
    | S fuel =>
        let addr := IndexToAddress i in
        let! set_bits_to_end_of_block := if block_idx addr =? zlen (counts_ bv) - 1 then Ok set_bit_count else vec_get (counts_ bv) (block_idx addr + 1) in
        if set_bits_to_end_of_block =? set_bit_count_until_i then
          let i := AddressToIndex (mkAddress (block_idx addr) kLastBlockOffset) in
          read_batch_loop fuel size (u32 (i + 1)) set_bit_count_until_i set_bit_count bv batch
        else
          let! block := vec_get (blocks_ bv) (block_idx addr) in
          let! b := Block_IsSet (block_offset addr) block in
          if negb b then read_batch_loop fuel size (u32 (i + 1)) set_bit_count_until_i set_bit_count bv batch
          else
            let batch_idx := set_bit_count_until_i `mod` kBatchSize in
            let! batch := vec_set batch batch_idx (Some i) in
            if batch_idx =? kBatchSize - 1 then Ok batch
            else read_batch_loop fuel size (u32 (i + 1)) (u32 (set_bit_count_until_i + 1)) set_bit_count bv batch
    end.
(** Every round advances the index, so the size bounds the rounds. *)
Definition ReadSetBitBatch (start_idx : Z) (bv : BitVector) (it : SetBitsIterator) : outcome SetBitsIterator :=
  let! batch := read_batch_loop (Z.to_nat (it_size_ (base it))) (it_size_ (base it)) start_idx (set_bit_index_ it) (set_bit_count_ it) bv (batch_ it) in
  Ok (mkSetBits (base it) (set_bit_index_ it) (set_bit_count_ it) batch).
Definition set_bits_index (index : Z) (bv : BitVector) (it : SetBitsIterator) : outcome (BitVector * SetBitsIterator) :=
  let! (bv, b) := SetIndex index bv (base it) in
  Ok (bv, mkSetBits b (set_bit_index_ it) (set_bit_count_ it) (batch_ it)).
Definition SetBitsIterator_new (bv : BitVector) : outcome (BitVector * SetBitsIterator) :=
  let! b := BaseIterator_new bv in
  let! count := CountSetBits bv in
  let it := mkSetBits b 0 count (replicate (Z.to_nat kBatchSize) None) in
  if 0 <? count then
    let! it := ReadSetBitBatch 0 bv it in
    let! i := batch_get (batch_ it) 0 in
    set_bits_index i bv it
  else Ok (bv, it).
Definition SetBits_valid (it : SetBitsIterator) : bool := set_bit_index_ it <? set_bit_count_ it.
Definition SetBits_index (it : SetBitsIterator) : Z := index_ (base it).
Definition SetBits_ordinal (it : SetBitsIterator) : Z := set_bit_index_ it.
Definition SetBits_Next (bv : BitVector) (it : SetBitsIterator) : outcome (BitVector * SetBitsIterator) :=
  let it := mkSetBits (base it) (u32 (set_bit_index_ it + 1)) (set_bit_count_ it) (batch_ it) in
  if set_bit_count_ it <=? set_bit_index_ it then Ok (bv, it)
  else
    let! it := if set_bit_index_ it `mod` kBatchSize =? 0 then let! last := batch_get (batch_ it) (kBatchSize - 1) in ReadSetBitBatch (u32 (last + 1)) bv it else Ok it in
    let! i := batch_get (batch_ it) (set_bit_index_ it `mod` kBatchSize) in
    set_bits_index i bv it.
Definition SetBits_Clear (it : SetBitsIterator) : outcome SetBitsIterator :=
  let! b := it_Clear (base it) in
  Ok (mkSetBits b (set_bit_index_ it) (set_bit_count_ it) (batch_ it)).
(** [for (auto it = bv.IterateSetBits(); it; it.Next()) body], and the destructor. *)
Fixpoint set_bits_loop {S} (fuel : nat) (body : SetBitsIterator -> S -> outcome (SetBitsIterator * S)) (bv : BitVector) (it : SetBitsIterator) (s : S) : outcome (BitVector * S) :=
  if SetBits_valid it then
    match fuel with
    | O => Crash
    | Datatypes.S fuel =>
        let! (it, s) := body it s in
        let! (bv, it) := SetBits_Next bv it in
        set_bits_loop fuel body bv it s
    end
  else let! bv := BaseIterator_destroy bv (base it) in Ok (bv, s).
Definition for_set_bits {S} (body : SetBitsIterator -> S -> outcome (SetBitsIterator * S)) (bv : BitVector) (s : S) : outcome (BitVector * S) :=
  let! (bv, it) := SetBitsIterator_new bv in
  set_bits_loop (Z.to_nat (set_bit_count_ it)) body bv it s.
(** [for (auto it = bv.IterateAllBits(); it; it.Next()) body], and the destructor. *)
Fixpoint all_bits_loop {S} (fuel : nat) (body : BaseIterator -> S -> outcome (BaseIterator * S)) (bv : BitVector) (it : BaseIterator) (s : S) : outcome (BitVector * S) :=
  if AllBits_valid it then
    match fuel with
    | O => Crash
    | Datatypes.S fuel =>
        let! (it, s) := body it s in
        let! (bv, it) := AllBits_Next bv it in
        all_bits_loop fuel body bv it s
    end
  else let! bv := BaseIterator_destroy bv it in Ok (bv, s).
Definition for_all_bits {S} (body : BaseIterator -> S -> outcome (BaseIterator * S)) (bv : BitVector) (s : S) : outcome (BitVector * S) :=
  let! it := BaseIterator_new bv in
  all_bits_loop (Z.to_nat (it_size_ it)) body bv it s.
