(* ===== verification/BitVectorIteration.v ===== *)
(** * Iterating while changing the bits

    The invariant of an iterator with its cached block and deferred counts, and what a loop
    over the set bits that clears some of them leaves in the vector. *)

From S2P Require Import Prelude StdAlgorithms BitVector BitVectorWords BitVectorSelect BitVectorBlocks BitVectorCorrect BitVectorResize BitVectorIterators.

Local Open Scope cpp_scope.

(** ** The cached block *)

(** [orig] are the bits at the start and [g] those the caller sees now: in block [cur] those
    of the cached block. No bit from [m] on was changed. *)
Record it_core (orig g : Z -> bool) (m cur : Z) (bv : BitVector) (it : BaseIterator) : Prop := {
  ic_size : it_size_ it = size_ bv /\ 0 < size_ bv < 2 ^ 31;
  ic_blocks : Forall block_ok (blocks_ bv);
  ic_lengths : zlen (counts_ bv) = zlen (blocks_ bv);
  ic_room : zlen (blocks_ bv) = (size_ bv + 511) `div` 512;
  ic_cur : 0 <= cur < zlen (blocks_ bv);
  ic_block : block_ok (block_ it);
  ic_bits : forall i, 0 <= i -> g i = if i `div` 512 =? cur then block_bit (block_ it) (i `mod` 512) else bit (blocks_ bv) i;
  ic_same : is_block_changed_ it = false -> blocks_ bv !! Z.to_nat cur = Some (block_ it);
  ic_counts : forall k c, 0 <= k -> counts_ bv !! Z.to_nat k = Some c -> c = if k <=? cur then rank g (512 * k) else rank orig (512 * k);
  ic_diff : set_bit_count_diff_ it = rank g (512 * (cur + 1)) - rank orig (512 * (cur + 1));
  ic_m : 0 <= m <= 512 * (cur + 1);
  ic_rest : forall i, m <= i -> g i = orig i /\ bit (blocks_ bv) i = orig i;
  ic_tail : forall i, size_ bv <= i -> g i = false /\ orig i = false
}.
Arguments ic_size {_ _ _ _ _ _}. Arguments ic_blocks {_ _ _ _ _ _}. Arguments ic_lengths {_ _ _ _ _ _}. Arguments ic_room {_ _ _ _ _ _}. Arguments ic_cur {_ _ _ _ _ _}. Arguments ic_block {_ _ _ _ _ _}. Arguments ic_bits {_ _ _ _ _ _}.
Arguments ic_same {_ _ _ _ _ _}. Arguments ic_counts {_ _ _ _ _ _}. Arguments ic_diff {_ _ _ _ _ _}. Arguments ic_m {_ _ _ _ _ _}. Arguments ic_rest {_ _ _ _ _ _}. Arguments ic_tail {_ _ _ _ _ _}.
Lemma rank_below f n a : 0 <= n -> n <= a -> (forall i, n <= i -> f i = false) -> rank f a = rank f n.
Proof. intros Hn Ha H. apply rank_stable; [lia|]. intros i Hi. apply H. lia. Qed.
(** Past the changes both functions count on in the same way. *)
Lemma rank_common (f g : Z -> bool) m a b : 0 <= m <= a -> a <= b -> (forall i, m <= i -> g i = f i) -> rank g b - rank f b = rank g a - rank f a.
Proof. intros Hm Hb H. replace b with (a + (b - a)) by lia. rewrite !rank_split by lia. rewrite (rank_ext (fun i => g (a + i)) (fun i => f (a + i))); [lia|]. intros i Hi. apply H. lia. Qed.
Section Core.
Context (orig g : Z -> bool) (m cur : Z) (bv : BitVector) (it : BaseIterator) (H : it_core orig g m cur bv it).
Lemma ic_rank_orig k : 0 <= k -> 0 <= rank orig k <= size_ bv.
Proof.
  intros Hk. pose proof (ic_size H) as [_ Hs]. destruct (Z.le_gt_cases k (size_ bv)); [pose proof (rank_range orig k Hk); lia|]. rewrite (rank_below orig (size_ bv)) by (lia || (intros i Hi; by apply (ic_tail H))). apply rank_range. lia.
Qed.
Lemma ic_rank_g k : 0 <= k -> 0 <= rank g k <= size_ bv.
Proof.
  intros Hk. pose proof (ic_size H) as [_ Hs]. destruct (Z.le_gt_cases k (size_ bv)); [pose proof (rank_range g k Hk); lia|]. rewrite (rank_below g (size_ bv)) by (lia || (intros i Hi; by apply (ic_tail H))). apply rank_range. lia.
Qed.
Lemma ic_agree i : m <= i -> g i = orig i.
Proof. intros Hi. by apply (ic_rest H). Qed.
Lemma ic_shift k : cur < k -> rank g (512 * k) = rank orig (512 * k) + set_bit_count_diff_ it.
Proof. intros Hk. rewrite (ic_diff H). pose proof (ic_m H). pose proof (rank_common orig g m (512 * (cur + 1)) (512 * k) ltac:(lia) ltac:(lia) ic_agree). lia. Qed.
Lemma shift_counts_spec n : cur <= n < zlen (blocks_ bv) -> exists counts, shift_counts cur n (set_bit_count_diff_ it) (counts_ bv) = Ok counts /\ zlen counts = zlen (counts_ bv) /\ forall k c, 0 <= k -> counts !! Z.to_nat k = Some c -> c = if k <=? n then rank g (512 * k) else rank orig (512 * k).
Proof.
  intros Hn. pose proof (ic_lengths H) as Hl. pose proof (ic_cur H) as Hcur. pose proof (ic_size H) as [_ Hsz]. unfold shift_counts.
  destruct (for_loop_inv (fun i counts => zlen counts = zlen (counts_ bv) /\ forall k c, 0 <= k -> counts !! Z.to_nat k = Some c -> c = if k <? i then rank g (512 * k) else rank orig (512 * k)) (cur + 1) (n + 1)
    (fun i counts => let! c := vec_get counts i in let new_count := s32 c + set_bit_count_diff_ it in check! (- 2 ^ 31 <=? new_count) && (new_count <? 2 ^ 31) in vec_set counts i (u32 new_count)) (counts_ bv)) as (counts & E & Hcl & Hc).
  - lia.
  - split; [done|]. intros k c Hk Hc. rewrite (ic_counts H k c Hk Hc). destruct (Z.leb_spec k cur), (Z.ltb_spec k (cur + 1)); try done; lia.
  - intros i counts Hi [Hcl Hc]. destruct (vec_get_inside counts i ltac:(lia)) as (c & Ec & Eg). rewrite Eg. cbn [obind]. pose proof (Hc i c ltac:(lia) Ec) as Hci. destruct (Z.ltb_spec i i); [lia|]. pose proof (ic_rank_orig (512 * i) ltac:(lia)) as Hro. pose proof (ic_rank_g (512 * i) ltac:(lia)) as Hrg. pose proof (ic_shift i ltac:(lia)) as Hsh.
    assert (Es : s32 c = c) by (unfold s32, sw; rewrite uw_small by lia; destruct (Z.ltb_spec c (2 ^ (32 - 1))); [done|lia]). rewrite Es, Hci, <- Hsh. destruct (Z.leb_spec (- 2 ^ 31) (rank g (512 * i))), (Z.ltb_spec (rank g (512 * i)) (2 ^ 31)); try lia. cbn [andb]. rewrite u32_small, vec_set_inside by lia. eexists. split; [done|].
    split; [unfold zlen in *; by rewrite length_insert|]. intros k c' Hk Hkc. destruct (Z.eq_dec k i) as [->|Hne].
    + rewrite list_lookup_insert_eq in Hkc by (unfold zlen in *; lia). injection Hkc as <-. destruct (Z.ltb_spec i (i + 1)); [done|lia].
    + rewrite list_lookup_insert_ne in Hkc by lia. rewrite (Hc k c' Hk Hkc). destruct (Z.ltb_spec k i), (Z.ltb_spec k (i + 1)); try done; lia.
  - exists counts. split; [done|]. split; [done|]. intros k c Hk Hkc. rewrite (Hc k c Hk Hkc). destruct (Z.ltb_spec k (n + 1)), (Z.leb_spec k n); try done; lia.
Qed.
(** Flushing the cached block. *)
Lemma flush_spec : exists blocks, (if is_block_changed_ it then vec_set (blocks_ bv) cur (block_ it) else Ok (blocks_ bv)) = Ok blocks /\ zlen blocks = zlen (blocks_ bv) /\ Forall block_ok blocks /\ forall i, 0 <= i -> bit blocks i = g i.
Proof.
  pose proof (ic_cur H) as Hcur. destruct (is_block_changed_ it) eqn:Ech.
  - rewrite vec_set_inside by done. eexists. split; [done|]. split; [unfold zlen; by rewrite length_insert|]. split; [apply Forall_insert; apply H|]. intros i Hi. rewrite (ic_bits H) by done. unfold bit. assert (0 <= i `div` 512) by (apply Z.div_pos; lia). destruct (Z.eqb_spec (i `div` 512) cur) as [->|Hne].
    + by rewrite list_lookup_insert_eq by (unfold zlen in Hcur; lia).
    + by rewrite list_lookup_insert_ne by lia.
  - eexists. split; [done|]. split; [done|]. split; [apply H|]. intros i Hi. rewrite (ic_bits H) by done. destruct (Z.eqb_spec (i `div` 512) cur) as [<-|]; [|done]. unfold bit. by rewrite (ic_same H Ech).
Qed.
Lemma OnBlockChange_spec n : cur <= n < zlen (blocks_ bv) -> exists bv' it', OnBlockChange cur n bv it = Ok (bv', it') /\ it_core orig g m n bv' it' /\ index_ it' = index_ it /\ size_ bv' = size_ bv /\ forall i, 0 <= i -> bit (blocks_ bv') i = g i.
Proof.
  intros Hn. pose proof (ic_cur H) as Hcur. pose proof (ic_m H) as Hm. destruct flush_spec as (blocks & Ef & Hbl & Hbo & Hbits). unfold OnBlockChange. rewrite Ef. cbn [obind].
  assert (Hcounts : exists counts, (if negb (set_bit_count_diff_ it =? 0) then shift_counts cur n (set_bit_count_diff_ it) (counts_ bv) else Ok (counts_ bv)) = Ok counts /\ zlen counts = zlen (counts_ bv) /\ forall k c, 0 <= k -> counts !! Z.to_nat k = Some c -> c = if k <=? n then rank g (512 * k) else rank orig (512 * k)).
  { destruct (Z.eqb_spec (set_bit_count_diff_ it) 0) as [Ez|]; cbn [negb]; [|by apply shift_counts_spec]. eexists. split; [done|]. split; [done|]. intros k c Hk Hc. rewrite (ic_counts H k c Hk Hc). destruct (Z.leb_spec k cur), (Z.leb_spec k n); try done; try lia. pose proof (ic_shift k ltac:(lia)). lia. }
  destruct Hcounts as (counts & -> & Hcl & Hc). cbn [obind]. destruct (get_block blocks n Hbo ltac:(lia)) as (b & Eb & Egb & Hbk). rewrite Egb. cbn [obind]. eexists _, _. split; [done|]. split; [|split_and!; done]. split; cbn [it_size_ size_ blocks_ counts_ block_ is_block_changed_ set_bit_count_diff_].
  - apply H.
  - done.
  - rewrite Hcl, Hbl. apply H.
  - rewrite Hbl. apply H.
  - lia.
  - done.
  - intros i Hi. destruct (Z.eqb_spec (i `div` 512) n) as [E|]; [|by rewrite Hbits]. rewrite <- Hbits by done. unfold bit. by rewrite E, Eb.
  - done.
  - done.
  - pose proof (ic_shift (n + 1) ltac:(lia)). lia.
  - lia.
  - intros i Hi. split; [by apply ic_agree|]. rewrite Hbits by lia. by apply ic_agree.
  - apply H.
Qed.
End Core.

(** ** The bit the iterator points to *)

(** The iterator is at a bit of its block, or past the end with the last block. *)
Definition at_index (cur : Z) (bv : BitVector) (it : BaseIterator) : Prop := 0 <= index_ it <= size_ bv /\ (index_ it < size_ bv -> cur = index_ it `div` 512) /\ (index_ it = size_ bv -> cur = zlen (blocks_ bv) - 1).
Definition it_inv (orig g : Z -> bool) (m : Z) (bv : BitVector) (it : BaseIterator) : Prop := exists cur, it_core orig g m cur bv it /\ at_index cur bv it.
Lemma it_core_ext orig g g' m cur bv it : (forall i, 0 <= i -> g' i = g i) -> it_core orig g m cur bv it -> it_core orig g' m cur bv it.
Proof.
  intros E H. pose proof (ic_m H) as Hm. pose proof (ic_size H) as [_ Hs]. assert (Hr : forall n, rank g' n = rank g n) by (intros n; apply rank_ext; intros i Hi; apply E; lia). split; try apply H.
  - intros i Hi. rewrite E by done. by apply (ic_bits H).
  - intros k c Hk Hc. rewrite Hr. by apply (ic_counts H).
  - rewrite Hr. apply (ic_diff H).
  - intros i Hi. rewrite E by lia. by apply (ic_rest H).
  - intros i Hi. rewrite E by lia. by apply (ic_tail H).
Qed.
Lemma it_inv_ext orig g g' m bv it : (forall i, 0 <= i -> g' i = g i) -> it_inv orig g m bv it -> it_inv orig g' m bv it.
Proof. intros E (cur & H & Ha). exists cur. split; [by eapply it_core_ext|done]. Qed.
Lemma it_core_later orig g m m' cur bv it : m <= m' <= 512 * (cur + 1) -> it_core orig g m cur bv it -> it_core orig g m' cur bv it.
Proof. intros Hm H. split; try apply H; [pose proof (ic_m H); lia|]. intros i Hi. apply (ic_rest H). lia. Qed.
Lemma last_block n : 0 < n -> (n - 1) `div` 512 = (n + 511) `div` 512 - 1.
Proof. intros Hn. rewrite block_count by done. lia. Qed.
Lemma BaseIterator_new_spec bv : bv_ok bv -> 0 < size_ bv < 2 ^ 31 -> exists it, BaseIterator_new bv = Ok it /\ index_ it = 0 /\ it_inv (bit (blocks_ bv)) (bit (blocks_ bv)) 0 bv it.
Proof.
  intros [H Hn] Hs. unfold BaseIterator_new. destruct (Z.ltb_spec 0 (size_ bv)); [|lia]. pose proof (bi_room _ H) as Hr. destruct (get_block (blocks_ bv) 0 (bi_blocks _ H) ltac:(lia)) as (b & Eb & Egb & Hbk). rewrite Egb. cbn [obind]. eexists. split; [done|]. split; [done|]. exists 0. split.
  - split; cbn [it_size_ size_ blocks_ counts_ block_ is_block_changed_ set_bit_count_diff_]; try apply H; try done; try lia.
    + intros i Hi. destruct (Z.eqb_spec (i `div` 512) 0) as [E|]; [|done]. unfold bit. by rewrite E, Eb.
    + intros k c Hk Hc. rewrite (bi_counts _ H k c Hc Hk). by destruct (k <=? 0).
    + intros i Hi. split; by apply (bi_tail _ H).
  - unfold at_index. cbn [index_]. split_and!; [lia|lia|done|lia].
Qed.
Section AtIndex.
Context (orig g : Z -> bool) (m : Z) (bv : BitVector) (it : BaseIterator) (H : it_inv orig g m bv it) (Hi : index_ it < size_ bv).
Lemma current_block : exists cur, it_core orig g m cur bv it /\ cur = index_ it `div` 512 /\ 0 <= index_ it.
Proof. destruct H as (cur & Hc & Ha & Hb & _). exists cur. split; [done|]. split; [by apply Hb|lia]. Qed.
Lemma block_offset_of_eq : block_offset_of it = offset_of (index_ it `mod` 512).
Proof. done. Qed.
Lemma it_IsSet_spec : it_IsSet it = Ok (g (index_ it)).
Proof.
  destruct current_block as (cur & Hc & Ecur & H0). unfold it_IsSet. rewrite block_offset_of_eq, Block_IsSet_spec; [|apply Hc|apply Z.mod_pos_bound; lia]. rewrite (ic_bits Hc) by done. rewrite <- Ecur. by rewrite Z.eqb_refl.
Qed.
(** The cached block after one of its bits changed. *)
Lemma change_spec v block : (m <= index_ it + 1) -> g (index_ it) = negb v -> block_becomes (block_ it) block (fun j => if j =? index_ it `mod` 512 then v else block_bit (block_ it) j) ->
  it_inv orig (fun i => if i =? index_ it then v else g i) (index_ it + 1) bv (mkIterator (index_ it) (it_size_ it) true (set_bit_count_diff_ it + (b2z v - b2z (negb v))) block).
Proof.
  intros Hm Hg [Hbk Hbit]. destruct current_block as (cur & Hc & Ecur & H0). exists cur. pose proof (index_split (index_ it)) as Hsp. pose proof (Z.mod_pos_bound (index_ it) 512) as Hmod. pose proof (ic_cur Hc) as Hcur. split; [|destruct H as (cur' & _ & Ha & Hb & He); split_and!; cbn; [lia|lia|done|lia]].
  assert (Hrank : forall n, rank (fun i => if i =? index_ it then v else g i) n = rank g n + (if index_ it <? n then b2z v - b2z (negb v) else 0)).
  { intros n. rewrite (rank_update g _ n (index_ it)) by (lia || (intros j Hj Hne; by destruct (Z.eqb_spec j (index_ it)))). by rewrite Z.eqb_refl, Hg. }
  split; cbn [it_size_ block_ is_block_changed_ set_bit_count_diff_]; try apply Hc; try done.
  - intros i Hi'. destruct (Z.eqb_spec (i `div` 512) cur) as [E|E].
    + rewrite Hbit by (apply Z.mod_pos_bound; lia). rewrite (ic_bits Hc), E, Z.eqb_refl by done. pose proof (index_split i). destruct (Z.eqb_spec i (index_ it)), (Z.eqb_spec (i `mod` 512) (index_ it `mod` 512)); try done; exfalso; first [lia|congruence].
    + destruct (Z.eqb_spec i (index_ it)) as [->|]; [done|]. rewrite (ic_bits Hc) by done. destruct (Z.eqb_spec (i `div` 512) cur); done.
  - intros k c Hk Hkc. rewrite Hrank, (ic_counts Hc k c Hk Hkc). destruct (Z.leb_spec k cur); [|done]. destruct (Z.ltb_spec (index_ it) (512 * k)); lia.
  - rewrite Hrank, (ic_diff Hc). destruct (Z.ltb_spec (index_ it) (512 * (cur + 1))); lia.
  - lia.
  - intros i Hi'. destruct (Z.eqb_spec i (index_ it)); [lia|]. apply (ic_rest Hc). lia.
  - intros i Hi'. destruct (Z.eqb_spec i (index_ it)); [lia|]. by apply (ic_tail Hc).
Qed.
Lemma unchanged_spec v : m <= index_ it + 1 -> g (index_ it) = v -> it_inv orig (fun i => if i =? index_ it then v else g i) (index_ it + 1) bv it.
Proof.
  intros Hm Hg. destruct current_block as (cur & Hc & Ecur & H0). pose proof (index_split (index_ it)). pose proof (Z.mod_pos_bound (index_ it) 512). apply (it_inv_ext _ g); [intros i Hi'; by destruct (Z.eqb_spec i (index_ it)) as [->|]|]. exists cur. split; [apply (it_core_later _ _ m); [lia|done]|]. destruct H as (cur' & _ & Ha & Hb & He). split_and!; [lia|lia|done|lia].
Qed.
Lemma it_Clear_spec : m <= index_ it + 1 -> exists it', it_Clear it = Ok it' /\ index_ it' = index_ it /\ it_inv orig (fun i => if i =? index_ it then false else g i) (index_ it + 1) bv it'.
Proof.
  intros Hm. unfold it_Clear. rewrite it_IsSet_spec. cbn [obind]. destruct (g (index_ it)) eqn:Eg; [|exists it; split; [done|]; split; [done|by apply unchanged_spec]]. destruct current_block as (cur & Hc & Ecur & H0). pose proof (Z.mod_pos_bound (index_ it) 512) as Hmod.
  rewrite block_offset_of_eq. destruct (Block_Clear_spec (block_ it) (index_ it `mod` 512)) as (b & Eb & Hbk & Hbit); [apply Hc|lia|]. rewrite Eb. cbn [obind]. eexists. split; [done|]. split; [done|]. apply (change_spec false b); [done|done|]. split; [done|]. intros j Hj. rewrite Hbit by done. by destruct (j =? index_ it `mod` 512).
Qed.
Lemma it_Set_spec : m <= index_ it + 1 -> exists it', it_Set it = Ok it' /\ index_ it' = index_ it /\ it_inv orig (fun i => if i =? index_ it then true else g i) (index_ it + 1) bv it'.
Proof.
  intros Hm. unfold it_Set. rewrite it_IsSet_spec. cbn [obind]. destruct (g (index_ it)) eqn:Eg; cbn [negb]; [exists it; split; [done|]; split; [done|by apply unchanged_spec]|]. destruct current_block as (cur & Hc & Ecur & H0). pose proof (Z.mod_pos_bound (index_ it) 512) as Hmod.
  rewrite block_offset_of_eq. destruct (Block_Set_spec (block_ it) (index_ it `mod` 512)) as (b & Eb & Hbk & Hbit); [apply Hc|lia|]. rewrite Eb. cbn [obind]. eexists. split; [done|]. split; [done|]. apply (change_spec true b); [done|done|]. split; [done|]. intros j Hj. rewrite Hbit by done. by destruct (j =? index_ it `mod` 512).
Qed.
(** Moving forward inside the vector. *)
Lemma SetIndex_spec j : m <= j -> index_ it <= j < size_ bv -> exists bv' it', SetIndex j bv it = Ok (bv', it') /\ index_ it' = j /\ size_ bv' = size_ bv /\ it_inv orig g j bv' it'.
Proof.
  intros Hm Hj. destruct current_block as (cur & Hc & Ecur & H0). pose proof (ic_size Hc) as [Hsz Hsz2]. unfold SetIndex. change (it_size_ (set_index j it)) with (it_size_ it). rewrite Hsz. destruct (Z.leb_spec (size_ bv) j); [lia|]. change kBlockBits with 512. pose proof (index_split j). pose proof (Z.mod_pos_bound j 512). pose proof (Z.div_le_mono (index_ it) j 512 ltac:(lia) ltac:(lia)) as Hle. pose proof (ic_room Hc) as Hroom. pose proof (last_block (size_ bv) ltac:(lia)) as Hlast.
  pose proof (Z.div_le_mono j (size_ bv - 1) 512 ltac:(lia) ltac:(lia)) as Hle2. assert (Hci : it_core orig g m cur bv (set_index j it)) by (split; apply Hc). destruct (Z.eqb_spec (index_ it `div` 512) (j `div` 512)) as [E|E].
  - eexists _, _. split; [done|]. split; [done|]. split; [done|]. exists cur. split; [apply (it_core_later _ _ m); [lia|done]|]. split_and!; cbn; [lia|lia|lia|lia].
  - rewrite <- Ecur. destruct (OnBlockChange_spec _ _ _ _ _ _ Hci (j `div` 512) ltac:(lia)) as (bv' & it' & Eo & Hc' & Ei & Es & _). exists bv', it'. split; [done|]. split; [done|]. split; [done|]. exists (j `div` 512). split; [apply (it_core_later _ _ m); [lia|done]|]. unfold at_index. rewrite Es, Ei. cbn. split_and!; [lia|lia|done|lia].
Qed.
End AtIndex.
Lemma BaseIterator_destroy_spec orig g m bv it : it_inv orig g m bv it -> exists bv', BaseIterator_destroy bv it = Ok bv' /\ becomes bv' (size_ bv) g.
Proof.
  intros (cur & H & Ha & Hb & He). pose proof (ic_size H) as [Hsz Hs]. pose proof (ic_room H) as Hroom. pose proof (last_block (size_ bv) ltac:(lia)) as Hlast. pose proof (ic_cur H) as Hcur. pose proof (block_count_bounds (size_ bv)) as Hbb. unfold BaseIterator_destroy. rewrite Hsz. destruct (Z.ltb_spec 0 (size_ bv)); [|lia]. change kBlockBits with 512.
  rewrite (u32_small (zlen _)), u32_small by lia. assert (Ecur : Z.min (index_ it `div` 512) (zlen (blocks_ bv) - 1) = cur).
  { destruct (Z.lt_ge_cases (index_ it) (size_ bv)) as [Hlt|]; [rewrite Hb by done; pose proof (Z.div_le_mono (index_ it) (size_ bv - 1) 512 ltac:(lia) ltac:(lia)); lia|]. pose proof (Z.div_le_mono (size_ bv - 1) (index_ it) 512 ltac:(lia) ltac:(lia)). lia. }
  rewrite Ecur. destruct (OnBlockChange_spec _ _ _ _ _ _ H (zlen (blocks_ bv) - 1) ltac:(lia)) as (bv' & it' & Eo & Hc' & _ & Es & Hbits). rewrite Eo. cbn [obind]. exists bv'. split; [done|]. pose proof (ic_room Hc') as Hroom'. pose proof (ic_lengths Hc') as Hl'. rewrite Es in *. split; [|split; [done|done]].
  split; [|by rewrite Es]. split.
  - unfold kMaxSize. lia.
  - apply Hc'.
  - done.
  - rewrite Es. lia.
  - intros k c Hkc Hk. rewrite (ic_counts Hc' k c Hk Hkc). destruct (Z.leb_spec k (zlen (blocks_ bv) - 1)) as [Hle|Hgt]; [|apply lookup_lt_Some in Hkc; unfold zlen in *; lia]. apply rank_ext. intros i Hi. symmetry. apply Hbits. lia.
  - intros i Hi. rewrite Hbits by lia. apply (ic_tail H). lia.
Qed.

(** ** Batches of set bits *)

(** The slots of the set bits [k] to [last - 1] of a batch. *)
Definition batch_holds (f : Z -> bool) (k last : Z) (batch : list (option Z)) : Prop := zlen batch = 1024 /\ forall j, k <= j < last -> exists i, batch !! Z.to_nat (j `mod` 1024) = Some (Some i) /\ is_nth f j i.
Section Batch.
(** [f] are the bits from [s] on, and the counts of the blocks after that of [s]. *)
Context (f : Z -> bool) (s : Z) (bv : BitVector) (total : Z).
Context (Hs : 0 <= s) (Hsize : 0 < size_ bv < 2 ^ 31) (Hblocks : Forall block_ok (blocks_ bv)) (Hlen : zlen (counts_ bv) = zlen (blocks_ bv)) (Hroom : zlen (blocks_ bv) = (size_ bv + 511) `div` 512).
Context (Hbits : forall i, s <= i -> bit (blocks_ bv) i = f i) (Hcounts : forall k c, s `div` 512 < k -> counts_ bv !! Z.to_nat k = Some c -> c = rank f (512 * k)).
Context (Htail : forall i, size_ bv <= i -> f i = false) (Htotal : total = rank f (size_ bv)).
Lemma count_to_end_of_block i : s <= i < size_ bv -> (if block_idx (IndexToAddress i) =? zlen (counts_ bv) - 1 then Ok total else vec_get (counts_ bv) (block_idx (IndexToAddress i) + 1)) = Ok (rank f (512 * (i `div` 512 + 1))).
Proof.
  intros Hi. rewrite IndexToAddress_eq. cbn [block_idx]. pose proof (block_count_bounds (size_ bv)) as Hb. pose proof (last_block (size_ bv) ltac:(lia)) as Hlast. pose proof (Z.div_le_mono i (size_ bv - 1) 512 ltac:(lia) ltac:(lia)). pose proof (Z.div_le_mono s i 512 ltac:(lia) ltac:(lia)). assert (0 <= s `div` 512) by (apply Z.div_pos; lia). destruct (Z.eqb_spec (i `div` 512) (zlen (counts_ bv) - 1)) as [E|E].
  - f_equal. rewrite Htotal. symmetry. apply rank_below; [lia|lia|]. intros j Hj. by apply Htail.
  - destruct (vec_get_inside (counts_ bv) (i `div` 512 + 1)) as (c & Ec & Eg); [lia|]. rewrite Eg. f_equal. apply (Hcounts (i `div` 512 + 1)); [lia|done].
Qed.
Lemma mod_batch k c : 0 <= k -> k `mod` 1024 = 0 -> k <= c < k + 1024 -> c `mod` 1024 = c - k.
Proof. intros Hk Hz Hc. symmetry. apply (Z.mod_unique_pos _ _ (k `div` 1024)); [lia|]. pose proof (Z.div_mod k 1024). lia. Qed.
Lemma read_batch_loop_spec k : 0 <= k -> k `mod` 1024 = 0 -> forall fuel i c batch, s <= i -> (Z.to_nat (size_ bv - i) <= fuel)%nat -> rank f i = c -> k <= c < k + 1024 -> batch_holds f k c batch ->
  exists batch', read_batch_loop fuel (size_ bv) i c total bv batch = Ok batch' /\ batch_holds f k (Z.min total (k + 1024)) batch'.
Proof.
  intros Hk Hkz. induction fuel as [|fuel IH]; intros i c batch Hi Hfuel Hc Hkc Hb; cbn [read_batch_loop]; destruct (Z.leb_spec (size_ bv) i) as [Hend|Hin].
  1,3: exists batch; split; [done|]; rewrite Htotal; rewrite <- (rank_below f (size_ bv) i) by (lia || done); rewrite Hc; by replace (Z.min c (k + 1024)) with c by lia.
  1: lia.
  pose proof (block_count_bounds (size_ bv)) as Hbb. pose proof (last_block (size_ bv) ltac:(lia)) as Hlast. pose proof (Z.div_le_mono i (size_ bv - 1) 512 ltac:(lia) ltac:(lia)) as Hle. pose proof (index_split i) as Hsp. pose proof (Z.mod_pos_bound i 512 ltac:(lia)) as Hmod. assert (Hi0 : 0 <= i `div` 512) by (apply Z.div_pos; lia).
  cbv zeta. rewrite count_to_end_of_block by lia. cbn [obind]. rewrite IndexToAddress_eq. cbn [block_idx block_offset]. destruct (Z.eqb_spec (rank f (512 * (i `div` 512 + 1))) c) as [Ez|Hne].
  - change kLastBlockOffset with (offset_of 511). rewrite AddressToIndex_spec, u32_small by lia. apply IH; [lia|lia| |done|done]. rewrite <- Ez. f_equal. lia.
  - destruct (get_block (blocks_ bv) (i `div` 512) Hblocks ltac:(lia)) as (b & Eb & Egb & Hbk). rewrite Egb. cbn [obind]. rewrite Block_IsSet_spec by done. cbn [obind]. assert (Ebit : block_bit b (i `mod` 512) = f i) by (rewrite <- Hbits by done; unfold bit; by rewrite Eb). rewrite Ebit. rewrite u32_small by lia. pose proof (rank_succ f i ltac:(lia)) as Hrs. destruct (f i) eqn:Ef; cbn [negb b2z] in *.
    + pose proof (rank_range f i ltac:(lia)). unfold kBatchSize. rewrite (mod_batch k c Hk Hkz Hkc). destruct Hb as [Hbl Hb]. rewrite vec_set_inside by lia. cbn [obind].
      assert (Hb' : batch_holds f k (c + 1) (<[Z.to_nat (c - k) := Some i]> batch)).
      { split; [unfold zlen in *; by rewrite length_insert|]. intros j Hj. destruct (Z.eq_dec j c) as [->|Hnej].
        - exists i. rewrite (mod_batch k c Hk Hkz Hkc), list_lookup_insert_eq by (unfold zlen in Hbl; lia). split; [done|]. split; [lia|done].
        - destruct (Hb j ltac:(lia)) as (i' & Ei' & Hi'). exists i'. split; [|done]. rewrite list_lookup_insert_ne; [done|]. rewrite (mod_batch k j Hk Hkz) by lia. lia. }
      destruct (Z.eqb_spec (c - k) (1024 - 1)) as [E|E].
      * eexists. split; [done|]. replace (Z.min total (k + 1024)) with (c + 1); [done|]. pose proof (rank_mono f (i + 1) (size_ bv) ltac:(lia)). lia.
      * rewrite u32_small by lia. apply IH; [lia|lia|lia|lia|done].
    + apply IH; [lia|lia|lia|done|done].
Qed.
End Batch.

(** ** The loop over the set bits *)

(** The bits [f], without the set bits of an ordinal below [n] that are not to be kept. *)
Definition kept (f : Z -> bool) (keep : Z -> Z -> bool) (n : Z) (i : Z) : bool := f i && (keep (rank f i) i || (n <=? rank f i)).
Section SetBits.
Context (f : Z -> bool) (size : Z) (Hsize : 0 < size < 2 ^ 31) (Htail : forall i, size <= i -> f i = false).
Local Abbreviation total := (rank f size).
(** The iterator is at the set bit [n], or there is none. *)
Record set_bits_inv (g : Z -> bool) (m n : Z) (bv : BitVector) (it : SetBitsIterator) : Prop := {
  sb_base : it_inv f g m bv (base it);
  sb_size : size_ bv = size;
  sb_ordinal : set_bit_index_ it = n /\ 0 <= n;
  sb_total : set_bit_count_ it = total;
  sb_batch : n < total -> batch_holds f (n - n `mod` 1024) (Z.min total (n - n `mod` 1024 + 1024)) (batch_ it);
  sb_index : n < total -> is_nth f n (index_ (base it));
  sb_changed : m <= index_ (base it) + 1
}.
Lemma total_range : 0 <= total <= size.
Proof. apply rank_range. lia. Qed.
Lemma nth_inside n i : is_nth f n i -> 0 <= i < size.
Proof. intros (Hi & Hf & _). split; [done|]. destruct (Z.lt_ge_cases i size) as [|Hge]; [done|]. by rewrite Htail in Hf. Qed.
Lemma batch_get_spec n batch : 0 <= n < total -> batch_holds f (n - n `mod` 1024) (Z.min total (n - n `mod` 1024 + 1024)) batch -> exists i, batch_get batch (n `mod` 1024) = Ok i /\ is_nth f n i.
Proof.
  intros Hn [Hl Hb]. pose proof (Z.mod_pos_bound n 1024 ltac:(lia)). destruct (Hb n ltac:(lia)) as (i & Ei & Hi). exists i. split; [|done]. unfold batch_get. by rewrite (vec_get_Some _ _ _ Ei).
Qed.
(** The next batch, from past the bits that may have changed. *)
Lemma ReadSetBitBatch_spec g m n s bv it : it_inv f g m bv (base it) -> size_ bv = size -> set_bit_index_ it = n -> set_bit_count_ it = total -> zlen (batch_ it) = 1024 -> 0 <= n -> n `mod` 1024 = 0 -> m <= s -> 0 <= s -> index_ (base it) <= s -> rank f s = n -> index_ (base it) < size ->
  exists batch, ReadSetBitBatch s bv it = Ok (mkSetBits (base it) n total batch) /\ batch_holds f n (Z.min total (n + 1024)) batch.
Proof.
  intros (cur & H & Ha & Hb & _) Hsz Hord Htot Hbl Hn Hnz Hm Hs His Hr Hix. pose proof (ic_size H) as [Hszi _]. rewrite Hsz in *. specialize (Hb Hix). unfold ReadSetBitBatch. rewrite Hord, Htot, Hszi. pose proof (Z.div_le_mono (index_ (base it)) s 512 ltac:(lia) ltac:(lia)).
  destruct (read_batch_loop_spec f s bv total Hs ltac:(rewrite Hsz; lia) (ic_blocks H) (ic_lengths H) (ic_room H)) with (k := n) (fuel := Z.to_nat size) (i := s) (c := n) (batch := batch_ it) as (batch & E & Hbatch).
  - intros i Hi. apply (ic_rest H). lia.
  - intros k c Hk Hc. assert (0 <= s `div` 512) by (apply Z.div_pos; lia). rewrite (ic_counts H k c) by (done || lia). destruct (Z.leb_spec k cur); [lia|done].
  - intros i Hi. apply Htail. lia.
  - by rewrite Hsz.
  - done.
  - done.
  - lia.
  - rewrite Hsz. lia.
  - done.
  - lia.
  - split; [done|]. intros j Hj. lia.
  - rewrite Hsz in E. rewrite E. cbn [obind]. by exists batch.
Qed.
Lemma set_bits_index_spec g m n i bv it : it_inv f g m bv (base it) -> size_ bv = size -> index_ (base it) <= i -> m <= i -> is_nth f n i -> set_bit_index_ it = n -> 0 <= n -> set_bit_count_ it = total -> batch_holds f (n - n `mod` 1024) (Z.min total (n - n `mod` 1024 + 1024)) (batch_ it) ->
  exists bv' it', set_bits_index i bv it = Ok (bv', it') /\ set_bits_inv g i n bv' it'.
Proof.
  intros H Hsz Hle Hm Hi Hord Hn Htot Hb. pose proof (nth_inside n i Hi). destruct (SetIndex_spec f g m bv (base it) H ltac:(lia) i Hm ltac:(lia)) as (bv' & b & E & Ei & Es & Hb'). unfold set_bits_index. rewrite E. cbn [obind]. eexists _, _. split; [done|]. split; cbn [base set_bit_index_ set_bit_count_ batch_]; [done|congruence|done|done|done|by rewrite Ei|lia].
Qed.
Lemma SetBitsIterator_new_spec bv : bv_ok bv -> size_ bv = size -> (forall i, 0 <= i -> bit (blocks_ bv) i = f i) -> exists bv' it m, SetBitsIterator_new bv = Ok (bv', it) /\ set_bits_inv f m 0 bv' it /\ m <= index_ (base it).
Proof.
  intros Hok Hsz Hbit. destruct (BaseIterator_new_spec bv Hok ltac:(lia)) as (b & Eb & Ei & Hb). pose proof Hok as [Hinv _]. unfold SetBitsIterator_new. rewrite Eb. cbn [obind]. rewrite CountSetBits_spec by done. cbn [obind]. rewrite Hsz, (rank_ext _ f size) by (intros i Hi; apply Hbit; lia).
  assert (H0 : it_inv f f 0 bv b).
  { destruct Hb as (cur & H & Ha). exists cur. split; [|done]. assert (Hr : forall n, rank (bit (blocks_ bv)) n = rank f n) by (intros n; apply rank_ext; intros i Hi; apply Hbit; lia). apply (it_core_ext f (bit (blocks_ bv)) f); [intros i Hi; by rewrite Hbit|]. split; try apply H.
    - intros k c Hk Hc. rewrite (ic_counts H k c Hk Hc), Hr. done.
    - rewrite (ic_diff H). by rewrite !Hr.
    - intros i Hi. by rewrite <- Hbit by done.
    - intros i Hi. rewrite Hbit by lia. split; apply Htail; lia. }
  destruct (Z.ltb_spec 0 total) as [Hpos|Hz].
  - destruct (ReadSetBitBatch_spec f 0 0 0 bv (mkSetBits b 0 total (replicate (Z.to_nat kBatchSize) None))) as (batch & Er & Hbatch); cbn [base]; try done; try lia.
    rewrite Er. cbn [obind batch_]. destruct (batch_get_spec 0 batch ltac:(lia) Hbatch) as (i & Eg & Hi). change (0 `mod` 1024) with 0 in Eg. rewrite Eg. cbn [obind]. pose proof (nth_inside 0 i Hi). destruct (set_bits_index_spec f 0 0 i bv (mkSetBits b 0 total batch)) as (bv' & it' & E & H'); cbn [base]; try done; try lia.
    exists bv', it', i. split; [done|]. split; [done|]. pose proof (sb_index _ _ _ _ _ H' ltac:(lia)) as Hi'. rewrite (is_nth_unique f 0 _ _ Hi' Hi). lia.
  - eexists _, _, 0. split; [done|]. split; [|cbn; lia]. split; cbn [base set_bit_index_ set_bit_count_ batch_]; [done|done|lia|done|lia|lia|lia].
Qed.
Lemma SetBits_Next_spec g m n bv it : set_bits_inv g m n bv it -> n < total -> exists bv' it', SetBits_Next bv it = Ok (bv', it') /\ (exists m', set_bits_inv g m' (n + 1) bv' it' /\ (n + 1 < total -> m' <= index_ (base it'))).
Proof.
  intros H Hn. pose proof (sb_ordinal _ _ _ _ _ H) as [Hord Hn0]. pose proof total_range as Ht. pose proof (sb_batch _ _ _ _ _ H Hn) as Hb. pose proof (sb_index _ _ _ _ _ H Hn) as Hi. pose proof (sb_changed _ _ _ _ _ H) as Hm. pose proof (nth_inside n _ Hi) as Hin. unfold SetBits_Next. cbn [base set_bit_index_ set_bit_count_ batch_]. rewrite Hord, (u32_small (n + 1)), (sb_total _ _ _ _ _ H) by lia.
  destruct (Z.leb_spec total (n + 1)) as [Hend|Hmore].
  - eexists _, _. split; [done|]. exists m. split; [|lia]. split; cbn [base set_bit_index_ set_bit_count_ batch_]; [apply H|apply H|lia|done|lia|lia|done].
  - pose proof Hi as (Hi0 & Hfi & Hri). assert (Hnext : rank f (index_ (base it) + 1) = n + 1) by (rewrite rank_succ, Hfi by lia; cbn; lia).
    assert (Hread : exists batch, (if (n + 1) `mod` kBatchSize =? 0 then let! last := batch_get (batch_ it) (kBatchSize - 1) in ReadSetBitBatch (u32 (last + 1)) bv (mkSetBits (base it) (n + 1) total (batch_ it)) else Ok (mkSetBits (base it) (n + 1) total (batch_ it))) = Ok (mkSetBits (base it) (n + 1) total batch) /\
      batch_holds f (n + 1 - (n + 1) `mod` 1024) (Z.min total (n + 1 - (n + 1) `mod` 1024 + 1024)) batch).
    { unfold kBatchSize. pose proof (Z.div_mod n 1024 ltac:(lia)) as Hd. pose proof (Z.mod_pos_bound n 1024 ltac:(lia)) as Hmb. destruct (Z.eqb_spec ((n + 1) `mod` 1024) 0) as [Ez|Ez].
      - assert (Em : n `mod` 1024 = 1023) by (pose proof (Z.div_mod (n + 1) 1024 ltac:(lia)); lia). destruct (batch_get_spec n (batch_ it) ltac:(lia) Hb) as (i & Eg & Hi2). rewrite Em in Eg. change (1024 - 1) with 1023. rewrite Eg. cbn [obind]. rewrite (is_nth_unique f n i _ Hi2 Hi), u32_small by lia.
        destruct (ReadSetBitBatch_spec g m (n + 1) (index_ (base it) + 1) bv (mkSetBits (base it) (n + 1) total (batch_ it))) as (batch & Er & Hbatch); cbn [base set_bit_index_ set_bit_count_ batch_]; try done; try lia; [apply H|apply H|apply Hb|]. exists batch. split; [done|]. rewrite Ez. by rewrite Z.sub_0_r.
      - assert (Em : (n + 1) `mod` 1024 = n `mod` 1024 + 1).
        { symmetry. apply (Z.mod_unique_pos _ _ (n `div` 1024)); [|lia]. destruct (Z.eq_dec (n `mod` 1024) 1023) as [E|]; [|lia]. exfalso. apply Ez. symmetry. apply (Z.mod_unique_pos _ _ (n `div` 1024 + 1)); lia. }
        eexists. split; [done|]. rewrite Em. by replace (n + 1 - (n `mod` 1024 + 1)) with (n - n `mod` 1024) by lia. }
    destruct Hread as (batch & -> & Hbatch). cbn [obind batch_ set_bit_index_]. destruct (batch_get_spec (n + 1) batch ltac:(lia) Hbatch) as (j & Eg & Hj). unfold kBatchSize. rewrite Eg. cbn [obind]. pose proof (is_nth_order f n (n + 1) _ j Hi Hj ltac:(lia)) as Hlt.
    destruct (set_bits_index_spec g m (n + 1) j bv (mkSetBits (base it) (n + 1) total batch)) as (bv' & it' & E & H'); cbn [base set_bit_index_ set_bit_count_ batch_]; try done; try lia; [apply H|apply H|]. exists bv', it'. split; [done|]. exists j. split; [done|]. intros Hlt'. pose proof (sb_index _ _ _ _ _ H' Hlt') as Hj'. rewrite (is_nth_unique f _ _ _ Hj' Hj). lia.
Qed.
End SetBits.
Section ForSetBits.
Context {S : Type} (body : SetBitsIterator -> S -> outcome (SetBitsIterator * S)) (keep : Z -> Z -> bool) (Inv : Z -> S -> Prop) (f : Z -> bool).
(** The body clears the bits that are not to be kept, and does what it wants to its state. *)
Context (Hbody : forall n i it s, Inv n s -> is_nth f n i -> SetBits_ordinal it = n -> SetBits_index it = i -> exists s', body it s = (let! it := if keep n i then Ok it else SetBits_Clear it in Ok (it, s')) /\ Inv (n + 1) s').
Lemma kept_start i : 0 <= i -> kept f keep 0 i = f i.
Proof. intros Hi. unfold kept. pose proof (rank_range f i Hi). destruct (Z.leb_spec 0 (rank f i)); [|lia]. by rewrite orb_true_r, andb_true_r. Qed.
Lemma kept_next n i j : is_nth f n i -> 0 <= j -> kept f keep (n + 1) j = if j =? i then keep n i else kept f keep n j.
Proof.
  intros Hi Hj. pose proof Hi as (H0 & Hf & Hr). unfold kept. destruct (Z.eqb_spec j i) as [->|Hne].
  - rewrite Hf, Hr. destruct (Z.leb_spec (n + 1) n); [lia|]. by rewrite orb_false_r.
  - destruct (f j) eqn:Ej; [|done]. cbn [andb]. destruct (Z.leb_spec (n + 1) (rank f j)), (Z.leb_spec n (rank f j)); try done; try lia. exfalso. apply Hne, (is_nth_unique f n); [|done]. split; [done|]. split; [done|lia].
Qed.
Lemma set_bits_loop_spec size : 0 < size < 2 ^ 31 -> (forall i, size <= i -> f i = false) -> forall fuel n m bv it s, (Z.to_nat (rank f size - n) <= fuel)%nat -> set_bits_inv f size (kept f keep n) m n bv it -> (n < rank f size -> m <= index_ (base it)) -> Inv n s -> n <= rank f size ->
  exists bv' s', set_bits_loop fuel body bv it s = Ok (bv', s') /\ Inv (rank f size) s' /\ becomes bv' size (fun i => f i && keep (rank f i) i).
Proof.
  intros Hsize Htail. induction fuel as [|fuel IH]; intros n m bv it s Hfuel H Hm Hs Hn; pose proof (sb_ordinal _ _ _ _ _ _ _ H) as [Hord Hn0]; cbn [set_bits_loop]; unfold SetBits_valid; rewrite Hord, (sb_total _ _ _ _ _ _ _ H); destruct (Z.ltb_spec n (rank f size)) as [Hlt|Hge].
  1: lia.
  1,3: destruct (BaseIterator_destroy_spec _ _ _ _ _ (sb_base _ _ _ _ _ _ _ H)) as (bv' & E & Hb); rewrite E; cbn [obind]; exists bv', s; split; [done|]; assert (n = rank f size) as -> by lia; split; [done|]; rewrite (sb_size _ _ _ _ _ _ _ H) in Hb; eapply becomes_ext; [|exact Hb]; intros i Hi; unfold kept; destruct (f i) eqn:Ef; [|done]; cbn [andb];
    destruct (Z.lt_ge_cases i size); [|by rewrite Htail in Ef]; pose proof (is_nth_lt f (rank f i) i size ltac:(done) ltac:(lia)); destruct (Z.leb_spec (rank f size) (rank f i)); [lia|by rewrite orb_false_r].
  pose proof (sb_index _ _ _ _ _ _ _ H Hlt) as Hi. pose proof (nth_inside f size Htail n _ Hi) as Hin. destruct (Hbody n _ it s Hs Hi Hord eq_refl) as (s' & Eb & Hs'). rewrite Eb.
  assert (Hstep : exists it', (if keep n (index_ (base it)) then Ok it else SetBits_Clear it) = Ok it' /\ set_bits_inv f size (kept f keep (n + 1)) (index_ (base it) + 1) n bv it').
  { assert (Hg : kept f keep n (index_ (base it)) = true) by (destruct Hi as (_ & Hf & Hr); unfold kept; rewrite Hf, Hr, Z.leb_refl; by rewrite orb_true_r). assert (Hbase : index_ (base it) < size_ bv) by (rewrite (sb_size _ _ _ _ _ _ _ H); lia). specialize (Hm Hlt). destruct (keep n (index_ (base it))) eqn:Ek.
    - exists it. split; [done|]. split; try apply H; [|lia]. apply (it_inv_ext f (fun i => if i =? index_ (base it) then true else kept f keep n i)); [|apply (unchanged_spec f _ m); [apply H|lia|lia|done]]. intros i Hi'. rewrite (kept_next n _ i Hi Hi'), Ek. done.
    - destruct (it_Clear_spec f _ m bv (base it) (sb_base _ _ _ _ _ _ _ H) Hbase ltac:(lia)) as (b & Ec & Eib & Hb). unfold SetBits_Clear. rewrite Ec. cbn [obind]. eexists. split; [done|]. split; cbn [base set_bit_index_ set_bit_count_ batch_]; try apply H; [|rewrite Eib; apply H|lia].
      eapply it_inv_ext; [|exact Hb]. intros i Hi'. rewrite (kept_next n _ i Hi Hi'), Ek. done. }
  destruct Hstep as (it' & -> & H'). cbn [obind]. destruct (SetBits_Next_spec f size Hsize Htail _ _ _ _ _ H' Hlt) as (bv2 & it2 & En & m2 & H2 & Hm2). rewrite En. cbn [obind]. apply (IH (n + 1) m2); [lia|done|done|done|lia].
Qed.
Lemma for_set_bits_spec bv s : bv_ok bv -> size_ bv < 2 ^ 31 -> (forall i, 0 <= i -> bit (blocks_ bv) i = f i) -> Inv 0 s -> exists bv' s', for_set_bits body bv s = Ok (bv', s') /\ Inv (rank f (size_ bv)) s' /\ becomes bv' (size_ bv) (fun i => f i && keep (rank f i) i).
Proof.
  intros Hok Hs Hbit Hi. pose proof Hok as [Hinv _]. pose proof (bi_size _ Hinv) as Hs0. assert (Htail : forall i, size_ bv <= i -> f i = false) by (intros i Hi'; rewrite <- Hbit by lia; by apply (bi_tail _ Hinv)). destruct (Z.eq_dec (size_ bv) 0) as [Ez|Hne].
  - unfold for_set_bits, SetBitsIterator_new, BaseIterator_new, CountSetBits, CountSetBits_until. rewrite Ez. cbn. exists bv, s. rewrite rank_0 by lia. split; [done|]. split; [done|]. split; [done|]. split; [done|]. intros i Hi'. rewrite Hbit, Htail by lia. done.
  - destruct (SetBitsIterator_new_spec f (size_ bv) ltac:(lia) Htail bv Hok eq_refl Hbit) as (bv1 & it & m & E & H & Hm). unfold for_set_bits. rewrite E. cbn [obind]. rewrite (sb_total _ _ _ _ _ _ _ H). pose proof (total_range f (size_ bv) ltac:(lia)). apply (set_bits_loop_spec (size_ bv) ltac:(lia) Htail _ 0 m); [lia| |done|done|lia].
    split; try apply H. eapply it_inv_ext; [|apply H]. intros i Hi'. by apply kept_start.
Qed.
End ForSetBits.

(** ** The loop over all bits *)

(** What the loop does at a bit: set it, clear it, or leave it. *)
Definition write_bit (w : option bool) (it : BaseIterator) : outcome BaseIterator := match w with Some true => it_Set it | Some false => it_Clear it | None => Ok it end.
Definition written (f : Z -> bool) (w : Z -> option bool) (n i : Z) : bool := if i <? n then default (f i) (w i) else f i.
Lemma write_bit_at f w m bv it : it_inv f (written f w (index_ it)) m bv it -> index_ it < size_ bv -> m <= index_ it + 1 -> exists it', write_bit (w (index_ it)) it = Ok it' /\ index_ it' = index_ it /\ it_inv f (written f w (index_ it + 1)) (index_ it + 1) bv it'.
Proof.
  intros H Hi Hm. assert (Hnext : forall i, 0 <= i -> written f w (index_ it + 1) i = if i =? index_ it then default (f i) (w i) else written f w (index_ it) i) by (intros i _; unfold written; destruct (Z.ltb_spec i (index_ it + 1)), (Z.ltb_spec i (index_ it)), (Z.eqb_spec i (index_ it)); try done; lia).
  assert (Hcur : written f w (index_ it) (index_ it) = f (index_ it)) by (unfold written; destruct (Z.ltb_spec (index_ it) (index_ it)); [lia|done]). destruct (w (index_ it)) as [[]|] eqn:Ew; cbn [write_bit].
  - destruct (it_Set_spec _ _ _ _ _ H Hi Hm) as (it' & E & Ei & H'). exists it'. split; [done|]. split; [done|]. eapply it_inv_ext; [|exact H']. intros i Hi'. rewrite Hnext by done. destruct (Z.eqb_spec i (index_ it)) as [->|]; [by rewrite Ew|done].
  - destruct (it_Clear_spec _ _ _ _ _ H Hi Hm) as (it' & E & Ei & H'). exists it'. split; [done|]. split; [done|]. eapply it_inv_ext; [|exact H']. intros i Hi'. rewrite Hnext by done. destruct (Z.eqb_spec i (index_ it)) as [->|]; [by rewrite Ew|done].
  - exists it. split; [done|]. split; [done|]. eapply it_inv_ext; [|apply (unchanged_spec f _ m bv it H Hi (f (index_ it)) Hm Hcur)]. intros i Hi'. rewrite Hnext by done. destruct (Z.eqb_spec i (index_ it)) as [->|]; [by rewrite Ew|done].
Qed.
Lemma AllBits_Next_spec f g bv it : it_inv f g (index_ it + 1) bv it -> index_ it < size_ bv -> exists bv' it', AllBits_Next bv it = Ok (bv', it') /\ index_ it' = index_ it + 1 /\ size_ bv' = size_ bv /\ it_inv f g (index_ it + 1) bv' it'.
Proof.
  intros H Hi. destruct (current_block _ _ _ _ _ H Hi) as (cur & Hc & Ecur & H0). pose proof (ic_size Hc) as [Hsz Hs]. unfold AllBits_Next. rewrite u32_small by lia. destruct (Z.eq_dec (index_ it + 1) (size_ bv)) as [E|Hne].
  - unfold SetIndex. change (it_size_ (set_index _ it)) with (it_size_ it). rewrite Hsz. destruct (Z.leb_spec (size_ bv) (index_ it + 1)); [|lia]. eexists _, _. split; [done|]. split; [done|]. split; [done|]. exists cur. split; [split; apply Hc|]. pose proof (ic_room Hc) as Hroom. pose proof (last_block (size_ bv) ltac:(lia)) as Hlast. split_and!; cbn; [lia|lia|lia|].
    intros _. replace (index_ it) with (size_ bv - 1) in Ecur by lia. lia.
  - by apply (SetIndex_spec f g (index_ it + 1)); [..|lia|lia].
Qed.
Lemma all_bits_loop_spec f w bv it fuel m : it_inv f (written f w (index_ it)) m bv it -> m <= index_ it -> (Z.to_nat (size_ bv - index_ it) <= fuel)%nat ->
  exists bv', all_bits_loop fuel (fun it (s : unit) => let! it := write_bit (w (index_ it)) it in Ok (it, s)) bv it tt = Ok (bv', tt) /\ becomes bv' (size_ bv) (fun i => if i <? size_ bv then default (f i) (w i) else false).
Proof.
  revert bv it m. induction fuel as [|fuel IH]; intros bv it m H Hm Hfuel; pose proof H as (cur & Hc & Ha & _); pose proof (ic_size Hc) as [Hsz Hs]; cbn [all_bits_loop]; unfold AllBits_valid; rewrite Hsz; destruct (Z.ltb_spec (index_ it) (size_ bv)) as [Hlt|Hge].
  1: lia.
  1,3: destruct (BaseIterator_destroy_spec _ _ _ _ _ H) as (bv' & E & Hb); rewrite E; exists bv'; split; [done|]; eapply becomes_ext; [|exact Hb]; intros i Hi; unfold written; assert (index_ it = size_ bv) as -> by lia; destruct (Z.ltb_spec i (size_ bv)); [done|]; apply (ic_tail Hc); lia.
  destruct (write_bit_at f w m bv it H Hlt ltac:(lia)) as (it1 & E1 & Ei1 & H1). rewrite E1. cbn [obind]. destruct (AllBits_Next_spec f (written f w (index_ it + 1)) bv it1) as (bv2 & it2 & E2 & Ei2 & Es2 & H2); [by rewrite Ei1|by rewrite Ei1|]. rewrite E2. cbn [obind]. rewrite Ei1 in *. rewrite <- Es2. apply (IH bv2 it2 (index_ it + 1)); [by rewrite Ei2|lia|rewrite Es2, Ei2; lia].
Qed.
Lemma for_all_bits_spec w bv : bv_ok bv -> 0 < size_ bv < 2 ^ 31 -> exists bv', for_all_bits (fun it (s : unit) => let! it := write_bit (w (index_ it)) it in Ok (it, s)) bv tt = Ok (bv', tt) /\ becomes bv' (size_ bv) (fun i => if i <? size_ bv then default (bit (blocks_ bv) i) (w i) else false).
Proof.
  intros Hok Hs. destruct (BaseIterator_new_spec bv Hok Hs) as (it & E & Ei & H). unfold for_all_bits. rewrite E. cbn [obind]. pose proof H as (cur & Hc & _). pose proof (ic_size Hc) as [Hsz _]. rewrite Hsz. apply (all_bits_loop_spec _ _ _ _ _ 0); [|lia|lia]. eapply it_inv_ext; [|exact H]. intros i Hi. rewrite Ei. unfold written. destruct (Z.ltb_spec i 0); [lia|done].
Qed.
(** Skipping to the end from an earlier block, which the precondition of Skip allows, leaves
    the iterator with the old block cached: the destructor writes it over the last block. *)
Lemma skip_to_the_end_moves_the_block :
  (let! bv := BitVector_filled 1024 false in
   let! it := BaseIterator_new bv in
   let! it := it_Set it in
   let! (bv, it) := AllBits_Skip 1024 bv it in
   let! bv := BaseIterator_destroy bv it in
   let! first := IsSet 0 bv in
   let! moved := IsSet 512 bv in
   Ok (first, moved)) = Ok (false, true).
Proof. vm_compute. reflexivity. Qed.

(** ** Iterating without changes *)

(** An iterator through which nothing was changed leaves the vector as it is, so the const
    methods that iterate do not change it. *)
Definition untouched (it : BaseIterator) : Prop := is_block_changed_ it = false /\ set_bit_count_diff_ it = 0.
Lemma OnBlockChange_untouched o n bv it bv' it' : untouched it -> OnBlockChange o n bv it = Ok (bv', it') -> bv' = bv /\ untouched it'.
Proof.
  intros [Hc Hd] E. unfold OnBlockChange in E. rewrite Hc, Hd in E. cbn [obind Z.eqb negb] in E. destruct (vec_get (blocks_ bv) n) as [b|]; cbn [obind] in E; [|done]. injection E as <- <-. split; [by destruct bv|]. by split.
Qed.
Lemma SetIndex_untouched j bv it bv' it' : untouched it -> SetIndex j bv it = Ok (bv', it') -> bv' = bv /\ untouched it'.
Proof.
  intros Hu E. unfold SetIndex in E. destruct (_ <=? j); [injection E as <- <-; split; [done|exact Hu]|]. destruct (_ =? _); [injection E as <- <-; split; [done|exact Hu]|]. eapply OnBlockChange_untouched; [|exact E]. exact Hu.
Qed.
Lemma set_bits_index_untouched j bv it bv' it' : untouched (base it) -> set_bits_index j bv it = Ok (bv', it') -> bv' = bv /\ untouched (base it').
Proof. intros Hu E. unfold set_bits_index in E. destruct (SetIndex j bv (base it)) as [[bv1 b]|] eqn:Es; [|done]. cbn [obind] in E. injection E as <- <-. by eapply SetIndex_untouched. Qed.
Lemma ReadSetBitBatch_base s bv it it' : ReadSetBitBatch s bv it = Ok it' -> base it' = base it.
Proof. unfold ReadSetBitBatch. destruct (read_batch_loop _ _ _ _ _ _ _) as [b|]; [|done]. by intros [= <-]. Qed.
Lemma SetBits_Next_untouched bv it bv' it' : untouched (base it) -> SetBits_Next bv it = Ok (bv', it') -> bv' = bv /\ untouched (base it').
Proof.
  intros Hu E. unfold SetBits_Next in E. cbn [set_bit_count_ set_bit_index_ batch_] in E. destruct (_ <=? _); [by injection E as <- <-|]. destruct (_ `mod` kBatchSize =? 0).
  - destruct (batch_get _ (kBatchSize - 1)) as [last|]; cbn [obind] in E; [|done]. destruct (ReadSetBitBatch _ bv _) as [it1|] eqn:Er; cbn [obind] in E; [|done]. apply ReadSetBitBatch_base in Er. cbn [base] in Er. destruct (batch_get (batch_ it1) _) as [i|]; cbn [obind] in E; [|done]. apply set_bits_index_untouched in E; [done|by rewrite Er].
  - cbn [obind] in E. destruct (batch_get _ _) as [i|]; cbn [obind] in E; [|done]. by apply set_bits_index_untouched in E.
Qed.
Lemma BaseIterator_destroy_untouched bv it bv' : untouched it -> BaseIterator_destroy bv it = Ok bv' -> bv' = bv.
Proof.
  intros Hu E. unfold BaseIterator_destroy in E. destruct (0 <? it_size_ it); [|by injection E]. cbv zeta in E. destruct (OnBlockChange _ _ bv it) as [[bv1 it1]|] eqn:Eo; cbn [obind] in E; [|done]. injection E as <-. by eapply OnBlockChange_untouched.
Qed.
Lemma BaseIterator_new_untouched bv b : BaseIterator_new bv = Ok b -> untouched b.
Proof. unfold BaseIterator_new. destruct (if 0 <? size_ bv then _ else _); cbn [obind]; [|done]. by intros [= <-]. Qed.
Section ReadOnly.
Context {S : Type} (body : SetBitsIterator -> S -> outcome (SetBitsIterator * S)) (Hbody : forall it s it' s', body it s = Ok (it', s') -> it' = it).
Lemma set_bits_loop_untouched fuel bv it s bv' s' : untouched (base it) -> set_bits_loop fuel body bv it s = Ok (bv', s') -> bv' = bv.
Proof.
  revert bv it s. induction fuel as [|fuel IH]; intros bv it s Hu E; cbn [set_bits_loop] in E; destruct (SetBits_valid it); try done.
  1,3: destruct (BaseIterator_destroy bv (base it)) as [bv1|] eqn:Ed; cbn [obind] in E; [|done]; injection E as <- <-; by eapply BaseIterator_destroy_untouched.
  destruct (body it s) as [[it1 s1]|] eqn:Eb; cbn [obind] in E; [|done]. apply Hbody in Eb as ->. destruct (SetBits_Next bv it) as [[bv1 it2]|] eqn:En; cbn [obind] in E; [|done]. apply SetBits_Next_untouched in En as [-> Hu2]; [|done]. by eapply IH.
Qed.
Lemma for_set_bits_read_only bv s bv' s' : for_set_bits body bv s = Ok (bv', s') -> bv' = bv.
Proof.
  unfold for_set_bits, SetBitsIterator_new. destruct (BaseIterator_new bv) as [b|] eqn:Eb; cbn [obind]; [|done]. apply BaseIterator_new_untouched in Eb. destruct (CountSetBits bv) as [count|]; cbn [obind]; [|done]. destruct (0 <? count); cbn [obind]; [|by apply set_bits_loop_untouched].
  destruct (ReadSetBitBatch 0 bv _) as [it|] eqn:Er; cbn [obind]; [|done]. apply ReadSetBitBatch_base in Er. cbn [base] in Er. destruct (batch_get _ 0) as [i|]; cbn [obind]; [|done]. destruct (set_bits_index i bv it) as [[bv1 it1]|] eqn:Es; cbn [obind]; [|done]. apply set_bits_index_untouched in Es as [-> Hu]; [|by rewrite Er]. by apply set_bits_loop_untouched.
Qed.
End ReadOnly.
