(* ===== verification/RowMap.v ===== *)
(** * Row maps

    trace_processor/containers/row_map.h and .cc, row_map_algorithms.h: a list of row
    indices stored as a range, a bit vector or a vector of indices. All fields are kept in
    every mode, as in the class. Bodies of loops over the set bits run with the iterators of
    BitVectorIterators. *)

From S2P Require Import Prelude StdAlgorithms BitVector BitVectorIterators.

Local Open Scope cpp_scope.

(** ** State *)

Inductive Mode := kRange | kBitVector | kIndexVector.
Inductive OptimizeFor := kMemory | kLookupSpeed.
Record RowMap := mkRowMap { mode_ : Mode; start_index_ : Z; end_index_ : Z; bit_vector_ : BitVector; index_vector_ : list Z; optimize_for_ : OptimizeFor }.
Definition RowMap_range (start end_ : Z) (optimize_for : OptimizeFor) : RowMap := mkRowMap kRange start end_ BitVector_new [] optimize_for.
Definition RowMap_new : RowMap := RowMap_range 0 0 kMemory.
Definition RowMap_bits (bit_vector : BitVector) : RowMap := mkRowMap kBitVector 0 0 bit_vector [] kMemory.
Definition RowMap_indices (vec : list Z) : RowMap := mkRowMap kIndexVector 0 0 BitVector_new vec kMemory.
Definition SingleRow (index : Z) : RowMap := RowMap_range index (u32 (index + 1)) kMemory.
(** The copy of a range forgets what it was optimised for. *)
Definition Copy (rm : RowMap) : RowMap :=
  match mode_ rm with
  | kRange => RowMap_range (start_index_ rm) (end_index_ rm) kMemory
  | kBitVector => RowMap_bits (bit_vector_ rm)
  | kIndexVector => RowMap_indices (index_vector_ rm)
  end.
Definition IsRange (rm : RowMap) : bool := match mode_ rm with kRange => true | _ => false end.

(** ** Queries *)

Definition rm_size (rm : RowMap) : outcome Z :=
  match mode_ rm with
  | kRange => Ok (u32 (end_index_ rm - start_index_ rm))
  | kBitVector => CountSetBits (bit_vector_ rm)
  | kIndexVector => Ok (u32 (zlen (index_vector_ rm)))
  end.
Definition rm_empty (rm : RowMap) : outcome bool := let! n := rm_size rm in Ok (n =? 0).
Definition GetRange (row : Z) (rm : RowMap) : outcome Z := Ok (u32 (start_index_ rm + row)).
Definition GetBitVector (row : Z) (rm : RowMap) : outcome Z := IndexOfNthSet row (bit_vector_ rm).
Definition GetIndexVector (row : Z) (rm : RowMap) : outcome Z := vec_get (index_vector_ rm) row.
Definition Get (row : Z) (rm : RowMap) : outcome Z :=
  match mode_ rm with kRange => GetRange row rm | kBitVector => GetBitVector row rm | kIndexVector => GetIndexVector row rm end.
(** std::find: the place of the first equal element. *)
Fixpoint find_index (l : list Z) (i : Z) : option nat :=
  match l with [] => None | x :: l => if x =? i then Some O else S <$> find_index l i end.
Definition Contains (index : Z) (rm : RowMap) : outcome bool :=
  match mode_ rm with
  | kRange => Ok ((start_index_ rm <=? index) && (index <? end_index_ rm))
  | kBitVector => if index <? size_ (bit_vector_ rm) then IsSet index (bit_vector_ rm) else Ok false
  | kIndexVector => Ok (match find_index (index_vector_ rm) index with Some _ => true | None => false end)
  end.
Definition RowOf (index : Z) (rm : RowMap) : outcome (option Z) :=
  match mode_ rm with
  | kRange => Ok (if (index <? start_index_ rm) || (end_index_ rm <=? index) then None else Some (u32 (index - start_index_ rm)))
  | kBitVector =>
      let! b := if index <? size_ (bit_vector_ rm) then IsSet index (bit_vector_ rm) else Ok false in
      if b then let! n := CountSetBits_until index (bit_vector_ rm) in Ok (Some n) else Ok None
  | kIndexVector => Ok ((fun k => u32 (Z.of_nat k)) <$> find_index (index_vector_ rm) index)
  end.

(** ** Insertion *)

Definition set_bit_vector (bv : BitVector) (rm : RowMap) : RowMap := mkRowMap (mode_ rm) (start_index_ rm) (end_index_ rm) bv (index_vector_ rm) (optimize_for_ rm).
Definition InsertIntoBitVector (row : Z) (rm : RowMap) : outcome RowMap :=
  if row =? size_ (bit_vector_ rm) then
    let! bv := AppendTrue (bit_vector_ rm) in
    Ok (set_bit_vector bv rm)
  else
    let! bv := if size_ (bit_vector_ rm) <? row then Resize (u32 (row + 1)) false (bit_vector_ rm) else Ok (bit_vector_ rm) in
    let! (_, bv) := Set_ row bv in
    Ok (set_bit_vector bv rm).
Definition Insert (index : Z) (rm : RowMap) : outcome RowMap :=
  match mode_ rm with
  | kRange =>
      if index =? end_index_ rm then Ok (mkRowMap kRange (start_index_ rm) (u32 (end_index_ rm + 1)) (bit_vector_ rm) (index_vector_ rm) (optimize_for_ rm))
      else
        let! bv := Resize (start_index_ rm) false (bit_vector_ rm) in
        let! bv := Resize (end_index_ rm) true bv in
        InsertIntoBitVector index (RowMap_bits bv)
  | kBitVector => InsertIntoBitVector index rm
  | kIndexVector =>
      let it := upper_bound Z.ltb (index_vector_ rm) index in
      Ok (mkRowMap kIndexVector (start_index_ rm) (end_index_ rm) (bit_vector_ rm) (take it (index_vector_ rm) ++ index :: drop it (index_vector_ rm)) (optimize_for_ rm))
  end.

(** ** Selection *)

(** A vector filled from its first to its last element. *)
Definition fill (first last : Z) (f : Z -> outcome Z) : outcome (list Z) :=
  for_loop first last (fun i ret => let! x := f i in vec_set ret (i - first) x) (replicate (Z.to_nat (last - first)) 0).
Definition algo_SelectIvWithIv (iv selector : list Z) : outcome (list Z) := fill 0 (zlen selector) (fun i => let! s := vec_get selector i in vec_get iv s).
(** The indices of all set bits, by the iterator. *)
Definition convert_to_iv (bv : BitVector) : outcome (list Z) :=
  let! count := CountSetBits bv in
  let! (_, bv_conv) := for_set_bits (fun it bv_conv => let! bv_conv := vec_set bv_conv (SetBits_ordinal it) (SetBits_index it) in Ok (it, bv_conv)) bv (replicate (Z.to_nat count) 0) in
  Ok bv_conv.
Definition SelectBvWithIvByConvertToIv (bv : BitVector) (selector : list Z) : outcome (list Z) := let! bv_conv := convert_to_iv bv in algo_SelectIvWithIv bv_conv selector.
Definition SelectBvWithIvByIndexOfNthSet (bv : BitVector) (selector : list Z) : outcome (list Z) := fill 0 (zlen selector) (fun i => let! s := vec_get selector i in IndexOfNthSet s bv).
Definition SelectRangeWithRange (start end_ selector_start selector_end : Z) : outcome RowMap := Ok (RowMap_range (u32 (start + selector_start)) (u32 (start + selector_end)) kMemory).
Definition SelectRangeWithBv (start end_ : Z) (selector : BitVector) : outcome RowMap :=
  if start =? 0 then Ok (RowMap_bits selector)
  else
    let! bv := BitVector_filled start false in
    let! bv := Resize (u32 (start + size_ selector)) true bv in
    let! bv := UpdateSetBits selector bv in
    Ok (RowMap_bits bv).
Definition SelectRangeWithIv (start end_ : Z) (selector : list Z) : outcome RowMap :=
  let! iv := fill 0 (zlen selector) (fun i => let! s := vec_get selector i in Ok (u32 (s + start))) in
  Ok (RowMap_indices iv).
Definition SelectBvWithRange (bv : BitVector) (selector_start selector_end : Z) : outcome RowMap :=
  let ret := bv in
  let! count := CountSetBits bv in
  if (selector_start =? 0) && (selector_end =? count) then Ok (RowMap_bits ret)
  else
    let! (ret, _) := for_set_bits (fun it s =>
      let set_idx := SetBits_ordinal it in
      let! it := if (set_idx <? selector_start) || (selector_end <=? set_idx) then SetBits_Clear it else Ok it in
      Ok (it, s)) ret tt in
    Ok (RowMap_bits ret).
Definition SelectBvWithBv (bv selector : BitVector) : outcome RowMap := let! ret := UpdateSetBits selector bv in Ok (RowMap_bits ret).
Definition kIndexOfSetBitToSelectorRatio : Z := 4.
Definition SelectBvWithIv (bv : BitVector) (selector : list Z) : outcome RowMap :=
  let! count := CountSetBits bv in
  let! iv := if count `div` kIndexOfSetBitToSelectorRatio <? zlen selector then SelectBvWithIvByConvertToIv bv selector else SelectBvWithIvByIndexOfNthSet bv selector in
  Ok (RowMap_indices iv).
Definition SelectIvWithRange (iv : list Z) (selector_start selector_end : Z) : outcome RowMap :=
  let! ret := fill selector_start selector_end (vec_get iv) in
  Ok (RowMap_indices ret).
(** std::remove_if with the counting predicate. *)
Fixpoint remove_unset (idx : Z) (selector : BitVector) (l : list Z) : outcome (list Z) :=
  match l with
  | [] => Ok []
  | x :: l =>
      let! b := IsSet idx selector in
      let! l := remove_unset (u32 (idx + 1)) selector l in
      Ok (if negb b then l else x :: l)
  end.
Definition SelectIvWithBv (iv : list Z) (selector : BitVector) : outcome RowMap :=
  let copy := vec_resize (size_ selector) 0 iv in
  let! copy := remove_unset 0 selector copy in
  Ok (RowMap_indices copy).
Definition SelectIvWithIv (iv selector : list Z) : outcome RowMap := let! ret := algo_SelectIvWithIv iv selector in Ok (RowMap_indices ret).
Definition SelectRowsSlow (selector rm : RowMap) : outcome RowMap :=
  match mode_ selector with
  | kRange =>
      match mode_ rm with
      | kRange => SelectRangeWithRange (start_index_ rm) (end_index_ rm) (start_index_ selector) (end_index_ selector)
      | kBitVector => SelectBvWithRange (bit_vector_ rm) (start_index_ selector) (end_index_ selector)
      | kIndexVector => SelectIvWithRange (index_vector_ rm) (start_index_ selector) (end_index_ selector)
      end
  | kBitVector =>
      match mode_ rm with
      | kRange => SelectRangeWithBv (start_index_ rm) (end_index_ rm) (bit_vector_ selector)
      | kBitVector => SelectBvWithBv (bit_vector_ rm) (bit_vector_ selector)
      | kIndexVector => SelectIvWithBv (index_vector_ rm) (bit_vector_ selector)
      end
  | kIndexVector =>
      match mode_ rm with
      | kRange => SelectRangeWithIv (start_index_ rm) (end_index_ rm) (index_vector_ selector)
      | kBitVector => SelectBvWithIv (bit_vector_ rm) (index_vector_ selector)
      | kIndexVector => SelectIvWithIv (index_vector_ rm) (index_vector_ selector)
      end
  end.
Definition SelectRows (selector rm : RowMap) : outcome RowMap :=
  let! size := rm_size selector in
  if size =? 0 then Ok RowMap_new
  else if size =? 1 then
    let! row := Get 0 selector in
    let! index := Get row rm in
    Ok (SingleRow index)
  else SelectRowsSlow selector rm.

(** ** Filtering *)

Definition kSmallRangeLimit : Z := 2048.
(** The vector branch of FilterRange. *)
Definition filter_into_vector (count start : Z) (p : Z -> bool) : outcome (list Z) :=
  let! (iv, out_i) := for_loop 0 count (fun i '(iv, out_i) =>
    let iv := if out_i =? zlen iv then vec_resize (zlen iv + kSmallRangeLimit) 0 iv else iv in
    let index := u32 (i + start) in
    let! iv := vec_set iv out_i index in
    Ok (iv, u32 (out_i + if p index then 1 else 0))) (replicate (Z.to_nat (Z.min kSmallRangeLimit count)) 0, 0) in
  Ok (vec_resize out_i 0 iv).
Definition FilterRange (p : Z -> bool) (rm : RowMap) : outcome RowMap :=
  let count := u32 (end_index_ rm - start_index_ rm) in
  let is_small_range := count <? kSmallRangeLimit in
  let bit_vector_cost := ApproxBytesCost (end_index_ rm) in
  let index_vector_cost_ub := u32 (4 * count) in
  if is_small_range || (index_vector_cost_ub <=? bit_vector_cost) || (match optimize_for_ rm with kLookupSpeed => true | kMemory => false end) then
    let! iv := filter_into_vector count (start_index_ rm) p in
    Ok (RowMap_indices iv)
  else
    let! bv := Range (start_index_ rm) (end_index_ rm) p in
    Ok (RowMap_bits bv).
Definition Filter (p : Z -> bool) (rm : RowMap) : outcome RowMap :=
  match mode_ rm with
  | kRange => FilterRange p rm
  | kBitVector =>
      let! (bv, _) := for_set_bits (fun it s => let! it := if negb (p (SetBits_index it)) then SetBits_Clear it else Ok it in Ok (it, s)) (bit_vector_ rm) tt in
      Ok (set_bit_vector bv rm)
  | kIndexVector => Ok (mkRowMap kIndexVector (start_index_ rm) (end_index_ rm) (bit_vector_ rm) (filter (fun i => Is_true (p i)) (index_vector_ rm)) (optimize_for_ rm))
  end.
Definition Intersect (start_index end_index : Z) (rm : RowMap) : outcome RowMap :=
  match mode_ rm with
  | kRange =>
      let start := Z.max (start_index_ rm) start_index in
      Ok (mkRowMap kRange start (Z.max start (Z.min (end_index_ rm) end_index)) (bit_vector_ rm) (index_vector_ rm) (optimize_for_ rm))
  | _ => Filter (fun index => (start_index <=? index) && (index <? end_index)) rm
  end.
Definition IntersectExact (index : Z) (rm : RowMap) : outcome RowMap :=
  let! b := Contains index rm in
  Ok (if b then RowMap_range index (u32 (index + 1)) kMemory else RowMap_new).

(** ** Sorting and iterating *)

(** std::stable_sort, by insertion: an element passes those less than it and stays before its
    equals. *)
Fixpoint insert_stable {A} (lt : A -> A -> outcome bool) (x : A) (l : list A) : outcome (list A) :=
  match l with
  | [] => Ok [x]
  | y :: l' => let! b := lt y x in if b then let! l' := insert_stable lt x l' in Ok (y :: l') else Ok (x :: l)
  end.
Fixpoint stable_sort {A} (lt : A -> A -> outcome bool) (l : list A) : outcome (list A) :=
  match l with [] => Ok [] | x :: l => let! l := stable_sort lt l in insert_stable lt x l end.
Definition StableSort (out : list Z) (c : Z -> Z -> bool) (rm : RowMap) : outcome (list Z) :=
  stable_sort (fun a b => let! ia := Get a rm in let! ib := Get b rm in Ok (c ia ib)) out.
(** [for (auto it = rm.IterateRows(); it; it.Next())], with the row and the index. *)
Fixpoint range_rows (fuel : nat) (index : Z) (rm : RowMap) {S} (body : Z -> Z -> S -> S) (s : S) : outcome S :=
  if index <? end_index_ rm then
    match fuel with
    | O => Crash
    | Datatypes.S fuel => range_rows fuel (u32 (index + 1)) rm body (body (u32 (index - start_index_ rm)) index s)
    end
  else Ok s.
Fixpoint vector_rows (fuel : nat) (ordinal : Z) (rm : RowMap) {S} (body : Z -> Z -> S -> S) (s : S) : outcome S :=
  if ordinal <? zlen (index_vector_ rm) then
    match fuel with
    | O => Crash
    | Datatypes.S fuel => let! i := vec_get (index_vector_ rm) ordinal in vector_rows fuel (u32 (ordinal + 1)) rm body (body ordinal i s)
    end
  else Ok s.
Definition IterateRows (rm : RowMap) {S} (body : Z -> Z -> S -> S) (s : S) : outcome S :=
  match mode_ rm with
  | kRange => range_rows (Z.to_nat (end_index_ rm - start_index_ rm)) (start_index_ rm) rm body s
  | kBitVector => let! (_, s) := for_set_bits (fun it s => Ok (it, body (SetBits_ordinal it) (SetBits_index it) s)) (bit_vector_ rm) s in Ok s
  | kIndexVector => vector_rows (length (index_vector_ rm)) 0 rm body s
  end.
