(* ===== verification/RowMapCorrect.v ===== *)
(** * Row maps as lists of indices

    In each of its three modes a row map stands for a list of indices; here, what every
    operation does to that list. *)

From S2P Require Import Prelude StdAlgorithms BitVector BitVectorWords BitVectorSelect BitVectorBlocks BitVectorCorrect BitVectorResize BitVectorUpdate BitVectorSession BitVectorIterators BitVectorIteration RowMap.

Local Open Scope cpp_scope.

(** ** The set bits of a list, as a filter *)

Lemma positions_seqZ (f : Z -> bool) a n : positions a (f <$> seqZ a n) = filter (fun i => Is_true (f i)) (seqZ a n).
Proof.
  destruct (Z.le_gt_cases n 0) as [Hn|Hn]; [by rewrite seqZ_nil|]. assert (0 <= n) as H by lia. clear Hn. revert n H a. apply (rank_ind (fun n => forall a, positions a (f <$> seqZ a n) = filter (fun i => Is_true (f i)) (seqZ a n))); [intros a; by rewrite seqZ_nil|]. intros n Hn IH a.
  rewrite seqZ_cons by lia. replace (Z.pred (n + 1)) with n by lia. replace (Z.succ a) with (a + 1) by lia. cbn [fmap list_fmap positions]. rewrite IH. rewrite filter_cons. destruct (decide (Is_true (f a))) as [H|H], (f a); cbn in *; try done; tauto.
Qed.
Lemma bits_of_list l : l = lbit l <$> seqZ 0 (zlen l).
Proof.
  apply list_eq. intros i. rewrite list_lookup_fmap. destruct (decide (i < length l)%nat) as [Hi|Hi].
  - destruct (lookup_lt_is_Some_2 l i Hi) as [b Hb]. rewrite Hb, lookup_seqZ_lt by (unfold zlen; lia). change (Some b = Some (lbit l (0 + Z.of_nat i))). unfold lbit. replace (Z.to_nat (0 + Z.of_nat i)) with i by lia. by rewrite Hb.
  - rewrite lookup_ge_None_2 by lia. by rewrite lookup_seqZ_ge by (unfold zlen; lia).
Qed.
Lemma positions_filter l : positions 0 l = filter (fun i => Is_true (lbit l i)) (seqZ 0 (zlen l)).
Proof. rewrite (bits_of_list l) at 1. apply positions_seqZ. Qed.
Lemma zlen_seqZ a n : 0 <= n -> zlen (seqZ a n) = n.
Proof. intros. unfold zlen. rewrite length_seqZ. lia. Qed.
(** A vector with given bits, as a list. *)
Lemma models_of_bits bv n g : becomes bv n g -> models bv (g <$> seqZ 0 n).
Proof.
  intros (Hok & Hs & Hb). pose proof Hok as [H _]. pose proof (bi_size _ H) as Hsz. eapply models_intro; [by split; [exact Hok|split; [exact Hs|exact Hb]]|unfold zlen; rewrite length_fmap, length_seqZ; lia|]. intros i Hi. unfold lbit. rewrite list_lookup_fmap. destruct (Z.lt_ge_cases i n).
  - rewrite lookup_seqZ_lt by lia. change (default false (g <$> Some ?x)) with (g x). f_equal. lia.
  - rewrite lookup_seqZ_ge by lia. cbn. rewrite <- Hb by done. apply (bi_tail _ H). lia.
Qed.
Lemma elem_positions l i : i ∈ positions 0 l <-> 0 <= i < zlen l /\ lbit l i = true.
Proof. rewrite positions_filter, list_elem_of_filter, elem_of_seqZ. split; [intros [H1 H2]; split; [lia|by destruct (lbit l i)]|intros [H1 H2]; split; [by rewrite H2|lia]]. Qed.
Lemma positions_app a l k : positions a (l ++ k) = positions a l ++ positions (a + zlen l) k.
Proof. revert a. induction l as [|b l IH]; intros a; cbn [positions app]; [by rewrite Z.add_0_r|]. rewrite IH, zlen_cons, <- app_assoc. do 3 f_equal. lia. Qed.
Lemma positions_replicate_false a n : positions a (replicate n false) = [].
Proof. revert a. induction n as [|n IH]; intros a; [done|]. cbn. by rewrite IH. Qed.
Lemma positions_replicate_true a n : positions a (replicate n true) = seqZ a (Z.of_nat n).
Proof. revert a. induction n as [|n IH]; intros a; [by rewrite seqZ_nil by lia|]. cbn [replicate positions]. rewrite IH, (seqZ_cons a (Z.of_nat (S n))) by lia. cbn. do 2 f_equal; lia. Qed.

(** ** Elements by position *)

(** The elements of [l] whose position, counted from [k], is wanted. *)
Fixpoint select_by (want : Z -> bool) (k : Z) (l : list Z) : list Z := match l with [] => [] | x :: l => (if want k then [x] else []) ++ select_by want (k + 1) l end.
Definition pick (l sel : list Z) : list Z := (fun k => default 0 (l !! Z.to_nat k)) <$> sel.
Lemma zlen_pick l sel : zlen (pick l sel) = zlen sel.
Proof. unfold zlen, pick. by rewrite length_fmap. Qed.
Lemma select_by_ext want want' k l : (forall i, k <= i < k + zlen l -> want i = want' i) -> select_by want k l = select_by want' k l.
Proof.
  revert k. induction l as [|x l IH]; intros k H; [done|]. rewrite zlen_cons in H. pose proof (zlen_nonneg l). cbn [select_by]. rewrite (H k) by lia. f_equal. apply IH. intros i Hi. apply H. lia.
Qed.
Lemma select_by_pick want l : select_by want 0 l = pick l (filter (fun i => Is_true (want i)) (seqZ 0 (zlen l))).
Proof.
  enough (forall k pre, zlen pre = k -> select_by want k l = pick (pre ++ l) (filter (fun i => Is_true (want i)) (seqZ k (zlen l)))) as H by by apply (H 0 []). induction l as [|x l IH]; intros k pre Hk; [done|]. pose proof (zlen_nonneg l). rewrite zlen_cons, (seqZ_cons k) by lia. cbn [select_by]. rewrite filter_cons.
  replace (Z.pred (1 + zlen l)) with (zlen l) by lia. replace (Z.succ k) with (k + 1) by lia. rewrite (IH (k + 1) (pre ++ [x])) by (rewrite zlen_snoc; lia). rewrite <- app_assoc. cbn [app]. destruct (want k); cbn [app].
  - destruct (decide (Is_true true)) as [|Hd]; [|by destruct Hd]. unfold pick. cbn [fmap list_fmap]. f_equal. unfold zlen in Hk. by rewrite list_lookup_middle by lia.
  - destruct (decide (Is_true false)) as [[]|]. done.
Qed.
Lemma tail_drop_succ {A} (u : list A) n : tail (drop n u) = drop (S n) u.
Proof. revert u. induction n as [|n IH]; intros [|x u]; cbn; first [done|apply IH]. Qed.
Lemma head_drop_lookup {A} (u : list A) n : head (drop n u) = u !! n.
Proof. revert u. induction n as [|n IH]; intros [|x u]; cbn; first [done|apply IH]. Qed.
(** Updating the set bits selects their places. *)
Lemma positions_update l u i k : 0 <= k -> positions i (update_set_bits l (drop (Z.to_nat k) u)) = select_by (lbit u) k (positions i l).
Proof.
  revert i k. induction l as [|[] l IH]; intros i k Hk; [done| |].
  - cbn [update_set_bits positions app select_by]. replace (tail (drop (Z.to_nat k) u)) with (drop (Z.to_nat (k + 1)) u) by (rewrite tail_drop_succ; f_equal; lia). rewrite IH by lia. f_equal. unfold lbit. rewrite head_drop_lookup. by destruct (default false (u !! Z.to_nat k)).
  - cbn [update_set_bits positions app]. by apply IH.
Qed.

(** ** What a row map stands for *)

Definition kMaxRows : Z := 2 ^ 31 - 512.
Definition row_ok (i : Z) : Prop := 0 <= i < kMaxRows.
Definition row_models (rm : RowMap) (l : list Z) : Prop :=
  match mode_ rm with
  | kRange => 0 <= start_index_ rm <= end_index_ rm /\ end_index_ rm <= kMaxRows /\ bit_vector_ rm = BitVector_new /\ l = seqZ (start_index_ rm) (end_index_ rm - start_index_ rm)
  | kBitVector => exists bits, models (bit_vector_ rm) bits /\ zlen bits <= kMaxRows /\ l = positions 0 bits
  | kIndexVector => index_vector_ rm = l /\ zlen l <= kMaxRows /\ Forall row_ok l
  end.
Definition row_of (l : list Z) (i : Z) : option Z := (fun p => Z.of_nat p.1) <$> list_find (fun x => x = i) l.
Lemma models_range start end_ o : 0 <= start <= end_ -> end_ <= kMaxRows -> row_models (RowMap_range start end_ o) (seqZ start (end_ - start)).
Proof. done. Qed.
Lemma models_bits bv bits : models bv bits -> zlen bits <= kMaxRows -> row_models (RowMap_bits bv) (positions 0 bits).
Proof. intros H Hl. by exists bits. Qed.
Lemma models_indices l : zlen l <= kMaxRows -> Forall row_ok l -> row_models (RowMap_indices l) l.
Proof. done. Qed.
Lemma NoDup_positions bits : NoDup (positions 0 bits).
Proof. rewrite positions_filter. apply NoDup_filter, NoDup_seqZ. Qed.
Lemma positions_bound bits : Forall (fun i => 0 <= i < zlen bits) (positions 0 bits).
Proof. apply Forall_forall. intros i Hi. by apply elem_positions in Hi as [Hi _]. Qed.
Lemma zlen_positions_le bits : zlen (positions 0 bits) <= zlen bits.
Proof. rewrite zlen_positions_all. apply rank_range. unfold zlen. lia. Qed.
Lemma rows_ok rm l : row_models rm l -> Forall row_ok l /\ zlen l <= kMaxRows.
Proof.
  unfold row_models. destruct (mode_ rm).
  - intros (H1 & H2 & _ & ->). rewrite zlen_seqZ by lia. split; [|lia]. apply Forall_forall. intros i Hi%elem_of_seqZ. unfold row_ok. lia.
  - intros (bits & Hm & Hl & ->). pose proof (zlen_positions_le bits). split; [|lia]. eapply Forall_impl; [apply positions_bound|]. intros i Hi. cbv beta in Hi. unfold row_ok. lia.
  - by intros (<- & ? & ?).
Qed.
Lemma row_at rm l k i : row_models rm l -> l !! k = Some i -> row_ok i.
Proof. intros H Hk. destruct (rows_ok rm l H) as [Hr _]. by eapply (Forall_lookup_1 row_ok). Qed.
Lemma list_find_NoDup (l : list Z) k i : NoDup l -> l !! k = Some i -> list_find (fun x => x = i) l = Some (k, i).
Proof. intros Hd Hk. apply list_find_Some. split; [done|]. split; [done|]. intros j y Hj Hlt ->. pose proof (NoDup_lookup _ _ _ _ Hd Hj Hk). lia. Qed.
Lemma list_find_absent (l : list Z) i : i ∉ l -> list_find (fun x => x = i) l = None.
Proof. intros H. apply list_find_None, Forall_forall. intros x Hx ->. done. Qed.
Lemma row_of_NoDup l k i : NoDup l -> l !! k = Some i -> row_of l i = Some (Z.of_nat k).
Proof. intros Hd Hk. unfold row_of. by rewrite (list_find_NoDup l k i). Qed.
Lemma row_of_absent l i : i ∉ l -> row_of l i = None.
Proof. intros H. unfold row_of. by rewrite list_find_absent. Qed.

(** ** Queries *)

Lemma find_index_spec l i : find_index l i = fst <$> list_find (fun x => x = i) l.
Proof. induction l as [|x l IH]; [done|]. cbn [find_index list_find]. destruct (Z.eqb_spec x i) as [->|Hne]; [by rewrite decide_True|]. rewrite decide_False by done. rewrite IH. by destruct (list_find _ l) as [[k y]|]. Qed.
Lemma rm_size_spec rm l : row_models rm l -> rm_size rm = Ok (zlen l).
Proof.
  intros H. destruct (rows_ok rm l H) as [_ Hn]. pose proof (zlen_nonneg l). unfold row_models, rm_size, kMaxRows in *. destruct (mode_ rm).
  - destruct H as (H1 & H2 & _ & ->). rewrite zlen_seqZ, u32_small by lia. done.
  - destruct H as (bits & Hm & Hl & ->). by apply models_count_all.
  - destruct H as (-> & ? & ?). by rewrite u32_small by lia.
Qed.
Lemma RowMap_Get_spec rm l row : row_models rm l -> 0 <= row < zlen l -> exists i, l !! Z.to_nat row = Some i /\ Get row rm = Ok i.
Proof.
  intros H Hr. destruct (lookup_lt_is_Some_2 l (Z.to_nat row)) as [i Hi]; [unfold zlen in Hr; lia|]. exists i. split; [done|]. pose proof (row_at rm l _ _ H Hi) as Hok. unfold row_models, Get, row_ok, kMaxRows in *. destruct (mode_ rm).
  - destruct H as (H1 & H2 & _ & ->). rewrite zlen_seqZ in Hr by lia. rewrite lookup_seqZ_lt in Hi by lia. injection Hi as <-. unfold GetRange. f_equal. rewrite u32_small by lia. lia.
  - destruct H as (bits & Hm & Hl & ->). unfold GetBitVector. apply (models_nth _ bits Hm); [done|lia].
  - unfold GetIndexVector. destruct H as (-> & _). by apply vec_get_Some.
Qed.
Lemma in_bits_spec bv bits i : models bv bits -> 0 <= i -> (if i <? size_ bv then IsSet i bv else Ok false) = Ok (bool_decide (i ∈ positions 0 bits)).
Proof.
  intros H Hi. rewrite (models_size bv bits H). destruct (Z.ltb_spec i (zlen bits)).
  - rewrite (models_IsSet bv bits H) by lia. f_equal. destruct (lbit bits i) eqn:E; symmetry; [apply bool_decide_eq_true_2|apply bool_decide_eq_false_2]; rewrite elem_positions; [split; [lia|done]|intros [_ ?]; congruence].
  - f_equal. symmetry. apply bool_decide_eq_false_2. rewrite elem_positions. lia.
Qed.
Lemma Contains_spec rm l i : row_models rm l -> 0 <= i -> Contains i rm = Ok (bool_decide (i ∈ l)).
Proof.
  intros H Hi. unfold row_models, Contains in *. destruct (mode_ rm).
  - destruct H as (H1 & H2 & _ & ->). f_equal. symmetry. destruct (Z.leb_spec (start_index_ rm) i), (Z.ltb_spec i (end_index_ rm)); [apply bool_decide_eq_true_2|apply bool_decide_eq_false_2..]; rewrite elem_of_seqZ; lia.
  - destruct H as (bits & Hm & _ & ->). by apply in_bits_spec.
  - destruct H as (-> & _). f_equal. rewrite find_index_spec. destruct (list_find _ l) as [[k x]|] eqn:E; cbn; symmetry.
    + apply bool_decide_eq_true_2. apply list_find_Some in E as (Hk & -> & _). by eapply list_elem_of_lookup_2.
    + apply bool_decide_eq_false_2. apply list_find_None in E. intros Hin. by eapply Forall_forall in E.
Qed.
Lemma RowOf_spec rm l i : row_models rm l -> 0 <= i -> RowOf i rm = Ok (row_of l i).
Proof.
  intros H Hi. unfold row_models, RowOf in *. destruct (mode_ rm).
  - destruct H as (H1 & H2 & _ & ->). unfold kMaxRows in *. f_equal. destruct (Z.ltb_spec i (start_index_ rm)), (Z.leb_spec (end_index_ rm) i); cbn [orb]; try (symmetry; apply row_of_absent; rewrite elem_of_seqZ; lia).
    rewrite u32_small by lia. symmetry. rewrite (row_of_NoDup _ (Z.to_nat (i - start_index_ rm))); [f_equal; lia|apply NoDup_seqZ|]. rewrite lookup_seqZ_lt by lia. f_equal. lia.
  - destruct H as (bits & Hm & _ & ->). rewrite (in_bits_spec _ bits) by done. cbn [obind]. case_bool_decide as Hin; [|by rewrite row_of_absent]. pose proof Hin as [Hr Hb]%elem_positions. rewrite (models_count _ bits Hm) by lia. cbn [obind]. f_equal. symmetry. rewrite zlen_positions by lia.
    pose proof (rank_range (lbit bits) i ltac:(lia)). rewrite (row_of_NoDup _ (Z.to_nat (rank (lbit bits) i))); [f_equal; lia|apply NoDup_positions|]. apply positions_nth. split; [lia|]. split; [done|lia].
  - destruct H as (-> & Hl & _). f_equal. rewrite find_index_spec. unfold row_of. destruct (list_find _ l) as [[k x]|] eqn:E; [|done]. cbn. f_equal. apply list_find_Some in E as (Hk & _). apply lookup_lt_Some in Hk. unfold kMaxRows, zlen in Hl. apply u32_small. lia.
Qed.

(** ** Insertion *)

Definition insert_sorted (i : Z) (l : list Z) : list Z := filter (fun x => x <= i) l ++ i :: filter (fun x => i < x) l.
(** What Insert does to the list: an index that is there already is inserted again in the
    vector mode, and left alone in the others. *)
Definition insert_row (m : Mode) (i : Z) (l : list Z) : list Z := match m with kIndexVector => insert_sorted i l | _ => if decide (i ∈ l) then l else insert_sorted i l end.
Lemma StronglySorted_filter {A} (R : relation A) (P : A -> Prop) `{!forall x, Decision (P x)} l : StronglySorted R l -> StronglySorted R (filter P l).
Proof.
  induction 1 as [|x l Hl IH Hx]; [constructor|]. rewrite filter_cons. destruct (decide (P x)); [|done]. constructor; [done|]. apply Forall_forall. intros y [_ Hy]%list_elem_of_filter. by eapply Forall_forall in Hx.
Qed.
Lemma seqZ_sorted a n : StronglySorted Z.lt (seqZ a n).
Proof.
  destruct (Z.le_gt_cases n 0) as [Hn|Hn]; [rewrite seqZ_nil by lia; constructor|]. assert (0 <= n) as H by lia. clear Hn. revert n H a. apply (rank_ind (fun n => forall a, StronglySorted Z.lt (seqZ a n))); [intros a; constructor|]. intros n Hn IH a. rewrite seqZ_cons by lia. constructor; [replace (Z.pred (n + 1)) with n by lia; apply IH|]. apply Forall_forall. intros x Hx%elem_of_seqZ. lia.
Qed.
Lemma positions_sorted bits : StronglySorted Z.lt (positions 0 bits).
Proof. rewrite positions_filter. apply StronglySorted_filter, seqZ_sorted. Qed.
Lemma sorted_NoDup l : StronglySorted Z.lt l -> NoDup l.
Proof. induction 1 as [|x l Hl IH Hx]; constructor; [|done]. intros Hin. eapply Forall_forall in Hx; [|exact Hin]. lia. Qed.
Lemma sorted_ext l k : StronglySorted Z.lt l -> StronglySorted Z.lt k -> (forall x, x ∈ l <-> x ∈ k) -> l = k.
Proof.
  intros Hl Hk H. apply (StronglySorted_unique_strong Z.lt); [intros x y _ _; lia|done|done|]. apply NoDup_Permutation; [by apply sorted_NoDup..|done].
Qed.
Lemma elem_insert_sorted i l x : x ∈ insert_sorted i l <-> x = i \/ x ∈ l.
Proof. unfold insert_sorted. rewrite elem_of_app, elem_of_cons, !list_elem_of_filter. destruct (Z.le_gt_cases x i); intuition lia. Qed.
Lemma insert_sorted_sorted i l : StronglySorted Z.lt l -> i ∉ l -> StronglySorted Z.lt (insert_sorted i l).
Proof.
  intros Hs Hi. unfold insert_sorted. apply StronglySorted_app. split_and!.
  - intros x y [Hx Hxl]%list_elem_of_filter [->|[Hy _]%list_elem_of_filter]%elem_of_cons; [|lia]. destruct (Z.eq_dec x i) as [->|]; [done|lia].
  - by apply StronglySorted_filter.
  - constructor; [by apply StronglySorted_filter|]. apply Forall_forall. by intros y [Hy _]%list_elem_of_filter.
Qed.
Lemma elem_insert_row m i l x : x ∈ insert_row m i l <-> x = i \/ x ∈ l.
Proof. unfold insert_row. destruct m; [destruct (decide (i ∈ l)); [|apply elem_insert_sorted]..|apply elem_insert_sorted]; (split; [tauto|intros [->|]; done]). Qed.
Lemma insert_row_sorted m i l : m <> kIndexVector -> StronglySorted Z.lt l -> StronglySorted Z.lt (insert_row m i l).
Proof. intros Hm Hs. unfold insert_row. destruct m; [destruct (decide (i ∈ l)); [done|by apply insert_sorted_sorted]..|done]. Qed.
Lemma filter_all {A} (P : A -> Prop) `{!forall x, Decision (P x)} l : Forall P l -> filter P l = l.
Proof. induction 1 as [|x l Hx Hl IH]; [done|]. rewrite filter_cons_True by done. by rewrite IH. Qed.
Lemma filter_none {A} (P : A -> Prop) `{!forall x, Decision (P x)} l : Forall (fun x => ~ P x) l -> filter P l = [].
Proof. induction 1 as [|x l Hx Hl IH]; [done|]. by rewrite filter_cons_False. Qed.
(** The code finds the place by std::upper_bound. *)
Lemma insert_at_upper_bound i l : StronglySorted Z.le l -> take (upper_bound Z.ltb l i) l ++ i :: drop (upper_bound Z.ltb l i) l = insert_sorted i l.
Proof.
  intros Hs. destruct (upper_bound_spec l i Hs) as [Hk Hi]. set (k := upper_bound Z.ltb l i) in *. unfold insert_sorted.
  assert (Hlow : Forall (fun x => x <= i) (take k l)) by (apply Forall_forall; intros x [j Hj]%list_elem_of_lookup; apply lookup_take_Some in Hj as [Hj Hjk]; by apply (Hi j)). assert (Hhigh : Forall (fun x => i < x) (drop k l)) by (apply Forall_forall; intros x [j Hj]%list_elem_of_lookup; rewrite lookup_drop in Hj; destruct (Z.lt_ge_cases i x) as [|Hge]; [done|]; apply (Hi _ _ Hj) in Hge; lia).
  rewrite <- (take_drop k l) at 3 4. rewrite !filter_app. rewrite (filter_all _ (take k l)), (filter_none _ (drop k l)), (filter_none _ (take k l)), (filter_all _ (drop k l)); [by rewrite app_nil_r|..]; (eapply Forall_impl; [eassumption|]); intros x Hx; cbv beta in *; lia.
Qed.
Lemma lbit_app_l l k i : 0 <= i < zlen l -> lbit (l ++ k) i = lbit l i.
Proof. intros Hi. unfold lbit, zlen in *. by rewrite lookup_app_l by lia. Qed.
Lemma lbit_app_r l k i : 0 <= i -> lbit (l ++ k) (zlen l + i) = lbit k i.
Proof. intros Hi. unfold lbit, zlen. rewrite lookup_app_r by lia. do 2 f_equal. lia. Qed.
Lemma resize_grow n v l : zlen l <= n -> resize_list n v l = l ++ replicate (Z.to_nat (n - zlen l)) v.
Proof. intros H. unfold resize_list, zlen in *. rewrite firstn_all2 by lia. do 2 f_equal. lia. Qed.
Lemma zlen_resize n v l : 0 <= n -> zlen (resize_list n v l) = n.
Proof. intros H. unfold resize_list, zlen. rewrite length_app, length_take, length_replicate. lia. Qed.
Lemma elem_positions_set l i x : 0 <= i < zlen l -> x ∈ positions 0 (<[Z.to_nat i := true]> l) <-> x = i \/ x ∈ positions 0 l.
Proof.
  intros Hi. rewrite !elem_positions. unfold zlen. rewrite length_insert. fold (zlen l). destruct (Z.eq_dec x i) as [->|Hne].
  - split; [by left|intros _]. split; [done|]. unfold lbit. by rewrite list_lookup_insert_eq by (unfold zlen in Hi; lia).
  - split; [intros [Hx Hb]; right; split; [done|]|intros [?|[Hx Hb]]; [done|split; [done|]]]; unfold lbit in *; rewrite list_lookup_insert_ne in * by lia; done.
Qed.
Lemma positions_grow_false n l : zlen l <= n -> positions 0 (resize_list n false l) = positions 0 l.
Proof. intros H. rewrite resize_grow, positions_app, positions_replicate_false by done. apply app_nil_r. Qed.
(** The rest of the row map is untouched. *)
Definition with_bits (rm rm' : RowMap) (bits : list bool) : Prop := exists bv, rm' = set_bit_vector bv rm /\ models bv bits.
Lemma kMaxRows_size n : n <= kMaxRows -> n <= kMaxSize.
Proof. unfold kMaxRows, kMaxSize. lia. Qed.
Lemma InsertIntoBitVector_spec rm bits i : models (bit_vector_ rm) bits -> zlen bits <= kMaxRows -> row_ok i -> exists rm' bits', InsertIntoBitVector i rm = Ok rm' /\ with_bits rm rm' bits' /\ zlen bits' <= kMaxRows /\ forall x, x ∈ positions 0 bits' <-> x = i \/ x ∈ positions 0 bits.
Proof.
  intros H Hl Hi. unfold row_ok in Hi. pose proof (kMaxRows_size kMaxRows ltac:(lia)) as Hms. unfold InsertIntoBitVector. rewrite (models_size _ _ H). destruct (Z.eqb_spec i (zlen bits)) as [->|Hne].
  - destruct (models_append _ _ H true ltac:(unfold kMaxRows, kMaxSize in *; lia)) as (bv & E & Hm). cbn [Append] in E. rewrite E. cbn [obind]. eexists _, _. split; [done|]. split; [by exists bv|]. rewrite zlen_snoc. split; [lia|]. intros x. rewrite positions_app, elem_of_app. cbn. rewrite list_elem_of_singleton. intuition lia.
  - assert (Hgrow : exists bv bits1, (if zlen bits <? i then Resize (u32 (i + 1)) false (bit_vector_ rm) else Ok (bit_vector_ rm)) = Ok bv /\ models bv bits1 /\ 0 <= i < zlen bits1 /\ zlen bits1 <= kMaxRows /\ positions 0 bits1 = positions 0 bits).
    { destruct (Z.ltb_spec (zlen bits) i) as [Hlt|Hge].
      - unfold kMaxRows in *. rewrite u32_small by lia. destruct (models_resize _ _ H (i + 1) false) as (bv & E & Hm); [unfold kMaxSize in *; lia|done|]. exists bv, (resize_list (i + 1) false bits). split; [done|]. split; [done|]. rewrite zlen_resize by lia. split; [lia|]. split; [lia|]. apply positions_grow_false. lia.
      - exists (bit_vector_ rm), bits. split_and!; try done; lia. }
    destruct Hgrow as (bv & bits1 & -> & Hm & Hi1 & Hl1 & Hp). cbn [obind]. destruct (Set_spec bv i (models_ok _ _ Hm)) as (bv' & -> & Hb); [by rewrite (models_size _ _ Hm)|]. cbn [obind]. eexists _, _. split; [done|]. split; [exists bv'; split; [done|by apply (models_write bv)]|]. split; [unfold zlen; by rewrite length_insert|]. intros x. by rewrite elem_positions_set, Hp by done.
Qed.
(** A range turned into bits. *)
Lemma range_to_bits start end_ : 0 <= start <= end_ -> end_ <= kMaxRows -> exists bv1 bv, Resize start false BitVector_new = Ok bv1 /\ Resize end_ true bv1 = Ok bv /\ models bv (replicate (Z.to_nat start) false ++ replicate (Z.to_nat (end_ - start)) true).
Proof.
  intros Hs He. pose proof (kMaxRows_size _ He) as Hms. destruct (models_resize _ _ new_models start false) as (bv1 & E1 & H1); [lia|done|]. rewrite resize_grow in H1 by (change (zlen []) with 0; lia). change (zlen []) with 0 in H1. cbn [app] in H1. rewrite Z.sub_0_r in H1. assert (Hl1 : zlen (replicate (Z.to_nat start) false) = start) by (unfold zlen; rewrite length_replicate; lia).
  destruct (models_resize _ _ H1 end_ true) as (bv & E & Hm); [lia| |].
  - intros _ _ _. rewrite (models_rank _ _ H1), (models_size _ _ H1), <- zlen_positions_all, positions_replicate_false. done.
  - exists bv1, bv. split; [done|]. split; [done|]. by rewrite resize_grow, Hl1 in Hm by lia.
Qed.
Lemma positions_range start n : 0 <= start -> 0 <= n -> positions 0 (replicate (Z.to_nat start) false ++ replicate (Z.to_nat n) true) = seqZ start n.
Proof. intros Hs Hn. rewrite positions_app, positions_replicate_false, positions_replicate_true. cbn. unfold zlen. rewrite length_replicate. f_equal; lia. Qed.
Lemma bits_row_map bits i l : (forall x, x ∈ positions 0 bits <-> x = i \/ x ∈ l) -> StronglySorted Z.lt l -> forall m, m <> kIndexVector -> positions 0 bits = insert_row m i l.
Proof. intros H Hs m Hm. apply sorted_ext; [apply positions_sorted|by apply insert_row_sorted|]. intros x. by rewrite H, elem_insert_row. Qed.
Lemma RowMap_Insert_spec rm l i : row_models rm l -> row_ok i -> (mode_ rm = kIndexVector -> StronglySorted Z.le l /\ zlen l < kMaxRows) -> exists rm', Insert i rm = Ok rm' /\ row_models rm' (insert_row (mode_ rm) i l).
Proof.
  intros H Hi Hv. pose proof Hi as Hi'. unfold row_ok in Hi'. unfold Insert, row_models in H |- *. destruct (mode_ rm) eqn:Em.
  - destruct H as (H1 & H2 & Hb & ->). destruct (Z.eqb_spec i (end_index_ rm)) as [->|Hne].
    + eexists. split; [done|]. unfold row_models. cbn [mode_ start_index_ end_index_ bit_vector_]. unfold kMaxRows in *. rewrite u32_small by lia. split_and!; [lia|lia|lia|done|]. apply sorted_ext; [apply insert_row_sorted; [done|apply seqZ_sorted]|apply seqZ_sorted|]. intros x. rewrite elem_insert_row, !elem_of_seqZ. lia.
    + rewrite Hb. destruct (range_to_bits (start_index_ rm) (end_index_ rm) H1 H2) as (bv1 & bv & -> & E & Hm). cbn [obind]. rewrite E. cbn [obind]. destruct (InsertIntoBitVector_spec (RowMap_bits bv) _ i Hm) as (rm' & bits' & -> & (bv' & -> & Hm') & Hl' & Hx); [unfold zlen; rewrite length_app, !length_replicate; lia|done|].
      eexists. split; [done|]. exists bits'. split; [done|]. split; [done|]. rewrite positions_range in Hx by lia. symmetry. by apply (bits_row_map _ i _ Hx (seqZ_sorted _ _)).
  - destruct H as (bits & Hm & Hl & ->). destruct (InsertIntoBitVector_spec rm bits i Hm Hl Hi) as (rm' & bits' & -> & (bv' & -> & Hm') & Hl' & Hx). eexists. split; [done|]. cbn [mode_ set_bit_vector]. rewrite Em. exists bits'. split; [done|]. split; [done|]. symmetry. by apply (bits_row_map _ i _ Hx (positions_sorted _)).
  - destruct H as (-> & Hl & Hok). destruct Hv as [Hs Hl']; [done|]. eexists. split; [done|]. cbn [mode_ index_vector_ insert_row]. rewrite insert_at_upper_bound by done. split; [done|]. assert (Hp : insert_sorted i l ≡ₚ i :: l) by (unfold insert_sorted; rewrite <- Permutation_middle; constructor; rewrite <- (filter_app_complement (fun x => x <= i) l) at 3; apply Permutation_app_head; rewrite (list_filter_iff (fun x => i < x) (fun x => ~ x <= i)); [done|intros x; lia]).
    split; [unfold zlen in *; rewrite Hp; cbn; lia|]. rewrite Hp. by constructor.
Qed.
