(* ===== verification/RowMapSelect.v ===== *)
(** * Selecting rows

    SelectRows has a routine for each pair of modes; all of them pick the elements at the
    selected positions, in the order of the selector. *)

From S2P Require Import Prelude StdAlgorithms BitVector BitVectorWords BitVectorSelect BitVectorBlocks BitVectorCorrect BitVectorResize BitVectorUpdate BitVectorSession BitVectorIterators BitVectorIteration RowMap RowMapCorrect.

Local Open Scope cpp_scope.

(** ** Vectors filled in a loop *)

Lemma fill_spec first last (f : Z -> outcome Z) (g : Z -> Z) : first <= last -> (forall i, first <= i < last -> f i = Ok (g i)) -> fill first last f = Ok (g <$> seqZ first (last - first)).
Proof.
  intros Hl Hf. unfold fill. destruct (for_loop_inv (fun i ret => ret = (g <$> seqZ first (i - first)) ++ replicate (Z.to_nat (last - i)) 0) first last (fun i ret => let! x := f i in vec_set ret (i - first) x) (replicate (Z.to_nat (last - first)) 0)) as (ret & E & ->).
  - done.
  - by rewrite seqZ_nil by lia.
  - intros i ret Hi ->. rewrite Hf by done. cbn [obind]. assert (Hlen : length (g <$> seqZ first (i - first)) = Z.to_nat (i - first)) by (rewrite length_fmap, length_seqZ; done). rewrite vec_set_inside by (unfold zlen; rewrite length_app, length_replicate, Hlen; lia). eexists. split; [done|].
    replace (i + 1 - first) with ((i - first) + 1) by lia. rewrite seqZ_app, fmap_app by lia. replace (first + (i - first)) with i by lia. rewrite (seqZ_cons i 1), (seqZ_nil (Z.succ i)) by lia. replace (Z.to_nat (last - i)) with (S (Z.to_nat (last - (i + 1)))) by lia. cbn [replicate]. rewrite insert_app_r_alt by (rewrite Hlen; lia). rewrite Hlen. replace (Z.to_nat (i - first) - Z.to_nat (i - first))%nat with 0%nat by lia. by rewrite <- app_assoc.
  - rewrite E. replace (Z.to_nat (last - last)) with 0%nat by lia. by rewrite app_nil_r.
Qed.
Lemma fmap_seqZ_lookup {A} (l : list Z) (g : Z -> A) n : zlen l = n -> (fun i => g (default 0 (l !! Z.to_nat i))) <$> seqZ 0 n = g <$> l.
Proof.
  intros Hn. apply list_eq. intros k. rewrite !list_lookup_fmap. destruct (decide (k < length l)%nat) as [Hk|Hk].
  - destruct (lookup_lt_is_Some_2 l k Hk) as [x Hx]. rewrite lookup_seqZ_lt by (unfold zlen in Hn; lia). rewrite Hx. cbn [fmap option_fmap option_map]. do 2 f_equal. replace (Z.to_nat (0 + Z.of_nat k)) with k by lia. by rewrite Hx.
  - rewrite (lookup_ge_None_2 l) by lia. by rewrite lookup_seqZ_ge by (unfold zlen in Hn; lia).
Qed.
(** A vector filled from the elements of another. *)
Lemma fill_map (l : list Z) (f : Z -> outcome Z) (g : Z -> Z) : (forall x, x ∈ l -> f x = Ok (g x)) -> fill 0 (zlen l) (fun i => let! s := vec_get l i in f s) = Ok (g <$> l).
Proof.
  intros H. rewrite (fill_spec 0 (zlen l) _ (fun i => g (default 0 (l !! Z.to_nat i)))).
  - rewrite Z.sub_0_r. by rewrite fmap_seqZ_lookup.
  - apply zlen_nonneg.
  - intros i Hi. destruct (vec_get_inside l i Hi) as (x & Ex & Eg). rewrite Eg. cbn [obind]. rewrite Ex. apply H. by eapply list_elem_of_lookup_2.
Qed.

(** ** Picking *)

Lemma pick_ext l sel g : (forall k, k ∈ sel -> l !! Z.to_nat k = Some (g k)) -> pick l sel = g <$> sel.
Proof. intros H. unfold pick. apply list_fmap_ext. intros i k Hk. cbn. by rewrite (H k) by (by eapply list_elem_of_lookup_2). Qed.
Lemma pick_prefix l k sel : (forall i, i ∈ sel -> 0 <= i < zlen l) -> pick (l ++ k) sel = pick l sel.
Proof. intros H. unfold pick. apply list_fmap_ext. intros n i Hi. cbn. rewrite lookup_app_l; [done|]. pose proof (H i ltac:(by eapply list_elem_of_lookup_2)). unfold zlen in *. lia. Qed.
Lemma pick_all l : pick l (seqZ 0 (zlen l)) = l.
Proof. unfold pick. rewrite (fmap_seqZ_lookup l (fun x => x)) by done. apply list_fmap_id. Qed.
Definition in_rows (l sel : list Z) : Prop := Forall (fun k => 0 <= k < zlen l) sel.
Lemma pick_lookup l sel : in_rows l sel -> forall k, k ∈ sel -> exists x, l !! Z.to_nat k = Some x /\ vec_get l k = Ok x.
Proof. intros H k Hk. unfold in_rows in H. rewrite Forall_forall in H. apply vec_get_inside. by apply H. Qed.
Lemma pick_rows_ok l sel : Forall row_ok l -> in_rows l sel -> Forall row_ok (pick l sel).
Proof. intros Hl Hs. apply Forall_forall. intros x (k & -> & Hk)%list_elem_of_fmap. destruct (pick_lookup l sel Hs k Hk) as (y & Hy & _). rewrite Hy. cbn. by eapply (Forall_lookup_1 row_ok). Qed.
Lemma pick_vector l sel : Forall row_ok l -> in_rows l sel -> zlen sel <= kMaxRows -> row_models (RowMap_indices (pick l sel)) (pick l sel).
Proof. intros Hl Hs Hn. apply models_indices; [by rewrite zlen_pick|by apply pick_rows_ok]. Qed.
Lemma SelectIvWithIv_spec l sel : in_rows l sel -> algo_SelectIvWithIv l sel = Ok (pick l sel).
Proof. intros H. unfold algo_SelectIvWithIv. rewrite (fill_map sel (vec_get l) (fun k => default 0 (l !! Z.to_nat k))); [done|]. intros k Hk. destruct (pick_lookup l sel H k Hk) as (x & Hx & ->). by rewrite Hx. Qed.
Lemma in_positions bits sel : in_rows (positions 0 bits) sel -> forall k, k ∈ sel -> exists i, positions 0 bits !! Z.to_nat k = Some i /\ 0 <= k.
Proof. intros H k Hk. destruct (pick_lookup _ _ H k Hk) as (x & Hx & _). exists x. split; [done|]. unfold in_rows in H. rewrite Forall_forall in H. by apply H. Qed.
Lemma SelectBvWithIvByIndexOfNthSet_spec bv bits sel : models bv bits -> in_rows (positions 0 bits) sel -> SelectBvWithIvByIndexOfNthSet bv sel = Ok (pick (positions 0 bits) sel).
Proof.
  intros H Hs. unfold SelectBvWithIvByIndexOfNthSet. rewrite (fill_map sel (fun s => IndexOfNthSet s bv) (fun k => default 0 (positions 0 bits !! Z.to_nat k))); [done|]. intros k Hk. destruct (in_positions bits sel Hs k Hk) as (i & Hi & H0). rewrite Hi. by apply (models_nth bv bits H).
Qed.

(** ** The set bits as a vector *)

Lemma models_small bv bits : models bv bits -> zlen bits <= kMaxRows -> size_ bv < 2 ^ 31.
Proof. intros H Hl. rewrite (models_size _ _ H). unfold kMaxRows in Hl. lia. Qed.
Lemma positions_step bits n i : is_nth (lbit bits) n i -> 0 <= n -> n < zlen (positions 0 bits) -> take (Z.to_nat (n + 1)) (positions 0 bits) = take (Z.to_nat n) (positions 0 bits) ++ [i].
Proof. intros Hi Hn Hl. replace (Z.to_nat (n + 1)) with (S (Z.to_nat n)) by lia. apply take_S_r. apply positions_nth. by rewrite Z2Nat.id. Qed.
(** Visiting the set bits in order: the state after [n] of them is a function of the first
    [n] positions. *)
Lemma visit_set_bits {S} (body : SetBitsIterator -> S -> outcome (SetBitsIterator * S)) (keep : Z -> Z -> bool) (st : list Z -> S) bv bits : models bv bits -> zlen bits <= kMaxRows ->
  (forall n i it pre, zlen pre = n -> pre ++ [i] `prefix_of` positions 0 bits -> SetBits_ordinal it = n -> SetBits_index it = i -> body it (st pre) = (let! it := if keep n i then Ok it else SetBits_Clear it in Ok (it, st (pre ++ [i])))) ->
  exists bv', for_set_bits body bv (st []) = Ok (bv', st (positions 0 bits)) /\ becomes bv' (size_ bv) (fun i => lbit bits i && keep (rank (lbit bits) i) i).
Proof.
  intros H Hl Hbody. set (ps := positions 0 bits) in *. assert (Hps : zlen ps = rank (lbit bits) (size_ bv)) by (rewrite (models_size _ _ H); apply zlen_positions_all).
  destruct (for_set_bits_spec body keep (fun n s => 0 <= n /\ s = st (take (Z.to_nat n) ps)) (lbit bits)) with (bv := bv) (s := st []) as (bv' & s' & E & (Hn & ->) & Hb).
  - intros n i it s [Hn ->] Hi Ho Hx. assert (Hk : ps !! Z.to_nat n = Some i) by (apply positions_nth; by rewrite Z2Nat.id). assert (Hlt : n < zlen ps) by (apply lookup_lt_Some in Hk; unfold zlen; lia). exists (st (take (Z.to_nat (n + 1)) ps)). split; [|split; [lia|done]]. unfold ps. rewrite (positions_step bits n i Hi Hn Hlt). apply (Hbody n i); try done.
    + fold ps. unfold zlen in *. rewrite length_take. lia.
    + rewrite <- (positions_step bits n i Hi Hn Hlt). fold ps. exists (drop (Z.to_nat (n + 1)) ps). by rewrite take_drop.
  - apply H.
  - by apply (models_small bv bits).
  - apply H.
  - done.
  - exists bv'. split; [|done]. rewrite E. do 3 f_equal. apply firstn_all2. rewrite <- Hps. unfold zlen. lia.
Qed.
(** The ordinal and index of each set bit, in order. *)
Definition visited (l : list Z) : list (Z * Z) := imap (fun k i => (Z.of_nat k, i)) l.
(** A loop over the set bits of a vector, one cached block and one batch of 1024 indices at
    a time, visits exactly the bits that were set, in order and with their ordinals, while it
    clears the current bit at will; at the end exactly the bits to keep are set, and all
    counts are right again. *)
Theorem clearing_while_iterating (keep : Z -> Z -> bool) bv bits : models bv bits -> zlen bits <= kMaxRows ->
  exists bv', for_set_bits (fun it s => let! it' := if keep (SetBits_ordinal it) (SetBits_index it) then Ok it else SetBits_Clear it in Ok (it', s ++ [(SetBits_ordinal it, SetBits_index it)])) bv [] = Ok (bv', visited (positions 0 bits)) /\
    models bv' ((fun i => lbit bits i && keep (rank (lbit bits) i) i) <$> seqZ 0 (zlen bits)).
Proof.
  intros H Hl. destruct (visit_set_bits (fun it s => let! it' := if keep (SetBits_ordinal it) (SetBits_index it) then Ok it else SetBits_Clear it in Ok (it', s ++ [(SetBits_ordinal it, SetBits_index it)])) keep visited bv bits H Hl) as (bv' & E & Hb).
  - intros n i it pre Hn _ -> ->. unfold visited. rewrite imap_app. cbn. rewrite Nat.add_0_r. unfold zlen in Hn. by rewrite Hn.
  - exists bv'. split; [done|]. rewrite <- (models_size _ _ H). by apply models_of_bits.
Qed.
Lemma clearing_while_iterating_witness : let keep (n i : Z) := negb (n =? 1) in exists bv bv', BitVector_of [true; false; true; true] = Ok bv /\
  for_set_bits (fun it s => let! it' := if keep (SetBits_ordinal it) (SetBits_index it) then Ok it else SetBits_Clear it in Ok (it', s ++ [(SetBits_ordinal it, SetBits_index it)])) bv [] = Ok (bv', [(0, 0); (1, 2); (2, 3)]) /\ models bv' [true; false; false; true].
Proof.
  intros keep. destruct (BitVector_of_spec [true; false; true; true]) as (bv & E & Hm); [vm_compute; congruence|]. destruct (clearing_while_iterating keep bv _ Hm) as (bv' & E' & Hm'); [vm_compute; congruence|]. exists bv, bv'. split; [exact E|]. split; [exact E'|exact Hm'].
Defined.
Lemma insert_at_length (pre : list Z) x y l : <[length pre := x]> (pre ++ y :: l) = pre ++ x :: l.
Proof. rewrite insert_app_r_alt by lia. by rewrite Nat.sub_diag. Qed.
Lemma convert_to_iv_spec bv bits : models bv bits -> zlen bits <= kMaxRows -> convert_to_iv bv = Ok (positions 0 bits).
Proof.
  intros H Hl. unfold convert_to_iv. rewrite (models_count_all bv bits H). cbn [obind]. set (ps := positions 0 bits). destruct (visit_set_bits (fun it bv_conv => let! bv_conv := vec_set bv_conv (SetBits_ordinal it) (SetBits_index it) in Ok (it, bv_conv)) (fun _ _ => true) (fun pre => pre ++ replicate (length ps - length pre) 0) bv bits H Hl) as (bv' & E & _).
  - intros n i it pre Hn Hpre -> ->. cbn [obind]. apply prefix_length in Hpre. rewrite length_app in Hpre. cbn [length] in Hpre. fold ps in Hpre. rewrite vec_set_inside by (unfold zlen in *; rewrite length_app, length_replicate; lia). cbn [obind]. do 2 f_equal. rewrite length_app. cbn [length]. replace (length ps - length pre)%nat with (S (length ps - (length pre + 1))) by lia. cbn [replicate]. rewrite <- app_assoc. replace (Z.to_nat n) with (length pre) by (unfold zlen in Hn; lia). apply insert_at_length.
  - cbn [app length] in E. rewrite Nat.sub_0_r in E. replace (Z.to_nat (zlen ps)) with (length ps) by (unfold zlen; lia). unfold ps in *. rewrite E. cbn [obind]. by rewrite Nat.sub_diag, app_nil_r.
Qed.
Lemma SelectBvWithIvByConvertToIv_spec bv bits sel : models bv bits -> zlen bits <= kMaxRows -> in_rows (positions 0 bits) sel -> SelectBvWithIvByConvertToIv bv sel = Ok (pick (positions 0 bits) sel).
Proof. intros H Hl Hs. unfold SelectBvWithIvByConvertToIv. rewrite (convert_to_iv_spec bv bits H Hl). cbn [obind]. by apply SelectIvWithIv_spec. Qed.
Lemma SelectBvWithIv_spec bv bits sel : models bv bits -> zlen bits <= kMaxRows -> in_rows (positions 0 bits) sel -> SelectBvWithIv bv sel = Ok (RowMap_indices (pick (positions 0 bits) sel)).
Proof.
  intros H Hl Hs. unfold SelectBvWithIv. rewrite (models_count_all bv bits H). cbn [obind]. destruct (_ <? zlen sel); [rewrite (SelectBvWithIvByConvertToIv_spec bv bits)|rewrite (SelectBvWithIvByIndexOfNthSet_spec bv bits)]; done.
Qed.

(** ** The routines for each pair of modes *)

Lemma in_seqZ start n k : 0 <= k < n -> seqZ start n !! Z.to_nat k = Some (start + k).
Proof. intros Hk. rewrite lookup_seqZ_lt by lia. f_equal. lia. Qed.
Lemma pick_seqZ start n sel : in_rows (seqZ start n) sel -> 0 <= n -> pick (seqZ start n) sel = (fun k => start + k) <$> sel.
Proof. intros Hs Hn. apply pick_ext. intros k Hk. unfold in_rows in Hs. rewrite Forall_forall in Hs. specialize (Hs k Hk). rewrite zlen_seqZ in Hs by done. by apply in_seqZ. Qed.
Lemma lbit_fmap_seqZ g n i : 0 <= i < n -> lbit (g <$> seqZ 0 n) i = g i.
Proof. intros Hi. unfold lbit. rewrite list_lookup_fmap, lookup_seqZ_lt by lia. change (g (0 + Z.of_nat (Z.to_nat i)) = g i). f_equal. lia. Qed.
(** The bits selected by ordinal, as an update of the set bits. *)
Lemma positions_by_ordinal bits u : positions 0 (update_set_bits bits u) = select_by (lbit u) 0 (positions 0 bits).
Proof. by rewrite <- (positions_update bits u 0 0). Qed.
Lemma select_by_positions l u : zlen u <= zlen l -> select_by (lbit u) 0 l = pick l (positions 0 u).
Proof.
  intros Hu. rewrite select_by_pick, positions_filter. f_equal. pose proof (zlen_nonneg u). replace (zlen l) with (zlen u + (zlen l - zlen u)) by lia. rewrite seqZ_app by lia. rewrite filter_app, (filter_none _ (seqZ (0 + zlen u) _)); [by rewrite app_nil_r|]. apply Forall_forall. intros i Hi%elem_of_seqZ. rewrite lbit_outside by lia. by intros [].
Qed.
Lemma select_by_take want n l : select_by want 0 (take n l) = pick l (filter (fun i => Is_true (want i)) (seqZ 0 (zlen (take n l)))).
Proof.
  rewrite select_by_pick. rewrite <- (take_drop n l) at 3. symmetry. apply pick_prefix. intros i [_ Hi%elem_of_seqZ]%list_elem_of_filter. lia.
Qed.
Lemma SelectRangeWithBv_spec start end_ sel u : 0 <= start <= end_ -> end_ <= kMaxRows -> models sel u -> zlen u <= end_ - start -> positions 0 u <> [] -> exists rm, SelectRangeWithBv start end_ sel = Ok rm /\ row_models rm (pick (seqZ start (end_ - start)) (positions 0 u)).
Proof.
  intros Hs He Hu Hlu Hne. pose proof (zlen_nonneg u) as Hu0. assert (Hin : in_rows (seqZ start (end_ - start)) (positions 0 u)) by (unfold in_rows; rewrite zlen_seqZ by lia; eapply Forall_impl; [apply positions_bound|]; intros i Hi; cbv beta in *; lia). rewrite pick_seqZ by (done || lia). unfold SelectRangeWithBv. destruct (Z.eqb_spec start 0) as [->|Hz].
  - eexists. split; [done|]. rewrite (list_fmap_ext _ (fun k => k)), list_fmap_id by (intros; lia). apply models_bits; [done|lia].
  - rewrite (models_size _ _ Hu). unfold kMaxRows in He. rewrite u32_small by lia. destruct (range_to_bits start (start + zlen u)) as (bv1 & bv & E1 & E & Hm); [lia|unfold kMaxRows; lia|]. unfold BitVector_filled. rewrite E1. cbn [obind]. rewrite E. cbn [obind]. assert (Hlen : zlen (replicate (Z.to_nat start) false ++ replicate (Z.to_nat (start + zlen u - start)) true) = start + zlen u) by (unfold zlen in *; rewrite length_app, !length_replicate; lia).
    destruct (models_update bv _ Hm sel u Hu) as (bv' & Eu & Hm'); [lia|]. rewrite Eu. cbn [obind]. eexists. split; [done|]. exists (update_set_bits (replicate (Z.to_nat start) false ++ replicate (Z.to_nat (start + zlen u - start)) true) u). split; [done|]. split; [unfold zlen in *; rewrite length_update_set_bits; unfold kMaxRows; lia|].
    rewrite positions_by_ordinal, positions_range by lia. replace (start + zlen u - start) with (zlen u) by lia. rewrite select_by_positions by (rewrite zlen_seqZ; lia). symmetry. apply pick_ext. intros k Hk. apply elem_positions in Hk as [Hk _]. by apply in_seqZ.
Qed.
Lemma SelectRangeWithIv_spec start end_ sel : 0 <= start <= end_ -> end_ <= kMaxRows -> in_rows (seqZ start (end_ - start)) sel -> zlen sel <= kMaxRows -> exists rm, SelectRangeWithIv start end_ sel = Ok rm /\ row_models rm (pick (seqZ start (end_ - start)) sel).
Proof.
  intros Hs He Hin Hl. unfold SelectRangeWithIv. rewrite (fill_map sel (fun s => Ok (u32 (s + start))) (fun k => start + k)).
  - cbn [obind]. eexists. split; [done|]. rewrite <- pick_seqZ with (n := end_ - start) by (done || lia). apply pick_vector; [|done|done]. by destruct (rows_ok _ _ (models_range start end_ kMemory Hs He)).
  - intros k Hk. unfold in_rows in Hin. rewrite Forall_forall in Hin. specialize (Hin k Hk). rewrite zlen_seqZ in Hin by lia. unfold kMaxRows in He. rewrite u32_small by lia. f_equal. lia.
Qed.
Lemma SelectBvWithRange_spec bv bits a b : models bv bits -> zlen bits <= kMaxRows -> 0 <= a <= b -> b <= zlen (positions 0 bits) -> exists rm, SelectBvWithRange bv a b = Ok rm /\ row_models rm (pick (positions 0 bits) (seqZ a (b - a))).
Proof.
  intros H Hl Ha Hb. unfold SelectBvWithRange. cbv zeta. rewrite (models_count_all bv bits H). cbn [obind]. destruct ((a =? 0) && (b =? zlen (positions 0 bits))) eqn:Eall.
  - apply andb_true_iff in Eall as [->%Z.eqb_eq ->%Z.eqb_eq]. eexists. split; [done|]. rewrite Z.sub_0_r, pick_all. by apply models_bits.
  - set (want := fun n : Z => negb ((n <? a) || (b <=? n))). destruct (visit_set_bits (fun it (s : unit) => let set_idx := SetBits_ordinal it in let! it := if (set_idx <? a) || (b <=? set_idx) then SetBits_Clear it else Ok it in Ok (it, s)) (fun n _ => want n) (fun _ => tt) bv bits H Hl) as (bv' & E & Hb').
    + intros n i it pre _ _ <- _. unfold want. cbv zeta. by destruct ((SetBits_ordinal it <? a) || (b <=? SetBits_ordinal it)).
    + cbv zeta in E. rewrite E. cbn [obind]. eexists. split; [done|]. set (total := zlen (positions 0 bits)) in *. set (u := want <$> seqZ 0 total). exists (update_set_bits bits u). assert (Hu : forall n, 0 <= n < total -> lbit u n = want n) by (intros n Hn; by apply lbit_fmap_seqZ).
      split; [|split; [unfold zlen in *; by rewrite length_update_set_bits|]].
      * eapply models_intro; [exact Hb'|rewrite (models_size _ _ H); unfold zlen; by rewrite length_update_set_bits|]. intros i Hi. cbv beta. rewrite update_set_bits_spec by done. destruct (lbit bits i) eqn:Ei; [|done]. cbn [andb]. symmetry. apply Hu. pose proof (rank_range (lbit bits) i Hi). split; [lia|]. unfold total. rewrite zlen_positions_all. apply (is_nth_lt _ _ i); [done|]. destruct (Z.lt_ge_cases i (zlen bits)) as [|Hge]; [done|]. by rewrite lbit_outside in Ei.
      * rewrite positions_by_ordinal. rewrite (select_by_ext _ want) by (intros i Hi; apply Hu; unfold total; lia). rewrite select_by_pick. f_equal. fold total. apply sorted_ext; [apply seqZ_sorted|apply StronglySorted_filter, seqZ_sorted|]. intros x. rewrite list_elem_of_filter, !elem_of_seqZ. unfold want. destruct (Z.ltb_spec x a), (Z.leb_spec b x); cbn; (split; [intros ?; first [lia|split; [done|lia]]|intros [? ?]; first [done|lia]]).
Qed.
Lemma SelectBvWithBv_spec bv bits sel u : models bv bits -> zlen bits <= kMaxRows -> models sel u -> zlen u <= zlen (positions 0 bits) -> 0 < zlen bits -> exists rm, SelectBvWithBv bv sel = Ok rm /\ row_models rm (pick (positions 0 bits) (positions 0 u)).
Proof.
  intros H Hl Hu Hlu Hp. unfold SelectBvWithBv. destruct (models_update bv bits H sel u Hu Hp) as (bv' & E & Hm). rewrite E. cbn [obind]. eexists. split; [done|]. exists (update_set_bits bits u). split; [done|]. split; [unfold zlen in *; by rewrite length_update_set_bits|]. by rewrite positions_by_ordinal, select_by_positions.
Qed.
Lemma SelectIvWithRange_spec l a b : Forall row_ok l -> 0 <= a <= b -> b <= zlen l -> zlen l <= kMaxRows -> exists rm, SelectIvWithRange l a b = Ok rm /\ row_models rm (pick l (seqZ a (b - a))).
Proof.
  intros Hl Ha Hb Hn. unfold SelectIvWithRange. rewrite (fill_spec a b (vec_get l) (fun k => default 0 (l !! Z.to_nat k))); [|lia|].
  - eexists. split; [done|]. apply pick_vector; [done| |rewrite zlen_seqZ; lia]. apply Forall_forall. intros k Hk%elem_of_seqZ. lia.
  - intros i Hi. destruct (vec_get_inside l i ltac:(lia)) as (x & -> & ->). done.
Qed.
Lemma remove_unset_spec sel u k l : models sel u -> 0 <= k -> k + zlen l <= zlen u -> zlen u <= kMaxRows -> remove_unset k sel l = Ok (select_by (lbit u) k l).
Proof.
  intros H Hk Hl Hu. revert k Hk Hl. induction l as [|x l IH]; intros k Hk Hl; [done|]. rewrite zlen_cons in Hl. pose proof (zlen_nonneg l). cbn [remove_unset select_by]. rewrite (models_IsSet _ _ H) by lia. cbn [obind]. unfold kMaxRows in Hu. rewrite u32_small, IH by lia. cbn [obind]. by destruct (lbit u k).
Qed.
Lemma SelectIvWithBv_spec l sel u : Forall row_ok l -> zlen l <= kMaxRows -> models sel u -> zlen u <= zlen l -> exists rm, SelectIvWithBv l sel = Ok rm /\ row_models rm (pick l (positions 0 u)).
Proof.
  intros Hl Hn Hu Hlu. pose proof (zlen_nonneg u). unfold SelectIvWithBv. rewrite (models_size _ _ Hu), vec_resize_shrink by lia. assert (Ht : zlen (take (Z.to_nat (zlen u)) l) = zlen u) by (unfold zlen in *; rewrite length_take; lia). rewrite (remove_unset_spec sel u) by (done || lia). cbn [obind]. eexists. split; [done|]. rewrite select_by_take, Ht, <- positions_filter. pose proof (zlen_positions_le u). apply pick_vector; [done| |lia]. eapply Forall_impl; [apply positions_bound|]. intros i Hi. cbv beta in *. lia.
Qed.

(** ** SelectRows *)

(** The selector picks rows that exist; a bit vector is not longer than the rows. *)
Definition select_ok (sel : RowMap) (rows s : list Z) : Prop := in_rows rows s /\ (mode_ sel = kBitVector -> size_ (bit_vector_ sel) <= zlen rows).
Lemma in_rows_range rows a b : in_rows rows (seqZ a (b - a)) -> a < b -> 0 <= a /\ b <= zlen rows.
Proof.
  intros H Hab. unfold in_rows in H. rewrite Forall_forall in H. pose proof (H a ltac:(apply elem_of_seqZ; lia)). pose proof (H (b - 1) ltac:(apply elem_of_seqZ; lia)). lia.
Qed.
Lemma SelectRowsSlow_spec sel rm s rows : row_models sel s -> row_models rm rows -> select_ok sel rows s -> s <> [] -> exists rm', SelectRowsSlow sel rm = Ok rm' /\ row_models rm' (pick rows s).
Proof.
  intros Hs Hr [Hin Hbv] Hne. pose proof (rows_ok _ _ Hr) as [Hrok Hrn]. pose proof (rows_ok _ _ Hs) as [Hsok Hsn]. unfold SelectRowsSlow. unfold row_models in Hs, Hr. destruct (mode_ sel).
  - destruct Hs as (S1 & S2 & _ & ->). destruct (Z.eq_dec (start_index_ sel) (end_index_ sel)) as [E|Hlt]; [by rewrite E, Z.sub_diag in Hne|]. destruct (in_rows_range _ _ _ Hin ltac:(lia)) as [Ha Hb]. destruct (mode_ rm).
    + destruct Hr as (R1 & R2 & _ & ->). rewrite zlen_seqZ in Hb by lia. unfold SelectRangeWithRange. unfold kMaxRows in R2. rewrite !u32_small by lia. eexists. split; [done|]. rewrite pick_seqZ by (done || lia). rewrite (list_fmap_ext _ (Z.add (start_index_ rm))), fmap_add_seqZ by done. replace (end_index_ sel - start_index_ sel) with (start_index_ rm + end_index_ sel - (start_index_ rm + start_index_ sel)) by lia. apply models_range; [lia|unfold kMaxRows; lia].
    + destruct Hr as (bits & Hm & Hl & ->). by apply SelectBvWithRange_spec.
    + destruct Hr as (-> & _). apply SelectIvWithRange_spec; [done|lia|lia|done].
  - destruct Hs as (u & Hu & Hul & ->). rewrite (models_size _ _ Hu) in Hbv. specialize (Hbv eq_refl). destruct (mode_ rm).
    + destruct Hr as (R1 & R2 & _ & ->). rewrite zlen_seqZ in Hbv by lia. by apply SelectRangeWithBv_spec.
    + destruct Hr as (bits & Hm & Hl & ->). apply SelectBvWithBv_spec; try done. pose proof (zlen_positions_le bits). destruct (positions 0 u) as [|k ks] eqn:Ek; [done|]. assert (Hk : k ∈ positions 0 u) by (rewrite Ek; left). apply elem_positions in Hk. lia.
    + destruct Hr as (-> & _). by apply SelectIvWithBv_spec.
  - destruct Hs as (-> & _). destruct (mode_ rm).
    + destruct Hr as (R1 & R2 & _ & ->). by apply SelectRangeWithIv_spec.
    + destruct Hr as (bits & Hm & Hl & ->). rewrite (SelectBvWithIv_spec _ bits) by done. eexists. split; [done|]. by apply pick_vector.
    + destruct Hr as (-> & _). unfold SelectIvWithIv. rewrite SelectIvWithIv_spec by done. eexists. split; [done|]. by apply pick_vector.
Qed.
Lemma single_row i : row_ok i -> row_models (SingleRow i) [i].
Proof. unfold row_ok, kMaxRows. intros Hi. unfold SingleRow. rewrite u32_small by lia. replace [i] with (seqZ i (i + 1 - i)); [apply models_range; unfold kMaxRows; lia|]. replace (i + 1 - i) with 1 by lia. rewrite seqZ_cons, seqZ_nil by lia. done. Qed.
Lemma SelectRows_spec sel rm s rows : row_models sel s -> row_models rm rows -> select_ok sel rows s -> exists rm', SelectRows sel rm = Ok rm' /\ row_models rm' (pick rows s).
Proof.
  intros Hs Hr Hok. pose proof Hok as [Hin _]. pose proof (zlen_nonneg s). unfold SelectRows. rewrite (rm_size_spec _ _ Hs). cbn [obind]. destruct (Z.eqb_spec (zlen s) 0) as [E|Hne].
  - eexists. split; [done|]. destruct s; [|unfold zlen in E; cbn in E; lia]. done.
  - destruct (Z.eqb_spec (zlen s) 1) as [E|Hn1].
    + destruct (RowMap_Get_spec _ _ 0 Hs ltac:(lia)) as (k & Hk & ->). cbn [obind]. destruct s as [|k' [|? ?]]; [done| |unfold zlen in E; cbn in E; lia]. injection Hk as ->. unfold in_rows in Hin. rewrite Forall_singleton in Hin. destruct (RowMap_Get_spec _ _ k Hr Hin) as (i & Hi & ->). cbn [obind]. eexists. split; [done|]. unfold pick. cbn. rewrite Hi. apply single_row. by eapply row_at.
    + apply SelectRowsSlow_spec; [done..|]. by intros ->.
Qed.
