(* ===== verification/RowMapSession.v ===== *)
(** * Row maps refine lists of indices

    Filters, intersections, sorting and iteration, and the refinement for sessions of
    operations that change the representation along the way. *)

From S2P Require Import Prelude StdAlgorithms BitVector BitVectorWords BitVectorSelect BitVectorBlocks BitVectorCorrect BitVectorResize BitVectorUpdate BitVectorSession BitVectorIterators BitVectorIteration RowMap RowMapCorrect RowMapSelect.

Local Open Scope cpp_scope.

(** ** Filters *)

Definition keep (p : Z -> bool) (l : list Z) : list Z := filter (fun i => Is_true (p i)) l.
Lemma keep_app p l k : keep p (l ++ k) = keep p l ++ keep p k.
Proof. apply filter_app. Qed.
Lemma keep_singleton p i : keep p [i] = if p i then [i] else [].
Proof. unfold keep. rewrite filter_cons. destruct (p i); [destruct (decide (Is_true true)) as [|Hn]; [done|by destruct Hn]|destruct (decide (Is_true false)) as [[]|]; done]. Qed.
Lemma zlen_keep p l : zlen (keep p l) <= zlen l.
Proof. unfold zlen, keep. pose proof (length_filter (fun i => Is_true (p i)) l). lia. Qed.
Lemma keep_rows_ok p l : Forall row_ok l -> Forall row_ok (keep p l).
Proof. rewrite !Forall_forall. intros H i [_ Hi]%list_elem_of_filter. by apply H. Qed.
Lemma seqZ_snoc a n : 0 <= n -> seqZ a (n + 1) = seqZ a n ++ [a + n].
Proof. intros H. rewrite seqZ_app by lia. by rewrite (seqZ_cons (a + n) 1), (seqZ_nil (Z.succ _)) by lia. Qed.
(** The vector branch: the vector always holds the kept indices first. *)
Lemma filter_into_vector_spec count start p : 0 <= start -> 0 <= count -> start + count <= kMaxRows -> filter_into_vector count start p = Ok (keep p (seqZ start count)).
Proof.
  intros Hs Hc Hm. unfold kMaxRows in Hm. unfold filter_into_vector. destruct (for_loop_inv (fun i '(iv, out_i) => exists rest, iv = keep p (seqZ start i) ++ rest /\ out_i = zlen (keep p (seqZ start i))) 0 count (fun i '(iv, out_i) =>
    let iv := if out_i =? zlen iv then vec_resize (zlen iv + kSmallRangeLimit) 0 iv else iv in let index := u32 (i + start) in let! iv := vec_set iv out_i index in Ok (iv, u32 (out_i + if p index then 1 else 0))) (replicate (Z.to_nat (Z.min kSmallRangeLimit count)) 0, 0)) as ([iv out_i] & E & rest & -> & ->).
  - lia.
  - eexists. by split.
  - intros i [iv out_i] Hi (rest & -> & ->). set (kept := keep p (seqZ start i)). assert (Hk : zlen kept <= i) by (unfold kept; rewrite zlen_keep, zlen_seqZ by lia; lia). pose proof (zlen_nonneg kept) as Hk0. cbv zeta.
    assert (Hgrow : exists x rest', (if zlen kept =? zlen (kept ++ rest) then vec_resize (zlen (kept ++ rest) + kSmallRangeLimit) 0 (kept ++ rest) else kept ++ rest) = kept ++ x :: rest').
    { rewrite zlen_app. destruct (Z.eqb_spec (zlen kept) (zlen kept + zlen rest)) as [E|E].
      - assert (rest = []) as -> by (destruct rest; [done|rewrite zlen_cons in E; pose proof (zlen_nonneg rest); lia]). rewrite app_nil_r, vec_resize_grow by (change (zlen []) with 0; unfold kSmallRangeLimit; lia). change (zlen []) with 0. replace (Z.to_nat _) with 2048%nat by (unfold kSmallRangeLimit; lia). eexists 0, (replicate 2047 0). done.
      - destruct rest as [|x rest']; [change (zlen []) with 0 in E; lia|]. by exists x, rest'. }
    destruct Hgrow as (x & rest' & ->). rewrite (u32_small (i + start)) by lia. rewrite vec_set_inside by (rewrite zlen_app, zlen_cons; pose proof (zlen_nonneg rest'); lia). cbn [obind]. eexists. split; [done|]. rewrite seqZ_snoc, keep_app, keep_singleton by lia. fold kept. replace (start + i) with (i + start) by lia. replace (Z.to_nat (zlen kept)) with (length kept) by (unfold zlen; lia). rewrite insert_at_length. destruct (p (i + start)).
    + exists rest'. rewrite <- app_assoc, zlen_snoc, u32_small by lia. done.
    + exists (i + start :: rest'). rewrite app_nil_r, Z.add_0_r, u32_small by lia. done.
  - cbv zeta in E |- *. rewrite E. cbn [obind]. f_equal. rewrite vec_resize_shrink by (rewrite zlen_app; pose proof (zlen_nonneg rest); lia). unfold zlen. rewrite Nat2Z.id. by rewrite take_app_length.
Qed.
Lemma block_span start end_ : 0 <= start -> 0 <= end_ <= kMaxRows -> 1024 <= end_ - start -> BlockCeil start <= BlockFloor end_.
Proof.
  intros Hs He Hc. unfold kMaxRows in He. unfold BlockCeil, BlockFloor, kBlockBits, kWords, kWordBits. change (8 * 64) with 512. rewrite u32_small by lia. pose proof (Z.div_mod (start + 512 - 1) 512). pose proof (Z.mod_pos_bound (start + 512 - 1) 512). pose proof (Z.div_mod end_ 512). pose proof (Z.mod_pos_bound end_ 512). lia.
Qed.
Lemma FilterRange_spec rm p : 0 <= start_index_ rm <= end_index_ rm -> end_index_ rm <= kMaxRows -> exists rm', FilterRange p rm = Ok rm' /\ row_models rm' (keep p (seqZ (start_index_ rm) (end_index_ rm - start_index_ rm))).
Proof.
  intros Hs He. set (start := start_index_ rm) in *. set (end_ := end_index_ rm) in *. unfold FilterRange. fold start end_. cbv zeta. rewrite (u32_small (end_ - start)) by (unfold kMaxRows in He; lia). assert (Hrows : Forall row_ok (seqZ start (end_ - start)) /\ zlen (seqZ start (end_ - start)) <= kMaxRows) by apply (rows_ok _ _ (models_range start end_ kMemory Hs He)).
  destruct (_ || _ || _) eqn:Eb.
  - rewrite filter_into_vector_spec by lia. cbn [obind]. eexists. split; [done|]. apply models_indices; [pose proof (zlen_keep p (seqZ start (end_ - start))); lia|]. apply keep_rows_ok, Hrows.
  - apply orb_false_iff in Eb as [[Hsmall%Z.ltb_ge _]%orb_false_iff _]. unfold kSmallRangeLimit in Hsmall. destruct (Range_spec start end_ p) as (bv & E & Hb); [lia|by apply kMaxRows_size|apply block_span; lia|]. rewrite E. cbn [obind]. eexists. split; [done|].
    pose proof (models_of_bits _ _ _ Hb) as Hm. eexists. split; [exact Hm|]. split; [unfold zlen; rewrite length_fmap, length_seqZ; lia|]. rewrite positions_seqZ. apply sorted_ext; [apply StronglySorted_filter, seqZ_sorted..|]. intros x. unfold keep. rewrite !list_elem_of_filter, !elem_of_seqZ. destruct (Z.leb_spec start x), (Z.ltb_spec x end_), (p x); cbn; (split; [intros [? ?]|intros [? ?]]; first [lia|split; [done|lia]|done]).
Qed.
Lemma Filter_spec rm l p : row_models rm l -> exists rm', Filter p rm = Ok rm' /\ row_models rm' (keep p l).
Proof.
  intros H. pose proof (rows_ok rm l H) as [Hok Hn]. unfold Filter, row_models in *. destruct (mode_ rm) eqn:Em.
  - destruct H as (H1 & H2 & _ & ->). by apply FilterRange_spec.
  - destruct H as (bits & Hm & Hl & ->). destruct (visit_set_bits (fun it (s : unit) => let! it := if negb (p (SetBits_index it)) then SetBits_Clear it else Ok it in Ok (it, s)) (fun _ i => p i) (fun _ => tt) _ bits Hm Hl) as (bv' & E & Hb).
    + intros n i it pre _ _ _ <-. by destruct (p (SetBits_index it)).
    + rewrite E. cbn [obind]. eexists. split; [done|]. cbn [mode_ set_bit_vector]. rewrite Em. eexists. split; [apply (models_of_bits _ _ _ Hb)|]. rewrite (models_size _ _ Hm). split; [unfold zlen at 1; rewrite length_fmap, length_seqZ; unfold zlen in *; lia|]. rewrite positions_seqZ, positions_filter. unfold keep. rewrite list_filter_filter. apply list_filter_iff. intros i. destruct (lbit bits i), (p i); cbn; tauto.
  - destruct H as (-> & _). eexists. split; [done|]. cbn [mode_ index_vector_]. split; [done|]. split; [pose proof (zlen_keep p l); unfold keep in *; lia|]. by apply keep_rows_ok.
Qed.
Definition in_range (a b i : Z) : bool := (a <=? i) && (i <? b).
Lemma Intersect_spec rm l a b : row_models rm l -> 0 <= a <= kMaxRows -> exists rm', Intersect a b rm = Ok rm' /\ row_models rm' (keep (in_range a b) l).
Proof.
  intros H Ha. unfold Intersect. destruct (mode_ rm) eqn:Em; [|by apply Filter_spec..]. unfold row_models in H. rewrite Em in H. destruct H as (H1 & H2 & Hb & ->). eexists. split; [done|]. unfold row_models. cbn [mode_ start_index_ end_index_ bit_vector_]. split_and!; [lia|lia|lia|done|].
  apply sorted_ext; [apply StronglySorted_filter, seqZ_sorted|apply seqZ_sorted|]. intros x. unfold keep, in_range. rewrite list_elem_of_filter, !elem_of_seqZ. destruct (Z.leb_spec a x), (Z.ltb_spec x b); cbn; (split; [intros [? ?]|intros ?]; first [lia|split; [done|lia]|done]).
Qed.
Definition exact_rows (i : Z) (l : list Z) : list Z := if decide (i ∈ l) then [i] else [].
Lemma IntersectExact_spec rm l i : row_models rm l -> 0 <= i -> exists rm', IntersectExact i rm = Ok rm' /\ row_models rm' (exact_rows i l).
Proof.
  intros H Hi. pose proof (rows_ok rm l H) as [Hok _]. unfold IntersectExact, exact_rows. rewrite (Contains_spec _ _ _ H Hi). cbn [obind]. eexists. split; [done|]. destruct (decide (i ∈ l)) as [Hin|Hin].
  - rewrite bool_decide_eq_true_2 by done. apply single_row. by eapply Forall_forall in Hok.
  - rewrite bool_decide_eq_false_2 by done. done.
Qed.

(** ** Iterating *)

Fixpoint visit {S} (body : Z -> Z -> S -> S) (row : Z) (l : list Z) (s : S) : S := match l with [] => s | i :: l => visit body (row + 1) l (body row i s) end.
Lemma range_rows_spec {S} (body : Z -> Z -> S -> S) rm fuel i s : start_index_ rm <= i -> i <= end_index_ rm -> 0 <= start_index_ rm -> end_index_ rm <= kMaxRows -> (Z.to_nat (end_index_ rm - i) <= fuel)%nat -> range_rows fuel i rm body s = Ok (visit body (i - start_index_ rm) (seqZ i (end_index_ rm - i)) s).
Proof.
  intros H1 H2 H3 H4. unfold kMaxRows in H4. revert i s H1 H2. induction fuel as [|fuel IH]; intros i s H1 H2 Hf; cbn [range_rows]; destruct (Z.ltb_spec i (end_index_ rm)) as [Hlt|Hge]; try lia.
  1,3: by rewrite seqZ_nil by lia.
  rewrite !u32_small, IH by lia. rewrite (seqZ_cons i) by lia. cbn [visit]. do 2 f_equal; [lia|f_equal; lia].
Qed.
Lemma vector_rows_spec {S} (body : Z -> Z -> S -> S) rm fuel k s : 0 <= k -> k <= zlen (index_vector_ rm) -> zlen (index_vector_ rm) <= kMaxRows -> (Z.to_nat (zlen (index_vector_ rm) - k) <= fuel)%nat -> vector_rows fuel k rm body s = Ok (visit body k (drop (Z.to_nat k) (index_vector_ rm)) s).
Proof.
  intros H1 H2 H3. unfold kMaxRows in H3. revert k s H1 H2. induction fuel as [|fuel IH]; intros k s H1 H2 Hf; cbn [vector_rows]; destruct (Z.ltb_spec k (zlen (index_vector_ rm))) as [Hlt|Hge]; try lia.
  1,3: by rewrite drop_ge by (unfold zlen in *; lia).
  destruct (vec_get_inside (index_vector_ rm) k ltac:(lia)) as (i & Ei & ->). cbn [obind]. rewrite u32_small, IH by lia. rewrite (drop_S _ i (Z.to_nat k)) by done. cbn [visit]. do 3 f_equal. lia.
Qed.
Lemma visit_app {S} (body : Z -> Z -> S -> S) l k r s : visit body r (l ++ k) s = visit body (r + zlen l) k (visit body r l s).
Proof. revert r s. induction l as [|i l IH]; intros r s; cbn [app visit]; [by rewrite Z.add_0_r|]. rewrite IH, zlen_cons. f_equal. lia. Qed.
Lemma IterateRows_spec {S} (body : Z -> Z -> S -> S) rm l s : row_models rm l -> IterateRows rm body s = Ok (visit body 0 l s).
Proof.
  intros H. unfold IterateRows, row_models in *. destruct (mode_ rm).
  - destruct H as (H1 & H2 & _ & ->). rewrite range_rows_spec by lia. by rewrite Z.sub_diag.
  - destruct H as (bits & Hm & Hl & ->). destruct (visit_set_bits (fun it s => Ok (it, body (SetBits_ordinal it) (SetBits_index it) s)) (fun _ _ => true) (fun pre => visit body 0 pre s) _ bits Hm Hl) as (bv' & E & _).
    + intros n i it pre Hn _ -> ->. cbn [obind]. rewrite visit_app. cbn [visit]. by rewrite Z.add_0_l, Hn.
    + cbn [visit] in E. rewrite E. done.
  - destruct H as (<- & Hl & _). rewrite vector_rows_spec; [done|lia|apply zlen_nonneg|done|unfold zlen; lia].
Qed.

(** ** Sorting *)

(** The stable sort of the reference, and that it is one. *)
Fixpoint insert_ref {A} (lt : A -> A -> bool) (x : A) (l : list A) : list A := match l with [] => [x] | y :: l' => if lt y x then y :: insert_ref lt x l' else x :: l end.
Definition sort_ref {A} (lt : A -> A -> bool) (l : list A) : list A := foldr (insert_ref lt) [] l.
Lemma insert_ref_permutation {A} (lt : A -> A -> bool) x l : insert_ref lt x l ≡ₚ x :: l.
Proof. induction l as [|y l IH]; [done|]. cbn. destruct (lt y x); [|done]. rewrite IH. constructor. Qed.
Lemma sort_ref_permutation {A} (lt : A -> A -> bool) l : sort_ref lt l ≡ₚ l.
Proof. induction l as [|x l IH]; [done|]. cbn. by rewrite insert_ref_permutation, IH. Qed.
Lemma sort_ref_sorted {A} (lt : A -> A -> bool) l : (forall x y, lt x y = true -> lt y x = false) -> (forall x y z, lt y x = false -> lt z y = false -> lt z x = false) -> sorted_by lt (sort_ref lt l).
Proof.
  intros Hasym Htrans. induction l as [|x l IH]; [constructor|]. cbn. fold (sort_ref lt l). induction IH as [|y k Hk IHk Hy]; [constructor; constructor|]. cbn. destruct (lt y x) eqn:E.
  - constructor; [done|]. rewrite insert_ref_permutation. constructor; [|done]. by apply Hasym.
  - constructor; [by constructor|]. constructor; [done|]. eapply Forall_impl; [exact Hy|]. intros z Hz. by apply (Htrans x y z).
Qed.
(** Equal elements stay in the order they had: those that are neither less nor greater than
    some [z], by a test on which the order agrees. *)
Lemma sort_ref_stable {A} (lt : A -> A -> bool) (same : A -> bool) l : (forall x y, same x = true -> same y = true -> lt y x = false) -> filter (fun x => Is_true (same x)) (sort_ref lt l) = filter (fun x => Is_true (same x)) l.
Proof.
  intros H. induction l as [|x l IH]; [done|]. cbn [sort_ref foldr]. fold (sort_ref lt l). rewrite (filter_cons _ x l), <- IH. generalize (sort_ref lt l). intros k. induction k as [|y k IHk]; [by cbn [insert_ref]; rewrite filter_cons|]. cbn [insert_ref]. destruct (lt y x) eqn:E; [|by rewrite (filter_cons _ x)].
  rewrite (filter_cons _ y), IHk, (filter_cons _ y). destruct (decide (Is_true (same y))) as [Hy|Hy], (decide (Is_true (same x))) as [Hx|Hx]; try done. rewrite (H x y) in E; [done|by destruct (same x)|by destruct (same y)].
Qed.
Lemma insert_stable_spec {A} (lt : A -> A -> outcome bool) (lt' : A -> A -> bool) x l : (forall y, y ∈ l -> lt y x = Ok (lt' y x)) -> insert_stable lt x l = Ok (insert_ref lt' x l).
Proof. induction l as [|y l IH]; intros H; [done|]. cbn. rewrite (H y) by left. cbn [obind]. destruct (lt' y x); [|done]. rewrite IH; [done|]. intros z Hz. apply H. by right. Qed.
Lemma stable_sort_spec {A} (lt : A -> A -> outcome bool) (lt' : A -> A -> bool) l : (forall x y, x ∈ l -> y ∈ l -> lt y x = Ok (lt' y x)) -> stable_sort lt l = Ok (sort_ref lt' l).
Proof.
  induction l as [|x l IH]; intros H; [done|]. cbn. rewrite IH by (intros a b Ha Hb; apply H; by right). cbn [obind]. apply insert_stable_spec. intros y Hy. fold (sort_ref lt' l) in Hy. apply (elem_of_Permutation_proper _ _ _ (sort_ref_permutation lt' l)) in Hy. apply H; [left|by right].
Qed.
Lemma StableSort_spec rm l out c : row_models rm l -> in_rows l out -> StableSort out c rm = Ok (sort_ref (fun a b => c (default 0 (l !! Z.to_nat a)) (default 0 (l !! Z.to_nat b))) out).
Proof.
  intros H Hin. apply stable_sort_spec. intros x y Hx Hy. unfold in_rows in Hin. rewrite Forall_forall in Hin. destruct (RowMap_Get_spec rm l x H (Hin x Hx)) as (i & -> & ->). destruct (RowMap_Get_spec rm l y H (Hin y Hy)) as (j & -> & ->). done.
Qed.

(** ** Sessions *)

Inductive selector := SelRange (a b : Z) | SelBits (bits : list bool) | SelIndices (l : list Z).
Inductive row_op := OpInsert (i : Z) | OpSelect (s : selector) | OpFilter (p : Z -> bool) | OpIntersect (a b : Z) | OpExact (i : Z) | OpCopy | OpGet (row : Z) | OpContains (i : Z) | OpRowOf (i : Z) | OpSize | OpSort (out : list Z) (c : Z -> Z -> bool) | OpRows.
Inductive row_result := ResNone | ResIndex (i : Z) | ResBool (b : bool) | ResRow (r : option Z) | ResRows (l : list Z) | ResPairs (l : list (Z * Z)).
Definition selector_map (s : selector) : outcome RowMap :=
  match s with
  | SelRange a b => Ok (RowMap_range a b kMemory)
  | SelBits bits => let! bv := BitVector_of bits in Ok (RowMap_bits bv)
  | SelIndices l => Ok (RowMap_indices l)
  end.
Definition selector_rows (s : selector) : list Z := match s with SelRange a b => seqZ a (b - a) | SelBits bits => positions 0 bits | SelIndices l => l end.
Definition inside_rows (l : list Z) (k : Z) : bool := (0 <=? k) && (k <? zlen l).
(** The rows exist, and a bit vector is not longer than the list. *)
Definition selector_fits (s : selector) (l : list Z) : bool :=
  forallb (inside_rows l) (selector_rows s) &&
  match s with SelRange a b => (0 <=? a) && (a <=? b) && (b <=? kMaxRows) | SelBits bits => zlen bits <=? zlen l | SelIndices l' => zlen l' <=? kMaxRows end.
Definition pairs (l : list Z) : list (Z * Z) := visit (fun r i s => s ++ [(r, i)]) 0 l [].
(** An operation on the list of indices, when its precondition holds: a list is sorted by the
    indices it contains when one is inserted, and an index that is there is not inserted
    again. *)
Definition rows_op (o : row_op) (l : list Z) : option (row_result * list Z) :=
  match o with
  | OpInsert i => if decide (row_ok i /\ zlen l < kMaxRows /\ StronglySorted Z.le l) then Some (ResNone, if decide (i ∈ l) then l else insert_sorted i l) else None
  | OpSelect s => if selector_fits s l then Some (ResNone, pick l (selector_rows s)) else None
  | OpFilter p => Some (ResNone, keep p l)
  | OpIntersect a b => if (0 <=? a) && (a <=? kMaxRows) then Some (ResNone, keep (in_range a b) l) else None
  | OpExact i => if 0 <=? i then Some (ResNone, exact_rows i l) else None
  | OpCopy => Some (ResNone, l)
  | OpGet row => if inside_rows l row then Some (ResIndex (default 0 (l !! Z.to_nat row)), l) else None
  | OpContains i => if 0 <=? i then Some (ResBool (bool_decide (i ∈ l)), l) else None
  | OpRowOf i => if 0 <=? i then Some (ResRow (row_of l i), l) else None
  | OpSize => Some (ResIndex (zlen l), l)
  | OpSort out c => if forallb (inside_rows l) out then Some (ResRows (sort_ref (fun a b => c (default 0 (l !! Z.to_nat a)) (default 0 (l !! Z.to_nat b))) out), l) else None
  | OpRows => Some (ResPairs (pairs l), l)
  end.
Definition map_op (o : row_op) (rm : RowMap) : outcome (row_result * RowMap) :=
  match o with
  | OpInsert i => let! rm := Insert i rm in Ok (ResNone, rm)
  | OpSelect s => let! sel := selector_map s in let! rm := SelectRows sel rm in Ok (ResNone, rm)
  | OpFilter p => let! rm := Filter p rm in Ok (ResNone, rm)
  | OpIntersect a b => let! rm := Intersect a b rm in Ok (ResNone, rm)
  | OpExact i => let! rm := IntersectExact i rm in Ok (ResNone, rm)
  | OpCopy => Ok (ResNone, Copy rm)
  | OpGet row => let! i := Get row rm in Ok (ResIndex i, rm)
  | OpContains i => let! b := Contains i rm in Ok (ResBool b, rm)
  | OpRowOf i => let! r := RowOf i rm in Ok (ResRow r, rm)
  | OpSize => let! n := rm_size rm in Ok (ResIndex n, rm)
  | OpSort out c => let! out := StableSort out c rm in Ok (ResRows out, rm)
  | OpRows => let! l := IterateRows rm (fun r i s => s ++ [(r, i)]) [] in Ok (ResPairs l, rm)
  end.
Fixpoint rows_run (ops : list row_op) (l : list Z) : option (list row_result * list Z) :=
  match ops with
  | [] => Some ([], l)
  | o :: ops => '(r, l) ← rows_op o l; '(rs, l) ← rows_run ops l; Some (r :: rs, l)
  end.
Fixpoint map_run (ops : list row_op) (rm : RowMap) : outcome (list row_result * RowMap) :=
  match ops with
  | [] => Ok ([], rm)
  | o :: ops => let! (r, rm) := map_op o rm in let! (rs, rm) := map_run ops rm in Ok (r :: rs, rm)
  end.
(** Where the code is known to differ: Insert in the index vector mode does not look whether
    the index is there ([insert_of_a_present_index]). *)
Definition duplicates (o : row_op) (rm : RowMap) (l : list Z) : bool :=
  match o, mode_ rm with
  | OpInsert i, kIndexVector => bool_decide (i ∈ l)
  | _, _ => false
  end.
Fixpoint avoids_duplicates (ops : list row_op) (rm : RowMap) (l : list Z) : bool :=
  match ops with
  | [] => true
  | o :: ops => negb (duplicates o rm l) && match map_op o rm, rows_op o l with Ok (_, rm), Some (_, l) => avoids_duplicates ops rm l | _, _ => true end
  end.
Lemma inside_rows_spec l k : inside_rows l k = true <-> 0 <= k < zlen l.
Proof. unfold inside_rows. lia. Qed.
Lemma all_inside l sel : forallb (inside_rows l) sel = true -> in_rows l sel.
Proof. induction sel as [|k sel IH]; cbn; [constructor|]. intros [Hk H]%andb_true_iff. constructor; [by apply inside_rows_spec|by apply IH]. Qed.
Lemma Copy_spec rm l : row_models rm l -> row_models (Copy rm) l.
Proof. unfold row_models, Copy. destruct (mode_ rm); cbn; [intros (H1 & H2 & _ & H3); split_and!; [lia|lia|lia|done|done]|done..]. Qed.
Lemma selector_spec s l : selector_fits s l = true -> zlen l <= kMaxRows -> exists sel, selector_map s = Ok sel /\ row_models sel (selector_rows s) /\ select_ok sel l (selector_rows s).
Proof.
  unfold selector_fits. intros [Hin%all_inside Hs]%andb_true_iff Hl. destruct s as [a b|bits|l']; cbn [selector_map selector_rows] in *.
  - eexists. split; [done|]. split; [apply models_range; lia|]. by split.
  - pose proof (zlen_nonneg bits). destruct (BitVector_of_spec bits) as (bv & -> & Hm); [apply kMaxRows_size; lia|]. cbn [obind]. eexists. split; [done|]. split; [apply models_bits; [done|lia]|]. split; [done|]. intros _. cbn. rewrite (models_size _ _ Hm). lia.
  - eexists. split; [done|]. split; [|by split]. apply models_indices; [lia|]. eapply Forall_impl; [exact Hin|]. intros k Hk. unfold row_ok. cbv beta in Hk. lia.
Qed.
Lemma map_op_correct o rm l r l' : row_models rm l -> rows_op o l = Some (r, l') -> duplicates o rm l = false -> exists rm', map_op o rm = Ok (r, rm') /\ row_models rm' l'.
Proof.
  intros H Ho Hd. pose proof (rows_ok rm l H) as [Hok Hn]. destruct o as [i|s|p|a b|i| |row|i|i| |out c|]; cbn [rows_op map_op] in *.
  - destruct (decide _) as [(Hi & Hlen & Hs)|]; [|done]. injection Ho as <- <-. destruct (RowMap_Insert_spec rm l i H Hi) as (rm' & -> & Hm); [by intros _|]. exists rm'. split; [done|]. cbn [duplicates] in Hd. unfold insert_row in Hm. destruct (mode_ rm); [done|done|]. apply bool_decide_eq_false in Hd. by destruct (decide (i ∈ l)).
  - destruct (selector_fits s l) eqn:Es; [|done]. injection Ho as <- <-. destruct (selector_spec s l Es Hn) as (sel & -> & Hsel & Hfit). cbn [obind]. destruct (SelectRows_spec sel rm _ _ Hsel H Hfit) as (rm' & -> & Hm). by exists rm'.
  - injection Ho as <- <-. destruct (Filter_spec rm l p H) as (rm' & -> & Hm). by exists rm'.
  - destruct ((0 <=? a) && (a <=? kMaxRows)) eqn:Ea; [|done]. injection Ho as <- <-. destruct (Intersect_spec rm l a b H ltac:(lia)) as (rm' & -> & Hm). by exists rm'.
  - destruct (Z.leb_spec 0 i); [|done]. injection Ho as <- <-. destruct (IntersectExact_spec rm l i H) as (rm' & -> & Hm); [done|]. by exists rm'.
  - injection Ho as <- <-. eexists. split; [done|]. by apply Copy_spec.
  - destruct (inside_rows l row) eqn:Er; [|done]. injection Ho as <- <-. apply inside_rows_spec in Er. destruct (RowMap_Get_spec rm l row H Er) as (i & -> & ->). by exists rm.
  - destruct (Z.leb_spec 0 i); [|done]. injection Ho as <- <-. rewrite (Contains_spec rm l i H) by done. by exists rm.
  - destruct (Z.leb_spec 0 i); [|done]. injection Ho as <- <-. rewrite (RowOf_spec rm l i H) by done. by exists rm.
  - injection Ho as <- <-. rewrite (rm_size_spec rm l H). by exists rm.
  - destruct (forallb _ out) eqn:Eo; [|done]. injection Ho as <- <-. rewrite (StableSort_spec rm l out c H) by by apply all_inside. by exists rm.
  - injection Ho as <- <-. rewrite (IterateRows_spec _ rm l _ H). by exists rm.
Qed.
(** C28. In every session of insertions, selections by ranges, bit vectors and index vectors,
    filters, intersections, sorts and iterations, with rows and indices in range and
    insertions only into row maps sorted by the indices they contain, a row map of any mode
    succeeds with the results of the same session on a plain list of indices, whatever
    representations it passes through, if the session avoids one known defect: inserting an
    index that is already in a row map of the index vector mode. *)
Theorem row_map_refines_list ops rm l rs l' : row_models rm l -> rows_run ops l = Some (rs, l') -> avoids_duplicates ops rm l = true ->
  exists rm', map_run ops rm = Ok (rs, rm') /\ row_models rm' l'.
Proof.
  revert rm l rs l'. induction ops as [|o ops IH]; intros rm l rs l' H Hr Hd; cbn [rows_run map_run avoids_duplicates] in *; [injection Hr as <- <-; by exists rm|].
  destruct (rows_op o l) as [[r l1]|] eqn:Eo; [|done]. apply andb_true_iff in Hd as [Hd%negb_true_iff Hds]. cbn [mbind option_bind] in Hr. destruct (rows_run ops l1) as [[rs1 l2]|] eqn:Er; [|done]. injection Hr as <- <-.
  destruct (map_op_correct o rm l r l1 H Eo Hd) as (rm1 & E1 & H1). rewrite E1 in Hds |- *. cbn [obind]. destruct (IH rm1 l1 rs1 l2 H1 Er Hds) as (rm' & -> & H'). by exists rm'.
Qed.
Lemma row_map_refines_list_witness :
  let ops := [OpInsert 5; OpInsert 12; OpInsert 12; OpInsert 2; OpSelect (SelBits [true; false; true; true; true]); OpRowOf 12; OpIntersect 5 100; OpSelect (SelIndices [2; 0; 2]); OpSort [0; 1; 2] Z.ltb; OpRows; OpExact 5; OpSize] in
  exists rm, map_run ops (RowMap_range 4 7 kMemory) = Ok ([ResNone; ResNone; ResNone; ResNone; ResNone; ResRow (Some 3); ResNone; ResNone; ResRows [1; 0; 2]; ResPairs [(0, 12); (1, 5); (2, 12)]; ResNone; ResIndex 1], rm) /\ row_models rm [5].
Proof. intros ops. apply (row_map_refines_list ops (RowMap_range 4 7 kMemory) [4; 5; 6]); [cbn; unfold kMaxRows; split_and!; [lia|lia|lia|reflexivity|reflexivity]|vm_compute; reflexivity|vm_compute; reflexivity]. Defined.
(** An index that is there already is left alone by Insert in the range and bit vector
    modes, and inserted a second time in the index vector mode. *)
Theorem insert_of_a_present_index rm l i : row_models rm l -> i ∈ l -> StronglySorted Z.lt l -> zlen l < kMaxRows ->
  exists rm', Insert i rm = Ok rm' /\ row_models rm' (match mode_ rm with kIndexVector => insert_sorted i l | _ => l end).
Proof.
  intros H Hi Hs Hn. destruct (rows_ok rm l H) as [Hok _]. destruct (RowMap_Insert_spec rm l i H) as (rm' & E & Hm).
  - by eapply Forall_forall in Hok.
  - intros _. split; [|done]. clear -Hs. induction Hs as [|x l Hl IH Hx]; constructor; [done|]. eapply Forall_impl; [exact Hx|]. intros y Hy. cbv beta in Hy. lia.
  - exists rm'. split; [done|]. unfold insert_row in Hm. destruct (mode_ rm); try done; by destruct (decide (i ∈ l)).
Qed.
