(* ===== verification/SharedRingBuffer.v ===== *)
(** * The ring buffer between a profiled process and heapprofd
    (src/profiling/memory/shared_ring_buffer.cc, shared_ring_buffer.h, scoped_spinlock.cc, scoped_spinlock.h)

    Threads of the profiled process write records under a spinlock, one thread of the
    service reads them.  The code that touches shared memory is a program: a tree of atomic
    accesses (of the metadata page, of record headers) and of accesses to single bytes of
    payloads.  A program can be run against the memory, interleaved with other programs
    (SharedRingBufferSession), or answered by a peer that writes whatever it likes into the
    shared memory (SharedRingBufferLogic). *)

From stdpp Require Import functions.
From S2P Require Import Prelude.

(** ** Constants *)

Definition kPageSize : Z := 4096.
Definition kMetaPageSize : Z := kPageSize.
Definition kAlignment : Z := 8.
Definition kHeaderSize : Z := kAlignment.
(** F_SEAL_SHRINK | F_SEAL_GROW | F_SEAL_SEAL. *)
Definition kFDSeals : Z := 2 .| 4 .| 1.
Definition kSleepAttempts : Z := 1000.
Definition kLockAttemptsPerSleep : Z := 1024.
Definition kSleepDurationUs : Z := 1000.

(** ** Data *)

Inductive ErrorState := kNoError | kHitTimeout | kInvalidStackBounds.
Definition ErrorState_value (e : ErrorState) : Z := match e with kNoError => 0 | kHitTimeout => 1 | kInvalidStackBounds => 2 end.
Inductive Mode := Try | Blocking.
(** The errno values the code sets. *)
Inductive Errno := EBADF | EINVAL | EAGAIN | EMSGSIZE.

Record Stats := mkStats {
  bytes_written : Z; num_writes_succeeded : Z; num_writes_corrupt : Z; num_writes_overflow : Z;
  num_reads_succeeded : Z; num_reads_corrupt : Z; num_reads_nodata : Z;
  failed_spinlocks : Z; client_spinlock_blocked_us : Z; error_state : Z
}.
Definition Stats_new : Stats := mkStats 0 0 0 0 0 0 0 0 0 0.

(** The atomic words of MetadataPage, the spinlock's two bytes included. *)
Inductive field :=
| f_locked | f_poisoned | f_read_pos | f_write_pos | f_client_spinlock_blocked_us | f_failed_spinlocks
| f_error_state | f_shutting_down | f_reader_paused.
#[export] Instance field_eq_dec : EqDecision field.
Proof. solve_decision. Defined.
Definition field_width (f : field) : Z :=
  match f with f_locked | f_poisoned | f_shutting_down | f_reader_paused => 8 | _ => 64 end.

(** What a process sees through its mapping: the atomics, the plain stats and the physical
    bytes of the ring, which is mapped twice, one copy after the other. *)
Record Shared := mkShared { atomics : field -> Z; stats : Stats; ring_mem : list Z }.

(** The private part of a SharedRingBuffer that is valid: size_ and size_mask_. *)
Record Ring := mkRing { size_ : Z; size_mask_ : Z }.
Definition set_size (size : Z) : Ring := mkRing size (size - 1).

(** A Buffer: [b_data] is the offset of data from mem_, None for nullptr. *)
Record Buffer := mkBuffer { b_data : option Z; b_size : Z; bytes_free : Z }.
Definition Buffer_null : Buffer := mkBuffer None 0 0.
Record PointerPositions := mkPositions { read_pos : Z; write_pos : Z }.
(** A lock handle: whether it holds the lock, and blocked_us_. *)
Record ScopedSpinlock := mkSpinlock { locked_ : bool; blocked_us_ : Z }.

(** ** Programs *)

Inductive stat_event :=
| stat_write (size : Z) | stat_write_corrupt | stat_write_overflow
| stat_read | stat_read_corrupt | stat_read_nodata.
(** One access.  Offsets are from mem_; a byte or header may be in either copy. *)
Inductive op :=
| Load (f : field)
| Store (f : field) (v : Z)
| FetchAdd (f : field) (n : Z)
| Exchange (f : field) (v : Z)
| LoadHeader (off : Z)               (* atomic<uint32_t> *)
| StoreHeader (off v : Z)
| LoadByte (off : Z)
| StoreByte (off b : Z)
| Count (e : stat_event)             (* meta_->stats.x += n, by its only writer *)
| CopyStats
| SetErrno (e : Errno)
| Usleep (us : Z).
Definition resp (o : op) : Type :=
  match o with
  | Load _ | FetchAdd _ _ | Exchange _ _ | LoadHeader _ | LoadByte _ => Z
  | CopyStats => Stats
  | _ => unit
  end.

(** [Loop S B s body k] runs [body] from [s] until it gives an [inr], and goes on with [k]. *)
Inductive prog (A : Type) : Type :=
| Ret (a : A)
| Do (o : op) (k : resp o -> prog A)
| Loop (S B : Type) (s : S) (body : S -> prog (S + B)) (k : B -> prog A).
Arguments Ret {A} a.
Arguments Do {A} o k.
Arguments Loop {A S B} s body k.

Fixpoint bind {A C} (p : prog A) (f : A -> prog C) : prog C :=
  match p with
  | Ret a => f a
  | Do o k => Do o (fun x => bind (k x) f)
  | Loop s body k => Loop s body (fun b => bind (k b) f)
  end.
Definition call (o : op) : prog (resp o) := Do o Ret.
Definition while {S B} (body : S -> prog (S + B)) (s : S) : prog B := Loop s body Ret.
Notation "'let@' x := p 'in' q" := (bind p (fun x => q)) (at level 10, x pattern, p at level 100, q at level 200) : cpp_scope.
Notation "p ;@ q" := (bind p (fun _ => q)) (at level 199, right associativity) : cpp_scope.

(** ** Running a program against the memory, one access at a time *)

Definition set_atomic (f : field) (v : Z) (sh : Shared) : Shared := mkShared (<[f := v]> (atomics sh)) (stats sh) (ring_mem sh).
Definition set_stats (st : Stats) (sh : Shared) : Shared := mkShared (atomics sh) st (ring_mem sh).
Definition set_mem (m : list Z) (sh : Shared) : Shared := mkShared (atomics sh) (stats sh) m.
Definition count (e : stat_event) (st : Stats) : Stats :=
  let '(mkStats bw ws wc wo rs rc rn fs cs es) := st in
  match e with
  | stat_write size => mkStats (u64 (bw + size)) (u64 (ws + 1)) wc wo rs rc rn fs cs es
  | stat_write_corrupt => mkStats bw ws (u64 (wc + 1)) wo rs rc rn fs cs es
  | stat_write_overflow => mkStats bw ws wc (u64 (wo + 1)) rs rc rn fs cs es
  | stat_read => mkStats bw ws wc wo (u64 (rs + 1)) rc rn fs cs es
  | stat_read_corrupt => mkStats bw ws wc wo rs (u64 (rc + 1)) rn fs cs es
  | stat_read_nodata => mkStats bw ws wc wo rs rc (u64 (rn + 1)) fs cs es
  end.
(** [n] bytes at [off] lie in the double mapping of a ring of [size] bytes; a header is
    aligned, as its atomic type requires. *)
Definition mapped (size off n : Z) : bool := (0 <=? off) && (off + n <=? 2 * size).
Definition aligned (off : Z) : bool := off `mod` kAlignment =? 0.
Definition phys (m : list Z) (off : Z) : Z := off `mod` zlen m.

Definition exec_op (o : op) (sh : Shared) : outcome (resp o * Shared) :=
  let m := ring_mem sh in
  match o with
  | Load f => Ok (atomics sh f, sh)
  | Store f v => Ok (tt, set_atomic f v sh)
  | FetchAdd f n => Ok (atomics sh f, set_atomic f (uw (field_width f) (atomics sh f + n)) sh)
  | Exchange f v => Ok (atomics sh f, set_atomic f v sh)
  | LoadHeader off =>
      check! mapped (zlen m) off 4 && aligned off in Ok (le_value (zread (phys m off) 4 m), sh)
  | StoreHeader off v =>
      check! mapped (zlen m) off 4 && aligned off in Ok (tt, set_mem (zwrite (phys m off) (le_bytes 4 v) m) sh)
  | LoadByte off => check! mapped (zlen m) off 1 in Ok (znth m (phys m off), sh)
  | StoreByte off b => check! mapped (zlen m) off 1 in Ok (tt, set_mem (<[Z.to_nat (phys m off) := b]> m) sh)
  | Count e => Ok (tt, set_stats (count e (stats sh)) sh)
  | CopyStats => Ok (stats sh, sh)
  | SetErrno _ | Usleep _ => Ok (tt, sh)
  end.
(** One step of a program that has not returned. *)
Definition step {A} (p : prog A) (sh : Shared) : outcome (prog A * Shared) :=
  match p with
  | Ret a => Ok (Ret a, sh)
  | Do o k => let! r := exec_op o sh in Ok (k r.1, r.2)
  | Loop s body k => Ok (bind (body s) (fun r => match r with inl s => Loop s body k | inr b => k b end), sh)
  end.
(** The program alone, for at most [fuel] steps. *)
Fixpoint run {A} (fuel : nat) (p : prog A) (sh : Shared) : outcome (A * Shared) :=
  match p, fuel with
  | Ret a, _ => Ok (a, sh)
  | _, O => Crash
  | _, S fuel => let! r := step p sh in run fuel r.1 r.2
  end.

(** ** The spinlock *)

Definition PoisonSpinlock : prog unit := call (Store f_poisoned 1).
Definition LockSlow_body (mode : Mode) (s : Z * Z) : prog (Z * Z + ScopedSpinlock) :=
  let '(attempt, sleeps) := s in
  let next :=
    if attempt `mod` kLockAttemptsPerSleep =? 0
    then call (Usleep kSleepDurationUs) ;@ Ret (inl (u64 (attempt + 1), u64 (sleeps + 1)))
    else Ret (inl (u64 (attempt + 1), sleeps)) in
  if match mode with Blocking => true | Try => attempt <? kLockAttemptsPerSleep * kSleepAttempts end then
    let@ l := call (Load f_locked) in
    if l =? 0 then
      let@ l := call (Exchange f_locked 1) in
      if l =? 0 then Ret (inr (mkSpinlock true (u64 (kSleepDurationUs * sleeps)))) else next
    else next
  else Ret (inr (mkSpinlock false (u64 (kSleepDurationUs * sleeps)))).
Definition LockSlow (mode : Mode) : prog ScopedSpinlock := while (LockSlow_body mode) (1, 0).
Definition ScopedSpinlock_new (mode : Mode) : prog ScopedSpinlock :=
  let@ poisoned := call (Load f_poisoned) in
  if negb (poisoned =? 0) then Ret (mkSpinlock false 0)
  else
    let@ l := call (Exchange f_locked 1) in
    if l =? 0 then Ret (mkSpinlock true 0) else LockSlow mode.
Definition Unlock (lock : ScopedSpinlock) : prog ScopedSpinlock :=
  (if locked_ lock then call (Store f_locked 0) else Ret tt) ;@ Ret (mkSpinlock false (blocked_us_ lock)).
Definition AcquireLock (mode : Mode) : prog ScopedSpinlock :=
  let@ lock := ScopedSpinlock_new mode in
  (if negb (locked_ lock) then call (FetchAdd f_failed_spinlocks 1) ;@ Ret tt else Ret tt) ;@ Ret lock.

(** ** Positions *)

Definition AlignUp_size (size : Z) : Z := u64 (AlignUp kAlignment size).
Definition IsCorrupt (R : Ring) (pos : PointerPositions) : bool :=
  (write_pos pos <? read_pos pos) || (size_ R <? u64 (write_pos pos - read_pos pos))
  || negb (write_pos pos `mod` kAlignment =? 0) || negb (read_pos pos `mod` kAlignment =? 0).
Definition GetPointerPositions (R : Ring) : prog (option PointerPositions) :=
  let@ w := call (Load f_write_pos) in
  let@ r := call (Load f_read_pos) in
  let pos := mkPositions r w in
  Ret (if IsCorrupt R pos then None else Some pos).
Definition read_avail_of (pos : PointerPositions) : Z := u64 (write_pos pos - read_pos pos).
Definition write_avail_of (R : Ring) (pos : PointerPositions) : Z := u64 (size_ R - read_avail_of pos).
(** at(), as an offset from mem_. *)
Definition at_ (R : Ring) (pos : Z) : Z := pos .& size_mask_ R.
Definition write_avail (R : Ring) : prog Z :=
  let@ pos := GetPointerPositions R in Ret (match pos with None => 0 | Some pos => write_avail_of R pos end).
Definition read_avail (R : Ring) : prog Z :=
  let@ pos := GetPointerPositions R in Ret (match pos with None => 0 | Some pos => read_avail_of pos end).

(** ** Writing and reading *)

Definition BeginWrite (R : Ring) (spinlock : ScopedSpinlock) (size : Z) : prog Buffer :=
  let@ opt_pos := GetPointerPositions R in
  match opt_pos with
  | None => call (Count stat_write_corrupt) ;@ call (SetErrno EBADF) ;@ Ret Buffer_null
  | Some pos =>
      let size_with_header := AlignUp_size (u64 (size + kHeaderSize)) in
      if size_with_header <? size then call (SetErrno EINVAL) ;@ Ret Buffer_null
      else if write_avail_of R pos <? size_with_header
      then call (Count stat_write_overflow) ;@ call (SetErrno EAGAIN) ;@ Ret Buffer_null
      else
        let wr_ptr := at_ R (write_pos pos) in
        let result := mkBuffer (Some (wr_ptr + kHeaderSize)) size (write_avail_of R pos) in
        call (Count (stat_write size)) ;@
        call (StoreHeader wr_ptr 0) ;@
        call (FetchAdd f_write_pos size_with_header) ;@
        Ret result
  end.
Definition EndWrite (buf : Buffer) : prog unit :=
  match b_data buf with
  | None => Ret tt
  | Some data => call (StoreHeader (data - kHeaderSize) (u32 (b_size buf)))
  end.
Definition BeginRead (R : Ring) : prog Buffer :=
  let@ opt_pos := GetPointerPositions R in
  match opt_pos with
  | None => call (Count stat_read_corrupt) ;@ call (SetErrno EBADF) ;@ Ret Buffer_null
  | Some pos =>
      let avail_read := read_avail_of pos in
      if avail_read <? kHeaderSize then call (Count stat_read_nodata) ;@ call (SetErrno EAGAIN) ;@ Ret Buffer_null
      else
        let rd_ptr := at_ R (read_pos pos) in
        let@ size := call (LoadHeader rd_ptr) in
        if size =? 0 then call (Count stat_read_nodata) ;@ call (SetErrno EAGAIN) ;@ Ret Buffer_null
        else
          let size_with_header := AlignUp_size (u64 (size + kHeaderSize)) in
          if avail_read <? size_with_header then call (Count stat_read_corrupt) ;@ call (SetErrno EBADF) ;@ Ret Buffer_null
          else Ret (mkBuffer (Some (rd_ptr + kHeaderSize)) size (write_avail_of R pos))
  end.
Definition EndRead (buf : Buffer) : prog Z :=
  match b_data buf with
  | None => Ret 0
  | Some _ =>
      let size_with_header := AlignUp_size (u64 (b_size buf + kHeaderSize)) in
      call (FetchAdd f_read_pos size_with_header) ;@ call (Count stat_read) ;@ Ret size_with_header
  end.

(** ** The other fields of the metadata page *)

Definition GetStats (spinlock : ScopedSpinlock) : prog Stats :=
  let@ st := call CopyStats in
  let@ failed := call (Load f_failed_spinlocks) in
  let@ error := call (Load f_error_state) in
  let@ blocked := call (Load f_client_spinlock_blocked_us) in
  Ret (mkStats (bytes_written st) (num_writes_succeeded st) (num_writes_corrupt st) (num_writes_overflow st)
         (num_reads_succeeded st) (num_reads_corrupt st) (num_reads_nodata st) failed blocked error).
Definition SetErrorState (e : ErrorState) : prog unit := call (Store f_error_state (ErrorState_value e)).
Definition AddClientSpinlockBlockedUs (n : Z) : prog unit := call (FetchAdd f_client_spinlock_blocked_us n) ;@ Ret tt.
Definition load_client_spinlock_blocked_us : prog Z := call (Load f_client_spinlock_blocked_us).
Definition SetShuttingDown : prog unit := call (Store f_shutting_down 1).
Definition shutting_down : prog bool := let@ v := call (Load f_shutting_down) in Ret (negb (v =? 0)).
Definition SetReaderPaused : prog unit := call (Store f_reader_paused 1).
Definition GetAndResetReaderPaused : prog bool := let@ v := call (Exchange f_reader_paused 0) in Ret (negb (v =? 0)).
Definition InfiniteBufferForTesting (R : Ring) : Ring := mkRing ((2 ^ 64 - 1) `div` 2) (size_mask_ R).

(** ** Creation.  [android] is the build that checks the seals; [seals] and [st_size] are
    what fcntl() and fstat() give (None when they fail), the booleans whether mmap() works. *)

Definition Initialize (android : bool) (seals st_size : option Z) (region_ok maps_ok : bool) : option Ring :=
  let sealed := match seals with None => false | Some seals => seals .& kFDSeals =? kFDSeals end in
  if android && negb sealed then None
  else match st_size with
  | None => None
  | Some st_size =>
      if st_size =? 0 then None
      else
        let size_with_meta := u64 st_size in
        let size := u64 (size_with_meta - kMetaPageSize) in
        if (size_with_meta <? 2 * kPageSize) || negb (size `mod` kPageSize =? 0) || negb (size .& u64 (size - 1) =? 0) then None
        else if negb region_ok then None
        else if negb maps_ok then None
        else Some (set_size size)
  end.
(** new (meta_) MetadataPage() on the zeros of ftruncate(). *)
Definition Shared_new (size : Z) : Shared := mkShared (fun _ => 0) Stats_new (zeros size).
(** Create, from where it has a file: ftruncate() fails on a size that off_t cannot hold.
    [seals] are those that F_ADD_SEALS has put on it. *)
Definition Create (android : bool) (seals : option Z) (region_ok maps_ok : bool) (size : Z) : outcome (option (Ring * Shared)) :=
  let size_with_meta := u64 (size + kMetaPageSize) in
  check! size_with_meta <? 2 ^ 63 in
  Ok (match Initialize android seals (Some size_with_meta) region_ok maps_ok with
      | None => None
      | Some R => Some (R, Shared_new (size_ R))
      end).
Definition Attach (android : bool) (seals st_size : option Z) (region_ok maps_ok : bool) : option Ring :=
  Initialize android seals st_size region_ok maps_ok.
