(* ===== verification/WireProtocol.v ===== *)
(** * The messages of heapprofd's clients and their handling
    (src/profiling/memory/wire_protocol.cc, wire_protocol.h, unwinding.cc, unwinding.h)

    A client writes each message into the ring of SharedRingBuffer; the unwinding worker of
    the service reads the records in batches, takes them apart where they lie in shared
    memory and posts what they contain. *)

From S2P Require Import Prelude SharedRingBuffer.

(** ** Data *)

(** enum class RecordType : uint64_t. *)
Definition RecordType_Free : Z := 0.
Definition RecordType_Malloc : Z := 1.
Definition RecordType_HeapName : Z := 2.
Definition sizeof_RecordType : Z := 8.
Definition sizeof_AllocMetadata : Z := 328.
Definition sizeof_FreeEntry : Z := 24.
Definition sizeof_HeapName : Z := 80.
Definition HEAPPROFD_HEAP_NAME_SZ : Z := 64.

(** The structs as they lie in memory.  [arch_data] is register_data, heap_id and arch,
    whose places depend on the register enums of libunwindstack; padding is kept. *)
Record AllocMetadata := mkAlloc {
  a_sequence_number : Z; alloc_size : Z; sample_size : Z; alloc_address : Z; stack_pointer : Z;
  clock_monotonic_coarse_timestamp : Z; arch_data : list Z
}.
Record FreeEntry := mkFree { f_sequence_number : Z; f_addr : Z; f_heap_id : Z; f_padding : list Z }.
Record HeapName := mkHeapName { h_sample_interval : Z; h_heap_id : Z; h_heap_name : list Z; h_padding : list Z }.

Definition AllocMetadata_bytes (a : AllocMetadata) : list Z :=
  le_bytes 8 (a_sequence_number a) ++ le_bytes 8 (alloc_size a) ++ le_bytes 8 (sample_size a) ++ le_bytes 8 (alloc_address a)
  ++ le_bytes 8 (stack_pointer a) ++ le_bytes 8 (clock_monotonic_coarse_timestamp a) ++ arch_data a.
Definition FreeEntry_bytes (e : FreeEntry) : list Z :=
  le_bytes 8 (f_sequence_number e) ++ le_bytes 8 (f_addr e) ++ le_bytes 4 (f_heap_id e) ++ f_padding e.
Definition HeapName_bytes (h : HeapName) : list Z :=
  le_bytes 8 (h_sample_interval h) ++ le_bytes 4 (h_heap_id h) ++ h_heap_name h ++ h_padding h.
(** The struct in the bytes of a memcpy(). *)
Definition word_at (n : nat) (off : Z) (l : list Z) : Z := le_value (zread off (Z.of_nat n) l).
Definition AllocMetadata_of (l : list Z) : AllocMetadata :=
  mkAlloc (word_at 8 0 l) (word_at 8 8 l) (word_at 8 16 l) (word_at 8 24 l) (word_at 8 32 l) (word_at 8 40 l) (zdrop 48 l).
Definition FreeEntry_of (l : list Z) : FreeEntry := mkFree (word_at 8 0 l) (word_at 8 8 l) (word_at 4 16 l) (zdrop 20 l).
Definition HeapName_of (l : list Z) : HeapName := mkHeapName (word_at 8 0 l) (word_at 4 8 l) (zread 12 64 l) (zdrop 76 l).

(** A WireMessage to send: its record type with the header the type has. *)
Inductive WireMessage :=
| Malloc (alloc_header : AllocMetadata) (payload : list Z)
| Free (free_header : FreeEntry)
| HeapNameMessage (heap_name_header : HeapName).

(** ** The configuration that a client gets when it connects *)

Record ClientConfigurationHeap := mkHeap { heap_name_ : list Z; heap_interval : Z }.
Record ClientConfiguration := mkConfig { default_interval : Z; num_heaps : Z; heaps : list ClientConfigurationHeap; all_heaps : bool }.
(** strncmp(a, b, n) == 0, for strings with their terminating zero. *)
Fixpoint strncmp_equal (n : nat) (a b : list Z) : bool :=
  match n, a, b with
  | O, _, _ => true
  | S n, x :: a, y :: b => (x =? y) && ((x =? 0) || strncmp_equal n a b)
  | _, _, _ => false
  end.
(** The loop over cli_config.heaps, which has 64 elements: an index behind them is a Crash. *)
Fixpoint sampling_loop (n : nat) (i : Z) (cli_config : ClientConfiguration) (heap_name : list Z) : outcome (option Z) :=
  match n with
  | O => Ok None
  | S n =>
      match heaps cli_config !! Z.to_nat i with
      | None => Crash
      | Some heap =>
          if strncmp_equal (Z.to_nat HEAPPROFD_HEAP_NAME_SZ) (heap_name_ heap) heap_name then Ok (Some (heap_interval heap))
          else sampling_loop n (u32 (i + 1)) cli_config heap_name
      end
  end.
Definition GetHeapSamplingInterval (cli_config : ClientConfiguration) (heap_name : list Z) : outcome Z :=
  let! found := sampling_loop (Z.to_nat (num_heaps cli_config)) 0 cli_config heap_name in
  Ok (match found with
      | Some interval => interval
      | None => if all_heaps cli_config then default_interval cli_config else 0
      end).

(** ** Sending *)

Fixpoint copy_in (off : Z) (l : list Z) : prog unit :=
  match l with
  | [] => Ret tt
  | b :: l => call (StoreByte off b) ;@ copy_in (off + 1) l
  end.

Definition WithBuffer (R : Ring) (total_size : Z) (fn : Z -> prog unit) : prog Z :=
  if size_ R <? total_size then call (SetErrno EMSGSIZE) ;@ Ret (-1)
  else
    let@ lock := AcquireLock Try in
    if negb (locked_ lock) then
      call (SetErrno EAGAIN) ;@ Unlock lock ;@ Ret (-1)
    else
      let@ buf := BeginWrite R lock total_size in
      Unlock lock ;@
      match b_data buf with
      | None => EndWrite buf ;@ call (SetErrno EAGAIN) ;@ Ret (-1)
      | Some data => fn data ;@ EndWrite buf ;@ Ret (s64 (bytes_free buf))
      end.

Definition total_size (msg : WireMessage) : Z :=
  match msg with
  | Malloc _ payload => u64 (sizeof_RecordType + sizeof_AllocMetadata + zlen payload)
  | Free _ => sizeof_RecordType + sizeof_FreeEntry
  | HeapNameMessage _ => sizeof_RecordType + sizeof_HeapName
  end.
Definition fill (msg : WireMessage) (data : Z) : prog unit :=
  match msg with
  | Malloc a payload =>
      copy_in data (le_bytes 8 RecordType_Malloc) ;@
      copy_in (data + sizeof_RecordType) (AllocMetadata_bytes a) ;@
      copy_in (data + sizeof_RecordType + sizeof_AllocMetadata) payload
  | Free e =>
      copy_in data (le_bytes 8 RecordType_Free) ;@ copy_in (data + sizeof_RecordType) (FreeEntry_bytes e)
  | HeapNameMessage h =>
      copy_in data (le_bytes 8 RecordType_HeapName) ;@ copy_in (data + sizeof_RecordType) (HeapName_bytes h)
  end.
Definition SendWireMessage (R : Ring) (msg : WireMessage) : prog Z := WithBuffer R (total_size msg) (fill msg).

(** ** Receiving.  Pointers into the record are offsets from mem_. *)

Fixpoint copy_out (n : nat) (off : Z) : prog (list Z) :=
  match n with
  | O => Ret []
  | S n => let@ b := call (LoadByte off) in let@ l := copy_out n (off + 1) in Ret (b :: l)
  end.
(** *record_type. *)
Definition load_record_type (ptr : Z) : prog Z := let@ l := copy_out 8 ptr in Ret (le_value l).

(** ViewAndAdvance<T>: the pointer to the T and the one behind it. *)
Definition ViewAndAdvance (sizeof ptr end_ : Z) : option (Z * Z) :=
  if end_ - sizeof <? ptr then None else Some (ptr, ptr + sizeof).

(** The WireMessage that is filled in: [out] is what it holds before. *)
Record WireView := mkView {
  v_record_type : Z; v_alloc_header : Z; v_free_header : Z; v_heap_name_header : Z; v_payload : option Z; v_payload_size : Z
}.
Definition ReceiveWireMessage (buf size : Z) (out : WireView) : prog (option WireView) :=
  let end_ := buf + size in
  match ViewAndAdvance sizeof_RecordType buf end_ with
  | None => Ret None
  | Some (record_type, buf) =>
      let@ t := load_record_type record_type in
      let view := mkView t in
      let@ t := load_record_type record_type in
      if t =? RecordType_Malloc then
        match ViewAndAdvance sizeof_AllocMetadata buf end_ with
        | None => Ret None
        | Some (alloc_header, buf) =>
            if end_ <? buf then Ret None
            else Ret (Some (view alloc_header (v_free_header out) (v_heap_name_header out) (Some buf) (end_ - buf)))
        end
      else
        let@ t := load_record_type record_type in
        if t =? RecordType_Free then
          match ViewAndAdvance sizeof_FreeEntry buf end_ with
          | None => Ret None
          | Some (free_header, _) => Ret (Some (view (v_alloc_header out) free_header (v_heap_name_header out) None 0))
          end
        else
          let@ t := load_record_type record_type in
          if t =? RecordType_HeapName then
            match ViewAndAdvance sizeof_HeapName buf end_ with
            | None => Ret None
            | Some (heap_name_header, _) => Ret (Some (view (v_alloc_header out) (v_free_header out) heap_name_header None 0))
            end
          else Ret None
  end.

(** ** The unwinding worker *)

Definition kUnwindBatchSize : Z := 1000.
Definition kRecordBatchSize : Z := 1024.
Definition kRetryDelayMs : Z := 100.

(** What the worker posts to its delegate about one client.  The frames of an allocation
    are those of its stack, which is [None] when allocations are streamed. *)
Inductive Post :=
| PostAllocRecord (alloc_metadata : AllocMetadata) (stack : option (list Z))
| PostFreeRecord (entries : list FreeEntry)
| PostHeapNameRecord (entry : HeapName)
| PostSocketDisconnected (st : Stats).
Record ClientData := mkClient { stream_allocations : bool; drain_bytes : Z; free_records : list FreeEntry }.

(** [junk] is the stack memory in which HandleBuffer declares its WireMessage. *)
Definition HandleBuffer (junk : WireView) (data size : Z) (cd : ClientData) : prog (ClientData * list Post) :=
  let@ msg := ReceiveWireMessage data size junk in
  match msg with
  | None => Ret (cd, [])
  | Some msg =>
      if v_record_type msg =? RecordType_Malloc then
        let@ metadata := copy_out (Z.to_nat sizeof_AllocMetadata) (v_alloc_header msg) in
        let@ stack :=
          (if stream_allocations cd then Ret None
           else match v_payload msg with
           | None => Ret (Some [])
           | Some payload => let@ l := copy_out (Z.to_nat (v_payload_size msg)) payload in Ret (Some l)
           end) in
        Ret (cd, [PostAllocRecord (AllocMetadata_of metadata) stack])
      else if v_record_type msg =? RecordType_Free then
        let@ entry := copy_out (Z.to_nat sizeof_FreeEntry) (v_free_header msg) in
        let records := free_records cd ++ [FreeEntry_of entry] in
        if zlen records =? kRecordBatchSize
        then Ret (mkClient (stream_allocations cd) (drain_bytes cd) [], [PostFreeRecord records])
        else Ret (mkClient (stream_allocations cd) (drain_bytes cd) records, [])
      else if v_record_type msg =? RecordType_HeapName then
        let@ entry := copy_out (Z.to_nat sizeof_HeapName) (v_heap_name_header msg) in
        let h := HeapName_of entry in
        Ret (cd, [PostHeapNameRecord (mkHeapName (h_sample_interval h) (h_heap_id h) (ztake (HEAPPROFD_HEAP_NAME_SZ - 1) (h_heap_name h) ++ [0]) (h_padding h))])
      else Ret (cd, [])
  end.

Inductive Status := kHasMore | kReadSome | kReadNone.
Record BatchResult := mkResult { r_status : Status; r_bytes_read : Z; r_client : ClientData; r_posts : list Post }.

(** The loop of ReadAndUnwindBatch from its [i]-th iteration, [n] before the limit.  [world]
    has, per record, the uninitialized memory and whether unwinding parsed the maps again. *)
Fixpoint read_batch (R : Ring) (n : nat) (i : Z) (env : Z -> WireView * bool) (bytes_read : Z) (cd : ClientData) (posts : list Post) : prog BatchResult :=
  match n with
  | O => Ret (mkResult kHasMore bytes_read cd posts)
  | S n =>
      let@ buf := BeginRead R in
      match b_data buf with
      | None => Ret (mkResult (if 0 <? i then kReadSome else kReadNone) bytes_read cd posts)
      | Some data =>
          let@ r := HandleBuffer (env i).1 data (b_size buf) cd in
          let@ k := EndRead buf in
          let bytes_read := u64 (bytes_read + k) in
          if (env i).2 then Ret (mkResult kHasMore bytes_read r.1 (posts ++ r.2))
          else read_batch R n (i + 1) env bytes_read r.1 (posts ++ r.2)
      end
  end.
Definition ReadAndUnwindBatch (R : Ring) (env : Z -> WireView * bool) (cd : ClientData) : prog BatchResult :=
  read_batch R (Z.to_nat kUnwindBatchSize) 0 env 0 cd [].

(** The tasks the worker posts to itself, with their delay.  None for a client that is gone. *)
Inductive Task := BatchUnwindJob_task (delay_ms : Z) | DrainJob_task.

Definition BatchUnwindJob (R : Ring) (env : Z -> WireView * bool) (client : option ClientData) : prog (option ClientData * list Post * list Task) :=
  match client with
  | None => Ret (None, [], [])
  | Some cd =>
      if negb (drain_bytes cd =? 0) then Ret (Some cd, [], [])
      else
        let@ res := ReadAndUnwindBatch R env cd in
        match r_status res with
        | kHasMore => Ret (Some (r_client res), r_posts res, [BatchUnwindJob_task 0])
        | kReadSome => Ret (Some (r_client res), r_posts res, [BatchUnwindJob_task kRetryDelayMs])
        | kReadNone => SetReaderPaused ;@ Ret (Some (r_client res), r_posts res, [])
        end
  end.
Definition FinishDisconnect (cd : ClientData) : prog (list Post) :=
  let posts := match free_records cd with [] => [] | l => [PostFreeRecord l] end in
  let@ lock := AcquireLock Try in
  let@ st := (if locked_ lock then GetStats lock else Ret Stats_new) in
  Unlock lock ;@ Ret (posts ++ [PostSocketDisconnected st]).
Definition DrainJob (R : Ring) (env : Z -> WireView * bool) (client : option ClientData) : prog (option ClientData * list Post * list Task) :=
  match client with
  | None => Ret (None, [], [])
  | Some cd =>
      let@ res := ReadAndUnwindBatch R env cd in
      let cd := r_client res in
      let finish := let@ posts := FinishDisconnect cd in Ret (None, r_posts res ++ posts, []) in
      match r_status res with
      | kHasMore =>
          if r_bytes_read res <? drain_bytes cd then
            Ret (Some (mkClient (stream_allocations cd) (u64 (drain_bytes cd - r_bytes_read res)) (free_records cd)), r_posts res, [DrainJob_task])
          else finish
      | _ => finish
      end
  end.
(** The client joins, with a byte on its socket announcing each time that it has data. *)
Definition HandleHandoffSocket (stream : bool) : prog (option ClientData) := SetReaderPaused ;@ Ret (Some (mkClient stream 0 [])).
Definition OnDataAvailable (R : Ring) (env : Z -> WireView * bool) (client : option ClientData) : prog (option ClientData * list Post * list Task) :=
  BatchUnwindJob R env client.
(** The service ends the session: the socket is shut down, which leads to OnDisconnect. *)
Definition HandleDisconnectSocket (client : option ClientData) : prog unit :=
  match client with None => Ret tt | Some _ => SetShuttingDown end.
Definition OnDisconnect (R : Ring) (env : Z -> WireView * bool) (client : option ClientData) : prog (option ClientData * list Post * list Task) :=
  match client with
  | None => Ret (None, [], [])
  | Some cd =>
      let@ n := read_avail R in
      let cd := mkClient (stream_allocations cd) n (free_records cd) in
      if negb (n =? 0) then DrainJob R env (Some cd)
      else let@ posts := FinishDisconnect cd in Ret (None, posts, [])
  end.

(** ** The sampling interval is that of the first heap of this name *)

Lemma sampling_loop_spec pre l cli_config heap_name :
  heaps cli_config = pre ++ l -> zlen (pre ++ l) < 2 ^ 32 ->
  sampling_loop (length l) (zlen pre) cli_config heap_name =
  Ok (heap_interval <$> List.find (fun h => strncmp_equal (Z.to_nat HEAPPROFD_HEAP_NAME_SZ) (heap_name_ h) heap_name) l).
Proof.
  revert pre. induction l as [|h l IH]; intros pre Hh Hl; [done|]. cbn [sampling_loop length List.find].
  rewrite Hh. unfold zlen at 1. rewrite Nat2Z.id, list_lookup_middle by done. destruct (strncmp_equal _ _ _); [done|].
  rewrite zlen_app, zlen_cons in Hl. pose proof (zlen_nonneg pre). pose proof (zlen_nonneg l). change (2 ^ 32) with 4294967296 in Hl. rewrite u32_small by lia.
  replace (zlen pre + 1) with (zlen (pre ++ [h])) by (rewrite zlen_app; reflexivity). apply IH; [by rewrite <- app_assoc|].
  rewrite !zlen_app. change (zlen [h]) with 1. change (2 ^ 32) with 4294967296. lia.
Qed.
Lemma GetHeapSamplingInterval_spec cli_config heap_name :
  num_heaps cli_config = zlen (heaps cli_config) -> num_heaps cli_config <= 64 ->
  GetHeapSamplingInterval cli_config heap_name =
  Ok (match List.find (fun h => strncmp_equal (Z.to_nat HEAPPROFD_HEAP_NAME_SZ) (heap_name_ h) heap_name) (heaps cli_config) with
      | Some h => heap_interval h
      | None => if all_heaps cli_config then default_interval cli_config else 0
      end).
Proof.
  intros Hn Hmax. unfold GetHeapSamplingInterval. rewrite Hn. unfold zlen at 1. rewrite Nat2Z.id. rewrite (sampling_loop_spec []); [|done|cbn; lia].
  cbn [obind]. by destruct (List.find _ _).
Qed.
