(* ===== verification/SharedRingBufferLogic.v ===== *)
(** * A program logic for SharedRingBuffer, and what holds against any peer

    [wp] is the weakest precondition of a program for a specification of its single
    accesses, which says what a thread may do in a state of the protocol and what it may
    be answered.  It is used here with the specification of a peer that answers anything,
    and in SharedRingBufferProtocol with those of a writer and of the reader. *)

From S2P Require Import Prelude SharedRingBuffer WireProtocol.

(** Divisions by constants in lia. *)
#[local] Ltac Zify.zify_post_hook ::= Z.to_euclidean_division_equations.

(** ** Weakest preconditions *)

Section WP.
Context {G : Type} (spec : forall o : op, G -> (resp o -> G -> Prop) -> Prop).

Fixpoint wp {A} (p : prog A) (g : G) (Q : A -> G -> Prop) {struct p} : Prop :=
  match p with
  | Ret a => Q a g
  | Do o k => spec o g (fun x g' => wp (k x) g' Q)
  | @Loop _ T B s body k =>
      exists I : T -> G -> Prop,
        I s g /\ forall s g, I s g ->
          wp (body s) g (fun r g' => match r with inl s' => I s' g' | inr b => wp (k b) g' Q end)
  end.

Context (spec_mono : forall o g (P Q : resp o -> G -> Prop), (forall x g', P x g' -> Q x g') -> spec o g P -> spec o g Q).

Lemma wp_mono {A} (p : prog A) g (P Q : A -> G -> Prop) : (forall a g', P a g' -> Q a g') -> wp p g P -> wp p g Q.
Proof.
  revert g P Q. induction p as [A a|A o k IH|A T B s body IHbody k IHk]; intros g P Q HPQ H; cbn in *.
  - by apply HPQ.
  - revert H. apply spec_mono. intros x g'. by apply IH.
  - destruct H as [I [Hs Hbody]]. exists I. split; [done|]. intros s1 g1 H1. generalize (Hbody s1 g1 H1). apply IHbody. intros [s2|b] g2; [done|]. by apply IHk.
Qed.

Lemma wp_bind {A C} (p : prog A) (f : A -> prog C) g Q : wp p g (fun a g' => wp (f a) g' Q) -> wp (bind p f) g Q.
Proof.
  revert g C f Q. induction p as [A a|A o k IH|A T B s body IHbody k IHk]; intros g C f Q H; cbn in *.
  - done.
  - revert H. apply spec_mono. intros x g'. apply IH.
  - destruct H as [I [Hs Hbody]]. exists I. split; [done|]. intros s1 g1 H1. specialize (Hbody s1 g1 H1). revert Hbody.
    apply wp_mono. intros [s2|b] g2; [done|]. apply IHk.
Qed.

(** One more round of a loop. *)
Lemma wp_unfold {A T B} (s : T) (body : T -> prog (T + B)) (k : B -> prog A) g Q :
  wp (Loop s body k) g Q -> wp (bind (body s) (fun r => match r with inl s => Loop s body k | inr b => k b end)) g Q.
Proof.
  intros [I [Hs Hbody]]. apply wp_bind. generalize (Hbody s g Hs). apply wp_mono. intros [s'|b] g' H; [|done].
  exists I. by split.
Qed.
(** A loop with an invariant. *)
Lemma wp_while {T B} (I : T -> G -> Prop) (body : T -> prog (T + B)) s g Q :
  I s g -> (forall s g, I s g -> wp (body s) g (fun r g' => match r with inl s' => I s' g' | inr b => Q b g' end)) ->
  wp (while body s) g Q.
Proof. intros Hs H. exists I. by split. Qed.
End WP.

(** ** The sizes of a ring *)

Definition valid_ring (R : Ring) : Prop := exists k, 12 <= k < 63 /\ R = set_size (2 ^ k).

Lemma valid_ring_size R : valid_ring R -> 4096 <= size_ R < 2 ^ 63 /\ size_ R `mod` 8 = 0 /\ size_mask_ R = size_ R - 1.
Proof.
  intros [k [Hk ->]]. cbn [size_ size_mask_ set_size].
  assert (2 ^ 12 <= 2 ^ k) by (apply Z.pow_le_mono_r; lia). assert (2 ^ k < 2 ^ 63) by (apply Z.pow_lt_mono_r; lia).
  assert (E : 2 ^ k = 2 ^ (k - 3) * 8) by (change 8 with (2 ^ 3); rewrite <- Z.pow_add_r by lia; f_equal; lia).
  repeat split; try lia.
Qed.
Lemma at_mod R pos : valid_ring R -> at_ R pos = pos `mod` size_ R.
Proof. intros [k [Hk ->]]. unfold at_. apply land_ones_mod. lia. Qed.
Lemma at_range R pos : valid_ring R -> 0 <= at_ R pos < size_ R.
Proof. intros H. rewrite at_mod by done. apply Z.mod_pos_bound. pose proof (valid_ring_size R H). lia. Qed.
Lemma at_aligned R pos : valid_ring R -> pos `mod` 8 = 0 -> at_ R pos `mod` 8 = 0.
Proof.
  intros H Hp. rewrite at_mod by done. destruct (valid_ring_size R H) as [Hs [Hm _]]. apply Z.mod_divide in Hm as [c Hc]; [|lia].
  rewrite Hc. rewrite (Z.mul_comm c 8), Z.rem_mul_r by lia. rewrite Hp. lia.
Qed.

Lemma AlignUp_8 size : AlignUp 8 size = (size + 7) `div` 8 * 8.
Proof. etransitivity; [apply (AlignUp_spec 3); lia|]. change (2 ^ 3) with 8. f_equal. f_equal. lia. Qed.
(** size_with_header: rounded up, or the overflow that BeginWrite notices. *)
Lemma size_with_header_cases size : 0 <= size < 2 ^ 64 ->
  let swh := AlignUp_size (u64 (size + kHeaderSize)) in
  swh < size \/ (swh = (size + 15) `div` 8 * 8 /\ size + 8 <= swh < 2 ^ 64).
Proof.
  intros H swh. subst swh. unfold AlignUp_size, kAlignment, kHeaderSize. rewrite AlignUp_8. unfold u64, uw, kAlignment.
  change (2 ^ 64) with 18446744073709551616 in *. lia.
Qed.
Lemma size_with_header_small size : 0 <= size < 2 ^ 63 ->
  AlignUp_size (u64 (size + kHeaderSize)) = (size + 15) `div` 8 * 8.
Proof.
  intros H. unfold AlignUp_size, kAlignment, kHeaderSize. rewrite AlignUp_8. unfold u64, uw, kAlignment.
  change (2 ^ 64) with 18446744073709551616. change (2 ^ 63) with 9223372036854775808 in H. lia.
Qed.

(** Positions that pass the check. *)
Definition positions_ok (R : Ring) (pos : PointerPositions) : Prop :=
  0 <= read_pos pos <= write_pos pos /\ write_pos pos < 2 ^ 64 /\ write_pos pos - read_pos pos <= size_ R
  /\ read_pos pos `mod` 8 = 0 /\ write_pos pos `mod` 8 = 0.
Lemma IsCorrupt_spec R pos : word_ok 64 (read_pos pos) -> word_ok 64 (write_pos pos) ->
  IsCorrupt R pos = false <-> positions_ok R pos.
Proof.
  unfold word_ok, IsCorrupt, positions_ok, u64, uw, kAlignment. change (2 ^ 64) with 18446744073709551616. intros Hr Hw.
  rewrite !orb_false_iff, !negb_false_iff, !Z.ltb_ge, !Z.eqb_eq. lia.
Qed.
Lemma avail_of_ok R pos : valid_ring R -> positions_ok R pos ->
  read_avail_of pos = write_pos pos - read_pos pos /\ write_avail_of R pos = size_ R - (write_pos pos - read_pos pos).
Proof.
  intros HR%valid_ring_size Hp. unfold positions_ok in Hp. unfold write_avail_of, read_avail_of.
  change (2 ^ 64) with 18446744073709551616 in *. change (2 ^ 63) with 9223372036854775808 in *.
  rewrite (u64_small (write_pos pos - read_pos pos)) by lia. split; [done|]. apply u64_small. lia.
Qed.

(** ** Against any peer: every load may be answered with any value of its width *)

Definition answer (o : op) : resp o -> Prop :=
  match o with
  | Load f | FetchAdd f _ | Exchange f _ => fun v => word_ok (field_width f) v
  | LoadHeader _ => fun v => word_ok 32 v
  | LoadByte _ => fun b => byte_ok b
  | _ => fun _ => True
  end.
Definition in_mapping (size : Z) (o : op) : bool :=
  match o with
  | LoadHeader off | StoreHeader off _ => mapped size off 4 && aligned off
  | LoadByte off | StoreByte off _ => mapped size off 1
  | _ => true
  end.
(** An access that a program can come to, for some answers to the ones before. *)
Inductive may_access : forall A, prog A -> op -> Prop :=
| may_access_now A o k : may_access A (Do o k) o
| may_access_later A o k x o' : answer o x -> may_access A (k x) o' -> may_access A (Do o k) o'
| may_access_loop A T B s body k o' :
    may_access A (bind (body s) (fun r => match r with inl s => Loop s body k | inr b => k b end)) o' ->
    may_access A (@Loop A T B s body k) o'.
Arguments may_access {A} p o.

Definition peer_spec (size : Z) (o : op) (g : unit) (Q : resp o -> unit -> Prop) : Prop :=
  in_mapping size o = true /\ forall x, answer o x -> Q x tt.
Lemma peer_spec_mono size o g (P Q : resp o -> unit -> Prop) :
  (forall x g', P x g' -> Q x g') -> peer_spec size o g P -> peer_spec size o g Q.
Proof. intros H [Hin Hx]. split; [done|]. intros x Ha. by apply H, Hx. Qed.
Abbreviation contained size p Q := (wp (peer_spec size) p tt (fun a _ => Q a)).

Lemma may_access_in_mapping {A} size (p : prog A) o Q : may_access p o -> wp (peer_spec size) p tt Q -> in_mapping size o = true.
Proof.
  intros H. revert Q. induction H as [A o k|A o k x o' Ha _ IH|A T B s body k o' _ IH]; intros Q Hp.
  - apply Hp.
  - destruct Hp as [_ Hp]. apply (IH Q), (Hp x Ha).
  - apply (IH Q). by apply wp_unfold; [apply peer_spec_mono|].
Qed.

Lemma contained_bind {A C} size (p : prog A) (f : A -> prog C) (P : A -> Prop) (Q : C -> Prop) :
  contained size p P -> (forall a, P a -> contained size (f a) Q) -> contained size (bind p f) Q.
Proof.
  intros Hp Hf. apply wp_bind; [apply peer_spec_mono|]. revert Hp. apply wp_mono; [apply peer_spec_mono|].
  intros a [] Ha. by apply Hf.
Qed.
Lemma contained_ret {A} size (a : A) (Q : A -> Prop) : Q a -> contained size (Ret a) Q.
Proof. done. Qed.
Lemma contained_do {A} size o (k : resp o -> prog A) (Q : A -> Prop) :
  in_mapping size o = true -> (forall x, answer o x -> contained size (k x) Q) -> contained size (Do o k) Q.
Proof. by split. Qed.
(** Goes through accesses that are always allowed, and returns. *)
Ltac peer :=
  repeat match goal with
  | |- context [bind (call ?o) ?f] => change (bind (call o) f) with (Do o f)
  | |- context [bind (Ret ?a) ?f] => change (bind (Ret a) f) with (f a); cbv beta iota
  | |- wp (peer_spec _) (Do _ _) _ _ => apply contained_do; [reflexivity|intros ? ?]
  | |- wp (peer_spec _) (Ret _) _ _ => apply contained_ret
  end.

Section Peer.
Context (R : Ring) (HR : valid_ring R).
Let size := size_ R.

Lemma peer_positions : contained size (GetPointerPositions R) (fun r => match r with None => True | Some pos => positions_ok R pos end).
Proof.
  unfold GetPointerPositions. peer. destruct (IsCorrupt _ _) eqn:E; [done|]. apply IsCorrupt_spec in E; [done| |]; done.
Qed.

Lemma peer_LockSlow mode : contained size (LockSlow mode) (fun _ => True).
Proof.
  unfold LockSlow. apply (wp_while _ (fun _ _ => True)); [done|]. intros [attempt sleeps] [] _. unfold LockSlow_body.
  destruct mode; cases_if; peer; cases_if; peer; try cases_if; peer; done.
Qed.
Lemma peer_AcquireLock mode : contained size (AcquireLock mode) (fun _ => True).
Proof.
  unfold AcquireLock. apply (contained_bind _ _ _ (fun _ => True)).
  - unfold ScopedSpinlock_new. peer. cases_if; peer; [done|]. cases_if; peer; [done|]. apply peer_LockSlow.
  - intros lock _. cases_if; by peer.
Qed.
Lemma peer_Unlock lock : contained size (Unlock lock) (fun _ => True).
Proof. unfold Unlock. cases_if; by peer. Qed.

(** A buffer lies in the mapping behind its header. *)
Definition buffer_ok (buf : Buffer) : Prop :=
  match b_data buf with
  | None => True
  | Some data => kHeaderSize <= data /\ data `mod` 8 = 0 /\ 0 <= b_size buf /\ data + b_size buf <= 2 * size
  end.
Lemma buffer_at_ok pos n f : pos `mod` 8 = 0 -> 0 <= n -> n + 8 <= size -> buffer_ok (mkBuffer (Some (at_ R pos + kHeaderSize)) n f).
Proof.
  intros Hp Hn Hs. pose proof (at_range R pos HR). pose proof (at_aligned R pos HR Hp). unfold buffer_ok, kHeaderSize, kAlignment. cbn. unfold size in *. lia.
Qed.
Lemma header_in_mapping pos : pos `mod` 8 = 0 -> mapped size (at_ R pos) 4 && aligned (at_ R pos) = true.
Proof.
  intros Hp. pose proof (at_range R pos HR). pose proof (valid_ring_size R HR). unfold mapped, aligned, kAlignment. rewrite at_aligned by done.
  unfold size. rewrite !andb_true_iff, !Z.leb_le, Z.eqb_eq. lia.
Qed.

Lemma peer_BeginWrite lock n : 0 <= n < 2 ^ 64 ->
  contained size (BeginWrite R lock n) (fun buf => buffer_ok buf /\ (b_data buf <> None -> b_size buf = n)).
Proof.
  intros Hn. unfold BeginWrite. eapply contained_bind; [apply peer_positions|]. intros [pos|] Hpos; peer; [|done].
  destruct (Z.ltb_spec (AlignUp_size (u64 (n + kHeaderSize))) n) as [Hlt|Hge]; peer; [done|].
  destruct (Z.ltb_spec (write_avail_of R pos) (AlignUp_size (u64 (n + kHeaderSize)))) as [Ha|Ha]; peer; [done|].
  pose proof (size_with_header_cases n Hn) as Hc. cbv zeta in Hc. destruct (avail_of_ok R pos HR Hpos) as [_ Hav].
  destruct Hpos as (? & ? & ? & ? & ?). apply contained_do; [by apply header_in_mapping|]. intros _ _. peer.
  split; [|done]. apply buffer_at_ok; [done|lia|]. unfold size. lia.
Qed.
Lemma peer_EndWrite buf : buffer_ok buf -> contained size (EndWrite buf) (fun _ => True).
Proof.
  unfold buffer_ok, EndWrite, kHeaderSize, kAlignment. destruct (b_data buf) as [data|]; [|done]. intros Hb.
  apply contained_do; [|done]. cbn. unfold mapped, aligned, kAlignment. pose proof (valid_ring_size R HR). unfold size in *.
  rewrite !andb_true_iff, !Z.leb_le, Z.eqb_eq. lia.
Qed.
Lemma peer_BeginRead : contained size (BeginRead R) (fun buf => buffer_ok buf).
Proof.
  unfold BeginRead. eapply contained_bind; [apply peer_positions|]. intros [pos|] Hpos; peer; [|done].
  destruct (_ <? kHeaderSize); peer; [done|]. destruct (avail_of_ok R pos HR Hpos) as [Hav _].
  destruct Hpos as (? & ? & ? & ? & ?). apply contained_do; [by apply header_in_mapping|]. intros n Hn.
  destruct (n =? 0); peer; [done|]. unfold answer, word_ok in Hn. rewrite size_with_header_small by lia.
  destruct (Z.ltb_spec (read_avail_of pos) ((n + 15) `div` 8 * 8)) as [Ha|Ha]; peer; [done|].
  apply buffer_at_ok; [done|lia|]. unfold size. lia.
Qed.
Lemma peer_EndRead buf : contained size (EndRead buf) (fun _ => True).
Proof. unfold EndRead. destruct (b_data buf); by peer. Qed.

Lemma peer_copy_out n off : 0 <= off -> off + Z.of_nat n <= 2 * size -> contained size (copy_out n off) (fun l => length l = n).
Proof.
  revert off. induction n as [|n IH]; intros off Ho Hn; cbn [copy_out]; [done|]. apply contained_do.
  { cbn. unfold mapped. rewrite andb_true_iff, !Z.leb_le. lia. }
  intros b _. eapply contained_bind; [apply IH; lia|]. intros l <-. by peer.
Qed.
Lemma peer_copy_in l off : 0 <= off -> off + zlen l <= 2 * size -> contained size (copy_in off l) (fun _ => True).
Proof.
  revert off. induction l as [|b l IH]; intros off Ho Hn; cbn [copy_in]; [done|]. rewrite zlen_cons in Hn. pose proof (zlen_nonneg l).
  apply contained_do; [|intros _ _; apply IH; lia]. cbn. unfold mapped. rewrite andb_true_iff, !Z.leb_le. lia.
Qed.
End Peer.

(** ** Creation *)

Lemma pow2_of_land n : 0 < n -> n .& (n - 1) = 0 -> n = 2 ^ Z.log2 n.
Proof.
  intros Hn H. destruct (Z.log2_spec n Hn) as [Hlo Hhi]. destruct (Z.eq_dec n (2 ^ Z.log2 n)) as [|Hne]; [done|]. exfalso.
  assert (Hl : Z.log2 (n - 1) = Z.log2 n) by (apply Z.log2_unique; [apply Z.log2_nonneg|lia]).
  assert (Hb : Z.testbit (n .& (n - 1)) (Z.log2 n) = true).
  { rewrite Z.land_spec, Z.bit_log2 by lia. rewrite <- Hl. apply Z.bit_log2. pose proof (pow2_pos (Z.log2 n) (Z.log2_nonneg n)). lia. }
  rewrite H in Hb. by rewrite Z.bits_0 in Hb.
Qed.
Lemma land_pow2 k : 0 <= k -> 2 ^ k .& (2 ^ k - 1) = 0.
Proof. intros H. rewrite land_ones_mod by done. apply Z_mod_same_full. Qed.

(** Initialize accepts a file exactly when it has 2^k bytes, at least a page, and a page. *)
Lemma Initialize_accepts android seals st_size R : 0 <= st_size < 2 ^ 63 ->
  Initialize android seals (Some st_size) true true = Some R <->
  (android = true -> exists s, seals = Some s /\ s .& kFDSeals = kFDSeals) /\ exists k, 12 <= k < 63 /\ st_size = 2 ^ k + 4096 /\ R = set_size (2 ^ k).
Proof.
  intros Hst. unfold Initialize.
  assert (Hseal : (android && negb (match seals with None => false | Some s => s .& kFDSeals =? kFDSeals end) = false) <->
    (android = true -> exists s, seals = Some s /\ s .& kFDSeals = kFDSeals)).
  { destruct android, seals as [s|]; cbn [andb]; rewrite ?negb_false_iff, ?Z.eqb_eq; naive_solver. }
  rewrite <- Hseal. destruct (_ && negb _); [split; [done|by intros [? _]]|].
  assert (Hsize : 8192 <= st_size -> u64 (u64 st_size - kMetaPageSize) = st_size - 4096 /\ u64 st_size = st_size /\ u64 (st_size - 4096 - 1) = st_size - 4096 - 1).
  { unfold kMetaPageSize, kPageSize. change (2 ^ 63) with 9223372036854775808 in Hst. intros. rewrite !(u64_small st_size) by lia. rewrite !u64_small by lia. done. }
  assert (Hpow : forall k, 12 <= k < 63 -> st_size = 2 ^ k + 4096 -> 8192 <= st_size).
  { intros k Hk ->. assert (2 ^ 12 <= 2 ^ k) by (apply Z.pow_le_mono_r; lia). lia. }
  destruct (Z.le_gt_cases 8192 st_size) as [Hlo|Hlo].
  - destruct (Hsize Hlo) as (E1 & E2 & E3). rewrite E1, E3, E2. replace (st_size =? 0) with false by lia.
    unfold kPageSize. replace (st_size <? 2 * 4096) with false by lia. cbn [orb]. split.
    + destruct (_ || _) eqn:E; [done|]. apply orb_false_iff in E as [Em El]. rewrite negb_false_iff, Z.eqb_eq in Em, El. cbn [negb].
      intros [= <-]. split; [done|]. apply pow2_of_land in El; [|lia]. exists (Z.log2 (st_size - 4096)). rewrite <- El. repeat split; try lia.
      * apply (Z.log2_le_mono 4096). lia.
      * apply Z.log2_lt_pow2; lia.
    + intros [_ (k & Hk & -> & ->)]. replace (2 ^ k + 4096 - 4096) with (2 ^ k) by lia. rewrite land_pow2 by lia.
      replace k with (k - 12 + 12) at 1 by lia. rewrite Z.pow_add_r by lia. change 4096 with (2 ^ 12). by rewrite Z_mod_mult.
  - split; [|intros [_ (k & Hk & E & _)]; specialize (Hpow k Hk E); lia].
    destruct (st_size =? 0); [done|]. rewrite (u64_small st_size) by (change (2 ^ 63) with 9223372036854775808 in Hst; lia).
    by replace (st_size <? 2 * kPageSize) with true by (unfold kPageSize; lia).
Qed.
Lemma Initialize_valid android seals st_size r1 r2 R : 0 <= st_size < 2 ^ 63 ->
  Initialize android seals (Some st_size) r1 r2 = Some R -> valid_ring R.
Proof.
  intros Hst H. assert (r1 = true /\ r2 = true) as [-> ->].
  { revert H. unfold Initialize. destruct r1, r2; cases_if; done. }
  apply Initialize_accepts in H as [_ (k & Hk & _ & ->)]; [|done]. by exists k.
Qed.

(** ** Senders and readers with a peer that does not follow the protocol *)

(** Headers have the sizes that the static_asserts of wire_protocol.h fix. *)
Definition header_sizes_ok (msg : WireMessage) : Prop :=
  match msg with
  | Malloc a payload => zlen (arch_data a) = 280 /\ zlen payload < 2 ^ 63
  | Free e => zlen (f_padding e) = 4
  | HeapNameMessage h => zlen (h_heap_name h) = 64 /\ zlen (h_padding h) = 4
  end.
(** The record of a message. *)
Definition message_bytes (msg : WireMessage) : list Z :=
  match msg with
  | Malloc a payload => le_bytes 8 RecordType_Malloc ++ AllocMetadata_bytes a ++ payload
  | Free e => le_bytes 8 RecordType_Free ++ FreeEntry_bytes e
  | HeapNameMessage h => le_bytes 8 RecordType_HeapName ++ HeapName_bytes h
  end.
Lemma zlen_AllocMetadata_bytes a : zlen (arch_data a) = 280 -> zlen (AllocMetadata_bytes a) = 328.
Proof. intros H. unfold AllocMetadata_bytes. rewrite !zlen_app, !zlen_le_bytes, H. done. Qed.
Lemma zlen_FreeEntry_bytes e : zlen (f_padding e) = 4 -> zlen (FreeEntry_bytes e) = 24.
Proof. intros H. unfold FreeEntry_bytes. rewrite !zlen_app, !zlen_le_bytes, H. done. Qed.
Lemma zlen_HeapName_bytes h : zlen (h_heap_name h) = 64 -> zlen (h_padding h) = 4 -> zlen (HeapName_bytes h) = 80.
Proof. intros H1 H2. unfold HeapName_bytes. rewrite !zlen_app, !zlen_le_bytes, H1, H2. done. Qed.
Lemma total_size_bytes msg : header_sizes_ok msg -> total_size msg = zlen (message_bytes msg) /\ 32 <= total_size msg < 2 ^ 64.
Proof.
  unfold total_size, message_bytes, sizeof_RecordType, sizeof_AllocMetadata, sizeof_FreeEntry, sizeof_HeapName.
  destruct msg as [a payload|e|h]; cbn [header_sizes_ok].
  - intros [H1 H2]. change (2 ^ 63) with 9223372036854775808 in H2. pose proof (zlen_nonneg payload).
    rewrite u64_small, !zlen_app, zlen_le_bytes, zlen_AllocMetadata_bytes by (done || lia). change (2 ^ 64) with 18446744073709551616. lia.
  - intros H. rewrite !zlen_app, zlen_le_bytes, zlen_FreeEntry_bytes by done. lia.
  - intros [H1 H2]. rewrite !zlen_app, zlen_le_bytes, zlen_HeapName_bytes by done. lia.
Qed.

Lemma peer_fill R msg data : valid_ring R -> header_sizes_ok msg -> 0 <= data -> data + total_size msg <= 2 * size_ R ->
  contained (size_ R) (fill msg data) (fun _ => True).
Proof.
  intros HR Hok Hd Hs. destruct (total_size_bytes msg Hok) as [E _]. rewrite E in Hs. revert Hok Hs. unfold message_bytes, fill, sizeof_RecordType, sizeof_AllocMetadata.
  destruct msg as [a payload|e|h]; cbn [header_sizes_ok]; [intros [H1 H2]|intros H1|intros [H1 H2]]; rewrite ?zlen_app, ?zlen_le_bytes;
    rewrite ?zlen_AllocMetadata_bytes, ?zlen_FreeEntry_bytes, ?zlen_HeapName_bytes by done; intros Hs;
    try pose proof (zlen_nonneg payload);
    repeat (eapply contained_bind; [apply peer_copy_in; rewrite ?zlen_le_bytes, ?zlen_AllocMetadata_bytes by done; lia|]; intros _ _).
  - apply peer_copy_in; lia.
  - apply peer_copy_in; rewrite ?zlen_FreeEntry_bytes by done; lia.
  - apply peer_copy_in; rewrite ?zlen_HeapName_bytes by done; lia.
Qed.
Lemma peer_SendWireMessage R msg : valid_ring R -> header_sizes_ok msg -> contained (size_ R) (SendWireMessage R msg) (fun _ => True).
Proof.
  intros HR Hok. destruct (total_size_bytes msg Hok) as [_ Hn]. unfold SendWireMessage, WithBuffer. destruct (size_ R <? total_size msg); [by peer|].
  eapply contained_bind; [apply peer_AcquireLock|]. intros lock _. destruct (locked_ lock); cbn [negb].
  2:{ peer. eapply contained_bind; [apply peer_Unlock|]. intros _ _. by peer. }
  eapply contained_bind; [apply peer_BeginWrite; [done|lia]|]. intros buf [Hb Hs].
  eapply contained_bind; [apply peer_Unlock|]. intros _ _. destruct (b_data buf) as [data|] eqn:E.
  - pose proof Hb as Hb'. unfold buffer_ok in Hb'. rewrite E in Hb'. rewrite (Hs ltac:(done)) in Hb'. unfold kHeaderSize, kAlignment in Hb'.
    eapply contained_bind; [apply peer_fill; [done|done|lia|lia]|]. intros _ _. eapply contained_bind; [by apply peer_EndWrite|]. intros _ _. by peer.
  - unfold EndWrite. rewrite E. by peer.
Qed.

(** A reader of a whole record: that of shared_ring_buffer_unittest.cc. *)
Definition read_record (R : Ring) : prog (option (list Z)) :=
  let@ buf := BeginRead R in
  match b_data buf with
  | None => Ret None
  | Some data => let@ l := copy_out (Z.to_nat (b_size buf)) data in EndRead buf ;@ Ret (Some l)
  end.
Lemma peer_read_record R : valid_ring R -> contained (size_ R) (read_record R) (fun _ => True).
Proof.
  intros HR. unfold read_record. eapply contained_bind; [by apply peer_BeginRead|]. intros buf Hb. destruct (b_data buf) as [data|] eqn:E.
  - unfold buffer_ok, kHeaderSize, kAlignment in Hb. rewrite E in Hb. eapply contained_bind; [apply peer_copy_out; [lia|rewrite Z2Nat.id by lia; lia]|].
    intros l _. eapply contained_bind; [apply peer_EndRead|]. intros _ _. by peer.
  - by peer.
Qed.

(** C18. Containment, the rule that shared_ring_buffer.h marks as important: whatever the
    other process writes into the shared pages, and whenever (every load of a position, of
    a record's header, of the spinlock or of a payload byte may be answered with any value
    of its width), a thread that sends a message and a thread that reads a record only
    access headers that are aligned and inside the two mappings of the ring, and payload
    bytes inside them. The ring may be any that Initialize accepted. *)
Theorem hostile_peer_contained android seals st_size r1 r2 R msg o :
  0 <= st_size < 2 ^ 63 -> Initialize android seals (Some st_size) r1 r2 = Some R -> header_sizes_ok msg ->
  may_access (SendWireMessage R msg) o \/ may_access (read_record R) o ->
  in_mapping (size_ R) o = true.
Proof.
  intros Hst HR%Initialize_valid Hok [H|H]; [| |done].
  - eapply may_access_in_mapping; [exact H|by apply peer_SendWireMessage].
  - eapply may_access_in_mapping; [exact H|by apply peer_read_record].
Qed.

Lemma hostile_peer_contained_witness :
  let R := set_size 4096 in let msg := Free (mkFree 1 2 3 (zeros 4)) in
  Initialize true (Some 7) (Some 8192) true true = Some R /\ header_sizes_ok msg /\ may_access (read_record R) (LoadHeader 8) /\ in_mapping (size_ R) (LoadHeader 8) = true.
Proof.
  intros R msg. assert (HI : Initialize true (Some 7) (Some 8192) true true = Some R) by reflexivity. assert (Hm : header_sizes_ok msg) by reflexivity.
  assert (Ha : may_access (read_record R) (LoadHeader 8)).
  { apply (may_access_later _ (Load f_write_pos) _ 24 _); [unfold answer, word_ok; cbn; lia|].
    apply (may_access_later _ (Load f_read_pos) _ 8 _); [unfold answer, word_ok; cbn; lia|]. apply may_access_now. }
  split; [exact HI|]. split; [exact Hm|]. split; [exact Ha|].
  refine (hostile_peer_contained true (Some 7) 8192 true true R msg (LoadHeader 8) _ HI Hm (or_intror Ha)). lia.
Defined.

(** What a program may return, for some answers. *)
Inductive may_return {A} : prog A -> A -> Prop :=
| may_return_ret a : may_return (Ret a) a
| may_return_do o k x a : answer o x -> may_return (k x) a -> may_return (Do o k) a.
Lemma may_return_bind {A C} (p : prog A) (f : A -> prog C) a c : may_return p a -> may_return (f a) c -> may_return (bind p f) c.
Proof. intros H Hf. induction H as [|o k x a Ha _ IH]; [done|]. apply (may_return_do o _ x); [done|]. by apply IH. Qed.
Lemma may_access_bind {A C} (p : prog A) (f : A -> prog C) a o : may_return p a -> may_access (f a) o -> may_access (bind p f) o.
Proof. intros H Hf. induction H as [|o' k x a Ha _ IH]; [done|]. apply (may_access_later _ o' _ x _); [done|]. by apply IH. Qed.
Lemma may_return_copy_out l off : bytes_ok l -> may_return (copy_out (length l) off) l.
Proof.
  revert off. induction l as [|b l IH]; intros off H; [apply may_return_ret|]. apply Forall_cons in H as [Hb Hl]. cbn [copy_out length].
  apply (may_return_do (LoadByte off) _ b); [done|]. apply (may_return_bind _ _ l); [by apply IH|]. apply may_return_ret.
Qed.
Lemma may_return_load_record_type ptr v : word_ok 64 v -> may_return (load_record_type ptr) v.
Proof.
  intros H. unfold load_record_type. apply (may_return_bind _ _ (le_bytes 8 v)).
  - apply (may_return_copy_out (le_bytes 8 v) ptr). apply bytes_ok_le_bytes.
  - rewrite le_value_bytes_small by done. apply may_return_ret.
Qed.

(** C21. The reader does not keep the containment rule in ReceiveWireMessage, which loads the
    record type once to store it and again to tell which header to look for. A peer that
    changes it from Free to Malloc in between has the function succeed with a message that
    says Free and has only an alloc_header: HandleBuffer then copies the entry from wherever
    the free_header that it never set points to. *)
Theorem double_fetch_follows_stale_pointer junk data size cd :
  sizeof_RecordType + sizeof_AllocMetadata <= size ->
  may_access (HandleBuffer junk data size cd) (LoadByte (v_free_header junk)).
Proof.
  unfold sizeof_RecordType, sizeof_AllocMetadata. intros Hs. unfold HandleBuffer.
  apply (may_access_bind _ _ (Some (mkView RecordType_Free (data + 8) (v_free_header junk) (v_heap_name_header junk) (Some (data + 8 + 328)) (data + size - (data + 8 + 328))))).
  - unfold ReceiveWireMessage, ViewAndAdvance, sizeof_RecordType, sizeof_AllocMetadata. replace (data + size - 8 <? data) with false by lia.
    apply (may_return_bind _ _ RecordType_Free); [by apply may_return_load_record_type|].
    apply (may_return_bind _ _ RecordType_Malloc); [by apply may_return_load_record_type|]. cbn [Z.eqb].
    replace (data + size - 328 <? data + 8) with false by lia. replace (data + size <? data + 8 + 328) with false by lia. apply may_return_ret.
  - apply may_access_now.
Qed.
Lemma double_fetch_follows_stale_pointer_witness :
  sizeof_RecordType + sizeof_AllocMetadata <= 336 /\
  may_access (HandleBuffer (mkView 0 0 (-99999) 0 None 0) 8 336 (mkClient false 0 [])) (LoadByte (-99999)) /\
  in_mapping 4096 (LoadByte (-99999)) = false.
Proof. split; [done|]. split; [|done]. by apply (double_fetch_follows_stale_pointer (mkView 0 0 (-99999) 0 None 0)). Defined.

(** ** Empty writes *)

(** TryWrite of shared_ring_buffer_unittest.cc, the pattern that the class is made for. *)
Definition try_write (R : Ring) (src : list Z) : prog bool :=
  let@ lock := AcquireLock Try in
  if negb (locked_ lock) then Unlock lock ;@ Ret false
  else
    let@ buf := BeginWrite R lock (zlen src) in
    Unlock lock ;@
    match b_data buf with
    | None => Ret false
    | Some data => copy_in data src ;@ EndWrite buf ;@ Ret true
    end.
(** [n] attempts to read a record, one after the other. *)
Fixpoint read_records (R : Ring) (n : nat) (sh : Shared) : outcome (list (option (list Z)) * Shared) :=
  match n with
  | O => Ok ([], sh)
  | S n => let! r := run 100 (read_record R) sh in let! q := read_records R n r.2 in Ok (r.1 :: q.1, q.2)
  end.

Lemma run_do {A} n o (k : resp o -> prog A) sh x sh' : exec_op o sh = Ok (x, sh') -> run (S n) (Do o k) sh = run n (k x) sh'.
Proof. intros E. cbn. by rewrite E. Qed.
Lemma read_record_not_ready R sh pos :
  valid_ring R -> zlen (ring_mem sh) = size_ R -> pos = mkPositions (atomics sh f_read_pos) (atomics sh f_write_pos) -> positions_ok R pos ->
  read_pos pos < write_pos pos -> le_value (zread (phys (ring_mem sh) (at_ R (read_pos pos))) 4 (ring_mem sh)) = 0 ->
  run 100 (read_record R) sh = Ok (None, set_stats (count stat_read_nodata (stats sh)) sh).
Proof.
  intros HR Hm -> Hpos Hlt Hz. cbn [read_pos write_pos] in *. pose proof (avail_of_ok _ _ HR Hpos) as [Hav _]. pose proof Hpos as (_ & _ & _ & H8 & H8'). cbn [read_pos write_pos] in *.
  assert (E : IsCorrupt R (mkPositions (atomics sh f_read_pos) (atomics sh f_write_pos)) = false).
  { apply IsCorrupt_spec; [| |done]; destruct Hpos as (? & ? & _); unfold word_ok; cbn in *; lia. }
  pose proof (header_in_mapping R HR _ H8) as Hin.
  change 100%nat with (S (S (S (S (S (S 94)))))). unfold read_record, BeginRead, GetPointerPositions. cbn [bind call].
  rewrite (run_do _ (Load f_write_pos) _ sh _ sh eq_refl), (run_do _ (Load f_read_pos) _ sh _ sh eq_refl), E. cbn [bind call].
  rewrite Hav. cbn [read_pos]. replace (_ <? kHeaderSize) with false by (unfold kHeaderSize, kAlignment; lia). cbn [bind call].
  rewrite (run_do _ (LoadHeader (at_ R (atomics sh f_read_pos))) _ sh 0 sh) by (unfold exec_op; by rewrite Hm, Hin, Hz). cbn [bind call Z.eqb].
  rewrite (run_do _ (Count stat_read_nodata) _ sh tt _ eq_refl), (run_do _ (SetErrno EAGAIN) _ _ tt _ eq_refl). reflexivity.
Qed.

Definition memory_of (r : outcome (bool * Shared)) : Shared := match r with Ok r => r.2 | Crash => Shared_new 0 end.
Lemma succeeded r : match r with Ok (true, _) => true | _ => false end = true -> r = Ok (true, memory_of r).
Proof. by destruct r as [[[] sh]|]. Qed.

(** A record of no bytes can be written, but its header says that it is not complete: the
    reader never gets past it, nor to what is written after it, although both writes have
    succeeded. *)
Theorem empty_write_blocks_reader : exists sh1 sh2,
  run 100 (try_write (set_size 4096) []) (Shared_new 4096) = Ok (true, sh1) /\
  run 100 (try_write (set_size 4096) [1; 2; 3]) sh1 = Ok (true, sh2) /\
  forall n, exists sh', read_records (set_size 4096) n sh2 = Ok (replicate n None, sh').
Proof.
  assert (Hrun : exists sh1 sh2, run 100 (try_write (set_size 4096) []) (Shared_new 4096) = Ok (true, sh1) /\
    run 100 (try_write (set_size 4096) [1; 2; 3]) sh1 = Ok (true, sh2) /\ zlen (ring_mem sh2) = 4096 /\ atomics sh2 f_read_pos = 0 /\ atomics sh2 f_write_pos = 24 /\
    le_value (zread 0 4 (ring_mem sh2)) = 0).
  { exists (memory_of (run 100 (try_write (set_size 4096) []) (Shared_new 4096))).
    exists (memory_of (run 100 (try_write (set_size 4096) [1; 2; 3]) (memory_of (run 100 (try_write (set_size 4096) []) (Shared_new 4096))))).
    split; [apply succeeded; vm_compute; reflexivity|]. split; [apply succeeded; vm_compute; reflexivity|]. repeat split; vm_compute; reflexivity. }
  destruct Hrun as (sh1 & sh2 & H1 & H2 & Hm & Hr & Hw & Hz). exists sh1, sh2. split; [done|]. split; [done|]. clear H1 H2 sh1. intros n.
  assert (HR : valid_ring (set_size 4096)) by (exists 12; split; [lia|reflexivity]).
  revert sh2 Hm Hr Hw Hz. induction n as [|n IH]; intros sh Hm Hr Hw Hz; [by exists sh|]. cbn [read_records].
  rewrite (read_record_not_ready _ sh (mkPositions 0 24) HR); [|done|by rewrite Hr, Hw| |done|].
  - cbn [obind fst snd]. destruct (IH (set_stats (count stat_read_nodata (stats sh)) sh)) as [sh' E]; [done|done|done|done|]. rewrite E. by exists sh'.
  - unfold positions_ok. cbn. lia.
  - cbn [read_pos]. unfold phys. rewrite Hm. exact Hz.
Qed.
