(* ===== verification/SharedRingBufferBounds.v ===== *)
(** * No peer can keep a thread of heapprofd or of its client busy

    A program ends within a number of steps whatever the loads of shared memory give.  The
    theorems: sending a message takes a bounded number of steps and sleeps at most 999 times
    a millisecond, and the jobs that drain the ring of a client that is gone come to an end. *)

From S2P Require Import Prelude SharedRingBuffer WireProtocol SharedRingBufferLogic.

(** Divisions by constants in lia. *)
#[local] Ltac Zify.zify_post_hook ::= Z.to_euclidean_division_equations.

(** ** Programs that end within [n] steps with a result in [Q] *)

Fixpoint ends_within {A} (n : nat) (p : prog A) (Q : A -> Prop) : Prop :=
  match p, n with
  | Ret a, _ => Q a
  | _, O => False
  | Do o k, S n => forall x, answer o x -> ends_within n (k x) Q
  | Loop s body k, S n => ends_within n (bind (body s) (fun r => match r with inl s => Loop s body k | inr b => k b end)) Q
  end.

(** Programs that are the same up to the extensionality of their continuations. *)
Inductive peq {A : Type} : prog A -> prog A -> Prop :=
| peq_ret a : peq (Ret a) (Ret a)
| peq_do o k k' : (forall x, peq (k x) (k' x)) -> peq (Do o k) (Do o k')
| peq_loop T B (s : T) body (k k' : B -> prog A) : (forall b, peq (k b) (k' b)) -> peq (Loop s body k) (Loop s body k').

Lemma peq_refl {A} (p : prog A) : peq p p.
Proof. induction p; by constructor. Qed.
Lemma peq_bind {A C} (p : prog A) (f g : A -> prog C) : (forall a, peq (f a) (g a)) -> peq (bind p f) (bind p g).
Proof. revert C f g. induction p; intros C f g Hfg; cbn; [done| |]; constructor; auto. Qed.
Lemma peq_assoc {A C D} (p : prog A) (f : A -> prog C) (g : C -> prog D) : peq (bind (bind p f) g) (bind p (fun a => bind (f a) g)).
Proof. revert C D f g. induction p; intros C D f g; cbn; [apply peq_refl| |]; constructor; auto. Qed.
Lemma peq_ends {A} n (p q : prog A) Q : peq p q -> ends_within n p Q -> ends_within n q Q.
Proof.
  revert A p q Q. induction n as [|n IH]; intros A p q Q [a|o k k' Hk|T B s body k k' Hk] H; try done; cbn in *.
  - intros x Hx. apply (IH _ (k x)); auto.
  - revert H. apply IH. apply peq_bind. intros [s'|b]; [by constructor|done].
Qed.

Lemma ends_mono {A} n m (p : prog A) (P Q : A -> Prop) : (n <= m)%nat -> (forall a, P a -> Q a) -> ends_within n p P -> ends_within m p Q.
Proof.
  revert A m p P Q. induction n as [|n IH]; intros A m p P Q Hm HPQ; destruct p; destruct m as [|m]; cbn; try done; try lia; auto.
  - intros H x Hx. apply (IH _ _ _ P); auto. lia.
  - apply IH; auto. lia.
Qed.
Lemma ends_more {A} n m (p : prog A) (Q : A -> Prop) : (n <= m)%nat -> ends_within n p Q -> ends_within m p Q.
Proof. intros H. by apply ends_mono. Qed.
Lemma ends_bind {A C} n m (p : prog A) (f : A -> prog C) (P : A -> Prop) (Q : C -> Prop) :
  ends_within n p P -> (forall a, P a -> ends_within m (f a) Q) -> ends_within (n + m) (bind p f) Q.
Proof.
  revert A p f P. induction n as [|n IH]; intros A p f P H Hf; destruct p as [a|o k|T B s body k]; try done.
  - exact (Hf a H).
  - apply (ends_more m); [lia|]. exact (Hf a H).
  - intros x Hx. apply (IH _ _ _ P); auto.
  - change (ends_within (n + m) (bind (body s) (fun r => match r with inl s => Loop s body (fun b => bind (k b) f) | inr b => bind (k b) f end)) Q).
    pose proof (IH _ _ f P H Hf) as Hb. apply (peq_ends _ _ _ _ (peq_assoc _ _ _)) in Hb. revert Hb.
    apply peq_ends, peq_bind. intros [s'|b]; apply peq_refl.
Qed.
Lemma ends_do {A} n o (k : resp o -> prog A) (Q : A -> Prop) :
  (forall x, answer o x -> ends_within n (k x) Q) -> ends_within (S n) (Do o k) Q.
Proof. done. Qed.
Lemma ends_ret {A} n (a : A) (Q : A -> Prop) : Q a -> ends_within n (Ret a) Q.
Proof. by destruct n. Qed.
(** Goes through single accesses and returns. *)
Ltac ending :=
  repeat match goal with
  | |- ends_within _ (bind (call ?o) ?f) _ => change (bind (call o) f) with (Do o f)
  | |- ends_within _ (bind (Ret ?a) ?f) _ => change (bind (Ret a) f) with (f a); cbv beta iota
  | |- ends_within _ (bind (bind (call ?o) ?f) ?g) _ => change (bind (bind (call o) f) g) with (Do o (fun x => bind (f x) g))
  | |- ends_within _ (bind (bind (Ret ?a) ?f) ?g) _ => change (bind (bind (Ret a) f) g) with (bind (f a) g); cbv beta iota
  | |- ends_within _ (bind (Do ?o ?k) ?f) _ => change (bind (Do o k) f) with (Do o (fun x => bind (k x) f)); cbv beta
  | |- ends_within _ (call ?o) _ => change (call o) with (Do o Ret)
  | |- ends_within (S _) (Do _ _) _ => apply ends_do; intros ? ?
  | |- ends_within _ (Ret _) _ => apply ends_ret
  end.

(** ** The spinlock *)

Lemma LockSlow_ends_from r attempt sleeps :
  attempt = kLockAttemptsPerSleep * kSleepAttempts - Z.of_nat r -> 1 <= attempt -> sleeps = (attempt - 1) `div` kLockAttemptsPerSleep ->
  ends_within (4 * r + 1) (while (LockSlow_body Try) (attempt, sleeps)) (fun lock => 0 <= blocked_us_ lock <= 999 * kSleepDurationUs).
Proof.
  unfold kLockAttemptsPerSleep, kSleepAttempts, kSleepDurationUs. revert attempt sleeps. induction r as [|r IH]; intros attempt sleeps Ha H1 Hs.
  - cbn. unfold kLockAttemptsPerSleep, kSleepAttempts, kSleepDurationUs. replace (attempt <? 1024 * 1000) with false by lia. cbn. rewrite u64_small; lia.
  - replace (4 * S r + 1)%nat with (S (S (S (S (4 * r + 1))))) by lia.
    assert (Hsl : 0 <= sleeps <= 999) by lia.
    assert (Hres : forall l, 0 <= blocked_us_ (mkSpinlock l (u64 (1000 * sleeps))) <= 999 * 1000) by (intros l; cbn; rewrite u64_small; lia).
    assert (Hnext : forall n, (n = S (4 * r + 1) \/ n = S (S (4 * r + 1)))%nat ->
      ends_within n (bind (if attempt `mod` 1024 =? 0 then call (Usleep 1000) ;@ Ret (inl (u64 (attempt + 1), u64 (sleeps + 1))) else Ret (inl (u64 (attempt + 1), sleeps)))
        (fun r => match r with inl s => while (LockSlow_body Try) s | inr b => Ret b end)) (fun lock => 0 <= blocked_us_ lock <= 999 * 1000)).
    { intros n Hn. apply (ends_more (S (4 * r + 1))); [lia|]. rewrite !u64_small by lia.
      destruct (Z.eqb_spec (attempt `mod` 1024) 0); ending.
      - apply IH; lia.
      - apply (ends_more (4 * r + 1)); [lia|]. apply IH; lia. }
    change (ends_within (S (S (S (4 * r + 1)))) (bind (LockSlow_body Try (attempt, sleeps)) (fun r => match r with inl s => while (LockSlow_body Try) s | inr b => Ret b end))
      (fun lock => 0 <= blocked_us_ lock <= 999 * 1000)).
    unfold LockSlow_body at 1, kLockAttemptsPerSleep, kSleepAttempts, kSleepDurationUs. replace (attempt <? 1024 * 1000) with true by lia.
    do 2 (ending; match goal with |- ends_within _ (bind (if ?b then _ else _) _) _ => destruct b end; [|apply Hnext; lia]). ending. apply Hres.
Qed.

(** The steps to acquire the lock, in Try mode. *)
Definition acquire_steps : nat := Z.to_nat (4 * (kLockAttemptsPerSleep * kSleepAttempts) + 4).
Lemma LockSlow_ends : ends_within (acquire_steps - 4) (LockSlow Try) (fun lock => 0 <= blocked_us_ lock <= 999 * kSleepDurationUs).
Proof.
  apply (ends_more (4 * Z.to_nat (kLockAttemptsPerSleep * kSleepAttempts - 1) + 1)).
  - unfold acquire_steps, kLockAttemptsPerSleep, kSleepAttempts. lia.
  - apply LockSlow_ends_from; unfold kLockAttemptsPerSleep, kSleepAttempts; lia.
Qed.
Lemma AcquireLock_ends : ends_within acquire_steps (AcquireLock Try) (fun lock => 0 <= blocked_us_ lock <= 999 * kSleepDurationUs).
Proof.
  unfold AcquireLock. replace acquire_steps with (S (S (acquire_steps - 4)) + 2)%nat by (unfold acquire_steps, kLockAttemptsPerSleep, kSleepAttempts; lia).
  apply (ends_bind _ _ _ _ (fun lock => 0 <= blocked_us_ lock <= 999 * kSleepDurationUs)).
  - unfold ScopedSpinlock_new. change (bind (call (Load f_poisoned)) ?f) with (Do (Load f_poisoned) f). apply ends_do. intros p _.
    destruct (negb _); [ending; cbn; unfold kSleepDurationUs; lia|]. change (bind (call (Exchange f_locked 1)) ?f) with (Do (Exchange f_locked 1) f). apply ends_do. intros l _.
    destruct (_ =? 0); [ending; cbn; unfold kSleepDurationUs; lia|]. apply LockSlow_ends.
  - intros lock Hlock. destruct (negb _); by ending.
Qed.

(** ** Sending *)

Lemma positions_end R : ends_within 2 (GetPointerPositions R) (fun _ => True).
Proof. unfold GetPointerPositions. by ending. Qed.
Lemma BeginWrite_ends R lock n : ends_within 5 (BeginWrite R lock n) (fun _ => True).
Proof.
  unfold BeginWrite. apply (ends_bind 2 3 _ _ (fun _ => True)); [apply positions_end|]. intros [pos|] _; [|by ending].
  cases_if; by ending.
Qed.
Lemma EndWrite_ends buf : ends_within 1 (EndWrite buf) (fun _ => True).
Proof. unfold EndWrite. destruct (b_data buf); by ending. Qed.
Lemma Unlock_ends lock : ends_within 1 (Unlock lock) (fun _ => True).
Proof. unfold Unlock. destruct (locked_ lock); by ending. Qed.
Lemma copy_in_ends l off : ends_within (length l) (copy_in off l) (fun _ => True).
Proof. revert off. induction l as [|b l IH]; intros off; cbn [copy_in length]; [done|]. ending. apply IH. Qed.
Lemma fill_ends msg data : ends_within (length (message_bytes msg)) (fill msg data) (fun _ => True).
Proof.
  destruct msg as [a payload|e|h]; cbn [message_bytes fill]; rewrite !length_app, ?Nat.add_assoc.
  - rewrite <- Nat.add_assoc. eapply ends_bind; [apply copy_in_ends|]. intros _ _. eapply ends_bind; [apply copy_in_ends|]. intros _ _. apply copy_in_ends.
  - eapply ends_bind; [apply copy_in_ends|]. intros _ _. apply copy_in_ends.
  - eapply ends_bind; [apply copy_in_ends|]. intros _ _. apply copy_in_ends.
Qed.

Definition send_steps (msg : WireMessage) : nat := acquire_steps + (8 + length (message_bytes msg)).
(** C19. A thread of the profiled process is never held up by heapprofd: whatever the shared
    memory contains, and even if the spinlock is never released, SendWireMessage returns
    within a fixed number of accesses (about four million, all but a few of them attempts
    to take the lock), and the time the lock is waited for by sleeping is at most 999 ms. *)
Theorem SendWireMessage_returns R msg :
  ends_within (send_steps msg) (SendWireMessage R msg) (fun _ => True) /\
  ends_within acquire_steps (AcquireLock Try) (fun lock => 0 <= blocked_us_ lock <= 999 * kSleepDurationUs).
Proof.
  split; [|apply AcquireLock_ends]. unfold SendWireMessage, WithBuffer, send_steps. destruct (_ <? _); [rewrite Nat.add_comm; by ending|].
  eapply ends_bind; [apply AcquireLock_ends|]. intros lock _. destruct (negb _).
  { apply (ends_more (S (1 + 0))); [lia|]. ending. eapply ends_bind; [apply Unlock_ends|]. intros _ _. by ending. }
  apply (ends_more (5 + (1 + (length (message_bytes msg) + (1 + 0))))); [lia|].
  eapply ends_bind; [apply BeginWrite_ends|]. intros buf _. eapply ends_bind; [apply Unlock_ends|]. intros _ _.
  destruct (b_data buf) as [data|] eqn:E.
  - eapply ends_bind; [apply fill_ends|]. intros _ _. eapply ends_bind; [apply EndWrite_ends|]. intros _ _. by ending.
  - unfold EndWrite. rewrite E. apply (ends_more 1); [lia|]. by ending.
Qed.

(** ** Draining *)

Lemma ends_contained {A} n size (p : prog A) (P Q : A -> Prop) : ends_within n p P -> contained size p Q -> ends_within n p (fun a => P a /\ Q a).
Proof.
  revert A p P Q. induction n as [|n IH]; intros A p P Q; destruct p as [a|o k|T B s body k]; try done.
  - intros H [_ Hp] x Hx. apply IH; [by apply H|by apply Hp].
  - intros H Hp. apply (IH _ _ _ _ H). apply (wp_unfold _ (peer_spec_mono size)), Hp.
Qed.

Section Drain.
Context (R : Ring) (HR : valid_ring R) (Hsmall : size_ R <= 2 ^ 50).

Lemma BeginRead_ends : ends_within 5 (BeginRead R) (fun buf => buffer_ok R buf).
Proof.
  apply (ends_mono 5 _ _ (fun buf => True /\ buffer_ok R buf)); [done|by intros buf [_ H]|]. apply (ends_contained _ (size_ R)); [|by apply peer_BeginRead].
  unfold BeginRead. apply (ends_bind 2 3 _ _ (fun _ => True)); [apply positions_end|]. intros [pos|] _; [|by ending].
  destruct (_ <? kHeaderSize); [by ending|]. ending. destruct (_ =? 0); [by ending|]. destruct (_ <? _); by ending.
Qed.
Lemma EndRead_ends buf data : b_data buf = Some data -> 0 <= b_size buf <= 2 * size_ R ->
  ends_within 2 (EndRead buf) (fun k => 8 <= k <= 3 * size_ R).
Proof.
  intros E Hb. unfold EndRead. rewrite E. pose proof (valid_ring_size R HR). change (2 ^ 50) with 1125899906842624 in Hsmall.
  rewrite size_with_header_small by lia. ending. lia.
Qed.
Lemma copy_out_ends n off : ends_within n (copy_out n off) (fun _ => True).
Proof. revert off. induction n as [|n IH]; intros off; cbn [copy_out]; [done|]. ending. apply (ends_more (n + 0)); [lia|]. eapply ends_bind; [apply IH|]. intros l _. by ending. Qed.
Lemma load_record_type_ends ptr : ends_within 8 (load_record_type ptr) (fun _ => True).
Proof. unfold load_record_type. apply (ends_more (8 + 0)); [lia|]. eapply ends_bind; [apply copy_out_ends|]. intros l _. by ending. Qed.
Lemma ReceiveWireMessage_ends buf size out : 0 <= size ->
  ends_within 32 (ReceiveWireMessage buf size out) (fun msg => match msg with Some msg => 0 <= v_payload_size msg <= size | None => True end).
Proof.
  intros Hs. unfold ReceiveWireMessage, ViewAndAdvance, sizeof_RecordType, sizeof_AllocMetadata. destruct (_ <? buf); [by ending|].
  apply (ends_more (8 + (8 + (8 + (8 + 0))))); [lia|]. do 2 (eapply ends_bind; [apply load_record_type_ends|]; intros ? _).
  destruct (_ =? RecordType_Malloc).
  { destruct (Z.ltb_spec (buf + size - 328) (buf + 8)); [by ending|]. destruct (_ <? buf + 8 + 328); ending; [done|]. cbn. lia. }
  eapply ends_bind; [apply load_record_type_ends|]; intros ? _. destruct (_ =? RecordType_Free); [destruct (_ <? _); ending; [done|cbn; lia]|].
  eapply ends_bind; [apply load_record_type_ends|]; intros ? _. destruct (_ =? RecordType_HeapName); [destruct (_ <? _); ending; [done|cbn; lia]|by ending].
Qed.

Definition handle_steps : nat := 32 + (328 + Z.to_nat (2 * size_ R)).
Lemma HandleBuffer_ends junk data n cd : 0 <= n <= 2 * size_ R ->
  ends_within handle_steps (HandleBuffer junk data n cd) (fun r => drain_bytes r.1 = drain_bytes cd).
Proof.
  intros Hn. unfold HandleBuffer, handle_steps, sizeof_AllocMetadata, sizeof_FreeEntry, sizeof_HeapName.
  eapply ends_bind; [apply ReceiveWireMessage_ends; lia|]. intros [msg|] Hmsg; [|by ending].
  destruct (_ =? RecordType_Malloc).
  { change (Z.to_nat 328) with 328%nat. eapply ends_bind; [apply copy_out_ends|]. intros metadata _. apply (ends_more (Z.to_nat (2 * size_ R) + 0)); [lia|].
    apply (ends_bind _ _ _ _ (fun _ => True)); [|intros ? _; by ending]. destruct (stream_allocations cd); [by ending|].
    destruct (v_payload msg); [|by ending]. apply (ends_more (Z.to_nat (v_payload_size msg) + 0)); [lia|].
    eapply ends_bind; [apply copy_out_ends|]. intros l _. by ending. }
  destruct (_ =? RecordType_Free).
  { apply (ends_more (24 + 0)); [lia|]. eapply ends_bind; [apply copy_out_ends|]. intros entry _. destruct (_ =? kRecordBatchSize); by ending. }
  destruct (_ =? RecordType_HeapName); [|by ending].
  apply (ends_more (80 + 0)); [lia|]. eapply ends_bind; [apply copy_out_ends|]. intros entry _. by ending.
Qed.

Definition record_steps : nat := 5 + (handle_steps + 2).
Lemma read_batch_ends n i env bytes cd posts :
  0 <= i -> i + Z.of_nat n <= 1000 -> 8 * i <= bytes <= 3 * size_ R * i ->
  ends_within (n * record_steps) (read_batch R n i env bytes cd posts)
    (fun res => drain_bytes (r_client res) = drain_bytes cd /\ (r_status res = kHasMore -> 0 < i + Z.of_nat n -> 8 <= r_bytes_read res)).
Proof.
  pose proof (valid_ring_size R HR) as [Hs _]. revert i bytes cd posts. induction n as [|n IH]; intros i bytes cd posts Hi Hn Hb; cbn [read_batch Nat.mul].
  - apply ends_ret. cbn. split; [done|]. lia.
  - unfold record_steps at 1. rewrite <- !Nat.add_assoc. eapply ends_bind; [apply BeginRead_ends|]. intros buf Hbuf. unfold buffer_ok, kHeaderSize, kAlignment in Hbuf.
    destruct (b_data buf) as [data|] eqn:E; [|ending; split; [done|]; by destruct (0 <? i)].
    eapply ends_bind; [apply HandleBuffer_ends; lia|]. intros r Hr. eapply ends_bind; [apply (EndRead_ends buf data E); lia|]. intros k Hk. cbn beta in Hr, Hk.
    change (2 ^ 50) with 1125899906842624 in Hsmall. rewrite u64_small by nia. destruct ((env i).2).
    + ending. cbn. split; [done|]. lia.
    + eapply ends_mono; [done| |apply IH; [lia|lia|nia]]. cbn beta. intros res [H1 H2]. split; [congruence|]. intros H3 _. apply H2; [done|lia].
Qed.
Definition batch_steps : nat := Z.to_nat kUnwindBatchSize * record_steps.
Lemma ReadAndUnwindBatch_ends env cd :
  ends_within batch_steps (ReadAndUnwindBatch R env cd)
    (fun res => drain_bytes (r_client res) = drain_bytes cd /\ (r_status res = kHasMore -> 8 <= r_bytes_read res)).
Proof.
  eapply ends_mono; [done| |apply read_batch_ends; unfold kUnwindBatchSize; lia]. intros res [H1 H2]. split; [done|]. intros H. apply H2; [done|]. unfold kUnwindBatchSize. lia.
Qed.
Lemma FinishDisconnect_ends cd :
  ends_within (acquire_steps + 5) (FinishDisconnect cd) (fun posts => exists l st, posts = l ++ [PostSocketDisconnected st]).
Proof.
  unfold FinishDisconnect. eapply ends_bind; [apply AcquireLock_ends|]. intros lock _. apply (ends_bind 4 1 _ _ (fun _ => True)).
  { unfold GetStats. destruct (locked_ lock); by ending. }
  intros st _. rewrite <- (Nat.add_0_r 1). eapply ends_bind; [apply Unlock_ends|]. intros _ _. ending. by do 2 eexists.
Qed.

(** A run of DrainJob finishes the disconnection, or it posts itself and has read something. *)
Definition drained (cd : ClientData) (r : option ClientData * list Post * list Task) : Prop :=
  match r with
  | (Some cd', _, tasks) => tasks = [DrainJob_task] /\ 0 < drain_bytes cd' <= drain_bytes cd - 8
  | (None, posts, tasks) => tasks = [] /\ exists l st, posts = l ++ [PostSocketDisconnected st]
  end.
Definition drain_steps : nat := batch_steps + (acquire_steps + 5).
Lemma DrainJob_ends env cd : 0 <= drain_bytes cd < 2 ^ 64 -> ends_within drain_steps (DrainJob R env (Some cd)) (drained cd).
Proof.
  intros Hd. unfold DrainJob, drain_steps. eapply ends_bind; [apply ReadAndUnwindBatch_ends|]. intros res [H1 H2].
  assert (Hfin : ends_within (acquire_steps + 5) (let@ posts := FinishDisconnect (r_client res) in Ret (None, r_posts res ++ posts, [])) (drained cd)).
  { rewrite <- (Nat.add_0_r (acquire_steps + 5)). eapply ends_bind; [apply FinishDisconnect_ends|]. intros posts (l & st & ->). ending. cbn. split; [done|].
    exists (r_posts res ++ l), st. by rewrite app_assoc. }
  destruct (r_status res); [|done|done]. specialize (H2 eq_refl). rewrite H1. destruct (Z.ltb_spec (r_bytes_read res) (drain_bytes cd)); [|done].
  ending. cbn. split; [done|]. change (2 ^ 64) with 18446744073709551616 in Hd. rewrite u64_small by lia. lia.
Qed.

(** The worker's task queue after OnDisconnect: DrainJob until it does not post itself. *)
Fixpoint drain_all (fuel : nat) (env : nat -> Z -> WireView * bool) (r : option ClientData * list Post * list Task) : prog (option (list Post)) :=
  match r, fuel with
  | (None, posts, _), _ => Ret (Some posts)
  | (Some cd, posts, []), _ => Ret None
  | _, O => Ret None
  | (Some cd, posts, _), S fuel =>
      let@ r := DrainJob R (env fuel) (Some cd) in drain_all fuel env (r.1.1, posts ++ r.1.2, r.2)
  end.
Definition finished (r : option (list Post)) : Prop := exists l st, r = Some (l ++ [PostSocketDisconnected st]).
Lemma drain_all_ends fuel env cd posts : 0 < drain_bytes cd < 2 ^ 64 -> drain_bytes cd < 8 * Z.of_nat fuel ->
  ends_within (fuel * drain_steps) (drain_all fuel env (Some cd, posts, [DrainJob_task])) finished.
Proof.
  revert cd posts. induction fuel as [|fuel IH]; intros cd posts Hd Hf; [lia|]. cbn [drain_all Nat.mul].
  eapply ends_bind; [apply DrainJob_ends; lia|]. intros [[[cd'|] posts'] tasks]; cbn.
  - intros [-> Hd']. apply IH; lia.
  - intros [-> (l & st & ->)]. destruct fuel; cbn [drain_all]; ending; exists (posts ++ l), st; by rewrite app_assoc.
Qed.
End Drain.

Lemma read_avail_ends R : valid_ring R -> ends_within 2 (read_avail R) (fun n => 0 <= n <= size_ R).
Proof.
  intros HR. unfold read_avail. change 2%nat with (2 + 0)%nat.
  apply (ends_bind _ _ _ _ (fun r => True /\ match r with None => True | Some pos => positions_ok R pos end)).
  - apply (ends_contained _ (size_ R)); [apply positions_end|apply peer_positions].
  - intros [pos|] [_ Hpos]; ending; [|pose proof (valid_ring_size R HR); lia].
    destruct (avail_of_ok R pos HR Hpos) as [-> _]. destruct Hpos as (? & ? & ? & ?). lia.
Qed.

Definition drain_runs (R : Ring) : nat := Z.to_nat (size_ R / 8 + 1).
Definition disconnect_steps (R : Ring) : nat := 2 + (drain_steps R + drain_runs R * drain_steps R).
(** C20. When a client disconnects, the worker comes to an end with it even if what is left
    in the shared memory, or a process that still writes to it, is hostile: after
    OnDisconnect, DrainJob posts itself a bounded number of times, each run ends within a
    bounded number of steps, and the last thing posted to the delegate is
    PostSocketDisconnected. The bytes available when the client disconnected bound what is
    read on its behalf. *)
Theorem disconnect_finishes android seals st_size r1 r2 R env cd :
  0 <= st_size <= 2 ^ 50 -> Initialize android seals (Some st_size) r1 r2 = Some R ->
  ends_within (disconnect_steps R) (let@ r := OnDisconnect R (env (drain_runs R)) (Some cd) in drain_all R (drain_runs R) env r) finished.
Proof.
  intros Hst HI. assert (HR : valid_ring R) by (eapply Initialize_valid; [|done]; lia).
  assert (Hsmall : size_ R <= 2 ^ 50).
  { assert (r1 = true /\ r2 = true) as [-> ->] by (revert HI; unfold Initialize; destruct r1, r2; cases_if; done).
    apply Initialize_accepts in HI as [_ (k & Hk & E & ->)]; [|lia]. cbn. lia. }
  pose proof (valid_ring_size R HR) as [Hs _]. change (2 ^ 50) with 1125899906842624 in Hsmall.
  unfold disconnect_steps. rewrite Nat.add_assoc.
  apply (ends_bind _ _ _ _ (fun r => (exists cd', r = (Some cd', r.1.2, [DrainJob_task]) /\ 0 < drain_bytes cd' <= size_ R) \/ (r = (None, r.1.2, []) /\ exists l st, r.1.2 = l ++ [PostSocketDisconnected st]))).
  - unfold OnDisconnect. eapply ends_bind; [by apply read_avail_ends|]. intros n Hn. cbn beta in Hn. destruct (Z.eqb_spec n 0) as [->|Hne]; cbn [negb].
    + apply (ends_more (acquire_steps + 5 + 0)); [rewrite Nat.add_0_r; apply Nat.le_add_l|]. eapply ends_bind; [apply FinishDisconnect_ends|].
      intros posts (l & st & ->). ending. right. split; [done|]. by exists l, st.
    + apply (ends_mono (drain_steps R) _ _ (drained (mkClient (stream_allocations cd) n (free_records cd)))); [done| |apply DrainJob_ends; [done|done|cbn; lia]].
      intros [[[cd'|] posts] tasks]; cbn.
      * intros [-> Hd]. left. exists cd'. split; [done|lia].
      * intros [-> Hl]. right. by split.
  - intros [[c posts] tasks] [(cd' & [= -> ->] & Hd)|([= -> ->] & l & st & Hl)]; cbn in *.
    + apply drain_all_ends; [done|done|lia|]. unfold drain_runs. lia.
    + subst posts. destruct (drain_runs R); cbn [drain_all]; ending; by exists l, st.
Qed.
Lemma disconnect_finishes_witness : exists R,
  Initialize true (Some 7) (Some 8192) true true = Some R /\
  ends_within (disconnect_steps R) (let@ r := OnDisconnect R (fun _ => (mkView 0 0 0 0 None 0, false)) (Some (mkClient false 0 [])) in
    drain_all R (drain_runs R) (fun _ _ => (mkView 0 0 0 0 None 0, false)) r) finished.
Proof.
  exists (set_size 4096). assert (HI : Initialize true (Some 7) (Some 8192) true true = Some (set_size 4096)) by reflexivity.
  split; [exact HI|].
  refine (disconnect_finishes true (Some 7) 8192 true true (set_size 4096) (fun _ _ => (mkView 0 0 0 0 None 0, false)) (mkClient false 0 []) _ HI). lia.
Defined.
