(* ===== verification/SharedRingBufferProtocol.v ===== *)
(** * The protocol of the ring of SharedRingBuffer

    The phases a sending thread and the reading thread go through, what each access does to
    the phase and what it may be answered in it, as specifications for the program logic of
    SharedRingBufferLogic.  SendWireMessage and ReadAndUnwindBatch are shown to follow the
    protocol; SharedRingBufferSession shows that the memory keeps it. *)

From S2P Require Import Prelude SharedRingBuffer WireProtocol SharedRingBufferLogic.

(** Divisions by constants in lia. *)
#[local] Ltac Zify.zify_post_hook ::= Z.to_euclidean_division_equations.

(** ** Messages *)

Definition words_ok (msg : WireMessage) : Prop :=
  match msg with
  | Malloc a _ => Forall (word_ok 64) [a_sequence_number a; alloc_size a; sample_size a; alloc_address a; stack_pointer a; clock_monotonic_coarse_timestamp a]
  | Free e => word_ok 64 (f_sequence_number e) /\ word_ok 64 (f_addr e) /\ word_ok 32 (f_heap_id e)
  | HeapNameMessage h => word_ok 64 (h_sample_interval h) /\ word_ok 32 (h_heap_id h)
  end.
Definition len (msg : WireMessage) : Z := zlen (message_bytes msg).
(** A message that a client may send: its fields fit their types, its record is below 4 GiB. *)
Definition message_ok (msg : WireMessage) : Prop := header_sizes_ok msg /\ words_ok msg /\ len msg < 2 ^ 32.
(** The bytes of the ring that its record takes. *)
Definition rec_size (msg : WireMessage) : Z := (len msg + 15) `div` 8 * 8.

Lemma len_pos msg : message_ok msg -> 32 <= len msg < 2 ^ 32 /\ total_size msg = len msg.
Proof. intros (H & _ & Hl). destruct (total_size_bytes msg H) as [E Hn]. unfold len in *. lia. Qed.
Lemma rec_size_bounds msg : message_ok msg -> len msg + 8 <= rec_size msg <= len msg + 15 /\ rec_size msg `mod` 8 = 0.
Proof. intros H%len_pos. unfold rec_size. lia. Qed.
Lemma size_with_header_len msg : message_ok msg -> AlignUp_size (u64 (len msg + kHeaderSize)) = rec_size msg.
Proof. intros H%len_pos. apply size_with_header_small. lia. Qed.

(** What the worker does with a message, and with messages in order. *)
Definition handle_message (cd : ClientData) (msg : WireMessage) : ClientData * list Post :=
  match msg with
  | Malloc a payload => (cd, [PostAllocRecord a (if stream_allocations cd then None else Some payload)])
  | Free e =>
      let records := free_records cd ++ [e] in
      if zlen records =? kRecordBatchSize then (mkClient (stream_allocations cd) (drain_bytes cd) [], [PostFreeRecord records])
      else (mkClient (stream_allocations cd) (drain_bytes cd) records, [])
  | HeapNameMessage h => (cd, [PostHeapNameRecord (mkHeapName (h_sample_interval h) (h_heap_id h) (ztake 63 (h_heap_name h) ++ [0]) (h_padding h))])
  end.
Fixpoint handle_all (cd : ClientData) (msgs : list WireMessage) : ClientData * list Post :=
  match msgs with
  | [] => (cd, [])
  | msg :: msgs => let r := handle_message cd msg in let q := handle_all r.1 msgs in (q.1, r.2 ++ q.2)
  end.
Lemma handle_all_app cd l k : handle_all cd (l ++ k) = ((handle_all (handle_all cd l).1 k).1, (handle_all cd l).2 ++ (handle_all (handle_all cd l).1 k).2).
Proof. revert cd. induction l as [|m l IH]; intros cd; cbn; [by destruct (handle_all cd k)|]. rewrite IH. cbn. by rewrite app_assoc. Qed.
Lemma handle_all_snoc cd l m : handle_all cd (l ++ [m]) = ((handle_message (handle_all cd l).1 m).1, (handle_all cd l).2 ++ (handle_message (handle_all cd l).1 m).2).
Proof. rewrite handle_all_app. cbn. by rewrite app_nil_r. Qed.

(** ** Phases *)

(** A sender: not in the ring; with the lock and the positions it has loaded; with the
    header at [w] zeroed; owner of the record at [p], of whose payload [j] bytes are there;
    done. *)
Inductive wphase :=
| WIdle
| WLocked
| WLockedW (w : Z)
| WLockedWR (w r : Z)
| WReserved (w r : Z)
| WHas (p j : Z) (lock : bool)
| WDone.
(** The reader: between records; with positions; with the record [msg] at [r]. *)
Inductive rphase :=
| RIdle
| RW (w : Z)
| RWR (w r : Z)
| RHas (msg : WireMessage) (r : Z).

Section Specs.
Context (R : Ring).

Definition writer_spec (msg : WireMessage) (o : op) (g : wphase) : (resp o -> wphase -> Prop) -> Prop :=
  match o with
  | Load f_write_pos => fun Q => match g with WLocked => forall w, Q w (WLockedW w) | _ => False end
  | Load f_read_pos => fun Q => match g with WLockedW w => forall r, positions_ok R (mkPositions r w) -> Q r (WLockedWR w r) | _ => False end
  | Load _ => fun Q => forall v, Q v g
  | Exchange f_locked v => fun Q => match g with WIdle => v = 1 /\ Q 1 WIdle /\ Q 0 WLocked | _ => False end
  | Store f_locked v => fun Q =>
      v = 0 /\ match g with WLocked | WLockedW _ | WLockedWR _ _ => Q tt WIdle | WHas p j true => Q tt (WHas p j false) | _ => False end
  | FetchAdd f_failed_spinlocks _ => fun Q => forall v, Q v g
  | FetchAdd f_write_pos n => fun Q => match g with WReserved w r => n = rec_size msg /\ forall v, Q v (WHas w 0 true) | _ => False end
  | StoreHeader off v => fun Q =>
      match g with
      | WLockedWR w r => off = at_ R w /\ v = 0 /\ rec_size msg <= size_ R - (w - r) /\ Q tt (WReserved w r)
      | WHas p j false => off = at_ R p /\ v = len msg /\ j = len msg /\ Q tt WDone
      | _ => False
      end
  | StoreByte off b => fun Q =>
      match g with WHas p j false => off = at_ R p + 8 + j /\ 0 <= j < len msg /\ b = znth (message_bytes msg) j /\ Q tt (WHas p (j + 1) false) | _ => False end
  | Count _ | SetErrno _ | Usleep _ => fun Q => Q tt g
  | _ => fun _ => False
  end.

(** [ms] are the messages read so far; the first [c] messages were complete at the start. *)
Definition reader_spec (c : nat) (o : op) (g : rphase * list WireMessage) : (resp o -> rphase * list WireMessage -> Prop) -> Prop :=
  let '(ph, ms) := g in
  match o with
  | Load f_write_pos => fun Q => match ph with RIdle => forall w, Q w (RW w, ms) | _ => False end
  | Load f_read_pos => fun Q =>
      match ph with
      | RW w => forall r, positions_ok R (mkPositions r w) -> ((length ms < c)%nat -> r < w) -> Q r (RWR w r, ms)
      | _ => False
      end
  | LoadHeader off => fun Q =>
      match ph with
      | RWR w r => off = at_ R r /\ r < w /\ ((c <= length ms)%nat -> Q 0 (RIdle, ms)) /\
          forall msg, message_ok msg -> rec_size msg <= w - r -> Q (len msg) (RHas msg r, ms)
      | _ => False
      end
  | LoadByte off => fun Q =>
      match ph with RHas msg r => exists j, off = at_ R r + 8 + j /\ 0 <= j < len msg /\ Q (znth (message_bytes msg) j) (RHas msg r, ms) | _ => False end
  | FetchAdd f_read_pos n => fun Q =>
      match ph with RHas msg r => n = rec_size msg /\ forall v, Q v (RIdle, ms ++ [msg]) | _ => False end
  | Count _ | SetErrno _ | Usleep _ => fun Q => Q tt g
  | _ => fun _ => False
  end.

Lemma writer_spec_mono msg o g (P Q : resp o -> wphase -> Prop) :
  (forall x g', P x g' -> Q x g') -> writer_spec msg o g P -> writer_spec msg o g Q.
Proof. intros H. destruct o as [[]|[]|[]|[]| | | | | | | |], g as [| | | | |? ? []|]; cbn; naive_solver. Qed.
Lemma reader_spec_mono c o g (P Q : resp o -> rphase * list WireMessage -> Prop) :
  (forall x g', P x g' -> Q x g') -> reader_spec c o g P -> reader_spec c o g Q.
Proof. intros H. destruct g as [[] ms], o as [[]|[]|[]|[]| | | | | | | |]; cbn; naive_solver. Qed.
End Specs.

(** ** Sending follows the protocol *)

Lemma znth_app_mid (pre post : list Z) b : znth (pre ++ b :: post) (zlen pre) = b.
Proof. unfold znth, zlen. rewrite Nat2Z.id. by rewrite list_lookup_middle. Qed.

Section Sender.
Context (R : Ring) (HR : valid_ring R) (msg : WireMessage) (Hmsg : message_ok msg).
Abbreviation wpw := (wp (writer_spec R msg)).

Lemma wpw_bind {A C} (p : prog A) (f : A -> prog C) g (P : A -> wphase -> Prop) Q :
  wpw p g P -> (forall a g', P a g' -> wpw (f a) g' Q) -> wpw (bind p f) g Q.
Proof. intros Hp Hf. apply wp_bind; [apply writer_spec_mono|]. revert Hp. by apply wp_mono; [apply writer_spec_mono|]. Qed.

Definition lock_phase (lock : ScopedSpinlock) (g : wphase) : Prop := g = if locked_ lock then WLocked else WIdle.
Lemma sender_LockSlow mode : wpw (LockSlow mode) WIdle lock_phase.
Proof.
  unfold LockSlow. apply (wp_while _ (fun _ g => g = WIdle)); [done|]. intros [attempt sleeps] g ->. unfold LockSlow_body.
  destruct (match mode with Blocking => true | Try => _ end); [|done]. intros v. cbn. destruct (v =? 0).
  - cbn. split; [done|]. split; [|done]. by cases_if.
  - cbn. by cases_if.
Qed.
Lemma sender_AcquireLock mode : wpw (AcquireLock mode) WIdle lock_phase.
Proof.
  unfold AcquireLock. eapply wpw_bind with lock_phase.
  - unfold ScopedSpinlock_new. intros p. cbn. destruct (p =? 0); cbn; [|done]. split; [done|]. split; [|done]. apply sender_LockSlow.
  - intros [[] b] g Hg; [exact Hg|]. intros v. exact Hg.
Qed.
Definition releasable (g : wphase) : Prop := match g with WLocked | WLockedW _ | WLockedWR _ _ => True | _ => False end.
Definition begun (buf : Buffer) (g : wphase) : Prop :=
  match b_data buf with
  | None => releasable g
  | Some data => exists p, g = WHas p 0 true /\ data = at_ R p + 8 /\ b_size buf = len msg /\ 0 <= bytes_free buf < 2 ^ 63
  end.
Lemma sender_BeginWrite lock : wpw (BeginWrite R lock (len msg)) WLocked begun.
Proof.
  unfold BeginWrite. eapply wpw_bind with (fun r g => exists pos, r = Some pos /\ positions_ok R pos /\ g = WLockedWR (write_pos pos) (read_pos pos)).
  { intros w r Hpos. exists (mkPositions r w). split; [|by split]. cbv zeta.
    assert (E : IsCorrupt R (mkPositions r w) = false) by (apply IsCorrupt_spec; [| |done]; destruct Hpos as (? & ? & _); unfold word_ok; cbn in *; lia). by rewrite E. }
  intros r g (pos & -> & Hpos & ->). rewrite size_with_header_len by done. destruct (len_pos msg Hmsg) as [Hlen _]. pose proof (rec_size_bounds msg Hmsg) as [Hrec _].
  replace (rec_size msg <? len msg) with false by lia. destruct (avail_of_ok R pos HR Hpos) as [_ Hav]. destruct (valid_ring_size R HR) as [Hsize _].
  destruct (Z.ltb_spec (write_avail_of R pos) (rec_size msg)); [done|]. destruct Hpos as (? & ? & ? & _).
  cbn. repeat split; [lia|]. intros _. exists (write_pos pos). cbn. repeat split; lia.
Qed.
Lemma sender_copy_in p l pre post off :
  message_bytes msg = pre ++ l ++ post -> off = at_ R p + 8 + zlen pre ->
  wpw (copy_in off l) (WHas p (zlen pre) false) (fun _ g => g = WHas p (zlen pre + zlen l) false).
Proof.
  revert pre off. induction l as [|b l IH]; intros pre off Hb ->; cbn [copy_in].
  - cbn. f_equal. rewrite zlen_nil. lia.
  - assert (Hl : len msg = zlen pre + 1 + zlen l + zlen post) by (unfold len; rewrite Hb, !zlen_app, zlen_cons; lia).
    pose proof (zlen_nonneg pre). pose proof (zlen_nonneg l). pose proof (zlen_nonneg post).
    split; [done|]. split; [lia|]. split; [rewrite Hb; symmetry; apply (znth_app_mid pre (l ++ post))|].
    specialize (IH (pre ++ [b]) (at_ R p + 8 + zlen pre + 1)). rewrite zlen_app, zlen_cons, zlen_nil in IH.
    replace (zlen pre + (1 + 0)) with (zlen pre + 1) in IH by lia. rewrite zlen_cons. replace (zlen pre + (1 + zlen l)) with (zlen pre + 1 + zlen l) by lia.
    apply IH; [by rewrite Hb, <- !app_assoc|lia].
Qed.
Lemma sender_fill p : wpw (fill msg (at_ R p + 8)) (WHas p 0 false) (fun _ g => g = WHas p (len msg) false).
Proof.
  destruct Hmsg as [Hsz _]. change (WHas p 0 false) with (WHas p (zlen (@nil Z)) false). unfold len.
  assert (Hc : (exists a payload, msg = Malloc a payload) \/ (exists e, msg = Free e) \/ (exists h, msg = HeapNameMessage h)) by (destruct msg; eauto).
  destruct Hc as [(a & payload & Em)|[(e & Em)|(h & Em)]]; rewrite Em in Hsz; rewrite Em at 2; unfold fill, sizeof_RecordType, sizeof_AllocMetadata.
  - assert (Hb : message_bytes msg = le_bytes 8 RecordType_Malloc ++ AllocMetadata_bytes a ++ payload) by (by rewrite Em). destruct Hsz as [Ha _].
    eapply wpw_bind; [apply (sender_copy_in p _ [] (AllocMetadata_bytes a ++ payload)); [done|rewrite zlen_nil; lia]|]. intros _ g ->.
    rewrite zlen_nil, Z.add_0_l.
    eapply wpw_bind; [apply (sender_copy_in p _ (le_bytes 8 RecordType_Malloc) payload); [done|rewrite zlen_le_bytes; lia]|]. intros _ g ->.
    rewrite <- zlen_app. rewrite Hb, app_assoc, (zlen_app _ payload).
    apply (sender_copy_in p payload (le_bytes 8 RecordType_Malloc ++ AllocMetadata_bytes a) []); [by rewrite Hb, app_nil_r, app_assoc|].
    rewrite zlen_app, zlen_le_bytes, zlen_AllocMetadata_bytes by done. lia.
  - assert (Hb : message_bytes msg = le_bytes 8 RecordType_Free ++ FreeEntry_bytes e) by (by rewrite Em).
    eapply wpw_bind; [apply (sender_copy_in p _ [] (FreeEntry_bytes e)); [done|rewrite zlen_nil; lia]|]. intros _ g ->.
    rewrite zlen_nil, Z.add_0_l, Hb, zlen_app.
    apply (sender_copy_in p _ (le_bytes 8 RecordType_Free) []); [by rewrite Hb, app_nil_r|rewrite zlen_le_bytes; lia].
  - assert (Hb : message_bytes msg = le_bytes 8 RecordType_HeapName ++ HeapName_bytes h) by (by rewrite Em).
    eapply wpw_bind; [apply (sender_copy_in p _ [] (HeapName_bytes h)); [done|rewrite zlen_nil; lia]|]. intros _ g ->.
    rewrite zlen_nil, Z.add_0_l, Hb, zlen_app.
    apply (sender_copy_in p _ (le_bytes 8 RecordType_HeapName) []); [by rewrite Hb, app_nil_r|rewrite zlen_le_bytes; lia].
Qed.

(** The result of SendWireMessage tells whether the record is in the ring. *)
Definition sent (a : Z) (g : wphase) : Prop := (a = -1 /\ g = WIdle) \/ (0 <= a /\ g = WDone).
Lemma sender_follows : wpw (SendWireMessage R msg) WIdle sent.
Proof.
  destruct (len_pos msg Hmsg) as [Hlen E]. unfold SendWireMessage, WithBuffer. rewrite E. destruct (size_ R <? len msg); [by left|].
  eapply wpw_bind; [apply sender_AcquireLock|]. intros lock g Hg. unfold lock_phase in Hg. unfold Unlock. destruct (locked_ lock); subst g; cbn [negb]; [|by left].
  eapply wpw_bind; [apply sender_BeginWrite|]. intros buf g Hg. unfold begun in Hg. destruct (b_data buf) as [data|] eqn:Ed.
  - destruct Hg as (p & -> & -> & Es & Hf). split; [done|]. cbn [bind]. eapply wpw_bind; [apply sender_fill|]. intros _ g ->.
    eapply wpw_bind with (fun _ g => g = WDone).
    + unfold EndWrite. rewrite Ed. unfold kHeaderSize, kAlignment. split; [lia|]. rewrite Es, u32_small by lia. done.
    + intros _ g ->. right. split; [|done]. unfold s64, sw, uw. rewrite Z.mod_small by lia. replace (bytes_free buf <? 2 ^ (64 - 1)) with true by lia. lia.
  - unfold EndWrite. rewrite Ed. cbn. split; [done|]. destruct g; try done; by left.
Qed.
End Sender.

(** ** The structs in the bytes of a record *)

Lemma word_at_mid n v off (pre post l : list Z) :
  l = pre ++ le_bytes n v ++ post -> off = zlen pre -> word_ok (8 * Z.of_nat n) v -> word_at n off l = v.
Proof.
  intros -> -> Hv. unfold word_at. rewrite <- (zlen_le_bytes n v), zread_app_exact. by apply le_value_bytes_small.
Qed.
Lemma zdrop_mid off (pre post l : list Z) : l = pre ++ post -> off = zlen pre -> zdrop off l = post.
Proof. intros -> ->. apply zdrop_zlen_app. Qed.

Lemma AllocMetadata_roundtrip a payload : words_ok (Malloc a payload) -> AllocMetadata_of (AllocMetadata_bytes a) = a.
Proof.
  destruct a as [f1 f2 f3 f4 f5 f6 d]. cbn. rewrite !Forall_cons. intros (H1 & H2 & H3 & H4 & H5 & H6 & _). unfold AllocMetadata_of, AllocMetadata_bytes. cbn.
  f_equal.
  - by apply (word_at_mid 8 _ _ [] (le_bytes 8 f2 ++ le_bytes 8 f3 ++ le_bytes 8 f4 ++ le_bytes 8 f5 ++ le_bytes 8 f6 ++ d)).
  - by apply (word_at_mid 8 _ _ (le_bytes 8 f1) (le_bytes 8 f3 ++ le_bytes 8 f4 ++ le_bytes 8 f5 ++ le_bytes 8 f6 ++ d)).
  - by apply (word_at_mid 8 _ _ (le_bytes 8 f1 ++ le_bytes 8 f2) (le_bytes 8 f4 ++ le_bytes 8 f5 ++ le_bytes 8 f6 ++ d)).
  - by apply (word_at_mid 8 _ _ (le_bytes 8 f1 ++ le_bytes 8 f2 ++ le_bytes 8 f3) (le_bytes 8 f5 ++ le_bytes 8 f6 ++ d)).
  - by apply (word_at_mid 8 _ _ (le_bytes 8 f1 ++ le_bytes 8 f2 ++ le_bytes 8 f3 ++ le_bytes 8 f4) (le_bytes 8 f6 ++ d)).
  - by apply (word_at_mid 8 _ _ (le_bytes 8 f1 ++ le_bytes 8 f2 ++ le_bytes 8 f3 ++ le_bytes 8 f4 ++ le_bytes 8 f5) d).
Qed.
Lemma FreeEntry_roundtrip e : words_ok (Free e) -> FreeEntry_of (FreeEntry_bytes e) = e.
Proof.
  destruct e as [f1 f2 f3 d]. cbn. intros (H1 & H2 & H3). unfold FreeEntry_of, FreeEntry_bytes. cbn. f_equal.
  - by apply (word_at_mid 8 _ _ [] (le_bytes 8 f2 ++ le_bytes 4 f3 ++ d)).
  - by apply (word_at_mid 8 _ _ (le_bytes 8 f1) (le_bytes 4 f3 ++ d)).
  - by apply (word_at_mid 4 _ _ (le_bytes 8 f1 ++ le_bytes 8 f2) d).
Qed.
Lemma HeapName_roundtrip h : header_sizes_ok (HeapNameMessage h) -> words_ok (HeapNameMessage h) -> HeapName_of (HeapName_bytes h) = h.
Proof.
  destruct h as [f1 f2 name d]. cbn. intros [Hn Hd] (H1 & H2). unfold HeapName_of, HeapName_bytes. cbn -[zread zdrop]. f_equal.
  - by apply (word_at_mid 8 _ _ [] (le_bytes 4 f2 ++ name ++ d)).
  - by apply (word_at_mid 4 _ _ (le_bytes 8 f1) (name ++ d)).
  - rewrite <- Hn. apply (zread_app_exact (le_bytes 8 f1 ++ le_bytes 4 f2) name d).
  - apply (zdrop_mid _ (le_bytes 8 f1 ++ le_bytes 4 f2 ++ name)); [done|]. rewrite !zlen_app, Hn. done.
Qed.

(** ** Reading follows the protocol *)

Lemma zread_cons_znth (l : list Z) j n : 0 <= j < zlen l -> 0 <= n -> zread j (1 + n) l = znth l j :: zread (j + 1) n l.
Proof.
  intros Hj Hn. unfold zread, ztake, zdrop, znth, zlen in *. destruct (lookup_lt_is_Some_2 l (Z.to_nat j)) as [b Hb]; [lia|].
  rewrite (drop_S _ _ _ Hb). replace (Z.to_nat (1 + n)) with (S (Z.to_nat n)) by lia. replace (Z.to_nat (j + 1)) with (S (Z.to_nat j)) by lia.
  by rewrite Hb.
Qed.

Section Reader.
Context (R : Ring) (HR : valid_ring R) (c : nat).
Abbreviation wpr := (wp (reader_spec R c)).

Lemma wpr_bind {A C} (p : prog A) (f : A -> prog C) g (P : A -> rphase * list WireMessage -> Prop) Q :
  wpr p g P -> (forall a g', P a g' -> wpr (f a) g' Q) -> wpr (bind p f) g Q.
Proof. intros Hp Hf. apply wp_bind; [apply reader_spec_mono|]. revert Hp. by apply wp_mono; [apply reader_spec_mono|]. Qed.

(** BeginRead gives the next record, or nothing once all that was complete is read. *)
Definition rbegun (ms : list WireMessage) (buf : Buffer) (g : rphase * list WireMessage) : Prop :=
  match b_data buf with
  | None => g.2 = ms /\ (c <= length ms)%nat
  | Some data => exists msg r, g = (RHas msg r, ms) /\ message_ok msg /\ data = at_ R r + 8 /\ b_size buf = len msg
  end.
Lemma reader_BeginRead ms : wpr (BeginRead R) (RIdle, ms) (rbegun ms).
Proof.
  unfold BeginRead. eapply wpr_bind with (fun o g => exists pos, o = Some pos /\ positions_ok R pos /\ g = (RWR (write_pos pos) (read_pos pos), ms)
    /\ ((length ms < c)%nat -> read_pos pos < write_pos pos)).
  { intros w r Hpos Hc. exists (mkPositions r w). cbv zeta.
    assert (E : IsCorrupt R (mkPositions r w) = false) by (apply IsCorrupt_spec; [| |done]; destruct Hpos as (? & ? & _); unfold word_ok; cbn in *; lia). by rewrite E. }
  intros o g (pos & -> & Hpos & -> & Hc). destruct (avail_of_ok R pos HR Hpos) as [Hav _]. rewrite Hav. destruct Hpos as (? & ? & ? & ? & ?).
  unfold kHeaderSize, kAlignment. destruct (Z.ltb_spec (write_pos pos - read_pos pos) 8).
  { cbn. split; [done|]. destruct (Nat.le_gt_cases c (length ms)) as [|Hlt]; [done|]. specialize (Hc Hlt). lia. }
  cbn. split; [done|]. split; [lia|]. split; [by intros|]. intros msg Hmsg Hrec. pose proof (len_pos msg Hmsg) as [Hlen _].
  replace (len msg =? 0) with false by lia. change (len msg + 8) with (len msg + kHeaderSize). rewrite size_with_header_len by done.
  replace (write_pos pos - read_pos pos <? rec_size msg) with false by lia. exists msg, (read_pos pos). done.
Qed.

Section Record.
Context (msg : WireMessage) (r : Z) (ms : list WireMessage) (Hmsg : message_ok msg).
Let g0 := (RHas msg r, ms).
Let data := at_ R r + 8.

Lemma reader_copy_out n j off : off = data + j -> 0 <= j -> j + Z.of_nat n <= len msg ->
  wpr (copy_out n off) g0 (fun l g => l = zread j (Z.of_nat n) (message_bytes msg) /\ g = g0).
Proof.
  revert j off. induction n as [|n IH]; intros j off -> Hj Hn; cbn [copy_out]; [by rewrite zread_nil_len|].
  exists j. split; [done|]. split; [lia|]. cbn [bind]. eapply wpr_bind; [apply (IH (j + 1)); lia|]. intros l g [-> ->]. split; [|done].
  replace (Z.of_nat (S n)) with (1 + Z.of_nat n) by lia. unfold len in *. by rewrite zread_cons_znth by lia.
Qed.
Lemma reader_load_type v rest : message_bytes msg = le_bytes 8 v ++ rest -> word_ok 64 v ->
  wpr (load_record_type data) g0 (fun t g => t = v /\ g = g0).
Proof.
  intros Hb Hv. unfold load_record_type. pose proof (len_pos msg Hmsg) as [Hlen _].
  eapply wpr_bind; [apply (reader_copy_out 8 0); lia|]. intros l g [-> ->]. split; [|done].
  apply (word_at_mid 8 v 0 [] rest); [done|done|done].
Qed.
(** A part of the record, by what is in front of it. *)
Lemma reader_copy_part pre part post n off : message_bytes msg = pre ++ part ++ post -> off = data + zlen pre -> n = Z.to_nat (zlen part) ->
  wpr (copy_out n off) g0 (fun l g => l = part /\ g = g0).
Proof.
  intros Hb -> ->. pose proof (zlen_nonneg pre). pose proof (zlen_nonneg part). pose proof (zlen_nonneg post).
  eapply wp_mono; [apply reader_spec_mono| |apply (reader_copy_out _ (zlen pre)); [done|done|]].
  - intros l g [-> ->]. split; [|done]. rewrite Z2Nat.id by done. by rewrite Hb, zread_app_exact.
  - rewrite Z2Nat.id by done. unfold len. rewrite Hb, !zlen_app. lia.
Qed.

Lemma reader_HandleBuffer junk cd : wpr (HandleBuffer junk data (len msg) cd) g0 (fun r g => r = handle_message cd msg /\ g = g0).
Proof.
  destruct Hmsg as (Hsz & Hw & _). unfold HandleBuffer, ReceiveWireMessage, ViewAndAdvance, sizeof_RecordType, sizeof_AllocMetadata, sizeof_FreeEntry, sizeof_HeapName.
  assert (Hcase : (exists a payload, msg = Malloc a payload) \/ (exists e, msg = Free e) \/ (exists h, msg = HeapNameMessage h)) by (destruct msg; eauto).
  pose proof (len_pos msg Hmsg) as [Hlen _]. replace (data + len msg - 8 <? data) with false by lia.
  destruct Hcase as [(a & payload & Em)|[(e & Em)|(h & Em)]]; rewrite Em in Hsz, Hw; rewrite (f_equal (handle_message cd) Em); cbn [handle_message].
  - assert (Hb : message_bytes msg = le_bytes 8 RecordType_Malloc ++ AllocMetadata_bytes a ++ payload) by (by rewrite Em). destruct Hsz as [Ha _].
    pose proof (zlen_AllocMetadata_bytes a Ha) as Hza. pose proof (zlen_nonneg payload).
    assert (Hl : len msg = 8 + (328 + zlen payload)) by (unfold len; rewrite Hb, !zlen_app, zlen_le_bytes, Hza; lia).
    eapply wpr_bind with (fun v g => v = Some (mkView RecordType_Malloc (data + 8) (v_free_header junk) (v_heap_name_header junk) (Some (data + 8 + 328)) (zlen payload)) /\ g = g0).
    + do 2 (eapply wpr_bind; [by eapply reader_load_type|]; intros ? ? [-> ->]). cbn [Z.eqb].
      replace (data + len msg - 328 <? data + 8) with false by lia. replace (data + len msg <? data + 8 + 328) with false by lia. split; [|done]. do 2 f_equal. lia.
    + intros v g [-> ->]. cbn [v_record_type v_alloc_header v_payload v_payload_size Z.eqb].
      eapply wpr_bind; [by apply (reader_copy_part (le_bytes 8 RecordType_Malloc) (AllocMetadata_bytes a) payload); [|rewrite zlen_le_bytes|rewrite Hza]|].
      intros l g [-> ->]. rewrite (AllocMetadata_roundtrip a payload) by done. destruct (stream_allocations cd); [done|]. cbn [bind].
      eapply wpr_bind with (fun o g => o = Some payload /\ g = g0); [|by intros o g [-> ->]].
      eapply wpr_bind with (fun l g => l = payload /\ g = g0); [|by intros l g [-> ->]].
      apply (reader_copy_part (le_bytes 8 RecordType_Malloc ++ AllocMetadata_bytes a) payload []); [by rewrite Hb, app_nil_r, app_assoc| |done].
      rewrite zlen_app, zlen_le_bytes, Hza. lia.
  - assert (Hb : message_bytes msg = le_bytes 8 RecordType_Free ++ FreeEntry_bytes e) by (by rewrite Em).
    pose proof (zlen_FreeEntry_bytes e Hsz) as Hze. assert (Hl : len msg = 32) by (unfold len; rewrite Hb, !zlen_app, zlen_le_bytes, Hze; lia).
    eapply wpr_bind with (fun v g => v = Some (mkView RecordType_Free (v_alloc_header junk) (data + 8) (v_heap_name_header junk) None 0) /\ g = g0).
    + do 2 (eapply wpr_bind; [by eapply reader_load_type|]; intros ? ? [-> ->]). cbn [Z.eqb].
      eapply wpr_bind; [by eapply reader_load_type|]; intros ? ? [-> ->]. cbn [Z.eqb]. by replace (data + len msg - 24 <? data + 8) with false by lia.
    + intros v g [-> ->]. cbn [v_record_type v_free_header Z.eqb].
      eapply wpr_bind; [by apply (reader_copy_part (le_bytes 8 RecordType_Free) (FreeEntry_bytes e) []); [rewrite app_nil_r|rewrite zlen_le_bytes|rewrite Hze]|].
      intros l g [-> ->]. rewrite FreeEntry_roundtrip by done. by destruct (_ =? kRecordBatchSize).
  - assert (Hb : message_bytes msg = le_bytes 8 RecordType_HeapName ++ HeapName_bytes h) by (by rewrite Em).
    pose proof (zlen_HeapName_bytes h (proj1 Hsz) (proj2 Hsz)) as Hzh. assert (Hl : len msg = 88) by (unfold len; rewrite Hb, !zlen_app, zlen_le_bytes, Hzh; lia).
    eapply wpr_bind with (fun v g => v = Some (mkView RecordType_HeapName (v_alloc_header junk) (v_free_header junk) (data + 8) None 0) /\ g = g0).
    + do 2 (eapply wpr_bind; [by eapply reader_load_type|]; intros ? ? [-> ->]). cbn [Z.eqb].
      do 2 (eapply wpr_bind; [by eapply reader_load_type|]; intros ? ? [-> ->]; cbn [Z.eqb]). by replace (data + len msg - 80 <? data + 8) with false by lia.
    + intros v g [-> ->]. cbn [v_record_type v_heap_name_header Z.eqb].
      eapply wpr_bind; [by apply (reader_copy_part (le_bytes 8 RecordType_HeapName) (HeapName_bytes h) []); [rewrite app_nil_r|rewrite zlen_le_bytes|rewrite Hzh]|].
      intros l g [-> ->]. by rewrite HeapName_roundtrip.
Qed.
End Record.

(** The batch has handled the messages it has read; unless it stopped at its limit or after
    parsing maps, these include the first [c]. *)
Definition batch_done (cd0 : ClientData) (res : BatchResult) (g : rphase * list WireMessage) : Prop :=
  handle_all cd0 g.2 = (r_client res, r_posts res) /\ (r_status res <> kHasMore -> (c <= length g.2)%nat).
Lemma reader_read_batch cd0 n i env bytes cd posts ms : handle_all cd0 ms = (cd, posts) ->
  wpr (read_batch R n i env bytes cd posts) (RIdle, ms) (batch_done cd0).
Proof.
  revert i bytes cd posts ms. induction n as [|n IH]; intros i bytes cd posts ms H; cbn [read_batch]; [by split|].
  eapply wpr_bind; [apply reader_BeginRead|]. intros buf g Hg. unfold rbegun in Hg. destruct (b_data buf) as [data|] eqn:Ed.
  - destruct Hg as (msg & r & -> & Hmsg & -> & Es). rewrite Es. eapply wpr_bind; [by apply reader_HandleBuffer|]. intros res g [-> ->].
    eapply wpr_bind with (fun k g => g = (RIdle, ms ++ [msg])).
    + unfold EndRead. rewrite Ed, Es. split; [by apply size_with_header_len|]. by intros v.
    + intros k g ->. assert (H' : handle_all cd0 (ms ++ [msg]) = ((handle_message cd msg).1, posts ++ (handle_message cd msg).2)) by (by rewrite handle_all_snoc, H).
      destruct ((env i).2); [by split|]. by apply IH.
  - destruct Hg as [Hm Hc]. split; cbn; [by rewrite Hm|]. by rewrite Hm.
Qed.
Lemma reader_follows env cd : wpr (ReadAndUnwindBatch R env cd) (RIdle, []) (batch_done cd).
Proof. by apply reader_read_batch. Qed.
End Reader.
