(* ===== verification/SharedRingBufferSession.v ===== *)
(** * Clients and heapprofd around one ring

    The threads of a client that send messages and the worker that reads them in batches,
    one access at a time in any order.  The theorem: every message whose sending succeeded
    is handled exactly once, unchanged and in the order of the BeginWrites; no access is
    ever out of bounds; a batch misses nothing that was complete when it began. *)

From stdpp Require Import functions.
From S2P Require Import Prelude SharedRingBuffer WireProtocol SharedRingBufferLogic SharedRingBufferProtocol.

(** Divisions by constants in lia. *)
#[local] Ltac Zify.zify_post_hook ::= Z.to_euclidean_division_equations.

(** ** The bytes of the ring at positions, which are offsets that are never reduced *)

Definition byte_at (m : list Z) (q : Z) : Z := znth m (phys m q).
(** The bytes [l] from position [q] on. *)
Definition sees (m : list Z) (q : Z) (l : list Z) : Prop := forall i, 0 <= i < zlen l -> byte_at m (q + i) = znth l i.
(** [m'] is [m] with [l] written at position [q]. *)
Record put (m : list Z) (q : Z) (l : list Z) (m' : list Z) : Prop := {
  put_size : zlen m' = zlen m;
  put_new : sees m' q l;
  put_old : forall q', (forall i, 0 <= i < zlen l -> phys m q' <> phys m (q + i)) -> byte_at m' q' = byte_at m q'
}.

Lemma znth_insert (m : list Z) i j v : 0 <= i < zlen m -> 0 <= j -> znth (<[Z.to_nat i := v]> m) j = if j =? i then v else znth m j.
Proof.
  intros Hi Hj. unfold znth, zlen in *. destruct (Z.eqb_spec j i) as [->|Hne].
  - by rewrite list_lookup_insert_eq by lia.
  - by rewrite list_lookup_insert_ne by lia.
Qed.
Lemma znth_zwrite (m l : list Z) off j : 0 <= off -> off + zlen l <= zlen m -> 0 <= j ->
  znth (zwrite off l m) j = if (off <=? j) && (j <? off + zlen l) then znth l (j - off) else znth m j.
Proof.
  intros Ho Hl Hj. unfold znth, zwrite, zlen, ztake, zdrop in *. destruct (Z.leb_spec off j); cbn [andb].
  2:{ rewrite lookup_app_l by (rewrite length_take; lia). by rewrite lookup_take_lt by lia. }
  rewrite lookup_app_r by (rewrite length_take; lia). rewrite length_take, Nat.min_l by lia. destruct (Z.ltb_spec j (off + Z.of_nat (length l))).
  - rewrite lookup_app_l by lia. do 2 f_equal. lia.
  - rewrite lookup_app_r by lia. rewrite lookup_drop. do 2 f_equal. lia.
Qed.

Lemma phys_size m m' q : zlen m' = zlen m -> phys m' q = phys m q.
Proof. unfold phys. by intros ->. Qed.

Section Bytes.
Context (N : Z) (HN : 0 < N).

Lemma put_byte m q b : zlen m = N -> put m q [b] (<[Z.to_nat (phys m q) := b]> m).
Proof.
  intros Hm. assert (Hr : 0 <= phys m q < zlen m) by (apply Z.mod_pos_bound; lia).
  assert (Hsz : zlen (<[Z.to_nat (phys m q) := b]> m) = zlen m) by (unfold zlen; by rewrite length_insert). split; [done| |].
  - intros i Hi. change (zlen [b]) with 1 in Hi. replace i with 0 by lia. rewrite Z.add_0_r. unfold byte_at.
    rewrite (phys_size _ _ q Hsz). rewrite znth_insert by lia. by rewrite Z.eqb_refl.
  - intros q' Hq. specialize (Hq 0 ltac:(done)). rewrite Z.add_0_r in Hq. unfold byte_at.
    rewrite (phys_size _ _ q' Hsz).
    assert (0 <= phys m q' < zlen m) by (apply Z.mod_pos_bound; lia). rewrite znth_insert by lia. by replace (phys m q' =? phys m q) with false by lia.
Qed.
(** A run of bytes that does not wrap around. *)
Lemma phys_add m q i : zlen m = N -> q `mod` N + i < N -> 0 <= i -> phys m (q + i) = q `mod` N + i.
Proof.
  intros Hm Hi H0. unfold phys. rewrite Hm, <- (Zplus_mod_idemp_l q i N). apply Z.mod_small. pose proof (Z.mod_pos_bound q N HN). lia.
Qed.
Lemma put_zwrite m q l : zlen m = N -> q `mod` N + zlen l <= N -> put m q l (zwrite (phys m q) l m).
Proof.
  intros Hm Hq. pose proof (Z.mod_pos_bound q N HN) as Hr. pose proof (zlen_nonneg l). assert (Hph : phys m q = q `mod` N) by (unfold phys; by rewrite Hm). rewrite Hph.
  assert (Hsz : zlen (zwrite (q `mod` N) l m) = zlen m) by (apply zlen_zwrite; lia). split; [done| |].
  - intros i Hi. unfold byte_at. rewrite phys_add by (rewrite ?Hsz; done || lia). rewrite znth_zwrite by lia.
    replace ((q `mod` N <=? q `mod` N + i) && (q `mod` N + i <? q `mod` N + zlen l)) with true by lia. f_equal. lia.
  - intros q' Hq'. unfold byte_at. rewrite (phys_size _ _ q' Hsz).
    assert (0 <= phys m q' < N) by (unfold phys; rewrite Hm; apply Z.mod_pos_bound; lia). rewrite znth_zwrite by lia.
    destruct (_ && _) eqn:E; [|done]. exfalso. apply (Hq' (phys m q' - q `mod` N)); [lia|]. rewrite phys_add by (done || lia). lia.
Qed.

(** Different positions of a window of [N] are different bytes. *)
Lemma phys_window m a q q' : zlen m = N -> a <= q < a + N -> a <= q' < a + N -> q <> q' -> phys m q <> phys m q'.
Proof.
  intros Hm Hq Hq' Hne H. unfold phys in H. rewrite Hm in H. pose proof (Z.div_mod q N ltac:(lia)). pose proof (Z.div_mod q' N ltac:(lia)).
  assert (q `div` N = q' `div` N) by nia. congruence.
Qed.
Lemma sees_put_disjoint m m' a q l q' l' : zlen m = N -> put m q l m' ->
  a <= q -> q + zlen l <= a + N -> a <= q' -> q' + zlen l' <= a + N -> q' + zlen l' <= q \/ q + zlen l <= q' ->
  sees m q' l' -> sees m' q' l'.
Proof.
  intros Hm Hput Ha Hb Ha' Hb' Hd Hs i Hi. rewrite (put_old _ _ _ _ Hput); [by apply Hs|]. intros j Hj. apply (phys_window m a); [done|lia|lia|lia].
Qed.
Lemma sees_app m q l k : sees m q (l ++ k) <-> sees m q l /\ sees m (q + zlen l) k.
Proof.
  unfold sees. rewrite zlen_app. pose proof (zlen_nonneg l). pose proof (zlen_nonneg k). split.
  - intros Hs. split; intros i Hi.
    + rewrite Hs by lia. unfold znth, zlen in *. by rewrite lookup_app_l by lia.
    + rewrite <- Z.add_assoc, Hs by lia. unfold znth, zlen in *. rewrite lookup_app_r by lia. do 2 f_equal. lia.
  - intros [H1 H2] i Hi. destruct (Z.lt_ge_cases i (zlen l)).
    + rewrite H1 by lia. unfold znth, zlen in *. by rewrite lookup_app_l by lia.
    + replace (q + i) with (q + zlen l + (i - zlen l)) by lia. rewrite H2 by lia. unfold znth, zlen in *. rewrite lookup_app_r by lia. do 2 f_equal. lia.
Qed.
(** A header is read back. *)
Lemma sees_header m q v : zlen m = N -> N `mod` 8 = 0 -> q `mod` 8 = 0 -> 0 <= v < 2 ^ 32 -> sees m q (le_bytes 4 v) ->
  le_value (zread (phys m q) 4 m) = v.
Proof.
  intros Hm HN8 Hq8 Hv Hs. rewrite <- (le_value_bytes_small 4 v) by done. f_equal.
  pose proof (Z.mod_pos_bound q N HN). assert (Hfit : q `mod` N + 4 <= N).
  { assert (q `mod` N `mod` 8 = 0); [|lia]. apply Z.mod_divide in HN8 as [c Hc]; [|lia]. rewrite Hc, (Z.mul_comm c 8), Z.rem_mul_r by nia. rewrite Hq8. lia. }
  apply list_eq_same_length with 4%nat; [by rewrite length_le_bytes| |].
  { pose proof (zlen_zread (phys m q) 4 m) as Hl. unfold phys in *. rewrite Hm in *. unfold zlen in Hl. lia. }
  intros i x y Hi Hx Hy. specialize (Hs (Z.of_nat i)). rewrite zlen_le_bytes in Hs. specialize (Hs ltac:(lia)). unfold byte_at in Hs.
  rewrite phys_add in Hs by (done || lia). rewrite zread_lookup in Hx by (unfold phys; rewrite ?Hm; lia). rewrite decide_True in Hx by lia. unfold phys in Hx. rewrite Hm in Hx.
  unfold znth in Hs. replace (Z.to_nat (q `mod` N + Z.of_nat i)) with (Z.to_nat (q `mod` N) + i)%nat in Hs by lia. rewrite Hx, Nat2Z.id, Hy in Hs. done.
Qed.
End Bytes.

(** ** The records in the ring *)

(** A record at [e_pos], still filled by thread [e_owner] or complete. *)
Record entry := mkEntry { e_pos : Z; e_msg : WireMessage; e_owner : option nat }.
Definition e_end (e : entry) : Z := e_pos e + rec_size (e_msg e).
Fixpoint chain (p : Z) (es : list entry) (w : Z) : Prop :=
  match es with
  | [] => p = w
  | e :: es => e_pos e = p /\ chain (e_end e) es w
  end.
Definition commit (i : nat) (e : entry) : entry := if decide (e_owner e = Some i) then mkEntry (e_pos e) (e_msg e) None else e.

Lemma chain_app p es1 es2 w : chain p (es1 ++ es2) w <-> exists q, chain p es1 q /\ chain q es2 w.
Proof.
  revert p. induction es1 as [|e es1 IH]; intros p; cbn; [naive_solver|]. rewrite IH. naive_solver.
Qed.
Lemma commit_pos i e : e_pos (commit i e) = e_pos e /\ e_msg (commit i e) = e_msg e /\ e_end (commit i e) = e_end e.
Proof. unfold commit, e_end. by case_decide. Qed.
Lemma chain_commit i p es w : chain p es w -> chain p (commit i <$> es) w.
Proof.
  revert p. induction es as [|e es IH]; intros p; [done|]. rewrite fmap_cons. cbn. destruct (commit_pos i e) as (-> & _ & ->). intros [-> H]. split; [done|]. by apply IH.
Qed.
Lemma chain_bounds p es w : (forall e, e ∈ es -> message_ok (e_msg e)) -> chain p es w ->
  p <= w /\ (forall e, e ∈ es -> p <= e_pos e /\ e_end e <= w) /\ (p `mod` 8 = 0 -> w `mod` 8 = 0 /\ forall e, e ∈ es -> e_pos e `mod` 8 = 0).
Proof.
  revert p. induction es as [|e es IH]; intros p Hok; cbn; [intros ->; split; [lia|]; split; [by intros ? ?%elem_of_nil|intros; split; [done|by intros ? ?%elem_of_nil]]|].
  intros [<- H]. assert (Hoke : message_ok (e_msg e)) by (apply Hok, elem_of_cons; by left). pose proof (len_pos _ Hoke) as [Hl _]. pose proof (rec_size_bounds _ Hoke) as [Hb H8].
  destruct (IH (e_end e)) as (H1 & H2 & H3); [intros e' He'; apply Hok, elem_of_cons; by right|done|]. unfold e_end in *. split; [lia|]. split.
  - intros e' [->|He']%elem_of_cons; [lia|]. specialize (H2 e' He'). lia.
  - intros Hp. destruct H3 as [H3 H4]; [lia|]. split; [done|]. intros e' [->|He']%elem_of_cons; [lia|]. by apply H4.
Qed.
Lemma chain_disjoint p es w e1 e2 : (forall e, e ∈ es -> message_ok (e_msg e)) -> chain p es w -> e1 ∈ es -> e2 ∈ es ->
  e1 = e2 \/ e_end e1 <= e_pos e2 \/ e_end e2 <= e_pos e1.
Proof.
  revert p. induction es as [|e es IH]; intros p Hok; cbn; [by intros _ ?%elem_of_nil|]. intros [<- H].
  assert (Hok' : forall e', e' ∈ es -> message_ok (e_msg e')) by (intros e' He'; apply Hok, elem_of_cons; by right).
  destruct (chain_bounds _ _ _ Hok' H) as (_ & Hb & _).
  intros [->|H1]%elem_of_cons [->|H2]%elem_of_cons; [by left| | |by apply (IH (e_end e))].
  - right; left. by apply Hb.
  - right; right. by apply Hb.
Qed.

(** ** The invariant *)

Definition holds (g : wphase) : bool :=
  match g with WLocked | WLockedW _ | WLockedWR _ _ | WReserved _ _ => true | WHas _ _ lock => lock | _ => false end.
Definition in_ring (g : wphase) : bool := match g with WHas _ _ _ | WDone => true | _ => false end.
Abbreviation rpos sh := (atomics sh f_read_pos).
Abbreviation wpos sh := (atomics sh f_write_pos).

Section Invariant.
Context (R : Ring) (HR : valid_ring R).
Let N := size_ R.

Definition entry_ok (m : list Z) (e : entry) : Prop :=
  message_ok (e_msg e) /\ sees m (e_pos e) (le_bytes 4 (match e_owner e with None => len (e_msg e) | Some _ => 0 end)) /\
  (e_owner e = None -> sees m (e_pos e + 8) (message_bytes (e_msg e))).
Definition reserved (sh : Shared) (msg : WireMessage) (w r : Z) : Prop :=
  w = wpos sh /\ r <= rpos sh /\ w + rec_size msg <= r + N.
Definition thread_ok (sh : Shared) (es : list entry) (i : nat) (t : WireMessage * wphase) : Prop :=
  message_ok t.1 /\ (holds t.2 = true -> atomics sh f_locked = 1) /\
  match t.2 with
  | WLockedW w => w = wpos sh
  | WLockedWR w r => w = wpos sh /\ r <= rpos sh
  | WReserved w r => reserved sh t.1 w r /\ sees (ring_mem sh) w (le_bytes 4 0)
  | WHas p j _ => mkEntry p t.1 (Some i) ∈ es /\ 0 <= j <= len t.1 /\ sees (ring_mem sh) (p + 8) (ztake j (message_bytes t.1))
  | _ => True
  end.
(** [w] is the end of a record, and not the first position while some of the [c] are left. *)
Definition boundary (sh : Shared) (es : list entry) (ms : list WireMessage) (c : nat) (w : Z) : Prop :=
  (exists n, chain (rpos sh) (take n es) w) /\ ((length ms < c)%nat -> rpos sh < w).
Definition reader_ok (sh : Shared) (es : list entry) (rd : rphase * list WireMessage) (c : nat) : Prop :=
  (forall k, (length rd.2 + k < c)%nat -> exists e, es !! k = Some e /\ e_owner e = None) /\
  match rd.1 with
  | RIdle => True
  | RW w => boundary sh es rd.2 c w
  | RWR w r => r = rpos sh /\ boundary sh es rd.2 c w
  | RHas msg r => r = rpos sh /\ exists es2, es = mkEntry r msg None :: es2
  end.

Record ring_inv (sh : Shared) (es : list entry) (ths : list (WireMessage * wphase)) (rd : rphase * list WireMessage) (c : nat) : Prop := {
  ri_size : zlen (ring_mem sh) = N;
  ri_chain : chain (rpos sh) es (wpos sh);
  ri_pos : 0 <= rpos sh /\ wpos sh < 2 ^ 64 /\ wpos sh - rpos sh <= N /\ rpos sh `mod` 8 = 0;
  ri_entries : forall e, e ∈ es -> entry_ok (ring_mem sh) e;
  ri_locked : atomics sh f_locked = 0 \/ atomics sh f_locked = 1;
  ri_threads : forall i t, ths !! i = Some t -> thread_ok sh es i t;
  ri_mutex : forall i j t u, ths !! i = Some t -> ths !! j = Some u -> holds t.2 = true -> holds u.2 = true -> i = j;
  ri_owner : forall e i, e ∈ es -> e_owner e = Some i -> exists j lk, ths !! i = Some (e_msg e, WHas (e_pos e) j lk);
  ri_reader : reader_ok sh es rd c
}.

Section Facts.
Context sh es ths rd c (HI : ring_inv sh es ths rd c).
Lemma ri_msgs e : e ∈ es -> message_ok (e_msg e).
Proof. intros He. by apply (ri_entries _ _ _ _ _ HI). Qed.
Lemma ri_bounds : rpos sh <= wpos sh /\ wpos sh `mod` 8 = 0 /\ forall e, e ∈ es -> rpos sh <= e_pos e /\ e_end e <= wpos sh /\ e_pos e `mod` 8 = 0.
Proof.
  destruct (chain_bounds _ _ _ ri_msgs (ri_chain _ _ _ _ _ HI)) as (H1 & H2 & H3). destruct (ri_pos _ _ _ _ _ HI) as (? & ? & ? & H8).
  destruct (H3 H8) as [Hw He8]. split; [done|]. split; [done|]. intros e He. destruct (H2 e He). split; [done|]. split; [done|]. by apply He8.
Qed.
Lemma ri_positions : positions_ok R (mkPositions (rpos sh) (wpos sh)).
Proof. destruct ri_bounds as (? & ? & _). destruct (ri_pos _ _ _ _ _ HI) as (? & ? & ? & ?). unfold positions_ok. cbn. unfold N in *. lia. Qed.
Lemma ri_disjoint e1 e2 : e1 ∈ es -> e2 ∈ es -> e1 = e2 \/ e_end e1 <= e_pos e2 \/ e_end e2 <= e_pos e1.
Proof. apply (chain_disjoint (rpos sh) _ (wpos sh)); [apply ri_msgs|apply (ri_chain _ _ _ _ _ HI)]. Qed.
End Facts.

(** ** Steps that change no record *)

Definition same_ring (sh sh' : Shared) : Prop := ring_mem sh' = ring_mem sh /\ rpos sh' = rpos sh /\ wpos sh' = wpos sh.
Lemma thread_ok_same sh sh' es i t : same_ring sh sh' -> (holds t.2 = true -> atomics sh' f_locked = 1) -> thread_ok sh es i t -> thread_ok sh' es i t.
Proof.
  intros (Hm & Hr & Hw) Hl (Hok & _ & H). split; [done|]. split; [done|]. revert H. unfold reserved. by rewrite Hm, Hr, Hw.
Qed.
Lemma reader_ok_same sh sh' es rd c : same_ring sh sh' -> reader_ok sh es rd c -> reader_ok sh' es rd c.
Proof. intros (Hm & Hr & Hw). unfold reader_ok, boundary. by rewrite Hr. Qed.

(** The thread changes its phase, and perhaps the lock or, if it has no record, its message. *)
Lemma inv_message sh sh' es ths rd c i msg msg' g g' :
  ring_inv sh es ths rd c -> ths !! i = Some (msg, g) -> same_ring sh sh' ->
  atomics sh' f_locked = 0 \/ atomics sh' f_locked = 1 ->
  (forall j t, j <> i -> ths !! j = Some t -> holds t.2 = true -> atomics sh' f_locked = 1 /\ holds g' = false) ->
  thread_ok sh' es i (msg', g') ->
  (forall p j lk, g = WHas p j lk -> msg' = msg /\ exists j' lk', g' = WHas p j' lk') ->
  ring_inv sh' es (<[i:=(msg', g')]> ths) rd c.
Proof.
  intros HI Hi Hsame Hl01 Hothers Hself Hkeep. pose proof Hsame as (Hm & Hr & Hw). pose proof (lookup_lt_Some _ _ _ Hi) as Hlt.
  assert (Hget : forall j t, <[i:=(msg', g')]> ths !! j = Some t -> (j = i /\ t = (msg', g')) \/ (j <> i /\ ths !! j = Some t)).
  { intros j t Hj. apply list_lookup_insert_Some in Hj. naive_solver. }
  destruct HI as [H1 H2 H3 H4 H5 H6 H7 H8 H9]. split; rewrite ?Hm, ?Hr, ?Hw; try done.
  - intros j t [[-> ->]|[Hne Hj]]%Hget; [done|]. apply (thread_ok_same sh); [done| |by apply H6]. intros Hh. by apply (Hothers j t).
  - intros j k t u [[-> ->]|[Hne Hj]]%Hget [[-> ->]|[Hne' Hk]]%Hget Ht Hu; [done| | |by apply (H7 j k t u)].
    + destruct (Hothers k u Hne' Hk Hu) as [_ Hf]. cbn in Ht. congruence.
    + destruct (Hothers j t Hne Hj Ht) as [_ Hf]. cbn in Hu. congruence.
  - intros e k He Hek. destruct (H8 e k He Hek) as (j & lk & Hk). destruct (decide (k = i)) as [->|Hne].
    + rewrite Hi in Hk. injection Hk as -> ->. destruct (Hkeep (e_pos e) j lk eq_refl) as (-> & j' & lk' & ->). exists j', lk'. by rewrite list_lookup_insert_eq.
    + exists j, lk. by rewrite list_lookup_insert_ne.
  - by apply (reader_ok_same sh).
Qed.
Lemma inv_thread sh sh' es ths rd c i msg g g' :
  ring_inv sh es ths rd c -> ths !! i = Some (msg, g) -> same_ring sh sh' ->
  atomics sh' f_locked = 0 \/ atomics sh' f_locked = 1 ->
  (forall j t, j <> i -> ths !! j = Some t -> holds t.2 = true -> atomics sh' f_locked = 1 /\ holds g' = false) ->
  thread_ok sh' es i (msg, g') ->
  (forall p j lk, g = WHas p j lk -> exists j' lk', g' = WHas p j' lk') ->
  ring_inv sh' es (<[i:=(msg, g')]> ths) rd c.
Proof. intros HI Hi Hsame Hl Ho Hself Hkeep. apply (inv_message sh sh' es ths rd c i msg msg g g' HI Hi Hsame Hl Ho Hself). intros p j lk E. split; [done|]. by apply (Hkeep p j lk). Qed.
(** A thread that is done starts with another message. *)
Lemma inv_restart sh es ths rd c i msg msg' g :
  ring_inv sh es ths rd c -> ths !! i = Some (msg, g) -> g = WIdle \/ g = WDone -> message_ok msg' ->
  ring_inv sh es (<[i:=(msg', WIdle)]> ths) rd c.
Proof.
  intros HI Hi Hg Hok. apply (inv_message sh sh es ths rd c i msg msg' g WIdle HI Hi); try done.
  - apply (ri_locked _ _ _ _ _ HI).
  - intros j t _ Hj Ht. split; [|done]. by apply (ri_threads _ _ _ _ _ HI j t Hj).
  - by intros p j lk ->; destruct Hg.
Qed.
(** The lock and the ring stay as they are. *)
Lemma inv_quiet sh sh' es ths rd c i msg g g' :
  ring_inv sh es ths rd c -> ths !! i = Some (msg, g) -> same_ring sh sh' -> atomics sh' f_locked = atomics sh f_locked ->
  (holds g' = true -> holds g = true) -> thread_ok sh es i (msg, g') ->
  (forall p j lk, g = WHas p j lk -> exists j' lk', g' = WHas p j' lk') ->
  ring_inv sh' es (<[i:=(msg, g')]> ths) rd c.
Proof.
  intros HI Hi Hsame Hl Hh Hself Hkeep. apply (inv_thread sh _ _ _ _ _ _ _ g); try done.
  - rewrite Hl. apply (ri_locked _ _ _ _ _ HI).
  - intros j t Hne Hj Ht. split; [rewrite Hl; by apply (ri_threads _ _ _ _ _ HI j t Hj)|]. destruct (holds g') eqn:E; [|done].
    destruct Hne. apply (ri_mutex _ _ _ _ _ HI j i t (msg, g)); [done|done|done|by apply Hh].
  - destruct Hself as (Hok & Hlk & Hself). apply (thread_ok_same sh); [done|rewrite Hl; exact Hlk|by split].
Qed.
Lemma inv_reader sh sh' es ths rd rd' c c' : ring_inv sh es ths rd c -> same_ring sh sh' -> atomics sh' f_locked = atomics sh f_locked ->
  reader_ok sh es rd' c' -> ring_inv sh' es ths rd' c'.
Proof.
  intros [H1 H2 H3 H4 H5 H6 H7 H8 H9] Hsame Hl Hrd. pose proof Hsame as (Hm & Hr & Hw). split; rewrite ?Hm, ?Hr, ?Hw, ?Hl; try done.
  - intros i t Hi. pose proof (H6 i t Hi) as Ht. apply (thread_ok_same sh); [done|rewrite Hl; apply Ht|done].
  - by apply (reader_ok_same sh).
Qed.

(** ** Writes to the memory *)

(** What becomes of the records: nothing, or those of thread [i] are complete. *)
Definition settles (i : nat) (f : entry -> entry) : Prop :=
  forall e, e_pos (f e) = e_pos e /\ e_msg (f e) = e_msg e /\ (e_owner e <> Some i -> f e = e) /\ (e_owner e = Some i -> e_owner (f e) = Some i \/ e_owner (f e) = None).
Lemma settles_id i : settles i id.
Proof. intros e. naive_solver. Qed.
Lemma settles_commit i : settles i (commit i).
Proof. intros e. unfold commit. case_decide; naive_solver. Qed.
Lemma chain_settles i f p es w : settles i f -> chain p es w -> chain p (f <$> es) w.
Proof.
  intros Hf. revert p. induction es as [|e es IH]; intros p; [done|]. rewrite fmap_cons. cbn. destruct (Hf e) as (Hp & Hm & _). unfold e_end. rewrite Hp, Hm.
  intros [-> H]. split; [done|]. by apply IH.
Qed.
Lemma reader_ok_settles i f sh es rd c : settles i f -> reader_ok sh es rd c -> reader_ok sh (f <$> es) rd c.
Proof.
  intros Hf [H1 H2]. assert (Hb : forall ms w, boundary sh es ms c w -> boundary sh (f <$> es) ms c w).
  { intros ms w [(n & Hn) Hlt]. split; [|done]. exists n. rewrite <- fmap_take. by apply (chain_settles i). }
  assert (Hnone : forall e, e_owner e = None -> f e = e) by (intros e He; destruct (Hf e) as (_ & _ & Hid & _); apply Hid; by rewrite He).
  split.
  - intros k Hk. destruct (H1 k Hk) as (e & He & Ho). exists e. rewrite list_lookup_fmap, He. cbn. by rewrite Hnone.
  - destruct (rd.1) as [|w|w r|msg r]; [done|by apply Hb| |].
    + destruct H2 as [-> H2]. split; [done|]. by apply Hb.
    + destruct H2 as [-> (es2 & ->)]. split; [done|]. exists (f <$> es2). rewrite fmap_cons. by rewrite Hnone.
Qed.

(** Thread [i] writes [l] at [q], inside a record of its own or behind the last record. *)
Lemma inv_put sh m' es f ths rd c i msg g g' q l :
  ring_inv sh es ths rd c -> ths !! i = Some (msg, g) -> settles i f -> put (ring_mem sh) q l m' ->
  rpos sh <= q -> q + zlen l <= rpos sh + N ->
  (forall e, e ∈ es -> e_owner e <> Some i -> e_end e <= q \/ q + zlen l <= e_pos e) ->
  (forall e, e ∈ es -> e_owner e = Some i -> entry_ok m' (f e) /\ (e_owner (f e) = Some i -> exists j lk, g' = WHas (e_pos e) j lk /\ msg = e_msg e)) ->
  (forall j t, j <> i -> ths !! j = Some t -> holds t.2 = true -> q + zlen l <= wpos sh) ->
  (holds g' = true -> holds g = true) -> thread_ok (set_mem m' sh) (f <$> es) i (msg, g') ->
  ring_inv (set_mem m' sh) (f <$> es) (<[i:=(msg, g')]> ths) rd c.
Proof.
  intros HI Hi Hf Hput Hq Hql Hdis Hown Hres Hh Hself. pose proof (valid_ring_size R HR) as [Hsize _]. pose proof (ri_bounds _ _ _ _ _ HI) as (Hrw & _ & Hbounds).
  pose proof (ri_pos _ _ _ _ _ HI) as (_ & _ & Hwin & _). pose proof (ri_size _ _ _ _ _ HI) as Hsz. pose proof (lookup_lt_Some _ _ _ Hi) as Hlt.
  assert (Hkeep : forall q' l', rpos sh <= q' -> q' + zlen l' <= rpos sh + N -> q' + zlen l' <= q \/ q + zlen l <= q' -> sees (ring_mem sh) q' l' -> sees m' q' l').
  { intros q' l'. apply (sees_put_disjoint N ltac:(unfold N; lia) _ _ (rpos sh)); done. }
  assert (Hentry : forall e, e ∈ es -> e_owner e <> Some i -> forall k l', 0 <= k -> k + zlen l' <= rec_size (e_msg e) -> sees (ring_mem sh) (e_pos e + k) l' -> sees m' (e_pos e + k) l').
  { intros e He Ho k l' Hk Hkl. pose proof (Hbounds e He) as (H1 & H2 & _). pose proof (Hdis e He Ho). unfold e_end in *. apply Hkeep; lia. }
  assert (Hget : forall j t, <[i:=(msg, g')]> ths !! j = Some t -> (j = i /\ t = (msg, g')) \/ (j <> i /\ ths !! j = Some t)).
  { intros j t Hj. apply list_lookup_insert_Some in Hj. naive_solver. }
  split; cbn [ring_mem set_mem atomics].
  - by rewrite (put_size _ _ _ _ Hput).
  - apply (chain_settles i); [done|]. apply (ri_chain _ _ _ _ _ HI).
  - apply (ri_pos _ _ _ _ _ HI).
  - intros e' (e & -> & He)%list_elem_of_fmap. destruct (decide (e_owner e = Some i)) as [Ho|Ho]; [by apply Hown|].
    destruct (Hf e) as (_ & _ & Hid & _). rewrite (Hid Ho). destruct (ri_entries _ _ _ _ _ HI e He) as (Hok & Hhdr & Hpay).
    pose proof (rec_size_bounds _ Hok) as [Hrec _]. pose proof (len_pos _ Hok) as [Hlen _]. split; [done|]. split.
    + rewrite <- (Z.add_0_r (e_pos e)). apply Hentry; [done|done|lia|rewrite zlen_le_bytes; lia|by rewrite Z.add_0_r].
    + intros Hn. apply Hentry; [done|done|lia|fold (len (e_msg e)); lia|by apply Hpay].
  - apply (ri_locked _ _ _ _ _ HI).
  - intros j t [[-> ->]|[Hne Hj]]%Hget; [done|]. destruct (ri_threads _ _ _ _ _ HI j t Hj) as (Hok & Hl & Hph). split; [done|]. split; [done|].
    specialize (Hres j t Hne Hj). destruct (t.2) as [| | | |w r|p k lk|]; try done.
    + destruct Hph as ((-> & Hr & Hfit) & Hs). pose proof (rec_size_bounds _ Hok) as [Hrec _]. pose proof (len_pos _ Hok) as [Hlen _].
      split; [by repeat split|]. apply Hkeep; [lia|rewrite zlen_le_bytes; lia| |done]. right. by apply Hres.
    + destruct Hph as (He & Hk & Hs). assert (Hoj : e_owner (mkEntry p t.1 (Some j)) <> Some i) by (cbn; congruence). split; [|split; [done|]].
      * apply list_elem_of_fmap. exists (mkEntry p t.1 (Some j)). split; [|done]. destruct (Hf (mkEntry p t.1 (Some j))) as (_ & _ & Hid & _). by rewrite Hid.
      * pose proof (rec_size_bounds _ Hok) as [Hrec _]. apply (Hentry _ He Hoj 8); [lia| |done]. cbn. rewrite zlen_ztake by (unfold len in *; lia). lia.
  - intros j k t u [[-> ->]|[Hne Hj]]%Hget [[-> ->]|[Hne' Hk]]%Hget Ht Hu; [done| | |by apply (ri_mutex _ _ _ _ _ HI j k t u)].
    + by apply (ri_mutex _ _ _ _ _ HI i k (msg, g) u); [| |apply Hh|].
    + by apply (ri_mutex _ _ _ _ _ HI j i t (msg, g)); [| | |apply Hh].
  - intros e' k (e & -> & He)%list_elem_of_fmap Hk. destruct (Hf e) as (Hp & Hm & Hid & Hi'). rewrite Hp, Hm. destruct (decide (e_owner e = Some i)) as [Ho|Ho].
    + destruct (Hi' Ho) as [E|E]; rewrite E in Hk; [|done]. injection Hk as <-. destruct (Hown e He Ho) as [_ Hg]. destruct (Hg E) as (j & lk & -> & ->).
      exists j, lk. by rewrite list_lookup_insert_eq.
    + rewrite (Hid Ho) in Hk. destruct (ri_owner _ _ _ _ _ HI e k He Hk) as (j & lk & Hkt). exists j, lk. rewrite list_lookup_insert_ne; [done|]. congruence.
  - apply (reader_ok_settles i); [done|]. apply (ri_reader _ _ _ _ _ HI).
Qed.

(** ** The accesses of a sender to the ring *)

Lemma phys_at m p k : zlen m = N -> phys m (at_ R p + k) = phys m (p + k).
Proof. intros Hm. unfold phys. rewrite Hm, at_mod by done. apply Zplus_mod_idemp_l. Qed.
Lemma N_facts : 4096 <= N < 2 ^ 63 /\ N `mod` 8 = 0.
Proof. pose proof (valid_ring_size R HR). unfold N. lia. Qed.
(** A position that is aligned has room for its header before the end of the mapping. *)
Lemma aligned_fits q : q `mod` 8 = 0 -> q `mod` N + 8 <= N.
Proof.
  intros Hq. pose proof N_facts as [HN HN8]. pose proof (Z.mod_pos_bound q N ltac:(lia)). assert (q `mod` N `mod` 8 = 0); [|lia].
  pose proof (at_aligned R q HR Hq) as Ha. by rewrite at_mod in Ha.
Qed.
Lemma exec_StoreHeader sh p v : zlen (ring_mem sh) = N -> p `mod` 8 = 0 ->
  exists m', exec_op (StoreHeader (at_ R p) v) sh = Ok (tt, set_mem m' sh) /\ put (ring_mem sh) p (le_bytes 4 v) m'.
Proof.
  intros Hm Hp. pose proof (header_in_mapping R HR p Hp) as Hin. unfold exec_op. rewrite Hm. fold N in Hin. rewrite Hin. cbn [perfetto_check obind].
  replace (phys (ring_mem sh) (at_ R p)) with (phys (ring_mem sh) p) by (rewrite <- (Z.add_0_r (at_ R p)), phys_at by done; f_equal; lia).
  eexists. split; [done|]. pose proof N_facts. apply (put_zwrite N); [lia|done|]. pose proof (aligned_fits p Hp). rewrite zlen_le_bytes. lia.
Qed.
Lemma mapped_byte p k : 0 <= k < N -> mapped N (at_ R p + k) 1 = true.
Proof. intros Hk. pose proof (at_range R p HR). unfold mapped, N in *. rewrite andb_true_iff, !Z.leb_le. lia. Qed.
Lemma exec_StoreByte sh p k b : zlen (ring_mem sh) = N -> 0 <= k < N ->
  exists m', exec_op (StoreByte (at_ R p + k) b) sh = Ok (tt, set_mem m' sh) /\ put (ring_mem sh) (p + k) [b] m'.
Proof.
  intros Hm Hk. unfold exec_op. rewrite Hm, mapped_byte by done. cbn [perfetto_check obind]. rewrite phys_at by done.
  eexists. split; [done|]. pose proof N_facts. by apply (put_byte N); [lia|].
Qed.

Section Sender.
Context sh es ths rd c (i : nat) (msg : WireMessage) (HI : ring_inv sh es ths rd c).

Lemma ri_self g : ths !! i = Some (msg, g) -> thread_ok sh es i (msg, g).
Proof. apply (ri_threads _ _ _ _ _ HI). Qed.
Lemma alone g j t : ths !! i = Some (msg, g) -> holds g = true -> j <> i -> ths !! j = Some t -> holds t.2 = false.
Proof.
  intros Hi Hg Hne Hj. destruct (holds t.2) eqn:E; [|done]. destruct Hne. by apply (ri_mutex _ _ _ _ _ HI j i t (msg, g)).
Qed.
(** A thread owns the record that its phase says, and no other. *)
Lemma owns g e : ths !! i = Some (msg, g) -> e ∈ es -> e_owner e = Some i -> exists j lk, g = WHas (e_pos e) j lk /\ msg = e_msg e.
Proof.
  intros Hi He Ho. destruct (ri_owner _ _ _ _ _ HI e i He Ho) as (j & lk & Hj). rewrite Hi in Hj. injection Hj as -> ->. by exists j, lk.
Qed.

Lemma do_reserve w r : ths !! i = Some (msg, WLockedWR w r) -> rec_size msg <= N - (w - r) ->
  exists sh', exec_op (StoreHeader (at_ R w) 0) sh = Ok (tt, sh') /\ ring_inv sh' es (<[i:=(msg, WReserved w r)]> ths) rd c
    /\ rpos sh' = rpos sh /\ wpos sh' = wpos sh.
Proof.
  intros Hi Hfit. destruct (ri_self _ Hi) as (Hok & Hl & -> & Hr). cbn in Hok. destruct (ri_bounds _ _ _ _ _ HI) as (Hrw & Hw8 & Hb).
  pose proof (rec_size_bounds _ Hok) as [Hrec _]. pose proof (len_pos _ Hok) as [Hlen _]. pose proof (ri_size _ _ _ _ _ HI) as Hsz.
  destruct (exec_StoreHeader sh (wpos sh) 0 Hsz Hw8) as (m' & -> & Hput). exists (set_mem m' sh). split; [done|]. split; [|done].
  rewrite <- (list_fmap_id es). apply (inv_put sh m' es id ths rd c i msg _ _ _ _ HI Hi (settles_id i) Hput).
  - done.
  - rewrite zlen_le_bytes. lia.
  - intros e He _. left. by apply Hb.
  - intros e He Ho. by destruct (owns _ e Hi He Ho) as (j & lk & ? & _).
  - intros j t Hne Hj Ht. by rewrite (alone _ j t Hi) in Ht.
  - done.
  - split; [done|]. split; [done|]. split; [|apply (put_new _ _ _ _ Hput)]. unfold reserved. cbn [fst set_mem atomics]. split; [done|]. lia.
Qed.

Lemma do_begin w r : ths !! i = Some (msg, WReserved w r) -> wpos sh + rec_size msg < 2 ^ 64 ->
  exists sh', exec_op (FetchAdd f_write_pos (rec_size msg)) sh = Ok (wpos sh, sh')
    /\ ring_inv sh' (es ++ [mkEntry w msg (Some i)]) (<[i:=(msg, WHas w 0 true)]> ths) rd c /\ rpos sh' = rpos sh /\ wpos sh' = wpos sh + rec_size msg.
Proof.
  intros Hi Hmax. destruct (ri_self _ Hi) as (Hok & Hl & (-> & Hr & Hfit) & Hs). cbn [fst snd] in *. destruct (ri_bounds _ _ _ _ _ HI) as (Hrw & Hw8 & Hb).
  pose proof (rec_size_bounds _ Hok) as [Hrec _]. pose proof (len_pos _ Hok) as [Hlen _]. pose proof (ri_pos _ _ _ _ _ HI) as (H0 & _ & _ & H8).
  cbn [exec_op field_width]. rewrite (uw_small 64) by lia. eexists. split; [done|]. assert (Er : forall v, rpos (set_atomic f_write_pos v sh) = rpos sh) by done.
  assert (Ew : forall v, wpos (set_atomic f_write_pos v sh) = v) by (intros v; cbn; by rewrite fn_lookup_insert).
  split; [|by rewrite Er, Ew]. pose proof (lookup_lt_Some _ _ _ Hi) as Hlt. set (e0 := mkEntry (wpos sh) msg (Some i)).
  assert (Hget : forall j t, <[i:=(msg, WHas (wpos sh) 0 true)]> ths !! j = Some t -> (j = i /\ t = (msg, WHas (wpos sh) 0 true)) \/ (j <> i /\ ths !! j = Some t)).
  { intros j t Hj. apply list_lookup_insert_Some in Hj. naive_solver. }
  split; rewrite ?Er, ?Ew; cbn [ring_mem set_atomic].
  - apply (ri_size _ _ _ _ _ HI).
  - apply chain_app. exists (wpos sh). split; [apply (ri_chain _ _ _ _ _ HI)|done].
  - lia.
  - intros e [He| ->%list_elem_of_singleton]%elem_of_app; [by apply (ri_entries _ _ _ _ _ HI)|]. by split.
  - apply (ri_locked _ _ _ _ _ HI).
  - intros j t [[-> ->]|[Hne Hj]]%Hget.
    + split; [done|]. split; [done|]. split; [apply elem_of_app; right; by apply list_elem_of_singleton|]. split; [cbn; lia|]. intros k Hk. rewrite zlen_ztake in Hk by (cbn; unfold len in *; lia). lia.
    + pose proof (alone _ j t Hi eq_refl Hne Hj) as Ha. destruct (ri_threads _ _ _ _ _ HI j t Hj) as (Hok' & Hl' & Hph). split; [done|]. split; [done|].
      destruct (t.2) as [| | | |w' r'|p k lk|]; try done. destruct Hph as (He & Hk & Hs'). split; [apply elem_of_app; by left|done].
  - intros j k t u [[-> ->]|[Hne Hj]]%Hget [[-> ->]|[Hne' Hk]]%Hget Ht Hu; [done| | |by apply (ri_mutex _ _ _ _ _ HI j k t u)].
    + by rewrite (alone _ k u Hi) in Hu.
    + by rewrite (alone _ j t Hi) in Ht.
  - intros e k [He| ->%list_elem_of_singleton]%elem_of_app Hk.
    + destruct (ri_owner _ _ _ _ _ HI e k He Hk) as (j & lk & Hkt). destruct (decide (k = i)) as [->|Hne]; [by rewrite Hi in Hkt|]. exists j, lk. by rewrite list_lookup_insert_ne.
    + injection Hk as <-. exists 0, true. by rewrite list_lookup_insert_eq.
  - destruct (ri_reader _ _ _ _ _ HI) as [H1 H2]. assert (Hbnd : forall ms w, boundary sh es ms c w -> boundary (set_atomic f_write_pos (wpos sh + rec_size msg) sh) (es ++ [e0]) ms c w).
    { intros ms w [(n & Hn) Hlt']. split; [|done]. exists (n `min` length es)%nat. rewrite take_app_le by lia. rewrite <- take_take, (take_ge es) by lia. exact Hn. }
    split.
    + intros k Hk. destruct (H1 k Hk) as (e & He & Ho). exists e. split; [|done]. by apply lookup_app_l_Some.
    + destruct (rd.1) as [|w|w r'|msg' r']; [done|by apply Hbnd| |].
      * destruct H2 as [-> H2]. split; [done|]. by apply Hbnd.
      * destruct H2 as [-> (es2 & ->)]. split; [done|]. by exists (es2 ++ [e0]).
Qed.

Lemma do_byte p j : ths !! i = Some (msg, WHas p j false) -> 0 <= j < len msg ->
  exists sh', exec_op (StoreByte (at_ R p + 8 + j) (znth (message_bytes msg) j)) sh = Ok (tt, sh')
    /\ ring_inv sh' es (<[i:=(msg, WHas p (j + 1) false)]> ths) rd c /\ rpos sh' = rpos sh /\ wpos sh' = wpos sh.
Proof.
  intros Hi Hj. destruct (ri_self _ Hi) as (Hok & _ & He & _ & Hs). cbn [fst snd] in *. destruct (ri_bounds _ _ _ _ _ HI) as (Hrw & Hw8 & Hb).
  pose proof (rec_size_bounds _ Hok) as [Hrec _]. pose proof (len_pos _ Hok) as [Hlen _]. pose proof (ri_size _ _ _ _ _ HI) as Hsz.
  pose proof (ri_pos _ _ _ _ _ HI) as (_ & _ & Hwin & _). destruct (Hb _ He) as (Hp1 & Hp2 & _). unfold e_end in Hp2. cbn [e_pos e_msg] in Hp1, Hp2.
  rewrite <- Z.add_assoc. destruct (exec_StoreByte sh p (8 + j) (znth (message_bytes msg) j) Hsz) as (m' & -> & Hput); [unfold N in *; lia|].
  exists (set_mem m' sh). split; [done|]. split; [|done].
  assert (Hkeep : forall k l', 0 <= k -> p + k + zlen l' <= p + 8 + j -> sees (ring_mem sh) (p + k) l' -> sees m' (p + k) l').
  { intros k l' Hk Hkl. pose proof N_facts. pose proof (zlen_nonneg l').
    apply (sees_put_disjoint N ltac:(lia) _ _ (rpos sh) (p + (8 + j)) [znth (message_bytes msg) j]); [done|done|lia|change (zlen [znth (message_bytes msg) j]) with 1; lia|lia|lia|lia]. }
  rewrite <- (list_fmap_id es). apply (inv_put sh m' es id ths rd c i msg _ _ _ _ HI Hi (settles_id i) Hput).
  - lia.
  - change (zlen [znth (message_bytes msg) j]) with 1. lia.
  - intros e He' Ho. change (zlen [znth (message_bytes msg) j]) with 1. destruct (ri_disjoint _ _ _ _ _ HI e _ He' He) as [->|[H|H]]; [done| |]; unfold e_end in *; cbn [e_pos e_msg] in *; lia.
  - intros e He' Ho. destruct (owns _ e Hi He' Ho) as (j' & lk & [= Ep _ _] & Em). split; [|intros _; exists (j + 1), false; by subst].
    destruct (ri_entries _ _ _ _ _ HI e He') as (Hoke & Hhdr & _). rewrite Ho in Hhdr. split; [done|]. unfold id. rewrite Ho. split; [|done].
    rewrite <- Ep, <- (Z.add_0_r p). apply Hkeep; [done|rewrite zlen_le_bytes; lia|]. by rewrite Z.add_0_r, Ep.
  - intros j' t Hne Hj' Ht. change (zlen [znth (message_bytes msg) j]) with 1. lia.
  - done.
  - split; [done|]. split; [done|]. split; [by rewrite list_fmap_id|]. split; [cbn; lia|]. cbn [fst snd set_mem ring_mem].
    assert (Esp : ztake (j + 1) (message_bytes msg) = ztake j (message_bytes msg) ++ [znth (message_bytes msg) j]).
    { unfold len in Hj. pose proof (zread_split 0 j 1 (message_bytes msg) ltac:(lia) ltac:(lia) ltac:(lia)) as E. rewrite (zread_cons_znth _ (0 + j) 0) in E by lia.
      rewrite zread_nil_len, Z.add_0_l in E. exact E. }
    rewrite Esp. apply sees_app. rewrite zlen_ztake by (unfold len in Hj; lia). split.
    + apply Hkeep; [lia|rewrite zlen_ztake by (unfold len in Hj; lia); lia|done].
    + rewrite <- Z.add_assoc. apply (put_new _ _ _ _ Hput).
Qed.

Lemma do_commit p : ths !! i = Some (msg, WHas p (len msg) false) ->
  exists sh', exec_op (StoreHeader (at_ R p) (len msg)) sh = Ok (tt, sh')
    /\ ring_inv sh' (commit i <$> es) (<[i:=(msg, WDone)]> ths) rd c /\ rpos sh' = rpos sh /\ wpos sh' = wpos sh.
Proof.
  intros Hi. destruct (ri_self _ Hi) as (Hok & _ & He & _ & Hs). cbn [fst snd] in *. destruct (ri_bounds _ _ _ _ _ HI) as (Hrw & Hw8 & Hb).
  pose proof (rec_size_bounds _ Hok) as [Hrec _]. pose proof (len_pos _ Hok) as [Hlen _]. pose proof (ri_size _ _ _ _ _ HI) as Hsz.
  pose proof (ri_pos _ _ _ _ _ HI) as (_ & _ & Hwin & _). destruct (Hb _ He) as (Hp1 & Hp2 & Hp8). unfold e_end in Hp2. cbn [e_pos e_msg] in Hp1, Hp2, Hp8.
  destruct (exec_StoreHeader sh p (len msg) Hsz Hp8) as (m' & -> & Hput). exists (set_mem m' sh). split; [done|]. split; [|done].
  apply (inv_put sh m' es (commit i) ths rd c i msg _ _ _ _ HI Hi (settles_commit i) Hput).
  - lia.
  - rewrite zlen_le_bytes. lia.
  - intros e He' Ho. rewrite zlen_le_bytes. destruct (ri_disjoint _ _ _ _ _ HI e _ He' He) as [->|[H|H]]; [done| |]; unfold e_end in *; cbn [e_pos e_msg] in *; lia.
  - intros e He' Ho. destruct (owns _ e Hi He' Ho) as (j' & lk & [= Ep _ _] & Em). unfold commit. rewrite decide_True by done. split; [|done].
    split; cbn; [by rewrite <- Em|]. rewrite <- Ep, <- Em. split; [apply (put_new _ _ _ _ Hput)|]. intros _. pose proof N_facts.
    apply (sees_put_disjoint N ltac:(lia) (ring_mem sh) _ (rpos sh) p (le_bytes 4 (len msg))); rewrite ?zlen_le_bytes; try done; fold (len msg); try lia.
    unfold len in Hs. by rewrite ztake_zlen in Hs.
  - intros j' t Hne Hj' Ht. rewrite zlen_le_bytes. lia.
  - done.
  - by split.
Qed.
End Sender.

Definition begins (o : op) : bool := match o with FetchAdd f_write_pos _ => true | _ => false end.
(** What an access of a sender leaves. *)
Definition sender_after (sh : Shared) es ths rd c (i : nat) msg g (b : bool) (sh' : Shared) g' : Prop :=
  exists es', ring_inv sh' es' (<[i:=(msg, g')]> ths) rd c /\ rpos sh' = rpos sh /\ wpos sh' = wpos sh + (if b then rec_size msg else 0)
    /\ e_msg <$> es' = (e_msg <$> es) ++ (if b then [msg] else []) /\ in_ring g' = in_ring g || b.

Lemma after_same sh es ths rd c i msg g sh' es' g' : ring_inv sh' es' (<[i:=(msg, g')]> ths) rd c -> rpos sh' = rpos sh -> wpos sh' = wpos sh ->
  e_msg <$> es' = e_msg <$> es -> in_ring g' = in_ring g -> sender_after sh es ths rd c i msg g false sh' g'.
Proof. intros H1 H2 H3 H4 H5. exists es'. split; [done|]. split; [done|]. split; [lia|]. by rewrite app_nil_r, orb_false_r. Qed.

Lemma sender_access sh es ths rd c i msg g o (Q : resp o -> wphase -> Prop) :
  ring_inv sh es ths rd c -> ths !! i = Some (msg, g) -> writer_spec R msg o g Q -> (begins o = true -> wpos sh + rec_size msg < 2 ^ 64) ->
  exists x sh' g', exec_op o sh = Ok (x, sh') /\ Q x g' /\ sender_after sh es ths rd c i msg g (begins o) sh' g'.
Proof.
  intros HI Hi Hs Hmax. pose proof (ri_self _ _ _ _ _ _ _ HI _ Hi) as Hself. pose proof Hself as (Hok & Hl & Hph). cbn [fst snd] in *.
  (* the phase and the ring stay *)
  assert (Hquiet : forall sh', same_ring sh sh' -> atomics sh' f_locked = atomics sh f_locked -> sender_after sh es ths rd c i msg g false sh' g).
  { intros sh' Hsame Hlk. pose proof Hsame as (_ & Hr & Hw). apply (after_same _ _ _ _ _ _ _ _ _ es); [|done|done|done|done].
    apply (inv_quiet sh _ _ _ _ _ _ _ g); try done. intros p j lk ->. by exists j, lk. }
  destruct o as [f|f v|f n|f v|off|off v|off|off b|e| |e|us]; cbn [writer_spec begins] in *; try done.
  - destruct f; try (exists (atomics sh f_locked), sh, g; split; [done|]; split; [apply Hs|]; apply Hquiet; done); try (eexists _, sh, g; split; [done|]; split; [apply Hs|]; by apply Hquiet).
    + destruct g as [| |w| | | |]; try done. exists (rpos sh), sh, (WLockedWR w (rpos sh)). rewrite Hph in *. pose proof (ri_positions _ _ _ _ _ HI) as Hpos.
      split; [done|]. split; [by apply Hs|]. apply (after_same _ _ _ _ _ _ _ _ _ es); try done. apply (inv_quiet sh _ _ _ _ _ _ _ (WLockedW (wpos sh))); try done.
    + destruct g; try done. exists (wpos sh), sh, (WLockedW (wpos sh)). split; [done|]. split; [apply Hs|]. apply (after_same _ _ _ _ _ _ _ _ _ es); try done.
      by apply (inv_quiet sh _ _ _ _ _ _ _ WLocked).
  - destruct f; try done. destruct Hs as [-> Hs].
    assert (Hrel : forall g', holds g = true -> in_ring g' = in_ring g -> (forall p j lk, g = WHas p j lk -> exists j' lk', g' = WHas p j' lk') -> holds g' = false ->
      thread_ok (set_atomic f_locked 0 sh) es i (msg, g') -> sender_after sh es ths rd c i msg g false (set_atomic f_locked 0 sh) g').
    { intros g' Hg Hin Hkeep Hg' Hok'. apply (after_same _ _ _ _ _ _ _ _ _ es); try done. apply (inv_thread sh _ _ _ _ _ _ _ g); try done; [by left|].
      intros j t Hne Hj Ht. by rewrite (alone _ _ _ _ _ _ _ HI g j t Hi Hg Hne Hj) in Ht. }
    destruct g as [| |w|w r| |p j []|]; try done; cbn [exec_op]; eexists _, _, _; (split; [done|]); (split; [exact Hs|]); apply Hrel; try done.
    + intros p' j' lk' [= <- <- <-]. by exists j, false.
  - destruct f; try done.
    + destruct g; try done. destruct Hs as [-> Hs]. destruct (do_begin _ _ _ _ _ _ _ HI _ _ Hi (Hmax eq_refl)) as (sh' & E & HI' & Hr & Hw). rewrite E.
      exists (wpos sh), sh', (WHas w 0 true). split; [done|]. split; [apply Hs|]. eexists. split; [done|]. split; [done|]. split; [done|]. split; [by rewrite fmap_app|done].
    + cbn [exec_op]. eexists _, _, g. split; [done|]. split; [apply Hs|]. by apply Hquiet.
  - destruct f; try done. destruct g; try done. destruct Hs as (-> & Hs1 & Hs0). cbn [exec_op]. destruct (ri_locked _ _ _ _ _ HI) as [E|E]; rewrite E.
    + exists 0, (set_atomic f_locked 1 sh), WLocked. split; [done|]. split; [done|]. apply (after_same _ _ _ _ _ _ _ _ _ es); try done.
      apply (inv_thread sh _ _ _ _ _ _ _ WIdle); try done; [by right|]. intros j t Hne Hj Ht. pose proof (ri_threads _ _ _ _ _ HI j t Hj) as (_ & Hlj & _).
      specialize (Hlj Ht). rewrite E in Hlj. done.
    + exists 1, (set_atomic f_locked 1 sh), WIdle. split; [done|]. split; [done|]. apply Hquiet; [done|]. cbn. by rewrite E.
  - destruct g as [| | |w r| |p j []|]; try done.
    + destruct Hs as (-> & -> & Hfit & Hs). destruct (do_reserve _ _ _ _ _ _ _ HI _ _ Hi Hfit) as (sh' & E & HI' & Hr & Hw). rewrite E.
      exists tt, sh', (WReserved w r). split; [done|]. split; [done|]. by apply (after_same _ _ _ _ _ _ _ _ _ es).
    + destruct Hs as (-> & -> & -> & Hs). destruct (do_commit _ _ _ _ _ _ _ HI _ Hi) as (sh' & E & HI' & Hr & Hw). rewrite E.
      exists tt, sh', WDone. split; [done|]. split; [done|]. apply (after_same _ _ _ _ _ _ _ _ _ (commit i <$> es)); try done.
      rewrite <- list_fmap_compose. apply list_fmap_ext. intros k e _. apply commit_pos.
  - destruct g as [| | | | |p j []|]; try done. destruct Hs as (-> & Hj & -> & Hs). destruct (do_byte _ _ _ _ _ _ _ HI _ _ Hi Hj) as (sh' & E & HI' & Hr & Hw). rewrite E.
    exists tt, sh', (WHas p (j + 1) false). split; [done|]. split; [done|]. by apply (after_same _ _ _ _ _ _ _ _ _ es).
  - cbn [exec_op]. eexists _, _, g. split; [done|]. split; [exact Hs|]. by apply Hquiet.
  - exists tt, sh, g. split; [done|]. split; [exact Hs|]. by apply Hquiet.
  - exists tt, sh, g. split; [done|]. split; [exact Hs|]. by apply Hquiet.
Qed.

(** ** The accesses of the reader *)

Definition reader_after (sh : Shared) es ths ms c (sh' : Shared) (rd' : rphase * list WireMessage) : Prop :=
  exists es' l, ring_inv sh' es' ths rd' c /\ wpos sh' = wpos sh /\ rd'.2 = ms ++ l /\ e_msg <$> es = l ++ (e_msg <$> es').

Section Reader.
Context sh es ths ph ms c (HI : ring_inv sh es ths (ph, ms) c).

Lemma reader_stays sh' ph' : same_ring sh sh' -> atomics sh' f_locked = atomics sh f_locked -> reader_ok sh es (ph', ms) c -> reader_after sh es ths ms c sh' (ph', ms).
Proof.
  intros Hsame Hl Hrd. exists es, []. split; [by apply (inv_reader sh _ _ _ (ph, ms) _ c)|]. split; [apply Hsame|]. by rewrite app_nil_r.
Qed.
(** The first of the [c] records is there, and complete. *)
Lemma first_complete : (length ms < c)%nat -> exists e es2, es = e :: es2 /\ e_owner e = None.
Proof.
  intros Hlt. destruct (ri_reader _ _ _ _ _ HI) as [H1 _]. destruct (H1 0%nat) as (e & He & Ho); [cbn; lia|].
  revert He. case_eq es; [done|]. intros e' es2 _ [= ->]. by exists e, es2.
Qed.
Lemma boundary_end : boundary sh es ms c (wpos sh).
Proof.
  split.
  - exists (length es). rewrite take_ge by lia. apply (ri_chain _ _ _ _ _ HI).
  - intros Hlt. destruct (first_complete Hlt) as (e & es2 & -> & _). pose proof (ri_bounds _ _ _ _ _ HI) as (_ & _ & Hb).
    assert (He : e ∈ e :: es2) by (apply elem_of_cons; by left). destruct (Hb e He) as (H1 & H2 & _). pose proof (ri_msgs _ _ _ _ _ HI e He) as Hok.
    pose proof (rec_size_bounds _ Hok). pose proof (len_pos _ Hok). unfold e_end in H2. lia.
Qed.
Lemma boundary_positions w : boundary sh es ms c w -> positions_ok R (mkPositions (rpos sh) w).
Proof.
  intros [(n & Hn) _]. pose proof (ri_chain _ _ _ _ _ HI) as Hch. rewrite <- (take_drop n es) in Hch. apply chain_app in Hch as (q & Hq & Hd).
  assert (q = w) as ->.
  { revert Hn Hq. generalize (rpos sh) as p. induction (take n es) as [|e l IH]; intros p; cbn; [congruence|]. intros [_ H1] [_ H2]. by apply (IH (e_end e)). }
  pose proof (ri_msgs _ _ _ _ _ HI) as Hok. pose proof (ri_pos _ _ _ _ _ HI) as (H0 & Hmax & Hwin & H8).
  destruct (chain_bounds (rpos sh) (take n es) w) as (H1 & _ & H2); [intros e He; by apply Hok, (subseteq_take n es)|done|].
  destruct (chain_bounds w (drop n es) (wpos sh)) as (H3 & _ & _); [intros e He; by apply Hok, (subseteq_drop n es)|done|].
  destruct (H2 H8) as [H4 _]. unfold positions_ok. cbn. unfold N in *. lia.
Qed.
Lemma boundary_first w : boundary sh es ms c w -> rpos sh < w -> exists e es2, es = e :: es2 /\ e_pos e = rpos sh /\ e_end e <= w.
Proof.
  intros [(n & Hn) _] Hlt. pose proof (ri_msgs _ _ _ _ _ HI) as Hok. revert Hn Hok. case_eq es; [rewrite take_nil; cbn; lia|]. intros e es2 _.
  destruct n as [|n]; cbn [take chain]; [lia|]. intros [Hp Hn] Hok. exists e, es2. split; [done|]. split; [done|].
  destruct (chain_bounds (e_end e) (take n es2) w) as [Hle _]; [|done|done]. intros e' He'. apply Hok, elem_of_cons. right. by apply (subseteq_take n es2).
Qed.
Lemma exec_LoadHeader e es2 : es = e :: es2 ->
  exec_op (LoadHeader (at_ R (rpos sh))) sh = Ok (match e_owner e with None => len (e_msg e) | Some _ => 0 end, sh).
Proof.
  intros Ees. assert (He : e ∈ es) by (rewrite Ees; apply elem_of_cons; by left). pose proof (ri_pos _ _ _ _ _ HI) as (_ & _ & _ & H8). pose proof (ri_size _ _ _ _ _ HI) as Hsz.
  pose proof (ri_chain _ _ _ _ _ HI) as Hch. rewrite Ees in Hch. destruct Hch as [Hp _]. pose proof N_facts as [HN HN8].
  pose proof (header_in_mapping R HR _ H8) as Hin. unfold exec_op. rewrite Hsz. unfold N. rewrite Hin. cbn [perfetto_check obind].
  replace (phys (ring_mem sh) (at_ R (rpos sh))) with (phys (ring_mem sh) (rpos sh)) by (rewrite <- (Z.add_0_r (at_ R _)), phys_at by done; f_equal; lia).
  destruct (ri_entries _ _ _ _ _ HI e He) as (Hok & Hhdr & _). rewrite Hp in Hhdr. pose proof (len_pos _ Hok) as [Hlen _].
  rewrite (sees_header N ltac:(lia) (ring_mem sh) (rpos sh) (match e_owner e with None => len (e_msg e) | Some _ => 0 end)); try done. destruct (e_owner e); lia.
Qed.

Lemma do_pop msg : ph = RHas msg (rpos sh) -> exists sh',
  exec_op (FetchAdd f_read_pos (rec_size msg)) sh = Ok (rpos sh, sh') /\ reader_after sh es ths ms c sh' (RIdle, ms ++ [msg]).
Proof.
  intros ->. destruct (ri_reader _ _ _ _ _ HI) as [H1 [_ (es2 & Ees)]]. cbn [fst snd] in *. pose proof (ri_bounds _ _ _ _ _ HI) as (_ & _ & Hb).
  set (e0 := mkEntry (rpos sh) msg None) in *. assert (He : e0 ∈ es) by (rewrite Ees; apply elem_of_cons; by left). destruct (Hb _ He) as (_ & Hend & _). unfold e_end in Hend. cbn in Hend.
  pose proof (ri_msgs _ _ _ _ _ HI _ He) as Hok. cbn in Hok. pose proof (rec_size_bounds _ Hok) as [Hrec Hrec8]. pose proof (len_pos _ Hok) as [Hlen _].
  pose proof (ri_pos _ _ _ _ _ HI) as (H0 & Hmax & Hwin & H8). cbn [exec_op field_width]. rewrite (uw_small 64) by lia. eexists. split; [done|].
  assert (Hsub : forall e, e ∈ es2 -> e ∈ es) by (intros e; rewrite Ees; intros; apply elem_of_cons; by right).
  assert (Er : forall v, rpos (set_atomic f_read_pos v sh) = v) by (intros v; cbn; by rewrite fn_lookup_insert).
  assert (Ew : forall v, wpos (set_atomic f_read_pos v sh) = wpos sh) by done.
  exists es2, [msg]. split; [|split; [done|]; split; [done|]; by rewrite Ees].
  split; rewrite ?Er, ?Ew; cbn [ring_mem set_atomic].
  - apply (ri_size _ _ _ _ _ HI).
  - pose proof (ri_chain _ _ _ _ _ HI) as Hch. rewrite Ees in Hch. apply Hch.
  - lia.
  - intros e Hin. by apply (ri_entries _ _ _ _ _ HI), Hsub.
  - apply (ri_locked _ _ _ _ _ HI).
  - intros i t Hi. destruct (ri_threads _ _ _ _ _ HI i t Hi) as (Hok' & Hl & Hph). split; [done|]. split; [done|]. unfold reserved in *. rewrite Er, Ew.
    destruct (t.2) as [| | |w r|w r|p k lk|]; try done; [lia|destruct Hph; split; [lia|done]|]. destruct Hph as (Hin & Hk & Hs). split; [|done].
    rewrite Ees in Hin. by apply elem_of_cons in Hin as [?|?].
  - apply (ri_mutex _ _ _ _ _ HI).
  - intros e i Hin. by apply (ri_owner _ _ _ _ _ HI), Hsub.
  - split; [|done]. cbn [fst snd]. intros k Hk. destruct (H1 (S k)) as (e & Hek & Ho); [rewrite length_app in Hk; cbn in Hk; lia|]. exists e. split; [|done]. by rewrite Ees in Hek.
Qed.

End Reader.

Lemma reader_access sh es ths ph ms c o (Q : resp o -> rphase * list WireMessage -> Prop) : ring_inv sh es ths (ph, ms) c -> reader_spec R c o (ph, ms) Q ->
  exists x sh' rd', exec_op o sh = Ok (x, sh') /\ Q x rd' /\ reader_after sh es ths ms c sh' rd'.
Proof.
  intros HI Hs. pose proof (ri_reader _ _ _ _ _ HI) as Hrd. pose proof Hrd as [H1 H2]. cbn [fst snd] in H1, H2.
  destruct o as [f|f v|f n|f v|off|off v|off|off b|e| |e|us]; cbn [reader_spec] in Hs; try done.
  - destruct f; try done; destruct ph as [|w|w r|msg r]; try done.
    + exists (rpos sh), sh, (RWR w (rpos sh), ms). split; [done|]. split; [apply Hs; [by apply (boundary_positions _ _ _ _ _ _ HI)|apply H2]|]. by apply (reader_stays _ _ _ _ _ _ HI).
    + exists (wpos sh), sh, (RW (wpos sh), ms). split; [done|]. split; [apply Hs|]. apply (reader_stays _ _ _ _ _ _ HI); [done|done|]. split; [done|apply (boundary_end _ _ _ _ _ _ HI)].
  - destruct f; try done. destruct ph as [|w|w r|msg r]; try done. destruct Hs as [-> Hs]. destruct H2 as [-> _].
    destruct (do_pop _ _ _ _ _ _ HI msg eq_refl) as (sh' & E & Ha). rewrite E. exists (rpos sh), sh', (RIdle, ms ++ [msg]). split; [done|]. split; [apply Hs|done].
  - destruct ph as [|w|w r|msg r]; try done. destruct Hs as (-> & Hlt & Hs0 & Hs1). destruct H2 as [-> Hb]. destruct (boundary_first _ _ _ _ _ _ HI w Hb Hlt) as (e & es2 & Ees & Hp & Hend).
    rewrite (exec_LoadHeader _ _ _ _ _ _ HI e es2 Ees). assert (He : e ∈ es) by (rewrite Ees; apply elem_of_cons; by left). destruct (e_owner e) as [k|] eqn:Eo.
    + exists 0, sh, (RIdle, ms). split; [done|]. split; [|by apply (reader_stays _ _ _ _ _ _ HI)]. apply Hs0. destruct (Nat.le_gt_cases c (length ms)) as [|Hc]; [done|].
      destruct (first_complete _ _ _ _ _ _ HI Hc) as (e' & es' & Ees' & Eo'). rewrite Ees in Ees'. injection Ees' as -> ->. congruence.
    + exists (len (e_msg e)), sh, (RHas (e_msg e) (rpos sh), ms). split; [done|]. split; [apply Hs1; [by apply (ri_msgs _ _ _ _ _ HI)|unfold e_end in Hend; lia]|].
      apply (reader_stays _ _ _ _ _ _ HI); [done|done|]. split; [done|]. cbn [fst snd]. split; [done|]. exists es2. rewrite Ees. destruct e as [p m o]; cbn in *. by subst.
  - destruct ph as [|w|w r|msg r]; try done. destruct Hs as (j & -> & Hj & Hs). destruct H2 as [-> (es2 & Ees)]. pose proof (ri_size _ _ _ _ _ HI) as Hsz.
    assert (He : mkEntry (rpos sh) msg None ∈ es) by (rewrite Ees; apply elem_of_cons; by left). destruct (ri_entries _ _ _ _ _ HI _ He) as (Hok & _ & Hpay). cbn in Hok. specialize (Hpay eq_refl). cbn in Hpay.
    pose proof (rec_size_bounds _ Hok) as [Hrec _]. pose proof (ri_bounds _ _ _ _ _ HI) as (_ & _ & Hb). destruct (Hb _ He) as (_ & Hend & _). unfold e_end in Hend. cbn in Hend. pose proof (ri_pos _ _ _ _ _ HI) as (_ & _ & Hwin & _).
    exists (znth (message_bytes msg) j), sh, (RHas msg (rpos sh), ms). split; [|split; [done|by apply (reader_stays _ _ _ _ _ _ HI)]].
    unfold exec_op. rewrite Hsz, <- Z.add_assoc, mapped_byte by (unfold N in *; lia). cbn [perfetto_check obind]. rewrite phys_at by done.
    do 2 f_equal. rewrite Z.add_assoc. by apply Hpay.
  - exists tt, (set_stats (count e (stats sh)) sh), (ph, ms). split; [done|]. split; [exact Hs|]. by apply (reader_stays _ _ _ _ _ _ HI).
  - exists tt, sh, (ph, ms). split; [done|]. split; [exact Hs|]. by apply (reader_stays _ _ _ _ _ _ HI).
  - exists tt, sh, (ph, ms). split; [done|]. split; [exact Hs|]. by apply (reader_stays _ _ _ _ _ _ HI).
Qed.

(** No record is being filled when no thread has one. *)
Lemma all_complete sh es ths rd c e : ring_inv sh es ths rd c -> (forall i t, ths !! i = Some t -> t.2 = WIdle \/ t.2 = WDone) -> e ∈ es -> e_owner e = None.
Proof.
  intros HI Hdone He. destruct (e_owner e) as [k|] eqn:Eo; [|done]. destruct (ri_owner _ _ _ _ _ HI e k He Eo) as (j & lk & Hk).
  by destruct (Hdone _ _ Hk).
Qed.
End Invariant.

(** ** Clients and the worker *)

(** A thread of a client: its program, the message it sends and those it has sent. *)
Record Writer := mkWriter { w_prog : prog Z; w_msg : WireMessage; w_sent : list WireMessage }.
(** [w_posts] and [w_client] are those before the batch [w_reader], [w_begun] the messages
    with their threads by order of BeginWrite, [w_quiet] how many of them there were at the
    start of the batch, when no thread was sending then (0 otherwise). *)
Record World := mkWorld {
  w_sh : Shared; w_writers : list Writer; w_reader : prog BatchResult;
  w_client : ClientData; w_posts : list Post; w_begun : list (nat * WireMessage); w_quiet : nat
}.
Definition returned {A} (p : prog A) : option A := match p with Ret a => Some a | _ => None end.
Definition sent_now (t : Writer) : list WireMessage :=
  w_sent t ++ match returned (w_prog t) with Some a => if 0 <=? a then [w_msg t] else [] | None => [] end.
Definition about_to_begin {A} (p : prog A) : bool := match p with Do o _ => begins o | _ => false end.
Definition all_returned (l : list Writer) : bool := forallb (fun t => match returned (w_prog t) with Some _ => true | None => false end) l.

Section Session.
Context (R : Ring).

Inductive world_step (w : World) : World -> Prop :=
| step_send i t a msg :
    w_writers w !! i = Some t -> returned (w_prog t) = Some a -> message_ok msg ->
    world_step w (mkWorld (w_sh w) (<[i:=mkWriter (SendWireMessage R msg) msg (sent_now t)]> (w_writers w)) (w_reader w)
      (w_client w) (w_posts w) (w_begun w) (w_quiet w))
| step_write i t p' sh' :
    w_writers w !! i = Some t -> returned (w_prog t) = None -> step (w_prog t) (w_sh w) = Ok (p', sh') ->
    world_step w (mkWorld sh' (<[i:=mkWriter p' (w_msg t) (w_sent t)]> (w_writers w)) (w_reader w)
      (w_client w) (w_posts w) (w_begun w ++ (if about_to_begin (w_prog t) then [(i, w_msg t)] else [])) (w_quiet w))
| step_batch res env :
    returned (w_reader w) = Some res ->
    world_step w (mkWorld (w_sh w) (w_writers w) (ReadAndUnwindBatch R env (r_client res))
      (r_client res) (w_posts w ++ r_posts res) (w_begun w) (if all_returned (w_writers w) then length (w_begun w) else 0%nat))
| step_read p' sh' :
    returned (w_reader w) = None -> step (w_reader w) (w_sh w) = Ok (p', sh') ->
    world_step w (mkWorld sh' (w_writers w) p' (w_client w) (w_posts w) (w_begun w) (w_quiet w)).
Inductive world_reachable (w0 : World) : World -> Prop :=
| world_start : world_reachable w0 w0
| world_next w w' : world_reachable w0 w -> world_step w w' -> world_reachable w0 w'.

(** [n] threads and the worker, around a new ring. *)
Definition no_message : WireMessage := Free (mkFree 0 0 0 (zeros 4)).
Definition start_world (n : nat) (cd : ClientData) : World :=
  mkWorld (Shared_new (size_ R)) (replicate n (mkWriter (Ret (-1)) no_message [])) (Ret (mkResult kReadNone 0 cd [])) cd [] [] 0.

Definition total (l : list (nat * WireMessage)) : Z := foldr (fun x n => rec_size x.2 + n) 0 l.
Definition sent_by (i : nat) (l : list (nat * WireMessage)) : list WireMessage := snd <$> filter (fun x => x.1 = i) l.
Definition client_now (w : World) : ClientData := match returned (w_reader w) with Some res => r_client res | None => w_client w end.
Definition posts_now (w : World) : list Post := w_posts w ++ match returned (w_reader w) with Some res => r_posts res | None => [] end.

Lemma total_app l k : total (l ++ k) = total l + total k.
Proof. unfold total. induction l as [|x l IH]; cbn; [done|]. rewrite IH. lia. Qed.
Lemma total_one i msg : total [(i, msg)] = rec_size msg.
Proof. unfold total. cbn. lia. Qed.
Lemma sent_by_app i l k : sent_by i (l ++ k) = sent_by i l ++ sent_by i k.
Proof. unfold sent_by. by rewrite filter_app, fmap_app. Qed.
Lemma sent_by_one i j msg : sent_by i [(j, msg)] = if decide (j = i) then [msg] else [].
Proof. unfold sent_by. rewrite filter_cons, filter_nil. cbn. by case_decide. Qed.
Arguments sent_by : simpl never.
Arguments total : simpl never.

Record world_inv (cd0 : ClientData) (w : World) (es : list entry) (ths : list (WireMessage * wphase)) (ph : rphase) (ms done : list WireMessage) (c : nat) : Prop := {
  wi_ring : ring_inv R (w_sh w) es ths (ph, ms) c;
  wi_len : length ths = length (w_writers w);
  wi_writers : forall i t, w_writers w !! i = Some t -> exists g, ths !! i = Some (w_msg t, g) /\ wp (writer_spec R (w_msg t)) (w_prog t) g sent
    /\ sent_by i (w_begun w) = w_sent t ++ (if in_ring g then [w_msg t] else []);
  wi_reader : wp (reader_spec R c) (w_reader w) (ph, ms) (batch_done c (w_client w));
  wi_done : handle_all cd0 done = (w_client w, w_posts w);
  wi_begun : snd <$> w_begun w = done ++ ms ++ (e_msg <$> es);
  wi_total : wpos (w_sh w) = total (w_begun w);
  wi_quiet : (w_quiet w <= length done + c)%nat
}.

Context (HR : valid_ring R) (cd0 : ClientData).
Definition world_ok (w : World) : Prop := total (w_begun w) < 2 ^ 64 -> exists es ths ph ms done c, world_inv cd0 w es ths ph ms done c.

(** A thread takes one step of its program. *)
Lemma writer_steps w es ths ph ms done c i t g : world_inv cd0 w es ths ph ms done c -> w_writers w !! i = Some t -> ths !! i = Some (w_msg t, g) ->
  returned (w_prog t) = None -> wp (writer_spec R (w_msg t)) (w_prog t) g sent ->
  (about_to_begin (w_prog t) = true -> wpos (w_sh w) + rec_size (w_msg t) < 2 ^ 64) ->
  exists p' sh' g', step (w_prog t) (w_sh w) = Ok (p', sh') /\ wp (writer_spec R (w_msg t)) p' g' sent
    /\ sender_after R (w_sh w) es ths (ph, ms) c i (w_msg t) g (about_to_begin (w_prog t)) sh' g'.
Proof.
  intros HI Ht Hg Hret Hwp Hmax. pose proof (wi_ring _ _ _ _ _ _ _ _ HI) as Hring. destruct (w_prog t) as [a|o k|S B s body k] eqn:Ep; [done| |].
  - destruct (sender_access R HR _ _ _ _ _ _ _ _ o _ Hring Hg Hwp Hmax) as (x & sh' & g' & E & Hx & Ha).
    exists (k x), sh', g'. cbn [step]. rewrite E. done.
  - eexists _, (w_sh w), g. split; [done|]. split; [by apply wp_unfold; [apply writer_spec_mono|]|].
    apply (after_same R _ _ _ _ _ _ _ _ _ es); try done. by rewrite list_insert_id.
Qed.
Lemma reader_steps w es ths ph ms done c : world_inv cd0 w es ths ph ms done c -> returned (w_reader w) = None ->
  exists p' sh' rd', step (w_reader w) (w_sh w) = Ok (p', sh') /\ wp (reader_spec R c) p' rd' (batch_done c (w_client w))
    /\ reader_after R (w_sh w) es ths ms c sh' rd'.
Proof.
  intros HI Hret. pose proof (wi_ring _ _ _ _ _ _ _ _ HI) as Hring. pose proof (wi_reader _ _ _ _ _ _ _ _ HI) as Hwp. destruct (w_reader w) as [a|o k|S B s body k] eqn:Ep; [done| |].
  - destruct (reader_access R HR _ _ _ _ _ _ o _ Hring Hwp) as (x & sh' & rd' & E & Hx & Ha). exists (k x), sh', rd'. cbn [step]. rewrite E. done.
  - eexists _, (w_sh w), (ph, ms). split; [done|]. split; [by apply wp_unfold; [apply reader_spec_mono|]|].
    exists es, []. split; [done|]. split; [done|]. by rewrite app_nil_r.
Qed.
(** A thread that has returned is in no phase that matters. *)
Lemma returned_phase {A} msg (p : prog A) (a : A) g (Q : A -> wphase -> Prop) : returned p = Some a -> wp (writer_spec R msg) p g Q -> Q a g.
Proof. destruct p; try done. by intros [= ->]. Qed.
Lemma writer_of w es ths ph ms done c i x : world_inv cd0 w es ths ph ms done c -> ths !! i = Some x ->
  exists t g, w_writers w !! i = Some t /\ x = (w_msg t, g) /\ wp (writer_spec R (w_msg t)) (w_prog t) g sent.
Proof.
  intros HI Hx. destruct (lookup_lt_is_Some_2 (w_writers w) i) as [t Ht]; [rewrite <- (wi_len _ _ _ _ _ _ _ _ HI); by eapply lookup_lt_Some|].
  destruct (wi_writers _ _ _ _ _ _ _ _ HI i t Ht) as (g & Hg & Hwp & _). rewrite Hg in Hx. injection Hx as <-. by exists t, g.
Qed.

Lemma send_ok w i t a msg : world_ok w -> w_writers w !! i = Some t -> returned (w_prog t) = Some a -> message_ok msg ->
  world_ok (mkWorld (w_sh w) (<[i:=mkWriter (SendWireMessage R msg) msg (sent_now t)]> (w_writers w)) (w_reader w) (w_client w) (w_posts w) (w_begun w) (w_quiet w)).
Proof.
  intros Hw Ht Ha Hok Hmax. destruct (Hw Hmax) as (es & ths & ph & ms & done & c & HI). destruct (wi_writers _ _ _ _ _ _ _ _ HI i t Ht) as (g & Hg & Hwp & Hsent).
  pose proof (returned_phase _ _ _ _ _ Ha Hwp) as Hphase. assert (Hg' : g = WIdle \/ g = WDone) by (destruct Hphase as [[_ ->]|[_ ->]]; by auto).
  pose proof (lookup_lt_Some _ _ _ Hg) as Hlt. pose proof (lookup_lt_Some _ _ _ Ht) as Hltw.
  exists es, (<[i:=(msg, WIdle)]> ths), ph, ms, done, c. destruct HI as [H1 H2 H3 H4 H5 H6 H7 H8]. split; cbn; try done.
  - by apply (inv_restart R _ _ _ _ _ _ (w_msg t) msg g).
  - by rewrite !length_insert.
  - intros j u Hj. apply list_lookup_insert_Some in Hj as [(-> & <- & _)|(Hne & Hj)].
    + exists WIdle. rewrite list_lookup_insert_eq by done. split; [done|]. split; [by apply sender_follows|]. cbn. rewrite app_nil_r, Hsent. unfold sent_now. rewrite Ha.
      f_equal. destruct Hphase as [[-> ->]|[Hge ->]]; [done|]. cbn. by replace (0 <=? a) with true by lia.
    + rewrite list_lookup_insert_ne by done. by apply H3.
Qed.
Lemma write_ok w i t p' sh' : world_ok w -> w_writers w !! i = Some t -> returned (w_prog t) = None -> step (w_prog t) (w_sh w) = Ok (p', sh') ->
  world_ok (mkWorld sh' (<[i:=mkWriter p' (w_msg t) (w_sent t)]> (w_writers w)) (w_reader w) (w_client w) (w_posts w)
    (w_begun w ++ (if about_to_begin (w_prog t) then [(i, w_msg t)] else [])) (w_quiet w)).
Proof.
  intros Hw Ht Hret Hstep Hmax. cbn in Hmax. rewrite total_app in Hmax. assert (Hpos : 0 <= total (if about_to_begin (w_prog t) then [(i, w_msg t)] else [])).
  { destruct (about_to_begin _); [|done]. rewrite total_one. unfold rec_size, len. pose proof (zlen_nonneg (message_bytes (w_msg t))). lia. }
  destruct (Hw ltac:(lia)) as (es & ths & ph & ms & done & c & HI). destruct (wi_writers _ _ _ _ _ _ _ _ HI i t Ht) as (g & Hg & Hwp & Hsent).
  destruct (writer_steps w es ths ph ms done c i t g HI Ht Hg Hret Hwp) as (p1 & sh1 & g' & E & Hwp' & es' & Hring & Hr & Hw' & Hmsg & Hin).
  { intros Hb. rewrite Hb, total_one in Hmax. by rewrite (wi_total _ _ _ _ _ _ _ _ HI). }
  rewrite Hstep in E. injection E as <- <-. pose proof (lookup_lt_Some _ _ _ Hg) as Hlt. pose proof (lookup_lt_Some _ _ _ Ht) as Hltw.
  exists es', (<[i:=(w_msg t, g')]> ths), ph, ms, done, c. destruct HI as [H1 H2 H3 H4 H5 H6 H7 H8]. split; cbn; try done.
  - by rewrite !length_insert.
  - intros j u Hj. rewrite sent_by_app. apply list_lookup_insert_Some in Hj as [(-> & <- & _)|(Hne & Hj)].
    + exists g'. rewrite list_lookup_insert_eq by done. split; [done|]. split; [done|]. cbn. rewrite Hsent, Hin, <- app_assoc. f_equal.
      destruct (about_to_begin (w_prog t)) eqn:Eb; cbn; [|by rewrite orb_false_r, app_nil_r]. rewrite sent_by_one, orb_true_r.
      destruct (in_ring g) eqn:Eg; [|by rewrite decide_True by done].
      exfalso. destruct (w_prog t) as [a|[]|]; try done; cbn in Eb, Hwp. destruct f; try done. by destruct g.
    + rewrite list_lookup_insert_ne by done. destruct (H3 j u Hj) as (g1 & Hg1 & Hwp1 & Hs1). exists g1. split; [done|]. split; [done|]. rewrite Hs1.
      destruct (about_to_begin _); [|by rewrite app_nil_r]. rewrite sent_by_one, decide_False by done. by rewrite app_nil_r.
  - rewrite fmap_app, H6, Hmsg, !app_assoc. f_equal. by destruct (about_to_begin _).
  - rewrite total_app, Hw', H7. destruct (about_to_begin _); [by rewrite total_one|done].
Qed.
Lemma batch_ok w res env : world_ok w -> returned (w_reader w) = Some res ->
  world_ok (mkWorld (w_sh w) (w_writers w) (ReadAndUnwindBatch R env (r_client res)) (r_client res) (w_posts w ++ r_posts res) (w_begun w)
    (if all_returned (w_writers w) then length (w_begun w) else 0%nat)).
Proof.
  intros Hw Hret Hmax. destruct (Hw Hmax) as (es & ths & ph & ms & done & c & HI).
  assert (Hres : batch_done c (w_client w) res (ph, ms)) by (pose proof (wi_reader _ _ _ _ _ _ _ _ HI) as H; destruct (w_reader w); try done; injection Hret as ->; exact H).
  destruct Hres as [Hh _]. cbn [snd] in Hh. set (c' := if all_returned (w_writers w) then length es else 0%nat).
  exists es, ths, RIdle, [], (done ++ ms), c'. pose proof HI as [H1 H2 H3 H4 H5 H6 H7 H8]. split; cbn; try done.
  - apply (inv_reader R (w_sh w) _ _ _ (ph, ms) _ c); [done|done|done|]. split; [|done]. cbn [fst snd length Nat.add]. subst c'.
    destruct (all_returned (w_writers w)) eqn:Eall; [|lia]. intros k Hk. destruct (lookup_lt_is_Some_2 es k Hk) as [e He]. exists e. split; [done|].
    apply (all_complete R (w_sh w) es ths (ph, ms) c); [done| |by eapply list_elem_of_lookup_2]. intros i x Hx.
    destruct (writer_of _ _ _ _ _ _ _ _ _ HI Hx) as (t & g & Ht & -> & Hwp). unfold all_returned in Eall. rewrite forallb_forall in Eall.
    specialize (Eall t). rewrite <- list_elem_of_In in Eall. specialize (Eall (list_elem_of_lookup_2 _ _ _ Ht)). cbn beta in Eall. destruct (returned (w_prog t)) as [a|] eqn:Ea; [|done].
    destruct (returned_phase _ _ _ _ _ Ea Hwp) as [[_ ->]|[_ ->]]; by auto.
  - by apply reader_follows.
  - rewrite handle_all_app, H5. cbn. by rewrite Hh.
  - by rewrite H6, <- app_assoc.
  - subst c'. destruct (all_returned _); [|lia]. rewrite <- (length_fmap snd), H6, !length_app, length_fmap. lia.
Qed.
Lemma read_ok w p' sh' : world_ok w -> returned (w_reader w) = None -> step (w_reader w) (w_sh w) = Ok (p', sh') ->
  world_ok (mkWorld sh' (w_writers w) p' (w_client w) (w_posts w) (w_begun w) (w_quiet w)).
Proof.
  intros Hw Hret Hstep Hmax. destruct (Hw Hmax) as (es & ths & ph & ms & done & c & HI).
  destruct (reader_steps _ _ _ _ _ _ _ HI Hret) as (p1 & sh1 & [ph' ms'] & E & Hwp & es' & l & Hring & Hw' & Hms & Hes). rewrite Hstep in E. injection E as <- <-. cbn in Hms. subst ms'.
  exists es', ths, ph', (ms ++ l), done, c. destruct HI as [H1 H2 H3 H4 H5 H6 H7 H8]. split; cbn; try done.
  - rewrite H6, Hes. by rewrite <- !app_assoc.
  - by rewrite Hw'.
Qed.
Lemma ring_start_ok n : world_ok (start_world n cd0).
Proof.
  intros _. exists [], (replicate n (no_message, WIdle)), RIdle, [], [], 0%nat. pose proof (valid_ring_size R HR) as [Hs _].
  assert (Hget : forall i x, replicate n (no_message, WIdle) !! i = Some x -> x = (no_message, WIdle)) by (by intros i x [-> _]%lookup_replicate_1).
  split; cbn; try done; [|by rewrite !length_replicate|].
  - split; cbn; try done.
    + apply zlen_zeros. lia.
    + lia.
    + by intros e ?%elem_of_nil.
    + by left.
    + intros i x ->%Hget. split; [by vm_compute|done].
    + by intros i j t u ->%Hget ->%Hget.
    + by intros e i ?%elem_of_nil.
    + split; [|done]. cbn. lia.
  - intros i t [-> Hi]%lookup_replicate_1. exists WIdle. split; [by apply lookup_replicate_2|]. split; [by left|done].
Qed.
Lemma world_reachable_ok n w : world_reachable (start_world n cd0) w -> world_ok w.
Proof.
  induction 1 as [|w w' _ IH Hstep]; [apply ring_start_ok|]. destruct Hstep.
  - by eapply send_ok.
  - by eapply write_ok.
  - by eapply batch_ok.
  - by eapply read_ok.
Qed.

Lemma begins_cannot_crash {A} (p : prog A) sh : about_to_begin p = true -> step p sh <> Crash.
Proof. destruct p as [a|[f|f v|f n|f v| | | | | | | |] k|]; cbn; try done. Qed.

(** C17. Threads that send messages and the worker that reads them in batches may interleave
    their single accesses to the shared memory in any way; the ring is of any size that
    Initialize accepts. What the worker has handled - the client data and the records it has
    posted - is what it makes of the first messages by order of BeginWrite, whole and once
    each. A thread's SendWireMessage succeeds exactly for the messages that are in the ring.
    No access is outside the mapping or finds a check failing. And a batch that stops for
    want of data has handled everything that was in the ring when it began, if no thread was
    sending at that moment. The positions are 64-bit: the ring has carried less than 2^64
    bytes. *)
Theorem heapprofd_handles_in_order n w :
  world_reachable (start_world n cd0) w -> total (w_begun w) < 2 ^ 64 ->
  (exists handled queued, snd <$> w_begun w = handled ++ queued /\ handle_all cd0 handled = (client_now w, posts_now w) /\
    (forall res, returned (w_reader w) = Some res -> r_status res <> kHasMore -> (w_quiet w <= length handled)%nat)) /\
  (forall i t a, w_writers w !! i = Some t -> returned (w_prog t) = Some a -> sent_now t = sent_by i (w_begun w)) /\
  (forall i t, w_writers w !! i = Some t -> step (w_prog t) (w_sh w) <> Crash) /\ step (w_reader w) (w_sh w) <> Crash.
Proof.
  intros Hreach Hmax. destruct (world_reachable_ok n w Hreach Hmax) as (es & ths & ph & ms & done & c & HI). split; [|split; [|split]].
  - pose proof HI as [H1 H2 H3 H4 H5 H6 H7 H8]. unfold client_now, posts_now. destruct (w_reader w) as [res|o k|S B s body k]; cbn [returned].
    2,3: exists done, (ms ++ (e_msg <$> es)); by rewrite app_nil_r.
    destruct H4 as [Hh Hc]. cbn [snd] in *. exists (done ++ ms), (e_msg <$> es). split; [by rewrite H6, app_assoc|]. split; [rewrite handle_all_app, H5; cbn; by rewrite Hh|].
    intros res' [= <-] Hst. specialize (Hc Hst). rewrite length_app. lia.
  - intros i t a Ht Ha. destruct (wi_writers _ _ _ _ _ _ _ _ HI i t Ht) as (g & _ & Hwp & ->). unfold sent_now. rewrite Ha. f_equal.
    destruct (returned_phase _ _ _ _ _ Ha Hwp) as [[-> ->]|[Hge ->]]; [done|]. cbn. by replace (0 <=? a) with true by lia.
  - intros i t Ht. destruct (wi_writers _ _ _ _ _ _ _ _ HI i t Ht) as (g & Hg & Hwp & _). destruct (about_to_begin (w_prog t)) eqn:Eb; [by apply begins_cannot_crash|].
    destruct (returned (w_prog t)) as [a|] eqn:Ea; [by destruct (w_prog t)|]. destruct (writer_steps _ _ _ _ _ _ _ i t g HI Ht Hg Ea Hwp) as (p' & sh' & g' & -> & _); [|done]. by rewrite Eb.
  - destruct (returned (w_reader w)) as [a|] eqn:Ea; [by destruct (w_reader w)|]. by destruct (reader_steps _ _ _ _ _ _ _ HI Ea) as (p' & sh' & g' & -> & _).
Qed.

(** ** A schedule *)

Inductive choice := Send (i : nat) (k : Z) | Write (i : nat) | Batch | Read.
Definition test_message (k : Z) : WireMessage := Free (mkFree (k mod 1000) 7 0 (zeros 4)).
Definition follow (w : World) (ch : choice) : option World :=
  match ch with
  | Send i k =>
      match w_writers w !! i with
      | Some t => match returned (w_prog t) with
                  | Some _ => Some (mkWorld (w_sh w) (<[i:=mkWriter (SendWireMessage R (test_message k)) (test_message k) (sent_now t)]> (w_writers w)) (w_reader w)
                      (w_client w) (w_posts w) (w_begun w) (w_quiet w))
                  | None => None
                  end
      | None => None
      end
  | Write i =>
      match w_writers w !! i with
      | Some t => match returned (w_prog t), step (w_prog t) (w_sh w) with
                  | None, Ok (p', sh') => Some (mkWorld sh' (<[i:=mkWriter p' (w_msg t) (w_sent t)]> (w_writers w)) (w_reader w)
                      (w_client w) (w_posts w) (w_begun w ++ (if about_to_begin (w_prog t) then [(i, w_msg t)] else [])) (w_quiet w))
                  | Some _, _ => Some w
                  | _, _ => None
                  end
      | None => None
      end
  | Batch =>
      match returned (w_reader w) with
      | Some res => Some (mkWorld (w_sh w) (w_writers w) (ReadAndUnwindBatch R (fun _ => (mkView 0 0 0 0 None 0, false)) (r_client res))
          (r_client res) (w_posts w ++ r_posts res) (w_begun w) (if all_returned (w_writers w) then length (w_begun w) else 0%nat))
      | None => None
      end
  | Read =>
      match returned (w_reader w), step (w_reader w) (w_sh w) with
      | None, Ok (p', sh') => Some (mkWorld sh' (w_writers w) p' (w_client w) (w_posts w) (w_begun w) (w_quiet w))
      | Some _, _ => Some w
      | _, _ => None
      end
  end.
Fixpoint follow_all (w : World) (l : list choice) : option World :=
  match l with [] => Some w | ch :: l => match follow w ch with Some w => follow_all w l | None => None end end.
Lemma test_message_ok k : message_ok (test_message k).
Proof.
  pose proof (Z.mod_pos_bound k 1000 ltac:(lia)) as Hk. split; [done|]. split; [|done]. cbn. unfold word_ok. change (2 ^ 64) with 18446744073709551616.
  change (2 ^ 32) with 4294967296. lia.
Qed.
Lemma follow_sound w ch w' : follow w ch = Some w' -> w' = w \/ world_step w w'.
Proof.
  destruct ch as [i k|i| |]; cbn.
  - destruct (w_writers w !! i) as [t|] eqn:Ht; [|done]. destruct (returned (w_prog t)) as [a|] eqn:Ea; [|done]. intros [= <-]. right.
    eapply step_send; [done|done|apply test_message_ok].
  - destruct (w_writers w !! i) as [t|] eqn:Ht; [|done]. destruct (returned (w_prog t)) as [a|] eqn:Ea; [intros [= <-]; by left|].
    destruct (step (w_prog t) (w_sh w)) as [[p' sh']|] eqn:Es; [|done]. intros [= <-]. right. by eapply step_write.
  - destruct (returned (w_reader w)) as [res|] eqn:Er; [|done]. intros [= <-]. right. by apply step_batch.
  - destruct (returned (w_reader w)) as [res|] eqn:Er; [intros [= <-]; by left|]. destruct (step (w_reader w) (w_sh w)) as [[p' sh']|] eqn:Es; [|done].
    intros [= <-]. right. by apply step_read.
Qed.
Lemma follow_all_sound w0 w l w' : world_reachable w0 w -> follow_all w l = Some w' -> world_reachable w0 w'.
Proof.
  revert w. induction l as [|ch l IH]; intros w Hw; cbn; [by intros [= <-]|]. destruct (follow w ch) as [w1|] eqn:E; [|done]. apply IH.
  destruct (follow_sound _ _ _ E) as [->|Hs]; [done|]. by apply world_next with w.
Qed.
Lemma schedule_reachable w0 l : world_reachable w0 (default w0 (follow_all w0 l)).
Proof. destruct (follow_all w0 l) as [w|] eqn:E; [|constructor]. eapply follow_all_sound; [constructor|done]. Qed.
End Session.

(** Two threads send at the same time, a batch begins while they do, and another when they
    are done. *)
Definition test_schedule : list choice :=
  [Send 0 1; Send 1 2] ++ concat (replicate 30 [Write 0; Write 1]) ++ [Batch] ++ concat (replicate 30 [Write 1; Read; Write 0])
  ++ replicate 20 Read ++ [Send 0 3] ++ replicate 60 (Write 0) ++ [Batch] ++ replicate 400 Read.
Definition test_world : World :=
  default (start_world (set_size 4096) 2 (mkClient false 0 [])) (follow_all (set_size 4096) (start_world (set_size 4096) 2 (mkClient false 0 [])) test_schedule).
Lemma test_world_reachable : world_reachable (set_size 4096) (start_world (set_size 4096) 2 (mkClient false 0 [])) test_world.
Proof. apply schedule_reachable. Qed.
Lemma heapprofd_handles_in_order_witness :
  let cd := mkClient false 0 [] in
  world_reachable (set_size 4096) (start_world (set_size 4096) 2 cd) test_world /\ total (w_begun test_world) < 2 ^ 64 /\
  w_quiet test_world = 3%nat /\ f_sequence_number <$> free_records (client_now test_world) = [1; 2; 3] /\
  (exists handled queued, snd <$> w_begun test_world = handled ++ queued /\ handle_all cd handled = (client_now test_world, posts_now test_world)).
Proof.
  intros cd. assert (HR : valid_ring (set_size 4096)) by (exists 12; split; [lia|reflexivity]). pose proof test_world_reachable as Hreach.
  assert (Hmax : total (w_begun test_world) < 2 ^ 64) by (vm_compute; reflexivity).
  split; [exact Hreach|]. split; [exact Hmax|]. split; [vm_compute; reflexivity|]. split; [vm_compute; reflexivity|].
  destruct (heapprofd_handles_in_order (set_size 4096) HR cd 2 test_world Hreach Hmax) as [(handled & queued & H1 & H2 & _) _].
  exists handled, queued. split; [exact H1|exact H2].
Defined.
