(* ===== verification/MapSums.v ===== *)
(** * Sums over finite maps

    [msum f m] adds [f k a] over the entries of a map; what inserting, changing and deleting
    an entry does to it.  The counters of HeapTracker are such sums. *)

From stdpp Require Import fin_maps.
From S2P Require Import Prelude.

Section Sums.
Context {K A : Type} `{Countable K}.
Implicit Types (f g : K -> A -> Z) (m : gmap K A).

Definition msum f m : Z := map_fold (fun k a acc => f k a + acc) 0 m.

Lemma msum_empty f : msum f ∅ = 0.
Proof. apply map_fold_empty. Qed.
Lemma msum_insert_new f m k a : m !! k = None -> msum f (<[k := a]> m) = f k a + msum f m.
Proof. intros Hk. unfold msum. rewrite map_fold_insert_L; [done| |done]. intros. lia. Qed.
Lemma msum_take f m k a : m !! k = Some a -> msum f m = f k a + msum f (delete k m).
Proof. intros Hk. unfold msum. rewrite (map_fold_delete_L _ _ k a m); [done| |done]. intros. lia. Qed.
Lemma msum_delete f m k a : m !! k = Some a -> msum f (delete k m) = msum f m - f k a.
Proof. intros Hk. rewrite (msum_take f m k a Hk). lia. Qed.
Lemma msum_insert f m k a b : m !! k = Some a -> msum f (<[k := b]> m) = msum f m - f k a + f k b.
Proof.
  intros Hk. rewrite <- insert_delete_eq, msum_insert_new by apply lookup_delete_eq. rewrite (msum_delete f m k a Hk). lia.
Qed.
Lemma msum_ext f g m : (forall k a, m !! k = Some a -> f k a = g k a) -> msum f m = msum g m.
Proof.
  induction m as [|k a m Hk IH] using map_ind; intros Hfg; [by rewrite !msum_empty|].
  rewrite !msum_insert_new by done. rewrite Hfg by apply lookup_insert_eq. f_equal. apply IH. intros k' a' Hk'.
  apply Hfg. rewrite lookup_insert_ne; [done|]. intros ->. congruence.
Qed.
Lemma msum_zero f m : (forall k a, m !! k = Some a -> f k a = 0) -> msum f m = 0.
Proof.
  intros H0. rewrite (msum_ext _ (fun _ _ => 0)) by done. induction m as [|k a m Hk IH] using map_ind; [done|].
  rewrite msum_insert_new by done. rewrite IH; [done|]. intros k' a' Hk'. apply (H0 k' a'). rewrite lookup_insert_ne; [done|]. intros ->. congruence.
Qed.
Lemma msum_le f g m : (forall k a, m !! k = Some a -> f k a <= g k a) -> msum f m <= msum g m.
Proof.
  induction m as [|k a m Hk IH] using map_ind; intros Hfg; [by rewrite !msum_empty|].
  rewrite !msum_insert_new by done. pose proof (Hfg k a (lookup_insert_eq m k a)).
  assert (msum f m <= msum g m); [|lia]. apply IH. intros k' a' Hk'.
  apply Hfg. rewrite lookup_insert_ne; [done|]. intros ->. congruence.
Qed.
Lemma msum_nonneg f m : (forall k a, m !! k = Some a -> 0 <= f k a) -> 0 <= msum f m.
Proof. intros Hf. rewrite <- (msum_zero (fun _ _ => 0) m) by done. by apply msum_le. Qed.
Lemma msum_entry_le f m k a : (forall k a, m !! k = Some a -> 0 <= f k a) -> m !! k = Some a -> f k a <= msum f m.
Proof.
  intros Hf Hk. rewrite (msum_take f m k a Hk). assert (0 <= msum f (delete k m)); [|lia].
  apply msum_nonneg. intros k' a' [_ Hk']%lookup_delete_Some. by apply (Hf k' a').
Qed.
Lemma msum_one m : msum (fun _ _ => 1) m = Z.of_nat (size m).
Proof.
  induction m as [|k a m Hk IH] using map_ind; [done|]. rewrite msum_insert_new, map_size_insert_None by done. lia.
Qed.
Lemma msum_add f g m : msum (fun k a => f k a + g k a) m = msum f m + msum g m.
Proof.
  induction m as [|k a m Hk IH] using map_ind; [done|]. rewrite !msum_insert_new by done. lia.
Qed.
End Sums.

(** A sum of which each summand is changed by a function of the entry. *)
Lemma msum_fmap {K A B} `{Countable K} (f : K -> B -> Z) (h : A -> B) (m : gmap K A) : msum f (h <$> m) = msum (fun k a => f k (h a)) m.
Proof.
  induction m as [|k a m Hk IH] using map_ind; [by rewrite fmap_empty|].
  rewrite fmap_insert, !msum_insert_new; [by rewrite IH|done|]. by rewrite lookup_fmap, Hk.
Qed.
(** Adding up by classes. *)
Lemma msum_swap {K A L B} `{Countable K} `{Countable L} (f : K -> A -> L -> B -> Z) (m : gmap K A) (n : gmap L B) :
  msum (fun k a => msum (f k a) n) m = msum (fun l b => msum (fun k a => f k a l b) m) n.
Proof.
  induction m as [|k a m Hk IH] using map_ind.
  { rewrite msum_empty. symmetry. apply msum_zero. intros. apply msum_empty. }
  rewrite msum_insert_new, IH by done. rewrite <- msum_add. apply msum_ext. intros l b _. by rewrite msum_insert_new.
Qed.
