(* ===== verification/CallstackTrie.v ===== *)
(** * The callstacks of the heap profiler
    (src/profiling/common/callstack_trie.cc, callstack_trie.h, src/base/string_splitter.cc)

    GlobalCallstackTrie keeps each callstack once, as a path from the outermost frame to the
    innermost, with a reference count in each node.  A Node* is the list of the frames from
    the node to the root, the node's own first: its parent is the tail.  An Interned<T> is
    the value interned, as two are equal exactly when their values are. *)

From S2P Require Import Prelude.

(** ** Frames *)

(** What libunwindstack gives for a frame; strings are lists of characters. *)
Record MapInfo := mkMapInfo { mi_offset : Z; mi_elf_start_offset : Z; mi_start : Z; mi_end : Z; mi_load_bias : Z; mi_full_name : list Z }.
Record FrameData := mkFrameData { pc : Z; fd_rel_pc : Z; fd_function_name : list Z; map_info : option MapInfo }.

Record Mapping := mkMapping {
  build_id : list Z; exact_offset : Z; start_offset : Z; map_start : Z; map_end : Z; load_bias : Z; path_components : list (list Z)
}.
Record Frame := mkFrame { mapping : Mapping; function_name : list Z; rel_pc : Z }.

#[export] Instance Mapping_eq_dec : EqDecision Mapping.
Proof. solve_decision. Defined.
#[export] Instance Frame_eq_dec : EqDecision Frame.
Proof. solve_decision. Defined.
#[export] Instance Mapping_countable : Countable Mapping.
Proof.
  refine (inj_countable' (fun m => (build_id m, (exact_offset m, start_offset m, map_start m), (map_end m, load_bias m, path_components m)))
    (fun '(b, (e, s, ms), (me, l, p)) => mkMapping b e s ms me l p) _). by intros [].
Defined.
#[export] Instance Frame_countable : Countable Frame.
Proof. refine (inj_countable' (fun f => (mapping f, function_name f, rel_pc f)) (fun '(m, f, r) => mkFrame m f r) _). by intros []. Defined.

(** The tokens of a StringSplitter, which skips empty ones and ends at a zero. *)
Fixpoint Tokens (delimiter : Z) (str cur : list Z) : list (list Z) :=
  let emit l := match cur with [] => l | _ => cur :: l end in
  match str with
  | [] => emit []
  | c :: str => if c =? delimiter then emit (Tokens delimiter str []) else if c =? 0 then emit [] else Tokens delimiter str (cur ++ [c])
  end.
Definition slash : Z := 47.

Definition InternCodeLocation (loc : FrameData) (build_id : list Z) : Frame :=
  let map :=
    match map_info loc with
    | None => mkMapping build_id 0 0 0 0 0 []
    | Some mi => mkMapping build_id (mi_offset mi) (mi_elf_start_offset mi) (mi_start mi) (mi_end mi) (mi_load_bias mi) (Tokens slash (mi_full_name mi) [])
    end in
  mkFrame map (fd_function_name loc) (fd_rel_pc loc).

(** ** The trie *)

Abbreviation NodePtr := (list Frame).
Record Node := mkNode { id_ : Z; ref_count_ : Z }.
Record Trie := mkTrie { nodes : gmap NodePtr Node; next_callstack_id_ : Z }.
Definition root_ : NodePtr := [].
Definition GlobalCallstackTrie_new : Trie := mkTrie {[ root_ := mkNode 1 0 ]} 1.
Definition set_nodes (m : gmap NodePtr Node) (t : Trie) : Trie := mkTrie m (next_callstack_id_ t).

Definition GetChild (self : NodePtr) (loc : Frame) (t : Trie) : option NodePtr :=
  match nodes t !! (loc :: self) with Some _ => Some (loc :: self) | None => None end.
Definition AddChild (self : NodePtr) (loc : Frame) (callstack_id : Z) (t : Trie) : NodePtr * Trie :=
  (loc :: self, set_nodes (<[loc :: self := mkNode callstack_id 0]> (nodes t)) t).
(** Erasing a node from its parent's children destroys what is below it. *)
Definition RemoveChild (node : NodePtr) (t : Trie) : Trie := set_nodes (filter (fun kn => ~ node `suffix_of` kn.1) (nodes t)) t.

Definition GetOrCreateChild (self : NodePtr) (loc : Frame) (t : Trie) : NodePtr * Trie :=
  match GetChild self loc t with
  | Some child => (child, t)
  | None =>
      let next := u64 (next_callstack_id_ t + 1) in
      AddChild self loc next (mkTrie (nodes t) next)
  end.
(** The frames come innermost first and are entered outermost first. *)
Definition CreateCallsite (callstack : list Frame) (t : Trie) : NodePtr * Trie :=
  fold_left (fun '(node, t) loc => GetOrCreateChild node loc t) (rev callstack) (root_, t).
Definition CreateCallsite_data (callstack : list FrameData) (build_ids : list (list Z)) (t : Trie) : outcome (NodePtr * Trie) :=
  check! zlen callstack =? zlen build_ids in
  Ok (fold_left (fun '(node, t) '(loc, build_id) => GetOrCreateChild node (InternCodeLocation loc build_id) t) (rev (zip callstack build_ids)) (root_, t)).

(** The loops go from a node through its parents; a node that is gone is a Crash. *)
Fixpoint IncrementNode (node : NodePtr) (t : Trie) : outcome Trie :=
  match nodes t !! node with
  | None => Crash
  | Some n =>
      let t := set_nodes (<[node := mkNode (id_ n) (u64 (ref_count_ n + 1))]> (nodes t)) t in
      match node with [] => Ok t | _ :: parent => IncrementNode parent t end
  end.
Fixpoint DecrementNode_loop (node : NodePtr) (delete_prev : option NodePtr) (t : Trie) : outcome Trie :=
  let t := match delete_prev with Some prev => RemoveChild prev t | None => t end in
  match nodes t !! node with
  | None => Crash
  | Some n =>
      let ref_count := u64 (ref_count_ n - 1) in
      let t := set_nodes (<[node := mkNode (id_ n) ref_count]> (nodes t)) t in
      match node with [] => Ok t | _ :: parent => DecrementNode_loop parent (if ref_count =? 0 then Some node else None) t end
  end.
Definition DecrementNode (node : NodePtr) (t : Trie) : outcome Trie := DecrementNode_loop node None t.

Fixpoint BuildInverseCallstack (node : NodePtr) : list Frame :=
  match node with [] => [] | location :: parent => location :: BuildInverseCallstack parent end.
Definition ClearTrie (t : Trie) : Trie := set_nodes (filter (fun kn => kn.1 = root_) (nodes t)) t.
Definition node_id (node : NodePtr) (t : Trie) : outcome Z := match nodes t !! node with Some n => Ok (id_ n) | None => Crash end.

(** ** The trie counts references

    [cnt p] is the number of references from outside to the node [p] and the ones below it. *)

Record counting (cnt : NodePtr -> Z) : Prop := {
  cnt_range : forall p, 0 <= cnt p < 2 ^ 64;
  cnt_parent : forall f p, cnt (f :: p) <= cnt p
}.
Record trie_ok (t : Trie) (cnt : NodePtr -> Z) : Prop := {
  to_root : is_Some (nodes t !! []);
  to_counts : forall p n, nodes t !! p = Some n -> ref_count_ n = cnt p;
  to_live : forall p, 0 < cnt p -> is_Some (nodes t !! p);
  to_ids : forall p q n m, nodes t !! p = Some n -> nodes t !! q = Some m -> id_ n = id_ m -> p = q;
  to_next : forall p n, nodes t !! p = Some n -> 1 <= id_ n <= next_callstack_id_ t
}.
(** No node is kept without a reference, but those of [path]. *)
Definition tight (t : Trie) (cnt : NodePtr -> Z) (path : NodePtr) : Prop :=
  forall p, is_Some (nodes t !! p) -> 0 < cnt p \/ p `suffix_of` path.
Definition adds (p q : NodePtr) : Z := if decide (q `suffix_of` p) then 1 else 0.

Lemma suffix_tail (f : Frame) p q : (f :: p) `suffix_of` q -> p `suffix_of` q.
Proof. intros [k ->]. exists (k ++ [f]). by rewrite <- app_assoc. Qed.
Lemma suffix_cons_iff (f : Frame) p q : q `suffix_of` f :: p <-> q = f :: p \/ q `suffix_of` p.
Proof.
  split; [|intros [->|H]; [done|by apply suffix_cons_r]]. intros [[|g k] E]; cbn in E; [by left|]. injection E as -> ->. right. by exists k.
Qed.
Lemma cnt_suffix cnt p q : counting cnt -> q `suffix_of` p -> cnt p <= cnt q.
Proof.
  intros Hc [k ->]. induction k as [|f k IH]; [done|]. pose proof (cnt_parent cnt Hc f (k ++ q)). cbn. lia.
Qed.

Lemma GetOrCreateChild_ok self loc t cnt :
  counting cnt -> trie_ok t cnt -> next_callstack_id_ t + 1 < 2 ^ 64 ->
  exists t', GetOrCreateChild self loc t = (loc :: self, t') /\ trie_ok t' cnt /\
    (forall p, is_Some (nodes t' !! p) <-> is_Some (nodes t !! p) \/ p = loc :: self) /\
    (forall p n, nodes t !! p = Some n -> nodes t' !! p = Some n) /\
    next_callstack_id_ t <= next_callstack_id_ t' <= next_callstack_id_ t + 1.
Proof.
  intros Hc [H1 H2 H3 H4 H5] Hn. unfold GetOrCreateChild, GetChild. destruct (nodes t !! (loc :: self)) as [n|] eqn:E.
  { exists t. split; [done|]. split; [by constructor|]. split; [|split; [done|lia]]. intros p. split; [by left|]. intros [H| ->]; [done|by rewrite E]. }
  assert (0 <= next_callstack_id_ t). { destruct H1 as [n Hr]. pose proof (H5 _ _ Hr). lia. }
  eexists. split; [reflexivity|]. cbn. rewrite u64_small by lia.
  assert (Hold : forall p n, nodes t !! p = Some n -> p <> loc :: self) by (intros p n Hp ->; congruence).
  split; [constructor; cbn|split; [|split; [|lia]]].
  - destruct H1 as [n Hr]. rewrite lookup_insert_ne; [by exists n|]. by eapply not_eq_sym, Hold.
  - intros p n [[<- <-]|[_ Hp]]%lookup_insert_Some; [|by eapply H2]. cbn. pose proof (cnt_range cnt Hc (loc :: self)).
    destruct (Z.eq_dec (cnt (loc :: self)) 0); [done|]. destruct (H3 (loc :: self)) as [n' Hn']; [lia|]. by rewrite E in Hn'.
  - intros p [n Hp]%H3. exists n. rewrite lookup_insert_ne; [done|]. by eapply not_eq_sym, Hold.
  - intros p q n m [[<- <-]|[Hp1 Hp]]%lookup_insert_Some [[<- <-]|[Hq1 Hq]]%lookup_insert_Some; cbn; intros Hid; [done| | |by eapply H4].
    + apply H5 in Hq. lia.
    + apply H5 in Hp. lia.
  - intros p n [[<- <-]|[_ Hp]]%lookup_insert_Some; cbn; [lia|]. apply H5 in Hp. lia.
  - intros p. rewrite lookup_insert_is_Some. destruct (decide (loc :: self = p)); naive_solver.
  - intros p n Hp. rewrite lookup_insert_ne; [done|]. by eapply not_eq_sym, Hold.
Qed.

Lemma CreateCallsite_ok callstack t cnt :
  counting cnt -> trie_ok t cnt -> next_callstack_id_ t + zlen callstack < 2 ^ 64 ->
  exists t', CreateCallsite callstack t = (callstack, t') /\ trie_ok t' cnt /\
    (forall p, is_Some (nodes t' !! p) <-> is_Some (nodes t !! p) \/ p `suffix_of` callstack) /\
    (forall p n, nodes t !! p = Some n -> nodes t' !! p = Some n) /\
    next_callstack_id_ t <= next_callstack_id_ t' <= next_callstack_id_ t + zlen callstack.
Proof.
  intros Hc Ht. unfold CreateCallsite. induction callstack as [|f l IH].
  - intros _. exists t. split; [done|]. split; [done|]. split; [|split; [done|change (zlen []) with 0; lia]]. intros p. split; [by left|].
    intros [H| ->%suffix_nil_inv]; [done|apply Ht].
  - rewrite zlen_cons. intros Hn. destruct IH as (t1 & E & Ht1 & Hd & Hk & Hb); [lia|]. cbn [rev]. rewrite fold_left_app, E. cbn [fold_left].
    destruct (GetOrCreateChild_ok l f t1 cnt Hc Ht1) as (t2 & E2 & Ht2 & Hd2 & Hk2 & Hb2); [lia|]. exists t2. split; [done|]. split; [done|].
    split; [|split; [by auto|lia]]. intros p. rewrite Hd2, Hd, suffix_cons_iff. naive_solver.
Qed.

(** *** References come and go *)

Lemma adds_range p q : 0 <= adds p q <= 1.
Proof. unfold adds. case_decide; lia. Qed.
Lemma adds_parent p f q : adds p (f :: q) <= adds p q.
Proof. unfold adds. repeat case_decide; try lia. by apply suffix_tail in H. Qed.

Lemma IncrementNode_spec node t :
  (forall q, q `suffix_of` node -> is_Some (nodes t !! q)) ->
  exists t', IncrementNode node t = Ok t' /\ next_callstack_id_ t' = next_callstack_id_ t /\
    forall q, nodes t' !! q = (fun n => mkNode (id_ n) (if decide (q `suffix_of` node) then u64 (ref_count_ n + 1) else ref_count_ n)) <$> nodes t !! q.
Proof.
  revert t. induction node as [|f node IH]; intros t Hs; cbn [IncrementNode].
  - destruct (Hs []) as [n E]; [done|]. rewrite E. eexists. split; [done|]. split; [done|]. intros q. cbn.
    destruct (decide (q = [])) as [->|Hq]; [by rewrite lookup_insert_eq, E|]. rewrite lookup_insert_ne by done.
    destruct (nodes t !! q) as [[]|]; [|done]. cbn. rewrite decide_False; [done|]. by intros ?%suffix_nil_inv.
  - destruct (Hs (f :: node)) as [n E]; [done|]. rewrite E. cbn zeta. edestruct IH as (t' & -> & Hn & Ht').
    2:{ exists t'. split; [done|]. split; [done|]. intros q. rewrite Ht'. cbn. destruct (decide (q = f :: node)) as [->|Hq].
        - rewrite lookup_insert_eq, E. cbn. rewrite decide_False, decide_True; [done|done|].
          intros Hl%suffix_length. cbn in Hl. lia.
        - rewrite lookup_insert_ne by done. destruct (nodes t !! q) as [m|]; [|done]. cbn. do 2 f_equal. apply decide_ext. rewrite suffix_cons_iff. naive_solver. }
    intros q Hq. cbn. rewrite lookup_insert_is_Some. destruct (decide (f :: node = q)); [by left|]. right. split; [done|]. apply Hs. by apply suffix_cons_r.
Qed.

Lemma counting_adds cnt p : counting cnt -> cnt [] + 1 < 2 ^ 64 -> counting (fun q => cnt q + adds p q).
Proof.
  intros Hc Hm. split.
  - intros q. pose proof (adds_range p q). pose proof (cnt_range cnt Hc q). pose proof (cnt_suffix cnt q [] Hc (suffix_nil q)). lia.
  - intros f q. pose proof (adds_parent p f q). pose proof (cnt_parent cnt Hc f q). lia.
Qed.

Lemma IncrementNode_ok node t cnt :
  counting cnt -> cnt [] + 1 < 2 ^ 64 -> trie_ok t cnt -> (forall q, q `suffix_of` node -> is_Some (nodes t !! q)) -> tight t cnt node ->
  exists t', IncrementNode node t = Ok t' /\ trie_ok t' (fun q => cnt q + adds node q) /\ tight t' (fun q => cnt q + adds node q) [] /\
    (forall p, id_ <$> nodes t' !! p = id_ <$> nodes t !! p) /\ next_callstack_id_ t' = next_callstack_id_ t.
Proof.
  intros Hc Hm [H1 H2 H3 H4 H5] Hs Ht. destruct (IncrementNode_spec node t Hs) as (t' & E & Hn & Hl). exists t'. split; [done|].
  assert (Hid : forall p n, nodes t' !! p = Some n -> exists n0, nodes t !! p = Some n0 /\ id_ n = id_ n0 /\
            ref_count_ n = if decide (p `suffix_of` node) then u64 (ref_count_ n0 + 1) else ref_count_ n0).
  { intros p n. rewrite Hl. intros (n0 & E0 & ->)%fmap_Some. by exists n0. }
  assert (Hd : forall p, is_Some (nodes t' !! p) <-> is_Some (nodes t !! p)) by (intros p; by rewrite Hl, fmap_is_Some).
  split; [constructor|split; [|split; [|done]]].
  - by apply Hd.
  - intros p n (n0 & E0 & _ & ->)%Hid. rewrite (H2 _ _ E0). unfold adds. pose proof (cnt_range cnt Hc p). pose proof (cnt_suffix cnt p [] Hc (suffix_nil p)).
    case_decide; [|lia]. by rewrite u64_small by lia.
  - intros p Hp. apply Hd. unfold adds in Hp. case_decide; [by apply Hs|apply H3; lia].
  - intros p q n m (n0 & E0 & -> & _)%Hid (m0 & Em & -> & _)%Hid. by apply H4.
  - intros p n (n0 & E0 & -> & _)%Hid. rewrite Hn. by eapply H5.
  - intros p Hp%Hd. left. pose proof (cnt_range cnt Hc p). unfold adds. destruct (Ht p Hp) as [Hpos|Hpath]; [case_decide; lia|]. rewrite decide_True by done. lia.
  - intros p. rewrite Hl. by destruct (nodes t !! p).
Qed.

(** The state in the middle of DecrementNode: the nodes below [node] on the path have their
    new counts, [node] and its parents still their old ones. *)
Section Decrement.
Context (t0 : Trie) (cnt cnt' : NodePtr -> Z) (target : NodePtr).
Context (Hcnt' : counting cnt') (Hsub : forall q, cnt q = cnt' q + adds target q).

Record halfway (node : NodePtr) (delete_prev : option NodePtr) (t : Trie) : Prop := {
  hw_path : node `suffix_of` target;
  hw_above : forall q, q `suffix_of` node -> exists n, nodes t !! q = Some n /\ ref_count_ n = cnt q;
  hw_below : forall q n, nodes t !! q = Some n -> ~ q `suffix_of` node -> delete_prev = Some q \/ ref_count_ n = cnt' q /\ 0 < cnt' q;
  hw_live : forall q, 0 < cnt' q -> is_Some (nodes t !! q);
  hw_prev : forall c, delete_prev = Some c -> exists f, c = f :: node /\ cnt' c = 0;
  hw_ids : forall q n, nodes t !! q = Some n -> exists n0, nodes t0 !! q = Some n0 /\ id_ n = id_ n0;
  hw_next : next_callstack_id_ t = next_callstack_id_ t0
}.

Lemma RemoveChild_lookup c t q n : nodes (RemoveChild c t) !! q = Some n <-> nodes t !! q = Some n /\ ~ c `suffix_of` q.
Proof. unfold RemoveChild. cbn. rewrite map_lookup_filter_Some. done. Qed.
(** Erasing a child that nobody references takes nothing else along. *)
Lemma halfway_remove node delete_prev t :
  halfway node delete_prev t -> halfway node None (match delete_prev with Some prev => RemoveChild prev t | None => t end).
Proof.
  intros H. destruct delete_prev as [c|]; [|done]. destruct H as [H1 H2 H3 H4 H5 H6 H7]. destruct (H5 c) as (f & -> & Hc); [done|].
  assert (Hsafe : forall q, q `suffix_of` node -> ~ (f :: node) `suffix_of` q).
  { intros q ?%suffix_length Hq%suffix_length. cbn in Hq. lia. }
  split; [done| | | |done| |done].
  - intros q Hq. destruct (H2 q Hq) as (n & E & Hn). exists n. split; [|done]. apply RemoveChild_lookup. auto.
  - intros q n [E Hne]%RemoveChild_lookup Hq. right. destruct (H3 q n E Hq) as [[= <-]|Hr]; [by destruct Hne|done].
  - intros q Hq. destruct (H4 q Hq) as [n E]. exists n. apply RemoveChild_lookup. split; [done|]. intros Hs.
    pose proof (cnt_suffix cnt' q (f :: node) Hcnt' Hs). lia.
  - intros q n [E _]%RemoveChild_lookup. by apply H6.
Qed.

Lemma halfway_decrement node t : halfway node None t ->
  exists n, nodes t !! node = Some n /\ u64 (ref_count_ n - 1) = cnt' node /\
  forall f parent, node = f :: parent ->
    halfway parent (if cnt' node =? 0 then Some node else None) (set_nodes (<[node := mkNode (id_ n) (cnt' node)]> (nodes t)) t).
Proof.
  intros [H1 H2 H3 H4 H5 H6 H7]. destruct (H2 node) as (n & E & Hn); [done|]. exists n. split; [done|].
  rewrite Hn, Hsub. unfold adds. rewrite decide_True by done. pose proof (cnt_range cnt' Hcnt' node). split; [rewrite u64_small; lia|].
  intros f parent ->. assert (Hself : forall q, q `suffix_of` parent -> q <> f :: parent).
  { intros q Hq%suffix_length ->. cbn in Hq. lia. }
  split; [by apply suffix_tail in H1| | | | | |done].
  - intros q Hq. destruct (H2 q) as (m & Em & Hm); [by apply suffix_cons_r|]. exists m. split; [|done]. cbn. rewrite lookup_insert_ne; [done|]. by apply not_eq_sym, Hself.
  - intros q m; cbn. intros [[<- <-]|[Hne Em]]%lookup_insert_Some Hq; cbn.
    + destruct (Z.eqb_spec (cnt' (f :: parent)) 0); [by left|]. right. lia.
    + right. destruct (H3 q m Em) as [[=]|]; [|done]. rewrite suffix_cons_iff. naive_solver.
  - intros q Hq. cbn. rewrite lookup_insert_is_Some. destruct (decide (f :: parent = q)); [by left|right; auto].
  - intros c Hc. exists f. destruct (Z.eqb_spec (cnt' (f :: parent)) 0) as [Hz|]; [|done]. by injection Hc as <-.
  - intros q m; cbn. intros [[<- <-]|[_ Em]]%lookup_insert_Some; cbn; [|by apply H6]. by apply H6.
Qed.

Lemma DecrementNode_loop_ok node delete_prev t : halfway node delete_prev t ->
  exists t', DecrementNode_loop node delete_prev t = Ok t' /\ (forall q n, nodes t' !! q = Some n -> ref_count_ n = cnt' q /\ (q = [] \/ 0 < cnt' q)) /\
    is_Some (nodes t' !! []) /\ (forall q, 0 < cnt' q -> is_Some (nodes t' !! q)) /\
    (forall q n, nodes t' !! q = Some n -> exists n0, nodes t0 !! q = Some n0 /\ id_ n = id_ n0) /\ next_callstack_id_ t' = next_callstack_id_ t0.
Proof.
  revert delete_prev t. induction node as [|f parent IH]; intros dp t H%halfway_remove; cbn [DecrementNode_loop]; set (t1 := match dp with Some prev => RemoveChild prev t | None => t end) in *;
    destruct (halfway_decrement _ _ H) as (n & E & Er & Hnext); rewrite E; cbn zeta; rewrite Er.
  - eexists. split; [done|]. cbn. destruct H as [H1 H2 H3 H4 H5 H6 H7]. split; [|split; [by rewrite lookup_insert_eq|split; [|split; [|done]]]].
    + intros q m [[<- <-]|[Hne Em]]%lookup_insert_Some; cbn; [split; [done|by left]|]. destruct (H3 q m Em) as [[=]|]; [by intros ->%suffix_nil_inv|]. naive_solver.
    + intros q Hq. rewrite lookup_insert_is_Some. destruct (decide ([] = q)); [by left|right; auto].
    + intros q m [[<- <-]|[_ Em]]%lookup_insert_Some; [cbn; by apply H6|by apply H6].
  - apply IH. by apply (Hnext f).
Qed.
End Decrement.

Lemma DecrementNode_ok node t cnt cnt' :
  counting cnt' -> (forall q, cnt q = cnt' q + adds node q) -> trie_ok t cnt -> tight t cnt [] ->
  exists t', DecrementNode node t = Ok t' /\ trie_ok t' cnt' /\ tight t' cnt' [] /\
    (forall q n, nodes t' !! q = Some n -> exists n0, nodes t !! q = Some n0 /\ id_ n = id_ n0) /\ next_callstack_id_ t' = next_callstack_id_ t.
Proof.
  intros Hc' Hsub [H1 H2 H3 H4 H5] Ht. destruct (DecrementNode_loop_ok t cnt cnt' node Hc' Hsub node None t) as (t' & E & Hcnt & Hroot & Hlive & Hid & Hn).
  - split; [done| | | |done| |done].
    + intros q Hq. destruct (H3 q) as [n E]; [|exists n; split; [done|by apply H2]]. rewrite Hsub. unfold adds. rewrite decide_True by done. pose proof (cnt_range cnt' Hc' q). lia.
    + intros q n E Hq. right. assert (Eq : cnt q = cnt' q) by (rewrite Hsub; unfold adds; rewrite decide_False by done; lia). rewrite <- Eq. split; [by apply H2|].
      destruct (Ht q) as [|Hr]; [by exists n|done|]. destruct Hq. apply suffix_nil_inv in Hr as ->. apply suffix_nil.
    + intros q Hq. apply H3. rewrite Hsub. pose proof (adds_range node q). lia.
    + intros q n E. by exists n.
  - exists t'. split; [exact E|]. split; [constructor|split; [|done]].
    + done.
    + intros p n Hp. by apply Hcnt.
    + done.
    + intros p q n m Hp Hq. destruct (Hid _ _ Hp) as (n0 & E1 & ->), (Hid _ _ Hq) as (m0 & E2 & ->). by apply H4.
    + intros p n Hp. destruct (Hid _ _ Hp) as (n0 & E1 & ->). rewrite Hn. by eapply H5.
    + intros p [n Hp]. destruct (Hcnt _ _ Hp) as [_ [->|]]; [by right|by left].
Qed.
