(* ===== verification/HeapTracker.v ===== *)
(** * The bookkeeping of the heap profiler
    (src/profiling/memory/bookkeeping.cc, bookkeeping.h)

    HeapTracker turns the records of one heap of one process, which arrive in any order, into
    sums per callstack: operations are committed in the order of their sequence numbers, and
    those that arrive early wait in pending_operations_.  All trackers share a trie. *)

From S2P Require Import Prelude CallstackTrie.

(** ** Data *)

(** CallstackAllocations; its node is its key.  The words are the union [value]:
    retain_max.{max, cur, max_count, cur_count} or
    totals.{allocated, freed, allocation_count, free_count}. *)
Record CallstackAllocations := mkCsa { allocs : Z; value0 : Z; value1 : Z; value2 : Z; value3 : Z }.
Abbreviation max := value0.
Abbreviation cur := value1.
Abbreviation max_count := value2.
Abbreviation cur_count := value3.
Abbreviation allocated := value0.
Abbreviation freed := value1.
Abbreviation allocation_count := value2.
Abbreviation free_count := value3.
Definition CallstackAllocations_new : CallstackAllocations := mkCsa 0 0 0 0 0.

Record Allocation := mkAllocation { sample_size : Z; alloc_size : Z; sequence_number : Z; callstack_allocations : NodePtr }.
Record PendingOperation := mkPending { allocation_address : Z; timestamp : Z }.

(** The maps of std::map are finite maps, and pending_operations_, of which the code takes
    the first, a list sorted by sequence number. *)
Record HeapTracker := mkTracker {
  callstack_allocations_ : gmap NodePtr CallstackAllocations;
  dead_callstack_allocations_ : list (NodePtr * Z);
  allocations_ : gmap Z Allocation;
  pending_operations_ : list (Z * PendingOperation);
  committed_timestamp_ : Z;
  committed_sequence_number_ : Z;
  dump_at_max_mode_ : bool;
  max_sequence_number_ : Z;
  current_unfreed_ : Z;
  max_unfreed_ : Z;
  max_timestamp_ : Z;
  frame_cache_ : gmap Z Frame
}.
Definition HeapTracker_new (dump_at_max_mode : bool) : HeapTracker := mkTracker ∅ [] ∅ [] 0 0 dump_at_max_mode 0 0 0 0 ∅.

Definition set_csas m t := let 'mkTracker _ d a p ct cs dm ms cu mu mt fc := t in mkTracker m d a p ct cs dm ms cu mu mt fc.
Definition set_dead d t := let 'mkTracker c _ a p ct cs dm ms cu mu mt fc := t in mkTracker c d a p ct cs dm ms cu mu mt fc.
Definition set_allocations a t := let 'mkTracker c d _ p ct cs dm ms cu mu mt fc := t in mkTracker c d a p ct cs dm ms cu mu mt fc.
Definition set_pending p t := let 'mkTracker c d a _ ct cs dm ms cu mu mt fc := t in mkTracker c d a p ct cs dm ms cu mu mt fc.
Definition set_committed ct cs t := let 'mkTracker c d a p _ _ dm ms cu mu mt fc := t in mkTracker c d a p ct cs dm ms cu mu mt fc.
Definition set_current cu t := let 'mkTracker c d a p ct cs dm ms _ mu mt fc := t in mkTracker c d a p ct cs dm ms cu mu mt fc.
Definition set_max ms mu mt t := let 'mkTracker c d a p ct cs dm _ cu _ _ fc := t in mkTracker c d a p ct cs dm ms cu mu mt fc.
Definition set_cache fc t := let 'mkTracker c d a p ct cs dm ms cu mu mt _ := t in mkTracker c d a p ct cs dm ms cu mu mt fc.

(** Through a CallstackAllocations*; one that is gone is a Crash. *)
Definition update_csa (node : NodePtr) (f : CallstackAllocations -> CallstackAllocations) (t : HeapTracker) : outcome HeapTracker :=
  match callstack_allocations_ t !! node with
  | Some c => Ok (set_csas (<[node := f c]> (callstack_allocations_ t)) t)
  | None => Crash
  end.

(** ** Sums *)

Definition raise_max (c : CallstackAllocations) : CallstackAllocations := mkCsa (allocs c) (cur c) (cur c) (cur_count c) (cur_count c).
Definition AddToCallstackAllocations (ts : Z) (alloc : Allocation) (t : HeapTracker) : outcome HeapTracker :=
  let node := callstack_allocations alloc in
  if dump_at_max_mode_ t then
    let t := set_current (u64 (current_unfreed_ t + sample_size alloc)) t in
    let! t := update_csa node (fun c => mkCsa (allocs c) (max c) (u64 (cur c + sample_size alloc)) (max_count c) (u64 (cur_count c + 1))) t in
    if current_unfreed_ t <=? max_unfreed_ t then Ok t
    else
      let! t :=
        (if max_sequence_number_ t =? u64 (sequence_number alloc - 1)
         then update_csa node raise_max t
         else Ok (set_csas (raise_max <$> callstack_allocations_ t) t)) in
      Ok (set_max (sequence_number alloc) (current_unfreed_ t) ts t)
  else
    update_csa node (fun c => mkCsa (allocs c) (u64 (allocated c + sample_size alloc)) (freed c) (u64 (allocation_count c + 1)) (free_count c)) t.
Definition SubtractFromCallstackAllocations (alloc : Allocation) (t : HeapTracker) : outcome HeapTracker :=
  let node := callstack_allocations alloc in
  if dump_at_max_mode_ t then
    let t := set_current (u64 (current_unfreed_ t - sample_size alloc)) t in
    update_csa node (fun c => mkCsa (allocs c) (max c) (u64 (cur c - sample_size alloc)) (max_count c) (u64 (cur_count c - 1))) t
  else
    update_csa node (fun c => mkCsa (allocs c) (allocated c) (u64 (freed c + sample_size alloc)) (allocation_count c) (u64 (free_count c + 1))) t.

(** Allocation::SetCallstackAllocations, from [old] to [new]; the destructor sets nullptr. *)
Definition SetCallstackAllocations (old new : option NodePtr) (t : HeapTracker) : outcome HeapTracker :=
  let step delta node t := update_csa node (fun c => mkCsa (u64 (allocs c + delta)) (value0 c) (value1 c) (value2 c) (value3 c)) t in
  let! t := match old with Some node => step (-1) node t | None => Ok t end in
  match new with Some node => step 1 node t | None => Ok t end.

(** ** Operations *)

(** std::map::emplace: an entry that is there stays. *)
Fixpoint emplace_pending (seq : Z) (operation : PendingOperation) (l : list (Z * PendingOperation)) : list (Z * PendingOperation) :=
  match l with
  | [] => [(seq, operation)]
  | (s, o) :: r => if seq <? s then (seq, operation) :: l else if seq =? s then l else (s, o) :: emplace_pending seq operation r
  end.

Definition CommitOperation (seq : Z) (operation : PendingOperation) (t : HeapTracker) : outcome HeapTracker :=
  let t := set_committed (if timestamp operation =? 0 then committed_timestamp_ t else timestamp operation) (u64 (committed_sequence_number_ t + 1)) t in
  let address := allocation_address operation in
  match allocations_ t !! address with
  | None => Ok t
  | Some value =>
      if sequence_number value =? seq then AddToCallstackAllocations (timestamp operation) value t
      else if sequence_number value <? seq then
        let! t := SubtractFromCallstackAllocations value t in
        let! t := SetCallstackAllocations (Some (callstack_allocations value)) None t in
        Ok (set_allocations (delete address (allocations_ t)) t)
      else Ok t
  end.

(** The loop over pending_operations_, whose first element is taken out after it is committed. *)
Fixpoint commit_pending (l : list (Z * PendingOperation)) (t : HeapTracker) : outcome HeapTracker :=
  match l with
  | [] => Ok (set_pending [] t)
  | (seq, operation) :: r =>
      if seq =? u64 (committed_sequence_number_ t + 1)
      then let! t := CommitOperation seq operation t in commit_pending r t
      else Ok (set_pending l t)
  end.
Definition RecordOperation (seq : Z) (operation : PendingOperation) (t : HeapTracker) : outcome HeapTracker :=
  if negb (seq =? u64 (committed_sequence_number_ t + 1))
  then Ok (set_pending (emplace_pending seq operation (pending_operations_ t)) t)
  else let! t := CommitOperation seq operation t in commit_pending (pending_operations_ t) t.

(** The frames of a callstack, through frame_cache_. *)
Fixpoint intern_frames (l : list (FrameData * list Z)) (cache : gmap Z Frame) : list Frame * gmap Z Frame :=
  match l with
  | [] => ([], cache)
  | (loc, build_id) :: l =>
      match cache !! pc loc with
      | Some frame => let '(frames, cache) := intern_frames l cache in (frame :: frames, cache)
      | None =>
          let frame := InternCodeLocation loc build_id in
          let '(frames, cache) := intern_frames l (<[pc loc := frame]> cache) in (frame :: frames, cache)
      end
  end.

Definition MaybeCreateCallstackAllocations (node : NodePtr) (callsites : Trie) (t : HeapTracker) : outcome (Trie * HeapTracker) :=
  match callstack_allocations_ t !! node with
  | Some _ => Ok (callsites, t)
  | None =>
      let! callsites := IncrementNode node callsites in
      Ok (callsites, set_csas (<[node := CallstackAllocations_new]> (callstack_allocations_ t)) t)
  end.

(** RecordMalloc, from where it has the frames to RecordOperation. *)
Definition store_allocation (frames : list Frame) (address sample_size alloc_size seq ts : Z) (callsites : Trie) (t : HeapTracker) : outcome (Trie * HeapTracker) :=
  match allocations_ t !! address with
  | Some alloc =>
      if sequence_number alloc <? seq then
        let! t := (if committed_sequence_number_ t <? sequence_number alloc then AddToCallstackAllocations ts alloc t else Ok t) in
        let! t := SubtractFromCallstackAllocations alloc t in
        let '(node, callsites) := CreateCallsite frames callsites in
        let! (callsites, t) := MaybeCreateCallstackAllocations node callsites t in
        let! t := SetCallstackAllocations (Some (callstack_allocations alloc)) (Some node) t in
        Ok (callsites, set_allocations (<[address := mkAllocation sample_size alloc_size seq node]> (allocations_ t)) t)
      else Ok (callsites, t)
  | None =>
      let '(node, callsites) := CreateCallsite frames callsites in
      let! (callsites, t) := MaybeCreateCallstackAllocations node callsites t in
      let! t := SetCallstackAllocations None (Some node) t in
      Ok (callsites, set_allocations (<[address := mkAllocation sample_size alloc_size seq node]> (allocations_ t)) t)
  end.
Definition RecordMalloc (callstack : list FrameData) (build_ids : list (list Z)) (address sample_size alloc_size seq ts : Z)
    (callsites : Trie) (t : HeapTracker) : outcome (Trie * HeapTracker) :=
  check! zlen callstack =? zlen build_ids in
  let '(frames, cache) := intern_frames (zip callstack build_ids) (frame_cache_ t) in
  let! (callsites, t) := store_allocation frames address sample_size alloc_size seq ts callsites (set_cache cache t) in
  let! t := RecordOperation seq (mkPending address ts) t in
  Ok (callsites, t).

Definition RecordFree (address seq ts : Z) (t : HeapTracker) : outcome HeapTracker := RecordOperation seq (mkPending address ts) t.

(** ** Dumps *)

Definition ClearFrameCache (t : HeapTracker) : HeapTracker := set_cache ∅ t.
(** The first loop of GetCallstackAllocations. *)
Fixpoint drop_dead (l : list (NodePtr * Z)) (callsites : Trie) (t : HeapTracker) : outcome (Trie * HeapTracker) :=
  match l with
  | [] => Ok (callsites, t)
  | (node, allocated) :: l =>
      match callstack_allocations_ t !! node with
      | None => Crash
      | Some alloc =>
          if (allocs alloc =? 0) && (dump_at_max_mode_ t || (allocation_count alloc =? allocated)) then
            let t := ClearFrameCache t in
            let! callsites := DecrementNode node callsites in
            drop_dead l callsites (set_csas (delete node (callstack_allocations_ t)) t)
          else drop_dead l callsites t
      end
  end.
(** What is passed to the callback is returned: each CallstackAllocations with its node. *)
Definition GetCallstackAllocations (callsites : Trie) (t : HeapTracker) : outcome (list (NodePtr * CallstackAllocations) * Trie * HeapTracker) :=
  let! (callsites, t) := drop_dead (dead_callstack_allocations_ t) callsites t in
  let reported := map_to_list (callstack_allocations_ t) in
  let dead := omap (fun '(node, alloc) => if allocs alloc =? 0 then Some (node, if dump_at_max_mode_ t then 0 else allocation_count alloc) else None) reported in
  Ok (reported, callsites, set_dead dead t).
(** What is passed to the callback: address, sample size, size, id of the node. *)
Fixpoint allocations_loop (l : list (Z * Allocation)) (callsites : Trie) : outcome (list (Z * Z * Z * Z)) :=
  match l with
  | [] => Ok []
  | (address, alloc) :: l =>
      let! id := node_id (callstack_allocations alloc) callsites in
      let! l := allocations_loop l callsites in
      Ok ((address, sample_size alloc, alloc_size alloc, id) :: l)
  end.
Definition GetAllocations (callsites : Trie) (t : HeapTracker) : outcome (list (Z * Z * Z * Z)) := allocations_loop (map_to_list (allocations_ t)) callsites.

Definition dump_timestamp (t : HeapTracker) : Z := if dump_at_max_mode_ t then max_timestamp_ t else committed_timestamp_ t.
(** The CallstackAllocations of a callstack, for the functions for testing. *)
Definition ForTesting (stack : list FrameData) (build_ids : list (list Z)) (read : CallstackAllocations -> Z) (callsites : Trie) (t : HeapTracker) : outcome (Z * Trie) :=
  let! (node, callsites) := CreateCallsite_data stack build_ids callsites in
  let! callsites := IncrementNode node callsites in
  let! callsites := DecrementNode node callsites in
  Ok (match callstack_allocations_ t !! node with None => 0 | Some alloc => read alloc end, callsites).
Definition GetSizeForTesting stack build_ids := ForTesting stack build_ids (fun alloc => u64 (allocated alloc - freed alloc)).
Definition GetMaxForTesting stack build_ids := ForTesting stack build_ids max.
Definition GetMaxCountForTesting stack build_ids := ForTesting stack build_ids max_count.

(** The destructor: each CallstackAllocations gives up its node. *)
Fixpoint release (l : list NodePtr) (callsites : Trie) : outcome Trie :=
  match l with
  | [] => Ok callsites
  | node :: l => let! callsites := DecrementNode node callsites in release l callsites
  end.
Definition HeapTracker_destroy (callsites : Trie) (t : HeapTracker) : outcome Trie := release (map_to_list (callstack_allocations_ t)).*1 callsites.
