(* ===== verification/HeapTrackerSums.v ===== *)
(** * The sums of the heap profiler

    What AddToCallstackAllocations and SubtractFromCallstackAllocations do to the sums of a
    callstack in both modes, and the sums over allocations_ that they are meant to be. *)

From S2P Require Import Prelude MapSums CallstackTrie HeapTracker.

(** ** Arithmetic modulo 2^64 *)

Lemma u64_add_l x y : u64 (u64 x + y) = u64 (x + y).
Proof. unfold u64, uw. apply Zplus_mod_idemp_l. Qed.
Lemma u64_add_r x y : u64 (x + u64 y) = u64 (x + y).
Proof. unfold u64, uw. apply Zplus_mod_idemp_r. Qed.
Lemma u64_sub_l x y : u64 (u64 x - y) = u64 (x - y).
Proof. apply (u64_add_l x (- y)). Qed.
Lemma u64_sub_r x y : u64 (x - u64 y) = u64 (x - y).
Proof. unfold u64, uw. apply Zminus_mod_idemp_r. Qed.
Lemma u64_u64 x : u64 (u64 x) = u64 x.
Proof. apply uw_uw. lia. Qed.
Create Rewrite HintDb u64s.
#[export] Hint Rewrite u64_add_l u64_add_r u64_sub_l u64_sub_r u64_u64 : u64s.
(** Equations between sums that wrap around. *)
Ltac wrap := autorewrite with u64s; f_equal; lia.

(** ** What the sums of a callstack are worth *)

Definition net (mode : bool) (c : CallstackAllocations) : Z := u64 (if mode then cur c else allocated c - freed c).
Definition net_count (mode : bool) (c : CallstackAllocations) : Z := u64 (if mode then cur_count c else allocation_count c - free_count c).
(** [v] added up over the allocations committed up to [n]. *)
Definition live (v : Allocation -> Z) (n : Z) (m : gmap Z Allocation) : Z := msum (fun _ a => if sequence_number a <=? n then v a else 0) m.
Definition at_node (k : NodePtr) (v : Allocation -> Z) (a : Allocation) : Z := if decide (k = callstack_allocations a) then v a else 0.
Definition one (_ : Allocation) : Z := 1.

Lemma live_insert_new v n m A a : m !! A = None -> n < sequence_number a -> live v n (<[A := a]> m) = live v n m.
Proof. intros H1 H2. unfold live. rewrite msum_insert_new by done. replace (_ <=? _) with false by lia. done. Qed.
Lemma live_replace v n m A a b : m !! A = Some a -> n < sequence_number b ->
  live v n (<[A := b]> m) = live v n m - (if sequence_number a <=? n then v a else 0).
Proof. intros H1 H2. unfold live. rewrite (msum_insert _ _ _ a) by done. replace (sequence_number b <=? n) with false by lia. lia. Qed.
Lemma live_delete v n m A a : m !! A = Some a -> sequence_number a <= n -> live v n (delete A m) = live v n m - v a.
Proof. intros H1 H2. unfold live. rewrite (msum_delete _ _ _ a) by done. replace (_ <=? _) with true by lia. done. Qed.
(** Committing [n + 1]. *)
Lemma live_next v n m : (forall A a, m !! A = Some a -> sequence_number a <> n + 1) -> live v (n + 1) m = live v n m.
Proof. intros H. apply msum_ext. intros A a E. apply H in E. replace (_ <=? n + 1) with (sequence_number a <=? n) by lia. done. Qed.
Lemma live_commit v n m A a : m !! A = Some a -> sequence_number a = n + 1 ->
  (forall B b, m !! B = Some b -> sequence_number b = n + 1 -> B = A) -> live v (n + 1) m = live v n m + v a.
Proof.
  intros E Ha Hu. unfold live. rewrite !(msum_take _ m A a) by done. replace (sequence_number a <=? n + 1) with true by lia. replace (sequence_number a <=? n) with false by lia.
  enough (msum (fun (_ : Z) b => if sequence_number b <=? n + 1 then v b else 0) (delete A m) = msum (fun (_ : Z) b => if sequence_number b <=? n then v b else 0) (delete A m)) by lia.
  apply msum_ext. intros B b [Hne Eb]%lookup_delete_Some. replace (_ <=? n + 1) with (sequence_number b <=? n); [done|].
  assert (sequence_number b <> n + 1) by (intros Hb; by apply Hne; symmetry; eapply Hu). lia.
Qed.

(** ** What an operation does to the sums *)

Definition rest (t : HeapTracker) := (allocations_ t, pending_operations_ t, committed_sequence_number_ t, dump_at_max_mode_ t, dead_callstack_allocations_ t, frame_cache_ t).
(** The sums of [k0] change by [d] bytes and [dc] allocations. *)
Record effect (k0 : NodePtr) (d dc : Z) (t t' : HeapTracker) : Prop := {
  ef_rest : rest t' = rest t;
  ef_dom : forall k, is_Some (callstack_allocations_ t' !! k) <-> is_Some (callstack_allocations_ t !! k);
  ef_csas : forall k c', callstack_allocations_ t' !! k = Some c' -> exists c, callstack_allocations_ t !! k = Some c /\ allocs c' = allocs c /\
    net (dump_at_max_mode_ t) c' = u64 (net (dump_at_max_mode_ t) c + if decide (k = k0) then d else 0) /\
    net_count (dump_at_max_mode_ t) c' = u64 (net_count (dump_at_max_mode_ t) c + if decide (k = k0) then dc else 0);
  ef_current : dump_at_max_mode_ t = true -> u64 (current_unfreed_ t') = u64 (current_unfreed_ t + d)
}.

Lemma csas_set m t : callstack_allocations_ (set_csas m t) = m.
Proof. by destruct t. Qed.
Lemma csas_set_max ms mu mt t : callstack_allocations_ (set_max ms mu mt t) = callstack_allocations_ t.
Proof. by destruct t. Qed.
Lemma update_csa_ok k f t c : callstack_allocations_ t !! k = Some c -> update_csa k f t = Ok (set_csas (<[k := f c]> (callstack_allocations_ t)) t).
Proof. intros E. unfold update_csa. by rewrite E. Qed.
Lemma lookup_csa (k0 k : NodePtr) (m : gmap NodePtr CallstackAllocations) c : <[k0 := c]> m !! k = if decide (k = k0) then Some c else m !! k.
Proof. case_decide as Hk; [subst; apply lookup_insert_eq|by rewrite lookup_insert_ne by congruence]. Qed.

(** Changing one entry, and then possibly raising the maxima of some. *)
Lemma effect_update k0 d dc (t t' : HeapTracker) c0 f (g : NodePtr -> CallstackAllocations -> CallstackAllocations) :
  callstack_allocations_ t !! k0 = Some c0 -> rest t' = rest t ->
  (forall k, callstack_allocations_ t' !! k = g k <$> <[k0 := f c0]> (callstack_allocations_ t) !! k) ->
  (forall k c, g k c = c \/ dump_at_max_mode_ t = true /\ g k c = raise_max c) ->
  allocs (f c0) = allocs c0 -> net (dump_at_max_mode_ t) (f c0) = u64 (net (dump_at_max_mode_ t) c0 + d) ->
  net_count (dump_at_max_mode_ t) (f c0) = u64 (net_count (dump_at_max_mode_ t) c0 + dc) ->
  (dump_at_max_mode_ t = true -> u64 (current_unfreed_ t') = u64 (current_unfreed_ t + d)) ->
  effect k0 d dc t t'.
Proof.
  intros E0 Hr Hl Hg Ha Hn Hc Hcur. split; [done| | |done].
  - intros k. rewrite Hl, fmap_is_Some, lookup_insert_is_Some. destruct (decide (k0 = k)) as [->|Hne]; [|naive_solver]. split; [by exists c0|by left].
  - intros k c'. rewrite Hl. intros (c & E & ->)%fmap_Some.
    assert (Hsame : allocs (g k c) = allocs c /\ net (dump_at_max_mode_ t) (g k c) = net (dump_at_max_mode_ t) c /\ net_count (dump_at_max_mode_ t) (g k c) = net_count (dump_at_max_mode_ t) c).
    { destruct (Hg k c) as [->|[-> ->]]; done. }
    destruct Hsame as (-> & -> & ->). rewrite lookup_csa in E. case_decide as Hk.
    + subst k. injection E as <-. by exists c0.
    + exists c. rewrite !Z.add_0_r. unfold net, net_count. by rewrite !u64_u64.
Qed.

Lemma AddToCallstackAllocations_effect ts a t : is_Some (callstack_allocations_ t !! callstack_allocations a) ->
  exists t', AddToCallstackAllocations ts a t = Ok t' /\ effect (callstack_allocations a) (sample_size a) 1 t t'.
Proof.
  intros [c E]. unfold AddToCallstackAllocations. destruct (dump_at_max_mode_ t) eqn:Hm.
  - set (t1 := set_current _ t). assert (E1 : callstack_allocations_ t1 !! callstack_allocations a = Some c) by (by destruct t).
    set (f := fun c => mkCsa (allocs c) (max c) (u64 (cur c + sample_size a)) (max_count c) (u64 (cur_count c + 1))).
    rewrite (update_csa_ok _ _ _ _ E1). cbn [obind]. set (t2 := set_csas _ t1).
    assert (E2 : callstack_allocations_ t2 = <[callstack_allocations a := f c]> (callstack_allocations_ t)) by (by destruct t).
    assert (Hfc : callstack_allocations_ t2 !! callstack_allocations a = Some (f c)) by (rewrite E2; apply lookup_insert_eq).
    assert (Hgen : forall g t', rest t' = rest t -> current_unfreed_ t' = current_unfreed_ t1 ->
              (forall k, callstack_allocations_ t' !! k = g k <$> callstack_allocations_ t2 !! k) -> (forall k c, g k c = c \/ g k c = raise_max c) ->
              effect (callstack_allocations a) (sample_size a) 1 t t').
    { intros g t' Hr Hcu Hl Hg. apply (effect_update _ _ _ _ _ c f g); [done|done| |naive_solver|done| | |].
      - intros k. by rewrite Hl, E2.
      - rewrite Hm. unfold net, f. cbn. wrap.
      - rewrite Hm. unfold net_count, f. cbn. wrap.
      - intros _. rewrite Hcu. unfold t1. destruct t. cbn. wrap. }
    destruct (_ <=? _).
    { exists t2. split; [done|]. apply (Hgen (fun _ c => c)); [by destruct t|by destruct t| |by left]. intros k. by rewrite option_fmap_id. }
    destruct (_ =? _).
    + rewrite (update_csa_ok _ _ _ _ Hfc). cbn [obind]. eexists. split; [done|].
      apply (Hgen (fun k c => if decide (k = callstack_allocations a) then raise_max c else c)); [by destruct t|by destruct t| |intros; case_decide; auto].
      intros k. rewrite csas_set_max, csas_set.
      rewrite (lookup_csa (callstack_allocations a) k (callstack_allocations_ t2)). case_decide as Hk; [by rewrite Hk, Hfc|]. by rewrite option_fmap_id.
    + cbn [obind]. eexists. split; [done|]. apply (Hgen (fun _ => raise_max)); [by destruct t|by destruct t| |by right].
      intros k. rewrite csas_set_max, csas_set. apply lookup_fmap.
  - match goal with |- context [update_csa _ ?f _] => rewrite (update_csa_ok _ f _ _ E); eexists; split; [done|]; apply (effect_update _ _ _ _ _ c f (fun _ c => c)) end; [done|by destruct t|intros k; rewrite option_fmap_id; by destruct t|by left|done| | |by rewrite Hm].
    + rewrite Hm. unfold net. cbn. wrap.
    + rewrite Hm. unfold net_count. cbn. wrap.
Qed.

Lemma SubtractFromCallstackAllocations_effect a t : is_Some (callstack_allocations_ t !! callstack_allocations a) ->
  exists t', SubtractFromCallstackAllocations a t = Ok t' /\ effect (callstack_allocations a) (- sample_size a) (-1) t t'.
Proof.
  intros [c E]. unfold SubtractFromCallstackAllocations. destruct (dump_at_max_mode_ t) eqn:Hm.
  - set (t1 := set_current _ t). assert (E1 : callstack_allocations_ t1 !! callstack_allocations a = Some c) by (by destruct t).
    match goal with |- context [update_csa _ ?f _] => rewrite (update_csa_ok _ f _ _ E1); eexists; split; [done|]; apply (effect_update _ _ _ _ _ c f (fun _ c => c)) end; [done|by destruct t|intros k; rewrite option_fmap_id; by destruct t|by left|done| | |].
    + rewrite Hm. unfold net. cbn. wrap.
    + rewrite Hm. unfold net_count. cbn. wrap.
    + intros _. destruct t. cbn. wrap.
  - match goal with |- context [update_csa _ ?f _] => rewrite (update_csa_ok _ f _ _ E); eexists; split; [done|]; apply (effect_update _ _ _ _ _ c f (fun _ c => c)) end; [done|by destruct t|intros k; rewrite option_fmap_id; by destruct t|by left|done| | |by rewrite Hm].
    + rewrite Hm. unfold net. cbn. wrap.
    + rewrite Hm. unfold net_count. cbn. wrap.
Qed.

(** ** The sums of a tracker are those of its committed allocations *)

Record sums (n : Z) (m : gmap Z Allocation) (t : HeapTracker) : Prop := {
  su_csas : forall k c, callstack_allocations_ t !! k = Some c ->
    net (dump_at_max_mode_ t) c = u64 (live (at_node k sample_size) n m) /\ net_count (dump_at_max_mode_ t) c = u64 (live (at_node k one) n m);
  su_current : dump_at_max_mode_ t = true -> u64 (current_unfreed_ t) = u64 (live sample_size n m)
}.
(** [f k] allocations refer to the callstack [k]. *)
Definition counts (f : NodePtr -> Z) (t : HeapTracker) : Prop := forall k c, callstack_allocations_ t !! k = Some c -> allocs c = u64 (f k).
Definition uses (m : gmap Z Allocation) (k : NodePtr) : Z := msum (fun _ => at_node k one) m.

Lemma rest_mode t t' : rest t' = rest t -> dump_at_max_mode_ t' = dump_at_max_mode_ t.
Proof. by intros [=]. Qed.
Lemma effect_sums k0 d dc t t' n m n' m' :
  effect k0 d dc t t' -> sums n m t ->
  (forall k, live (at_node k sample_size) n' m' = live (at_node k sample_size) n m + if decide (k = k0) then d else 0) ->
  (forall k, live (at_node k one) n' m' = live (at_node k one) n m + if decide (k = k0) then dc else 0) ->
  live sample_size n' m' = live sample_size n m + d -> sums n' m' t'.
Proof.
  intros [Hr _ Hcs Hcu] [H1 H2] L1 L2 L3. apply rest_mode in Hr. split.
  - intros k c' E. rewrite Hr. destruct (Hcs k c' E) as (c & E0 & _ & -> & ->). destruct (H1 k c E0) as [-> ->]. rewrite L1, L2. split; wrap.
  - rewrite Hr. intros Hm. rewrite Hcu, <- u64_add_l, H2, L3 by done. wrap.
Qed.
Lemma effect_counts k0 d dc t t' f : effect k0 d dc t t' -> counts f t -> counts f t'.
Proof. intros He Hc k c' E. destruct (ef_csas _ _ _ _ _ He k c' E) as (c & E0 & -> & _). by apply Hc. Qed.
(** Nothing happens to the sums when an operation leaves the committed allocations alone. *)
Lemma sums_same n m n' m' t t' :
  sums n m t -> callstack_allocations_ t' = callstack_allocations_ t -> dump_at_max_mode_ t' = dump_at_max_mode_ t -> current_unfreed_ t' = current_unfreed_ t ->
  (forall v, live v n' m' = live v n m) -> sums n' m' t'.
Proof. intros [H1 H2] Ec Em Eu Hl. split; rewrite ?Ec, ?Em, ?Eu; [|by rewrite Hl]. intros k c E. rewrite !Hl. by apply H1. Qed.

Definition is_node (x : option NodePtr) (k : NodePtr) : Z := if decide (x = Some k) then 1 else 0.
Record set_effect (g : NodePtr -> Z) (t t' : HeapTracker) : Prop := {
  se_rest : rest t' = rest t;
  se_dom : forall k, is_Some (callstack_allocations_ t' !! k) <-> is_Some (callstack_allocations_ t !! k);
  se_sums : forall n m, sums n m t -> sums n m t';
  se_counts : forall f, counts f t -> counts (fun k => f k + g k) t'
}.
Lemma set_effect_step delta node t : is_Some (callstack_allocations_ t !! node) ->
  exists t', update_csa node (fun c => mkCsa (u64 (allocs c + delta)) (value0 c) (value1 c) (value2 c) (value3 c)) t = Ok t' /\
    set_effect (fun k => if decide (k = node) then delta else 0) t t'.
Proof.
  intros [c E]. rewrite (update_csa_ok _ _ _ _ E). eexists. split; [done|]. split.
  - by destruct t.
  - intros k. rewrite csas_set, lookup_insert_is_Some. destruct (decide (node = k)) as [->|]; [|naive_solver]. split; [by exists c|by left].
  - intros n m [H1 H2]. split; [|by destruct t]. intros k c'. rewrite csas_set, (lookup_csa node k). replace (dump_at_max_mode_ _) with (dump_at_max_mode_ t) by (by destruct t).
    case_decide as Hk; [|apply H1]. subst k. intros [= <-]. apply (H1 _ _ E).
  - intros f Hf k c'. rewrite csas_set, (lookup_csa node k). case_decide as Hk.
    + subst k. intros [= <-]. cbn. rewrite (Hf _ _ E). wrap.
    + rewrite Z.add_0_r. apply Hf.
Qed.
Lemma set_effect_trans g1 g2 t1 t2 t3 : set_effect g1 t1 t2 -> set_effect g2 t2 t3 -> set_effect (fun k => g1 k + g2 k) t1 t3.
Proof.
  intros [A1 A2 A3 A4] [B1 B2 B3 B4]. split; [congruence|intros k; by rewrite B2|auto|].
  intros f Hf k c E. rewrite Z.add_assoc. by apply (B4 _ (A4 _ Hf)).
Qed.
Lemma set_effect_ext g1 g2 t t' : (forall k, g1 k = g2 k) -> set_effect g1 t t' -> set_effect g2 t t'.
Proof. intros Hg [A1 A2 A3 A4]. split; [done..|]. intros f Hf k c E. rewrite <- Hg. by apply (A4 _ Hf). Qed.

Lemma SetCallstackAllocations_ok old new t :
  (forall k, old = Some k \/ new = Some k -> is_Some (callstack_allocations_ t !! k)) ->
  exists t', SetCallstackAllocations old new t = Ok t' /\ set_effect (fun k => is_node new k - is_node old k) t t'.
Proof.
  intros Hd. unfold SetCallstackAllocations, is_node. destruct old as [o|].
  - destruct (set_effect_step (-1) o t) as (t1 & -> & H1); [by apply Hd; left|]. cbn [obind]. destruct new as [k|].
    + destruct (set_effect_step 1 k t1) as (t2 & -> & H2); [apply (se_dom _ _ _ H1), Hd; by right|]. exists t2. split; [done|].
      eapply set_effect_ext; [|by eapply set_effect_trans]. intros q. cbn. repeat case_decide; congruence || lia.
    + exists t1. split; [done|]. eapply set_effect_ext; [|exact H1]. intros q. cbn. repeat case_decide; congruence || lia.
  - cbn [obind]. destruct new as [k|].
    + destruct (set_effect_step 1 k t) as (t2 & -> & H2); [by apply Hd; right|]. exists t2. split; [done|].
      eapply set_effect_ext; [|exact H2]. intros q. cbn. repeat case_decide; congruence || lia.
    + exists t. split; [done|]. split; [done|done|done|]. intros f Hf k c E. rewrite (Hf _ _ E). repeat case_decide; wrap || done.
Qed.
