(* ===== verification/HeapTrackerOrder.v ===== *)
(** * Operations of the heap profiler may arrive in any order

    The invariant of HeapTracker: after the records [L] have arrived, allocations_ has for
    each address its latest malloc, unless a later operation on it is committed, and the sums
    of a callstack are those of its committed allocations.  Once every record has arrived,
    all this is what replaying the records in order gives. *)

From S2P Require Import Prelude MapSums CallstackTrie HeapTracker HeapTrackerSums.

(** ** Records that have arrived *)

(** A record: a malloc (its sizes and callstack) or a free. *)
Record Op := mkOp { op_seq : Z; op_address : Z; op_ts : Z; op_malloc : option (Z * Z * NodePtr) }.
Definition pending_of (o : Op) : PendingOperation := mkPending (op_address o) (op_ts o).
Definition distinct (L : list Op) : Prop := NoDup (op_seq <$> L) /\ Forall (fun o => 1 <= op_seq o < 2 ^ 64) L.
Definition matches (o : Op) (a : Allocation) : Prop :=
  op_seq o = sequence_number a /\ op_malloc o = Some (sample_size a, alloc_size a, callstack_allocations a).
(** What allocations_ has at an address when the operations up to [n] are committed. *)
Definition entry (L : list Op) (n address : Z) (x : option Allocation) : Prop :=
  match x with
  | Some a => exists o, o ∈ L /\ op_address o = address /\ matches o a /\
      forall o', o' ∈ L -> op_address o' = address -> op_malloc o' <> None \/ op_seq o' <= n -> op_seq o' <= sequence_number a
  | None => forall o, o ∈ L -> op_address o = address -> op_malloc o <> None ->
      exists o', o' ∈ L /\ op_address o' = address /\ op_seq o < op_seq o' <= n
  end.

Lemma distinct_eq L o o' : distinct L -> o ∈ L -> o' ∈ L -> op_seq o = op_seq o' -> o = o'.
Proof.
  intros [Hd _] Ho Ho' E. apply list_elem_of_lookup in Ho as [i Hi]. apply list_elem_of_lookup in Ho' as [j Hj].
  assert (i = j) as ->; [|congruence]. apply (NoDup_lookup _ _ _ (op_seq o) Hd); by rewrite list_lookup_fmap, ?Hi, ?Hj; cbn; rewrite ?E.
Qed.
Lemma entry_seq L n A a o : distinct L -> o ∈ L -> entry L n A (Some a) -> sequence_number a = op_seq o -> A = op_address o /\ matches o a.
Proof.
  intros Hd Ho (o1 & Ho1 & <- & Hm & _) E. assert (o1 = o) as ->; [|done]. apply (distinct_eq L); [done|done|done|]. destruct Hm. congruence.
Qed.

(** ** The invariant, but for pending_operations_ *)

Record core (L : list Op) (n : Z) (t : HeapTracker) : Prop := {
  co_entries : forall A, entry L n A (allocations_ t !! A);
  co_dom : forall A a, allocations_ t !! A = Some a -> is_Some (callstack_allocations_ t !! callstack_allocations a);
  co_sums : sums n (allocations_ t) t;
  co_counts : counts (uses (allocations_ t)) t
}.

Lemma uses_delete m A a k : m !! A = Some a -> uses (delete A m) k = uses m k - is_node (Some (callstack_allocations a)) k.
Proof. intros E. unfold uses. rewrite (msum_delete _ _ _ a) by done. unfold at_node, is_node, one. repeat case_decide; congruence || lia. Qed.
Lemma uses_insert_new m A a k : m !! A = None -> uses (<[A := a]> m) k = uses m k + is_node (Some (callstack_allocations a)) k.
Proof. intros E. unfold uses. rewrite msum_insert_new by done. unfold at_node, is_node, one. repeat case_decide; congruence || lia. Qed.
Lemma uses_replace m A a b k : m !! A = Some a ->
  uses (<[A := b]> m) k = uses m k - is_node (Some (callstack_allocations a)) k + is_node (Some (callstack_allocations b)) k.
Proof. intros E. unfold uses. rewrite (msum_insert _ _ _ a) by done. unfold at_node, is_node, one. repeat case_decide; congruence || lia. Qed.

Lemma allocations_set m t : allocations_ (set_allocations m t) = m. Proof. by destruct t. Qed.
Lemma sums_set_allocations n m m' t : sums n m t -> sums n m (set_allocations m' t).
Proof. intros [H1 H2]. split; by destruct t. Qed.
Lemma rest_allocations t t' : rest t' = rest t -> allocations_ t' = allocations_ t. Proof. by intros [=]. Qed.

(** What is left alone by a commit. *)
Definition frame_of (t : HeapTracker) := (pending_operations_ t, dump_at_max_mode_ t, dead_callstack_allocations_ t, frame_cache_ t, dom (callstack_allocations_ t)).
Lemma rest_frame t t' : rest t' = rest t -> (forall k, is_Some (callstack_allocations_ t' !! k) <-> is_Some (callstack_allocations_ t !! k)) -> frame_of t' = frame_of t.
Proof.
  intros [=] Hd. unfold frame_of. f_equal; [congruence|]. apply set_eq. intros k. rewrite !elem_of_dom. apply Hd.
Qed.

(** *** Commits *)

Section Commit.
Context (L : list Op) (o : Op).
Context (Hd : distinct L) (Ho : o ∈ L).

Lemma entry_next_none n A : op_seq o = n + 1 -> entry L n A None -> entry L (n + 1) A None.
Proof. intros _ He o1 H1 HA Hm. destruct (He o1 H1 HA Hm) as (o' & H' & HA' & Hs). exists o'. repeat split; [done..|lia|lia]. Qed.
Lemma entry_next_some n A a : op_seq o = n + 1 -> (A = op_address o -> n + 1 <= sequence_number a) -> entry L n A (Some a) -> entry L (n + 1) A (Some a).
Proof.
  intros Hs Hle (o1 & H1 & HA & Hm & Hmax). exists o1. repeat split; [done..|apply Hm|apply Hm|]. intros o' H' HA' [Hx|Hx]; [by apply Hmax; [..|left]|].
  destruct (Z.eq_dec (op_seq o') (n + 1)) as [E|Hne]; [|apply Hmax; [done|done|right; lia]].
  assert (o' = o) as -> by (apply (distinct_eq L); congruence). rewrite E. apply Hle. congruence.
Qed.
(** An allocation that the operation [o] on its address ends. *)
Lemma entry_erased n a : op_seq o = n + 1 -> sequence_number a < n + 1 -> entry L n (op_address o) (Some a) -> entry L (n + 1) (op_address o) None.
Proof.
  intros Hs Hlt (o1 & H1 & HA & Hm & Hmax) o2 H2 HA2 Hm2. exists o. repeat split; [done| |lia]. assert (op_seq o2 <= sequence_number a) by (apply Hmax; [done|done|by left]). lia.
Qed.

(** An entry of the sequence number [n + 1] is at the address of [o]. *)
Lemma core_own n t A a : op_seq o = n + 1 -> core L n t -> allocations_ t !! A = Some a -> sequence_number a = n + 1 -> A = op_address o.
Proof.
  intros Hs HI E Ha. pose proof (co_entries _ _ _ HI A) as HA. rewrite E in HA. eapply entry_seq; [done|done|exact HA|congruence].
Qed.
Lemma core_dom n t t' : core L n t -> allocations_ t' = allocations_ t -> (forall k, is_Some (callstack_allocations_ t' !! k) <-> is_Some (callstack_allocations_ t !! k)) ->
  forall A a, allocations_ t' !! A = Some a -> is_Some (callstack_allocations_ t' !! callstack_allocations a).
Proof. intros HI -> Hk A a E. apply Hk. by eapply co_dom. Qed.

(** The operation is about an allocation that is gone, or was replaced by a later one. *)
Lemma commit_nothing n t : op_seq o = n + 1 -> (forall a, allocations_ t !! op_address o = Some a -> n + 1 < sequence_number a) -> core L n t -> core L (n + 1) t.
Proof.
  intros Hs Hlater HI. assert (Hown : forall A a, allocations_ t !! A = Some a -> sequence_number a <> n + 1).
  { intros A a E Ha. pose proof (core_own n t A a Hs HI E Ha) as ->. apply Hlater in E. lia. }
  destruct HI as [He Hdom Hsum Hcnt]. split; [|done| |done].
  - intros A. pose proof (He A) as HA. destruct (allocations_ t !! A) as [a|] eqn:E; [|by apply entry_next_none].
    apply entry_next_some; [done| |done]. intros ->. apply Hlater in E. lia.
  - apply (sums_same n (allocations_ t) _ _ t); [done..|]. intros v. by apply live_next.
Qed.
(** It is the malloc of the allocation at its address. *)
Lemma commit_malloc n t a ts : op_seq o = n + 1 -> allocations_ t !! op_address o = Some a -> sequence_number a = n + 1 -> core L n t ->
  exists t', AddToCallstackAllocations ts a t = Ok t' /\ core L (n + 1) t' /\ rest t' = rest t /\ frame_of t' = frame_of t.
Proof.
  intros Hs E Ea HI. destruct (AddToCallstackAllocations_effect ts a t) as (t2 & -> & Hef); [by eapply co_dom|]. exists t2. split; [done|].
  pose proof (ef_rest _ _ _ _ _ Hef) as Hr. pose proof (rest_allocations _ _ Hr) as Hal. split; [|split; [done|by apply rest_frame, Hef]].
  pose proof (fun B b => core_own n t B b Hs HI) as Hown. pose proof HI as [He Hdom Hsum Hcnt]. split; [| | |rewrite Hal; by eapply effect_counts].
  - rewrite Hal. intros B. pose proof (He B) as HB. destruct (allocations_ t !! B) as [b|] eqn:EB; [|by apply entry_next_none].
    apply entry_next_some; [done| |done]. intros ->. assert (b = a) as -> by congruence. lia.
  - eapply core_dom; [done|done|apply Hef].
  - rewrite Hal. eapply effect_sums; [exact Hef|exact Hsum|..]; intros; (rewrite (live_commit _ n _ (op_address o) a); [done|done|done|]); intros B b EB Hb; by apply (Hown B b).
Qed.
(** It frees the allocation. *)
Lemma commit_free n t a : op_seq o = n + 1 -> allocations_ t !! op_address o = Some a -> sequence_number a < n + 1 -> core L n t ->
  exists t' t'', SubtractFromCallstackAllocations a t = Ok t' /\ SetCallstackAllocations (Some (callstack_allocations a)) None t' = Ok t'' /\
    allocations_ t'' = allocations_ t /\ core L (n + 1) (set_allocations (delete (op_address o) (allocations_ t)) t'') /\ rest t'' = rest t /\ frame_of t'' = frame_of t.
Proof.
  intros Hs E Hlt HI. destruct (SubtractFromCallstackAllocations_effect a t) as (t2 & E2 & Hef); [by eapply co_dom|]. pose proof (ef_rest _ _ _ _ _ Hef) as Hr2.
  destruct (SetCallstackAllocations_ok (Some (callstack_allocations a)) None t2) as (t3 & E3 & Hse).
  { intros k [[= <-]|]; [|done]. apply (ef_dom _ _ _ _ _ Hef). by eapply co_dom. }
  exists t2, t3. split; [done|]. split; [done|]. pose proof (se_rest _ _ _ Hse) as Hr3. pose proof (rest_allocations _ _ (eq_trans Hr3 Hr2)) as Hal3. split; [done|].
  split; [|split; [congruence|transitivity (frame_of t2); apply rest_frame; [done|apply Hse|done|apply Hef]]].
  pose proof (fun B b => core_own n t B b Hs HI) as Hown. pose proof HI as [He Hdom Hsum Hcnt].
  assert (Hlive : forall v, live v (n + 1) (delete (op_address o) (allocations_ t)) = live v n (allocations_ t) - v a).
  { intros v. rewrite <- (live_delete v n _ _ a) by (done || lia). apply live_next. intros B b [HneB EB]%lookup_delete_Some Hb. apply HneB. symmetry. by apply (Hown B b). }
  assert (Hcs : forall m, callstack_allocations_ (set_allocations m t3) = callstack_allocations_ t3) by (by destruct t3).
  split; rewrite ?allocations_set.
  - intros B. destruct (decide (op_address o = B)) as [<-|HneB]; [rewrite lookup_delete_eq; pose proof (He (op_address o)) as HA; rewrite E in HA; by eapply entry_erased|].
    rewrite lookup_delete_ne by done. pose proof (He B) as HB. destruct (allocations_ t !! B) as [b|]; [|by apply entry_next_none]. apply entry_next_some; [done| |done]. by intros ->.
  - intros B b [_ EB]%lookup_delete_Some. rewrite Hcs. apply (se_dom _ _ _ Hse), (ef_dom _ _ _ _ _ Hef). by eapply Hdom.
  - apply sums_set_allocations, (se_sums _ _ _ Hse). eapply effect_sums; [exact Hef|exact Hsum|..]; intros; rewrite Hlive; unfold at_node; try case_decide; unfold one; lia.
  - intros k c Ec. rewrite (uses_delete _ _ a) by done. rewrite Hcs in Ec.
    rewrite (se_counts _ _ _ Hse _ (effect_counts _ _ _ _ _ _ Hef Hcnt) k c Ec). unfold is_node at 1. rewrite decide_False by done. f_equal; lia.
Qed.

Lemma CommitOperation_ok n t : op_seq o = n + 1 -> 0 <= n -> core L n t -> committed_sequence_number_ t = n ->
  exists t', CommitOperation (n + 1) (pending_of o) t = Ok t' /\ core L (n + 1) t' /\ committed_sequence_number_ t' = n + 1 /\ frame_of t' = frame_of t.
Proof.
  intros Hs Hn HI Hc. assert (Hn1 : n + 1 < 2 ^ 64). { destruct Hd as [_ Hr]. rewrite Forall_forall in Hr. pose proof (Hr o Ho). lia. }
  unfold CommitOperation. rewrite Hc, u64_small by lia. set (t1 := set_committed _ _ t). cbn [pending_of allocation_address timestamp].
  assert (HI1 : core L n t1). { destruct HI as [He Hdom [H1 H2] Hcnt]. split; [| |split|]; by destruct t. }
  assert (Hf1 : frame_of t1 = frame_of t) by (by destruct t). assert (Hc1 : committed_sequence_number_ t1 = n + 1) by (by destruct t).
  rewrite <- Hf1. clearbody t1. clear HI Hc t Hf1.
  assert (Hnop : (forall a, allocations_ t1 !! op_address o = Some a -> n + 1 < sequence_number a) ->
    exists t', Ok t1 = Ok t' /\ core L (n + 1) t' /\ committed_sequence_number_ t' = n + 1 /\ frame_of t' = frame_of t1).
  { intros Hl. exists t1. split; [done|]. split; [by apply commit_nothing|done]. }
  destruct (allocations_ t1 !! op_address o) as [a|] eqn:E; [|by apply Hnop].
  destruct (Z.eqb_spec (sequence_number a) (n + 1)) as [Ea|Hne]; [|destruct (Z.ltb_spec (sequence_number a) (n + 1)) as [Hlt|Hge]; [|apply Hnop; intros ? [= <-]; lia]].
  - destruct (commit_malloc n t1 a (op_ts o) Hs E Ea HI1) as (t2 & -> & HI2 & Hr & Hf). exists t2. split; [done|]. split; [done|]. split; [|done]. injection Hr. congruence.
  - destruct (commit_free n t1 a Hs E Hlt HI1) as (t2 & t3 & -> & Es & Hal & HI2 & Hr & Hf). cbn [obind]. rewrite Es. cbn [obind]. eexists. split; [done|].
    rewrite Hal. split; [done|]. injection Hr. rewrite <- Hf. destruct t3. cbn in *. split; [congruence|done].
Qed.
End Commit.

(** ** pending_operations_ *)

Record waiting (L : list Op) (n : Z) (p : list (Z * PendingOperation)) : Prop := {
  wa_sorted : StronglySorted (fun x y => x.1 < y.1) p;
  wa_ops : forall s po, (s, po) ∈ p <-> exists o, o ∈ L /\ op_seq o = s /\ po = pending_of o /\ n < s
}.
(** All records up to [n] have arrived. *)
Definition arrived (L : list Op) (n : Z) : Prop := 0 <= n /\ forall s, 1 <= s <= n -> s ∈ op_seq <$> L.
(** [n] is as far as that goes. *)
Definition up_to (L : list Op) (n : Z) : Prop := arrived L n /\ n + 1 ∉ op_seq <$> L.

Record tracker_inv (L : list Op) (t : HeapTracker) : Prop := {
  tr_core : core L (committed_sequence_number_ t) t;
  tr_waiting : waiting L (committed_sequence_number_ t) (pending_operations_ t);
  tr_up_to : up_to L (committed_sequence_number_ t)
}.
(** What operations leave alone, of what frames and nodes are about. *)
Definition others_of (t : HeapTracker) := (dump_at_max_mode_ t, dead_callstack_allocations_ t, frame_cache_ t, dom (callstack_allocations_ t)).
Lemma frame_others t t' : frame_of t' = frame_of t -> others_of t' = others_of t.
Proof. intros [=]. unfold others_of. congruence. Qed.

Lemma elem_of_seqs s (L : list Op) : s ∈ op_seq <$> L <-> exists o, o ∈ L /\ op_seq o = s.
Proof. rewrite list_elem_of_fmap. naive_solver. Qed.
Lemma distinct_range L o : distinct L -> o ∈ L -> 1 <= op_seq o < 2 ^ 64.
Proof. intros [_ Hr] Ho. by apply (proj1 (Forall_forall _ _) Hr). Qed.

Lemma core_set_pending L n t p : core L n t -> core L n (set_pending p t).
Proof. intros [He Hdom [H1 H2] Hcnt]. split; [| |split|]; by destruct t. Qed.
Lemma waiting_next L n s po p : waiting L n ((s, po) :: p) -> s = n + 1 -> waiting L (n + 1) p.
Proof.
  intros [Hs Hw] ->. apply StronglySorted_inv in Hs as [Hs Hall]. rewrite Forall_forall in Hall. split; [done|]. intros s1 po1. split.
  - intros Hin. destruct (proj1 (Hw s1 po1)) as (o & Ho & <- & -> & _); [by right|]. exists o. apply Hall in Hin. done.
  - intros (o & Ho & <- & -> & Hlt). assert (Hin : (op_seq o, pending_of o) ∈ (n + 1, po) :: p). { apply Hw. exists o. repeat split; [done..|lia]. }
    apply elem_of_cons in Hin as [[= Heq _]|]; [lia|done].
Qed.

Lemma commit_pending_ok L l n t : distinct L -> core L n t -> committed_sequence_number_ t = n -> waiting L n l -> arrived L n ->
  exists t', commit_pending l t = Ok t' /\ tracker_inv L t' /\ others_of t' = others_of t.
Proof.
  intros Hd. revert n t. induction l as [|[s po] l IH]; intros n t HI Hc Hw Ha; cbn [commit_pending].
  - exists (set_pending [] t). split; [done|]. split; [|by destruct t]. assert (E : committed_sequence_number_ (set_pending [] t) = n) by (by destruct t). split; rewrite E.
    + by apply core_set_pending.
    + by destruct t.
    + split; [done|]. rewrite elem_of_seqs. intros (o & Ho & Hs). assert (Hin : (op_seq o, pending_of o) ∈ @nil (Z * PendingOperation)); [|by apply not_elem_of_nil in Hin].
      apply (wa_ops _ _ _ Hw). exists o. repeat split; [done|lia].
  - destruct (proj1 (wa_ops _ _ _ Hw s po)) as (o & Ho & Hs & -> & Hlt); [by left|]. pose proof (distinct_range L o Hd Ho). destruct Ha as [Hn Ha].
    rewrite Hc, u64_small by lia. destruct (Z.eqb_spec s (n + 1)) as [->|Hne].
    + destruct (CommitOperation_ok L o Hd Ho n t) as (t1 & -> & HI1 & Hc1 & Hf1); [done..|]. cbn [obind].
      destruct (IH (n + 1) t1) as (t2 & -> & HI2 & Ho2); [done|done|by eapply waiting_next| |exists t2; split; [done|]; split; [done|]; rewrite Ho2; by apply frame_others].
      split; [lia|]. intros s Hs1. destruct (Z.eq_dec s (n + 1)) as [->|]; [|apply Ha; lia]. apply elem_of_seqs. by exists o.
    + exists (set_pending ((s, pending_of o) :: l) t). split; [done|]. split; [|by destruct t].
      assert (E : committed_sequence_number_ (set_pending ((s, pending_of o) :: l) t) = n) by (by destruct t). split; rewrite E.
      * by apply core_set_pending.
      * by destruct t.
      * split; [done|]. rewrite elem_of_seqs. intros (o1 & Ho1 & Hs1). assert (Hin : (op_seq o1, pending_of o1) ∈ (s, pending_of o) :: l).
        { apply (wa_ops _ _ _ Hw). exists o1. repeat split; [done|lia]. }
        destruct Hw as [Hsort _]. apply StronglySorted_inv in Hsort as [_ Hall]. rewrite Forall_forall in Hall.
        apply elem_of_cons in Hin as [[= Heq _]|Hin]; [lia|]. apply Hall in Hin. cbn in Hin. lia.
Qed.

Lemma elem_of_emplace s po l x : s ∉ l.*1 -> x ∈ emplace_pending s po l <-> x = (s, po) \/ x ∈ l.
Proof.
  induction l as [|[s1 po1] l IH]; cbn [emplace_pending]; [by rewrite list_elem_of_singleton, elem_of_nil; naive_solver|]. intros Hs.
  destruct (s <? s1); [by rewrite elem_of_cons|]. destruct (Z.eqb_spec s s1) as [->|]; [destruct Hs; by left|].
  rewrite !elem_of_cons, IH; [naive_solver|]. intros Hin. apply Hs. by right.
Qed.
Lemma emplace_sorted s po l : s ∉ l.*1 -> StronglySorted (fun x y => x.1 < y.1) l -> StronglySorted (fun x y => x.1 < y.1) (emplace_pending s po l).
Proof.
  induction l as [|[s1 po1] l IH]; cbn [emplace_pending]; [intros _ _; repeat constructor|]. intros Hs Hl. pose proof Hl as [Hl1 Hall]%StronglySorted_inv.
  assert (Hs' : s ∉ l.*1) by (intros Hin; apply Hs; by right).
  destruct (Z.ltb_spec s s1); [constructor; [done|]; constructor; [done|]; eapply Forall_impl; [exact Hall|]; cbn; intros; lia|].
  destruct (Z.eqb_spec s s1) as [->|]; [destruct Hs; by left|]. constructor; [by apply IH|].
  rewrite Forall_forall in *. intros x [->|Hx]%elem_of_emplace; [cbn; lia|by apply Hall|done].
Qed.

(** The record [o] arrives; what it does to allocations_ is already done. *)
Lemma RecordOperation_ok L o t : let n := committed_sequence_number_ t in
  distinct (L ++ [o]) -> core (L ++ [o]) n t -> waiting L n (pending_operations_ t) -> up_to L n ->
  exists t', RecordOperation (op_seq o) (pending_of o) t = Ok t' /\ tracker_inv (L ++ [o]) t' /\ others_of t' = others_of t.
Proof.
  intros n Hd HI Hw [[Hn Ha] Hnext]. assert (Ho : o ∈ L ++ [o]) by (apply elem_of_app; right; by left). pose proof (distinct_range _ o Hd Ho) as Hr.
  assert (Hfresh : op_seq o ∉ op_seq <$> L).
  { destruct Hd as [Hnd _]. rewrite fmap_app in Hnd. apply NoDup_app in Hnd as (_ & Hnd & _). intros Hin. apply (Hnd _ Hin). by left. }
  assert (Hlt : n < op_seq o) by (destruct (Z.lt_ge_cases n (op_seq o)); [done|]; destruct Hfresh; apply Ha; lia).
  assert (Ha' : arrived (L ++ [o]) n). { split; [done|]. intros s Hs. rewrite fmap_app. apply elem_of_app. left. by apply Ha. }
  unfold RecordOperation. fold n. rewrite u64_small by lia. destruct (Z.eqb_spec (op_seq o) (n + 1)) as [E|Hne]; cbn [negb].
  - destruct (CommitOperation_ok (L ++ [o]) o Hd Ho n t) as (t1 & Et & HI1 & Hc1 & Hf1); [done..|]. rewrite E, Et. cbn [obind].
    assert (Hp : pending_operations_ t1 = pending_operations_ t) by (injection Hf1; congruence). rewrite Hp.
    destruct (commit_pending_ok (L ++ [o]) (pending_operations_ t) (n + 1) t1) as (t2 & -> & HI2 & Ho2); [done|done|done| | |].
    + split; [apply Hw|]. intros s po. rewrite (wa_ops _ _ _ Hw). setoid_rewrite elem_of_app. setoid_rewrite list_elem_of_singleton. split.
      * intros (o1 & Ho1 & <- & -> & Hs). exists o1. repeat split; [by left|]. assert (op_seq o1 <> n + 1); [|lia]. intros Hs1. apply Hnext, elem_of_seqs. by exists o1.
      * intros (o1 & [Ho1| ->] & <- & -> & Hs); [|lia]. exists o1. repeat split; [done|lia].
    + split; [lia|]. intros s Hs. destruct (Z.eq_dec s (n + 1)) as [->|]; [|apply Ha'; lia]. apply elem_of_seqs. by exists o.
    + exists t2. split; [done|]. split; [done|]. rewrite Ho2. by apply frame_others.
  - exists (set_pending (emplace_pending (op_seq o) (pending_of o) (pending_operations_ t)) t). split; [done|]. split; [|by destruct t].
    assert (Hnew : op_seq o ∉ (pending_operations_ t).*1).
    { intros Hin. apply list_elem_of_fmap in Hin as ([s po] & Hs & Hin). cbn in Hs. subst s. apply (wa_ops _ _ _ Hw) in Hin as (o1 & Ho1 & Hs1 & _). apply Hfresh, elem_of_seqs. by exists o1. }
    assert (E : forall p, committed_sequence_number_ (set_pending p t) = n) by (by destruct t). split; rewrite E.
    + by apply core_set_pending.
    + replace (pending_operations_ (set_pending _ t)) with (emplace_pending (op_seq o) (pending_of o) (pending_operations_ t)) by (by destruct t).
      split; [apply emplace_sorted; [done|apply Hw]|]. intros s po. rewrite elem_of_emplace by done. rewrite (wa_ops _ _ _ Hw).
      setoid_rewrite elem_of_app. setoid_rewrite list_elem_of_singleton. split.
      * intros [[= -> ->]|(o1 & Ho1 & H1 & H2 & H3)]; [exists o; auto|exists o1; auto].
      * intros (o1 & [Ho1| ->] & <- & -> & Hs); [right; by exists o1|by left].
    + split; [done|]. rewrite fmap_app, elem_of_app. cbn. rewrite list_elem_of_singleton. intros [|]; [done|lia].
Qed.
