(* ===== verification/HeapTrackerRecord.v ===== *)
(** * Recording a malloc or a free

    RecordMalloc and RecordFree keep the invariant of HeapTrackerOrder, and the trie counts
    one reference for each CallstackAllocations of the trackers. *)

From S2P Require Import Prelude MapSums CallstackTrie HeapTracker HeapTrackerSums HeapTrackerOrder.

(** ** The references of a tracker to the trie *)

Definition refs_in (X : gset NodePtr) (p : NodePtr) : Z := Z.of_nat (size (filter (fun k => p `suffix_of` k) X)).
Definition refs (t : HeapTracker) : NodePtr -> Z := refs_in (dom (callstack_allocations_ t)).

Lemma refs_in_insert X k p : k ∉ X -> refs_in ({[k]} ∪ X) p = refs_in X p + adds k p.
Proof.
  intros Hk. unfold refs_in, adds. rewrite filter_union_L by apply _. rewrite filter_singleton_L by apply _. case_decide as Hp.
  - rewrite size_union; [rewrite size_singleton; lia|]. intros q ->%elem_of_singleton [_ Hq]%elem_of_filter. done.
  - rewrite union_empty_l_L. lia.
Qed.
Lemma refs_in_delete X k p : k ∈ X -> refs_in X p = refs_in (X ∖ {[k]}) p + adds k p.
Proof. intros Hk. rewrite <- refs_in_insert by set_solver. f_equal. by apply union_difference_singleton_L. Qed.
Lemma refs_in_parent X f p : 0 <= refs_in X (f :: p) <= refs_in X p.
Proof.
  unfold refs_in. split; [lia|]. apply Nat2Z.inj_le, subseteq_size. intros q [Hq Hin]%elem_of_filter. apply elem_of_filter. split; [by eapply suffix_tail|done].
Qed.
Lemma refs_in_root X : refs_in X [] = Z.of_nat (size X).
Proof. unfold refs_in. f_equal. f_equal. apply set_eq. intros q. rewrite elem_of_filter. split; [by intros []|]. intros H. split; [apply suffix_nil|done]. Qed.
Lemma refs_in_node X k p : k ∈ X -> p `suffix_of` k -> 0 < refs_in X p.
Proof.
  intros Hk Hp. rewrite (refs_in_delete X k p Hk). unfold adds. rewrite decide_True by done. unfold refs_in. lia.
Qed.

(** The trie counts the references of one tracker and [other] ones. *)
Record others_ok (other : NodePtr -> Z) : Prop := { ot_nonneg : forall p, 0 <= other p; ot_parent : forall f p, other (f :: p) <= other p }.
Definition all_refs (other : NodePtr -> Z) (X : gset NodePtr) (p : NodePtr) : Z := other p + refs_in X p.
Record shares (other : NodePtr -> Z) (callsites : Trie) (X : gset NodePtr) : Prop := {
  sh_ok : trie_ok callsites (all_refs other X);
  sh_tight : tight callsites (all_refs other X) []
}.

Lemma counting_all other X : others_ok other -> other [] + Z.of_nat (size X) < 2 ^ 64 -> counting (all_refs other X).
Proof.
  intros [H1 H2] Hm. assert (Hp : forall f p, all_refs other X (f :: p) <= all_refs other X p).
  { intros f p. unfold all_refs. pose proof (H2 f p). pose proof (refs_in_parent X f p). lia. }
  split; [|done]. intros p. unfold all_refs at 1. split; [pose proof (H1 p); unfold refs_in; lia|].
  apply Z.le_lt_trans with (all_refs other X []); [|unfold all_refs; rewrite refs_in_root; lia]. induction p as [|f p IH]; [done|]. pose proof (Hp f p). unfold all_refs in *. lia.
Qed.
Lemma trie_ok_ext t c1 c2 : (forall p, c1 p = c2 p) -> trie_ok t c1 -> trie_ok t c2.
Proof. intros E [H1 H2 H3 H4 H5]. split; [done| | |done|done]; intros p; rewrite <- E; [apply H2|apply H3]. Qed.
Lemma tight_ext t c1 c2 path : (forall p, c1 p = c2 p) -> tight t c1 path -> tight t c2 path.
Proof. intros E Ht p. rewrite <- E. apply Ht. Qed.

(** ** MaybeCreateCallstackAllocations *)

Lemma MaybeCreateCallstackAllocations_ok other frames callsites t :
  let X := dom (callstack_allocations_ t) in
  others_ok other -> other [] + Z.of_nat (size X) + 1 < 2 ^ 64 -> next_callstack_id_ callsites + zlen frames < 2 ^ 64 -> shares other callsites X ->
  exists callsites1 callsites' t', CreateCallsite frames callsites = (frames, callsites1) /\
    MaybeCreateCallstackAllocations frames callsites1 t = Ok (callsites', t') /\
    shares other callsites' ({[frames]} ∪ X) /\ next_callstack_id_ callsites <= next_callstack_id_ callsites' <= next_callstack_id_ callsites + zlen frames /\
    (frames ∈ X /\ t' = t \/ frames ∉ X /\ t' = set_csas (<[frames := CallstackAllocations_new]> (callstack_allocations_ t)) t).
Proof.
  intros X Hot Hsz Hn [Hok Ht]. assert (Hc : counting (all_refs other X)) by (apply counting_all; [done|lia]).
  destruct (CreateCallsite_ok frames callsites _ Hc Hok Hn) as (s1 & E1 & Hok1 & Hd1 & _ & Hn1).
  assert (Ht1 : tight s1 (all_refs other X) frames).
  { intros p [Hp|Hp]%Hd1; [|by right]. destruct (Ht p Hp) as [| ->%suffix_nil_inv]; [by left|right; apply suffix_nil]. }
  exists s1. unfold MaybeCreateCallstackAllocations. destruct (callstack_allocations_ t !! frames) as [c|] eqn:E.
  - assert (Hin : frames ∈ X) by (by apply elem_of_dom; exists c). exists s1, t. split; [done|]. split; [done|]. replace ({[frames]} ∪ X) with X by set_solver.
    split; [split; [done|]|split; [lia|by left]]. intros p Hp. left. destruct (Ht1 p Hp) as [|Hs]; [done|]. pose proof (refs_in_node X frames p Hin Hs). pose proof (ot_nonneg _ Hot p). unfold all_refs. lia.
  - assert (Hin : frames ∉ X) by (by apply not_elem_of_dom).
    destruct (IncrementNode_ok frames s1 _ Hc) as (s2 & E2 & Hok2 & Ht2 & _ & Hn2); [unfold all_refs; rewrite refs_in_root; lia|done| |done|].
    { intros q Hq. apply Hd1. by right. }
    rewrite E2. cbn [obind]. exists s2, (set_csas (<[frames := CallstackAllocations_new]> (callstack_allocations_ t)) t). split; [done|]. split; [done|].
    assert (Hext : forall p, all_refs other X p + adds frames p = all_refs other ({[frames]} ∪ X) p) by (intros p; unfold all_refs; rewrite refs_in_insert by done; lia).
    split; [split; [apply (trie_ok_ext s2 _ _ Hext Hok2)|apply (tight_ext s2 _ _ [] Hext Ht2)]|]. split; [lia|by right].
Qed.

(** ** A new allocation takes its place *)

Lemma new_csa_sums n m t frames : frames ∉ dom (callstack_allocations_ t) -> sums n m t ->
  (forall A a, m !! A = Some a -> callstack_allocations a = frames -> n < sequence_number a) ->
  sums n m (set_csas (<[frames := CallstackAllocations_new]> (callstack_allocations_ t)) t).
Proof.
  intros Hin [H1 H2] Hlater. split; [|by destruct t]. replace (dump_at_max_mode_ (set_csas _ t)) with (dump_at_max_mode_ t) by (by destruct t).
  assert (H0 : forall v, live (at_node frames v) n m = 0).
  { intros v. apply msum_zero. intros A a E. unfold at_node. case_decide as Hk; [|by case_match]. apply Hlater in E; [|done]. replace (_ <=? _) with false by lia. done. }
  intros k c. rewrite csas_set, (lookup_csa frames k). case_decide as Hk; [|by apply H1]. subst k. intros [= <-]. rewrite !H0. unfold net, net_count. cbn. by case_match.
Qed.
Lemma new_csa_counts m t frames : frames ∉ dom (callstack_allocations_ t) -> counts (uses m) t ->
  (forall A a, m !! A = Some a -> is_Some (callstack_allocations_ t !! callstack_allocations a)) ->
  counts (uses m) (set_csas (<[frames := CallstackAllocations_new]> (callstack_allocations_ t)) t).
Proof.
  intros Hin Hc Hdom k c. rewrite csas_set, (lookup_csa frames k). case_decide as Hk; [|by apply Hc]. subst k. intros [= <-].
  unfold uses. rewrite (msum_zero (fun _ => at_node frames one)); [done|]. intros A a E. unfold at_node. rewrite decide_False; [done|]. intros ->. by apply Hin, elem_of_dom, (Hdom A).
Qed.

Record placed (n : Z) (m : gmap Z Allocation) (frames : NodePtr) (t t' : HeapTracker) : Prop := {
  pl_allocations : allocations_ t' = m;
  pl_sums : sums n m t';
  pl_counts : counts (uses m) t';
  pl_dom : dom (callstack_allocations_ t') = {[frames]} ∪ dom (callstack_allocations_ t);
  pl_committed : committed_sequence_number_ t' = committed_sequence_number_ t;
  pl_pending : pending_operations_ t' = pending_operations_ t;
  pl_others : (dump_at_max_mode_ t', dead_callstack_allocations_ t', frame_cache_ t') = (dump_at_max_mode_ t, dead_callstack_allocations_ t, frame_cache_ t)
}.

Lemma place_ok other frames callsites t n A b :
  let X := dom (callstack_allocations_ t) in let m := allocations_ t in let old := callstack_allocations <$> m !! A in
  others_ok other -> other [] + Z.of_nat (size X) + 1 < 2 ^ 64 -> next_callstack_id_ callsites + zlen frames < 2 ^ 64 -> shares other callsites X ->
  callstack_allocations b = frames -> n < sequence_number b -> sums n (<[A := b]> m) t -> counts (uses m) t ->
  (forall A a, m !! A = Some a -> is_Some (callstack_allocations_ t !! callstack_allocations a)) ->
  exists callsites1 callsites' t1 t2, CreateCallsite frames callsites = (frames, callsites1) /\
    MaybeCreateCallstackAllocations frames callsites1 t = Ok (callsites', t1) /\ SetCallstackAllocations old (Some frames) t1 = Ok t2 /\
    allocations_ t2 = m /\ placed n (<[A := b]> m) frames t (set_allocations (<[A := b]> m) t2) /\
    shares other callsites' ({[frames]} ∪ X) /\ next_callstack_id_ callsites <= next_callstack_id_ callsites' <= next_callstack_id_ callsites + zlen frames.
Proof.
  intros X m old Hot Hsz Hn Hsh Hb Hnb Hsum Hcnt Hdom.
  destruct (MaybeCreateCallstackAllocations_ok other frames callsites t Hot Hsz Hn Hsh) as (s1 & s2 & t1 & E1 & E2 & Hsh2 & Hn2 & Ht1).
  assert (Hx : rest t1 = rest t /\ sums n (<[A := b]> m) t1 /\ counts (uses m) t1 /\ dom (callstack_allocations_ t1) = {[frames]} ∪ X /\
    (forall k, k ∈ X \/ k = frames -> is_Some (callstack_allocations_ t1 !! k))).
  { destruct Ht1 as [[Hin ->]|[Hin ->]].
    - split; [done|]. split; [done|]. split; [done|]. split; [unfold X in *; set_solver|]. intros k [Hk|Hk]; apply elem_of_dom; [done|by subst k].
    - split; [by destruct t|]. split; [|split; [by apply new_csa_counts|split; [rewrite csas_set; apply dom_insert_L|]]].
      + apply new_csa_sums; [done|done|]. intros B a [[<- <-]|[_ E]]%lookup_insert_Some Ha; [done|]. destruct Hin. rewrite <- Ha. by apply elem_of_dom, (Hdom B).
      + intros k Hk. rewrite csas_set, lookup_insert_is_Some. destruct (decide (frames = k)); [by left|]. right. split; [done|]. apply elem_of_dom. destruct Hk; [done|congruence]. }
  destruct Hx as (Hr1 & Hsum1 & Hcnt1 & Hd1 & Hin1). 
  destruct (SetCallstackAllocations_ok old (Some frames) t1) as (t2 & E3 & Hse).
  { intros k [Hk|[= <-]]; apply Hin1; [left|by right]. unfold old in Hk. apply fmap_Some in Hk as (a & Ea & ->). by apply elem_of_dom, (Hdom A). }
  pose proof (se_rest _ _ _ Hse) as Hr2. assert (Hal2 : allocations_ t2 = m) by (rewrite (rest_allocations t1 t2 Hr2); by apply rest_allocations).
  exists s1, s2, t1, t2. split; [done|]. split; [done|]. split; [done|]. split; [done|]. split; [|by split].
  assert (Hcs : forall m', callstack_allocations_ (set_allocations m' t2) = callstack_allocations_ t2) by (by destruct t2).
  assert (Hr : rest t2 = rest t) by congruence. injection Hr as Hal Hpe Hco Hmo Hde Hfc. split.
  - by rewrite allocations_set.
  - by apply sums_set_allocations, (se_sums _ _ _ Hse).
  - intros k c. rewrite Hcs. intros Ec. rewrite (se_counts _ _ _ Hse _ Hcnt1 k c Ec). f_equal. unfold old. destruct (m !! A) as [a|] eqn:Ea; cbn.
    + rewrite (uses_replace m A a b k Ea), Hb. lia.
    + rewrite (uses_insert_new m A b k Ea), Hb. unfold is_node at 2. rewrite decide_False by done. lia.
  - rewrite Hcs. transitivity (dom (callstack_allocations_ t1)); [|exact Hd1]. apply set_eq. intros k. rewrite !elem_of_dom. apply Hse.
  - rewrite <- Hco. by destruct t2.
  - rewrite <- Hpe. by destruct t2.
  - rewrite <- Hmo, <- Hde, <- Hfc. by destruct t2.
Qed.

(** ** The entries when a record arrives *)

Lemma entry_app_same L n A x o : entry L n A x -> op_address o = A -> (op_malloc o <> None \/ op_seq o <= n -> exists a, x = Some a /\ op_seq o <= sequence_number a) -> entry (L ++ [o]) n A x.
Proof.
  intros He HA Hle. destruct x as [a|].
  - destruct He as (o1 & H1 & HA1 & Hm & Hmax). exists o1. split; [apply elem_of_app; by left|]. split; [done|]. split; [done|].
    intros o' [H'| ->%list_elem_of_singleton]%elem_of_app HA' Hx; [by apply Hmax|]. destruct (Hle Hx) as (a' & [= <-] & Hs). done.
  - intros o' [H'| ->%list_elem_of_singleton]%elem_of_app HA' Hx; [|by destruct (Hle (or_introl Hx)) as (? & ? & _)].
    destruct (He o' H' HA' Hx) as (o1 & H1 & HA1 & Hs). exists o1. split; [apply elem_of_app; by left|done].
Qed.
Lemma entry_app_other L n A x o : entry L n A x -> op_address o <> A -> entry (L ++ [o]) n A x.
Proof.
  intros He HA. destruct x as [a|].
  - destruct He as (o1 & H1 & HA1 & Hm & Hmax). exists o1. split; [apply elem_of_app; by left|]. split; [done|]. split; [done|].
    intros o' [H'| ->%list_elem_of_singleton]%elem_of_app HA' Hx; [by apply Hmax|done].
  - intros o' [H'| ->%list_elem_of_singleton]%elem_of_app HA' Hx; [|done].
    destruct (He o' H' HA' Hx) as (o1 & H1 & HA1 & Hs). exists o1. split; [apply elem_of_app; by left|done].
Qed.
Lemma entry_app_new L n o b x : entry L n (op_address o) x -> matches o b -> n < op_seq o -> (forall a, x = Some a -> sequence_number a < op_seq o) -> entry (L ++ [o]) n (op_address o) (Some b).
Proof.
  intros He [Hb Hm] Hn Hlt. exists o. split; [apply elem_of_app; right; by left|]. split; [done|]. split; [done|].
  intros o' [H'| ->%list_elem_of_singleton]%elem_of_app HA' Hx; [|lia]. rewrite <- Hb. destruct Hx as [Hx|Hx]; [|lia]. destruct x as [a|].
  - destruct He as (o1 & H1 & HA1 & Hm1 & Hmax). specialize (Hlt a eq_refl). assert (op_seq o' <= sequence_number a) by (apply Hmax; [done|done|by left]). lia.
  - destruct (He o' H' HA' Hx) as (o1 & _ & _ & Hs). lia.
Qed.

(** ** RecordMalloc and RecordFree *)

Lemma effect_trans k d1 c1 d2 c2 t1 t2 t3 : effect k d1 c1 t1 t2 -> effect k d2 c2 t2 t3 -> effect k (d1 + d2) (c1 + c2) t1 t3.
Proof.
  intros [A1 A2 A3 A4] [B1 B2 B3 B4]. pose proof (rest_mode _ _ A1) as Hm. rewrite Hm in B3, B4. split; [congruence|intros q; by rewrite B2| |].
  - intros q c' (c2' & E2 & -> & -> & ->)%B3. destruct (A3 _ _ E2) as (c & E & -> & -> & ->). exists c. split; [done|]. split; [done|]. case_decide; split; wrap.
  - intros Hmode. rewrite B4, <- u64_add_l, A4 by done. wrap.
Qed.

(** The allocation that is replaced, which counts as freed, and as allocated if it did not. *)
Lemma replace_effect ts a n t : is_Some (callstack_allocations_ t !! callstack_allocations a) -> committed_sequence_number_ t = n ->
  exists t1 t2, (if committed_sequence_number_ t <? sequence_number a then AddToCallstackAllocations ts a t else Ok t) = Ok t1 /\
    SubtractFromCallstackAllocations a t1 = Ok t2 /\
    effect (callstack_allocations a) (- if sequence_number a <=? n then sample_size a else 0) (- if sequence_number a <=? n then 1 else 0) t t2.
Proof.
  intros Hda <-. destruct (Z.ltb_spec (committed_sequence_number_ t) (sequence_number a)) as [Hlt|Hge].
  - destruct (AddToCallstackAllocations_effect ts a t Hda) as (t1 & E1 & H1). 
    destruct (SubtractFromCallstackAllocations_effect a t1) as (t2 & E2 & H2); [by apply (ef_dom _ _ _ _ _ H1)|]. exists t1, t2. split; [done|]. split; [done|].
    replace (sequence_number a <=? _) with false by lia. pose proof (effect_trans _ _ _ _ _ _ _ _ H1 H2) as H. by rewrite Z.add_opp_diag_r in H.
  - destruct (SubtractFromCallstackAllocations_effect a t Hda) as (t2 & E2 & H2). exists t, t2. split; [done|]. split; [done|]. by replace (sequence_number a <=? _) with true by lia.
Qed.

Record stored (other : NodePtr -> Z) (L : list Op) (n : Z) (frames : NodePtr) (callsites callsites' : Trie) (t t' : HeapTracker) : Prop := {
  st_core : core L n t';
  st_committed : committed_sequence_number_ t' = committed_sequence_number_ t;
  st_pending : pending_operations_ t' = pending_operations_ t;
  st_others : (dump_at_max_mode_ t', dead_callstack_allocations_ t', frame_cache_ t') = (dump_at_max_mode_ t, dead_callstack_allocations_ t, frame_cache_ t);
  st_shares : shares other callsites' (dom (callstack_allocations_ t'));
  st_dom : dom (callstack_allocations_ t') = dom (callstack_allocations_ t) \/ dom (callstack_allocations_ t') = {[frames]} ∪ dom (callstack_allocations_ t);
  st_next : next_callstack_id_ callsites <= next_callstack_id_ callsites' <= next_callstack_id_ callsites + zlen frames
}.

Lemma store_allocation_ok other L n ss asz frames o callsites t :
  let X := dom (callstack_allocations_ t) in
  others_ok other -> other [] + Z.of_nat (size X) + 1 < 2 ^ 64 -> next_callstack_id_ callsites + zlen frames < 2 ^ 64 -> shares other callsites X ->
  distinct (L ++ [o]) -> core L n t -> committed_sequence_number_ t = n -> n < op_seq o -> op_malloc o = Some (ss, asz, frames) ->
  exists callsites' t', store_allocation frames (op_address o) ss asz (op_seq o) (op_ts o) callsites t = Ok (callsites', t') /\ stored other (L ++ [o]) n frames callsites callsites' t t'.
Proof.
  intros X Hot Hsz Hn Hsh Hd HI Hc Hlt Hm. pose proof HI as [He Hdom Hsum Hcnt]. pose proof (He (op_address o)) as HA.
  set (b := mkAllocation ss asz (op_seq o) frames). assert (Hb : matches o b) by done.
  assert (Hold : forall A, A <> op_address o -> entry (L ++ [o]) n A (allocations_ t !! A)) by (intros A HneA; apply entry_app_other; [apply He|congruence]).
  unfold store_allocation. destruct (allocations_ t !! op_address o) as [a|] eqn:E.
  - destruct (Z.ltb_spec (sequence_number a) (op_seq o)) as [Hl|Hg].
    + destruct (replace_effect (op_ts o) a n t) as (t1 & t2 & -> & E2 & Hef); [by eapply Hdom|done|]. cbn [obind]. rewrite E2. cbn [obind].
      pose proof (ef_rest _ _ _ _ _ Hef) as Hr. pose proof (rest_allocations _ _ Hr) as Hal. 
      assert (Hd2 : dom (callstack_allocations_ t2) = X) by (apply set_eq; intros q; unfold X; rewrite !elem_of_dom; apply (ef_dom _ _ _ _ _ Hef)).
      destruct (place_ok other frames callsites t2 n (op_address o) b) as (s1 & s2 & t3 & t4 & -> & -> & E4 & Hal4 & Hp & Hsh2 & Hn2); rewrite ?Hd2, ?Hal; try done.
      { eapply effect_sums; [exact Hef|exact Hsum|..]; intros; rewrite (live_replace _ n _ _ a b E) by done; unfold at_node, one; destruct (sequence_number a <=? n); repeat case_decide; lia. }
      { by eapply effect_counts. }
      { intros B c Ec. apply (ef_dom _ _ _ _ _ Hef). by eapply Hdom. }
      cbn [obind]. rewrite Hal, E in E4. cbn in E4. rewrite E4. cbn [obind]. rewrite Hal4, Hal. eexists _, _. split; [reflexivity|]. fold b. rewrite Hal in Hp. destruct Hp as [P1 P2 P3 P4 P5 P6 P7].
      assert (Hr' := Hr); injection Hr' as _ Hr1 Hr2 Hr3 Hr4 Hr5. split; [|by rewrite P5|by rewrite P6|by rewrite P7, Hr3, Hr4, Hr5|by rewrite P4|right; by rewrite P4, Hd2|done].
      split; rewrite ?P1; [| |done|done].
      * intros B. destruct (decide (op_address o = B)) as [<-|HneB]; [rewrite lookup_insert_eq; eapply entry_app_new; [exact HA|done|done|by intros ? [= <-]]|].
        rewrite lookup_insert_ne by done. by apply Hold, not_eq_sym.
      * intros B c Ec. apply elem_of_dom. rewrite P4, Hd2. apply lookup_insert_Some in Ec as [[_ <-]|[_ Ec]]; [set_solver|]. apply elem_of_union. right. by eapply elem_of_dom, Hdom.
    + exists callsites, t. split; [done|]. split; [|done|done|done|done|by left|pose proof (zlen_nonneg frames); lia]. split; [|done..].
      intros B. destruct (decide (op_address o = B)) as [<-|HneB]; [|by apply Hold, not_eq_sym]. rewrite E. apply entry_app_same; [done|done|]. intros _. by exists a.
  - destruct (place_ok other frames callsites t n (op_address o) b) as (s1 & s2 & t3 & t4 & -> & -> & E4 & Hal4 & Hp & Hsh2 & Hn2); try done.
    { apply (sums_same n (allocations_ t) _ _ t); [done..|]. intros v. by apply live_insert_new. }
    cbn [obind]. rewrite E in E4. cbn [fmap option_fmap option_map] in E4. rewrite E4. cbn [obind]. rewrite Hal4. eexists _, _. split; [reflexivity|]. fold b. destruct Hp as [P1 P2 P3 P4 P5 P6 P7].
    split; [|done|done|done|by rewrite P4|by right|done]. split; rewrite ?P1; [| |done|done].
    + intros B. destruct (decide (op_address o = B)) as [<-|HneB]; [rewrite lookup_insert_eq; eapply entry_app_new; [exact HA|done|done|done]|].
      rewrite lookup_insert_ne by done. by apply Hold, not_eq_sym.
    + intros B c Ec. apply elem_of_dom. rewrite P4. apply lookup_insert_Some in Ec as [[_ <-]|[_ Ec]]; [set_solver|]. apply elem_of_union. right. by eapply elem_of_dom, Hdom.
Qed.

(** The frames of a callstack when pc identifies them, so that frame_cache_ makes no difference. *)
Definition frame_at (x : FrameData * list Z) : Frame := InternCodeLocation x.1 x.2.
Definition stack_of (callstack : list FrameData) (build_ids : list (list Z)) : NodePtr := frame_at <$> zip callstack build_ids.
Definition cache_ok (F : Z -> Frame) (cache : gmap Z Frame) : Prop := forall p f, cache !! p = Some f -> f = F p.
Definition by_pc (F : Z -> Frame) (l : list (FrameData * list Z)) : Prop := Forall (fun x => frame_at x = F (pc x.1)) l.
Lemma intern_frames_ok F l cache : by_pc F l -> cache_ok F cache -> exists cache', intern_frames l cache = (frame_at <$> l, cache') /\ cache_ok F cache'.
Proof.
  revert cache. induction l as [|[loc b] l IH]; intros cache Hl Hc; [by exists cache|]. apply Forall_cons in Hl as [Hx Hl]. cbn [intern_frames fmap list_fmap].
  destruct (cache !! pc loc) as [f|] eqn:E.
  - destruct (IH cache Hl Hc) as (cache' & -> & Hc'). exists cache'. apply Hc in E as ->. split; [|done]. do 2 f_equal. symmetry. exact Hx.
  - destruct (IH (<[pc loc := InternCodeLocation loc b]> cache) Hl) as (cache' & -> & Hc'); [|by exists cache'].
    intros p f [[<- <-]|[_ Hf]]%lookup_insert_Some; [exact Hx|by apply Hc].
Qed.

Lemma fresh_seq L o n : distinct (L ++ [o]) -> arrived L n -> n < op_seq o.
Proof.
  intros Hd [_ Ha]. destruct (Z.lt_ge_cases n (op_seq o)); [done|]. destruct Hd as [Hnd Hr]. rewrite fmap_app in Hnd. apply NoDup_app in Hnd as (_ & Hnd & _).
  apply Forall_app in Hr as [_ [Hr _]%Forall_cons]. destruct (Hnd (op_seq o)); [apply Ha; lia|by left].
Qed.

Lemma RecordFree_ok L t o : distinct (L ++ [o]) -> op_malloc o = None -> tracker_inv L t ->
  exists t', RecordFree (op_address o) (op_seq o) (op_ts o) t = Ok t' /\ tracker_inv (L ++ [o]) t' /\ others_of t' = others_of t.
Proof.
  intros Hd Hm [HI Hw Hu]. apply (RecordOperation_ok L o t); [done| |done|done]. destruct HI as [He Hdom Hsum Hcnt]. split; [|done..].
  pose proof (fresh_seq L o _ Hd (proj1 Hu)) as Hlt.
  intros A. destruct (decide (op_address o = A)) as [HA|HA]; [|by apply entry_app_other]. apply entry_app_same; [done|done|]. intros [|]; [done|lia].
Qed.

Lemma RecordMalloc_ok F other L callstack build_ids address ss asz seq ts callsites t :
  let X := dom (callstack_allocations_ t) in let o := mkOp seq address ts (Some (ss, asz, stack_of callstack build_ids)) in
  others_ok other -> other [] + Z.of_nat (size X) + 1 < 2 ^ 64 -> next_callstack_id_ callsites + zlen callstack < 2 ^ 64 -> shares other callsites X ->
  distinct (L ++ [o]) -> tracker_inv L t -> cache_ok F (frame_cache_ t) -> by_pc F (zip callstack build_ids) -> zlen callstack = zlen build_ids ->
  exists callsites' t', RecordMalloc callstack build_ids address ss asz seq ts callsites t = Ok (callsites', t') /\
    tracker_inv (L ++ [o]) t' /\ shares other callsites' (dom (callstack_allocations_ t')) /\ cache_ok F (frame_cache_ t') /\
    dump_at_max_mode_ t' = dump_at_max_mode_ t /\ dead_callstack_allocations_ t' = dead_callstack_allocations_ t /\
    (dom (callstack_allocations_ t') = X \/ dom (callstack_allocations_ t') = {[stack_of callstack build_ids]} ∪ X) /\
    next_callstack_id_ callsites <= next_callstack_id_ callsites' <= next_callstack_id_ callsites + zlen callstack.
Proof.
  intros X o Hot Hsz Hn Hsh Hd [HI Hw Hu] Hc Hpc Hlen. unfold RecordMalloc. rewrite Hlen, Z.eqb_refl. cbn [perfetto_check obind].
  destruct (intern_frames_ok F _ _ Hpc Hc) as (cache & -> & Hc'). fold (stack_of callstack build_ids). set (t1 := set_cache cache t).
  assert (Hst : zlen (stack_of callstack build_ids) = zlen callstack).
  { unfold stack_of, zlen in *. rewrite length_fmap, length_zip_with. lia. }
  assert (HI1 : core L (committed_sequence_number_ t) t1) by (destruct HI as [He Hdom [H1 H2] Hcnt]; split; [| |split|]; by destruct t).
  destruct (store_allocation_ok other L (committed_sequence_number_ t) ss asz (stack_of callstack build_ids) o callsites t1) as (s2 & t2 & E2 & [S1 S2 S3 S4 S5 S6 S7]); try done.
  { by destruct t. } { rewrite Hst. done. } { by destruct t. } { by destruct t. } { by apply (fresh_seq L), Hu. }
  cbn [op_address op_seq op_ts o] in E2. rewrite E2. cbn [obind].
  assert (E1 : committed_sequence_number_ t1 = committed_sequence_number_ t /\ pending_operations_ t1 = pending_operations_ t /\ dom (callstack_allocations_ t1) = X /\
     dump_at_max_mode_ t1 = dump_at_max_mode_ t /\ dead_callstack_allocations_ t1 = dead_callstack_allocations_ t /\ frame_cache_ t1 = cache) by (by destruct t).
  destruct E1 as (C1 & C2 & C3 & C4 & C5 & C6). rewrite C1 in S2. rewrite C2 in S3. rewrite C3 in S6. rewrite C4, C5, C6 in S4. injection S4 as S41 S42 S43.
  destruct (RecordOperation_ok L o t2) as (t3 & E3 & HI3 & Ho3); rewrite ?S2, ?S3; try done.
  change (RecordOperation seq (mkPending address ts) t2) with (RecordOperation (op_seq o) (pending_of o) t2). rewrite E3. cbn [obind].
  injection Ho3 as O1 O2 O3 O4. exists s2, t3. split; [done|]. split; [done|]. rewrite O4, O3, O2, O1, S41, S42, S43. rewrite Hst in S7. split; [exact S5|]. split; [exact Hc'|]. split; [done|]. split; [done|]. split; [exact S6|by rewrite <- Hlen].
Qed.
