(* ===== verification/HeapTrackerDump.v ===== *)
(** * Dumps of the heap profiler

    GetCallstackAllocations keeps the invariant: what it drops is used by no allocation. *)

From S2P Require Import Prelude MapSums CallstackTrie HeapTracker HeapTrackerSums HeapTrackerOrder HeapTrackerRecord.

(** ** There are fewer than 2^64 allocations *)

Lemma NoDup_bounded (l : list Z) m : NoDup l -> Forall (fun x => 1 <= x < m) l -> zlen l < Z.max 1 m.
Proof.
  intros Hl Hr. assert (Hle : (length l <= length (seqZ 1 (m - 1)))%nat).
  { apply submseteq_length, NoDup_submseteq; [done|]. intros x Hx. rewrite Forall_forall in Hr. apply elem_of_seqZ. pose proof (Hr x Hx). lia. }
  rewrite length_seqZ in Hle. unfold zlen. lia.
Qed.
Lemma distinct_length L : distinct L -> zlen L < 2 ^ 64.
Proof.
  intros [Hd Hr]. assert (H : zlen (op_seq <$> L) < Z.max 1 (2 ^ 64)) by (apply NoDup_bounded; [done|by apply Forall_fmap]).
  unfold zlen in *. rewrite length_fmap in H. lia.
Qed.
Lemma size_list_to_set_le (l : list Z) : (size (list_to_set l : gset Z) <= length l)%nat.
Proof.
  induction l as [|x l IH]; [done|]. cbn [list_to_set length]. rewrite size_union_alt, size_singleton.
  assert (size ((list_to_set l : gset Z) ∖ {[x]}) <= size (list_to_set l : gset Z))%nat by (apply subseteq_size; set_solver). lia.
Qed.
Lemma core_size L n t : core L n t -> (size (allocations_ t) <= length L)%nat.
Proof.
  intros HI. rewrite <- size_dom. trans (size (list_to_set (op_address <$> L) : gset Z)).
  - apply subseteq_size. intros A [a E]%elem_of_dom. pose proof (co_entries _ _ _ HI A) as HA. rewrite E in HA. destruct HA as (o & Ho & <- & _).
    apply elem_of_list_to_set, list_elem_of_fmap. by exists o.
  - etrans; [apply size_list_to_set_le|]. by rewrite length_fmap.
Qed.
Lemma uses_range m k : 0 <= uses m k <= Z.of_nat (size m).
Proof.
  unfold uses. rewrite <- msum_one. split; [apply msum_nonneg|apply msum_le]; intros A a _; unfold at_node, one; case_decide; lia.
Qed.
(** allocs counts the allocations of a callstack. *)
Lemma core_allocs L n t k c : distinct L -> core L n t -> callstack_allocations_ t !! k = Some c -> allocs c = uses (allocations_ t) k.
Proof.
  intros Hd HI E. rewrite (co_counts _ _ _ HI k c E). apply u64_small. pose proof (uses_range (allocations_ t) k). pose proof (core_size _ _ _ HI). pose proof (distinct_length _ Hd). unfold zlen in *. lia.
Qed.
Lemma unused L n t A a k : core L n t -> uses (allocations_ t) k = 0 -> allocations_ t !! A = Some a -> callstack_allocations a <> k.
Proof.
  intros HI Hu E Hk. unfold uses in Hu. pose proof (msum_entry_le (fun _ => at_node k one) (allocations_ t) A a) as H. rewrite Hu in H.
  assert (at_node k one a = 1) by (unfold at_node; by rewrite decide_True by done). enough (at_node k one a <= 0) by lia. apply H; [|done]. intros. unfold at_node, one. case_decide; lia.
Qed.

(** ** Dropping what nothing refers to *)

Lemma core_drop L n t k : core L n t -> uses (allocations_ t) k = 0 -> core L n (set_csas (delete k (callstack_allocations_ t)) (ClearFrameCache t)).
Proof.
  intros HI Hu. pose proof (unused L n t) as Hun. destruct HI as [He Hdom [H1 H2] Hcnt].
  assert (Ea : allocations_ (set_csas (delete k (callstack_allocations_ t)) (ClearFrameCache t)) = allocations_ t) by (by destruct t).
  assert (Em : dump_at_max_mode_ (set_csas (delete k (callstack_allocations_ t)) (ClearFrameCache t)) = dump_at_max_mode_ t) by (by destruct t).
  split; [by rewrite Ea| |split; rewrite ?Em, ?Ea; [|by destruct t]|]; rewrite ?csas_set, ?Ea.
  - intros A a E. rewrite lookup_delete_ne; [by eapply Hdom|]. apply not_eq_sym. by eapply Hun.
  - intros q c. intros [_ E]%lookup_delete_Some. by apply H1.
  - intros q c. rewrite csas_set. intros [_ E]%lookup_delete_Some. by apply Hcnt.
Qed.

Definition droppable (mode : bool) (seen : Z) (c : CallstackAllocations) : bool := (allocs c =? 0) && (mode || (allocation_count c =? seen)).
Definition kept (l : list (NodePtr * Z)) (mode : bool) (k : NodePtr) (c : CallstackAllocations) : Prop := forall seen, (k, seen) ∈ l -> droppable mode seen c = false.
(** What drop_dead does not change. *)
Definition still (t : HeapTracker) := (allocations_ t, pending_operations_ t, committed_sequence_number_ t, dump_at_max_mode_ t, dead_callstack_allocations_ t).

Lemma drop_dead_ok F other L n l callsites t :
  others_ok other -> other [] + Z.of_nat (size (dom (callstack_allocations_ t))) < 2 ^ 64 -> shares other callsites (dom (callstack_allocations_ t)) ->
  distinct L -> core L n t -> cache_ok F (frame_cache_ t) -> NoDup l.*1 -> (forall k, k ∈ l.*1 -> k ∈ dom (callstack_allocations_ t)) ->
  exists callsites' t', drop_dead l callsites t = Ok (callsites', t') /\ core L n t' /\ shares other callsites' (dom (callstack_allocations_ t')) /\ cache_ok F (frame_cache_ t') /\
    still t' = still t /\ next_callstack_id_ callsites' = next_callstack_id_ callsites /\
    forall k c, callstack_allocations_ t' !! k = Some c <-> callstack_allocations_ t !! k = Some c /\ kept l (dump_at_max_mode_ t) k c.
Proof.
  intros Hot. revert callsites t. induction l as [|[k seen] l IH]; intros callsites t Hsz Hsh Hd HI Hc Hnd Hin; cbn [drop_dead].
  { exists callsites, t. do 6 (split; [done|]). intros k c. split; [|by intros []]. intros E. split; [done|]. intros m []%not_elem_of_nil. }
  cbn in Hnd, Hin. apply NoDup_cons in Hnd as [Hk Hnd].
  assert (Hdk : k ∈ dom (callstack_allocations_ t)) by (apply Hin; by left). apply elem_of_dom in Hdk as [c E]. rewrite E. fold (droppable (dump_at_max_mode_ t) seen c).
  destruct (droppable _ seen c) eqn:Hdr.
  - assert (Hu : uses (allocations_ t) k = 0). { rewrite <- (core_allocs L n t k c) by done. unfold droppable in Hdr. lia. }
    set (t1 := set_csas (delete k (callstack_allocations_ t)) (ClearFrameCache t)). 
    assert (Hcs1 : callstack_allocations_ t1 = delete k (callstack_allocations_ t)) by (by destruct t).
    assert (Hd1 : dom (callstack_allocations_ t1) = dom (callstack_allocations_ t) ∖ {[k]}) by (rewrite Hcs1; apply dom_delete_L).
    assert (Hsz1 : (size (dom (callstack_allocations_ t1)) <= size (dom (callstack_allocations_ t)))%nat) by (rewrite Hd1; apply subseteq_size; set_solver).
    destruct (DecrementNode_ok k callsites (all_refs other (dom (callstack_allocations_ t))) (all_refs other (dom (callstack_allocations_ t1)))) as (s1 & E1 & Hok1 & Ht1 & _ & Hn1).
    { apply counting_all; [done|lia]. }
    { intros q. unfold all_refs. rewrite (refs_in_delete _ k) by (apply elem_of_dom; by exists c). rewrite Hd1. lia. }
    { apply Hsh. } { apply Hsh. }
    replace (callstack_allocations_ (ClearFrameCache t)) with (callstack_allocations_ t) by (by destruct t). fold t1. rewrite E1. cbn [obind].
    destruct (IH s1 t1) as (s2 & t2 & -> & HI2 & Hsh2 & Hc2 & Hst2 & Hn2 & Hcs2); [lia|by split|done|by apply core_drop|by destruct t|done| |].
    { intros q Hq. rewrite Hd1. apply elem_of_difference. split; [apply Hin; by right|]. intros ->%elem_of_singleton. done. }
    exists s2, t2. split; [done|]. split; [done|]. split; [done|]. split; [done|]. split; [rewrite Hst2; by destruct t|]. split; [congruence|].
    intros q c'. rewrite Hcs2, Hcs1, lookup_delete_Some. replace (dump_at_max_mode_ t1) with (dump_at_max_mode_ t) by (by destruct t). split.
    + intros [[Hne Ec] Hkp]. split; [done|]. intros m [[= <- <-]|Hm]%elem_of_cons; [done|by apply Hkp].
    + intros [Ec Hkp]. split; [|intros m Hm; apply Hkp; by right]. split; [|done]. intros <-. assert (c' = c) as -> by congruence.
      rewrite (Hkp seen) in Hdr; [done|by left].
  - destruct (IH callsites t) as (s2 & t2 & -> & HI2 & Hsh2 & Hc2 & Hst2 & Hn2 & Hcs2); [done..| |].
    { intros q Hq. apply Hin. by right. }
    exists s2, t2. split; [done|]. do 5 (split; [done|]). intros q c'. rewrite Hcs2. split.
    + intros [Ec Hkp]. split; [done|]. intros m [[= -> ->]|Hm]%elem_of_cons; [congruence|by apply Hkp].
    + intros [Ec Hkp]. split; [done|]. intros m Hm. apply Hkp. by right.
Qed.

(** ** GetCallstackAllocations and the destructor *)

(** The callstacks of the last dump that nothing referred to are still there, once each. *)
Definition dead_ok (t : HeapTracker) : Prop :=
  NoDup (dead_callstack_allocations_ t).*1 /\ forall k, k ∈ (dead_callstack_allocations_ t).*1 -> k ∈ dom (callstack_allocations_ t).

Lemma omap_keys (f : NodePtr -> CallstackAllocations -> option Z) (l : list (NodePtr * CallstackAllocations)) :
  (omap (fun '(k, c) => match f k c with Some n => Some (k, n) | None => None end) l).*1 `sublist_of` l.*1.
Proof.
  induction l as [|[k c] l IH]; [constructor|]. cbn. destruct (f k c); cbn; [by apply sublist_skip|by apply sublist_cons].
Qed.
Lemma dead_of_sublist mode (l : list (NodePtr * CallstackAllocations)) :
  (omap (fun '(node, alloc) => if allocs alloc =? 0 then Some (node, if mode : bool then 0 else allocation_count alloc) else None) l).*1 `sublist_of` l.*1.
Proof.
  etrans; [|apply (omap_keys (fun _ c => if allocs c =? 0 then Some (if mode then 0 else allocation_count c) else None))].
  replace (omap _ l) with (omap (fun '(k, c) => match (if allocs c =? 0 then Some (if mode then 0 else allocation_count c) else None) with Some n => Some (k, n) | None => None end) l); [done|].
  apply list_omap_ext. apply Forall_Forall2_diag, Forall_forall. intros [k c] _. by destruct (allocs c =? 0).
Qed.

Lemma GetCallstackAllocations_ok F other L callsites t :
  others_ok other -> other [] + Z.of_nat (size (dom (callstack_allocations_ t))) < 2 ^ 64 -> shares other callsites (dom (callstack_allocations_ t)) ->
  distinct L -> tracker_inv L t -> cache_ok F (frame_cache_ t) -> dead_ok t ->
  exists reported callsites' t', GetCallstackAllocations callsites t = Ok (reported, callsites', t') /\ tracker_inv L t' /\ shares other callsites' (dom (callstack_allocations_ t')) /\
    cache_ok F (frame_cache_ t') /\ dead_ok t' /\ dump_at_max_mode_ t' = dump_at_max_mode_ t /\ next_callstack_id_ callsites' = next_callstack_id_ callsites /\
    (size (dom (callstack_allocations_ t')) <= size (dom (callstack_allocations_ t)))%nat.
Proof.
  intros Hot Hsz Hsh Hd [HI Hw Hu] Hc [Hnd Hin]. unfold GetCallstackAllocations.
  destruct (drop_dead_ok F other L _ (dead_callstack_allocations_ t) callsites t Hot Hsz Hsh Hd HI Hc Hnd Hin) as (s1 & t1 & -> & HI1 & Hsh1 & Hc1 & Hst & Hn1 & Hcs). cbn [obind].
  injection Hst as Ea Ep Ec Em _. set (dead := omap _ _).
  assert (Hsub : dead.*1 `sublist_of` (map_to_list (callstack_allocations_ t1)).*1) by apply dead_of_sublist.
  assert (E : callstack_allocations_ (set_dead dead t1) = callstack_allocations_ t1 /\ dead_callstack_allocations_ (set_dead dead t1) = dead /\ frame_cache_ (set_dead dead t1) = frame_cache_ t1 /\
    committed_sequence_number_ (set_dead dead t1) = committed_sequence_number_ t /\ pending_operations_ (set_dead dead t1) = pending_operations_ t /\ dump_at_max_mode_ (set_dead dead t1) = dump_at_max_mode_ t).
  { rewrite <- Ec, <- Ep, <- Em. by destruct t1. }
  destruct E as (E1 & E2 & E3 & E4 & E5 & E6). eexists _, s1, (set_dead dead t1). split; [done|]. rewrite E1, E3, E6. split; [|do 2 (split; [done|])].
  - split; rewrite ?E4, ?E5; [|done|done]. destruct HI1 as [He Hdom [H1 H2] Hcnt]. split; [| |split|]; by destruct t1.
  - split; [|split; [done|split; [done|]]].
    + split; rewrite ?E2, ?E1; [exact (sublist_NoDup _ _ (NoDup_fst_map_to_list (callstack_allocations_ t1)) Hsub)|]. intros k Hk. apply elem_of_dom.
      assert (Hk' : k ∈ (map_to_list (callstack_allocations_ t1)).*1) by (eapply elem_of_submseteq; [exact Hk|by apply sublist_submseteq]).
      apply list_elem_of_fmap in Hk' as ([k' c] & -> & Hin'). exists c. by apply elem_of_map_to_list.
    + apply subseteq_size. intros k [c Ek]%elem_of_dom. apply Hcs in Ek as [Ek _]. by eapply elem_of_dom_2.
Qed.

Lemma release_ok other l callsites : others_ok other -> other [] + zlen l < 2 ^ 64 -> NoDup l -> shares other callsites (list_to_set l) ->
  exists callsites', release l callsites = Ok callsites' /\ shares other callsites' ∅ /\ next_callstack_id_ callsites' = next_callstack_id_ callsites.
Proof.
  intros Hot. revert callsites. induction l as [|k l IH]; intros s Hsz Hnd Hsh; cbn [release]; [by exists s|].
  apply NoDup_cons in Hnd as [Hk Hnd]. rewrite zlen_cons in Hsz. pose proof (zlen_nonneg l). cbn [list_to_set] in Hsh.
  assert (Hk' : k ∉ (list_to_set l : gset NodePtr)) by (by rewrite elem_of_list_to_set).
  destruct (DecrementNode_ok k s (all_refs other ({[k]} ∪ list_to_set l)) (all_refs other (list_to_set l))) as (s1 & -> & Hok1 & Ht1 & _ & Hn1).
  - apply counting_all; [done|]. rewrite size_list_to_set by done. unfold zlen in *. lia.
  - intros q. unfold all_refs. rewrite refs_in_insert by done. lia.
  - apply Hsh.
  - apply Hsh.
  - cbn [obind]. destruct (IH s1) as (s2 & -> & Hsh2 & Hn2); [lia|done|by split|]. exists s2. split; [done|]. split; [done|congruence].
Qed.
Lemma HeapTracker_destroy_ok other callsites t :
  others_ok other -> other [] + Z.of_nat (size (dom (callstack_allocations_ t))) < 2 ^ 64 -> shares other callsites (dom (callstack_allocations_ t)) ->
  exists callsites', HeapTracker_destroy callsites t = Ok callsites' /\ shares other callsites' ∅ /\ next_callstack_id_ callsites' = next_callstack_id_ callsites.
Proof.
  intros Hot Hsz Hsh. apply (release_ok other); [done| |apply NoDup_fst_map_to_list|].
  - unfold zlen. rewrite length_fmap, length_map_to_list, <- size_dom. done.
  - replace (list_to_set _) with (dom (callstack_allocations_ t)); [done|]. apply set_eq. intros k. rewrite elem_of_dom, elem_of_list_to_set, list_elem_of_fmap. split.
    + intros [c E]. exists (k, c). split; [done|]. by apply elem_of_map_to_list.
    + intros ([k' c] & -> & E). exists c. by apply elem_of_map_to_list.
Qed.
