(* ===== verification/HeapTrackerSession.v ===== *)
(** * The heaps that share a trie

    Records of any number of heaps, dumps, cleared caches and processes that go away, in any
    order.  When the records of a heap have all arrived, its tracker is what replaying them
    in the order of their sequence numbers gives; and the trie has one node for each
    callstack that a tracker holds or passes through, with the right reference count. *)

From S2P Require Import Prelude MapSums CallstackTrie HeapTracker HeapTrackerSums HeapTrackerOrder HeapTrackerRecord HeapTrackerDump.

(** ** Sessions *)

(** What is called on the trackers; [heap] is a heap of a process. *)
Inductive call :=
| Malloc_call (heap : Z) (callstack : list FrameData) (build_ids : list (list Z)) (address sample_size alloc_size seq ts : Z)
| Free_call (heap address seq ts : Z)
| Dump_call (heap : Z)
| ClearFrameCache_call (heap : Z)
| Destroy_call (heap : Z).
Record Heaps := mkHeaps { callsites : Trie; heap_infos : gmap Z HeapTracker }.
Definition Heaps_new : Heaps := mkHeaps GlobalCallstackTrie_new ∅.

(** ProcessState::GetHeapTracker: the first record of a heap makes its tracker. *)
Definition GetHeapTracker (mode : bool) (heap : Z) (w : Heaps) : HeapTracker := default (HeapTracker_new mode) (heap_infos w !! heap).

Definition exec_call (mode : bool) (c : call) (w : Heaps) : outcome Heaps :=
  match c with
  | Malloc_call heap callstack build_ids address ss asz seq ts =>
      let! (s, t) := RecordMalloc callstack build_ids address ss asz seq ts (callsites w) (GetHeapTracker mode heap w) in
      Ok (mkHeaps s (<[heap := t]> (heap_infos w)))
  | Free_call heap address seq ts =>
      let! t := RecordFree address seq ts (GetHeapTracker mode heap w) in
      Ok (mkHeaps (callsites w) (<[heap := t]> (heap_infos w)))
  | Dump_call heap =>
      let! (_, s, t) := GetCallstackAllocations (callsites w) (GetHeapTracker mode heap w) in
      Ok (mkHeaps s (<[heap := t]> (heap_infos w)))
  | ClearFrameCache_call heap => Ok (mkHeaps (callsites w) (<[heap := ClearFrameCache (GetHeapTracker mode heap w)]> (heap_infos w)))
  | Destroy_call heap =>
      let! s := HeapTracker_destroy (callsites w) (GetHeapTracker mode heap w) in
      Ok (mkHeaps s (delete heap (heap_infos w)))
  end.
Fixpoint exec_calls (mode : bool) (l : list call) (w : Heaps) : outcome Heaps :=
  match l with
  | [] => Ok w
  | c :: l => let! w := exec_call mode c w in exec_calls mode l w
  end.

(** The records of [heap] among the calls, since its tracker was made. *)
Definition note (heap : Z) (L : list Op) (c : call) : list Op :=
  match c with
  | Malloc_call h callstack build_ids address ss asz seq ts => if h =? heap then L ++ [mkOp seq address ts (Some (ss, asz, stack_of callstack build_ids))] else L
  | Free_call h address seq ts => if h =? heap then L ++ [mkOp seq address ts None] else L
  | Destroy_call h => if h =? heap then [] else L
  | _ => L
  end.
Definition records (heap : Z) (l : list call) : list Op := fold_left (note heap) l [].
Definition frames_of (c : call) : Z := match c with Malloc_call _ callstack _ _ _ _ _ _ => zlen callstack | _ => 0 end.
Definition total_frames (l : list call) : Z := foldr (fun c n => frames_of c + n) 0 l.

(** The rules: sequence numbers of a heap are 1, 2, ..., each used once; a program counter
    belongs to one frame; a frame has a build id. *)
Definition rule (F : Z -> Z -> Frame) (pre : list call) (c : call) : Prop :=
  match c with
  | Malloc_call h callstack build_ids _ _ _ _ _ => zlen callstack = zlen build_ids /\ by_pc (F h) (zip callstack build_ids) /\ distinct (records h (pre ++ [c]))
  | Free_call h _ _ _ => distinct (records h (pre ++ [c]))
  | _ => True
  end.
Fixpoint rules_from (F : Z -> Z -> Frame) (pre l : list call) : Prop :=
  match l with
  | [] => True
  | c :: l => rule F pre c /\ rules_from F (pre ++ [c]) l
  end.
Definition rules (F : Z -> Z -> Frame) (l : list call) : Prop := rules_from F [] l.
Definition bounded (l : list call) : Prop := 1 + total_frames l < 2 ^ 64 /\ zlen l < 2 ^ 64 - 1.

(** ** The reference: replaying the records in order *)

Definition replay_op (m : gmap Z Allocation) (o : Op) : gmap Z Allocation :=
  match op_malloc o with
  | Some (ss, asz, stack) => <[op_address o := mkAllocation ss asz (op_seq o) stack]> m
  | None => delete (op_address o) m
  end.
Definition replay (ops : list Op) : gmap Z Allocation := fold_left replay_op ops ∅.
Definition live_size (stack : NodePtr) (m : gmap Z Allocation) : Z := msum (fun _ => at_node stack sample_size) m.

(** ** The invariant *)

Definition total_refs (w : Heaps) (p : NodePtr) : Z := msum (fun _ t => refs t p) (heap_infos w).
Definition other_refs (heap : Z) (w : Heaps) (p : NodePtr) : Z := msum (fun _ t => refs t p) (delete heap (heap_infos w)).

Record tracker_ok (F : Z -> Frame) (mode : bool) (L : list Op) (t : HeapTracker) : Prop := {
  tk_inv : tracker_inv L t;
  tk_distinct : distinct L;
  tk_dead : dead_ok t;
  tk_cache : cache_ok F (frame_cache_ t);
  tk_mode : dump_at_max_mode_ t = mode
}.
Record world_inv (F : Z -> Z -> Frame) (mode : bool) (calls : list call) (w : Heaps) : Prop := {
  wi_shares : shares (total_refs w) (callsites w) ∅;
  wi_size : total_refs w [] <= zlen calls;
  wi_next : next_callstack_id_ (callsites w) <= 1 + total_frames calls;
  wi_trackers : forall h, tracker_ok (F h) mode (records h calls) (GetHeapTracker mode h w)
}.

Lemma records_snoc h l c : records h (l ++ [c]) = note h (records h l) c.
Proof. unfold records. by rewrite fold_left_app. Qed.
Lemma total_frames_snoc l c : total_frames (l ++ [c]) = total_frames l + frames_of c.
Proof. unfold total_frames. induction l as [|c' l IH]; cbn; [lia|]. rewrite IH. lia. Qed.
Lemma total_frames_nonneg l : 0 <= total_frames l.
Proof. unfold total_frames. induction l as [|[] l IH]; cbn; try lia. pose proof (zlen_nonneg callstack). lia. Qed.

Lemma tracker_ok_new F mode : tracker_ok F mode [] (HeapTracker_new mode).
Proof.
  split; [|split; [constructor|constructor]|split; [constructor|intros k Hk; by apply not_elem_of_nil in Hk]|by intros p f|done].
  split; cbn.
  - split; cbn; [|done| |done].
    + intros A. rewrite lookup_empty. intros o Ho. by apply not_elem_of_nil in Ho.
    + split; cbn; [done|]. intros _. done.
  - split; [constructor|]. intros s po. split; [intros H; by apply not_elem_of_nil in H|]. intros (o & Ho & _). by apply not_elem_of_nil in Ho.
  - split; [split; [lia|intros s Hs; lia]|]. by intros H%not_elem_of_nil.
Qed.

Lemma refs_in_empty p : refs_in ∅ p = 0.
Proof. unfold refs_in. by rewrite filter_empty_L by apply _. Qed.
Lemma refs_new mode p : refs (HeapTracker_new mode) p = 0.
Proof. unfold refs. cbn. rewrite dom_empty_L. apply refs_in_empty. Qed.
Lemma total_split mode h w p : total_refs w p = other_refs h w p + refs (GetHeapTracker mode h w) p.
Proof.
  unfold total_refs, other_refs, GetHeapTracker. destruct (heap_infos w !! h) as [t|] eqn:E; cbn [from_option id].
  - rewrite (msum_take _ _ h t) by done. lia.
  - rewrite delete_id by done. rewrite refs_new. lia.
Qed.
Lemma other_refs_ok h w : others_ok (other_refs h w).
Proof.
  split; [intros p; apply msum_nonneg|intros f p; apply msum_le]; intros k t _; unfold refs; [unfold refs_in; lia|apply refs_in_parent].
Qed.
Lemma shares_ext other1 other2 s X Y : (forall p, all_refs other1 X p = all_refs other2 Y p) -> shares other1 s X -> shares other2 s Y.
Proof. intros E [H1 H2]. split; [by eapply trie_ok_ext|by eapply tight_ext]. Qed.
(** From the trie of all heaps to the one that [h] shares with the others, and back. *)
Lemma shares_heap mode h w : shares (total_refs w) (callsites w) ∅ -> shares (other_refs h w) (callsites w) (dom (callstack_allocations_ (GetHeapTracker mode h w))).
Proof.
  apply shares_ext. intros p. unfold all_refs. rewrite (total_split mode h). rewrite refs_in_empty. unfold refs. lia.
Qed.
Lemma total_insert h w s t p : total_refs (mkHeaps s (<[h := t]> (heap_infos w))) p = other_refs h w p + refs t p.
Proof. unfold total_refs, other_refs. cbn. rewrite <- insert_delete_eq, msum_insert_new by apply lookup_delete_eq. lia. Qed.
Lemma shares_world h w s t : shares (other_refs h w) s (dom (callstack_allocations_ t)) -> shares (total_refs (mkHeaps s (<[h := t]> (heap_infos w)))) s ∅.
Proof.
  apply shares_ext. intros p. unfold all_refs. rewrite total_insert. rewrite refs_in_empty. unfold refs. lia.
Qed.
Lemma get_insert mode h h' w s t : GetHeapTracker mode h' (mkHeaps s (<[h := t]> (heap_infos w))) = if decide (h' = h) then t else GetHeapTracker mode h' w.
Proof. unfold GetHeapTracker. cbn. case_decide as Hh; [subst; by rewrite lookup_insert_eq|by rewrite lookup_insert_ne by congruence]. Qed.

Definition heap_of (c : call) : Z :=
  match c with Malloc_call h _ _ _ _ _ _ _ | Free_call h _ _ _ | Dump_call h | ClearFrameCache_call h | Destroy_call h => h end.
Lemma note_other h L c : h <> heap_of c -> note h L c = L.
Proof. intros Hh. destruct c; cbn in *; rewrite ?(proj2 (Z.eqb_neq heap h)) by congruence; done. Qed.

Lemma size_bound mode h l w F : world_inv F mode l w -> other_refs h w [] + Z.of_nat (size (dom (callstack_allocations_ (GetHeapTracker mode h w)))) <= zlen l.
Proof. intros HI. pose proof (wi_size _ _ _ _ HI) as H. rewrite (total_split mode h) in H. unfold refs in H. by rewrite refs_in_root in H. Qed.

(** A call that leaves the tracker of its heap and the trie in order. *)
Lemma world_update F mode l w c s t :
  world_inv F mode l w -> tracker_ok (F (heap_of c)) mode (records (heap_of c) (l ++ [c])) t -> shares (other_refs (heap_of c) w) s (dom (callstack_allocations_ t)) ->
  Z.of_nat (size (dom (callstack_allocations_ t))) <= Z.of_nat (size (dom (callstack_allocations_ (GetHeapTracker mode (heap_of c) w)))) + 1 ->
  next_callstack_id_ s <= next_callstack_id_ (callsites w) + frames_of c ->
  world_inv F mode (l ++ [c]) (mkHeaps s (<[heap_of c := t]> (heap_infos w))).
Proof.
  intros HI Ht Hsh Hsz Hn. split.
  - by apply shares_world.
  - rewrite total_insert. unfold refs. rewrite refs_in_root, zlen_app. change (zlen [c]) with 1. pose proof (size_bound mode (heap_of c) l w F HI). lia.
  - cbn. rewrite total_frames_snoc. pose proof (wi_next _ _ _ _ HI). lia.
  - intros h. rewrite get_insert. case_decide as Hh; [by subst h|]. rewrite records_snoc, note_other by done. by apply HI.
Qed.
Lemma world_destroy F mode l w h s :
  world_inv F mode l w -> shares (other_refs h w) s ∅ -> next_callstack_id_ s = next_callstack_id_ (callsites w) ->
  world_inv F mode (l ++ [Destroy_call h]) (mkHeaps s (delete h (heap_infos w))).
Proof.
  intros HI Hsh Hn. pose proof (size_bound mode h l w F HI). split.
  - exact Hsh.
  - change (total_refs _ []) with (other_refs h w []). rewrite zlen_app. change (zlen [_]) with 1. lia.
  - cbn. rewrite total_frames_snoc, Hn. pose proof (wi_next _ _ _ _ HI). cbn. lia.
  - intros h'. rewrite records_snoc. unfold GetHeapTracker. cbn. destruct (Z.eqb_spec h h') as [<-|Hne].
    + rewrite lookup_delete_eq. apply tracker_ok_new.
    + rewrite lookup_delete_ne by done. by apply HI.
Qed.

Lemma exec_call_ok F mode l w c : world_inv F mode l w -> rule F l c -> bounded (l ++ [c]) -> exists w', exec_call mode c w = Ok w' /\ world_inv F mode (l ++ [c]) w'.
Proof.
  intros HI Hr [Hfr Hlen]. rewrite total_frames_snoc in Hfr. rewrite zlen_app in Hlen. change (zlen [c]) with 1 in Hlen.
  pose proof (wi_next _ _ _ _ HI) as Hnext. pose proof (size_bound mode (heap_of c) l w F HI) as Hsz. pose proof (other_refs_ok (heap_of c) w) as Hot.
  pose proof (shares_heap mode (heap_of c) w (wi_shares _ _ _ _ HI)) as Hsh. destruct (wi_trackers _ _ _ _ HI (heap_of c)) as [Hinv Hd Hdead Hc Hm].
  destruct c as [h callstack build_ids address ss asz seq ts|h address seq ts|h|h|h]; cbn [exec_call heap_of frames_of rule] in *; set (t := GetHeapTracker mode h w) in *.
  - destruct Hr as (Hl & Hpc & Hd'). rewrite records_snoc in Hd'. cbn [note] in Hd'. rewrite Z.eqb_refl in Hd'.
    destruct (RecordMalloc_ok (F h) (other_refs h w) (records h l) callstack build_ids address ss asz seq ts (callsites w) t Hot) as (s' & t' & -> & HI' & Hsh' & Hc' & Hm' & Hde & Hdom & Hn'); [lia|lia|done..|].
    cbn [obind]. eexists. split; [reflexivity|]. apply (world_update F mode l w (Malloc_call h callstack build_ids address ss asz seq ts)); cbn [heap_of frames_of]; [done| |done| |lia].
    + rewrite records_snoc. cbn [note]. rewrite Z.eqb_refl. split; [done|done| |done|congruence]. destruct Hdead as [Hnd Hin]. split; rewrite Hde; [done|].
      intros k Hk. destruct Hdom as [->| ->]; [by apply Hin|]. apply elem_of_union. right. by apply Hin.
    + fold t. destruct Hdom as [->| ->]; [lia|]. rewrite size_union_alt, size_singleton.
      assert (size (dom (callstack_allocations_ t) ∖ {[stack_of callstack build_ids]}) <= size (dom (callstack_allocations_ t)))%nat by (apply subseteq_size; set_solver). lia.
  - rewrite records_snoc in Hr. cbn [note] in Hr. rewrite Z.eqb_refl in Hr.
    destruct (RecordFree_ok (records h l) t (mkOp seq address ts None) Hr eq_refl Hinv) as (t' & E & HI' & Ho). cbn [op_address op_seq op_ts] in E. rewrite E. cbn [obind]. injection Ho as O1 O2 O3 O4.
    eexists. split; [reflexivity|]. apply (world_update F mode l w (Free_call h address seq ts)); cbn [heap_of frames_of]; [done| |by rewrite O4|rewrite O4; fold t; lia|lia].
    rewrite records_snoc. cbn [note]. rewrite Z.eqb_refl. split; [done|done| |by rewrite O3|congruence]. unfold dead_ok. by rewrite O2, O4.
  - destruct (GetCallstackAllocations_ok (F h) (other_refs h w) (records h l) (callsites w) t Hot) as (r & s' & t' & -> & HI' & Hsh' & Hc' & Hdead' & Hm' & Hn' & Hsz'); [lia|done..|]. cbn [obind].
    eexists. split; [reflexivity|]. apply (world_update F mode l w (Dump_call h)); cbn [heap_of frames_of]; [done| |done|fold t; lia|lia].
    rewrite records_snoc. cbn [note]. split; [done|done|done|done|congruence].
  - eexists. split; [reflexivity|]. assert (E : dom (callstack_allocations_ (ClearFrameCache t)) = dom (callstack_allocations_ t)) by (by destruct t).
    apply (world_update F mode l w (ClearFrameCache_call h)); cbn [heap_of frames_of]; [done| |by rewrite E|rewrite E; fold t; lia|lia].
    rewrite records_snoc. cbn [note]. split; [| done| |intros p f; destruct t; cbn; by rewrite lookup_empty|by destruct t].
    + destruct Hinv as [[He Hdom [H1 H2] Hcnt] [W1 W2] Hu]. destruct t. by split; [split; [| |split|]|split|].
    + destruct Hdead. by split; destruct t.
  - destruct (HeapTracker_destroy_ok (other_refs h w) (callsites w) t Hot) as (s' & -> & Hsh' & Hn'); [lia|done|]. cbn [obind].
    eexists. split; [reflexivity|]. by apply world_destroy.
Qed.

Lemma world_inv_new F mode : world_inv F mode [] Heaps_new.
Proof.
  split; [| |cbn; lia|intros h; apply tracker_ok_new].
  - assert (E : forall p, all_refs (total_refs Heaps_new) ∅ p = 0) by (intros p; unfold all_refs; by rewrite refs_in_empty).
    split; set (cnt := all_refs (total_refs Heaps_new) ∅) in *; clearbody cnt; unfold Heaps_new, GlobalCallstackTrie_new, root_; [split; cbn [callsites nodes next_callstack_id_]|cbn [callsites]].
    + by rewrite lookup_singleton_eq.
    + intros p n [<- <-]%lookup_singleton_Some. by rewrite E.
    + intros p. rewrite E. lia.
    + by intros p q n m [<- _]%lookup_singleton_Some [<- _]%lookup_singleton_Some.
    + intros p n [<- <-]%lookup_singleton_Some. cbn. lia.
    + intros p; cbn [nodes]; intros [n [<- <-]%lookup_singleton_Some]. right. apply suffix_nil.
  - done.
Qed.
Lemma exec_calls_app mode l1 l2 w : exec_calls mode (l1 ++ l2) w = let! w := exec_calls mode l1 w in exec_calls mode l2 w.
Proof. revert w. induction l1 as [|c l1 IH]; intros w; [done|]. cbn. destruct (exec_call mode c w); cbn; [apply IH|done]. Qed.
Lemma bounded_prefix l c : bounded (l ++ [c]) -> bounded l.
Proof.
  intros [H1 H2]. rewrite total_frames_snoc in H1. rewrite zlen_app in H2. change (zlen [c]) with 1 in H2. split; [|lia].
  assert (0 <= frames_of c); [|lia]. destruct c; cbn; try lia. apply zlen_nonneg.
Qed.
Lemma rules_app F pre l1 l2 : rules_from F pre (l1 ++ l2) <-> rules_from F pre l1 /\ rules_from F (pre ++ l1) l2.
Proof.
  revert pre. induction l1 as [|c l1 IH]; intros pre; cbn; [rewrite app_nil_r; naive_solver|]. rewrite IH, <- app_assoc. cbn. naive_solver.
Qed.
Lemma exec_calls_ok F mode l : rules F l -> bounded l -> exists w, exec_calls mode l Heaps_new = Ok w /\ world_inv F mode l w.
Proof.
  induction l as [|c l IH] using rev_ind; intros Hr Hb; [exists Heaps_new; split; [done|apply world_inv_new]|].
  apply rules_app in Hr as [Hr [Hc _]]. destruct IH as (w & E & HI); [done|by eapply bounded_prefix|].
  destruct (exec_call_ok F mode l w c HI Hc Hb) as (w' & E' & HI'). exists w'. split; [|done]. rewrite exec_calls_app, E. cbn. by rewrite E'.
Qed.

(** ** The theorems *)

Definition in_order (ops : list Op) : Prop := op_seq <$> ops = seqZ 1 (zlen ops).
Lemma in_order_snoc l o : in_order (l ++ [o]) -> in_order l /\ op_seq o = zlen l + 1.
Proof.
  unfold in_order. rewrite fmap_app, zlen_app. change (zlen [o]) with 1. rewrite seqZ_app by (try apply zlen_nonneg; lia).
  intros [H1 H2]%app_inj_1; [|rewrite length_fmap, length_seqZ; unfold zlen; lia]. split; [done|]. cbn in H2. injection H2. lia.
Qed.
Lemma in_order_range ops s : in_order ops -> s ∈ op_seq <$> ops <-> 1 <= s <= zlen ops.
Proof. intros ->. rewrite elem_of_seqZ. lia. Qed.
Lemma in_order_le ops o : in_order ops -> o ∈ ops -> op_seq o <= zlen ops.
Proof. intros Hi Ho. apply (in_order_range ops (op_seq o) Hi), list_elem_of_fmap. by exists o. Qed.

Lemma entry_replay ops n A : in_order ops -> zlen ops <= n -> entry ops n A (replay ops !! A).
Proof.
  induction ops as [|o l IH] using rev_ind; intros Hi Hn.
  { unfold replay. cbn. rewrite lookup_empty. intros o Ho. by apply not_elem_of_nil in Ho. }
  apply in_order_snoc in Hi as [Hi Hs]. rewrite zlen_app in Hn. change (zlen [o]) with 1 in Hn. specialize (IH Hi ltac:(lia)).
  unfold replay in *. rewrite fold_left_app. cbn [fold_left]. set (m := fold_left replay_op l ∅) in *. unfold replay_op.
  destruct (decide (op_address o = A)) as [HA|HA].
  - destruct (op_malloc o) as [[[ss asz] stack]|] eqn:E; rewrite HA.
    + rewrite lookup_insert_eq. exists o. split; [apply elem_of_app; right; by left|]. split; [done|]. split; [split; [done|by rewrite E]|].
      intros o' [H'| ->%list_elem_of_singleton]%elem_of_app _ _; [|done]. apply in_order_le in H'; [|done]. cbn. lia.
    + rewrite lookup_delete_eq. intros o' [H'| ->%list_elem_of_singleton]%elem_of_app _ Hm; [|done]. exists o. split; [apply elem_of_app; right; by left|].
      apply in_order_le in H'; [|done]. split; [done|lia].
  - destruct (op_malloc o) as [[[ss asz] stack]|]; [rewrite lookup_insert_ne by done|rewrite lookup_delete_ne by done]; by apply entry_app_other.
Qed.
Lemma entry_perm L L' n A x : L ≡ₚ L' -> entry L n A x -> entry L' n A x.
Proof. intros Hp. unfold entry. destruct x; setoid_rewrite Hp; done. Qed.
Lemma entry_unique L n A x y : distinct L -> entry L n A x -> entry L n A y -> x = y.
Proof.
  intros Hd. assert (Hmix : forall a, entry L n A (Some a) -> entry L n A None -> False).
  { intros a (o & Ho & HA & [Hs Hm] & Hmax) Hn. destruct (Hn o Ho HA) as (o' & Ho' & HA' & Hlt); [by rewrite Hm|].
    assert (op_seq o' <= sequence_number a) by (apply Hmax; [done|done|right; lia]). lia. }
  destruct x as [a|], y as [b|]; intros Hx Hy; [|by destruct (Hmix a)|by destruct (Hmix b)|done].
  destruct Hx as (o & Ho & HA & [Hs Hm] & Hmax), Hy as (o' & Ho' & HA' & [Hs' Hm'] & Hmax').
  assert (o' = o) as ->. { apply (distinct_eq L); [done|done|done|]. assert (op_seq o' <= sequence_number a) by (apply Hmax; [done|done|left; by rewrite Hm']).
    assert (op_seq o <= sequence_number b) by (apply Hmax'; [done|done|left; by rewrite Hm]). lia. }
  rewrite Hm in Hm'. injection Hm' as E1 E2 E3. destruct a, b. cbn in *. f_equal. congruence.
Qed.

(** All records have arrived: the tracker has committed them all. *)
Lemma all_arrived F mode L t ops : tracker_ok F mode L t -> in_order ops -> L ≡ₚ ops ->
  committed_sequence_number_ t = zlen ops /\ pending_operations_ t = [] /\ allocations_ t = replay ops.
Proof.
  intros [[HI Hw [[Hn Ha] Hnext]] Hd _ _ _] Hi Hp. set (n := committed_sequence_number_ t) in *.
  assert (Hs : forall s, s ∈ op_seq <$> L <-> 1 <= s <= zlen ops) by (intros s; rewrite Hp; by apply in_order_range).
  assert (En : n = zlen ops). { pose proof (zlen_nonneg ops). rewrite Hs in Hnext. destruct (Z.eq_dec n 0); [lia|]. specialize (Ha n ltac:(lia)). rewrite Hs in Ha. lia. }
  split; [done|]. split.
  - destruct (pending_operations_ t) as [|[s po] p]; [done|]. destruct (proj1 (wa_ops _ _ _ Hw s po)) as (o & Ho & Hso & _ & Hlt); [by left|].
    assert (s ∈ op_seq <$> L) as Hin%Hs by (apply list_elem_of_fmap; by exists o). lia.
  - apply map_eq. intros A. apply (entry_unique L n A _ _ Hd); [apply HI|]. eapply entry_perm; [by symmetry|]. apply entry_replay; [done|lia].
Qed.
Lemma live_all v n m : (forall A a, m !! A = Some a -> sequence_number a <= n) -> live v n m = msum (fun _ => v) m.
Proof. intros H. apply msum_ext. intros A a E. apply H in E. by replace (_ <=? n) with true by lia. Qed.
Lemma replay_le ops A a : in_order ops -> replay ops !! A = Some a -> sequence_number a <= zlen ops.
Proof.
  intros Hi E. pose proof (entry_replay ops (zlen ops) A Hi ltac:(lia)) as H. rewrite E in H. destruct H as (o & Ho & _ & [Hs _] & _). rewrite <- Hs. by apply in_order_le.
Qed.

(** *** GetSizeForTesting *)

Lemma CreateCallsite_data_eq stack build_ids t : zlen stack = zlen build_ids -> CreateCallsite_data stack build_ids t = Ok (CreateCallsite (stack_of stack build_ids) t).
Proof.
  intros Hl. unfold CreateCallsite_data, CreateCallsite, stack_of. rewrite Hl, Z.eqb_refl. cbn [perfetto_check obind]. f_equal.
  replace (rev (frame_at <$> zip stack build_ids)) with (frame_at <$> rev (zip stack build_ids)) by apply map_rev.
  generalize (rev (zip stack build_ids)), (root_, t). intros l. induction l as [|[loc b] l IH]; intros [node t']; [done|]. apply IH.
Qed.
Lemma zlen_stack_of stack build_ids : zlen stack = zlen build_ids -> zlen (stack_of stack build_ids) = zlen stack.
Proof. unfold stack_of, zlen. rewrite length_fmap, length_zip_with. lia. Qed.
(** It makes the callsite and lets it go again. *)
Lemma ForTesting_ok stack build_ids read other s t :
  zlen stack = zlen build_ids -> others_ok other -> other [] + 1 < 2 ^ 64 -> next_callstack_id_ s + zlen stack < 2 ^ 64 -> shares other s ∅ ->
  exists s', ForTesting stack build_ids read s t = Ok (match callstack_allocations_ t !! stack_of stack build_ids with None => 0 | Some c => read c end, s').
Proof.
  intros Hl Hot Hsz Hn [Hok Ht]. unfold ForTesting. rewrite CreateCallsite_data_eq by done. cbn [obind].
  assert (Hc : counting (all_refs other ∅)) by (apply counting_all; [done|rewrite size_empty; lia]).
  destruct (CreateCallsite_ok (stack_of stack build_ids) s _ Hc Hok) as (s1 & -> & Hok1 & Hd1 & _ & _); [by rewrite zlen_stack_of|].
  destruct (IncrementNode_ok (stack_of stack build_ids) s1 _ Hc) as (s2 & E2 & Hok2 & Ht2 & _); [unfold all_refs; rewrite refs_in_empty; lia|done|intros q Hq; apply Hd1; by right| |].
  { intros p [Hp|Hp]%Hd1; [|by right]. destruct (Ht p Hp) as [| ->%suffix_nil_inv]; [by left|right; apply suffix_nil]. }
  rewrite E2. cbn [obind]. destruct (DecrementNode_ok (stack_of stack build_ids) s2 _ (all_refs other ∅) Hc ltac:(done) Hok2 Ht2) as (s3 & -> & _). by exists s3.
Qed.

(** A session: the records of heap 1 arrive backwards, among those of heap 2 and dumps. *)
Definition test_frame (p : Z) : FrameData := mkFrameData p 0 [p] None.
Definition test_F (_ p : Z) : Frame := InternCodeLocation (test_frame p) [0].
Definition test_stack1 : list FrameData := [test_frame 1; test_frame 2].
Definition test_stack2 : list FrameData := [test_frame 1; test_frame 3].
Definition test_ids : list (list Z) := [[0]; [0]].
Definition test_calls : list call :=
  [Malloc_call 1 test_stack1 test_ids 7 10 10 3 300; Dump_call 1; Malloc_call 2 test_stack1 test_ids 9 1 1 1 100; Free_call 1 8 2 0;
   ClearFrameCache_call 1; Malloc_call 1 test_stack2 test_ids 8 5 5 1 100; Dump_call 1].
Definition test_ops : list Op :=
  [mkOp 1 8 100 (Some (5, 5, stack_of test_stack2 test_ids)); mkOp 2 8 0 None; mkOp 3 7 300 (Some (10, 10, stack_of test_stack1 test_ids))].
#[export] Instance distinct_dec L : Decision (distinct L).
Proof. unfold distinct. apply _. Defined.
#[export] Instance by_pc_dec F l : Decision (by_pc F l).
Proof. unfold by_pc. apply _. Defined.
#[export] Instance rule_dec F pre c : Decision (rule F pre c).
Proof. destruct c; cbn [rule]; apply _. Defined.
#[export] Instance rules_from_dec F pre l : Decision (rules_from F pre l).
Proof. revert pre. induction l as [|c l IH]; intros pre; cbn [rules_from]; apply _. Defined.
Lemma test_rules : rules test_F test_calls.
Proof. unfold rules. apply (bool_decide_unpack _). vm_compute. exact I. Qed.
Lemma test_bounded : bounded test_calls.
Proof. by split. Qed.

(** C22. The order in which the records of a heap arrive makes no difference, nor do dumps,
    cleared caches and the records of other heaps in between: once the records with the
    sequence numbers 1, ..., n have all arrived, each once, allocations_ is what replaying
    them in that order gives, everything is committed and nothing is pending, each
    callstack counts the live allocations that refer to it, and GetSizeForTesting of a
    callstack is the number of live bytes allocated there. No call fails a check or follows
    a dangling pointer. *)
Theorem heap_tracker_replays F mode calls heap ops :
  rules F calls -> bounded calls -> in_order ops -> records heap calls ≡ₚ ops ->
  exists w, exec_calls mode calls Heaps_new = Ok w /\
    let t := GetHeapTracker mode heap w in
    allocations_ t = replay ops /\ committed_sequence_number_ t = zlen ops /\ pending_operations_ t = [] /\
    (forall stack c, callstack_allocations_ t !! stack = Some c -> allocs c = uses (replay ops) stack) /\
    (mode = false -> forall stack build_ids, zlen stack = zlen build_ids -> 1 + total_frames calls + zlen stack < 2 ^ 64 ->
      exists s, GetSizeForTesting stack build_ids (callsites w) t = Ok (u64 (live_size (stack_of stack build_ids) (replay ops)), s)).
Proof.
  intros Hr Hb Hi Hp. destruct (exec_calls_ok F mode calls Hr Hb) as (w & E & HI). exists w. split; [done|]. intros t.
  pose proof (wi_trackers _ _ _ _ HI heap) as Ht. fold t in Ht. destruct (all_arrived _ _ _ _ _ Ht Hi Hp) as (E1 & E2 & E3). destruct Ht as [[Hcore _ _] Hd _ _ Hmode].
  split; [done|]. split; [done|]. split; [done|]. split; [intros k c Ek; rewrite <- E3; by eapply core_allocs|].
  intros -> stack build_ids Hl Hn. destruct (ForTesting_ok stack build_ids (fun c => u64 (allocated c - freed c)) (total_refs w) (callsites w) t Hl) as (s & Es).
  - split; [intros p; apply msum_nonneg|intros f p; apply msum_le]; intros k t' _; unfold refs; [unfold refs_in; lia|apply refs_in_parent].
  - pose proof (wi_size _ _ _ _ HI). destruct Hb. lia.
  - pose proof (wi_next _ _ _ _ HI). lia.
  - apply HI.
  - exists s. unfold GetSizeForTesting. rewrite Es. do 2 f_equal. unfold live_size.
    rewrite <- (live_all _ (zlen ops)) by (intros A a; by apply replay_le). rewrite <- E3, <- E1.
    destruct (callstack_allocations_ t !! stack_of stack build_ids) as [c|] eqn:Ec.
    + destruct (su_csas _ _ _ (co_sums _ _ _ Hcore) _ _ Ec) as [Hnet _]. rewrite Hmode in Hnet. exact Hnet.
    + unfold live. rewrite msum_zero; [done|]. intros A a Ea. case_match; [|done]. unfold at_node. rewrite decide_False; [done|]. intros Hk.
      destruct (co_dom _ _ _ Hcore A a Ea) as [c Hc]. congruence.
Qed.

Lemma heap_tracker_replays_witness : exists w, exec_calls false test_calls Heaps_new = Ok w /\
  exists s, GetSizeForTesting test_stack1 test_ids (callsites w) (GetHeapTracker false 1 w) = Ok (10, s).
Proof.
  destruct (heap_tracker_replays test_F false test_calls 1 test_ops test_rules test_bounded) as (w & E & _ & _ & _ & _ & H).
  - reflexivity.
  - symmetry. apply (Permutation_rev test_ops).
  - exists w. split; [exact E|]. destruct (H eq_refl test_stack1 test_ids eq_refl eq_refl) as [s Hs]. exists s. rewrite Hs. vm_compute. reflexivity.
Defined.

(** C24. The trie that the trackers share has exactly the nodes it needs: however records,
    dumps and processes that go away follow on each other, a node's reference count is the
    number of callstacks, over all trackers, that are the node or go through it; there is
    no other node without references but the root; all frames of a callstack that a tracker
    holds are there; and ids are unique. *)
Theorem trie_counts_callstacks F mode calls :
  rules F calls -> bounded calls ->
  exists w, exec_calls mode calls Heaps_new = Ok w /\
    (forall p n, nodes (callsites w) !! p = Some n -> ref_count_ n = total_refs w p /\ (p = root_ \/ 0 < ref_count_ n)) /\
    (forall h stack p, is_Some (callstack_allocations_ (GetHeapTracker mode h w) !! stack) -> p `suffix_of` stack -> is_Some (nodes (callsites w) !! p)) /\
    (forall p q n m, nodes (callsites w) !! p = Some n -> nodes (callsites w) !! q = Some m -> id_ n = id_ m -> p = q).
Proof.
  intros Hr Hb. destruct (exec_calls_ok F mode calls Hr Hb) as (w & E & HI). exists w. split; [done|]. destruct (wi_shares _ _ _ _ HI) as [Hok Ht].
  assert (Hall : forall p, all_refs (total_refs w) ∅ p = total_refs w p) by (intros p; unfold all_refs; rewrite refs_in_empty; lia).
  split; [|split; [|apply Hok]].
  - intros p n Hp. rewrite (to_counts _ _ Hok p n Hp), Hall. split; [done|]. destruct (Ht p) as [|Hs]; [by exists n|right; by rewrite <- Hall|left; by apply suffix_nil_inv].
  - intros h stack p Hs Hp. apply (to_live _ _ Hok). rewrite Hall, (total_split mode h). assert (0 <= other_refs h w p) by apply other_refs_ok.
    pose proof (refs_in_node (dom (callstack_allocations_ (GetHeapTracker mode h w))) stack p ltac:(by apply elem_of_dom) Hp). unfold refs. lia.
Qed.
Lemma trie_counts_callstacks_witness : rules test_F test_calls /\ bounded test_calls /\ exists w, exec_calls false test_calls Heaps_new = Ok w /\
  forall p n, nodes (callsites w) !! p = Some n -> ref_count_ n = total_refs w p.
Proof.
  split; [exact test_rules|]. split; [exact test_bounded|].
  destruct (trie_counts_callstacks test_F false test_calls test_rules test_bounded) as (w & E & H & _). exists w. split; [exact E|]. intros p n Hp. apply (H p n Hp).
Defined.
