(* ===== verification/HeapTrackerMax.v ===== *)
(** * The snapshot at the maximum, and what breaks it

    With dump_at_max the heap profiler reports the callstacks as they were when the heap was
    at its largest.  The theorem: it does, for records that arrive in order and never
    allocate at an address that is in use.  Then what happens otherwise. *)

From S2P Require Import Prelude MapSums CallstackTrie HeapTracker HeapTrackerSums HeapTrackerOrder HeapTrackerRecord HeapTrackerDump HeapTrackerSession.

(** ** The part of a tracker that the snapshot is about *)

Definition words (c : CallstackAllocations) : Z * Z * (Z * Z) := (max c, cur c, (max_count c, cur_count c)).
Definition view (t : HeapTracker) : gmap NodePtr (Z * Z * (Z * Z)) := words <$> callstack_allocations_ t.
Definition maxima (t : HeapTracker) : Z * Z * Z * Z := (max_sequence_number_ t, current_unfreed_ t, max_unfreed_ t, max_timestamp_ t).
Definition raised (v : Z * Z * (Z * Z)) : Z * Z * (Z * Z) := (v.1.2, v.1.2, (v.2.2, v.2.2)).

Lemma view_csa t k v : view t !! k = Some v <-> exists c, callstack_allocations_ t !! k = Some c /\ v = words c.
Proof. unfold view. rewrite lookup_fmap, fmap_Some. done. Qed.
Lemma view_set_csas m t : view (set_csas m t) = words <$> m.
Proof. by destruct t. Qed.
Lemma view_insert (k : NodePtr) (c : CallstackAllocations) (m : gmap NodePtr CallstackAllocations) : words <$> <[k := c]> m = <[k := words c]> (words <$> m).
Proof. apply fmap_insert. Qed.

Lemma obind_ok {A B} (x : outcome A) (k : A -> outcome B) b : obind x k = Ok b -> exists a, x = Ok a /\ k a = Ok b.
Proof. destruct x as [a|]; [|done]. by exists a. Qed.

Lemma update_csa_view k f t t' : update_csa k f t = Ok t' ->
  exists c, callstack_allocations_ t !! k = Some c /\ view t' = <[k := words (f c)]> (view t) /\ maxima t' = maxima t /\ allocations_ t' = allocations_ t /\ dump_at_max_mode_ t' = dump_at_max_mode_ t /\
    callstack_allocations_ t' = <[k := f c]> (callstack_allocations_ t).
Proof.
  unfold update_csa. destruct (callstack_allocations_ t !! k) as [c|]; [|done]. intros [= <-]. exists c. split; [done|]. rewrite view_set_csas, view_insert. by destruct t.
Qed.
Lemma SetCallstackAllocations_view old new t t' : SetCallstackAllocations old new t = Ok t' -> view t' = view t /\ maxima t' = maxima t.
Proof.
  assert (Hstep : forall delta k t t', update_csa k (fun c => mkCsa (u64 (allocs c + delta)) (value0 c) (value1 c) (value2 c) (value3 c)) t = Ok t' -> view t' = view t /\ maxima t' = maxima t).
  { intros delta k u u' (c & Ec & Hv & Hm & _)%update_csa_view. split; [|done]. rewrite Hv. apply insert_id. apply view_csa. by exists c. }
  unfold SetCallstackAllocations. intros (t1 & E1 & E2)%obind_ok.
  assert (view t1 = view t /\ maxima t1 = maxima t) as [<- <-] by (destruct old; [by eapply Hstep|by injection E1 as <-]). destruct new; [by eapply Hstep|by injection E2 as <-].
Qed.

(** What Add and Subtract do to it. *)
Lemma Add_view ts a t t' : dump_at_max_mode_ t = true -> AddToCallstackAllocations ts a t = Ok t' ->
  exists m x mc xc, view t !! callstack_allocations a = Some (m, x, (mc, xc)) /\
    let v := <[callstack_allocations a := (m, u64 (x + sample_size a), (mc, u64 (xc + 1)))]> (view t) in
    let '(ms, cu, mu, mt) := maxima t in let cu := u64 (cu + sample_size a) in
    if cu <=? mu then view t' = v /\ maxima t' = (ms, cu, mu, mt)
    else maxima t' = (sequence_number a, cu, cu, ts) /\
      view t' = if ms =? u64 (sequence_number a - 1) then alter raised (callstack_allocations a) v else raised <$> v.
Proof.
  intros Hm. unfold AddToCallstackAllocations. rewrite Hm. intros (t1 & (c & Ec & Hv & Hx & _ & _ & Hc1)%update_csa_view & H)%obind_ok.
  assert (Ec0 : callstack_allocations_ t !! callstack_allocations a = Some c) by (by destruct t). exists (max c), (cur c), (max_count c), (cur_count c).
  split; [apply view_csa; by exists c|]. match goal with |- context [<[callstack_allocations a := ?x]> (view t)] => set (v := <[callstack_allocations a := x]> (view t)) end. replace (view (set_current _ t)) with (view t) in Hv by (by destruct t). fold v in Hv.
  destruct (maxima t) as [[[ms cu] mu] mt] eqn:Em. assert (Hx' : maxima t1 = (ms, u64 (cu + sample_size a), mu, mt)).
  { rewrite Hx. destruct t. unfold maxima in *. cbn in *. by injection Em as -> -> -> ->. }
  injection Hx' as X1 X2 X3 X4. rewrite X1, X2, X3 in H. cbn zeta. destruct (_ <=? mu); [injection H as <-; by rewrite Hx, <- Hx; unfold maxima; rewrite X1, X2, X3, X4|].
  apply obind_ok in H as (t2 & E2 & [= <-]). assert (Hset : forall ms mu mt t, view (set_max ms mu mt t) = view t) by (by intros ???[]).
  assert (Hmax : forall u, maxima u = maxima t1 -> maxima (set_max (sequence_number a) (current_unfreed_ u) ts u) = (sequence_number a, u64 (cu + sample_size a), u64 (cu + sample_size a), ts)).
  { intros u Hu. unfold maxima in Hu. injection Hu as _ Hu _ _. rewrite X2 in Hu. rewrite <- Hu. by destruct u. }
  rewrite Hset. destruct (ms =? _).
  - apply update_csa_view in E2 as (c2 & Ec2 & Hv2 & Hx2 & _). split; [by apply Hmax|]. rewrite Hv2, Hv. unfold v. rewrite Hc1, lookup_insert_eq in Ec2. injection Ec2 as <-.
    rewrite alter_insert_eq, insert_insert_eq. done.
  - injection E2 as <-. split; [apply Hmax; by destruct t1|]. assert (Hv1 : view t1 = v) by exact Hv. rewrite view_set_csas, <- Hv1. unfold view. rewrite <- !map_fmap_compose. done.
Qed.
Lemma Subtract_view a t t' : dump_at_max_mode_ t = true -> SubtractFromCallstackAllocations a t = Ok t' ->
  exists m x mc xc, view t !! callstack_allocations a = Some (m, x, (mc, xc)) /\
    view t' = <[callstack_allocations a := (m, u64 (x - sample_size a), (mc, u64 (xc - 1)))]> (view t) /\
    let '(ms, cu, mu, mt) := maxima t in maxima t' = (ms, u64 (cu - sample_size a), mu, mt).
Proof.
  intros Hm. unfold SubtractFromCallstackAllocations. rewrite Hm. intros (c & Ec & Hv & Hx & _)%update_csa_view.
  assert (Ec0 : callstack_allocations_ t !! callstack_allocations a = Some c) by (by destruct t). exists (max c), (cur c), (max_count c), (cur_count c).
  split; [apply view_csa; by exists c|]. split; [rewrite Hv; by destruct t|]. rewrite Hx. by destruct t.
Qed.

(** ** The sizes of the heap over time *)

Definition live_total (m : gmap Z Allocation) : Z := msum (fun _ => sample_size) m.
Definition size_of (o : Op) : Z := match op_malloc o with Some (ss, _, _) => ss | None => 0 end.
(** Sampled sizes that add up to less than 2^64. *)
Definition sizes_ok (ops : list Op) : Prop := Forall (fun o => 0 <= size_of o) ops /\ foldr (fun o n => size_of o + n) 0 ops < 2 ^ 64.
(** No malloc returns an address that is in use. *)
Definition fresh (ops : list Op) : Prop := forall j o, ops !! j = Some o -> op_malloc o <> None -> replay (take j ops) !! op_address o = None.
(** The timestamp of the last of the first [k] operations. *)
Definition ts_at (ops : list Op) (k : nat) : Z := match k with O => 0 | S k => default 0 (op_ts <$> ops !! k) end.

Lemma replay_snoc l o : replay (l ++ [o]) = replay_op (replay l) o.
Proof. unfold replay. by rewrite fold_left_app. Qed.
Lemma foldr_snoc (l : list Op) o : foldr (fun o n => size_of o + n) 0 (l ++ [o]) = foldr (fun o n => size_of o + n) 0 l + size_of o.
Proof. induction l as [|x l IH]; cbn; [lia|]. rewrite IH. lia. Qed.
Lemma sizes_ok_snoc l o : sizes_ok (l ++ [o]) -> sizes_ok l /\ 0 <= size_of o.
Proof. intros [[H1 [H2 _]%Forall_cons]%Forall_app H3]. rewrite foldr_snoc in H3. split; [split; [done|lia]|done]. Qed.
Lemma take_snoc (l : list Op) o j : (j <= length l)%nat -> take j (l ++ [o]) = take j l.
Proof. apply take_app_le. Qed.

Lemma replay_sizes l A a : sizes_ok l -> replay l !! A = Some a -> 0 <= sample_size a.
Proof.
  induction l as [|o l IH] using rev_ind; [done|]. intros [Hl Ho]%sizes_ok_snoc. rewrite replay_snoc. unfold replay_op, size_of in *.
  destruct (op_malloc o) as [[[ss asz] k]|]; [intros [[_ <-]|[_ E]]%lookup_insert_Some|intros [_ E]%lookup_delete_Some]; [done|by apply IH|by apply IH].
Qed.
Lemma replay_total l : sizes_ok l -> live_total (replay l) <= foldr (fun o n => size_of o + n) 0 l.
Proof.
  induction l as [|o l IH] using rev_ind; [done|]. intros Hlo. pose proof Hlo as [Hl Ho]%sizes_ok_snoc. specialize (IH Hl). rewrite replay_snoc, foldr_snoc. unfold replay_op, size_of in *.
  pose proof (replay_sizes l (op_address o)) as Hold. unfold live_total in *.
  destruct (op_malloc o) as [[[ss asz] k]|], (replay l !! op_address o) as [a|] eqn:E.
  - rewrite (msum_insert _ _ _ a) by done. specialize (Hold a Hl eq_refl). cbn. lia.
  - rewrite msum_insert_new by done. cbn. lia.
  - rewrite (msum_delete _ _ _ a) by done. specialize (Hold a Hl eq_refl). lia.
  - rewrite delete_id by done. lia.
Qed.
Lemma live_ranges l k : sizes_ok l -> zlen l < 2 ^ 64 ->
  0 <= live_size k (replay l) <= live_total (replay l) /\ live_total (replay l) < 2 ^ 64 /\ 0 <= uses (replay l) k <= zlen l.
Proof.
  intros Hl Hn. pose proof (replay_total l Hl). split; [|split; [destruct Hl; lia|]].
  - unfold live_size, live_total, at_node. split; [apply msum_nonneg|apply msum_le]; intros A a E; pose proof (replay_sizes l A a Hl E); case_decide; lia.
  - clear. induction l as [|o l IH] using rev_ind; [done|]. rewrite replay_snoc, zlen_app. change (zlen [o]) with 1. unfold replay_op.
    assert (Hn : forall x, 0 <= is_node x k <= 1) by (intros x; unfold is_node; case_decide; lia). assert (Hu : forall m, 0 <= uses m k) by (intros m; apply uses_range).
    destruct (op_malloc o) as [[[ss asz] q]|], (replay l !! op_address o) as [a|] eqn:E; (split; [apply Hu|]).
    + rewrite (uses_replace _ _ a) by done. cbn [callstack_allocations]. pose proof (Hn (Some q)). pose proof (Hn (Some (callstack_allocations a))). lia.
    + rewrite uses_insert_new by done. cbn [callstack_allocations]. pose proof (Hn (Some q)). lia.
    + rewrite (uses_delete _ _ a) by done. pose proof (Hn (Some (callstack_allocations a))). lia.
    + rewrite delete_id by done. lia.
Qed.

(** ** The invariant: the best moment so far is after [k] operations *)

Definition snapshot (best now : gmap Z Allocation) (stack : NodePtr) : Z * Z * (Z * Z) :=
  (live_size stack best, live_size stack now, (uses best stack, uses now stack)).
Record max_at (ops : list Op) (k : nat) (t : HeapTracker) : Prop := {
  mx_k : (k <= length ops)%nat;
  mx_view : forall stack v, view t !! stack = Some v -> v = snapshot (replay (take k ops)) (replay ops) stack;
  mx_dom : forall j A a, replay (take j ops) !! A = Some a -> is_Some (view t !! callstack_allocations a);
  mx_maxima : maxima t = (Z.of_nat k, live_total (replay ops), live_total (replay (take k ops)), ts_at ops k);
  mx_best : forall j, (j <= length ops)%nat -> live_total (replay (take j ops)) <= live_total (replay (take k ops));
  mx_first : forall j, (j < k)%nat -> live_total (replay (take j ops)) < live_total (replay (take k ops))
}.

Lemma absent_live t ops k j stack : max_at ops k t -> view t !! stack = None -> live_size stack (replay (take j ops)) = 0 /\ uses (replay (take j ops)) stack = 0.
Proof.
  intros HI Hn. unfold live_size, uses. split; apply msum_zero; intros A a E; unfold at_node; (rewrite decide_False; [done|]); intros ->;
    destruct (mx_dom _ _ _ HI j A a E) as [v Hv]; congruence.
Qed.
Lemma max_at_same ops k t t' : max_at ops k t -> view t' = view t -> maxima t' = maxima t -> max_at ops k t'.
Proof. intros [H1 H2 H3 H4 H5 H6] Ev Em. split; rewrite ?Ev, ?Em; done. Qed.
(** A callstack that is new has nothing to report. *)
Lemma max_at_new ops k t t' stack : max_at ops k t -> view t !! stack = None -> view t' = <[stack := (0, 0, (0, 0))]> (view t) -> maxima t' = maxima t -> max_at ops k t'.
Proof.
  intros HI Hn Ev Em. pose proof (fun j => absent_live t ops k j stack HI Hn) as H0. destruct HI as [H1 H2 H3 H4 H5 H6]. split; rewrite ?Em; try done.
  - intros q v. rewrite Ev. intros [[<- <-]|[_ E]]%lookup_insert_Some; [|by apply H2]. unfold snapshot. destruct (H0 k) as [-> ->]. 
    pose proof (H0 (length ops)) as Hnow. rewrite firstn_all in Hnow. by destruct Hnow as [-> ->].
  - intros j A a E. rewrite Ev, lookup_insert_is_Some. destruct (decide (stack = callstack_allocations a)); [by left|right; by eauto].
Qed.

(** *** A malloc *)

Section Malloc.
Context (ops : list Op) (o : Op) (ss asz : Z) (stack : NodePtr).
Let b := mkAllocation ss asz (op_seq o) stack.
Context (Hm : op_malloc o = Some (ss, asz, stack)) (Hseq : op_seq o = zlen ops + 1) (Hfresh : replay ops !! op_address o = None).
Context (Hs : sizes_ok (ops ++ [o])) (Hn : zlen (ops ++ [o]) < 2 ^ 64).

Lemma replay_malloc : replay (ops ++ [o]) = <[op_address o := b]> (replay ops).
Proof using Hm. rewrite replay_snoc. unfold replay_op. by rewrite Hm. Qed.
Lemma live_size_malloc q : live_size q (replay (ops ++ [o])) = live_size q (replay ops) + if decide (q = stack) then ss else 0.
Proof using Hm Hfresh. rewrite replay_malloc. unfold live_size. rewrite msum_insert_new by done. unfold at_node at 1. cbn. repeat case_decide; congruence || lia. Qed.
Lemma uses_malloc q : uses (replay (ops ++ [o])) q = uses (replay ops) q + if decide (q = stack) then 1 else 0.
Proof using Hm Hfresh. rewrite replay_malloc, uses_insert_new by done. unfold is_node. cbn. repeat case_decide; congruence || lia. Qed.
Lemma total_malloc : live_total (replay (ops ++ [o])) = live_total (replay ops) + ss.
Proof using Hm Hfresh. rewrite replay_malloc. unfold live_total. rewrite msum_insert_new by done. cbn. lia. Qed.

(** The sums with [o], the maxima as they were. *)
Lemma snapshot_malloc best q v : v = snapshot best (replay ops) q ->
  (if decide (q = stack) then (v.1.1, u64 (v.1.2 + ss), (v.2.1, u64 (v.2.2 + 1))) else v) = snapshot best (replay (ops ++ [o])) q.
Proof using Hm Hseq Hfresh Hs Hn.
  intros ->. pose proof (live_ranges _ q Hs Hn) as (H1 & H2 & H3). unfold snapshot. cbn [fst snd]. rewrite live_size_malloc, uses_malloc in *.
  case_decide as Hq; [|by rewrite !Z.add_0_r]. rewrite !u64_small by lia. done.
Qed.
Lemma dom_malloc k t t' : max_at ops k t -> is_Some (view t !! stack) -> (forall q, is_Some (view t !! q) -> is_Some (view t' !! q)) ->
  forall j A a, replay (take j (ops ++ [o])) !! A = Some a -> is_Some (view t' !! callstack_allocations a).
Proof using Hm.
  intros HI Hk Hd j A a E. apply Hd. destruct (decide (j <= length ops)%nat); [rewrite take_snoc in E by done; by eapply mx_dom|].
  rewrite take_ge in E by (rewrite length_app; cbn; lia). rewrite replay_malloc in E. apply lookup_insert_Some in E as [[_ <-]|[_ E]]; [done|].
  apply (mx_dom _ _ _ HI (length ops) A). by rewrite firstn_all.
Qed.

Lemma max_at_malloc k t t' : max_at ops k t -> dump_at_max_mode_ t = true -> AddToCallstackAllocations (op_ts o) b t = Ok t' -> exists k', max_at (ops ++ [o]) k' t'.
Proof using Hm Hseq Hfresh Hs Hn.
  intros HI Hmode (m & x & mc & xc & Ev & H)%Add_view; [|done]. cbn [callstack_allocations sample_size sequence_number b] in *.
  set (v := <[stack := _]> (view t)) in H. rewrite (mx_maxima _ _ _ HI) in H. pose proof (live_ranges _ stack Hs Hn) as (_ & Htot & _).
  assert (Hlen : zlen (ops ++ [o]) = zlen ops + 1) by apply zlen_app. pose proof (zlen_nonneg ops).
  assert (Hss : 0 <= live_total (replay ops) /\ 0 <= ss). { apply sizes_ok_snoc in Hs as [Hl Ho]. unfold size_of in Ho. rewrite Hm in Ho. pose proof (live_ranges ops stack Hl). lia. }
  rewrite (u64_small (live_total _ + ss)) in H by (rewrite <- total_malloc; rewrite total_malloc in *; lia). rewrite <- total_malloc in H.
  assert (Hv : forall q w, v !! q = Some w -> w = snapshot (replay (take k ops)) (replay (ops ++ [o])) q).
  { intros q w [[<- <-]|[Hq E]]%lookup_insert_Some; [|rewrite <- (snapshot_malloc _ _ w) by (by eapply mx_view); by rewrite decide_False].
    rewrite <- (snapshot_malloc _ stack _ (mx_view _ _ _ HI stack _ Ev)). by rewrite decide_True. }
  assert (Hdv : forall q, is_Some (view t !! q) -> is_Some (v !! q)) by (intros q Hq; unfold v; rewrite lookup_insert_is_Some; destruct (decide (stack = q)); auto).
  pose proof (dom_malloc k t) as Hdom. pose proof (mx_k _ _ _ HI) as Hk. cbn zeta in H.
  destruct (Z.leb_spec (live_total (replay (ops ++ [o]))) (live_total (replay (take k ops)))) as [Hle|Hgt].
  - destruct H as [Hv' Hmax]. exists k. split; rewrite ?take_snoc by done; rewrite ?Hv'; [rewrite length_app; lia|done|rewrite <- Hv'; apply (Hdom t'); [done|by exists (m, x, (mc, xc))|by rewrite Hv']| | |].
    + rewrite Hmax. f_equal. unfold ts_at. destruct k; [done|]. by rewrite lookup_app_l by lia.
    + intros j Hj. destruct (decide (j <= length ops)%nat); [rewrite take_snoc by done; by apply (mx_best _ _ _ HI)|]. by rewrite take_ge by (rewrite length_app in *; cbn in *; lia).
    + intros j Hj. rewrite take_snoc by lia. by apply (mx_first _ _ _ HI).
  - destruct H as [Hmax Hv']. exists (S (length ops)). assert (Htake : take (S (length ops)) (ops ++ [o]) = ops ++ [o]) by (apply take_ge; rewrite length_app; cbn; lia).
    assert (Hbelow : forall j, (j < S (length ops))%nat -> live_total (replay (take j (ops ++ [o]))) < live_total (replay (ops ++ [o]))).
    { intros j Hj. rewrite take_snoc by lia. pose proof (mx_best _ _ _ HI j ltac:(lia)). lia. }
    split; rewrite ?Htake; [rewrite length_app; cbn; lia| | | | |done].
    + intros q w. rewrite Hv', u64_small by (unfold zlen in *; lia). destruct (Z.eqb_spec (Z.of_nat k) (op_seq o - 1)) as [Ek|_].
      * assert (k = length ops) as -> by (unfold zlen in *; lia). rewrite firstn_all in Hv. intros [(Hq & w' & E & ->)|[Hq E]]%lookup_alter_Some; apply Hv in E as ->; [done|].
        unfold snapshot. rewrite live_size_malloc, uses_malloc. by rewrite !decide_False, !Z.add_0_r by congruence.
      * rewrite lookup_fmap, fmap_Some. intros (w' & E & ->). apply Hv in E as ->. done.
    + apply (Hdom t'); [done|by exists (m, x, (mc, xc))|]. intros q Hq%Hdv. rewrite Hv'. destruct (_ =? _); [by rewrite lookup_alter_is_Some|by rewrite lookup_fmap, fmap_is_Some].
    + rewrite Hmax, Hseq. unfold ts_at. rewrite lookup_app_r, Nat.sub_diag by lia. cbn. unfold zlen. repeat f_equal; lia.
    + intros j Hj. destruct (decide (j < S (length ops))%nat) as [Hlt|]; [apply Hbelow in Hlt; lia|]. rewrite take_ge by (rewrite length_app in *; cbn in *; lia). lia.
Qed.
End Malloc.

(** *** A free *)

Section Free.
Context (ops : list Op) (o : Op).
Context (Hm : op_malloc o = None) (Hs : sizes_ok (ops ++ [o])) (Hn : zlen (ops ++ [o]) < 2 ^ 64).

Lemma replay_free : replay (ops ++ [o]) = delete (op_address o) (replay ops).
Proof using Hm. rewrite replay_snoc. unfold replay_op. by rewrite Hm. Qed.
Lemma take_free j : (j <= length ops)%nat \/ replay (take j (ops ++ [o])) = delete (op_address o) (replay ops) /\ (length ops < j)%nat.
Proof using Hm.
  destruct (decide (j <= length ops)%nat); [by left|right]. split; [|lia]. rewrite take_ge by (rewrite length_app; cbn; lia). apply replay_free.
Qed.

(** [t'] has the sums without what is freed. *)
Lemma max_at_less k t t' : max_at ops k t -> (forall q, is_Some (view t !! q) -> is_Some (view t' !! q)) ->
  (forall q w, view t' !! q = Some w -> w = snapshot (replay (take k ops)) (replay (ops ++ [o])) q) ->
  maxima t' = (Z.of_nat k, live_total (replay (ops ++ [o])), live_total (replay (take k ops)), ts_at ops k) ->
  live_total (replay (ops ++ [o])) <= live_total (replay ops) -> max_at (ops ++ [o]) k t'.
Proof using Hm.
  intros HI Hd Hv Hmax Hle. pose proof (mx_k _ _ _ HI) as Hk. split; rewrite ?take_snoc by done; [rewrite length_app; lia|done| | | |].
  - intros j A a E. apply Hd. destruct (take_free j) as [Hj|[Ej _]]; [rewrite take_snoc in E by done; by eapply mx_dom|].
    rewrite Ej in E. apply lookup_delete_Some in E as [_ E]. apply (mx_dom _ _ _ HI (length ops) A). by rewrite firstn_all.
  - rewrite Hmax. f_equal. unfold ts_at. destruct k; [done|]. by rewrite lookup_app_l by lia.
  - intros j _. pose proof (mx_best _ _ _ HI (length ops) ltac:(lia)) as Hnow. rewrite firstn_all in Hnow.
    destruct (take_free j) as [Hj|[-> _]]; [rewrite take_snoc by done; by apply (mx_best _ _ _ HI)|]. rewrite <- replay_free. lia.
  - intros j Hj. rewrite take_snoc by lia. by apply (mx_first _ _ _ HI).
Qed.

Lemma max_at_unknown k t : max_at ops k t -> replay ops !! op_address o = None -> max_at (ops ++ [o]) k t.
Proof using Hm.
  intros HI E. assert (Er : replay (ops ++ [o]) = replay ops) by (rewrite replay_free; by apply delete_id).
  apply (max_at_less k t); rewrite ?Er; [done|done|by apply HI|by apply HI|lia].
Qed.
Lemma max_at_free k t t' a : max_at ops k t -> dump_at_max_mode_ t = true -> replay ops !! op_address o = Some a ->
  SubtractFromCallstackAllocations a t = Ok t' -> max_at (ops ++ [o]) k t'.
Proof using Hm Hs Hn.
  intros HI Hmode E (m & x & mc & xc & Ev & Hv' & H)%Subtract_view; [|done]. rewrite (mx_maxima _ _ _ HI) in H.
  apply sizes_ok_snoc in Hs as Hsl. destruct Hsl as [Hsl _]. pose proof (replay_sizes _ _ _ Hsl E) as Ha. assert (Hlen : zlen (ops ++ [o]) = zlen ops + 1) by apply zlen_app.
  assert (Htot : live_total (replay (ops ++ [o])) = live_total (replay ops) - sample_size a) by (rewrite replay_free; unfold live_total; by apply msum_delete).
  apply (max_at_less k t); [done| | | |lia].
  - intros q Hq. rewrite Hv', lookup_insert_is_Some. destruct (decide (callstack_allocations a = q)); auto.
  - intros q w. rewrite Hv'. pose proof (live_ranges _ q Hs Hn) as (H1 & H2 & H3).
    assert (Hq : live_size q (replay (ops ++ [o])) = live_size q (replay ops) - (if decide (q = callstack_allocations a) then sample_size a else 0)).
    { rewrite replay_free. unfold live_size. rewrite (msum_delete _ _ _ a) by done. done. }
    assert (Hu : uses (replay (ops ++ [o])) q = uses (replay ops) q - (if decide (q = callstack_allocations a) then 1 else 0)).
    { rewrite replay_free, (uses_delete _ _ a) by done. unfold is_node. repeat case_decide; congruence || lia. }
    unfold snapshot. intros [[<- <-]|[Hne Hw]]%lookup_insert_Some.
    + apply (mx_view _ _ _ HI) in Ev. injection Ev as -> -> -> ->. rewrite decide_True in Hq, Hu by done. rewrite <- Hq, <- Hu, !u64_small by lia. done.
    + apply (mx_view _ _ _ HI) in Hw as ->. rewrite Hq, Hu, !decide_False, !Z.sub_0_r by done. done.
  - rewrite H, <- Htot, u64_small; [done|]. pose proof (live_ranges _ [] Hs Hn). lia.
Qed.
End Free.

(** ** Through the operations *)

Lemma update_csa_rest k f t t' : update_csa k f t = Ok t' -> rest t' = rest t.
Proof. unfold update_csa. destruct (_ !! _); [|done]. intros [= <-]. by destruct t. Qed.
Lemma SetCallstackAllocations_rest old new t t' : SetCallstackAllocations old new t = Ok t' -> rest t' = rest t.
Proof.
  unfold SetCallstackAllocations. intros (t1 & E1 & E2)%obind_ok. transitivity (rest t1).
  - destruct new; [by eapply update_csa_rest|by injection E2 as <-].
  - destruct old; [by eapply update_csa_rest|by injection E1 as <-].
Qed.
Lemma Add_rest ts a t t' : AddToCallstackAllocations ts a t = Ok t' -> is_Some (view t !! callstack_allocations a) -> rest t' = rest t.
Proof.
  intros E [v (c & Ec & _)%view_csa]. destruct (AddToCallstackAllocations_effect ts a t) as (t2 & E2 & Hef); [by exists c|].
  assert (t2 = t') as -> by congruence. apply Hef.
Qed.
Lemma CreateCallsite_node frames s : (CreateCallsite frames s).1 = frames.
Proof.
  unfold CreateCallsite. induction frames as [|f l IH]; [done|]. cbn [rev]. rewrite fold_left_app. destruct (fold_left _ (rev l) _) as [node s1]. cbn in IH. subst node.
  cbn [fold_left]. unfold GetOrCreateChild, GetChild. by destruct (nodes s1 !! (f :: l)).
Qed.

(** The parts of [t] that matter here are those of [t']. *)
Record alike (t t' : HeapTracker) : Prop := {
  al_view : view t' = view t;
  al_maxima : maxima t' = maxima t;
  al_mode : dump_at_max_mode_ t' = dump_at_max_mode_ t;
  al_pending : pending_operations_ t' = pending_operations_ t;
  al_dead : dead_callstack_allocations_ t' = dead_callstack_allocations_ t;
  al_committed : committed_sequence_number_ t' = committed_sequence_number_ t
}.
#[export] Instance alike_preorder : PreOrder alike.
Proof. split; [by split|]. intros t1 t2 t3 [] []. split; congruence. Qed.
Lemma alike_Set old new t t' : SetCallstackAllocations old new t = Ok t' -> alike t t'.
Proof. intros H. destruct (SetCallstackAllocations_view _ _ _ _ H). pose proof (SetCallstackAllocations_rest _ _ _ _ H) as [= ? ? ? ? ? ?]. split; congruence. Qed.
Lemma alike_setters a p c1 c2 fc t : alike t (set_allocations a t) /\ alike t (set_cache fc t) /\ view (set_committed c1 c2 t) = view t /\ view (set_pending p t) = view t.
Proof. destruct t. by repeat split. Qed.
Lemma max_at_alike ops k t t' : alike t t' -> max_at ops k t -> max_at ops k t'.
Proof. intros [Hv Hm _ _ _ _] HI. by eapply max_at_same. Qed.

(** The tracker when the first [n] operations are committed and none is waiting. *)
Record ready (ops : list Op) (k : nat) (t : HeapTracker) : Prop := {
  rd_max : max_at ops k t;
  rd_mode : dump_at_max_mode_ t = true;
  rd_allocations : allocations_ t = replay ops;
  rd_pending : pending_operations_ t = [];
  rd_dead : dead_callstack_allocations_ t = [];
  rd_committed : committed_sequence_number_ t = zlen ops
}.

Lemma MaybeCreate_max ops k frames s t s' t' : max_at ops k t -> MaybeCreateCallstackAllocations frames s t = Ok (s', t') ->
  max_at ops k t' /\ rest t' = rest t /\ is_Some (view t' !! frames).
Proof.
  intros HI. unfold MaybeCreateCallstackAllocations. destruct (callstack_allocations_ t !! frames) as [c|] eqn:E.
  - intros [= <- <-]. split; [done|]. split; [done|]. exists (words c). apply view_csa. by exists c.
  - intros (s1 & _ & [= <- <-])%obind_ok. rewrite view_set_csas, view_insert. split; [|split; [by destruct t|by rewrite lookup_insert_eq]].
    eapply max_at_new; [exact HI| |by rewrite view_set_csas, view_insert|by destruct t]. unfold view. by rewrite lookup_fmap, E.
Qed.
Lemma store_allocation_max frames A ss asz seq ts s t s' t' ops k :
  max_at ops k t -> allocations_ t !! A = None -> store_allocation frames A ss asz seq ts s t = Ok (s', t') ->
  max_at ops k t' /\ (dump_at_max_mode_ t', pending_operations_ t', dead_callstack_allocations_ t', committed_sequence_number_ t') =
    (dump_at_max_mode_ t, pending_operations_ t, dead_callstack_allocations_ t, committed_sequence_number_ t) /\
  allocations_ t' = <[A := mkAllocation ss asz seq frames]> (allocations_ t) /\ is_Some (view t' !! frames).
Proof.
  intros HI E. unfold store_allocation. rewrite E. destruct (CreateCallsite frames s) as [node s1] eqn:Ec.
  pose proof (CreateCallsite_node frames s) as Hn. rewrite Ec in Hn. cbn in Hn. subst node. intros ([s2 t1] & E1 & (t2 & E2 & [= <- <-])%obind_ok)%obind_ok.
  destruct (MaybeCreate_max ops k frames s1 t s2 t1 HI E1) as (HI1 & Hr1 & Hv1). pose proof (alike_Set _ _ _ _ E2) as Ha.
  pose proof (SetCallstackAllocations_rest _ _ _ _ E2) as Hr2. set (m := <[A := _]> (allocations_ t2)). pose proof (alike_setters m [] 0 0 ∅ t2) as [Ha' _].
  assert (Ha2 : alike t1 (set_allocations m t2)) by (by transitivity t2). split; [by eapply max_at_alike|]. destruct Ha2 as [A1 A2 A3 A4 A5 A6].
  rewrite A1, A3, A4, A5, A6. injection Hr1 as R1 R2 R3 R4 R5 _. injection Hr2 as R _ _ _ _ _. split; [congruence|]. split; [|done]. rewrite allocations_set. unfold m. by rewrite R, R1.
Qed.

(** Committing an operation in order: an allocation that was just stored, one that is freed,
    an address that is not known. *)
Lemma CommitOperation_max ops k o t t' :
  max_at ops k t -> dump_at_max_mode_ t = true -> op_seq o = zlen ops + 1 -> sizes_ok (ops ++ [o]) -> zlen (ops ++ [o]) < 2 ^ 64 ->
  (match op_malloc o with
   | Some (ss, asz, stack) => allocations_ t !! op_address o = Some (mkAllocation ss asz (op_seq o) stack) /\ replay ops !! op_address o = None /\ is_Some (view t !! stack)
   | None => allocations_ t = replay ops /\ in_order ops
   end) ->
  CommitOperation (op_seq o) (pending_of o) t = Ok t' -> exists k', max_at (ops ++ [o]) k' t' /\ (pending_operations_ t', dead_callstack_allocations_ t') = (pending_operations_ t, dead_callstack_allocations_ t).
Proof.
  intros HI Hmode Hseq Hs Hn Ho. unfold CommitOperation. set (t1 := set_committed _ _ t). cbn [pending_of allocation_address timestamp].
  assert (E1 : view t1 = view t /\ maxima t1 = maxima t /\ dump_at_max_mode_ t1 = true /\ allocations_ t1 = allocations_ t /\ (pending_operations_ t1, dead_callstack_allocations_ t1) = (pending_operations_ t, dead_callstack_allocations_ t)) by (by destruct t).
  destruct E1 as (V1 & X1 & M1 & A1 & P1). clearbody t1. rewrite A1. intros H. rewrite <- P1. assert (HI1 : max_at ops k t1) by (by eapply max_at_same). destruct (op_malloc o) as [[[ss asz] stack]|] eqn:Em.
  - destruct Ho as (E & Hfresh & Hv). rewrite E in H. cbn [sequence_number] in H. rewrite Z.eqb_refl in H. rewrite <- V1 in Hv. pose proof (Add_rest _ _ _ _ H Hv) as [= _ P _ _ D _].
    destruct (max_at_malloc ops o ss asz stack Em Hseq Hfresh Hs Hn k t1 t' HI1 M1 H) as [k' Hk']. exists k'. by rewrite P, D.
  - destruct Ho as [E Hi]. rewrite E in H. exists k. destruct (replay ops !! op_address o) as [a|] eqn:Ea.
    + pose proof (replay_le _ _ _ Hi Ea). replace (_ =? _) with false in H by lia. replace (_ <? _) with true in H by lia.
      apply obind_ok in H as (t2 & E2 & (t3 & E3 & [= <-])%obind_ok). pose proof (max_at_free ops o Em Hs Hn k t1 t2 a HI1 M1 Ea E2) as HI2.
      pose proof (alike_Set _ _ _ _ E3) as Ha. set (m := delete _ (allocations_ t3)). pose proof (alike_setters m [] 0 0 ∅ t3) as [Ha' _].
      assert (Ha3 : alike t2 (set_allocations m t3)) by (by transitivity t3). split; [by eapply max_at_alike|]. rewrite (al_pending _ _ Ha3), (al_dead _ _ Ha3).
      unfold SubtractFromCallstackAllocations in E2. rewrite M1 in E2. apply update_csa_rest in E2 as [= _ -> _ _ -> _]. by destruct t1.
    + injection H as <-. split; [|done]. by apply max_at_unknown.
Qed.

Lemma RecordOperation_max ops k o t t' :
  max_at ops k t -> dump_at_max_mode_ t = true -> pending_operations_ t = [] -> committed_sequence_number_ t = zlen ops ->
  op_seq o = zlen ops + 1 -> sizes_ok (ops ++ [o]) -> zlen (ops ++ [o]) < 2 ^ 64 ->
  (match op_malloc o with
   | Some (ss, asz, stack) => allocations_ t !! op_address o = Some (mkAllocation ss asz (op_seq o) stack) /\ replay ops !! op_address o = None /\ is_Some (view t !! stack)
   | None => allocations_ t = replay ops /\ in_order ops
   end) ->
  RecordOperation (op_seq o) (pending_of o) t = Ok t' -> exists k', max_at (ops ++ [o]) k' t' /\ dead_callstack_allocations_ t' = dead_callstack_allocations_ t.
Proof.
  intros HI Hmode Hp Hc Hseq Hs Hn Ho. unfold RecordOperation. pose proof (zlen_nonneg ops). pose proof Hn as Hn1. rewrite zlen_app in Hn1. change (zlen [o]) with 1 in Hn1.
  rewrite Hc, u64_small by lia. replace (op_seq o =? zlen ops + 1) with true by lia. intros (t1 & E & H1)%obind_ok.
  destruct (CommitOperation_max ops k o t t1 HI Hmode Hseq Hs Hn Ho E) as (k' & HI' & [= Hp' Hd']). rewrite Hp', Hp in H1. injection H1 as <-. exists k'.
  split; [by eapply max_at_same; [|destruct t1|destruct t1]|]. rewrite <- Hd'. by destruct t1.
Qed.

Lemma RecordFree_max ops k A ts t t' : let o := mkOp (zlen ops + 1) A ts None in
  ready ops k t -> in_order ops -> sizes_ok (ops ++ [o]) -> zlen (ops ++ [o]) < 2 ^ 64 ->
  RecordFree A (zlen ops + 1) ts t = Ok t' -> exists k', max_at (ops ++ [o]) k' t' /\ dead_callstack_allocations_ t' = dead_callstack_allocations_ t.
Proof. intros o [H1 H2 H3 H4 _ H5] Hi Hs Hn. by apply (RecordOperation_max ops k o t). Qed.
Lemma RecordMalloc_max F ops k callstack build_ids A ss asz ts s t s' t' : let o := mkOp (zlen ops + 1) A ts (Some (ss, asz, stack_of callstack build_ids)) in
  ready ops k t -> cache_ok F (frame_cache_ t) -> by_pc F (zip callstack build_ids) -> replay ops !! A = None -> sizes_ok (ops ++ [o]) -> zlen (ops ++ [o]) < 2 ^ 64 ->
  RecordMalloc callstack build_ids A ss asz (zlen ops + 1) ts s t = Ok (s', t') -> exists k', max_at (ops ++ [o]) k' t' /\ dead_callstack_allocations_ t' = dead_callstack_allocations_ t.
Proof.
  intros o [H1 H2 H3 H4 _ H5] Hc Hpc Hf Hs Hn. unfold RecordMalloc. intros (_ & _ & H)%obind_ok.
  destruct (intern_frames_ok F _ _ Hpc Hc) as (cache & E & _). rewrite E in H. apply obind_ok in H as ([s1 t1] & Est & (t2 & Er & [= <- <-])%obind_ok).
  pose proof (alike_setters ∅ [] 0 0 cache t) as (_ & Ha & _). assert (Hal : allocations_ (set_cache cache t) = replay ops) by (by destruct t).
  eapply store_allocation_max in Est as (HI1 & [= M1 P1 D1 C1] & A1 & V1); [|by eapply max_at_alike|by rewrite Hal].
  rewrite <- (al_dead _ _ Ha), <- D1. apply (RecordOperation_max ops k o t1); try done.
  - by rewrite M1, (al_mode _ _ Ha).
  - by rewrite P1, (al_pending _ _ Ha).
  - by rewrite C1, (al_committed _ _ Ha).
  - cbn [op_malloc o op_address op_seq]. rewrite A1, Hal, lookup_insert_eq. done.
Qed.

(** ** Sessions *)

(** The heap is neither dumped nor gone. *)
Definition undisturbed (heap : Z) (c : call) : Prop := match c with Dump_call h | Destroy_call h => h <> heap | _ => True end.

Lemma fresh_snoc ops o : fresh (ops ++ [o]) -> fresh ops /\ (op_malloc o <> None -> replay ops !! op_address o = None).
Proof.
  intros Hf. split.
  - intros j o' Hj Hm. pose proof (lookup_lt_Some _ _ _ Hj). rewrite <- (take_snoc ops o) by lia. apply Hf; [|done]. by apply lookup_app_l_Some.
  - intros Hm. specialize (Hf (length ops) o). rewrite take_snoc, firstn_all in Hf by lia. apply Hf; [|done]. by rewrite lookup_app_r, Nat.sub_diag by lia.
Qed.
Lemma records_length heap l : zlen (records heap l) <= zlen l.
Proof.
  induction l as [|c l IH] using rev_ind; [done|]. rewrite records_snoc, zlen_app. change (zlen [c]) with 1. pose proof (zlen_nonneg l).
  assert (H1 : forall o : Op, zlen (records heap l ++ [o]) <= zlen l + 1) by (intros o; rewrite zlen_app; change (zlen [o]) with 1; lia).
  destruct c; cbn [note]; try case_match; try apply H1; change (zlen []) with 0; lia.
Qed.
(** Calls on other heaps. *)
Lemma exec_call_other mode heap c w w' : heap_of c <> heap -> exec_call mode c w = Ok w' -> GetHeapTracker mode heap w' = GetHeapTracker mode heap w.
Proof.
  intros Hh. destruct c; cbn [exec_call heap_of] in *.
  - intros ([s t] & _ & [= <-])%obind_ok. by rewrite get_insert, decide_False.
  - intros (t & _ & [= <-])%obind_ok. by rewrite get_insert, decide_False.
  - intros ([[r s] t] & _ & [= <-])%obind_ok. by rewrite get_insert, decide_False.
  - intros [= <-]. by rewrite get_insert, decide_False.
  - intros (s & _ & [= <-])%obind_ok. unfold GetHeapTracker. cbn. by rewrite lookup_delete_ne.
Qed.

Lemma ready_intro F ops k t : tracker_ok F true ops t -> in_order ops -> max_at ops k t -> dead_callstack_allocations_ t = [] -> ready ops k t.
Proof. intros Ht Hi HI Hd. destruct (all_arrived F true ops t ops Ht Hi ltac:(done)) as (E1 & E2 & E3). split; [done|by apply Ht|done..]. Qed.

Section Step.
Context (F : Z -> Z -> Frame) (heap : Z) (l : list call) (c : call) (w w' : Heaps) (k : nat).
Context (HI : world_inv F true l w) (Hrd : ready (records heap l) k (GetHeapTracker true heap w)).
Context (Hc : rule F l c) (Hb : bounded (l ++ [c])) (Hu : undisturbed heap c) (E : exec_call true c w = Ok w').

Lemma step_ready :
  let ops := records heap (l ++ [c]) in in_order ops -> fresh ops -> sizes_ok ops ->
  exists k', max_at ops k' (GetHeapTracker true heap w') /\ dead_callstack_allocations_ (GetHeapTracker true heap w') = [].
Proof using All.
  intros ops Hi Hf Hs. assert (Hlen : zlen ops < 2 ^ 64) by (pose proof (records_length heap (l ++ [c])); destruct Hb; unfold ops; lia).
  unfold ops in *. rewrite records_snoc in *. pose proof (rd_dead _ _ _ Hrd) as Hdead. destruct (decide (heap_of c = heap)) as [Hh|Hh].
  - destruct c as [h callstack build_ids A ss asz seq ts|h A seq ts|h|h|h]; cbn [heap_of undisturbed] in *; subst h; try done; cbn [note exec_call rule] in *; rewrite ?Z.eqb_refl in *.
    + apply obind_ok in E as ([s t] & Er & [= <-]). rewrite get_insert, decide_True by done. pose proof Hi as [_ Hseq]%in_order_snoc. cbn [op_seq] in Hseq. subst seq.
      pose proof Hf as [_ Hnew]%fresh_snoc. destruct Hc as (_ & Hpc & _). rewrite <- Hdead.
      apply (RecordMalloc_max (F heap) (records heap l) k callstack build_ids A ss asz ts (callsites w) (GetHeapTracker true heap w) s t Hrd); [|done|by apply Hnew|done..]. apply (wi_trackers _ _ _ _ HI heap).
    + apply obind_ok in E as (t & Er & [= <-]). rewrite get_insert, decide_True by done. pose proof Hi as [Hi' Hseq]%in_order_snoc. cbn [op_seq] in Hseq. subst seq.
      rewrite <- Hdead. by apply (RecordFree_max (records heap l) k A ts (GetHeapTracker true heap w) t).
    + injection E as <-. rewrite get_insert, decide_True by done. exists k. split; [|rewrite <- Hdead; by destruct (GetHeapTracker true heap w)].
      eapply max_at_alike; [|apply Hrd]. apply (alike_setters ∅ [] 0 0 ∅).
  - rewrite (exec_call_other true heap c w w' Hh E), note_other by congruence. exists k. split; [apply Hrd|done].
Qed.
End Step.

Lemma exec_calls_max F heap l : rules F l -> bounded l -> Forall (undisturbed heap) l ->
  let ops := records heap l in in_order ops -> fresh ops -> sizes_ok ops ->
  exists w k, exec_calls true l Heaps_new = Ok w /\ world_inv F true l w /\ ready ops k (GetHeapTracker true heap w).
Proof.
  induction l as [|c l IH] using rev_ind; intros Hr Hb Hu ops Hi Hf Hs.
  - exists Heaps_new, 0%nat. split; [done|]. pose proof (world_inv_new F true) as HI. split; [done|]. apply (ready_intro (F heap)); [apply HI|done| |done]. split; cbn; [lia| | | | |].
    + intros q v. change (view _) with (words <$> (∅ : gmap NodePtr CallstackAllocations)). by rewrite fmap_empty, lookup_empty.
    + intros j A a. by rewrite firstn_nil.
    + done.
    + intros j _. by rewrite firstn_nil.
    + intros j Hj. lia.
  - apply rules_app in Hr as [Hr [Hc _]]. apply Forall_app in Hu as [Hu [Huc _]%Forall_cons].
    assert (Hpre : in_order (records heap l) /\ fresh (records heap l) /\ sizes_ok (records heap l)).
    { unfold ops in *. rewrite records_snoc in Hi, Hf, Hs. destruct c; cbn [note undisturbed] in *; repeat case_match; try done; try (by apply Z.eqb_eq in H; congruence);
        apply in_order_snoc in Hi; apply fresh_snoc in Hf; apply sizes_ok_snoc in Hs; naive_solver. }
    destruct Hpre as (Hi' & Hf' & Hs'). destruct IH as (w & k & E & HI & Hrd); [done|by eapply bounded_prefix|done..|].
    destruct (exec_call_ok F true l w c HI Hc Hb) as (w' & E' & HI').
    destruct (step_ready F heap l c w w' k HI Hrd Hc Hb Huc E' Hi Hf Hs) as (k' & HI2 & Hd). exists w', k'. rewrite exec_calls_app, E. cbn [obind exec_calls]. rewrite E'. split; [done|]. split; [done|].
    by apply (ready_intro (F heap)); [apply HI'| | |].
Qed.

(** ** The theorem *)

(** The first moment at which the heap is at its largest. *)
Definition first_max (ops : list Op) (k : nat) : Prop := (k <= length ops)%nat /\
  (forall j, (j <= length ops)%nat -> live_total (replay (take j ops)) <= live_total (replay (take k ops))) /\
  (forall j, (j < k)%nat -> live_total (replay (take j ops)) < live_total (replay (take k ops))).

Lemma max_at_csa ops k t stack c : max_at ops k t -> callstack_allocations_ t !! stack = Some c ->
  max c = live_size stack (replay (take k ops)) /\ max_count c = uses (replay (take k ops)) stack.
Proof.
  intros HI E. assert (Hv : view t !! stack = Some (words c)) by (apply view_csa; by exists c). apply (mx_view _ _ _ HI) in Hv. unfold words, snapshot in Hv. by injection Hv.
Qed.

(** C23. With dump_at_max, for a heap that has been neither dumped nor destroyed before (see
    [maximum_dropped] for one that has), when its records arrive in order, no malloc returns
    an address that is in use and the sampled sizes add up to less than 2^64, what is reported
    is the heap at the first moment at which it was at its largest, whatever is done to the
    other heaps: dump_timestamp is that of the malloc that made it so large; a dump reports
    every callstack that had live allocations then, and for each callstack the bytes and
    the number of allocations it had then, which are also what GetMaxForTesting and
    GetMaxCountForTesting return. In particular only updating the callstack of the malloc
    when the last operation was the maximum is as good as updating all. *)
Theorem dump_at_max_in_order F calls heap :
  let ops := records heap calls in
  rules F calls -> bounded calls -> Forall (undisturbed heap) calls -> in_order ops -> fresh ops -> sizes_ok ops ->
  exists w k, exec_calls true calls Heaps_new = Ok w /\ first_max ops k /\
    let t := GetHeapTracker true heap w in let best := replay (take k ops) in
    dump_timestamp t = ts_at ops k /\
    (exists reported t', GetCallstackAllocations (callsites w) t = Ok (reported, callsites w, t') /\
      (forall stack c, (stack, c) ∈ reported -> max c = live_size stack best /\ max_count c = uses best stack) /\
      (forall A a, best !! A = Some a -> callstack_allocations a ∈ reported.*1)) /\
    (forall stack build_ids, zlen stack = zlen build_ids -> 1 + total_frames calls + zlen stack < 2 ^ 64 ->
      exists s1 s2, GetMaxForTesting stack build_ids (callsites w) t = Ok (live_size (stack_of stack build_ids) best, s1) /\
        GetMaxCountForTesting stack build_ids (callsites w) t = Ok (uses best (stack_of stack build_ids), s2)).
Proof.
  intros ops Hr Hb Hu Hi Hf Hs. destruct (exec_calls_max F heap calls Hr Hb Hu Hi Hf Hs) as (w & k & E & HI & Hrd). exists w, k. split; [done|].
  pose proof Hrd as [HM Hmode _ _ Hdead _]. split; [split; [apply HM|split; apply HM]|]. set (t := GetHeapTracker true heap w) in *. intros t1 best. subst t1.
  split; [|split].
  - unfold dump_timestamp. rewrite Hmode. pose proof (mx_maxima _ _ _ HM) as Hx. by injection Hx.
  - unfold GetCallstackAllocations. rewrite Hdead. cbn [drop_dead obind]. eexists _, _. split; [reflexivity|]. split.
    + intros stack c Hin%elem_of_map_to_list. by apply (max_at_csa ops k t).
    + intros A a Ha. destruct (mx_dom _ _ _ HM k A a Ha) as [v (c & Ec & _)%view_csa]. apply list_elem_of_fmap. exists (callstack_allocations a, c). split; [done|]. by apply elem_of_map_to_list.
  - intros stack build_ids Hl Hn.
    assert (Hall : forall read, exists s, ForTesting stack build_ids read (callsites w) t =
      Ok (match callstack_allocations_ t !! stack_of stack build_ids with None => 0 | Some c => read c end, s)).
    { intros read. apply (ForTesting_ok stack build_ids read (total_refs w)); [done| | | |apply HI].
      - split; [intros p; apply msum_nonneg|intros f p; apply msum_le]; intros h t' _; unfold refs; [unfold refs_in; lia|apply refs_in_parent].
      - pose proof (wi_size _ _ _ _ HI). destruct Hb. lia.
      - pose proof (wi_next _ _ _ _ HI). lia. }
    destruct (Hall max) as [s1 E1], (Hall max_count) as [s2 E2]. exists s1, s2. unfold GetMaxForTesting, GetMaxCountForTesting. rewrite E1, E2.
    destruct (callstack_allocations_ t !! _) as [c|] eqn:Ec; [by destruct (max_at_csa ops k t _ c HM Ec) as [-> ->]|].
    destruct (absent_live t ops k k (stack_of stack build_ids) HM) as [E3 E4]; [unfold view; by rewrite lookup_fmap, Ec|]. unfold best. by rewrite E3, E4.
Qed.

(** Two callstacks; the heap is largest after the second of five records. *)
Definition max_calls : list call :=
  [Malloc_call 1 test_stack1 test_ids 7 10 10 1 100; Malloc_call 2 test_stack1 test_ids 7 99 99 1 1; Malloc_call 1 test_stack2 test_ids 8 5 5 2 200;
   ClearFrameCache_call 1; Free_call 1 7 3 300; Malloc_call 1 test_stack2 test_ids 9 1 1 4 400; Dump_call 2; Free_call 1 7 5 500].
Lemma max_rules : rules test_F max_calls.
Proof. unfold rules. apply (bool_decide_unpack _). vm_compute. exact I. Qed.
Lemma dump_at_max_in_order_witness : exists w, exec_calls true max_calls Heaps_new = Ok w /\
  dump_timestamp (GetHeapTracker true 1 w) = 200 /\
  exists s, GetMaxForTesting test_stack1 test_ids (callsites w) (GetHeapTracker true 1 w) = Ok (10, s).
Proof.
  destruct (dump_at_max_in_order test_F max_calls 1 max_rules) as (w & k & E & (Hk & Hmax & Hfirst) & Hts & _ & H).
  - by split.
  - repeat constructor; discriminate.
  - reflexivity.
  - intros j o Hj Hm. do 5 (destruct j as [|j]; [injection Hj as <-; (reflexivity || by destruct Hm)|]). discriminate.
  - split; [repeat constructor; discriminate|reflexivity].
  - exists w. split; [exact E|]. assert (k = 2%nat) as ->.
    { clear -Hk Hmax Hfirst. assert (H2 : (k < 2)%nat \/ k = 2%nat \/ (2 < k)%nat) by lia. destruct H2 as [H2|[H2|H2]]; [exfalso| |exfalso]; [|exact H2|].
      - specialize (Hmax 2%nat ltac:(cbn; lia)). destruct k as [|[|k]]; [| |lia]; vm_compute in Hmax; by apply Hmax.
      - specialize (Hfirst 2%nat H2). do 3 (destruct k as [|k]; [lia|]). do 3 (destruct k as [|k]; [by vm_compute in Hfirst|]). cbn in Hk. lia. }
    split; [rewrite Hts; reflexivity|]. destruct (H test_stack1 test_ids eq_refl eq_refl) as (s1 & s2 & Hs & _). exists s1. rewrite Hs. vm_compute. reflexivity.
Defined.
