(* ===== verification/HeapTrackerExhibits.v ===== *)
(** * What the heap profiler gets wrong

    Sessions outside the conditions of the theorems about HeapTracker, evaluated. *)

From S2P Require Import Prelude CallstackTrie HeapTracker HeapTrackerRecord HeapTrackerSession.

(** What a heap says about two callstacks after some calls. *)
Definition observe {A} (mode : bool) (calls : list call) (f : Trie -> HeapTracker -> outcome A) : outcome A :=
  let! w := exec_calls mode calls Heaps_new in f (callsites w) (GetHeapTracker mode 1 w).
(** The largest size of the heap, and what is reported for the two callstacks. *)
Definition maximum_report (s : Trie) (t : HeapTracker) : outcome (Z * Z * Z) :=
  let! (m1, _) := GetMaxForTesting test_stack1 test_ids s t in
  let! (m2, _) := GetMaxForTesting test_stack2 test_ids s t in
  Ok (max_unfreed_ t, m1, m2).
(** The sums of the first callstack. *)
Definition totals (_ : Trie) (t : HeapTracker) : outcome (option (Z * Z)) :=
  Ok ((fun c => (allocated c, freed c)) <$> callstack_allocations_ t !! stack_of test_stack1 test_ids).

(** A malloc at an address that is in use, whose free was never seen: the 5 bytes of the
    first malloc count as freed, the heap is largest with the 20 bytes of the second, and
    yet 5 bytes are reported for the first. The shortcut of AddToCallstackAllocations takes
    the callstack of the malloc to be the only one that changed since the last maximum. *)
Theorem replaced_allocation_reported :
  observe true [Malloc_call 1 test_stack1 test_ids 7 5 5 1 100; Malloc_call 1 test_stack2 test_ids 7 20 20 2 200] maximum_report = Ok (20, 5, 20).
Proof. vm_compute. reflexivity. Qed.

(** Two mallocs at an address: whether the first is counted depends on which arrives first. *)
Theorem late_malloc_not_counted :
  observe false [Malloc_call 1 test_stack1 test_ids 7 5 5 1 100; Malloc_call 1 test_stack2 test_ids 7 20 20 2 200] totals = Ok (Some (5, 5)) /\
  observe false [Malloc_call 1 test_stack2 test_ids 7 20 20 2 200; Malloc_call 1 test_stack1 test_ids 7 5 5 1 100] totals = Ok None.
Proof. split; vm_compute; reflexivity. Qed.

(** A record whose sequence number was committed before stays first in pending_operations_:
    the malloc and the free that come after it are never committed. *)
Theorem stale_record_blocks :
  observe false [Malloc_call 1 test_stack1 test_ids 7 5 5 1 100; Free_call 1 9 1 150; Free_call 1 7 3 300; Malloc_call 1 test_stack2 test_ids 8 20 20 2 200; Free_call 1 8 4 400]
    (fun _ t => Ok (committed_sequence_number_ t, (pending_operations_ t).*1)) = Ok (2, [1; 3; 4]).
Proof. vm_compute. reflexivity. Qed.

(** With dump_at_max, a callstack without allocations at two dumps is dropped before the
    second, although the heap was at its largest in between: that dump reports nothing. *)
Theorem maximum_dropped :
  let before := [Malloc_call 1 test_stack1 test_ids 7 5 5 1 100; Free_call 1 7 2 200; Dump_call 1; Malloc_call 1 test_stack1 test_ids 7 20 20 3 300; Free_call 1 7 4 400] in
  observe true before maximum_report = Ok (20, 20, 0) /\
  observe true before (fun s t => let! (reported, _, _) := GetCallstackAllocations s t in Ok (length reported)) = Ok 0%nat.
Proof. split; vm_compute; reflexivity. Qed.
